(* ===== verification/_CoqProject ===== *)
-Q . S2P
Prelude.v
Endianconv.v
Lzf.v
Crc64.v
Intset.v
Numstr.v
Dict.v
DictScan.v
Sds.v
SdsText.v
Zskiplist.v
ZslOps.v
Bitops.v
Adlist.v
Ziplist.v
ZiplistOps.v
Networking.v
Replies.v
Replication.v
Cluster.v
ClusterElection.v
ClusterSlots.v
Objects.v
Db.v
Keyspace.v
Commands.v
CommandsInv.v
CommandsRefine.v
WatchTables.v
Requests.v
Watching.v
Rdb.v
RdbLoad.v
