(* ===== verification/Prelude.v ===== *)
(** * A verification of the core of Redis 5.0.5

    The sources are under [src/redis_505/src].  Redis is a single-threaded
    server.  The read handler of a client fills its query buffer and cuts it
    into commands ([networking.c]); a command is looked up, checked, and
    executed or queued ([server.c], [multi.c]) on databases that map keys to
    shared objects ([db.c], [object.c], [expire.c], [t_string.c]), which are
    built from data structures of their own (strings [sds.c], hash tables
    [dict.c], lists [adlist.c] and [ziplist.c], sets [intset.c], sorted sets
    [t_zset.c], bitmaps [bitops.c]); its replies are appended to the output buffers of the client
    and sent when the socket takes them ([networking.c]); and it is propagated
    to the replicas and to the backlog that lets a replica resume after a
    disconnection ([replication.c]).  The databases are saved as snapshots,
    with compressed strings and a checksum ([rdb.c], [lzf_c.c], [crc64.c]).  Servers that form a cluster exchange
    packets about who serves which keys and elect replacements for masters
    that fail ([cluster.c]).

    ** Files

    - [Prelude]: machine integers, flat memories with checked accesses,
      lists of bytes, the tactics and hints shared by all the files.
    - [Endianconv]: [endianconv.c].  Byte reversals and the conversions to
      little endian, for both byte orders of the host.
    - [Lzf]: [lzf_c.c], [lzf_d.c].  The compression of strings.
    - [Crc64]: [crc64.c].  The checksum of snapshots.
    - [Intset]: [intset.c].  Sorted arrays of 16/32/64-bit integers.
    - [Numstr]: the integer part of [util.c].
    - [Dict], [DictScan]: [dict.c].  Two tables, incremental rehashing, the
      cursor iteration.
    - [Sds], [SdsText]: [sds.c].  Strings with five header types; formatting,
      splitting, quoting.
    - [Zskiplist], [ZslOps]: the skip lists of [t_zset.c], in a heap.
    - [Bitops]: [bitops.c].  Counting, searching, bit fields.
    - [Adlist]: [adlist.c].  Linked lists, in a heap.
    - [Ziplist], [ZiplistOps]: [ziplist.c], byte for byte.
    - [Networking]: the input half of [networking.c].
    - [Replies]: the output half of [networking.c].
    - [Replication]: the backlog, the propagation and the partial
      resynchronisation of [replication.c].
    - [Cluster], [ClusterElection], [ClusterSlots]: [cluster.c].  The view a
      node has of the cluster and the handlers of packets; elections and
      their votes; the table of slots.
    - [Objects]: [object.c].  String objects with their encodings and
      reference counts, in a heap.
    - [Db]: [db.c] and the watched keys of [multi.c].  Databases with
      deadlines, clients, the state monad of the commands.
    - [Commands]: the commands of [t_string.c], [db.c], [expire.c], [multi.c],
      and [processCommand], [call] and the connections of [server.c] and
      [networking.c].
    - [Keyspace]: the specification of all of that, as maps from keys to
      values with deadlines.
    - [CommandsInv], [CommandsRefine], [WatchTables], [Requests]: the
      invariant, the refinement calculus, the tables of watched keys, and the
      refinement proof from the primitives to whole requests.
    - [Watching]: histories of any number of clients, and what WATCH
      guarantees.
    - [Rdb], [RdbLoad]: [rdb.c], [rio.c], [rio.h].  Snapshots of the databases,
      written to and read from a stream of bytes; what is saved can be loaded.

    ** How the model corresponds to the code

    A definition has the name of the function, macro or type it translates;
    a loop of a function is a [Fixpoint] of its own next to it.  A C integer
    is the [Z] it denotes, with the wrap-around of its width written where the
    code relies on it or can reach it ([uwrap], [swrap]); a byte is a [Z]
    from 0 to 255.  A block of memory is the list of its bytes ([mread],
    [mwrite], [mmove] check every access) or, where the code works with
    linked nodes, a finite map from pointers to records.  The result [None]
    of an operation is what must not happen: an access outside an
    allocation, a NULL or dangling pointer, a failed assertion, an
    undefined shift.  So a theorem that an operation returns [Some] is also
    its memory safety.  Errors that the code reports are values.  What fresh
    memory holds ([junk]), the byte order of the host, hash functions, random
    numbers, how the network cuts the data and what a socket accepts are
    arguments, and the theorems hold for all of them.

    Loops that are not structural take fuel.  The fuel is part of the model
    of the caller (a number of bytes left, of nodes, of digits) and the
    theorems show that it is enough: they conclude that the function returns
    [Some] of the right result, so the loops terminate.

    Components meet at interfaces: the request parser uses strings only
    through the class [QueryBuffer], whose laws the instance for [sds]
    proves; skip lists take scores through the class [Score], with
    instances for the doubles and the integers; linked lists take the methods
    of the list as arguments; replication is built on the output of
    [Replies], and what a replica does with it on the parser of [Networking];
    commands use the databases through the operations of [db.c] only, and the
    theorems on histories use the specification of the commands only.

    The server of [Db] is the one of a configuration that is an argument of
    every command ([env]): the clock, the role, the password, the conditions
    under which writes are refused, the names of module types.  There is no
    memory limit, cluster mode, script, subscription or loading in progress:
    the checks of [processCommand] on these are left out, and values are
    freed at once.  Its table holds the commands that are modelled; a server
    has this table when the others are disabled with rename-command.  The
    texts of error messages are shortened.  A watched key is, as in
    [multi.c], an object that the record of the client and the table of the
    database refer to, and both references count.

    In [Networking] the execution of a command is an argument, a function of
    the client, which records what it has executed: its answers may depend on
    anything.  It is assumed to keep the contract in the comment of
    [processCommand], and not to free the link to the master.

    ** What the theorems show

    - Refinements.  Any sequence of operations of a data structure, from its
      creation, is memory safe, terminates, answers as the mathematical object
      it stands for and keeps its representation, within the sizes that the
      fields of the structure can hold (the code does not check these: integer
      sets below 4 GB, ziplists below 2 GB): integer sets as sets,
      dictionaries as finite maps, strings as byte lists, skip lists as sorted
      lists, linked lists and ziplists as lists.
    - Algorithms.  The incremental rehash ends and loses nothing; the cursor
      iteration returns every element that stays, whatever resizes happen
      meanwhile, and ends; spans of skip lists give ranks; the cascading
      update of ziplists; the optimised bit counting and searching agree with
      the plain definitions, the table-driven checksum with the division by
      its polynomial; LZF compression loses nothing; bit fields store exact, wrapped, saturated or
      refused results, on 64-bit fields where the code is defined.
    - Text.  Parsing and printing of integers are exact and inverse to each
      other; quoting and argument parsing are inverse; formatting; splitting
      and joining.
    - Resources.  What is allocated is freed exactly once (dictionaries, skip
      lists, linked lists).
    - Requests and replies.  A pipeline of commands that do not close or block
      the client is executed once, in order, however it is fragmented; no input makes the parser read out
      of bounds, fail or loop; the bytes sent are the encodings of the
      replies in order, however the socket cuts them, and all of them are
      sent in the end.
    - Replication.  The stream reaches the backlog and the replicas as the
      same bytes and means the commands executed; a partial
      resynchronisation sends exactly the missing bytes, and is refused
      exactly when they are gone.
    - Cluster.  One winner per epoch; no packet makes a handler follow a
      NULL pointer; slots go to the newest epoch; a failover takes all the
      slots of the old master.
    - Key space.  Histories of connections, requests and disconnections run
      without touching a freed object, do what the specification says, keep
      every reference count exact and free what nobody uses; a transaction
      runs only if the keys its client watches are unchanged (MOVE and SWAPDB
      apart, which do not tell the clients that watch).
    - Snapshots.  What one server with string values saves another one with
      as many databases loads, of either byte order and with any options, and
      has the same values, deadlines, replication state and scripts; a file of
      version 5 or later whose checksum does not match is not accepted.

    ** Not modelled

    Dependencies (jemalloc, Lua, hiredis, linenoise) and the system calls are
    not part of the program's own logic.  The allocator is assumed not to
    fail, as [zmalloc] aborts the process when it does.  Conversions of
    floating-point numbers to and from text go through [printf] and [strtod].
    The commands on lists, hashes, sets, sorted sets and streams,
    INCRBYFLOAT, KEYS, SCAN, SORT, publish/subscribe, blocking commands,
    eviction, the freeing of memory in the background and the periodic
    deletion of expired keys are not modelled; neither are the
    append-only file ([aof.c]), Sentinel, scripting, modules and the tools.  The parts
    of the modelled files that are left out are random sampling and the
    iterators of [dict.c], the lexicographic ranges and the ziplist encoding of
    sorted sets, the CLIENT command of [networking.c], the full
    resynchronisation and the replica side of [replication.c], the values of
    [rdb.c] that are not strings with its files and child processes, and the gossip,
    the configuration file, the migration of keys and the CLUSTER command of
    [cluster.c]. *)

From stdpp Require Export base tactics numbers option list gmap.
From stdpp Require Import options.

#[global] Open Scope Z_scope.

Declare Scope redis_scope.
Delimit Scope redis_scope with redis.
#[global] Open Scope redis_scope.

(** The status codes of [server.h]. *)
Inductive rc := C_OK | C_ERR.

(** ** Machine integers

    A C integer of [w] bits is the [Z] it denotes.  [uwrap w x] is the
    conversion of [x] to an unsigned type of [w] bits, [swrap w x] the
    two's complement conversion to a signed one. *)

Definition uwrap (w x : Z) : Z := x mod 2 ^ w.

Definition swrap (w x : Z) : Z :=
  if x mod 2 ^ w <? 2 ^ (w - 1) then x mod 2 ^ w else x mod 2 ^ w - 2 ^ w.

Definition in_u (w x : Z) : Prop := 0 <= x < 2 ^ w.
Definition in_s (w x : Z) : Prop := - 2 ^ (w - 1) <= x < 2 ^ (w - 1).

#[global] Instance in_u_dec w x : Decision (in_u w x).
Proof. unfold in_u. apply _. Defined.
#[global] Instance in_s_dec w x : Decision (in_s w x).
Proof. unfold in_s. apply _. Defined.

(** Powers of two of the usual widths, as closed numerals for [lia]. *)
Ltac pow2_numerals :=
  change (2 ^ 7) with 128 in *; change (2 ^ 8) with 256 in *;
  change (2 ^ 15) with 32768 in *; change (2 ^ 16) with 65536 in *;
  change (2 ^ 31) with 2147483648 in *; change (2 ^ 32) with 4294967296 in *;
  change (2 ^ 63) with 9223372036854775808 in *;
  change (2 ^ 64) with 18446744073709551616 in *.

Ltac width_lia :=
  unfold in_u, in_s in *;
  try change (8 - 1) with 7 in *; try change (16 - 1) with 15 in *;
  try change (32 - 1) with 31 in *; try change (64 - 1) with 63 in *;
  pow2_numerals; lia.

Lemma uwrap_small w x : in_u w x -> uwrap w x = x.
Proof. intros H. unfold uwrap. by apply Z.mod_small. Qed.

Lemma uwrap_range w x : 0 <= w -> in_u w (uwrap w x).
Proof. intros Hw. unfold in_u, uwrap. apply Z.mod_pos_bound. lia. Qed.

Lemma pow2_double w : 0 < w -> 2 ^ w = 2 * 2 ^ (w - 1).
Proof.
  intros Hw. replace w with (Z.succ (w - 1)) at 1 by lia.
  rewrite Z.pow_succ_r; lia.
Qed.

Lemma swrap_small w x : 0 < w -> in_s w x -> swrap w x = x.
Proof.
  intros Hw [Hlo Hhi]. unfold swrap. pose proof (pow2_double w Hw) as E.
  assert (0 < 2 ^ (w - 1)) by (apply Z.pow_pos_nonneg; lia).
  destruct (Z.neg_nonneg_cases x) as [Hx|Hx].
  - replace (x mod 2 ^ w) with (x + 2 ^ w).
    + destruct (Z.ltb_spec (x + 2 ^ w) (2 ^ (w - 1))); lia.
    + rewrite <- (Z.mod_add x 1 (2 ^ w)) by lia. rewrite Z.mod_small by lia. lia.
  - rewrite Z.mod_small by lia.
    destruct (Z.ltb_spec x (2 ^ (w - 1))); lia.
Qed.

Lemma swrap_mod w x : 0 < w -> swrap w (x mod 2 ^ w) = swrap w x.
Proof.
  intros Hw. unfold swrap. rewrite Z.mod_mod; [done|]. lia.
Qed.

Lemma swrap_range w x : 0 < w -> in_s w (swrap w x).
Proof.
  intros Hw. unfold in_s, swrap. pose proof (pow2_double w Hw).
  pose proof (Z.mod_pos_bound x (2 ^ w) ltac:(lia)).
  destruct (Z.ltb_spec (x mod 2 ^ w) (2 ^ (w - 1))); lia.
Qed.

(** ** Bytes *)

Definition byte_ok (b : Z) : Prop := 0 <= b < 256.

#[global] Instance byte_ok_dec b : Decision (byte_ok b).
Proof. unfold byte_ok. apply _. Defined.

(** A decidable fact about bytes, checked on all of them. *)
Definition all_bytes (P : Z -> bool) : bool := forallb (fun n => P (Z.of_nat n)) (seq 0 256).

Lemma all_bytes_spec P c : all_bytes P = true -> byte_ok c -> P c = true.
Proof.
  unfold all_bytes, byte_ok. rewrite forallb_forall. intros HP Hc.
  rewrite <- (Z2Nat.id c) by lia. apply HP, in_seq. lia.
Qed.

(** [le_bytes n v] is the little-endian image of [v] on [n] bytes, [le_val]
    reads such an image back as an unsigned number. *)
Fixpoint le_bytes (n : nat) (v : Z) : list Z :=
  match n with
  | O => []
  | S n => v mod 256 :: le_bytes n (v / 256)
  end.

Fixpoint le_val (l : list Z) : Z :=
  match l with
  | [] => 0
  | b :: l => b + 256 * le_val l
  end.

Lemma length_le_bytes n v : length (le_bytes n v) = n.
Proof. revert v. induction n; intros v; simpl; auto. Qed.

Lemma le_bytes_ok n v : Forall byte_ok (le_bytes n v).
Proof.
  revert v. induction n; intros v; simpl; constructor; [|done].
  unfold byte_ok. apply Z.mod_pos_bound. lia.
Qed.

Lemma pow256_succ (n : nat) : 2 ^ (8 * Z.of_nat (S n)) = 256 * 2 ^ (8 * Z.of_nat n).
Proof.
  rewrite Nat2Z.inj_succ. replace (8 * Z.succ (Z.of_nat n)) with (8 + 8 * Z.of_nat n) by lia.
  rewrite Z.pow_add_r by lia. reflexivity.
Qed.

Lemma le_val_bytes n v : le_val (le_bytes n v) = v mod 2 ^ (8 * Z.of_nat n).
Proof.
  revert v. induction n as [|n IH]; intros v.
  - simpl. by rewrite Z.mod_1_r.
  - cbn [le_bytes le_val]. rewrite IH, pow256_succ.
    rewrite Z.rem_mul_r by lia. lia.
Qed.

Lemma le_bytes_val l : Forall byte_ok l -> le_bytes (length l) (le_val l) = l.
Proof.
  induction 1 as [|b l Hb Hl IH]; simpl; [done|].
  unfold byte_ok in Hb.
  replace ((b + 256 * le_val l) mod 256) with b.
  2:{ rewrite (Z.mul_comm 256), Z.mod_add by lia. by rewrite Z.mod_small. }
  replace ((b + 256 * le_val l) / 256) with (le_val l).
  2:{ rewrite (Z.mul_comm 256), Z.div_add by lia. rewrite Z.div_small; lia. }
  by rewrite IH.
Qed.

Lemma le_val_range l : Forall byte_ok l -> 0 <= le_val l < 2 ^ (8 * Z.of_nat (length l)).
Proof.
  induction 1 as [|b l Hb Hl IH]; [simpl; lia|].
  cbn [length le_val]. rewrite pow256_succ. unfold byte_ok in Hb. lia.
Qed.

Lemma le_bytes_mod n v : le_bytes n (v mod 2 ^ (8 * Z.of_nat n)) = le_bytes n v.
Proof.
  rewrite <- le_val_bytes. rewrite <- (length_le_bytes n v) at 1.
  apply le_bytes_val, le_bytes_ok.
Qed.

(** Bits above and below a position. *)
Lemma lor_shiftl h k l : 0 <= k -> 0 <= l < 2 ^ k -> Z.lor (Z.shiftl h k) l = h * 2 ^ k + l.
Proof.
  intros Hk Hl. rewrite Z.shiftl_mul_pow2 by done.
  destruct (Z.eq_dec l 0) as [->|Hl0]; [by rewrite Z.lor_0_r, Z.add_0_r|].
  assert (Z.land (h * 2 ^ k) l = 0) as Hd; [|by rewrite <- Z.lxor_lor, Z.add_nocarry_lxor].
  apply Z.bits_inj'. intros i Hi. rewrite Z.land_spec, Z.bits_0.
  destruct (Z.lt_ge_cases i k); [by rewrite Z.mul_pow2_bits_low|].
  rewrite (Z.bits_above_log2 l i), andb_false_r; [done|lia|]. apply Z.log2_lt_pow2; [lia|].
  apply Z.lt_le_trans with (2 ^ k); [lia|apply Z.pow_le_mono_r; lia].
Qed.

(** ** Flat memory

    A C buffer is the list of its bytes.  Reads and writes name the region
    they touch and return [None] when it is not inside the buffer, so a
    theorem that an operation returns [Some _] includes its memory safety. *)

Definition zlen {A} (l : list A) : Z := Z.of_nat (length l).

Definition mread (m : list Z) (off n : Z) : option (list Z) :=
  if bool_decide (0 <= off /\ 0 <= n /\ off + n <= zlen m)
  then Some (take (Z.to_nat n) (drop (Z.to_nat off) m)) else None.

Definition mwrite (m : list Z) (off : Z) (bs : list Z) : option (list Z) :=
  if bool_decide (0 <= off /\ off + zlen bs <= zlen m)
  then Some (take (Z.to_nat off) m ++ bs ++ drop (Z.to_nat (off + zlen bs)) m)
  else None.

(** [memmove(dst,src,n)] inside one buffer. *)
Definition mmove (m : list Z) (dst src n : Z) : option (list Z) :=
  bs ← mread m src n; mwrite m dst bs.

(** [zrealloc]: the old bytes are kept up to the smaller size, and the bytes
    past the old size hold whatever the allocator left there ([junk]). *)
Definition mrealloc (junk : nat -> Z) (m : list Z) (n : Z) : list Z :=
  take (Z.to_nat n) m ++ (junk <$> seq (length m) (Z.to_nat n - length m)).

Lemma zlen_nil {A} : zlen (@nil A) = 0.
Proof. done. Qed.
Lemma zlen_cons {A} (x : A) l : zlen (x :: l) = 1 + zlen l.
Proof. unfold zlen. rewrite length_cons. lia. Qed.
Lemma zlen_app {A} (l k : list A) : zlen (l ++ k) = zlen l + zlen k.
Proof. unfold zlen. rewrite length_app. lia. Qed.
Lemma zlen_nonneg {A} (l : list A) : 0 <= zlen l.
Proof. unfold zlen. lia. Qed.
Lemma zlen_take {A} (l : list A) n : zlen (take n l) = Z.min (Z.of_nat n) (zlen l).
Proof. unfold zlen. rewrite length_take. lia. Qed.
Lemma zlen_drop {A} (l : list A) n : zlen (drop n l) = Z.max 0 (zlen l - Z.of_nat n).
Proof. unfold zlen. rewrite length_drop. lia. Qed.
Lemma zlen_le_bytes n v : zlen (le_bytes n v) = Z.of_nat n.
Proof. unfold zlen. by rewrite length_le_bytes. Qed.
Lemma zlen_replicate {A} n (x : A) : zlen (replicate n x) = Z.of_nat n.
Proof. unfold zlen. by rewrite length_replicate. Qed.

Create HintDb redis.
Create Rewrite HintDb redis_len.
#[export] Hint Rewrite @zlen_nil @zlen_cons @zlen_app @zlen_take @zlen_drop
  zlen_le_bytes @zlen_replicate : redis_len.
#[export] Hint Resolve zlen_nonneg le_bytes_ok : redis.

(** [zlia] is [lia] after computing buffer lengths. *)
Ltac zlia := autorewrite with redis_len in *; unfold zlen in *; lia.

Lemma mread_is_Some m off n :
  0 <= off -> 0 <= n -> off + n <= zlen m ->
  mread m off n = Some (take (Z.to_nat n) (drop (Z.to_nat off) m)).
Proof. intros. unfold mread. by rewrite bool_decide_eq_true_2. Qed.

Lemma mread_Some m off n bs :
  mread m off n = Some bs <->
  0 <= off /\ 0 <= n /\ off + n <= zlen m /\ zlen bs = n /\
  forall i : nat, Z.of_nat i < n -> bs !! i = m !! (Z.to_nat off + i)%nat.
Proof.
  unfold mread. case_bool_decide as H.
  - split.
    + intros [= <-]. split_and!; try (unfold zlen in *; rewrite ?length_take, ?length_drop; lia).
      intros i Hi. rewrite lookup_take_lt by lia. by rewrite lookup_drop.
    + intros (?&?&?&Hl&Hi). f_equal. apply list_eq. intros i.
      destruct (decide (Z.of_nat i < n)) as [Hlt|Hge].
      * rewrite Hi by done. rewrite lookup_take_lt by lia. by rewrite lookup_drop.
      * rewrite !lookup_ge_None_2; [done| |]; unfold zlen in *;
          rewrite ?length_take, ?length_drop; lia.
  - split; [done|]. intros (?&?&?&?). lia.
Qed.

Lemma mread_zlen m off n bs : mread m off n = Some bs -> zlen bs = n.
Proof. rewrite mread_Some. tauto. Qed.

Lemma mread_bounds m off n bs :
  mread m off n = Some bs -> 0 <= off /\ 0 <= n /\ off + n <= zlen m.
Proof. rewrite mread_Some. tauto. Qed.

(** Two buffers that agree on a region read the same there. *)
Lemma mread_agree m m' off off' n :
  0 <= off -> 0 <= off' -> 0 <= n -> off + n <= zlen m -> off' + n <= zlen m' ->
  (forall i : nat, Z.of_nat i < n -> m !! (Z.to_nat off + i)%nat = m' !! (Z.to_nat off' + i)%nat) ->
  mread m off n = mread m' off' n.
Proof.
  intros ????? H. rewrite (mread_is_Some m') by done.
  apply mread_Some. split_and!; try done; try lia.
  - unfold zlen in *. rewrite length_take, length_drop. lia.
  - intros i Hi. rewrite H by done. rewrite lookup_take_lt by lia. by rewrite lookup_drop.
Qed.

Lemma mwrite_is_Some m off bs :
  0 <= off -> off + zlen bs <= zlen m -> is_Some (mwrite m off bs).
Proof. intros. unfold mwrite. rewrite bool_decide_eq_true_2 by done. by eexists. Qed.

Lemma mwrite_Some m off bs m' :
  mwrite m off bs = Some m' ->
  0 <= off /\ off + zlen bs <= zlen m /\ zlen m' = zlen m /\
  forall i : nat, m' !! i =
    if decide (off <= Z.of_nat i < off + zlen bs)
    then bs !! (i - Z.to_nat off)%nat else m !! i.
Proof.
  unfold mwrite. case_bool_decide as H; [|done]. intros [= <-].
  destruct H as [H0 H1]. split_and!; try done.
  - unfold zlen in *. rewrite !length_app, length_take, length_drop. lia.
  - intros i. unfold zlen in *. case_decide.
    + rewrite lookup_app_r by (rewrite length_take; lia).
      rewrite lookup_app_l by (rewrite length_take; lia).
      f_equal. rewrite length_take. lia.
    + destruct (decide (Z.of_nat i < off)).
      * rewrite lookup_app_l by (rewrite length_take; lia).
        rewrite lookup_take_lt by lia. done.
      * rewrite !lookup_app_r by (rewrite ?length_take; lia).
        rewrite lookup_drop. f_equal. rewrite length_take. lia.
Qed.

Lemma mread_mwrite_same m off bs m' :
  mwrite m off bs = Some m' -> mread m' off (zlen bs) = Some bs.
Proof.
  intros (?&?&Hl&Hi)%mwrite_Some. pose proof (zlen_nonneg bs).
  apply mread_Some. split_and!; try done; try lia.
  intros i Hlt. rewrite Hi. rewrite decide_True by lia. f_equal. lia.
Qed.

Lemma mread_mwrite_disj m off bs m' off' n :
  mwrite m off bs = Some m' ->
  off' + n <= off \/ off + zlen bs <= off' ->
  mread m' off' n = mread m off' n.
Proof.
  intros (?&?&Hl&Hi)%mwrite_Some Hd. unfold mread. rewrite Hl.
  case_bool_decide as Hb; [|done]. f_equal.
  apply list_eq. intros i. rewrite !lookup_take, !lookup_drop.
  case_decide; [|done]. rewrite Hi. rewrite decide_False by lia. done.
Qed.

Lemma mwrite_mwrite m off a b m1 :
  mwrite m off a = Some m1 -> zlen a = zlen b -> mwrite m1 off b = mwrite m off b.
Proof.
  intros Hw Hab. apply mwrite_Some in Hw as (?&?&Hl&Hi). rewrite Hab in *.
  destruct (mwrite_is_Some m off b) as [m2 H2]; [done..|].
  destruct (mwrite_is_Some m1 off b) as [m3 H3]; [done|lia|].
  rewrite H2, H3. f_equal. apply list_eq. intros i.
  apply mwrite_Some in H2 as (_&_&_&H2). apply mwrite_Some in H3 as (_&_&_&H3).
  rewrite H2, H3, Hi. by case_decide.
Qed.

Lemma mmove_Some m dst src n m' :
  mmove m dst src n = Some m' ->
  0 <= dst /\ 0 <= src /\ 0 <= n /\ dst + n <= zlen m /\ src + n <= zlen m /\
  zlen m' = zlen m /\
  forall i : nat, m' !! i =
    if decide (dst <= Z.of_nat i < dst + n)
    then m !! (i - Z.to_nat dst + Z.to_nat src)%nat else m !! i.
Proof.
  unfold mmove. intros (bs & Hr & Hw)%bind_Some.
  apply mread_Some in Hr as (?&?&?&Hn&Hbs).
  apply mwrite_Some in Hw as (?&?&?&Hi). rewrite Hn in *.
  split_and!; try done. intros i. rewrite Hi. case_decide; [|done].
  rewrite Hbs by lia. f_equal. lia.
Qed.

Lemma mmove_is_Some m dst src n :
  0 <= dst -> 0 <= src -> 0 <= n -> dst + n <= zlen m -> src + n <= zlen m ->
  is_Some (mmove m dst src n).
Proof.
  intros. unfold mmove. rewrite mread_is_Some by done. simpl.
  apply mwrite_is_Some; [done|]. unfold zlen in *.
  rewrite length_take, length_drop. lia.
Qed.

Lemma mread_mmove_in m dst src n m' off k :
  mmove m dst src n = Some m' -> dst <= off -> 0 <= k -> off + k <= dst + n ->
  mread m' off k = mread m (off - dst + src) k.
Proof.
  intros (?&?&?&?&?&Hl&Hi)%mmove_Some ???. apply mread_agree; try lia.
  intros i Hik. rewrite Hi. rewrite decide_True by lia. f_equal. lia.
Qed.

Lemma mread_mmove_out m dst src n m' off k :
  mmove m dst src n = Some m' -> off + k <= dst \/ dst + n <= off ->
  mread m' off k = mread m off k.
Proof.
  intros (?&?&?&?&?&Hl&Hi)%mmove_Some Hd. unfold mread. rewrite Hl.
  case_bool_decide as Hb; [|done]. f_equal.
  apply list_eq. intros i. rewrite !lookup_take, !lookup_drop.
  case_decide; [|done]. rewrite Hi. rewrite decide_False by lia. done.
Qed.

Lemma zlen_mrealloc junk m n : 0 <= n -> zlen (mrealloc junk m n) = n.
Proof.
  intros. unfold mrealloc, zlen. rewrite length_app, length_take, length_fmap, length_seq. lia.
Qed.

Lemma mread_mrealloc junk m n off k :
  0 <= off -> 0 <= k -> off + k <= n -> off + k <= zlen m ->
  mread (mrealloc junk m n) off k = mread m off k.
Proof.
  intros. apply mread_agree; try done; [by rewrite zlen_mrealloc by lia|].
  intros i Hi. unfold mrealloc. unfold zlen in *.
  rewrite lookup_app_l by (rewrite length_take; lia).
  rewrite lookup_take_lt by lia. done.
Qed.

Lemma mread_app m a x y :
  mread m a (zlen x + zlen y) = Some (x ++ y) <->
  mread m a (zlen x) = Some x /\ mread m (a + zlen x) (zlen y) = Some y.
Proof.
  pose proof (zlen_nonneg x). pose proof (zlen_nonneg y). rewrite !mread_Some. split.
  - intros (Ha & _ & Hl & _ & Hi). split_and!; try lia.
    + intros i Hlt. rewrite <- Hi by lia. rewrite lookup_app_l by (unfold zlen in *; lia). done.
    + intros i Hlt. replace (Z.to_nat (a + zlen x) + i)%nat with (Z.to_nat a + (length x + i))%nat
        by (unfold zlen in *; lia).
      rewrite <- Hi by (unfold zlen in *; lia). rewrite lookup_app_r by lia. f_equal. lia.
  - intros [(Ha & _ & Hl & _ & Hi) (_ & _ & Hl' & _ & Hi')]. split_and!; try lia.
    + by rewrite zlen_app.
    + intros i Hlt. rewrite lookup_app. destruct (x !! i) as [c|] eqn:Hx.
      * rewrite <- Hi; [done|]. apply lookup_lt_Some in Hx. unfold zlen. lia.
      * apply lookup_ge_None in Hx. rewrite Hi' by (unfold zlen in *; lia). f_equal.
        unfold zlen. lia.
Qed.

(** Reading and overwriting the middle of a buffer. *)
Lemma mread_mid a x b : mread (a ++ x ++ b) (zlen a) (zlen x) = Some x.
Proof.
  rewrite mread_is_Some by (rewrite ?zlen_app; auto with redis; pose proof (zlen_nonneg b); lia).
  unfold zlen. by rewrite !Nat2Z.id, drop_app_length, take_app_length.
Qed.

Lemma mwrite_mid a x y b : zlen x = zlen y -> mwrite (a ++ x ++ b) (zlen a) y = Some (a ++ y ++ b).
Proof.
  intros E. pose proof (zlen_nonneg a). pose proof (zlen_nonneg b). unfold mwrite.
  rewrite bool_decide_eq_true_2 by (rewrite !zlen_app; lia). rewrite <- E.
  replace (Z.to_nat (zlen a + zlen x)) with (length (a ++ x)) by (rewrite length_app; unfold zlen; lia).
  rewrite (app_assoc a x b) at 2. rewrite drop_app_length. unfold zlen. by rewrite Nat2Z.id, take_app_length.
Qed.

(** The same with the offsets up to equality, and at the front. *)
Lemma mread_off a x b p n : p = zlen a -> n = zlen x -> mread (a ++ x ++ b) p n = Some x.
Proof. intros -> ->. apply mread_mid. Qed.

Lemma mwrite_off a x y b p :
  p = zlen a -> zlen x = zlen y -> mwrite (a ++ x ++ b) p y = Some (a ++ y ++ b).
Proof. intros -> ?. by apply mwrite_mid. Qed.

Lemma mread_front x b n : n = zlen x -> mread (x ++ b) 0 n = Some x.
Proof. intros ->. apply (mread_mid []). Qed.

Lemma mwrite_front x y b : zlen x = zlen y -> mwrite (x ++ b) 0 y = Some (y ++ b).
Proof. apply (mwrite_mid []). Qed.

Lemma split_len {A} (l : list A) m n :
  0 <= m -> 0 <= n -> zlen l = m + n -> exists a b, l = a ++ b /\ zlen a = m /\ zlen b = n.
Proof.
  intros ?? Hl. exists (take (Z.to_nat m) l), (drop (Z.to_nat m) l).
  rewrite take_drop, zlen_take, zlen_drop. split_and!; [done|lia|lia].
Qed.

(** [memmove] of [x] to an offset further on or back in the same buffer. *)
Lemma mmove_off m a x b a' y b' dst src n :
  m = a ++ x ++ b -> m = a' ++ y ++ b' -> dst = zlen a' -> src = zlen a ->
  n = zlen x -> zlen x = zlen y -> mmove m dst src n = Some (a' ++ x ++ b').
Proof.
  intros E1 E2 -> -> -> Hl. unfold mmove. rewrite E1 at 1. rewrite mread_mid. cbn [mbind option_bind].
  rewrite E2. by apply mwrite_mid.
Qed.

(** Close a decidable goal on concrete data by evaluating its decision. *)
Ltac decide_now := apply (bool_decide_unpack _); vm_compute; exact I.

(** Decompose a chain of option binds in hypothesis [H]. *)
Tactic Notation "bind_inv" hyp(H) "as" simple_intropattern(p) :=
  apply bind_Some in H as p.

(** ** Lists edited at a position *)

Definition insert_at {A} (p : nat) (v : A) (l : list A) : list A := take p l ++ v :: drop p l.
Definition remove_at {A} (p : nat) (l : list A) : list A := take p l ++ drop (S p) l.

Lemma lookup_insert_at {A} p (v : A) l i :
  (p <= length l)%nat ->
  insert_at p v l !! i =
    if decide (i < p)%nat then l !! i else if decide (i = p) then Some v else l !! (i - 1)%nat.
Proof.
  intros Hp. unfold insert_at. case_decide.
  - rewrite lookup_app_l by (rewrite length_take; lia). by rewrite lookup_take_lt by lia.
  - rewrite lookup_app_r by (rewrite length_take; lia). rewrite length_take, Nat.min_l by lia.
    case_decide; [subst; by rewrite Nat.sub_diag|].
    replace (i - p)%nat with (S (i - p - 1)) by lia. simpl. rewrite lookup_drop. f_equal. lia.
Qed.

Lemma lookup_remove_at {A} p (l : list A) i :
  (p < length l)%nat ->
  remove_at p l !! i = if decide (i < p)%nat then l !! i else l !! S i.
Proof.
  intros Hp. unfold remove_at. case_decide.
  - rewrite lookup_app_l by (rewrite length_take; lia). by rewrite lookup_take_lt by lia.
  - rewrite lookup_app_r by (rewrite length_take; lia). rewrite length_take, Nat.min_l by lia.
    rewrite lookup_drop. f_equal. lia.
Qed.

Lemma length_insert_at {A} p (v : A) l : length (insert_at p v l) = S (length l).
Proof.
  unfold insert_at. rewrite length_app, length_cons, length_take, length_drop. lia.
Qed.

Lemma length_remove_at {A} p (l : list A) :
  (p < length l)%nat -> length (remove_at p l) = (length l - 1)%nat.
Proof. intros. unfold remove_at. rewrite length_app, length_take, length_drop. lia. Qed.

(** Strictly increasing lists of integers, read off the positions. *)
Definition sorted_lt (l : list Z) : Prop :=
  forall i j x y, (i < j)%nat -> l !! i = Some x -> l !! j = Some y -> x < y.

Lemma sorted_lt_NoDup l : sorted_lt l -> NoDup l.
Proof.
  intros Hs. apply NoDup_alt. intros i j x Hi Hj.
  destruct (decide (i < j)%nat) as [Hlt|]; [pose proof (Hs _ _ _ _ Hlt Hi Hj); lia|].
  destruct (decide (j < i)%nat) as [Hlt|]; [pose proof (Hs _ _ _ _ Hlt Hj Hi); lia|]. lia.
Qed.

Lemma sorted_lt_insert_at p v l :
  (p <= length l)%nat -> sorted_lt l ->
  (forall i x, l !! i = Some x -> ((i < p)%nat -> x < v) /\ ((p <= i)%nat -> v < x)) ->
  sorted_lt (insert_at p v l).
Proof.
  intros Hp Hs Hv i j x y Hij. rewrite !lookup_insert_at by done.
  repeat case_decide; intros Hi Hj; simplify_eq; try lia.
  - by eapply (Hs i j).
  - apply (proj1 (Hv _ _ Hi)). lia.
  - eapply (Hs i (j - 1)%nat); [lia|done..].
  - apply (proj2 (Hv _ _ Hj)). lia.
  - eapply (Hs (i - 1) (j - 1))%nat; [lia|done..].
Qed.

Lemma sorted_lt_remove_at p l :
  (p < length l)%nat -> sorted_lt l -> sorted_lt (remove_at p l).
Proof.
  intros Hp Hs i j x y Hij. rewrite !lookup_remove_at by done.
  repeat case_decide; intros Hi Hj; try lia.
  all: eapply Hs; [|exact Hi|exact Hj]; lia.
Qed.

Lemma elem_of_insert_at {A} p (v x : A) l :
  x ∈ insert_at p v l <-> x = v \/ x ∈ l.
Proof.
  unfold insert_at. rewrite <- (take_drop p l) at 3. set_solver.
Qed.

Lemma elem_of_remove_at p v x l :
  sorted_lt l -> l !! p = Some v -> x ∈ remove_at p l <-> x ∈ l /\ x <> v.
Proof.
  intros Hs Hp. pose proof (lookup_lt_Some _ _ _ Hp).
  rewrite !list_elem_of_lookup. split.
  - intros [i Hi]. rewrite lookup_remove_at in Hi by done.
    split; [case_decide; eauto|]. intros ->. apply sorted_lt_NoDup in Hs.
    case_decide; pose proof (NoDup_lookup _ _ _ _ Hs Hi Hp); lia.
  - intros [[i Hi] Hne]. destruct (decide (i = p)) as [->|]; [congruence|].
    destruct (decide (i < p)%nat).
    + exists i. rewrite lookup_remove_at, decide_True by done. done.
    + exists (i - 1)%nat. rewrite lookup_remove_at, decide_False by lia.
      by replace (S (i - 1)) with i by lia.
Qed.
