(* ===== verification/Endianconv.v ===== *)
(** * Byte order conversion ([endianconv.c], [endianconv.h])

    The in-place byte reversals, the integer reversals built on them, and the
    [*ifbe] macros that the intset, ziplist and RDB code use to keep its
    images little endian on every host.  The host's byte order, a
    compile-time constant of the source ([BYTE_ORDER]), is an argument. *)

From S2P Require Import Prelude.
From stdpp Require Import options.

Inductive byte_order := LITTLE_ENDIAN | BIG_ENDIAN.

#[export] Instance byte_order_eq_dec : EqDecision byte_order.
Proof. solve_decision. Defined.

(** The bytes an integer object of [n] bytes occupies on the host, and the
    unsigned value those bytes denote. *)
Definition native_bytes (host : byte_order) (n : nat) (v : Z) : list Z :=
  match host with
  | LITTLE_ENDIAN => le_bytes n v
  | BIG_ENDIAN => reverse (le_bytes n v)
  end.

Definition native_val (host : byte_order) (bs : list Z) : Z :=
  match host with
  | LITTLE_ENDIAN => le_val bs
  | BIG_ENDIAN => le_val (reverse bs)
  end.

(** [t = x[i]; x[i] = x[j]; x[j] = t;] *)
Definition swap_bytes (i j : nat) (x : list Z) : option (list Z) :=
  t ← x !! i; u ← x !! j; Some (<[j:=t]> (<[i:=u]> x)).

Definition memrev16 (x : list Z) : option (list Z) := swap_bytes 0 1 x.

Definition memrev32 (x : list Z) : option (list Z) :=
  x ← swap_bytes 0 3 x; swap_bytes 1 2 x.

Definition memrev64 (x : list Z) : option (list Z) :=
  x ← swap_bytes 0 7 x; x ← swap_bytes 1 6 x;
  x ← swap_bytes 2 5 x; swap_bytes 3 4 x.

Section Host.
Context (host : byte_order).

Definition intrev16 (v : Z) : Z :=
  from_option (native_val host) 0 (memrev16 (native_bytes host 2 v)).
Definition intrev32 (v : Z) : Z :=
  from_option (native_val host) 0 (memrev32 (native_bytes host 4 v)).
Definition intrev64 (v : Z) : Z :=
  from_option (native_val host) 0 (memrev64 (native_bytes host 8 v)).

Definition memrev16ifbe (x : list Z) : option (list Z) :=
  match host with LITTLE_ENDIAN => Some x | BIG_ENDIAN => memrev16 x end.
Definition memrev32ifbe (x : list Z) : option (list Z) :=
  match host with LITTLE_ENDIAN => Some x | BIG_ENDIAN => memrev32 x end.
Definition memrev64ifbe (x : list Z) : option (list Z) :=
  match host with LITTLE_ENDIAN => Some x | BIG_ENDIAN => memrev64 x end.
Definition intrev16ifbe (v : Z) : Z :=
  match host with LITTLE_ENDIAN => v | BIG_ENDIAN => intrev16 v end.
Definition intrev32ifbe (v : Z) : Z :=
  match host with LITTLE_ENDIAN => v | BIG_ENDIAN => intrev32 v end.
Definition intrev64ifbe (v : Z) : Z :=
  match host with LITTLE_ENDIAN => v | BIG_ENDIAN => intrev64 v end.
Definition htonu64 (v : Z) : Z :=
  match host with BIG_ENDIAN => v | LITTLE_ENDIAN => intrev64 v end.
Definition ntohu64 (v : Z) : Z :=
  match host with BIG_ENDIAN => v | LITTLE_ENDIAN => intrev64 v end.
End Host.

(** ** The reversals reverse *)

Lemma memrev16_reverse x r : length x = 2%nat -> memrev16 (x ++ r) = Some (reverse x ++ r).
Proof. intros H. do 3 (destruct x as [|? x]; try done). Qed.

Lemma memrev32_reverse x r : length x = 4%nat -> memrev32 (x ++ r) = Some (reverse x ++ r).
Proof. intros H. do 5 (destruct x as [|? x]; try done). Qed.

Lemma memrev64_reverse x r : length x = 8%nat -> memrev64 (x ++ r) = Some (reverse x ++ r).
Proof. intros H. do 9 (destruct x as [|? x]; try done). Qed.

Lemma length_native_bytes host n v : length (native_bytes host n v) = n.
Proof. destruct host; simpl; by rewrite ?length_reverse, length_le_bytes. Qed.

(** Reversing the bytes of an object on the host gives its little-endian
    image, and conversely; on a little-endian host nothing moves. *)
Definition memrevifbe (host : byte_order) (n : nat) (x : list Z) : option (list Z) :=
  match n with
  | 2%nat => memrev16ifbe host x
  | 4%nat => memrev32ifbe host x
  | 8%nat => memrev64ifbe host x
  | _ => None
  end.

Definition int_size (n : nat) : Prop := n = 2%nat \/ n = 4%nat \/ n = 8%nat.

(** Case analysis on an integer size, with the sizes as numerals. *)
Ltac size_cases H :=
  destruct H as [-> | [-> | ->]];
  [change (Z.of_nat 2) with 2 in *; try change (8 * 2) with 16 in *
  |change (Z.of_nat 4) with 4 in *; try change (8 * 4) with 32 in *
  |change (Z.of_nat 8) with 8 in *; try change (8 * 8) with 64 in *].

Lemma memrevifbe_app host n x r :
  int_size n -> length x = n ->
  memrevifbe host n (x ++ r) =
    Some (match host with LITTLE_ENDIAN => x | BIG_ENDIAN => reverse x end ++ r).
Proof.
  intros [-> | [-> | ->]] Hl; destruct host; simpl; try done;
    auto using memrev16_reverse, memrev32_reverse, memrev64_reverse.
Qed.

Lemma memrevifbe_native host n v :
  int_size n -> memrevifbe host n (native_bytes host n v) = Some (le_bytes n v).
Proof.
  intros Hn. rewrite <- (app_nil_r (native_bytes host n v)).
  rewrite memrevifbe_app; [|done|apply length_native_bytes].
  rewrite app_nil_r. destruct host; simpl; by rewrite ?reverse_involutive.
Qed.

Lemma memrevifbe_le host n v :
  int_size n -> memrevifbe host n (le_bytes n v) = Some (native_bytes host n v).
Proof.
  intros Hn. rewrite <- (app_nil_r (le_bytes n v)).
  rewrite memrevifbe_app; [|done|apply length_le_bytes].
  rewrite app_nil_r. by destruct host.
Qed.

Lemma native_val_bytes host n v :
  native_val host (native_bytes host n v) = v mod 2 ^ (8 * Z.of_nat n).
Proof. destruct host; simpl; by rewrite ?reverse_involutive, le_val_bytes. Qed.

Lemma Forall_reverse_byte l : Forall byte_ok l -> Forall byte_ok (reverse l).
Proof. by rewrite Forall_reverse. Qed.

(** The value of the reversed bytes, for the three widths at once. *)
Definition rev_val (n : nat) (v : Z) : Z := le_val (reverse (le_bytes n v)).

Lemma rev_val_range n v : 0 <= rev_val n v < 2 ^ (8 * Z.of_nat n).
Proof.
  unfold rev_val.
  assert (length (reverse (le_bytes n v)) = n) as Hl
    by (by rewrite length_reverse, length_le_bytes).
  rewrite <- Hl at 3. apply le_val_range. apply Forall_reverse_byte, le_bytes_ok.
Qed.

Lemma rev_val_involutive n v : rev_val n (rev_val n v) = v mod 2 ^ (8 * Z.of_nat n).
Proof.
  unfold rev_val.
  assert (length (reverse (le_bytes n v)) = n) as Hl
    by (by rewrite length_reverse, length_le_bytes).
  rewrite <- Hl at 1. rewrite le_bytes_val by apply Forall_reverse_byte, le_bytes_ok.
  by rewrite reverse_involutive, le_val_bytes.
Qed.

Lemma native_val_reverse host n v :
  native_val host (reverse (native_bytes host n v)) = rev_val n v.
Proof. destruct host; simpl; by rewrite ?reverse_involutive. Qed.

Lemma intrev16_val host v : intrev16 host v = rev_val 2 v.
Proof.
  unfold intrev16. rewrite <- (app_nil_r (native_bytes host 2 v)).
  rewrite memrev16_reverse by apply length_native_bytes. simpl.
  by rewrite app_nil_r, native_val_reverse.
Qed.
Lemma intrev32_val host v : intrev32 host v = rev_val 4 v.
Proof.
  unfold intrev32. rewrite <- (app_nil_r (native_bytes host 4 v)).
  rewrite memrev32_reverse by apply length_native_bytes. simpl.
  by rewrite app_nil_r, native_val_reverse.
Qed.
Lemma intrev64_val host v : intrev64 host v = rev_val 8 v.
Proof.
  unfold intrev64. rewrite <- (app_nil_r (native_bytes host 8 v)).
  rewrite memrev64_reverse by apply length_native_bytes. simpl.
  by rewrite app_nil_r, native_val_reverse.
Qed.

Lemma intrev32ifbe_involutive host v :
  in_u 32 v -> intrev32ifbe host (intrev32ifbe host v) = v.
Proof.
  intros Hv. destruct host; simpl; [done|].
  rewrite !intrev32_val, rev_val_involutive. by apply Z.mod_small.
Qed.

Lemma intrev32ifbe_range host v : in_u 32 v -> in_u 32 (intrev32ifbe host v).
Proof.
  intros Hv. destruct host; simpl; [done|]. rewrite intrev32_val. apply (rev_val_range 4).
Qed.

Lemma intrev64_involutive host v : in_u 64 v -> intrev64 host (intrev64 host v) = v.
Proof.
  intros Hv. rewrite !intrev64_val, rev_val_involutive. by apply Z.mod_small.
Qed.

Lemma ntohu64_htonu64 host v : in_u 64 v -> ntohu64 host (htonu64 host v) = v.
Proof. intros. destruct host; simpl; [|done]. by apply intrev64_involutive. Qed.

(** Network order: the first byte in memory is the most significant one. *)
Lemma htonu64_network host v :
  in_u 64 v -> native_bytes host 8 (htonu64 host v) = reverse (le_bytes 8 v).
Proof.
  intros Hv. destruct host; simpl htonu64; [|done].
  rewrite intrev64_val. cbn [native_bytes]. unfold rev_val.
  assert (length (reverse (le_bytes 8 v)) = 8%nat) as Hl
    by (by rewrite length_reverse, length_le_bytes).
  rewrite <- Hl at 1. apply le_bytes_val, Forall_reverse_byte, le_bytes_ok.
Qed.

#[export] Hint Resolve intrev32ifbe_range : redis.
