(* ===== verification/Lzf.v ===== *)
(** * LZF compression

    [lzf_c.c] and [lzf_d.c]: the compression of the strings of a snapshot.  The
    compressor finds repetitions through a hash table that is not initialised
    and writes literals before it knows how many there are; the decompressor
    copies from what it has written, with overlaps.  Input and output are flat
    memories, the pointers are offsets, the initial hash table is an argument.
    The options are the defaults of [lzfP.h]. *)

From S2P Require Import Prelude.
From stdpp Require Import options.
#[local] Open Scope Z_scope.

Definition HLOG : Z := 16.
Definition HSIZE : Z := Z.shiftl 1 HLOG.
Definition MAX_LIT : Z := Z.shiftl 1 5.
Definition MAX_OFF : Z := Z.shiftl 1 13.
Definition MAX_REF : Z := Z.shiftl 1 8 + Z.shiftl 1 3.

(** One byte of a buffer. *)
Definition octet (m : list Z) (i : Z) : option Z := if bool_decide (0 <= i) then m !! Z.to_nat i else None.

(** ** Compression *)

Section Compress.
Context (s : list Z).

Definition FRST (p : Z) : option Z := a ← octet s p; b ← octet s (p + 1); Some (Z.lor (Z.shiftl a 8) b).
Definition NEXT (v p : Z) : option Z := c ← octet s (p + 2); Some (uwrap 32 (Z.lor (Z.shiftl v 8) c)).
Definition IDX (h : Z) : Z := Z.land (uwrap 32 (Z.shiftr h (3 * 8 - HLOG) - uwrap 32 (h * 5))) (HSIZE - 1).

Definition in_end : Z := zlen s.

(** The unrolled comparisons: whether all [n] of them succeeded, and the length. *)
Fixpoint compare_unrolled (n : nat) (ref ip len : Z) : option (bool * Z) :=
  match n with
  | O => Some (true, len)
  | S n =>
    let len := len + 1 in
    a ← octet s (ref + len); b ← octet s (ip + len);
    if a =? b then compare_unrolled n ref ip len else Some (false, len)
  end.

(** [do len++; while (len < maxlen && ref[len] == ip[len])] *)
Fixpoint compare_loop (fuel : nat) (ref ip maxlen len : Z) : option Z :=
  match fuel with
  | O => None
  | S fuel =>
    let len := len + 1 in
    if len <? maxlen then
      a ← octet s (ref + len); b ← octet s (ip + len);
      if a =? b then compare_loop fuel ref ip maxlen len else Some len
    else Some len
  end.

Definition match_len (ref ip maxlen : Z) : option Z :=
  '(go, len) ← (if maxlen >? 16 then compare_unrolled 16 ref ip 2 else Some (true, 2));
  if go : bool then compare_loop (Z.to_nat MAX_REF) ref ip maxlen len else Some len.

Record lzf := mk_lzf { ip : Z; op : Z; lit : Z; hval : Z; htab : Z -> Z; out : list Z }.

Definition set_slot (h : Z -> Z) (i v : Z) : Z -> Z := fun j => if j =? i then v else h j.

(** Whether three bytes at [ref] and at [p] are the same. *)
Definition same3 (ref p : Z) : option bool :=
  a2 ← octet s (ref + 2); b2 ← octet s (p + 2);
  if negb (a2 =? b2) then Some false else
  a1 ← octet s (ref + 1); a0 ← octet s ref; b1 ← octet s (p + 1); b0 ← octet s p;
  Some (Z.lor (Z.shiftl a1 8) a0 =? Z.lor (Z.shiftl b1 8) b0).

(** [op [- lit - 1] = lit - 1; op -= !lit] *)
Definition stop_run (st : lzf) : option lzf :=
  o ← mwrite (out st) (op st - lit st - 1) [uwrap 8 (lit st - 1)];
  Some (mk_lzf (ip st) (if lit st =? 0 then op st - 1 else op st) (lit st) (hval st) (htab st) o).

(** The bytes of a reference, where [len] is the number of octets less 2. *)
Definition ref_bytes (off len : Z) : list Z :=
  if len <? 7 then [uwrap 8 (Z.shiftr off 8 + Z.shiftl len 5); uwrap 8 off]
  else [uwrap 8 (Z.shiftr off 8 + Z.shiftl 7 5); uwrap 8 (len - 7); uwrap 8 off].

(** Rehash two positions before the next one. *)
Definition rehash2 (st : lzf) : option lzf :=
  let p := ip st - 2 in
  h ← FRST p; h ← NEXT h p;
  let t := set_slot (htab st) (IDX h) p in
  let p := p + 1 in
  h ← NEXT h p;
  Some (mk_lzf (p + 1) (op st) (lit st) h (set_slot t (IDX h) p) (out st)).

(** A match at [ref], at distance [off] + 1; [Some None] when there is no room. *)
Definition emit_match (ref off : Z) (st : lzf) : option (option lzf) :=
  let out_end := zlen (out st) in
  let maxlen := in_end - ip st - 2 in
  let maxlen := if maxlen >? MAX_REF then MAX_REF else maxlen in
  if (op st + 3 + 1 >=? out_end) && ((if lit st =? 0 then op st - 1 else op st) + 3 + 1 >=? out_end) then Some None else
  st ← stop_run st;
  len ← match_len ref (ip st) maxlen;
  let len := len - 2 in
  o ← mwrite (out st) (op st) (ref_bytes off len);
  Some (Some (mk_lzf (ip st + 1 + len + 1) (op st + zlen (ref_bytes off len) + 1) 0 (hval st) (htab st) o)).

(** [lit++; *op++ = *ip++], and the end of a full run. *)
Definition copy_literal (st : lzf) : option lzf :=
  b ← octet s (ip st);
  o ← mwrite (out st) (op st) [b];
  let st := mk_lzf (ip st + 1) (op st + 1) (lit st + 1) (hval st) (htab st) o in
  if lit st =? MAX_LIT then
    o ← mwrite (out st) (op st - lit st - 1) [uwrap 8 (lit st - 1)];
    Some (mk_lzf (ip st) (op st + 1) 0 (hval st) (htab st) o)
  else Some st.

(** The end: [Some 0] when there is no room, the length of the output otherwise. *)
Fixpoint copy_tail (fuel : nat) (st : lzf) : option lzf :=
  if ip st <? in_end then match fuel with O => None | S fuel => st ← copy_literal st; copy_tail fuel st end else Some st.

Definition finish (st : lzf) : option (Z * list Z) :=
  if op st + 3 >? zlen (out st) then Some (0, out st) else
  st ← copy_tail (Z.to_nat in_end) st;
  st ← stop_run st;
  Some (op st, out st).

Fixpoint compress_loop (fuel : nat) (st : lzf) : option (Z * list Z) :=
  if ip st <? in_end - 2 then
    match fuel with
    | O => None
    | S fuel =>
      h ← NEXT (hval st) (ip st);
      let ref := uwrap 32 (htab st (IDX h)) in
      let st := mk_lzf (ip st) (op st) (lit st) h (set_slot (htab st) (IDX h) (ip st)) (out st) in
      let off := uwrap 64 (ip st - ref - 1) in
      found ← (if (off <? MAX_OFF) && (ref >? 0) then same3 ref (ip st) else Some false);
      if found : bool then
        r ← emit_match ref off st;
        match r with
        | None => Some (0, out st)
        | Some st => if ip st >=? in_end - 2 then finish st else st ← rehash2 st; compress_loop fuel st
        end
      else if op st >=? zlen (out st) then Some (0, out st)
      else st ← copy_literal st; compress_loop fuel st
    end
  else finish st.
End Compress.

(** The length of the compressed data, 0 if they do not fit into [out_data]. *)
Definition lzf_compress (htab : Z -> Z) (in_data out_data : list Z) : option (Z * list Z) :=
  if (zlen in_data =? 0) || (zlen out_data =? 0) then Some (0, out_data) else
  h ← FRST in_data 0;
  compress_loop in_data (length in_data) (mk_lzf 0 1 0 h htab out_data).

(** ** Decompression *)

Fixpoint copy_octets (n : nat) (o : list Z) (op ref : Z) : option (list Z) :=
  match n with
  | O => Some o
  | S n => b ← octet o ref; o ← mwrite o op [b]; copy_octets n o (op + 1) (ref + 1)
  end.

(** The copy of [len] + 2 octets: unrolled for few, [memcpy] when apart. *)
Definition copy_ref (o : list Z) (op ref len : Z) : option (list Z) :=
  if len <=? 9 then copy_octets (Z.to_nat (len + 2)) o op ref else
  let len := len + 2 in
  if op >=? ref + len then bs ← mread o ref len; mwrite o op bs
  else copy_octets (Z.to_nat len) o op ref.

(** One item: [inl] when the data are refused, [inr] with the pointers after it. *)
Definition decompress_item (c o : list Z) (ip op : Z) : option (list Z + Z * Z * list Z) :=
  let in_end := zlen c in
  let out_end := zlen o in
  ctrl ← octet c ip;
  let ip := ip + 1 in
  if ctrl <? Z.shiftl 1 5 then
    let ctrl := ctrl + 1 in
    if op + ctrl >? out_end then Some (inl o) else
    if ip + ctrl >? in_end then Some (inl o) else
    bs ← mread c ip ctrl; o ← mwrite o op bs;
    Some (inr (ip + ctrl, op + ctrl, o))
  else
    let len := Z.shiftr ctrl 5 in
    let ref := op - Z.shiftl (Z.land ctrl 31) 8 - 1 in
    if ip >=? in_end then Some (inl o) else
    '(len, ip) ← (if len =? 7 then l ← octet c ip; Some (len + l, ip + 1) else Some (len, ip));
    if ip >=? in_end then Some (inl o) else
    r ← octet c ip;
    let ip := ip + 1 in
    let ref := ref - r in
    if op + len + 2 >? out_end then Some (inl o) else
    if ref <? 0 then Some (inl o) else
    o ← copy_ref o op ref len;
    Some (inr (ip, op + len + 2, o)).

Fixpoint decompress_loop (fuel : nat) (c o : list Z) (ip op : Z) : option (Z * list Z) :=
  match fuel with
  | O => None
  | S fuel =>
    r ← decompress_item c o ip op;
    match r with
    | inl o => Some (0, o)
    | inr (ip, op, o) => if ip <? zlen c then decompress_loop fuel c o ip op else Some (op, o)
    end
  end.

(** The length of the data, 0 when they are refused. *)
Definition lzf_decompress (in_data out_data : list Z) : option (Z * list Z) := decompress_loop (length in_data) in_data out_data 0 0.

(** ** Bytes of buffers *)

Lemma octet_Some m i b : octet m i = Some b <-> 0 <= i /\ m !! Z.to_nat i = Some b.
Proof. unfold octet. case_bool_decide; naive_solver. Qed.

Lemma octet_in m i : 0 <= i < zlen m -> exists b, octet m i = Some b.
Proof. intros H. destruct (lookup_lt_is_Some_2 m (Z.to_nat i)) as [b Hb]; [unfold zlen in H; lia|]. exists b. apply octet_Some. split; [lia|done]. Qed.

Lemma octet_mid a x b : octet (a ++ x :: b) (zlen a) = Some x.
Proof. apply octet_Some. split; [apply zlen_nonneg|]. unfold zlen. rewrite Nat2Z.id. by rewrite list_lookup_middle. Qed.

Lemma octet_off a x b i : i = zlen a -> octet (a ++ x :: b) i = Some x.
Proof. intros ->. apply octet_mid. Qed.

Lemma mwrite_byte a x y b i : i = zlen a -> mwrite (a ++ x :: b) i [y] = Some (a ++ y :: b).
Proof. intros ->. by apply (mwrite_mid a [x] [y] b). Qed.

(** ** The format *)

(** Compressed data and the data they stand for. *)
Inductive decodes : list Z -> list Z -> Prop :=
  | decodes_nil : decodes [] []
  | decodes_lit c p l : decodes c p -> 1 <= zlen l <= 32 -> decodes (c ++ (zlen l - 1) :: l) (p ++ l)
  | decodes_ref c p x off :
      decodes c p -> 0 <= off < MAX_OFF -> off < zlen p -> 3 <= zlen x <= MAX_REF ->
      (forall i, 0 <= i < zlen x -> octet (p ++ x) (zlen p + i) = octet (p ++ x) (zlen p + i - off - 1)) ->
      decodes (c ++ ref_bytes off (zlen x - 2)) (p ++ x).

(** ** Decompression follows the format *)

Lemma copy_octets_run p off : forall x2 x1 y x,
  x = x1 ++ x2 -> zlen x2 <= zlen y -> (forall i, 0 <= i < zlen x -> octet (p ++ x) (zlen p + i) = octet (p ++ x) (zlen p + i - off - 1)) -> 0 <= off < zlen p ->
  copy_octets (length x2) (p ++ x1 ++ y) (zlen p + zlen x1) (zlen p + zlen x1 - off - 1) = Some (p ++ x ++ drop (length x2) y).
Proof.
  induction x2 as [|b x2 IH]; intros x1 y x -> Hy Hx Ho; cbn [copy_octets length drop]; [by rewrite app_nil_r|]. destruct y as [|z y]; [rewrite zlen_cons, zlen_nil in Hy; pose proof (zlen_nonneg x2); lia|].
  pose proof (zlen_nonneg x1) as H1. pose proof (zlen_nonneg p) as Hp. pose proof (zlen_nonneg x2) as H2. assert (octet (p ++ x1 ++ z :: y) (zlen p + zlen x1 - off - 1) = Some b) as ->.
  { specialize (Hx (zlen x1)). rewrite zlen_app, zlen_cons in Hx. specialize (Hx ltac:(lia)). assert (octet (p ++ x1 ++ b :: x2) (zlen p + zlen x1) = Some b) as Eb by (rewrite app_assoc; apply octet_off; by rewrite zlen_app).
    rewrite Eb in Hx. symmetry in Hx. apply octet_Some in Hx as [Hi Hl]. apply octet_Some. split; [done|]. rewrite app_assoc in *. assert (Z.to_nat (zlen p + zlen x1 - off - 1) < length (p ++ x1))%nat as Hlt by (rewrite length_app; unfold zlen in *; lia).
    rewrite lookup_app_l in Hl |- * by done. done. }
  cbn [mbind option_bind]. rewrite app_assoc, (mwrite_byte (p ++ x1)) by (by rewrite zlen_app). cbn [mbind option_bind].
  replace ((p ++ x1) ++ b :: y) with (p ++ (x1 ++ [b]) ++ y) by (by rewrite <- !app_assoc). replace (zlen p + zlen x1 + 1) with (zlen p + zlen (x1 ++ [b])) by (rewrite zlen_app, zlen_cons, zlen_nil; lia).
  replace (zlen p + zlen x1 - off - 1 + 1) with (zlen p + zlen (x1 ++ [b]) - off - 1) by (rewrite zlen_app, zlen_cons, zlen_nil; lia). rewrite (IH (x1 ++ [b]) y (x1 ++ b :: x2)); [done|by rewrite <- app_assoc| |done|done]. rewrite !zlen_cons in Hy. lia.
Qed.

Lemma copy_ref_run p x y off :
  zlen x <= zlen y -> 0 <= off < zlen p -> 3 <= zlen x -> (forall i, 0 <= i < zlen x -> octet (p ++ x) (zlen p + i) = octet (p ++ x) (zlen p + i - off - 1)) ->
  copy_ref (p ++ y) (zlen p) (zlen p - off - 1) (zlen x - 2) = Some (p ++ x ++ drop (length x) y).
Proof.
  intros Hy Ho Hl Hx. unfold copy_ref. replace (zlen x - 2 + 2) with (zlen x) by lia. replace (Z.to_nat (zlen x)) with (length x) by (unfold zlen; lia).
  pose proof (copy_octets_run p off x [] y x eq_refl Hy Hx Ho) as Hc. cbn [app] in Hc. rewrite zlen_nil, Z.add_0_r in Hc. case_match; [done|]. case_match eqn:E; [|done].
  assert (mread (p ++ y) (zlen p - off - 1) (zlen x) = Some x) as ->.
  { apply mread_Some. split_and!; [lia|lia|rewrite zlen_app; lia|done|]. intros i Hi. specialize (Hx (Z.of_nat i) ltac:(lia)). destruct (lookup_lt_is_Some_2 x i) as [b Hb]; [unfold zlen in Hi; lia|]. rewrite Hb.
    assert (octet (p ++ x) (zlen p + Z.of_nat i) = Some b) as Eb. { apply octet_Some. split; [unfold zlen; lia|]. replace (Z.to_nat (zlen p + Z.of_nat i)) with (length p + i)%nat by (unfold zlen; lia). rewrite lookup_app_r by lia. by replace (length p + i - length p)%nat with i by lia. }
    rewrite Eb in Hx. symmetry in Hx. apply octet_Some in Hx as [_ Hx]. replace (Z.to_nat (zlen p + Z.of_nat i - off - 1)) with (Z.to_nat (zlen p - off - 1) + i)%nat in Hx by lia. unfold zlen in *.
    rewrite lookup_app_l in Hx by lia. rewrite lookup_app_l by lia. done. }
  cbn [mbind option_bind]. rewrite <- (take_drop (length x) y) at 1. rewrite mwrite_mid; [done|]. rewrite zlen_take. unfold zlen in *. lia.
Qed.

Lemma item_lit c p l rest y :
  1 <= zlen l <= 32 -> zlen l <= zlen y ->
  decompress_item (c ++ (zlen l - 1) :: l ++ rest) (p ++ y) (zlen c) (zlen p) = Some (inr (zlen c + 1 + zlen l, zlen p + zlen l, p ++ l ++ drop (length l) y)).
Proof.
  intros Hl Hy. pose proof (zlen_nonneg rest) as Hr. unfold decompress_item. rewrite octet_mid. cbn [mbind option_bind]. change (Z.shiftl 1 5) with 32. replace (zlen l - 1 <? 32) with true by lia. replace (zlen l - 1 + 1) with (zlen l) by lia.
  rewrite !zlen_app, zlen_cons, zlen_app. replace (zlen p + zlen l >? zlen p + zlen y) with false by lia. replace (zlen c + 1 + zlen l >? zlen c + (1 + (zlen l + zlen rest))) with false by lia.
  replace (c ++ (zlen l - 1) :: l ++ rest) with ((c ++ [zlen l - 1]) ++ l ++ rest) by (by rewrite <- app_assoc). rewrite (mread_off (c ++ [zlen l - 1])) by (rewrite ?zlen_app, ?zlen_cons, ?zlen_nil; lia). cbn [mbind option_bind].
  rewrite <- (take_drop (length l) y) at 1. rewrite mwrite_mid by (rewrite zlen_take; unfold zlen in *; lia). done.
Qed.

(** The control byte of a reference. *)
Lemma ctrl_byte off k : 0 <= off < MAX_OFF -> 1 <= k <= 7 -> uwrap 8 (Z.shiftr off 8 + Z.shiftl k 5) = off / 256 + 32 * k.
Proof.
  intros Ho Hk. rewrite Z.shiftr_div_pow2, Z.shiftl_mul_pow2 by lia. change (2 ^ 8) with 256. change (2 ^ 5) with 32. apply eq_trans with (off / 256 + k * 32); [|lia]. apply uwrap_small. unfold in_u. change MAX_OFF with 8192 in Ho.
  assert (0 <= off / 256 < 32) by (split; [apply Z.div_pos; lia|apply Z.div_lt_upper_bound; lia]). lia.
Qed.

Lemma ctrl_fields q k : 0 <= q < 32 -> 0 <= k -> Z.shiftr (q + 32 * k) 5 = k /\ Z.land (q + 32 * k) 31 = q.
Proof.
  intros Hq Hk. split; [rewrite Z.shiftr_div_pow2 by lia; change (2 ^ 5) with 32; rewrite Z.mul_comm, Z.div_add by lia; rewrite Z.div_small by lia; lia|].
  change 31 with (Z.ones 5). rewrite Z.land_ones by lia. change (2 ^ 5) with 32. rewrite Z.mul_comm, Z.mod_add by lia. by apply Z.mod_small.
Qed.

Lemma item_ref c p x off rest y :
  0 <= off < MAX_OFF -> off < zlen p -> 3 <= zlen x <= MAX_REF -> zlen x <= zlen y ->
  (forall i, 0 <= i < zlen x -> octet (p ++ x) (zlen p + i) = octet (p ++ x) (zlen p + i - off - 1)) ->
  decompress_item (c ++ ref_bytes off (zlen x - 2) ++ rest) (p ++ y) (zlen c) (zlen p) =
    Some (inr (zlen c + zlen (ref_bytes off (zlen x - 2)), zlen p + zlen x, p ++ x ++ drop (length x) y)).
Proof.
  intros Ho Hp Hl Hy Hx. pose proof (zlen_nonneg rest) as Hr. pose proof (zlen_nonneg c) as Hc. assert (0 <= off / 256 < 32) as Hq by (change MAX_OFF with 8192 in Ho; split; [apply Z.div_pos; lia|apply Z.div_lt_upper_bound; lia]).
  assert (uwrap 8 off = off mod 256) as Hlow by done. pose proof (Z.div_mod off 256 ltac:(lia)) as Hdm. unfold ref_bytes. destruct (zlen x - 2 <? 7) eqn:E7.
  - rewrite ctrl_byte by lia. destruct (ctrl_fields (off / 256) (zlen x - 2) Hq ltac:(lia)) as [F1 F2]. cbn [app]. unfold decompress_item. rewrite octet_mid. cbn [mbind option_bind]. change (Z.shiftl 1 5) with 32. replace (off / 256 + 32 * (zlen x - 2) <? 32) with false by lia.
    rewrite F1, F2. rewrite !zlen_app, !zlen_cons. replace (zlen c + 1 >=? zlen c + (1 + (1 + zlen rest))) with false by lia. replace (zlen x - 2 =? 7) with false by lia. cbn [mbind option_bind].
    replace (zlen c + 1 >=? zlen c + (1 + (1 + zlen rest))) with false by lia. replace (c ++ off / 256 + 32 * (zlen x - 2) :: uwrap 8 off :: rest) with ((c ++ [off / 256 + 32 * (zlen x - 2)]) ++ uwrap 8 off :: rest) by (by rewrite <- app_assoc).
    rewrite (octet_off (c ++ _)) by (by rewrite zlen_app). cbn [mbind option_bind]. rewrite Hlow. replace (zlen p + (zlen x - 2) + 2 >? zlen p + zlen y) with false by lia.
    rewrite Z.shiftl_mul_pow2 by lia. change (2 ^ 8) with 256. replace (zlen p - off / 256 * 256 - 1 - off mod 256) with (zlen p - off - 1) by lia. replace (zlen p - off - 1 <? 0) with false by lia. rewrite copy_ref_run by (done || lia). cbn [mbind option_bind].
    rewrite zlen_nil. replace (zlen c + 1 + 1) with (zlen c + (1 + (1 + 0))) by lia. by replace (zlen p + (zlen x - 2) + 2) with (zlen p + zlen x) by lia.
  - rewrite (ctrl_byte off 7) by lia. destruct (ctrl_fields (off / 256) 7 Hq ltac:(lia)) as [F1 F2]. cbn [app]. unfold decompress_item. rewrite octet_mid. cbn [mbind option_bind]. change (Z.shiftl 1 5) with 32. replace (off / 256 + 32 * 7 <? 32) with false by lia.
    rewrite F1, F2. rewrite !zlen_app, !zlen_cons. replace (zlen c + 1 >=? zlen c + (1 + (1 + (1 + zlen rest)))) with false by lia. change (7 =? 7) with true. cbv iota.
    assert (uwrap 8 (zlen x - 2 - 7) = zlen x - 9) as -> by (replace (zlen x - 2 - 7) with (zlen x - 9) by lia; apply uwrap_small; unfold in_u; change MAX_REF with 264 in Hl; lia).
    replace (c ++ off / 256 + 32 * 7 :: zlen x - 9 :: uwrap 8 off :: rest) with ((c ++ [off / 256 + 32 * 7]) ++ zlen x - 9 :: uwrap 8 off :: rest) by (by rewrite <- app_assoc). rewrite (octet_off (c ++ _)) by (by rewrite zlen_app). cbn [mbind option_bind].
    replace (zlen c + 1 + 1 >=? zlen c + (1 + (1 + (1 + zlen rest)))) with false by lia. replace ((c ++ [off / 256 + 32 * 7]) ++ zlen x - 9 :: uwrap 8 off :: rest) with ((c ++ [off / 256 + 32 * 7; zlen x - 9]) ++ uwrap 8 off :: rest) by (by rewrite <- !app_assoc).
    rewrite (octet_off (c ++ _)) by (rewrite zlen_app, !zlen_cons, zlen_nil; lia). cbn [mbind option_bind]. rewrite Hlow. replace (7 + (zlen x - 9)) with (zlen x - 2) by lia. replace (zlen p + (zlen x - 2) + 2 >? zlen p + zlen y) with false by lia.
    rewrite Z.shiftl_mul_pow2 by lia. change (2 ^ 8) with 256. replace (zlen p - off / 256 * 256 - 1 - off mod 256) with (zlen p - off - 1) by lia. replace (zlen p - off - 1 <? 0) with false by lia. rewrite copy_ref_run by (done || lia). cbn [mbind option_bind].
    rewrite zlen_nil. replace (zlen c + 1 + 1 + 1) with (zlen c + (1 + (1 + (1 + 0)))) by lia. by replace (zlen p + (zlen x - 2) + 2) with (zlen p + zlen x) by lia.
Qed.

(** ** Decompression inverts the format *)

Lemma decodes_nil_inv p : decodes [] p -> p = [].
Proof. inversion 1 as [|c q l Hd Hl Ec|c q x off Hd Ho Hp Hx Hc Ec]; [done|by destruct c|]. destruct c; [|done]. unfold ref_bytes in Ec. cbn in Ec. by case_match. Qed.

(** Running on data that begin with [c]. *)
Definition runs (c p : list Z) : Prop := forall rest y, zlen p <= zlen y -> exists n : nat, (n <= length c)%nat /\ forall fuel,
  decompress_loop (n + fuel) (c ++ rest) y 0 0 =
    match rest with [] => Some (zlen p, p ++ drop (length p) y) | _ => decompress_loop fuel (c ++ rest) (p ++ drop (length p) y) (zlen c) (zlen p) end.

(** Before the last item. *)
Lemma decodes_prefix c p : decodes c p -> (c <> [] -> runs c p) -> forall tok rest y, tok <> [] -> zlen p <= zlen y -> exists n : nat, (n <= length c)%nat /\ forall fuel,
  decompress_loop (n + S fuel) ((c ++ tok) ++ rest) y 0 0 = decompress_loop (S fuel) ((c ++ tok) ++ rest) (p ++ drop (length p) y) (zlen c) (zlen p).
Proof.
  intros Hd IH tok rest y Ht Hy. destruct c as [|z c].
  - exists 0%nat. split; [cbn; lia|]. intros fuel. assert (p = []) as -> by (by apply decodes_nil_inv). done.
  - destruct (IH ltac:(done) (tok ++ rest) y Hy) as (n & Hn & Hrun). exists n. split; [done|]. intros fuel. rewrite <- app_assoc, Hrun. by destruct tok.
Qed.

(** After an item the loop goes on, or ends. *)
Lemma continue_with fuel (c rest o : list Z) (ip op : Z) (p y all : list Z) :
  zlen all = ip + zlen rest -> ip = zlen c -> op = zlen p -> o = p ++ y ->
  (if ip <? zlen all then decompress_loop fuel all o ip op else Some (op, o)) = match rest with [] => Some (zlen p, p ++ y) | _ => decompress_loop fuel all (p ++ y) (zlen c) (zlen p) end.
Proof.
  intros Ha -> -> ->. destruct rest as [|r rest]; [rewrite zlen_nil in Ha; by replace (zlen c <? zlen all) with false by lia|]. rewrite zlen_cons in Ha. pose proof (zlen_nonneg rest). by replace (zlen c <? zlen all) with true by lia.
Qed.

Lemma decodes_run c p : decodes c p -> c <> [] -> runs c p.
Proof.
  induction 1 as [|c p l Hd IH Hl|c p x off Hd IH Ho Hp Hx Hcopy]; intros Hne rest y Hy; [done| |].
  - rewrite zlen_app in Hy. assert (exists n : nat, (n <= length c)%nat /\ forall fuel, decompress_loop (n + S fuel) ((c ++ zlen l - 1 :: l) ++ rest) y 0 0 = decompress_loop (S fuel) ((c ++ zlen l - 1 :: l) ++ rest) (p ++ drop (length p) y) (zlen c) (zlen p)) as (n & Hn & Hrun).
    { apply (decodes_prefix c p Hd IH); [done|pose proof (zlen_nonneg l); lia]. }
    exists (S n). split; [rewrite length_app; cbn; lia|]. intros fuel. replace (S n + fuel)%nat with (n + S fuel)%nat by lia. rewrite Hrun. cbn [decompress_loop]. rewrite <- app_assoc. cbn [app].
    rewrite item_lit by (done || (rewrite zlen_drop; unfold zlen in *; lia)). cbn [mbind option_bind]. apply continue_with; [rewrite !zlen_app, !zlen_cons, !zlen_app; lia|rewrite zlen_app, zlen_cons; lia|by rewrite zlen_app|by rewrite drop_drop, length_app, <- !app_assoc].
  - rewrite zlen_app in Hy. assert (exists n : nat, (n <= length c)%nat /\ forall fuel, decompress_loop (n + S fuel) ((c ++ ref_bytes off (zlen x - 2)) ++ rest) y 0 0 = decompress_loop (S fuel) ((c ++ ref_bytes off (zlen x - 2)) ++ rest) (p ++ drop (length p) y) (zlen c) (zlen p)) as (n & Hn & Hrun).
    { apply (decodes_prefix c p Hd IH); [unfold ref_bytes; by case_match|lia]. }
    assert (0 < length (ref_bytes off (zlen x - 2)))%nat as Hlr by (unfold ref_bytes; case_match; cbn; lia).
    exists (S n). split; [rewrite length_app; lia|]. intros fuel. replace (S n + fuel)%nat with (n + S fuel)%nat by lia. rewrite Hrun. cbn [decompress_loop]. rewrite <- app_assoc.
    rewrite item_ref by (done || (rewrite zlen_drop; unfold zlen in *; lia)). cbn [mbind option_bind]. apply continue_with; [rewrite !zlen_app; lia|by rewrite zlen_app|by rewrite zlen_app|by rewrite drop_drop, length_app, <- !app_assoc].
Qed.

(** Valid data give back what they stand for, in a buffer of the right size. *)
Lemma decompress_decodes c p y : decodes c p -> c <> [] -> zlen y = zlen p -> lzf_decompress c y = Some (zlen p, p).
Proof.
  intros Hd Hne Hy. destruct (decodes_run c p Hd Hne [] y) as (n & Hn & Hrun); [lia|]. specialize (Hrun (length c - n)%nat). rewrite app_nil_r in Hrun. unfold lzf_decompress. replace (length c) with (n + (length c - n))%nat at 1 by lia. rewrite Hrun.
  rewrite drop_ge by (unfold zlen in Hy; lia). by rewrite app_nil_r.
Qed.

(** ** Decompression is safe on any data *)

Lemma mwrite_len m i bs : 0 <= i -> i + zlen bs <= zlen m -> exists m', mwrite m i bs = Some m' /\ zlen m' = zlen m.
Proof. intros H1 H2. destruct (mwrite_is_Some m i bs H1 H2) as [m' E]. exists m'. split; [done|]. by apply mwrite_Some in E as (_ & _ & E & _). Qed.

Lemma copy_octets_safe : forall n o op ref, 0 <= ref -> ref <= op -> op + Z.of_nat n <= zlen o -> exists o', copy_octets n o op ref = Some o' /\ zlen o' = zlen o.
Proof.
  induction n as [|n IH]; intros o op ref H1 H2 H3; cbn [copy_octets]; [by exists o|]. destruct (octet_in o ref) as [b ->]; [lia|]. cbn [mbind option_bind].
  destruct (mwrite_len o op [b]) as (o1 & -> & E1); [lia|rewrite zlen_cons, zlen_nil; lia|]. cbn [mbind option_bind]. destruct (IH o1 (op + 1) (ref + 1)) as (o2 & -> & E2); [lia|lia|lia|]. exists o2. split; [done|lia].
Qed.

Lemma copy_ref_safe o op ref len : 0 <= ref <= op -> 0 <= len -> op + len + 2 <= zlen o -> exists o', copy_ref o op ref len = Some o' /\ zlen o' = zlen o.
Proof.
  intros Hr Hl Ho. unfold copy_ref. case_match; [apply copy_octets_safe; lia|]. case_match; [|apply copy_octets_safe; lia]. rewrite mread_is_Some by lia. cbn [mbind option_bind].
  apply mwrite_len; [lia|]. rewrite zlen_take, zlen_drop. lia.
Qed.

Definition item_ok (c o : list Z) (ip op : Z) (r : list Z + Z * Z * list Z) : Prop :=
  match r with inl o' => zlen o' = zlen o | inr (ip', op', o') => ip < ip' <= zlen c /\ op <= op' <= zlen o /\ zlen o' = zlen o end.

Lemma item_safe c o ip op : Forall byte_ok c -> 0 <= ip < zlen c -> 0 <= op <= zlen o -> exists r, decompress_item c o ip op = Some r /\ item_ok c o ip op r.
Proof.
  intros Hc Hip Hop. assert (forall i, 0 <= i < zlen c -> exists b, octet c i = Some b /\ 0 <= b < 256) as Hb.
  { intros i Hi. destruct (octet_in c i Hi) as [b Eb]. exists b. split; [done|]. apply octet_Some in Eb as [_ Eb]. rewrite Forall_lookup in Hc. exact (Hc _ _ Eb). }
  unfold decompress_item. destruct (Hb ip Hip) as (ctrl & -> & Hctrl). cbn [mbind option_bind]. change (Z.shiftl 1 5) with 32. destruct (ctrl <? 32) eqn:E1.
  - destruct (op + (ctrl + 1) >? zlen o) eqn:E2; [by eexists|]. destruct (ip + 1 + (ctrl + 1) >? zlen c) eqn:E3; [by eexists|]. rewrite mread_is_Some by lia. cbn [mbind option_bind].
    destruct (mwrite_len o op (take (Z.to_nat (ctrl + 1)) (drop (Z.to_nat (ip + 1)) c))) as (o' & -> & Eo); [lia|rewrite zlen_take, zlen_drop; lia|]. eexists. split; [done|]. cbn. lia.
  - assert (1 <= Z.shiftr ctrl 5 <= 7) as Hs by (rewrite Z.shiftr_div_pow2 by lia; change (2 ^ 5) with 32; split; [apply Z.div_le_lower_bound; lia|apply Z.lt_succ_r, Z.div_lt_upper_bound; lia]).
    assert (0 <= Z.shiftl (Z.land ctrl 31) 8) as Hn by (apply Z.shiftl_nonneg, Z.land_nonneg; lia). destruct (ip + 1 >=? zlen c) eqn:E2; [by eexists|].
    assert (exists len ip', (if Z.shiftr ctrl 5 =? 7 then l ← octet c (ip + 1); Some (Z.shiftr ctrl 5 + l, ip + 1 + 1) else Some (Z.shiftr ctrl 5, ip + 1)) = Some (len, ip') /\ 0 <= len /\ ip < ip') as (len & ip' & -> & Hlen & Hip').
    { case_match; [|eexists _, _; split; [done|lia]]. destruct (Hb (ip + 1)) as (l & -> & Hl); [lia|]. eexists _, _. split; [done|lia]. }
    cbn [mbind option_bind]. destruct (ip' >=? zlen c) eqn:E3; [by eexists|]. destruct (Hb ip') as (r & -> & Hr); [lia|]. cbn [mbind option_bind].
    destruct (op + len + 2 >? zlen o) eqn:E4; [by eexists|]. destruct (op - Z.shiftl (Z.land ctrl 31) 8 - 1 - r <? 0) eqn:E5; [by eexists|]. destruct (copy_ref_safe o op (op - Z.shiftl (Z.land ctrl 31) 8 - 1 - r) len) as (o' & -> & Eo); [lia|lia|lia|].
    eexists. split; [done|]. cbn. lia.
Qed.

Lemma decompress_loop_safe c : Forall byte_ok c -> forall fuel o ip op, 0 <= ip < zlen c -> zlen c - ip <= Z.of_nat fuel -> 0 <= op <= zlen o ->
  exists n o', decompress_loop fuel c o ip op = Some (n, o') /\ 0 <= n <= zlen o /\ zlen o' = zlen o.
Proof.
  intros Hc. induction fuel as [|fuel IH]; intros o ip op Hip Hf Hop; [lia|]. cbn [decompress_loop]. destruct (item_safe c o ip op Hc Hip Hop) as (r & -> & Hr). cbn [mbind option_bind]. destruct r as [o'|[[ip' op'] o']]; cbn in Hr; [exists 0, o'; split; [done|lia]|].
  destruct Hr as (H1 & H2 & H3). destruct (ip' <? zlen c) eqn:E; [|exists op', o'; split; [done|lia]]. destruct (IH o' ip' op') as (n & o2 & -> & Hn & Ho2); [lia|lia|lia|]. exists n, o2. split; [done|lia].
Qed.

Lemma lzf_decompress_safe c o : Forall byte_ok c -> c <> [] -> exists n o', lzf_decompress c o = Some (n, o') /\ 0 <= n <= zlen o /\ zlen o' = zlen o.
Proof. intros Hc Hne. apply decompress_loop_safe; [done|destruct c; [done|rewrite zlen_cons; pose proof (zlen_nonneg c); lia]|unfold zlen; lia|pose proof (zlen_nonneg o); lia]. Qed.

(** ** Compression writes the format *)

Section Correct.
Context (s : list Z).
Hypothesis bytes_s : Forall byte_ok s.
#[local] Abbreviation at_ i := (octet s i).

(** The first [n] octets at [ref] and at [p] are the same. *)
Definition agree (ref p n : Z) : Prop := forall i, 0 <= i < n -> octet s (ref + i) = octet s (p + i).

Lemma agree_next ref p n b : agree ref p n -> octet s (ref + n) = Some b -> octet s (p + n) = Some b -> agree ref p (n + 1).
Proof using Type. intros H H1 H2 i Hi. destruct (decide (i = n)) as [->|Hne]; [congruence|]. apply H. lia. Qed.

Lemma compare_unrolled_ok ref p : 0 <= ref < p -> forall n len, 0 <= len -> agree ref p (len + 1) -> p + len + Z.of_nat n < in_end s ->
  exists go len', compare_unrolled s n ref p len = Some (go, len') /\ len <= len' <= len + Z.of_nat n /\
    if go : bool then len' = len + Z.of_nat n /\ agree ref p (len' + 1) else len < len' /\ agree ref p len'.
Proof using Type.
  intros Hr. induction n as [|n IH]; intros len Hl Ha Hb; cbn [compare_unrolled]; [exists true, len; split; [done|]; split; [lia|]; split; [lia|done]|]. unfold in_end in Hb.
  destruct (octet_in s (ref + (len + 1))) as [a Ea]; [lia|]. destruct (octet_in s (p + (len + 1))) as [b Eb]; [lia|]. rewrite Ea, Eb. cbn [mbind option_bind]. destruct (a =? b) eqn:E.
  - apply Z.eqb_eq in E as ->. destruct (IH (len + 1)) as (go & len' & -> & Hl' & Hg); [lia|by eapply agree_next|unfold in_end; lia|]. exists go, len'. split; [done|]. split; [lia|]. destruct go; [split; [lia|tauto]|split; [lia|tauto]].
  - exists false, (len + 1). split; [done|]. split; [lia|]. split; [lia|done].
Qed.

Lemma compare_loop_ok ref p maxlen : 0 <= ref < p -> p + maxlen <= in_end s -> forall fuel len, 0 <= len -> agree ref p (len + 1) -> maxlen - len <= Z.of_nat fuel -> (0 < fuel)%nat ->
  exists L, compare_loop s fuel ref p maxlen len = Some L /\ len + 1 <= L <= Z.max (len + 1) maxlen /\ agree ref p L.
Proof using Type.
  intros Hr Hm. induction fuel as [|fuel IH]; intros len Hl Ha Hf H0; [lia|]. cbn [compare_loop]. unfold in_end in Hm. destruct (len + 1 <? maxlen) eqn:E; [|exists (len + 1); split; [done|]; split; [lia|done]].
  destruct (octet_in s (ref + (len + 1))) as [a Ea]; [lia|]. destruct (octet_in s (p + (len + 1))) as [b Eb]; [lia|]. rewrite Ea, Eb. cbn [mbind option_bind]. destruct (a =? b) eqn:Eab; [|exists (len + 1); split; [done|]; split; [lia|done]].
  apply Z.eqb_eq in Eab as ->. destruct (IH (len + 1)) as (L & -> & HL & HA); [lia|by eapply agree_next|lia|lia|]. exists L. split; [done|]. split; [lia|done].
Qed.

Lemma match_len_ok ref p : 0 <= ref < p -> p + 3 <= in_end s -> agree ref p 3 ->
  exists L, match_len s ref p (if in_end s - p - 2 >? MAX_REF then MAX_REF else in_end s - p - 2) = Some L /\ 3 <= L <= MAX_REF /\ p + L <= in_end s /\ agree ref p L.
Proof using Type.
  intros Hr Hp Ha. change MAX_REF with 264. set (m := if in_end s - p - 2 >? 264 then 264 else in_end s - p - 2). assert (1 <= m <= 264 /\ p + m + 2 <= in_end s) as [Hm1 Hm2] by (unfold m; case_match; lia). clearbody m. unfold match_len.
  change (Z.to_nat MAX_REF) with 264%nat. destruct (m >? 16) eqn:E.
  - destruct (compare_unrolled_ok ref p Hr 16 2) as (go & len & -> & Hl & Hg); [lia|done|lia|]. cbn [mbind option_bind]. destruct go.
    + destruct Hg as [-> Hg]. change (2 + Z.of_nat 16) with 18 in *. destruct (compare_loop_ok ref p m Hr ltac:(lia) 264 18) as (L & -> & HL & HA); [lia|done|lia|lia|]. exists L. split; [done|]. split; [lia|]. split; [lia|done].
    + exists len. split; [done|]. split; [lia|]. split; [lia|tauto].
  - cbn [mbind option_bind]. destruct (compare_loop_ok ref p m Hr ltac:(lia) 264 2) as (L & -> & HL & HA); [lia|done|lia|lia|]. exists L. split; [done|]. split; [lia|]. split; [lia|done].
Qed.

Lemma same3_ok ref p : 0 <= ref < p -> p + 3 <= in_end s -> exists b, same3 s ref p = Some b /\ (b = true -> agree ref p 3).
Proof using bytes_s.
  unfold in_end. intros Hr Hp. assert (forall i, 0 <= i < zlen s -> exists x, octet s i = Some x /\ 0 <= x < 256) as Hb.
  { intros i Hi. destruct (octet_in s i Hi) as [x Ex]. exists x. split; [done|]. apply octet_Some in Ex as [_ Ex]. rewrite Forall_lookup in bytes_s. exact (bytes_s _ _ Ex). }
  unfold same3. destruct (Hb (ref + 2)) as (a2 & E1 & B1); [lia|]. destruct (Hb (p + 2)) as (b2 & E2 & B2); [lia|]. destruct (Hb (ref + 1)) as (a1 & E3 & B3); [lia|]. destruct (Hb ref) as (a0 & E4 & B4); [lia|].
  destruct (Hb (p + 1)) as (b1 & E5 & B5); [lia|]. destruct (Hb p) as (b0 & E6 & B6); [lia|]. rewrite E1, E2. cbn [mbind option_bind]. destruct (a2 =? b2) eqn:Eab; cbn [negb]; [|by exists false]. apply Z.eqb_eq in Eab as ->.
  rewrite E3, E4, E5, E6. cbn [mbind option_bind]. eexists. split; [done|]. intros Eq%Z.eqb_eq. assert (forall x y, 0 <= y < 256 -> Z.lor (Z.shiftl x 8) y = 256 * x + y) as Hlor.
  { intros x y Hy. rewrite lor_shiftl by lia. lia. }
  rewrite !Hlor in Eq by done. assert (a0 = b0 /\ a1 = b1) as [-> ->] by lia. intros i Hi. assert (i = 0 \/ i = 1 \/ i = 2) as [->|[->| ->]] by lia; [rewrite !Z.add_0_r|idtac|idtac]; congruence.
Qed.

(** A bound on the size of the output. *)
Definition room (z : Z) : Z := z + z / 32.

Lemma room_add z l : 0 <= l -> room z + l <= room (z + l).
Proof using Type. intros H. unfold room. assert (z / 32 <= (z + l) / 32) by (apply Z.div_le_mono; lia). lia. Qed.

Lemma room_run z : room (z + 32) = room z + 33.
Proof using Type. unfold room. replace (z + 32) with (z + 1 * 32) by lia. rewrite Z.div_add by lia. lia. Qed.

(** The state of the compressor: [done] is compressed, stands for [pre], and is
    followed by the place for a length and by the literals [lits]. *)
Record rep (N : Z) (done pre lits post : list Z) (st : lzf) : Prop := {
  r_in : s = pre ++ lits ++ post;
  r_ip : ip st = zlen pre + zlen lits;
  r_lit : lit st = zlen lits;
  r_few : zlen lits < 32;
  r_done : decodes done pre;
  r_op : op st = zlen done + zlen lits + 1;
  r_size : zlen (out st) = N;
  r_out : (exists x rest, out st = done ++ x :: lits ++ rest) \/ (lits = [] /\ out st = done);
  r_small : zlen done <= room (zlen pre);
}.

Lemma rep_room N done pre lits post st : rep N done pre lits post st -> op st <= N -> exists x rest, out st = done ++ x :: lits ++ rest.
Proof using Type. intros [R1 R2 R3 R4 R5 R6 R7 [R8|[-> R8]] R9] H; [done|]. rewrite R8 in R7. rewrite zlen_nil in R6. lia. Qed.

(** One literal more, and the end of a full run. *)
Lemma copy_literal_ok N done pre lits b post st :
  rep N done pre lits (b :: post) st -> op st < N -> exists st', copy_literal s st = Some st' /\ ip st' = ip st + 1 /\
    ((zlen lits < 31 /\ op st' = op st + 1 /\ rep N done pre (lits ++ [b]) post st') \/
     (zlen lits = 31 /\ op st' = op st + 2 /\ rep N (done ++ 31 :: lits ++ [b]) (pre ++ lits ++ [b]) [] post st')).
Proof using bytes_s.
  intros HR Hop. destruct (rep_room _ _ _ _ _ _ HR) as (x & rest & Ho); [lia|]. destruct HR as [R1 R2 R3 R4 R5 R6 R7 _ R9]. unfold copy_literal. rewrite R2.
  assert (octet s (zlen pre + zlen lits) = Some b) as -> by (rewrite R1, app_assoc; apply octet_off; by rewrite zlen_app). cbn [mbind option_bind].
  destruct rest as [|y rest]. { rewrite Ho in R7. rewrite app_nil_r, zlen_app, zlen_cons in R7. lia. }
  rewrite Ho, R6, R3. replace (done ++ x :: lits ++ y :: rest) with ((done ++ x :: lits) ++ y :: rest) by (by rewrite <- app_assoc). rewrite (mwrite_byte (done ++ x :: lits)) by (rewrite zlen_app, zlen_cons; lia). cbn [mbind option_bind lit].
  assert (zlen (lits ++ [b]) = zlen lits + 1) as Hl by (by rewrite zlen_app). assert (zlen ((done ++ x :: lits) ++ b :: rest) = N) as HN by (rewrite <- R7, Ho, !zlen_app, !zlen_cons, !zlen_app, !zlen_cons; lia). change MAX_LIT with 32. destruct (zlen lits + 1 =? 32) eqn:E.
  - cbn [out op lit]. rewrite <- app_assoc. cbn [app]. rewrite (mwrite_byte done) by lia. cbn [mbind option_bind]. eexists. split; [done|]. split; [done|]. right. split; [lia|]. split; [cbn; lia|]. assert (uwrap 8 (zlen lits + 1 - 1) = 31) as -> by (replace (zlen lits + 1 - 1) with 31 by lia; done).
    assert (decodes (done ++ 31 :: lits ++ [b]) (pre ++ lits ++ [b])) as Hd by (replace 31 with (zlen (lits ++ [b]) - 1) by lia; apply decodes_lit; [done|lia]).
    constructor; cbn [ip op lit out]; [rewrite R1; by simplify_list_eq|rewrite zlen_app, Hl, zlen_nil; lia|done|rewrite zlen_nil; lia|done|rewrite zlen_app, zlen_cons, Hl, zlen_nil; lia| | |].
    + rewrite <- HN, !zlen_app, !zlen_cons, !zlen_app, !zlen_cons. lia.
    + destruct rest as [|z rest]; [right; split; [done|]; by simplify_list_eq|left]. exists z, rest. by simplify_list_eq.
    + rewrite !zlen_app, zlen_cons. replace (zlen pre + (zlen lits + zlen [b])) with (zlen pre + 32) by (rewrite zlen_app in Hl; lia). rewrite room_run, zlen_app. rewrite zlen_app in Hl. lia.
  - eexists. split; [done|]. split; [done|]. left. split; [lia|]. split; [cbn; lia|]. constructor; cbn [ip op lit out]; [rewrite R1; by simplify_list_eq|lia|lia|lia|done|lia|done| |done]. left. exists x, rest. by rewrite <- !app_assoc.
Qed.

(** What a run of literals leaves. *)
Definition run_bytes (lits : list Z) : list Z := match lits with [] => [] | _ => (zlen lits - 1) :: lits end.

Lemma decodes_run_bytes done pre lits : decodes done pre -> zlen lits <= 32 -> decodes (done ++ run_bytes lits) (pre ++ lits).
Proof using Type. intros Hd Hl. destruct lits as [|b l]; [by rewrite !app_nil_r|]. apply decodes_lit; [done|]. rewrite zlen_cons in *. pose proof (zlen_nonneg l). lia. Qed.

Lemma stop_run_ok N done pre lits post st :
  rep N done pre lits post st -> op st - zlen lits - 1 < N -> exists o rest, stop_run st = Some (mk_lzf (ip st) (zlen (done ++ run_bytes lits)) (lit st) (hval st) (htab st) o) /\ o = (done ++ run_bytes lits) ++ rest /\ zlen o = N.
Proof using Type.
  intros [R1 R2 R3 R4 R5 R6 R7 R8 R9] Hop. destruct R8 as [(x & rest & Ho)|[-> Ho]]; [|rewrite Ho in R7; rewrite zlen_nil in *; lia]. unfold stop_run. rewrite R6, R3, Ho. rewrite (mwrite_byte done) by lia. cbn [mbind option_bind].
  destruct lits as [|b l].
  - rewrite zlen_nil, Z.add_0_r. change (0 =? 0) with true. cbv iota. cbn [run_bytes app]. rewrite app_nil_r. replace (zlen done + 1 - 1) with (zlen done) by lia. eexists _, _. split; [done|]. split; [done|]. rewrite <- R7, Ho. cbn [app]. by rewrite !zlen_app, !zlen_cons.
  - assert ((zlen (b :: l) =? 0) = false) as -> by (rewrite zlen_cons; pose proof (zlen_nonneg l); lia). cbn [run_bytes]. rewrite (uwrap_small 8) by (unfold in_u; rewrite zlen_cons in *; pose proof (zlen_nonneg l); lia). eexists _, rest.
    replace (zlen done + zlen (b :: l) + 1) with (zlen (done ++ zlen (b :: l) - 1 :: b :: l)) by (rewrite zlen_app, (zlen_cons (_ - 1)); lia). split; [done|]. split; [by rewrite <- app_assoc|]. rewrite <- R7, Ho. by rewrite !zlen_app, !zlen_cons.
Qed.

(** The bytes of a reference that the decompressor resolves. *)
Lemma agree_copy pre x off : agree (zlen pre - off - 1) (zlen pre) (zlen x) -> 0 <= off < zlen pre -> (exists post, s = pre ++ x ++ post) ->
  forall i, 0 <= i < zlen x -> octet (pre ++ x) (zlen pre + i) = octet (pre ++ x) (zlen pre + i - off - 1).
Proof using Type.
  intros Ha Ho [post Hs] i Hi. assert (forall j, 0 <= j < zlen pre + zlen x -> octet (pre ++ x) j = octet s j) as He.
  { intros j Hj. unfold octet. case_bool_decide; [|done]. rewrite Hs, app_assoc. symmetry. apply lookup_app_l. rewrite length_app. unfold zlen in *. lia. }
  rewrite !He by lia. rewrite <- (Ha i Hi). f_equal. lia.
Qed.

Lemma emit_match_ok N done pre lits post st ref :
  rep N done pre lits post st -> 0 < ref < ip st -> ip st - ref - 1 < MAX_OFF -> ip st < in_end s - 2 -> agree ref (ip st) 3 ->
  exists r, emit_match s ref (ip st - ref - 1) st = Some r /\
    match r with None => N < room (zlen s) + 4 | Some st' => ip st + 3 <= ip st' <= in_end s /\ exists done' post', rep N done' (take (Z.to_nat (ip st')) s) [] post' st' end.
Proof using bytes_s.
  intros HR Href Hoff Hip Ha. set (off := ip st - ref - 1) in *. unfold emit_match. rewrite (r_size _ _ _ _ _ _ HR). set (b := (_ && _)). pose proof (zlen_nonneg lits) as Hl0. pose proof HR as [R1 R2 R3 R4 R5 R6 R7 _ R9]. destruct b eqn:Eb.
  { exists None. split; [done|]. unfold b in Eb. apply andb_true_iff in Eb as [_ Eb]. assert (op st + 4 >= N) by (case_match; lia). pose proof (room_add (zlen pre) (zlen lits) Hl0). pose proof (room_add (ip st) 3 ltac:(lia)). pose proof (room_add (ip st + 3) (zlen s - (ip st + 3)) ltac:(unfold in_end in *; lia)) as H4.
    replace (ip st + 3 + (zlen s - (ip st + 3))) with (zlen s) in H4 by lia. rewrite <- R2 in *. unfold in_end in *. lia. }
  assert ((if lit st =? 0 then op st - 1 else op st) + 4 < N) as Hroom by (unfold b in Eb; apply andb_false_iff in Eb; case_match; lia).
  destruct (stop_run_ok N done pre lits post st HR) as (o & rest & -> & Ho & HN); [case_match; lia|]. cbn [mbind option_bind ip op out].
  destruct (match_len_ok ref (ip st)) as (L & -> & HL & HL2 & HA); [lia|lia|done|]. cbn [mbind option_bind]. assert (zlen post = in_end s - ip st) as Hpost by (unfold in_end; rewrite R2, R1 at 1; rewrite !zlen_app; lia).
  destruct (split_len post L (zlen post - L)) as (x & post' & -> & Hx & Hp'); [lia|lia|lia|]. set (done1 := done ++ run_bytes lits) in *. set (bs := ref_bytes off (L - 2)).
  assert (2 <= zlen bs <= 3) as Hbs by (unfold bs, ref_bytes; destruct (L - 2 <? 7); unfold zlen; cbn [length]; lia).
  assert (zlen done1 + 4 < N) as Hd1.
  { assert (zlen done1 = if lit st =? 0 then op st - 1 else op st) as ->; [|done]. unfold done1. rewrite zlen_app, R3, R6. destruct lits as [|l0 lits]; [change (zlen []) with 0; cbn; unfold zlen; cbn; lia|]. cbn [run_bytes].
    assert ((zlen (l0 :: lits) =? 0) = false) as -> by (rewrite zlen_cons; pose proof (zlen_nonneg lits); lia). rewrite (zlen_cons (_ - 1)). lia. }
  destruct (split_len rest (zlen bs) (zlen rest - zlen bs)) as (z & rest' & -> & Hz & Hr'); [lia|rewrite Ho, zlen_app in HN; lia|lia|]. rewrite Ho. rewrite mwrite_mid by done. cbn [mbind option_bind]. eexists. split; [done|]. cbn [ip]. split; [unfold in_end in *; lia|].
  exists (done1 ++ bs), post'. assert (s = (pre ++ lits) ++ x ++ post') as Hs by (rewrite R1; by rewrite <- !app_assoc). assert (take (Z.to_nat (ip st + 1 + (L - 2) + 1)) s = (pre ++ lits) ++ x) as ->.
  { rewrite Hs, app_assoc. apply take_app_length'. rewrite !length_app. unfold zlen in *. lia. }
  assert (decodes (done1 ++ bs) ((pre ++ lits) ++ x)) as Hdec.
  { unfold bs. rewrite <- Hx. assert (zlen (pre ++ lits) = ip st) as Hpl by (rewrite zlen_app; lia). apply decodes_ref; [apply decodes_run_bytes; [done|lia]|unfold off in *; lia|lia|lia|]. apply agree_copy; [|lia|by exists post']. rewrite Hpl, Hx. unfold off. replace (ip st - (ip st - ref - 1) - 1) with ref by lia. done. }
  constructor; cbn [ip op lit out]; [rewrite Hs; cbn [app]; apply app_assoc|change (zlen []) with 0; rewrite !zlen_app in *; lia|done|done|done|change (zlen []) with 0; rewrite !zlen_app; unfold done1; rewrite zlen_app; lia| | |].
  - rewrite <- HN, Ho, !zlen_app. lia.
  - left. destruct rest' as [|y rest']; [rewrite Ho, !zlen_app in HN; change (zlen []) with 0 in HN; lia|]. exists y, rest'. by rewrite <- !app_assoc.
  - rewrite zlen_app. assert (zlen done1 <= zlen done + zlen lits + 1) as H1 by (unfold done1; rewrite zlen_app; destruct lits; cbn [run_bytes]; rewrite ?zlen_cons; change (zlen []) with 0; lia).
    assert (zlen bs + 1 <= L) as H2 by (unfold bs, ref_bytes; destruct (L - 2 <? 7) eqn:E7; unfold zlen; cbn [length]; lia). rewrite !zlen_app. pose proof (room_add (zlen pre) (zlen lits) Hl0). pose proof (room_add (zlen pre + zlen lits) (zlen x) ltac:(lia)). lia.
Qed.

(** The result: nothing, or data that stand for the input. *)
Definition compressed (N : Z) (r : Z * list Z) : Prop :=
  zlen (snd r) = N /\ ((fst r = 0 /\ N < room (zlen s) + 4) \/ (0 < fst r <= N /\ decodes (take (Z.to_nat (fst r)) (snd r)) s)).

(** The last literals. *)
Lemma copy_tail_ok N done pre lits post st :
  rep N done pre lits post st -> zlen post <= 2 -> op st + 3 <= N -> exists st' done' pre' lits', copy_tail s (Z.to_nat (in_end s)) st = Some st' /\ rep N done' pre' lits' [] st' /\ op st' <= N.
Proof using bytes_s.
  intros HR Hp Hop. assert (forall (fuel : nat) done pre lits st, rep N done pre lits [] st -> copy_tail s fuel st = Some st) as Hend.
  { intros fuel d p l x [R1 R2 _ _ _ _ _ _ _]. destruct fuel; cbn [copy_tail]; (replace (ip x <? in_end s) with false; [done|]); rewrite R2; unfold in_end; rewrite R1, !zlen_app; change (zlen []) with 0; lia. }
  assert (forall (fuel : nat) done pre lits b post x, rep N done pre lits (b :: post) x -> op x < N -> copy_tail s (S fuel) x = y ← copy_literal s x; copy_tail s fuel y) as Hstep.
  { intros fuel d p l b q x [R1 R2 _ _ _ _ _ _ _] _. cbn [copy_tail]. replace (ip x <? in_end s) with true; [done|]. rewrite R2. unfold in_end. rewrite R1, !zlen_app, zlen_cons. pose proof (zlen_nonneg q). lia. }
  assert (zlen post <= in_end s) as Hlen by (unfold in_end; rewrite (r_in _ _ _ _ _ _ HR), !zlen_app; pose proof (zlen_nonneg pre); pose proof (zlen_nonneg lits); lia).
  destruct post as [|b1 [|b2 [|b3 post]]]; [| | |rewrite !zlen_cons in Hp; pose proof (zlen_nonneg post); lia].
  - exists st, done, pre, lits. split; [by eapply Hend|]. split; [done|lia].
  - destruct (Z.to_nat (in_end s)) as [|fuel] eqn:Ef; [unfold zlen in Hlen; cbn in Hlen; lia|]. rewrite (Hstep fuel _ _ _ _ _ _ HR) by lia. destruct (copy_literal_ok _ _ _ _ _ _ _ HR) as (st1 & -> & _ & [(H1 & H2 & HR1)|(H1 & H2 & HR1)]); [lia| |]; cbn [mbind option_bind]; rewrite (Hend fuel _ _ _ _ HR1); eexists _, _, _, _; (split; [done|]); (split; [exact HR1|lia]).
  - destruct (Z.to_nat (in_end s)) as [|[|fuel]] eqn:Ef; [unfold zlen in Hlen; cbn in Hlen; lia..|]. rewrite (Hstep _ _ _ _ _ _ _ HR) by lia. destruct (copy_literal_ok _ _ _ _ _ _ _ HR) as (st1 & -> & _ & [(H1 & H2 & HR1)|(H1 & H2 & HR1)]); [lia| |]; cbn [mbind option_bind];
      (rewrite (Hstep _ _ _ _ _ _ _ HR1) by lia); (destruct (copy_literal_ok _ _ _ _ _ _ _ HR1) as (st2 & -> & _ & [(H3 & H4 & HR2)|(H3 & H4 & HR2)]); [lia| |]); cbn [mbind option_bind]; try (rewrite (Hend fuel _ _ _ _ HR2); eexists _, _, _, _; split; [done|]; split; [exact HR2|lia]).
    unfold zlen in H3. cbn in H3. lia.
Qed.

(** How far the output can be. *)
Lemma rep_op N done pre lits post st : rep N done pre lits post st -> op st <= room (ip st) + 1 /\ op st + zlen post <= room (zlen s) + 1.
Proof using Type.
  intros [R1 R2 R3 R4 R5 R6 R7 R8 R9]. pose proof (zlen_nonneg lits) as H1. pose proof (zlen_nonneg post) as H2. pose proof (room_add (zlen pre) (zlen lits) H1). pose proof (room_add (zlen pre + zlen lits) (zlen post) H2) as H3.
  replace (zlen pre + zlen lits + zlen post) with (zlen s) in H3 by (rewrite R1, !zlen_app; lia). rewrite R2. lia.
Qed.

Lemma finish_ok N done pre lits post st : rep N done pre lits post st -> zlen post <= 2 -> s <> [] -> exists r, finish s st = Some r /\ compressed N r.
Proof using bytes_s.
  intros HR Hp Hne. unfold finish. rewrite (r_size _ _ _ _ _ _ HR). destruct (op st + 3 >? N) eqn:E; [exists (0, out st); split; [done|]; split; [apply (r_size _ _ _ _ _ _ HR)|left; split; [done|]; destruct (rep_op _ _ _ _ _ _ HR); pose proof (zlen_nonneg post); lia]|].
  destruct (copy_tail_ok _ _ _ _ _ _ HR Hp) as (st1 & d1 & p1 & l1 & -> & HR1 & Hop1); [lia|]. cbn [mbind option_bind]. pose proof (zlen_nonneg l1) as Hl1. destruct (stop_run_ok _ _ _ _ _ _ HR1) as (o & rest & -> & Ho & HN); [lia|]. cbn [mbind option_bind op out].
  eexists. split; [done|]. split; [done|]. right. cbn [fst snd]. pose proof HR1 as [R1 _ _ R4 R5 _ _ _ _]. rewrite app_nil_r in R1. assert (take (Z.to_nat (zlen (d1 ++ run_bytes l1))) o = d1 ++ run_bytes l1) as -> by (rewrite Ho; apply take_app_length'; unfold zlen; lia).
  assert (decodes (d1 ++ run_bytes l1) s) as Hd by (rewrite R1; apply decodes_run_bytes; [done|lia]). split; [|done]. split; [|rewrite <- HN, Ho, (zlen_app (d1 ++ run_bytes l1)); pose proof (zlen_nonneg rest); lia]. clear Ho.
  destruct (d1 ++ run_bytes l1) as [|x l]; [apply decodes_nil_inv in Hd; done|]. rewrite zlen_cons. pose proof (zlen_nonneg l). lia.
Qed.

Lemma FRST_ok p : 0 <= p -> p + 2 <= in_end s -> exists h, FRST s p = Some h.
Proof using Type. unfold in_end. intros H1 H2. unfold FRST. destruct (octet_in s p) as [a ->]; [lia|]. destruct (octet_in s (p + 1)) as [b ->]; [lia|]. by eexists. Qed.

Lemma NEXT_ok h p : 0 <= p -> p + 3 <= in_end s -> exists h', NEXT s h p = Some h'.
Proof using Type. unfold in_end. intros H1 H2. unfold NEXT. destruct (octet_in s (p + 2)) as [a ->]; [lia|]. by eexists. Qed.

Lemma rep_hash N done pre lits post st h t : rep N done pre lits post st -> rep N done pre lits post (mk_lzf (ip st) (op st) (lit st) h t (out st)).
Proof using Type. intros [R1 R2 R3 R4 R5 R6 R7 R8 R9]. by constructor. Qed.

Lemma compress_loop_ok N : s <> [] -> zlen s < 2 ^ 32 -> forall fuel done pre lits post st, rep N done pre lits post st -> zlen post <= Z.of_nat fuel -> exists r, compress_loop s fuel st = Some r /\ compressed N r.
Proof using bytes_s.
  intros Hne Hsz. induction fuel as [|fuel IH]; intros done pre lits post st HR Hf.
  { cbn [compress_loop]. pose proof HR as [R1 R2 _ _ _ _ _ _ _]. assert (in_end s = ip st + zlen post) as Hin by (unfold in_end; rewrite R1, R2, !zlen_app; lia). replace (ip st <? in_end s - 2) with false by lia. by eapply finish_ok; [exact HR|lia|]. }
  cbn [compress_loop]. pose proof HR as [R1 R2 _ _ _ _ _ _ _]. assert (in_end s = ip st + zlen post) as Hin by (unfold in_end; rewrite R1, R2, !zlen_app; lia). destruct (ip st <? in_end s - 2) eqn:E; [|eapply finish_ok; [exact HR|lia|done]].
  assert (0 <= ip st) as Hip by (rewrite R2; unfold zlen; lia). destruct (NEXT_ok (hval st) (ip st)) as (h & ->); [lia|lia|]. cbn [mbind option_bind ip op lit hval htab out]. set (ref := uwrap 32 (htab st (IDX h))). set (st1 := mk_lzf (ip st) (op st) (lit st) h (set_slot (htab st) (IDX h) (ip st)) (out st)).
  assert (rep N done pre lits post st1) as HR1 by (by apply rep_hash). assert (0 <= ref < 2 ^ 32) as Href by (apply uwrap_range; lia). assert (uwrap 64 (ip st - ref - 1) < MAX_OFF -> ref < ip st /\ uwrap 64 (ip st - ref - 1) = ip st - ref - 1) as Hoff.
  { unfold uwrap. change MAX_OFF with 8192. intros Ho. unfold in_end in *. destruct (decide (ref < ip st)) as [Hlt|Hge]; [split; [done|]; apply Z.mod_small; lia|]. exfalso. replace (ip st - ref - 1) with (ip st - ref - 1 + 2 ^ 64 + (-1) * 2 ^ 64) in Ho by lia. rewrite Z.mod_add in Ho by lia. rewrite Z.mod_small in Ho by lia. lia. }
  assert (exists found, (if (uwrap 64 (ip st - ref - 1) <? MAX_OFF) && (ref >? 0) then same3 s ref (ip st) else Some false) = Some found /\ (found = true -> 0 < ref < ip st /\ uwrap 64 (ip st - ref - 1) = ip st - ref - 1 /\ ip st - ref - 1 < MAX_OFF /\ agree ref (ip st) 3)) as (found & -> & Hfound).
  { destruct ((uwrap 64 (ip st - ref - 1) <? MAX_OFF) && (ref >? 0)) eqn:Ec; [|by exists false]. apply andb_true_iff in Ec as [E1 E2]. destruct (Hoff ltac:(lia)) as [Hlt Heq]. destruct (same3_ok ref (ip st)) as (b & -> & Hb); [lia|lia|]. exists b. split; [done|]. intros ->. split; [lia|]. split; [done|]. split; [lia|by apply Hb]. }
  cbn [mbind option_bind]. destruct found.
  - destruct (Hfound eq_refl) as (G1 & G2 & G3 & G4). rewrite G2. destruct (emit_match_ok N done pre lits post st1 ref HR1) as (r & Er & Hr); [done|done|cbn; lia|done|]. cbn [ip st1] in Er. rewrite Er. cbn [mbind option_bind]. destruct r as [st2|]; [|exists (0, out st); split; [done|]; split; [apply (r_size _ _ _ _ _ _ HR)|by left]].
    destruct Hr as (H1 & done' & post' & HR2). pose proof HR2 as [Q1 Q2 _ _ _ _ _ _ _]. change (ip st1) with (ip st) in H1. assert (in_end s = ip st2 + zlen post') as Hin2 by (unfold in_end; rewrite Q2; apply (f_equal zlen) in Q1; rewrite !zlen_app in Q1; lia).
    destruct (ip st2 >=? in_end s - 2) eqn:E2; [eapply finish_ok; [exact HR2|lia|done]|]. unfold rehash2. destruct (FRST_ok (ip st2 - 2)) as (h1 & ->); [lia|lia|]. cbn [mbind option_bind]. destruct (NEXT_ok h1 (ip st2 - 2)) as (h2 & ->); [lia|lia|]. cbn [mbind option_bind].
    destruct (NEXT_ok h2 (ip st2 - 2 + 1)) as (h3 & ->); [lia|lia|]. cbn [mbind option_bind]. replace (ip st2 - 2 + 1 + 1) with (ip st2) by lia. eapply IH; [apply rep_hash; exact HR2|lia].
  - change (op st1) with (op st). change (out st1) with (out st). rewrite (r_size _ _ _ _ _ _ HR). destruct (op st >=? N) eqn:E2; [exists (0, out st); split; [done|]; split; [apply (r_size _ _ _ _ _ _ HR)|left; split; [done|]; destruct (rep_op _ _ _ _ _ _ HR); pose proof (zlen_nonneg post); lia]|].
    destruct post as [|b post]; [unfold zlen in Hin; cbn in Hin; lia|]. rewrite zlen_cons in Hf. destruct (copy_literal_ok _ _ _ _ _ _ _ HR1) as (st2 & -> & _ & [(_ & _ & HR2)|(_ & _ & HR2)]); [cbn; lia| |]; cbn [mbind option_bind]; (eapply IH; [exact HR2|lia]).
Qed.
End Correct.

(** Compression ends without leaving its buffers, whatever the hash table holds. *)
Lemma lzf_compress_ok htab s o : Forall byte_ok s -> 2 <= zlen s < 2 ^ 32 -> exists r, lzf_compress htab s o = Some r /\ compressed s (zlen o) r.
Proof.
  intros Hs Hl. unfold lzf_compress. pose proof (room_add 0 (zlen s) ltac:(lia)) as Hroom. change (room 0) with 0 in Hroom. rewrite Z.add_0_l in Hroom. destruct ((zlen s =? 0) || (zlen o =? 0)) eqn:E; [exists (0, o); split; [done|]; split; [done|]; left; split; [done|]; cbn; lia|]. apply orb_false_iff in E as [E1 E2].
  destruct (FRST_ok s 0) as (h & ->); [lia|unfold in_end; lia|]. cbn [mbind option_bind]. assert (s <> []) as Hne by (intros ->; unfold zlen in Hl; cbn in Hl; lia). apply (compress_loop_ok s Hs (zlen o) Hne ltac:(lia) _ [] [] [] s); [|unfold zlen; lia].
  constructor; cbn [ip op lit out]; [done|done|done|done|constructor|done|done| |done]. left. destruct o as [|x rest]; [done|]. by exists x, rest.
Qed.

Lemma lzf_inverse (htab : Z -> Z) (s o buf : list Z) :
  Forall byte_ok s -> 2 <= zlen s < 2 ^ 32 -> zlen buf = zlen s ->
  exists n o', lzf_compress htab s o = Some (n, o') /\ zlen o' = zlen o /\
    ((n = 0 /\ zlen o < zlen s + zlen s / 32 + 4) \/ (0 < n <= zlen o /\ lzf_decompress (take (Z.to_nat n) o') buf = Some (zlen s, s))).
Proof.
  intros Hs Hl Hb. destruct (lzf_compress_ok htab s o Hs Hl) as ([n o'] & E & Ho & Hn). exists n, o'. split; [done|]. split; [done|]. destruct Hn as [[Hn Hr]|[Hn Hd]]; [left; unfold room in Hr; split; [done|lia]|right]. split; [done|].
  apply decompress_decodes; [done| |done]. intros E0. cbn [fst snd] in *. rewrite E0 in Hd. apply decodes_nil_inv in Hd as ->. change (zlen []) with 0 in Hl. lia.
Qed.

(** C38 Compression with LZF loses nothing.  For every input of at least two bytes
    and less than 2^32 (for a single byte the code reads the byte after it),
    whatever the uninitialised hash table and the output buffer hold, compression
    ends without an access outside its buffers; it gives up only if the output
    buffer is smaller than the input and one byte in 32 more; otherwise
    decompression of the result into a buffer of the original size gives back the
    input. *)
Theorem lzf_roundtrip (htab : Z -> Z) (s o buf : list Z) :
  Forall byte_ok s -> 2 <= zlen s < 2 ^ 32 -> zlen buf = zlen s ->
  exists n o', lzf_compress htab s o = Some (n, o') /\ zlen o' = zlen o /\
    ((n = 0 /\ zlen o < zlen s + zlen s / 32 + 4) \/ (0 < n <= zlen o /\ lzf_decompress (take (Z.to_nat n) o') buf = Some (zlen s, s))).
Proof. apply lzf_inverse. Qed.

Definition sample : list Z := concat (replicate 12 [97; 98; 99; 97]) ++ [1; 2; 3].

Lemma lzf_roundtrip_witness :
  lzf_compress (fun _ => 77) sample (replicate 47 0) = Some (13, [4; 97; 98; 99; 97; 97; 224; 34; 3; 2; 1; 2; 3] ++ replicate 34 0) /\
  exists n o', lzf_compress (fun _ => 77) sample (replicate 47 0) = Some (n, o') /\ zlen o' = 47 /\
    ((n = 0 /\ 47 < 51 + 51 / 32 + 4) \/ (0 < n <= 47 /\ lzf_decompress (take (Z.to_nat n) o') (replicate 51 9) = Some (51, sample))).
Proof. split; [vm_compute; reflexivity|]. apply (lzf_roundtrip (fun _ => 77) sample (replicate 47 0) (replicate 51 9)); [decide_now|split; vm_compute; congruence|reflexivity]. Defined.
