(* ===== verification/Intset.v ===== *)
(** * Integer sets ([intset.c])

    The sorted array of 16-, 32- or 64-bit integers that encodes small sets
    of integers, at the level of its bytes: [contents] is the flexible array
    of the struct, and the accesses of the source are reads and writes of it.
    An operation returns [None] when it would touch memory outside the
    allocation.  The host's byte order and the bytes [zrealloc] leaves in
    fresh memory are arguments of the section. *)

From S2P Require Import Prelude Endianconv.
From stdpp Require Import options.

Definition INTSET_ENC_INT16 : Z := 2.
Definition INTSET_ENC_INT32 : Z := 4.
Definition INTSET_ENC_INT64 : Z := 8.

Definition INT16_MIN : Z := -32768.
Definition INT16_MAX : Z := 32767.
Definition INT32_MIN : Z := -2147483648.
Definition INT32_MAX : Z := 2147483647.

Record intset := mk_intset {
  encoding : Z;         (* uint32_t, little endian in memory *)
  is_length : Z;        (* uint32_t, little endian in memory *)
  contents : list Z;
}.

Definition set_contents (s : intset) (m : list Z) : intset :=
  mk_intset (encoding s) (is_length s) m.
Definition set_length (s : intset) (n : Z) : intset :=
  mk_intset (encoding s) n (contents s).
Definition set_encoding (s : intset) (e : Z) : intset :=
  mk_intset e (is_length s) (contents s).

Definition _intsetValueEncoding (v : Z) : Z :=
  if (v <? INT32_MIN) || (v >? INT32_MAX) then INTSET_ENC_INT64
  else if (v <? INT16_MIN) || (v >? INT16_MAX) then INTSET_ENC_INT32
  else INTSET_ENC_INT16.

Section Intset.
Context (host : byte_order) (junk : nat -> Z).

Definition _intsetGetEncoded (s : intset) (pos enc : Z) : option Z :=
  if enc =? INTSET_ENC_INT64 then
    v64 ← mread (contents s) (pos * 8) 8;
    v64 ← memrev64ifbe host v64;
    Some (swrap 64 (native_val host v64))
  else if enc =? INTSET_ENC_INT32 then
    v32 ← mread (contents s) (pos * 4) 4;
    v32 ← memrev32ifbe host v32;
    Some (swrap 32 (native_val host v32))
  else
    v16 ← mread (contents s) (pos * 2) 2;
    v16 ← memrev16ifbe host v16;
    Some (swrap 16 (native_val host v16)).

Definition _intsetGet (s : intset) (pos : Z) : option Z :=
  _intsetGetEncoded s pos (intrev32ifbe host (encoding s)).

Definition _intsetSet (s : intset) (pos value : Z) : option intset :=
  let enc := intrev32ifbe host (encoding s) in
  if enc =? INTSET_ENC_INT64 then
    m ← mwrite (contents s) (pos * 8) (native_bytes host 8 value);
    x ← mread m (pos * 8) 8; x ← memrev64ifbe host x;
    m ← mwrite m (pos * 8) x; Some (set_contents s m)
  else if enc =? INTSET_ENC_INT32 then
    m ← mwrite (contents s) (pos * 4) (native_bytes host 4 value);
    x ← mread m (pos * 4) 4; x ← memrev32ifbe host x;
    m ← mwrite m (pos * 4) x; Some (set_contents s m)
  else
    m ← mwrite (contents s) (pos * 2) (native_bytes host 2 value);
    x ← mread m (pos * 2) 2; x ← memrev16ifbe host x;
    m ← mwrite m (pos * 2) x; Some (set_contents s m).

Definition intsetNew : intset :=
  mk_intset (intrev32ifbe host INTSET_ENC_INT16) 0 [].

Definition intsetResize (s : intset) (len : Z) : intset :=
  let size := uwrap 32 (len * intrev32ifbe host (encoding s)) in
  set_contents s (mrealloc junk (contents s) size).

(** The [while(max >= min)] loop of [intsetSearch]; its result is the final
    [(min, mid, cur)].  Each turn halves the interval, so one more turn than
    its width is enough fuel. *)
Fixpoint intsetSearch_loop (fuel : nat) (s : intset) (value min max mid cur : Z)
    : option (Z * Z * Z) :=
  match fuel with
  | O => None
  | S fuel =>
    if max >=? min then
      let mid := swrap 32 (Z.shiftr (uwrap 32 (uwrap 32 min + uwrap 32 max)) 1) in
      cur ← _intsetGet s mid;
      if value >? cur then intsetSearch_loop fuel s value (mid + 1) max mid cur
      else if value <? cur then intsetSearch_loop fuel s value min (mid - 1) mid cur
      else Some (min, mid, cur)
    else Some (min, mid, cur)
  end.

(** Result: the return value and what [*pos] is set to. *)
Definition intsetSearch (s : intset) (value : Z) : option (bool * Z) :=
  let len := intrev32ifbe host (is_length s) in
  let max := swrap 32 (uwrap 32 (len - 1)) in
  if len =? 0 then Some (false, 0) else
  last ← _intsetGet s max;
  if value >? last then Some (false, len) else
  first ← _intsetGet s 0;
  if value <? first then Some (false, 0) else
  '(min, mid, cur) ← intsetSearch_loop (Z.to_nat len + 1) s value 0 max (-1) (-1);
  if value =? cur then Some (true, mid) else Some (false, min).

(** [while(length--) _intsetSet(is,length+prepend,_intsetGetEncoded(is,length,curenc))] *)
Fixpoint intsetUpgrade_loop (length : nat) (s : intset) (prepend curenc : Z)
    : option intset :=
  match length with
  | O => Some s
  | S length =>
    v ← _intsetGetEncoded s (Z.of_nat length) curenc;
    s ← _intsetSet s (Z.of_nat length + prepend) v;
    intsetUpgrade_loop length s prepend curenc
  end.

Definition intsetUpgradeAndAdd (s : intset) (value : Z) : option intset :=
  let curenc := uwrap 8 (intrev32ifbe host (encoding s)) in
  let newenc := _intsetValueEncoding value in
  let length := swrap 32 (intrev32ifbe host (is_length s)) in
  let prepend := if value <? 0 then 1 else 0 in
  let s := set_encoding s (intrev32ifbe host newenc) in
  let s := intsetResize s (uwrap 32 (intrev32ifbe host (is_length s) + 1)) in
  s ← intsetUpgrade_loop (Z.to_nat length) s prepend curenc;
  s ← (if negb (prepend =? 0) then _intsetSet s 0 value
        else _intsetSet s (intrev32ifbe host (is_length s)) value);
  Some (set_length s (intrev32ifbe host (uwrap 32 (intrev32ifbe host (is_length s) + 1)))).

Definition intsetMoveTail (s : intset) (from to : Z) : option intset :=
  let n := uwrap 32 (intrev32ifbe host (is_length s) - from) in
  let enc := intrev32ifbe host (encoding s) in
  if enc =? INTSET_ENC_INT64 then
    m ← mmove (contents s) (to * 8) (from * 8) (uwrap 32 (n * 8)); Some (set_contents s m)
  else if enc =? INTSET_ENC_INT32 then
    m ← mmove (contents s) (to * 4) (from * 4) (uwrap 32 (n * 4)); Some (set_contents s m)
  else
    m ← mmove (contents s) (to * 2) (from * 2) (uwrap 32 (n * 2)); Some (set_contents s m).

(** Result: the set and [*success]. *)
Definition intsetAdd (s : intset) (value : Z) : option (intset * bool) :=
  let valenc := _intsetValueEncoding value in
  if valenc >? intrev32ifbe host (encoding s) then
    s ← intsetUpgradeAndAdd s value; Some (s, true)
  else
    '(found, pos) ← intsetSearch s value;
    if (found : bool) then Some (s, false) else
    let s := intsetResize s (uwrap 32 (intrev32ifbe host (is_length s) + 1)) in
    s ← (if pos <? intrev32ifbe host (is_length s)
          then intsetMoveTail s pos (uwrap 32 (pos + 1)) else Some s);
    s ← _intsetSet s pos value;
    Some (set_length s
            (intrev32ifbe host (uwrap 32 (intrev32ifbe host (is_length s) + 1))), true).

Definition intsetRemove (s : intset) (value : Z) : option (intset * bool) :=
  let valenc := _intsetValueEncoding value in
  if valenc <=? intrev32ifbe host (encoding s) then
    '(found, pos) ← intsetSearch s value;
    if (found : bool) then
      let len := intrev32ifbe host (is_length s) in
      s ← (if pos <? uwrap 32 (len - 1)
            then intsetMoveTail s (uwrap 32 (pos + 1)) pos else Some s);
      let s := intsetResize s (uwrap 32 (len - 1)) in
      Some (set_length s (intrev32ifbe host (uwrap 32 (len - 1))), true)
    else Some (s, false)
  else Some (s, false).

Definition intsetFind (s : intset) (value : Z) : option bool :=
  let valenc := _intsetValueEncoding value in
  if valenc <=? intrev32ifbe host (encoding s) then
    '(found, _) ← intsetSearch s value; Some found
  else Some false.

(** [r] is what [rand()] returned; a modulo by a zero length is undefined. *)
Definition intsetRandom (s : intset) (r : Z) : option Z :=
  let len := intrev32ifbe host (is_length s) in
  if len =? 0 then None else _intsetGet s (uwrap 32 r mod len).

(** [Some None] is the return value 0. *)
Definition intsetGet (s : intset) (pos : Z) : option (option Z) :=
  if pos <? intrev32ifbe host (is_length s) then Some <$> _intsetGet s pos
  else Some None.

Definition intsetLen (s : intset) : Z := intrev32ifbe host (is_length s).

Definition intsetBlobLen (s : intset) : Z :=
  8 + uwrap 32 (intrev32ifbe host (is_length s) * intrev32ifbe host (encoding s)).

End Intset.

(** ** Representation

    [intset_repr e s l]: the set is stored with [e]-byte entries, and the
    entries are, in order, the elements of [l]. *)

Section Repr.
Context (host : byte_order) (junk : nat -> Z).

Record intset_repr (e : nat) (s : intset) (l : list Z) : Prop := {
  repr_size : int_size e;
  repr_enc : intrev32ifbe host (encoding s) = Z.of_nat e;
  repr_len : intrev32ifbe host (is_length s) = zlen l;
  repr_mem : zlen (contents s) = zlen l * Z.of_nat e;
  repr_elem : forall i v, l !! i = Some v ->
    in_s (8 * Z.of_nat e) v /\
    mread (contents s) (Z.of_nat i * Z.of_nat e) (Z.of_nat e) = Some (le_bytes e v);
}.

Lemma valueEncoding_size v : exists e, int_size e /\ _intsetValueEncoding v = Z.of_nat e.
Proof.
  unfold _intsetValueEncoding, int_size.
  repeat case_match; [exists 8%nat | exists 4%nat | exists 2%nat]; auto.
Qed.

Lemma valueEncoding_le v e :
  int_size e -> in_s 64 v -> _intsetValueEncoding v <= Z.of_nat e <-> in_s (8 * Z.of_nat e) v.
Proof.
  unfold _intsetValueEncoding, INT16_MIN, INT16_MAX, INT32_MIN, INT32_MAX,
    INTSET_ENC_INT16, INTSET_ENC_INT32, INTSET_ENC_INT64.
  intros He Hv. size_cases He; repeat case_match; width_lia.
Qed.

Lemma getEncoded_spec e s pos v :
  int_size e -> in_s (8 * Z.of_nat e) v ->
  mread (contents s) (pos * Z.of_nat e) (Z.of_nat e) = Some (le_bytes e v) ->
  _intsetGetEncoded host s pos (Z.of_nat e) = Some v.
Proof.
  intros He Hv Hr.
  pose proof (memrevifbe_le host e v He) as Hm.
  assert (swrap (8 * Z.of_nat e) (native_val host (native_bytes host e v)) = v) as Hs.
  { rewrite native_val_bytes. size_cases He;
      rewrite swrap_mod by done; by apply swrap_small. }
  unfold _intsetGetEncoded. size_cases He; simpl in *;
    rewrite Hr; simpl; rewrite Hm; simpl; congruence.
Qed.

Lemma intsetSet_spec e s pos v :
  int_size e -> intrev32ifbe host (encoding s) = Z.of_nat e ->
  0 <= pos -> pos * Z.of_nat e + Z.of_nat e <= zlen (contents s) ->
  exists m, mwrite (contents s) (pos * Z.of_nat e) (le_bytes e v) = Some m /\
    _intsetSet host s pos v = Some (set_contents s m).
Proof.
  intros He Henc Hpos Hb.
  assert (zlen (native_bytes host e v) = Z.of_nat e) as Hn
    by (unfold zlen; by rewrite length_native_bytes).
  destruct (mwrite_is_Some (contents s) (pos * Z.of_nat e) (native_bytes host e v))
    as [m1 H1]; [lia|lia|].
  pose proof (mread_mwrite_same _ _ _ _ H1) as Hr. rewrite Hn in Hr.
  pose proof (mwrite_mwrite _ _ _ (le_bytes e v) _ H1) as H2.
  rewrite Hn, zlen_le_bytes in H2. specialize (H2 eq_refl).
  destruct (mwrite_is_Some (contents s) (pos * Z.of_nat e) (le_bytes e v))
    as [m2 H3]; [lia|rewrite zlen_le_bytes; lia|].
  exists m2. split; [done|]. rewrite <- H2 in H3.
  pose proof (memrevifbe_native host e v He) as Hm.
  unfold _intsetSet. rewrite Henc. size_cases He; simpl in *;
    rewrite H1; simpl; rewrite Hr; simpl; rewrite Hm; simpl; by rewrite H3.
Qed.

Lemma moveTail_spec e s from to :
  int_size e -> intrev32ifbe host (encoding s) = Z.of_nat e ->
  let n := intrev32ifbe host (is_length s) - from in
  0 <= n -> n * Z.of_nat e < 2 ^ 32 -> 0 <= from -> 0 <= to ->
  (to + n) * Z.of_nat e <= zlen (contents s) ->
  (from + n) * Z.of_nat e <= zlen (contents s) ->
  exists m, mmove (contents s) (to * Z.of_nat e) (from * Z.of_nat e) (n * Z.of_nat e) = Some m /\
    intsetMoveTail host s from to = Some (set_contents s m).
Proof.
  intros He Henc n Hn Hn32 Hf Ht Hto Hfrom.
  destruct (mmove_is_Some (contents s) (to * Z.of_nat e) (from * Z.of_nat e) (n * Z.of_nat e))
    as [m Hm]; [lia|lia|lia|lia|lia|].
  exists m. split; [done|]. unfold intsetMoveTail. rewrite Henc. fold n.
  size_cases He; simpl in *;
    rewrite (uwrap_small 32 n) by (unfold in_u; lia);
    rewrite uwrap_small by (unfold in_u; lia); by rewrite Hm.
Qed.

Lemma resize_spec e s n :
  intrev32ifbe host (encoding s) = Z.of_nat e -> 0 <= n -> n * Z.of_nat e < 2 ^ 32 ->
  intsetResize host junk s n = set_contents s (mrealloc junk (contents s) (n * Z.of_nat e)).
Proof.
  intros Henc ??. unfold intsetResize. rewrite Henc.
  by rewrite uwrap_small by (unfold in_u; lia).
Qed.

Lemma repr_get e s l i v :
  intset_repr e s l -> l !! i = Some v -> _intsetGet host s (Z.of_nat i) = Some v.
Proof.
  intros Hr Hi. unfold _intsetGet. rewrite (repr_enc _ _ _ Hr).
  destruct (repr_elem _ _ _ Hr _ _ Hi). eapply getEncoded_spec; eauto using repr_size.
Qed.

Lemma repr_get_Z e s l i v :
  intset_repr e s l -> 0 <= i -> l !! Z.to_nat i = Some v -> _intsetGet host s i = Some v.
Proof.
  intros Hr Hi Hv. rewrite <- (Z2Nat.id i) by done. by eapply repr_get.
Qed.

(** ** Binary search *)

(** [value] belongs between positions [p - 1] and [p]. *)
Definition split_at (l : list Z) (value p : Z) : Prop :=
  forall i x, l !! i = Some x ->
    (Z.of_nat i < p -> x < value) /\ (p <= Z.of_nat i -> value < x).

Lemma midpoint min max :
  0 <= min <= max -> max < 2 ^ 31 ->
  let mid := swrap 32 (Z.shiftr (uwrap 32 (uwrap 32 min + uwrap 32 max)) 1) in
  mid = (min + max) / 2 /\ min <= mid <= max.
Proof.
  intros H1 H2. cbv zeta.
  rewrite !(uwrap_small 32) by (rewrite ?(uwrap_small 32); width_lia).
  rewrite Z.shiftr_div_pow2 by done. change (2 ^ 1) with 2.
  assert (min <= (min + max) / 2 <= max) as Hm.
  { split; [apply Z.div_le_lower_bound|apply Z.div_le_upper_bound]; lia. }
  rewrite swrap_small; [done|done|width_lia].
Qed.

Lemma search_loop_spec e s l value fuel min max mid cur :
  intset_repr e s l -> sorted_lt l -> zlen l < 2 ^ 31 ->
  0 <= min -> min <= max + 1 -> max < zlen l ->
  (forall i x, l !! i = Some x -> Z.of_nat i < min -> x < value) ->
  (forall i x, l !! i = Some x -> max < Z.of_nat i -> value < x) ->
  max - min + 1 < Z.of_nat fuel ->
  min <= max \/ cur <> value ->
  exists min' mid' cur',
    intsetSearch_loop host fuel s value min max mid cur = Some (min', mid', cur') /\
    ((cur' = value /\ 0 <= mid' /\ l !! Z.to_nat mid' = Some value) \/
     (cur' <> value /\ 0 <= min' <= zlen l /\ split_at l value min')).
Proof.
  intros Hr Hs Hlen.
  revert min max mid cur. induction fuel as [|fuel IH];
    intros min max mid cur Hmin Hmm Hmax Hlo Hhi Hf Hcur; [lia|].
  simpl. rewrite Z.geb_leb. destruct (Z.leb_spec min max) as [Hle|Hgt].
  - destruct (midpoint min max ltac:(lia) ltac:(lia)) as [_ Hmid].
    remember (swrap 32 (Z.shiftr (uwrap 32 (uwrap 32 min + uwrap 32 max)) 1)) as m eqn:Em.
    destruct (lookup_lt_is_Some_2 l (Z.to_nat m)) as [x Hx]; [unfold zlen in *; lia|].
    rewrite (repr_get_Z _ _ _ m _ Hr ltac:(lia) Hx). simpl.
    assert (forall i y, l !! i = Some y -> Z.of_nat i < m -> y < x) as Hbelow
      by (intros i y Hi ?; eapply (Hs i (Z.to_nat m)); [lia|done..]).
    assert (forall i y, l !! i = Some y -> m < Z.of_nat i -> x < y) as Habove
      by (intros i y Hi ?; eapply (Hs (Z.to_nat m) i); [lia|done..]).
    assert (forall i y, l !! i = Some y -> Z.of_nat i = m -> y = x) as Hat
      by (intros i y Hi <-; rewrite Nat2Z.id in Hx; congruence).
    rewrite Z.gtb_ltb. destruct (Z.ltb_spec x value); [|destruct (Z.ltb_spec value x)].
    + apply IH; try lia; [|done]. intros i y Hi Hlt.
      destruct (Z.lt_trichotomy (Z.of_nat i) m) as [?|[?|?]]; [| |lia].
      * specialize (Hbelow i y Hi). lia.
      * specialize (Hat i y Hi). lia.
    + apply IH; try lia; [done|]. intros i y Hi Hlt.
      destruct (Z.lt_trichotomy (Z.of_nat i) m) as [?|[?|?]]; [lia| |].
      * specialize (Hat i y Hi). lia.
      * specialize (Habove i y Hi). lia.
    + assert (x = value) as -> by lia. do 3 eexists. split; [done|]. left. split_and!; [done|lia|done].
  - do 3 eexists. split; [done|]. right. split_and!; try lia.
    intros i x Hi. split; intros ?; [by eapply Hlo|]. eapply Hhi; [done|lia].
Qed.

Lemma intsetSearch_spec e s l value :
  intset_repr e s l -> sorted_lt l -> zlen l < 2 ^ 31 ->
  exists found pos, intsetSearch host s value = Some (found, pos) /\
    if (found : bool) then 0 <= pos /\ l !! Z.to_nat pos = Some value
    else 0 <= pos <= zlen l /\ split_at l value pos.
Proof.
  intros Hr Hs Hlen. unfold intsetSearch. rewrite (repr_len _ _ _ Hr).
  pose proof (zlen_nonneg l). destruct (Z.eqb_spec (zlen l) 0) as [E|NE].
  { do 2 eexists. split; [done|]. simpl. split; [lia|].
    intros i x Hi%lookup_lt_Some. unfold zlen in *. lia. }
  rewrite (uwrap_small 32) by width_lia. rewrite swrap_small by width_lia.
  destruct (lookup_lt_is_Some_2 l (Z.to_nat (zlen l - 1))) as [z Hz]; [unfold zlen in *; lia|].
  destruct (lookup_lt_is_Some_2 l (Z.to_nat 0)) as [a Ha]; [unfold zlen in *; lia|].
  rewrite (repr_get_Z _ _ _ (zlen l - 1) _ Hr ltac:(lia) Hz). simpl.
  rewrite Z.gtb_ltb. destruct (Z.ltb_spec z value) as [Hzv|Hzv].
  { do 2 eexists. split; [done|]. simpl. split; [lia|].
    intros i x Hi. pose proof (lookup_lt_Some _ _ _ Hi). split; [|unfold zlen in *; lia].
    intros _. destruct (decide (i = Z.to_nat (zlen l - 1))) as [->|]; [congruence|].
    enough (x < z) by lia. eapply (Hs i); [|done..]. unfold zlen in *. lia. }
  rewrite (repr_get_Z _ _ _ 0 _ Hr ltac:(lia) Ha). simpl.
  destruct (Z.ltb_spec value a) as [Hav|Hav].
  { do 2 eexists. split; [done|]. simpl. split; [lia|].
    intros i x Hi. split; [lia|]. intros _.
    destruct (decide (i = Z.to_nat 0)) as [->|]; [congruence|].
    enough (a < x) by lia. eapply (Hs _ i); [|done..]. lia. }
  destruct (search_loop_spec e s l value (Z.to_nat (zlen l) + 1) 0 (zlen l - 1) (-1) (-1))
    as (min' & mid' & cur' & -> & Hres); try done; try lia.
  { intros i x Hi%lookup_lt_Some. unfold zlen in *. lia. }
  simpl. destruct Hres as [(-> & ? & ?) | (Hne & ? & ?)].
  - rewrite Z.eqb_refl. by do 2 eexists.
  - destruct (Z.eqb_spec value cur'); [congruence|]. by do 2 eexists.
Qed.

(** ** Upgrade of the encoding *)

Lemma in_s_mono e e' v :
  int_size e -> int_size e' -> Z.of_nat e <= Z.of_nat e' ->
  in_s (8 * Z.of_nat e) v -> in_s (8 * Z.of_nat e') v.
Proof. intros He He'. size_cases He; size_cases He'; width_lia. Qed.

Lemma upgrade_loop_spec e e' p l k s :
  int_size e -> int_size e' -> Z.of_nat e <= Z.of_nat e' -> 0 <= p <= 1 ->
  intrev32ifbe host (encoding s) = Z.of_nat e' ->
  zlen (contents s) = (zlen l + 1) * Z.of_nat e' -> (k <= length l)%nat ->
  (forall i v, l !! i = Some v -> in_s (8 * Z.of_nat e) v) ->
  (forall i v, l !! i = Some v -> (i < k)%nat ->
    mread (contents s) (Z.of_nat i * Z.of_nat e) (Z.of_nat e) = Some (le_bytes e v)) ->
  (forall i v, l !! i = Some v -> (k <= i)%nat ->
    mread (contents s) ((Z.of_nat i + p) * Z.of_nat e') (Z.of_nat e') = Some (le_bytes e' v)) ->
  exists m, intsetUpgrade_loop host k s p (Z.of_nat e) = Some (set_contents s m) /\
    zlen m = zlen (contents s) /\
    forall i v, l !! i = Some v ->
      mread m ((Z.of_nat i + p) * Z.of_nat e') (Z.of_nat e') = Some (le_bytes e' v).
Proof.
  intros He He' Hee Hp Henc Hlen Hk Hin. revert s Henc Hlen Hk.
  induction k as [|k IH]; intros s Henc Hlen Hk Hold Hnew.
  - exists (contents s). destruct s. simpl. split_and!; try done.
    intros i v Hi. eapply Hnew; [done|lia].
  - destruct (lookup_lt_is_Some_2 l k) as [x Hx]; [lia|]. cbn [intsetUpgrade_loop].
    rewrite (getEncoded_spec e s _ x); [|done|by eapply Hin|apply Hold; [done|lia]]. simpl.
    destruct (intsetSet_spec e' s (Z.of_nat k + p) x) as (m & Hw & ->);
      [done..|lia|unfold zlen in *; nia|]. simpl.
    pose proof (mwrite_Some _ _ _ _ Hw) as (_&_&Hm&_).
    destruct (IH (set_contents s m)) as (m' & Hl & Hm' & Helem); simpl; try done.
    + by rewrite Hm.
    + lia.
    + intros i v Hi Hik. rewrite (mread_mwrite_disj _ _ _ _ _ _ Hw) by nia.
      apply Hold; [done|lia].
    + intros i v Hi Hik. destruct (decide (i = k)) as [->|].
      * rewrite Hx in Hi. injection Hi as <-.
        pose proof (mread_mwrite_same _ _ _ _ Hw) as Hs. by rewrite zlen_le_bytes in Hs.
      * rewrite (mread_mwrite_disj _ _ _ _ _ _ Hw) by (rewrite zlen_le_bytes; nia).
        apply Hnew; [done|lia].
    + exists m'. split_and!; [done|by rewrite Hm'|done].
Qed.

(** Writing the new element at [q] into memory that already holds the other
    elements at their final places gives the representation of the insertion. *)
Lemma repr_finish e s q v l m m' n' :
  int_size e -> in_s (8 * Z.of_nat e) v -> (q <= length l)%nat ->
  intrev32ifbe host (encoding s) = Z.of_nat e ->
  intrev32ifbe host n' = zlen l + 1 ->
  zlen m = (zlen l + 1) * Z.of_nat e ->
  (forall i x, l !! i = Some x -> in_s (8 * Z.of_nat e) x /\
    let j := if decide (i < q)%nat then i else S i in
    mread m (Z.of_nat j * Z.of_nat e) (Z.of_nat e) = Some (le_bytes e x)) ->
  mwrite m (Z.of_nat q * Z.of_nat e) (le_bytes e v) = Some m' ->
  intset_repr e (set_length (set_contents s m') n') (insert_at q v l).
Proof.
  intros He Hv Hq Henc Hn Hm Hel Hw.
  pose proof (mwrite_Some _ _ _ _ Hw) as (_&_&Hm'&_).
  constructor; simpl; try done.
  - rewrite Hn. unfold zlen. rewrite length_insert_at. lia.
  - rewrite Hm', Hm. unfold zlen. rewrite length_insert_at. lia.
  - intros i x. rewrite lookup_insert_at by done. repeat case_decide; intros Hi; simplify_eq.
    + destruct (Hel _ _ Hi) as [? Hr]. rewrite decide_True in Hr by done. split; [done|].
      rewrite (mread_mwrite_disj _ _ _ _ _ _ Hw) by nia. done.
    + split; [done|]. pose proof (mread_mwrite_same _ _ _ _ Hw) as Hs.
      by rewrite zlen_le_bytes in Hs.
    + destruct (Hel _ _ Hi) as [? Hr]. rewrite decide_False in Hr by lia. split; [done|].
      replace (S (i - 1)) with i in Hr by lia.
      rewrite (mread_mwrite_disj _ _ _ _ _ _ Hw) by (rewrite zlen_le_bytes; nia). done.
Qed.

Lemma bump_length s (l : list Z) :
  intrev32ifbe host (is_length s) = zlen l -> zlen l + 1 < 2 ^ 32 ->
  intrev32ifbe host (intrev32ifbe host (uwrap 32 (intrev32ifbe host (is_length s) + 1)))
    = zlen l + 1.
Proof.
  intros -> H. pose proof (zlen_nonneg l). rewrite uwrap_small by (unfold in_u; lia).
  apply intrev32ifbe_involutive. unfold in_u. lia.
Qed.

Lemma upgradeAndAdd_spec e s l v :
  intset_repr e s l -> (zlen l + 1) * 8 < 2 ^ 32 -> in_s 64 v ->
  Z.of_nat e < _intsetValueEncoding v ->
  let q := if v <? 0 then O else length l in
  exists e' s', intsetUpgradeAndAdd host junk s v = Some s' /\
    intset_repr e' s' (insert_at q v l).
Proof.
  intros Hr Hb Hv Hlt q. destruct (valueEncoding_size v) as (e' & He' & Hve).
  pose proof (repr_size _ _ _ Hr) as He. pose proof (repr_len _ _ _ Hr) as Hlen.
  pose proof (zlen_nonneg l).
  assert (Z.of_nat e' <= 8) by (size_cases He'; lia).
  assert (0 < Z.of_nat e') by (size_cases He'; lia).
  exists e'. unfold intsetUpgradeAndAdd. rewrite Hve, (repr_enc _ _ _ Hr). cbv zeta.
  change (is_length (set_encoding s ?x)) with (is_length s). rewrite Hlen.
  assert (intrev32ifbe host (intrev32ifbe host (Z.of_nat e')) = Z.of_nat e') as Henc'
    by (apply intrev32ifbe_involutive; unfold in_u; lia).
  rewrite (resize_spec e') by (simpl; try done; rewrite ?uwrap_small; unfold in_u; nia).
  rewrite (uwrap_small 32) by (unfold in_u; lia).
  rewrite (uwrap_small 8) by (unfold in_u; size_cases He; lia).
  rewrite (swrap_small 32) by width_lia. simpl.
  set (p := if v <? 0 then 1 else 0).
  assert (0 <= p <= 1) by (subst p; case_match; lia).
  destruct (upgrade_loop_spec e e' p l (length l)
    (set_contents (set_encoding s (intrev32ifbe host (Z.of_nat e')))
      (mrealloc junk (contents s) ((zlen l + 1) * Z.of_nat e'))))
    as (m & Hloop & Hm & Hel); simpl; try done; try lia.
  { rewrite zlen_mrealloc; nia. }
  { intros i x Hi. by eapply repr_elem. }
  { intros i x Hi _. pose proof (lookup_lt_Some _ _ _ Hi).
    pose proof (repr_mem _ _ _ Hr). unfold zlen in *.
    rewrite mread_mrealloc by (unfold zlen; nia). by eapply repr_elem. }
  { intros i x Hi%lookup_lt_Some ?. lia. }
  replace (Z.to_nat (zlen l)) with (length l) by (unfold zlen; lia).
  rewrite Hloop. simpl in *. rewrite zlen_mrealloc in Hm by nia.
  replace (if negb (p =? 0) then _ else _) with
    (_intsetSet host (set_contents (set_contents (set_encoding s (intrev32ifbe host (Z.of_nat e')))
       (mrealloc junk (contents s) ((zlen l + 1) * Z.of_nat e'))) m) (Z.of_nat q) v).
  2:{ subst p q. destruct (v <? 0); simpl; [done|]. by rewrite Hlen. }
  assert (q <= length l)%nat as Hq by (subst q; case_match; lia).
  match goal with |- context [_intsetSet host ?s1 _ _] =>
    destruct (intsetSet_spec e' s1 (Z.of_nat q) v) as (m' & Hw & ->) end;
    simpl; [done..|lia|unfold zlen in *; nia|].
  eexists. split; [done|]. simpl in Hw. simpl.
  eapply (repr_finish e' (set_encoding s (intrev32ifbe host (Z.of_nat e')))); try done.
  - apply valueEncoding_le; [done..|lia].
  - apply bump_length; [done|lia].
  - intros i x Hi. split.
    + eapply (in_s_mono e e'); [done..|lia|]. by eapply repr_elem.
    + rewrite <- (Hel _ _ Hi). pose proof (lookup_lt_Some _ _ _ Hi). do 2 f_equal.
      subst p q. destruct (v <? 0); case_decide; lia.
Qed.

(** ** Insertion and deletion without upgrade *)

(** One more slot at the end, and the tail from [q] moved up by one. *)
Lemma open_slot e s l q :
  intset_repr e s l -> (zlen l + 1) * 8 < 2 ^ 32 -> (q <= length l)%nat ->
  let s1 := intsetResize host junk s (uwrap 32 (zlen l + 1)) in
  exists m,
    (if Z.of_nat q <? zlen l then intsetMoveTail host s1 (Z.of_nat q) (uwrap 32 (Z.of_nat q + 1))
     else Some s1) = Some (set_contents s m) /\
    zlen m = (zlen l + 1) * Z.of_nat e /\
    forall i x, l !! i = Some x ->
      let j := if decide (i < q)%nat then i else S i in
      mread m (Z.of_nat j * Z.of_nat e) (Z.of_nat e) = Some (le_bytes e x).
Proof.
  intros Hr Hb Hq s1. pose proof (repr_size _ _ _ Hr) as He.
  pose proof (repr_mem _ _ _ Hr) as Hmem.
  assert (0 < Z.of_nat e <= 8) by (size_cases He; lia).
  assert (s1 = set_contents s (mrealloc junk (contents s) ((zlen l + 1) * Z.of_nat e))) as E1.
  { subst s1. rewrite uwrap_small by (unfold in_u, zlen in *; lia).
    apply resize_spec; [by eapply repr_enc|unfold zlen in *; lia|nia]. }
  set (m1 := mrealloc junk (contents s) ((zlen l + 1) * Z.of_nat e)) in *.
  assert (zlen m1 = (zlen l + 1) * Z.of_nat e) as Hm1 by (apply zlen_mrealloc; unfold zlen; nia).
  assert (forall i x, l !! i = Some x ->
    mread m1 (Z.of_nat i * Z.of_nat e) (Z.of_nat e) = Some (le_bytes e x)) as Hold.
  { intros i x Hi. pose proof (lookup_lt_Some _ _ _ Hi). subst m1.
    unfold zlen in *. rewrite mread_mrealloc by (unfold zlen; nia). by eapply repr_elem. }
  rewrite E1. destruct (Z.ltb_spec (Z.of_nat q) (zlen l)) as [Hlt|Hge].
  - rewrite uwrap_small by (unfold in_u; lia).
    pose proof (repr_len _ _ _ Hr) as Hlen.
    destruct (moveTail_spec e (set_contents s m1) (Z.of_nat q) (Z.of_nat q + 1))
      as (m & Hm & ->); simpl; rewrite ?Hlen, ?Hm1; [done|by eapply repr_enc|nia..|].
    exists m. simpl in Hm. rewrite Hlen in Hm.
    pose proof (mmove_Some _ _ _ _ _ Hm) as (_&_&_&_&_&Hz&_).
    split_and!; [done|by rewrite Hz|]. intros i x Hi. pose proof (lookup_lt_Some _ _ _ Hi).
    cbv zeta. case_decide.
    + rewrite (mread_mmove_out _ _ _ _ _ _ _ Hm) by nia. by apply Hold.
    + rewrite (mread_mmove_in _ _ _ _ _ _ _ Hm) by (unfold zlen in *; nia).
      rewrite <- (Hold _ _ Hi). f_equal. nia.
  - exists m1. split_and!; [done|done|]. intros i x Hi.
    pose proof (lookup_lt_Some _ _ _ Hi). rewrite decide_True by (unfold zlen in *; lia).
    by apply Hold.
Qed.

(** The tail after [q] moved down by one, and the last slot given back. *)
Lemma close_slot e s l q v :
  intset_repr e s l -> zlen l * 8 < 2 ^ 32 -> l !! q = Some v ->
  exists s1,
    (if Z.of_nat q <? uwrap 32 (zlen l - 1)
     then intsetMoveTail host s (uwrap 32 (Z.of_nat q + 1)) (Z.of_nat q) else Some s) = Some s1 /\
    intset_repr e
      (set_length (intsetResize host junk s1 (uwrap 32 (zlen l - 1)))
         (intrev32ifbe host (uwrap 32 (zlen l - 1)))) (remove_at q l).
Proof.
  intros Hr Hb Hq. pose proof (repr_size _ _ _ Hr) as He.
  pose proof (repr_mem _ _ _ Hr) as Hmem. pose proof (repr_len _ _ _ Hr) as Hlen.
  pose proof (lookup_lt_Some _ _ _ Hq) as Hql.
  assert (0 < Z.of_nat e <= 8) by (size_cases He; lia).
  rewrite !(uwrap_small 32) by (unfold in_u, zlen in *; lia).
  assert (exists m, (if Z.of_nat q <? zlen l - 1
     then intsetMoveTail host s (Z.of_nat q + 1) (Z.of_nat q) else Some s)
       = Some (set_contents s m) /\ zlen m = zlen l * Z.of_nat e /\
     forall i x, l !! i = Some x -> i <> q ->
       let j := if decide (i < q)%nat then i else (i - 1)%nat in
       mread m (Z.of_nat j * Z.of_nat e) (Z.of_nat e) = Some (le_bytes e x)) as (m & -> & Hm & Hel).
  { destruct (Z.ltb_spec (Z.of_nat q) (zlen l - 1)) as [Hlt|Hge].
    - destruct (moveTail_spec e s (Z.of_nat q + 1) (Z.of_nat q))
        as (m & Hm & ->); rewrite ?Hlen, ?Hmem; [done|by eapply repr_enc|unfold zlen in *; nia..|].
      rewrite Hlen in Hm. exists m.
      pose proof (mmove_Some _ _ _ _ _ Hm) as (_&_&_&_&_&Hz&_).
      split_and!; [done|by rewrite Hz|]. intros i x Hi Hne. pose proof (lookup_lt_Some _ _ _ Hi).
      cbv zeta. case_decide.
      + rewrite (mread_mmove_out _ _ _ _ _ _ _ Hm) by nia. by eapply repr_elem.
      + rewrite (mread_mmove_in _ _ _ _ _ _ _ Hm) by (unfold zlen in *; nia).
        destruct (repr_elem _ _ _ Hr _ _ Hi) as [_ <-]. f_equal. nia.
    - exists (contents s). split_and!; [by destruct s|done|]. intros i x Hi ?.
      pose proof (lookup_lt_Some _ _ _ Hi). rewrite decide_True by (unfold zlen in *; lia).
      by eapply repr_elem. }
  eexists. split; [done|].
  rewrite (resize_spec e (set_contents s m) (zlen l - 1) (repr_enc _ _ _ Hr))
    by (unfold zlen in *; nia). simpl.
  assert (zlen (remove_at q l) = zlen l - 1) as Hz
    by (unfold zlen in *; rewrite length_remove_at by done; lia).
  constructor; simpl; try done; rewrite ?Hz.
  - by eapply repr_enc.
  - apply intrev32ifbe_involutive. unfold in_u, zlen in *. lia.
  - apply zlen_mrealloc. unfold zlen in *. nia.
  - intros i x Hi. pose proof (lookup_lt_Some _ _ _ Hi) as Hil.
    rewrite length_remove_at in Hil by done. rewrite lookup_remove_at in Hi by done.
    rewrite mread_mrealloc by (unfold zlen in *; nia).
    case_decide; (split; [by eapply repr_elem|]).
    + specialize (Hel _ _ Hi ltac:(lia)). by rewrite decide_True in Hel by done.
    + specialize (Hel _ _ Hi ltac:(lia)). rewrite decide_False in Hel by lia.
      by replace (S i - 1)%nat with i in Hel by lia.
Qed.

(** ** The set interface *)

(** [intset_rep s X]: the bytes of [s] encode the finite set [X]. *)
Definition intset_rep (s : intset) (X : gset Z) : Prop :=
  exists e l, intset_repr e s l /\ sorted_lt l /\ X = list_to_set l.

(** The largest number of members for which no 32-bit size overflows. *)
Definition intset_fits (X : gset Z) : Prop := (Z.of_nat (size X) + 1) * 8 < 2 ^ 32.

Lemma repr_size_length e s l :
  intset_repr e s l -> sorted_lt l -> Z.of_nat (size (list_to_set l : gset Z)) = zlen l.
Proof.
  intros _ Hs. unfold zlen. f_equal. apply size_list_to_set. by apply sorted_lt_NoDup.
Qed.

Lemma insert_upgrade_split e s l v :
  intset_repr e s l -> in_s 64 v -> Z.of_nat e < _intsetValueEncoding v ->
  forall i x, l !! i = Some x ->
    let q := if v <? 0 then O else length l in
    ((i < q)%nat -> x < v) /\ ((q <= i)%nat -> v < x).
Proof.
  intros Hr Hv Hlt i x Hi. pose proof (lookup_lt_Some _ _ _ Hi).
  pose proof (repr_size _ _ _ Hr) as He.
  destruct (repr_elem _ _ _ Hr _ _ Hi) as [Hx _].
  assert (~ in_s (8 * Z.of_nat e) v) as Hn by (rewrite <- valueEncoding_le by done; lia).
  clear Hr Hi Hlt. destruct (Z.ltb_spec v 0); split; try lia; intros _;
    size_cases He; width_lia.
Qed.

Lemma rep_insert_at e s p v l :
  intset_repr e s (insert_at p v l) -> (p <= length l)%nat -> sorted_lt l ->
  (forall i x, l !! i = Some x -> ((i < p)%nat -> x < v) /\ ((p <= i)%nat -> v < x)) ->
  intset_rep s ({[v]} ∪ list_to_set l).
Proof.
  intros Hr Hp Hs Hv. exists e, (insert_at p v l).
  split_and!; [done|by apply sorted_lt_insert_at|]. apply set_eq. intros x.
  rewrite elem_of_union, elem_of_singleton, !elem_of_list_to_set. symmetry.
  apply elem_of_insert_at.
Qed.

Lemma add_spec s X v :
  intset_rep s X -> intset_fits X -> in_s 64 v ->
  exists s', intsetAdd host junk s v = Some (s', bool_decide (v ∉ X)) /\
    intset_rep s' ({[v]} ∪ X).
Proof.
  intros (e & l & Hr & Hs & ->) Hb Hv. unfold intset_fits in Hb.
  rewrite (repr_size_length e s l Hr Hs) in Hb. pose proof (zlen_nonneg l).
  pose proof (repr_size _ _ _ Hr) as He. pose proof (repr_enc _ _ _ Hr) as Henc.
  unfold intsetAdd. rewrite Henc, Z.gtb_ltb.
  destruct (Z.ltb_spec (Z.of_nat e) (_intsetValueEncoding v)) as [Hlt|Hge].
  - destruct (upgradeAndAdd_spec e s l v Hr ltac:(lia) Hv Hlt) as (e' & s' & -> & Hr').
    pose proof (insert_upgrade_split e s l v Hr Hv Hlt) as Hsp. cbv zeta in Hsp, Hr'.
    exists s'. simpl. rewrite bool_decide_eq_true_2.
    + split; [done|]. eapply rep_insert_at; [done|case_match; lia|done|exact Hsp].
    + rewrite elem_of_list_to_set. intros [i Hi]%list_elem_of_lookup.
      specialize (Hsp _ _ Hi). pose proof (lookup_lt_Some _ _ _ Hi). case_match; lia.
  - destruct (intsetSearch_spec e s l v Hr Hs ltac:(lia)) as (found & pos & -> & Hf).
    simpl. destruct found.
    + destruct Hf as [_ Hf]. assert (v ∈ l) by (apply list_elem_of_lookup; eauto).
      exists s. rewrite bool_decide_eq_false_2 by (rewrite elem_of_list_to_set; tauto).
      split; [done|]. exists e, l. split_and!; [done..|]. set_solver.
    + destruct Hf as [Hpos Hsp]. pose proof (repr_len _ _ _ Hr) as Hlen.
      change (is_length (intsetResize host junk s ?x)) with (is_length s). rewrite Hlen.
      destruct (open_slot e s l (Z.to_nat pos) Hr) as (m & Hm & Hml & Hel);
        [lia|unfold zlen in *; lia|].
      rewrite Z2Nat.id in Hm by lia. rewrite Hm. simpl.
      destruct (intsetSet_spec e (set_contents s m) pos v) as (m' & Hw & ->);
        simpl; [done..|lia|nia|]. simpl in Hw. simpl.
      eexists. rewrite bool_decide_eq_true_2.
      * split; [done|]. eapply (rep_insert_at e _ (Z.to_nat pos));
          [|unfold zlen in *; lia|done|intros i x Hi; specialize (Hsp i x Hi); lia].
        eapply repr_finish; simpl; try done.
        -- apply valueEncoding_le; [done..|lia].
        -- unfold zlen in *. lia.
        -- apply bump_length; [done|lia].
        -- intros i x Hi. split; [by eapply repr_elem|]. by apply Hel.
        -- by rewrite Z2Nat.id by lia.
      * rewrite elem_of_list_to_set. intros [i Hi]%list_elem_of_lookup.
        specialize (Hsp _ _ Hi). lia.
Qed.

Lemma remove_spec s X v :
  intset_rep s X -> intset_fits X -> in_s 64 v ->
  exists s', intsetRemove host junk s v = Some (s', bool_decide (v ∈ X)) /\
    intset_rep s' (X ∖ {[v]}).
Proof.
  intros (e & l & Hr & Hs & ->) Hb Hv. unfold intset_fits in Hb.
  rewrite (repr_size_length e s l Hr Hs) in Hb. pose proof (zlen_nonneg l).
  assert (v ∉ l -> intset_rep s (list_to_set l ∖ {[v]})) as Hsame.
  { intros Hn. exists e, l. split_and!; [done..|]. set_solver. }
  pose proof (repr_size _ _ _ Hr) as He. unfold intsetRemove. rewrite (repr_enc _ _ _ Hr).
  destruct (Z.leb_spec (_intsetValueEncoding v) (Z.of_nat e)) as [Hle|Hgt].
  - destruct (intsetSearch_spec e s l v Hr Hs ltac:(lia)) as (found & pos & -> & Hf).
    simpl. destruct found.
    + destruct Hf as [Hpos Hf]. rewrite (repr_len _ _ _ Hr).
      destruct (close_slot e s l (Z.to_nat pos) v Hr ltac:(lia) Hf) as (s1 & Hm & Hr1).
      rewrite Z2Nat.id in Hm by lia. rewrite Hm. simpl. eexists.
      rewrite bool_decide_eq_true_2 by (rewrite elem_of_list_to_set, list_elem_of_lookup; eauto).
      split; [done|]. pose proof (lookup_lt_Some _ _ _ Hf).
      eexists e, _. split_and!; [done|by apply sorted_lt_remove_at|].
      apply set_eq. intros x. rewrite elem_of_difference, elem_of_singleton, !elem_of_list_to_set.
      symmetry. by apply elem_of_remove_at.
    + destruct Hf as [_ Hsp]. assert (v ∉ l) as Hn.
      { intros [i Hi]%list_elem_of_lookup. specialize (Hsp _ _ Hi). lia. }
      exists s. rewrite bool_decide_eq_false_2 by (by rewrite elem_of_list_to_set). auto.
  - assert (v ∉ l) as Hn.
    { intros [i Hi]%list_elem_of_lookup. destruct (repr_elem _ _ _ Hr _ _ Hi) as [Hin _].
      apply valueEncoding_le in Hin; [lia|done..]. }
    exists s. rewrite bool_decide_eq_false_2 by (by rewrite elem_of_list_to_set). auto.
Qed.

Lemma find_spec s X v :
  intset_rep s X -> intset_fits X -> in_s 64 v ->
  intsetFind host s v = Some (bool_decide (v ∈ X)).
Proof.
  intros (e & l & Hr & Hs & ->) Hb Hv. unfold intset_fits in Hb.
  rewrite (repr_size_length e s l Hr Hs) in Hb. pose proof (zlen_nonneg l).
  pose proof (repr_size _ _ _ Hr) as He. unfold intsetFind. rewrite (repr_enc _ _ _ Hr).
  destruct (Z.leb_spec (_intsetValueEncoding v) (Z.of_nat e)) as [Hle|Hgt].
  - destruct (intsetSearch_spec e s l v Hr Hs ltac:(lia)) as (found & pos & -> & Hf).
    simpl. f_equal. symmetry. destruct found.
    + apply bool_decide_eq_true_2. rewrite elem_of_list_to_set, list_elem_of_lookup.
      destruct Hf; eauto.
    + apply bool_decide_eq_false_2. rewrite elem_of_list_to_set.
      intros [i Hi]%list_elem_of_lookup. destruct Hf as [_ Hsp]. specialize (Hsp _ _ Hi). lia.
  - f_equal. symmetry. apply bool_decide_eq_false_2. rewrite elem_of_list_to_set.
    intros [i Hi]%list_elem_of_lookup. destruct (repr_elem _ _ _ Hr _ _ Hi) as [Hin _].
    apply valueEncoding_le in Hin; [lia|done..].
Qed.

Lemma rep_new : intset_rep (intsetNew host) ∅.
Proof.
  exists 2%nat, []. split_and!; [|by intros ???? _ ?|done]. constructor; simpl; try done.
  - left. done.
  - by apply intrev32ifbe_involutive.
  - by destruct host.
Qed.

End Repr.

(** ** Operation sequences

    A client's view: a sequence of calls, starting from [intsetNew], and the
    answers they return. *)

Inductive intset_op := OpAdd (v : Z) | OpRemove (v : Z) | OpFind (v : Z).

Definition op_value (o : intset_op) : Z :=
  match o with OpAdd v | OpRemove v | OpFind v => v end.

Definition intset_step (host : byte_order) (junk : nat -> Z) (s : intset) (o : intset_op)
    : option (intset * bool) :=
  match o with
  | OpAdd v => intsetAdd host junk s v
  | OpRemove v => intsetRemove host junk s v
  | OpFind v => b ← intsetFind host s v; Some (s, b)
  end.

Fixpoint intset_run (host : byte_order) (junk : nat -> Z) (s : intset) (os : list intset_op)
    : option (intset * list bool) :=
  match os with
  | [] => Some (s, [])
  | o :: os =>
    '(s, b) ← intset_step host junk s o;
    '(s, bs) ← intset_run host junk s os; Some (s, b :: bs)
  end.

(** The specification: the same calls on a mathematical set. *)
Definition set_step (X : gset Z) (o : intset_op) : gset Z * bool :=
  match o with
  | OpAdd v => ({[v]} ∪ X, bool_decide (v ∉ X))
  | OpRemove v => (X ∖ {[v]}, bool_decide (v ∈ X))
  | OpFind v => (X, bool_decide (v ∈ X))
  end.

Fixpoint set_run (X : gset Z) (os : list intset_op) : gset Z * list bool :=
  match os with
  | [] => (X, [])
  | o :: os => let '(X1, b) := set_step X o in let '(X2, bs) := set_run X1 os in (X2, b :: bs)
  end.

Lemma set_step_size X o :
  (size (fst (set_step X o)) <= S (size X))%nat.
Proof.
  destruct o as [v|v|v]; simpl.
  - pose proof (size_union_alt {[v]} X) as ->. rewrite size_singleton.
    assert (size (X ∖ {[v]}) <= size X)%nat by (apply subseteq_size; set_solver). lia.
  - assert (size (X ∖ {[v]}) <= size X)%nat by (apply subseteq_size; set_solver). lia.
  - lia.
Qed.

Lemma intset_step_spec host junk s X o :
  intset_rep host s X -> intset_fits X -> in_s 64 (op_value o) ->
  exists s', intset_step host junk s o = Some (s', snd (set_step X o)) /\
    intset_rep host s' (fst (set_step X o)).
Proof.
  intros Hr Hf Hv. destruct o as [v|v|v]; simpl in *.
  - by apply add_spec.
  - by apply remove_spec.
  - rewrite (find_spec host s X v) by done. by eexists.
Qed.

Lemma intset_run_spec host junk os s X :
  intset_rep host s X -> Forall (fun o => in_s 64 (op_value o)) os ->
  (Z.of_nat (size X) + zlen os + 1) * 8 < 2 ^ 32 ->
  exists s', intset_run host junk s os = Some (s', snd (set_run X os)) /\
    intset_rep host s' (fst (set_run X os)).
Proof.
  revert s X. induction os as [|o os IH]; intros s X Hr Hos Hb; simpl; [by eexists|].
  inversion Hos; subst. rewrite zlen_cons in Hb. pose proof (zlen_nonneg os).
  destruct (intset_step_spec host junk s X o) as (s1 & -> & Hr1);
    [done|unfold intset_fits; lia|done|]. simpl.
  pose proof (set_step_size X o) as Hsz. destruct (set_step X o) as [X1 b]. simpl in *.
  destruct (IH s1 X1) as (s2 & -> & Hr2); [done|done|lia|]. simpl.
  destruct (set_run X1 os). simpl in *. by eexists.
Qed.

(** C15: every sequence of [intsetAdd], [intsetRemove] and [intsetFind] calls on
    64-bit values, starting from [intsetNew], runs without touching memory
    outside the allocation, terminates, and returns exactly the answers of a
    mathematical set; the final bytes encode that set.  It holds on both byte
    orders and whatever [zrealloc] leaves in fresh memory, for sequences short
    enough that even with 8 bytes an element the elements take less than 2^32
    bytes: beyond, the 32-bit size in [intsetResize] wraps around and the code
    writes outside the allocation. *)
Theorem intset_refines_set host junk os :
  Forall (fun o => in_s 64 (op_value o)) os ->
  (zlen os + 1) * 8 < 2 ^ 32 ->
  exists s, intset_run host junk (intsetNew host) os = Some (s, snd (set_run ∅ os)) /\
    intset_rep host s (fst (set_run ∅ os)).
Proof.
  intros Hos Hb. apply intset_run_spec; [apply rep_new|done|]. rewrite size_empty. lia.
Qed.

Definition demo_ops : list intset_op :=
  [OpAdd 5; OpAdd (-1); OpAdd 70000; OpAdd 5; OpAdd (2 ^ 40); OpRemove (-1); OpFind (-1);
   OpFind 70000; OpAdd (- 2 ^ 63)].

Lemma intset_refines_set_witness :
  exists s, intset_run BIG_ENDIAN (fun _ => 170) (intsetNew BIG_ENDIAN) demo_ops
    = Some (s, snd (set_run ∅ demo_ops)) /\
    intset_rep BIG_ENDIAN s (fst (set_run ∅ demo_ops)).
Proof.
  apply intset_refines_set; [decide_now|done].
Defined.

Definition demo_set : intset := mk_intset 2 3 (le_bytes 2 (-5) ++ le_bytes 2 0 ++ le_bytes 2 300).

Lemma demo_set_repr : intset_repr LITTLE_ENDIAN 2 demo_set [-5; 0; 300].
Proof.
  constructor; [by left|done..|]. intros i v Hi.
  do 3 (destruct i as [|i]; [injection Hi as <-; split; [decide_now|reflexivity]|]). done.
Qed.

(** An insertion that needs a wider encoding ([intsetUpgradeAndAdd])
    re-encodes every element in place, back to front, without overwriting one
    that is still to be read, and puts the new value at the front when it is
    negative and at the back otherwise. *)
Theorem intsetUpgradeAndAdd_correct host junk e s l v :
  intset_repr host e s l -> (zlen l + 1) * 8 < 2 ^ 32 -> in_s 64 v ->
  Z.of_nat e < _intsetValueEncoding v ->
  exists e' s', intsetUpgradeAndAdd host junk s v = Some s' /\
    intset_repr host e' s' (if v <? 0 then v :: l else l ++ [v]).
Proof.
  intros Hr Hb Hv Hlt. destruct (upgradeAndAdd_spec host junk e s l v Hr Hb Hv Hlt)
    as (e' & s' & Hs & Hr'). exists e', s'. split; [done|]. unfold insert_at in Hr'.
  destruct (v <? 0); [done|]. by rewrite firstn_all, drop_all in Hr'.
Qed.

Lemma intsetUpgradeAndAdd_correct_witness :
  exists e' s', intsetUpgradeAndAdd LITTLE_ENDIAN (fun _ => 7) demo_set (-70000) = Some s' /\
    intset_repr LITTLE_ENDIAN e' s' (-70000 :: [-5; 0; 300]).
Proof.
  apply (intsetUpgradeAndAdd_correct LITTLE_ENDIAN (fun _ => 7) 2 demo_set [-5; 0; 300] (-70000)).
  - apply demo_set_repr.
  - done.
  - decide_now.
  - done.
Defined.
