(* ===== verification/Numstr.v ===== *)
(** * Integers as decimal strings ([util.c])

    [digits10], [sdigits10], [ll2string], [string2ll], [string2l]: the
    conversions every command argument and every integer-encoded object goes
    through.  A string is the list of its bytes; the destination buffer of
    [ll2string] is a flat memory. *)

From S2P Require Import Prelude.
From stdpp Require Import options.

Definition LLONG_MIN : Z := - 2 ^ 63.
Definition LLONG_MAX : Z := 2 ^ 63 - 1.
Definition ULLONG_MAX : Z := 2 ^ 64 - 1.
Definition LONG_MIN : Z := - 2 ^ 63.
Definition LONG_MAX : Z := 2 ^ 63 - 1.

Definition ch_0 : Z := 48.
Definition ch_1 : Z := 49.
Definition ch_9 : Z := 57.
Definition ch_minus : Z := 45.

Definition b2z (b : bool) : Z := if b then 1 else 0.

(** The recursive call of [digits10] is on a value below 2^24, so one
    recursion is all a 64-bit argument needs. *)
Fixpoint digits10 (fuel : nat) (v : Z) : Z :=
  if v <? 10 then 1
  else if v <? 100 then 2
  else if v <? 1000 then 3
  else if v <? 1000000000000 then
    if v <? 100000000 then
      if v <? 1000000 then
        if v <? 10000 then 4 else 5 + b2z (v >=? 100000)
      else 7 + b2z (v >=? 10000000)
    else if v <? 10000000000 then 9 + b2z (v >=? 1000000000)
    else 11 + b2z (v >=? 100000000000)
  else match fuel with
       | O => 0
       | S fuel => 12 + digits10 fuel (v / 1000000000000)
       end.

Definition sdigits10 (v : Z) : Z :=
  if v <? 0 then
    let uv := if negb (v =? LLONG_MIN) then uwrap 64 (- v) else LLONG_MAX + 1 in
    digits10 1 uv + 1
  else digits10 1 v.

(** [static const char digits[201]]: entries [2k] and [2k+1] are the two
    digits of [k]. *)
Definition digits : list Z :=
  [48;48;48;49;48;50;48;51;48;52;48;53;48;54;48;55;48;56;48;57;
   49;48;49;49;49;50;49;51;49;52;49;53;49;54;49;55;49;56;49;57;
   50;48;50;49;50;50;50;51;50;52;50;53;50;54;50;55;50;56;50;57;
   51;48;51;49;51;50;51;51;51;52;51;53;51;54;51;55;51;56;51;57;
   52;48;52;49;52;50;52;51;52;52;52;53;52;54;52;55;52;56;52;57;
   53;48;53;49;53;50;53;51;53;52;53;53;53;54;53;55;53;56;53;57;
   54;48;54;49;54;50;54;51;54;52;54;53;54;54;54;55;54;56;54;57;
   55;48;55;49;55;50;55;51;55;52;55;53;55;54;55;55;55;56;55;57;
   56;48;56;49;56;50;56;51;56;52;56;53;56;54;56;55;56;56;56;57;
   57;48;57;49;57;50;57;51;57;52;57;53;57;54;57;55;57;56;57;57;0].

Definition digits_at (i : Z) : option Z := digits !! Z.to_nat i.

(** [while (value >= 100)]: two digits per turn, from the right. *)
Fixpoint ll2string_loop (fuel : nat) (dst : list Z) (value next : Z)
    : option (list Z * Z * Z) :=
  if value >=? 100 then
    match fuel with
    | O => None
    | S fuel =>
      let i := (value mod 100) * 2 in
      d1 ← digits_at (i + 1); dst ← mwrite dst next [d1];
      d0 ← digits_at i; dst ← mwrite dst (uwrap 32 (next - 1)) [d0];
      ll2string_loop fuel dst (value / 100) (uwrap 32 (next - 2))
    end
  else Some (dst, value, next).

(** Result: the buffer and the return value. *)
Definition ll2string (dst : list Z) (dstlen svalue : Z) : option (list Z * Z) :=
  let '(value, negative) :=
    if svalue <? 0 then
      (if negb (svalue =? LLONG_MIN) then - svalue else LLONG_MAX + 1, 1)
    else (svalue, 0) in
  let length := uwrap 32 (digits10 1 value + negative) in
  if length >=? dstlen then Some (dst, 0) else
  dst ← mwrite dst length [0];
  '(dst, value, next) ← ll2string_loop 10 dst value (uwrap 32 (length - 1));
  dst ← (if value <? 10 then mwrite dst next [ch_0 + value]
         else let i := value * 2 in
           d1 ← digits_at (i + 1); dst ← mwrite dst next [d1];
           d0 ← digits_at i; mwrite dst (uwrap 32 (next - 1)) [d0]);
  dst ← (if negb (negative =? 0) then mwrite dst 0 [ch_minus] else Some dst);
  Some (dst, length).

Definition is_digit (c : Z) : bool := (c >=? ch_0) && (c <=? ch_9).

(** The digit loop of [string2ll]: [Some (v, rest)] is the value after the
    digits and the bytes that were not used, [None] the return on overflow. *)
Fixpoint string2ll_loop (p : list Z) (v : Z) : option (Z * list Z) :=
  match p with
  | [] => Some (v, [])
  | c :: p' =>
    if is_digit c then
      if v >? ULLONG_MAX / 10 then None else
      let v := uwrap 64 (v * 10) in
      if v >? ULLONG_MAX - (c - ch_0) then None else
      string2ll_loop p' (uwrap 64 (v + (c - ch_0)))
    else Some (v, p)
  end.

(** [Some value] is the return value 1, [None] the return value 0. *)
Definition string2ll (s : list Z) : option Z :=
  match s with
  | [] => None
  | c0 :: s' =>
    if (zlen s =? 1) && (c0 =? ch_0) then Some 0 else
    let '(negative, p) := if c0 =? ch_minus then (true, s') else (false, s) in
    match p with
    | [] => None
    | c :: p =>
      if (c >=? ch_1) && (c <=? ch_9) then
        '(v, rest) ← string2ll_loop p (c - ch_0);
        if 0 <? zlen rest then None else
        if (negative : bool) then
          if v >? - (LLONG_MIN + 1) + 1 then None else Some (swrap 64 (uwrap 64 (- v)))
        else
          if v >? LLONG_MAX then None else Some (swrap 64 v)
      else None
    end
  end.

Definition string2l (s : list Z) : option Z :=
  llval ← string2ll s;
  if (llval <? LONG_MIN) || (llval >? LONG_MAX) then None else Some llval.

(** ** Decimal notation

    [dec_val] reads a list of digits, [canonical s v] says that [s] is the
    decimal notation of [v]: digits only, no leading zero except in ["0"], a
    minus sign exactly for negative numbers. *)

Definition dec_step (v c : Z) : Z := v * 10 + (c - ch_0).
Definition dec_val (s : list Z) : Z := foldl dec_step 0 s.

Definition canonical_nat (s : list Z) (n : Z) : Prop :=
  s <> [] /\ Forall (fun c => is_digit c = true) s /\ dec_val s = n /\
  (head s = Some ch_0 -> s = [ch_0]).

Definition canonical (s : list Z) (v : Z) : Prop :=
  if v <? 0 then exists t, s = ch_minus :: t /\ canonical_nat t (- v) else canonical_nat s v.

Lemma is_digit_spec c : is_digit c = true <-> 48 <= c <= 57.
Proof. unfold is_digit, ch_0, ch_9. rewrite andb_true_iff. lia. Qed.

Lemma dec_val_snoc s c : dec_val (s ++ [c]) = dec_val s * 10 + (c - 48).
Proof. unfold dec_val. by rewrite foldl_app. Qed.

Lemma foldl_dec_step v s : foldl dec_step v s = v * 10 ^ zlen s + dec_val s.
Proof.
  induction s as [|c s IH] using rev_ind; [unfold dec_val; rewrite zlen_nil, Z.pow_0_r; simpl; lia|].
  rewrite dec_val_snoc, foldl_app. simpl. rewrite IH. unfold dec_step, ch_0.
  rewrite zlen_app. replace (zlen [c]) with 1 by done.
  rewrite Z.pow_add_r, Z.pow_1_r by (first [apply zlen_nonneg|lia]). lia.
Qed.

Lemma dec_val_bound s :
  Forall (fun c => is_digit c = true) s -> 0 <= dec_val s < 10 ^ zlen s.
Proof.
  induction s as [|c s IH] using rev_ind; [done|].
  intros [Hs Hc]%Forall_app. apply Forall_singleton, is_digit_spec in Hc. specialize (IH Hs).
  rewrite dec_val_snoc, zlen_app. replace (zlen [c]) with 1 by done.
  rewrite Z.pow_add_r, Z.pow_1_r by (first [apply zlen_nonneg|lia]). lia.
Qed.

(** The [k] least significant decimal digits of [n], most significant first. *)
Fixpoint dec_digits (k : nat) (n : Z) : list Z :=
  match k with
  | O => []
  | S k => dec_digits k (n / 10) ++ [ch_0 + n mod 10]
  end.

Lemma length_dec_digits k n : length (dec_digits k n) = k.
Proof.
  revert n. induction k as [|k IH]; intros n; simpl; [done|].
  rewrite length_app, IH. simpl. lia.
Qed.

Lemma dec_digits_digits k n : Forall (fun c => is_digit c = true) (dec_digits k n).
Proof.
  revert n. induction k as [|k IH]; intros n; simpl; [done|].
  apply Forall_app_2; [done|]. apply Forall_singleton, is_digit_spec.
  pose proof (Z.mod_pos_bound n 10 ltac:(lia)). unfold ch_0. lia.
Qed.

Lemma dec_val_digits k n : dec_val (dec_digits k n) = n mod 10 ^ Z.of_nat k.
Proof.
  revert n. induction k as [|k IH]; intros n; [by rewrite Z.mod_1_r|].
  cbn [dec_digits]. rewrite dec_val_snoc, IH. unfold ch_0.
  rewrite Nat2Z.inj_succ, Z.pow_succ_r by lia. rewrite Z.rem_mul_r by lia. lia.
Qed.

(** Adding digits on the left. *)
Lemma dec_digits_app j k n :
  0 <= n -> dec_digits (j + k) n = dec_digits j (n / 10 ^ Z.of_nat k) ++ dec_digits k n.
Proof.
  intros Hn. revert n Hn. induction k as [|k IH]; intros n Hn.
  - rewrite Nat.add_0_r. simpl. by rewrite Z.div_1_r, app_nil_r.
  - rewrite Nat.add_succ_r. cbn [dec_digits]. rewrite IH by (apply Z.div_pos; lia).
    rewrite app_assoc. do 3 f_equal. rewrite Nat2Z.inj_succ, Z.pow_succ_r by lia.
    by rewrite Z.div_div by lia.
Qed.

(** Two digit strings of the same length and value are equal. *)
Lemma digits_inj s t :
  Forall (fun c => is_digit c = true) s -> Forall (fun c => is_digit c = true) t ->
  length s = length t -> dec_val s = dec_val t -> s = t.
Proof.
  revert t. induction s as [|c s IH] using rev_ind; intros t Hs Ht Hl Hv.
  - by destruct t.
  - destruct t as [|d t _] using rev_ind; [rewrite length_app in Hl; simpl in Hl; lia|].
    rewrite !length_app in Hl. simpl in Hl.
    rewrite Forall_app, Forall_singleton, is_digit_spec in Hs, Ht.
    destruct Hs as [Hs Hc], Ht as [Ht Hd]. rewrite !dec_val_snoc in Hv.
    assert (c = d) as -> by lia. f_equal. apply IH; [done..|lia|lia].
Qed.

(** A canonical notation has as many digits as the value needs. *)
Lemma canonical_nat_bounds s n :
  canonical_nat s n -> n = 0 /\ s = [ch_0] \/ 10 ^ (zlen s - 1) <= n < 10 ^ zlen s.
Proof.
  intros (Hne & Hd & <- & Hz). destruct s as [|c s]; [done|].
  destruct (decide (c = ch_0)) as [->|Hc0]; [left; rewrite Hz by done; done|right].
  pose proof (dec_val_bound _ Hd). split; [|lia].
  inversion Hd as [|?? Hc Hs]; subst. apply is_digit_spec in Hc.
  unfold dec_val. cbn [foldl]. rewrite foldl_dec_step. pose proof (dec_val_bound s Hs).
  rewrite zlen_cons. replace (1 + zlen s - 1) with (zlen s) by lia.
  unfold dec_step, ch_0 in *. assert (0 < 10 ^ zlen s) by (pose proof (zlen_nonneg s); lia). nia.
Qed.

Lemma canonical_nat_inj s t n : canonical_nat s n -> canonical_nat t n -> s = t.
Proof.
  intros Hs Ht.
  pose proof (canonical_nat_bounds s n Hs) as Bs. pose proof (canonical_nat_bounds t n Ht) as Bt.
  assert (length s = length t) as Hl.
  { destruct Hs as (Hs0 & _), Ht as (Ht0 & _).
    assert (0 < zlen s) by (destruct s; [done|rewrite zlen_cons; pose proof (zlen_nonneg s); lia]).
    assert (0 < zlen t) by (destruct t; [done|rewrite zlen_cons; pose proof (zlen_nonneg t); lia]).
    assert (forall a b, 0 < a -> 0 < b -> 10 ^ (a - 1) <= n -> n < 10 ^ b -> a <= b) as Hab.
    { intros a b ????. destruct (Z.le_gt_cases a b); [done|].
      assert (10 ^ b <= 10 ^ (a - 1)) by (apply Z.pow_le_mono_r; lia). lia. }
    destruct Bs as [[-> ->] |Bs], Bt as [[? ->] |Bt]; subst; try done.
    - assert (0 < 10 ^ (zlen t - 1)) by lia. lia.
    - assert (0 < 10 ^ (zlen s - 1)) by lia. lia.
    - pose proof (Hab (zlen s) (zlen t)). pose proof (Hab (zlen t) (zlen s)).
      unfold zlen in *. lia. }
  destruct Hs as (_ & Hs & <- & _), Ht as (_ & Ht & Hv & _). symmetry in Hv.
  by apply digits_inj.
Qed.

Lemma canonical_inj s t v : canonical s v -> canonical t v -> s = t.
Proof.
  unfold canonical. case_match; [|apply canonical_nat_inj].
  intros (s' & -> & Hs) (t' & -> & Ht). f_equal. by eapply canonical_nat_inj.
Qed.

(** ** [digits10] *)

Lemma digits10_small fuel v :
  0 < v < 10 ^ 12 -> 10 ^ (digits10 fuel v - 1) <= v < 10 ^ digits10 fuel v.
Proof.
  intros Hv. change (10 ^ 12) with 1000000000000 in Hv. destruct fuel; simpl;
    repeat case_match; unfold b2z; try lia; repeat case_match; simpl Z.pow; lia.
Qed.

Lemma digits10_bounds v :
  0 < v < 2 ^ 64 -> 10 ^ (digits10 1 v - 1) <= v < 10 ^ digits10 1 v.
Proof.
  intros Hv. destruct (Z.lt_ge_cases v (10 ^ 12)) as [Hs|Hl]; [apply digits10_small; lia|].
  change (10 ^ 12) with 1000000000000 in *.
  assert (digits10 1 v = 12 + digits10 0 (v / 1000000000000)) as ->.
  { cbn [digits10]. do 4 (rewrite (proj2 (Z.ltb_ge v _)) by lia). done. }
  set (w := v / 1000000000000).
  assert (0 < w) by (subst w; apply Z.div_str_pos; lia).
  assert (w < 10 ^ 12).
  { change (10 ^ 12) with 1000000000000. subst w. apply Z.div_lt_upper_bound; [lia|].
    change (2 ^ 64) with 18446744073709551616 in Hv. lia. }
  destruct (digits10_small 0 w) as [Hlo Hhi]; [lia|].
  assert (1 <= digits10 0 w).
  { destruct (Z.le_gt_cases 1 (digits10 0 w)); [done|exfalso].
    assert (10 ^ digits10 0 w <= 10 ^ 0) by (apply Z.pow_le_mono_r; lia).
    rewrite Z.pow_0_r in *. lia. }
  pose proof (Z.div_mod v 1000000000000 ltac:(lia)) as E. fold w in E.
  pose proof (Z.mod_pos_bound v 1000000000000 ltac:(lia)).
  replace (12 + digits10 0 w - 1) with (12 + (digits10 0 w - 1)) by lia.
  rewrite !(Z.pow_add_r 10 12) by lia. change (10 ^ 12) with 1000000000000. nia.
Qed.

Lemma digits10_range v : 0 <= v < 2 ^ 64 -> 1 <= digits10 1 v <= 20.
Proof.
  intros Hv. destruct (Z.eq_dec v 0) as [->|]; [simpl; lia|].
  destruct (digits10_bounds v) as [Hlo Hhi]; [lia|]. split.
  - destruct (Z.le_gt_cases 1 (digits10 1 v)); [done|exfalso].
    assert (10 ^ digits10 1 v <= 10 ^ 0) by (apply Z.pow_le_mono_r; lia).
    rewrite Z.pow_0_r in *. lia.
  - destruct (Z.le_gt_cases (digits10 1 v) 20); [done|exfalso].
    assert (10 ^ 20 <= 10 ^ (digits10 1 v - 1)) by (apply Z.pow_le_mono_r; lia).
    change (10 ^ 20) with 100000000000000000000 in *.
    change (2 ^ 64) with 18446744073709551616 in *. lia.
Qed.

Lemma canonical_nat_digits v :
  0 <= v < 2 ^ 64 -> canonical_nat (dec_digits (Z.to_nat (digits10 1 v)) v) v.
Proof.
  intros Hv. destruct (Z.eq_dec v 0) as [->|Hv0].
  { repeat split; try done. by repeat constructor. }
  pose proof (digits10_range v Hv) as Hr.
  destruct (digits10_bounds v) as [Hlo Hhi]; [lia|].
  set (k := Z.to_nat (digits10 1 v)).
  assert (Z.of_nat k = digits10 1 v) as Ek by (subst k; lia).
  repeat split.
  - intros E%(f_equal length). rewrite length_dec_digits in E. simpl in E. lia.
  - apply dec_digits_digits.
  - rewrite dec_val_digits, Ek. apply Z.mod_small. lia.
  - intros Hh. exfalso. destruct k as [|k']; [lia|].
    assert (head (dec_digits (S k') v) = Some (ch_0 + v / 10 ^ Z.of_nat k' mod 10)) as E.
    { replace (S k') with (1 + k')%nat by lia. rewrite dec_digits_app by lia. done. }
    rewrite E in Hh. injection Hh as Hh.
    replace (digits10 1 v - 1) with (Z.of_nat k') in Hlo by lia.
    replace (digits10 1 v) with (Z.of_nat k' + 1) in Hhi by lia.
    rewrite Z.pow_add_r in Hhi by lia. change (10 ^ 1) with 10 in Hhi.
    assert (1 <= v / 10 ^ Z.of_nat k') by (apply Z.div_le_lower_bound; lia).
    assert (v / 10 ^ Z.of_nat k' < 10) by (apply Z.div_lt_upper_bound; lia).
    rewrite Z.mod_small in Hh by lia. lia.
Qed.

(** ** [ll2string] *)

Lemma digits_at_spec k :
  0 <= k < 100 ->
  digits_at (k * 2) = Some (ch_0 + k / 10) /\ digits_at (k * 2 + 1) = Some (ch_0 + k mod 10).
Proof.
  intros Hk.
  assert (forall n : nat, (n < 100)%nat ->
    digits_at (Z.of_nat n * 2) = Some (ch_0 + Z.of_nat n / 10) /\
    digits_at (Z.of_nat n * 2 + 1) = Some (ch_0 + Z.of_nat n mod 10)) as H.
  { intros n Hn. do 100 (destruct n as [|n]; [by split|]). lia. }
  specialize (H (Z.to_nat k)). rewrite Z2Nat.id in H by lia. apply H. lia.
Qed.

(** Extending a read region one byte to the left. *)
Lemma mread_cons m off n b bs :
  mread m off 1 = Some [b] -> mread m (off + 1) n = Some bs ->
  mread m off (n + 1) = Some (b :: bs).
Proof.
  intros (?&?&?&?&Ha)%mread_Some (?&?&?&?&Hb)%mread_Some. apply mread_Some.
  rewrite zlen_cons. split_and!; try lia. intros [|i] Hi.
  - by specialize (Ha 0%nat ltac:(lia)).
  - simpl. rewrite Hb by lia. f_equal. lia.
Qed.

Lemma mwrite_left m off n b bs m' :
  mread m (off + 1) n = Some bs -> mwrite m off [b] = Some m' ->
  mread m' off (n + 1) = Some (b :: bs).
Proof.
  intros Hr Hw. apply mread_cons; [by apply mread_mwrite_same in Hw|].
  rewrite (mread_mwrite_disj _ _ _ _ _ _ Hw); [done|]. right. done.
Qed.

Lemma two_digits v k :
  0 <= v -> ch_0 + v / 10 ^ (Z.of_nat k + 1) mod 10 :: ch_0 + v / 10 ^ Z.of_nat k mod 10 :: dec_digits k v
    = dec_digits (S (S k)) v.
Proof.
  intros Hv. replace (S (S k)) with (2 + k)%nat by lia. rewrite dec_digits_app by done.
  cbn [dec_digits app]. rewrite Z.pow_add_r, Z.pow_1_r by lia. by rewrite Z.div_div by lia.
Qed.

#[local] Arguments dec_digits : simpl never.

(** Writing the two digits of [value mod 100] to the left of a region. *)
Lemma write_two dst next V k r :
  0 <= V -> 1 <= next -> next + 1 <= zlen dst -> next < 2 ^ 32 ->
  let value := V / 10 ^ Z.of_nat k in
  mread dst (next + 1) (Z.of_nat k + 1) = Some (dec_digits k V ++ r) ->
  exists dst', (d1 ← digits_at ((value mod 100) * 2 + 1); dst1 ← mwrite dst next [d1];
     d0 ← digits_at ((value mod 100) * 2); mwrite dst1 (uwrap 32 (next - 1)) [d0]) = Some dst' /\
    zlen dst' = zlen dst /\
    mread dst' (next - 1) (Z.of_nat (S (S k)) + 1) = Some (dec_digits (S (S k)) V ++ r).
Proof.
  intros HV Hn Hz H32 value Hr.
  destruct (digits_at_spec (value mod 100)) as [-> ->]; [apply Z.mod_pos_bound; lia|]. simpl.
  destruct (mwrite_is_Some dst next [ch_0 + value mod 100 mod 10]) as [d1 W1];
    [lia|by rewrite zlen_cons, zlen_nil|].
  rewrite W1. simpl. pose proof (mwrite_Some _ _ _ _ W1) as (_&_&Z1&_).
  rewrite uwrap_small by (unfold in_u; lia).
  destruct (mwrite_is_Some d1 (next - 1) [ch_0 + value mod 100 / 10]) as [d2 W2];
    [lia|rewrite zlen_cons, zlen_nil; lia|].
  exists d2. split; [done|]. pose proof (mwrite_Some _ _ _ _ W2) as (_&_&Z2&_).
  split; [lia|]. pose proof (mwrite_left _ _ _ _ _ _ Hr W1) as R1.
  replace next with (next - 1 + 1) in R1 at 1 by lia.
  pose proof (mwrite_left _ _ _ _ _ _ R1 W2) as R2.
  rewrite <- two_digits by done.
  replace (Z.of_nat (S (S k)) + 1) with (Z.of_nat k + 1 + 1 + 1) by lia. rewrite R2.
  assert (value mod 100 / 10 = V / 10 ^ (Z.of_nat k + 1) mod 10) as ->.
  { change 100 with (10 * 10). rewrite Z.rem_mul_r by lia.
    rewrite (Z.mul_comm 10), Z.div_add by lia.
    rewrite (Z.div_small (value mod 10)) by (apply Z.mod_pos_bound; lia).
    subst value. rewrite Z.pow_add_r, Z.pow_1_r by lia. by rewrite Z.div_div by lia. }
  assert (value mod 100 mod 10 = V / 10 ^ Z.of_nat k mod 10) as ->; [|done].
  change 100 with (10 * 10). rewrite Z.rem_mul_r by lia.
  rewrite (Z.mul_comm 10), Z.mod_add by lia. by rewrite Z.mod_mod by lia.
Qed.

(** [V] has [d] digits. *)
Definition has_digits (V d : Z) : Prop := V = 0 /\ d = 1 \/ 10 ^ (d - 1) <= V < 10 ^ d.

Lemma has_digits_div V d k :
  has_digits V d -> 0 <= V -> 0 <= k -> 0 < d -> 0 < V / 10 ^ k -> k < d.
Proof.
  intros [[-> ->] |[_ Hd]] HV Hk Hd0 Hq.
  - rewrite Z.div_0_l in Hq by lia. lia.
  - destruct (Z.lt_ge_cases k d); [done|exfalso].
    assert (10 ^ d <= 10 ^ k) by (apply Z.pow_le_mono_r; lia).
    rewrite Z.div_small in Hq by lia. lia.
Qed.

Lemma ll2string_loop_spec fuel dst V d L k :
  0 <= V -> has_digits V d -> 0 < d <= L -> L < zlen dst -> L < 2 ^ 32 ->
  Z.of_nat k < d -> V / 10 ^ Z.of_nat k < 100 ^ (Z.of_nat fuel + 1) ->
  mread dst (L - Z.of_nat k) (Z.of_nat k + 1) = Some (dec_digits k V ++ [0]) ->
  exists dst' k', ll2string_loop fuel dst (V / 10 ^ Z.of_nat k) (L - 1 - Z.of_nat k)
      = Some (dst', V / 10 ^ Z.of_nat k', L - 1 - Z.of_nat k') /\
    zlen dst' = zlen dst /\ Z.of_nat k' < d /\ V / 10 ^ Z.of_nat k' < 100 /\
    mread dst' (L - Z.of_nat k') (Z.of_nat k' + 1) = Some (dec_digits k' V ++ [0]).
Proof.
  intros HV Hd HL Hz H32. revert dst k Hz.
  induction fuel as [|fuel IH]; intros dst k Hz Hk Hf Hr.
  { simpl in Hf. unfold ll2string_loop. rewrite Z.geb_leb.
    destruct (Z.leb_spec 100 (V / 10 ^ Z.of_nat k)); [lia|]. by exists dst, k. }
  cbn [ll2string_loop]. rewrite Z.geb_leb.
  destruct (Z.leb_spec 100 (V / 10 ^ Z.of_nat k)) as [Hge|Hlt]; [|by exists dst, k].
  assert (V / 10 ^ (Z.of_nat k + 2) = V / 10 ^ Z.of_nat k / 100) as E.
  { rewrite Z.pow_add_r by lia. change (10 ^ 2) with 100. by rewrite Z.div_div by lia. }
  assert (Z.of_nat k + 2 < d) as Hk2.
  { eapply has_digits_div; [done..|lia|lia|]. rewrite E. apply Z.div_str_pos. lia. }
  destruct (write_two dst (L - 1 - Z.of_nat k) V k [0]) as (dst1 & Hw & Z1 & R1);
    [done|lia|lia|lia| |].
  { by replace (L - 1 - Z.of_nat k + 1) with (L - Z.of_nat k) by lia. }
  cbv zeta in Hw.
  destruct (digits_at (_ + 1)) as [d1|]; [simpl in *|done].
  destruct (mwrite dst _ [d1]) as [dst0|]; [simpl in *|done].
  destruct (digits_at _) as [d0|]; [simpl in *|done]. rewrite Hw. simpl.
  rewrite uwrap_small by (unfold in_u; lia).
  replace (L - 1 - Z.of_nat k - 2) with (L - 1 - Z.of_nat (S (S k))) by lia.
  rewrite <- E. replace (Z.of_nat k + 2) with (Z.of_nat (S (S k))) by lia.
  destruct (IH dst1 (S (S k))) as (dst' & k' & HIH & Z' & Hrest); try lia.
  - replace (Z.of_nat (S (S k))) with (Z.of_nat k + 2) by lia. rewrite E.
    apply Z.div_lt_upper_bound; [lia|].
    replace (Z.of_nat (S fuel) + 1) with (1 + (Z.of_nat fuel + 1)) in Hf by lia.
    rewrite Z.pow_add_r in Hf by lia. lia.
  - replace (L - Z.of_nat (S (S k))) with (L - 1 - Z.of_nat k - 1) by lia. done.
  - exists dst', k'. split_and!; [done|lia|tauto..].
Qed.

Lemma has_digits_digits10 v : 0 <= v < 2 ^ 64 -> has_digits v (digits10 1 v).
Proof.
  intros Hv. destruct (Z.eq_dec v 0) as [->|]; [by left|right]. apply digits10_bounds. lia.
Qed.

(** The magnitude the loop works on, and the length it computes. *)
Definition magnitude (v : Z) : Z := Z.abs v.

Lemma sdigits10_spec v :
  in_s 64 v -> sdigits10 v = digits10 1 (magnitude v) + (if v <? 0 then 1 else 0).
Proof.
  intros Hv. unfold sdigits10, magnitude, LLONG_MIN, LLONG_MAX.
  destruct (Z.ltb_spec v 0); [|rewrite Z.abs_eq by lia; lia].
  destruct (Z.eqb_spec v (- 2 ^ 63)) as [->|]; [done|]. simpl.
  rewrite uwrap_small by width_lia. rewrite Z.abs_neq by lia. lia.
Qed.

(** The digits of the magnitude, from offset [neg] up to the terminator. *)
Lemma ll2string_digits dst V neg :
  0 <= V < 2 ^ 64 -> 0 <= neg <= 1 ->
  let L := digits10 1 V + neg in
  L < zlen dst ->
  exists dst', (dst ← mwrite dst L [0];
     '(dst, value, next) ← ll2string_loop 10 dst V (uwrap 32 (L - 1));
     if value <? 10 then mwrite dst next [ch_0 + value]
     else d1 ← digits_at (value * 2 + 1); dst ← mwrite dst next [d1];
          d0 ← digits_at (value * 2); mwrite dst (uwrap 32 (next - 1)) [d0]) = Some dst' /\
    zlen dst' = zlen dst /\
    mread dst' neg (digits10 1 V + 1) = Some (dec_digits (Z.to_nat (digits10 1 V)) V ++ [0]).
Proof.
  intros HV Hneg L HL. pose proof (digits10_range V HV) as Hd.
  pose proof (has_digits_digits10 V HV) as Hh.
  destruct (mwrite_is_Some dst L [0]) as [dst0 W0]; [lia|rewrite zlen_cons, zlen_nil; lia|].
  rewrite W0. cbn [mbind option_bind]. pose proof (mwrite_Some _ _ _ _ W0) as (_&_&Z0&_).
  rewrite uwrap_small by (unfold in_u; lia).
  destruct (ll2string_loop_spec 10 dst0 V (digits10 1 V) L 0) as (dst1 & k & Hl & Z1 & Hk & H100 & R);
    [lia|done|lia|lia|lia|lia| |  |].
  { rewrite Z.pow_0_r, Z.div_1_r. eapply Z.lt_trans; [apply HV|]. done. }
  { rewrite Z.sub_0_r. by apply (mread_mwrite_same _ _ _ _ W0). }
  rewrite Z.pow_0_r, Z.div_1_r, Z.sub_0_r in Hl. rewrite Hl. cbn [mbind option_bind].
  set (q := V / 10 ^ Z.of_nat k) in *.
  assert (0 <= q) by (subst q; apply Z.div_pos; lia).
  destruct (Z.ltb_spec q 10) as [Hq|Hq].
  - assert (digits10 1 V = Z.of_nat k + 1) as Ek.
    { destruct Hh as [[-> ?]|[Hlo Hhi]]; [lia|].
      destruct (Z.eq_dec (digits10 1 V) (Z.of_nat k + 1)); [done|exfalso].
      assert (10 ^ (Z.of_nat k + 1) <= V).
      { etrans; [|exact Hlo]. apply Z.pow_le_mono_r; lia. }
      assert (10 <= q); [|lia]. subst q. apply Z.div_le_lower_bound; [lia|].
      rewrite Z.pow_add_r, Z.pow_1_r in * by lia. lia. }
    destruct (mwrite_is_Some dst1 (L - 1 - Z.of_nat k) [ch_0 + q]) as [dst2 W2];
      [lia|rewrite zlen_cons, zlen_nil; lia|].
    exists dst2. split; [done|]. pose proof (mwrite_Some _ _ _ _ W2) as (_&_&Z2&_).
    split; [lia|]. replace (L - Z.of_nat k) with (L - 1 - Z.of_nat k + 1) in R by lia.
    pose proof (mwrite_left _ _ _ _ _ _ R W2) as R2.
    replace (L - 1 - Z.of_nat k) with neg in R2 by lia.
    replace (digits10 1 V + 1) with (Z.of_nat k + 1 + 1) by lia. rewrite R2.
    replace (Z.to_nat (digits10 1 V)) with (1 + k)%nat by lia.
    rewrite dec_digits_app by lia. fold q. change (dec_digits 1 q) with [ch_0 + q mod 10]. by rewrite Z.mod_small by lia.
  - assert (digits10 1 V = Z.of_nat k + 2) as Ek.
    { destruct Hh as [[-> ?]|[Hlo Hhi]]; [subst q; rewrite Z.div_0_l in Hq by lia; lia|].
      assert (Z.of_nat k + 1 < digits10 1 V).
      { eapply has_digits_div; [by right|lia..|]. rewrite Z.pow_add_r, Z.pow_1_r by lia.
        rewrite <- Z.div_div by lia. fold q. apply Z.div_str_pos. lia. }
      destruct (Z.eq_dec (digits10 1 V) (Z.of_nat k + 2)); [done|exfalso].
      assert (10 ^ (Z.of_nat k + 2) <= V).
      { etrans; [|exact Hlo]. apply Z.pow_le_mono_r; lia. }
      assert (100 <= q); [|lia]. subst q. apply Z.div_le_lower_bound; [lia|].
      rewrite Z.pow_add_r in * by lia. change (10 ^ 2) with 100 in *. lia. }
    destruct (write_two dst1 (L - 1 - Z.of_nat k) V k [0]) as (dst2 & Hw & Z2 & R2);
      [lia|lia|lia|lia| |].
    { by replace (L - 1 - Z.of_nat k + 1) with (L - Z.of_nat k) by lia. }
    fold q in Hw. rewrite (Z.mod_small q) in Hw by lia. exists dst2.
    split; [done|]. split; [lia|].
    replace (L - 1 - Z.of_nat k - 1) with neg in R2 by lia.
    replace (Z.of_nat (S (S k)) + 1) with (digits10 1 V + 1) in R2 by lia. rewrite R2.
    by replace (Z.to_nat (digits10 1 V)) with (S (S k)) by lia.
Qed.

Lemma ll2string_spec dst dstlen v :
  in_s 64 v -> dstlen <= zlen dst -> sdigits10 v < dstlen ->
  exists dst' s, ll2string dst dstlen v = Some (dst', sdigits10 v) /\
    zlen dst' = zlen dst /\ canonical s v /\ zlen s = sdigits10 v /\
    mread dst' 0 (sdigits10 v + 1) = Some (s ++ [0]).
Proof.
  intros Hv Hz Hlen. rewrite (sdigits10_spec v Hv) in *. unfold ll2string.
  assert ((if v <? 0 then (if negb (v =? LLONG_MIN) then - v else LLONG_MAX + 1, 1) else (v, 0))
    = (magnitude v, if v <? 0 then 1 else 0)) as ->.
  { unfold magnitude, LLONG_MIN, LLONG_MAX. destruct (Z.ltb_spec v 0).
    - destruct (Z.eqb_spec v (- 2 ^ 63)) as [->|]; [done|]. simpl. f_equal. lia.
    - f_equal. lia. }
  set (neg := if v <? 0 then 1 else 0) in *.
  assert (0 <= neg <= 1) by (subst neg; case_match; lia).
  assert (0 <= magnitude v < 2 ^ 64) as HV by (unfold magnitude; width_lia).
  pose proof (digits10_range _ HV) as Hd. pose proof (canonical_nat_digits _ HV) as Hc.
  set (V := magnitude v) in *. set (d := digits10 1 V) in *.
  rewrite uwrap_small by (unfold in_u; lia). rewrite Z.geb_leb.
  destruct (Z.leb_spec dstlen (d + neg)); [lia|].
  destruct (ll2string_digits dst V neg HV) as (dst1 & H1 & Z1 & R1); [done|fold d; lia|].
  fold d in H1, R1.
  destruct (mwrite dst (d + neg) [0]) as [dst0|]; [|done].
  cbn [mbind option_bind] in *.
  destruct (ll2string_loop 10 dst0 V (uwrap 32 (d + neg - 1))) as [[[dst2 q] next]|]; [|done].
  cbn [mbind option_bind] in *. rewrite H1. cbn [mbind option_bind]. subst neg.
  destruct (Z.ltb_spec v 0) as [Hneg|Hpos]; simpl negb.
  - destruct (mwrite_is_Some dst1 0 [ch_minus]) as [dst3 W]; [lia|change (zlen [ch_minus]) with 1; lia|].
    rewrite W. exists dst3, (ch_minus :: dec_digits (Z.to_nat d) V).
    pose proof (mwrite_Some _ _ _ _ W) as (_&_&Z3&_).
    split_and!; [done|lia| | |].
    + unfold canonical. rewrite (proj2 (Z.ltb_lt v 0)) by done. eexists; split; [done|].
      subst V. unfold magnitude in *. by replace (- v) with (Z.abs v) by lia.
    + rewrite zlen_cons. unfold zlen. rewrite length_dec_digits. lia.
    + exact (mwrite_left dst1 0 (d + 1) _ _ _ R1 W).
  - exists dst1, (dec_digits (Z.to_nat d) V). split_and!; [done|lia| | |].
    + unfold canonical. rewrite (proj2 (Z.ltb_ge v 0)) by done.
      subst V. unfold magnitude in *. by rewrite !(Z.abs_eq v) in * by lia.
    + unfold zlen. rewrite length_dec_digits. lia.
    + rewrite Z.add_0_r. done.
Qed.

(** ** [string2ll] *)

Lemma foldl_dec_ge v s :
  0 <= v -> Forall (fun c => is_digit c = true) s -> v <= foldl dec_step v s.
Proof.
  intros Hv Hs. rewrite foldl_dec_step. pose proof (dec_val_bound s Hs).
  assert (1 <= 10 ^ zlen s) by (pose proof (zlen_nonneg s); lia). nia.
Qed.

Lemma string2ll_loop_iff p v r :
  0 <= v <= ULLONG_MAX ->
  string2ll_loop p v = Some (r, []) <->
  Forall (fun c => is_digit c = true) p /\ r = foldl dec_step v p /\ r <= ULLONG_MAX.
Proof.
  revert v. induction p as [|c p IH]; intros v Hv; simpl.
  { split; [intros [= ->]; split_and!; [constructor|done|lia]|by intros (_ & -> & _)]. }
  rewrite Forall_cons. destruct (is_digit c) eqn:Hc; [|split; [done|intros ([? _] & _); done]].
  apply is_digit_spec in Hc as Hc'. fold (dec_step v c).
  assert (ULLONG_MAX = 18446744073709551615) as EU by done.
  assert (forall P : Prop, dec_step v c > ULLONG_MAX -> ~ P ->
    (P <-> (true = true /\ Forall (fun c => is_digit c = true) p) /\
           r = foldl dec_step (dec_step v c) p /\ r <= ULLONG_MAX)) as Hover.
  { intros P Hgt HP. split; [done|]. intros ([_ Hp] & -> & Hle).
    pose proof (foldl_dec_ge (dec_step v c) p ltac:(lia) Hp). lia. }
  unfold dec_step, ch_0 in *. rewrite !Z.gtb_ltb.
  assert (ULLONG_MAX / 10 = 1844674407370955161) as -> by done.
  destruct (Z.ltb_spec 1844674407370955161 v); [apply Hover; [lia|done]|].
  rewrite (uwrap_small 64 (v * 10)) by width_lia.
  destruct (Z.ltb_spec (ULLONG_MAX - (c - 48)) (v * 10)); [apply Hover; [lia|done]|].
  rewrite uwrap_small by width_lia. rewrite IH by lia. naive_solver.
Qed.

Lemma dec_val_cons c p : dec_val (c :: p) = foldl dec_step (c - ch_0) p.
Proof. done. Qed.

Lemma head_digit_nonzero c : (c >=? ch_1) && (c <=? ch_9) = true <-> is_digit c = true /\ c <> ch_0.
Proof. unfold is_digit, ch_0, ch_1, ch_9. rewrite !andb_true_iff. lia. Qed.

(** The part of [string2ll] after the sign, up to the range check. *)
Definition magnitude_of (p : list Z) : option Z :=
  match p with
  | [] => None
  | c :: p =>
    if (c >=? ch_1) && (c <=? ch_9) then
      '(v, rest) ← string2ll_loop p (c - ch_0); if 0 <? zlen rest then None else Some v
    else None
  end.

Lemma magnitude_of_iff p r :
  magnitude_of p = Some r <-> canonical_nat p r /\ 0 < r <= ULLONG_MAX.
Proof.
  unfold canonical_nat. destruct p as [|c p]; cbn [magnitude_of]; [naive_solver|].
  rewrite dec_val_cons, Forall_cons.
  transitivity (((c >=? ch_1) && (c <=? ch_9) = true) /\
    string2ll_loop p (c - ch_0) = Some (r, [])).
  { destruct ((c >=? ch_1) && (c <=? ch_9)); [|by split; [|intros []]].
    destruct (string2ll_loop p (c - ch_0)) as [[v rest]|]; cbn [mbind option_bind];
      [|by split; [|intros []]].
    destruct rest; [naive_solver|].
    rewrite (proj2 (Z.ltb_lt _ _)) by (rewrite zlen_cons; pose proof (zlen_nonneg rest); lia).
    by split; [|intros [_ [=]]]. }
  rewrite head_digit_nonzero. split.
  - intros [[Hc Hc0] Hl]. apply is_digit_spec in Hc as Hc'. unfold ch_0 in *.
    apply string2ll_loop_iff in Hl as (Hp & -> & Hle); [|unfold ULLONG_MAX; lia].
    pose proof (foldl_dec_ge (c - 48) p ltac:(lia) Hp).
    split_and!; try done; [|lia]. intros [= ->]. done.
  - intros ((_ & [Hc Hp] & Hr & Hz) & Hpos & Hle). apply is_digit_spec in Hc as Hc'.
    assert (c <> ch_0) as Hc0.
    { intros ->. specialize (Hz eq_refl). injection Hz as ->. simpl in Hr. unfold ch_0 in Hr. lia. }
    split; [done|]. unfold ch_0 in *. apply string2ll_loop_iff; [unfold ULLONG_MAX; lia|].
    by subst r.
Qed.

Lemma canonical_zero s : canonical s 0 <-> s = [ch_0].
Proof.
  assert (canonical [ch_0] 0) by (repeat split; try done; by repeat constructor).
  split; [|by intros ->]. intros H0. by eapply canonical_inj.
Qed.

(** [string2ll] on anything but ["0"]. *)
Lemma string2ll_unfold s :
  s <> [ch_0] -> string2ll s =
    if bool_decide (head s = Some ch_minus) then
      v ← magnitude_of (tail s); if v >? 2 ^ 63 then None else Some (- v)
    else v ← magnitude_of s; if v >? 2 ^ 63 - 1 then None else Some v.
Proof.
  intros Hs. destruct s as [|c0 s]; [done|]. cbn [string2ll head tail].
  assert ((zlen (c0 :: s) =? 1) && (c0 =? ch_0) = false) as ->.
  { apply andb_false_iff. destruct (Z.eqb_spec c0 ch_0) as [->|]; [left|by right].
    apply Z.eqb_neq. destruct s; [done|]. rewrite !zlen_cons. pose proof (zlen_nonneg s). lia. }
  destruct (Z.eqb_spec c0 ch_minus) as [->|Hm]; cbv beta iota.
  - rewrite bool_decide_eq_true_2 by done. pose proof (magnitude_of_iff s) as Hi. revert Hi.
    destruct s as [|c p]; cbn [magnitude_of]; [done|]. case_match; [|done].
    destruct (string2ll_loop p (c - ch_0)) as [[v rest]|]; cbn [mbind option_bind]; [|done].
    case_match; [done|]. intros Hi. specialize (Hi v) as [[_ Hv] _]; [done|].
    change (- (LLONG_MIN + 1) + 1) with (2 ^ 63). cbn [mbind option_bind].
    case_match; [done|]. unfold uwrap. rewrite swrap_mod, swrap_small by width_lia. done.
  - rewrite bool_decide_eq_false_2 by congruence. pose proof (magnitude_of_iff (c0 :: s)) as Hi.
    revert Hi. cbn [magnitude_of]. case_match; [|done].
    destruct (string2ll_loop s (c0 - ch_0)) as [[v rest]|]; cbn [mbind option_bind]; [|done].
    case_match; [done|]. intros Hi. specialize (Hi v) as [[_ Hv] _]; [done|].
    change LLONG_MAX with (2 ^ 63 - 1). cbn [mbind option_bind].
    case_match; [done|]. rewrite swrap_small by width_lia. done.
Qed.

Lemma canonical_nat_head s n : canonical_nat s n -> head s <> Some ch_minus.
Proof. intros (_ & Hd & _) E. destruct s; [done|]. injection E as ->. by inversion Hd. Qed.

Lemma string2ll_spec s v : string2ll s = Some v <-> canonical s v /\ in_s 64 v.
Proof.
  destruct (decide (s = [ch_0])) as [->|Hs0].
  { split; [intros [= <-]; split; [by apply canonical_zero|width_lia]|].
    intros [Hc _]. simpl. f_equal. unfold canonical in Hc. case_match.
    - by destruct Hc as (t & [=] & _).
    - by destruct Hc as (_ & _ & <- & _). }
  rewrite (string2ll_unfold s Hs0). unfold canonical. case_bool_decide as Hm.
  - destruct s as [|c t]; [done|]. injection Hm as ->. simpl. split.
    + intros (r & [Hc Hr]%magnitude_of_iff & Hv)%bind_Some. case_match; [done|].
      injection Hv as <-. rewrite (proj2 (Z.ltb_lt _ _)) by lia.
      split; [|width_lia]. exists t. by rewrite Z.opp_involutive.
    + intros [Hc Hv]. case_match; [|by apply canonical_nat_head in Hc].
      destruct Hc as (t' & [= <-] & Hc).
      rewrite (proj2 (magnitude_of_iff t (- v))) by (split; [done|unfold ULLONG_MAX; width_lia]).
      simpl. case_match; [width_lia|]. f_equal. lia.
  - split.
    + intros (r & [Hc Hr]%magnitude_of_iff & Hv)%bind_Some. case_match; [done|].
      injection Hv as <-. rewrite (proj2 (Z.ltb_ge _ _)) by lia. split; [done|width_lia].
    + intros [Hc Hv]. case_match; [by destruct Hc as (t & -> & _)|].
      assert (v <> 0) by (intros ->; apply Hs0; by apply (proj1 (canonical_zero s))).
      rewrite (proj2 (magnitude_of_iff s v)) by (split; [done|unfold ULLONG_MAX; width_lia]).
      simpl. case_match; [width_lia|done].
Qed.

Lemma string2l_string2ll s : string2l s = string2ll s.
Proof.
  unfold string2l. destruct (string2ll s) as [v|] eqn:E; [|done]. simpl.
  apply string2ll_spec in E as [_ Hv]. unfold LONG_MIN, LONG_MAX.
  destruct (_ || _) eqn:Hb; [|done]. apply orb_true_iff in Hb. width_lia.
Qed.

(** ** Claims *)

(** ** The text of a number *)

Definition dec (n : Z) : list Z := dec_digits (Z.to_nat (digits10 1 n)) n.
(** [sprintf("%ld")]. *)
Definition ld_text (v : Z) : list Z := if v <? 0 then 45 :: dec (- v) else dec v.

Lemma ld_text_canonical v : in_s 64 v -> canonical (ld_text v) v.
Proof. intros Hv. unfold canonical, ld_text. case_match; [eexists; split; [done|]|]; apply canonical_nat_digits; width_lia. Qed.

Lemma ld_text_len v : in_s 64 v -> 0 < zlen (ld_text v) <= 20 /\ sdigits10 v = zlen (ld_text v).
Proof.
  intros Hv. destruct (ll2string_spec (replicate 100 0) 100 v Hv) as (d & s & _ & _ & Hc & Hl & _); [done| |].
  - rewrite (sdigits10_spec v Hv). pose proof (digits10_range (magnitude v) ltac:(unfold magnitude; width_lia)). case_match; lia.
  - rewrite <- (canonical_inj _ _ _ (ld_text_canonical v Hv) Hc) in Hl. split; [|done]. rewrite Hl, (sdigits10_spec v Hv).
    pose proof (digits10_range (magnitude v) ltac:(unfold magnitude; width_lia)).
    assert (0 <= magnitude v <= 2 ^ 63) as Hm by (unfold magnitude; width_lia).
    assert (digits10 1 (magnitude v) <= 19).
    { destruct (has_digits_digits10 (magnitude v) ltac:(lia)) as [[_ ->]|[Hd _]]; [lia|]. apply Z.nlt_ge. intros Hlt.
      pose proof (Z.pow_le_mono_r 10 19 (digits10 1 (magnitude v) - 1) ltac:(lia) ltac:(lia)). lia. }
    case_match; lia.
Qed.

(** The text of a number, written to a buffer. *)
Lemma ll2string_text dst v :
  in_s 64 v -> 21 <= zlen dst ->
  exists dst', ll2string dst (zlen dst) v = Some (dst', zlen (ld_text v)) /\ zlen dst' = zlen dst /\ mread dst' 0 (zlen (ld_text v)) = Some (ld_text v).
Proof.
  intros Hv Hz. destruct (ld_text_len v Hv) as [Hl Hs]. destruct (ll2string_spec dst (zlen dst) v Hv) as (dst' & s & E & Hz' & Hc & Hls & Hr); [lia|lia|].
  rewrite Hs in *. exists dst'. split; [done|]. split; [done|]. rewrite (canonical_inj _ _ _ (ld_text_canonical v Hv) Hc).
  rewrite <- Hls in Hr. change 1 with (zlen [0]) in Hr. apply mread_app in Hr as [Hr _]. done.
Qed.

Lemma string2ll_text v : in_s 64 v -> string2ll (ld_text v) = Some v.
Proof. intros Hv. apply string2ll_spec. split; [by apply ld_text_canonical|done]. Qed.

Lemma text_string2ll s v : string2ll s = Some v -> s = ld_text v.
Proof. intros [Hc Hv]%string2ll_spec. eapply canonical_inj; [done|by apply ld_text_canonical]. Qed.

(** C31: [string2ll] accepts exactly the decimal notations of the 64-bit signed
    integers, without leading zeros, plus sign, spaces or trailing bytes, and
    returns the value denoted; every other byte string, including every
    number out of range, is refused. *)
Theorem string2ll_exact s v :
  string2ll s = Some v <-> canonical s v /\ in_s 64 v.
Proof. apply string2ll_spec. Qed.

(** [ll2string] on a buffer with room writes the decimal notation of the
    value followed by a NUL, touches no byte outside the buffer, and returns
    the number of characters, which is what [sdigits10] computes; [LLONG_MIN]
    included. *)
Theorem ll2string_writes dst dstlen v :
  in_s 64 v -> dstlen <= zlen dst -> sdigits10 v < dstlen ->
  exists dst' s, ll2string dst dstlen v = Some (dst', sdigits10 v) /\
    zlen dst' = zlen dst /\ canonical s v /\ zlen s = sdigits10 v /\
    mread dst' 0 (sdigits10 v + 1) = Some (s ++ [0]).
Proof. apply ll2string_spec. Qed.

Lemma ll2string_writes_witness :
  exists dst' s, ll2string (replicate 21 7) 21 (- 2 ^ 63) = Some (dst', sdigits10 (- 2 ^ 63)) /\
    zlen dst' = zlen (replicate 21 7) /\ canonical s (- 2 ^ 63) /\
    zlen s = sdigits10 (- 2 ^ 63) /\
    mread dst' 0 (sdigits10 (- 2 ^ 63) + 1) = Some (s ++ [0]).
Proof. apply ll2string_writes; [decide_now|done|done]. Defined.

(** The two conversions are inverse to each other: printing a parsed
    string gives back the very same bytes, so a string that [string2ll]
    accepts can be stored as an integer without loss, and parsing a printed
    integer gives back the integer. *)
Theorem string2ll_ll2string s v dst :
  string2ll s = Some v -> zlen s < zlen dst ->
  exists dst', ll2string dst (zlen dst) v = Some (dst', zlen s) /\
    mread dst' 0 (zlen s) = Some s /\ string2ll s = Some v.
Proof.
  intros Hp Hz. pose proof Hp as [Hc Hv]%string2ll_spec.
  assert (forall D, in_s 64 v -> sdigits10 v < zlen D ->
    exists dst' t, ll2string D (zlen D) v = Some (dst', sdigits10 v) /\
    zlen dst' = zlen D /\ canonical t v /\ zlen t = sdigits10 v /\
    mread dst' 0 (sdigits10 v + 1) = Some (t ++ [0])) as Hw
    by (intros D ??; by apply ll2string_spec).
  pose proof (sdigits10_spec v Hv) as Hsd.
  destruct (Hw (replicate 100 0)) as (_ & t0 & _ & _ & Ht0 & Hl0 & _); [done| |].
  { pose proof (digits10_range (magnitude v) ltac:(unfold magnitude; width_lia)).
    rewrite zlen_replicate. rewrite Hsd. case_match; lia. }
  rewrite <- (canonical_inj _ _ _ Hc Ht0) in Hl0. rewrite Hl0 in *.
  destruct (Hw dst Hv Hz) as (dst' & t & Hl & Hz' & Ht & Hlt & Hr).
  rewrite <- (canonical_inj _ _ _ Hc Ht) in *. exists dst'. split_and!; [done| |done].
  pose proof (zlen_nonneg s). apply mread_Some in Hr as (?&?&?&?&Hi). apply mread_Some. split_and!; try done; try lia.
  intros i Hlt'. rewrite <- Hi by lia. symmetry. apply lookup_app_l. unfold zlen in *. lia.
Qed.

Lemma string2ll_ll2string_witness :
  exists dst', ll2string (replicate 8 0) 8 (-120) = Some (dst', 4) /\
    mread dst' 0 4 = Some [45; 49; 50; 48] /\ string2ll [45; 49; 50; 48] = Some (-120).
Proof. apply (string2ll_ll2string [45; 49; 50; 48] (-120) (replicate 8 0)); done. Defined.
