(* ===== verification/Dict.v ===== *)
(** * Hash tables with incremental rehashing ([dict.c], [dict.h])

    A dictionary holds two tables; while it is being resized, each operation
    first moves some buckets from the old table to the new one.  A chain of
    [dictEntry] is the list of its entries, a pointer to an entry is its
    place ([entry_ref]), and the NULL table of an unused [dictht] is the empty
    list.  Reading a bucket that does not exist and a failed [assert] give
    [None].  The key type, the hash function of the [dictType] and the global
    [dict_can_resize] are arguments. *)

From S2P Require Import Prelude.
From stdpp Require Import options.

Inductive dict_status := DICT_OK | DICT_ERR.

Definition DICT_HT_INITIAL_SIZE : Z := 4.
Definition dict_force_resize_ratio : Z := 5.
Definition LONG_MAX : Z := 2 ^ 63 - 1.

Section Dict.
Context {K V : Type} `{Countable K} (hash : K -> Z).

(** The value of a fresh entry is not initialised until [dictSetVal]. *)
Record dictEntry := mk_entry { e_key : K; e_val : option V }.

Record dictht := mk_ht {
  ht_table : list (list dictEntry);
  ht_size : Z;
  ht_sizemask : Z;
  ht_used : Z;
}.

Record dict := mk_dict { ht0 : dictht; ht1 : dictht; rehashidx : Z; iterators : Z }.

(** A pointer to an entry: which table, which bucket, which place in the
    chain. *)
Record entry_ref := mk_ref { r_table : bool; r_idx : Z; r_pos : nat }.

Definition the_ht (d : dict) (table : bool) : dictht := if table then ht1 d else ht0 d.
Definition set_ht (d : dict) (table : bool) (h : dictht) : dict :=
  if table then mk_dict (ht0 d) h (rehashidx d) (iterators d)
  else mk_dict h (ht1 d) (rehashidx d) (iterators d).
Definition set_rehashidx (d : dict) (i : Z) : dict := mk_dict (ht0 d) (ht1 d) i (iterators d).

Definition dictHashKey (k : K) : Z := uwrap 64 (hash k).
Definition dictIsRehashing (d : dict) : bool := negb (rehashidx d =? -1).
Definition dictSize (d : dict) : Z := uwrap 64 (ht_used (ht0 d) + ht_used (ht1 d)).

Definition _dictReset : dictht := mk_ht [] 0 0 0.

Definition _dictInit : dict := mk_dict _dictReset _dictReset (-1) 0.

Definition dictCreate : dict := _dictInit.

(** [ht->table[idx]] *)
Definition bucket (h : dictht) (idx : Z) : option (list dictEntry) := ht_table h !! Z.to_nat idx.
Definition set_bucket (h : dictht) (idx : Z) (b : list dictEntry) : dictht :=
  mk_ht (<[Z.to_nat idx := b]> (ht_table h)) (ht_size h) (ht_sizemask h) (ht_used h).
Definition set_used (h : dictht) (n : Z) : dictht :=
  mk_ht (ht_table h) (ht_size h) (ht_sizemask h) n.

(** The loop doubles [i] until it reaches [size]: at most 61 turns from 4 to
    2^63. *)
Fixpoint _dictNextPower_loop (fuel : nat) (i size : Z) : Z :=
  if i >=? size then i
  else match fuel with O => i | S fuel => _dictNextPower_loop fuel (uwrap 64 (i * 2)) size end.

Definition _dictNextPower (size : Z) : Z :=
  if size >=? LONG_MAX then LONG_MAX + 1
  else _dictNextPower_loop 61 DICT_HT_INITIAL_SIZE size.

Definition dictExpand (d : dict) (size : Z) : dict * dict_status :=
  if dictIsRehashing d || (ht_used (ht0 d) >? size) then (d, DICT_ERR) else
  let realsize := _dictNextPower size in
  if realsize =? ht_size (ht0 d) then (d, DICT_ERR) else
  let n := mk_ht (replicate (Z.to_nat realsize) []) realsize (realsize - 1) 0 in
  match ht_table (ht0 d) with
  | [] => (set_ht d false n, DICT_OK)
  | _ => (set_rehashidx (set_ht d true n) 0, DICT_OK)
  end.

(** [int minimal = d->ht[0].used] converts to a 32-bit integer. *)
Definition dictResize (can_resize : bool) (d : dict) : dict * dict_status :=
  if negb can_resize || dictIsRehashing d then (d, DICT_ERR) else
  let minimal := swrap 32 (ht_used (ht0 d)) in
  let minimal := if minimal <? DICT_HT_INITIAL_SIZE then DICT_HT_INITIAL_SIZE else minimal in
  dictExpand d minimal.

(** [while(d->ht[0].table[d->rehashidx] == NULL)]: the index reached, the
    remaining visits, and whether the function returns early. *)
Fixpoint skip_empty (fuel : nat) (h : dictht) (idx empty_visits : Z)
    : option (Z * Z * bool) :=
  b ← bucket h idx;
  match b with
  | _ :: _ => Some (idx, empty_visits, false)
  | [] =>
    let idx := idx + 1 in
    let empty_visits := swrap 32 (empty_visits - 1) in
    if empty_visits =? 0 then Some (idx, empty_visits, true) else
    match fuel with O => None | S fuel => skip_empty fuel h idx empty_visits end
  end.

(** [while(de)]: each entry of the chain becomes the head of its new bucket. *)
Fixpoint move_chain (de : list dictEntry) (h0 h1 : dictht) : option (dictht * dictht) :=
  match de with
  | [] => Some (h0, h1)
  | e :: nextde =>
    let h := Z.land (dictHashKey (e_key e)) (ht_sizemask h1) in
    b ← bucket h1 h;
    let h1 := set_bucket h1 h (e :: b) in
    let h0 := set_used h0 (uwrap 64 (ht_used h0 - 1)) in
    let h1 := set_used h1 (uwrap 64 (ht_used h1 + 1)) in
    move_chain nextde h0 h1
  end.

(** [while(n-- && d->ht[0].used != 0)]; the boolean is the early return. *)
Fixpoint dictRehash_loop (n : nat) (d : dict) (empty_visits : Z) : option (dict * bool) :=
  match n with
  | O => Some (d, false)
  | S n =>
    if ht_used (ht0 d) =? 0 then Some (d, false) else
    if negb (ht_size (ht0 d) >? uwrap 64 (rehashidx d)) then None else
    '(idx, ev, stop) ← skip_empty (Z.to_nat (ht_size (ht0 d))) (ht0 d) (rehashidx d) empty_visits;
    if (stop : bool) then Some (set_rehashidx d idx, true) else
    de ← bucket (ht0 d) idx;
    '(h0, h1) ← move_chain de (ht0 d) (ht1 d);
    let h0 := set_bucket h0 idx [] in
    dictRehash_loop n (mk_dict h0 h1 (idx + 1) (iterators d)) ev
  end.

(** Result: the dictionary and whether there are still keys to move.
    [n] is positive in every call of the source. *)
Definition dictRehash (d : dict) (n : Z) : option (dict * bool) :=
  let empty_visits := swrap 32 (n * 10) in
  if negb (dictIsRehashing d) then Some (d, false) else
  '(d, stop) ← dictRehash_loop (Z.to_nat n) d empty_visits;
  if (stop : bool) then Some (d, true) else
  if ht_used (ht0 d) =? 0 then
    Some (mk_dict (ht1 d) _dictReset (-1) (iterators d), false)
  else Some (d, true).

Definition _dictRehashStep (d : dict) : option dict :=
  if iterators d =? 0 then fst <$> dictRehash d 1 else Some d.

(** [if (dictIsRehashing(d)) _dictRehashStep(d);] *)
Definition rehash_step_if (d : dict) : option dict :=
  if dictIsRehashing d then _dictRehashStep d else Some d.

Definition _dictExpandIfNeeded (can_resize : bool) (d : dict) : dict * dict_status :=
  if dictIsRehashing d then (d, DICT_OK) else
  if ht_size (ht0 d) =? 0 then dictExpand d DICT_HT_INITIAL_SIZE else
  if (ht_used (ht0 d) >=? ht_size (ht0 d)) &&
     (can_resize || (ht_used (ht0 d) / ht_size (ht0 d) >? dict_force_resize_ratio))
  then dictExpand d (uwrap 64 (ht_used (ht0 d) * 2))
  else (d, DICT_OK).

(** [while(he)] with [key==he->key || dictCompareKeys(d, key, he->key)]. *)
Definition chain_find (k : K) (b : list dictEntry) : option (nat * dictEntry) :=
  list_find (fun e => k = e_key e) b.

(** The search loop over one or two tables that [dictFind], [_dictKeyIndex]
    and [dictGenericDelete] share: where the key is ([inl]), or the last
    bucket index computed ([inr]). *)
Definition table_search (d : dict) (k : K) (h : Z) : option (entry_ref * dictEntry + Z) :=
  let idx := Z.land h (ht_sizemask (ht0 d)) in
  b ← bucket (ht0 d) idx;
  match chain_find k b with
  | Some (p, e) => Some (inl (mk_ref false idx p, e))
  | None =>
    if negb (dictIsRehashing d) then Some (inr idx) else
    let idx := Z.land h (ht_sizemask (ht1 d)) in
    b ← bucket (ht1 d) idx;
    match chain_find k b with
    | Some (p, e) => Some (inl (mk_ref true idx p, e))
    | None => Some (inr idx)
    end
  end.

(** [_dictKeyIndex]: [inr idx] is the bucket to use, [inl existing] the
    return value -1. *)
Definition _dictKeyIndex (can_resize : bool) (d : dict) (k : K) (h : Z)
    : option (dict * (option entry_ref + Z)) :=
  match _dictExpandIfNeeded can_resize d with
  | (d, DICT_ERR) => Some (d, inl None)
  | (d, DICT_OK) =>
    r ← table_search d k h;
    match r with
    | inl (ref, _) => Some (d, inl (Some ref))
    | inr idx => Some (d, inr idx)
    end
  end.

(** Result: the new entry ([inr]), or what [*existing] is set to ([inl]). *)
Definition dictAddRaw (can_resize : bool) (d : dict) (k : K)
    : option (dict * (option entry_ref + entry_ref)) :=
  d ← rehash_step_if d;
  '(d, index) ← _dictKeyIndex can_resize d k (dictHashKey k);
  match index with
  | inl existing => Some (d, inl existing)
  | inr index =>
    let t := dictIsRehashing d in
    let ht := the_ht d t in
    b ← bucket ht index;
    let ht := set_bucket ht index (mk_entry k None :: b) in
    let ht := set_used ht (uwrap 64 (ht_used ht + 1)) in
    Some (set_ht d t ht, inr (mk_ref t index 0))
  end.

(** [dictSetVal(d, entry, val)] *)
Definition dictSetVal (d : dict) (r : entry_ref) (v : V) : option dict :=
  let ht := the_ht d (r_table r) in
  b ← bucket ht (r_idx r);
  e ← b !! r_pos r;
  Some (set_ht d (r_table r)
          (set_bucket ht (r_idx r) (<[r_pos r := mk_entry (e_key e) (Some v)]> b))).

Definition dictAdd (can_resize : bool) (d : dict) (k : K) (v : V)
    : option (dict * dict_status) :=
  '(d, r) ← dictAddRaw can_resize d k;
  match r with
  | inl _ => Some (d, DICT_ERR)
  | inr entry => d ← dictSetVal d entry v; Some (d, DICT_OK)
  end.

(** Result: 1 when the key is new.  A NULL [existing] is dereferenced by the
    source and gives [None]. *)
Definition dictReplace (can_resize : bool) (d : dict) (k : K) (v : V) : option (dict * bool) :=
  '(d, r) ← dictAddRaw can_resize d k;
  match r with
  | inr entry => d ← dictSetVal d entry v; Some (d, true)
  | inl existing => existing ← existing; d ← dictSetVal d existing v; Some (d, false)
  end.

Definition dictAddOrFind (can_resize : bool) (d : dict) (k : K) : option (dict * option entry_ref) :=
  '(d, r) ← dictAddRaw can_resize d k;
  Some (d, match r with inr entry => Some entry | inl existing => existing end).

(** Result: the unlinked entry. *)
Definition dictGenericDelete (d : dict) (k : K) : option (dict * option dictEntry) :=
  if (ht_used (ht0 d) =? 0) && (ht_used (ht1 d) =? 0) then Some (d, None) else
  d ← rehash_step_if d;
  r ← table_search d k (dictHashKey k);
  match r with
  | inr _ => Some (d, None)
  | inl (ref, e) =>
    let ht := the_ht d (r_table ref) in
    b ← bucket ht (r_idx ref);
    let ht := set_bucket ht (r_idx ref) (delete (r_pos ref) b) in
    let ht := set_used ht (uwrap 64 (ht_used ht - 1)) in
    Some (set_ht d (r_table ref) ht, Some e)
  end.

Definition dictDelete (d : dict) (k : K) : option (dict * dict_status) :=
  '(d, r) ← dictGenericDelete d k;
  Some (d, match r with Some _ => DICT_OK | None => DICT_ERR end).

Definition dictUnlink (d : dict) (k : K) : option (dict * option dictEntry) :=
  dictGenericDelete d k.

Definition dictFind (d : dict) (k : K) : option (dict * option dictEntry) :=
  if uwrap 64 (ht_used (ht0 d) + ht_used (ht1 d)) =? 0 then Some (d, None) else
  d ← rehash_step_if d;
  r ← table_search d k (dictHashKey k);
  Some (d, match r with inl (_, e) => Some e | inr _ => None end).

(** [dictGetVal(he)], or NULL. *)
Definition dictFetchValue (d : dict) (k : K) : option (dict * option V) :=
  '(d, he) ← dictFind d k; Some (d, he ≫= e_val).

(** [for (i = 0; i < ht->size && ht->used > 0; i++)]: the entries freed. *)
Fixpoint clear_loop (tbl : list (list dictEntry)) (used : Z) : list dictEntry :=
  match tbl with
  | [] => []
  | b :: tbl => if used >? 0 then b ++ clear_loop tbl (uwrap 64 (used - zlen b)) else []
  end.

(** Result: the reset table and the entries that were freed. *)
Definition _dictClear (h : dictht) : dictht * list dictEntry :=
  (_dictReset, clear_loop (ht_table h) (ht_used h)).

Definition dictEmpty (d : dict) : dict * list dictEntry :=
  let '(h0, f0) := _dictClear (ht0 d) in
  let '(h1, f1) := _dictClear (ht1 d) in
  (mk_dict h0 h1 (-1) 0, f0 ++ f1).

(** The entries freed when the dictionary itself goes away. *)
Definition dictRelease (d : dict) : list dictEntry :=
  snd (_dictClear (ht0 d)) ++ snd (_dictClear (ht1 d)).


(** ** Well-formedness *)

Definition entries (d : dict) : list dictEntry := concat (ht_table (ht0 d)) ++ concat (ht_table (ht1 d)).

Record ht_wf (h : dictht) : Prop := {
  hw_pow : exists k, 2 <= k <= 63 /\ ht_size h = 2 ^ k;
  hw_len : zlen (ht_table h) = ht_size h;
  hw_mask : ht_sizemask h = ht_size h - 1;
  hw_used : ht_used h = zlen (concat (ht_table h));
  hw_hash : forall i b e, ht_table h !! i = Some b -> e ∈ b ->
    Z.land (dictHashKey (e_key e)) (ht_sizemask h) = Z.of_nat i;
}.

Record dict_wf (d : dict) : Prop := {
  dw_keys : NoDup (e_key <$> entries d);
  dw_fits : zlen (entries d) < 2 ^ 62;
  dw_idle : rehashidx d = -1 -> ht1 d = _dictReset /\ (ht0 d = _dictReset \/ ht_wf (ht0 d));
  dw_busy : rehashidx d <> -1 -> ht_wf (ht0 d) /\ ht_wf (ht1 d) /\ 0 <= rehashidx d /\
    forall i b, Z.of_nat i < rehashidx d -> ht_table (ht0 d) !! i = Some b -> b = [];
}.

Lemma concat_lookup {A} (t : list (list A)) i b :
  t !! i = Some b -> concat t ≡ₚ b ++ concat (delete i t) /\
  forall b', concat (<[i:=b']> t) ≡ₚ b' ++ concat (delete i t).
Proof.
  intros Hi. pose proof (lookup_lt_Some _ _ _ Hi) as Hl.
  assert (forall c, concat (<[i:=c]> t) ≡ₚ c ++ concat (delete i t)) as Hc.
  { intros c. clear Hi. revert i Hl. induction t as [|x t IH]; intros [|i] Hl; simpl in *; try lia; [done|].
    rewrite IH by lia. by rewrite !app_assoc, (Permutation_app_comm x c). }
  split; [|done]. rewrite <- Hc. by rewrite list_insert_id.
Qed.

Lemma zlen_perm {A} (l k : list A) : l ≡ₚ k -> zlen l = zlen k.
Proof. intros Hp. unfold zlen. by rewrite Hp. Qed.

Lemma land_mask x k : 0 <= k -> Z.land x (2 ^ k - 1) = x mod 2 ^ k.
Proof.
  intros Hk. rewrite <- Z.land_ones by done. f_equal. rewrite Z.ones_equiv. lia.
Qed.

Lemma mask_range h x : ht_wf h -> 0 <= Z.land x (ht_sizemask h) < ht_size h.
Proof.
  intros Hw. destruct (hw_pow _ Hw) as (k & Hk & E). rewrite (hw_mask _ Hw), E, land_mask by lia.
  apply Z.mod_pos_bound. lia.
Qed.

Lemma bucket_exists h x : ht_wf h -> exists b, bucket h (Z.land x (ht_sizemask h)) = Some b.
Proof.
  intros Hw. pose proof (mask_range h x Hw). pose proof (hw_len _ Hw). unfold bucket.
  destruct (lookup_lt_is_Some_2 (ht_table h) (Z.to_nat (Z.land x (ht_sizemask h))));
    [unfold zlen in *; lia|eauto].
Qed.

(** Replacing a bucket by entries that belong to it keeps a table well formed. *)
Lemma ht_wf_update h idx b b' u :
  ht_wf h -> 0 <= idx -> bucket h idx = Some b ->
  (forall e, e ∈ b' -> Z.land (dictHashKey (e_key e)) (ht_sizemask h) = idx) ->
  u = ht_used h - zlen b + zlen b' ->
  ht_wf (set_used (set_bucket h idx b') u).
Proof.
  intros Hw Hi Hb Hb' ->. unfold bucket in Hb. constructor; simpl.
  - apply (hw_pow _ Hw).
  - unfold zlen. rewrite length_insert. apply (hw_len _ Hw).
  - apply (hw_mask _ Hw).
  - rewrite (hw_used _ Hw). destruct (concat_lookup _ _ _ Hb) as [E1 E2].
    rewrite (zlen_perm _ _ E1), (zlen_perm _ _ (E2 b')), !zlen_app. lia.
  - intros i c e. rewrite list_lookup_insert_Some. intros [(<- & <- & _)|[_ Hc]] He.
    + rewrite Hb' by done. lia.
    + by eapply hw_hash.
Qed.

Lemma wf_mem_bucket h e :
  ht_wf h -> e ∈ concat (ht_table h) ->
  exists b, bucket h (Z.land (dictHashKey (e_key e)) (ht_sizemask h)) = Some b /\ e ∈ b.
Proof.
  intros Hw Hin. apply list_elem_of_In, in_concat in Hin as (b & Hb & He).
  apply list_elem_of_In in Hb, He. apply list_elem_of_lookup in Hb as [i Hi].
  exists b. rewrite (hw_hash _ Hw i b e) by done. unfold bucket. by rewrite Nat2Z.id.
Qed.

Lemma bucket_mem h idx b e : bucket h idx = Some b -> e ∈ b -> e ∈ concat (ht_table h).
Proof.
  unfold bucket. intros Hb He. apply list_elem_of_In, in_concat. exists b.
  split; apply list_elem_of_In; [|done]. by eapply list_elem_of_lookup_2.
Qed.

(** ** Incremental rehashing *)

Lemma skip_empty_spec fuel h idx ev j c :
  0 <= idx <= j -> bucket h j = Some c -> c <> [] -> j - idx <= Z.of_nat fuel ->
  exists idx' ev' stop, skip_empty fuel h idx ev = Some (idx', ev', stop) /\
    idx <= idx' <= j /\
    (forall i, idx <= i < idx' -> bucket h i = Some []) /\
    if (stop : bool) then idx < idx'
    else exists e b, bucket h idx' = Some (e :: b).
Proof.
  revert idx ev. induction fuel as [|fuel IH]; intros idx ev Hi Hj Hc Hf; simpl.
  - assert (idx = j) as -> by lia. rewrite Hj. simpl. destruct c as [|e c]; [done|].
    do 3 eexists. split; [done|]. split_and!; [lia..|eauto].
  - destruct (bucket h idx) as [[|e b]|] eqn:Hb; simpl.
    + assert (idx <> j) by (intros ->; congruence).
      destruct (Z.eqb_spec (swrap 32 (ev - 1)) 0).
      * do 3 eexists. split; [done|]. split_and!; [lia|lia| |lia].
        intros i ?. by replace i with idx by lia.
      * destruct (IH (idx + 1) (swrap 32 (ev - 1))) as (idx' & ev' & stop & -> & H1 & H2 & H3); try done; try lia.
        do 3 eexists. split; [done|]. split_and!; [lia|lia| |].
        -- intros i Hlt. destruct (Z.eq_dec i idx) as [->|]; [done|]. apply H2. lia.
        -- destruct stop; [lia|done].
    + do 3 eexists. split; [done|]. split_and!; [lia|lia|lia|eauto].
    + unfold bucket in *. apply lookup_ge_None in Hb. apply lookup_lt_Some in Hj. lia.
Qed.

Lemma move_chain_spec de h0 h1 :
  ht_wf h1 -> zlen de <= ht_used h0 < 2 ^ 63 -> zlen de + ht_used h1 < 2 ^ 64 ->
  exists h1', move_chain de h0 h1 = Some (set_used h0 (ht_used h0 - zlen de), h1') /\
    ht_wf h1' /\ concat (ht_table h1') ≡ₚ de ++ concat (ht_table h1).
Proof.
  revert h0 h1. induction de as [|e de IH]; intros h0 h1 Hw H0 H1; simpl.
  - exists h1. rewrite zlen_nil, Z.sub_0_r. by destruct h0.
  - rewrite zlen_cons in *. destruct (bucket_exists h1 (dictHashKey (e_key e)) Hw) as [b Hb].
    rewrite Hb. simpl. pose proof (zlen_nonneg de).
    assert (0 <= ht_used h1) by (rewrite (hw_used _ Hw); apply zlen_nonneg).
    rewrite !uwrap_small by (unfold in_u; lia).
    pose proof (mask_range h1 (dictHashKey (e_key e)) Hw) as Hm.
    assert (ht_wf (set_used (set_bucket h1 (Z.land (dictHashKey (e_key e)) (ht_sizemask h1)) (e :: b))
      (ht_used h1 + 1))) as Hw'.
    { eapply ht_wf_update; [done|lia|done| |rewrite zlen_cons; lia].
      intros e' [->|He']%elem_of_cons; [done|]. unfold bucket in Hb.
      rewrite (hw_hash _ Hw _ _ _ Hb He'). lia. }
    destruct (IH (set_used h0 (ht_used h0 - 1)) _ Hw') as (h1' & -> & Hw1 & Hp); simpl; [lia|lia|].
    exists h1'. split_and!; [|done|].
    + unfold set_used. simpl. do 3 f_equal. lia.
    + rewrite Hp. simpl. unfold bucket in Hb. destruct (concat_lookup _ _ _ Hb) as [E1 E2].
      rewrite (E2 (e :: b)), E1. simpl. by rewrite <- Permutation_middle.
Qed.

Lemma nonempty_bucket d :
  ht_wf (ht0 d) -> ht_used (ht0 d) <> 0 ->
  (forall i b, Z.of_nat i < rehashidx d -> ht_table (ht0 d) !! i = Some b -> b = []) ->
  exists j c, rehashidx d <= j < ht_size (ht0 d) /\ 0 <= j /\ bucket (ht0 d) j = Some c /\ c <> [].
Proof.
  intros Hw Hu Hlow. rewrite (hw_used _ Hw) in Hu.
  destruct (concat (ht_table (ht0 d))) as [|e l] eqn:E; [done|].
  destruct (wf_mem_bucket _ e Hw) as (b & Hb & He); [rewrite E; left|].
  pose proof (mask_range _ (dictHashKey (e_key e)) Hw) as Hm.
  set (j := Z.land _ _) in *. exists j, b.
  assert (b <> []) by (intros ->; by apply elem_of_nil in He).
  split_and!; try lia; [|done..].
  destruct (Z.le_gt_cases (rehashidx d) j); [done|]. unfold bucket in Hb.
  assert (b = []); [|done]. apply (Hlow (Z.to_nat j)); [lia|done].
Qed.

Definition dict_perm (d d' : dict) : Prop := entries d' ≡ₚ entries d.

Lemma perm_app_swap {A} (a b c : list A) : a ++ (b ++ c) ≡ₚ (b ++ a) ++ c.
Proof. by rewrite app_assoc, (Permutation_app_comm a b). Qed.

(** Well-formedness of a dictionary with the same entries. *)
Lemma dict_wf_perm d d' :
  dict_wf d -> entries d' ≡ₚ entries d ->
  (rehashidx d' = -1 -> ht1 d' = _dictReset /\ (ht0 d' = _dictReset \/ ht_wf (ht0 d'))) ->
  (rehashidx d' <> -1 -> ht_wf (ht0 d') /\ ht_wf (ht1 d') /\ 0 <= rehashidx d' /\
    forall i b, Z.of_nat i < rehashidx d' -> ht_table (ht0 d') !! i = Some b -> b = []) ->
  dict_wf d'.
Proof.
  intros Hw Hp Hi Hb. constructor; [by rewrite Hp; apply dw_keys| |done..].
  rewrite (zlen_perm _ _ Hp). by apply dw_fits.
Qed.

Lemma bucket_nat h (i : nat) : bucket h (Z.of_nat i) = ht_table h !! i.
Proof. unfold bucket. by rewrite Nat2Z.id. Qed.

(** One call of the outer loop keeps the dictionary well formed, keeps its
    entries, and moves the index forward unless nothing is left to move. *)
Lemma rehash_loop_spec n d ev :
  dict_wf d -> rehashidx d <> -1 ->
  exists d' stop, dictRehash_loop n d ev = Some (d', stop) /\
    dict_wf d' /\ rehashidx d' <> -1 /\ entries d' ≡ₚ entries d /\ iterators d' = iterators d /\
    ht_size (ht0 d') = ht_size (ht0 d) /\ rehashidx d <= rehashidx d' /\
    (n = O \/ (ht_used (ht0 d) = 0 /\ d' = d /\ stop = false) \/ rehashidx d < rehashidx d').
Proof.
  revert d ev. induction n as [|n IH]; intros d ev Hw Hr; cbn [dictRehash_loop].
  { exists d, false. split_and!; try done. by left. }
  destruct (Z.eqb_spec (ht_used (ht0 d)) 0) as [E|NE].
  { exists d, false. split_and!; try done. right. by left. }
  destruct (dw_busy _ Hw Hr) as (Hw0 & Hw1 & Hr0 & Hlow).
  destruct (nonempty_bucket d Hw0 NE Hlow) as (j & c & Hj & Hj0 & Hc & Hcn).
  destruct (hw_pow _ Hw0) as (k & Hk & Ek).
  assert (2 ^ k <= 2 ^ 63) by (apply Z.pow_le_mono_r; lia).
  rewrite (uwrap_small 64 (rehashidx d)) by width_lia.
  rewrite Z.gtb_ltb, (proj2 (Z.ltb_lt _ _)) by lia. cbn [negb].
  destruct (skip_empty_spec (Z.to_nat (ht_size (ht0 d))) (ht0 d) (rehashidx d) ev j c)
    as (idx & ev' & stop & -> & Hidx & Hemp & Hstop); [lia|done..|lia|].
  cbn [mbind option_bind].
  assert (forall i b, Z.of_nat i < idx -> ht_table (ht0 d) !! i = Some b -> b = []) as Hlow'.
  { intros i b Hi Hb. destruct (Z.lt_ge_cases (Z.of_nat i) (rehashidx d)); [by eapply Hlow|].
    rewrite <- bucket_nat in Hb. rewrite Hemp in Hb by lia. congruence. }
  destruct stop.
  { exists (set_rehashidx d idx), true. split_and!; simpl; try done; try lia.
    constructor; simpl; try apply Hw; [lia|]. intros _. split_and!; try done; lia. }
  destruct Hstop as (e & b & Hb). rewrite Hb. cbn [mbind option_bind].
  pose proof (dw_fits _ Hw) as Hfit. unfold entries in Hfit. rewrite zlen_app in Hfit.
  pose proof Hb as Hb'. unfold bucket in Hb'.
  destruct (concat_lookup _ _ _ Hb') as [P1 P2].
  pose proof (zlen_perm _ _ P1) as L1. rewrite zlen_app in L1.
  rewrite <- (hw_used _ Hw0), <- (hw_used _ Hw1) in Hfit. rewrite <- (hw_used _ Hw0) in L1.
  pose proof (zlen_nonneg (concat (delete (Z.to_nat idx) (ht_table (ht0 d))))).
  pose proof (zlen_nonneg (e :: b)).
  assert (0 <= ht_used (ht1 d)) by (rewrite (hw_used _ Hw1); apply zlen_nonneg).
  destruct (move_chain_spec (e :: b) (ht0 d) (ht1 d)) as (h1 & -> & Hwh1 & P3); [done|lia|lia|].
  cbn [mbind option_bind].
  set (d1 := mk_dict _ h1 _ _).
  assert (entries d1 ≡ₚ entries d) as Hp.
  { unfold entries. cbn [ht0 ht1 ht_table set_bucket set_used d1]. rewrite P3, P1, (P2 []).
    apply (perm_app_swap _ (e :: b)). }
  destruct (IH d1 ev') as (d' & stop & -> & Hwd & Hrd & Hpd & Hit & Hsz & Hge & _); [|simpl; lia|].
  - apply (dict_wf_perm d); [done|done|simpl; lia|].
    { intros _. simpl. split_and!; [|done|lia|].
      * apply (ht_wf_update (ht0 d) idx (e :: b) [] (ht_used (ht0 d) - zlen (e :: b)));
          [done|lia|done|by intros ? ?%elem_of_nil|rewrite zlen_nil; lia].
      * intros i c' Hi. rewrite list_lookup_insert_Some. intros [(_ & <- & _)|[Hne Hc']]; [done|].
        eapply Hlow'; [|done]. lia. }
  - exists d', stop. simpl in *. split_and!; try done; [by rewrite Hpd|lia|]. right. right. lia.
Qed.

Lemma dictIsRehashing_true d : dictIsRehashing d = true <-> rehashidx d <> -1.
Proof. unfold dictIsRehashing. rewrite negb_true_iff, Z.eqb_neq. done. Qed.
Lemma dictIsRehashing_false d : dictIsRehashing d = false <-> rehashidx d = -1.
Proof. unfold dictIsRehashing. rewrite negb_false_iff, Z.eqb_eq. done. Qed.

Lemma ht_used_zero h : ht_wf h -> ht_used h = 0 -> concat (ht_table h) = [].
Proof. intros Hw. rewrite (hw_used _ Hw). unfold zlen. intros E. apply length_zero_iff_nil. lia. Qed.

(** [dictRehash] neither loses nor duplicates an entry; if work is left, the
    old table shrank by at least one bucket. *)
Lemma dictRehash_spec d n :
  dict_wf d -> 1 <= n ->
  exists d' more, dictRehash d n = Some (d', more) /\ dict_wf d' /\ entries d' ≡ₚ entries d /\
    iterators d' = iterators d /\
    (if (more : bool) then rehashidx d' <> -1 /\ rehashidx d < rehashidx d' /\
       ht_size (ht0 d') = ht_size (ht0 d)
     else rehashidx d' = -1).
Proof.
  intros Hw Hn. unfold dictRehash. destruct (dictIsRehashing d) eqn:Hb; simpl.
  2:{ exists d, false. apply dictIsRehashing_false in Hb. done. }
  apply dictIsRehashing_true in Hb.
  destruct (rehash_loop_spec (Z.to_nat n) d (swrap 32 (n * 10)) Hw Hb)
    as (d1 & stop & -> & Hw1 & Hr1 & Hp & Hit & Hsz & Hge & Hprog). simpl.
  destruct stop.
  { exists d1, true. split_and!; try done. destruct Hprog as [?|[(_ & _ & [=])|?]]; lia. }
  destruct (dw_busy _ Hw1 Hr1) as (Hw10 & Hw11 & _).
  destruct (Z.eqb_spec (ht_used (ht0 d1)) 0) as [E|NE].
  - set (d2 := mk_dict _ _ _ _). exists d2, false. split; [done|].
    assert (entries d2 ≡ₚ entries d) as Hp2.
    { rewrite <- Hp. unfold entries. simpl. rewrite (ht_used_zero _ Hw10 E). by rewrite app_nil_r. }
    split_and!; try done. apply (dict_wf_perm d); [done|done| |done].
    intros _. split; [done|]. by right.
  - exists d1, true. split_and!; try done.
    destruct Hprog as [?|[(? & -> & _)|?]]; [lia|done|done].
Qed.

Lemma rehash_step_if_spec d :
  dict_wf d ->
  exists d', rehash_step_if d = Some d' /\ dict_wf d' /\ entries d' ≡ₚ entries d /\
    iterators d' = iterators d.
Proof.
  intros Hw. unfold rehash_step_if, _dictRehashStep.
  destruct (dictIsRehashing d); [|by exists d]. destruct (iterators d =? 0); [|by exists d].
  destruct (dictRehash_spec d 1 Hw ltac:(lia)) as (d' & more & -> & ? & ? & ? & _).
  by exists d'.
Qed.

(** ** Resizing *)

Lemma nextPower_loop_spec fuel k size :
  2 <= k -> size < 2 ^ 63 -> 63 - k <= Z.of_nat fuel -> k <= 63 ->
  exists j, k <= j <= 63 /\ _dictNextPower_loop fuel (2 ^ k) size = 2 ^ j /\ size <= 2 ^ j.
Proof.
  revert k. induction fuel as [|fuel IH]; intros k Hk Hs Hf Hk63; simpl.
  - assert (k = 63) as -> by lia. exists 63. case_match; split_and!; done || lia.
  - rewrite Z.geb_leb. destruct (Z.leb_spec size (2 ^ k)); [by exists k|].
    assert (k <> 63) by (intros ->; lia).
    replace (2 ^ k * 2) with (2 ^ (k + 1)) by (rewrite Z.pow_add_r by lia; lia).
    rewrite uwrap_small by (unfold in_u; split; [lia|apply Z.pow_lt_mono_r; lia]).
    destruct (IH (k + 1)) as (j & Hj & Ej & Hsj); [lia..|]. exists j. split_and!; [lia|lia|done|done].
Qed.

Lemma nextPower_spec size :
  0 <= size <= 2 ^ 63 -> exists k, 2 <= k <= 63 /\ _dictNextPower size = 2 ^ k /\ size <= 2 ^ k.
Proof.
  intros Hs. unfold _dictNextPower, LONG_MAX. rewrite Z.geb_leb.
  destruct (Z.leb_spec (2 ^ 63 - 1) size).
  - exists 63. split_and!; [lia|lia|done|lia].
  - apply (nextPower_loop_spec 61 2 size); lia.
Qed.

Lemma concat_replicate_nil {A} n : concat (replicate n (@nil A)) = [].
Proof. induction n; simpl; auto. Qed.

Lemma fresh_ht_wf k :
  2 <= k <= 63 -> ht_wf (mk_ht (replicate (Z.to_nat (2 ^ k)) []) (2 ^ k) (2 ^ k - 1) 0).
Proof.
  intros Hk. constructor; simpl; try done.
  - by exists k.
  - rewrite zlen_replicate. lia.
  - by rewrite concat_replicate_nil.
  - intros i b e [-> _]%lookup_replicate He. by apply elem_of_nil in He.
Qed.

Lemma ht_wf_table h : ht_wf h -> exists b t, ht_table h = b :: t.
Proof.
  intros Hw. destruct (hw_pow _ Hw) as (k & Hk & E). pose proof (hw_len _ Hw) as Hl.
  assert (0 < 2 ^ k) by (apply Z.pow_pos_nonneg; lia).
  destruct (ht_table h); [rewrite zlen_nil in Hl; lia|eauto].
Qed.

Lemma dictExpand_spec d size :
  dict_wf d -> 0 <= size <= 2 ^ 63 ->
  let d' := fst (dictExpand d size) in
  dict_wf d' /\ entries d' = entries d /\ iterators d' = iterators d /\
  (snd (dictExpand d size) = DICT_OK <->
     rehashidx d = -1 /\ ht_used (ht0 d) <= size /\ _dictNextPower size <> ht_size (ht0 d)) /\
  (snd (dictExpand d size) = DICT_OK -> ht_wf (ht0 d')).
Proof.
  intros Hw Hs. unfold dictExpand. destruct (nextPower_spec size Hs) as (k & Hk & -> & Hks).
  destruct (dictIsRehashing d) eqn:Hb; simpl.
  { apply dictIsRehashing_true in Hb. split_and!; try done. split; [done|by intros [? _]]. }
  apply dictIsRehashing_false in Hb. rewrite Z.gtb_ltb.
  destruct (Z.ltb_spec size (ht_used (ht0 d))) as [Hu|Hu]; simpl.
  { split_and!; try done. split; [done|]. intros (_ & ? & _). lia. }
  destruct (Z.eqb_spec (2 ^ k) (ht_size (ht0 d))) as [E|NE]; simpl.
  { split_and!; try done. split; [done|]. by intros (_ & _ & ?). }
  destruct (dw_idle _ Hw Hb) as (H1 & H0).
  pose proof (fresh_ht_wf k Hk) as Hf. set (n := mk_ht _ _ _ _) in *.
  assert (concat (ht_table n) = []) as Hn by apply concat_replicate_nil. clearbody n.
  assert (DICT_OK = DICT_OK <-> rehashidx d = -1 /\ ht_used (ht0 d) <= size /\
    2 ^ k <> ht_size (ht0 d)) as Hiff by (split; [|done]; intros _; split_and!; [done|lia|done]).
  destruct H0 as [E0|Hw0].
  - rewrite E0 in *. simpl.
    assert (entries (set_ht d false n) = entries d) as He.
    { unfold entries. simpl. by rewrite Hn, E0. }
    split_and!; try done. apply (dict_wf_perm d); [done|by rewrite <- He| |done].
    intros _. simpl. auto.
  - destruct (ht_wf_table _ Hw0) as (b & t & Et). rewrite Et. simpl.
    assert (entries (set_rehashidx (set_ht d true n) 0) = entries d) as He.
    { unfold entries. simpl. by rewrite Hn, H1. }
    split_and!; try done. apply (dict_wf_perm d); [done|by rewrite <- He|done|].
    intros _. simpl. split_and!; try done. lia.
Qed.

Lemma used_bound d : dict_wf d -> 0 <= ht_used (ht0 d) < 2 ^ 62 /\ 0 <= ht_used (ht1 d) < 2 ^ 62 /\
  ht_used (ht0 d) + ht_used (ht1 d) = zlen (entries d).
Proof.
  intros Hw. pose proof (dw_fits _ Hw) as Hf. unfold entries in *. rewrite zlen_app in *.
  pose proof (zlen_nonneg (concat (ht_table (ht0 d)))).
  pose proof (zlen_nonneg (concat (ht_table (ht1 d)))).
  assert (ht_used (ht0 d) = zlen (concat (ht_table (ht0 d))) /\
          ht_used (ht1 d) = zlen (concat (ht_table (ht1 d)))) as [-> ->]; [|lia].
  destruct (Z.eq_dec (rehashidx d) (-1)) as [E|E].
  - destruct (dw_idle _ Hw E) as [-> [->|Hw0]]; [done|]. split; [by apply hw_used|done].
  - destruct (dw_busy _ Hw E) as (? & ? & _). by split; apply hw_used.
Qed.

(** After [_dictExpandIfNeeded] there is a table to work in. *)
Definition dict_ready (d : dict) : Prop := ht_wf (ht0 d).

Lemma expandIfNeeded_spec can_resize d :
  dict_wf d ->
  let d' := fst (_dictExpandIfNeeded can_resize d) in
  dict_wf d' /\ entries d' = entries d /\ iterators d' = iterators d /\
  snd (_dictExpandIfNeeded can_resize d) = DICT_OK /\ dict_ready d'.
Proof.
  intros Hw. unfold _dictExpandIfNeeded, dict_ready. destruct (dictIsRehashing d) eqn:Hb.
  { apply dictIsRehashing_true in Hb. split_and!; try done. by apply dw_busy. }
  apply dictIsRehashing_false in Hb. destruct (used_bound d Hw) as ((Hu & Hu') & _).
  destruct (dw_idle _ Hw Hb) as (_ & [E0|Hw0]).
  - rewrite E0. simpl ht_size. rewrite Z.eqb_refl.
    destruct (dictExpand_spec d DICT_HT_INITIAL_SIZE Hw) as (? & ? & ? & Hiff & Hok); [done|].
    assert (snd (dictExpand d DICT_HT_INITIAL_SIZE) = DICT_OK) as E; [|split_and!; auto].
    apply Hiff. by rewrite E0.
  - destruct (hw_pow _ Hw0) as (k & Hk & Ek).
    assert (0 < 2 ^ k) by (apply Z.pow_pos_nonneg; lia).
    rewrite (proj2 (Z.eqb_neq _ 0)) by lia. rewrite Z.geb_leb.
    destruct (Z.leb_spec (ht_size (ht0 d)) (ht_used (ht0 d))); simpl; [|done].
    destruct (can_resize || _); [|done]. rewrite uwrap_small by (unfold in_u; lia).
    destruct (dictExpand_spec d (ht_used (ht0 d) * 2) Hw) as (? & ? & ? & Hiff & Hok); [lia|].
    assert (snd (dictExpand d (ht_used (ht0 d) * 2)) = DICT_OK) as E; [|split_and!; auto].
    apply Hiff. split_and!; [done|lia|].
    destruct (nextPower_spec (ht_used (ht0 d) * 2)) as (j & _ & -> & ?); lia.
Qed.

(** ** Search, insertion, deletion *)

(** The pointer [r] of [d] is valid and points to [e]. *)
Definition points_to (d : dict) (r : entry_ref) (e : dictEntry) : Prop :=
  exists b, bucket (the_ht d (r_table r)) (r_idx r) = Some b /\ b !! r_pos r = Some e /\
    0 <= r_idx r /\ ht_wf (the_ht d (r_table r)) /\
    Z.land (dictHashKey (e_key e)) (ht_sizemask (the_ht d (r_table r))) = r_idx r.

Lemma entries_the_ht (d : dict) t : exists l, entries d ≡ₚ concat (ht_table (the_ht d t)) ++ l /\
  forall h, entries (set_ht d t h) ≡ₚ concat (ht_table h) ++ l.
Proof.
  destruct t; simpl.
  - exists (concat (ht_table (ht0 d))). unfold entries. simpl.
    split; [|intros h]; apply Permutation_app_comm.
  - by exists (concat (ht_table (ht1 d))).
Qed.

(** Replacing the chain of one bucket replaces those entries. *)
Lemma entries_set_bucket (d : dict) t idx b :
  bucket (the_ht d t) idx = Some b ->
  exists l, entries d ≡ₚ b ++ l /\
    forall b' u, entries (set_ht d t (set_used (set_bucket (the_ht d t) idx b') u)) ≡ₚ b' ++ l.
Proof.
  intros Hb. unfold bucket in Hb. destruct (concat_lookup _ _ _ Hb) as [P1 P2].
  destruct (entries_the_ht d t) as (l & E1 & E2).
  exists (concat (delete (Z.to_nat idx) (ht_table (the_ht d t))) ++ l). split.
  - by rewrite E1, P1, app_assoc.
  - intros b' u. rewrite E2. simpl. rewrite (P2 b'). by rewrite app_assoc.
Qed.

Lemma dict_wf_set_ht (d : dict) t idx b b' u :
  dict_wf d -> ht_wf (the_ht d t) -> 0 <= idx ->
  (t = true -> rehashidx d <> -1) ->
  (t = false -> rehashidx d <> -1 -> idx < rehashidx d -> b' = []) ->
  bucket (the_ht d t) idx = Some b ->
  (forall e, e ∈ b' -> Z.land (dictHashKey (e_key e)) (ht_sizemask (the_ht d t)) = idx) ->
  u = ht_used (the_ht d t) - zlen b + zlen b' ->
  let d' := set_ht d t (set_used (set_bucket (the_ht d t) idx b') u) in
  NoDup (e_key <$> entries d') -> zlen (entries d') < 2 ^ 62 -> dict_wf d'.
Proof.
  intros Hw Hwt Hidx Ht Hlow Hb Hb' Hu d' Hnd Hfit. subst d'.
  pose proof (ht_wf_update _ _ _ _ _ Hwt Hidx Hb Hb' Hu) as Hwt'.
  constructor; [done|done| |]; destruct t; simpl in *.
  - intros E. by apply Ht in E.
  - intros E. destruct (dw_idle _ Hw E) as [-> _]. auto.
  - intros E. destruct (dw_busy _ Hw E) as (? & ? & ? & ?). auto.
  - intros E. destruct (dw_busy _ Hw E) as (? & ? & ? & Hl). split_and!; try done.
    intros i c Hi. rewrite list_lookup_insert_Some. intros [(<- & <- & _)|[_ Hc]]; [|by eapply Hl].
    apply Hlow; [done|done|lia].
Qed.

Lemma chain_find_Some k b p e :
  chain_find k b = Some (p, e) -> b !! p = Some e /\ e_key e = k.
Proof. unfold chain_find. intros (? & ? & _)%list_find_Some. auto. Qed.

Lemma chain_find_None k b : chain_find k b = None -> forall e, e ∈ b -> e_key e <> k.
Proof.
  unfold chain_find. intros Hf%list_find_None e He E. rewrite Forall_forall in Hf.
  by apply (Hf e He).
Qed.

(** A key that is in no searched bucket is in no table. *)
Lemma not_in_bucket h k b :
  ht_wf h -> bucket h (Z.land (dictHashKey k) (ht_sizemask h)) = Some b ->
  (forall e, e ∈ b -> e_key e <> k) -> forall e, e ∈ concat (ht_table h) -> e_key e <> k.
Proof.
  intros Hw Hb Hn e He <-. destruct (wf_mem_bucket h e Hw He) as (b' & Hb' & He').
  rewrite Hb in Hb'. injection Hb' as ->. by apply (Hn e).
Qed.

Lemma table_search_spec d k :
  dict_wf d -> dict_ready d ->
  exists r, table_search d k (dictHashKey k) = Some r /\
    match r with
    | inl (ref, e) => e_key e = k /\ points_to d ref e /\ (r_table ref = true -> rehashidx d <> -1)
    | inr idx => (forall e, e ∈ entries d -> e_key e <> k) /\
        idx = Z.land (dictHashKey k) (ht_sizemask (the_ht d (dictIsRehashing d)))
    end.
Proof.
  intros Hw H0. unfold table_search.
  destruct (bucket_exists (ht0 d) (dictHashKey k) H0) as [b0 Hb0]. rewrite Hb0. simpl.
  pose proof (mask_range (ht0 d) (dictHashKey k) H0) as Hm0.
  destruct (chain_find k b0) as [[p e]|] eqn:E0.
  { apply chain_find_Some in E0 as [Hp <-]. eexists. split; [done|]. simpl.
    split_and!; try done. exists b0. simpl. split_and!; try done; lia. }
  pose proof (not_in_bucket _ _ _ H0 Hb0 (chain_find_None _ _ E0)) as Hn0.
  destruct (dictIsRehashing d) eqn:Hr; simpl.
  - apply dictIsRehashing_true in Hr. destruct (dw_busy _ Hw Hr) as (_ & H1 & _).
    destruct (bucket_exists (ht1 d) (dictHashKey k) H1) as [b1 Hb1]. rewrite Hb1. simpl.
    pose proof (mask_range (ht1 d) (dictHashKey k) H1) as Hm1.
    destruct (chain_find k b1) as [[p e]|] eqn:E1.
    { apply chain_find_Some in E1 as [Hp <-]. eexists. split; [done|]. simpl.
      split_and!; try done. exists b1. simpl. split_and!; try done; lia. }
    pose proof (not_in_bucket _ _ _ H1 Hb1 (chain_find_None _ _ E1)) as Hn1.
    eexists. split; [done|]. simpl. split; [|done].
    unfold entries. intros e [He|He]%elem_of_app; auto.
  - apply dictIsRehashing_false in Hr. destruct (dw_idle _ Hw Hr) as [E1 _].
    eexists. split; [done|]. simpl. split; [|done].
    unfold entries. rewrite E1. simpl. intros e. rewrite app_nil_r. auto.
Qed.

Lemma points_to_entry d r e : points_to d r e -> e ∈ entries d.
Proof.
  intros (b & Hb & Hp & _). destruct (entries_set_bucket d _ _ _ Hb) as (l & -> & _).
  apply elem_of_app. left. by eapply list_elem_of_lookup_2.
Qed.

(** [dictAddRaw] on a new key links a fresh entry and returns its place. *)
Lemma dictAddRaw_new can_resize d k :
  dict_wf d -> (forall e, e ∈ entries d -> e_key e <> k) -> zlen (entries d) + 1 < 2 ^ 62 ->
  exists d' r, dictAddRaw can_resize d k = Some (d', inr r) /\ dict_wf d' /\
    entries d' ≡ₚ mk_entry k None :: entries d /\ points_to d' r (mk_entry k None) /\
    iterators d' = iterators d /\ (r_table r = true -> rehashidx d' <> -1).
Proof.
  intros Hw Hk Hfit. unfold dictAddRaw, _dictKeyIndex.
  destruct (rehash_step_if_spec d Hw) as (d1 & -> & Hw1 & P1 & I1). simpl.
  destruct (expandIfNeeded_spec can_resize d1 Hw1) as (Hw2 & E2 & I2 & S2 & R2).
  destruct (_dictExpandIfNeeded can_resize d1) as [d2 st]. simpl in *. subst st.
  destruct (table_search_spec d2 k Hw2 R2) as ([[ref e]|idx] & -> & Hr); simpl.
  { destruct Hr as (Hke & Hpt & _). exfalso. apply (Hk e); [|done].
    apply points_to_entry in Hpt. rewrite E2 in Hpt. by rewrite P1 in Hpt. }
  destruct Hr as [Hn ->]. set (t := dictIsRehashing d2) in *.
  assert (ht_wf (the_ht d2 t)) as Hwt.
  { subst t. destruct (dictIsRehashing d2) eqn:Hb; simpl; [|done].
    apply dictIsRehashing_true in Hb. by apply dw_busy. }
  assert (t = true -> rehashidx d2 <> -1) as Htr by (subst t; apply dictIsRehashing_true).
  destruct (bucket_exists (the_ht d2 t) (dictHashKey k) Hwt) as [b Hb]. rewrite Hb. simpl.
  pose proof (mask_range _ (dictHashKey k) Hwt) as Hm.
  set (idx := Z.land _ _) in *.
  assert (0 <= ht_used (the_ht d2 t) < 2 ^ 62) as Hu by (destruct t; apply used_bound; done).
  rewrite uwrap_small by width_lia.
  destruct (entries_set_bucket d2 t idx b Hb) as (l & Ea & Eb).
  specialize (Eb (mk_entry k None :: b) (ht_used (the_ht d2 t) + 1)).
  set (d3 := set_ht d2 t _) in *.
  assert (entries d3 ≡ₚ mk_entry k None :: entries d) as P3.
  { rewrite Eb. simpl. f_equiv. by rewrite <- Ea, E2, P1. }
  exists d3, (mk_ref t idx 0). split_and!; [done| |done| | |].
  - eapply dict_wf_set_ht; try done; try lia.
    + subst t. intros Ef Hne. by apply dictIsRehashing_true in Hne; rewrite Hne in Ef.
    + intros e' [->|He']%elem_of_cons; [done|]. unfold bucket in Hb.
      rewrite (hw_hash _ Hwt _ _ _ Hb He'). lia.
    + rewrite zlen_cons. lia.
    + fold d3. rewrite P3. simpl. apply NoDup_cons. split; [|apply Hw].
      intros (e & Ek & He)%list_elem_of_fmap. by apply (Hk e).
    + fold d3. rewrite (zlen_perm _ _ P3), zlen_cons. lia.
  - exists (mk_entry k None :: b). subst d3. unfold bucket in *. destruct t; simpl in *;
      rewrite list_lookup_insert_eq by (by eapply lookup_lt_Some); (split_and!; [done|done|lia| |done]).
    all: eapply ht_wf_update; [done|lia|done| |rewrite zlen_cons; lia].
    all: intros e' [->|He']%elem_of_cons; [done|]; unfold bucket in Hb;
      rewrite (hw_hash _ Hwt _ _ _ Hb He'); lia.
  - subst d3. destruct t; simpl; congruence.
  - subst d3. simpl. destruct t; simpl; auto.
Qed.

(** [dictAddRaw] on a key that is present returns where it is. *)
Lemma dictAddRaw_old can_resize d k e :
  dict_wf d -> e ∈ entries d -> e_key e = k ->
  exists d' r, dictAddRaw can_resize d k = Some (d', inl (Some r)) /\ dict_wf d' /\
    entries d' ≡ₚ entries d /\ points_to d' r e /\
    iterators d' = iterators d /\ (r_table r = true -> rehashidx d' <> -1).
Proof.
  intros Hw He Hk. unfold dictAddRaw, _dictKeyIndex.
  destruct (rehash_step_if_spec d Hw) as (d1 & -> & Hw1 & P1 & I1). simpl.
  destruct (expandIfNeeded_spec can_resize d1 Hw1) as (Hw2 & E2 & I2 & S2 & R2).
  destruct (_dictExpandIfNeeded can_resize d1) as [d2 st]. simpl in *. subst st.
  destruct (table_search_spec d2 k Hw2 R2) as ([[ref e']|idx] & -> & Hr); simpl.
  - destruct Hr as (Hke & Hpt & Ht). exists d2, ref.
    assert (e' = e) as ->; [|split_and!; try done; [by rewrite E2|congruence]].
    apply points_to_entry in Hpt as He'. rewrite E2, P1 in He'.
    pose proof (dw_keys _ Hw) as Hnd. apply list_elem_of_lookup in He as [i Hi].
    apply list_elem_of_lookup in He' as [j Hj].
    assert (i = j) as ->; [|congruence]. eapply NoDup_lookup; [exact Hnd| |].
    + rewrite list_lookup_fmap, Hi. simpl. by rewrite Hk.
    + rewrite list_lookup_fmap, Hj. simpl. by rewrite Hke.
  - destruct Hr as [Hn _]. exfalso. apply (Hn e); [|done]. by rewrite E2, P1.
Qed.

Lemma insert_delete_perm {A} (l : list A) i x :
  (i < length l)%nat -> <[i:=x]> l ≡ₚ x :: delete i l.
Proof.
  revert i. induction l as [|y l IH]; intros [|i] Hi; simpl in *; try lia; [done|].
  rewrite IH by lia. apply Permutation_swap.
Qed.

(** Writing through a valid pointer changes the value of that entry only. *)
Lemma dictSetVal_spec d r e v :
  dict_wf d -> points_to d r e -> (r_table r = true -> rehashidx d <> -1) ->
  exists d' l, dictSetVal d r v = Some d' /\ dict_wf d' /\ iterators d' = iterators d /\
    entries d ≡ₚ e :: l /\ entries d' ≡ₚ mk_entry (e_key e) (Some v) :: l.
Proof.
  intros Hw (b & Hb & Hp & Hidx & Hwt & Hh) Ht. unfold dictSetVal. rewrite Hb.
  cbn [mbind option_bind]. rewrite Hp. cbn [mbind option_bind].
  destruct (entries_set_bucket d (r_table r) (r_idx r) b Hb) as (l & Ea & Eb).
  set (e' := mk_entry (e_key e) (Some v)).
  pose proof (delete_Permutation b (r_pos r) e Hp) as P0.
  pose proof (insert_delete_perm b (r_pos r) e' (lookup_lt_Some _ _ _ Hp)) as P1.
  specialize (Eb (<[r_pos r:=e']> b) (ht_used (the_ht d (r_table r)))).
  set (d' := set_ht d (r_table r) (set_used _ _)) in Eb.
  assert (set_ht d (r_table r) (set_bucket (the_ht d (r_table r)) (r_idx r) (<[r_pos r:=e']> b)) = d')
    as -> by (subst d'; by destruct r as [[] ? ?]).
  exists d', (delete (r_pos r) b ++ l).
  assert (entries d ≡ₚ e :: delete (r_pos r) b ++ l) as Q1
    by (rewrite Ea; exact (Permutation_app_tail l P0)).
  assert (entries d' ≡ₚ e' :: delete (r_pos r) b ++ l) as Q2 by (by rewrite Eb, P1).
  assert (e_key <$> entries d' ≡ₚ e_key <$> entries d) as Qk by (by rewrite Q1, Q2).
  split_and!; [done| |subst d'; by destruct r as [[] ? ?]|done|done].
  eapply (dict_wf_set_ht d (r_table r) (r_idx r) b); try done.
  - intros Ef Hne Hlt. destruct (dw_busy _ Hw Hne) as (_ & _ & _ & Hl). rewrite Ef in *. simpl in *.
    unfold bucket in Hb. assert (b = []) as ->; [|done]. apply (Hl (Z.to_nat (r_idx r))); [lia|done].
  - intros e2 He2. rewrite P1 in He2. apply elem_of_cons in He2 as [->|He2]; [done|].
    unfold bucket in Hb. rewrite (hw_hash _ Hwt _ _ e2 Hb); [lia|]. rewrite P0. by right.
  - unfold zlen. rewrite length_insert. lia.
  - fold d'. rewrite Qk. apply Hw.
  - fold d'. rewrite (zlen_perm _ _ Q2). rewrite zlen_cons. pose proof (dw_fits _ Hw) as Hf.
    rewrite (zlen_perm _ _ Q1), zlen_cons in Hf. done.
Qed.

Lemma dict_ready_nonempty d : dict_wf d -> entries d <> [] -> dict_ready d.
Proof.
  intros Hw Hne. unfold dict_ready. destruct (Z.eq_dec (rehashidx d) (-1)) as [E|E].
  - destruct (dw_idle _ Hw E) as [E1 [E0|]]; [|done]. exfalso. apply Hne.
    unfold entries. by rewrite E0, E1.
  - by apply dw_busy.
Qed.

Lemma used_of_bucket h idx b e : ht_wf h -> bucket h idx = Some b -> e ∈ b -> 0 < ht_used h.
Proof.
  intros Hw Hb He. apply (bucket_mem _ _ _ _ Hb) in He. rewrite (hw_used _ Hw).
  destruct (concat (ht_table h)); [by apply elem_of_nil in He|]. rewrite zlen_cons.
  pose proof (zlen_nonneg l). lia.
Qed.

Lemma dictGenericDelete_spec d k :
  dict_wf d ->
  exists d' r, dictGenericDelete d k = Some (d', r) /\ dict_wf d' /\ iterators d' = iterators d /\
    match r with
    | Some e => e_key e = k /\ entries d ≡ₚ e :: entries d'
    | None => (forall e, e ∈ entries d -> e_key e <> k) /\ entries d' ≡ₚ entries d
    end.
Proof.
  intros Hw. unfold dictGenericDelete. destruct (used_bound d Hw) as (Hu0 & Hu1 & Hu).
  destruct ((ht_used (ht0 d) =? 0) && (ht_used (ht1 d) =? 0)) eqn:Hz.
  { assert (entries d = []) as E by (apply length_zero_iff_nil; unfold zlen in *; lia).
    exists d, None. rewrite E. split_and!; try done. by intros e ?%elem_of_nil. }
  destruct (rehash_step_if_spec d Hw) as (d1 & -> & Hw1 & P1 & I1). simpl.
  assert (entries d1 <> []) as Hne1
    by (intros E; rewrite E in P1; apply zlen_perm in P1; rewrite zlen_nil in P1; lia).
  destruct (table_search_spec d1 k Hw1 (dict_ready_nonempty d1 Hw1 Hne1)) as (r & -> & Hr). simpl.
  destruct r as [[ref e]|idx].
  2:{ exists d1, None. destruct Hr as [Hr _]. split_and!; try done.
      intros e He. apply Hr. by rewrite P1. }
  destruct Hr as (Hk & (b & Hb & Hp & Hidx & Hwt & Hh) & Ht). rewrite Hb. simpl.
  destruct (entries_set_bucket d1 (r_table ref) (r_idx ref) b Hb) as (l & Ea & Eb).
  pose proof (delete_Permutation b (r_pos ref) e Hp) as P0.
  pose proof (used_of_bucket _ _ _ _ Hwt Hb (list_elem_of_lookup_2 _ _ _ Hp)) as Hpos.
  assert (ht_used (the_ht d1 (r_table ref)) < 2 ^ 62) as Hut
    by (destruct (r_table ref); apply used_bound; done).
  rewrite uwrap_small by width_lia.
  specialize (Eb (delete (r_pos ref) b) (ht_used (the_ht d1 (r_table ref)) - 1)).
  set (d2 := set_ht d1 _ _) in *.
  assert (entries d ≡ₚ e :: entries d2) as P2
    by (rewrite Eb, <- P1, Ea; exact (Permutation_app_tail l P0)).
  exists d2, (Some e). split_and!; [done| |subst d2; by destruct ref as [[] ? ?]|done|done].
  eapply (dict_wf_set_ht d1 (r_table ref) (r_idx ref) b); try done.
  - intros Ef Hne Hlt. destruct (dw_busy _ Hw1 Hne) as (_ & _ & _ & Hl). rewrite Ef in *. simpl in *.
    unfold bucket in Hb. assert (b = []) as ->; [|done]. apply (Hl (Z.to_nat (r_idx ref))); [lia|done].
  - intros e2 He2. unfold bucket in Hb. rewrite (hw_hash _ Hwt _ _ e2 Hb); [lia|]. rewrite P0. by right.
  - rewrite (zlen_perm _ _ P0), zlen_cons. lia.
  - fold d2. pose proof (dw_keys _ Hw) as Hnd. rewrite P2, fmap_cons, NoDup_cons in Hnd. apply Hnd.
  - fold d2. pose proof (dw_fits _ Hw) as Hf. rewrite (zlen_perm _ _ P2), zlen_cons in Hf. lia.
Qed.

Lemma dictFind_spec d k :
  dict_wf d ->
  exists d' r, dictFind d k = Some (d', r) /\ dict_wf d' /\ iterators d' = iterators d /\
    entries d' ≡ₚ entries d /\
    match r with
    | Some e => e_key e = k /\ e ∈ entries d
    | None => forall e, e ∈ entries d -> e_key e <> k
    end.
Proof.
  intros Hw. unfold dictFind. destruct (used_bound d Hw) as (Hu0 & Hu1 & Hu).
  rewrite uwrap_small by width_lia. rewrite Hu.
  destruct (Z.eqb_spec (zlen (entries d)) 0) as [E|NE].
  { assert (entries d = []) as E' by (apply length_zero_iff_nil; unfold zlen in *; lia).
    exists d, None. rewrite E'. split_and!; try done. by intros e ?%elem_of_nil. }
  destruct (rehash_step_if_spec d Hw) as (d1 & -> & Hw1 & P1 & I1). simpl.
  assert (entries d1 <> []) as Hne1
    by (intros E; rewrite E in P1; apply zlen_perm in P1; rewrite zlen_nil in P1; lia).
  destruct (table_search_spec d1 k Hw1 (dict_ready_nonempty d1 Hw1 Hne1)) as (r & -> & Hr). simpl.
  exists d1. destruct r as [[ref e]|idx]; eexists; (split; [done|]).
  - destruct Hr as (Hk & Hpt & _). split_and!; try done. rewrite <- P1. by eapply points_to_entry.
  - destruct Hr as [Hr _]. split_and!; try done. intros e He. apply Hr. by rewrite P1.
Qed.

(** ** The map a dictionary represents *)

Definition dict_rep (d : dict) (m : gmap K V) : Prop :=
  dict_wf d /\ forall e, e ∈ entries d <-> exists v, e_val e = Some v /\ m !! e_key e = Some v.

Lemma dict_rep_perm d d' m : dict_wf d' -> entries d' ≡ₚ entries d -> dict_rep d m -> dict_rep d' m.
Proof. intros Hw Hp [_ Hm]. split; [done|]. intros e. by rewrite Hp. Qed.

Lemma dict_rep_None d m k :
  dict_rep d m -> m !! k = None <-> forall e, e ∈ entries d -> e_key e <> k.
Proof.
  intros [Hw Hm]. split.
  - intros Hk e (v & _ & Hv)%Hm <-. congruence.
  - intros Hk. apply eq_None_not_Some. intros [v Hv].
    apply (Hk (mk_entry k (Some v))); [|done]. apply Hm. by exists v.
Qed.

Lemma dict_rep_Some d m e :
  dict_rep d m -> e ∈ entries d -> exists v, e_val e = Some v /\ m !! e_key e = Some v.
Proof. intros [_ Hm] He. by apply Hm. Qed.

(** The entries and the map have the same number of elements. *)
Lemma dict_rep_size d m : dict_rep d m -> zlen (entries d) = Z.of_nat (base.size m).
Proof.
  intros [Hw Hm]. unfold zlen. f_equal.
  assert (dom m = list_to_set (e_key <$> entries d)) as E.
  { apply set_eq. intros k. rewrite elem_of_dom, elem_of_list_to_set, list_elem_of_fmap. split.
    - intros [v Hv]. exists (mk_entry k (Some v)). split; [done|]. apply Hm. by exists v.
    - intros (e & -> & (v & _ & Hv)%Hm). by exists v. }
  rewrite <- size_dom, E, size_list_to_set by apply Hw. by rewrite length_fmap.
Qed.

Lemma dict_rep_unique d m e e' :
  dict_rep d m -> e ∈ entries d -> e' ∈ entries d -> e_key e = e_key e' -> e = e'.
Proof.
  intros [_ Hm] (v & Ev & Hv)%Hm (v' & Ev' & Hv')%Hm Hk. destruct e, e'; simpl in *.
  rewrite Hk in Hv. congruence.
Qed.

(** Storing a value through the entry of [k] is a map insertion. *)
Lemma dict_rep_insert d d' l k v m o :
  dict_wf d' -> entries d' ≡ₚ mk_entry k (Some v) :: l ->
  entries d ≡ₚ mk_entry k o :: l -> NoDup (e_key <$> entries d) ->
  (forall e, e ∈ l <-> e_key e <> k /\ exists v, e_val e = Some v /\ m !! e_key e = Some v) ->
  dict_rep d' (<[k:=v]> m).
Proof.
  intros Hw P' P Hnd Hl. split; [done|]. intros e. rewrite P', elem_of_cons, Hl. split.
  - intros [->|[Hne (w & Hw' & Hmw)]]; simpl.
    + exists v. by rewrite lookup_insert_eq.
    + exists w. by rewrite lookup_insert_ne by done.
  - intros (w & Hew & Hmw). destruct (decide (e_key e = k)) as [Ek|Hne].
    + left. rewrite Ek, lookup_insert_eq in Hmw. destruct e; simpl in *; congruence.
    + right. rewrite lookup_insert_ne in Hmw by done. eauto.
Qed.

Lemma dictAdd_rep cr d m k v :
  dict_rep d m -> zlen (entries d) + 1 < 2 ^ 62 ->
  exists d', dictAdd cr d k v = Some (d', if m !! k is Some _ then DICT_ERR else DICT_OK) /\
    dict_rep d' (if m !! k is Some _ then m else <[k:=v]> m) /\ iterators d' = iterators d.
Proof.
  intros Hr Hfit. pose proof Hr as [Hw Hm]. unfold dictAdd. destruct (m !! k) as [w|] eqn:Hk.
  - assert (mk_entry k (Some w) ∈ entries d) as He by (apply Hm; by exists w).
    destruct (dictAddRaw_old cr d k _ Hw He eq_refl) as (d' & r & -> & Hw' & P & _ & I & _).
    simpl. exists d'. split_and!; [done| |done]. by eapply dict_rep_perm.
  - pose proof (proj1 (dict_rep_None d m k Hr) Hk) as Hn.
    destruct (dictAddRaw_new cr d k Hw Hn Hfit) as (d1 & r & -> & Hw1 & P1 & Hpt & I1 & Ht).
    simpl. destruct (dictSetVal_spec d1 r _ v Hw1 Hpt Ht) as (d2 & l & -> & Hw2 & I2 & Pa & Pb).
    simpl in *. exists d2. split_and!; [done| |congruence].
    eapply (dict_rep_insert d1); [done|exact Pb|exact Pa|apply Hw1|].
    rewrite P1 in Pa. apply Permutation_cons_inv in Pa. intros e. rewrite <- Pa, Hm. split.
    + intros (w & ? & Hw'). split; [|eauto]. intros Ek. congruence.
    + intros [_ ?]. done.
Qed.

Lemma dictReplace_rep cr d m k v :
  dict_rep d m -> zlen (entries d) + 1 < 2 ^ 62 ->
  exists d', dictReplace cr d k v = Some (d', if m !! k is Some _ then false else true) /\
    dict_rep d' (<[k:=v]> m) /\ iterators d' = iterators d.
Proof.
  intros Hr Hfit. pose proof Hr as [Hw Hm]. unfold dictReplace. destruct (m !! k) as [w|] eqn:Hk.
  - assert (mk_entry k (Some w) ∈ entries d) as He by (apply Hm; by exists w).
    destruct (dictAddRaw_old cr d k _ Hw He eq_refl) as (d1 & r & -> & Hw1 & P & Hpt & I & Ht).
    simpl. destruct (dictSetVal_spec d1 r _ v Hw1 Hpt Ht) as (d2 & l & -> & Hw2 & I2 & Pa & Pb).
    simpl in *. exists d2. split_and!; [done| |congruence].
    eapply (dict_rep_insert d1); [done|exact Pb|exact Pa|apply Hw1|].
    intros e. pose proof (dw_keys _ Hw1) as Hnd. rewrite Pa, fmap_cons, NoDup_cons in Hnd.
    destruct Hnd as [Hnk _]. rewrite <- Hm, <- P, Pa, elem_of_cons. split.
    + intros He'. split; [|by right]. intros <-. apply Hnk. apply list_elem_of_fmap. by exists e.
    + by intros [Hne [->|?]].
  - pose proof (proj1 (dict_rep_None d m k Hr) Hk) as Hn.
    destruct (dictAddRaw_new cr d k Hw Hn Hfit) as (d1 & r & -> & Hw1 & P1 & Hpt & I1 & Ht).
    simpl. destruct (dictSetVal_spec d1 r _ v Hw1 Hpt Ht) as (d2 & l & -> & Hw2 & I2 & Pa & Pb).
    simpl in *. exists d2. split_and!; [done| |congruence].
    eapply (dict_rep_insert d1); [done|exact Pb|exact Pa|apply Hw1|].
    rewrite P1 in Pa. apply Permutation_cons_inv in Pa. intros e. rewrite <- Pa, Hm. split.
    + intros (w & ? & Hw'). split; [|eauto]. intros Ek. congruence.
    + intros [_ ?]. done.
Qed.

Lemma dictDelete_rep d m k :
  dict_rep d m ->
  exists d', dictDelete d k = Some (d', if m !! k is Some _ then DICT_OK else DICT_ERR) /\
    dict_rep d' (delete k m) /\ iterators d' = iterators d.
Proof.
  intros Hr. pose proof Hr as [Hw Hm]. unfold dictDelete.
  destruct (dictGenericDelete_spec d k Hw) as (d' & [e|] & -> & Hw' & I & Hres); simpl.
  - destruct Hres as [<- P].
    assert (e ∈ entries d) as He by (rewrite P; by left).
    destruct (dict_rep_Some _ _ _ Hr He) as (v & Hv & Hmv). rewrite Hmv.
    exists d'. split_and!; [done| |done]. split; [done|]. intros e'.
    pose proof (dw_keys _ Hw) as Hnd. rewrite P, fmap_cons, NoDup_cons in Hnd.
    destruct Hnd as [Hnk _]. split.
    + intros He'. destruct (dict_rep_Some d m e' Hr) as (w & ? & ?); [rewrite P; by right|].
      exists w. split; [done|]. rewrite lookup_delete_ne; [done|]. intros E. apply Hnk. rewrite E.
      apply list_elem_of_fmap; eauto.
    + intros (w & Hw1 & [Hne Hw2]%lookup_delete_Some).
      assert (e' ∈ entries d) as He' by (apply Hm; eauto). rewrite P in He'.
      by apply elem_of_cons in He' as [->|?].
  - destruct Hres as [Hn P]. assert (m !! k = None) as Hk by (by apply (dict_rep_None d m k)).
    rewrite Hk. exists d'. split_and!; [done| |done].
    rewrite delete_id by done. by eapply dict_rep_perm.
Qed.

Lemma dictFetchValue_rep d m k :
  dict_rep d m ->
  exists d', dictFetchValue d k = Some (d', m !! k) /\ dict_rep d' m /\ iterators d' = iterators d.
Proof.
  intros Hr. pose proof Hr as [Hw Hm]. unfold dictFetchValue.
  destruct (dictFind_spec d k Hw) as (d' & [e|] & -> & Hw' & I & P & Hres); simpl; exists d'.
  - destruct Hres as [<- He]. destruct (dict_rep_Some _ _ _ Hr He) as (v & Hv & Hmv).
    rewrite Hv, Hmv. split_and!; [done| |done]. by eapply dict_rep_perm.
  - rewrite (proj2 (dict_rep_None d m k Hr) Hres). split_and!; [done| |done].
    by eapply dict_rep_perm.
Qed.

(** ** Operation sequences *)

Inductive dict_op :=
  | OpDictAdd (k : K) (v : V)
  | OpDictReplace (k : K) (v : V)
  | OpDictDelete (k : K)
  | OpDictFetch (k : K)
  | OpDictRehash (n : Z)
  | OpDictResize.

Inductive dict_answer := AnsStatus (s : dict_status) | AnsNew (b : bool) | AnsValue (o : option V) | AnsNone.

(** Every call comes with the value of [dict_can_resize] at that time. *)
Definition dict_step (d : dict) (o : bool * dict_op) : option (dict * dict_answer) :=
  let '(cr, o) := o in
  match o with
  | OpDictAdd k v => '(d, s) ← dictAdd cr d k v; Some (d, AnsStatus s)
  | OpDictReplace k v => '(d, b) ← dictReplace cr d k v; Some (d, AnsNew b)
  | OpDictDelete k => '(d, s) ← dictDelete d k; Some (d, AnsStatus s)
  | OpDictFetch k => '(d, o) ← dictFetchValue d k; Some (d, AnsValue o)
  | OpDictRehash n => '(d, _) ← dictRehash d n; Some (d, AnsNone)
  | OpDictResize => Some (fst (dictResize cr d), AnsNone)
  end.

Fixpoint dict_run (d : dict) (os : list (bool * dict_op)) : option (dict * list dict_answer) :=
  match os with
  | [] => Some (d, [])
  | o :: os => '(d, a) ← dict_step d o; '(d, l) ← dict_run d os; Some (d, a :: l)
  end.

Definition map_step (m : gmap K V) (o : bool * dict_op) : gmap K V * dict_answer :=
  match snd o with
  | OpDictAdd k v =>
    (if m !! k is Some _ then m else <[k:=v]> m,
     AnsStatus (if m !! k is Some _ then DICT_ERR else DICT_OK))
  | OpDictReplace k v => (<[k:=v]> m, AnsNew (if m !! k is Some _ then false else true))
  | OpDictDelete k => (delete k m, AnsStatus (if m !! k is Some _ then DICT_OK else DICT_ERR))
  | OpDictFetch k => (m, AnsValue (m !! k))
  | OpDictRehash _ | OpDictResize => (m, AnsNone)
  end.

Fixpoint map_run (m : gmap K V) (os : list (bool * dict_op)) : gmap K V * list dict_answer :=
  match os with
  | [] => (m, [])
  | o :: os => let '(m1, a) := map_step m o in let '(m2, l) := map_run m1 os in (m2, a :: l)
  end.

Definition op_ok (o : bool * dict_op) : Prop :=
  match snd o with OpDictRehash n => 1 <= n | _ => True end.

Lemma map_step_size m o : (base.size (fst (map_step m o)) <= S (base.size m))%nat.
Proof.
  destruct o as [cr [k v|k v|k|k|n|]]; unfold map_step; simpl; try lia.
  - destruct (m !! k) eqn:E; [lia|]. by rewrite map_size_insert_None.
  - rewrite map_size_insert. case_match; simpl; lia.
  - rewrite map_size_delete. case_match; simpl; lia.
Qed.

Lemma dictResize_rep cr d m : dict_rep d m -> dict_rep (fst (dictResize cr d)) m.
Proof.
  intros Hr. pose proof Hr as [Hw _]. unfold dictResize. destruct (_ || _); [done|].
  pose proof (swrap_range 32 (ht_used (ht0 d)) ltac:(lia)) as Hs.
  set (mn := if _ <? _ then _ else _).
  assert (0 <= mn <= 2 ^ 63) as Hmn
    by (subst mn; unfold DICT_HT_INITIAL_SIZE; case_match; width_lia).
  destruct (dictExpand_spec d mn Hw Hmn) as (Hw' & E & _). eapply dict_rep_perm; [done| |done].
  by rewrite E.
Qed.

Lemma dict_step_rep d m o :
  dict_rep d m -> op_ok o -> Z.of_nat (base.size m) + 1 < 2 ^ 62 ->
  exists d', dict_step d o = Some (d', snd (map_step m o)) /\ dict_rep d' (fst (map_step m o)).
Proof.
  intros Hr Hok Hsz. pose proof (dict_rep_size _ _ Hr) as Hl.
  destruct o as [cr [k v|k v|k|k|n|]]; unfold map_step; cbn [dict_step fst snd].
  - destruct (dictAdd_rep cr d m k v Hr) as (d' & -> & Hr' & _); [lia|]. by exists d'.
  - destruct (dictReplace_rep cr d m k v Hr) as (d' & -> & Hr' & _); [lia|]. by exists d'.
  - destruct (dictDelete_rep d m k Hr) as (d' & -> & Hr' & _). by exists d'.
  - destruct (dictFetchValue_rep d m k Hr) as (d' & -> & Hr' & _). by exists d'.
  - destruct (dictRehash_spec d n (proj1 Hr) Hok) as (d' & more & -> & Hw' & P & _). exists d'.
    split; [done|]. by eapply dict_rep_perm.
  - eexists. split; [done|]. by apply dictResize_rep.
Qed.

Lemma dict_run_rep os d m :
  dict_rep d m -> Forall op_ok os -> Z.of_nat (base.size m) + zlen os < 2 ^ 62 ->
  exists d', dict_run d os = Some (d', snd (map_run m os)) /\ dict_rep d' (fst (map_run m os)).
Proof.
  revert d m. induction os as [|o os IH]; intros d m Hr Hok Hsz; simpl; [by exists d|].
  inversion Hok; subst. rewrite zlen_cons in Hsz. pose proof (zlen_nonneg os).
  destruct (dict_step_rep d m o) as (d1 & -> & Hr1); [done|done|lia|]. simpl.
  pose proof (map_step_size m o). destruct (map_step m o) as [m1 a]. simpl in *.
  destruct (IH d1 m1) as (d2 & -> & Hr2); [done|done|lia|]. simpl.
  destruct (map_run m1 os) as [m2 l]. simpl in *. by exists d2.
Qed.

Lemma dictCreate_rep : dict_rep dictCreate ∅.
Proof.
  split.
  - constructor; simpl; try done; [constructor|]. auto.
  - intros e. split; [by intros ?%elem_of_nil|]. intros (v & _ & Hv). by rewrite lookup_empty in Hv.
Qed.

(** ** Rehashing ends *)

(** The calls [dictRehash(d,n)] that the server makes until nothing is left. *)
Fixpoint rehash_calls (calls : nat) (d : dict) (n : Z) : option (dict * bool) :=
  match calls with
  | O => Some (d, dictIsRehashing d)
  | S calls => '(d, _) ← dictRehash d n; rehash_calls calls d n
  end.

Lemma dictRehash_last d n :
  rehashidx d <> -1 -> ht_used (ht0 d) = 0 -> 1 <= n ->
  dictRehash d n = Some (mk_dict (ht1 d) _dictReset (-1) (iterators d), false).
Proof.
  intros Hr Hu Hn. unfold dictRehash. rewrite (proj2 (dictIsRehashing_true d) Hr). simpl.
  replace (Z.to_nat n) with (S (Z.to_nat (n - 1))) by lia. cbn [dictRehash_loop].
  rewrite Hu. simpl. by rewrite Hu.
Qed.

Lemma rehash_calls_idle calls d n :
  rehashidx d = -1 -> rehash_calls calls d n = Some (d, false).
Proof.
  intros E. assert (dictIsRehashing d = false) as Hb by (by apply dictIsRehashing_false).
  induction calls as [|calls IH]; cbn [rehash_calls]; [by rewrite Hb|].
  unfold dictRehash. rewrite Hb. simpl. done.
Qed.

Lemma rehash_calls_spec calls d n :
  dict_wf d -> 1 <= n -> ht_size (ht0 d) - rehashidx d < Z.of_nat calls -> (0 < calls)%nat ->
  exists d', rehash_calls calls d n = Some (d', false) /\ dict_wf d' /\ rehashidx d' = -1 /\
    entries d' ≡ₚ entries d.
Proof.
  revert d. induction calls as [|calls IH]; intros d Hw Hn Hc H0; [lia|].
  destruct (Z.eq_dec (rehashidx d) (-1)) as [E|NE].
  { exists d. by rewrite rehash_calls_idle. }
  cbn [rehash_calls]. destruct (dictRehash_spec d n Hw Hn) as (d1 & more & Hd & Hw1 & P & _ & Hm).
  rewrite Hd. simpl. destruct more.
  - destruct Hm as (Hr1 & Hlt & Hsz).
    destruct (Z.eq_dec (ht_used (ht0 d)) 0) as [E|Hu].
    { rewrite (dictRehash_last d n NE E Hn) in Hd. congruence. }
    destruct (dw_busy _ Hw NE) as (Hw0 & _ & _ & Hl).
    destruct (nonempty_bucket d Hw0 Hu Hl) as (j & c & Hj & _).
    destruct (IH d1 Hw1 Hn) as (d2 & -> & Hw2 & Hr2 & P2); [lia|lia|].
    exists d2. split_and!; try done. by rewrite P2.
  - exists d1. by rewrite rehash_calls_idle.
Qed.

Lemma clear_loop_spec t used :
  used = zlen (concat t) -> used < 2 ^ 62 -> clear_loop t used = concat t.
Proof.
  revert used. induction t as [|b t IH]; intros used -> Hb; simpl in *; [done|].
  rewrite zlen_app in *. pose proof (zlen_nonneg b). pose proof (zlen_nonneg (concat t)).
  destruct (Z.gtb_spec (zlen b + zlen (concat t)) 0).
  - rewrite uwrap_small by width_lia. rewrite IH; [done|lia|lia].
  - assert (b = []) as -> by (apply length_zero_iff_nil; unfold zlen in *; lia).
    assert (concat t = []) as -> by (apply length_zero_iff_nil; unfold zlen in *; lia). done.
Qed.

Lemma dictEmpty_spec d :
  dict_wf d -> dictEmpty d = (dictCreate, entries d) /\ dictRelease d = entries d.
Proof.
  intros Hw. destruct (used_bound d Hw) as ((? & ?) & (? & ?) & _). unfold dictEmpty, dictRelease, _dictClear.
  assert (ht_used (ht0 d) = zlen (concat (ht_table (ht0 d))) /\
          ht_used (ht1 d) = zlen (concat (ht_table (ht1 d)))) as [E0 E1].
  { destruct (Z.eq_dec (rehashidx d) (-1)) as [E|E].
    - destruct (dw_idle _ Hw E) as [-> [->|Hw0]]; [done|]. split; [by apply hw_used|done].
    - destruct (dw_busy _ Hw E) as (? & ? & _). by split; apply hw_used. }
  simpl. rewrite !clear_loop_spec by (rewrite <- ?E0, <- ?E1; lia). done.
Qed.

End Dict.

(** ** Claims *)

Arguments dict_op : clear implicits.

(** C5: any sequence of [dictAdd], [dictReplace], [dictDelete],
    [dictFetchValue], [dictRehash] and [dictResize] calls, under any hash
    function and any interleaving with the incremental rehashing that the calls
    themselves perform, answers exactly like a finite map; no call reads a
    bucket outside its table or fails the assertion of [dictRehash]. *)
Theorem dict_refines_map {K V} `{Countable K} (hash : K -> Z) (os : list (bool * dict_op K V)) :
  Forall op_ok os -> zlen os < 2 ^ 62 ->
  exists d, dict_run hash dictCreate os = Some (d, snd (map_run ∅ os)) /\
    dict_rep hash d (fst (map_run ∅ os)).
Proof.
  intros Hok Hsz. apply dict_run_rep; [apply dictCreate_rep|done|].
  rewrite map_size_empty. simpl. lia.
Qed.

Definition demo_dict_ops : list (bool * dict_op Z Z) :=
  ((fun i => (true, OpDictAdd (Z.of_nat i) (Z.of_nat i * 7))) <$> seq 0 12) ++
  [(true, OpDictFetch 3); (false, OpDictDelete 5); (true, OpDictReplace 5 1); (true, OpDictAdd 5 2);
   (true, OpDictRehash 2); (true, OpDictDelete 99); (true, OpDictResize); (true, OpDictFetch 5)].

Lemma dict_refines_map_witness :
  exists d, dict_run (fun k => k * 5) dictCreate demo_dict_ops = Some (d, snd (map_run ∅ demo_dict_ops)) /\
    dict_rep (fun k => k * 5) d (fst (map_run ∅ demo_dict_ops)).
Proof. apply dict_refines_map; [repeat (constructor; [done|]); constructor|done]. Defined.

(** C23: incremental rehashing always ends: from a well-formed dictionary,
    [ht[0].size - rehashidx + 1] calls of [dictRehash] move every bucket, swap
    the tables and leave the very same entries. *)
Theorem dictRehash_completes {K V} `{Countable K} (hash : K -> Z) (d : dict (K:=K) (V:=V)) n calls :
  dict_wf hash d -> 1 <= n -> ht_size (ht0 d) - rehashidx d < Z.of_nat calls -> (0 < calls)%nat ->
  exists d', rehash_calls hash calls d n = Some (d', false) /\ dict_wf hash d' /\
    rehashidx d' = -1 /\ entries d' ≡ₚ entries d.
Proof. apply rehash_calls_spec. Qed.

(** A dictionary caught in the middle of a resize. *)
Definition busy_dict : dict (K:=Z) (V:=Z) :=
  match dict_run (fun k => k * 5) dictCreate (take 6 demo_dict_ops) with
  | Some (d, _) => d
  | None => dictCreate
  end.

Lemma busy_dict_wf : dict_wf (fun k => k * 5) busy_dict.
Proof.
  destruct (dict_run_rep (fun k : Z => k * 5) (take 6 demo_dict_ops) dictCreate ∅) as (d & E & Hr);
    [apply dictCreate_rep|repeat (constructor; [done|]); constructor|done|].
  unfold busy_dict. rewrite E. apply Hr.
Qed.

Lemma dictRehash_completes_witness :
  rehashidx busy_dict = 1 /\
  exists d', rehash_calls (fun k => k * 5) 4 busy_dict 1 = Some (d', false) /\
    dict_wf (fun k => k * 5) d' /\ rehashidx d' = -1 /\ entries d' ≡ₚ entries busy_dict.
Proof.
  split; [vm_compute; reflexivity|].
  apply dictRehash_completes; [apply busy_dict_wf|lia|vm_compute; reflexivity|lia].
Defined.

(** [dictEmpty] and [dictRelease] free every entry of both tables exactly
    once, although their loop stops as soon as the count of used entries
    reaches zero. *)
Theorem dictEmpty_frees_all {K V} `{Countable K} (hash : K -> Z) (d : dict (K:=K) (V:=V)) :
  dict_wf hash d -> dictEmpty d = (dictCreate, entries d) /\ dictRelease d = entries d.
Proof. apply dictEmpty_spec. Qed.

Lemma dictEmpty_frees_all_witness :
  zlen (entries busy_dict) = 6 /\
  dictEmpty busy_dict = (dictCreate, entries busy_dict) /\ dictRelease busy_dict = entries busy_dict.
Proof.
  split; [vm_compute; reflexivity|].
  apply (dictEmpty_frees_all (fun k => k * 5)). apply busy_dict_wf.
Defined.
