(* ===== verification/DictScan.v ===== *)
(** * The stateless cursor iteration ([dictScan] of [dict.c])

    [dictScan] walks a dictionary by incrementing the cursor from its most
    significant bit down, which is what makes it survive resizes between two
    calls.  [rev] is the parallel bit reversal; a call returns the new cursor
    and the entries handed to the callback [fn], in order. *)

From S2P Require Import Prelude Dict.
From stdpp Require Import options.

Definition ULONG_MAX : Z := 2 ^ 64 - 1.
Definition ulong_not (v : Z) : Z := Z.lxor v ULONG_MAX.

(** [while ((s >>= 1) > 0)]: six turns, for s = 32, 16, 8, 4, 2, 1. *)
Fixpoint rev_loop (fuel : nat) (s mask v : Z) : Z :=
  match fuel with
  | O => v
  | S fuel =>
    let s := Z.shiftr s 1 in
    if s >? 0 then
      let mask := Z.lxor mask (uwrap 64 (Z.shiftl mask s)) in
      let v := Z.lor (Z.land (Z.shiftr v s) mask)
                     (Z.land (uwrap 64 (Z.shiftl v s)) (ulong_not mask)) in
      rev_loop fuel s mask v
    else v
  end.

Definition rev (v : Z) : Z := rev_loop 7 64 ULONG_MAX v.

(** [v |= ~m; v = rev(v); v++; v = rev(v);] *)
Definition next_cursor (v m : Z) : Z :=
  rev (uwrap 64 (rev (Z.lor v (ulong_not m)) + 1)).

Section Scan.
Context {K V : Type} `{Countable K} (hash : K -> Z).

(** The [do ... while (v & (m0 ^ m1))] loop over the larger table. *)
Fixpoint scan_expansions (fuel : nat) (t1 : dictht (K:=K) (V:=V)) (m0 m1 v : Z)
    (out : list dictEntry) : option (Z * list dictEntry) :=
  de ← bucket t1 (Z.land v m1);
  let out := out ++ de in
  let v := next_cursor v m1 in
  if negb (Z.land v (Z.lxor m0 m1) =? 0) then
    match fuel with O => None | S fuel => scan_expansions fuel t1 m0 m1 v out end
  else Some (v, out).

Definition dictScan (d : dict (K:=K) (V:=V)) (v : Z) : option (Z * list dictEntry) :=
  if dictSize d =? 0 then Some (0, []) else
  if negb (dictIsRehashing d) then
    let t0 := ht0 d in
    let m0 := ht_sizemask t0 in
    de ← bucket t0 (Z.land v m0);
    Some (next_cursor v m0, de)
  else
    let '(t0, t1) := if ht_size (ht0 d) >? ht_size (ht1 d) then (ht1 d, ht0 d) else (ht0 d, ht1 d) in
    let m0 := ht_sizemask t0 in
    let m1 := ht_sizemask t1 in
    de ← bucket t0 (Z.land v m0);
    scan_expansions (Z.to_nat (ht_size t1)) t1 m0 m1 v de.
End Scan.

(** ** [rev] reverses 64 bits *)

Lemma testbit_uwrap w v i : 0 <= w -> 0 <= i -> Z.testbit (uwrap w v) i = (i <? w) && Z.testbit v i.
Proof.
  intros Hw Hi. unfold uwrap. destruct (Z.ltb_spec i w).
  - by rewrite Z.mod_pow2_bits_low by lia.
  - rewrite Z.mod_pow2_bits_high; [done|]. lia.
Qed.

Lemma testbit_out w v i : in_u w v -> w <= i -> Z.testbit v i = false.
Proof.
  intros [H0 H1] Hi. destruct (Z.lt_ge_cases w 0) as [Hw|Hw].
  { rewrite Z.pow_neg_r in H1 by done. lia. }
  rewrite <- (Z.mod_small v (2 ^ w)) by done. apply Z.mod_pow2_bits_high. lia.
Qed.

Lemma in_u_testbit w v : 0 <= w -> 0 <= v -> (forall i, w <= i -> Z.testbit v i = false) -> in_u w v.
Proof.
  intros Hw Hv Hb. split; [done|]. destruct (Z.eq_dec v 0) as [->|Hv0]; [lia|].
  apply Z.log2_lt_pow2; [lia|]. destruct (Z.lt_ge_cases (Z.log2 v) w); [done|].
  pose proof (Z.bit_log2 v ltac:(lia)). rewrite Hb in * by lia. done.
Qed.

(** One round swaps adjacent groups of [s] bits. *)
Definition rev_round (s mask v : Z) : Z :=
  Z.lor (Z.land (Z.shiftr v s) mask) (Z.land (uwrap 64 (Z.shiftl v s)) (ulong_not mask)).

Definition index64 (P : Z -> bool) : bool := forallb (fun n => P (Z.of_nat n)) (seq 0 64).

Lemma index64_spec P i : index64 P = true -> 0 <= i < 64 -> P i = true.
Proof.
  unfold index64. rewrite forallb_forall. intros HP Hi.
  rewrite <- (Z2Nat.id i) by lia. apply HP, in_seq. lia.
Qed.

(** What a mask has to satisfy for a round to exchange [i] and [lxor i s]. *)
Definition round_ok (s mask : Z) : bool :=
  index64 (fun i => if Z.testbit mask i then Z.lxor i s =? i + s
                    else (Z.lxor i s =? i - s) && (s <=? i)).

Lemma rev_round_spec s mask v i :
  round_ok s mask = true -> in_u 64 v -> 0 <= s < 64 -> in_u 64 mask -> 0 <= i < 64 ->
  Z.testbit (rev_round s mask v) i = Z.testbit v (Z.lxor i s).
Proof.
  intros Hok Hv Hs Hm Hi. unfold round_ok in Hok.
  pose proof (index64_spec _ i Hok Hi) as Hr. cbv beta in Hr.
  unfold rev_round, ulong_not. rewrite Z.lor_spec, !Z.land_spec, Z.lxor_spec.
  rewrite Z.shiftr_spec, testbit_uwrap, Z.shiftl_spec by lia.
  rewrite (proj2 (Z.ltb_lt i 64)) by lia.
  replace (Z.testbit ULONG_MAX i) with true
    by (symmetry; change ULONG_MAX with (Z.ones 64); apply Z.ones_spec_low; lia).
  destruct (Z.testbit mask i).
  - apply Z.eqb_eq in Hr as ->. rewrite andb_true_r, andb_false_r, orb_false_r. done.
  - apply andb_true_iff in Hr as [->%Z.eqb_eq Hsi]. rewrite andb_false_r. simpl.
    by rewrite andb_true_r.
Qed.

Lemma rev_round_range s mask v :
  in_u 64 v -> 0 <= s < 64 -> in_u 64 mask -> in_u 64 (rev_round s mask v).
Proof.
  intros Hv Hs Hm. apply in_u_testbit; [lia| |].
  - unfold rev_round, ulong_not. apply Z.lor_nonneg. split; apply Z.land_nonneg.
    + right. apply Hm.
    + left. unfold uwrap. apply Z.mod_pos_bound. lia.
  - intros i Hi. unfold rev_round, ulong_not. rewrite Z.lor_spec, !Z.land_spec.
    rewrite (testbit_out 64 mask i Hm Hi), testbit_uwrap by lia.
    rewrite (proj2 (Z.ltb_ge i 64)) by lia. by rewrite andb_false_r.
Qed.

Definition mask_of (s : Z) : Z :=
  match s with
  | 32 => 0x00000000FFFFFFFF | 16 => 0x0000FFFF0000FFFF | 8 => 0x00FF00FF00FF00FF
  | 4 => 0x0F0F0F0F0F0F0F0F | 2 => 0x3333333333333333 | _ => 0x5555555555555555
  end.

Lemma rev_unfold v :
  rev v = rev_round 1 (mask_of 1) (rev_round 2 (mask_of 2) (rev_round 4 (mask_of 4)
    (rev_round 8 (mask_of 8) (rev_round 16 (mask_of 16) (rev_round 32 (mask_of 32) v))))).
Proof. reflexivity. Qed.

Lemma rev_spec v :
  in_u 64 v -> in_u 64 (rev v) /\ forall i, 0 <= i < 64 -> Z.testbit (rev v) i = Z.testbit v (63 - i).
Proof.
  intros Hv. rewrite rev_unfold.
  set (v1 := rev_round 32 _ v). set (v2 := rev_round 16 _ v1). set (v3 := rev_round 8 _ v2).
  set (v4 := rev_round 4 _ v3). set (v5 := rev_round 2 _ v4).
  assert (forall s, in_u 64 (mask_of s)) as Hm.
  { intros s. unfold mask_of. repeat case_match; width_lia. }
  assert (in_u 64 v1) as H1 by (apply rev_round_range; [done|lia|apply Hm]).
  assert (in_u 64 v2) as H2 by (apply rev_round_range; [done|lia|apply Hm]).
  assert (in_u 64 v3) as H3 by (apply rev_round_range; [done|lia|apply Hm]).
  assert (in_u 64 v4) as H4 by (apply rev_round_range; [done|lia|apply Hm]).
  assert (in_u 64 v5) as H5 by (apply rev_round_range; [done|lia|apply Hm]).
  split; [apply rev_round_range; [done|lia|apply Hm]|]. intros i Hi.
  assert (index64 (fun i => (0 <=? Z.lxor i 1) && (Z.lxor i 1 <? 64) &&
    ((0 <=? Z.lxor i 2) && (Z.lxor i 2 <? 64)) && ((0 <=? Z.lxor i 4) && (Z.lxor i 4 <? 64)) &&
    ((0 <=? Z.lxor i 8) && (Z.lxor i 8 <? 64)) && ((0 <=? Z.lxor i 16) && (Z.lxor i 16 <? 64)) &&
    (Z.lxor (Z.lxor (Z.lxor (Z.lxor (Z.lxor (Z.lxor i 1) 2) 4) 8) 16) 32 =? 63 - i)) = true) as Hx
    by (vm_compute; reflexivity).
  assert (forall j, 0 <= j < 64 -> 0 <= Z.lxor j 1 < 64 /\ 0 <= Z.lxor j 2 < 64 /\
    0 <= Z.lxor j 4 < 64 /\ 0 <= Z.lxor j 8 < 64 /\ 0 <= Z.lxor j 16 < 64 /\
    Z.lxor (Z.lxor (Z.lxor (Z.lxor (Z.lxor (Z.lxor j 1) 2) 4) 8) 16) 32 = 63 - j) as Hj.
  { intros j Hj. pose proof (index64_spec _ j Hx Hj) as Hb. cbv beta in Hb.
    rewrite !andb_true_iff, !Z.leb_le, !Z.ltb_lt, Z.eqb_eq in Hb. tauto. }
  destruct (Hj i Hi) as (R1 & _ & _ & _ & _ & E).
  destruct (Hj _ R1) as (_ & R2 & _). destruct (Hj _ R2) as (_ & _ & R3 & _).
  destruct (Hj _ R3) as (_ & _ & _ & R4 & _). destruct (Hj _ R4) as (_ & _ & _ & _ & R5 & _).
  rewrite (rev_round_spec 1) by (try apply Hm; try done; vm_compute; reflexivity).
  unfold v5. rewrite (rev_round_spec 2) by (try apply Hm; try done; vm_compute; reflexivity).
  unfold v4. rewrite (rev_round_spec 4) by (try apply Hm; try done; vm_compute; reflexivity).
  unfold v3. rewrite (rev_round_spec 8) by (try apply Hm; try done; vm_compute; reflexivity).
  unfold v2. rewrite (rev_round_spec 16) by (try apply Hm; try done; vm_compute; reflexivity).
  unfold v1. rewrite (rev_round_spec 32) by (try apply Hm; try done; vm_compute; reflexivity).
  by rewrite E.
Qed.

Lemma rev_range v : in_u 64 v -> in_u 64 (rev v).
Proof. intros Hv. by apply rev_spec. Qed.

Lemma rev_testbit v i : in_u 64 v -> 0 <= i < 64 -> Z.testbit (rev v) i = Z.testbit v (63 - i).
Proof. intros Hv. by apply rev_spec. Qed.

Lemma u64_bits_inj a b :
  in_u 64 a -> in_u 64 b -> (forall i, 0 <= i < 64 -> Z.testbit a i = Z.testbit b i) -> a = b.
Proof.
  intros Ha Hb Hi. apply Z.bits_inj'. intros i Hi0. destruct (Z.lt_ge_cases i 64); [auto|].
  by rewrite (testbit_out 64 a), (testbit_out 64 b).
Qed.

Lemma rev_involutive v : in_u 64 v -> rev (rev v) = v.
Proof.
  intros Hv. pose proof (rev_range v Hv). apply u64_bits_inj; [by apply rev_range|done|].
  intros i Hi. rewrite !rev_testbit by (done || lia). f_equal. lia.
Qed.

(** ** The cursor as a position in the reversed hash space

    A cursor [v] stands for the position [rev v] of [0, 2^64).  In a table
    of [2^s] buckets the keys of one bucket are those whose reversed hashes
    agree on their top [s] bits: an aligned block of [2^(64-s)] positions. *)

Definition block (s v : Z) : Z := rev v / 2 ^ (64 - s).
Definition block_end (s v : Z) : Z := (block s v + 1) * 2 ^ (64 - s).

Lemma block_eq s v : block s v = rev v / 2 ^ (64 - s).
Proof. reflexivity. Qed.
Lemma block_end_eq s v : block_end s v = (block s v + 1) * 2 ^ (64 - s).
Proof. reflexivity. Qed.
#[local] Opaque rev block block_end.

Lemma block_testbit s v j :
  0 <= s <= 64 -> in_u 64 v -> 0 <= j ->
  Z.testbit (block s v) j = (j <? s) && Z.testbit v (s - 1 - j).
Proof.
  intros Hs Hv Hj. rewrite block_eq, Z.div_pow2_bits by lia.
  destruct (Z.ltb_spec j s).
  - rewrite rev_testbit by (done || lia). simpl. f_equal. lia.
  - apply (testbit_out 64); [by apply rev_range|lia].
Qed.

Lemma same_bucket s v h :
  0 <= s <= 64 -> in_u 64 v -> in_u 64 h ->
  Z.land v (2 ^ s - 1) = Z.land h (2 ^ s - 1) <-> block s v = block s h.
Proof.
  intros Hs Hv Hh. rewrite !land_mask by lia. split; intros E.
  - apply Z.bits_inj'. intros j Hj. rewrite !block_testbit by done.
    destruct (Z.ltb_spec j s); [|done]. simpl.
    rewrite <- (Z.mod_pow2_bits_low v s), <- (Z.mod_pow2_bits_low h s) by lia. by rewrite E.
  - apply Z.bits_inj'. intros j Hj. destruct (Z.lt_ge_cases j s).
    + rewrite !Z.mod_pow2_bits_low by lia.
      pose proof (block_testbit s v (s - 1 - j) Hs Hv ltac:(lia)) as B1.
      pose proof (block_testbit s h (s - 1 - j) Hs Hh ltac:(lia)) as B2.
      rewrite E, B2 in B1. rewrite (proj2 (Z.ltb_lt _ _)) in B1 by lia. simpl in B1.
      by replace (s - 1 - (s - 1 - j)) with j in B1 by lia.
    + by rewrite !Z.mod_pow2_bits_high by lia.
Qed.

Lemma lor_ones r k :
  0 <= k -> Z.lor r (2 ^ k - 1) = r / 2 ^ k * 2 ^ k + (2 ^ k - 1).
Proof.
  intros Hk. rewrite <- Z.shiftl_mul_pow2, <- Z.shiftr_div_pow2 by done.
  replace (2 ^ k - 1) with (Z.ones k) by (rewrite Z.ones_equiv; lia).
  rewrite (Z.add_nocarry_lxor (Z.shiftl (Z.shiftr r k) k) (Z.ones k)).
  - apply Z.bits_inj'. intros j Hj. rewrite Z.lor_spec, Z.lxor_spec, Z.shiftl_spec by done.
    destruct (Z.lt_ge_cases j k).
    + rewrite Z.ones_spec_low, (Z.testbit_neg_r _ (j - k)) by lia. by rewrite orb_true_r.
    + rewrite Z.ones_spec_high, Z.shiftr_spec by lia. rewrite orb_false_r, xorb_false_r.
      f_equal. lia.
  - apply Z.bits_inj'. intros j Hj. rewrite Z.land_spec, Z.shiftl_spec, Z.bits_0 by done.
    destruct (Z.lt_ge_cases j k).
    + by rewrite (Z.testbit_neg_r _ (j - k)) by lia.
    + by rewrite Z.ones_spec_high, andb_false_r by lia.
Qed.

Lemma next_cursor_spec s v :
  0 <= s <= 64 -> in_u 64 v ->
  in_u 64 (next_cursor v (2 ^ s - 1)) /\
  rev (next_cursor v (2 ^ s - 1)) = block_end s v mod 2 ^ 64.
Proof.
  intros Hs Hv. unfold next_cursor.
  assert (in_u 64 (Z.lor v (ulong_not (2 ^ s - 1)))) as Hl.
  { apply in_u_testbit; [lia| |].
    - apply Z.lor_nonneg. split; [apply Hv|]. unfold ulong_not. apply Z.lxor_nonneg.
      split; intros _; [unfold ULONG_MAX; lia|]. assert (0 < 2 ^ s) by lia. lia.
    - intros i Hi. unfold ulong_not. rewrite Z.lor_spec, Z.lxor_spec.
      rewrite (testbit_out 64 v i Hv Hi). change ULONG_MAX with (Z.ones 64).
      rewrite Z.ones_spec_high by lia.
      replace (2 ^ s - 1) with (Z.ones s) by (rewrite Z.ones_equiv; lia).
      by rewrite Z.ones_spec_high by lia. }
  pose proof (uwrap_range 64 (rev (Z.lor v (ulong_not (2 ^ s - 1))) + 1) ltac:(lia)) as Hu.
  split; [by apply rev_range|]. rewrite rev_involutive by done.
  assert (rev (Z.lor v (ulong_not (2 ^ s - 1))) = Z.lor (rev v) (2 ^ (64 - s) - 1)) as ->.
  { pose proof (rev_range v Hv) as Hr. apply u64_bits_inj; [by apply rev_range| |].
    - apply in_u_testbit; [lia| |].
      + apply Z.lor_nonneg. split; [apply Hr|]. assert (0 < 2 ^ (64 - s)) by lia. lia.
      + intros i Hi. rewrite Z.lor_spec, (testbit_out 64 _ i Hr Hi).
        replace (2 ^ (64 - s) - 1) with (Z.ones (64 - s)) by (rewrite Z.ones_equiv; lia).
        by rewrite Z.ones_spec_high by lia.
    - intros i Hi. rewrite rev_testbit by done. unfold ulong_not.
      rewrite !Z.lor_spec, Z.lxor_spec, rev_testbit by done. f_equal.
      change ULONG_MAX with (Z.ones 64). rewrite (Z.ones_spec_low 64) by lia.
      replace (2 ^ s - 1) with (Z.ones s) by (rewrite Z.ones_equiv; lia).
      replace (2 ^ (64 - s) - 1) with (Z.ones (64 - s)) by (rewrite Z.ones_equiv; lia).
      destruct (Z.lt_ge_cases i (64 - s)).
      + by rewrite (Z.ones_spec_low (64 - s)), Z.ones_spec_high by lia.
      + by rewrite (Z.ones_spec_high (64 - s)), Z.ones_spec_low by lia. }
  rewrite lor_ones by lia. unfold uwrap. rewrite block_end_eq, block_eq. f_equal. lia.
Qed.

Lemma block_bounds s v :
  0 <= s <= 64 -> in_u 64 v ->
  block s v * 2 ^ (64 - s) <= rev v < block_end s v /\ block_end s v <= 2 ^ 64 /\ 0 <= block s v.
Proof.
  intros Hs Hv. pose proof (rev_range v Hv) as [H0 H1]. rewrite block_end_eq, block_eq.
  assert (0 < 2 ^ (64 - s)) as Hp by lia.
  pose proof (Z.div_mod (rev v) (2 ^ (64 - s)) ltac:(lia)).
  pose proof (Z.mod_pos_bound (rev v) (2 ^ (64 - s)) Hp).
  assert (rev v / 2 ^ (64 - s) < 2 ^ s).
  { apply Z.div_lt_upper_bound; [done|]. rewrite <- Z.pow_add_r by lia.
    by replace (64 - s + s) with 64 by lia. }
  assert (0 <= rev v / 2 ^ (64 - s)) by (apply Z.div_pos; lia).
  split_and!; try nia.
  assert (2 ^ 64 = 2 ^ s * 2 ^ (64 - s)) as ->
    by (rewrite <- Z.pow_add_r by lia; f_equal; lia). nia.
Qed.

(** Positions between the cursor and the end of its block are in its block. *)
Lemma in_block s v h :
  0 <= s <= 64 -> in_u 64 v -> in_u 64 h ->
  block s v * 2 ^ (64 - s) <= rev h < block_end s v -> block s v = block s h.
Proof.
  intros Hs Hv Hh [Hlo Hhi]. rewrite block_end_eq in Hhi. rewrite (block_eq s h).
  assert (0 < 2 ^ (64 - s)) by lia.
  pose proof (block_bounds s v Hs Hv).
  apply (Z.div_unique _ _ _ (rev h - block s v * 2 ^ (64 - s))); [left; lia|lia].
Qed.

Lemma mask_testbit s i : 0 <= s -> 0 <= i -> Z.testbit (2 ^ s - 1) i = (i <? s).
Proof.
  intros Hs Hi. replace (2 ^ s - 1) with (Z.ones s) by (rewrite Z.ones_equiv; lia).
  destruct (Z.ltb_spec i s); [by rewrite Z.ones_spec_low by lia|by rewrite Z.ones_spec_high by lia].
Qed.

Lemma mod_pow2_zero r k : 0 <= k -> r mod 2 ^ k = 0 <-> forall i, 0 <= i < k -> Z.testbit r i = false.
Proof.
  intros Hk. split.
  - intros E i Hi. rewrite <- (Z.mod_pow2_bits_low r k) by lia. by rewrite E, Z.bits_0.
  - intros Hb. apply Z.bits_inj'. intros i Hi. rewrite Z.bits_0. destruct (Z.lt_ge_cases i k).
    + rewrite Z.mod_pow2_bits_low by lia. apply Hb. lia.
    + apply Z.mod_pow2_bits_high. lia.
Qed.

(** The loop condition [v & (m0 ^ m1)] tests whether the cursor, which is at
    a block boundary of the larger table, is at one of the smaller table. *)
Lemma expansion_test s l v :
  0 <= s <= l -> l <= 64 -> in_u 64 v -> rev v mod 2 ^ (64 - l) = 0 ->
  Z.land v (Z.lxor (2 ^ s - 1) (2 ^ l - 1)) = 0 <-> rev v mod 2 ^ (64 - s) = 0.
Proof.
  intros Hs Hl Hv. rewrite !mod_pow2_zero by lia. intros Ha. split.
  - intros E i Hi. destruct (Z.lt_ge_cases i (64 - l)); [apply Ha; lia|].
    assert (Z.testbit (Z.land v (Z.lxor (2 ^ s - 1) (2 ^ l - 1))) (63 - i) = false) as Hb
      by by rewrite E, Z.bits_0.
    rewrite Z.land_spec, Z.lxor_spec, !mask_testbit in Hb by lia.
    rewrite (proj2 (Z.ltb_ge (63 - i) s)), (proj2 (Z.ltb_lt (63 - i) l)) in Hb by lia.
    rewrite rev_testbit by (done || lia). by rewrite andb_true_r in Hb.
  - intros Hb. apply Z.bits_inj'. intros i Hi.
    rewrite Z.bits_0, Z.land_spec, Z.lxor_spec, !mask_testbit by lia.
    destruct (Z.ltb_spec i s), (Z.ltb_spec i l); try lia; try by rewrite andb_false_r.
    rewrite andb_true_r. specialize (Hb (63 - i) ltac:(lia)).
    rewrite rev_testbit in Hb by (done || lia). by replace (63 - (63 - i)) with i in Hb by lia.
Qed.

Lemma pow_split s l : 0 <= s <= l -> l <= 64 -> 2 ^ (64 - s) = 2 ^ (l - s) * 2 ^ (64 - l).
Proof. intros. rewrite <- Z.pow_add_r by lia. f_equal. lia. Qed.

Lemma nest_le a b u w r :
  0 < u -> 0 < w -> a * u <= r -> r < (b + 1) * (w * u) -> (a + 1) * u <= (b + 1) * (w * u).
Proof.
  intros Hu Hw H1 H2. rewrite Z.mul_assoc in *. apply Z.mul_le_mono_nonneg_r; [lia|].
  assert (a < (b + 1) * w); [|lia]. apply (Z.mul_lt_mono_pos_r u); lia.
Qed.

Lemma nest_aligned x b u :
  0 < u -> b * u < x <= (b + 1) * u -> x mod u = 0 <-> x = (b + 1) * u.
Proof.
  intros Hu Hx. split; [|intros ->; apply Z.mod_mul; lia].
  intros [q ->]%Z.mod_divide; [|lia]. f_equal.
  assert (b < q) by (apply (Z.mul_lt_mono_pos_r u); lia).
  assert (q <= b + 1) by (apply (Z.mul_le_mono_pos_r _ _ u); lia). lia.
Qed.

(** The blocks of the larger table subdivide those of the smaller one. *)
Lemma block_nest s l v :
  0 <= s <= l -> l <= 64 -> in_u 64 v ->
  block_end l v <= block_end s v /\
  (block_end l v mod 2 ^ (64 - s) = 0 <-> block_end l v = block_end s v).
Proof.
  intros Hs Hl Hv.
  destruct (block_bounds l v ltac:(lia) Hv) as (Bl & _ & _).
  destruct (block_bounds s v ltac:(lia) Hv) as (Bs & _ & _).
  assert (0 < 2 ^ (64 - l)) as Hu by lia. assert (0 < 2 ^ (l - s)) as Hw by lia.
  assert (block_end l v <= block_end s v) as Hle.
  { destruct Bl as [Bl _], Bs as [_ Bs]. revert Bl Bs. rewrite !block_end_eq.
    rewrite (pow_split s l Hs Hl). apply nest_le; done. }
  split; [done|]. rewrite (block_end_eq s v) in *. apply nest_aligned; [lia|]. split; [|exact Hle].
  eapply Z.le_lt_trans; [apply Bs|]. apply Bl.
Qed.

(** The loop stops exactly when it reaches the end of the smaller block. *)
Lemma loop_stop s l v v' :
  0 <= s <= l -> l <= 64 -> in_u 64 v -> in_u 64 v' -> rev v' = block_end l v mod 2 ^ 64 ->
  Z.land v' (Z.lxor (2 ^ s - 1) (2 ^ l - 1)) = 0 <-> block_end l v = block_end s v.
Proof.
  intros Hs Hl Hv Hn En.
  pose proof (pow_split 0 s ltac:(lia) ltac:(lia)) as E0.
  pose proof (pow_split 0 l ltac:(lia) ltac:(lia)) as E1. rewrite Z.sub_0_r in E0, E1.
  rewrite expansion_test; [|done..|].
  - rewrite En, E0, Z.mod_mod_divide by (by eexists). by apply block_nest.
  - rewrite En, E1, Z.mod_mod_divide by (by eexists). rewrite block_end_eq. apply Z.mod_mul. lia.
Qed.

Lemma loop_continue s l v v' :
  0 <= s <= l -> l <= 64 -> in_u 64 v -> in_u 64 v' -> rev v' = block_end l v mod 2 ^ 64 ->
  block_end l v <> block_end s v ->
  rev v' = block_end l v /\ block s v' = block s v /\
  block_end l v' = block_end l v + 2 ^ (64 - l).
Proof.
  intros Hs Hl Hv Hn En Hne. destruct (block_nest s l v Hs Hl Hv) as [Hle _].
  destruct (block_bounds l v ltac:(lia) Hv) as (Bl & _ & Bl0).
  destruct (block_bounds s v ltac:(lia) Hv) as (Bs & Bs2 & _).
  assert (0 < 2 ^ (64 - l)) as Hu by lia. assert (0 < 2 ^ (64 - s)) as HU by lia.
  assert (rev v' = block_end l v) as Hrev.
  { rewrite En. apply Z.mod_small. lia. }
  split; [done|]. split.
  - rewrite (block_eq s v'), Hrev. symmetry.
    apply (Z.div_unique _ _ _ (block_end l v - block s v * 2 ^ (64 - s))); [|lia].
    left. assert (block_end s v = block s v * 2 ^ (64 - s) + 2 ^ (64 - s)) as Ee
      by (rewrite block_end_eq; ring).
    lia.
  - rewrite (block_end_eq l v'), block_eq, Hrev, block_end_eq. rewrite Z.div_mul by lia. lia.
Qed.

(** ** One call *)

Section ScanSpec.
Context {K V : Type} `{Countable K} (hash : K -> Z).

Local Abbreviation pos e := (rev (dictHashKey hash (e_key e))).

Lemma hash_range (k : K) : in_u 64 (dictHashKey hash k).
Proof. unfold dictHashKey. apply uwrap_range. lia. Qed.

(** The bucket under the cursor holds every entry of the cursor's block. *)
Lemma bucket_block (h : dictht (K:=K) (V:=V)) s v :
  ht_wf hash h -> ht_size h = 2 ^ s -> 0 <= s <= 64 -> in_u 64 v ->
  exists b, bucket h (Z.land v (ht_sizemask h)) = Some b /\
    (forall e, e ∈ b -> e ∈ concat (ht_table h)) /\
    forall e, e ∈ concat (ht_table h) ->
      block s v * 2 ^ (64 - s) <= pos e < block_end s v -> e ∈ b.
Proof.
  intros Hw Es Hs Hv. destruct (bucket_exists hash h v Hw) as [b Hb]. exists b.
  split; [done|]. split; [intros e; by apply bucket_mem with (Z.land v (ht_sizemask h))|].
  intros e He Hp. destruct (wf_mem_bucket hash h e Hw He) as (b' & Hb' & He').
  pose proof (in_block s v _ Hs Hv (hash_range (e_key e)) Hp) as Hbl.
  apply (same_bucket s v) in Hbl; [|done|done|apply hash_range].
  rewrite (hw_mask _ _ Hw), Es in Hb, Hb'. rewrite Hbl in Hb. congruence.
Qed.

Lemma scan_expansions_spec fuel (t1 : dictht (K:=K) (V:=V)) s l v E out :
  ht_wf hash t1 -> ht_size t1 = 2 ^ l -> 0 <= s <= l -> l <= 64 -> in_u 64 v ->
  block_end s v = E -> E - block_end l v <= Z.of_nat fuel * 2 ^ (64 - l) ->
  exists v' out', scan_expansions fuel t1 (2 ^ s - 1) (2 ^ l - 1) v out = Some (v', out ++ out') /\
    in_u 64 v' /\ rev v' = E mod 2 ^ 64 /\
    (forall e, e ∈ out' -> e ∈ concat (ht_table t1)) /\
    forall e, e ∈ concat (ht_table t1) -> rev v <= pos e < E -> e ∈ out'.
Proof.
  intros Hw Es Hs Hl. revert v out. induction fuel as [|fuel IH]; intros v out Hv HE Hf;
  destruct (bucket_block t1 l v Hw Es ltac:(lia) Hv) as (b & Hb & Hsub & Hall);
  rewrite (hw_mask _ _ Hw), Es in Hb; cbn [scan_expansions]; rewrite Hb; cbn [mbind option_bind];
  destruct (next_cursor_spec l v ltac:(lia) Hv) as [Hn En];
  destruct (block_bounds l v ltac:(lia) Hv) as (Bl & _ & _);
  destruct (block_nest s l v Hs Hl Hv) as [Hle _];
  pose proof (loop_stop s l v _ Hs Hl Hv Hn En) as Hstop;
  set (v1 := next_cursor v (2 ^ l - 1)) in *;
  (destruct (Z.eqb_spec (Z.land v1 (Z.lxor (2 ^ s - 1) (2 ^ l - 1))) 0) as [Ez|Ez]; cbn [negb];
    [apply (proj1 Hstop) in Ez; exists v1, b; rewrite <- HE, <- Ez; split_and!; try done;
      intros e He Hp; apply Hall; [done|lia]|rewrite Hstop in Ez]).
  - exfalso. lia.
  - destruct (loop_continue s l v v1 Hs Hl Hv Hn En Ez) as (Er & Eb & Ee).
    destruct (IH v1 (out ++ b) Hn) as (v' & out' & Hrun & Hv' & Ev & Hs' & Ha').
    { by rewrite block_end_eq, Eb, <- block_end_eq. }
    { rewrite Ee. lia. }
    exists v', (b ++ out'). rewrite app_assoc. split_and!; try done.
    + intros e. rewrite elem_of_app. intros [?|?]; auto.
    + intros e He Hp. rewrite elem_of_app. destruct (Z.lt_ge_cases (pos e) (block_end l v)).
      * left. apply Hall; [done|lia].
      * right. apply Ha'; [done|]. lia.
Qed.

(** What a call does to the cursor: it advances to the end [E] of a block of
    a table of the dictionary, and emits everything it passes over. *)
Definition scan_post (d : dict (K:=K) (V:=V)) (v : Z) (v' : Z) (out : list dictEntry) : Prop :=
  in_u 64 v' /\ (forall e, e ∈ out -> e ∈ entries d) /\
  exists E, rev v < E <= 2 ^ 64 /\ rev v' = E mod 2 ^ 64 /\
    (forall S, ht_size (ht0 d) <= 2 ^ S -> ht_size (ht1 d) <= 2 ^ S -> 0 <= S <= 64 -> E mod 2 ^ (64 - S) = 0) /\
    forall e, e ∈ entries d -> rev v <= pos e < E -> e ∈ out.

Lemma block_end_mod s S v :
  0 <= s -> 2 ^ s <= 2 ^ S -> 0 <= S <= 64 -> block_end s v mod 2 ^ (64 - S) = 0.
Proof.
  intros Hs Hle HS. assert (s <= S) by (apply (Z.pow_le_mono_r_iff 2); lia).
  rewrite block_end_eq, (pow_split s S) by lia. rewrite Z.mul_assoc. apply Z.mod_mul. lia.
Qed.

Lemma scan_rehashing (d : dict (K:=K) (V:=V)) (ta tb : dictht) sa sb v :
  in_u 64 v -> ht_wf hash ta -> ht_wf hash tb ->
  ht_size ta = 2 ^ sa -> ht_size tb = 2 ^ sb -> 0 <= sa <= sb -> sb <= 63 ->
  (forall e, e ∈ entries d <-> e ∈ concat (ht_table ta) \/ e ∈ concat (ht_table tb)) ->
  (ht_size ta = ht_size (ht0 d) \/ ht_size ta = ht_size (ht1 d)) ->
  exists v' out,
    (de ← bucket ta (Z.land v (ht_sizemask ta));
     scan_expansions (Z.to_nat (ht_size tb)) tb (ht_sizemask ta) (ht_sizemask tb) v de)
      = Some (v', out) /\ scan_post d v v' out.
Proof.
  intros Hv Wa Wb Ea Eb Hs Hsb Hent Hsz.
  destruct (bucket_block ta sa v Wa Ea ltac:(lia) Hv) as (b & -> & Hsub & Hall). cbn [mbind option_bind].
  destruct (block_bounds sa v ltac:(lia) Hv) as (B1 & B2 & _).
  destruct (block_bounds sb v ltac:(lia) Hv) as (C1 & C2 & C3).
  rewrite (hw_mask _ _ Wa), (hw_mask _ _ Wb), Ea, Eb.
  destruct (scan_expansions_spec (Z.to_nat (2 ^ sb)) tb sa sb v (block_end sa v) b)
    as (v' & out & Hrun & Hv' & Ev & Hsub' & Hall'); try done; try lia.
  { rewrite Z2Nat.id by lia. rewrite <- Z.pow_add_r by lia. replace (sb + (64 - sb)) with 64 by lia.
    rewrite (block_end_eq sb v). nia. }
  exists v', (b ++ out). split; [exact Hrun|]. split; [done|]. split.
  { intros e. rewrite elem_of_app, Hent. intros [?|?]; auto. }
  exists (block_end sa v). split; [lia|]. split; [done|]. split.
  { intros S H0 H1 HS. apply block_end_mod; [lia| |done]. destruct Hsz; lia. }
  intros e He Hp. rewrite elem_of_app. apply Hent in He as [He|He]; [left|right].
  - apply Hall; [done|]. lia.
  - by apply Hall'.
Qed.

Lemma dictScan_spec (d : dict (K:=K) (V:=V)) v :
  dict_wf hash d -> in_u 64 v ->
  exists v' out, dictScan d v = Some (v', out) /\
    if decide (entries d = []) then v' = 0 /\ out = [] else scan_post d v v' out.
Proof.
  intros Hw Hv. destruct (used_bound hash d Hw) as (U0 & U1 & U). unfold dictScan, dictSize.
  unfold uwrap. rewrite U, Z.mod_small by (pose proof (zlen_nonneg (entries d)); pose proof (dw_fits _ _ Hw); lia).
  case_decide as He.
  { rewrite He. exists 0, []. done. }
  rewrite (proj2 (Z.eqb_neq _ 0)) by (intros Ez; apply He, length_zero_iff_nil; unfold zlen in Ez; lia).
  destruct (dictIsRehashing d) eqn:Hr; cbn [negb].
  - apply dictIsRehashing_true in Hr. destruct (dw_busy _ _ Hw Hr) as (W0 & W1 & _).
    destruct (hw_pow _ _ W0) as (k0 & K0 & S0). destruct (hw_pow _ _ W1) as (k1 & K1 & S1).
    rewrite Z.gtb_ltb. destruct (Z.ltb_spec (ht_size (ht1 d)) (ht_size (ht0 d))) as [Hlt|Hge].
    + apply (scan_rehashing d (ht1 d) (ht0 d) k1 k0); try done; [|lia| |by right].
      * rewrite S0, S1 in Hlt. apply Z.pow_lt_mono_r_iff in Hlt; lia.
      * intros e. unfold entries. rewrite elem_of_app. tauto.
    + apply (scan_rehashing d (ht0 d) (ht1 d) k0 k1); try done; [|lia| |by left].
      * rewrite S0, S1 in Hge. apply Z.pow_le_mono_r_iff in Hge; lia.
      * intros e. unfold entries. by rewrite elem_of_app.
  - apply dictIsRehashing_false in Hr. destruct (dw_idle _ _ Hw Hr) as [E1 [E0|W0]].
    { exfalso. apply He. unfold entries. by rewrite E1, E0. }
    destruct (hw_pow _ _ W0) as (s & Hs & Es).
    destruct (bucket_block (ht0 d) s v W0 Es ltac:(lia) Hv) as (b & -> & Hsub & Hall).
    cbn [mbind option_bind]. rewrite (hw_mask _ _ W0), Es.
    destruct (next_cursor_spec s v ltac:(lia) Hv) as [Hn En].
    destruct (block_bounds s v ltac:(lia) Hv) as (B1 & B2 & _).
    assert (forall e, e ∈ entries d <-> e ∈ concat (ht_table (ht0 d))) as Hent.
    { intros e. unfold entries. rewrite E1. simpl. by rewrite app_nil_r. }
    do 2 eexists. split; [done|]. split; [done|]. split; [intros e He'; by apply Hent, Hsub|].
    exists (block_end s v). split; [lia|]. split; [done|]. split.
    { intros S H0 _ HS. apply block_end_mod; lia. }
    intros e He' Hp. apply Hall; [by apply Hent|lia].
Qed.
(** ** A whole iteration

    The client calls [dictScan] with the cursor of the previous call until
    the cursor is 0 again; [ds] lists the dictionary as it is at each call
    (between two calls anything may have been inserted, deleted, resized or
    rehashed).  [None]: the calls were not enough to come back to 0. *)
Fixpoint scan_session (ds : list (dict (K:=K) (V:=V))) (v : Z) : option (list dictEntry) :=
  match ds with
  | [] => None
  | d :: ds =>
    '(v', out) ← dictScan d v;
    if v' =? 0 then Some out else
    out' ← scan_session ds v'; Some (out ++ out')
  end.

Lemma rev_zero v : in_u 64 v -> rev v = 0 <-> v = 0.
Proof.
  intros Hv. split; [|by intros ->]. intros E. rewrite <- (rev_involutive v Hv), E. done.
Qed.

Lemma scan_session_complete ds v out k :
  Forall (dict_wf hash) ds -> in_u 64 v -> scan_session ds v = Some out ->
  Forall (fun d => exists e, e ∈ entries d /\ e_key e = k) ds ->
  rev v <= rev (dictHashKey hash k) -> exists e, e ∈ out /\ e_key e = k.
Proof.
  revert v out. induction ds as [|d ds IH]; intros v out Hw Hv; [done|]. cbn [scan_session].
  apply Forall_cons in Hw as [Hd Hw]. destruct (dictScan_spec d v Hd Hv) as (v' & o & -> & Hpost).
  cbn [mbind option_bind]. intros Hrun [(e & He & Ek) Hk]%Forall_cons Hpos.
  rewrite decide_False in Hpost by (intros E; rewrite E in He; by apply elem_of_nil in He).
  destruct Hpost as (Hv' & _ & E & HE & Ev & _ & Hall).
  assert (in_u 64 (rev (dictHashKey hash k))) as Hpk by apply rev_range, hash_range.
  pose proof (rev_range v Hv) as Hrv. pose proof (rev_zero v' Hv') as Hz.
  destruct (Z.lt_ge_cases (rev (dictHashKey hash k)) E) as [Hlt|Hge].
  - exists e. split; [|done]. specialize (Hall e He ltac:(subst k; lia)).
    case_match; [by simplify_eq|]. destruct (scan_session ds v'); simplify_eq/=.
    rewrite elem_of_app. by left.
  - assert (rev v' = E) as Er.
    { rewrite Ev. apply Z.mod_small. destruct Hpk, Hrv. lia. }
    destruct (Z.eqb_spec v' 0) as [E0|E0].
    { exfalso. apply Hz in E0. destruct Hrv. lia. }
    destruct (scan_session ds v') as [o'|] eqn:Hrun'; simplify_eq/=.
    destruct (IH v' o' Hw Hv' Hrun' Hk Hge) as (e' & He' & Ek'). exists e'.
    rewrite elem_of_app. auto.
Qed.

Lemma scan_session_sound ds v out e :
  Forall (dict_wf hash) ds -> in_u 64 v -> scan_session ds v = Some out -> e ∈ out ->
  exists d, d ∈ ds /\ e ∈ entries d.
Proof.
  revert v out. induction ds as [|d ds IH]; intros v out Hw Hv; [done|]. cbn [scan_session].
  apply Forall_cons in Hw as [Hd Hw]. destruct (dictScan_spec d v Hd Hv) as (v' & o & -> & Hpost).
  cbn [mbind option_bind]. intros Hrun He.
  assert (in_u 64 v' /\ forall e, e ∈ o -> e ∈ entries d) as [Hv' Ho].
  { case_decide; [|by destruct Hpost as (? & ? & _)]. destruct Hpost as [-> ->].
    split; [width_lia|]. intros ? Hx. by apply elem_of_nil in Hx. }
  destruct (Z.eqb_spec v' 0) as [E0|E0]; [simplify_eq; exists d; split; [apply elem_of_cons|]; auto|].
  destruct (scan_session ds v') as [o'|] eqn:Hrun'; simplify_eq/=.
  apply elem_of_app in He as [He|He].
  - exists d. split; [apply elem_of_cons|]; auto.
  - destruct (IH v' o' Hw Hv' Hrun' He) as (d' & Hd' & He'). exists d'.
    split; [apply elem_of_cons|]; auto.
Qed.

Definition tables_within (S : Z) (d : dict (K:=K) (V:=V)) : Prop :=
  ht_size (ht0 d) <= 2 ^ S /\ ht_size (ht1 d) <= 2 ^ S.

Lemma scan_session_terminates ds S v :
  0 <= S <= 64 -> Forall (dict_wf hash) ds -> Forall (tables_within S) ds -> in_u 64 v ->
  rev v mod 2 ^ (64 - S) = 0 -> 2 ^ 64 - rev v <= Z.of_nat (length ds) * 2 ^ (64 - S) ->
  exists out, scan_session ds v = Some out.
Proof.
  intros HS. revert v. induction ds as [|d ds IH]; intros v Hw Hs Hv Hal Hlen.
  { pose proof (rev_range v Hv) as [? ?]. simpl in Hlen. lia. }
  apply Forall_cons in Hw as [Hd Hw]. apply Forall_cons in Hs as [[Hs0 Hs1] Hs].
  cbn [scan_session]. destruct (dictScan_spec d v Hd Hv) as (v' & o & -> & Hpost).
  cbn [mbind option_bind]. destruct (Z.eqb_spec v' 0) as [E0|E0]; [by eauto|].
  case_decide; [by destruct Hpost|]. destruct Hpost as (Hv' & _ & E & HE & Ev & Hmod & _).
  specialize (Hmod S Hs0 Hs1 HS). pose proof (rev_range v Hv) as [Hr _].
  assert (E <> 2 ^ 64) as Hne.
  { intros ->. apply E0. apply (rev_zero v' Hv'). by rewrite Ev, Z.mod_same. }
  assert (rev v' = E) as Er by (rewrite Ev; apply Z.mod_small; lia).
  assert (rev v + 2 ^ (64 - S) <= E).
  { apply Z.mod_divide in Hal as [a Ha]; [|lia]. apply Z.mod_divide in Hmod as [b Hb]; [|lia].
    assert (a < b) by (apply (Z.mul_lt_mono_pos_r (2 ^ (64 - S))); lia). nia. }
  destruct (IH v' Hw Hs Hv') as [o' ->].
  - by rewrite Er.
  - rewrite Er. cbn [length] in Hlen. lia.
  - eauto.
Qed.

(** C14 The guarantee documented for [dictScan]: in an iteration that started
    with cursor 0 and came back to cursor 0, every key that stayed in the
    dictionary throughout is handed to the callback at least once, whatever
    insertions, deletions, expansions, shrinkings and rehashing steps happen
    between two calls; and only entries that were in the dictionary at one
    of the calls are handed out. *)
Theorem dictScan_complete (ds : list dict) (out : list dictEntry) :
  Forall (dict_wf hash) ds -> scan_session ds 0 = Some out ->
  (forall k, Forall (fun d => exists e, e ∈ entries d /\ e_key e = k) ds -> exists e, e ∈ out /\ e_key e = k) /\
  (forall e, e ∈ out -> exists d, d ∈ ds /\ e ∈ entries d).
Proof.
  intros Hw Hrun. assert (in_u 64 0) as H0 by width_lia. split.
  - intros k Hk. apply (scan_session_complete ds 0 out k Hw H0 Hrun Hk).
    apply rev_range, hash_range.
  - intros e. by apply (scan_session_sound ds 0).
Qed.

(** C22 The iteration ends: if no table ever exceeds [2^S] buckets, the cursor
    is back to 0 after at most [2^S] calls, however the dictionary is resized
    in between. *)
Theorem dictScan_terminates (ds : list dict) (S : Z) :
  0 <= S <= 64 -> Forall (dict_wf hash) ds -> Forall (tables_within S) ds ->
  2 ^ S <= Z.of_nat (length ds) -> exists out, scan_session ds 0 = Some out.
Proof.
  intros HS Hw Hs Hlen. apply (scan_session_terminates ds S 0 HS Hw Hs); [width_lia|done|].
  change (rev 0) with 0. rewrite Z.sub_0_r.
  replace (2 ^ 64) with (2 ^ S * 2 ^ (64 - S)) by (rewrite <- Z.pow_add_r by lia; f_equal; lia).
  apply Z.mul_le_mono_nonneg_r; lia.
Qed.
End ScanSpec.

(** An iteration during which the table grows from 4 to 16 buckets. *)
Definition grown_dict : dict (K:=Z) (V:=Z) :=
  match dict_run (fun k => k * 5) dictCreate (take 12 demo_dict_ops) with
  | Some (d, _) => d
  | None => dictCreate
  end.

Lemma grown_dict_wf : dict_wf (fun k => k * 5) grown_dict.
Proof.
  destruct (dict_run_rep (fun k : Z => k * 5) (take 12 demo_dict_ops) dictCreate ∅) as (d & E & Hr);
    [apply dictCreate_rep|repeat (constructor; [done|]); constructor|done|].
  unfold grown_dict. rewrite E. apply Hr.
Qed.

Definition demo_scan : list (dict (K:=Z) (V:=Z)) := busy_dict :: replicate 15 grown_dict.

Lemma demo_scan_wf : Forall (dict_wf (fun k => k * 5)) demo_scan.
Proof. constructor; [apply busy_dict_wf|]. apply Forall_replicate, grown_dict_wf. Qed.

Definition demo_scan_out : list (dictEntry (K:=Z) (V:=Z)) :=
  default [] (scan_session demo_scan 0).

Lemma dictScan_complete_witness :
  scan_session demo_scan 0 = Some demo_scan_out /\ e_key <$> demo_scan_out = [0; 4; 10; 2; 6; 5; 1; 9; 7; 3; 11] /\
  exists e, e ∈ demo_scan_out /\ e_key e = 3.
Proof.
  assert (scan_session demo_scan 0 = Some demo_scan_out) as E by (vm_compute; reflexivity).
  split; [exact E|]. split; [vm_compute; reflexivity|].
  apply (proj1 (dictScan_complete (fun k => k * 5) demo_scan demo_scan_out demo_scan_wf E) 3).
  assert (forall d : dict, 3 ∈ e_key <$> entries d -> exists e : dictEntry (K:=Z) (V:=Z), e ∈ entries d /\ e_key e = 3)
    as Hx by (intros d (e & -> & ?)%list_elem_of_fmap; eauto).
  constructor; [|apply Forall_replicate]; apply Hx; apply (bool_decide_unpack _); vm_compute; exact I.
Defined.

Lemma dictScan_terminates_witness :
  tables_within 4 busy_dict /\ tables_within 4 grown_dict /\
  exists out, scan_session demo_scan 0 = Some out.
Proof.
  assert (tables_within 4 busy_dict) by (split; vm_compute; discriminate).
  assert (tables_within 4 grown_dict) by (split; vm_compute; discriminate).
  split; [done|]. split; [done|].
  apply (dictScan_terminates (fun k => k * 5) demo_scan 4); [lia|apply demo_scan_wf| |vm_compute; discriminate].
  constructor; [done|]. by apply Forall_replicate.
Defined.
