(* ===== verification/Sds.v ===== *)
(** * Simple dynamic strings ([sds.c], [sds.h])

    An [sds] is the header in front of the string pointer and the bytes from
    the pointer on.  The five header structs share the fields below: type 5
    keeps its length in the high bits of [flags] and has no [len]/[alloc];
    the others keep both at 8, 16, 32 or 64 bits.  [sh_buf] is what was
    allocated after the header, terminator included, so an access outside it
    is an access outside the allocation and gives [None].  Bytes that an
    allocation leaves undefined come from [junk]. *)

From S2P Require Import Prelude Numstr.
From stdpp Require Import options.

Record sds := mk_sds { sh_flags : Z; sh_len : Z; sh_alloc : Z; sh_buf : list Z }.

Definition SDS_MAX_PREALLOC : Z := 1024 * 1024.
Definition SDS_TYPE_5 : Z := 0.
Definition SDS_TYPE_8 : Z := 1.
Definition SDS_TYPE_16 : Z := 2.
Definition SDS_TYPE_32 : Z := 3.
Definition SDS_TYPE_64 : Z := 4.
Definition SDS_TYPE_MASK : Z := 7.
Definition SDS_TYPE_BITS : Z := 3.
Definition SDS_TYPE_5_LEN (f : Z) : Z := Z.shiftr f SDS_TYPE_BITS.

Definition sds_type (s : sds) : Z := Z.land (sh_flags s) SDS_TYPE_MASK.

(** The width of the [len] and [alloc] fields of a header type. *)
Definition hdr_width (type : Z) : Z :=
  if type =? SDS_TYPE_8 then 8 else if type =? SDS_TYPE_16 then 16
  else if type =? SDS_TYPE_32 then 32 else 64.

Definition set_flags (s : sds) (f : Z) : sds := mk_sds f (sh_len s) (sh_alloc s) (sh_buf s).
Definition set_len (s : sds) (n : Z) : sds := mk_sds (sh_flags s) n (sh_alloc s) (sh_buf s).
Definition set_alloc (s : sds) (n : Z) : sds := mk_sds (sh_flags s) (sh_len s) n (sh_buf s).
Definition set_buf (s : sds) (b : list Z) : sds := mk_sds (sh_flags s) (sh_len s) (sh_alloc s) b.

(** ** Header access ([sds.h]) *)

Definition sdslen (s : sds) : Z :=
  let type := sds_type s in
  if type =? SDS_TYPE_5 then SDS_TYPE_5_LEN (sh_flags s)
  else if type <=? SDS_TYPE_64 then sh_len s else 0.

(** 8 and 16 bit operands are promoted to [int]; the difference is converted
    to [size_t]. *)
Definition sdsavail (s : sds) : Z :=
  let type := sds_type s in
  if type =? SDS_TYPE_5 then 0
  else if type =? SDS_TYPE_32 then uwrap 32 (sh_alloc s - sh_len s)
  else if type <=? SDS_TYPE_64 then uwrap 64 (sh_alloc s - sh_len s) else 0.

Definition sdssetlen (s : sds) (newlen : Z) : sds :=
  let type := sds_type s in
  if type =? SDS_TYPE_5
  then set_flags s (uwrap 8 (Z.lor SDS_TYPE_5 (uwrap 64 (Z.shiftl newlen SDS_TYPE_BITS))))
  else if type <=? SDS_TYPE_64 then set_len s (uwrap (hdr_width type) newlen) else s.

Definition sdsinclen (s : sds) (inc : Z) : sds :=
  let type := sds_type s in
  if type =? SDS_TYPE_5 then
    let newlen := uwrap 8 (SDS_TYPE_5_LEN (sh_flags s) + inc) in
    set_flags s (uwrap 8 (Z.lor SDS_TYPE_5 (Z.shiftl newlen SDS_TYPE_BITS)))
  else if type <=? SDS_TYPE_64 then set_len s (uwrap (hdr_width type) (sh_len s + inc)) else s.

Definition sdsalloc (s : sds) : Z :=
  let type := sds_type s in
  if type =? SDS_TYPE_5 then SDS_TYPE_5_LEN (sh_flags s)
  else if type <=? SDS_TYPE_64 then sh_alloc s else 0.

Definition sdssetalloc (s : sds) (newlen : Z) : sds :=
  let type := sds_type s in
  if type =? SDS_TYPE_5 then s
  else if type <=? SDS_TYPE_64 then set_alloc s (uwrap (hdr_width type) newlen) else s.

(** The packed structs: two fields of the width and the flags byte. *)
Definition sdsHdrSize (type : Z) : Z :=
  let type := Z.land type SDS_TYPE_MASK in
  if type =? SDS_TYPE_5 then 1
  else if type <=? SDS_TYPE_64 then 2 * (hdr_width type / 8) + 1 else 0.

(** On the 64-bit targets ([LONG_MAX == LLONG_MAX]). *)
Definition sdsReqType (string_size : Z) : Z :=
  if string_size <? Z.shiftl 1 5 then SDS_TYPE_5
  else if string_size <? Z.shiftl 1 8 then SDS_TYPE_8
  else if string_size <? Z.shiftl 1 16 then SDS_TYPE_16
  else if string_size <? Z.shiftl 1 32 then SDS_TYPE_32
  else SDS_TYPE_64.

(** [s[i] = c] and [strlen] on the bytes from a pointer on. *)
Definition put (s : sds) (i : Z) (bs : list Z) : option sds :=
  b ← mwrite (sh_buf s) i bs; Some (set_buf s b).

Fixpoint strlen (m : list Z) : option Z :=
  match m with
  | [] => None
  | c :: m => if c =? 0 then Some 0 else n ← strlen m; Some (1 + n)
  end.

Section Alloc.
Context (junk : nat -> Z).

(** [s_malloc(hdrlen+n+1)]: the part behind the header. *)
Definition malloc_buf (hdrlen n : Z) : list Z :=
  mrealloc junk [] (uwrap 64 (hdrlen + n + 1) - hdrlen).

(** ** Creation *)

Inductive sds_init := INIT_NULL | SDS_NOINIT | INIT_BYTES (bs : list Z).

Definition sdsnewlen (init : sds_init) (initlen : Z) : option sds :=
  let type := sdsReqType initlen in
  let type := if (type =? SDS_TYPE_5) && (initlen =? 0) then SDS_TYPE_8 else type in
  let hdrlen := sdsHdrSize type in
  let buf := malloc_buf hdrlen initlen in
  let buf := match init with
             | INIT_NULL => replicate (length buf) 0
             | _ => buf
             end in
  let s := if type =? SDS_TYPE_5
           then mk_sds (uwrap 8 (Z.lor type (uwrap 64 (Z.shiftl initlen SDS_TYPE_BITS)))) 0 0 buf
           else mk_sds type (uwrap (hdr_width type) initlen) (uwrap (hdr_width type) initlen) buf in
  s ← match init with
      | INIT_BYTES bs => if negb (initlen =? 0)
                         then t ← mread bs 0 initlen; put s 0 t else Some s
      | _ => Some s
      end;
  put s initlen [0].

Definition sdsempty : option sds := sdsnewlen (INIT_BYTES [0]) 0.

Definition sdsnew (init : option (list Z)) : option sds :=
  match init with
  | None => sdsnewlen INIT_NULL 0
  | Some m => initlen ← strlen m; sdsnewlen (INIT_BYTES m) initlen
  end.

Definition sdsdup (s : sds) : option sds := sdsnewlen (INIT_BYTES (sh_buf s)) (sdslen s).

Definition sdsupdatelen (s : sds) : option sds :=
  reallen ← strlen (sh_buf s); Some (sdssetlen s reallen).

Definition sdsclear (s : sds) : option sds := put (sdssetlen s 0) 0 [0].

(** ** Capacity *)

Definition sdsMakeRoomFor (s : sds) (addlen : Z) : option sds :=
  let avail := sdsavail s in
  let oldtype := sds_type s in
  if avail >=? addlen then Some s else
  let len := sdslen s in
  let newlen := uwrap 64 (len + addlen) in
  let newlen := if newlen <? SDS_MAX_PREALLOC then newlen * 2
                else uwrap 64 (newlen + SDS_MAX_PREALLOC) in
  let type := sdsReqType newlen in
  let type := if type =? SDS_TYPE_5 then SDS_TYPE_8 else type in
  let hdrlen := sdsHdrSize type in
  s ← (if oldtype =? type then
         Some (set_buf s (mrealloc junk (sh_buf s) (uwrap 64 (hdrlen + newlen + 1) - hdrlen)))
       else
         t ← mread (sh_buf s) 0 (len + 1);
         s' ← put (mk_sds type 0 0 (malloc_buf hdrlen newlen)) 0 t;
         Some (sdssetlen s' len));
  Some (sdssetalloc s newlen).

Definition sdsRemoveFreeSpace (s : sds) : option sds :=
  let oldtype := sds_type s in
  let oldhdrlen := sdsHdrSize oldtype in
  let len := sdslen s in
  let avail := sdsavail s in
  if avail =? 0 then Some s else
  let type := sdsReqType len in
  let hdrlen := sdsHdrSize type in
  s ← (if (oldtype =? type) || (type >? SDS_TYPE_8) then
         Some (set_buf s (mrealloc junk (sh_buf s) (uwrap 64 (oldhdrlen + len + 1) - oldhdrlen)))
       else
         t ← mread (sh_buf s) 0 (len + 1);
         s' ← put (mk_sds type 0 0 (malloc_buf hdrlen len)) 0 t;
         Some (sdssetlen s' len));
  Some (sdssetalloc s len).

Definition sdsAllocSize (s : sds) : Z := sdsHdrSize (sh_flags s) + sdsalloc s + 1.

(** [None] is the failed assertion. *)
Definition sdsIncrLen (s : sds) (incr : Z) : option sds :=
  let type := sds_type s in
  if type =? SDS_TYPE_5 then
    let oldlen := SDS_TYPE_5_LEN (sh_flags s) in
    if ((incr >? 0) && (oldlen + incr <? 32)) || ((incr <? 0) && (oldlen >=? uwrap 32 (- incr))) then
      let s := set_flags s (uwrap 8 (Z.lor SDS_TYPE_5 (Z.shiftl (oldlen + incr) SDS_TYPE_BITS))) in
      put s (uwrap 64 (oldlen + incr)) [0]
    else None
  else if (type =? SDS_TYPE_8) || (type =? SDS_TYPE_16) then
    if ((incr >=? 0) && (sh_alloc s - sh_len s >=? incr)) || ((incr <? 0) && (sh_len s >=? uwrap 32 (- incr))) then
      let s := set_len s (uwrap (hdr_width type) (sh_len s + incr)) in
      put s (sh_len s) [0]
    else None
  else if type =? SDS_TYPE_32 then
    if ((incr >=? 0) && (uwrap 32 (sh_alloc s - sh_len s) >=? uwrap 32 incr)) ||
       ((incr <? 0) && (sh_len s >=? uwrap 32 (- incr))) then
      let s := set_len s (uwrap 32 (sh_len s + incr)) in
      put s (sh_len s) [0]
    else None
  else if type =? SDS_TYPE_64 then
    if ((incr >=? 0) && (uwrap 64 (sh_alloc s - sh_len s) >=? uwrap 64 incr)) ||
       ((incr <? 0) && (sh_len s >=? uwrap 64 (- incr))) then
      let s := set_len s (uwrap 64 (sh_len s + incr)) in
      put s (sh_len s) [0]
    else None
  else put s 0 [0].

(** ** Appending and copying *)

Definition sdsgrowzero (s : sds) (len : Z) : option sds :=
  let curlen := sdslen s in
  if len <=? curlen then Some s else
  s ← sdsMakeRoomFor s (len - curlen);
  s ← put s curlen (replicate (Z.to_nat (len - curlen + 1)) 0);
  Some (sdssetlen s len).

Definition sdscatlen (s : sds) (t : list Z) (len : Z) : option sds :=
  let curlen := sdslen s in
  s ← sdsMakeRoomFor s len;
  bs ← mread t 0 len;
  s ← put s curlen bs;
  let s := sdssetlen s (uwrap 64 (curlen + len)) in
  put s (uwrap 64 (curlen + len)) [0].

Definition sdscat (s : sds) (t : list Z) : option sds := len ← strlen t; sdscatlen s t len.

Definition sdscatsds (s t : sds) : option sds := sdscatlen s (sh_buf t) (sdslen t).

Definition sdscpylen (s : sds) (t : list Z) (len : Z) : option sds :=
  s ← (if sdsalloc s <? len then sdsMakeRoomFor s (len - sdslen s) else Some s);
  bs ← mread t 0 len;
  s ← put s 0 bs;
  s ← put s len [0];
  Some (sdssetlen s len).

Definition sdscpy (s : sds) (t : list Z) : option sds := len ← strlen t; sdscpylen s t len.
End Alloc.

(** ** Editing in place *)

(** [strchr(cset, c) != NULL]: the terminator is part of the string searched. *)
Fixpoint strchr (cset : list Z) (c : Z) : option bool :=
  match cset with
  | [] => None
  | x :: cset => if x =? c then Some true else if x =? 0 then Some false else strchr cset c
  end.

Fixpoint trim_left (fuel : nat) (m : list Z) (cset : list Z) (sp ep : Z) : option Z :=
  if sp <=? ep then
    c ← m !! Z.to_nat sp;
    hit ← strchr cset c;
    if (hit : bool) then match fuel with O => None | S fuel => trim_left fuel m cset (sp + 1) ep end
    else Some sp
  else Some sp.

Fixpoint trim_right (fuel : nat) (m : list Z) (cset : list Z) (sp ep : Z) : option Z :=
  if ep >? sp then
    c ← m !! Z.to_nat ep;
    hit ← strchr cset c;
    if (hit : bool) then match fuel with O => None | S fuel => trim_right fuel m cset sp (ep - 1) end
    else Some ep
  else Some ep.

Definition sdstrim (s : sds) (cset : list Z) : option sds :=
  let ep := sdslen s - 1 in
  sp ← trim_left (length (sh_buf s)) (sh_buf s) cset 0 ep;
  ep ← trim_right (length (sh_buf s)) (sh_buf s) cset sp ep;
  let len := if sp >? ep then 0 else ep - sp + 1 in
  s ← (if negb (sp =? 0) then b ← mmove (sh_buf s) 0 sp len; Some (set_buf s b) else Some s);
  s ← put s len [0];
  Some (sdssetlen s len).

Definition sdsrange (s : sds) (start end_ : Z) : option sds :=
  let len := sdslen s in
  if len =? 0 then Some s else
  let start := if start <? 0 then Z.max 0 (swrap 64 (len + start)) else start in
  let end_ := if end_ <? 0 then Z.max 0 (swrap 64 (len + end_)) else end_ in
  let newlen := if start >? end_ then 0 else end_ - start + 1 in
  let '(start, newlen) :=
    if negb (newlen =? 0) then
      if start >=? swrap 64 len then (start, 0)
      else if end_ >=? swrap 64 len then
        let end_ := len - 1 in (start, if start >? end_ then 0 else end_ - start + 1)
      else (start, newlen)
    else (0, newlen) in
  s ← (if negb (start =? 0) && negb (newlen =? 0)
       then b ← mmove (sh_buf s) 0 start newlen; Some (set_buf s b) else Some s);
  s ← put s newlen [0];
  Some (sdssetlen s newlen).

Definition tolower (c : Z) : Z := if (65 <=? c) && (c <=? 90) then c + 32 else c.
Definition toupper (c : Z) : Z := if (97 <=? c) && (c <=? 122) then c - 32 else c.

(** [for (j = 0; j < len; j++) s[j] = f(s[j]);] *)
Fixpoint map_bytes (n : nat) (f : Z -> Z) (s : sds) (j : Z) : option sds :=
  match n with
  | O => Some s
  | S n => c ← sh_buf s !! Z.to_nat j; s ← put s j [f c]; map_bytes n f s (j + 1)
  end.

Definition sdstolower (s : sds) : option sds := map_bytes (Z.to_nat (sdslen s)) tolower s 0.
Definition sdstoupper (s : sds) : option sds := map_bytes (Z.to_nat (sdslen s)) toupper s 0.

(** The inner loop of [sdsmapchars]: the first [i] with [from[i] == c]. *)
Fixpoint map_char (from to : list Z) (c : Z) : Z :=
  match from, to with
  | f :: from, t :: to => if c =? f then t else map_char from to c
  | _, _ => c
  end.

Definition sdsmapchars (s : sds) (from to : list Z) : option sds :=
  map_bytes (Z.to_nat (sdslen s)) (map_char from to) s 0.

(** ** Comparison *)

(** The sign of [memcmp] on two blocks of the same size. *)
Fixpoint memcmp (a b : list Z) : Z :=
  match a, b with
  | x :: a, y :: b => if x <? y then -1 else if x >? y then 1 else memcmp a b
  | _, _ => 0
  end.

Definition sdscmp (s1 s2 : sds) : option Z :=
  let l1 := sdslen s1 in
  let l2 := sdslen s2 in
  let minlen := if l1 <? l2 then l1 else l2 in
  a ← mread (sh_buf s1) 0 minlen;
  b ← mread (sh_buf s2) 0 minlen;
  let cmp := memcmp a b in
  if cmp =? 0 then Some (if l1 >? l2 then 1 else if l1 <? l2 then -1 else 0)
  else Some cmp.

(** ** Well-formed strings

    [sds_ok]: the flags name a type, the length is within the recorded
    capacity, the capacity fits its field and is backed, with one byte for
    the terminator, by the allocation. *)
Definition sds_ok (s : sds) : Prop :=
  (0 <= sh_flags s < 256 /\ sds_type s = SDS_TYPE_5 \/
   1 <= sh_flags s <= 4 /\ 0 <= sh_len s <= sh_alloc s /\ sh_alloc s < 2 ^ hdr_width (sh_flags s)) /\
  sdsalloc s + 1 <= zlen (sh_buf s).

(** [sds_holds s bs x]: [s] is well formed, its content is [bs] and the byte
    after it is [x]; a string proper is terminated, [sds_rep s bs]. *)
Definition sds_holds (s : sds) (bs : list Z) (x : Z) : Prop :=
  sds_ok s /\ sdslen s = zlen bs /\ mread (sh_buf s) 0 (zlen bs + 1) = Some (bs ++ [x]).

Definition sds_rep (s : sds) (bs : list Z) : Prop := sds_holds s bs 0.

Lemma mread_self m : mread m 0 (zlen m) = Some m.
Proof.
  rewrite mread_is_Some by (pose proof (zlen_nonneg m); lia).
  rewrite drop_0, take_ge; [done|]. unfold zlen. lia.
Qed.

Lemma rep_split s bs :
  sds_rep s bs <-> sds_ok s /\ sdslen s = zlen bs /\ mread (sh_buf s) 0 (zlen bs) = Some bs /\
    mread (sh_buf s) (zlen bs) 1 = Some [0].
Proof. unfold sds_rep, sds_holds. change 1 with (zlen [0]). rewrite mread_app. done. Qed.

Lemma put_Some s i bs s' :
  put s i bs = Some s' -> exists b, mwrite (sh_buf s) i bs = Some b /\ s' = set_buf s b.
Proof. unfold put. intros (b & ? & ?)%bind_Some. simplify_eq. eauto. Qed.

Lemma put_is_Some s i bs :
  0 <= i -> i + zlen bs <= zlen (sh_buf s) ->
  exists b, put s i bs = Some (set_buf s b) /\ mwrite (sh_buf s) i bs = Some b /\ zlen b = zlen (sh_buf s).
Proof.
  intros Hi Hl. destruct (mwrite_is_Some (sh_buf s) i bs Hi Hl) as [b Hb]. exists b.
  unfold put. rewrite Hb. split_and!; try done. by apply mwrite_Some in Hb as (_&_&?&_).
Qed.

Lemma ok_type s : sds_ok s -> sds_type s = SDS_TYPE_5 \/ sds_type s = sh_flags s /\ 1 <= sh_flags s <= 4.
Proof.
  intros [[[_ ?]|[? _]] _]; [by left|right]. split; [|done]. unfold sds_type, SDS_TYPE_MASK.
  assert (sh_flags s = 1 \/ sh_flags s = 2 \/ sh_flags s = 3 \/ sh_flags s = 4) as [-> |[-> |[-> | ->]]] by lia;
    reflexivity.
Qed.

(** The header functions of a well-formed string, by type. *)
Lemma hdr_cases s :
  sds_ok s ->
  (sds_type s = 0 /\ 0 <= sh_flags s < 256 /\ sdslen s = sh_flags s / 8 /\ sdsalloc s = sh_flags s / 8 /\
   sdsavail s = 0 /\ 0 <= sdslen s < 32) \/
  (1 <= sds_type s <= 4 /\ sds_type s = sh_flags s /\ sdslen s = sh_len s /\ sdsalloc s = sh_alloc s /\
   sdsavail s = sh_alloc s - sh_len s /\ 0 <= sh_len s <= sh_alloc s /\
   sh_alloc s < 2 ^ hdr_width (sds_type s)).
Proof.
  intros Hok. pose proof (ok_type s Hok) as Ht. destruct Hok as [Hf _].
  unfold sdslen, sdsalloc, sdsavail, SDS_TYPE_5_LEN, SDS_TYPE_BITS, SDS_TYPE_5, SDS_TYPE_32, SDS_TYPE_64 in *.
  rewrite Z.shiftr_div_pow2 by lia. change (2 ^ 3) with 8.
  destruct Ht as [E|[E Hr]]; rewrite E.
  - left. destruct Hf as [[Hf _]|[Hf _]].
    + split_and!; try done; try lia; try (apply Z.div_pos; lia); try (apply Z.div_lt_upper_bound; lia).
    + exfalso. unfold sds_type, SDS_TYPE_MASK in E.
      assert (sh_flags s = 1 \/ sh_flags s = 2 \/ sh_flags s = 3 \/ sh_flags s = 4) as [X |[X |[X | X]]] by lia;
        rewrite X in E; discriminate.
  - right. destruct Hf as [[_ Hf]|(_ & Hl & Ha)]; [rewrite E in Hf; lia|].
    rewrite (proj2 (Z.eqb_neq _ 0)), (proj2 (Z.leb_le _ 4)) by lia.
    split_and!; try done; try lia.
    destruct (Z.eqb_spec (sh_flags s) 3) as [E3|E3].
    + rewrite E3 in Ha. apply uwrap_small. unfold hdr_width in Ha. simpl in Ha. width_lia.
    + apply uwrap_small. assert (2 ^ hdr_width (sh_flags s) <= 2 ^ 64); [|width_lia].
      apply Z.pow_le_mono_r; [lia|]. unfold hdr_width. repeat case_match; lia.
Qed.

Lemma ok_bounds s :
  sds_ok s -> 0 <= sdslen s <= sdsalloc s /\ sdsavail s = sdsalloc s - sdslen s /\
  sdsalloc s < 2 ^ 64 /\ sdsalloc s + 1 <= zlen (sh_buf s).
Proof.
  intros Hok. pose proof (hdr_cases s Hok) as Hc. destruct Hok as [_ Hb].
  assert (forall t, hdr_width t <= 64) as Hw by (intros t; unfold hdr_width; repeat case_match; lia).
  destruct Hc as [(_ & _ & ? & ? & ? & ?)|(_ & _ & E1 & E2 & E3 & ? & ?)]; [split_and!; lia|].
  rewrite E1, E2, E3 in *. pose proof (Z.pow_le_mono_r 2 (hdr_width (sds_type s)) 64 ltac:(lia) (Hw _)).
  split_and!; lia.
Qed.

Lemma sds_type_set_buf s b : sds_type (set_buf s b) = sds_type s.
Proof. done. Qed.

Lemma ok_set_buf s b : sds_ok s -> zlen (sh_buf s) <= zlen b -> sds_ok (set_buf s b).
Proof. intros [Hf Hb] Hl. split; [exact Hf|]. change (sdsalloc (set_buf s b)) with (sdsalloc s). simpl. lia. Qed.

Lemma land7_shift n : 0 <= n < 32 -> Z.land (n * 8) 7 = 0 /\ n * 8 / 8 = n.
Proof.
  intros Hn. change 7 with (Z.ones 3). rewrite Z.land_ones by lia.
  split; [apply Z.mod_mul; lia|apply Z.div_mul; lia].
Qed.

Lemma type5_flags n :
  0 <= n < 32 -> uwrap 8 (Z.lor SDS_TYPE_5 (uwrap 64 (Z.shiftl n SDS_TYPE_BITS))) = n * 8.
Proof.
  intros Hn. unfold SDS_TYPE_5, SDS_TYPE_BITS. rewrite Z.lor_0_l, Z.shiftl_mul_pow2 by lia.
  change (2 ^ 3) with 8. rewrite (uwrap_small 64) by width_lia. apply uwrap_small. width_lia.
Qed.

(** Setting a length within the capacity; type 5 has no other record of its
    capacity than the length. *)
Lemma sdssetlen_spec s n :
  sds_ok s -> 0 <= n <= sdsalloc s ->
  sds_ok (sdssetlen s n) /\ sdslen (sdssetlen s n) = n /\ sh_buf (sdssetlen s n) = sh_buf s /\
  sdsalloc (sdssetlen s n) <= sdsalloc s.
Proof.
  intros Hok Hn. destruct (ok_bounds s Hok) as (_ & _ & _ & Hb).
  destruct (hdr_cases s Hok) as [(Et & Hf & El & Ea & _ & Hl)|(Et & Ef & El & Ea & _ & Hl & Hw)].
  - assert (0 <= n < 32) as Hn32 by lia. destruct (land7_shift n Hn32) as [L1 L2].
    unfold sdssetlen. rewrite Et. change (0 =? SDS_TYPE_5) with true. cbv iota.
    rewrite type5_flags by done. unfold sds_ok, sdslen, sdsalloc, sds_type, set_flags.
    cbn [sh_flags sh_buf]. unfold SDS_TYPE_MASK. rewrite L1. change (0 =? SDS_TYPE_5) with true. cbv iota.
    unfold SDS_TYPE_5_LEN, SDS_TYPE_BITS. rewrite !Z.shiftr_div_pow2 by lia. change (2 ^ 3) with 8. rewrite L2.
    split_and!; try done; try lia; [left; split; [lia|done]|].
    change (Z.land (sh_flags s) 7) with (sds_type s). rewrite Et. change (0 =? SDS_TYPE_5) with true. cbv iota.
    lia.
  - unfold sdssetlen, SDS_TYPE_5, SDS_TYPE_64. rewrite (proj2 (Z.eqb_neq _ 0)), (proj2 (Z.leb_le _ 4)) by lia.
    rewrite uwrap_small by (unfold in_u; lia).
    assert (sds_type (set_len s n) = sds_type s) as Et' by done.
    unfold sdslen, sdsalloc in *. rewrite Et' in *. unfold SDS_TYPE_5, SDS_TYPE_64 in *.
    rewrite (proj2 (Z.eqb_neq _ 0)), (proj2 (Z.leb_le _ 4)) in * by lia. cbn [set_len sh_len sh_alloc sh_buf].
    split_and!; try done; try lia. split; [right; cbn [set_len sh_flags sh_len sh_alloc]; rewrite <- Ef; lia|].
    unfold sdsalloc. rewrite Et'. unfold SDS_TYPE_5, SDS_TYPE_64.
    rewrite (proj2 (Z.eqb_neq _ 0)), (proj2 (Z.leb_le _ 4)) by lia. simpl. lia.
Qed.

(** ** Capacity *)

Lemma reqtype_fits n :
  0 <= n < 2 ^ 64 ->
  let t := sdsReqType n in
  0 <= t <= 4 /\ (t = 0 -> n < 32) /\ (1 <= t -> n < 2 ^ hdr_width t) /\ (n < 256 -> t <= 1).
Proof.
  intros Hn. unfold sdsReqType, SDS_TYPE_5, SDS_TYPE_8, SDS_TYPE_16, SDS_TYPE_32, SDS_TYPE_64.
  rewrite !Z.shiftl_mul_pow2 by lia. change (1 * 2 ^ 5) with 32. change (1 * 2 ^ 8) with 256.
  change (1 * 2 ^ 16) with 65536. change (1 * 2 ^ 32) with 4294967296.
  repeat case_match; unfold hdr_width; simpl; split_and!; try lia; width_lia.
Qed.

Lemma hdrsize_bound t : 0 <= sdsHdrSize t <= 17.
Proof.
  unfold sdsHdrSize. set (x := Z.land t SDS_TYPE_MASK). repeat case_match; try lia.
  unfold hdr_width. repeat case_match; split; vm_compute; discriminate.
Qed.

Lemma zlen_malloc_buf junk hdrlen n :
  0 <= hdrlen -> 0 <= n -> hdrlen + n + 1 < 2 ^ 64 -> zlen (malloc_buf junk hdrlen n) = n + 1.
Proof.
  intros Hh Hn Hb. unfold malloc_buf. rewrite uwrap_small by (unfold in_u; lia).
  rewrite zlen_mrealloc; lia.
Qed.

(** A string under construction: header of type [t], room for [n] bytes. *)
Lemma setalloc_ok s t n len :
  sds_type s = t -> sh_flags s = t -> 1 <= t <= 4 -> 0 <= len <= n -> n < 2 ^ hdr_width t ->
  sh_len s = len -> n + 1 <= zlen (sh_buf s) ->
  sds_ok (sdssetalloc s n) /\ sdslen (sdssetalloc s n) = len /\ sdsalloc (sdssetalloc s n) = n /\
  sh_buf (sdssetalloc s n) = sh_buf s.
Proof.
  intros Et Ef Ht Hn Hw El Hb. unfold sdssetalloc, SDS_TYPE_5, SDS_TYPE_64.
  rewrite Et, (proj2 (Z.eqb_neq _ 0)), (proj2 (Z.leb_le _ 4)) by lia.
  rewrite uwrap_small by (unfold in_u; lia).
  assert (sds_type (set_alloc s n) = t) as Et' by done.
  assert (sdsalloc (set_alloc s n) = n) as Ea.
  { unfold sdsalloc. rewrite Et'. unfold SDS_TYPE_5, SDS_TYPE_64.
    by rewrite (proj2 (Z.eqb_neq _ 0)), (proj2 (Z.leb_le _ 4)) by lia. }
  split_and!; try done.
  - split; [right; cbn [set_alloc sh_flags sh_len sh_alloc]; rewrite Ef, El; lia|].
    rewrite Ea. simpl. lia.
  - unfold sdslen. rewrite Et'. unfold SDS_TYPE_5, SDS_TYPE_64.
    by rewrite (proj2 (Z.eqb_neq _ 0)), (proj2 (Z.leb_le _ 4)) by lia.
Qed.

Lemma type_of_flags t : 1 <= t <= 4 -> Z.land t SDS_TYPE_MASK = t.
Proof.
  intros Ht. assert (t = 1 \/ t = 2 \/ t = 3 \/ t = 4) as [-> |[-> |[-> | ->]]] by lia; reflexivity.
Qed.

Section AllocSpec.
Context (junk : nat -> Z).

(** The move to a block with another header type. *)
Lemma rehouse s t n bs x :
  sds_holds s bs x -> 1 <= t <= 4 -> zlen bs <= n -> n < 2 ^ hdr_width t -> n < 2 ^ 63 ->
  exists s', (tt ← mread (sh_buf s) 0 (sdslen s + 1);
              s' ← put (mk_sds t 0 0 (malloc_buf junk (sdsHdrSize t) n)) 0 tt;
              Some (sdssetlen s' (sdslen s))) = Some s' /\
    sds_holds (sdssetalloc s' n) bs x /\ sdsalloc (sdssetalloc s' n) = n.
Proof.
  intros (Hok & El & Hr) Ht Hn Hw Hn63. rewrite El, Hr. cbn [mbind option_bind].
  pose proof (zlen_nonneg bs) as Hb0. pose proof (hdrsize_bound t) as Hh.
  pose proof (zlen_malloc_buf junk (sdsHdrSize t) n ltac:(lia) ltac:(lia) ltac:(lia)) as Hm.
  destruct (put_is_Some (mk_sds t 0 0 (malloc_buf junk (sdsHdrSize t) n)) 0 (bs ++ [x]))
    as (b & -> & Hwr & Hbl); [done|simpl; rewrite Hm; zlia|]. cbn [mbind option_bind].
  eexists. split; [done|]. simpl in Hbl, Hwr.
  set (s1 := set_buf _ b). assert (sds_type s1 = t) as Et by (apply type_of_flags; done).
  assert (sdssetlen s1 (zlen bs) = set_len s1 (zlen bs)) as ->.
  { unfold sdssetlen, SDS_TYPE_5, SDS_TYPE_64. rewrite Et.
    rewrite (proj2 (Z.eqb_neq _ 0)), (proj2 (Z.leb_le _ 4)) by lia.
    rewrite uwrap_small; [done|]. unfold in_u. lia. }
  destruct (setalloc_ok (set_len s1 (zlen bs)) t n (zlen bs)) as (H1 & H2 & H3 & H4);
    try done; [simpl; lia|].
  split; [|done]. split; [done|]. split; [done|]. rewrite H4. simpl.
  apply mread_mwrite_same in Hwr. rewrite zlen_app in Hwr. done.
Qed.

Lemma resize_same_type s n bs x size :
  sds_holds s bs x -> 1 <= sds_type s <= 4 -> zlen bs <= n -> n < 2 ^ hdr_width (sds_type s) ->
  size = n + 1 ->
  sds_holds (sdssetalloc (set_buf s (mrealloc junk (sh_buf s) size)) n) bs x /\
  sdsalloc (sdssetalloc (set_buf s (mrealloc junk (sh_buf s) size)) n) = n.
Proof.
  intros (Hok & El & Hr) Ht Hn Hw ->. pose proof (zlen_nonneg bs) as Hb0.
  destruct (hdr_cases s Hok) as [(E & _)|(_ & Ef & El' & _)]; [lia|].
  destruct (setalloc_ok (set_buf s (mrealloc junk (sh_buf s) (n + 1))) (sds_type s) n (zlen bs))
    as (H1 & H2 & H3 & H4); try done; [by simpl; congruence|simpl; rewrite zlen_mrealloc; lia|].
  split; [|done]. split; [done|]. split; [done|]. rewrite H4. simpl.
  apply mread_bounds in Hr as Hbd. rewrite mread_mrealloc by lia. done.
Qed.

(** [sdsMakeRoomFor] keeps the content and provides the room asked for. *)
Lemma sdsMakeRoomFor_holds s bs x addlen :
  sds_holds s bs x -> 0 <= addlen -> zlen bs + addlen < 2 ^ 62 ->
  exists s', sdsMakeRoomFor junk s addlen = Some s' /\ sds_holds s' bs x /\ addlen <= sdsavail s' /\
    (sdsavail s < addlen -> sds_type s' <> SDS_TYPE_5 /\ sdsalloc s' =
       if zlen bs + addlen <? SDS_MAX_PREALLOC then 2 * (zlen bs + addlen)
       else zlen bs + addlen + SDS_MAX_PREALLOC) /\
    (addlen <= sdsavail s -> s' = s).
Proof.
  intros Hrep Ha Hb. pose proof Hrep as (Hok & El & Hr). pose proof (zlen_nonneg bs) as Hb0.
  unfold sdsMakeRoomFor. rewrite Z.geb_leb. destruct (Z.leb_spec addlen (sdsavail s)) as [Hle|Hgt].
  { exists s. split_and!; try done; lia. }
  pose proof (ok_bounds s Hok) as (Hb1 & Hb2 & _).
  rewrite El. rewrite (uwrap_small 64 (zlen bs + addlen)) by (unfold in_u; lia).
  set (newlen := if zlen bs + addlen <? SDS_MAX_PREALLOC then _ else _).
  assert (newlen = (if zlen bs + addlen <? SDS_MAX_PREALLOC then 2 * (zlen bs + addlen)
       else zlen bs + addlen + SDS_MAX_PREALLOC)) as En.
  { unfold newlen, SDS_MAX_PREALLOC. case_match; [lia|]. rewrite uwrap_small; [done|]. unfold in_u. lia. }
  assert (zlen bs + addlen <= newlen < 2 ^ 63) as Hnl.
  { rewrite En. unfold SDS_MAX_PREALLOC. destruct (Z.ltb_spec (zlen bs + addlen) (1024 * 1024)); lia. }
  clearbody newlen. destruct (reqtype_fits newlen ltac:(lia)) as (T1 & T2 & T3 & _).
  set (t0 := sdsReqType newlen) in *. cbv zeta. change SDS_TYPE_5 with 0. change SDS_TYPE_8 with 1.
  set (t := if t0 =? 0 then 1 else t0).
  assert (1 <= t <= 4 /\ newlen < 2 ^ hdr_width t) as [Ht Hw].
  { unfold t. destruct (Z.eqb_spec t0 0); [|split; [lia|apply T3; lia]].
    split; [lia|]. unfold hdr_width. simpl. lia. }
  pose proof (hdrsize_bound t) as Hh.
  destruct (Z.eqb_spec (sds_type s) t) as [Ett|Ett].
  - destruct (resize_same_type s newlen bs x (uwrap 64 (sdsHdrSize t + newlen + 1) - sdsHdrSize t)
      Hrep ltac:(lia) ltac:(lia) ltac:(rewrite Ett; lia)) as [H1 H2].
    { rewrite uwrap_small by (unfold in_u; lia). lia. }
    cbn [mbind option_bind]. eexists. split; [done|]. split; [done|].
    destruct (ok_bounds _ (proj1 H1)) as (_ & Eav & _). rewrite Eav, H2, (proj1 (proj2 H1)).
    split; [lia|]. split; [|lia]. intros _. split; [|done].
    destruct (hdr_cases _ (proj1 H1)) as [(_ & _ & E1 & E2 & _)|(E & _)]; [|lia].
    rewrite (proj1 (proj2 H1)) in E1. lia.
  - destruct (rehouse s t newlen bs x Hrep Ht ltac:(lia) Hw ltac:(lia)) as (s' & Hs' & H1 & H2).
    rewrite El in Hs'. rewrite Hs'. cbn [mbind option_bind]. eexists. split; [done|]. split; [done|].
    destruct (ok_bounds _ (proj1 H1)) as (_ & Eav & _). rewrite Eav, H2, (proj1 (proj2 H1)).
    split; [lia|]. split; [|lia]. intros _. split; [|done].
    destruct (hdr_cases _ (proj1 H1)) as [(_ & _ & E1 & E2 & _)|(E & _)]; [|lia].
    rewrite (proj1 (proj2 H1)) in E1. lia.
Qed.

Lemma sdsMakeRoomFor_spec s bs addlen :
  sds_rep s bs -> 0 <= addlen -> zlen bs + addlen < 2 ^ 62 ->
  exists s', sdsMakeRoomFor junk s addlen = Some s' /\ sds_rep s' bs /\ addlen <= sdsavail s' /\
    (sdsavail s < addlen -> sds_type s' <> SDS_TYPE_5 /\ sdsalloc s' =
       if zlen bs + addlen <? SDS_MAX_PREALLOC then 2 * (zlen bs + addlen)
       else zlen bs + addlen + SDS_MAX_PREALLOC) /\
    (addlen <= sdsavail s -> s' = s).
Proof. apply sdsMakeRoomFor_holds. Qed.

Lemma setlen_set_buf s b n : sdssetlen (set_buf s b) n = set_buf (sdssetlen s n) b.
Proof. unfold sdssetlen. rewrite sds_type_set_buf. by repeat case_match. Qed.

Lemma terminate s bs :
  sds_ok s -> mread (sh_buf s) 0 (zlen bs) = Some bs -> sdslen s = zlen bs ->
  exists b, put s (zlen bs) [0] = Some (set_buf s b) /\ sds_rep (set_buf s b) bs.
Proof.
  intros Hok Hr Hn. pose proof (zlen_nonneg bs) as H0. pose proof (ok_bounds s Hok) as (Hl & _ & _ & Hb).
  destruct (put_is_Some s (zlen bs) [0]) as (b & Hp & Hw & Hlb); [done|zlia|].
  exists b. split; [done|]. apply rep_split. split_and!; try done.
  - apply ok_set_buf; [done|lia].
  - simpl. rewrite <- Hr. apply (mread_mwrite_disj _ _ _ _ _ _ Hw). lia.
  - by apply mread_mwrite_same in Hw.
Qed.

(** Terminating a prefix of the buffer and recording its length. *)
Lemma close_string s bs :
  sds_ok s -> mread (sh_buf s) 0 (zlen bs) = Some bs -> zlen bs <= sdsalloc s ->
  exists s', put s (zlen bs) [0] = Some s' /\ sds_rep (sdssetlen s' (zlen bs)) bs /\
    put (sdssetlen s (zlen bs)) (zlen bs) [0] = Some (sdssetlen s' (zlen bs)).
Proof.
  intros Hok Hr Hn. pose proof (zlen_nonneg bs) as H0.
  destruct (sdssetlen_spec s (zlen bs) Hok) as (S1 & S2 & S3 & _); [done|].
  destruct (terminate (sdssetlen s (zlen bs)) bs S1) as (b & Hp & Hrep); [by rewrite S3|done|].
  rewrite <- setlen_set_buf in *. exists (set_buf s b). split_and!; try done.
  apply put_Some in Hp as (b' & Hw & E). rewrite S3 in Hw. unfold put. rewrite Hw.
  rewrite setlen_set_buf in E. injection E as ->. done.
Qed.

(** Overwriting the buffer from [i] on. *)
Lemma put_content s i bs ts :
  sds_ok s -> mread (sh_buf s) 0 i = Some bs -> i + zlen ts <= zlen (sh_buf s) ->
  exists s', put s i ts = Some s' /\ sds_ok s' /\ sdsalloc s' = sdsalloc s /\ sds_type s' = sds_type s /\
    sdslen s' = sdslen s /\ zlen (sh_buf s') = zlen (sh_buf s) /\
    mread (sh_buf s') 0 (zlen (bs ++ ts)) = Some (bs ++ ts).
Proof.
  intros Hok Hr Hl. pose proof (mread_zlen _ _ _ _ Hr) as El. pose proof (mread_bounds _ _ _ _ Hr).
  destruct (put_is_Some s i ts) as (b & Hp & Hw & Hb); [lia|done|].
  exists (set_buf s b). split_and!; try done; [apply ok_set_buf; [done|lia]|].
  rewrite zlen_app. apply mread_app. split.
  - rewrite El, <- Hr. apply (mread_mwrite_disj _ _ _ _ _ _ Hw). lia.
  - rewrite El. simpl. by apply mread_mwrite_same in Hw.
Qed.

Lemma fresh5_ok n buf :
  0 <= n < 32 -> n + 1 <= zlen buf ->
  let s := mk_sds (n * 8) 0 0 buf in
  sds_type s = 0 /\ sds_ok s /\ sdslen s = n /\ sdsalloc s = n.
Proof.
  intros Hn Hb. destruct (land7_shift n Hn) as [L1 L2].
  unfold sds_ok, sdslen, sdsalloc, sds_type, SDS_TYPE_MASK. cbn [sh_flags sh_buf]. rewrite L1.
  change (0 =? SDS_TYPE_5) with true. cbv iota. unfold SDS_TYPE_5_LEN, SDS_TYPE_BITS.
  rewrite Z.shiftr_div_pow2 by lia. change (2 ^ 3) with 8. rewrite L2.
  split_and!; try done. left. split; [lia|done].
Qed.

Lemma fresh_ok t n buf :
  (t = 0 -> n < 32) -> 0 <= t <= 4 -> 0 <= n -> (1 <= t -> n < 2 ^ hdr_width t) -> n + 1 <= zlen buf ->
  let s := if t =? 0 then mk_sds (uwrap 8 (Z.lor t (uwrap 64 (Z.shiftl n SDS_TYPE_BITS)))) 0 0 buf
           else mk_sds t (uwrap (hdr_width t) n) (uwrap (hdr_width t) n) buf in
  sds_ok s /\ sdslen s = n /\ sdsalloc s = n /\ sh_buf s = buf.
Proof.
  intros Ht0 Ht Hn Hw Hb. destruct (Z.eqb_spec t 0) as [->|Ht1]; cbv zeta.
  - change (Z.lor 0) with (Z.lor SDS_TYPE_5). rewrite type5_flags by lia.
    by destruct (fresh5_ok n buf ltac:(lia) Hb) as (_ & ? & ? & ?).
  - rewrite uwrap_small by (unfold in_u; lia).
    unfold sds_ok, sdslen, sdsalloc, sds_type. cbn [sh_flags sh_len sh_alloc sh_buf].
    rewrite type_of_flags by lia. unfold SDS_TYPE_5, SDS_TYPE_64.
    rewrite (proj2 (Z.eqb_neq _ 0)), (proj2 (Z.leb_le _ 4)) by lia.
    split_and!; try done. right. split; [lia|]. split; [lia|]. apply Hw. lia.
Qed.

Lemma sdsnewlen_spec bs m :
  mread m 0 (zlen bs) = Some bs -> zlen bs < 2 ^ 62 ->
  exists s, sdsnewlen junk (INIT_BYTES m) (zlen bs) = Some s /\ sds_rep s bs.
Proof.
  intros Hm Hb. pose proof (zlen_nonneg bs) as H0. unfold sdsnewlen.
  destruct (reqtype_fits (zlen bs) ltac:(lia)) as (T1 & T2 & T3 & _).
  set (t0 := sdsReqType (zlen bs)) in *. cbv zeta. change SDS_TYPE_5 with 0. change SDS_TYPE_8 with 1.
  set (t := if (t0 =? 0) && (zlen bs =? 0) then 1 else t0).
  assert ((t = 0 -> zlen bs < 32) /\ 0 <= t <= 4 /\ (1 <= t -> zlen bs < 2 ^ hdr_width t)) as (Ht1 & Ht2 & Ht3).
  { unfold t. destruct (Z.eqb_spec t0 0), (Z.eqb_spec (zlen bs) 0); simpl; split_and!; auto; try lia.
    all: unfold hdr_width; simpl; lia. }
  pose proof (hdrsize_bound t) as Hh. set (buf := malloc_buf _ _ _).
  assert (zlen buf = zlen bs + 1) as Hbuf by (apply zlen_malloc_buf; lia).
  destruct (fresh_ok t (zlen bs) buf Ht1 Ht2 H0 Ht3 ltac:(lia)) as (Hok & El & Ea & Eb). cbv zeta in Hok, El, Ea, Eb.
  set (s := if t =? 0 then _ else _) in *. clearbody s.
  assert (exists s1, (if negb (zlen bs =? 0) then t ← mread m 0 (zlen bs); put s 0 t else Some s) = Some s1 /\
    sds_ok s1 /\ sdslen s1 = zlen bs /\ mread (sh_buf s1) 0 (zlen bs) = Some bs) as (s1 & -> & Hok1 & Hl1 & Hr1).
  { assert (mread (sh_buf s) 0 0 = Some []) as Hnil by (by rewrite mread_is_Some by (rewrite ?Eb; lia)).
    destruct (Z.eqb_spec (zlen bs) 0) as [Ez|Ez]; cbn [negb].
    - exists s. split_and!; try done. rewrite Ez. destruct bs; [done|]. rewrite zlen_cons in Ez.
      pose proof (zlen_nonneg bs). lia.
    - rewrite Hm. cbn [mbind option_bind].
      destruct (put_content s 0 [] bs Hok Hnil) as (s1 & ? & ? & ? & ? & ? & ? & ?); [rewrite Eb; lia|].
      exists s1. simpl in *. split_and!; try done. lia. }
  cbn [mbind option_bind]. destruct (terminate s1 bs Hok1 Hr1 Hl1) as (b & Hp & Hrep). eauto.
Qed.

Lemma sdscatlen_spec s bs t ts :
  sds_rep s bs -> mread t 0 (zlen ts) = Some ts -> zlen bs + zlen ts < 2 ^ 62 ->
  exists s', sdscatlen junk s t (zlen ts) = Some s' /\ sds_rep s' (bs ++ ts).
Proof.
  intros Hrep Ht Hb. pose proof (zlen_nonneg bs). pose proof (zlen_nonneg ts).
  destruct (sdsMakeRoomFor_spec s bs (zlen ts) Hrep ltac:(lia) Hb) as (s1 & E1 & Hrep1 & Hav & _).
  unfold sdscatlen. rewrite E1, Ht. cbn [mbind option_bind]. rewrite (proj1 (proj2 Hrep)).
  apply rep_split in Hrep1 as (Hok1 & El1 & Hr1 & _). pose proof (ok_bounds s1 Hok1) as (? & ? & ? & ?).
  destruct (put_content s1 (zlen bs) bs ts Hok1 Hr1) as (s2 & -> & Hok2 & Ha2 & _ & _ & _ & Hr2); [lia|].
  cbn [mbind option_bind]. rewrite uwrap_small by (unfold in_u; lia).
  destruct (close_string s2 (bs ++ ts) Hok2 Hr2) as (s3 & _ & Hrep3 & E3); [zlia|].
  rewrite zlen_app in E3. rewrite E3. rewrite zlen_app in Hrep3. eauto.
Qed.

Lemma sdscpylen_spec s bs t ts :
  sds_rep s bs -> mread t 0 (zlen ts) = Some ts -> zlen ts < 2 ^ 62 ->
  exists s', sdscpylen junk s t (zlen ts) = Some s' /\ sds_rep s' ts.
Proof.
  intros Hrep Ht Hb. pose proof (zlen_nonneg bs). pose proof (zlen_nonneg ts). unfold sdscpylen.
  assert (exists s1, (if sdsalloc s <? zlen ts then sdsMakeRoomFor junk s (zlen ts - sdslen s) else Some s) = Some s1
    /\ sds_ok s1 /\ zlen ts <= sdsalloc s1) as (s1 & -> & Hok1 & Ha1).
  { pose proof (ok_bounds s (proj1 Hrep)). destruct (Z.ltb_spec (sdsalloc s) (zlen ts)).
    - rewrite (proj1 (proj2 Hrep)) in *.
      destruct (sdsMakeRoomFor_spec s bs (zlen ts - zlen bs) Hrep) as (s1 & E1 & Hrep1 & Hav & _); [lia..|].
      exists s1. pose proof (ok_bounds s1 (proj1 Hrep1)) as (? & ? & _). rewrite (proj1 (proj2 Hrep1)) in *.
      split_and!; [done|apply Hrep1|lia].
    - exists s. split_and!; [done|apply Hrep|lia]. }
  cbn [mbind option_bind]. rewrite Ht. cbn [mbind option_bind].
  pose proof (ok_bounds s1 Hok1) as (? & ? & ? & ?).
  destruct (put_content s1 0 [] ts Hok1) as (s2 & -> & Hok2 & Ha2 & _ & _ & _ & Hr2);
    [by rewrite mread_is_Some by lia|lia|].
  cbn [mbind option_bind]. simpl app in Hr2.
  destruct (close_string s2 ts Hok2 Hr2) as (s3 & -> & Hrep3 & _); [lia|]. eauto.
Qed.

Lemma sdsgrowzero_spec s bs len :
  sds_rep s bs -> 0 <= len < 2 ^ 62 ->
  exists s', sdsgrowzero junk s len = Some s' /\
    sds_rep s' (bs ++ replicate (Z.to_nat (len - zlen bs)) 0).
Proof.
  intros Hrep Hl. pose proof (zlen_nonneg bs). unfold sdsgrowzero. rewrite (proj1 (proj2 Hrep)).
  destruct (Z.leb_spec len (zlen bs)) as [Hle|Hgt].
  { exists s. split; [done|]. replace (Z.to_nat (len - zlen bs)) with 0%nat by lia. by rewrite app_nil_r. }
  destruct (sdsMakeRoomFor_spec s bs (len - zlen bs) Hrep) as (s1 & -> & Hrep1 & Hav & _); [lia..|].
  cbn [mbind option_bind].
  apply rep_split in Hrep1 as (Hok1 & El1 & Hr1 & _). pose proof (ok_bounds s1 Hok1) as (? & ? & ? & ?).
  destruct (put_content s1 (zlen bs) bs (replicate (Z.to_nat (len - zlen bs + 1)) 0) Hok1 Hr1)
    as (s2 & -> & Hok2 & Ha2 & _ & _ & _ & Hr2); [rewrite zlen_replicate; lia|].
  cbn [mbind option_bind].
  replace (Z.to_nat (len - zlen bs + 1)) with (Z.to_nat (len - zlen bs) + 1)%nat in Hr2 by lia.
  rewrite replicate_add, app_assoc in Hr2. simpl (replicate 1 0) in Hr2.
  set (ts := bs ++ replicate (Z.to_nat (len - zlen bs)) 0) in *.
  assert (zlen ts = len) as Et by (unfold ts; rewrite zlen_app, zlen_replicate; lia).
  destruct (sdssetlen_spec s2 len Hok2) as (S1 & S2 & S3 & _); [lia|].
  eexists. split; [done|]. split; [done|]. rewrite S3. split; [by rewrite S2|].
  by rewrite zlen_app in Hr2.
Qed.

Lemma sdsclear_spec s bs : sds_rep s bs -> exists s', sdsclear s = Some s' /\ sds_rep s' [].
Proof.
  intros Hrep. pose proof (ok_bounds s (proj1 Hrep)) as (? & ? & ? & ?).
  assert (mread (sh_buf s) 0 0 = Some []) as Hnil by (by rewrite mread_is_Some by lia).
  destruct (close_string s [] (proj1 Hrep) Hnil) as (s' & _ & Hrep' & E); [rewrite zlen_nil; lia|].
  exists (sdssetlen s' 0). split; [exact E|exact Hrep'].
Qed.

(** The move down to type 5: the length goes into the flags. *)
Lemma rehouse5 s bs :
  sds_rep s bs -> zlen bs < 32 ->
  exists s', (tt ← mread (sh_buf s) 0 (sdslen s + 1);
              s' ← put (mk_sds 0 0 0 (malloc_buf junk (sdsHdrSize 0) (sdslen s))) 0 tt;
              Some (sdssetlen s' (sdslen s))) = Some s' /\
    sds_rep (sdssetalloc s' (zlen bs)) bs /\ sdsalloc (sdssetalloc s' (zlen bs)) = zlen bs.
Proof.
  intros (Hok & El & Hr) Hb. pose proof (zlen_nonneg bs) as H0. rewrite El, Hr. cbn [mbind option_bind].
  pose proof (hdrsize_bound 0). set (hd := sdsHdrSize 0) in *.
  pose proof (zlen_malloc_buf junk hd (zlen bs) ltac:(lia) H0 ltac:(lia)) as Hm.
  set (buf := malloc_buf _ _ _) in *.
  destruct (put_is_Some (mk_sds 0 0 0 buf) 0 (bs ++ [0])) as (b & -> & Hwr & Hbl); [done|simpl; zlia|].
  cbn [mbind option_bind sh_buf] in *.
  destruct (fresh5_ok (zlen bs) b ltac:(lia) ltac:(lia)) as (G0 & G1 & G2 & G3).
  assert (sdssetlen (set_buf (mk_sds 0 0 0 buf) b) (zlen bs) = mk_sds (zlen bs * 8) 0 0 b) as Es.
  { unfold sdssetlen. change (sds_type _) with 0. rewrite type5_flags by lia. reflexivity. }
  assert (sdssetalloc (mk_sds (zlen bs * 8) 0 0 b) (zlen bs) = mk_sds (zlen bs * 8) 0 0 b) as Ea.
  { unfold sdssetalloc. by rewrite G0. }
  eexists. split; [done|]. rewrite Es, Ea. split; [|done]. split; [done|]. split; [done|].
  cbn [sh_buf]. apply mread_mwrite_same in Hwr. by rewrite zlen_app in Hwr.
Qed.

Lemma sdsRemoveFreeSpace_spec s bs :
  sds_rep s bs -> zlen bs < 2 ^ 62 ->
  exists s', sdsRemoveFreeSpace junk s = Some s' /\ sds_rep s' bs /\ sdsavail s' = 0.
Proof.
  intros Hrep Hb. pose proof Hrep as (Hok & El & Hr). pose proof (zlen_nonneg bs) as H0.
  pose proof (ok_bounds s Hok) as (? & Hav & _). unfold sdsRemoveFreeSpace.
  destruct (Z.eqb_spec (sdsavail s) 0) as [Ez|Ez]; [by eauto|].
  destruct (reqtype_fits (zlen bs) ltac:(lia)) as (T1 & T2 & T3 & _).
  destruct (hdr_cases s Hok) as [(_ & _ & _ & _ & Ea & _)|(Ht & Ef & Es & Ea & _ & _ & Hw)]; [lia|].
  rewrite El. set (t := sdsReqType (zlen bs)) in *. unfold SDS_TYPE_8. cbv zeta.
  assert (forall s', sds_rep s' bs -> sdsalloc s' = zlen bs -> sdsavail s' = 0) as Hfin.
  { intros s' (Hok' & El' & _) E. pose proof (ok_bounds s' Hok'). lia. }
  destruct ((sds_type s =? t) || (t >? 1)) eqn:Eb.
  - cbn [mbind option_bind]. pose proof (hdrsize_bound (sds_type s)).
    destruct (resize_same_type s (zlen bs) bs 0 (uwrap 64 (sdsHdrSize (sds_type s) + zlen bs + 1) - sdsHdrSize (sds_type s))
      Hrep Ht ltac:(lia) ltac:(lia)) as [R1 R2].
    { rewrite uwrap_small by (unfold in_u; lia). lia. }
    eauto 10.
  - apply orb_false_iff in Eb as [E1%Z.eqb_neq E2]. assert (t = 0 \/ t = 1) as [E|E] by lia.
    + rewrite E, <- El. destruct (rehouse5 s bs Hrep ltac:(lia)) as (s' & Hs' & R1 & R2).
      rewrite Hs'. cbn [mbind option_bind]. rewrite El. eauto 10.
    + destruct (rehouse s t (zlen bs) bs 0 Hrep) as (s' & Hs' & R1 & R2); [lia|lia|apply T3; lia|lia|].
      rewrite El in Hs'. rewrite Hs'. cbn [mbind option_bind]. eauto 10.
Qed.
End AllocSpec.

(** ** Null-terminated arguments *)

Definition cstring (m cs : list Z) : Prop := exists r, m = cs ++ 0 :: r /\ Forall (fun c => c <> 0) cs.

Lemma strlen_spec m cs : cstring m cs -> strlen m = Some (zlen cs) /\ mread m 0 (zlen cs) = Some cs.
Proof.
  intros (r & -> & Hnz). split.
  - induction Hnz as [|c cs Hc Hcs IH]; [done|]. cbn [app strlen].
    rewrite (proj2 (Z.eqb_neq c 0)) by done. rewrite IH. cbn [mbind option_bind]. by rewrite zlen_cons.
  - pose proof (zlen_nonneg cs). rewrite mread_is_Some by zlia. f_equal. simpl. unfold zlen.
    by rewrite Nat2Z.id, drop_0, take_app_length.
Qed.

Lemma strlen_cstring m n : strlen m = Some n -> exists cs, cstring m cs /\ n = zlen cs.
Proof.
  revert n. induction m as [|c m IH]; intros n; [done|]. cbn [strlen].
  destruct (Z.eqb_spec c 0) as [->|Hc].
  - intros [= <-]. exists []. split; [|done]. exists m. split; [done|constructor].
  - destruct (strlen m) as [k|] eqn:E; [|done]. intros [= <-].
    destruct (IH k eq_refl) as (cs & (r & -> & Hcs) & ->). exists (c :: cs).
    split; [|by rewrite zlen_cons]. exists r. split; [done|by constructor].
Qed.

Lemma strchr_spec m cs c : cstring m cs -> strchr m c = Some (bool_decide (c ∈ cs \/ c = 0)).
Proof.
  intros (r & -> & Hnz). induction Hnz as [|x cs Hx Hcs IH]; cbn [app strchr].
  - destruct (Z.eqb_spec 0 c) as [<-|Hc].
    + by rewrite bool_decide_eq_true_2 by by right.
    + rewrite bool_decide_eq_false_2; [done|]. intros [?%elem_of_nil|?]; [done|congruence].
  - destruct (Z.eqb_spec x c) as [->|Hxc].
    + by rewrite bool_decide_eq_true_2 by (left; apply elem_of_cons; by left).
    + rewrite (proj2 (Z.eqb_neq x 0)) by done. rewrite IH. f_equal. apply bool_decide_ext.
      rewrite elem_of_cons. naive_solver.
Qed.

(** ** Trimming *)

Fixpoint drop_while (P : Z -> bool) (l : list Z) : list Z :=
  match l with
  | [] => []
  | x :: l' => if P x then drop_while P l' else l
  end.

Definition drop_while_end (P : Z -> bool) (l : list Z) : list Z := reverse (drop_while P (reverse l)).

(** The content without the bytes of the set at both ends. *)
Definition trim_bytes (P : Z -> bool) (l : list Z) : list Z := drop_while_end P (drop_while P l).

Lemma drop_while_suffix P l : exists p, l = p ++ drop_while P l /\ Forall (fun c => P c = true) p.
Proof.
  induction l as [|x l (p & E & Hp)]; [by exists []|]. simpl. destruct (P x) eqn:Hx.
  - exists (x :: p). simpl. rewrite <- E. split; [done|by constructor].
  - exists []. split; [done|constructor].
Qed.

Lemma drop_while_end_snoc P l x :
  drop_while_end P (l ++ [x]) = if P x then drop_while_end P l else l ++ [x].
Proof.
  unfold drop_while_end. rewrite reverse_snoc. simpl. case_match; [done|].
  by rewrite reverse_cons, reverse_involutive.
Qed.

Lemma drop_while_end_prefix P l : exists q, l = drop_while_end P l ++ q.
Proof.
  destruct (drop_while_suffix P (reverse l)) as (p & E & _). exists (reverse p).
  unfold drop_while_end. rewrite <- reverse_app, <- E. by rewrite reverse_involutive.
Qed.

Section Trim.
Context (m cset cs : list Z) (Hc : cstring cset cs).

Definition in_set (c : Z) : bool := bool_decide (c ∈ cs \/ c = 0).

Lemma trim_left_spec fuel pre rest :
  mread m 0 (zlen (pre ++ rest)) = Some (pre ++ rest) -> (length rest <= fuel)%nat ->
  trim_left fuel m cset (zlen pre) (zlen (pre ++ rest) - 1)
    = Some (zlen (pre ++ rest) - zlen (drop_while in_set rest)).
Proof using Hc.
  revert pre fuel. induction rest as [|c rest IH]; intros pre fuel Hm Hf.
  - rewrite app_nil_r in *. simpl. rewrite Z.sub_0_r.
    destruct fuel; simpl; rewrite (proj2 (Z.leb_gt _ _)) by lia; done.
  - assert (m !! Z.to_nat (zlen pre) = Some c) as Hlook.
    { apply mread_Some in Hm as (_ & _ & _ & _ & Hi). specialize (Hi (length pre)).
      rewrite zlen_app, zlen_cons in Hi. rewrite list_lookup_middle in Hi by done.
      rewrite Hi by (pose proof (zlen_nonneg rest); unfold zlen; lia). simpl. f_equal.
      unfold zlen. lia. }
    simpl in Hf. destruct fuel as [|fuel]; [lia|]. cbn [trim_left drop_while].
    rewrite (proj2 (Z.leb_le _ _)) by (rewrite zlen_app, zlen_cons; pose proof (zlen_nonneg rest); lia).
    rewrite Hlook. cbn [mbind option_bind]. rewrite (strchr_spec cset cs c Hc). cbn [mbind option_bind].
    fold (in_set c). destruct (in_set c).
    + replace (zlen pre + 1) with (zlen (pre ++ [c])) by zlia.
      replace (pre ++ c :: rest) with ((pre ++ [c]) ++ rest) in * by by rewrite <- app_assoc.
      apply IH; [done|lia].
    + f_equal. rewrite zlen_app. lia.
Qed.

Lemma trim_right_spec fuel pre mid post :
  mread m 0 (zlen (pre ++ mid ++ post)) = Some (pre ++ mid ++ post) -> (length mid <= fuel)%nat ->
  (forall c l, mid = c :: l -> in_set c = false) ->
  trim_right fuel m cset (zlen pre) (zlen (pre ++ mid) - 1)
    = Some (zlen (pre ++ drop_while_end in_set mid) - 1).
Proof using Hc.
  revert fuel post. induction mid as [|c mid IH] using rev_ind; intros fuel post Hm Hf Hh.
  - rewrite app_nil_r. unfold drop_while_end. rewrite reverse_nil. simpl. rewrite reverse_nil, app_nil_r.
    destruct fuel; simpl; rewrite Z.gtb_ltb, (proj2 (Z.ltb_ge _ _)) by lia; done.
  - assert (m !! Z.to_nat (zlen (pre ++ mid)) = Some c) as Hlook.
    { apply mread_Some in Hm as (_ & _ & _ & _ & Hi). specialize (Hi (length (pre ++ mid))).
      rewrite <- app_assoc, app_assoc in Hi. simpl in Hi. rewrite list_lookup_middle in Hi by done.
      rewrite Hi; [f_equal; unfold zlen; lia|]. rewrite zlen_app, zlen_cons. pose proof (zlen_nonneg post).
      unfold zlen at 1. lia. }
    rewrite drop_while_end_snoc.
    assert (zlen (pre ++ mid ++ [c]) - 1 = zlen (pre ++ mid)) as El by zlia.
    rewrite length_app in Hf. simpl in Hf. destruct fuel as [|fuel]; [lia|]. cbn [trim_right].
    rewrite El, Z.gtb_ltb. destruct mid as [|x mid].
    + rewrite app_nil_r, (proj2 (Z.ltb_ge _ _)) by lia.
      rewrite (Hh c []) by done. f_equal. zlia.
    + rewrite (proj2 (Z.ltb_lt _ _)) by (rewrite zlen_app, zlen_cons; pose proof (zlen_nonneg mid); lia).
      rewrite Hlook. cbn [mbind option_bind]. rewrite (strchr_spec cset cs c Hc). cbn [mbind option_bind].
      fold (in_set c). destruct (in_set c) eqn:Ec.
      * apply (IH fuel (c :: post)).
        { rewrite <- (app_assoc (x :: mid)) in Hm. exact Hm. }
        { simpl in *. lia. }
        { intros c' l E. injection E as <- <-. by apply (Hh x (mid ++ [c])). }
      * f_equal. lia.
Qed.
End Trim.

Lemma mmove_prefix b b' src n ts : 
  mmove b 0 src n = Some b' -> mread b src n = Some ts -> mread b' 0 n = Some ts /\ zlen b' = zlen b.
Proof.
  intros Hm Hr. pose proof (mread_bounds _ _ _ _ Hr) as (? & ? & ?). split.
  - rewrite (mread_mmove_in _ _ _ _ _ 0 n Hm) by lia. exact Hr.
  - by apply mmove_Some in Hm as (_ & _ & _ & _ & _ & ? & _).
Qed.

(** Keeping the [n] bytes from [src] on: what [sdstrim] and [sdsrange] end
    with. *)
Lemma keep_slice s bs src n :
  sds_rep s bs -> 0 <= src -> 0 <= n -> src + n <= zlen bs ->
  exists s1, (if negb (src =? 0) then b ← mmove (sh_buf s) 0 src n; Some (set_buf s b) else Some s) = Some s1 /\
  exists s2, put s1 n [0] = Some s2 /\
    sds_rep (sdssetlen s2 n) (take (Z.to_nat n) (drop (Z.to_nat src) bs)).
Proof.
  intros Hrep Hs Hn Hb. apply rep_split in Hrep as (Hok & El & Hr & _).
  pose proof (ok_bounds s Hok) as (? & ? & ? & ?). set (ts := take _ _).
  assert (zlen ts = n) as Et by (unfold ts; rewrite zlen_take, zlen_drop; lia).
  assert (mread (sh_buf s) src n = Some ts) as Hts.
  { apply mread_Some. apply mread_Some in Hr as (_ & _ & ? & _ & Hi). split_and!; try lia.
    intros i Hlt. unfold ts. rewrite lookup_take_lt, lookup_drop by lia. by rewrite Hi by lia. }
  assert (exists s1, (if negb (src =? 0) then b ← mmove (sh_buf s) 0 src n; Some (set_buf s b) else Some s) = Some s1 /\
    sds_ok s1 /\ sdsalloc s1 = sdsalloc s /\ mread (sh_buf s1) 0 n = Some ts) as (s1 & -> & Hok1 & Ha1 & Hr1).
  { destruct (Z.eqb_spec src 0) as [->|Hne]; cbn [negb].
    - exists s. done.
    - destruct (mmove_is_Some (sh_buf s) 0 src n) as [b Hm]; [lia..|]. rewrite Hm. cbn [mbind option_bind].
      destruct (mmove_prefix _ _ _ _ _ Hm Hts) as [? ?]. exists (set_buf s b).
      split_and!; try done. apply ok_set_buf; [done|lia]. }
  exists s1. split; [done|]. rewrite <- Et in Hr1 |- *.
  destruct (close_string s1 ts Hok1 Hr1) as (s2 & Hp & Hrep2 & _); [lia|]. eauto.
Qed.

Lemma sdstrim_spec s bs cset cs :
  sds_rep s bs -> cstring cset cs ->
  exists s', sdstrim s cset = Some s' /\ sds_rep s' (trim_bytes (in_set cs) bs).
Proof.
  intros Hrep Hc. unfold sdstrim. pose proof (proj1 (rep_split s bs) Hrep) as (Hok & El & Hr & _).
  pose proof (mread_bounds _ _ _ _ Hr) as (_ & _ & Hlb). rewrite El.
  destruct (drop_while_suffix (in_set cs) bs) as (p & Ep & Hp).
  assert (forall c l, drop_while (in_set cs) bs = c :: l -> in_set cs c = false) as Hhd.
  { clear. induction bs as [|x bs IH]; [done|]. simpl. destruct (in_set cs x) eqn:Ex; [done|].
    intros c l E. by injection E as <- <-. }
  set (mid := drop_while (in_set cs) bs) in *.
  pose proof (trim_left_spec (sh_buf s) cset cs Hc (length (sh_buf s)) [] bs Hr) as HL.
  rewrite zlen_nil in HL. simpl app in HL. rewrite HL by (unfold zlen in Hlb; lia). clear HL.
  cbn [mbind option_bind].
  assert (zlen bs = zlen p + zlen mid) as Ebl by (rewrite Ep at 1; apply zlen_app).
  fold mid. replace (zlen bs - zlen mid) with (zlen p) by lia.
  pose proof (trim_right_spec (sh_buf s) cset cs Hc (length (sh_buf s)) p mid []) as HR.
  rewrite app_nil_r, <- Ep in HR. rewrite HR; [|done|unfold zlen in *; lia|done]. clear HR.
  cbn [mbind option_bind]. set (res := drop_while_end (in_set cs) mid).
  destruct (drop_while_end_prefix (in_set cs) mid) as (q & Eq). fold res in Eq.
  pose proof (zlen_nonneg p). pose proof (zlen_nonneg res).
  assert ((if zlen p >? zlen (p ++ res) - 1 then 0 else zlen (p ++ res) - 1 - zlen p + 1) = zlen res) as ->.
  { rewrite zlen_app. rewrite Z.gtb_ltb. destruct (Z.ltb_spec (zlen p + zlen res - 1) (zlen p)); lia. }
  destruct (keep_slice s bs (zlen p) (zlen res) Hrep) as (s1 & -> & s2 & E2 & Hrep2); [lia|lia| |].
  { rewrite Ebl, Eq, zlen_app. pose proof (zlen_nonneg q). lia. }
  cbn [mbind option_bind]. rewrite E2. cbn [mbind option_bind]. eexists. split; [done|].
  assert (take (Z.to_nat (zlen res)) (drop (Z.to_nat (zlen p)) bs) = trim_bytes (in_set cs) bs) as Eres;
    [|by rewrite Eres in Hrep2].
  unfold trim_bytes. fold mid. fold res. rewrite Ep, Eq. unfold zlen.
  by rewrite !Nat2Z.id, drop_app_length, take_app_length.
Qed.

(** ** Ranges *)

(** An index counts from the end when negative and is clamped at 0. *)
Definition range_index (len i : Z) : Z := if i <? 0 then Z.max 0 (len + i) else i.

Definition range_bytes (bs : list Z) (start end_ : Z) : list Z :=
  let a := range_index (zlen bs) start in
  let b := Z.min (range_index (zlen bs) end_) (zlen bs - 1) in
  take (Z.to_nat (b - a + 1)) (drop (Z.to_nat a) bs).

Lemma sdsrange_spec s bs start end_ :
  sds_rep s bs -> zlen bs < 2 ^ 62 -> in_s 64 start -> in_s 64 end_ ->
  exists s', sdsrange s start end_ = Some s' /\ sds_rep s' (range_bytes bs start end_).
Proof.
  intros Hrep Hb Hs He. unfold sdsrange. rewrite (proj1 (proj2 Hrep)).
  destruct (Z.eqb_spec (zlen bs) 0) as [Ez|Ez].
  { exists s. split; [done|]. destruct bs; [|rewrite zlen_cons in Ez; pose proof (zlen_nonneg bs); lia].
    unfold range_bytes. by rewrite drop_nil, take_nil. }
  pose proof (zlen_nonneg bs) as H0.
  assert (forall i, in_s 64 i -> (if i <? 0 then Z.max 0 (swrap 64 (zlen bs + i)) else i) = range_index (zlen bs) i) as Hi.
  { intros i Hi. unfold range_index. destruct (Z.ltb_spec i 0); [|done]. rewrite swrap_small by width_lia. done. }
  rewrite !Hi by done. clear Hi. rewrite (swrap_small 64 (zlen bs)) by width_lia.
  unfold range_bytes. set (a := range_index (zlen bs) start). set (b := range_index (zlen bs) end_).
  assert (0 <= a /\ 0 <= b) as [Ha Hb0] by (unfold a, b, range_index; split; case_match; lia).
  cbv zeta. set (p := if negb _ then _ else _).
  assert (exists st n, p = (st, n) /\ 0 <= st /\ 0 <= n /\ (n <> 0 -> st + n <= zlen bs) /\
    take (Z.to_nat n) (drop (Z.to_nat st) bs) = take (Z.to_nat (Z.min b (zlen bs - 1) - a + 1)) (drop (Z.to_nat a) bs))
    as (st & n & -> & Hst & Hn & Hfit & Eres).
  { unfold p. rewrite Z.gtb_ltb, !Z.geb_leb.
    destruct (Z.ltb_spec b a).
    - exists 0, 0. split_and!; try done. replace (Z.to_nat (Z.min b (zlen bs - 1) - a + 1)) with 0%nat by lia. done.
    - rewrite (proj2 (Z.eqb_neq _ 0)) by lia. cbn [negb].
      destruct (Z.leb_spec (zlen bs) a).
      + exists a, 0. split_and!; try done. rewrite drop_ge by (unfold zlen in *; lia). by rewrite !take_nil.
      + destruct (Z.leb_spec (zlen bs) b).
        * rewrite Z.gtb_ltb, (proj2 (Z.ltb_ge _ _)) by lia. eexists _, _. split; [done|]. split_and!; try lia.
          f_equal. lia.
        * eexists _, _. split; [done|]. split_and!; try lia. f_equal. lia. }
  rewrite <- Eres.
  assert (exists st', 0 <= st' /\ st' + n <= zlen bs /\ negb (st =? 0) && negb (n =? 0) = negb (st' =? 0) /\
    (negb (st' =? 0) = true -> st' = st) /\ take (Z.to_nat n) (drop (Z.to_nat st) bs) = take (Z.to_nat n) (drop (Z.to_nat st') bs))
    as (st' & Hst' & Hfit' & Eb & Est & ->).
  { destruct (Z.eqb_spec n 0) as [->|Hn0].
    - exists 0. split_and!; try done. by rewrite andb_false_r.
    - exists st. rewrite andb_true_r. split_and!; try done. by apply Hfit. }
  rewrite Eb. destruct (keep_slice s bs st' n Hrep Hst' Hn Hfit') as (s1 & E1 & s2 & E2 & Hrep2).
  assert ((if negb (st' =? 0) then b0 ← mmove (sh_buf s) 0 st n; Some (set_buf s b0) else Some s) = Some s1) as ->.
  { destruct (negb (st' =? 0)) eqn:En; [|done]. by rewrite <- Est. }
  cbn [mbind option_bind]. rewrite E2. cbn [mbind option_bind]. eauto.
Qed.

(** ** Byte-wise updates *)

Lemma map_bytes_spec f n pre rest s :
  sds_rep s (pre ++ rest) -> n = length rest ->
  exists s', map_bytes n f s (zlen pre) = Some s' /\ sds_rep s' (pre ++ (f <$> rest)).
Proof.
  revert n pre s. induction rest as [|c rest IH]; intros n pre s Hrep ->.
  { exists s. done. }
  pose proof Hrep as (Hok & El & Hr). cbn [map_bytes length].
  assert (sh_buf s !! Z.to_nat (zlen pre) = Some c) as ->.
  { apply mread_Some in Hr as (_ & _ & _ & _ & Hi). specialize (Hi (length pre)).
    rewrite <- app_assoc in Hi. simpl in Hi. rewrite list_lookup_middle in Hi by done.
    rewrite Hi; [f_equal; unfold zlen; lia|]. rewrite zlen_app, zlen_cons. pose proof (zlen_nonneg rest).
    unfold zlen at 1. lia. }
  cbn [mbind option_bind]. pose proof (mread_bounds _ _ _ _ Hr) as (_ & _ & Hlen).
  rewrite zlen_app, zlen_cons in Hlen. pose proof (zlen_nonneg rest). pose proof (zlen_nonneg pre).
  destruct (put_is_Some s (zlen pre) [f c]) as (b & -> & Hw & Hl); [done|zlia|]. cbn [mbind option_bind].
  assert (sds_rep (set_buf s b) ((pre ++ [f c]) ++ rest)) as Hrep'.
  { split; [apply ok_set_buf; [done|lia]|]. split; [change (sdslen (set_buf s b)) with (sdslen s); rewrite El; zlia|].
    assert (mread (sh_buf s) 0 (zlen pre + (zlen [c] + zlen (rest ++ [0]))) = Some (pre ++ [c] ++ rest ++ [0])) as Hr2.
    { rewrite <- app_assoc in Hr. etransitivity; [|exact Hr]. f_equal. zlia. }
    rewrite <- zlen_app in Hr2. apply mread_app in Hr2 as [R1 R2]. rewrite zlen_app in R2.
    apply mread_app in R2 as [_ R2]. cbn [set_buf sh_buf].
    assert (mread b 0 (zlen pre + (zlen [f c] + zlen (rest ++ [0]))) = Some (pre ++ [f c] ++ rest ++ [0])) as Hr3.
    { rewrite <- zlen_app. apply mread_app. split; [rewrite <- R1; apply (mread_mwrite_disj _ _ _ _ _ _ Hw); lia|].
      rewrite zlen_app. apply mread_app. split; [by apply mread_mwrite_same in Hw|].
      rewrite <- R2. apply (mread_mwrite_disj _ _ _ _ _ _ Hw). right. done. }
    rewrite <- !app_assoc. etransitivity; [|exact Hr3]. f_equal. zlia. }
  destruct (IH (length rest) (pre ++ [f c]) _ Hrep' eq_refl) as (s' & Hs' & Hr').
  exists s'. rewrite zlen_app in Hs'. change (zlen [f c]) with 1 in Hs'. split; [done|].
  by rewrite <- app_assoc in Hr'.
Qed.

Lemma map_bytes_all f s bs :
  sds_rep s bs -> exists s', map_bytes (Z.to_nat (sdslen s)) f s 0 = Some s' /\ sds_rep s' (f <$> bs).
Proof.
  intros Hrep. rewrite (proj1 (proj2 Hrep)). apply (map_bytes_spec f _ [] bs s Hrep).
  unfold zlen. lia.
Qed.

(** ** Comparison *)

(** The dictionary order on byte strings. *)
Definition lex_lt (a b : list Z) : Prop :=
  exists p, (exists x a' y b', a = p ++ x :: a' /\ b = p ++ y :: b' /\ x < y) \/
            (exists y b', a = p /\ b = p ++ y :: b').

Lemma lex_lt_cons x a b : lex_lt a b -> lex_lt (x :: a) (x :: b).
Proof.
  intros (p & [(u & a' & v & b' & -> & -> & Hlt)|(v & b' & -> & ->)]); exists (x :: p); [left|right]; eauto 10.
Qed.

Lemma memcmp_spec a b :
  length a = length b ->
  (memcmp a b = 0 /\ a = b) \/
  (memcmp a b = -1 /\ exists p x a' y b', a = p ++ x :: a' /\ b = p ++ y :: b' /\ x < y) \/
  (memcmp a b = 1 /\ exists p x a' y b', a = p ++ x :: a' /\ b = p ++ y :: b' /\ y < x).
Proof.
  revert b. induction a as [|x a IH]; intros [|y b] Hl; try done; [by left|]. simpl in Hl |- *.
  rewrite Z.gtb_ltb. destruct (Z.ltb_spec x y) as [Hlt|Hge].
  { right. left. split; [done|]. exists [], x, a, y, b. done. }
  destruct (Z.ltb_spec y x) as [Hgt|Hle].
  { right. right. split; [done|]. exists [], x, a, y, b. done. }
  assert (x = y) as -> by lia.
  destruct (IH b ltac:(lia)) as [[-> ->]|[(-> & p & u & a' & v & b' & -> & -> & ?)|(-> & p & u & a' & v & b' & -> & -> & ?)]].
  - by left.
  - right. left. split; [done|]. exists (y :: p), u, a', v, b'. done.
  - right. right. split; [done|]. exists (y :: p), u, a', v, b'. done.
Qed.

Lemma sdscmp_spec s1 s2 a b :
  sds_rep s1 a -> sds_rep s2 b ->
  (sdscmp s1 s2 = Some 0 /\ a = b) \/ (sdscmp s1 s2 = Some (-1) /\ lex_lt a b) \/
  (sdscmp s1 s2 = Some 1 /\ lex_lt b a).
Proof.
  intros (Hok1 & El1 & Hr1)%rep_split (Hok2 & El2 & Hr2)%rep_split.
  destruct Hr1 as [Hr1 _], Hr2 as [Hr2 _]. unfold sdscmp. rewrite El1, El2.
  pose proof (zlen_nonneg a) as Ha0. pose proof (zlen_nonneg b) as Hb0.
  set (n := if zlen a <? zlen b then zlen a else zlen b).
  assert (n = Z.min (zlen a) (zlen b)) as En by (unfold n; destruct (Z.ltb_spec (zlen a) (zlen b)); lia).
  clearbody n. subst n. set (k := Z.to_nat (Z.min (zlen a) (zlen b))).
  assert (forall m l, mread m 0 (zlen l) = Some l -> Z.min (zlen a) (zlen b) <= zlen l ->
    mread m 0 (Z.min (zlen a) (zlen b)) = Some (take k l)) as Hpre.
  { intros m l Hm Hle. rewrite <- (take_drop k l) in Hm. rewrite zlen_app in Hm. apply mread_app in Hm as [Hm _].
    rewrite <- Hm. f_equal. unfold k. rewrite zlen_take. lia. }
  rewrite (Hpre _ _ Hr1), (Hpre _ _ Hr2) by lia. cbn [mbind option_bind].
  assert (length (take k a) = length (take k b)) as Hlen by (rewrite !length_take; unfold k, zlen; lia).
  destruct (memcmp_spec _ _ Hlen) as [[-> E]|[(-> & p & u & a' & v & b' & Ea & Eb & Hlt)|(-> & p & u & a' & v & b' & Ea & Eb & Hlt)]].
  - change (0 =? 0) with true. cbv iota. rewrite Z.gtb_ltb.
    destruct (Z.ltb_spec (zlen b) (zlen a)) as [Hgt|Hle].
    + right. right. split; [done|]. rewrite (take_ge b) in E by (unfold k, zlen in *; lia).
      rewrite <- (take_drop k a), E. destruct (drop k a) as [|y a'] eqn:Ed.
      { pose proof (zlen_drop a k) as Hd. rewrite Ed, zlen_nil in Hd. unfold k in Hd. lia. }
      exists b. right. eauto.
    + destruct (Z.ltb_spec (zlen a) (zlen b)) as [Hlt|Hge].
      * right. left. split; [done|]. rewrite (take_ge a) in E by (unfold k, zlen in *; lia).
        rewrite <- (take_drop k b), <- E. destruct (drop k b) as [|y b'] eqn:Ed.
        { pose proof (zlen_drop b k) as Hd. rewrite Ed, zlen_nil in Hd. unfold k in Hd. lia. }
        exists a. right. eauto.
      * left. split; [done|]. rewrite !take_ge in E by (unfold k, zlen in *; lia). done.
  - right. left. split; [done|]. exists p. left. rewrite <- (take_drop k a), <- (take_drop k b), Ea, Eb.
    rewrite <- !app_assoc. simpl. eauto 10.
  - right. right. split; [done|]. exists p. left. rewrite <- (take_drop k a), <- (take_drop k b), Ea, Eb.
    rewrite <- !app_assoc. simpl. eauto 10.
Qed.

(** ** Manual length updates *)

Lemma sdsIncrLen_spec s bs incr :
  sds_ok s -> mread (sh_buf s) 0 (zlen bs) = Some bs -> zlen bs = sdslen s + incr ->
  zlen bs <= sdsalloc s -> (sds_type s = SDS_TYPE_5 -> incr <> 0) ->
  exists s', sdsIncrLen s incr = Some s' /\ sds_rep s' bs.
Proof.
  intros Hok Hr El Ha H5. pose proof (zlen_nonneg bs) as H0.
  destruct (close_string s bs Hok Hr Ha) as (s' & _ & Hrep & Hp).
  exists (sdssetlen s' (zlen bs)). split; [|done]. rewrite <- Hp. unfold sdsIncrLen, sdssetlen.
  destruct (hdr_cases s Hok) as [(Et & Hf & Es & Ea & _ & Hl)|(Et & Ef & Es & Ea & _ & Hl & Hw)].
  - rewrite Et. change (0 =? SDS_TYPE_5) with true. cbv iota.
    assert (SDS_TYPE_5_LEN (sh_flags s) = sdslen s) as -> by (unfold sdslen; by rewrite Et).
    rewrite (proj2 (Z.ltb_lt incr 0)) by (specialize (H5 Et); lia).
    rewrite (uwrap_small 32) by (unfold in_u; lia). rewrite (proj2 (Z.geb_le _ _)) by lia.
    rewrite orb_true_r. cbv iota. rewrite El. rewrite (uwrap_small 64 (sdslen s + incr)) by (unfold in_u; lia).
    rewrite (uwrap_small 64); [done|]. unfold SDS_TYPE_BITS. rewrite Z.shiftl_mul_pow2 by lia.
    change (2 ^ 3) with 8. unfold in_u. lia.
  - rewrite Es in El. rewrite Ea in Ha.
    assert (sh_alloc s < 2 ^ 64) as H64.
    { eapply Z.lt_le_trans; [apply Hw|]. apply Z.pow_le_mono_r; [lia|].
      unfold hdr_width. repeat case_match; lia. }
    assert (sds_type s = 1 \/ sds_type s = 2 \/ sds_type s = 3 \/ sds_type s = 4) as [T |[T |[T | T]]] by lia;
      rewrite T in Hw |- *; unfold hdr_width in *; simpl in Hw |- *; rewrite <- El;
      (rewrite (uwrap_small _ (zlen bs)) by (unfold in_u; lia));
      (destruct (Z.ltb_spec incr 0);
       [rewrite (uwrap_small _ (- incr)) by (unfold in_u; lia)|]);
      rewrite ?(uwrap_small _ (sh_alloc s - sh_len s)) by (unfold in_u; lia);
      rewrite ?(uwrap_small _ incr) by (unfold in_u; lia);
      rewrite !Z.geb_leb.
    all: try rewrite (proj2 (Z.leb_le (- incr) (sh_len s))) by lia.
    all: try rewrite (proj2 (Z.leb_le 0 incr)) by lia.
    all: try rewrite (proj2 (Z.leb_le incr (sh_alloc s - sh_len s))) by lia.
    all: try rewrite orb_true_r; try done.
Qed.

Fixpoint cut_nul (bs : list Z) : list Z :=
  match bs with
  | [] => []
  | c :: bs => if c =? 0 then [] else c :: cut_nul bs
  end.

Lemma cut_nul_spec bs : exists r, bs ++ [0] = cut_nul bs ++ 0 :: r.
Proof.
  induction bs as [|c bs [r E]]; [by exists []|]. simpl. destruct (Z.eqb_spec c 0) as [->|Hc]; [by eexists|].
  exists r. simpl. by rewrite E.
Qed.

Lemma strlen_cut bs r : strlen (bs ++ 0 :: r) = Some (zlen (cut_nul bs)).
Proof.
  induction bs as [|c bs IH]; [done|]. simpl. case_match; [done|]. rewrite IH. simpl. by rewrite zlen_cons.
Qed.

Lemma mread_prefix m ts : mread m 0 (zlen ts) = Some ts -> exists r, m = ts ++ r.
Proof.
  intros Hr. pose proof (mread_bounds _ _ _ _ Hr) as (_ & ? & ?). rewrite mread_is_Some in Hr by lia.
  exists (drop (length ts) m). injection Hr as Hr. unfold zlen in Hr. rewrite Nat2Z.id in Hr. simpl in Hr.
  rewrite drop_0 in Hr. by rewrite <- Hr at 1; rewrite take_drop.
Qed.

Lemma sdsupdatelen_spec s bs :
  sds_rep s bs -> exists s', sdsupdatelen s = Some s' /\ sds_rep s' (cut_nul bs).
Proof.
  intros (Hok & El & Hr). unfold sdsupdatelen.
  destruct (mread_prefix (sh_buf s) (bs ++ [0])) as [r Er]; [by rewrite zlen_app|].
  rewrite Er, <- app_assoc. simpl app. rewrite strlen_cut. cbn [mbind option_bind].
  destruct (cut_nul_spec bs) as [q Eq]. pose proof (ok_bounds s Hok) as (? & _).
  assert (zlen (cut_nul bs) <= zlen bs) as Hle.
  { apply (f_equal zlen) in Eq. rewrite !zlen_app, !zlen_cons, zlen_nil in Eq.
    pose proof (zlen_nonneg q). lia. }
  pose proof (zlen_nonneg (cut_nul bs)).
  destruct (sdssetlen_spec s (zlen (cut_nul bs)) Hok) as (S1 & S2 & S3 & _); [lia|].
  eexists. split; [done|]. split; [done|]. split; [done|]. rewrite S3, Er, Eq.
  replace (zlen (cut_nul bs) + 1) with (zlen (cut_nul bs ++ [0])) by zlia.
  rewrite mread_is_Some by (rewrite ?zlen_app, ?zlen_cons; pose proof (zlen_nonneg q); pose proof (zlen_nonneg r); zlia).
  unfold zlen. rewrite Nat2Z.id. simpl. rewrite drop_0. f_equal.
  replace ((cut_nul bs ++ 0 :: q) ++ r) with ((cut_nul bs ++ [0]) ++ (q ++ r)) by by rewrite <- !app_assoc.
  apply take_app_length.
Qed.

(** ** A string as an abstract list of bytes *)

Inductive sds_op :=
  | SdsCat (ts : list Z) | SdsCpy (ts : list Z) | SdsGrowZero (n : Z) | SdsRange (a b : Z)
  | SdsTrim (cs : list Z) | SdsClear | SdsMakeRoom (n : Z) | SdsRemoveFree | SdsLower | SdsUpper
  | SdsMapChars (from to : list Z) | SdsDup | SdsUpdateLen.

(** Arguments are passed as C passes them: a byte array with its length, or
    a null-terminated array. *)
Definition sds_exec (junk : nat -> Z) (s : sds) (o : sds_op) : option sds :=
  match o with
  | SdsCat ts => sdscatlen junk s ts (zlen ts)
  | SdsCpy ts => sdscpylen junk s ts (zlen ts)
  | SdsGrowZero n => sdsgrowzero junk s n
  | SdsRange a b => sdsrange s a b
  | SdsTrim cs => sdstrim s (cs ++ [0])
  | SdsClear => sdsclear s
  | SdsMakeRoom n => sdsMakeRoomFor junk s n
  | SdsRemoveFree => sdsRemoveFreeSpace junk s
  | SdsLower => sdstolower s
  | SdsUpper => sdstoupper s
  | SdsMapChars from to => sdsmapchars s from to
  | SdsDup => sdsdup junk s
  | SdsUpdateLen => sdsupdatelen s
  end.

(** What the operation means for the content. *)
Definition bytes_exec (bs : list Z) (o : sds_op) : list Z :=
  match o with
  | SdsCat ts => bs ++ ts
  | SdsCpy ts => ts
  | SdsGrowZero n => bs ++ replicate (Z.to_nat (n - zlen bs)) 0
  | SdsRange a b => range_bytes bs a b
  | SdsTrim cs => trim_bytes (in_set cs) bs
  | SdsClear => []
  | SdsMakeRoom _ | SdsRemoveFree | SdsDup => bs
  | SdsLower => tolower <$> bs
  | SdsUpper => toupper <$> bs
  | SdsMapChars from to => map_char from to <$> bs
  | SdsUpdateLen => cut_nul bs
  end.

(** On content without NUL bytes [SdsTrim] removes exactly the bytes of the
    set, as the comment of [sdstrim] says; NUL bytes go too, because [strchr]
    finds the terminator of the set. *)
Lemma drop_while_ext P Q l : Forall (fun x => P x = Q x) l -> drop_while P l = drop_while Q l.
Proof. induction 1 as [|x l Hx _ IH]; [done|]. simpl. by rewrite Hx, IH. Qed.

Lemma trim_documented cs bs :
  0 ∉ bs -> bytes_exec bs (SdsTrim cs) = trim_bytes (fun c => bool_decide (c ∈ cs)) bs.
Proof.
  intros H0. assert (Forall (fun x => in_set cs x = bool_decide (x ∈ cs)) bs) as Hb.
  { apply Forall_forall. intros x Hx. apply bool_decide_ext. naive_solver. }
  cbn [bytes_exec]. unfold trim_bytes, drop_while_end. rewrite (drop_while_ext _ _ bs Hb). f_equal.
  apply drop_while_ext, Forall_reverse. destruct (drop_while_suffix (fun c => bool_decide (c ∈ cs)) bs) as (p & E & _).
  rewrite E in Hb. by apply Forall_app in Hb as [_ ?].
Qed.

(** Sizes below 2^62: beyond, the doubling of [sdsMakeRoomFor] overflows. *)
Definition op_fits (bs : list Z) (o : sds_op) : bool :=
  bool_decide (zlen bs < 2 ^ 62) && bool_decide (zlen (bytes_exec bs o) < 2 ^ 62) &&
  match o with
  | SdsGrowZero n => bool_decide (0 <= n < 2 ^ 62)
  | SdsRange a b => bool_decide (in_s 64 a) && bool_decide (in_s 64 b)
  | SdsTrim cs => bool_decide (Forall (fun c => c <> 0) cs)
  | SdsMakeRoom n => bool_decide (0 <= n /\ zlen bs + n < 2 ^ 62)
  | _ => true
  end.

Lemma rep_mread s bs : sds_rep s bs -> mread (sh_buf s) 0 (zlen bs) = Some bs.
Proof. by intros (_ & _ & ? & _)%rep_split. Qed.

Lemma sds_exec_rep junk s bs o :
  sds_rep s bs -> op_fits bs o = true ->
  exists s', sds_exec junk s o = Some s' /\ sds_rep s' (bytes_exec bs o).
Proof.
  intros Hrep Hfit. unfold op_fits in Hfit. apply andb_true_iff in Hfit as [Hfit Harg].
  apply andb_true_iff in Hfit as [H1%bool_decide_eq_true H2%bool_decide_eq_true].
  destruct o; cbn [sds_exec bytes_exec] in *; try apply bool_decide_eq_true in Harg.
  - rewrite zlen_app in H2. by apply sdscatlen_spec; [|apply mread_self|].
  - by apply (sdscpylen_spec junk s bs); [|apply mread_self|].
  - by apply sdsgrowzero_spec.
  - apply andb_true_iff in Harg as [Ha%bool_decide_eq_true Hb%bool_decide_eq_true].
    by apply sdsrange_spec.
  - apply sdstrim_spec; [done|]. by exists [].
  - by apply (sdsclear_spec s bs).
  - destruct (sdsMakeRoomFor_spec junk s bs n Hrep) as (s' & ? & ? & _); [lia..|]. eauto.
  - destruct (sdsRemoveFreeSpace_spec junk s bs Hrep H1) as (s' & ? & ? & _). eauto.
  - by apply map_bytes_all.
  - by apply map_bytes_all.
  - by apply map_bytes_all.
  - unfold sdsdup. rewrite (proj1 (proj2 Hrep)). apply sdsnewlen_spec; [by apply rep_mread|done].
  - by apply sdsupdatelen_spec.
Qed.

Fixpoint sds_run (junk : nat -> Z) (s : sds) (os : list sds_op) : option sds :=
  match os with
  | [] => Some s
  | o :: os => s' ← sds_exec junk s o; sds_run junk s' os
  end.

Fixpoint ops_fit (bs : list Z) (os : list sds_op) : bool :=
  match os with
  | [] => true
  | o :: os => op_fits bs o && ops_fit (bytes_exec bs o) os
  end.

Lemma sds_run_rep junk os s bs :
  sds_rep s bs -> ops_fit bs os = true ->
  exists s', sds_run junk s os = Some s' /\ sds_rep s' (foldl bytes_exec bs os).
Proof.
  revert s bs. induction os as [|o os IH]; intros s bs Hrep; cbn [sds_run ops_fit foldl]; [by eauto|].
  intros [Ho Hos]%andb_true_iff. destruct (sds_exec_rep junk s bs o Hrep Ho) as (s1 & -> & Hrep1).
  cbn [mbind option_bind]. by apply IH.
Qed.

(** ** Properties *)

(** C13 Every sequence of string operations on a string made by [sdsnewlen]
    behaves as the corresponding operations on lists of bytes: no operation
    touches memory outside the allocation, whatever header type changes and
    reallocations happen on the way, and the result is again a well-formed,
    null-terminated string whose content is the abstract one.  All lengths
    stay below 2^62 and sets of characters hold no NUL ([ops_fit]).  Trimming
    removes, besides the characters of the set, also the NUL bytes at both
    ends, although the comment of [sdstrim] speaks of the set only; without
    NUL bytes it does what the comment says ([trim_documented]). *)
Theorem sds_refines_bytes (junk : nat -> Z) (bs : list Z) (os : list sds_op) :
  zlen bs < 2 ^ 62 -> ops_fit bs os = true ->
  exists s s', sdsnewlen junk (INIT_BYTES bs) (zlen bs) = Some s /\ sds_run junk s os = Some s' /\
    sds_rep s' (foldl bytes_exec bs os).
Proof.
  intros Hb Hfit. destruct (sdsnewlen_spec junk bs bs (mread_self bs) Hb) as (s & Hs & Hrep).
  destruct (sds_run_rep junk os s bs Hrep Hfit) as (s' & ? & ?). eauto.
Qed.

Definition demo_sds_ops : list sds_op :=
  [SdsCat (replicate 40 65); SdsCat [97; 0; 32; 32]; SdsTrim [32; 65]; SdsCpy [72; 105; 33; 10];
   SdsRange 0 (-2); SdsUpper; SdsGrowZero 300; SdsRemoveFree; SdsRange (-300) 2; SdsRemoveFree; SdsDup].

Lemma sds_refines_bytes_witness :
  foldl bytes_exec [66] demo_sds_ops = [72; 73; 33] /\
  exists s s', sdsnewlen (fun _ => 170) (INIT_BYTES [66]) 1 = Some s /\
    sds_run (fun _ => 170) s demo_sds_ops = Some s' /\ sds_rep s' (foldl bytes_exec [66] demo_sds_ops).
Proof.
  split; [vm_compute; reflexivity|].
  apply (sds_refines_bytes (fun _ => 170) [66] demo_sds_ops); [done|vm_compute; reflexivity].
Defined.

(** C33 [sdsMakeRoomFor] keeps the content, leaves room for at least the bytes
    asked for, and when it has to reallocate it doubles the new size up to
    1 MB and adds 1 MB above, never leaving a type 5 header, which could not
    record free space; when there is room already the string is unchanged. *)
Theorem sdsMakeRoomFor_room (junk : nat -> Z) (s : sds) (bs : list Z) (addlen : Z) :
  sds_rep s bs -> 0 <= addlen -> zlen bs + addlen < 2 ^ 62 ->
  exists s', sdsMakeRoomFor junk s addlen = Some s' /\ sds_rep s' bs /\ addlen <= sdsavail s' /\
    (sdsavail s < addlen -> sds_type s' <> SDS_TYPE_5 /\ sdsalloc s' =
       if zlen bs + addlen <? SDS_MAX_PREALLOC then 2 * (zlen bs + addlen)
       else zlen bs + addlen + SDS_MAX_PREALLOC) /\
    (addlen <= sdsavail s -> s' = s).
Proof. apply sdsMakeRoomFor_spec. Qed.

Definition demo_sds : sds := mk_sds 16 0 0 [104; 105; 0].

Lemma demo_sds_rep : sds_rep demo_sds [104; 105].
Proof. split; [split; [left; done|done]|done]. Qed.

Lemma sdsMakeRoomFor_room_witness :
  sds_rep demo_sds [104; 105] /\
  exists s', sdsMakeRoomFor (fun _ => 170) demo_sds 300 = Some s' /\ sds_rep s' [104; 105] /\ 300 <= sdsavail s' /\
    (sdsavail demo_sds < 300 -> sds_type s' <> SDS_TYPE_5 /\ sdsalloc s' =
       if zlen [104; 105] + 300 <? SDS_MAX_PREALLOC then 2 * (zlen [104; 105] + 300)
       else zlen [104; 105] + 300 + SDS_MAX_PREALLOC) /\
    (300 <= sdsavail demo_sds -> s' = demo_sds).
Proof.
  split; [exact demo_sds_rep|]. apply sdsMakeRoomFor_room; [exact demo_sds_rep|lia|vm_compute; reflexivity].
Defined.

(** [sdscmp] is the dictionary order of byte strings, a longer string
    being greater than its prefixes: it returns 0 exactly on equal contents,
    a negative number when the first comes before and a positive one when it
    comes after. *)
Theorem sdscmp_lexicographic (s1 s2 : sds) (a b : list Z) :
  sds_rep s1 a -> sds_rep s2 b ->
  (sdscmp s1 s2 = Some 0 /\ a = b) \/ (sdscmp s1 s2 = Some (-1) /\ lex_lt a b) \/
  (sdscmp s1 s2 = Some 1 /\ lex_lt b a).
Proof. apply sdscmp_spec. Qed.

Lemma sdscmp_lexicographic_witness :
  sdscmp demo_sds demo_sds = Some 0 /\
  ((sdscmp demo_sds demo_sds = Some 0 /\ [104; 105] = [104; 105]) \/
   (sdscmp demo_sds demo_sds = Some (-1) /\ lex_lt [104; 105] [104; 105]) \/
   (sdscmp demo_sds demo_sds = Some 1 /\ lex_lt [104; 105] [104; 105])).
Proof.
  split; [vm_compute; reflexivity|]. apply sdscmp_lexicographic; exact demo_sds_rep.
Defined.

(** The protocol documented for reading into a string: after the caller
    has written past the end, or wants to drop bytes at the end,
    [sdsIncrLen] records the new length and terminates the string.  (A type 5
    string does not accept an increment of 0: the assertion fails.) *)
Lemma sdsIncrLen_correct (s : sds) (bs : list Z) (incr : Z) :
  sds_ok s -> mread (sh_buf s) 0 (zlen bs) = Some bs -> zlen bs = sdslen s + incr ->
  zlen bs <= sdsalloc s ->
  if bool_decide (sds_type s = SDS_TYPE_5 /\ incr = 0) then sdsIncrLen s incr = None
  else exists s', sdsIncrLen s incr = Some s' /\ sds_rep s' bs.
Proof.
  intros Hok Hr El Ha. case_bool_decide as Hd.
  - destruct Hd as [Et ->]. unfold sdsIncrLen. by rewrite Et.
  - apply sdsIncrLen_spec; try done. intros Et ->. by apply Hd.
Qed.
