(* ===== verification/SdsText.v ===== *)
(** * Text built from dynamic strings ([sds.c])

    Numbers to text, the [%]-formatting of [sdscatfmt], splitting and joining
    on a separator, and the quoted representation that [sdscatrepr] writes
    and [sdssplitargs] parses.  A C string argument is the buffer that holds
    it, terminator included; reading past it gives [None]. *)

From S2P Require Import Prelude Numstr Sds.
From stdpp Require Import options.

Definition SDS_LLSTR_SIZE : Z := 21.

(** ** Numbers *)

(** [do { *p++ = '0'+(v%10); v /= 10; } while(v);] *)
Fixpoint put_digits (fuel : nat) (m : list Z) (p v : Z) : option (list Z * Z) :=
  m ← mwrite m p [ch_0 + v mod 10];
  let v := v / 10 in
  if v =? 0 then Some (m, p + 1)
  else match fuel with O => None | S fuel => put_digits fuel m (p + 1) v end.

(** [while(s < p)]: exchange the ends. *)
Fixpoint reverse_loop (fuel : nat) (m : list Z) (s p : Z) : option (list Z) :=
  if s <? p then
    aux ← m !! Z.to_nat s;
    b ← m !! Z.to_nat p;
    m ← mwrite m s [b];
    m ← mwrite m p [aux];
    match fuel with O => None | S fuel => reverse_loop fuel m (s + 1) (p - 1) end
  else Some m.

(** The negation of [LLONG_MIN] wraps around to itself; as an unsigned
    number it is its absolute value. *)
Definition sdsll2str (s : list Z) (value : Z) : option (list Z * Z) :=
  let v := uwrap 64 (if value <? 0 then swrap 64 (- value) else value) in
  '(s, p) ← put_digits 20 s 0 v;
  '(s, p) ← (if value <? 0 then s ← mwrite s p [ch_minus]; Some (s, p + 1) else Some (s, p));
  s ← mwrite s p [0];
  s' ← reverse_loop (Z.to_nat p) s 0 (p - 1);
  Some (s', p).

Definition sdsull2str (s : list Z) (v : Z) : option (list Z * Z) :=
  '(s, p) ← put_digits 20 s 0 v;
  s ← mwrite s p [0];
  s' ← reverse_loop (Z.to_nat p) s 0 (p - 1);
  Some (s', p).

Section Text.
Context (junk : nat -> Z).

(** [char buf[SDS_LLSTR_SIZE]] on the stack. *)
Definition llstr_buf : list Z := mrealloc junk [] SDS_LLSTR_SIZE.

Definition sdsfromlonglong (value : Z) : option sds :=
  '(buf, len) ← sdsll2str llstr_buf value;
  sdsnewlen junk (INIT_BYTES buf) len.

(** ** [sdscatfmt] *)

Inductive fmt_arg :=
  | ArgCStr (m : list Z) | ArgSds (s : sds) | ArgInt (n : Z) | ArgLL (n : Z) | ArgUInt (n : Z) | ArgULL (n : Z).

(** [memcpy(s+i,str,l); sdsinclen(s,l); i += l;] after making room. *)
Definition fmt_append (s : sds) (i : Z) (str : list Z) (l : Z) : option (sds * Z) :=
  s ← (if sdsavail s <? l then sdsMakeRoomFor junk s l else Some s);
  bs ← mread str 0 l;
  s ← put s i bs;
  Some (sdsinclen s l, i + l).

(** [va_arg]: reading an argument of another type, or none, is undefined. *)
Definition fmt_directive (next : Z) (ap : list fmt_arg) (s : sds) (i : Z)
    : option (sds * Z * list fmt_arg) :=
  if next =? 115 (* s *) then
    match ap with
    | ArgCStr str :: ap => l ← strlen str; '(s, i) ← fmt_append s i str l; Some (s, i, ap)
    | _ => None
    end
  else if next =? 83 (* S *) then
    match ap with
    | ArgSds str :: ap => '(s, i) ← fmt_append s i (sh_buf str) (sdslen str); Some (s, i, ap)
    | _ => None
    end
  else if (next =? 105) || (next =? 73) (* i I *) then
    num_ap ← match ap with
             | ArgInt n :: ap => if next =? 105 then Some (n, ap) else None
             | ArgLL n :: ap => if next =? 73 then Some (n, ap) else None
             | _ => None
             end;
    let '(num, ap) := num_ap in
    '(buf, l) ← sdsll2str llstr_buf num;
    '(s, i) ← fmt_append s i buf l; Some (s, i, ap)
  else if (next =? 117) || (next =? 85) (* u U *) then
    num_ap ← match ap with
             | ArgUInt n :: ap => if next =? 117 then Some (n, ap) else None
             | ArgULL n :: ap => if next =? 85 then Some (n, ap) else None
             | _ => None
             end;
    let '(num, ap) := num_ap in
    '(buf, l) ← sdsull2str llstr_buf num;
    '(s, i) ← fmt_append s i buf l; Some (s, i, ap)
  else
    s ← put s i [next];
    Some (sdsinclen s 1, i + 1, ap).

Fixpoint catfmt_loop (f : list Z) (ap : list fmt_arg) (s : sds) (i : Z) : option (sds * Z) :=
  match f with
  | [] => None
  | c :: f =>
    if c =? 0 then Some (s, i) else
    s ← (if sdsavail s =? 0 then sdsMakeRoomFor junk s 1 else Some s);
    if c =? 37 (* % *) then
      match f with
      | [] => None
      | next :: f =>
        '(s, i, ap) ← fmt_directive next ap s i;
        catfmt_loop f ap s i
      end
    else
      s ← put s i [c];
      catfmt_loop f ap (sdsinclen s 1) (i + 1)
  end.

Definition sdscatfmt (s : sds) (fmt : list Z) (ap : list fmt_arg) : option sds :=
  let initlen := sdslen s in
  '(s, i) ← catfmt_loop fmt ap s initlen;
  put s i [0].

(** ** Splitting and joining *)

(** [tokens[elements] = sdsnewlen(p,n)] into an array of [slots] pointers. *)
Definition push_token (tokens : list sds) (slots : Z) (p : list Z) (off n : Z) : option (list sds) :=
  if zlen tokens <? slots then
    bs ← mread p off n;
    t ← sdsnewlen junk (INIT_BYTES bs) n;
    Some (tokens ++ [t])
  else None.

Fixpoint split_loop (fuel : nat) (s : list Z) (len : Z) (sep : list Z) (seplen : Z)
    (tokens : list sds) (slots start j : Z) : option (list sds * Z * Z) :=
  if j <? len - (seplen - 1) then
    match fuel with
    | O => None
    | S fuel =>
      let slots := if slots <? zlen tokens + 2 then swrap 32 (slots * 2) else slots in
      first ← s !! Z.to_nat j;
      sep0 ← sep !! 0%nat;
      hit ← (if (seplen =? 1) && (first =? sep0) then Some true else
             a ← mread s j seplen; b ← mread sep 0 seplen; Some (bool_decide (a = b)));
      if (hit : bool) then
        tokens ← push_token tokens slots s start (j - start);
        split_loop fuel s len sep seplen tokens slots (j + seplen) (j + seplen - 1 + 1)
      else split_loop fuel s len sep seplen tokens slots start (j + 1)
    end
  else Some (tokens, slots, start).

(** The inner [None] is the returned [NULL]. *)
Definition sdssplitlen (s : list Z) (len : Z) (sep : list Z) (seplen : Z) : option (option (list sds)) :=
  if (seplen <? 1) || (len <? 0) then Some None
  else if len =? 0 then Some (Some [])
  else
    '(tokens, slots, start) ← split_loop (Z.to_nat len) s len sep seplen [] 5 0 0;
    tokens ← push_token tokens slots s start (len - start);
    Some (Some tokens).

Fixpoint joinsds_loop (join : sds) (argv : list sds) (sep : list Z) (seplen : Z) : option sds :=
  match argv with
  | [] => Some join
  | a :: argv =>
    join ← sdscatsds junk join a;
    join ← (if negb (bool_decide (argv = [])) then sdscatlen junk join sep seplen else Some join);
    joinsds_loop join argv sep seplen
  end.

Definition sdsjoinsds (argv : list sds) (sep : list Z) (seplen : Z) : option sds :=
  join ← sdsempty junk;
  joinsds_loop join argv sep seplen.

(** ** Quoted representation *)

Definition isprint (c : Z) : bool := (32 <=? c) && (c <=? 126).
Definition isspace (c : Z) : bool := (c =? 32) || ((9 <=? c) && (c <=? 13)).

(** [%02x] of a byte. *)
Definition hex_char (n : Z) : Z := if n <? 10 then 48 + n else 87 + n.

(** The bytes appended for one byte of the input; [sdscatprintf] formats into
    a buffer and appends it up to its terminator. *)
Definition repr_char (s : sds) (c : Z) : option sds :=
  if (c =? 92) || (c =? 34) then sdscat junk s [92; c; 0]
  else if c =? 10 then sdscatlen junk s [92; 110] 2
  else if c =? 13 then sdscatlen junk s [92; 114] 2
  else if c =? 9 then sdscatlen junk s [92; 116] 2
  else if c =? 7 then sdscatlen junk s [92; 97] 2
  else if c =? 8 then sdscatlen junk s [92; 98] 2
  else if isprint c then sdscat junk s [c; 0]
  else sdscat junk s [92; 120; hex_char (c / 16); hex_char (c mod 16); 0].

Fixpoint repr_loop (s : sds) (p : list Z) : option sds :=
  match p with
  | [] => Some s
  | c :: p => s ← repr_char s c; repr_loop s p
  end.

Definition sdscatrepr (s : sds) (p : list Z) : option sds :=
  s ← sdscatlen junk s [34] 1;
  s ← repr_loop s p;
  sdscatlen junk s [34] 1.

(** ** Parsing arguments *)

Definition is_hex_digit (c : Z) : bool :=
  ((48 <=? c) && (c <=? 57)) || ((97 <=? c) && (c <=? 102)) || ((65 <=? c) && (c <=? 70)).

Definition hex_digit_to_int (c : Z) : Z :=
  if (48 <=? c) && (c <=? 57) then c - 48
  else if (97 <=? c) && (c <=? 102) then c - 87
  else if (65 <=? c) && (c <=? 70) then c - 55
  else 0.

Definition unescape (c : Z) : Z :=
  if c =? 110 then 10 else if c =? 114 then 13 else if c =? 116 then 9
  else if c =? 98 then 8 else if c =? 97 then 7 else c.

(** Backslash, [x] and two hexadecimal digits at [p], evaluated left to right
    and stopping at the first false operand. *)
Definition hex_escape (p : list Z) : option bool :=
  c0 ← p !! 0%nat;
  if negb (c0 =? 92) then Some false else
  c1 ← p !! 1%nat;
  if negb (c1 =? 120) then Some false else
  c2 ← p !! 2%nat;
  if negb (is_hex_digit c2) then Some false else
  c3 ← p !! 3%nat;
  Some (is_hex_digit c3).

(** How one turn of the token loop ends. *)
Inductive token_step :=
  | TokErr
  | TokMore (p : list Z) (inq insq : bool) (current : sds)
  | TokDone (p : list Z) (current : sds).

(** [*(p+1) && !isspace( *(p+1))] after a closing quote. *)
Definition close_quote (p : list Z) (current : sds) : option token_step :=
  c1 ← p !! 1%nat;
  Some (if negb (c1 =? 0) && negb (isspace c1) then TokErr else TokDone p current).

Definition token_body (p : list Z) (inq insq : bool) (current : sds) : option token_step :=
  c ← p !! 0%nat;
  if inq then
    hx ← hex_escape p;
    if (hx : bool) then
      c2 ← p !! 2%nat;
      c3 ← p !! 3%nat;
      let byte := uwrap 8 (hex_digit_to_int c2 * 16 + hex_digit_to_int c3) in
      current ← sdscatlen junk current [byte] 1;
      Some (TokMore (drop 3 p) inq insq current)
    else
      esc ← (if c =? 92 then c1 ← p !! 1%nat; Some (negb (c1 =? 0)) else Some false);
      if (esc : bool) then
        c1 ← p !! 1%nat;
        current ← sdscatlen junk current [unescape c1] 1;
        Some (TokMore (drop 1 p) inq insq current)
      else if c =? 34 then close_quote p current
      else if c =? 0 then Some TokErr
      else current ← sdscatlen junk current [c] 1; Some (TokMore p inq insq current)
  else if insq then
    esc ← (if c =? 92 then c1 ← p !! 1%nat; Some (c1 =? 39) else Some false);
    if (esc : bool) then
      current ← sdscatlen junk current [39] 1;
      Some (TokMore (drop 1 p) inq insq current)
    else if c =? 39 then close_quote p current
    else if c =? 0 then Some TokErr
    else current ← sdscatlen junk current [c] 1; Some (TokMore p inq insq current)
  else if (c =? 32) || (c =? 10) || (c =? 13) || (c =? 9) || (c =? 0) then Some (TokDone p current)
  else if c =? 34 then Some (TokMore p true insq current)
  else if c =? 39 then Some (TokMore p inq true current)
  else current ← sdscatlen junk current [c] 1; Some (TokMore p inq insq current).

(** [if ( *p) p++;] *)
Definition step_ptr (p : list Z) : option (list Z) :=
  c ← p !! 0%nat; Some (if c =? 0 then p else drop 1 p).

(** [while(!done)]; the inner [None] is [goto err]. *)
Fixpoint token_loop (fuel : nat) (p : list Z) (inq insq : bool) (current : sds)
    : option (option (list Z * sds)) :=
  match fuel with
  | O => None
  | S fuel =>
    r ← token_body p inq insq current;
    match r with
    | TokErr => Some None
    | TokDone p current => p ← step_ptr p; Some (Some (p, current))
    | TokMore p inq insq current => p ← step_ptr p; token_loop fuel p inq insq current
    end
  end.

Fixpoint skip_blanks (p : list Z) : option (list Z) :=
  match p with
  | [] => None
  | c :: p' => if negb (c =? 0) && isspace c then skip_blanks p' else Some p
  end.

Fixpoint splitargs_loop (fuel : nat) (p : list Z) (vector : list sds) : option (option (list sds)) :=
  match fuel with
  | O => None
  | S fuel =>
    p ← skip_blanks p;
    c ← p !! 0%nat;
    if negb (c =? 0) then
      current ← sdsempty junk;
      r ← token_loop (S (length p)) p false false current;
      match r with
      | None => Some None
      | Some (p, current) => splitargs_loop fuel p (vector ++ [current])
      end
    else Some (Some vector)
  end.

Definition sdssplitargs (line : list Z) : option (option (list sds)) :=
  splitargs_loop (S (length line)) line [].
End Text.

(** ** Numbers *)

Lemma canonical_nat_has_digits v k :
  0 <= v < 2 ^ 64 -> (0 < k)%nat -> has_digits v (Z.of_nat k) -> canonical_nat (dec_digits k v) v.
Proof.
  intros Hv Hk Hd. replace k with (Z.to_nat (digits10 1 v)); [by apply canonical_nat_digits|].
  pose proof (has_digits_digits10 v Hv) as Hd'. pose proof (digits10_range v Hv) as Hr.
  destruct Hd as [[-> Ek]|Hd], Hd' as [[E Ek']|Hd'].
  - lia.
  - assert (0 < 10 ^ (digits10 1 0 - 1)) by lia. lia.
  - subst v. assert (0 < 10 ^ (Z.of_nat k - 1)) by lia. lia.
  - assert (Z.of_nat k - 1 < digits10 1 v) by (apply (Z.pow_lt_mono_r_iff 10); lia).
    assert (digits10 1 v - 1 < Z.of_nat k) by (apply (Z.pow_lt_mono_r_iff 10); lia). lia.
Qed.

Lemma put_digits_spec fuel n pre rest v :
  0 <= v < 10 ^ Z.of_nat n -> (0 < n <= length rest)%nat -> (n <= S fuel)%nat ->
  exists k, put_digits fuel (pre ++ rest) (zlen pre) v
      = Some (pre ++ reverse (dec_digits k v) ++ drop k rest, zlen pre + Z.of_nat k) /\
    (0 < k <= n)%nat /\ has_digits v (Z.of_nat k).
Proof.
  revert n pre rest v. induction fuel as [|fuel IH]; intros n pre rest v Hv Hl Hn;
  (destruct rest as [|x rest]; [simpl in Hl; lia|]);
  cbn [put_digits]; change (pre ++ x :: rest) with (pre ++ [x] ++ rest);
  rewrite mwrite_mid by done; cbn [mbind option_bind];
  (destruct (Z.eqb_spec (v / 10) 0) as [Ez|Ez];
    [assert (v < 10) by (apply Z.div_small_iff in Ez; lia);
     exists 1%nat; split_and!; try lia; [done|];
     destruct (Z.eq_dec v 0); [by left|right; simpl; lia]|]).
  - exfalso. apply Ez, Z.div_small. assert (n = 1)%nat as -> by lia. simpl in Hv. lia.
  - destruct n as [|[|n]]; [lia|exfalso; apply Ez, Z.div_small; simpl in Hv; lia|].
    rewrite Nat2Z.inj_succ, Z.pow_succ_r in Hv by lia.
    assert (0 <= v / 10 < 10 ^ Z.of_nat (S n)) as Hq.
    { split; [apply Z.div_pos; lia|]. apply Z.div_lt_upper_bound; lia. }
    destruct (IH (S n) (pre ++ [ch_0 + v mod 10]) rest (v / 10) Hq ltac:(simpl in Hl; lia) ltac:(lia)) as (k & E & Hk & Hd).
    exists (S k). rewrite <- app_assoc, zlen_app in E. change (zlen [ch_0 + v mod 10]) with 1 in E.
    split_and!; [|lia|lia|].
    + simpl app in E |- *. rewrite E. cbn [dec_digits drop]. rewrite reverse_snoc. simpl app.
      f_equal. f_equal; [by rewrite <- app_assoc|]. lia.
    + right. destruct Hd as [[E0 _]|Hd]; [done|].
      rewrite Nat2Z.inj_succ. replace (Z.succ (Z.of_nat k) - 1) with (Z.succ (Z.of_nat k - 1)) by lia.
      rewrite !Z.pow_succ_r by lia. pose proof (Z.div_mod v 10 ltac:(lia)).
      pose proof (Z.mod_pos_bound v 10 ltac:(lia)). lia.
Qed.

Lemma lookup_mid {A} (a b : list A) x : (a ++ [x] ++ b) !! length a = Some x.
Proof. by apply list_lookup_middle. Qed.

Lemma reverse_loop_spec fuel pre mid post :
  (length mid <= 2 * fuel + 1)%nat ->
  reverse_loop fuel (pre ++ mid ++ post) (zlen pre) (zlen pre + zlen mid - 1)
    = Some (pre ++ reverse mid ++ post).
Proof.
  revert pre mid post. induction fuel as [|fuel IH]; intros pre mid post Hl.
  - simpl. rewrite (proj2 (Z.ltb_ge _ _)) by (unfold zlen; lia).
    destruct mid as [|x [|y mid]]; [done|done|simpl in Hl; lia].
  - destruct mid as [|x mid]; [|destruct mid as [|y mid _] using rev_ind].
    + simpl. rewrite (proj2 (Z.ltb_ge _ _)) by (unfold zlen; simpl; lia). done.
    + simpl. rewrite (proj2 (Z.ltb_ge _ _)) by (unfold zlen; simpl; lia). done.
    + assert (zlen (x :: mid ++ [y]) = zlen mid + 2) as Elen by zlia. rewrite Elen.
      pose proof (zlen_nonneg mid). cbn [reverse_loop]. rewrite (proj2 (Z.ltb_lt _ _)) by lia.
      assert (pre ++ (x :: mid ++ [y]) ++ post = pre ++ [x] ++ (mid ++ [y] ++ post)) as E1
        by by simpl; rewrite <- app_assoc.
      assert (forall z, pre ++ [z] ++ mid ++ [y] ++ post = (pre ++ [z] ++ mid) ++ [y] ++ post) as E2
        by (intros z; by rewrite <- !app_assoc).
      assert (forall z, Z.to_nat (zlen pre + (zlen mid + 2) - 1) = length (pre ++ [z] ++ mid)) as E3
        by (intros z; rewrite !length_app; unfold zlen; simpl; lia).
      assert (Z.to_nat (zlen pre) = length pre) as E0 by (unfold zlen; lia).
      rewrite E1, E0, (lookup_mid pre (mid ++ [y] ++ post) x). cbn [mbind option_bind].
      rewrite E2, (E3 x), (lookup_mid (pre ++ [x] ++ mid) post y). cbn [mbind option_bind].
      rewrite <- E2, mwrite_mid by done. cbn [mbind option_bind].
      rewrite E2. replace (zlen pre + (zlen mid + 2) - 1) with (zlen (pre ++ [y] ++ mid)) by zlia.
      rewrite mwrite_mid by done. cbn [mbind option_bind].
      replace ((pre ++ [y] ++ mid) ++ [x] ++ post) with ((pre ++ [y]) ++ mid ++ [x] ++ post) by by rewrite <- !app_assoc.
      replace (zlen pre + 1) with (zlen (pre ++ [y])) by zlia.
      replace (zlen (pre ++ [y] ++ mid) - 1) with (zlen (pre ++ [y]) + zlen mid - 1) by zlia.
      rewrite IH; [|simpl in Hl; rewrite length_app in Hl; simpl in Hl; lia].
      rewrite reverse_cons, reverse_snoc, <- !app_assoc. done.
Qed.

(** Terminating and reversing what was written at the front of a buffer. *)
Lemma finish_number l x rest p :
  p = zlen l ->
  (s ← mwrite (l ++ x :: rest) p [0]; s' ← reverse_loop (Z.to_nat p) s 0 (p - 1); Some (s', p))
    = Some (reverse l ++ [0] ++ rest, zlen l).
Proof.
  intros ->. change (l ++ x :: rest) with (l ++ [x] ++ rest). rewrite mwrite_mid by done.
  cbn [mbind option_bind]. pose proof (reverse_loop_spec (Z.to_nat (zlen l)) [] l ([0] ++ rest)) as E.
  change (zlen (@nil Z)) with 0 in E. rewrite Z.add_0_l in E. simpl app in E |- *. rewrite E; [done|]. unfold zlen. lia.
Qed.

Lemma number_read cs rest : mread (cs ++ [0] ++ rest) 0 (zlen cs + 1) = Some (cs ++ [0]).
Proof.
  pose proof (mread_mid [] (cs ++ [0]) rest) as E. rewrite (zlen_app cs [0]) in E. change (zlen (@nil Z)) with 0 in E.
  simpl app in E. by rewrite <- app_assoc in E.
Qed.

Lemma sdsull2str_spec m v :
  0 <= v < 2 ^ 64 -> zlen m = SDS_LLSTR_SIZE ->
  exists m' cs, sdsull2str m v = Some (m', zlen cs) /\ mread m' 0 (zlen cs + 1) = Some (cs ++ [0]) /\
    canonical_nat cs v /\ zlen cs <= 20.
Proof.
  intros Hv Hm. unfold sdsull2str.
  assert (length m = 21%nat) as Hm' by (unfold zlen, SDS_LLSTR_SIZE in Hm; lia).
  destruct (put_digits_spec 20 20 [] m v) as (k & E & Hk & Hd); [|lia..|].
  { change (10 ^ Z.of_nat 20) with 100000000000000000000. change (2 ^ 64) with 18446744073709551616 in Hv. lia. }
  simpl app in E. change (zlen (@nil Z)) with 0 in E. rewrite E. cbn [mbind option_bind].
  destruct (drop k m) as [|x rest] eqn:Ed.
  { apply (f_equal length) in Ed. rewrite length_drop in Ed. simpl in Ed. lia. }
  set (l := reverse (dec_digits k v)).
  assert (zlen l = Z.of_nat k) as El by (unfold l, zlen; rewrite length_reverse, length_dec_digits; lia).
  rewrite (finish_number l x rest) by lia. unfold l at 1. rewrite reverse_involutive.
  exists (dec_digits k v ++ [0] ++ rest), (dec_digits k v).
  assert (zlen (dec_digits k v) = Z.of_nat k) as Ek by (unfold zlen; by rewrite length_dec_digits).
  split_and!; [by rewrite El, Ek|apply number_read|by apply canonical_nat_has_digits; [|lia|]|lia].
Qed.

Lemma sdsll2str_spec m v :
  in_s 64 v -> zlen m = SDS_LLSTR_SIZE ->
  exists m' cs, sdsll2str m v = Some (m', zlen cs) /\ mread m' 0 (zlen cs + 1) = Some (cs ++ [0]) /\
    canonical cs v /\ zlen cs <= 20.
Proof.
  intros Hv Hm. unfold sdsll2str. change (in_s 64 v) with (- 2 ^ 63 <= v < 2 ^ 63) in Hv.
  assert (length m = 21%nat) as Hm' by (unfold zlen, SDS_LLSTR_SIZE in Hm; lia).
  set (a := uwrap 64 _). assert (a = Z.abs v) as Ea.
  { unfold a, uwrap. destruct (Z.ltb_spec v 0); [|rewrite Z.mod_small; lia].
    destruct (Z.eq_dec v (- 2 ^ 63)) as [->|]; [reflexivity|].
    rewrite swrap_small by width_lia. rewrite Z.mod_small; lia. }
  clearbody a. subst a.
  destruct (put_digits_spec 20 19 [] m (Z.abs v)) as (k & E & Hk & Hd); [|lia..|].
  { change (10 ^ Z.of_nat 19) with 10000000000000000000. change (2 ^ 63) with 9223372036854775808 in Hv. lia. }
  simpl app in E. change (zlen (@nil Z)) with 0 in E. rewrite E. cbn [mbind option_bind].
  assert (canonical_nat (dec_digits k (Z.abs v)) (Z.abs v)) as Hcan.
  { apply canonical_nat_has_digits; [|lia|done]. change (2 ^ 64) with (2 * 2 ^ 63). lia. }
  set (ds := dec_digits k (Z.abs v)) in *. set (l := reverse ds).
  assert (zlen ds = Z.of_nat k) as Ek by (unfold ds, zlen; by rewrite length_dec_digits).
  assert (zlen l = Z.of_nat k) as El by (unfold l, zlen in *; by rewrite length_reverse).
  destruct (drop k m) as [|x rest] eqn:Ed; [apply (f_equal length) in Ed; rewrite length_drop in Ed; simpl in Ed; lia|].
  destruct (Z.ltb_spec v 0) as [Hneg|Hpos].
  - change (l ++ x :: rest) with (l ++ [x] ++ rest). rewrite <- El, Z.add_0_l, mwrite_mid by done.
    cbn [mbind option_bind]. destruct rest as [|y rest].
    { apply (f_equal length) in Ed. rewrite length_drop in Ed. simpl in Ed. lia. }
    rewrite app_assoc, (finish_number (l ++ [ch_minus]) y rest) by zlia.
    rewrite reverse_snoc. unfold l at 1. rewrite reverse_involutive.
    exists ((ch_minus :: ds) ++ [0] ++ rest), (ch_minus :: ds).
    split_and!; [|apply number_read| |zlia].
    + f_equal. f_equal. rewrite zlen_app, !zlen_cons, zlen_nil. lia.
    + unfold canonical. rewrite (proj2 (Z.ltb_lt v 0)) by done. exists ds. split; [done|].
      by replace (- v) with (Z.abs v) by lia.
  - cbn [mbind option_bind]. rewrite (finish_number l x rest) by lia. unfold l at 1. rewrite reverse_involutive.
    exists (ds ++ [0] ++ rest), ds. split_and!; [by rewrite El, Ek|apply number_read| |lia].
    unfold canonical. rewrite (proj2 (Z.ltb_ge v 0)) by done. by rewrite <- (Z.abs_eq v) by lia.
Qed.

(** ** Formatting *)

(** What a directive consumes from the arguments and stands for. *)
Inductive directive : Z -> list fmt_arg -> list Z -> list fmt_arg -> Prop :=
  | dir_s m cs ap : cstring m cs -> directive 115 (ArgCStr m :: ap) cs ap
  | dir_S s bs ap : sds_rep s bs -> directive 83 (ArgSds s :: ap) bs ap
  | dir_i n cs ap : in_s 32 n -> canonical cs n -> directive 105 (ArgInt n :: ap) cs ap
  | dir_I n cs ap : in_s 64 n -> canonical cs n -> directive 73 (ArgLL n :: ap) cs ap
  | dir_u n cs ap : in_u 32 n -> canonical cs n -> directive 117 (ArgUInt n :: ap) cs ap
  | dir_U n cs ap : in_u 64 n -> canonical cs n -> directive 85 (ArgULL n :: ap) cs ap
  | dir_other c ap : c ∉ [115; 83; 105; 73; 117; 85] -> c <> 0 -> directive c ap [c] ap.

Inductive expands : list Z -> list fmt_arg -> list Z -> Prop :=
  | exp_nil ap : expands [] ap []
  | exp_char c f ap t : c <> 0 -> c <> 37 -> expands f ap t -> expands (c :: f) ap (c :: t)
  | exp_dir c f ap t ap' ts : directive c ap t ap' -> expands f ap' ts -> expands (37 :: c :: f) ap (t ++ ts).

Lemma sdsinclen_setlen s inc :
  sds_ok s -> 0 <= inc -> sdslen s + inc <= sdsalloc s -> sdsinclen s inc = sdssetlen s (sdslen s + inc).
Proof.
  intros Hok Hi Hle. unfold sdsinclen, sdssetlen.
  destruct (hdr_cases s Hok) as [(Et & Hf & Es & Ea & _ & Hl)|(Et & Ef & Es & Ea & _ & Hl & Hw)].
  - rewrite Et. change (0 =? SDS_TYPE_5) with true. cbv iota. assert (inc = 0) as -> by lia.
    assert (SDS_TYPE_5_LEN (sh_flags s) = sdslen s) as -> by (unfold sdslen; by rewrite Et).
    rewrite Z.add_0_r, (uwrap_small 8 (sdslen s)) by (unfold in_u; lia).
    rewrite (uwrap_small 64); [done|]. unfold SDS_TYPE_BITS. rewrite Z.shiftl_mul_pow2 by lia.
    change (2 ^ 3) with 8. unfold in_u. lia.
  - rewrite (proj2 (Z.eqb_neq _ SDS_TYPE_5)) by (unfold SDS_TYPE_5; lia). by rewrite Es.
Qed.

Section FmtSpec.
Context (junk : nat -> Z).

(** The state of [sdscatfmt] between two characters of the format. *)
Definition cat_state (s : sds) (i : Z) (bs : list Z) : Prop := i = zlen bs /\ exists x, sds_holds s bs x.

Lemma cat_state_write s bs ts :
  cat_state s (zlen bs) bs -> zlen ts <= sdsavail s ->
  exists s', put s (zlen bs) ts = Some s' /\
    cat_state (sdsinclen s' (zlen ts)) (zlen bs + zlen ts) (bs ++ ts).
Proof.
  intros (_ & x & Hok & El & Hr) Hav. pose proof (ok_bounds s Hok) as (B1 & B2 & B3 & B4).
  pose proof (zlen_nonneg ts). change 1 with (zlen [x]) in Hr. apply mread_app in Hr as [Hr _].
  destruct (put_content s (zlen bs) bs ts Hok Hr) as (s' & Hp & Hok' & Ha' & _ & El' & Hb' & Hr'); [lia|].
  exists s'. split; [done|]. split; [by rewrite zlen_app|].
  rewrite sdsinclen_setlen by (done || lia).
  destruct (sdssetlen_spec s' (sdslen s' + zlen ts) Hok') as (S1 & S2 & S3 & _); [lia|].
  destruct (lookup_lt_is_Some_2 (sh_buf s') (length (bs ++ ts))) as [y Hy].
  { rewrite length_app. unfold zlen in *. lia. }
  exists y. split; [done|]. split; [rewrite S2, zlen_app; lia|]. rewrite S3.
  change 1 with (zlen [y]). apply mread_app. split; [done|].
  apply mread_Some. split_and!; try done; [rewrite zlen_app; pose proof (zlen_nonneg bs); lia| |].
  - change (zlen [y]) with 1. rewrite zlen_app. lia.
  - intros [|j] Hj; [|change (zlen [y]) with 1 in Hj; lia]. simpl. rewrite <- Hy. f_equal. unfold zlen. lia.
Qed.

Lemma cat_state_room s i bs n :
  cat_state s i bs -> 0 <= n -> zlen bs + n < 2 ^ 62 ->
  exists s', (if sdsavail s <? n then sdsMakeRoomFor junk s n else Some s) = Some s' /\
    cat_state s' i bs /\ n <= sdsavail s'.
Proof.
  intros (-> & x & Hh) Hn Hb. destruct (Z.ltb_spec (sdsavail s) n).
  - destruct (sdsMakeRoomFor_holds junk s bs x n Hh Hn Hb) as (s' & ? & ? & ? & _).
    exists s'. split_and!; try done. split; [done|by exists x].
  - exists s. split_and!; try done. split; [done|by exists x].
Qed.

Lemma fmt_append_spec s i bs str ts :
  cat_state s i bs -> mread str 0 (zlen ts) = Some ts -> zlen bs + zlen ts < 2 ^ 62 ->
  exists s' i', fmt_append junk s i str (zlen ts) = Some (s', i') /\ cat_state s' i' (bs ++ ts).
Proof.
  intros Hc Hstr Hb. pose proof (zlen_nonneg ts). unfold fmt_append.
  destruct (cat_state_room s i bs (zlen ts) Hc) as (s1 & -> & Hc1 & Hav); [lia..|].
  cbn [mbind option_bind]. rewrite Hstr. cbn [mbind option_bind].
  pose proof Hc1 as (-> & _). destruct (cat_state_write s1 bs ts Hc1 Hav) as (s2 & -> & Hc2).
  cbn [mbind option_bind]. eauto.
Qed.

Lemma zlen_llstr_buf : zlen (llstr_buf junk) = SDS_LLSTR_SIZE.
Proof. unfold llstr_buf. by apply zlen_mrealloc. Qed.

Lemma number_prefix m cs : mread m 0 (zlen cs + 1) = Some (cs ++ [0]) -> mread m 0 (zlen cs) = Some cs.
Proof. change 1 with (zlen [0]). by intros [? _]%mread_app. Qed.

Lemma in_s32_s64 n : in_s 32 n -> in_s 64 n.
Proof. unfold in_s. simpl. lia. Qed.

Lemma signed_text n cs :
  in_s 64 n -> canonical cs n ->
  exists buf, sdsll2str (llstr_buf junk) n = Some (buf, zlen cs) /\ mread buf 0 (zlen cs) = Some cs.
Proof.
  intros Hn Hc. destruct (sdsll2str_spec (llstr_buf junk) n Hn zlen_llstr_buf) as (buf & cs' & E & Hr & Hc' & _).
  rewrite (canonical_inj cs cs' n) by done. exists buf. split; [done|]. by apply number_prefix.
Qed.

Lemma unsigned_text n cs :
  in_u 64 n -> canonical cs n ->
  exists buf, sdsull2str (llstr_buf junk) n = Some (buf, zlen cs) /\ mread buf 0 (zlen cs) = Some cs.
Proof.
  intros Hn Hc. destruct (sdsull2str_spec (llstr_buf junk) n Hn zlen_llstr_buf) as (buf & cs' & E & Hr & Hc' & _).
  unfold canonical in Hc. rewrite (proj2 (Z.ltb_ge n 0)) in Hc by apply Hn.
  rewrite (canonical_nat_inj cs cs' n) by done. exists buf. split; [done|]. by apply number_prefix.
Qed.

Lemma fmt_directive_spec c ap t ap' s i bs :
  directive c ap t ap' -> cat_state s i bs -> 1 <= sdsavail s -> zlen bs + zlen t < 2 ^ 62 ->
  exists s' i', fmt_directive junk c ap s i = Some (s', i', ap') /\ cat_state s' i' (bs ++ t).
Proof.
  intros Hd Hc Hav Hb. destruct Hd as [m cs ap Hm|s0 b0 ap Hs0|n cs ap Hn Hcan|n cs ap Hn Hcan|n cs ap Hn Hcan|n cs ap Hn Hcan|c ap Hnot H0];
    unfold fmt_directive; cbn [Z.eqb Pos.eqb orb].
  - destruct (strlen_spec m cs Hm) as [-> Hr]. cbn [mbind option_bind].
    destruct (fmt_append_spec s i bs m cs Hc Hr Hb) as (s' & i' & -> & ?). cbn [mbind option_bind]. eauto.
  - rewrite (proj1 (proj2 Hs0)).
    destruct (fmt_append_spec s i bs (sh_buf s0) b0 Hc (rep_mread _ _ Hs0) Hb) as (s' & i' & -> & ?).
    cbn [mbind option_bind]. eauto.
  - cbn [mbind option_bind]. destruct (signed_text n cs (in_s32_s64 n Hn) Hcan) as (buf & -> & Hr). cbn [mbind option_bind].
    destruct (fmt_append_spec s i bs buf cs Hc Hr Hb) as (s' & i' & -> & ?). cbn [mbind option_bind]. eauto.
  - cbn [mbind option_bind]. destruct (signed_text n cs Hn Hcan) as (buf & -> & Hr). cbn [mbind option_bind].
    destruct (fmt_append_spec s i bs buf cs Hc Hr Hb) as (s' & i' & -> & ?). cbn [mbind option_bind]. eauto.
  - cbn [mbind option_bind]. destruct (unsigned_text n cs) as (buf & -> & Hr); [unfold in_u in *; lia|done|]. cbn [mbind option_bind].
    destruct (fmt_append_spec s i bs buf cs Hc Hr Hb) as (s' & i' & -> & ?). cbn [mbind option_bind]. eauto.
  - cbn [mbind option_bind]. destruct (unsigned_text n cs Hn Hcan) as (buf & -> & Hr). cbn [mbind option_bind].
    destruct (fmt_append_spec s i bs buf cs Hc Hr Hb) as (s' & i' & -> & ?). cbn [mbind option_bind]. eauto.
  - rewrite !not_elem_of_cons in Hnot. destruct Hnot as (? & ? & ? & ? & ? & ? & _).
    rewrite !(proj2 (Z.eqb_neq _ _)) by done. cbn [orb]. pose proof Hc as (-> & _).
    destruct (cat_state_write s bs [c] Hc Hav) as (s' & -> & Hc'). cbn [mbind option_bind]. eauto.
Qed.

Lemma catfmt_loop_spec f r ap t s i bs :
  expands f ap t -> cat_state s i bs -> zlen bs + zlen t + 1 < 2 ^ 62 ->
  exists s' i', catfmt_loop junk (f ++ 0 :: r) ap s i = Some (s', i') /\ cat_state s' i' (bs ++ t).
Proof.
  intros He. revert s i bs. induction He as [ap|c f ap t H0 H37 He IH|c f ap t ap' ts Hd He IH]; intros s i bs Hc Hb.
  - simpl. rewrite app_nil_r. eauto.
  - cbn [app catfmt_loop]. rewrite (proj2 (Z.eqb_neq c 0)), (proj2 (Z.eqb_neq c 37)) by done.
    rewrite zlen_cons in Hb. pose proof (zlen_nonneg t).
    destruct (cat_state_room s i bs 1 Hc) as (s1 & E1 & Hc1 & Hav); [lia..|].
    assert ((if sdsavail s =? 0 then sdsMakeRoomFor junk s 1 else Some s) = Some s1) as ->.
    { rewrite <- E1. pose proof Hc as (_ & x & Hok & _). pose proof (ok_bounds s Hok).
      destruct (Z.eqb_spec (sdsavail s) 0), (Z.ltb_spec (sdsavail s) 1); done || lia. }
    cbn [mbind option_bind]. pose proof Hc1 as (-> & _).
    destruct (cat_state_write s1 bs [c] Hc1 Hav) as (s2 & -> & Hc2). cbn [mbind option_bind].
    change (zlen [c]) with 1 in Hc2. destruct (IH _ _ _ Hc2) as (s' & i' & -> & ?); [zlia|].
    exists s', i'. by rewrite <- app_assoc in *.
  - cbn [app catfmt_loop]. change (37 =? 0) with false. change (37 =? 37) with true. cbv iota.
    rewrite zlen_app in Hb. pose proof (zlen_nonneg t). pose proof (zlen_nonneg ts).
    destruct (cat_state_room s i bs 1 Hc) as (s1 & E1 & Hc1 & Hav); [lia..|].
    assert ((if sdsavail s =? 0 then sdsMakeRoomFor junk s 1 else Some s) = Some s1) as ->.
    { rewrite <- E1. pose proof Hc as (_ & x & Hok & _). pose proof (ok_bounds s Hok).
      destruct (Z.eqb_spec (sdsavail s) 0), (Z.ltb_spec (sdsavail s) 1); done || lia. }
    cbn [mbind option_bind].
    destruct (fmt_directive_spec c ap t ap' s1 i bs Hd Hc1 Hav) as (s2 & i2 & -> & Hc2); [lia|].
    cbn [mbind option_bind]. destruct (IH _ _ _ Hc2) as (s' & i' & -> & ?); [zlia|].
    exists s', i'. by rewrite <- app_assoc in *.
Qed.

Lemma sdscatfmt_spec s bs fmt f ap t :
  sds_rep s bs -> cstring fmt f -> expands f ap t -> zlen bs + zlen t + 1 < 2 ^ 62 ->
  exists s', sdscatfmt junk s fmt ap = Some s' /\ sds_rep s' (bs ++ t).
Proof.
  intros Hrep (r & -> & _) He Hb. unfold sdscatfmt. rewrite (proj1 (proj2 Hrep)).
  destruct (catfmt_loop_spec f r ap t s (zlen bs) bs He) as (s' & i' & -> & (-> & x & Hok & El & Hr)); [split; eauto|done|].
  cbn [mbind option_bind]. change 1 with (zlen [x]) in Hr. apply mread_app in Hr as [Hr _].
  destruct (terminate s' (bs ++ t) Hok Hr El) as (b & Hp & Hrep'). eauto.
Qed.
End FmtSpec.

(** ** Splitting and joining *)

Fixpoint join_bytes (sep : list Z) (ts : list (list Z)) : list Z :=
  match ts with
  | [] => []
  | [t] => t
  | t :: ts => t ++ sep ++ join_bytes sep ts
  end.

(** The separator does not occur in [l] at a position before [n]. *)
Definition no_sep_before (sep l : list Z) (n : nat) : Prop :=
  forall q, (q < n)%nat -> ~ sep `prefix_of` drop q l.

(** The tokens of a leftmost split: inside a token the separator starts
    nowhere, even counting the separator that follows it. *)
Fixpoint split_ok (sep : list Z) (ts : list (list Z)) : Prop :=
  match ts with
  | [] => False
  | [t] => no_sep_before sep t (length t)
  | t :: ts => no_sep_before sep (t ++ sep) (length t) /\ split_ok sep ts
  end.

Lemma join_snoc sep ts t : ts <> [] -> join_bytes sep (ts ++ [t]) = join_bytes sep ts ++ sep ++ t.
Proof.
  induction ts as [|u ts IH]; [done|intros _]. destruct ts as [|v ts]; [done|].
  change (join_bytes sep ((u :: v :: ts) ++ [t])) with (u ++ sep ++ join_bytes sep ((v :: ts) ++ [t])).
  rewrite IH by done. change (join_bytes sep (u :: v :: ts)) with (u ++ sep ++ join_bytes sep (v :: ts)).
  by rewrite <- !app_assoc.
Qed.

Lemma join_concat sep ts t : join_bytes sep (ts ++ [t]) = concat ((fun u => u ++ sep) <$> ts) ++ t.
Proof.
  induction ts as [|u ts IH]; [done|].
  assert (join_bytes sep ((u :: ts) ++ [t]) = u ++ sep ++ join_bytes sep (ts ++ [t])) as ->
    by (simpl; destruct (ts ++ [t]) eqn:E; [by destruct ts|done]).
  rewrite IH. simpl. by rewrite <- !app_assoc.
Qed.

Lemma split_ok_snoc sep ts t :
  Forall (fun u => no_sep_before sep (u ++ sep) (length u)) ts -> no_sep_before sep t (length t) ->
  split_ok sep (ts ++ [t]).
Proof.
  intros Hts Ht. induction Hts as [|u ts Hu Hts IH]; [done|].
  change (match ts ++ [t] with [] => no_sep_before sep u (length u)
    | _ => no_sep_before sep (u ++ sep) (length u) /\ split_ok sep (ts ++ [t]) end).
  destruct (ts ++ [t]) eqn:E; [by destruct ts|done].
Qed.

Section SplitSpec.
Context (junk : nat -> Z).

Lemma push_token_spec tokens slots p a t b :
  p = a ++ t ++ b -> zlen tokens < slots -> zlen t < 2 ^ 62 ->
  exists x, push_token junk tokens slots p (zlen a) (zlen t) = Some (tokens ++ [x]) /\ sds_rep x t.
Proof.
  intros -> Hs Ht. unfold push_token. rewrite (proj2 (Z.ltb_lt _ _)) by done. rewrite mread_mid.
  cbn [mbind option_bind]. destruct (sdsnewlen_spec junk t t (mread_self t) Ht) as (x & -> & Hx).
  cbn [mbind option_bind]. eauto.
Qed.

(** The comparison at [j]. *)
Lemma sep_test s sep a rest :
  s = a ++ rest -> sep <> [] -> zlen sep <= zlen rest ->
  exists c0 sep0, s !! Z.to_nat (zlen a) = Some c0 /\ sep !! 0%nat = Some sep0 /\
    (if (zlen sep =? 1) && (c0 =? sep0) then Some true else
     x ← mread s (zlen a) (zlen sep); y ← mread sep 0 (zlen sep); Some (bool_decide (x = y)))
      = Some (bool_decide (sep `prefix_of` rest)).
Proof.
  intros -> Hne Hl. destruct sep as [|s0 sep]; [done|]. rewrite zlen_cons in Hl. pose proof (zlen_nonneg sep).
  destruct rest as [|c rest]; [rewrite zlen_nil in Hl; lia|].
  exists c, s0. split; [|split; [done|]].
  { replace (Z.to_nat (zlen a)) with (length a) by (unfold zlen; lia). by apply list_lookup_middle. }
  destruct ((zlen (s0 :: sep) =? 1) && (c =? s0)) eqn:E1.
  - apply andb_true_iff in E1 as [El%Z.eqb_eq ->%Z.eqb_eq]. rewrite zlen_cons in El.
    destruct sep; [|rewrite zlen_cons in El; pose proof (zlen_nonneg sep); lia].
    rewrite bool_decide_eq_true_2; [done|]. by exists rest.
  - clear E1. set (n := length (s0 :: sep)).
    pose proof (take_drop n (c :: rest)) as Etd.
    assert (zlen (take n (c :: rest)) = zlen (s0 :: sep)) as El
      by (unfold zlen, n in *; rewrite length_take; simpl in *; lia).
    pose proof (mread_mid a (take n (c :: rest)) (drop n (c :: rest))) as Hm.
    rewrite Etd, El in Hm. rewrite Hm, mread_self. cbn [mbind option_bind]. f_equal.
    apply bool_decide_ext. split.
    + intros E. exists (drop n (c :: rest)). by rewrite <- E, Etd.
    + intros [k ->]. unfold n. by rewrite take_app_length.
Qed.

Lemma no_sep_app sep l r n : no_sep_before sep (l ++ r) n -> (n <= length l)%nat -> no_sep_before sep l n.
Proof.
  intros Hn Hl q Hq [k Hk]. apply (Hn q Hq). rewrite drop_app_le by lia. rewrite Hk, <- app_assoc. by eexists.
Qed.

Lemma split_loop_spec fuel s sep tokens cts slots cur rest :
  sep <> [] -> zlen s < 2 ^ 29 ->
  s = concat ((fun u => u ++ sep) <$> cts) ++ cur ++ rest ->
  (length rest <= fuel)%nat -> Forall2 sds_rep tokens cts ->
  zlen cts + 1 <= slots <= 2 * zlen cts + 5 ->
  Forall (fun u => no_sep_before sep (u ++ sep) (length u)) cts ->
  no_sep_before sep (cur ++ rest) (length cur) ->
  let start := zlen (concat ((fun u => u ++ sep) <$> cts)) in
  exists tokens' cts' slots' last,
    split_loop junk fuel s (zlen s) sep (zlen sep) tokens slots start (start + zlen cur)
      = Some (tokens', slots', zlen (concat ((fun u => u ++ sep) <$> cts'))) /\
    s = concat ((fun u => u ++ sep) <$> cts') ++ last /\
    Forall2 sds_rep tokens' cts' /\ zlen cts' + 1 <= slots' /\
    Forall (fun u => no_sep_before sep (u ++ sep) (length u)) cts' /\
    no_sep_before sep last (length last).
Proof.
  intros Hne Hs29. revert tokens cts slots cur rest.
  assert (1 <= zlen sep) as Hsep by (destruct sep; [done|zlia]).
  assert (forall tokens cts slots cur rest,
    s = concat ((fun u => u ++ sep) <$> cts) ++ cur ++ rest -> zlen rest < zlen sep ->
    Forall2 sds_rep tokens cts -> zlen cts + 1 <= slots ->
    Forall (fun u => no_sep_before sep (u ++ sep) (length u)) cts ->
    no_sep_before sep (cur ++ rest) (length cur) ->
    exists tokens' cts' slots' last,
      Some (tokens, slots, zlen (concat ((fun u => u ++ sep) <$> cts)))
        = Some (tokens', slots', zlen (concat ((fun u => u ++ sep) <$> cts'))) /\
      s = concat ((fun u => u ++ sep) <$> cts') ++ last /\
      Forall2 sds_rep tokens' cts' /\ zlen cts' + 1 <= slots' /\
      Forall (fun u => no_sep_before sep (u ++ sep) (length u)) cts' /\
      no_sep_before sep last (length last)) as Hexit.
  { intros tokens cts slots cur rest Es Hr Htok Hsl Hcts Hcur.
    exists tokens, cts, slots, (cur ++ rest). split_and!; try done.
    intros q Hq Hp. destruct (decide (q < length cur)%nat); [by apply (Hcur q)|].
    apply prefix_length in Hp. rewrite length_drop, length_app in Hp. unfold zlen in Hr. lia. }
  induction fuel as [|fuel IH]; intros tokens cts slots cur rest Es Hf Htok Hsl Hcts Hcur; cbv zeta;
    pose proof (f_equal zlen Es) as El; rewrite !zlen_app in El; cbn [split_loop];
    set (dn := concat ((fun u => u ++ sep) <$> cts)) in *.
  - destruct rest; [|simpl in Hf; lia]. rewrite zlen_nil in El.
    rewrite (proj2 (Z.ltb_ge _ _)) by lia. apply (Hexit tokens cts slots cur []); try done; [|lia]. 
    rewrite zlen_nil. lia.
  - destruct (Z.ltb_spec (zlen dn + zlen cur) (zlen s - (zlen sep - 1))) as [Hlt|Hge];
      [|apply (Hexit tokens cts slots cur rest); try done; lia].
    destruct (sep_test s sep (dn ++ cur) rest) as (c0 & sep0 & Hc0 & Hs0 & Htest);
      [by rewrite <- app_assoc|done|lia|].
    rewrite zlen_app in Hc0, Htest. rewrite Hc0, Hs0. cbn [mbind option_bind]. rewrite Htest.
    cbn [mbind option_bind].
    assert (zlen tokens = zlen cts) as Et by (unfold zlen; f_equal; by eapply Forall2_length).
    assert (zlen cts <= zlen dn) as Hcl.
    { subst dn. clear -Hsep. induction cts as [|u cts IH]; [done|]. rewrite fmap_cons, zlen_cons. simpl.
      rewrite !zlen_app. pose proof (zlen_nonneg u). lia. }
    pose proof (zlen_nonneg rest). pose proof (zlen_nonneg cur).
    set (slots' := if slots <? zlen tokens + 2 then swrap 32 (slots * 2) else slots).
    assert (zlen cts + 2 <= slots' <= 2 * zlen cts + 5) as Hsl'.
    { unfold slots'. pose proof (zlen_nonneg cts). destruct (Z.ltb_spec slots (zlen tokens + 2)); [|lia].
      rewrite swrap_small by (unfold in_s; simpl; lia). lia. }
    clearbody slots'. destruct (decide (sep `prefix_of` rest)) as [[rest' Er]|Hnp].
    + rewrite bool_decide_eq_true_2 by (by exists rest').
      destruct (push_token_spec tokens slots' s dn cur rest) as (x & Hx & Hxr); [done|lia|lia|].
      replace (zlen dn + zlen cur - zlen dn) with (zlen cur) by lia. rewrite Hx. cbn [mbind option_bind].
      destruct (IH (tokens ++ [x]) (cts ++ [cur]) slots' [] rest') as (tk & ck & sk & last & E & Hrest);
        [| | | | | |].
      * rewrite fmap_app, concat_app. fold dn. simpl. rewrite app_nil_r, Es, Er, <- !app_assoc. done.
      * rewrite Er, length_app in Hf. unfold zlen in Hsep. lia.
      * apply Forall2_app; [done|]. by constructor.
      * rewrite zlen_app. change (zlen [cur]) with 1. lia.
      * apply Forall_app. split; [done|]. constructor; [|done].
        rewrite Er, app_assoc in Hcur. apply no_sep_app in Hcur; [done|]. rewrite length_app. lia.
      * intros q Hq. simpl in Hq. lia.
      * cbv zeta in E. rewrite fmap_app, concat_app in E. fold dn in E. simpl in E.
        rewrite app_nil_r, !zlen_app, zlen_nil, Z.add_0_r in E.
        exists tk, ck, sk, last. split; [|done]. rewrite <- E. f_equal; lia.
    + rewrite bool_decide_eq_false_2 by done.
      destruct rest as [|c rest]; [exfalso; rewrite zlen_nil in *; lia|].
      destruct (IH tokens cts slots' (cur ++ [c]) rest) as (tk & ck & sk & last & E & Hrest);
        [by rewrite <- app_assoc|simpl in Hf; lia|done|lia|done| |].
      * intros q Hq. rewrite <- app_assoc. simpl. rewrite length_app in Hq. simpl in Hq.
        destruct (decide (q = length cur)) as [->|]; [by rewrite drop_app_length|]. apply Hcur. lia.
      * cbv zeta in E. fold dn in E. exists tk, ck, sk, last. split; [|done]. rewrite <- E.
        rewrite zlen_app. change (zlen [c]) with 1. f_equal; lia.
Qed.

Lemma sdssplitlen_spec s sep :
  sep <> [] -> s <> [] -> zlen s < 2 ^ 29 ->
  exists tokens cts, sdssplitlen junk s (zlen s) sep (zlen sep) = Some (Some tokens) /\
    Forall2 sds_rep tokens cts /\ join_bytes sep cts = s /\ split_ok sep cts.
Proof.
  intros Hsep Hs Hb. unfold sdssplitlen.
  assert (1 <= zlen sep) by (destruct sep; [done|zlia]). assert (1 <= zlen s) by (destruct s; [done|zlia]).
  rewrite (proj2 (Z.ltb_ge _ 1)), (proj2 (Z.ltb_ge _ 0)), (proj2 (Z.eqb_neq _ 0)) by lia. cbn [orb].
  destruct (split_loop_spec (Z.to_nat (zlen s)) s sep [] [] 5 [] s)
    as (tokens & cts & slots & last & E & Es & Htok & Hsl & Hc & Hl); try done.
  { unfold zlen. lia. }
  { intros q Hq. simpl in Hq. lia. }
  simpl in E. change (zlen (@nil Z) + zlen (@nil Z)) with 0 in E. change (zlen (@nil Z)) with 0 in E. rewrite E.
  cbn [mbind option_bind]. set (dn := concat _) in *.
  pose proof (f_equal zlen Es) as El. rewrite zlen_app in El. pose proof (zlen_nonneg dn).
  destruct (push_token_spec tokens slots s dn last []) as (x & Hx & Hxr);
    [by rewrite app_nil_r|apply Forall2_length in Htok; unfold zlen in *; lia|lia|].
  replace (zlen s - zlen dn) with (zlen last) by lia. rewrite Hx. cbn [mbind option_bind].
  exists (tokens ++ [x]), (cts ++ [last]). split_and!; [done| | |by apply split_ok_snoc].
  - apply Forall2_app; [done|by constructor].
  - by rewrite join_concat.
Qed.

Lemma joinsds_loop_spec argv cts sep join bs :
  Forall2 sds_rep argv cts -> sds_rep join bs -> zlen bs + zlen (join_bytes sep cts) < 2 ^ 62 ->
  exists r, joinsds_loop junk join argv sep (zlen sep) = Some r /\ sds_rep r (bs ++ join_bytes sep cts).
Proof.
  intros Ha. revert join bs. induction Ha as [|a c argv cts Hac Ha IH]; intros join bs Hj Hb.
  { exists join. by rewrite app_nil_r. }
  cbn [joinsds_loop]. unfold sdscatsds. rewrite (proj1 (proj2 Hac)).
  destruct cts as [|c' cts].
  - apply Forall2_nil_inv_r in Ha as ->. simpl in Hb.
    destruct (sdscatlen_spec junk join bs (sh_buf a) c Hj (rep_mread _ _ Hac) Hb) as (r & -> & Hr).
    cbn [mbind option_bind]. rewrite bool_decide_eq_true_2 by done. cbn [negb mbind option_bind joinsds_loop]. eauto.
  - change (join_bytes sep (c :: c' :: cts)) with (c ++ sep ++ join_bytes sep (c' :: cts)) in *.
    rewrite !zlen_app in Hb. pose proof (zlen_nonneg sep). pose proof (zlen_nonneg (join_bytes sep (c' :: cts))).
    destruct (sdscatlen_spec junk join bs (sh_buf a) c Hj (rep_mread _ _ Hac)) as (r & -> & Hr); [lia|].
    cbn [mbind option_bind]. destruct argv as [|a' argv]; [inversion Ha|].
    rewrite bool_decide_eq_false_2 by done. cbn [negb].
    destruct (sdscatlen_spec junk r (bs ++ c) sep sep Hr (mread_self sep)) as (r2 & -> & Hr2); [zlia|].
    cbn [mbind option_bind]. destruct (IH r2 _ Hr2) as (r3 & E3 & Hr3); [rewrite !zlen_app; lia|].
    exists r3. split; [done|]. by rewrite <- !app_assoc in Hr3.
Qed.

Lemma sdsempty_spec : exists s, sdsempty junk = Some s /\ sds_rep s [].
Proof. apply (sdsnewlen_spec junk [] [0]); done. Qed.

Lemma sdsjoinsds_spec argv cts sep :
  Forall2 sds_rep argv cts -> zlen (join_bytes sep cts) < 2 ^ 62 ->
  exists r, sdsjoinsds junk argv sep (zlen sep) = Some r /\ sds_rep r (join_bytes sep cts).
Proof.
  intros Ha Hb. unfold sdsjoinsds. destruct sdsempty_spec as (e & -> & He). cbn [mbind option_bind].
  apply (joinsds_loop_spec argv cts sep e [] Ha He). by rewrite zlen_nil.
Qed.
End SplitSpec.

(** ** The quoted representation *)

Definition repr_of (c : Z) : list Z :=
  if (c =? 92) || (c =? 34) then [92; c]
  else if c =? 10 then [92; 110] else if c =? 13 then [92; 114] else if c =? 9 then [92; 116]
  else if c =? 7 then [92; 97] else if c =? 8 then [92; 98]
  else if isprint c then [c]
  else [92; 120; hex_char (c / 16); hex_char (c mod 16)].

Definition repr_text (p : list Z) : list Z := [34] ++ concat (repr_of <$> p) ++ [34].

Lemma hex_roundtrip c :
  byte_ok c ->
  is_hex_digit (hex_char (c / 16)) = true /\ is_hex_digit (hex_char (c mod 16)) = true /\
  uwrap 8 (hex_digit_to_int (hex_char (c / 16)) * 16 + hex_digit_to_int (hex_char (c mod 16))) = c /\
  hex_char (c / 16) <> 0 /\ hex_char (c mod 16) <> 0.
Proof.
  intros Hc. pose proof (all_bytes_spec (fun c => is_hex_digit (hex_char (c / 16)) && is_hex_digit (hex_char (c mod 16)) &&
    (uwrap 8 (hex_digit_to_int (hex_char (c / 16)) * 16 + hex_digit_to_int (hex_char (c mod 16))) =? c) &&
    negb (hex_char (c / 16) =? 0) && negb (hex_char (c mod 16) =? 0)) c ltac:(vm_compute; reflexivity) Hc) as H.
  cbv beta in H. rewrite !andb_true_iff, !negb_true_iff, !Z.eqb_neq, Z.eqb_eq in H. tauto.
Qed.

Lemma repr_of_nonzero c : byte_ok c -> Forall (fun x => x <> 0) (repr_of c).
Proof.
  intros Hc. pose proof (all_bytes_spec (fun c => forallb (fun x => negb (x =? 0)) (repr_of c)) c
    ltac:(vm_compute; reflexivity) Hc) as H.
  cbv beta in H. rewrite forallb_forall in H. apply Forall_forall. intros x Hx%list_elem_of_In.
  apply H in Hx. by rewrite negb_true_iff, Z.eqb_neq in Hx.
Qed.

Section ReprSpec.
Context (junk : nat -> Z).

Lemma sdscat_spec s bs t ts :
  sds_rep s bs -> cstring t ts -> zlen bs + zlen ts < 2 ^ 62 ->
  exists s', sdscat junk s t = Some s' /\ sds_rep s' (bs ++ ts).
Proof.
  intros Hs Ht Hb. unfold sdscat. destruct (strlen_spec t ts Ht) as [-> Hr]. cbn [mbind option_bind].
  by apply sdscatlen_spec.
Qed.

Lemma cat_lit s bs ts :
  sds_rep s bs -> zlen bs + zlen ts < 2 ^ 62 ->
  exists s', sdscatlen junk s ts (zlen ts) = Some s' /\ sds_rep s' (bs ++ ts).
Proof. intros. apply sdscatlen_spec; [done|apply mread_self|done]. Qed.

Lemma repr_char_spec s bs c :
  sds_rep s bs -> byte_ok c -> zlen bs + 4 < 2 ^ 62 ->
  exists s', repr_char junk s c = Some s' /\ sds_rep s' (bs ++ repr_of c).
Proof.
  intros Hs Hc Hb. pose proof (repr_of_nonzero c Hc) as Hnz. revert Hnz. unfold repr_char, repr_of.
  repeat case_match; intros Hnz;
    first [by apply sdscat_spec; [|exists []; split; [done|]|unfold zlen in *; simpl; lia]
          |by apply cat_lit; [|unfold zlen in *; simpl; lia]].
Qed.

Lemma repr_of_length c : zlen (repr_of c) <= 4.
Proof. unfold repr_of. repeat case_match; unfold zlen; simpl; lia. Qed.

Lemma repr_loop_spec p s bs :
  sds_rep s bs -> Forall byte_ok p -> zlen bs + 4 * zlen p < 2 ^ 62 ->
  exists s', repr_loop junk s p = Some s' /\ sds_rep s' (bs ++ concat (repr_of <$> p)).
Proof.
  intros Hs Hp. revert s bs Hs. induction Hp as [|c p Hc Hp IH]; intros s bs Hs Hb.
  { exists s. by rewrite app_nil_r. }
  rewrite zlen_cons in Hb. pose proof (zlen_nonneg p). cbn [repr_loop].
  destruct (repr_char_spec s bs c Hs Hc) as (s1 & -> & Hs1); [lia|]. cbn [mbind option_bind].
  pose proof (repr_of_length c). destruct (IH s1 _ Hs1) as (s2 & E & Hs2); [zlia|].
  exists s2. split; [done|]. simpl. by rewrite app_assoc.
Qed.

Lemma sdscatrepr_spec s bs p :
  sds_rep s bs -> Forall byte_ok p -> zlen bs + 4 * zlen p + 2 < 2 ^ 62 ->
  exists s', sdscatrepr junk s p = Some s' /\ sds_rep s' (bs ++ repr_text p).
Proof.
  intros Hs Hp Hb. unfold sdscatrepr. pose proof (zlen_nonneg p). change 1 with (zlen [34]).
  destruct (cat_lit s bs [34] Hs) as (s1 & -> & Hs1); [change (zlen [34]) with 1; lia|]. cbn [mbind option_bind].
  destruct (repr_loop_spec p s1 _ Hs1 Hp) as (s2 & -> & Hs2); [rewrite zlen_app; change (zlen [34]) with 1; lia|].
  cbn [mbind option_bind].
  assert (zlen (concat (repr_of <$> p)) <= 4 * zlen p) as Hl.
  { clear. induction p as [|c p IH]; [done|]. rewrite fmap_cons, zlen_cons. simpl. rewrite zlen_app.
    pose proof (repr_of_length c). lia. }
  destruct (cat_lit s2 _ [34] Hs2) as (s3 & -> & Hs3); [rewrite !zlen_app; change (zlen [34]) with 1; lia|].
  exists s3. split; [done|]. unfold repr_text. by rewrite <- !app_assoc in Hs3.
Qed.

(** ** Parsing it back *)

(** Inside double quotes, the representation of a byte adds that byte. *)
Lemma token_body_repr c rest current cb :
  byte_ok c -> sds_rep current cb -> zlen cb + 1 < 2 ^ 62 -> rest <> [] ->
  exists p' current', token_body junk (repr_of c ++ rest) true false current = Some (TokMore p' true false current') /\
    step_ptr p' = Some rest /\ sds_rep current' (cb ++ [c]).
Proof.
  intros Hc Hcur Hb Hrest. 
  assert (forall x, exists s', sdscatlen junk current [x] 1 = Some s' /\ sds_rep s' (cb ++ [x])) as Hcat
    by (intros x; by apply cat_lit).
  destruct (hex_roundtrip c Hc) as (X1 & X2 & X3 & X4 & X5).
  unfold repr_of.
  destruct ((c =? 92) || (c =? 34)) eqn:E1.
  { destruct (Hcat c) as (s' & Es & Hs'). exists (c :: rest), s'.
    assert (unescape c = c /\ c <> 120 /\ c <> 0) as (Eu & Hx & H0)
      by (apply orb_true_iff in E1 as [->%Z.eqb_eq| ->%Z.eqb_eq]; done).
    unfold token_body, hex_escape. simpl. rewrite (proj2 (Z.eqb_neq c 120)) by done. simpl.
    rewrite (proj2 (Z.eqb_neq c 0)) by done. simpl. rewrite Eu, Es. simpl.
    split_and!; try done. unfold step_ptr. simpl. by rewrite (proj2 (Z.eqb_neq c 0)). }
  repeat (match goal with |- context [if c =? ?k then _ else _] =>
    destruct (Z.eqb_spec c k) as [->|?];
    [match goal with |- context [[92; ?x] ++ rest] =>
       destruct (Hcat (unescape x)) as (s' & Es & Hs'); exists (x :: rest), s';
       unfold token_body, hex_escape; simpl; simpl in Es; rewrite Es; simpl; done end|] end).
  apply orb_false_iff in E1 as [N92%Z.eqb_neq N34%Z.eqb_neq].
  destruct (isprint c) eqn:Ep.
  - destruct (Hcat c) as (s' & Es & Hs'). exists (c :: rest), s'. unfold token_body, hex_escape. simpl.
    unfold isprint in Ep. apply andb_true_iff in Ep as [?%Z.leb_le ?%Z.leb_le].
    rewrite (proj2 (Z.eqb_neq c 92)), (proj2 (Z.eqb_neq c 34)), (proj2 (Z.eqb_neq c 0)) by lia. simpl.
    rewrite Es. simpl. split_and!; try done. unfold step_ptr. simpl. by rewrite (proj2 (Z.eqb_neq c 0)) by lia.
  - destruct (Hcat c) as (s' & Es & Hs'). exists (hex_char (c mod 16) :: rest), s'.
    unfold token_body, hex_escape. cbn [app lookup list_lookup mbind option_bind negb].
    change (92 =? 92) with true. change (120 =? 120) with true. cbn [negb]. rewrite X1, X2. cbn [negb].
    cbn [mbind option_bind]. rewrite X3, Es. cbn [mbind option_bind drop].
    split_and!; try done. unfold step_ptr. simpl. by rewrite (proj2 (Z.eqb_neq _ 0)).
Qed.

Lemma repr_of_nonempty c : (0 < length (repr_of c))%nat.
Proof. unfold repr_of. repeat case_match; simpl; lia. Qed.

(** The byte after a closing quote. *)
Definition ends_token (x : Z) : Prop := x = 0 \/ isspace x = true.

Lemma token_loop_repr fuel p x tl current cb :
  Forall byte_ok p -> sds_rep current cb -> zlen cb + zlen p + 1 < 2 ^ 62 -> ends_token x ->
  (length p < fuel)%nat ->
  exists current', token_loop junk fuel (concat (repr_of <$> p) ++ 34 :: x :: tl) true false current
      = Some (Some (x :: tl, current')) /\ sds_rep current' (cb ++ p).
Proof.
  intros Hp. revert fuel current cb. induction Hp as [|c p Hc Hp IH]; intros fuel current cb Hcur Hb Hx Hf;
    (destruct fuel as [|fuel]; [simpl in Hf; lia|]); cbn [token_loop].
  - exists current. rewrite app_nil_r. split; [|done]. simpl. unfold token_body, hex_escape, close_quote. simpl.
    assert (negb (x =? 0) && negb (isspace x) = false) as ->; [|done].
    destruct Hx as [-> | ->]; [done|]. by rewrite andb_false_r.
  - rewrite zlen_cons in Hb. pose proof (zlen_nonneg p). rewrite fmap_cons. simpl concat. rewrite <- app_assoc.
    destruct (token_body_repr c (concat (repr_of <$> p) ++ 34 :: x :: tl) current cb Hc Hcur)
      as (p' & cur' & -> & Hstep & Hcur'); [lia|by destruct (concat (repr_of <$> p))|].
    cbn [mbind option_bind]. rewrite Hstep. cbn [mbind option_bind].
    destruct (IH fuel cur' _ Hcur') as (cur2 & E & Hcur2); [rewrite zlen_app; change (zlen [c]) with 1; lia|done|simpl in Hf; lia|].
    exists cur2. split; [done|]. by rewrite <- app_assoc in Hcur2.
Qed.

Lemma repr_token p x tl current fuel :
  Forall byte_ok p -> sds_rep current [] -> zlen p + 1 < 2 ^ 62 -> ends_token x -> (length p + 1 < fuel)%nat ->
  exists current', token_loop junk fuel (repr_text p ++ x :: tl) false false current
      = Some (Some (x :: tl, current')) /\ sds_rep current' p.
Proof.
  intros Hp Hcur Hb Hx Hf. destruct fuel as [|fuel]; [lia|].
  destruct (token_loop_repr fuel p x tl current [] Hp Hcur) as (cur' & E & Hcur'); [by rewrite zlen_nil|done|lia|].
  exists cur'. split; [|done]. rewrite <- E. unfold repr_text. simpl. by rewrite <- app_assoc.
Qed.

Lemma repr_text_length p : (length p + 2 <= length (repr_text p))%nat.
Proof.
  assert (length p <= length (concat (repr_of <$> p)))%nat.
  { induction p as [|c p IH]; [done|]. rewrite fmap_cons. cbn [concat length]. rewrite length_app.
    pose proof (repr_of_nonempty c). lia. }
  unfold repr_text. rewrite !length_app. cbn [length]. lia.
Qed.

Lemma join_repr_length args : Nat.le (length args) (length (join_bytes [32] (repr_text <$> args))).
Proof.
  induction args as [|p args IH]; [simpl; lia|]. pose proof (repr_text_length p). rewrite fmap_cons.
  destruct args as [|q args]; [cbn [fmap list_fmap join_bytes length] in *; lia|].
  change (join_bytes [32] (repr_text p :: (repr_text <$> q :: args)))
    with (repr_text p ++ [32] ++ join_bytes [32] (repr_text <$> q :: args)).
  rewrite !length_app. cbn [length] in *. lia.
Qed.

Lemma splitargs_loop_repr args pad r fuel vector :
  Forall (Forall byte_ok) args -> Forall (fun p => zlen p + 1 < 2 ^ 62) args ->
  pad = [] \/ pad = [32] -> (length args < fuel)%nat ->
  exists toks, splitargs_loop junk fuel (pad ++ join_bytes [32] (repr_text <$> args) ++ 0 :: r) vector
      = Some (Some (vector ++ toks)) /\ Forall2 sds_rep toks args.
Proof.
  intros Ha. revert pad fuel vector. induction Ha as [|p args Hp Ha IH]; intros pad fuel vector Hsz Hpad Hf;
    (destruct fuel as [|fuel]; [simpl in Hf; lia|]); cbn [splitargs_loop].
  - exists []. rewrite app_nil_r. split; [|done]. by destruct Hpad as [-> | ->].
  - apply Forall_cons in Hsz as [Hpz Hsz]. simpl in Hf.
    assert (exists x tl pad', join_bytes [32] (repr_text <$> p :: args) ++ 0 :: r = repr_text p ++ x :: tl /\ ends_token x /\
      x :: tl = pad' ++ join_bytes [32] (repr_text <$> args) ++ 0 :: r /\ (pad' = [] \/ pad' = [32])) as (x & tl & pad' & E & Hx & Etl & Hpad').
    { destruct args as [|q args].
      - exists 0, r, []. simpl. split_and!; try done; [by left|by left].
      - exists 32, (join_bytes [32] (repr_text <$> q :: args) ++ 0 :: r), [32].
        change (join_bytes [32] (repr_text <$> p :: q :: args)) with (repr_text p ++ [32] ++ join_bytes [32] (repr_text <$> q :: args)).
        rewrite <- !app_assoc. split_and!; try done; [by right|by right]. }
    rewrite E. assert (skip_blanks (pad ++ repr_text p ++ x :: tl) = Some (repr_text p ++ x :: tl)) as ->
      by (destruct Hpad as [-> | ->]; done).
    cbn [mbind option_bind]. assert ((repr_text p ++ x :: tl) !! 0%nat = Some 34) as -> by done.
    cbn [mbind option_bind]. change (34 =? 0) with false. cbn [negb].
    destruct (sdsempty_spec junk) as (e & -> & He). cbn [mbind option_bind].
    pose proof (repr_text_length p) as Hl.
    destruct (repr_token p x tl e (S (length (repr_text p ++ x :: tl))) Hp He Hpz Hx) as (cur & -> & Hcur).
    { rewrite length_app. lia. }
    cbn [mbind option_bind]. rewrite Etl.
    destruct (IH pad' fuel (vector ++ [cur]) Hsz Hpad' ltac:(lia)) as (toks & -> & Htoks).
    exists (cur :: toks). rewrite <- app_assoc. split; [done|]. by constructor.
Qed.
End ReprSpec.

(** ** [sdssplitargs] on arbitrary lines *)

Section SafeSpec.
Context (junk : nat -> Z) (r : list Z).

(** [p] points into the line, [cs] is what is left of it. *)
Definition points (p cs : list Z) : Prop := p = cs ++ 0 :: r /\ Forall (fun c => c <> 0) cs.

Lemma points_cons c p cs : points (c :: p) cs -> c = 0 /\ cs = [] \/ c <> 0 /\ exists cs', cs = c :: cs' /\ points p cs'.
Proof.
  intros [E Hnz]. destruct cs as [|d cs]; simpl in E; injection E as -> ->; [by left|right].
  apply Forall_cons in Hnz as [? ?]. split; [done|]. exists cs. done.
Qed.

Lemma points_lookup p cs k : points p cs -> (k <= length cs)%nat -> exists c, p !! k = Some c /\ (c = 0 <-> k = length cs).
Proof.
  intros [-> Hnz] Hk. destruct (decide (k = length cs)) as [->|Hne].
  - exists 0. split; [by apply list_lookup_middle|done].
  - destruct (lookup_lt_is_Some_2 cs k) as [c Hc]; [lia|]. exists c. rewrite lookup_app_l by lia.
    split; [done|]. split; [|done]. intros ->. exfalso. by apply (Forall_lookup_1 _ _ _ _ Hnz Hc).
Qed.

Lemma points_drop p cs k : points p cs -> (k <= length cs)%nat -> points (drop k p) (drop k cs).
Proof.
  intros [-> Hnz] Hk. split; [by rewrite drop_app_le by lia|]. by apply Forall_drop.
Qed.

(** Stepping from a pointer that was moved [k] bytes ahead of [p]. *)
Lemma step_ahead p cs k :
  points p cs -> (k < length cs)%nat ->
  exists p' cs', step_ptr (drop k p) = Some p' /\ points p' cs' /\ (length cs' < length cs)%nat.
Proof.
  intros Hp Hk. pose proof (points_drop p cs k Hp ltac:(lia)) as Hd.
  destruct (points_lookup p cs k Hp ltac:(lia)) as (c & Hc & H0).
  unfold step_ptr. rewrite lookup_drop, Nat.add_0_r, Hc. cbn [mbind option_bind].
  rewrite (proj2 (Z.eqb_neq c 0)) by (rewrite H0; lia).
  exists (drop (S k) p), (drop (S k) cs). rewrite drop_drop. split; [by rewrite Nat.add_1_r|].
  split; [by apply points_drop; [|lia]|]. rewrite length_drop. lia.
Qed.

(** What a turn of the token loop guarantees. *)
Definition step_safe (cs cb : list Z) (st : token_step) : Prop :=
  match st with
  | TokErr => True
  | TokMore p' _ _ cur' => exists q cs' cb', step_ptr p' = Some q /\ points q cs' /\
      (length cs' < length cs)%nat /\ sds_rep cur' cb' /\ zlen cb' <= zlen cb + 1
  | TokDone p' cur' => exists q cs' cb', step_ptr p' = Some q /\ points q cs' /\
      (length cs' <= length cs)%nat /\ (cs <> [] -> (length cs' < length cs)%nat) /\ sds_rep cur' cb'
  end.

Lemma more_safe p cs cb cur k x inq insq :
  points p cs -> (k < length cs)%nat -> sds_rep cur cb -> zlen cb + 1 < 2 ^ 62 ->
  exists st, (cur' ← sdscatlen junk cur [x] 1; Some (TokMore (drop k p) inq insq cur')) = Some st /\
    step_safe cs cb st.
Proof.
  intros Hp Hk Hcur Hb. destruct (cat_lit junk cur cb [x] Hcur Hb) as (s' & E & Hs').
  change (zlen [x]) with 1 in E. rewrite E. cbn [mbind option_bind].
  destruct (step_ahead p cs k Hp Hk) as (q & cs' & Hq & Hpq & Hl). eexists. split; [done|].
  exists q, cs', (cb ++ [x]). split_and!; try done. zlia.
Qed.

Lemma done_safe p cs cb cur :
  points p cs -> sds_rep cur cb -> step_safe cs cb (TokDone p cur).
Proof.
  intros Hp Hcur. destruct cs as [|c cs].
  - exists p, [], cb. split_and!; try done. destruct Hp as [-> _]. done.
  - destruct (step_ahead p (c :: cs) 0 Hp) as (q & cs' & Hq & Hpq & Hl); [simpl; lia|].
    exists q, cs', cb. split_and!; try done. lia.
Qed.

Lemma close_safe p cs cb cur :
  points p cs -> cs <> [] -> sds_rep cur cb ->
  exists st, close_quote p cur = Some st /\ step_safe cs cb st.
Proof.
  intros Hp Hne Hcur. destruct (points_lookup p cs 1 Hp) as (c1 & Hc1 & _); [destruct cs; [done|simpl; lia]|].
  unfold close_quote. rewrite Hc1. cbn [mbind option_bind]. eexists. split; [done|]. case_match; [done|].
  by apply done_safe.
Qed.

Lemma hex_escape_safe p cs :
  points p cs -> exists b, hex_escape p = Some b /\ (b = true -> (3 < length cs)%nat).
Proof.
  intros Hp. unfold hex_escape.
  destruct (points_lookup p cs 0 Hp ltac:(lia)) as (c0 & -> & H0). cbn [mbind option_bind].
  destruct (Z.eqb_spec c0 92) as [->|]; cbn [negb]; [|by exists false].
  destruct (points_lookup p cs 1 Hp ltac:(lia)) as (c1 & -> & H1). cbn [mbind option_bind].
  destruct (Z.eqb_spec c1 120) as [->|]; cbn [negb]; [|by exists false].
  destruct (points_lookup p cs 2 Hp ltac:(lia)) as (c2 & -> & H2). cbn [mbind option_bind].
  destruct (is_hex_digit c2) eqn:X2; cbn [negb]; [|by exists false].
  assert (c2 <> 0) by by intros ->.
  destruct (points_lookup p cs 3 Hp ltac:(lia)) as (c3 & -> & H3). cbn [mbind option_bind].
  eexists. split; [done|]. intros X3. assert (c3 <> 0) by by intros ->. lia.
Qed.

Lemma token_body_safe p cs inq insq cur cb :
  points p cs -> sds_rep cur cb -> zlen cb + 1 < 2 ^ 62 ->
  exists st, token_body junk p inq insq cur = Some st /\ step_safe cs cb st.
Proof.
  intros Hp Hcur Hb. unfold token_body.
  destruct (points_lookup p cs 0 Hp ltac:(lia)) as (c & -> & H0). cbn [mbind option_bind].
  assert (c <> 0 -> (0 < length cs)%nat) as Hpos by (intros; lia).
  assert (cs <> [] <-> c <> 0) as Hcs by (destruct cs; simpl in *; split; intros; try lia; done).
  destruct inq; [|destruct insq].
  - destruct (hex_escape_safe p cs Hp) as ([|] & -> & Hx); cbn [mbind option_bind].
    + specialize (Hx eq_refl). destruct (points_lookup p cs 2 Hp ltac:(lia)) as (c2 & -> & _).
      cbn [mbind option_bind]. destruct (points_lookup p cs 3 Hp ltac:(lia)) as (c3 & -> & _).
      cbn [mbind option_bind]. by apply more_safe.
    + clear Hx. destruct (Z.eqb_spec c 92) as [->|].
      * destruct (points_lookup p cs 1 Hp ltac:(lia)) as (c1 & -> & H1). cbn [mbind option_bind].
        destruct (Z.eqb_spec c1 0); cbn [negb mbind option_bind].
        -- apply (more_safe p cs cb cur 0); try done. lia.
        -- apply more_safe; try done. lia.
      * cbn [mbind option_bind]. destruct (Z.eqb_spec c 34); [apply close_safe; try done; by apply Hcs; subst|].
        destruct (Z.eqb_spec c 0); [by eexists|]. apply (more_safe p cs cb cur 0); try done. lia.
  - destruct (Z.eqb_spec c 92) as [->|].
    + destruct (points_lookup p cs 1 Hp ltac:(lia)) as (c1 & -> & H1). cbn [mbind option_bind].
      destruct (Z.eqb_spec c1 39); cbn [mbind option_bind].
      * apply more_safe; try done. lia.
      * apply (more_safe p cs cb cur 0); try done. lia.
    + cbn [mbind option_bind]. destruct (Z.eqb_spec c 39); [apply close_safe; try done; by apply Hcs; subst|].
      destruct (Z.eqb_spec c 0); [by eexists|]. apply (more_safe p cs cb cur 0); try done. lia.
  - case_match; [eexists; split; [done|]; by apply done_safe|].
    assert (c <> 0) by (intros ->; rewrite orb_true_r in *; done).
    destruct (step_ahead p cs 0 Hp ltac:(auto)) as (q & cs' & Hq & Hpq & Hl). rewrite drop_0 in Hq.
    case_match; [eexists; split; [done|]; exists q, cs', cb; split_and!; try done; lia|].
    case_match; [eexists; split; [done|]; exists q, cs', cb; split_and!; try done; lia|].
    apply (more_safe p cs cb cur 0); try done. auto.
Qed.

Lemma token_loop_safe fuel p cs inq insq cur cb :
  points p cs -> sds_rep cur cb -> zlen cb + zlen cs + 1 < 2 ^ 62 -> (length cs < fuel)%nat ->
  exists res, token_loop junk fuel p inq insq cur = Some res /\
    match res with
    | None => True
    | Some (q, cur') => exists cs' cb', points q cs' /\ sds_rep cur' cb' /\ (length cs' <= length cs)%nat /\
        (cs <> [] -> (length cs' < length cs)%nat)
    end.
Proof.
  revert p cs inq insq cur cb. induction fuel as [|fuel IH]; intros p cs inq insq cur cb Hp Hcur Hb Hf; [lia|].
  pose proof (zlen_nonneg cs). cbn [token_loop].
  destruct (token_body_safe p cs inq insq cur cb Hp Hcur) as (st & -> & Hst); [lia|]. cbn [mbind option_bind].
  destruct st as [|p' inq' insq' cur'|p' cur']; [by exists None|..].
  - destruct Hst as (q & cs' & cb' & -> & Hq & Hl & Hcur' & Hbl). cbn [mbind option_bind].
    destruct (IH q cs' inq' insq' cur' cb' Hq Hcur') as (res & -> & Hres); [unfold zlen in *; lia|lia|].
    exists res. split; [done|]. destruct res as [[q2 cur2]|]; [|done].
    destruct Hres as (cs2 & cb2 & ? & ? & ? & _). exists cs2, cb2. split_and!; try done; lia.
  - destruct Hst as (q & cs' & cb' & -> & Hq & Hl & Hl' & Hcur'). cbn [mbind option_bind].
    eexists. split; [done|]. exists cs', cb'. done.
Qed.

Lemma skip_blanks_safe p cs :
  points p cs -> exists q cs', skip_blanks p = Some q /\ points q cs' /\ (length cs' <= length cs)%nat.
Proof.
  revert p. induction cs as [|c cs IH]; intros p [-> Hnz].
  - exists (0 :: r), []. done.
  - apply Forall_cons in Hnz as [Hc Hnz]. simpl. case_match.
    + destruct (IH (cs ++ 0 :: r)) as (q & cs' & ? & ? & ?); [done|]. exists q, cs'. split_and!; try done. lia.
    + eexists _, (c :: cs). split; [done|]. split; [|done]. split; [done|]. by constructor.
Qed.

Lemma splitargs_loop_safe fuel p cs vector :
  points p cs -> zlen cs + 1 < 2 ^ 62 -> (length cs < fuel)%nat ->
  Forall (fun t => exists bs, sds_rep t bs) vector ->
  exists res, splitargs_loop junk fuel p vector = Some res /\
    match res with None => True | Some v => Forall (fun t => exists bs, sds_rep t bs) v end.
Proof.
  revert p cs vector. induction fuel as [|fuel IH]; intros p cs vector Hp Hb Hf Hv; [lia|].
  cbn [splitargs_loop]. destruct (skip_blanks_safe p cs Hp) as (q & cs1 & -> & Hq & Hl). cbn [mbind option_bind].
  destruct (points_lookup q cs1 0 Hq ltac:(lia)) as (c & -> & H0). cbn [mbind option_bind].
  destruct (Z.eqb_spec c 0) as [->|Hc]; cbn [negb]; [by eexists|].
  destruct (sdsempty_spec junk) as (e & -> & He). cbn [mbind option_bind].
  destruct (token_loop_safe (S (length q)) q cs1 false false e [] Hq He) as (res & -> & Hres).
  { rewrite zlen_nil. unfold zlen in *. lia. }
  { destruct Hq as [-> _]. rewrite length_app. lia. }
  cbn [mbind option_bind]. destruct res as [[q2 cur]|]; [|by exists None].
  destruct Hres as (cs2 & cb2 & Hq2 & Hcur & _ & Hl2).
  specialize (Hl2 ltac:(intros ->; simpl in H0; lia)).
  apply (IH q2 cs2); [done|unfold zlen in *; lia|lia|]. apply Forall_app. split; [done|]. by repeat constructor; eauto.
Qed.
End SafeSpec.

(** ** Properties *)

(** C34 [sdscatfmt] appends the expansion of its format: plain characters
    and [%%] verbatim, [%s] and [%S] a C string and an sds string, [%i %I %u %U]
    the canonical decimal notation of the integer, keeping a well-formed
    string whatever reallocations happen on the way. *)
Theorem sdscatfmt_correct (junk : nat -> Z) (s : sds) (bs fmt f : list Z) (ap : list fmt_arg) (t : list Z) :
  sds_rep s bs -> cstring fmt f -> expands f ap t -> zlen bs + zlen t + 1 < 2 ^ 62 ->
  exists s', sdscatfmt junk s fmt ap = Some s' /\ sds_rep s' (bs ++ t).
Proof. apply sdscatfmt_spec. Qed.

Lemma sdscatfmt_correct_witness :
  exists s', sdscatfmt (fun _ => 170) demo_sds [61; 37; 105; 37; 37; 0] [ArgInt (-12)] = Some s' /\
    sds_rep s' ([104; 105] ++ [61; 45; 49; 50; 37]).
Proof.
  apply (sdscatfmt_correct (fun _ => 170) demo_sds [104; 105] _ [61; 37; 105; 37; 37]).
  - exact demo_sds_rep.
  - exists []. split; [done|]. by repeat constructor.
  - constructor; [done|done|]. apply (exp_dir 105 _ _ [45; 49; 50] [] [37]).
    + constructor; [unfold in_s; simpl; lia|]. exists [49; 50]. split; [done|].
      repeat split; try done. by repeat constructor.
    + apply (exp_dir 37 [] [] [37] [] []); [|constructor]. constructor; [|done].
      apply (bool_decide_unpack _). vm_compute. exact I.
  - vm_compute. reflexivity.
Defined.

(** [sdssplitlen] finds exactly the leftmost occurrences of the separator:
    the tokens joined by the separator are the input, the separator occurs in
    no token, and [sdsjoinsds] puts the input back together; the array of
    tokens is never overrun. *)
Theorem sdssplitlen_join (junk : nat -> Z) (s sep : list Z) :
  sep <> [] -> s <> [] -> zlen s < 2 ^ 29 ->
  exists tokens cts r, sdssplitlen junk s (zlen s) sep (zlen sep) = Some (Some tokens) /\
    Forall2 sds_rep tokens cts /\ join_bytes sep cts = s /\ split_ok sep cts /\
    sdsjoinsds junk tokens sep (zlen sep) = Some r /\ sds_rep r s.
Proof.
  intros Hsep Hs Hb. destruct (sdssplitlen_spec junk s sep Hsep Hs Hb) as (tokens & cts & E & Ht & Hj & Hok).
  destruct (sdsjoinsds_spec junk tokens cts sep Ht) as (r & Er & Hr); [rewrite Hj; lia|].
  rewrite Hj in Hr. exists tokens, cts, r. done.
Qed.

Lemma sdssplitlen_join_witness :
  exists tokens cts r, sdssplitlen (fun _ => 0) [102; 95; 45; 95; 98; 95] 6 [95; 45; 95] 3 = Some (Some tokens) /\
    Forall2 sds_rep tokens cts /\ join_bytes [95; 45; 95] cts = [102; 95; 45; 95; 98; 95] /\
    split_ok [95; 45; 95] cts /\ sdsjoinsds (fun _ => 0) tokens [95; 45; 95] 3 = Some r /\
    sds_rep r [102; 95; 45; 95; 98; 95].
Proof.
  apply (sdssplitlen_join (fun _ => 0) [102; 95; 45; 95; 98; 95] [95; 45; 95]);
    [discriminate|discriminate|vm_compute; reflexivity].
Defined.

(** C32 [sdssplitargs] reads back what [sdscatrepr] writes: any list of binary
    strings, each in its quoted representation and separated by spaces, is
    parsed into the very same strings. *)
Theorem sdssplitargs_repr (junk : nat -> Z) (args : list (list Z)) (r : list Z) :
  Forall (Forall byte_ok) args -> Forall (fun p => 4 * zlen p + 3 < 2 ^ 62) args ->
  (forall p, p ∈ args -> exists e s, sdsempty junk = Some e /\ sdscatrepr junk e p = Some s /\ sds_rep s (repr_text p)) /\
  exists toks, sdssplitargs junk (join_bytes [32] (repr_text <$> args) ++ 0 :: r) = Some (Some toks) /\
    Forall2 sds_rep toks args.
Proof.
  intros Ha Hsz. split.
  - intros p Hp. rewrite Forall_forall in Ha, Hsz. destruct (sdsempty_spec junk) as (e & He & Hre).
    destruct (sdscatrepr_spec junk e [] p Hre (Ha p Hp)) as (s & ? & ?); [specialize (Hsz p Hp); cbv beta in Hsz; rewrite zlen_nil; lia|].
    by exists e, s.
  - apply (splitargs_loop_repr junk args [] r); [done| |by left|].
    + eapply Forall_impl; [exact Hsz|]. intros p Hp. pose proof (zlen_nonneg p). cbv beta in Hp. lia.
    + rewrite length_app. pose proof (join_repr_length args). cbn [length]. lia.
Qed.

Lemma sdssplitargs_repr_witness :
  (forall p, p ∈ [[102; 111; 111]; [0; 34; 255; 10; 92]; []] ->
     exists e s, sdsempty (fun _ => 1) = Some e /\ sdscatrepr (fun _ => 1) e p = Some s /\ sds_rep s (repr_text p)) /\
  exists toks, sdssplitargs (fun _ => 1) (join_bytes [32] (repr_text <$> [[102; 111; 111]; [0; 34; 255; 10; 92]; []]) ++ [0])
      = Some (Some toks) /\ Forall2 sds_rep toks [[102; 111; 111]; [0; 34; 255; 10; 92]; []].
Proof.
  apply (sdssplitargs_repr (fun _ => 1) [[102; 111; 111]; [0; 34; 255; 10; 92]; []] []);
    apply (bool_decide_unpack _); vm_compute; exact I.
Defined.

(** [sdssplitargs] is total and memory safe on every null-terminated line:
    it never reads past the terminator, always ends, and returns either
    [NULL] (unbalanced quotes) or an array of well-formed strings. *)
Theorem sdssplitargs_total (junk : nat -> Z) (line cs : list Z) :
  cstring line cs -> zlen cs + 1 < 2 ^ 62 ->
  exists res, sdssplitargs junk line = Some res /\
    match res with None => True | Some v => Forall (fun t => exists bs, sds_rep t bs) v end.
Proof.
  intros (r & -> & Hnz) Hb. apply (splitargs_loop_safe junk r _ _ cs []); [done|done| |constructor].
  rewrite length_app. lia.
Qed.

Lemma sdssplitargs_total_witness :
  sdssplitargs (fun _ => 1) [102; 32; 34; 120; 0] = Some None /\
  exists res, sdssplitargs (fun _ => 1) [102; 32; 34; 120; 0] = Some res /\
    match res with None => True | Some v => Forall (fun t => exists bs, sds_rep t bs) v end.
Proof.
  split; [vm_compute; reflexivity|].
  apply (sdssplitargs_total _ _ [102; 32; 34; 120]); [|vm_compute; reflexivity].
  exists []. split; [done|]. by repeat constructor.
Defined.

(** [sdsfromlonglong] gives the canonical decimal notation of every 64-bit
    integer, [LLONG_MIN] included, and its 21-byte buffer is large enough. *)
Lemma sdsfromlonglong_canonical (junk : nat -> Z) (value : Z) :
  in_s 64 value -> exists s cs, sdsfromlonglong junk value = Some s /\ sds_rep s cs /\ canonical cs value.
Proof.
  intros Hv. unfold sdsfromlonglong.
  destruct (sdsll2str_spec (llstr_buf junk) value Hv (zlen_llstr_buf junk)) as (buf & cs & -> & Hr & Hc & Hl).
  cbn [mbind option_bind]. apply number_prefix in Hr.
  destruct (sdsnewlen_spec junk cs buf Hr) as (s & ? & ?); [lia|]. eauto.
Qed.
