(* ===== verification/Zskiplist.v ===== *)
(** * Skip lists of the sorted sets ([t_zset.c], [zsl*])

    Nodes live in a heap indexed by pointers; every pointer the code follows
    is looked up, so a dangling pointer, a level that a node does not have or
    a failed [serverAssert] gives [None].  Scores are doubles other than NaN
    (the code asserts it), used only through their order, which is the class
    [Score]; elements are the contents of sds strings and are compared with
    [cmp_bytes], which is what [sdscmp] computes. *)

From S2P Require Import Prelude Numstr Sds.
From stdpp Require Import options.

(** ** Elements *)

Fixpoint cmp_bytes (a b : list Z) : Z :=
  match a, b with
  | [], [] => 0
  | [], _ :: _ => -1
  | _ :: _, [] => 1
  | x :: a, y :: b => if x <? y then -1 else if y <? x then 1 else cmp_bytes a b
  end.

(** ** Scores *)

Class Score (S : Type) := { slt : S -> S -> bool; seqb : S -> S -> bool; szero : S }.

Class ScoreLaws (S : Type) `{Score S} := {
  seq_refl a : seqb a a = true;
  seq_sym a b : seqb a b = seqb b a;
  slt_trans a b c : slt a b = true -> slt b c = true -> slt a c = true;
  slt_seq_l a b c : seqb a b = true -> slt a c = slt b c;
  slt_seq_r a b c : seqb a b = true -> slt c a = slt c b;
  seq_trans a b c : seqb a b = true -> seqb b c = true -> seqb a c = true;
  slt_not_seq a b : slt a b = true -> seqb a b = false;
  slt_asym a b : slt a b = true -> slt b a = false;
  slt_total a b : slt a b = true \/ seqb a b = true \/ slt b a = true;
}.

Definition sgt {S} `{Score S} (a b : S) : bool := slt b a.
Definition sle {S} `{Score S} (a b : S) : bool := slt a b || seqb a b.
Definition sge {S} `{Score S} (a b : S) : bool := slt b a || seqb a b.

#[global] Instance Z_score : Score Z := {| slt := Z.ltb; seqb := Z.eqb; szero := 0 |}.

#[global] Instance Z_score_laws : ScoreLaws Z.
Proof.
  constructor; simpl; intros; rewrite ?Z.ltb_lt, ?Z.eqb_eq, ?Z.eqb_neq, ?Z.ltb_ge in *; subst; try lia.
Qed.

Definition ZSKIPLIST_MAXLEVEL : nat := 64.

Section Zsl.
Context {S : Type} `{Score S}.

Abbreviation ptr := positive (only parsing).

Record zskiplistLevel := mk_level { forward : option ptr; span : Z }.

Record zskiplistNode := mk_node {
  ele : option (list Z);
  score : S;
  backward : option ptr;
  level : list zskiplistLevel;
}.

Record zskiplist := mk_zsl { header : ptr; tail : option ptr; zsl_length : Z; zsl_level : nat }.

Abbreviation heap := (gmap positive zskiplistNode).

(** ** Heap access *)

Definition get_level (h : heap) (x : ptr) (i : nat) : option zskiplistLevel :=
  n ← h !! x; level n !! i.

Definition set_level (h : heap) (x : ptr) (i : nat) (l : zskiplistLevel) : option heap :=
  n ← h !! x;
  if bool_decide (i < length (level n))%nat
  then Some (<[x := mk_node (ele n) (score n) (backward n) (<[i := l]> (level n))]> h) else None.

Definition set_backward (h : heap) (x : ptr) (b : option ptr) : option heap :=
  n ← h !! x; Some (<[x := mk_node (ele n) (score n) b (level n)]> h).

Definition set_score (h : heap) (x : ptr) (s : S) : option heap :=
  n ← h !! x; Some (<[x := mk_node (ele n) s (backward n) (level n)]> h).

(** [zmalloc] returns a pointer that is not in use; the links of a new node
    are written by the caller. *)
Definition zslCreateNode (h : heap) (lvl : nat) (s : S) (e : option (list Z)) : heap * ptr :=
  let x := fresh (dom h) in
  (<[x := mk_node e s None (replicate lvl (mk_level None 0))]> h, x).

Definition zslCreate (h : heap) : heap * zskiplist :=
  let '(h, hd) := zslCreateNode h ZSKIPLIST_MAXLEVEL szero None in
  (h, mk_zsl hd None 0 1).

Definition zslFreeNode (h : heap) (x : ptr) : heap := delete x h.

Fixpoint zslFree_loop (fuel : nat) (h : heap) (node : option ptr) : option heap :=
  match node with
  | None => Some h
  | Some x =>
    match fuel with
    | O => None
    | Datatypes.S fuel => l ← get_level h x 0; zslFree_loop fuel (zslFreeNode h x) (forward l)
    end
  end.

Definition zslFree (h : heap) (zsl : zskiplist) : option heap :=
  l ← get_level h (header zsl) 0;
  zslFree_loop (size h) (delete (header zsl) h) (forward l).

(** ** Levels

    [(random()&0xFFFF) < (ZSKIPLIST_P * 0xFFFF)], the right-hand side being
    16383.75; [rnd] are the numbers [random()] returns. *)
Fixpoint random_loop (rnd : list Z) (lvl : nat) : option nat :=
  match rnd with
  | [] => None
  | r :: rnd => if Z.land r 0xFFFF <=? 16383 then random_loop rnd (Datatypes.S lvl) else Some lvl
  end.

Definition zslRandomLevel (rnd : list Z) : option nat :=
  lvl ← random_loop rnd 1;
  Some (if (lvl <? ZSKIPLIST_MAXLEVEL)%nat then lvl else ZSKIPLIST_MAXLEVEL).

(** ** Descending the levels

    [while (x->level[i].forward && test) { rank += span; x = forward; }] for
    one level, and the [for] over the levels; every search of the file is
    this loop with another test, which sees the forward node and the rank it
    has.  [w] is the width of the rank counter. *)
Fixpoint walk (fuel : nat) (h : heap) (w : Z) (test : zskiplistNode -> Z -> bool) (i : nat)
    (x : ptr) (rank : Z) : option (ptr * Z) :=
  l ← get_level h x i;
  match forward l with
  | None => Some (x, rank)
  | Some f =>
    fn ← h !! f;
    if test fn (uwrap 64 (rank + span l)) then
      match fuel with
      | O => None
      | Datatypes.S fuel => walk fuel h w test i f (uwrap w (rank + span l))
      end
    else Some (x, rank)
  end.

Fixpoint descend (h : heap) (w : Z) (test : zskiplistNode -> Z -> bool) (i : nat)
    (x : ptr) (rank : Z) (update : list (ptr * Z)) : option (list (ptr * Z)) :=
  match i with
  | O => Some update
  | Datatypes.S i =>
    '(x, rank) ← walk (size h) h w test i x rank;
    descend h w test i x rank ((x, rank) :: update)
  end.

(** [fwd->score < score || (fwd->score == score && sdscmp(fwd->ele,ele) < 0)] *)
Definition key_before (s : S) (e : list Z) (fn : zskiplistNode) : bool :=
  slt (score fn) s ||
  (seqb (score fn) s && match ele fn with Some e' => cmp_bytes e' e <? 0 | None => false end).

(** ** Insertion *)

(** [update[i]->level[i].span = zsl->length] for the new levels. *)
Fixpoint grow_loop (h : heap) (hd : ptr) (len : Z) (i n : nat) : option heap :=
  match n with
  | O => Some h
  | Datatypes.S n =>
    l ← get_level h hd i;
    h ← set_level h hd i (mk_level (forward l) len);
    grow_loop h hd len (Datatypes.S i) n
  end.

Fixpoint link_loop (h : heap) (x : ptr) (rank0 : Z) (i : nat) (update : list (ptr * Z)) : option heap :=
  match update with
  | [] => Some h
  | (u, r) :: update =>
    l ← get_level h u i;
    h ← set_level h x i (mk_level (forward l) (uwrap 64 (span l - uwrap 32 (rank0 - r))));
    h ← set_level h u i (mk_level (Some x) (uwrap 32 (uwrap 32 (rank0 - r) + 1)));
    link_loop h x rank0 (Datatypes.S i) update
  end.

Fixpoint bump_loop (h : heap) (i : nat) (update : list (ptr * Z)) : option heap :=
  match update with
  | [] => Some h
  | (u, _) :: update =>
    l ← get_level h u i;
    h ← set_level h u i (mk_level (forward l) (uwrap 64 (span l + 1)));
    bump_loop h (Datatypes.S i) update
  end.

Definition zslInsert (rnd : list Z) (h : heap) (zsl : zskiplist) (s : S) (e : list Z)
    : option (heap * zskiplist * ptr) :=
  let hd := header zsl in
  update ← descend h 32 (fun fn _ => key_before s e fn) (zsl_level zsl) hd 0 [];
  lvl ← zslRandomLevel rnd;
  h ← (if (zsl_level zsl <? lvl)%nat
       then grow_loop h hd (zsl_length zsl) (zsl_level zsl) (lvl - zsl_level zsl) else Some h);
  let update := update ++ replicate (lvl - zsl_level zsl) (hd, 0) in
  let new_level := Nat.max (zsl_level zsl) lvl in
  let '(h, x) := zslCreateNode h lvl s (Some e) in
  '(u0, rank0) ← update !! 0%nat;
  h ← link_loop h x rank0 0 (take lvl update);
  h ← bump_loop h lvl (drop lvl update);
  h ← set_backward h x (if bool_decide (u0 = hd) then None else Some u0);
  l0 ← get_level h x 0;
  match forward l0 with
  | Some f =>
    h ← set_backward h f (Some x);
    Some (h, mk_zsl hd (tail zsl) (uwrap 64 (zsl_length zsl + 1)) new_level, x)
  | None => Some (h, mk_zsl hd (Some x) (uwrap 64 (zsl_length zsl + 1)) new_level, x)
  end.

(** ** Deletion *)

Fixpoint unlink_loop (h : heap) (x : ptr) (i : nat) (update : list ptr) : option heap :=
  match update with
  | [] => Some h
  | u :: update =>
    l ← get_level h u i;
    h ← (if bool_decide (forward l = Some x) then
           lx ← get_level h x i;
           set_level h u i (mk_level (forward lx) (uwrap 64 (span l + (span lx - 1))))
         else set_level h u i (mk_level (forward l) (uwrap 64 (span l - 1))));
    unlink_loop h x (Datatypes.S i) update
  end.

(** [while(zsl->level > 1 && header->level[zsl->level-1].forward == NULL) zsl->level--;] *)
Fixpoint shrink_level (h : heap) (hd : ptr) (lvl : nat) : option nat :=
  match lvl with
  | Datatypes.S (Datatypes.S l' as l1) =>
    l ← get_level h hd l1;
    match forward l with None => shrink_level h hd l1 | Some _ => Some lvl end
  | _ => Some lvl
  end.

Definition zslDeleteNode (h : heap) (zsl : zskiplist) (x : ptr) (update : list ptr)
    : option (heap * zskiplist) :=
  h ← unlink_loop h x 0 (take (zsl_level zsl) update);
  n ← h !! x;
  l0 ← level n !! 0%nat;
  '(h, tl) ← match forward l0 with
             | Some f => h ← set_backward h f (backward n); Some (h, tail zsl)
             | None => Some (h, backward n)
             end;
  lvl ← shrink_level h (header zsl) (zsl_level zsl);
  Some (h, mk_zsl (header zsl) tl (uwrap 64 (zsl_length zsl - 1)) lvl).

(** [sdscmp(x->ele,ele)] on a node that holds an element. *)
Definition ele_cmp (n : zskiplistNode) (e : list Z) : option Z := e' ← ele n; Some (cmp_bytes e' e).

(** The node after the last one before [(score, ele)], if any, and the
    [update] array. *)
Definition search_key (h : heap) (zsl : zskiplist) (s : S) (e : list Z)
    : option (list (ptr * Z) * option ptr) :=
  update ← descend h 64 (fun fn _ => key_before s e fn) (zsl_level zsl) (header zsl) 0 [];
  '(x, _) ← update !! 0%nat;
  l ← get_level h x 0;
  Some (update, forward l).

(** [node == NULL]: the deleted node is freed. *)
Definition zslDelete (h : heap) (zsl : zskiplist) (s : S) (e : list Z)
    : option (heap * zskiplist * bool) :=
  '(update, x) ← search_key h zsl s e;
  match x with
  | None => Some (h, zsl, false)
  | Some x =>
    n ← h !! x;
    c ← ele_cmp n e;
    if seqb s (score n) && (c =? 0) then
      '(h, zsl) ← zslDeleteNode h zsl x (update.*1);
      Some (zslFreeNode h x, zsl, true)
    else Some (h, zsl, false)
  end.

Definition zslUpdateScore (rnd : list Z) (h : heap) (zsl : zskiplist) (curscore : S) (e : list Z)
    (newscore : S) : option (heap * zskiplist * ptr) :=
  '(update, x) ← search_key h zsl curscore e;
  x ← x;
  n ← h !! x;
  c ← ele_cmp n e;
  if negb (seqb curscore (score n) && (c =? 0)) then None else
  back_ok ← match backward n with
            | None => Some true
            | Some b => bn ← h !! b; Some (slt (score bn) newscore)
            end;
  l0 ← level n !! 0%nat;
  fwd_ok ← match forward l0 with
           | None => Some true
           | Some f => fn ← h !! f; Some (sgt (score fn) newscore)
           end;
  if back_ok && fwd_ok then
    h ← set_score h x newscore; Some (h, zsl, x)
  else
    '(h, zsl) ← zslDeleteNode h zsl x (update.*1);
    n ← h !! x;
    e' ← ele n;
    '(h, zsl, newnode) ← zslInsert rnd h zsl newscore e';
    Some (zslFreeNode h x, zsl, newnode).

(** ** Score ranges *)

Record zrangespec := mk_range { r_min : S; r_max : S; r_minex : bool; r_maxex : bool }.

Definition zslValueGteMin (v : S) (spec : zrangespec) : bool :=
  if r_minex spec then sgt v (r_min spec) else sge v (r_min spec).

Definition zslValueLteMax (v : S) (spec : zrangespec) : bool :=
  if r_maxex spec then slt v (r_max spec) else sle v (r_max spec).

Definition zslIsInRange (h : heap) (zsl : zskiplist) (range : zrangespec) : option bool :=
  if sgt (r_min range) (r_max range) ||
     (seqb (r_min range) (r_max range) && (r_minex range || r_maxex range)) then Some false else
  match tail zsl with
  | None => Some false
  | Some x =>
    n ← h !! x;
    if negb (zslValueGteMin (score n) range) then Some false else
    l ← get_level h (header zsl) 0;
    match forward l with
    | None => Some false
    | Some y => m ← h !! y; Some (zslValueLteMax (score m) range)
    end
  end.

Definition zslFirstInRange (h : heap) (zsl : zskiplist) (range : zrangespec) : option (option ptr) :=
  inr ← zslIsInRange h zsl range;
  if negb inr then Some None else
  update ← descend h 64 (fun fn _ => negb (zslValueGteMin (score fn) range)) (zsl_level zsl) (header zsl) 0 [];
  '(x, _) ← update !! 0%nat;
  l ← get_level h x 0;
  x ← forward l;
  n ← h !! x;
  Some (if negb (zslValueLteMax (score n) range) then None else Some x).

Definition zslLastInRange (h : heap) (zsl : zskiplist) (range : zrangespec) : option (option ptr) :=
  inr ← zslIsInRange h zsl range;
  if negb inr then Some None else
  update ← descend h 64 (fun fn _ => zslValueLteMax (score fn) range) (zsl_level zsl) (header zsl) 0 [];
  '(x, _) ← update !! 0%nat;
  n ← h !! x;
  Some (if negb (zslValueGteMin (score n) range) then None else Some x).

(** Deleting nodes while [in_range]; [dict] is the other half of the sorted
    set, the map from elements to scores, from which [dictDelete] removes
    each element. *)
Fixpoint delete_while (fuel : nat) (h : heap) (zsl : zskiplist) (update : list ptr)
    (in_range : zskiplistNode -> Z -> bool) (dict : gmap (list Z) S) (x : option ptr) (traversed removed : Z)
    : option (heap * zskiplist * gmap (list Z) S * Z) :=
  match x with
  | None => Some (h, zsl, dict, removed)
  | Some x =>
    n ← h !! x;
    if in_range n traversed then
      match fuel with
      | O => None
      | Datatypes.S fuel =>
        l ← level n !! 0%nat;
        let next := forward l in
        '(h, zsl) ← zslDeleteNode h zsl x update;
        e ← ele n;
        delete_while fuel (zslFreeNode h x) zsl update in_range (delete e dict) next
          (uwrap 64 (traversed + 1)) (uwrap 64 (removed + 1))
      end
    else Some (h, zsl, dict, removed)
  end.

Definition zslDeleteRangeByScore (h : heap) (zsl : zskiplist) (range : zrangespec) (dict : gmap (list Z) S)
    : option (heap * zskiplist * gmap (list Z) S * Z) :=
  update ← descend h 64 (fun fn _ => if r_minex range then sle (score fn) (r_min range) else slt (score fn) (r_min range))
             (zsl_level zsl) (header zsl) 0 [];
  '(x, _) ← update !! 0%nat;
  l ← get_level h x 0;
  delete_while (size h) h zsl (update.*1)
    (fun n _ => if r_maxex range then slt (score n) (r_max range) else sle (score n) (r_max range))
    dict (forward l) 0 0.

Definition zslDeleteRangeByRank (h : heap) (zsl : zskiplist) (start end_ : Z) (dict : gmap (list Z) S)
    : option (heap * zskiplist * gmap (list Z) S * Z) :=
  update ← descend h 64 (fun _ r => r <? start) (zsl_level zsl) (header zsl) 0 [];
  '(x, traversed) ← update !! 0%nat;
  l ← get_level h x 0;
  delete_while (size h) h zsl (update.*1) (fun _ t => t <=? end_) dict (forward l) (uwrap 64 (traversed + 1)) 0.

(** ** Ranks *)

Fixpoint rank_loop (h : heap) (s : S) (e : list Z) (i : nat) (x : ptr) (rank : Z) : option Z :=
  match i with
  | O => Some 0
  | Datatypes.S i =>
    '(x, rank) ← walk (size h) h 64
      (fun fn _ => slt (score fn) s ||
         (seqb (score fn) s && match ele fn with Some e' => cmp_bytes e' e <=? 0 | None => false end)) i x rank;
    n ← h !! x;
    if match ele n with Some e' => cmp_bytes e' e =? 0 | None => false end
    then Some rank else rank_loop h s e i x rank
  end.

Definition zslGetRank (h : heap) (zsl : zskiplist) (s : S) (e : list Z) : option Z :=
  rank_loop h s e (zsl_level zsl) (header zsl) 0.

Fixpoint by_rank_loop (h : heap) (rank : Z) (i : nat) (x : ptr) (traversed : Z) : option (option ptr) :=
  match i with
  | O => Some None
  | Datatypes.S i =>
    '(x, traversed) ← walk (size h) h 64 (fun _ r => r <=? rank) i x traversed;
    if traversed =? rank then Some (Some x) else by_rank_loop h rank i x traversed
  end.

Definition zslGetElementByRank (h : heap) (zsl : zskiplist) (rank : Z) : option (option ptr) :=
  by_rank_loop h rank (zsl_level zsl) (header zsl) 0.

(** ** The abstract skip list

    The bottom level as a list of entries; [hgt] is the number of levels of
    the node.  [lv T i] is what level [i] of a node followed by [T] must be:
    the next node at least that high, and how far it is. *)

Record entry := mk_entry { n_ptr : ptr; n_score : S; n_ele : list Z; hgt : nat }.

Fixpoint lv (T : list entry) (i : nat) : zskiplistLevel :=
  match T with
  | [] => mk_level None 0
  | n :: T => if (i <? hgt n)%nat then mk_level (Some (n_ptr n)) 1
              else mk_level (forward (lv T i)) (span (lv T i) + 1)
  end.

(** A heap seen as levels and the other fields of the nodes. *)
Definition info (h : heap) (x : ptr) : option (option (list Z) * S * option ptr * nat) :=
  n ← h !! x; Some (ele n, score n, backward n, length (level n)).

Definition entry_ok (h : heap) (prev : option ptr) (n : entry) (T : list entry) : Prop :=
  info h (n_ptr n) = Some (Some (n_ele n), n_score n, prev, hgt n) /\
  forall i, (i < hgt n)%nat -> get_level h (n_ptr n) i = Some (lv T i).

Fixpoint nodes_ok (h : heap) (prev : option ptr) (L : list entry) : Prop :=
  match L with
  | [] => True
  | n :: T => entry_ok h prev n T /\ nodes_ok h (Some (n_ptr n)) T
  end.

Definition max_hgt (L : list entry) : nat := foldr (fun n m => Nat.max (hgt n) m) 1%nat L.

Definition key_lt (a b : S * list Z) : bool :=
  slt a.1 b.1 || (seqb a.1 b.1 && (cmp_bytes a.2 b.2 <? 0)).

Definition key (n : entry) : S * list Z := (n_score n, n_ele n).

Definition last_ptr (L : list entry) : option ptr := n_ptr <$> last L.

Record zsl_rep (h : heap) (zsl : zskiplist) (L : list entry) : Prop := {
  zr_nodup : NoDup (header zsl :: (n_ptr <$> L));
  zr_hgt : Forall (fun n => 1 <= hgt n <= ZSKIPLIST_MAXLEVEL)%nat L;
  zr_level : zsl_level zsl = max_hgt L;
  zr_length : zsl_length zsl = zlen L;
  zr_fits : zlen L < 2 ^ 31;
  zr_tail : tail zsl = last_ptr L;
  zr_nodes : nodes_ok h None L;
  zr_info : exists s, info h (header zsl) = Some (None, s, None, ZSKIPLIST_MAXLEVEL);
  zr_header : forall i, (i < zsl_level zsl)%nat -> get_level h (header zsl) i = Some (lv L i);
  zr_unused : forall i, (zsl_level zsl <= i < ZSKIPLIST_MAXLEVEL)%nat ->
    exists sp, get_level h (header zsl) i = Some (mk_level None sp);
  zr_sorted : forall i j a b, (i < j)%nat -> L !! i = Some a -> L !! j = Some b -> key_lt (key a) (key b) = true;
}.

(** ** Heap lemmas *)

Lemma get_level_info h x i e s b n : info h x = Some (e, s, b, n) -> (i < n)%nat <-> is_Some (get_level h x i).
Proof.
  unfold info, get_level. destruct (h !! x) as [nd|]; [|done]. cbn [mbind option_bind].
  intros E. injection E as _ _ _ <-. by rewrite lookup_lt_is_Some.
Qed.

Lemma set_level_spec h x i l :
  is_Some (get_level h x i) ->
  exists h', set_level h x i l = Some h' /\ (forall p, info h' p = info h p) /\
    forall p j, get_level h' p j = if bool_decide (p = x /\ j = i) then Some l else get_level h p j.
Proof.
  unfold set_level, get_level, info. destruct (h !! x) as [n|] eqn:Hx; [|by intros []]. cbn [mbind option_bind].
  intros Hi. apply lookup_lt_is_Some in Hi. rewrite bool_decide_eq_true_2 by done.
  eexists. split; [done|]. split.
  - intros p. destruct (decide (p = x)) as [->|Hp].
    + rewrite lookup_insert_eq, Hx. simpl. by rewrite length_insert.
    + by rewrite lookup_insert_ne by done.
  - intros p j. destruct (decide (p = x)) as [->|Hp].
    + rewrite lookup_insert_eq, Hx. simpl. destruct (decide (j = i)) as [->|Hj].
      * rewrite bool_decide_eq_true_2 by done. by rewrite list_lookup_insert_eq by done.
      * rewrite bool_decide_eq_false_2 by naive_solver. by rewrite list_lookup_insert_ne by done.
    + rewrite lookup_insert_ne by done. by rewrite bool_decide_eq_false_2 by naive_solver.
Qed.

Lemma set_backward_spec h x b e s b0 n :
  info h x = Some (e, s, b0, n) ->
  exists h', set_backward h x b = Some h' /\ (forall p j, get_level h' p j = get_level h p j) /\
    forall p, info h' p = if bool_decide (p = x) then Some (e, s, b, n) else info h p.
Proof.
  unfold set_backward, get_level, info. destruct (h !! x) as [nd|] eqn:Hx; [|done]. cbn [mbind option_bind].
  intros E. injection E as <- <- <- <-. eexists. split; [done|]. split.
  - intros p j. destruct (decide (p = x)) as [->|Hp]; [by rewrite lookup_insert_eq, Hx|by rewrite lookup_insert_ne by done].
  - intros p. destruct (decide (p = x)) as [->|Hp].
    + rewrite lookup_insert_eq, bool_decide_eq_true_2 by done. done.
    + by rewrite lookup_insert_ne, bool_decide_eq_false_2 by done.
Qed.

Lemma zslCreateNode_spec h lvl s e h' x :
  zslCreateNode h lvl s e = (h', x) ->
  h !! x = None /\ info h' x = Some (e, s, None, lvl) /\
  (forall i, (i < lvl)%nat -> get_level h' x i = Some (mk_level None 0)) /\
  forall p, p <> x -> h' !! p = h !! p.
Proof.
  unfold zslCreateNode. intros E. injection E as <- <-. set (x := fresh (dom h)).
  assert (h !! x = None) as Hx by (apply not_elem_of_dom, is_fresh). split; [done|].
  unfold info, get_level. rewrite lookup_insert_eq. simpl. rewrite length_replicate. split; [done|]. split.
  - intros i Hi. by rewrite lookup_replicate_2 by done.
  - intros p Hp. by rewrite lookup_insert_ne by done.
Qed.

(** ** [lv] *)

(** A node of height above [i] in the list. *)
Definition tall (i : nat) (L : list entry) : bool := existsb (fun n => i <? hgt n)%nat L.

Lemma lv_app_tall i A B : tall i A = true -> lv (A ++ B) i = lv A i.
Proof.
  induction A as [|n A IH]; [done|]. cbn [tall existsb app lv]. destruct (i <? hgt n)%nat; [done|].
  intros Ht. by rewrite IH.
Qed.

Lemma lv_app_short i A B :
  tall i A = false -> lv (A ++ B) i = mk_level (forward (lv B i)) (zlen A + span (lv B i)).
Proof.
  induction A as [|n A IH]; intros Ht; [simpl; by destruct (lv B i)|]. cbn [tall existsb app lv] in *.
  apply orb_false_iff in Ht as [-> Ht]. rewrite IH by done. simpl. f_equal. rewrite zlen_cons. lia.
Qed.

Lemma lv_short i A : tall i A = false -> lv A i = mk_level None (zlen A).
Proof. intros Ht. rewrite <- (app_nil_r A), lv_app_short by done. simpl. f_equal. rewrite app_nil_r. lia. Qed.

Lemma tall_app i A B : tall i (A ++ B) = tall i A || tall i B.
Proof. unfold tall. by rewrite existsb_app. Qed.

Lemma tall_max i L : (1 <= i)%nat -> tall i L = (i <? max_hgt L)%nat.
Proof.
  intros Hi. induction L as [|n L IH]; simpl.
  - symmetry. apply Nat.ltb_ge. lia.
  - change (existsb (fun n => i <? hgt n)%nat L) with (tall i L). rewrite IH.
    destruct (Nat.ltb_spec i (hgt n)), (Nat.ltb_spec i (max_hgt L)),
      (Nat.ltb_spec i (Nat.max (hgt n) (max_hgt L))); simpl; lia || done.
Qed.

Lemma lv_span_bound T i : 0 <= span (lv T i) <= zlen T.
Proof.
  induction T as [|n T IH]; [done|]. rewrite zlen_cons. pose proof (zlen_nonneg T). simpl. case_match; simpl; lia.
Qed.

Lemma nodes_ok_app h prev A B :
  nodes_ok h prev (A ++ B) <->
  (forall C n D, A = C ++ n :: D -> entry_ok h (match last_ptr C with Some p => Some p | None => prev end) n (D ++ B)) /\
  nodes_ok h (match last_ptr A with Some p => Some p | None => prev end) B.
Proof.
  revert prev. induction A as [|a A IH]; intros prev.
  - simpl. split; [|tauto]. intros HB. split; [|done]. intros C n D E. by destruct C.
  - cbn [app nodes_ok]. rewrite IH. clear IH.
    assert (forall C, last_ptr (a :: C) = match last_ptr C with Some p => Some p | None => Some (n_ptr a) end) as Hlast.
    { intros C. unfold last_ptr. rewrite last_cons. by destruct (last C). }
    rewrite Hlast. split.
    + intros (Ha & HA & HB). split; [|by destruct (last_ptr A)]. intros [|c C] n D E; simpl in E; injection E as -> ->; [done|].
      rewrite Hlast. specialize (HA C n D eq_refl). by destruct (last_ptr C).
    + intros [HA HB]. split; [by apply (HA [] a A)|]. split; [|by destruct (last_ptr A)].
      intros C n D ->. specialize (HA (a :: C) n D eq_refl). rewrite Hlast in HA. by destruct (last_ptr C).
Qed.

(** ** Searching *)

(** The part of [M] up to its last node higher than [i]: where the search of
    level [i] stops. *)
Fixpoint cut (i : nat) (M : list entry) : list entry :=
  match M with
  | [] => []
  | n :: M => if tall i M then n :: cut i M else if (i <? hgt n)%nat then [n] else []
  end.

Definition ends_tall (i : nat) (P : list entry) : Prop := forall n, last P = Some n -> (i < hgt n)%nat.

Lemma tall_split i M : tall i M = true -> exists C n D, M = C ++ n :: D /\ tall i C = false /\ (i < hgt n)%nat.
Proof.
  induction M as [|a M IH]; [done|]. simpl. destruct (Nat.ltb_spec i (hgt a)) as [Ha|Ha].
  - intros _. by exists [], a, M.
  - intros (C & n & D & -> & HC & Hn)%IH. exists (a :: C), n, D. split_and!; try done. simpl.
    rewrite HC. by rewrite (proj2 (Nat.ltb_ge i (hgt a))).
Qed.

Lemma cut_nil i M : tall i M = false -> cut i M = [].
Proof.
  destruct M as [|a M]; [done|]. intros Ht. simpl in Ht. apply orb_false_iff in Ht as [Ha Ht].
  cbn [cut]. change (existsb (fun n => i <? hgt n)%nat M) with (tall i M) in Ht. by rewrite Ht, Ha.
Qed.

Lemma cut_app i P M : ends_tall i P -> cut i (P ++ M) = P ++ cut i M.
Proof.
  induction P as [|a P IH]; [done|]. intros He. cbn [app cut]. destruct P as [|b P].
  - specialize (He a eq_refl). simpl. destruct (tall i M) eqn:Ht; [done|].
    rewrite (proj2 (Nat.ltb_lt _ _)) by done. by rewrite cut_nil.
  - assert (ends_tall i (b :: P)) as He' by (intros n Hn; apply He; by rewrite last_cons, Hn).
    assert (tall i ((b :: P) ++ M) = true) as ->; [|by rewrite IH].
    rewrite tall_app. apply orb_true_iff. left. destruct (last (b :: P)) as [n|] eqn:Hl; [|by apply last_None in Hl].
    apply existsb_exists. exists n. split; [|by apply Nat.ltb_lt, He'].
    apply list_elem_of_In. by apply last_Some_elem_of.
Qed.

Lemma cut_rest i M : exists D, M = cut i M ++ D /\ tall i D = false /\ ends_tall i (cut i M).
Proof.
  destruct (tall i M) eqn:Ht.
  - induction M as [|a M IH]; [done|]. cbn [cut]. destruct (tall i M) eqn:Ht'.
    + destruct (IH eq_refl) as (D & E & HD & He). exists D. simpl. rewrite <- E. split_and!; try done.
      intros n Hn. destruct (cut i M) as [|c C] eqn:Ec.
      * exfalso. simpl in E. subst D. congruence.
      * apply He. by rewrite last_cons_cons in Hn.
    + simpl in Ht. change (existsb (fun n => i <? hgt n)%nat M) with (tall i M) in Ht. rewrite Ht', orb_false_r in Ht.
      rewrite Ht. exists M. split_and!; try done. intros n [= <-]. by apply Nat.ltb_lt.
  - exists M. rewrite cut_nil by done. split_and!; done.
Qed.

Lemma cut_mono i j M : (j <= i)%nat -> exists D, cut j M = cut i M ++ D /\ ends_tall j (cut i M).
Proof.
  intros Hj. destruct (cut_rest i M) as (D & E & HD & He).
  assert (ends_tall j (cut i M)) as He' by (intros n Hn; specialize (He n Hn); lia).
  exists (cut j D). split; [|done]. rewrite E at 1. by apply cut_app.
Qed.

(** [x] is the node at the end of [P], the header if [P] is empty. *)
Definition at_pos (zsl : zskiplist) (P : list entry) (x : ptr) : Prop :=
  x = match last_ptr P with Some p => p | None => header zsl end.

Lemma node_at h zsl L C n D :
  zsl_rep h zsl L -> L = C ++ n :: D -> entry_ok h (last_ptr C) n D.
Proof.
  intros Hr ->. pose proof (zr_nodes _ _ _ Hr) as Hn. replace (C ++ n :: D) with ((C ++ [n]) ++ D) in Hn by by rewrite <- app_assoc.
  apply nodes_ok_app in Hn as [Hn _]. specialize (Hn C n [] eq_refl). simpl in Hn. by destruct (last_ptr C).
Qed.

Lemma level_at h zsl L P T x i :
  zsl_rep h zsl L -> L = P ++ T -> at_pos zsl P x -> ends_tall i P -> (i < zsl_level zsl)%nat ->
  get_level h x i = Some (lv T i).
Proof.
  intros Hr -> Hx He Hi. destruct P as [|n P _] using rev_ind.
  - unfold at_pos, last_ptr in Hx. simpl in Hx. subst x. by apply (zr_header _ _ _ Hr).
  - unfold at_pos, last_ptr in Hx. rewrite last_snoc in Hx. simpl in Hx. subst x.
    rewrite <- app_assoc in Hr. destruct (node_at _ _ _ P n T Hr eq_refl) as [_ Hlv].
    apply Hlv, He. by rewrite last_snoc.
Qed.

Lemma entry_lookup h prev n T :
  entry_ok h prev n T -> exists fn, h !! n_ptr n = Some fn /\ ele fn = Some (n_ele n) /\ score fn = n_score n /\
    backward fn = prev /\ length (level fn) = hgt n.
Proof.
  intros [Hi _]. unfold info in Hi. destruct (h !! n_ptr n) as [fn|]; [|done]. simpl in Hi. simplify_eq. eauto 10.
Qed.

(** A test that sees the element, the score and the rank of the next node,
    true on the entries [M] that come before a point and false after it. *)
Definition separates (T : option (list Z) -> S -> Z -> bool) (M B : list entry) : Prop :=
  (forall C n D, M = C ++ n :: D -> T (Some (n_ele n)) (n_score n) (zlen C + 1) = true) /\
  (forall C n D, B = C ++ n :: D -> T (Some (n_ele n)) (n_score n) (zlen M + zlen C + 1) = false).

Lemma walk_spec h zsl L w T i x P M B fuel :
  zsl_rep h zsl L -> L = P ++ M ++ B -> 32 <= w -> (i < zsl_level zsl)%nat ->
  separates T (P ++ M) B -> at_pos zsl P x -> ends_tall i P -> (length M <= fuel)%nat ->
  exists x', walk fuel h w (fun fn r => T (ele fn) (score fn) r) i x (zlen P) = Some (x', zlen (P ++ cut i M)) /\
    at_pos zsl (P ++ cut i M) x'.
Proof.
  intros Hr EL Hw Hi Hsep. revert x P M EL Hsep. induction fuel as [|fuel IH]; intros x P M EL Hsep Hx He Hf.
  all: pose proof (level_at h zsl L P (M ++ B) x i Hr EL Hx He Hi) as Hlv.
  all: pose proof (zr_fits _ _ _ Hr) as Hfit; rewrite EL in Hfit.
  all: destruct (tall i M) eqn:Ht.
  all: cbn [walk]; rewrite Hlv; cbn [mbind option_bind].
  1: destruct M; [done|simpl in Hf; lia].
  2: { destruct (tall_split i M Ht) as (C & n & D & EM & HC & Hn). 
       rewrite EM, <- app_assoc, lv_app_short by done. cbn [app lv]. rewrite (proj2 (Nat.ltb_lt _ _)) by done.
       cbn [forward span]. subst M.
       assert (L = (P ++ C) ++ n :: (D ++ B)) as EL' by by rewrite EL, <- !app_assoc.
       destruct (entry_lookup _ _ _ _ (node_at _ _ _ _ _ _ Hr EL')) as (fn & -> & Ee & Es & _).
       cbn [mbind option_bind]. rewrite Ee, Es. pose proof (zlen_nonneg P). pose proof (zlen_nonneg C).
       rewrite !zlen_app, zlen_cons in Hfit. pose proof (zlen_nonneg D). pose proof (zlen_nonneg B).
       assert (2 ^ 32 <= 2 ^ w) by (apply Z.pow_le_mono_r; lia).
       rewrite (uwrap_small 64), (uwrap_small w) by (unfold in_u; lia).
       assert (T (Some (n_ele n)) (n_score n) (zlen P + (zlen C + 1)) = true) as ->.
       { destruct Hsep as [Hs _]. rewrite <- (Hs (P ++ C) n D) by by rewrite <- app_assoc.
         f_equal. rewrite zlen_app. lia. }
       replace (zlen P + (zlen C + 1)) with (zlen (P ++ C ++ [n])) by (rewrite !zlen_app, zlen_cons, zlen_nil; lia).
       destruct (IH (n_ptr n) (P ++ C ++ [n]) D) as (x' & Hw' & Hx').
       - by rewrite EL, <- !app_assoc.
       - replace ((P ++ C ++ [n]) ++ D) with (P ++ C ++ n :: D); [done|]. by rewrite <- !app_assoc.
       - unfold at_pos, last_ptr. by rewrite app_assoc, last_snoc.
       - intros k Hk. rewrite app_assoc, last_snoc in Hk. by injection Hk as <-.
       - rewrite length_app in Hf. simpl in Hf. lia.
       - exists x'. rewrite Hw'. assert ((P ++ C ++ [n]) ++ cut i D = P ++ cut i (C ++ n :: D)) as <-; [|done].
         replace (C ++ n :: D) with ((C ++ [n]) ++ D) by by rewrite <- app_assoc.
         rewrite cut_app; [by rewrite <- !app_assoc|]. intros k Hk. rewrite last_snoc in Hk. by injection Hk as <-. }
  all: rewrite lv_app_short by done; cbn [forward span]; rewrite cut_nil by done; rewrite app_nil_r.
  all: assert (exists x', Some (x, zlen P) = Some (x', zlen P) /\ at_pos zsl P x') as Hdone by eauto.
  all: destruct (tall i B) eqn:HtB; [|by rewrite (lv_short i B) by done].
  all: destruct (tall_split i B HtB) as (C & n & D & EB & HC & Hn).
  all: rewrite EB, lv_app_short by done; cbn [app lv]; rewrite (proj2 (Nat.ltb_lt _ _)) by done; cbn [forward span].
  all: subst B; assert (L = (P ++ M ++ C) ++ n :: D) as EL' by by rewrite EL, <- !app_assoc.
  all: destruct (entry_lookup _ _ _ _ (node_at _ _ _ _ _ _ Hr EL')) as (fn & -> & Ee & Es & _).
  all: cbn [mbind option_bind]; rewrite Ee, Es; pose proof (zlen_nonneg P); pose proof (zlen_nonneg C).
  all: rewrite !zlen_app, zlen_cons in Hfit; pose proof (zlen_nonneg D); pose proof (zlen_nonneg M).
  all: rewrite (uwrap_small 64) by (unfold in_u; lia).
  all: assert (T (Some (n_ele n)) (n_score n) (zlen P + (zlen M + (zlen C + 1))) = false) as ->;
    [destruct Hsep as [_ Hs]; rewrite <- (Hs C n D eq_refl); f_equal; rewrite zlen_app; lia|done].
Qed.

Definition cut_ptr (zsl : zskiplist) (i : nat) (M : list entry) : ptr :=
  match last_ptr (cut i M) with Some p => p | None => header zsl end.

(** The [update] and [rank] arrays for the entries [M]. *)
Definition update_of (zsl : zskiplist) (M : list entry) (n : nat) : list (ptr * Z) :=
  (fun i => (cut_ptr zsl i M, zlen (cut i M))) <$> seq 0 n.

Lemma rep_size h zsl L : zsl_rep h zsl L -> (length L <= base.size h)%nat.
Proof.
  intros Hr. assert (NoDup (n_ptr <$> L)) as Hnd by (pose proof (zr_nodup _ _ _ Hr) as Hn; by apply NoDup_cons in Hn as [_ ?]).
  rewrite <- (length_fmap n_ptr L). rewrite <- size_dom.
  rewrite <- (size_list_to_set (C:=gset positive) _ Hnd). apply subseteq_size. intros p Hp.
  apply elem_of_list_to_set, list_elem_of_fmap in Hp as (n & -> & Hn). apply list_elem_of_split in Hn as (C & D & E).
  destruct (entry_lookup _ _ _ _ (node_at _ _ _ _ _ _ Hr E)) as (fn & Hfn & _). by apply elem_of_dom.
Qed.

Lemma descend_spec h zsl L w T M B i P M1 x acc :
  zsl_rep h zsl L -> L = M ++ B -> 32 <= w -> separates T M B ->
  M = P ++ M1 -> at_pos zsl P x -> (i <= zsl_level zsl)%nat ->
  (forall j, (j < i)%nat -> ends_tall j P) ->
  descend h w (fun fn r => T (ele fn) (score fn) r) i x (zlen P) acc = Some (update_of zsl M i ++ acc).
Proof.
  intros Hr EL Hw Hsep. revert P M1 x acc. induction i as [|i IH]; intros P M1 x acc EM Hx Hi He; [done|].
  cbn [descend]. destruct (walk_spec h zsl L w T i x P M1 B (base.size h) Hr) as (x' & -> & Hx');
    [by rewrite EL, EM, <- app_assoc|done|lia|by rewrite <- EM|done|apply He; lia| |].
  { pose proof (rep_size _ _ _ Hr) as Hs. rewrite EL, EM, !length_app in Hs. lia. }
  cbn [mbind option_bind]. assert (P ++ cut i M1 = cut i M) as Ec by (rewrite EM, cut_app; [done|apply He; lia]).
  rewrite Ec in *. destruct (cut_rest i M) as (D & ED & _ & HeD).
  rewrite (IH (cut i M) D x') by (done || lia || (intros j Hj k Hk; specialize (HeD k Hk); lia)).
  f_equal. unfold update_of. rewrite seq_S, fmap_app, <- app_assoc. simpl. repeat f_equal.
  exact Hx'.
Qed.

Lemma descend_all h zsl L w T M B :
  zsl_rep h zsl L -> L = M ++ B -> 32 <= w -> separates T M B ->
  descend h w (fun fn r => T (ele fn) (score fn) r) (zsl_level zsl) (header zsl) 0 []
    = Some (update_of zsl M (zsl_level zsl)).
Proof.
  intros Hr EL Hw Hsep.
  pose proof (descend_spec h zsl L w T M B (zsl_level zsl) [] M (header zsl) [] Hr EL Hw Hsep) as Hd.
  rewrite app_nil_r in Hd. by apply Hd.
Qed.

Lemma zsl_level_pos h zsl L : zsl_rep h zsl L -> (1 <= zsl_level zsl <= ZSKIPLIST_MAXLEVEL)%nat.
Proof.
  intros Hr. rewrite (zr_level _ _ _ Hr). pose proof (zr_hgt _ _ _ Hr) as Hh. split.
  - clear. induction L; simpl; lia.
  - clear -Hh. induction Hh as [|n L Hn HL IH]; simpl; unfold ZSKIPLIST_MAXLEVEL in *; lia.
Qed.

Lemma update_of_lookup zsl M n i :
  (i < n)%nat -> update_of zsl M n !! i = Some (cut_ptr zsl i M, zlen (cut i M)).
Proof. intros Hi. unfold update_of. rewrite list_lookup_fmap, lookup_seq_lt by done. done. Qed.

Lemma hgt_at h zsl L n : zsl_rep h zsl L -> n ∈ L -> (1 <= hgt n <= zsl_level zsl)%nat.
Proof.
  intros Hr Hn. pose proof (zr_hgt _ _ _ Hr) as Hh. rewrite Forall_forall in Hh. specialize (Hh n Hn).
  rewrite (zr_level _ _ _ Hr). clear -Hn Hh. induction L as [|a L IH]; [by apply elem_of_nil in Hn|].
  simpl. apply elem_of_cons in Hn as [->|Hn]; [lia|]. specialize (IH Hn). lia.
Qed.

(** At level 0 the search stops right before the first entry of [B]. *)
Lemma cut_0 h zsl L M B : zsl_rep h zsl L -> L = M ++ B -> cut 0 M = M.
Proof.
  intros Hr EL. destruct (cut_rest 0 M) as (D & E & HD & _). destruct D as [|n D]; [by rewrite app_nil_r in E|].
  exfalso. assert (n ∈ L) as Hn by (rewrite EL, E; set_solver). pose proof (hgt_at _ _ _ _ Hr Hn).
  simpl in HD. apply orb_false_iff in HD as [HD _]. apply Nat.ltb_ge in HD. lia.
Qed.

(** ** The loops over the levels *)

Lemma grow_loop_spec h hd len i n :
  (forall j, (i <= j < i + n)%nat -> is_Some (get_level h hd j)) ->
  exists h', grow_loop h hd len i n = Some h' /\ (forall p, info h' p = info h p) /\
    forall p j, get_level h' p j = if bool_decide (p = hd /\ i <= j < i + n)%nat
      then (fun l => mk_level (forward l) len) <$> get_level h hd j else get_level h p j.
Proof.
  revert h i. induction n as [|n IH]; intros h i Hl.
  { exists h. split; [done|]. split; [done|]. intros p j. rewrite bool_decide_eq_false_2; [done|]. lia. }
  cbn [grow_loop]. destruct (Hl i ltac:(lia)) as [l El]. rewrite El. cbn [mbind option_bind].
  destruct (set_level_spec h hd i (mk_level (forward l) len)) as (h1 & -> & Hi1 & Hg1); [by rewrite El|].
  cbn [mbind option_bind]. destruct (IH h1 (Datatypes.S i)) as (h2 & -> & Hi2 & Hg2).
  { intros j Hj. rewrite Hg1. case_bool_decide; [by eexists|]. apply Hl. lia. }
  exists h2. split; [done|]. split; [intros p; by rewrite Hi2, Hi1|].
  intros p j. rewrite Hg2. destruct (decide (p = hd)) as [->|Hp].
  - destruct (decide (j = i)) as [->|Hj].
    + rewrite bool_decide_eq_false_2 by lia. rewrite Hg1, !bool_decide_eq_true_2 by (first [done|split; [done|lia]]). by rewrite El.
    + rewrite !Hg1, (bool_decide_eq_false_2 (hd = hd /\ j = i)) by naive_solver.
      do 2 case_bool_decide; try done; lia.
  - rewrite !bool_decide_eq_false_2 by naive_solver. rewrite Hg1. by rewrite bool_decide_eq_false_2 by naive_solver.
Qed.

Lemma link_loop_spec h x rank0 i update :
  (forall j u r, update !! j = Some (u, r) -> u <> x /\ is_Some (get_level h u (i + j))) ->
  (forall j, (j < length update)%nat -> is_Some (get_level h x (i + j))) ->
  exists h', link_loop h x rank0 i update = Some h' /\ (forall p, info h' p = info h p) /\
    forall p k, get_level h' p k =
      match (if (i <=? k)%nat then update !! (k - i)%nat else None) with
      | Some (u, r) =>
        if bool_decide (p = x) then
          (fun l => mk_level (forward l) (uwrap 64 (span l - uwrap 32 (rank0 - r)))) <$> get_level h u k
        else if bool_decide (p = u) then Some (mk_level (Some x) (uwrap 32 (uwrap 32 (rank0 - r) + 1)))
        else get_level h p k
      | None => get_level h p k
      end.
Proof.
  revert h i. induction update as [|[u r] update IH]; intros h i Hu Hx.
  { exists h. split; [done|]. split; [done|]. intros p k. by destruct (i <=? k)%nat. }
  cbn [link_loop]. destruct (Hu 0%nat u r eq_refl) as [Hux [l El]]. rewrite Nat.add_0_r in El.
  rewrite El. cbn [mbind option_bind].
  destruct (set_level_spec h x i (mk_level (forward l) (uwrap 64 (span l - uwrap 32 (rank0 - r))))) as (h1 & -> & Hi1 & Hg1).
  { rewrite <- (Nat.add_0_r i). apply Hx. simpl. lia. }
  cbn [mbind option_bind].
  destruct (set_level_spec h1 u i (mk_level (Some x) (uwrap 32 (uwrap 32 (rank0 - r) + 1)))) as (h2 & -> & Hi2 & Hg2).
  { rewrite Hg1. case_bool_decide; [by eexists|]. by rewrite El. }
  cbn [mbind option_bind].
  assert (forall p k, k <> i -> get_level h2 p k = get_level h p k) as Hother.
  { intros p k Hk. rewrite Hg2, Hg1. rewrite !bool_decide_eq_false_2 by naive_solver. done. }
  destruct (IH h2 (Datatypes.S i)) as (h3 & -> & Hi3 & Hg3).
  { intros j v r' Hj. destruct (Hu (Datatypes.S j) v r' Hj) as [? ?]. split; [done|].
    rewrite Hother by lia. by replace (Datatypes.S i + j)%nat with (i + Datatypes.S j)%nat by lia. }
  { intros j Hj. rewrite Hother by lia. replace (Datatypes.S i + j)%nat with (i + Datatypes.S j)%nat by lia.
    apply Hx. simpl. lia. }
  exists h3. split; [done|]. split; [intros p; by rewrite Hi3, Hi2, Hi1|].
  intros p k. rewrite Hg3. destruct (decide (k = i)) as [->|Hk].
  - rewrite (proj2 (Nat.leb_gt (Datatypes.S i) i)), (proj2 (Nat.leb_le i i)), Nat.sub_diag by lia. simpl.
    rewrite Hg2, Hg1, El. destruct (decide (p = x)) as [->|Hpx].
    + rewrite (bool_decide_eq_false_2 (x = u /\ i = i)) by naive_solver. by rewrite !bool_decide_eq_true_2 by done.
    + rewrite (bool_decide_eq_false_2 (p = x /\ i = i)), (bool_decide_eq_false_2 (p = x)) by naive_solver.
      destruct (decide (p = u)) as [->|Hpu]; [by rewrite !bool_decide_eq_true_2 by done|].
      by rewrite !bool_decide_eq_false_2 by naive_solver.
  - destruct (Nat.leb_spec i k).
    + rewrite (proj2 (Nat.leb_le (Datatypes.S i) k)) by lia. replace (k - i)%nat with (Datatypes.S (k - Datatypes.S i)) by lia.
      cbn [lookup list_lookup]. destruct (update !! (k - Datatypes.S i)%nat) as [[v r']|]; by rewrite !Hother by done.
    + rewrite (proj2 (Nat.leb_gt (Datatypes.S i) k)) by lia. by rewrite Hother.
Qed.

Lemma bump_loop_spec h i update :
  (forall j u r, update !! j = Some (u, r) -> is_Some (get_level h u (i + j))) ->
  exists h', bump_loop h i update = Some h' /\ (forall p, info h' p = info h p) /\
    forall p k, get_level h' p k =
      match (if (i <=? k)%nat then update !! (k - i)%nat else None) with
      | Some (u, _) => if bool_decide (p = u)
          then (fun l => mk_level (forward l) (uwrap 64 (span l + 1))) <$> get_level h u k else get_level h p k
      | None => get_level h p k
      end.
Proof.
  revert h i. induction update as [|[u r] update IH]; intros h i Hu.
  { exists h. split; [done|]. split; [done|]. intros p k. by destruct (i <=? k)%nat. }
  cbn [bump_loop]. destruct (Hu 0%nat u r eq_refl) as [l El]. rewrite Nat.add_0_r in El.
  rewrite El. cbn [mbind option_bind].
  destruct (set_level_spec h u i (mk_level (forward l) (uwrap 64 (span l + 1)))) as (h1 & -> & Hi1 & Hg1); [by rewrite El|].
  cbn [mbind option_bind].
  assert (forall p k, k <> i -> get_level h1 p k = get_level h p k) as Hother.
  { intros p k Hk. rewrite Hg1. by rewrite bool_decide_eq_false_2 by naive_solver. }
  destruct (IH h1 (Datatypes.S i)) as (h3 & -> & Hi3 & Hg3).
  { intros j v r' Hj. rewrite Hother by lia. replace (Datatypes.S i + j)%nat with (i + Datatypes.S j)%nat by lia.
    by apply (Hu (Datatypes.S j) v r'). }
  exists h3. split; [done|]. split; [intros p; by rewrite Hi3, Hi1|].
  intros p k. rewrite Hg3. destruct (decide (k = i)) as [->|Hk].
  - rewrite (proj2 (Nat.leb_gt (Datatypes.S i) i)), (proj2 (Nat.leb_le i i)), Nat.sub_diag by lia. simpl.
    rewrite Hg1, El. destruct (decide (p = u)) as [->|Hpu]; [by rewrite !bool_decide_eq_true_2 by done|].
    by rewrite !bool_decide_eq_false_2 by naive_solver.
  - destruct (Nat.leb_spec i k).
    + rewrite (proj2 (Nat.leb_le (Datatypes.S i) k)) by lia. replace (k - i)%nat with (Datatypes.S (k - Datatypes.S i)) by lia.
      cbn [lookup list_lookup]. destruct (update !! (k - Datatypes.S i)%nat) as [[v r']|]; by rewrite !Hother by done.
    + rewrite (proj2 (Nat.leb_gt (Datatypes.S i) k)) by lia. by rewrite Hother.
Qed.

(** ** Insertion *)

(** The distance from the stop at level [i] to the insertion point. *)
Definition gap (i : nat) (M : list entry) : Z := zlen M - zlen (cut i M).

Lemma gap_bound i M : 0 <= gap i M <= zlen M /\ 0 <= zlen (cut i M).
Proof.
  unfold gap. destruct (cut_rest i M) as (D & E & _). apply (f_equal zlen) in E. rewrite zlen_app in E.
  pose proof (zlen_nonneg D). pose proof (zlen_nonneg (cut i M)). lia.
Qed.

Lemma update_extend zsl M n m :
  (max_hgt M <= n)%nat -> (1 <= n)%nat ->
  update_of zsl M n ++ replicate (m - n) (header zsl, 0) = update_of zsl M (Nat.max n m).
Proof.
  intros Hn H1. apply list_eq. intros i. destruct (decide (i < n)%nat) as [Hi|Hi].
  - rewrite lookup_app_l by (unfold update_of; rewrite length_fmap, length_seq; lia).
    by rewrite !update_of_lookup by lia.
  - rewrite lookup_app_r by (unfold update_of; rewrite length_fmap, length_seq; lia).
    unfold update_of at 1. rewrite length_fmap, length_seq. destruct (decide (i < Nat.max n m)%nat) as [Hm|Hm].
    + rewrite lookup_replicate_2, update_of_lookup by lia. unfold cut_ptr.
      rewrite cut_nil; [done|]. rewrite tall_max by lia. apply Nat.ltb_ge. lia.
    + rewrite !lookup_ge_None_2; [done| |]; unfold update_of; rewrite ?length_fmap, ?length_seq, ?length_replicate; lia.
Qed.

Lemma max_hgt_app A B : max_hgt (A ++ B) = Nat.max (max_hgt A) (max_hgt B).
Proof.
  assert (1 <= max_hgt B)%nat by (induction B; simpl; lia).
  induction A as [|a A IH]; simpl; [lia|]. rewrite IH. lia.
Qed.

Lemma stop_level h zsl M B i :
  nodes_ok h None (M ++ B) ->
  (tall i M = false -> get_level h (header zsl) i = Some (lv (M ++ B) i)) ->
  get_level h (cut_ptr zsl i M) i = Some (mk_level (forward (lv B i)) (gap i M + span (lv B i))).
Proof.
  intros Hn Hh. destruct (cut_rest i M) as (D & E & HD & He). unfold cut_ptr, gap, last_ptr.
  assert (zlen M = zlen (cut i M) + zlen D) as El by (rewrite E at 1; apply zlen_app).
  replace (zlen M - zlen (cut i M)) with (zlen D) by lia.
  rewrite <- (lv_app_short i D B HD). destruct (last (cut i M)) as [n|] eqn:Hl.
  - apply last_Some in Hl as (C & Ec). simpl. rewrite E, Ec, <- !app_assoc in Hn. simpl in Hn.
    replace (C ++ n :: D ++ B) with ((C ++ [n]) ++ (D ++ B)) in Hn by by rewrite <- app_assoc.
    apply nodes_ok_app in Hn as [Hn _]. destruct (Hn C n [] eq_refl) as [_ Hlv]. simpl in Hlv. apply Hlv, He.
    by rewrite Ec, last_snoc.
  - apply last_None in Hl. rewrite Hl in E. simpl in E. subst D. simpl. by apply Hh.
Qed.

Lemma cut_ptr_cases zsl i M :
  (cut i M = [] /\ cut_ptr zsl i M = header zsl) \/
  exists C n D, M = C ++ n :: D /\ cut i M = C ++ [n] /\ cut_ptr zsl i M = n_ptr n /\ (i < hgt n)%nat /\ tall i D = false.
Proof.
  destruct (cut_rest i M) as (D & E & HD & He). unfold cut_ptr, last_ptr.
  destruct (last (cut i M)) as [n|] eqn:Hl.
  - right. apply last_Some in Hl as Hc. destruct Hc as (C & Ec). exists C, n, D. split_and!; try done.
    + by rewrite E at 1; rewrite Ec, <- app_assoc.
    + by apply He.
  - left. apply last_None in Hl. by rewrite Hl.
Qed.

(** Whether the search of level [i] stops at a given node. *)
Lemma stop_at_node zsl M C n D i :
  M = C ++ n :: D -> NoDup (header zsl :: (n_ptr <$> M)) -> (i < hgt n)%nat ->
  (cut_ptr zsl i M = n_ptr n <-> tall i D = false) /\ (tall i D = false -> gap i M = zlen D).
Proof.
  intros EM Hnd Hi.
  assert (cut i M = (C ++ [n]) ++ cut i D) as Ec.
  { rewrite EM. replace (C ++ n :: D) with ((C ++ [n]) ++ D) by by rewrite <- app_assoc. apply cut_app.
    intros k Hk. rewrite last_snoc in Hk. by injection Hk as <-. }
  split; [|intros Hs; rewrite (cut_nil i D Hs), app_nil_r in Ec; unfold gap; rewrite Ec, EM, !zlen_app, !zlen_cons, zlen_nil; lia].
  split.
  - intros Ep. destruct (tall i D) eqn:Ht; [|done]. exfalso.
    destruct (cut_rest i D) as (D' & ED & HD' & _). destruct (cut i D) as [|c D1 _] eqn:EcD using rev_ind.
    { simpl in ED. subst D'. congruence. }
    unfold cut_ptr, last_ptr in Ep. rewrite Ec, app_assoc, last_snoc in Ep. simpl in Ep.
    rewrite EM, ED, fmap_app, fmap_cons, !fmap_app in Hnd. simpl in Hnd. rewrite Ep in Hnd.
    apply NoDup_cons in Hnd as [_ Hnd]. apply NoDup_app in Hnd as (_ & _ & Hnd).
    apply NoDup_cons in Hnd as [Hnd _]. apply Hnd. set_solver.
  - intros Hs. unfold cut_ptr, last_ptr. rewrite Ec, (cut_nil i D Hs), app_nil_r, last_snoc. done.
Qed.

Lemma stop_at_header zsl M i :
  header zsl ∉ n_ptr <$> M ->
  (cut_ptr zsl i M = header zsl <-> tall i M = false) /\ (tall i M = false -> gap i M = zlen M).
Proof.
  intros Hnd. split; [|intros Hs; unfold gap; rewrite cut_nil by done; rewrite zlen_nil; lia]. split.
  - intros E. destruct (cut_ptr_cases zsl i M) as [[Ec _]|(C & n & D & EM & _ & Ep & _)].
    + destruct (cut_rest i M) as (D & ED & HD & _). rewrite Ec in ED. simpl in ED. by subst D.
    + exfalso. apply Hnd. rewrite EM, fmap_app, fmap_cons, <- E, Ep. set_solver.
  - intros Hs. unfold cut_ptr. by rewrite cut_nil.
Qed.

Lemma stop_not_in zsl M i p :
  p <> header zsl -> p ∉ n_ptr <$> M -> cut_ptr zsl i M <> p.
Proof.
  intros Hp Hn E. destruct (cut_ptr_cases zsl i M) as [[_ Ep]|(C & n & D & EM & _ & Ep & _)]; [congruence|].
  apply Hn. rewrite EM, fmap_app, fmap_cons, <- E, Ep. set_solver.
Qed.

(** ** Replacing what follows [M]

    Insertion and deletion both leave the entries [M] before a point alone
    and change what follows from [B] to [B']: it is enough to redirect, at
    every level, the node where the search of that level stops. *)

Definition redirected (h h' : heap) (zsl : zskiplist) (M B' : list entry) (N : nat) : Prop :=
  forall p k, p = header zsl \/ p ∈ n_ptr <$> M ->
    get_level h' p k = if bool_decide ((k < N)%nat /\ p = cut_ptr zsl k M)
      then Some (mk_level (forward (lv B' k)) (gap k M + span (lv B' k))) else get_level h p k.

Lemma redirect_node h h' zsl M B B' N C n D k :
  redirected h h' zsl M B' N -> NoDup (header zsl :: (n_ptr <$> M)) -> M = C ++ n :: D ->
  (k < hgt n)%nat -> (hgt n <= N)%nat -> get_level h (n_ptr n) k = Some (lv (D ++ B) k) ->
  get_level h' (n_ptr n) k = Some (lv (D ++ B') k).
Proof.
  intros Hre Hnd EM Hk HN Hold. rewrite Hre by (right; rewrite EM, fmap_app, fmap_cons; set_solver).
  destruct (stop_at_node zsl M C n D k EM Hnd Hk) as [Hstop Hgap]. destruct (tall k D) eqn:Ht.
  - rewrite bool_decide_eq_false_2 by (intros [_ E]; symmetry in E; apply Hstop in E; congruence).
    rewrite Hold. by rewrite !lv_app_tall.
  - rewrite bool_decide_eq_true_2; [|split; [lia|symmetry; by apply Hstop]].
    rewrite lv_app_short, Hgap by done. done.
Qed.

Lemma redirect_header h h' zsl M B B' N k :
  redirected h h' zsl M B' N -> NoDup (header zsl :: (n_ptr <$> M)) -> (k < N)%nat ->
  (tall k M = true -> get_level h (header zsl) k = Some (lv (M ++ B) k)) ->
  get_level h' (header zsl) k = Some (lv (M ++ B') k).
Proof.
  intros Hre [Hnd _]%NoDup_cons Hk Hold. rewrite Hre by by left.
  destruct (stop_at_header zsl M k Hnd) as [Hstop Hgap]. destruct (tall k M) eqn:Ht.
  - rewrite bool_decide_eq_false_2 by (intros [_ E]; symmetry in E; apply Hstop in E; congruence).
    rewrite Hold by done. by rewrite !lv_app_tall.
  - rewrite bool_decide_eq_true_2; [|split; [lia|symmetry; by apply Hstop]].
    rewrite lv_app_short, Hgap by done. done.
Qed.

(** Entries that are left alone. *)
Lemma nodes_ok_frame h h' prev L :
  (forall n, n ∈ L -> info h' (n_ptr n) = info h (n_ptr n) /\
    forall k, (k < hgt n)%nat -> get_level h' (n_ptr n) k = get_level h (n_ptr n) k) ->
  nodes_ok h prev L -> nodes_ok h' prev L.
Proof.
  revert prev. induction L as [|n L IH]; intros prev Hf; [done|]. intros [[Hi Hl] HL]. split.
  - destruct (Hf n ltac:(set_solver)) as [E1 E2]. split; [by rewrite E1|]. intros i Hi'. rewrite E2 by done. by apply Hl.
  - apply IH; [|done]. intros m Hm. apply Hf. set_solver.
Qed.

(** Assembling the representation after a change at a point. *)
Lemma splice_rep h h' zsl zsl' M B B' N :
  zsl_rep h zsl (M ++ B) -> header zsl' = header zsl ->
  redirected h h' zsl M B' N ->
  (forall n, n ∈ M -> info h' (n_ptr n) = info h (n_ptr n)) -> info h' (header zsl) = info h (header zsl) ->
  nodes_ok h' (last_ptr M) B' ->
  NoDup (header zsl :: (n_ptr <$> M ++ B')) ->
  Forall (fun n => 1 <= hgt n <= ZSKIPLIST_MAXLEVEL)%nat B' ->
  (zsl_level zsl <= N <= ZSKIPLIST_MAXLEVEL)%nat ->
  zsl_level zsl' = max_hgt (M ++ B') -> (zsl_level zsl' <= N)%nat ->
  (forall k, (zsl_level zsl' <= k < N)%nat -> tall k (M ++ B') = false) ->
  zsl_length zsl' = zlen (M ++ B') -> zlen (M ++ B') < 2 ^ 31 -> tail zsl' = last_ptr (M ++ B') ->
  (forall i j a b, (i < j)%nat -> (M ++ B') !! i = Some a -> (M ++ B') !! j = Some b -> key_lt (key a) (key b) = true) ->
  zsl_rep h' zsl' (M ++ B').
Proof.
  intros Hr Eh Hre HiM Hih HB' Hnd HhB HN Hlev HlN Hun Hlen Hfit Htl Hsort.
  assert (NoDup (header zsl :: (n_ptr <$> M))) as HndM.
  { rewrite fmap_app in Hnd. apply NoDup_cons in Hnd as [H1 H2]. apply NoDup_app in H2 as [H2 _].
    apply NoDup_cons. split; [set_solver|done]. }
  assert (forall n, n ∈ M -> (1 <= hgt n <= zsl_level zsl)%nat) as HhM
    by (intros n Hn; apply (hgt_at _ _ _ _ Hr); set_solver).
  assert (forall k, (k < N)%nat -> get_level h' (header zsl) k = Some (lv (M ++ B') k)) as Hhd.
  { intros k Hk. apply (redirect_header h h' zsl M B B' N k Hre HndM Hk). intros Ht.
    apply (zr_header _ _ _ Hr). apply existsb_exists in Ht as (n & Hn & Hkn%Nat.ltb_lt).
    apply list_elem_of_In in Hn. specialize (HhM n Hn). lia. }
  constructor; rewrite ?Eh; try done.
  - apply Forall_app. split; [|done]. pose proof (zr_hgt _ _ _ Hr) as Hh. by apply Forall_app in Hh as [? _].
  - apply nodes_ok_app. split; [|by destruct (last_ptr M)]. intros C n D EM.
    assert (M ++ B = C ++ n :: (D ++ B)) as EL by by rewrite EM, <- app_assoc.
    destruct (node_at _ _ _ C n (D ++ B) Hr EL) as [Hi Hl].
    assert (n ∈ M) as HnM by (rewrite EM; set_solver).
    split; [rewrite HiM by done; rewrite Hi; by destruct (last_ptr C)|].
    intros i Hi'. apply (redirect_node h h' zsl M B B' N C n D i Hre HndM EM Hi'); [|by apply Hl].
    specialize (HhM n HnM). lia.
  - destruct (zr_info _ _ _ Hr) as [s Hs]. exists s. by rewrite Hih.
  - intros i Hi. apply Hhd. lia.
  - intros i Hi. destruct (decide (i < N)%nat) as [HiN|HiN].
    + exists (zlen (M ++ B')). rewrite Hhd by done. f_equal. apply lv_short. apply Hun. lia.
    + destruct (zr_unused _ _ _ Hr i) as [sp Hsp]; [lia|]. exists sp. rewrite Hre by by left.
      rewrite bool_decide_eq_false_2 by lia. done.
Qed.

(** ** The order of the keys *)

Lemma cmp_bytes_range a b : cmp_bytes a b = -1 \/ cmp_bytes a b = 0 \/ cmp_bytes a b = 1.
Proof. revert b. induction a as [|x a IH]; intros [|y b]; simpl; auto. repeat case_match; auto. Qed.

Lemma cmp_bytes_eq a b : cmp_bytes a b = 0 <-> a = b.
Proof.
  revert b. induction a as [|x a IH]; intros [|y b]; simpl; try done.
  destruct (Z.ltb_spec x y); [split; [lia|intros E; injection E as -> _; lia]|].
  destruct (Z.ltb_spec y x); [split; [lia|intros E; injection E as -> _; lia]|].
  rewrite IH. assert (x = y) as -> by lia. split; [by intros ->|by intros [= ->]].
Qed.

Lemma cmp_bytes_sym a b : cmp_bytes b a = - cmp_bytes a b.
Proof.
  revert b. induction a as [|x a IH]; intros [|y b]; simpl; try done.
  destruct (Z.ltb_spec x y), (Z.ltb_spec y x); try lia. apply IH.
Qed.

Lemma cmp_bytes_trans a b c : cmp_bytes a b < 0 -> cmp_bytes b c < 0 -> cmp_bytes a c < 0.
Proof.
  revert b c. induction a as [|x a IH]; intros [|y b] [|z c]; simpl; try lia.
  destruct (Z.ltb_spec x y), (Z.ltb_spec y x), (Z.ltb_spec y z), (Z.ltb_spec z y), (Z.ltb_spec x z), (Z.ltb_spec z x);
    try lia. apply IH.
Qed.

Context {SL : ScoreLaws S}.
#[local] Set Default Proof Using "Type*".

Lemma key_lt_trans a b c : key_lt a b = true -> key_lt b c = true -> key_lt a c = true.
Proof using SL.
  unfold key_lt. rewrite !orb_true_iff, !andb_true_iff, !Z.ltb_lt.
  intros [H1|[E1 C1]] [H2|[E2 C2]].
  - left. by eapply slt_trans.
  - left. by rewrite <- (slt_seq_r _ _ _ E2).
  - left. by rewrite (slt_seq_l _ _ _ E1).
  - right. split; [by eapply seq_trans|by eapply cmp_bytes_trans].
Qed.

Lemma key_lt_irrefl a : key_lt a a = false.
Proof using SL.
  unfold key_lt. apply orb_false_iff. split.
  - destruct (slt a.1 a.1) eqn:E; [|done]. pose proof (slt_not_seq _ _ E) as F. by rewrite seq_refl in F.
  - rewrite (proj2 (cmp_bytes_eq a.2 a.2)) by done. by rewrite andb_false_r.
Qed.

Lemma key_lt_asym a b : key_lt a b = true -> key_lt b a = false.
Proof using SL.
  intros E. destruct (key_lt b a) eqn:F; [|done]. pose proof (key_lt_trans _ _ _ E F) as G.
  by rewrite key_lt_irrefl in G.
Qed.

Lemma key_lt_total a b : key_lt a b = true \/ key_lt b a = true \/ seqb a.1 b.1 = true /\ a.2 = b.2.
Proof using SL.
  unfold key_lt. destruct (slt_total a.1 b.1) as [->|[E| ->]]; [by left| |right; by left].
  rewrite (seq_sym b.1 a.1), E. pose proof (cmp_bytes_sym a.2 b.2).
  destruct (cmp_bytes_range a.2 b.2) as [C|[C|C]].
  - left. rewrite C. by rewrite orb_true_r.
  - right. right. split; [done|]. by apply cmp_bytes_eq.
  - right. left. rewrite (cmp_bytes_sym a.2 b.2), C. by rewrite orb_true_r.
Qed.

Definition sorted_keys (L : list entry) : Prop :=
  forall i j a b, (i < j)%nat -> L !! i = Some a -> L !! j = Some b -> key_lt (key a) (key b) = true.

Lemma sorted_keys_cons n L :
  sorted_keys (n :: L) <-> Forall (fun m => key_lt (key n) (key m) = true) L /\ sorted_keys L.
Proof.
  split.
  - intros Hs. split.
    + apply Forall_lookup. intros j m Hm. by apply (Hs 0%nat (Datatypes.S j)); [lia|..].
    + intros i j a b Hij Ha Hb. by apply (Hs (Datatypes.S i) (Datatypes.S j)); [lia|..].
  - intros [Hf Hs] [|i] [|j] a b Hij Ha Hb; try lia.
    + injection Ha as <-. simpl in Hb. by apply (Forall_lookup_1 _ _ _ _ Hf Hb).
    + apply (Hs i j); [lia|done..].
Qed.

Lemma sorted_keys_app A B :
  sorted_keys (A ++ B) <-> sorted_keys A /\ sorted_keys B /\
    Forall (fun a => Forall (fun b => key_lt (key a) (key b) = true) B) A.
Proof.
  induction A as [|a A IH]; [simpl; split; [intros; split_and!; [by intros i|done|constructor]|tauto]|].
  simpl app. rewrite !sorted_keys_cons, IH, Forall_app, Forall_cons. tauto.
Qed.

(** A property of the entries that holds on a prefix splits the list. *)
Lemma split_at (P : entry -> bool) L :
  (forall i j a b, (i < j)%nat -> L !! i = Some a -> L !! j = Some b -> P b = true -> P a = true) ->
  exists M B, L = M ++ B /\ Forall (fun n => P n = true) M /\ Forall (fun n => P n = false) B.
Proof.
  induction L as [|n L IH]; intros Hd; [by exists [], []|].
  destruct (P n) eqn:En.
  - destruct IH as (M & B & -> & HM & HB).
    { intros i j a b Hij Ha Hb. by apply (Hd (Datatypes.S i) (Datatypes.S j)); [lia|..]. }
    exists (n :: M), B. split_and!; [done|by constructor|done].
  - exists [], (n :: L). split_and!; [done|constructor|]. constructor; [done|].
    apply Forall_lookup. intros j m Hm. destruct (P m) eqn:Em; [|done].
    rewrite (Hd 0%nat (Datatypes.S j) n m) in En; try done. lia.
Qed.

Lemma split_key L k :
  sorted_keys L -> exists M B, L = M ++ B /\ Forall (fun n => key_lt (key n) k = true) M /\
    Forall (fun n => key_lt (key n) k = false) B.
Proof using SL.
  intros Hs. apply split_at. intros i j a b Hij Ha Hb Hk. apply (key_lt_trans _ (key b)); [|done]. by eapply Hs.
Qed.

Lemma separates_fn (f : option (list Z) -> S -> bool) M B :
  Forall (fun n => f (Some (n_ele n)) (n_score n) = true) M -> Forall (fun n => f (Some (n_ele n)) (n_score n) = false) B ->
  separates (fun e s _ => f e s) M B.
Proof.
  rewrite !Forall_forall. intros HM HB. split; intros C n D ->; [apply HM|apply HB]; rewrite elem_of_app, elem_of_cons; auto.
Qed.

(** ** [zslInsert] *)

Lemma random_loop_pos rnd l0 l : random_loop rnd l0 = Some l -> (l0 <= l)%nat.
Proof.
  revert l0. induction rnd as [|r rnd IH]; intros l0; [done|]. simpl. case_match; [|by intros [= ->]].
  intros Hl%IH. lia.
Qed.

Lemma zslRandomLevel_range rnd lvl : zslRandomLevel rnd = Some lvl -> (1 <= lvl <= ZSKIPLIST_MAXLEVEL)%nat.
Proof.
  unfold zslRandomLevel. destruct (random_loop rnd 1) as [l|] eqn:E; [|done]. simpl. intros [= <-].
  apply random_loop_pos in E. destruct (Nat.ltb_spec l ZSKIPLIST_MAXLEVEL); unfold ZSKIPLIST_MAXLEVEL in *; lia.
Qed.

(** The header gets the levels it lacks. *)
Lemma grow_header h zsl L lvl :
  zsl_rep h zsl L -> (1 <= lvl <= ZSKIPLIST_MAXLEVEL)%nat ->
  let N := Nat.max (zsl_level zsl) lvl in
  exists h1, (if (zsl_level zsl <? lvl)%nat
       then grow_loop h (header zsl) (zsl_length zsl) (zsl_level zsl) (lvl - zsl_level zsl) else Some h) = Some h1 /\
    (forall p, info h1 p = info h p) /\
    (forall p k, p <> header zsl \/ (k < zsl_level zsl)%nat \/ (N <= k)%nat -> get_level h1 p k = get_level h p k) /\
    (forall k, (k < N)%nat -> get_level h1 (header zsl) k = Some (lv L k)).
Proof.
  intros Hr Hlvl N. pose proof (zsl_level_pos _ _ _ Hr) as Hlev. destruct (zr_info _ _ _ Hr) as [s0 Hinfo].
  destruct (Nat.ltb_spec (zsl_level zsl) lvl) as [Hg|Hg].
  - destruct (grow_loop_spec h (header zsl) (zsl_length zsl) (zsl_level zsl) (lvl - zsl_level zsl)) as (h1 & -> & I1 & G1).
    { intros j Hj. rewrite <- get_level_info by done. lia. }
    exists h1. split_and!; try done.
    + intros p k Hpk. rewrite G1. rewrite bool_decide_eq_false_2; [done|]. unfold N in *. intros [-> ?]. lia.
    + intros k Hk. rewrite G1. destruct (decide (k < zsl_level zsl)%nat) as [Hk'|Hk'].
      * rewrite bool_decide_eq_false_2 by lia. by apply (zr_header _ _ _ Hr).
      * rewrite bool_decide_eq_true_2 by (unfold N in *; split; [done|lia]).
        destruct (zr_unused _ _ _ Hr k) as [sp ->]; [unfold N in *; lia|]. simpl.
        rewrite lv_short; [by rewrite (zr_length _ _ _ Hr)|].
        rewrite tall_max by lia. rewrite <- (zr_level _ _ _ Hr). apply Nat.ltb_ge. lia.
  - exists h. split_and!; try done. intros k Hk. apply (zr_header _ _ _ Hr). unfold N in *. lia.
Qed.

(** The two loops that link a new node [x] of height [lvl] after [M]. *)
Lemma link_bump_spec h x zsl M B s e lvl N :
  (lvl <= N)%nat -> zlen M + zlen B + 1 < 2 ^ 31 ->
  (forall k, (k < lvl)%nat -> is_Some (get_level h x k)) ->
  (forall k, (k < N)%nat -> cut_ptr zsl k M <> x /\
    get_level h (cut_ptr zsl k M) k = Some (mk_level (forward (lv B k)) (gap k M + span (lv B k)))) ->
  exists h3 h4, link_loop h x (zlen M) 0 (take lvl (update_of zsl M N)) = Some h3 /\
    bump_loop h3 lvl (drop lvl (update_of zsl M N)) = Some h4 /\ (forall p, info h4 p = info h p) /\
    (forall k, (k < lvl)%nat -> get_level h4 x k = Some (lv B k)) /\
    forall p k, p <> x -> get_level h4 p k = if bool_decide ((k < N)%nat /\ p = cut_ptr zsl k M)
      then Some (mk_level (forward (lv (mk_entry x s e lvl :: B) k)) (gap k M + span (lv (mk_entry x s e lvl :: B) k)))
      else get_level h p k.
Proof.
  intros HlN Hfit Hx Hstop. set (up := update_of zsl M N).
  assert (forall k, (k < N)%nat -> up !! k = Some (cut_ptr zsl k M, zlen (cut k M))) as Hul
    by (intros k Hk; by apply update_of_lookup).
  assert (forall k, (N <= k)%nat -> up !! k = None) as Hun
    by (intros k Hk; apply lookup_ge_None_2; unfold up, update_of; by rewrite length_fmap, length_seq).
  pose proof (zlen_nonneg M). pose proof (zlen_nonneg B).
  destruct (link_loop_spec h x (zlen M) 0 (take lvl up)) as (h3 & Eh3 & I3 & G3).
  { intros j u r Hj. apply lookup_take_Some in Hj as [Hj Hjl]. rewrite Hul in Hj by lia. injection Hj as <- <-.
    destruct (Hstop j ltac:(lia)) as [Hc Eg]. split; [done|]. simpl. rewrite Eg. by eexists. }
  { intros j Hj. rewrite length_take in Hj. simpl. apply Hx. lia. }
  assert (forall p k, (lvl <= k)%nat -> get_level h3 p k = get_level h p k) as Hhigh.
  { intros p k Hk. rewrite G3. simpl. by rewrite Nat.sub_0_r, lookup_take_ge by lia. }
  destruct (bump_loop_spec h3 lvl (drop lvl up)) as (h4 & Eh4 & I4 & G4).
  { intros j u r Hj. rewrite lookup_drop in Hj. destruct (decide (lvl + j < N)%nat) as [HjN|HjN].
    - rewrite Hul in Hj by done. injection Hj as <- <-. rewrite Hhigh by lia. destruct (Hstop (lvl + j)%nat HjN) as [_ ->]. by eexists.
    - by rewrite Hun in Hj by lia. }
  assert (forall p k, (k < lvl)%nat -> get_level h4 p k = get_level h3 p k) as Hlow
    by (intros p k Hk; by rewrite G4, (proj2 (Nat.leb_gt lvl k)) by lia).
  exists h3, h4. split_and!; try done; [intros p; by rewrite I4, I3|..].
  - intros k Hk. rewrite Hlow by done. rewrite G3. simpl.
    rewrite Nat.sub_0_r, lookup_take_lt, Hul, bool_decide_eq_true_2 by (done || lia).
    destruct (Hstop k ltac:(lia)) as [_ ->]. simpl. f_equal. fold (gap k M).
    pose proof (lv_span_bound B k) as Hsb. pose proof (gap_bound k M).
    rewrite (uwrap_small 32) by (unfold in_u; lia).
    replace (gap k M + span (lv B k) - gap k M) with (span (lv B k)) by lia.
    rewrite uwrap_small by (unfold in_u; lia). by destruct (lv B k).
  - intros p k Hpx. pose proof (lv_span_bound B k) as Hsb. pose proof (gap_bound k M) as Hgap.
    cbn [lv hgt]. destruct (Nat.ltb_spec k lvl) as [Hkl|Hkl].
    + rewrite Hlow by done. rewrite G3. simpl. rewrite Nat.sub_0_r, lookup_take_lt, Hul by lia.
      rewrite (bool_decide_eq_false_2 (p = x)) by done. destruct (decide (p = cut_ptr zsl k M)) as [->|Hpc].
      * rewrite !bool_decide_eq_true_2 by (done || (split; [lia|done])). simpl. f_equal. f_equal. fold (gap k M).
        rewrite (uwrap_small 32 (gap k M)) by (unfold in_u; lia). apply uwrap_small. unfold in_u. lia.
      * by rewrite !bool_decide_eq_false_2 by naive_solver.
    + rewrite G4, (proj2 (Nat.leb_le lvl k)) by lia. rewrite lookup_drop. replace (lvl + (k - lvl))%nat with k by lia.
      rewrite !Hhigh by lia. destruct (decide (k < N)%nat) as [HkN|HkN].
      * rewrite Hul by done. destruct (decide (p = cut_ptr zsl k M)) as [->|Hpc].
        -- rewrite !bool_decide_eq_true_2 by (done || (split; [lia|done])). rewrite Hhigh by lia.
           destruct (Hstop k HkN) as [_ ->]. simpl. f_equal. f_equal. rewrite uwrap_small by (unfold in_u; lia). lia.
        -- by rewrite !bool_decide_eq_false_2 by naive_solver.
      * rewrite Hun by lia. by rewrite bool_decide_eq_false_2 by lia.
Qed.

(** The heap after all the loops of an insertion. *)
Lemma insert_links h zsl M B s e lvl :
  zsl_rep h zsl (M ++ B) -> (1 <= lvl <= ZSKIPLIST_MAXLEVEL)%nat -> zlen (M ++ B) + 1 < 2 ^ 31 ->
  exists h1 h2 h3 h4 x,
    (if (zsl_level zsl <? lvl)%nat
     then grow_loop h (header zsl) (zsl_length zsl) (zsl_level zsl) (lvl - zsl_level zsl) else Some h) = Some h1 /\
    zslCreateNode h1 lvl s (Some e) = (h2, x) /\
    link_loop h2 x (zlen M) 0 (take lvl (update_of zsl M (Nat.max (zsl_level zsl) lvl))) = Some h3 /\
    bump_loop h3 lvl (drop lvl (update_of zsl M (Nat.max (zsl_level zsl) lvl))) = Some h4 /\
    h !! x = None /\ info h4 x = Some (Some e, s, None, lvl) /\
    (forall p, p <> x -> info h4 p = info h p) /\
    (forall k, (k < lvl)%nat -> get_level h4 x k = Some (lv B k)) /\
    (forall p, p <> x -> p <> header zsl -> p ∉ n_ptr <$> M -> forall k, get_level h4 p k = get_level h p k) /\
    redirected h h4 zsl M (mk_entry x s e lvl :: B) (Nat.max (zsl_level zsl) lvl).
Proof using SL.
  intros Hr Hlvl Hfit. set (N := Nat.max (zsl_level zsl) lvl).
  destruct (zr_info _ _ _ Hr) as [s0 Hinfo]. pose proof (zsl_level_pos _ _ _ Hr) as Hlev.
  destruct (grow_header h zsl (M ++ B) lvl Hr Hlvl) as (h1 & -> & I1 & G1 & GH1). fold N in G1, GH1.
  destruct (zslCreateNode h1 lvl s (Some e)) as [h2 x] eqn:Ec.
  destruct (zslCreateNode_spec _ _ _ _ _ _ Ec) as (Hx1 & Ix & Gx & Hoth).
  assert (forall p, info h p <> None -> p <> x) as Hne
    by (intros p Hp ->; apply Hp; rewrite <- I1; unfold info; by rewrite Hx1).
  assert (h !! x = None) as Hx by (specialize (I1 x); unfold info in I1; rewrite Hx1 in I1; by destruct (h !! x)).
  assert (header zsl <> x) as Hhx by (apply Hne; by rewrite Hinfo).
  assert (forall n, n ∈ M ++ B -> n_ptr n <> x) as HnX.
  { intros n Hn. apply Hne. apply list_elem_of_split in Hn as (C & D & E).
    destruct (node_at _ _ _ C n D Hr E) as [-> _]. done. }
  assert (forall p k, p <> x -> get_level h2 p k = get_level h1 p k) as G2
    by (intros p k Hp; unfold get_level; by rewrite Hoth).
  rewrite zlen_app in Hfit. destruct (link_bump_spec h2 x zsl M B s e lvl N) as (h3 & h4 & E3 & E4 & I4 & Gx4 & G4); [lia|done| | |].
  { intros k Hk. rewrite Gx by done. by eexists. }
  { intros k Hk. assert (cut_ptr zsl k M <> x) as Hcx.
    { destruct (cut_ptr_cases zsl k M) as [[_ ->]|(C & n & D & EM & _ & -> & _)]; [done|].
      apply HnX. rewrite EM. set_solver. }
    split; [done|]. rewrite G2 by done. apply stop_level; [|intros _; by apply GH1].
    apply (nodes_ok_frame h h1); [|apply (zr_nodes _ _ _ Hr)]. intros n Hn. split; [done|]. intros j Hj.
    apply G1. right. left. pose proof (hgt_at _ _ _ _ Hr Hn). lia. }
  exists h1, h2, h3, h4, x. split_and!; try done.
  - by rewrite I4.
  - intros p Hp. rewrite I4, <- I1. unfold info. by rewrite Hoth.
  - intros p Hp Hph HpM k. rewrite G4 by done.
    rewrite bool_decide_eq_false_2 by (intros [_ E]; symmetry in E; by apply (stop_not_in zsl M k p) in E).
    rewrite G2 by done. apply G1. by left.
  - intros p k HpM. assert (p <> x) as Hpx.
    { destruct HpM as [->|(n & -> & Hn)%list_elem_of_fmap]; [done|]. apply HnX. set_solver. }
    rewrite G4 by done. case_bool_decide as Hcase; [done|]. rewrite G2 by done. apply G1.
    destruct (decide (p = header zsl)) as [->|]; [right|by left].
    (* at the new levels the search stops at the header *)
    destruct (decide (k < zsl_level zsl)%nat) as [|Hk]; [by left|right].
    destruct (decide (k < N)%nat) as [HkN|]; [|lia]. exfalso. apply Hcase. split; [done|].
    pose proof (tall_max k (M ++ B) ltac:(lia)) as Hm. rewrite <- (zr_level _ _ _ Hr), (proj2 (Nat.ltb_ge _ _)), tall_app in Hm by lia.
    apply orb_false_iff in Hm as [Ht _]. unfold cut_ptr. by rewrite cut_nil.
Qed.

Lemma lv_first h zsl L M B :
  zsl_rep h zsl L -> L = M ++ B -> forward (lv B 0) = n_ptr <$> head B.
Proof.
  intros Hr EL. destruct B as [|b B]; [done|]. pose proof (hgt_at _ _ _ b Hr ltac:(rewrite EL; set_solver)).
  simpl. by rewrite (proj2 (Nat.ltb_lt 0 (hgt b))) by lia.
Qed.

Lemma stop_backward zsl M :
  NoDup (header zsl :: (n_ptr <$> M)) ->
  (if bool_decide (match last_ptr M with Some p => p | None => header zsl end = header zsl) then None
   else Some (match last_ptr M with Some p => p | None => header zsl end)) = last_ptr M.
Proof.
  intros [Hnd _]%NoDup_cons. unfold last_ptr. destruct (last M) as [n|] eqn:Hl; simpl.
  - rewrite bool_decide_eq_false_2; [done|]. intros E. apply Hnd. rewrite <- E.
    apply last_Some_elem_of in Hl. apply list_elem_of_fmap. eauto.
  - by rewrite bool_decide_eq_true_2.
Qed.

Lemma nodes_ok_info h prev L n :
  nodes_ok h prev L -> n ∈ L -> exists b, info h (n_ptr n) = Some (Some (n_ele n), n_score n, b, hgt n).
Proof.
  revert prev. induction L as [|m L IH]; intros prev; [by intros _ ?%elem_of_nil|].
  intros [[Hi _] HL] [->|Hn]%elem_of_cons; [eauto|by eapply IH].
Qed.

(** The entries after the point, once the back pointer of the first one is
    redirected. *)
Lemma nodes_ok_back h h' prev prev' B :
  nodes_ok h prev B ->
  (forall n k, n ∈ B -> get_level h' (n_ptr n) k = get_level h (n_ptr n) k) ->
  (forall n, n ∈ List.tl B -> info h' (n_ptr n) = info h (n_ptr n)) ->
  (forall b e s b0 m, head B = Some b -> info h (n_ptr b) = Some (e, s, b0, m) -> info h' (n_ptr b) = Some (e, s, prev', m)) ->
  nodes_ok h' prev' B.
Proof.
  intros HB Hl Ht Hb. destruct B as [|b B]; [done|]. destruct HB as [[Hi Hlv] HB]. split.
  - split; [by eapply (Hb b)|]. intros i Hi'. rewrite Hl by set_solver. by apply Hlv.
  - apply (nodes_ok_frame h h'); [|done]. intros n Hn. split; [by apply Ht|]. intros k _. apply Hl. set_solver.
Qed.

Lemma splice_sorted M B n :
  sorted_keys (M ++ B) -> Forall (fun m => key_lt (key m) (key n) = true) M ->
  Forall (fun m => key_lt (key n) (key m) = true) B -> sorted_keys (M ++ n :: B).
Proof.
  rewrite !sorted_keys_app, sorted_keys_cons. intros (HM & HB & HMB) HMn HnB. split_and!; try done.
  rewrite Forall_forall in *. intros a Ha. constructor; [by apply HMn|]. by apply HMB.
Qed.

Lemma update_head zsl M n :
  (1 <= n)%nat -> cut 0 M = M ->
  update_of zsl M n !! 0%nat = Some (match last_ptr M with Some p => p | None => header zsl end, zlen M).
Proof. intros Hn E. rewrite update_of_lookup by lia. unfold cut_ptr. by rewrite E. Qed.

(** Redirecting the back pointer of the node after the point, if any. *)
Lemma set_next_back h B b :
  (forall n, head B = Some n -> exists e s b0 m, info h (n_ptr n) = Some (e, s, b0, m)) ->
  exists h', match n_ptr <$> head B with Some f => set_backward h f b = Some h' | None => h' = h end /\
    (forall p k, get_level h' p k = get_level h p k) /\
    (forall p, n_ptr <$> head B <> Some p -> info h' p = info h p) /\
    (forall n e s b0 m, head B = Some n -> info h (n_ptr n) = Some (e, s, b0, m) -> info h' (n_ptr n) = Some (e, s, b, m)).
Proof.
  intros Hi. destruct B as [|n B]; simpl; [by exists h|].
  destruct (Hi n eq_refl) as (e & s & b0 & m & Hn). destruct (set_backward_spec h (n_ptr n) b _ _ _ _ Hn) as (h' & E & G & I).
  exists h'. split_and!; try done.
  - intros p Hp. rewrite I. by rewrite bool_decide_eq_false_2 by congruence.
  - intros n' e' s' b' m' [= <-] Hn'. rewrite I, bool_decide_eq_true_2 by done. by simplify_eq.
Qed.

Lemma rep_distinct h zsl M B :
  zsl_rep h zsl (M ++ B) ->
  NoDup (header zsl :: (n_ptr <$> M)) /\ NoDup (n_ptr <$> B) /\ (header zsl ∉ n_ptr <$> B) /\
  (forall n, n ∈ M -> n_ptr n ∉ n_ptr <$> B) /\
  (forall p, n_ptr <$> head B = Some p -> p ∈ n_ptr <$> B) /\
  (forall n, n ∈ List.tl B -> n_ptr <$> head B <> Some (n_ptr n)).
Proof.
  intros Hr. pose proof (zr_nodup _ _ _ Hr) as Hnd. rewrite fmap_app in Hnd.
  apply NoDup_cons in Hnd as [H1 H2]. apply NoDup_app in H2 as (H2 & H3 & H4).
  split_and!; try done.
  - apply NoDup_cons. split; [set_solver|done].
  - set_solver.
  - intros n Hn. apply H3. by apply list_elem_of_fmap_2.
  - intros p Hp. destruct B as [|b B]; [done|]. simpl in Hp. injection Hp as <-. set_solver.
  - intros n Hn E. destruct B as [|b B]; [done|]. simpl in E, Hn. injection E as E.
    rewrite fmap_cons in H4. apply NoDup_cons in H4 as [H4 _]. apply H4. rewrite E. by apply list_elem_of_fmap_2.
Qed.

Lemma last_ptr_insert M B n : B <> [] -> last_ptr (M ++ n :: B) = last_ptr (M ++ B).
Proof.
  intros HB. unfold last_ptr. rewrite !last_app, last_cons. destruct (last B) eqn:E; [done|]. by apply last_None in E.
Qed.

Lemma key_separates M B s e :
  Forall (fun n => key_lt (key n) (s, e) = true) M -> Forall (fun n => key_lt (key n) (s, e) = false) B ->
  separates (fun e' s' _ => slt s' s || (seqb s' s && match e' with Some e' => cmp_bytes e' e <? 0 | None => false end)) M B.
Proof.
  apply (separates_fn (fun e' s' => slt s' s || (seqb s' s && match e' with Some e' => cmp_bytes e' e <? 0 | None => false end))).
Qed.

Lemma not_before s e B :
  Forall (fun n => key_lt (s, e) (key n) = true) B -> Forall (fun n => key_lt (key n) (s, e) = false) B.
Proof. intros HB. eapply Forall_impl; [exact HB|]. intros n Hn. by apply (key_lt_asym (s, e) (key n)). Qed.

Lemma zslInsert_rep rnd h zsl M B s e lvl :
  zsl_rep h zsl (M ++ B) -> zlen (M ++ B) + 1 < 2 ^ 31 -> zslRandomLevel rnd = Some lvl ->
  Forall (fun n => key_lt (key n) (s, e) = true) M -> Forall (fun n => key_lt (s, e) (key n) = true) B ->
  exists h' zsl' x, zslInsert rnd h zsl s e = Some (h', zsl', x) /\ h !! x = None /\ header zsl' = header zsl /\
    zsl_rep h' zsl' (M ++ mk_entry x s e lvl :: B).
Proof.
  intros Hr Hfit Hrnd HM HB. pose proof (zslRandomLevel_range _ _ Hrnd) as Hlvl.
  pose proof (zsl_level_pos _ _ _ Hr) as Hlev. destruct (rep_distinct h zsl M B Hr) as (HndM & HndB & HhB & HMB & Hhead & Htl).
  unfold zslInsert, key_before.
  rewrite (descend_all h zsl _ 32 _ M B Hr eq_refl ltac:(lia) (key_separates M B s e HM (not_before s e B HB))).
  cbn [mbind option_bind]. rewrite Hrnd. cbn [mbind option_bind].
  destruct (insert_links h zsl M B s e lvl Hr Hlvl Hfit) as (h1 & h2 & h3 & h4 & x & -> & Ec & E3 & E4 & Hx & Ix & Io & Gx & Go & Hre).
  cbn [mbind option_bind]. rewrite Ec.
  rewrite update_extend; [|rewrite (zr_level _ _ _ Hr), max_hgt_app; lia|lia].
  set (N := Nat.max (zsl_level zsl) lvl) in *. rewrite update_head by (lia || by apply (cut_0 _ _ _ _ B Hr)).
  cbn [mbind option_bind]. rewrite E3. cbn [mbind option_bind]. rewrite E4. cbn [mbind option_bind].
  rewrite stop_backward by done.
  destruct (set_backward_spec h4 x (last_ptr M) _ _ _ _ Ix) as (h5 & -> & G5 & I5). cbn [mbind option_bind].
  rewrite G5, Gx by lia. cbn [mbind option_bind]. rewrite (lv_first _ _ _ M B Hr eq_refl).
  assert (forall n, n ∈ M ++ B -> n_ptr n <> x /\ exists b, info h (n_ptr n) = Some (Some (n_ele n), n_score n, b, hgt n)) as HnX.
  { intros n Hn. destruct (nodes_ok_info _ _ _ n (zr_nodes _ _ _ Hr) Hn) as (b & Hb). split; [|eauto].
    intros E. rewrite E in Hb. unfold info in Hb. by rewrite Hx in Hb. }
  assert (header zsl <> x) as Hhx.
  { intros E. destruct (zr_info _ _ _ Hr) as [s0 Hi]. rewrite E in Hi. unfold info in Hi. by rewrite Hx in Hi. }
  assert (forall p, p <> x -> info h5 p = info h p) as I5o by (intros p Hp; rewrite I5, bool_decide_eq_false_2 by done; by apply Io).
  destruct (set_next_back h5 B (Some x)) as (h6 & E6 & G6 & I6 & I6b).
  { intros n Hn. destruct (HnX n) as [Hnx (b & Hb)]; [destruct B; set_solver|]. rewrite I5o by done. eauto. }
  set (new := mk_entry x s e lvl) in *.
  assert (uwrap 64 (zsl_length zsl + 1) = zlen (M ++ new :: B)) as ->.
  { rewrite (zr_length _ _ _ Hr). rewrite !zlen_app, zlen_cons in *. pose proof (zlen_nonneg M). pose proof (zlen_nonneg B).
    rewrite uwrap_small by (unfold in_u; lia). lia. }
  exists h6, (mk_zsl (header zsl) (last_ptr (M ++ new :: B)) (zlen (M ++ new :: B)) N), x.
  split; [|split; [done|split; [done|]]].
  { destruct B as [|b B]; simpl in E6 |- *; [subst h6; unfold last_ptr; by rewrite last_snoc|].
    rewrite E6. simpl. by rewrite (zr_tail _ _ _ Hr), (last_ptr_insert M (b :: B) new). }
  apply (splice_rep h h6 zsl _ M B (new :: B) N Hr); try done.
  - intros p k Hp. rewrite G6, G5. by apply Hre.
  - intros n Hn. rewrite I6 by (intros Hc; by apply (HMB n Hn), Hhead). apply I5o, HnX. set_solver.
  - rewrite I6 by (intros Hc; by apply HhB, Hhead). by apply I5o.
  - cbn [nodes_ok]. split; [split; [|intros i Hi; rewrite G6, G5; by apply Gx]|].
    { rewrite I6; [by rewrite I5, bool_decide_eq_true_2|]. intros Hc. apply Hhead, list_elem_of_fmap in Hc as (n & E & Hn).
      apply (HnX n); [set_solver|done]. }
    apply (nodes_ok_back h h6 (last_ptr M)).
    + pose proof (zr_nodes _ _ _ Hr) as Hn. apply nodes_ok_app in Hn as [_ Hn]. by destruct (last_ptr M).
    + intros n k Hn. rewrite G6, G5. apply Go; [apply HnX; set_solver|set_solver|].
      intros (m & E & Hm)%list_elem_of_fmap. apply (HMB m Hm). rewrite <- E. by apply list_elem_of_fmap_2.
    + intros n Hn. rewrite I6 by by apply Htl. apply I5o, HnX. destruct B; set_solver.
    + intros b e' s' b0 m Hb Hi. eapply I6b; [done|]. rewrite I5o; [done|]. apply HnX. destruct B; set_solver.
  - rewrite fmap_app, fmap_cons. change (n_ptr new) with x.
    assert (x ∉ n_ptr <$> M ++ B) as HxL by (intros (n & E & Hn)%list_elem_of_fmap; by apply (HnX n Hn)).
    rewrite fmap_app in HxL. apply NoDup_cons in HndM as [H1 H2].
    apply NoDup_cons. split; [set_solver|]. apply NoDup_app. split_and!; [done| |apply NoDup_cons; set_solver].
    intros p (n & -> & Hn)%list_elem_of_fmap. specialize (HMB n Hn). set_solver.
  - constructor; [done|]. pose proof (zr_hgt _ _ _ Hr) as Hh. by apply Forall_app in Hh as [_ ?].
  - unfold N. lia.
  - simpl. unfold N. rewrite (zr_level _ _ _ Hr), !max_hgt_app. simpl. lia.
  - simpl. lia.
  - rewrite !zlen_app, zlen_cons in *. lia.
  - apply splice_sorted; [exact (zr_sorted _ _ _ Hr)|done|done].
Qed.

(** ** Deletion *)

Lemma unlink_loop_spec h x i update :
  (forall j u, update !! j = Some u -> u <> x /\ exists l, get_level h u (i + j) = Some l /\
    (forward l = Some x -> is_Some (get_level h x (i + j)))) ->
  exists h', unlink_loop h x i update = Some h' /\ (forall p, info h' p = info h p) /\
    forall p k, get_level h' p k =
      match (if (i <=? k)%nat then update !! (k - i)%nat else None) with
      | Some u => if bool_decide (p = u) then
          l ← get_level h u k;
          if bool_decide (forward l = Some x)
          then (fun lx => mk_level (forward lx) (uwrap 64 (span l + (span lx - 1)))) <$> get_level h x k
          else Some (mk_level (forward l) (uwrap 64 (span l - 1)))
        else get_level h p k
      | None => get_level h p k
      end.
Proof.
  revert h i. induction update as [|u update IH]; intros h i Hu.
  { exists h. split; [done|]. split; [done|]. intros p k. by destruct (i <=? k)%nat. }
  cbn [unlink_loop]. destruct (Hu 0%nat u eq_refl) as (Hux & l & El & Hfx). rewrite Nat.add_0_r in El, Hfx.
  rewrite El. cbn [mbind option_bind].
  set (new := if bool_decide (forward l = Some x)
          then (fun lx => mk_level (forward lx) (uwrap 64 (span l + (span lx - 1)))) <$> get_level h x i
          else Some (mk_level (forward l) (uwrap 64 (span l - 1)))).
  assert (exists l', new = Some l' /\
    (if bool_decide (forward l = Some x)
     then lx ← get_level h x i; set_level h u i (mk_level (forward lx) (uwrap 64 (span l + (span lx - 1))))
     else set_level h u i (mk_level (forward l) (uwrap 64 (span l - 1)))) = set_level h u i l') as (l' & Enew & ->).
  { unfold new. case_bool_decide as Hf; [|eauto]. destruct (Hfx Hf) as [lx ->]. simpl. eauto. }
  destruct (set_level_spec h u i l') as (h1 & -> & I1 & G1); [by rewrite El|]. cbn [mbind option_bind].
  assert (forall p k, k <> i -> get_level h1 p k = get_level h p k) as Hother.
  { intros p k Hk. rewrite G1. by rewrite bool_decide_eq_false_2 by naive_solver. }
  destruct (IH h1 (Datatypes.S i)) as (h3 & -> & I3 & G3).
  { intros j v Hj. rewrite !Hother by lia. replace (Datatypes.S i + j)%nat with (i + Datatypes.S j)%nat by lia.
    by apply (Hu (Datatypes.S j) v). }
  exists h3. split; [done|]. split; [intros p; by rewrite I3, I1|].
  intros p k. rewrite G3. destruct (decide (k = i)) as [->|Hk].
  - rewrite (proj2 (Nat.leb_gt (Datatypes.S i) i)), (proj2 (Nat.leb_le i i)), Nat.sub_diag by lia. simpl.
    rewrite G1, El. simpl. fold new. rewrite Enew. case_bool_decide; case_bool_decide; naive_solver.
  - destruct (Nat.leb_spec i k).
    + rewrite (proj2 (Nat.leb_le (Datatypes.S i) k)) by lia. replace (k - i)%nat with (Datatypes.S (k - Datatypes.S i)) by lia.
      cbn [lookup list_lookup]. destruct (update !! (k - Datatypes.S i)%nat) as [v|]; by rewrite !Hother by done.
    + rewrite (proj2 (Nat.leb_gt (Datatypes.S i) k)) by lia. by rewrite Hother.
Qed.

Lemma lv_forward_in T i p : forward (lv T i) = Some p -> p ∈ n_ptr <$> T.
Proof.
  induction T as [|n T IH]; [done|]. simpl. case_match; simpl; [intros [= <-]; set_solver|]. intros Hp%IH. set_solver.
Qed.

(** Unlinking the node [n] redirects every stop to what follows it. *)
Lemma unlink_redirects h zsl M n B :
  zsl_rep h zsl (M ++ n :: B) ->
  exists h', unlink_loop h (n_ptr n) 0 (take (zsl_level zsl) ((update_of zsl M (zsl_level zsl)).*1)) = Some h' /\
    (forall p, info h' p = info h p) /\ redirected h h' zsl M B (zsl_level zsl) /\
    (forall p k, p <> header zsl -> p ∉ n_ptr <$> M -> get_level h' p k = get_level h p k).
Proof.
  intros Hr. destruct (rep_distinct h zsl M (n :: B) Hr) as (HndM & HndB & HhB & HMB & _ & _).
  rewrite fmap_cons in *. apply NoDup_cons in HndB as [HnB _].
  set (N := zsl_level zsl). set (up := (update_of zsl M N).*1).
  assert (length up = N) as Hup by (unfold up, update_of; by rewrite !length_fmap, length_seq).
  assert (forall k, (k < N)%nat -> up !! k = Some (cut_ptr zsl k M)) as Hul
    by (intros k Hk; unfold up; rewrite list_lookup_fmap, update_of_lookup by done; done).
  assert (forall k, (k < N)%nat -> cut_ptr zsl k M <> n_ptr n) as Hcn.
  { intros k Hk. apply stop_not_in; [set_solver|]. intros (m & E & Hm)%list_elem_of_fmap.
    apply (HMB m Hm). rewrite <- E. set_solver. }
  assert (forall k, (k < N)%nat -> get_level h (cut_ptr zsl k M) k =
    Some (mk_level (forward (lv (n :: B) k)) (gap k M + span (lv (n :: B) k)))) as Hstop.
  { intros k Hk. apply stop_level; [apply (zr_nodes _ _ _ Hr)|]. intros _. by apply (zr_header _ _ _ Hr). }
  destruct (node_at _ _ _ M n B Hr eq_refl) as [_ Hlvn].
  rewrite take_ge by lia. destruct (unlink_loop_spec h (n_ptr n) 0 up) as (h' & -> & I & G).
  { intros j u Hj. assert (j < N)%nat as HjN by (rewrite <- Hup; by eapply lookup_lt_Some).
    rewrite Hul in Hj by done. injection Hj as <-. split; [by apply Hcn|]. eexists. split; [by apply Hstop|].
    simpl. destruct (Nat.ltb_spec j (hgt n)) as [Hjn|Hjn]; simpl; [intros _; rewrite Hlvn by done; by eexists|].
    intros Hf%lv_forward_in. done. }
  exists h'. split; [done|]. split; [done|].
  assert (zlen (M ++ n :: B) < 2 ^ 31) as Hfit by apply (zr_fits _ _ _ Hr). rewrite zlen_app, zlen_cons in Hfit.
  pose proof (zlen_nonneg M). pose proof (zlen_nonneg B). split.
  - intros p k Hp. rewrite G. simpl. rewrite Nat.sub_0_r. destruct (decide (k < N)%nat) as [HkN|HkN].
    + rewrite Hul by done. destruct (decide (p = cut_ptr zsl k M)) as [->|Hpc].
      * rewrite !bool_decide_eq_true_2 by done. rewrite Hstop by done. cbn [mbind option_bind forward span lv].
        pose proof (gap_bound k M). pose proof (lv_span_bound B k).
        destruct (Nat.ltb_spec k (hgt n)) as [Hkn|Hkn]; cbn [forward span].
        -- rewrite bool_decide_eq_true_2 by done. rewrite Hlvn by done. simpl. f_equal. f_equal.
           rewrite uwrap_small by (unfold in_u; lia). lia.
        -- rewrite bool_decide_eq_false_2 by (intros Hf%lv_forward_in; done). f_equal. f_equal.
           rewrite uwrap_small by (unfold in_u; lia). lia.
      * by rewrite !bool_decide_eq_false_2 by naive_solver.
    + rewrite lookup_ge_None_2 by lia. by rewrite bool_decide_eq_false_2 by lia.
  - intros p k Hph HpM. rewrite G. simpl. rewrite Nat.sub_0_r. destruct (up !! k) as [u|] eqn:Eu; [|done].
    assert (k < N)%nat by (rewrite <- Hup; by eapply lookup_lt_Some). rewrite Hul in Eu by done. injection Eu as <-.
    rewrite bool_decide_eq_false_2; [done|]. intros ->. by apply (stop_not_in zsl M k (cut_ptr zsl k M)).
Qed.

Lemma shrink_level_spec h hd L n :
  (forall k, (k < n)%nat -> get_level h hd k = Some (lv L k)) -> (max_hgt L <= n)%nat ->
  shrink_level h hd n = Some (max_hgt L).
Proof.
  intros Hl. assert (1 <= max_hgt L)%nat as H1 by (clear; induction L; simpl; lia).
  revert Hl. induction n as [|n IH]; intros Hl Hn; [lia|]. destruct n as [|n].
  { simpl. f_equal. lia. }
  assert (shrink_level h hd (Datatypes.S (Datatypes.S n)) = (l ← get_level h hd (Datatypes.S n);
    match forward l with None => shrink_level h hd (Datatypes.S n) | Some _ => Some (Datatypes.S (Datatypes.S n)) end)) as ->
    by reflexivity.
  rewrite Hl by lia. cbn [mbind option_bind].
  destruct (tall (Datatypes.S n) L) eqn:Ht.
  - destruct (tall_split _ _ Ht) as (C & m & D & EL & HC & Hm).
    assert (forward (lv L (Datatypes.S n)) = Some (n_ptr m)) as ->.
    { rewrite EL, (lv_app_short _ C (m :: D) HC). cbn [lv]. by rewrite (proj2 (Nat.ltb_lt _ _) Hm). }
    f_equal.
    rewrite tall_max in Ht by lia. apply Nat.ltb_lt in Ht. lia.
  - rewrite lv_short by done. cbn [forward]. apply IH; [intros k Hk; apply Hl; lia|].
    rewrite tall_max in Ht by lia. apply Nat.ltb_ge in Ht. done.
Qed.

Lemma last_ptr_remove M B n : last_ptr (M ++ B) = match B with [] => last_ptr M | _ => last_ptr (M ++ n :: B) end.
Proof.
  destruct B as [|b B]; [by rewrite app_nil_r|]. symmetry. by apply last_ptr_insert.
Qed.

Lemma sorted_remove M n B : sorted_keys (M ++ n :: B) -> sorted_keys (M ++ B).
Proof.
  rewrite !sorted_keys_app, sorted_keys_cons. intros (HM & [_ HB] & HMB). split_and!; try done.
  eapply Forall_impl; [exact HMB|]. intros a Ha. cbv beta in Ha. by apply Forall_cons in Ha as [_ ?].
Qed.

Lemma zslDeleteNode_rep h zsl M n B :
  zsl_rep h zsl (M ++ n :: B) ->
  exists h' zsl', zslDeleteNode h zsl (n_ptr n) ((update_of zsl M (zsl_level zsl)).*1) = Some (h', zsl') /\
    zsl_rep h' zsl' (M ++ B) /\ header zsl' = header zsl /\ info h' (n_ptr n) = info h (n_ptr n).
Proof.
  intros Hr. pose proof (zsl_level_pos _ _ _ Hr) as Hlev.
  destruct (rep_distinct h zsl M (n :: B) Hr) as (HndM & HndB & HhB & HMB & _ & _).
  rewrite fmap_cons in *. apply NoDup_cons in HndB as [HnB HndB].
  destruct (unlink_redirects h zsl M n B Hr) as (h1 & E1 & I1 & Hre & Go). unfold zslDeleteNode. rewrite E1. cbn [mbind option_bind].
  destruct (node_at _ _ _ M n B Hr eq_refl) as [Hin Hlvn].
  pose proof (hgt_at _ _ _ n Hr ltac:(set_solver)) as Hhn.
  assert (n_ptr n <> header zsl /\ n_ptr n ∉ n_ptr <$> M) as [Hnh HnM].
  { split; [set_solver|]. intros (m & E & Hm)%list_elem_of_fmap. apply (HMB m Hm). rewrite <- E. set_solver. }
  assert (exists nd, h1 !! n_ptr n = Some nd /\ backward nd = last_ptr M /\ level nd !! 0%nat = Some (lv B 0)) as (nd & End & Eb & El0).
  { specialize (I1 (n_ptr n)). rewrite Hin in I1. unfold info in I1. destruct (h1 !! n_ptr n) as [nd|] eqn:End; [|done].
    simpl in I1. exists nd. split; [done|]. split; [by simplify_eq|].
    specialize (Go (n_ptr n) 0%nat Hnh HnM). rewrite Hlvn in Go by lia. unfold get_level in Go. by rewrite End in Go. }
  rewrite End. cbn [mbind option_bind]. rewrite El0. cbn [mbind option_bind].
  assert (M ++ n :: B = (M ++ [n]) ++ B) as EL by by rewrite <- app_assoc.
  rewrite (lv_first _ _ _ (M ++ [n]) B Hr EL), Eb.
  assert (Forall (fun m => exists b, info h (n_ptr m) = Some (Some (n_ele m), n_score m, b, hgt m)) B) as HiB.
  { apply Forall_forall. intros m Hm. by apply (nodes_ok_info _ _ _ m (zr_nodes _ _ _ Hr)); set_solver. }
  rewrite Forall_forall in HiB.
  destruct (set_next_back h1 B (last_ptr M)) as (h2 & E2 & G2 & I2 & I2b).
  { intros m Hm. destruct (HiB m) as (b & Hb); [destruct B; set_solver|]. rewrite I1. eauto. }
  assert ((match n_ptr <$> head B with
    | Some f => h ← set_backward h1 f (last_ptr M); Some (h, tail zsl) | None => Some (h1, last_ptr M) end)
    = Some (h2, last_ptr (M ++ B))) as ->.
  { rewrite (last_ptr_remove M B n). destruct B as [|b B]; simpl in E2 |- *; [by subst h2|]. rewrite E2. simpl.
    by rewrite (zr_tail _ _ _ Hr). }
  cbn [mbind option_bind].
  assert (max_hgt (M ++ B) <= zsl_level zsl)%nat as Hmax.
  { rewrite (zr_level _ _ _ Hr), !max_hgt_app. simpl. lia. }
  assert (forall k, (k < zsl_level zsl)%nat -> get_level h2 (header zsl) k = Some (lv (M ++ B) k)) as Hhd2.
  { intros k Hk. rewrite G2. apply (redirect_header h h1 zsl M (n :: B) B (zsl_level zsl) k Hre HndM Hk).
    intros _. by apply (zr_header _ _ _ Hr). }
  rewrite (shrink_level_spec h2 (header zsl) (M ++ B) (zsl_level zsl) Hhd2 Hmax). cbn [mbind option_bind].
  assert (uwrap 64 (zsl_length zsl - 1) = zlen (M ++ B)) as ->.
  { pose proof (zr_fits _ _ _ Hr) as Hf. rewrite (zr_length _ _ _ Hr). rewrite !zlen_app, zlen_cons in *.
    pose proof (zlen_nonneg M). pose proof (zlen_nonneg B). rewrite uwrap_small by (unfold in_u; lia). lia. }
  do 2 eexists. split; [done|]. split; [|split; [done|]].
  2:{ rewrite I2, I1; [done|]. intros Hc. apply HnB. destruct B; [done|]. simpl in Hc. injection Hc as <-. set_solver. }
  assert (forall m, m ∈ M -> n_ptr <$> head B <> Some (n_ptr m)) as HMhead.
  { intros m Hm Hc. apply (HMB m Hm). destruct B; [done|]. simpl in Hc. injection Hc as <-. set_solver. }
  apply (splice_rep h h2 zsl _ M (n :: B) B (zsl_level zsl) Hr); try done.
  - intros p k Hp. rewrite G2. by apply Hre.
  - intros m Hm. by rewrite I2, I1 by by apply HMhead.
  - rewrite I2, I1; [done|]. intros Hc. apply HhB. destruct B; [done|]. simpl in Hc. injection Hc as <-. set_solver.
  - apply (nodes_ok_back h h2 (Some (n_ptr n))).
    + pose proof (zr_nodes _ _ _ Hr) as Hn. rewrite EL in Hn. apply nodes_ok_app in Hn as [_ Hn].
      unfold last_ptr in Hn. by rewrite last_snoc in Hn.
    + intros m k Hm. rewrite G2. apply Go; [set_solver|]. intros (a & E & Ha)%list_elem_of_fmap.
      apply (HMB a Ha). rewrite <- E. set_solver.
    + intros m Hm. rewrite I2, I1; [done|]. intros Hc. destruct B as [|b B]; [done|]. simpl in Hc, Hm. injection Hc as Hc.
      rewrite fmap_cons in HndB. apply NoDup_cons in HndB as [HbB _]. apply HbB. rewrite Hc. by apply list_elem_of_fmap_2.
    + intros b e s b0 m Hb Hi. eapply I2b; [done|]. by rewrite I1.
  - pose proof (zr_nodup _ _ _ Hr) as Hnd. rewrite fmap_app in *. rewrite fmap_cons in Hnd. apply NoDup_cons in Hnd as [Hd1 Hd2].
    apply NoDup_app in Hd2 as (Hd2 & Hd3 & Hd4). apply NoDup_cons in Hd4 as [_ Hd4]. apply NoDup_cons. split; [set_solver|].
    apply NoDup_app. split_and!; [done|set_solver|done].
  - pose proof (zr_hgt _ _ _ Hr) as Hh. apply Forall_app in Hh as [_ Hh]. by apply Forall_cons in Hh as [_ ?].
  - lia.
  - simpl. intros k Hk. rewrite tall_max; [apply Nat.ltb_ge; lia|]. assert (1 <= max_hgt (M ++ B))%nat; [|lia].
    clear. induction (M ++ B); simpl; lia.
  - pose proof (zr_fits _ _ _ Hr) as Hf. rewrite !zlen_app, zlen_cons in *. lia.
  - apply (sorted_remove M n B). exact (zr_sorted _ _ _ Hr).
Qed.
End Zsl.
