(* ===== verification/ZslOps.v ===== *)
(** * Skip lists: searches, ranks, ranges and range deletion

    The operations of [Zskiplist.v] as functions of the sorted list of
    entries that the skip list represents, and the claims about them. *)

From Stdlib Require Import Floats.SpecFloat.
From S2P Require Import Prelude Numstr Sds Zskiplist.
From stdpp Require Import options.

(** ** Doubles are scores

    Binary64 values other than NaN (which [zslInsert] asserts away) ordered
    by the IEEE comparison, under which -0 and +0 are equal. *)

Definition is_nan_f (f : spec_float) : bool := match f with S754_nan => true | _ => false end.
Definition double : Type := { f : spec_float | is_nan_f f = false }.

#[global] Instance double_score : Score double :=
  {| slt a b := SFltb (`a) (`b); seqb a b := SFeqb (`a) (`b); szero := S754_zero false ↾ eq_refl |}.

Definition float_rank (f : spec_float) : Z * Z * Z :=
  match f with
  | S754_infinity true => (-2, 0, 0) | S754_infinity false => (2, 0, 0)
  | S754_finite true m e => (-1, - e, - Zpos m) | S754_finite false m e => (1, e, Zpos m)
  | _ => (0, 0, 0)
  end.

Definition rank_lt (a b : Z * Z * Z) : Prop :=
  a.1.1 < b.1.1 \/ (a.1.1 = b.1.1 /\ (a.1.2 < b.1.2 \/ (a.1.2 = b.1.2 /\ a.2 < b.2))).

Lemma float_compare f g :
  is_nan_f f = false -> is_nan_f g = false ->
  (SFltb f g = true <-> rank_lt (float_rank f) (float_rank g)) /\ (SFeqb f g = true <-> float_rank f = float_rank g).
Proof.
  unfold SFltb, SFeqb, rank_lt. intros Hf Hg.
  destruct f as [sf|sf| |sf mf ef], g as [sg|sg| |sg mg eg]; try done; try destruct sf; try destruct sg; simpl;
    try (split; split; first [done | lia | intros [=]; lia | naive_solver lia]).
  all: change (Pos.compare_cont Eq mf mg) with (mf ?= mg)%positive; destruct (Z.compare_spec ef eg), (Pos.compare_spec mf mg);
    simpl; split; split; first [done | lia | (intros [=]; lia) | naive_solver lia].
Qed.

#[global] Instance double_score_laws : ScoreLaws double.
Proof.
  assert (forall a b : double, slt a b = true <-> rank_lt (float_rank (`a)) (float_rank (`b))) as Hlt
    by (intros [f Hf] [g Hg]; by apply float_compare).
  assert (forall a b : double, seqb a b = true <-> float_rank (`a) = float_rank (`b)) as Heq
    by (intros [f Hf] [g Hg]; by apply float_compare).
  assert (forall a b : double, seqb a b = true <->
    (float_rank (`a)).1.1 = (float_rank (`b)).1.1 /\ (float_rank (`a)).1.2 = (float_rank (`b)).1.2 /\
    (float_rank (`a)).2 = (float_rank (`b)).2) as Heq'.
  { intros a b. rewrite Heq. destruct (float_rank (`a)) as [[??]?], (float_rank (`b)) as [[??]?]; simpl. naive_solver. }
  clear Heq. unfold rank_lt in Hlt.
  constructor; intros; try apply eq_true_iff_eq; try apply not_true_iff_false;
    repeat match goal with H : slt _ _ = true |- _ => apply Hlt in H | H : seqb _ _ = true |- _ => apply Heq' in H end;
    rewrite ?Hlt, ?Heq'; lia.
Qed.

(** The order of the elements is what [sdscmp] computes on their strings. *)
Lemma lex_lt_cmp_bytes a b : lex_lt a b -> cmp_bytes a b = -1.
Proof.
  intros (p & [(x & a' & y & b' & -> & -> & Hlt)|(y & b' & -> & ->)]); induction p as [|z p IH]; simpl; rewrite ?Z.ltb_irrefl; try done.
  by rewrite (proj2 (Z.ltb_lt x y)).
Qed.

Lemma sdscmp_cmp_bytes s1 s2 a b : sds_rep s1 a -> sds_rep s2 b -> sdscmp s1 s2 = Some (cmp_bytes a b).
Proof.
  intros H1 H2. destruct (sdscmp_spec s1 s2 a b H1 H2) as [[-> ->]|[[-> Hl]|[-> Hl]]].
  - f_equal. symmetry. by apply (cmp_bytes_eq b b).
  - by rewrite lex_lt_cmp_bytes.
  - rewrite (cmp_bytes_sym b a), lex_lt_cmp_bytes by done. done.
Qed.

Section ZslOps.
Context {S : Type} `{HS : Score S} {SL : ScoreLaws S}.
#[local] Set Default Proof Using "Type*".

Abbreviation heap := (gmap positive (@zskiplistNode S)).
Abbreviation entries := (list (@entry S)).
Implicit Types (h : heap) (L M B D : entries).

(** ** Frame *)

Lemma rep_frame h h' zsl L :
  zsl_rep h zsl L -> (forall p, p ∈ header zsl :: (n_ptr <$> L) -> h' !! p = h !! p) -> zsl_rep h' zsl L.
Proof.
  intros Hr Hf.
  assert (forall p, p ∈ header zsl :: (n_ptr <$> L) -> info h' p = info h p /\ forall k, get_level h' p k = get_level h p k) as Hg.
  { intros p Hp. unfold info, get_level. by rewrite Hf. }
  assert (header zsl ∈ header zsl :: (n_ptr <$> L)) as Hh by set_solver.
  destruct (Hg _ Hh) as [Eh El]. destruct Hr. constructor; try done.
  - apply (nodes_ok_frame h); [|done]. intros n Hn. destruct (Hg (n_ptr n)) as [-> Hl]; [set_solver|]. auto.
  - by rewrite Eh.
  - intros i Hi. rewrite El. auto.
  - intros i Hi. rewrite El. auto.
Qed.

Lemma rep_free h zsl L x :
  zsl_rep h zsl L -> x <> header zsl -> x ∉ n_ptr <$> L -> zsl_rep (zslFreeNode h x) zsl L.
Proof.
  intros Hr Hx Hn. eapply rep_frame; [done|]. intros p Hp. unfold zslFreeNode. rewrite lookup_delete_ne; [done|].
  intros ->. set_solver.
Qed.

Lemma zslCreate_rep h : exists h' zsl, zslCreate h = (h', zsl) /\ zsl_rep h' zsl [].
Proof.
  unfold zslCreate. destruct (zslCreateNode h ZSKIPLIST_MAXLEVEL szero None) as [h' hd] eqn:E.
  destruct (zslCreateNode_spec _ _ _ _ _ _ E) as (Hn & Hi & Hl & _). do 2 eexists. split; [done|].
  constructor; simpl; try done.
  - apply NoDup_singleton.
  - by eexists.
  - intros i Hi'. apply Hl. unfold ZSKIPLIST_MAXLEVEL. lia.
  - intros i Hi'. exists 0. apply Hl. lia.
Qed.

(** ** Searching *)

Definition at_end zsl M : positive := match last_ptr M with Some p => p | None => header zsl end.

Lemma ends_tall_0 h zsl L M B : zsl_rep h zsl L -> L = M ++ B -> ends_tall 0 M.
Proof.
  intros Hr -> n Hn. assert (n ∈ M ++ B) as Hin by (apply elem_of_app; left; by apply last_Some_elem_of).
  pose proof (hgt_at _ _ _ _ Hr Hin). lia.
Qed.

Lemma next_level h zsl M B : zsl_rep h zsl (M ++ B) -> get_level h (at_end zsl M) 0 = Some (lv B 0).
Proof.
  intros Hr. pose proof (zsl_level_pos _ _ _ Hr). eapply level_at; [done|done|done| |lia].
  by eapply ends_tall_0.
Qed.

(** The result of a descent followed by one step at the bottom. *)
Lemma descend_next h zsl M B T :
  zsl_rep h zsl (M ++ B) -> separates T M B ->
  descend h 64 (fun fn r => T (ele fn) (score fn) r) (zsl_level zsl) (header zsl) 0 []
    = Some (update_of zsl M (zsl_level zsl)) /\
  update_of zsl M (zsl_level zsl) !! 0%nat = Some (at_end zsl M, zlen M) /\
  exists l, get_level h (at_end zsl M) 0 = Some l /\ forward l = n_ptr <$> head B.
Proof.
  intros Hr Hs. pose proof (zsl_level_pos _ _ _ Hr). split_and!.
  - apply (descend_all h zsl (M ++ B) 64 T M B); [done|done|lia|done].
  - apply update_head; [lia|by eapply cut_0].
  - exists (lv B 0). split; [by apply next_level|]. by eapply lv_first.
Qed.

Lemma search_key_rep h zsl M B s e :
  zsl_rep h zsl (M ++ B) -> Forall (fun n => key_lt (key n) (s, e) = true) M ->
  Forall (fun n => key_lt (key n) (s, e) = false) B ->
  search_key h zsl s e = Some (update_of zsl M (zsl_level zsl), n_ptr <$> head B).
Proof.
  intros Hr HM HB. unfold search_key, key_before.
  destruct (descend_next h zsl M B _ Hr (key_separates M B s e HM HB)) as (-> & E0 & l & El & Ef).
  cbn [mbind option_bind]. rewrite E0. cbn [mbind option_bind]. rewrite El. cbn [mbind option_bind]. by rewrite Ef.
Qed.

(** ** Deletion *)

Definition same_key (k : S * list Z) (n : S * list Z) : bool := seqb k.1 n.1 && bool_decide (n.2 = k.2).

Lemma same_key_lt k n m : same_key k n = true -> key_lt n m = key_lt k m.
Proof.
  unfold same_key, key_lt. rewrite andb_true_iff, bool_decide_eq_true. intros [E ->].
  rewrite (slt_seq_l _ _ _ E). f_equal. f_equal. destruct (seqb n.1 m.1) eqn:F.
  - by rewrite (seq_trans _ _ _ E F).
  - destruct (seqb k.1 m.1) eqn:G; [|done]. rewrite seq_sym in E. by rewrite (seq_trans _ _ _ E G) in F.
Qed.

Lemma not_lt_not_gt_same k n : key_lt n k = false -> key_lt k n = false -> same_key k n = true.
Proof.
  intros H1 H2. unfold same_key. rewrite andb_true_iff, bool_decide_eq_true.
  destruct (key_lt_total n k) as [E|[E|[E1 E2]]]; [congruence|congruence|]. rewrite seq_sym. auto.
Qed.

Lemma same_key_irrefl_lt k n : same_key k n = true -> key_lt n k = false /\ key_lt k n = false.
Proof.
  intros E. split; [rewrite (same_key_lt _ _ _ E); apply key_lt_irrefl|].
  rewrite <- (same_key_lt _ _ _ E). apply key_lt_irrefl.
Qed.

(** The three parts of a sorted list around a key. *)
Lemma split_around L k :
  sorted_keys L -> exists M D B, L = M ++ D ++ B /\ Forall (fun n => key_lt (key n) k = true) M /\
    Forall (fun n => same_key k (key n) = true) D /\ Forall (fun n => key_lt k (key n) = true) B /\ (length D <= 1)%nat.
Proof.
  intros Hs. destruct (split_key L k Hs) as (M & B & -> & HM & HB).
  apply sorted_keys_app in Hs as (_ & Hs & _). destruct B as [|n B]; [by exists M, [], []; rewrite ?app_nil_r; split_and!; auto; simpl; lia|].
  apply sorted_keys_cons in Hs as [Hn Hs]. apply Forall_cons in HB as [HnB HB].
  destruct (key_lt k (key n)) eqn:E.
  - exists M, [], (n :: B). split_and!; try done; [|simpl; lia]. constructor; [done|].
    eapply Forall_impl; [exact Hn|]. intros m Hm. cbv beta in Hm. by eapply key_lt_trans.
  - pose proof (not_lt_not_gt_same _ _ HnB E) as Hsame. exists M, [n], B. split_and!; try done; [by constructor|].
    eapply Forall_impl; [exact Hn|]. intros m Hm. cbv beta in Hm. by rewrite <- (same_key_lt _ _ _ Hsame).
Qed.

(** ** The abstract sorted list of (score, element) pairs *)

Abbreviation keys := (list (S * list Z)).

Definition zl_insert (k : S * list Z) (l : keys) : keys :=
  filter (fun m => key_lt m k = true) l ++ k :: filter (fun m => key_lt m k = false) l.

Definition zl_delete (k : S * list Z) (l : keys) : keys := filter (fun m => same_key k m = false) l.

Lemma filter_all {A} (P : A -> Prop) `{forall x, Decision (P x)} (l : list A) : Forall P l -> filter P l = l.
Proof using Type. induction 1 as [|x l Hx _ IH]; [done|]. by rewrite filter_cons_True, IH. Qed.

Lemma filter_none {A} (P : A -> Prop) `{forall x, Decision (P x)} (l : list A) : Forall (fun x => ~ P x) l -> filter P l = [].
Proof using Type. induction 1 as [|x l Hx _ IH]; [done|]. by rewrite filter_cons_False. Qed.

Lemma keys_Forall (P : S * list Z -> Prop) L : Forall (fun n => P (key n)) L -> Forall P (key <$> L).
Proof using Type. by rewrite Forall_fmap. Qed.

Lemma bool_false_Forall {A} (f : A -> bool) l : Forall (fun x => f x = false) l -> Forall (fun x => ~ f x = true) l.
Proof using Type. intros Hl. eapply Forall_impl; [exact Hl|]. intros x ->. done. Qed.

Lemma bool_true_Forall {A} (f : A -> bool) l : Forall (fun x => f x = true) l -> Forall (fun x => ~ f x = false) l.
Proof using Type. intros Hl. eapply Forall_impl; [exact Hl|]. intros x ->. done. Qed.

Lemma lt_not_same k L :
  Forall (fun n => key_lt (key n) k = true) L \/ Forall (fun n => key_lt k (key n) = true) L ->
  Forall (fun n => same_key k (key n) = false) L.
Proof.
  intros [Hl|Hl]; (eapply Forall_impl; [exact Hl|]); intros n Hn; cbv beta in Hn; destruct (same_key k (key n)) eqn:E; try done;
    apply same_key_irrefl_lt in E as [E1 E2]; congruence.
Qed.

Lemma zl_insert_split k M B :
  Forall (fun n => key_lt (key n) k = true) M -> Forall (fun n => key_lt k (key n) = true) B ->
  zl_insert k (key <$> M ++ B) = (key <$> M) ++ k :: (key <$> B).
Proof.
  intros HM HB. assert (Forall (fun n => key_lt (key n) k = false) B) as HB'.
  { eapply Forall_impl; [exact HB|]. intros n Hn. by apply key_lt_asym. }
  unfold zl_insert. rewrite fmap_app, !filter_app.
  rewrite (filter_all _ (key <$> M)), (filter_none _ (key <$> B)), app_nil_r.
  2:{ apply (keys_Forall (fun m => ~ key_lt m k = true)). by apply (bool_false_Forall (fun n => key_lt (key n) k)). }
  2:{ by apply (keys_Forall (fun m => key_lt m k = true)). }
  rewrite (filter_none _ (key <$> M)), (filter_all _ (key <$> B)); [done| |].
  - by apply (keys_Forall (fun m => key_lt m k = false)).
  - apply (keys_Forall (fun m => ~ key_lt m k = false)). by apply (bool_true_Forall (fun n => key_lt (key n) k)).
Qed.

Lemma zl_delete_split k M D B :
  Forall (fun n => key_lt (key n) k = true) M -> Forall (fun n => same_key k (key n) = true) D ->
  Forall (fun n => key_lt k (key n) = true) B -> zl_delete k (key <$> M ++ D ++ B) = key <$> M ++ B.
Proof.
  intros HM HD HB. unfold zl_delete. rewrite !fmap_app, !filter_app.
  rewrite (filter_all _ (key <$> M)), (filter_none _ (key <$> D)), (filter_all _ (key <$> B)); [done|..].
  - apply (keys_Forall (fun m => same_key k m = false)), lt_not_same. auto.
  - apply (keys_Forall (fun m => ~ same_key k m = false)). by apply (bool_true_Forall (fun n => same_key k (key n))).
  - apply (keys_Forall (fun m => same_key k m = false)), lt_not_same. auto.
Qed.

(** ** What is allocated *)

Lemma set_level_dom h x i l h' : set_level h x i l = Some h' -> dom h' = dom h.
Proof using Type.
  unfold set_level. destruct (h !! x) as [n|] eqn:E; [|done]. simpl. case_bool_decide; [|done]. intros [= <-].
  apply dom_insert_lookup_L. by rewrite E.
Qed.

Lemma set_backward_dom h x b h' : set_backward h x b = Some h' -> dom h' = dom h.
Proof using Type.
  unfold set_backward. destruct (h !! x) as [n|] eqn:E; [|done]. simpl. intros [= <-]. apply dom_insert_lookup_L. by rewrite E.
Qed.

Lemma unlink_loop_dom h x i up h' : unlink_loop h x i up = Some h' -> dom h' = dom h.
Proof using Type.
  revert h i. induction up as [|u up IH]; intros h i; [by intros [= ->]|]. cbn [unlink_loop]. intros E.
  destruct (get_level h u i) as [l|]; [|done]. cbn [mbind option_bind] in E.
  destruct (if bool_decide _ then _ else _) as [h1|] eqn:E1; [|done]. cbn [mbind option_bind] in E.
  apply IH in E as ->. case_bool_decide.
  - destruct (get_level h x i) as [lx|]; [|done]. cbn [mbind option_bind] in E1. by eapply set_level_dom.
  - by eapply set_level_dom.
Qed.

Lemma zslDeleteNode_dom h zsl x up h' zsl' : zslDeleteNode h zsl x up = Some (h', zsl') -> dom h' = dom h.
Proof using Type.
  unfold zslDeleteNode. intros E. destruct (unlink_loop h x 0 _) as [h1|] eqn:E1; [|done]. cbn [mbind option_bind] in E.
  rewrite <- (unlink_loop_dom _ _ _ _ _ E1). clear E1. destruct (h1 !! x) as [n|]; [|done]. cbn [mbind option_bind] in E.
  destruct (level n !! 0%nat) as [l0|]; [|done]. cbn [mbind option_bind] in E. destruct (forward l0) as [f|].
  - destruct (set_backward h1 f (backward n)) as [h2|] eqn:E2; [|done]. cbn [mbind option_bind] in E.
    destruct (shrink_level _ _ _); [|done]. simpl in E. injection E as <- _. by eapply set_backward_dom.
  - cbn [mbind option_bind] in E. destruct (shrink_level _ _ _); [|done]. simpl in E. by injection E as <- _.
Qed.

(** ** Memory: what the list owns *)

Lemma grow_loop_dom h hd len i n h' : grow_loop h hd len i n = Some h' -> dom h' = dom h.
Proof using Type.
  revert h i. induction n as [|n IH]; intros h i; [by intros [= ->]|]. cbn [grow_loop]. intros E.
  destruct (get_level h hd i) as [l|]; [|done]. cbn [mbind option_bind] in E.
  destruct (set_level h hd i _) as [h1|] eqn:E1; [|done]. cbn [mbind option_bind] in E.
  apply IH in E as ->. by eapply set_level_dom.
Qed.

Lemma link_loop_dom h x r0 i up h' : link_loop h x r0 i up = Some h' -> dom h' = dom h.
Proof using Type.
  revert h i. induction up as [|[u r] up IH]; intros h i; [by intros [= ->]|]. cbn [link_loop]. intros E.
  destruct (get_level h u i) as [l|]; [|done]. cbn [mbind option_bind] in E.
  destruct (set_level h x i _) as [h1|] eqn:E1; [|done]. cbn [mbind option_bind] in E.
  destruct (set_level h1 u i _) as [h2|] eqn:E2; [|done]. cbn [mbind option_bind] in E.
  apply IH in E as ->. rewrite (set_level_dom _ _ _ _ _ E2). by eapply set_level_dom.
Qed.

Lemma bump_loop_dom h i up h' : bump_loop h i up = Some h' -> dom h' = dom h.
Proof using Type.
  revert h i. induction up as [|[u r] up IH]; intros h i; [by intros [= ->]|]. cbn [bump_loop]. intros E.
  destruct (get_level h u i) as [l|]; [|done]. cbn [mbind option_bind] in E.
  destruct (set_level h u i _) as [h1|] eqn:E1; [|done]. cbn [mbind option_bind] in E.
  apply IH in E as ->. by eapply set_level_dom.
Qed.

Lemma zslInsert_dom rnd h zsl s e h' zsl' x : zslInsert rnd h zsl s e = Some (h', zsl', x) -> dom h' = {[x]} ∪ dom h.
Proof using Type.
  unfold zslInsert. intros E. destruct (descend _ _ _ _ _ _ _) as [up|]; [|done]. cbn [mbind option_bind] in E.
  destruct (zslRandomLevel rnd) as [lvl|]; [|done]. cbn [mbind option_bind] in E.
  destruct (if (_ <? lvl)%nat then _ else _) as [h1|] eqn:E1; [|done]. cbn [mbind option_bind] in E.
  assert (dom h1 = dom h) as D1 by (destruct (_ <? lvl)%nat; [by eapply grow_loop_dom|by injection E1 as ->]).
  destruct (zslCreateNode h1 lvl s (Some e)) as [h2 y] eqn:E2.
  assert (dom h2 = {[y]} ∪ dom h1) as D2 by (unfold zslCreateNode in E2; injection E2 as <- <-; apply dom_insert_L).
  destruct (_ !! 0%nat) as [[u0 r0]|]; [|done]. cbn [mbind option_bind] in E.
  destruct (link_loop _ _ _ _ _) as [h3|] eqn:E3; [|done]. cbn [mbind option_bind] in E. apply link_loop_dom in E3.
  destruct (bump_loop _ _ _) as [h4|] eqn:E4; [|done]. cbn [mbind option_bind] in E. apply bump_loop_dom in E4.
  destruct (set_backward h4 y _) as [h5|] eqn:E5; [|done]. cbn [mbind option_bind] in E. apply set_backward_dom in E5.
  destruct (get_level h5 y 0) as [l0|]; [|done]. cbn [mbind option_bind] in E. destruct (forward l0) as [f|].
  - destruct (set_backward h5 f _) as [h6|] eqn:E6; [|done]. cbn [mbind option_bind] in E. apply set_backward_dom in E6.
    injection E as <- _ <-. congruence.
  - injection E as <- _ <-. congruence.
Qed.

(** Besides the memory [F] of others, only the header and the nodes of the
    list are allocated. *)
Definition owns (F : gset positive) h zsl L : Prop :=
  (forall p, p ∈ dom h <-> p ∈ F \/ p = header zsl \/ p ∈ n_ptr <$> L) /\
  forall p, p ∈ F -> p <> header zsl /\ p ∉ n_ptr <$> L.

Lemma in_middle M (n : @entry S) B p : p ∈ n_ptr <$> M ++ n :: B <-> p = n_ptr n \/ p ∈ n_ptr <$> M ++ B.
Proof using Type. rewrite !fmap_app, fmap_cons, !elem_of_app, elem_of_cons. tauto. Qed.

Lemma owns_insert F h zsl M B h' zsl' n :
  owns F h zsl (M ++ B) -> dom h' = {[n_ptr n]} ∪ dom h -> h !! n_ptr n = None -> header zsl' = header zsl ->
  owns F h' zsl' (M ++ n :: B).
Proof using Type.
  intros [Hd Hf] E Hx%not_elem_of_dom Eh. unfold owns. rewrite Eh, E. rewrite Hd in Hx. split; intros p.
  - rewrite elem_of_union, elem_of_singleton, Hd, in_middle. tauto.
  - intros Hp. destruct (Hf p Hp) as [H1 H2]. split; [done|]. rewrite in_middle. intros [->|?]; [tauto|done].
Qed.

Lemma owns_delete F h zsl M n B h' zsl' :
  owns F h zsl (M ++ n :: B) -> n_ptr n <> header zsl -> n_ptr n ∉ n_ptr <$> M ++ B -> dom h' = dom h -> header zsl' = header zsl ->
  owns F (zslFreeNode h' (n_ptr n)) zsl' (M ++ B).
Proof using Type.
  intros [Hd Hf] Hh Hn Ed Eh. unfold owns, zslFreeNode. rewrite Eh, dom_delete_L, Ed.
  assert (n_ptr n ∉ F) as HnF by (intros Hc%Hf; rewrite in_middle in Hc; tauto). split; intros p.
  - rewrite elem_of_difference, elem_of_singleton, Hd, in_middle. split; [tauto|].
    intros Hp. split; [tauto|]. intros ->. tauto.
  - intros Hp. specialize (Hf p Hp). rewrite in_middle in Hf. tauto.
Qed.

(** ** Insertion and deletion *)

Lemma zslInsert_keys rnd h zsl L s e lvl :
  zsl_rep h zsl L -> zlen L + 1 < 2 ^ 31 -> zslRandomLevel rnd = Some lvl ->
  Forall (fun n => same_key (s, e) (key n) = false) L ->
  exists h' zsl' x M B, zslInsert rnd h zsl s e = Some (h', zsl', x) /\ h !! x = None /\ header zsl' = header zsl /\
    L = M ++ B /\ zsl_rep h' zsl' (M ++ mk_entry x s e lvl :: B) /\
    zl_insert (s, e) (key <$> L) = key <$> (M ++ mk_entry x s e lvl :: B).
Proof.
  intros Hr Hfit Hrnd Hnew. destruct (split_around L (s, e) (zr_sorted _ _ _ Hr)) as (M & D & B & -> & HM & HD & HB & _).
  assert (D = []) as ->.
  { destruct D as [|n D]; [done|]. apply Forall_cons in HD as [HD _]. rewrite !Forall_app, Forall_cons in Hnew.
    destruct Hnew as (_ & [Hn _] & _). congruence. }
  simpl in *. destruct (zslInsert_rep rnd h zsl M B s e lvl Hr Hfit Hrnd HM HB) as (h' & zsl' & x & E & Hx & Eh & Hr').
  exists h', zsl', x, M, B. split_and!; try done. rewrite (zl_insert_split (s, e) M B HM HB), fmap_app. done.
Qed.

Lemma deleted_absent h zsl M n B : zsl_rep h zsl (M ++ n :: B) -> n_ptr n <> header zsl /\ n_ptr n ∉ n_ptr <$> M ++ B.
Proof.
  intros Hr. pose proof (zr_nodup _ _ _ Hr) as Hnd. rewrite fmap_app, fmap_cons in Hnd. rewrite fmap_app.
  apply NoDup_cons in Hnd as [H1 Hnd]. split; [set_solver|].
  rewrite <- Permutation_middle in Hnd. by apply NoDup_cons in Hnd as [? _].
Qed.

(** [zslDeleteNode] on the node after [M], then [zslFreeNode]. *)
Lemma delete_free h zsl M n B :
  zsl_rep h zsl (M ++ n :: B) ->
  exists h' zsl', zslDeleteNode h zsl (n_ptr n) ((update_of zsl M (zsl_level zsl)).*1) = Some (h', zsl') /\
    zsl_rep h' zsl' (M ++ B) /\ header zsl' = header zsl /\ info h' (n_ptr n) = info h (n_ptr n) /\
    zsl_rep (zslFreeNode h' (n_ptr n)) zsl' (M ++ B) /\ zslFreeNode h' (n_ptr n) !! n_ptr n = None.
Proof.
  intros Hr. destruct (zslDeleteNode_rep h zsl M n B Hr) as (h' & zsl' & E & Hr' & Eh & Ei).
  destruct (deleted_absent _ _ _ _ _ Hr) as [Hn1 Hn2]. exists h', zsl'. split_and!; try done.
  - apply rep_free; [done|by rewrite Eh|done].
  - apply lookup_delete_eq.
Qed.

Lemma found_test h prev n T s e :
  entry_ok h prev n T -> exists nd, h !! n_ptr n = Some nd /\ ele_cmp nd e = Some (cmp_bytes (n_ele n) e) /\
    score nd = n_score n /\ backward nd = prev /\ ele nd = Some (n_ele n) /\
    (seqb s (score nd) && (cmp_bytes (n_ele n) e =? 0) = same_key (s, e) (key n)).
Proof.
  intros Hn. destruct (entry_lookup _ _ _ _ Hn) as (nd & E1 & E2 & E3 & E4 & _). exists nd. unfold ele_cmp. rewrite E2. simpl.
  split_and!; try done. unfold same_key. simpl. rewrite E3. f_equal.
  destruct (Z.eqb_spec (cmp_bytes (n_ele n) e) 0) as [E|E]; rewrite cmp_bytes_eq in E;
    [by rewrite bool_decide_eq_true_2|by rewrite bool_decide_eq_false_2].
Qed.

Lemma not_lt_of_parts k D B :
  Forall (fun n => same_key k (key n) = true) D -> Forall (fun n => key_lt k (key n) = true) B ->
  Forall (fun n => key_lt (key n) k = false) (D ++ B).
Proof.
  intros HD HB. apply Forall_app. split.
  - eapply Forall_impl; [exact HD|]. intros n Hn. exact (proj1 (same_key_irrefl_lt _ _ Hn)).
  - eapply Forall_impl; [exact HB|]. intros n Hn. by apply key_lt_asym.
Qed.

Lemma zslDelete_keys h zsl L s e :
  zsl_rep h zsl L ->
  exists h' zsl' L', zslDelete h zsl s e = Some (h', zsl', existsb (fun n => same_key (s, e) (key n)) L) /\
    header zsl' = header zsl /\ zsl_rep h' zsl' L' /\ key <$> L' = zl_delete (s, e) (key <$> L) /\
    (forall F, owns F h zsl L -> owns F h' zsl' L').
Proof.
  intros Hr. destruct (split_around L (s, e) (zr_sorted _ _ _ Hr)) as (M & D & B & -> & HM & HD & HB & HD1).
  rewrite (zl_delete_split (s, e) M D B HM HD HB).
  unfold zslDelete. rewrite (search_key_rep h zsl M (D ++ B) s e Hr HM (not_lt_of_parts _ _ _ HD HB)). cbn [mbind option_bind].
  assert (forall X, Forall (fun n => same_key (s, e) (key n) = false) X -> existsb (fun n => same_key (s, e) (key n)) X = false) as Hex.
  { induction 1 as [|n X Hn _ IH]; [done|]. simpl. by rewrite Hn, IH. }
  pose proof (lt_not_same (s, e) M (or_introl HM)) as HM'. pose proof (lt_not_same (s, e) B (or_intror HB)) as HB'.
  rewrite !existsb_app, (Hex M HM'), (Hex B HB').
  destruct D as [|n [|m D]]; [| |simpl in HD1; lia].
  - simpl in *. destruct B as [|b B].
    { do 3 eexists. split; [done|]. by split_and!. }
    simpl. destruct (found_test _ _ _ _ s e (node_at _ _ _ M b B Hr eq_refl)) as (nd & -> & E1 & _ & _ & _ & E2).
    cbn [mbind option_bind]. rewrite E1. cbn [mbind option_bind]. rewrite E2.
    apply Forall_cons in HB' as [-> _]. do 3 eexists. split; [done|]. by split_and!.
  - simpl in *. destruct (found_test _ _ _ _ s e (node_at _ _ _ M n B Hr eq_refl)) as (nd & -> & E1 & _ & _ & _ & E2).
    cbn [mbind option_bind]. rewrite E1. cbn [mbind option_bind]. rewrite E2.
    apply Forall_cons in HD as [-> _]. destruct (delete_free h zsl M n B Hr) as (h' & zsl' & E & _ & Eh & _ & Hr' & Hn).
    rewrite E. cbn [mbind option_bind]. do 3 eexists. split; [done|]. split_and!; try done.
    intros F HF. destruct (deleted_absent _ _ _ _ _ Hr). apply (owns_delete F h zsl); try done. by eapply zslDeleteNode_dom.
Qed.

(** ** Changing a score *)

Lemma set_score_spec h x s e s0 b n :
  info h x = Some (e, s0, b, n) ->
  exists h', set_score h x s = Some h' /\ (forall p j, get_level h' p j = get_level h p j) /\
    info h' x = Some (e, s, b, n) /\ forall p, p <> x -> info h' p = info h p.
Proof using Type.
  unfold set_score, get_level, info. destruct (h !! x) as [nd|] eqn:Hx; [|done]. cbn [mbind option_bind].
  intros E. injection E as <- <- <- <-. eexists. split; [done|]. split_and!.
  - intros p j. destruct (decide (p = x)) as [->|Hp]; [by rewrite lookup_insert_eq, Hx|by rewrite lookup_insert_ne by done].
  - by rewrite lookup_insert_eq.
  - intros p Hp. by rewrite lookup_insert_ne by done.
Qed.

Lemma set_score_dom h x s h' : set_score h x s = Some h' -> dom h' = dom h.
Proof using Type.
  unfold set_score. destruct (h !! x) as [n|] eqn:E; [|done]. simpl. intros [= <-]. apply dom_insert_lookup_L. by rewrite E.
Qed.

Lemma below_all M s e :
  sorted_keys M -> (forall n, last M = Some n -> slt (n_score n) s = true) -> Forall (fun n => key_lt (key n) (s, e) = true) M.
Proof.
  intros Hs Hl. destruct M as [|m M _] using rev_ind; [constructor|]. rewrite last_snoc in Hl. specialize (Hl m eq_refl).
  apply sorted_keys_app in Hs as (_ & _ & Hs). assert (key_lt (key m) (s, e) = true) as Hm by (unfold key_lt; simpl; by rewrite Hl).
  apply Forall_app. split; [|by constructor]. eapply Forall_impl; [exact Hs|]. intros a Ha. cbv beta in Ha.
  apply Forall_cons in Ha as [Ha _]. by eapply key_lt_trans.
Qed.

Lemma above_all B s e :
  sorted_keys B -> (forall n, head B = Some n -> sgt (n_score n) s = true) -> Forall (fun n => key_lt (s, e) (key n) = true) B.
Proof.
  intros Hs Hl. destruct B as [|b B]; [constructor|]. specialize (Hl b eq_refl). apply sorted_keys_cons in Hs as [Hs _].
  assert (key_lt (s, e) (key b) = true) as Hm by (unfold key_lt; simpl; unfold sgt in Hl; by rewrite Hl).
  constructor; [done|]. eapply Forall_impl; [exact Hs|]. intros a Ha. cbv beta in Ha. by eapply key_lt_trans.
Qed.

Definition rescored (n : @entry S) (s : S) : entry := mk_entry (n_ptr n) s (n_ele n) (hgt n).

Lemma set_score_rep h h' zsl M n B s :
  zsl_rep h zsl (M ++ n :: B) -> set_score h (n_ptr n) s = Some h' ->
  Forall (fun m => key_lt (key m) (s, n_ele n) = true) M -> Forall (fun m => key_lt (s, n_ele n) (key m) = true) B ->
  zsl_rep h' zsl (M ++ rescored n s :: B).
Proof.
  intros Hr E HM HB. destruct (node_at _ _ _ M n B Hr eq_refl) as [Hi Hlv].
  destruct (set_score_spec h (n_ptr n) s _ _ _ _ Hi) as (h1 & E1 & G & Ix & Io). rewrite E1 in E. injection E as ->.
  destruct (deleted_absent _ _ _ _ _ Hr) as [Hnh Hn]. rewrite fmap_app in Hn.
  pose proof (zsl_level_pos _ _ _ Hr) as Hlev.
  assert (n_ptr <$> M ++ rescored n s :: B = n_ptr <$> M ++ n :: B) as Eptr by by rewrite !fmap_app, !fmap_cons.
  assert (zlen (M ++ rescored n s :: B) = zlen (M ++ n :: B)) as Elen by by rewrite !zlen_app, !zlen_cons.
  assert (max_hgt (M ++ rescored n s :: B) = max_hgt (M ++ n :: B)) as Ehgt by by rewrite !max_hgt_app.
  apply (splice_rep h h' zsl zsl M (n :: B) (rescored n s :: B) (zsl_level zsl) Hr); try done.
  - intros p k Hp. rewrite G. case_bool_decide as Hc; [|done]. destruct Hc as [Hk ->].
    change (lv (rescored n s :: B) k) with (lv (n :: B) k). apply stop_level; [apply (zr_nodes _ _ _ Hr)|].
    intros _. by apply (zr_header _ _ _ Hr).
  - intros m Hm. apply Io. intros Ec. apply Hn. rewrite <- Ec. apply elem_of_app. left. by apply list_elem_of_fmap_2.
  - by apply Io.
  - cbn [nodes_ok]. split; [split; [done|]; intros i Hi'; rewrite G; by apply Hlv|].
    pose proof (zr_nodes _ _ _ Hr) as Hns. apply nodes_ok_app in Hns as [_ Hns]. destruct Hns as [_ Hns].
    apply (nodes_ok_frame h); [|done]. intros m Hm. split; [|intros k _; apply G]. apply Io. intros Ec.
    apply Hn. rewrite <- Ec. apply elem_of_app. right. by apply list_elem_of_fmap_2.
  - rewrite Eptr. apply (zr_nodup _ _ _ Hr).
  - pose proof (zr_hgt _ _ _ Hr) as Hh. apply Forall_app in Hh as [_ Hh]. inversion Hh; subst. by constructor.
  - lia.
  - rewrite Ehgt. apply (zr_level _ _ _ Hr).
  - intros k Hk. lia.
  - rewrite Elen. apply (zr_length _ _ _ Hr).
  - rewrite Elen. apply (zr_fits _ _ _ Hr).
  - rewrite (zr_tail _ _ _ Hr). unfold last_ptr. by rewrite !last_app, !last_cons; destruct (last B).
  - apply splice_sorted; [|done|done]. apply (sorted_remove M n B). exact (zr_sorted _ _ _ Hr).
Qed.

(** The neighbours' scores, read through the links. *)
Lemma back_test h zsl M n B s nd :
  zsl_rep h zsl (M ++ n :: B) -> h !! n_ptr n = Some nd ->
  match backward nd with None => Some true | Some b => bn ← h !! b; Some (slt (score bn) s) end
    = Some (match last M with Some m => slt (n_score m) s | None => true end).
Proof.
  intros Hr En. destruct (entry_lookup _ _ _ _ (node_at _ _ _ M n B Hr eq_refl)) as (nd' & E & _ & _ & Eb & _).
  rewrite En in E. injection E as <-. rewrite Eb. unfold last_ptr. destruct (last M) as [m|] eqn:El; [|done].
  apply last_Some in El as (M' & ->). simpl. rewrite <- app_assoc in Hr.
  destruct (entry_lookup _ _ _ _ (node_at _ _ _ M' m (n :: B) Hr eq_refl)) as (md & -> & _ & E & _). simpl. by rewrite E.
Qed.

Lemma fwd_test h zsl M n B s nd :
  zsl_rep h zsl (M ++ n :: B) -> h !! n_ptr n = Some nd ->
  (l0 ← level nd !! 0%nat;
   match forward l0 with None => Some true | Some f => fn ← h !! f; Some (sgt (score fn) s) end)
    = Some (match head B with Some m => sgt (n_score m) s | None => true end).
Proof.
  intros Hr En. destruct (node_at _ _ _ M n B Hr eq_refl) as [_ Hlv].
  pose proof (hgt_at _ _ _ n Hr ltac:(set_solver)) as Hh. specialize (Hlv 0%nat ltac:(lia)).
  unfold get_level in Hlv. rewrite En in Hlv. simpl in Hlv. rewrite Hlv. cbn [mbind option_bind].
  assert (M ++ n :: B = (M ++ [n]) ++ B) as EL by by rewrite <- app_assoc.
  rewrite (lv_first _ _ _ (M ++ [n]) B Hr EL). destruct B as [|b B]; [done|]. simpl.
  rewrite EL in Hr. destruct (entry_lookup _ _ _ _ (node_at _ _ _ (M ++ [n]) b B Hr eq_refl)) as (md & -> & _ & E & _).
  simpl. by rewrite E.
Qed.

Lemma bind_assoc3 {A C E} (m : option A) (f : A -> option C) (g : C -> option E) :
  (x ← m; y ← f x; g y) = (y ← (x ← m; f x); g y).
Proof using Type. by destruct m. Qed.

Lemma owns_reinsert F h h1 h2 zsl zsl2 M n B M' B' m :
  owns F h zsl (M ++ n :: B) -> dom h1 = dom h -> dom h2 = {[n_ptr m]} ∪ dom h1 -> h1 !! n_ptr m = None ->
  M ++ B = M' ++ B' -> header zsl2 = header zsl -> n_ptr n <> header zsl2 -> n_ptr n ∉ n_ptr <$> M' ++ m :: B' ->
  owns F (zslFreeNode h2 (n_ptr n)) zsl2 (M' ++ m :: B').
Proof using Type.
  intros Ho E1 E2 Hx EL Eh Hn3 Hn4. rewrite in_middle in Hn4.
  assert (owns F h2 zsl2 ([n] ++ M' ++ m :: B')) as Ho2; [|apply (owns_delete F h2 zsl2 [] n); try done; simpl app; by rewrite in_middle].
  apply (owns_insert F h1 zsl (n :: M') B'); try done. destruct Ho as [Hd Hf]. split; intros p; rewrite ?E1.
  - rewrite Hd, in_middle, EL. simpl. rewrite elem_of_cons. done.
  - intros Hp. specialize (Hf p Hp). rewrite in_middle, EL in Hf. simpl. by rewrite elem_of_cons.
Qed.

(** The delete-and-reinsert branch. *)
Lemma reinsert_rep rnd h zsl M n B s lvl :
  zsl_rep h zsl (M ++ n :: B) -> zslRandomLevel rnd = Some lvl ->
  NoDup (n_ele <$> M ++ n :: B) ->
  exists h' zsl' x L', ('(h, zsl) ← zslDeleteNode h zsl (n_ptr n) ((update_of zsl M (zsl_level zsl)).*1);
    nd ← h !! n_ptr n; e' ← ele nd; '(h, zsl, newnode) ← zslInsert rnd h zsl s e';
    Some (zslFreeNode h (n_ptr n), zsl, newnode)) = Some (h', zsl', x) /\ header zsl' = header zsl /\
    zsl_rep h' zsl' L' /\ key <$> L' = zl_insert (s, n_ele n) (key <$> M ++ B) /\ x ∈ n_ptr <$> L' /\
    (forall F, owns F h zsl (M ++ n :: B) -> owns F h' zsl' L').
Proof.
  intros Hr Hrnd Hnd. destruct (delete_free h zsl M n B Hr) as (h1 & zsl1 & E1 & Hr1 & Eh1 & Ei & _). rewrite E1. cbn [mbind option_bind].
  destruct (node_at _ _ _ M n B Hr eq_refl) as [Hi _]. rewrite Hi in Ei. unfold info in Ei.
  destruct (h1 !! n_ptr n) as [nd|] eqn:End; [|done]. simpl in Ei. injection Ei as Ee _ _ _. cbn [mbind option_bind].
  rewrite Ee. cbn [mbind option_bind].
  assert (zlen (M ++ B) + 1 < 2 ^ 31) as Hfit
    by (pose proof (zr_fits _ _ _ Hr) as Hf; rewrite !zlen_app, zlen_cons in *; lia).
  assert (Forall (fun m => same_key (s, n_ele n) (key m) = false) (M ++ B)) as Hnew.
  { apply Forall_forall. intros m Hm. unfold same_key. rewrite andb_false_iff, bool_decide_eq_false. right. simpl. intros E.
    rewrite fmap_app, fmap_cons, <- Permutation_middle in Hnd. apply NoDup_cons in Hnd as [Hnd _]. apply Hnd.
    rewrite <- fmap_app, <- E. by apply list_elem_of_fmap_2. }
  destruct (zslInsert_keys rnd h1 zsl1 (M ++ B) s (n_ele n) lvl Hr1 Hfit Hrnd Hnew)
    as (h2 & zsl2 & x & M' & B' & E2 & Hx & Eh2 & EL & Hr2 & Ek).
  rewrite E2. cbn [mbind option_bind]. destruct (deleted_absent _ _ _ _ _ Hr) as [Hn1 Hn2].
  assert (n_ptr n <> header zsl2) as Hn3 by congruence.
  assert (n_ptr n ∉ n_ptr <$> M' ++ mk_entry x s (n_ele n) lvl :: B') as Hn4.
  { rewrite EL in Hn2. rewrite fmap_app, fmap_cons in *. simpl. assert (n_ptr n <> x) by congruence. set_solver. }
  do 4 eexists. split; [done|]. split_and!; [congruence| |done| |].
  - by apply rep_free.
  - rewrite fmap_app, fmap_cons. simpl. set_solver.
  - intros F HF. apply zslDeleteNode_dom in E1. apply zslInsert_dom in E2. apply (owns_reinsert F h h1 h2 zsl zsl2 M n B); try done. congruence.
Qed.

Lemma zslUpdateScore_keys rnd h zsl L cur e s lvl :
  zsl_rep h zsl L -> zslRandomLevel rnd = Some lvl -> NoDup (n_ele <$> L) ->
  existsb (fun n => same_key (cur, e) (key n)) L = true ->
  exists h' zsl' x L', zslUpdateScore rnd h zsl cur e s = Some (h', zsl', x) /\ header zsl' = header zsl /\
    zsl_rep h' zsl' L' /\ key <$> L' = zl_insert (s, e) (zl_delete (cur, e) (key <$> L)) /\ x ∈ n_ptr <$> L' /\
    (forall F, owns F h zsl L -> owns F h' zsl' L').
Proof.
  intros Hr Hrnd Hnd Hin. destruct (split_around L (cur, e) (zr_sorted _ _ _ Hr)) as (M & D & B & -> & HM & HD & HB & HD1).
  rewrite (zl_delete_split (cur, e) M D B HM HD HB).
  assert (exists n, D = [n]) as [n ->].
  { destruct D as [|n [|]]; [|by eexists|simpl in HD1; lia]. exfalso. simpl in Hin.
    apply existsb_exists in Hin as (n & Hn & Hs). apply list_elem_of_In in Hn.
    assert (same_key (cur, e) (key n) = false) as Hc; [|congruence]. apply elem_of_app in Hn as [Hn|Hn].
    - by apply (proj1 (Forall_forall _ _) (lt_not_same (cur, e) M (or_introl HM)) n).
    - by apply (proj1 (Forall_forall _ _) (lt_not_same (cur, e) B (or_intror HB)) n). }
  unfold zslUpdateScore. rewrite (search_key_rep h zsl M ([n] ++ B) cur e Hr HM (not_lt_of_parts _ _ _ HD HB)).
  cbn [mbind option_bind head app]. simpl app in Hr, Hnd. change (n_ptr <$> Some n) with (Some (n_ptr n)). cbn [mbind option_bind].
  apply Forall_cons in HD as [Hsame _].
  destruct (found_test _ _ _ _ cur e (node_at _ _ _ M n B Hr eq_refl)) as (nd & End & E1 & _ & _ & _ & E2).
  rewrite End. cbn [mbind option_bind]. rewrite E1. cbn [mbind option_bind]. rewrite E2, Hsame. cbn [negb].
  rewrite (back_test h zsl M n B s nd Hr End). cbn [mbind option_bind]. rewrite bind_assoc3, (fwd_test h zsl M n B s nd Hr End).
  cbn [mbind option_bind]. assert (n_ele n = e) as Ee.
  { unfold same_key in Hsame. by apply andb_true_iff in Hsame as [_ ?%bool_decide_eq_true]. }
  clear E2. destruct (_ && _) eqn:Etest; [|subst e; by eapply reinsert_rep]. apply andb_true_iff in Etest as [Eb Ef].
  destruct (node_at _ _ _ M n B Hr eq_refl) as [Hi _].
  destruct (set_score_spec h (n_ptr n) s _ _ _ _ Hi) as (h1 & Es & _). rewrite Es. cbn [mbind option_bind].
  pose proof (zr_sorted _ _ _ Hr) as Hs. apply sorted_keys_app in Hs as (HsM & [_ HsB]%sorted_keys_cons & _).
  assert (Forall (fun m => key_lt (key m) (s, e) = true) M) as HM'.
  { apply below_all; [done|]. intros m Hm. by rewrite Hm in Eb. }
  assert (Forall (fun m => key_lt (s, e) (key m) = true) B) as HB'.
  { apply above_all; [done|]. intros m Hm. by rewrite Hm in Ef. }
  exists h1, zsl, (n_ptr n), (M ++ rescored n s :: B). split; [done|]. split; [done|]. subst e.
  split_and!; [by eapply set_score_rep| |rewrite fmap_app, fmap_cons; set_solver|].
  - rewrite (zl_insert_split _ M B HM' HB'), fmap_app. done.
  - intros F [Hd Hf]. unfold owns. rewrite !fmap_app, !fmap_cons in *. rewrite (set_score_dom _ _ _ _ Es). done.
Qed.

(** ** Ranks *)

(** One level of a rank search, from [P] to the stop of level [i]. *)
Lemma walk_level h zsl M B T i P M1 x :
  zsl_rep h zsl (M ++ B) -> separates T M B -> M = P ++ M1 -> at_pos zsl P x -> (i < zsl_level zsl)%nat ->
  (forall j, (j <= i)%nat -> ends_tall j P) ->
  exists D x', walk (base.size h) h 64 (fun fn r => T (ele fn) (score fn) r) i x (zlen P) = Some (x', zlen (cut i M)) /\
    at_pos zsl (cut i M) x' /\ M = cut i M ++ D /\ forall j, (j < i)%nat -> ends_tall j (cut i M).
Proof using Type.
  intros Hr Hs EM Hx Hi He. destruct (walk_spec h zsl (M ++ B) 64 T i x P M1 B (base.size h) Hr) as (x' & Hw & Hx');
    [by rewrite EM, <- app_assoc|lia|done|by rewrite <- EM|done|apply He; lia| |].
  { pose proof (rep_size _ _ _ Hr) as Hsz. rewrite EM, !length_app in Hsz. lia. }
  assert (P ++ cut i M1 = cut i M) as Ec by (rewrite EM, cut_app; [done|apply He; lia]). rewrite Ec in *.
  destruct (cut_rest i M) as (D & ED & _ & HeD). exists D, x'. split_and!; try done.
  intros j Hj n Hn. specialize (HeD n Hn). lia.
Qed.

Definition key_le (k : S * list Z) (n : @entry S) : bool :=
  slt (n_score n) k.1 || (seqb (n_score n) k.1 && (cmp_bytes (n_ele n) k.2 <=? 0)).

Definition rank_test (s : S) (e : list Z) (e' : option (list Z)) (s' : S) (_ : Z) : bool :=
  slt s' s || (seqb s' s && match e' with Some e' => cmp_bytes e' e <=? 0 | None => false end).

(** The element at the end of [P], none for the header. *)
Lemma stop_ele h zsl P D x :
  zsl_rep h zsl (P ++ D) -> at_pos zsl P x -> exists nd, h !! x = Some nd /\ ele nd = n_ele <$> last P.
Proof using Type.
  intros Hr ->. unfold last_ptr. destruct (last P) as [n|] eqn:El; simpl.
  - apply last_Some in El as (P' & ->). rewrite <- app_assoc in Hr.
    destruct (entry_lookup _ _ _ _ (node_at _ _ _ P' n D Hr eq_refl)) as (nd & E & Ee & _). eauto.
  - destruct (zr_info _ _ _ Hr) as [s Hi]. unfold info in Hi. destruct (h !! header zsl) as [nd|]; [|done].
    simpl in Hi. injection Hi as Ee _ _ _. eauto.
Qed.

Lemma rank_loop_spec h zsl M B s e i P M1 x (r : Z) :
  zsl_rep h zsl (M ++ B) -> separates (rank_test s e) M B ->
  (forall P D, M = P ++ D -> (n_ele <$> last P = Some e -> zlen P = r) /\ (D = [] -> n_ele <$> last P = Some e \/ r = 0)) ->
  M = P ++ M1 -> at_pos zsl P x -> (i <= zsl_level zsl)%nat -> (forall j, (j < i)%nat -> ends_tall j P) ->
  (i = 0%nat -> r = 0) -> rank_loop h s e i x (zlen P) = Some r.
Proof using Type.
  intros Hr Hs Hres. revert P M1 x. induction i as [|i IH]; intros P M1 x EM Hx Hi He H0.
  { simpl. by rewrite H0. }
  cbn [rank_loop].
  destruct (walk_level h zsl M B (rank_test s e) i P M1 x Hr Hs EM Hx ltac:(lia) ltac:(intros j Hj; apply He; lia)) as (D & x' & Hw & Hx' & ED & He').
  unfold rank_test in Hw at 1. rewrite Hw. cbn [mbind option_bind].
  assert (zsl_rep h zsl (cut i M ++ (D ++ B))) as Hr' by by rewrite app_assoc, <- ED.
  destruct (stop_ele h zsl (cut i M) (D ++ B) x' Hr' Hx') as (nd & -> & Ee). cbn [mbind option_bind]. rewrite Ee.
  destruct (Hres _ _ ED) as [Hfound Hlast].
  assert (i = 0%nat -> D = []) as HD.
  { intros ->. rewrite (cut_0 _ _ _ _ _ Hr eq_refl) in ED. apply (f_equal length) in ED. rewrite length_app in ED.
    destruct D; [done|simpl in ED; lia]. }
  destruct (n_ele <$> last (cut i M)) as [e'|] eqn:El.
  - destruct (Z.eqb_spec (cmp_bytes e' e) 0) as [Ec|Ec].
    + apply cmp_bytes_eq in Ec as ->. by rewrite Hfound.
    + apply (IH (cut i M) D); try done; [lia|]. intros E0. destruct (Hlast (HD E0)) as [Hl|Hl]; [|done].
      exfalso. apply Ec. injection Hl as ->. by apply cmp_bytes_eq.
  - apply (IH (cut i M) D); try done; [lia|]. intros E0. by destruct (Hlast (HD E0)).
Qed.

Lemma key_le_down L k : sorted_keys L ->
  exists M B, L = M ++ B /\ Forall (fun n => key_le k n = true) M /\ Forall (fun n => key_le k n = false) B.
Proof.
  intros Hs. apply split_at. intros i j a b Hij Ha Hb Hk. specialize (Hs i j a b Hij Ha Hb).
  unfold key_le, key_lt in *. rewrite !orb_true_iff, !andb_true_iff, !Z.leb_le, Z.ltb_lt in *. simpl in Hs.
  destruct Hs as [Hs|[Hs Hc]], Hk as [Hk|[Hk Hc']].
  - left. by eapply slt_trans.
  - left. by rewrite <- (slt_seq_r _ _ _ Hk).
  - left. by rewrite (slt_seq_l _ _ _ Hs).
  - right. split; [by eapply seq_trans|]. destruct (Z.eq_dec (cmp_bytes (n_ele b) k.2) 0) as [E|E].
    + apply cmp_bytes_eq in E. rewrite <- E. lia.
    + pose proof (cmp_bytes_trans (n_ele a) (n_ele b) k.2). lia.
Qed.

Lemma zslGetRank_spec h zsl L s e M B :
  zsl_rep h zsl L -> L = M ++ B -> Forall (fun n => key_le (s, e) n = true) M -> Forall (fun n => key_le (s, e) n = false) B ->
  forall r, (forall P D, M = P ++ D -> (n_ele <$> last P = Some e -> zlen P = r) /\ (D = [] -> n_ele <$> last P = Some e \/ r = 0)) ->
  zslGetRank h zsl s e = Some r.
Proof.
  intros Hr -> HM HB r Hres. unfold zslGetRank. pose proof (zsl_level_pos _ _ _ Hr).
  apply (rank_loop_spec h zsl M B s e (zsl_level zsl) [] M (header zsl) r); try done; [|lia].
  by apply (separates_fn (fun e' s' => rank_test s e e' s' 0)).
Qed.

(** The element is there with that score: its position, from 1. *)
Lemma zslGetRank_found h zsl A n B s :
  zsl_rep h zsl (A ++ n :: B) -> NoDup (n_ele <$> A ++ n :: B) -> seqb (n_score n) s = true ->
  zslGetRank h zsl s (n_ele n) = Some (zlen A + 1).
Proof.
  intros Hr Hnd Es. pose proof (zr_sorted _ _ _ Hr) as Hs. apply sorted_keys_app in Hs as (_ & [HnB _]%sorted_keys_cons & HAn).
  assert (A ++ n :: B = (A ++ [n]) ++ B) as EL by by rewrite <- app_assoc.
  assert (key_le (s, n_ele n) n = true) as Hn.
  { unfold key_le. simpl. rewrite Es, (proj2 (cmp_bytes_eq _ _) eq_refl). by rewrite orb_true_r. }
  apply (zslGetRank_spec h zsl _ s (n_ele n) (A ++ [n]) B Hr EL).
  - apply Forall_app. split; [|by constructor]. eapply Forall_impl; [exact HAn|]. intros a Ha. cbv beta in Ha.
    apply Forall_cons in Ha as [Ha _]. unfold key_lt, key_le in *. simpl in *.
    rewrite (slt_seq_r _ _ _ Es) in Ha. destruct (slt (n_score a) s); [done|]. simpl in Ha |- *.
    apply andb_true_iff in Ha as [Ha Hc]. apply andb_true_iff. split; [by eapply seq_trans|]. apply Z.leb_le.
    apply Z.ltb_lt in Hc. lia.
  - eapply Forall_impl; [exact HnB|]. intros b Hb. cbv beta in Hb. unfold key_lt, key_le in *. simpl in *.
    rewrite (slt_seq_l _ _ _ Es) in Hb. apply orb_false_iff. apply orb_true_iff in Hb as [Hb|Hb].
    + split; [by apply slt_asym|]. rewrite (seq_sym (n_score b) s). by rewrite (slt_not_seq _ _ Hb).
    + apply andb_true_iff in Hb as [Hb Hc]. apply Z.ltb_lt in Hc. split.
      * rewrite <- (slt_seq_r _ _ _ Es). destruct (slt (n_score b) (n_score n)) eqn:F; [|done].
        apply slt_not_seq in F. rewrite seq_sym in F. congruence.
      * apply andb_false_iff. right. apply Z.leb_gt. rewrite (cmp_bytes_sym (n_ele n)). lia.
  - intros P D EP. split.
    + intros Hl. destruct D as [|d D _] using rev_ind.
      { rewrite app_nil_r in EP. rewrite <- EP, zlen_app, zlen_cons. change (zlen (@nil (@entry S))) with 0. lia. }
      exfalso. rewrite app_assoc in EP. apply app_inj_tail in EP as [-> <-].
      destruct (last P) as [m|] eqn:El; [|done]. simpl in Hl. injection Hl as Hl. apply last_Some in El as (P' & ->).
      rewrite fmap_app, fmap_cons, <- Permutation_middle in Hnd. apply NoDup_cons in Hnd as [Hnd _]. apply Hnd.
      rewrite !fmap_app, <- Hl. set_solver.
    + intros ->. left. rewrite app_nil_r in EP. rewrite <- EP, last_snoc. done.
Qed.

(** The element is not there: 0. *)
Lemma zslGetRank_absent h zsl L s e :
  zsl_rep h zsl L -> e ∉ n_ele <$> L -> zslGetRank h zsl s e = Some 0.
Proof.
  intros Hr Hn. destruct (key_le_down L (s, e) (zr_sorted _ _ _ Hr)) as (M & B & EL & HM & HB).
  apply (zslGetRank_spec h zsl L s e M B Hr EL HM HB). intros P D EP. split; [|by right].
  intros Hl. exfalso. apply Hn. destruct (last P) as [m|] eqn:El; [|done]. injection Hl as Hl. subst e.
  apply list_elem_of_fmap_2. rewrite EL, EP, !elem_of_app. left. left. by apply last_Some_elem_of.
Qed.

Lemma by_rank_loop_spec h zsl M B r i P M1 x :
  zsl_rep h zsl (M ++ B) -> separates (fun _ _ k => k <=? r) M B -> 1 <= r ->
  zlen M <= r -> M = P ++ M1 -> at_pos zsl P x -> (i <= zsl_level zsl)%nat -> (forall j, (j < i)%nat -> ends_tall j P) ->
  (i = 0%nat -> zlen M <> r) ->
  by_rank_loop h r i x (zlen P) = Some (if zlen M =? r then last_ptr M else None).
Proof.
  intros Hr Hs H1 Hle. revert P M1 x. induction i as [|i IH]; intros P M1 x EM Hx Hi He H0.
  { simpl. destruct (Z.eqb_spec (zlen M) r); [by apply H0 in e|done]. }
  cbn [by_rank_loop].
  destruct (walk_level h zsl M B (fun _ _ k => k <=? r) i P M1 x Hr Hs EM Hx ltac:(lia) ltac:(intros j Hj; apply He; lia)) as (D & x' & Hw & Hx' & ED & He').
  rewrite Hw. cbn [mbind option_bind]. assert (zlen M = zlen (cut i M) + zlen D) as Elen by (rewrite ED at 1; apply zlen_app).
  pose proof (zlen_nonneg D). destruct (Z.eqb_spec (zlen (cut i M)) r) as [E|E].
  - assert (D = []) as ->; [|rewrite app_nil_r in ED].
    { destruct D; [done|]. rewrite zlen_cons in Elen. pose proof (zlen_nonneg D). lia. }
    rewrite <- ED in *. rewrite (proj2 (Z.eqb_eq _ _)) by lia. rewrite Hx'.
    unfold last_ptr. destruct (last M) eqn:El; [done|]. apply last_None in El. rewrite El in E. change (zlen (@nil (@entry S))) with 0 in E. lia.
  - apply (IH (cut i M) D); try done; [lia|]. intros ->. rewrite (cut_0 _ _ _ _ _ Hr eq_refl) in E. done.
Qed.

Lemma separates_rank M B r :
  zlen M <= r -> (B = [] \/ zlen M = r) -> separates (fun _ _ k => k <=? r) M B.
Proof.
  intros HM HB. split.
  - intros C n D ->. rewrite zlen_app, zlen_cons in HM. pose proof (zlen_nonneg D). apply Z.leb_le. lia.
  - intros C n D ->. pose proof (zlen_nonneg C). destruct HB as [HB|HB]; [by destruct C|]. apply Z.leb_gt. lia.
Qed.

Lemma zslGetElementByRank_spec h zsl L r :
  zsl_rep h zsl L -> 1 <= r ->
  zslGetElementByRank h zsl r = Some (n_ptr <$> L !! Z.to_nat (r - 1)).
Proof.
  intros Hr H1. pose proof (zsl_level_pos _ _ _ Hr). unfold zslGetElementByRank.
  set (k := Z.to_nat r). rewrite <- (take_drop k L) in Hr.
  assert (zlen (take k L) = Z.min r (zlen L)) as Elen by (unfold zlen, k; rewrite length_take; lia).
  assert (drop k L = [] \/ zlen (take k L) = r) as Hd.
  { destruct (Z.le_gt_cases r (zlen L)); [right; lia|]. left. apply drop_ge. unfold zlen, k in *. lia. }
  change 0 with (zlen (@nil (@entry S))) at 1.
  rewrite (by_rank_loop_spec h zsl (take k L) (drop k L) r (zsl_level zsl) [] (take k L) (header zsl)); try done; try lia.
  2:{ apply separates_rank; [lia|done]. }
  f_equal. destruct (Z.eqb_spec (zlen (take k L)) r) as [E|E].
  - unfold last_ptr. rewrite last_lookup, length_take. f_equal. rewrite lookup_take_lt by (unfold zlen, k in *; lia).
    f_equal. unfold zlen, k in *. lia.
  - rewrite lookup_ge_None_2 by (unfold zlen, k in *; lia). done.
Qed.

(** ** Score ranges *)

Definition in_range (range : @zrangespec S) (n : @entry S) : bool :=
  zslValueGteMin (n_score n) range && zslValueLteMax (n_score n) range.

Lemma slt_le_trans a b c : (slt a b || seqb a b = true) -> slt b c = true -> slt a c = true.
Proof. rewrite orb_true_iff. intros [E|E] F; [by eapply slt_trans|by rewrite (slt_seq_l _ _ _ E)]. Qed.

Lemma slt_le_trans' a b c : slt a b = true -> (slt b c || seqb b c = true) -> slt a c = true.
Proof. rewrite orb_true_iff. intros F [E|E]; [by eapply slt_trans|by rewrite <- (slt_seq_r _ _ _ E)]. Qed.

Lemma sle_trans a b c : slt a b || seqb a b = true -> slt b c || seqb b c = true -> slt a c || seqb a c = true.
Proof.
  intros Hab Hbc. apply orb_true_iff in Hab as [E|E].
  - rewrite (slt_le_trans' a b c) by done. done.
  - rewrite orb_true_iff in *. destruct Hbc as [F|F]; [left; by rewrite (slt_seq_l _ _ _ E)|right; by eapply seq_trans].
Qed.

Lemma sle_ge a b : (slt b a || seqb a b) = (slt b a || seqb b a).
Proof. by rewrite (seq_sym a b). Qed.

Lemma key_lt_sle a b : key_lt (key a) (key b) = true -> slt (n_score a) (n_score b) || seqb (n_score a) (n_score b) = true.
Proof. unfold key_lt. simpl. rewrite !orb_true_iff, andb_true_iff. tauto. Qed.

Lemma gte_min_up range a b :
  key_lt (key a) (key b) = true -> zslValueGteMin (n_score a) range = true -> zslValueGteMin (n_score b) range = true.
Proof.
  intros Hab%key_lt_sle. unfold zslValueGteMin, sgt, sge. rewrite !sle_ge. destruct (r_minex range); intros Ha.
  - by eapply slt_le_trans'.
  - by eapply sle_trans.
Qed.

Lemma lte_max_down range a b :
  key_lt (key a) (key b) = true -> zslValueLteMax (n_score b) range = true -> zslValueLteMax (n_score a) range = true.
Proof.
  intros Hab%key_lt_sle. unfold zslValueLteMax, sle. destruct (r_maxex range); intros Hb.
  - by eapply slt_le_trans.
  - by eapply sle_trans.
Qed.

(** Below the range, inside, above: a sorted list has them in that order. *)
Lemma split_min range L : sorted_keys L ->
  exists M B, L = M ++ B /\ Forall (fun n => zslValueGteMin (n_score n) range = false) M /\
    Forall (fun n => zslValueGteMin (n_score n) range = true) B.
Proof.
  intros Hs. destruct (split_at (fun n => negb (zslValueGteMin (n_score n) range)) L) as (M & B & -> & HM & HB).
  { intros i j a b Hij Ha Hb. rewrite !negb_true_iff. intros Hn. destruct (zslValueGteMin (n_score a) range) eqn:E; [|done].
    by rewrite (gte_min_up range a b) in Hn by eauto. }
  exists M, B. split; [done|]. split.
  - eapply Forall_impl; [exact HM|]. intros n. by rewrite negb_true_iff.
  - eapply Forall_impl; [exact HB|]. intros n. by rewrite negb_false_iff.
Qed.

Lemma split_max range L : sorted_keys L ->
  exists M B, L = M ++ B /\ Forall (fun n => zslValueLteMax (n_score n) range = true) M /\
    Forall (fun n => zslValueLteMax (n_score n) range = false) B.
Proof.
  intros Hs. apply split_at. intros i j a b Hij Ha Hb. apply lte_max_down. by eapply Hs.
Qed.

Lemma last_entry h zsl M n :
  zsl_rep h zsl (M ++ [n]) -> tail zsl = Some (n_ptr n) /\ exists nd, h !! n_ptr n = Some nd /\ score nd = n_score n.
Proof.
  intros Hr. rewrite (zr_tail _ _ _ Hr). unfold last_ptr. rewrite last_snoc. split; [done|].
  destruct (entry_lookup _ _ _ _ (node_at _ _ _ M n [] Hr eq_refl)) as (nd & E & _ & Es & _). eauto.
Qed.

Lemma first_entry h zsl n B :
  zsl_rep h zsl (n :: B) -> (exists l, get_level h (header zsl) 0 = Some l /\ forward l = Some (n_ptr n)) /\
  exists nd, h !! n_ptr n = Some nd /\ score nd = n_score n.
Proof.
  intros Hr. split.
  - exists (lv (n :: B) 0). split; [apply (next_level h zsl [] (n :: B) Hr)|]. by rewrite (lv_first h zsl (n :: B) [] (n :: B) Hr eq_refl).
  - destruct (entry_lookup _ _ _ _ (node_at _ _ _ [] n B Hr eq_refl)) as (nd & E & _ & Es & _). eauto.
Qed.

Definition empty_range (range : @zrangespec S) : bool :=
  sgt (r_min range) (r_max range) || (seqb (r_min range) (r_max range) && (r_minex range || r_maxex range)).

Lemma zslIsInRange_spec h zsl L range :
  zsl_rep h zsl L ->
  zslIsInRange h zsl range = Some (negb (empty_range range) &&
    match last L with Some n => zslValueGteMin (n_score n) range | None => false end &&
    match head L with Some n => zslValueLteMax (n_score n) range | None => false end).
Proof.
  intros Hr. unfold zslIsInRange. fold (empty_range range). destruct (empty_range range); [done|]. cbn [negb andb].
  destruct L as [|n L].
  { rewrite (zr_tail _ _ _ Hr). done. }
  destruct (first_entry h zsl n L Hr) as [(l & El & Ef) (nd & En & Es)].
  destruct (last (n :: L)) as [m|] eqn:Elast; [|by apply last_None in Elast]. apply last_Some in Elast as (M & EM).
  rewrite EM in Hr. destruct (last_entry h zsl M m Hr) as [-> (md & -> & Em)]. cbn [mbind option_bind].
  rewrite Em. destruct (zslValueGteMin (n_score m) range); [|done]. cbn [negb]. rewrite El. cbn [mbind option_bind].
  rewrite Ef, En. cbn [mbind option_bind]. by rewrite Es.
Qed.

Lemma in_empty_range range n : empty_range range = true -> in_range range n = false.
Proof.
  unfold empty_range, in_range. intros He. destruct (zslValueGteMin (n_score n) range) eqn:Eg; [|done].
  destruct (zslValueLteMax (n_score n) range) eqn:El; [|done]. exfalso.
  unfold zslValueGteMin, zslValueLteMax, sgt, sge, sle in *. rewrite ?sle_ge in *.
  assert (slt (r_min range) (n_score n) || seqb (r_min range) (n_score n) = true) as Hg by (destruct (r_minex range); [by rewrite Eg|done]).
  assert (slt (n_score n) (r_max range) || seqb (n_score n) (r_max range) = true) as Hl by (destruct (r_maxex range); [by rewrite El|done]).
  pose proof (sle_trans _ _ _ Hg Hl) as Hmm. apply orb_true_iff in He as [He|He].
  - pose proof (slt_not_seq _ _ He) as F. rewrite seq_sym in F. by rewrite (slt_asym _ _ He), F in Hmm.
  - apply andb_true_iff in He as [He Hex]. assert (slt (r_min range) (r_max range) = true) as Hlt.
    { apply orb_true_iff in Hex as [Hex|Hex]; rewrite Hex in *; [by apply (slt_le_trans' _ (n_score n))|by apply (slt_le_trans _ (n_score n))]. }
    apply slt_not_seq in Hlt. congruence.
Qed.

Lemma range_last_min range L n : sorted_keys L -> last L = Some n -> zslValueGteMin (n_score n) range = false ->
  Forall (fun m => in_range range m = false) L.
Proof.
  intros Hs Hl Hn. destruct (split_min range L Hs) as (M & B & -> & HM & HB). apply Forall_app. split.
  - eapply Forall_impl; [exact HM|]. intros m Hm. unfold in_range. by rewrite Hm.
  - destruct B as [|b B _] using rev_ind; [constructor|]. exfalso. rewrite app_assoc, last_snoc in Hl. injection Hl as ->.
    apply Forall_app in HB as [_ HB]. apply Forall_cons in HB as [HB _]. congruence.
Qed.

Lemma range_head_max range L n : sorted_keys L -> head L = Some n -> zslValueLteMax (n_score n) range = false ->
  Forall (fun m => in_range range m = false) L.
Proof.
  intros Hs Hl Hn. destruct (split_max range L Hs) as (M & B & -> & HM & HB). destruct M as [|m M].
  - eapply Forall_impl; [exact HB|]. intros m Hm. unfold in_range. cbv beta in Hm. rewrite Hm. by rewrite andb_false_r.
  - exfalso. simpl in Hl. injection Hl as ->. apply Forall_cons in HM as [HM _]. congruence.
Qed.

(** When [zslIsInRange] says no, no element is in the range. *)
Lemma not_in_range h zsl L range :
  zsl_rep h zsl L -> zslIsInRange h zsl range = Some false -> Forall (fun n => in_range range n = false) L.
Proof.
  intros Hr. rewrite (zslIsInRange_spec h zsl L range Hr). intros E. injection E as E. pose proof (zr_sorted _ _ _ Hr) as Hs.
  apply andb_false_iff in E as [[E|E]%andb_false_iff|E].
  - apply Forall_forall. intros n _. apply in_empty_range. by apply negb_false_iff.
  - destruct (last L) as [n|] eqn:El; [by eapply range_last_min|]. by apply last_None in El as ->.
  - destruct (head L) as [n|] eqn:El; [by eapply range_head_max|]. by destruct L.
Qed.

Lemma range_filter_none range L :
  Forall (fun n => in_range range n = false) L -> filter (fun n => in_range range n = true) L = [].
Proof. intros HL. apply filter_none. by apply (bool_false_Forall (in_range range)). Qed.

Lemma below_range range M : Forall (fun n => zslValueGteMin (n_score n) range = false) M ->
  Forall (fun n => in_range range n = false) M.
Proof. intros HM. eapply Forall_impl; [exact HM|]. intros n Hn. unfold in_range. by rewrite Hn. Qed.

Lemma above_range range M : Forall (fun n => zslValueLteMax (n_score n) range = false) M ->
  Forall (fun n => in_range range n = false) M.
Proof. intros HM. eapply Forall_impl; [exact HM|]. intros n Hn. unfold in_range. cbv beta in Hn. rewrite Hn. apply andb_false_r. Qed.

Lemma zslFirstInRange_spec h zsl L range :
  zsl_rep h zsl L ->
  zslFirstInRange h zsl range = Some (n_ptr <$> head (filter (fun n => in_range range n = true) L)).
Proof.
  intros Hr. pose proof (zr_sorted _ _ _ Hr) as Hs. unfold zslFirstInRange.
  destruct (zslIsInRange h zsl range) as [[]|] eqn:Ein; [| |by rewrite (zslIsInRange_spec h zsl L range Hr) in Ein]; cbn [mbind option_bind negb].
  2: by rewrite (range_filter_none range L (not_in_range _ _ _ _ Hr Ein)).
  destruct (split_min range L Hs) as (M & B & -> & HM & HB).
  assert (separates (fun _ s _ => negb (zslValueGteMin s range)) M B) as Hsep.
  { apply (separates_fn (fun _ s => negb (zslValueGteMin s range))).
    - eapply Forall_impl; [exact HM|]. intros n. by rewrite negb_true_iff.
    - eapply Forall_impl; [exact HB|]. intros n. by rewrite negb_false_iff. }
  destruct (descend_next h zsl M B _ Hr Hsep) as (-> & E0 & l & El & Ef).
  cbn [mbind option_bind]. rewrite E0. cbn [mbind option_bind]. rewrite El. cbn [mbind option_bind]. rewrite Ef.
  rewrite filter_app, (range_filter_none range M (below_range _ _ HM)). simpl app.
  destruct B as [|b B]; simpl.
  - exfalso. rewrite (zslIsInRange_spec h zsl (M ++ []) range Hr), app_nil_r in Ein. destruct (last M) as [m|] eqn:Em.
    + apply last_Some_elem_of in Em. rewrite (proj1 (Forall_forall _ _) HM m Em) in Ein. by rewrite andb_false_r in Ein.
    + by rewrite andb_false_r in Ein.
  - destruct (entry_lookup _ _ _ _ (node_at _ _ _ M b B Hr eq_refl)) as (nd & -> & _ & Es & _). cbn [mbind option_bind]. rewrite Es.
    apply Forall_cons in HB as [Hb HB]. destruct (zslValueLteMax (n_score b) range) eqn:Em; cbn [negb].
    + rewrite filter_cons_True by (unfold in_range; by rewrite Hb, Em). done.
    + apply sorted_keys_app in Hs as (_ & Hs & _).
      by rewrite (range_filter_none range (b :: B) (range_head_max range (b :: B) b Hs eq_refl Em)).
Qed.

Lemma zslLastInRange_spec h zsl L range :
  zsl_rep h zsl L ->
  zslLastInRange h zsl range = Some (n_ptr <$> last (filter (fun n => in_range range n = true) L)).
Proof.
  intros Hr. pose proof (zr_sorted _ _ _ Hr) as Hs. unfold zslLastInRange.
  destruct (zslIsInRange h zsl range) as [[]|] eqn:Ein; [| |by rewrite (zslIsInRange_spec h zsl L range Hr) in Ein]; cbn [mbind option_bind negb].
  2: by rewrite (range_filter_none range L (not_in_range _ _ _ _ Hr Ein)).
  destruct (split_max range L Hs) as (M & B & -> & HM & HB).
  pose proof (separates_fn (fun _ s => zslValueLteMax s range) M B HM HB) as Hsep.
  destruct (descend_next h zsl M B _ Hr Hsep) as (-> & E0 & _).
  cbn [mbind option_bind]. rewrite E0. cbn [mbind option_bind].
  rewrite filter_app, (range_filter_none range B (above_range _ _ HB)), app_nil_r.
  destruct M as [|m M _] using rev_ind.
  - exfalso. rewrite (zslIsInRange_spec h zsl B range Hr) in Ein. destruct B as [|b B]; [by rewrite andb_false_r in Ein|].
    apply Forall_cons in HB as [Hb _]. cbv beta in Hb. cbn [head] in Ein. rewrite Hb in Ein. by rewrite andb_false_r in Ein.
  - unfold at_end, last_ptr. rewrite last_snoc. simpl. rewrite <- app_assoc in Hr.
    destruct (entry_lookup _ _ _ _ (node_at _ _ _ M m B Hr eq_refl)) as (nd & -> & _ & Es & _). cbn [mbind option_bind]. rewrite Es.
    apply Forall_app in HM as HM2. destruct HM2 as [_ HM2]. apply Forall_cons in HM2 as [Hm _].
    destruct (zslValueGteMin (n_score m) range) eqn:Em; cbn [negb].
    + rewrite filter_app, filter_cons_True by (unfold in_range; by rewrite Em, Hm). by rewrite filter_nil, last_snoc.
    + apply sorted_keys_app in Hs as (Hs & _). 
      by rewrite (range_filter_none range (M ++ [m]) (range_last_min range (M ++ [m]) m Hs (last_snoc _ _) Em)).
Qed.

(** ** Deleting a run of entries *)

Lemma update_take zsl0 zsl M N :
  header zsl = header zsl0 -> (zsl_level zsl <= N)%nat ->
  take (zsl_level zsl) ((update_of zsl0 M N).*1) = take (zsl_level zsl) ((update_of zsl M (zsl_level zsl)).*1).
Proof using Type.
  intros Eh HN. assert (forall n, (update_of zsl M n).*1 = (update_of zsl0 M n).*1) as E.
  { intros n. unfold update_of. rewrite <- !list_fmap_compose. apply list_fmap_ext. intros i k _. simpl. unfold cut_ptr. by rewrite Eh. }
  rewrite E. unfold update_of. rewrite <- !fmap_take. do 2 f_equal. rewrite !take_seq. f_equal. lia.
Qed.

Lemma zslDeleteNode_take h zsl x up up' :
  take (zsl_level zsl) up = take (zsl_level zsl) up' -> zslDeleteNode h zsl x up = zslDeleteNode h zsl x up'.
Proof using Type. intros E. unfold zslDeleteNode. by rewrite E. Qed.

Lemma delete_while_spec (f : option (list Z) -> S -> Z -> bool) zsl0 M D B fuel h zsl dict t removed :
  zsl_rep h zsl (M ++ D ++ B) -> header zsl = header zsl0 -> (zsl_level zsl <= zsl_level zsl0)%nat ->
  (forall C n D', D = C ++ n :: D' -> f (Some (n_ele n)) (n_score n) (t + zlen C) = true) ->
  (forall n, head B = Some n -> f (Some (n_ele n)) (n_score n) (t + zlen D) = false) ->
  0 <= t -> t + zlen D < 2 ^ 64 -> 0 <= removed -> removed + zlen D < 2 ^ 64 -> (length D <= fuel)%nat ->
  exists h' zsl', delete_while fuel h zsl ((update_of zsl0 M (zsl_level zsl0)).*1) (fun n t => f (ele n) (score n) t) dict
      (n_ptr <$> head (D ++ B)) t removed
    = Some (h', zsl', foldl (fun d e => delete e d) dict (n_ele <$> D), removed + zlen D) /\
    zsl_rep h' zsl' (M ++ B) /\ header zsl' = header zsl /\ dom h' = dom h ∖ list_to_set (n_ptr <$> D).
Proof.
  revert h zsl dict t removed D. induction fuel as [|fuel IH]; intros h zsl dict t removed D Hr Eh Hlev HD HB Ht Ht' Hrm Hrm' Hf.
  all: destruct D as [|n D]; [|try (simpl in Hf; lia)].
  1,2: exists h, zsl; rewrite Z.add_0_r; split_and!; [|done|done|set_solver].
  1,2: destruct B as [|b B]; [done|]; simpl;
    destruct (entry_lookup _ _ _ _ (node_at _ _ _ M b B Hr eq_refl)) as (nd & -> & Ee & Es & _); cbn [mbind option_bind];
    rewrite Ee, Es; specialize (HB b eq_refl); rewrite Z.add_0_r in HB; by rewrite HB.
  pose proof (zlen_nonneg D) as HzD. rewrite zlen_cons in *.
  simpl app. destruct (node_at _ _ _ M n (D ++ B) Hr eq_refl) as [_ Hlv].
  destruct (entry_lookup _ _ _ _ (node_at _ _ _ M n (D ++ B) Hr eq_refl)) as (nd & End & Ee & Es & _).
  pose proof (hgt_at _ _ _ n Hr ltac:(set_solver)) as Hh. specialize (Hlv 0%nat ltac:(lia)).
  cbn [head]. change (n_ptr <$> Some n) with (Some (n_ptr n)). cbn [delete_while]. rewrite End. cbn [mbind option_bind]. rewrite Ee, Es.
  pose proof (HD [] n D eq_refl) as Hn. change (zlen (@nil (@entry S))) with 0 in Hn. rewrite Z.add_0_r in Hn. rewrite Hn.
  unfold get_level in Hlv. rewrite End in Hlv. cbn [mbind option_bind] in Hlv. rewrite Hlv. cbn [mbind option_bind].
  rewrite (zslDeleteNode_take h zsl (n_ptr n) _ _ (update_take zsl0 zsl M (zsl_level zsl0) Eh Hlev)).
  destruct (delete_free h zsl M n (D ++ B) Hr) as (h1 & zsl1 & E1 & _ & Eh1 & _ & Hr1 & _). rewrite E1. cbn [mbind option_bind].
  assert (M ++ n :: D ++ B = (M ++ [n]) ++ D ++ B) as EL by by rewrite <- app_assoc.
  rewrite (lv_first _ _ _ (M ++ [n]) (D ++ B) Hr EL). rewrite !uwrap_small by (unfold in_u; lia).
  destruct (IH (zslFreeNode h1 (n_ptr n)) zsl1 (delete (n_ele n) dict) (t + 1) (removed + 1) D) as (h' & zsl' & E & Hr' & Eh' & Ed).
  - done.
  - congruence.
  - rewrite (zr_level _ _ _ Hr1). rewrite (zr_level _ _ _ Hr) in Hlev. rewrite !max_hgt_app in *.
    change (max_hgt (n :: D)) with (Nat.max (hgt n) (max_hgt D)) in Hlev. lia.
  - intros C m D' E. rewrite <- (HD (n :: C) m D'); [|by rewrite E]. f_equal. rewrite zlen_cons. lia.
  - intros b Hb. rewrite <- (HB b Hb). f_equal. lia.
  - lia.
  - lia.
  - lia.
  - lia.
  - simpl in Hf. lia.
  - exists h', zsl'. rewrite E. split_and!; [|done|congruence|].
    + f_equal. f_equal. lia.
    + rewrite Ed. unfold zslFreeNode. rewrite dom_delete_L, (zslDeleteNode_dom _ _ _ _ _ _ E1). rewrite fmap_cons. set_solver.
Qed.

(** The two halves of a sorted set: the map has the elements of the list,
    each with its score. *)
Definition zset_ok (dict : gmap (list Z) S) (L : entries) : Prop :=
  NoDup (n_ele <$> L) /\ forall e s, dict !! e = Some s <-> exists n, n ∈ L /\ n_ele n = e /\ n_score n = s.

Lemma foldl_delete_lookup (dict : gmap (list Z) S) (es : list (list Z)) e :
  foldl (fun d e => delete e d) dict es !! e = if bool_decide (e ∈ es) then None else dict !! e.
Proof using Type.
  revert dict. induction es as [|a es IH]; intros dict; [done|]. simpl. rewrite IH.
  destruct (decide (e ∈ es)) as [He|He].
  - rewrite !bool_decide_eq_true_2 by (done || by right). done.
  - rewrite (bool_decide_eq_false_2 (e ∈ es)) by done. destruct (decide (e = a)) as [->|Hne].
    + rewrite lookup_delete_eq, bool_decide_eq_true_2 by by left. done.
    + rewrite lookup_delete_ne by done. rewrite bool_decide_eq_false_2; [done|]. by intros [?|?]%elem_of_cons.
Qed.

Lemma zset_ok_remove dict M D B :
  zset_ok dict (M ++ D ++ B) -> zset_ok (foldl (fun d e => delete e d) dict (n_ele <$> D)) (M ++ B).
Proof using Type.
  intros [Hnd Hd]. assert (Hp : M ++ D ++ B ≡ₚ D ++ M ++ B) by (rewrite !app_assoc; f_equiv; apply Permutation_app_comm).
  rewrite Hp in Hnd. rewrite fmap_app in Hnd. apply NoDup_app in Hnd as (HD & Hdis & HMB). split; [done|].
  intros e s. rewrite foldl_delete_lookup. case_bool_decide as He.
  - split; [done|]. intros (n & Hn & <- & _). exfalso. apply (Hdis (n_ele n) He). by apply list_elem_of_fmap_2.
  - rewrite Hd. split; intros (n & Hn & <- & <-); exists n; split_and!; try done; rewrite !elem_of_app in *; [|tauto].
    destruct Hn as [?|[?|?]]; auto. exfalso. apply He. by apply list_elem_of_fmap_2.
Qed.

Lemma delete_from h zsl M D B T (f : option (list Z) -> S -> Z -> bool) dict t :
  zsl_rep h zsl (M ++ D ++ B) -> zset_ok dict (M ++ D ++ B) -> separates T M (D ++ B) ->
  (forall C n D', D = C ++ n :: D' -> f (Some (n_ele n)) (n_score n) (t + zlen C) = true) ->
  (forall n, head B = Some n -> f (Some (n_ele n)) (n_score n) (t + zlen D) = false) ->
  0 <= t <= 2 ^ 32 ->
  exists h' zsl' dict', (update ← descend h 64 (fun fn r => T (ele fn) (score fn) r) (zsl_level zsl) (header zsl) 0 [];
      '(x, _) ← update !! 0%nat; l ← get_level h x 0;
      delete_while (base.size h) h zsl (update.*1) (fun n t => f (ele n) (score n) t) dict (forward l) t 0)
    = Some (h', zsl', dict', zlen D) /\
    zsl_rep h' zsl' (M ++ B) /\ zset_ok dict' (M ++ B) /\ dom h' = dom h ∖ list_to_set (n_ptr <$> D).
Proof.
  intros Hr Hz Hs HD HB Ht. destruct (descend_next h zsl M (D ++ B) T Hr Hs) as (-> & E0 & l & El & Ef).
  cbn [mbind option_bind]. rewrite E0. cbn [mbind option_bind]. rewrite El. cbn [mbind option_bind]. rewrite Ef.
  assert (zlen D <= zlen (M ++ D ++ B)) as Hle.
  { rewrite !zlen_app. pose proof (zlen_nonneg M). pose proof (zlen_nonneg B). lia. }
  pose proof (zr_fits _ _ _ Hr) as Hfit. pose proof (zlen_nonneg D).
  destruct (delete_while_spec f zsl M D B (base.size h) h zsl dict t 0) as (h' & zsl' & E & Hr' & _ & Ed); try done; try lia.
  { pose proof (rep_size _ _ _ Hr) as Hsz. rewrite !length_app in Hsz. lia. }
  rewrite E. do 3 eexists. split; [done|]. split_and!; try done. by apply zset_ok_remove.
Qed.

Lemma zslDeleteRangeByScore_spec h zsl L range dict :
  zsl_rep h zsl L -> zset_ok dict L ->
  let D := filter (fun n => in_range range n = true) L in
  let R := filter (fun n => in_range range n = false) L in
  exists h' zsl' dict', zslDeleteRangeByScore h zsl range dict = Some (h', zsl', dict', zlen D) /\
    zsl_rep h' zsl' R /\ zset_ok dict' R /\ dom h' = dom h ∖ list_to_set (n_ptr <$> D).
Proof.
  intros Hr Hz D R. pose proof (zr_sorted _ _ _ Hr) as Hs.
  destruct (split_min range L Hs) as (M & B1 & EL & HM & HB1).
  assert (sorted_keys B1) as HsB by (rewrite EL in Hs; by apply sorted_keys_app in Hs as (_ & ? & _)).
  destruct (split_max range B1 HsB) as (D' & B & EB & HD & HB).
  assert (Forall (fun n => in_range range n = true) D') as HD'.
  { rewrite EB in HB1. apply Forall_app in HB1 as [HB1 _]. apply Forall_forall. intros n Hn. unfold in_range.
    apply andb_true_iff. rewrite Forall_forall in HB1, HD. auto. }
  assert (D = D') as ->.
  { unfold D. rewrite EL, EB, !filter_app, (range_filter_none range M), (range_filter_none range B), app_nil_r, filter_all;
      [done|done|by apply above_range|by apply below_range]. }
  assert (R = M ++ B) as ->.
  { unfold R. rewrite EL, EB, !filter_app, (filter_none _ D'), (filter_all _ M), (filter_all _ B); [done|..].
    - by apply above_range.
    - by apply below_range.
    - by apply (bool_true_Forall (in_range range)). }
  rewrite EL, EB in Hr, Hz.
  apply (delete_from h zsl M D' B
    (fun _ s _ => if r_minex range then sle s (r_min range) else slt s (r_min range))
    (fun _ s _ => if r_maxex range then slt s (r_max range) else sle s (r_max range)) dict 0 Hr Hz); [| | |lia].
  - assert (forall s, (if r_minex range then sle s (r_min range) else slt s (r_min range)) = negb (zslValueGteMin s range)) as E.
    { intros s. unfold zslValueGteMin, sgt, sge, sle. destruct (r_minex range).
      - destruct (slt_total s (r_min range)) as [F|[F|F]].
        + by rewrite F, (slt_asym _ _ F).
        + rewrite F, orb_true_r. destruct (slt (r_min range) s) eqn:G; [|done]. apply slt_not_seq in G. rewrite seq_sym in G. congruence.
        + rewrite F, (slt_asym _ _ F). pose proof (slt_not_seq _ _ F) as G. rewrite seq_sym in G. by rewrite G.
      - destruct (slt_total s (r_min range)) as [F|[F|F]].
        + by rewrite F, (slt_asym _ _ F), (slt_not_seq _ _ F).
        + rewrite F, orb_true_r. destruct (slt s (r_min range)) eqn:G; [|done]. apply slt_not_seq in G. congruence.
        + by rewrite F, (slt_asym _ _ F). }
    rewrite <- EB. apply (separates_fn (fun _ s => if r_minex range then sle s (r_min range) else slt s (r_min range))).
    + eapply Forall_impl; [exact HM|]. intros n Hn. cbv beta in Hn. by rewrite E, Hn.
    + eapply Forall_impl; [exact HB1|]. intros n Hn. cbv beta in Hn. by rewrite E, Hn.
  - intros C n X ->. rewrite Forall_forall in HD. apply (HD n). set_solver.
  - intros n Hn. destruct B as [|b B]; [done|]. injection Hn as <-. by apply Forall_cons in HB as [? _].
Qed.

Lemma zslDeleteRangeByRank_spec h zsl L start end_ dict :
  zsl_rep h zsl L -> zset_ok dict L -> 1 <= start <= end_ -> end_ < 2 ^ 32 ->
  let A := take (Z.to_nat (start - 1)) L in
  let D := take (Z.to_nat (end_ - start + 1)) (drop (Z.to_nat (start - 1)) L) in
  let B := drop (Z.to_nat end_) L in
  exists h' zsl' dict', zslDeleteRangeByRank h zsl start end_ dict = Some (h', zsl', dict', zlen D) /\
    zsl_rep h' zsl' (A ++ B) /\ zset_ok dict' (A ++ B) /\ dom h' = dom h ∖ list_to_set (n_ptr <$> D).
Proof.
  intros Hr Hz Hse He A D B.
  assert (L = A ++ D ++ B) as EL.
  { unfold A, B, D. rewrite <- (take_drop (Z.to_nat (start - 1)) L) at 1. f_equal.
    rewrite <- (take_drop (Z.to_nat (end_ - start + 1)) (drop _ L)) at 1. f_equal. rewrite drop_drop. f_equal. lia. }
  assert (zlen A = Z.min (start - 1) (zlen L)) as EA by (unfold A, zlen; rewrite length_take; lia).
  assert (zlen D = Z.min (end_ - start + 1) (zlen L - zlen A)) as ED
    by (unfold A, D, zlen; rewrite !length_take, length_drop; lia).
  pose proof (zr_fits _ _ _ Hr) as Hfit. pose proof (zlen_nonneg A). pose proof (zlen_nonneg D). pose proof (zlen_nonneg B).
  assert (zlen A < start - 1 -> D = []) as HDn.
  { intros Hlt. destruct D; [done|]. rewrite zlen_cons in *. pose proof (zlen_nonneg D). lia. }
  assert (zlen D < end_ - start + 1 -> B = []) as HBn.
  { intros Hlt. rewrite EL, !zlen_app in *. destruct B; [done|]. rewrite zlen_cons in *. pose proof (zlen_nonneg B). lia. }
  assert (D ++ B <> [] -> zlen A = start - 1) as HDB.
  { intros Hne. destruct (Z.lt_ge_cases (zlen A) (start - 1)) as [Hlt|]; [|lia]. exfalso. apply Hne.
    rewrite (HDn Hlt), HBn; [done|]. rewrite (HDn Hlt). change (zlen (@nil (@entry S))) with 0. lia. }
  pose proof Hr as Hr0. rewrite EL in Hr, Hz.
  unfold zslDeleteRangeByRank.
  assert (separates (fun _ _ r => r <? start) A (D ++ B)) as Hsep.
  { split.
    - intros C n X EX. rewrite EX, zlen_app, zlen_cons in EA. pose proof (zlen_nonneg X). apply Z.ltb_lt. lia.
    - intros C n X EX. pose proof (zlen_nonneg C). apply Z.ltb_ge. rewrite HDB; [lia|]. rewrite EX. by destruct C. }
  destruct (delete_from h zsl A D B _ (fun _ _ t => t <=? end_) dict (zlen A + 1) Hr Hz Hsep) as (h' & zsl' & dict' & E & Hrest).
  - intros C n X EX. apply Z.leb_le. rewrite EX, zlen_app, zlen_cons in ED. pose proof (zlen_nonneg X). lia.
  - intros n Hn. apply Z.leb_gt. destruct (Z.lt_ge_cases (zlen D) (end_ - start + 1)) as [Hlt|]; [by rewrite HBn in Hn|].
    rewrite HDB; [lia|]. intros Hc%app_eq_nil. destruct Hc as [_ Hc]. by rewrite Hc in Hn.
  - lia.
  - exists h', zsl', dict'. split; [|done]. rewrite <- E. destruct (descend_next h zsl A (D ++ B) _ Hr Hsep) as (-> & E0 & _).
    cbn [mbind option_bind]. rewrite E0. cbn [mbind option_bind]. rewrite uwrap_small by (unfold in_u; lia). done.
Qed.

(** ** Freeing the list *)

Lemma zslFree_loop_spec B : forall h prev fuel,
  nodes_ok h prev B -> NoDup (n_ptr <$> B) -> Forall (fun n => 1 <= hgt n)%nat B -> (length B <= fuel)%nat ->
  exists h', zslFree_loop fuel h (n_ptr <$> head B) = Some h' /\ dom h' = dom h ∖ list_to_set (n_ptr <$> B).
Proof.
  induction B as [|n B IH]; intros h prev fuel Hn Hnd Hh Hf.
  { exists h. split; [by destruct fuel|set_solver]. }
  destruct Hn as [[Hi Hl] HB]. destruct fuel as [|fuel]; [simpl in Hf; lia|]. simpl.
  apply Forall_cons in Hh as [Hn Hh]. rewrite Hl by lia. cbn [mbind option_bind].
  rewrite fmap_cons in Hnd. apply NoDup_cons in Hnd as [HnB Hnd].
  destruct (IH (zslFreeNode h (n_ptr n)) (Some (n_ptr n)) fuel) as (h' & E & Ed); [|done|done|simpl in Hf; lia|].
  { apply (nodes_ok_frame h); [|done]. intros m Hm.
    assert (n_ptr m <> n_ptr n) by (intros Ec; apply HnB; rewrite <- Ec; by apply list_elem_of_fmap_2).
    unfold info, get_level, zslFreeNode. rewrite lookup_delete_ne by done. auto. }
  exists h'. split.
  - rewrite <- E. f_equal. destruct B as [|b B]; [done|]. simpl. apply Forall_cons in Hh as [Hb _].
    by rewrite (proj2 (Nat.ltb_lt 0 (hgt b))) by lia.
  - rewrite Ed. unfold zslFreeNode. rewrite dom_delete_L. cbn [fmap list_fmap list_to_set]. set_solver.
Qed.

Lemma zslFree_spec h zsl L :
  zsl_rep h zsl L ->
  exists h', zslFree h zsl = Some h' /\ dom h' = dom h ∖ list_to_set (header zsl :: (n_ptr <$> L)).
Proof.
  intros Hr. unfold zslFree. pose proof (next_level h zsl [] L Hr) as E0. unfold at_end in E0. simpl in E0. rewrite E0.
  cbn [mbind option_bind]. rewrite (lv_first h zsl L [] L Hr eq_refl). pose proof (zr_nodup _ _ _ Hr) as Hnd.
  apply NoDup_cons in Hnd as [Hh Hnd].
  destruct (zslFree_loop_spec L (delete (header zsl) h) None (base.size h)) as (h' & E & Ed).
  - apply (nodes_ok_frame h); [|apply (zr_nodes _ _ _ Hr)]. intros n Hn.
    assert (n_ptr n <> header zsl) by (intros Ec; apply Hh; rewrite <- Ec; by apply list_elem_of_fmap_2).
    unfold info, get_level. rewrite lookup_delete_ne by done. auto.
  - done.
  - eapply Forall_impl; [apply (zr_hgt _ _ _ Hr)|]. intros n. simpl. lia.
  - by eapply rep_size.
  - exists h'. split; [done|]. rewrite Ed, dom_delete_L. set_solver.
Qed.

(** ** Sequences of operations *)

Inductive zop :=
| ZInsert (s : S) (e : list Z)
| ZDelete (s : S) (e : list Z)
| ZUpdate (cur : S) (e : list Z) (new : S).

(** What the operations promise; [None] where the caller breaks the
    contract: inserting an element that is there, or updating one that is
    not there with that score. *)
Definition zl_op (l : keys) (o : zop) : option (keys * bool) :=
  match o with
  | ZInsert s e => if bool_decide (e ∈ l.*2) || (2 ^ 31 - 1 <=? zlen l) then None else Some (zl_insert (s, e) l, true)
  | ZDelete s e => Some (zl_delete (s, e) l, existsb (same_key (s, e)) l)
  | ZUpdate cur e s => if existsb (same_key (cur, e)) l then Some (zl_insert (s, e) (zl_delete (cur, e) l), true) else None
  end.

Definition zsl_op (rnd : list Z) (h : heap) (zsl : zskiplist) (o : zop) : option (heap * zskiplist * bool) :=
  match o with
  | ZInsert s e => '(h, zsl, _) ← zslInsert rnd h zsl s e; Some (h, zsl, true)
  | ZDelete s e => zslDelete h zsl s e
  | ZUpdate cur e s => '(h, zsl, _) ← zslUpdateScore rnd h zsl cur e s; Some (h, zsl, true)
  end.

Fixpoint zl_ops (l : keys) (ops : list (list Z * zop)) : option (keys * list bool) :=
  match ops with
  | [] => Some (l, [])
  | (_, o) :: ops => '(l, b) ← zl_op l o; '(l, bs) ← zl_ops l ops; Some (l, b :: bs)
  end.

Fixpoint zsl_ops (h : heap) (zsl : zskiplist) (ops : list (list Z * zop)) : option (heap * zskiplist * list bool) :=
  match ops with
  | [] => Some (h, zsl, [])
  | (rnd, o) :: ops => '(h, zsl, b) ← zsl_op rnd h zsl o; '(h, zsl, bs) ← zsl_ops h zsl ops; Some (h, zsl, b :: bs)
  end.

(** A number of the sequence stops the loop of [zslRandomLevel]. *)
Definition stops (rnd : list Z) : bool := existsb (fun r => 16383 <? Z.land r 0xFFFF) rnd.

Lemma random_level_some rnd : stops rnd = true -> exists lvl, zslRandomLevel rnd = Some lvl.
Proof using Type.
  unfold zslRandomLevel, stops. generalize 1%nat. induction rnd as [|r rnd IH]; intros n; [done|]. simpl.
  destruct (Z.ltb_spec 16383 (Z.land r 65535)) as [Hr|Hr]; simpl.
  - rewrite (proj2 (Z.leb_gt _ _)) by lia. simpl. eauto.
  - rewrite (proj2 (Z.leb_le _ _)) by lia. intros Hs. by apply IH.
Qed.

Lemma zl_insert_perm k l : zl_insert k l ≡ₚ k :: l.
Proof using Type.
  unfold zl_insert. rewrite <- Permutation_middle. f_equiv. induction l as [|a l IH]; [done|].
  destruct (key_lt a k) eqn:E.
  - rewrite filter_cons_True, (filter_cons_False (fun m => key_lt m k = false)) by congruence. simpl. by rewrite IH.
  - rewrite filter_cons_False, (filter_cons_True (fun m => key_lt m k = false)) by congruence.
    rewrite <- Permutation_middle. by rewrite IH.
Qed.

Lemma key_ele L : (key <$> L).*2 = n_ele <$> L.
Proof using Type. by rewrite <- list_fmap_compose. Qed.

Lemma delete_NoDup k (l : keys) : NoDup l.*2 -> NoDup (zl_delete k l).*2 /\ (forall e, e ∈ (zl_delete k l).*2 -> e ∈ l.*2).
Proof.
  intros Hnd. unfold zl_delete. induction l as [|a l IH]; [done|]. rewrite fmap_cons in *. apply NoDup_cons in Hnd as [Ha Hnd].
  destruct (IH Hnd) as [H1 H2]. destruct (decide (same_key k a = false)) as [E|E].
  - rewrite filter_cons_True by done. rewrite fmap_cons, NoDup_cons. split; [auto|].
    intros e. rewrite !elem_of_cons. naive_solver.
  - rewrite filter_cons_False by done. split; [done|]. intros e He. apply elem_of_cons. auto.
Qed.

Lemma update_NoDup cur e (l : keys) :
  NoDup l.*2 -> existsb (same_key (cur, e)) l = true -> e ∉ (zl_delete (cur, e) l).*2.
Proof.
  unfold zl_delete. induction l as [|a l IH]; [done|]. rewrite fmap_cons. intros [Ha Hnd]%NoDup_cons. simpl.
  destruct (same_key (cur, e) a) eqn:E; simpl.
  - intros _ Hc. rewrite filter_cons_False in Hc by congruence. unfold same_key in E.
    apply andb_true_iff in E as [_ E%bool_decide_eq_true]. simpl in E. apply Ha. rewrite E.
    by apply (proj2 (delete_NoDup (cur, e) l Hnd)).
  - intros Hex. rewrite filter_cons_True by done. rewrite fmap_cons. intros [Hc|Hc]%elem_of_cons; [|by apply (IH Hnd Hex)].
    apply Ha. rewrite <- Hc. apply existsb_exists in Hex as (b & Hb & Hs). apply list_elem_of_In in Hb.
    unfold same_key in Hs. apply andb_true_iff in Hs as [_ Hs%bool_decide_eq_true]. simpl in Hs. rewrite <- Hs.
    by apply list_elem_of_fmap_2.
Qed.

Lemma existsb_key k L : existsb (same_key k) (key <$> L) = existsb (fun n => same_key k (key n)) L.
Proof using Type. induction L as [|n L IH]; [done|]. rewrite fmap_cons. cbn [existsb]. by rewrite IH. Qed.

Lemma zsl_op_refines F rnd h zsl L o l' b :
  zsl_rep h zsl L -> owns F h zsl L -> NoDup (n_ele <$> L) -> stops rnd = true -> zl_op (key <$> L) o = Some (l', b) ->
  exists h' zsl' L', zsl_op rnd h zsl o = Some (h', zsl', b) /\ zsl_rep h' zsl' L' /\ owns F h' zsl' L' /\
    key <$> L' = l' /\ NoDup (n_ele <$> L').
Proof.
  intros Hr Ho Hnd [lvl Hlvl]%random_level_some. destruct o as [s e|s e|cur e s]; cbn [zl_op zsl_op].
  - rewrite key_ele. case_bool_decide as He; [done|]. simpl. unfold zlen at 1. rewrite length_fmap. fold (zlen L).
    destruct (Z.leb_spec (2 ^ 31 - 1) (zlen L)) as [Hl|Hl]; [done|]. intros [= <- <-].
    destruct (zslInsert_keys rnd h zsl L s e lvl Hr ltac:(lia) Hlvl) as (h' & zsl' & x & M & B & E & Hx & Eh & -> & Hr' & Ek).
    { apply Forall_forall. intros n Hn. unfold same_key. simpl. rewrite bool_decide_eq_false_2, andb_false_r; [done|].
      intros <-. apply He. by apply list_elem_of_fmap_2. }
    rewrite E. cbn [mbind option_bind]. do 3 eexists. split; [done|]. split_and!; [done| |done|].
    + eapply owns_insert; [done| |done|done]. by eapply zslInsert_dom.
    + rewrite <- key_ele, <- Ek, zl_insert_perm. simpl. rewrite key_ele. by apply NoDup_cons.
  - intros [= <- <-]. destruct (zslDelete_keys h zsl L s e Hr) as (h' & zsl' & L' & E & Eh & Hr' & Ek & Ho').
    rewrite existsb_key. do 3 eexists. split; [done|]. split_and!; [done|by apply Ho'|done|].
    rewrite <- key_ele, Ek. apply delete_NoDup. by rewrite key_ele.
  - rewrite existsb_key. destruct (existsb _ L) eqn:Hex; [|done]. intros [= <- <-].
    destruct (zslUpdateScore_keys rnd h zsl L cur e s lvl Hr Hlvl Hnd Hex) as (h' & zsl' & x & L' & E & Eh & Hr' & Ek & _ & Ho').
    rewrite E. cbn [mbind option_bind]. do 3 eexists. split; [done|]. split_and!; [done|by apply Ho'|done|].
    rewrite <- key_ele, Ek, zl_insert_perm. simpl. apply NoDup_cons. split.
    + apply update_NoDup; [by rewrite key_ele|by rewrite existsb_key].
    + apply delete_NoDup. by rewrite key_ele.
Qed.

Lemma zsl_ops_refine F ops : forall h zsl L l' bs,
  zsl_rep h zsl L -> owns F h zsl L -> NoDup (n_ele <$> L) -> Forall (fun o => stops o.1 = true) ops ->
  zl_ops (key <$> L) ops = Some (l', bs) ->
  exists h' zsl' L', zsl_ops h zsl ops = Some (h', zsl', bs) /\ zsl_rep h' zsl' L' /\ owns F h' zsl' L' /\
    key <$> L' = l' /\ NoDup (n_ele <$> L').
Proof.
  induction ops as [|[rnd o] ops IH]; intros h zsl L l' bs Hr Ho Hnd Hst E.
  - simpl in E. injection E as <- <-. exists h, zsl, L. done.
  - apply Forall_cons in Hst as [Hrnd Hst]. simpl in E. destruct (zl_op (key <$> L) o) as [[l1 b]|] eqn:E1; [|done].
    cbn [mbind option_bind] in E. destruct (zsl_op_refines F rnd h zsl L o l1 b Hr Ho Hnd Hrnd E1) as (h1 & zsl1 & L1 & E2 & Hr1 & Ho1 & <- & Hnd1).
    destruct (zl_ops (key <$> L1) ops) as [[l2 bs']|] eqn:E3; [|done]. cbn [mbind option_bind] in E. injection E as <- <-.
    destruct (IH h1 zsl1 L1 l2 bs' Hr1 Ho1 Hnd1 Hst E3) as (h2 & zsl2 & L2 & E4 & Hrest).
    exists h2, zsl2, L2. simpl. rewrite E2. cbn [mbind option_bind]. rewrite E4. done.
Qed.

Lemma zslCreate_owns h : forall h' zsl, zslCreate h = (h', zsl) -> zsl_rep h' zsl [] /\ owns (dom h) h' zsl [].
Proof.
  intros h' zsl E. destruct (zslCreate_rep h) as (h1 & zsl1 & E1 & Hr). rewrite E1 in E. injection E as -> ->. split; [done|].
  unfold zslCreate, zslCreateNode in E1. injection E1 as <- <-. unfold owns. simpl. split; intros p.
  - rewrite dom_insert_L, elem_of_union, elem_of_singleton, elem_of_nil. tauto.
  - intros Hp. rewrite elem_of_nil. split; [|tauto]. intros ->. by apply is_fresh in Hp.
Qed.

End ZslOps.

Arguments zop : clear implicits.

(** ** A concrete list *)

Definition demo_ops : list (list Z * zop Z) :=
  [([7; 65535], ZInsert 5 [97]); ([20000], ZInsert 2 [98]); ([0; 1; 40000], ZInsert 5 [99]); ([16384], ZUpdate 2 [98] 7);
   ([30000], ZDelete 5 [97]); ([17000], ZInsert 1 [100])].

Definition demo_run : option (gmap positive zskiplistNode * zskiplist * list bool) :=
  Eval vm_compute in let '(h, z) := zslCreate (∅ : gmap positive (@zskiplistNode Z)) in zsl_ops h z demo_ops.

Definition demo_h : gmap positive (@zskiplistNode Z) := match demo_run with Some (h, _, _) => h | None => ∅ end.
Definition demo_zsl : zskiplist := match demo_run with Some (_, z, _) => z | None => mk_zsl 1 None 0 1 end.
Definition demo_L : list (@entry Z) := [mk_entry 6 1 [100] 1; mk_entry 4 5 [99] 3; mk_entry 5 7 [98] 1].
Definition demo_dict : gmap (list Z) Z := {[ [100] := 1; [99] := 5; [98] := 7 ]}.

Lemma demo_rep : zsl_rep demo_h demo_zsl demo_L.
Proof.
  constructor; try (vm_compute; reflexivity).
  - repeat (apply NoDup_cons; split; [vm_compute; set_solver|]). constructor.
  - repeat constructor.
  - split; [split; [vm_compute; reflexivity|]|split; [split; [vm_compute; reflexivity|]|split; [split; [vm_compute; reflexivity|]|done]]].
    all: intros i Hi; simpl in Hi; do 3 (destruct i as [|i]; [vm_compute; reflexivity || lia|]); lia.
  - exists 0. vm_compute. reflexivity.
  - intros i Hi. change (zsl_level demo_zsl) with 3%nat in Hi. do 3 (destruct i as [|i]; [vm_compute; reflexivity|]). lia.
  - intros i Hi. change (zsl_level demo_zsl) with 3%nat in Hi. change ZSKIPLIST_MAXLEVEL with 64%nat in Hi. exists 0.
    do 64 (destruct i as [|i]; [vm_compute; reflexivity || lia|]). lia.
  - intros [|[|[|i]]] [|[|[|j]]] a b Hij Ha Hb; simpl in Ha, Hb; simplify_eq; try lia; vm_compute; reflexivity.
Qed.

Lemma demo_zset : zset_ok demo_dict demo_L.
Proof.
  split; [repeat (apply NoDup_cons; split; [vm_compute; set_solver|]); constructor|].
  intros e s. unfold demo_dict, demo_L. rewrite !lookup_insert_Some, lookup_singleton_Some. split.
  - intros [[<- <-]|(_ & [[<- <-]|(_ & <- & <-)])].
    + exists (mk_entry 6 1 [100] 1). split; [set_solver|done].
    + exists (mk_entry 4 5 [99] 3). split; [set_solver|done].
    + exists (mk_entry 5 7 [98] 1). split; [set_solver|done].
  - intros (n & Hn & <- & <-). rewrite !elem_of_cons in Hn. destruct Hn as [->|[->|[->|[]%elem_of_nil]]]; simpl; naive_solver.
Qed.

(** ** Claims *)

(** C6 A skip list refines a sorted list of (score, element) pairs: starting
    from [zslCreate], every sequence of insertions, deletions and score
    updates that respects the contract (an inserted element is new, an
    updated one is there) runs to completion, answers as the sorted list
    does, and leaves a well-formed skip list of exactly that sorted list,
    with every span, back pointer, level, length and tail consistent. *)
Theorem zsl_refines_sorted {S} `{Score S} `{!ScoreLaws S} (h : gmap positive zskiplistNode) (ops : list (list Z * zop S))
    (l : list (S * list Z)) (bs : list bool) :
  Forall (fun o => stops o.1 = true) ops -> zl_ops [] ops = Some (l, bs) ->
  exists h' zsl L, zsl_ops (zslCreate h).1 (zslCreate h).2 ops = Some (h', zsl, bs) /\ zsl_rep h' zsl L /\ key <$> L = l.
Proof.
  intros Hst E. destruct (zslCreate h) as [h0 z0] eqn:Ec. destruct (zslCreate_owns h h0 z0 Ec) as [Hr Ho].
  destruct (zsl_ops_refine (dom h) ops h0 z0 [] l bs Hr Ho ltac:(constructor) Hst E) as (h' & zsl & L & E' & Hr' & _ & Ek & _).
  eauto 10.
Qed.

Lemma zsl_refines_sorted_witness :
  zl_ops [] demo_ops = Some ([(1, [100]); (5, [99]); (7, [98])], [true; true; true; true; true; true]) /\
  exists h' zsl L, zsl_ops (zslCreate (S:=Z) ∅).1 (zslCreate (S:=Z) ∅).2 demo_ops = Some (h', zsl, [true; true; true; true; true; true]) /\
    zsl_rep h' zsl L /\ key <$> L = [(1, [100]); (5, [99]); (7, [98])].
Proof.
  split; [vm_compute; reflexivity|]. apply zsl_refines_sorted; [|vm_compute; reflexivity].
  repeat (constructor; [vm_compute; reflexivity|]). constructor.
Defined.

(** C24 No leak and no double free: after any such sequence [zslFree] walks
    the bottom level without touching freed memory and gives back exactly
    what was allocated before [zslCreate]. *)
Theorem zsl_no_leak {S} `{Score S} `{!ScoreLaws S} (h : gmap positive zskiplistNode) (ops : list (list Z * zop S))
    (l : list (S * list Z)) (bs : list bool) :
  Forall (fun o => stops o.1 = true) ops -> zl_ops [] ops = Some (l, bs) ->
  exists h' zsl h'', zsl_ops (zslCreate h).1 (zslCreate h).2 ops = Some (h', zsl, bs) /\ zslFree h' zsl = Some h'' /\ dom h'' = dom h.
Proof.
  intros Hst E. destruct (zslCreate h) as [h0 z0] eqn:Ec. destruct (zslCreate_owns h h0 z0 Ec) as [Hr Ho].
  destruct (zsl_ops_refine (dom h) ops h0 z0 [] l bs Hr Ho ltac:(constructor) Hst E) as (h' & zsl & L & E' & Hr' & Ho' & _).
  destruct (zslFree_spec h' zsl L Hr') as (h'' & Ef & Ed). exists h', zsl, h''. split_and!; [done|done|].
  rewrite Ed. destruct Ho' as [Hd Hf]. apply set_eq. intros p.
  rewrite elem_of_difference, elem_of_list_to_set, elem_of_cons, Hd. specialize (Hf p). tauto.
Qed.

Lemma zsl_no_leak_witness :
  exists h' zsl h'', zsl_ops (zslCreate (S:=Z) ∅).1 (zslCreate (S:=Z) ∅).2 demo_ops = Some (h', zsl, [true; true; true; true; true; true]) /\
    zslFree h' zsl = Some h'' /\ dom h'' = dom (∅ : gmap positive (@zskiplistNode Z)).
Proof.
  apply (zsl_no_leak ∅ demo_ops [(1, [100]); (5, [99]); (7, [98])]); [|vm_compute; reflexivity].
  repeat (constructor; [vm_compute; reflexivity|]). constructor.
Defined.

(** C25 Ranks: [zslGetRank] of the element at position [i] (from 0) with its
    score is [i + 1], [zslGetElementByRank] of that rank is the node, and an
    element that is not in the list has rank 0. *)
Theorem zsl_ranks {S} `{Score S} `{!ScoreLaws S} (h : gmap positive zskiplistNode) (zsl : zskiplist) (L : list entry) :
  zsl_rep h zsl L -> NoDup (n_ele <$> L) ->
  (forall i n, L !! i = Some n -> zslGetRank h zsl (n_score n) (n_ele n) = Some (Z.of_nat i + 1)) /\
  (forall s e, e ∉ n_ele <$> L -> zslGetRank h zsl s e = Some 0) /\
  (forall r, 1 <= r -> zslGetElementByRank h zsl r = Some (n_ptr <$> L !! Z.to_nat (r - 1))).
Proof.
  intros Hr Hnd. split_and!.
  - intros i n Hn. apply take_drop_middle in Hn as EL. rewrite <- EL in Hr, Hnd.
    rewrite (zslGetRank_found h zsl _ n _ (n_score n) Hr Hnd (seq_refl _)). f_equal. unfold zlen. rewrite length_take_le; [done|].
    apply lookup_lt_Some in Hn. lia.
  - intros s e He. by apply (zslGetRank_absent h zsl L).
  - intros r H1. by apply zslGetElementByRank_spec.
Qed.

Lemma zsl_ranks_witness :
  zslGetRank demo_h demo_zsl 5 [99] = Some 2 /\ zslGetRank demo_h demo_zsl 5 [120] = Some 0 /\
  zslGetElementByRank demo_h demo_zsl 3 = Some (Some 5%positive).
Proof.
  destruct (zsl_ranks demo_h demo_zsl demo_L demo_rep (proj1 demo_zset)) as (H1 & H2 & H3). split_and!.
  - exact (H1 1%nat (mk_entry 4 5 [99] 3) eq_refl).
  - apply H2. vm_compute. set_solver.
  - exact (H3 3 ltac:(lia)).
Defined.

(** C26 Score ranges: [zslFirstInRange] and [zslLastInRange] return the first
    and the last node whose score is within the bounds, exclusive bounds and
    empty ranges included, or NULL when there is none. *)
Theorem zsl_ranges {S} `{Score S} `{!ScoreLaws S} (h : gmap positive zskiplistNode) (zsl : zskiplist) (L : list entry)
    (range : zrangespec) :
  zsl_rep h zsl L ->
  zslFirstInRange h zsl range = Some (n_ptr <$> head (filter (fun n => in_range range n = true) L)) /\
  zslLastInRange h zsl range = Some (n_ptr <$> last (filter (fun n => in_range range n = true) L)).
Proof. intros Hr. split; [by apply zslFirstInRange_spec|by apply zslLastInRange_spec]. Qed.

Lemma zsl_ranges_witness :
  zslFirstInRange demo_h demo_zsl (mk_range 1 7 true false) = Some (Some 4%positive) /\
  zslLastInRange demo_h demo_zsl (mk_range 1 7 true false) = Some (Some 5%positive).
Proof. exact (zsl_ranges demo_h demo_zsl demo_L (mk_range 1 7 true false) demo_rep). Defined.

(** C27 [zslDeleteRangeByScore] removes exactly the entries within the bounds,
    from the skip list and from the map of the sorted set, which stay
    consistent with each other; it returns their number and frees their
    nodes and nothing else. *)
Theorem zslDeleteRangeByScore_correct {S} `{Score S} `{!ScoreLaws S} (h : gmap positive zskiplistNode) (zsl : zskiplist)
    (L : list entry) (range : zrangespec) (dict : gmap (list Z) S) :
  zsl_rep h zsl L -> zset_ok dict L ->
  exists h' zsl' dict', zslDeleteRangeByScore h zsl range dict
      = Some (h', zsl', dict', zlen (filter (fun n => in_range range n = true) L)) /\
    zsl_rep h' zsl' (filter (fun n => in_range range n = false) L) /\
    zset_ok dict' (filter (fun n => in_range range n = false) L) /\
    dom h' = dom h ∖ list_to_set (n_ptr <$> filter (fun n => in_range range n = true) L).
Proof. apply zslDeleteRangeByScore_spec. Qed.

Lemma zslDeleteRangeByScore_correct_witness :
  exists h' zsl' dict', zslDeleteRangeByScore demo_h demo_zsl (mk_range 1 5 false false) demo_dict = Some (h', zsl', dict', 2) /\
    zsl_rep h' zsl' [mk_entry 5 7 [98] 1] /\ zset_ok dict' [mk_entry 5 7 [98] 1] /\
    dom h' = dom demo_h ∖ list_to_set [6%positive; 4%positive].
Proof. exact (zslDeleteRangeByScore_correct demo_h demo_zsl demo_L (mk_range 1 5 false false) demo_dict demo_rep demo_zset). Defined.

(** [zslDeleteRangeByRank] with 1-based inclusive bounds removes exactly
    the entries from rank [start] to rank [end], as far as they exist, from
    the skip list and from the map, returns their number and frees their
    nodes and nothing else. *)
Theorem zslDeleteRangeByRank_correct {S} `{Score S} `{!ScoreLaws S} (h : gmap positive zskiplistNode) (zsl : zskiplist)
    (L : list entry) (start end_ : Z) (dict : gmap (list Z) S) :
  zsl_rep h zsl L -> zset_ok dict L -> 1 <= start <= end_ -> end_ < 2 ^ 32 ->
  let D := take (Z.to_nat (end_ - start + 1)) (drop (Z.to_nat (start - 1)) L) in
  let R := take (Z.to_nat (start - 1)) L ++ drop (Z.to_nat end_) L in
  exists h' zsl' dict', zslDeleteRangeByRank h zsl start end_ dict = Some (h', zsl', dict', zlen D) /\
    zsl_rep h' zsl' R /\ zset_ok dict' R /\ dom h' = dom h ∖ list_to_set (n_ptr <$> D).
Proof. apply zslDeleteRangeByRank_spec. Qed.

Lemma zslDeleteRangeByRank_correct_witness :
  exists h' zsl' dict', zslDeleteRangeByRank demo_h demo_zsl 2 2 demo_dict = Some (h', zsl', dict', 1) /\
    zsl_rep h' zsl' [mk_entry 6 1 [100] 1; mk_entry 5 7 [98] 1] /\
    zset_ok dict' [mk_entry 6 1 [100] 1; mk_entry 5 7 [98] 1] /\
    dom h' = dom demo_h ∖ list_to_set [4%positive].
Proof.
  exact (zslDeleteRangeByRank_correct demo_h demo_zsl demo_L 2 2 demo_dict demo_rep demo_zset ltac:(lia) ltac:(lia)).
Defined.
