(* ===== verification/Bitops.v ===== *)
(** * Bitmaps and bit fields ([bitops.c])

    Counting and searching bits, reading and writing integers of 1 to 64 bits
    at any bit offset, the overflow policies and the execution of BITFIELD.
    A bitmap is the list of its bytes; bit 0 is the most significant bit of
    the first byte.  Reading or writing outside the bitmap, and a shift by
    the width of the type or more, which C leaves undefined, give [None]. *)

From S2P Require Import Prelude Numstr.
From stdpp Require Import options.

(** ** [redisPopcount] *)

Definition bitsinbyte : list Z :=
  [0; 1; 1; 2; 1; 2; 2; 3; 1; 2; 2; 3; 2; 3; 3; 4; 1; 2; 2; 3; 2; 3; 3; 4; 2; 3; 3; 4; 3; 4; 4; 5;
   1; 2; 2; 3; 2; 3; 3; 4; 2; 3; 3; 4; 3; 4; 4; 5; 2; 3; 3; 4; 3; 4; 4; 5; 3; 4; 4; 5; 4; 5; 5; 6;
   1; 2; 2; 3; 2; 3; 3; 4; 2; 3; 3; 4; 3; 4; 4; 5; 2; 3; 3; 4; 3; 4; 4; 5; 3; 4; 4; 5; 4; 5; 5; 6;
   2; 3; 3; 4; 3; 4; 4; 5; 3; 4; 4; 5; 4; 5; 5; 6; 3; 4; 4; 5; 4; 5; 5; 6; 4; 5; 5; 6; 5; 6; 6; 7;
   1; 2; 2; 3; 2; 3; 3; 4; 2; 3; 3; 4; 3; 4; 4; 5; 2; 3; 3; 4; 3; 4; 4; 5; 3; 4; 4; 5; 4; 5; 5; 6;
   2; 3; 3; 4; 3; 4; 4; 5; 3; 4; 4; 5; 4; 5; 5; 6; 3; 4; 4; 5; 4; 5; 5; 6; 4; 5; 5; 6; 5; 6; 6; 7;
   2; 3; 3; 4; 3; 4; 4; 5; 3; 4; 4; 5; 4; 5; 5; 6; 3; 4; 4; 5; 4; 5; 5; 6; 4; 5; 5; 6; 5; 6; 6; 7;
   3; 4; 4; 5; 4; 5; 5; 6; 4; 5; 5; 6; 5; 6; 6; 7; 4; 5; 5; 6; 5; 6; 6; 7; 5; 6; 6; 7; 6; 7; 7; 8].

Definition bits_of_byte (b : Z) : Z := default 0 (bitsinbyte !! Z.to_nat b).

(** [addr] is the address of the first byte. *)
Fixpoint pop_align (addr : Z) (l : list Z) (bits : Z) : list Z * Z :=
  match l with
  | [] => ([], bits)
  | b :: l' =>
    if negb (Z.land addr 3 =? 0) then pop_align (addr + 1) l' (uwrap 64 (bits + bits_of_byte b)) else (l, bits)
  end.

Definition aux_pairs (aux : Z) : Z :=
  let aux := uwrap 32 (aux - Z.land (Z.shiftr aux 1) 0x55555555) in
  uwrap 32 (Z.land aux 0x33333333 + Z.land (Z.shiftr aux 2) 0x33333333).

Definition aux_nibbles (aux : Z) : Z := Z.land (uwrap 32 (aux + Z.shiftr aux 4)) 0x0F0F0F0F.

(** The 32-bit word number [i] of the block. *)
Definition word32 (l : list Z) (i : nat) : Z := le_val (take 4 (drop (4 * i) l)).

Definition pop28 (l : list Z) : Z :=
  let sum := foldl (fun acc i => uwrap 32 (acc + aux_nibbles (aux_pairs (word32 l i)))) 0 (seq 0 7) in
  Z.shiftr (uwrap 32 (sum * 0x01010101)) 24.

Fixpoint pop_blocks (fuel : nat) (l : list Z) (bits : Z) : option (list Z * Z) :=
  if zlen l >=? 28 then
    match fuel with
    | O => None
    | S fuel => pop_blocks fuel (drop 28 l) (uwrap 64 (bits + pop28 (take 28 l)))
    end
  else Some (l, bits).

Fixpoint pop_bytes (l : list Z) (bits : Z) : Z :=
  match l with
  | [] => bits
  | b :: l => pop_bytes l (uwrap 64 (bits + bits_of_byte b))
  end.

Definition redisPopcount (addr : Z) (s : list Z) : option Z :=
  let '(l, bits) := pop_align addr s 0 in
  '(l, bits) ← pop_blocks (length l) l bits;
  Some (pop_bytes l bits).

(** ** [redisBitpos] *)

Fixpoint bitpos_align (addr : Z) (skipval : Z) (c : list Z) (pos : Z) : list Z * Z * bool :=
  match c with
  | [] => ([], pos, false)
  | b :: c' =>
    if Z.land addr 7 =? 0 then (c, pos, false) else
    if negb (b =? skipval) then (c, pos, true) else bitpos_align (addr + 1) skipval c' (pos + 8)
  end.

Fixpoint bitpos_words (fuel : nat) (skipval : Z) (l : list Z) (pos : Z) : option (list Z * Z) :=
  if zlen l >=? 8 then
    if negb (le_val (take 8 l) =? skipval) then Some (l, pos) else
    match fuel with
    | O => None
    | S fuel => bitpos_words fuel skipval (drop 8 l) (pos + 64)
    end
  else Some (l, pos).

Fixpoint load_word (j : nat) (c : list Z) (word : Z) : Z :=
  match j with
  | O => word
  | S j =>
    let word := uwrap 64 (Z.shiftl word 8) in
    match c with
    | b :: c => load_word j c (Z.lor word b)
    | [] => load_word j [] word
    end
  end.

(** [while(one)]: [one] is shifted out after 64 steps. *)
Fixpoint bit_scan (fuel : nat) (one word : Z) (bit : bool) (pos : Z) : option Z :=
  if one =? 0 then None else
  if Bool.eqb (negb (Z.land one word =? 0)) bit then Some pos else
  match fuel with
  | O => None
  | S fuel => bit_scan fuel (Z.shiftr one 1) word bit (pos + 1)
  end.

(** [None] is the panic at the end of the function. *)
Definition redisBitpos (addr : Z) (s : list Z) (bit : bool) : option Z :=
  let '(c, pos, found) := bitpos_align addr (if bit then 0 else 255) s 0 in
  '(l, pos) ← (if (found : bool) then Some (c, pos)
               else bitpos_words (length c) (if bit then 0 else 2 ^ 64 - 1) c pos);
  let word := load_word 8 l 0 in
  if bit && (word =? 0) then Some (-1) else bit_scan 64 (2 ^ 63) word bit pos.

(** ** Bit fields *)

(** One bit: [p[byte]] with the bit replaced. *)
Definition set_bit (p : list Z) (offset : Z) (bitval : bool) : option (list Z) :=
  let byte := Z.shiftr offset 3 in
  let bit := 7 - Z.land offset 7 in
  byteval ← p !! Z.to_nat byte;
  let byteval := Z.land byteval (Z.lnot (Z.shiftl 1 bit)) in
  let byteval := Z.lor byteval (Z.shiftl (Z.b2z bitval) bit) in
  Some (<[Z.to_nat byte := Z.land byteval 0xff]> p).

(** [n] is the number of bits left, [bits - j]. *)
Fixpoint set_bits (p : list Z) (offset : Z) (n : nat) (value : Z) : option (list Z) :=
  match n with
  | O => Some p
  | S n =>
    p ← set_bit p offset (negb (Z.land value (Z.shiftl 1 (Z.of_nat n)) =? 0));
    set_bits p (uwrap 64 (offset + 1)) n value
  end.

Definition setUnsignedBitfield (p : list Z) (offset bits value : Z) : option (list Z) :=
  set_bits p offset (Z.to_nat bits) value.

Definition setSignedBitfield (p : list Z) (offset bits value : Z) : option (list Z) :=
  setUnsignedBitfield p offset bits (uwrap 64 value).

Fixpoint get_bits (p : list Z) (offset : Z) (n : nat) (value : Z) : option Z :=
  match n with
  | O => Some value
  | S n =>
    let byte := Z.shiftr offset 3 in
    let bit := 7 - Z.land offset 7 in
    byteval ← p !! Z.to_nat byte;
    let bitval := Z.land (Z.shiftr byteval bit) 1 in
    get_bits p (uwrap 64 (offset + 1)) n (Z.lor (uwrap 64 (Z.shiftl value 1)) bitval)
  end.

Definition getUnsignedBitfield (p : list Z) (offset bits : Z) : option Z :=
  get_bits p offset (Z.to_nat bits) 0.

(** [((uint64_t)-1) << bits]: undefined for 64. *)
Definition high_mask (bits : Z) : option Z :=
  if bits <? 64 then Some (uwrap 64 (Z.shiftl (2 ^ 64 - 1) bits)) else None.

Definition getSignedBitfield (p : list Z) (offset bits : Z) : option Z :=
  u ← getUnsignedBitfield p offset bits;
  if negb (Z.land u (Z.shiftl 1 (bits - 1)) =? 0) then
    mask ← high_mask bits;
    Some (swrap 64 (Z.lor u mask))
  else Some (swrap 64 u).

(** ** Overflow policies *)

Inductive overflow_type := BFOVERFLOW_WRAP | BFOVERFLOW_SAT | BFOVERFLOW_FAIL.

(** The return value and what is stored to [limit], which the callers pass;
    the outer [None] is an undefined shift. *)
Definition checkUnsignedBitfieldOverflow (value incr bits : Z) (owtype : overflow_type) : option (Z * option Z) :=
  let max := if bits =? 64 then 2 ^ 64 - 1 else 2 ^ bits - 1 in
  let maxincr := swrap 64 (max - value) in
  let minincr := swrap 64 (- value) in
  let handle_wrap :=
    mask ← high_mask bits;
    Some (1, Some (Z.land (uwrap 64 (value + incr)) (2 ^ 64 - 1 - mask))) in
  if (value >? max) || ((incr >? 0) && (incr >? maxincr)) then
    match owtype with
    | BFOVERFLOW_WRAP => handle_wrap
    | BFOVERFLOW_SAT => Some (1, Some max)
    | BFOVERFLOW_FAIL => Some (1, None)
    end
  else if (incr <? 0) && (incr <? minincr) then
    match owtype with
    | BFOVERFLOW_WRAP => handle_wrap
    | BFOVERFLOW_SAT => Some (-1, Some 0)
    | BFOVERFLOW_FAIL => Some (-1, None)
    end
  else Some (0, None).

(** [maxincr] and [minincr] may overflow and wrap around. *)
Definition checkSignedBitfieldOverflow (value incr bits : Z) (owtype : overflow_type) : option (Z * option Z) :=
  let max := if bits =? 64 then 2 ^ 63 - 1 else 2 ^ (bits - 1) - 1 in
  let min := - max - 1 in
  let maxincr := swrap 64 (max - value) in
  let minincr := swrap 64 (min - value) in
  let handle_wrap :=
    mask ← high_mask bits;
    let msb := Z.shiftl 1 (bits - 1) in
    let c := uwrap 64 (uwrap 64 value + uwrap 64 incr) in
    let c := if negb (Z.land c msb =? 0) then Z.lor c mask else Z.land c (2 ^ 64 - 1 - mask) in
    Some (1, Some (swrap 64 c)) in
  if (value >? max) || (negb (bits =? 64) && (incr >? maxincr)) || ((value >=? 0) && (incr >? 0) && (incr >? maxincr)) then
    match owtype with
    | BFOVERFLOW_WRAP => handle_wrap
    | BFOVERFLOW_SAT => Some (1, Some max)
    | BFOVERFLOW_FAIL => Some (1, None)
    end
  else if (value <? min) || (negb (bits =? 64) && (incr <? minincr)) || ((value <? 0) && (incr <? 0) && (incr <? minincr)) then
    match owtype with
    | BFOVERFLOW_WRAP => handle_wrap
    | BFOVERFLOW_SAT => Some (-1, Some min)
    | BFOVERFLOW_FAIL => Some (-1, None)
    end
  else Some (0, None).

(** ** Arguments of the bit commands *)

(** [None]: an error is sent to the client. *)
Definition getBitOffsetFromArgument (p : list Z) (hash : bool) (bits : Z) : option Z :=
  let usehash := bool_decide (p !! 0%nat = Some 35) && hash && (bits >? 0) in
  loffset ← string2ll (if usehash then drop 1 p else p);
  let loffset := if usehash then swrap 64 (loffset * bits) else loffset in
  if (loffset <? 0) || (Z.shiftr (uwrap 64 loffset) 3 >=? 512 * 1024 * 1024) then None else Some loffset.

(** [p] up to its terminator; the sign and the number of bits. *)
Definition getBitfieldTypeFromArgument (p : list Z) : option (bool * Z) :=
  match p with
  | [] => None
  | c :: p =>
    sign ← (if c =? 105 then Some true else if c =? 117 then Some false else None);
    llbits ← string2ll p;
    if (llbits <? 1) || (sign && (llbits >? 64)) || (negb sign && (llbits >? 63)) then None else Some (sign, llbits)
  end.

(** ** Executing BITFIELD *)

Inductive bitfield_opcode := BITFIELDOP_GET | BITFIELDOP_SET | BITFIELDOP_INCRBY.

Record bitfieldOp := mk_bitfieldOp {
  bf_offset : Z; bf_i64 : Z; bf_opcode : bitfield_opcode; bf_owtype : overflow_type; bf_bits : Z; bf_sign : bool;
}.

(** The value stored on overflow; with FAIL nothing is stored and the
    variable is left undefined. *)
Definition overflowed (newval : Z) (ov : Z * option Z) : option Z :=
  if ov.1 =? 0 then Some newval else ov.2.

(** SET and INCRBY on the string [s]: the new string and the reply, [None]
    for the null bulk.  [w] converts to [int64_t] or [uint64_t]. *)
Definition bitfield_write (s : list Z) (o : bitfieldOp) (w : Z -> Z)
    (get : list Z -> Z -> Z -> option Z) (set : list Z -> Z -> Z -> Z -> option (list Z))
    (check : Z -> Z -> Z -> overflow_type -> option (Z * option Z)) : option (list Z * option Z) :=
  oldval ← get s (bf_offset o) (bf_bits o);
  let incrby := match bf_opcode o with BITFIELDOP_INCRBY => true | _ => false end in
  let newval := if incrby then w (oldval + bf_i64 o) else w (bf_i64 o) in
  ov ← (if incrby then check oldval (bf_i64 o) (bf_bits o) (bf_owtype o) else check newval 0 (bf_bits o) (bf_owtype o));
  match bf_owtype o, ov.1 =? 0 with
  | BFOVERFLOW_FAIL, false => Some (s, None)
  | _, _ =>
    newval ← overflowed newval ov;
    s ← set s (bf_offset o) (bf_bits o) newval;
    Some (s, Some (swrap 64 (if incrby then newval else oldval)))
  end.

(** GET: up to 9 bytes are copied to a zeroed buffer. *)
Definition get_buf (s : list Z) (byte : Z) : list Z :=
  (fun i => default 0 (s !! (i + Z.to_nat byte)%nat)) <$> seq 0 9.

Definition bitfield_get (s : list Z) (o : bitfieldOp) : option Z :=
  let byte := Z.shiftr (bf_offset o) 3 in
  let buf := get_buf s byte in
  val ← (if bf_sign o then getSignedBitfield buf (bf_offset o - byte * 8) (bf_bits o)
         else getUnsignedBitfield buf (bf_offset o - byte * 8) (bf_bits o));
  Some (swrap 64 val).

Definition bitfield_op (s : list Z) (o : bitfieldOp) : option (list Z * option Z) :=
  match bf_opcode o with
  | BITFIELDOP_GET => v ← bitfield_get s o; Some (s, Some v)
  | _ =>
    if bf_sign o
    then bitfield_write s o (swrap 64) getSignedBitfield setSignedBitfield checkSignedBitfieldOverflow
    else bitfield_write s o (uwrap 64) getUnsignedBitfield setUnsignedBitfield checkUnsignedBitfieldOverflow
  end.

Fixpoint bitfield_ops (s : list Z) (ops : list bitfieldOp) : option (list Z * list (option Z)) :=
  match ops with
  | [] => Some (s, [])
  | o :: ops => '(s, r) ← bitfield_op s o; '(s, rs) ← bitfield_ops s ops; Some (s, r :: rs)
  end.

(** ** The bits of a bitmap

    Bit [i], counted from the left; the bitmap is followed by zeros. *)

Definition bit_at (l : list Z) (i : Z) : bool :=
  match l !! Z.to_nat (i / 8) with Some b => Z.testbit b (7 - i mod 8) | None => false end.

Definition ones (l : list Z) : Z :=
  zlen (filter (fun i => bit_at l (Z.of_nat i) = true) (seq 0 (8 * length l))).

Lemma testbit_lane b y n : 0 <= b < 256 -> 0 <= n -> Z.testbit (b + 256 * y) n = if n <? 8 then Z.testbit b n else Z.testbit y (n - 8).
Proof.
  intros Hb Hn. destruct (Z.ltb_spec n 8) as [H8|H8].
  - rewrite <- (Z.mod_pow2_bits_low (b + 256 * y) 8 n) by lia. f_equal. change (2 ^ 8) with 256.
    rewrite Z.mul_comm, Z.mod_add, Z.mod_small by lia. done.
  - replace n with ((n - 8) + 8) at 1 by lia. rewrite <- Z.div_pow2_bits by lia. f_equal. change (2 ^ 8) with 256.
    rewrite Z.mul_comm, Z.div_add, Z.div_small by lia. lia.
Qed.

(** Masks and shifts act on each byte of a word when the mask keeps out the
    bits that come from the next byte. *)
Lemma land_shift_lane b y m M k :
  0 <= b < 256 -> 0 <= y -> 0 <= k <= 8 -> 0 <= m < 2 ^ (8 - k) -> 0 <= M ->
  Z.land (Z.shiftr (b + 256 * y) k) (m + 256 * M) = Z.land (Z.shiftr b k) m + 256 * Z.land (Z.shiftr y k) M.
Proof.
  intros Hb Hy Hk Hm HM.
  assert (2 ^ (8 - k) <= 256) as H8 by (change 256 with (2 ^ 8); apply Z.pow_le_mono_r; lia).
  assert (0 <= Z.land (Z.shiftr b k) m < 256) as Hl.
  { split; [apply Z.land_nonneg; lia|]. apply Z.le_lt_trans with m; [|lia].
    rewrite Z.land_comm. apply Z.ldiff_le; [lia|]. apply Z.bits_inj'. intros n Hn.
    rewrite Z.ldiff_spec, Z.land_spec, Z.bits_0. destruct (Z.testbit m n), (Z.testbit _ n); done. }
  apply Z.bits_inj'. intros n Hn. rewrite testbit_lane by lia. rewrite Z.land_spec, testbit_lane by lia.
  rewrite Z.shiftr_spec by lia. destruct (Z.ltb_spec n 8) as [Hn8|Hn8].
  - rewrite Z.land_spec, Z.shiftr_spec by lia. destruct (Z.testbit m n) eqn:Em; [|by rewrite !andb_false_r].
    rewrite !andb_true_r. rewrite testbit_lane by lia. destruct (Z.ltb_spec (n + k) 8) as [Hnk|Hnk]; [done|].
    rewrite <- (Z.mod_small m (2 ^ (8 - k))) in Em by lia. rewrite Z.mod_pow2_bits_high in Em by lia. done.
  - rewrite Z.land_spec, Z.shiftr_spec by lia. rewrite testbit_lane by lia. rewrite (proj2 (Z.ltb_ge _ _)) by lia.
    f_equal. f_equal. lia.
Qed.

(** ** Counting a block of words *)

Definition b_diff (b : Z) : Z := b - Z.land (Z.shiftr b 1) 0x55.
Definition b_pairs (b : Z) : Z := Z.land (b_diff b) 0x33 + Z.land (Z.shiftr (b_diff b) 2) 0x33.

Lemma byte_steps b : byte_ok b ->
  0 <= b_diff b < 256 /\ b_pairs b mod 16 <= 4 /\ 0 <= b_pairs b / 16 <= 4 /\ 0 <= b_pairs b < 256 /\
  (b_pairs b + b_pairs b / 16) mod 16 = bits_of_byte b /\ 0 <= bits_of_byte b <= 8.
Proof.
  intros Hb.
  assert (all_bytes (fun b => (0 <=? b_diff b) && (b_diff b <? 256) && (b_pairs b mod 16 <=? 4) && (0 <=? b_pairs b / 16) &&
    (b_pairs b / 16 <=? 4) && (0 <=? b_pairs b) && (b_pairs b <? 256) &&
    ((b_pairs b + b_pairs b / 16) mod 16 =? bits_of_byte b) && (0 <=? bits_of_byte b) && (bits_of_byte b <=? 8)) = true) as Hall
    by (vm_compute; reflexivity).
  pose proof (all_bytes_spec _ b Hall Hb) as H. cbv beta in H.
  rewrite !andb_true_iff, !Z.leb_le, !Z.ltb_lt, Z.eqb_eq in H. tauto.
Qed.

(** A word as four lanes. *)
Definition lanes (a b c d : Z) : Z := a + 256 * (b + 256 * (c + 256 * d)).

Lemma lanes_land_shift k a b c d m :
  byte_ok a -> byte_ok b -> byte_ok c -> byte_ok d -> 0 <= k <= 8 -> 0 <= m < 2 ^ (8 - k) ->
  Z.land (Z.shiftr (lanes a b c d) k) (lanes m m m m) =
  lanes (Z.land (Z.shiftr a k) m) (Z.land (Z.shiftr b k) m) (Z.land (Z.shiftr c k) m) (Z.land (Z.shiftr d k) m).
Proof.
  unfold lanes, byte_ok. intros Ha Hb Hc Hd Hk Hm. by rewrite !land_shift_lane by lia.
Qed.

Lemma lanes_land a b c d m :
  byte_ok a -> byte_ok b -> byte_ok c -> byte_ok d -> 0 <= m < 256 ->
  Z.land (lanes a b c d) (lanes m m m m) = lanes (Z.land a m) (Z.land b m) (Z.land c m) (Z.land d m).
Proof. intros Ha Hb Hc Hd Hm. rewrite <- (Z.shiftr_0_r (lanes a b c d)), (lanes_land_shift 0) by (done || lia). by rewrite !Z.shiftr_0_r. Qed.

Lemma lanes_range a b c d : byte_ok a -> byte_ok b -> byte_ok c -> byte_ok d -> in_u 32 (lanes a b c d).
Proof. unfold byte_ok, lanes, in_u. change (2 ^ 32) with 4294967296. lia. Qed.

Lemma aux_pairs_lanes a b c d :
  byte_ok a -> byte_ok b -> byte_ok c -> byte_ok d ->
  aux_pairs (lanes a b c d) = lanes (b_pairs a) (b_pairs b) (b_pairs c) (b_pairs d).
Proof.
  intros Ha Hb Hc Hd. destruct (byte_steps a Ha) as (Ha1 & _ & _ & Ha2 & _), (byte_steps b Hb) as (Hb1 & _ & _ & Hb2 & _),
    (byte_steps c Hc) as (Hc1 & _ & _ & Hc2 & _), (byte_steps d Hd) as (Hd1 & _ & _ & Hd2 & _).
  unfold aux_pairs. change 0x55555555 with (lanes 0x55 0x55 0x55 0x55). change 0x33333333 with (lanes 0x33 0x33 0x33 0x33).
  rewrite (lanes_land_shift 1 a b c d 0x55) by (done || lia).
  replace (lanes a b c d - _) with (lanes (b_diff a) (b_diff b) (b_diff c) (b_diff d)) by (unfold lanes, b_diff; lia).
  rewrite (uwrap_small 32 (lanes (b_diff a) _ _ _)) by by apply lanes_range.
  rewrite lanes_land, (lanes_land_shift 2) by (done || lia).
  replace (lanes _ _ _ _ + lanes _ _ _ _) with (lanes (b_pairs a) (b_pairs b) (b_pairs c) (b_pairs d)) by (unfold lanes, b_pairs; lia).
  apply uwrap_small. by apply lanes_range.
Qed.

Lemma lane_div16 p y : (p + 256 * y) / 16 = (p / 16 + 16 * (y mod 16)) + 256 * (y / 16) /\ (p + 256 * y) mod 16 = p mod 16.
Proof.
  replace (p + 256 * y) with (p + (16 * y) * 16) by lia. rewrite Z.div_add, Z.mod_add by lia. split; [|done].
  pose proof (Z.div_mod y 16). lia.
Qed.

Lemma aux_nibbles_lanes a b c d :
  byte_ok a -> byte_ok b -> byte_ok c -> byte_ok d ->
  aux_nibbles (lanes (b_pairs a) (b_pairs b) (b_pairs c) (b_pairs d))
    = lanes (bits_of_byte a) (bits_of_byte b) (bits_of_byte c) (bits_of_byte d).
Proof.
  intros Ha Hb Hc Hd. destruct (byte_steps a Ha) as (_ & La & Ga & Ra & Ea & _), (byte_steps b Hb) as (_ & Lb & Gb & Rb & Eb & _),
    (byte_steps c Hc) as (_ & Lc & Gc & Rc & Ec & _), (byte_steps d Hd) as (_ & Ld & Gd & Rd & Ed & _).
  unfold aux_nibbles. generalize dependent (b_pairs a). generalize dependent (b_pairs b). generalize dependent (b_pairs c).
  generalize dependent (b_pairs d). intros pd Ld Gd Rd Ed pc Lc Gc Rc Ec pb Lb Gb Rb Eb pa La Ga Ra Ea.
  change 0x0F0F0F0F with (lanes 15 15 15 15). rewrite Z.shiftr_div_pow2 by lia. change (2 ^ 4) with 16.
  replace (lanes pa pb pc pd / 16) with (lanes (pa / 16 + 16 * (pb mod 16)) (pb / 16 + 16 * (pc mod 16))
    (pc / 16 + 16 * (pd mod 16)) (pd / 16)).
  2:{ unfold lanes. rewrite (proj1 (lane_div16 pa _)), (proj1 (lane_div16 pb _)), (proj1 (lane_div16 pc _)),
        (proj2 (lane_div16 pb _)), (proj2 (lane_div16 pc _)). done. }
  replace (lanes pa pb pc pd + _) with (lanes (pa + pa / 16 + 16 * (pb mod 16)) (pb + pb / 16 + 16 * (pc mod 16))
    (pc + pc / 16 + 16 * (pd mod 16)) (pd + pd / 16)) by (unfold lanes; lia).
  assert (forall p q, 0 <= p < 256 -> p mod 16 <= 4 -> 0 <= p / 16 <= 4 -> q mod 16 <= 4 -> byte_ok (p + p / 16 + 16 * (q mod 16))) as Hok.
  { unfold byte_ok. intros. pose proof (Z.mod_pos_bound q 16 ltac:(lia)). pose proof (Z.div_mod p 16 ltac:(lia)). lia. }
  assert (byte_ok (pd + pd / 16)) as Hokd by (pose proof (Hok pd 0 Rd Ld Gd ltac:(done)); by replace (pd + pd / 16) with (pd + pd / 16 + 16 * (0 mod 16)) by (rewrite Z.mod_0_l; lia)).
  rewrite uwrap_small by (apply lanes_range; auto). rewrite lanes_land by (auto; lia).
  assert (forall p q, Z.land (p + p / 16 + 16 * q) 15 = (p + p / 16) mod 16) as Hl.
  { intros p q. change 15 with (Z.ones 4). rewrite Z.land_ones by lia. change (2 ^ 4) with 16.
    rewrite Z.mul_comm, Z.mod_add by lia. done. }
  replace (pd + pd / 16) with (pd + pd / 16 + 16 * 0) by lia. rewrite !Hl. congruence.
Qed.

Definition sum_bits (l : list Z) : Z := foldr (fun b acc => bits_of_byte b + acc) 0 l.

Lemma mul_lanes a b c d :
  0 <= a -> 0 <= b -> 0 <= c -> 0 <= d -> a + b + c + d < 256 ->
  Z.shiftr (uwrap 32 (lanes a b c d * 0x01010101)) 24 = a + b + c + d.
Proof.
  intros Ha Hb Hc Hd Hs. unfold uwrap, lanes. rewrite Z.shiftr_div_pow2 by lia.
  change (2 ^ 32) with 4294967296. change (2 ^ 24) with 16777216.
  replace ((a + 256 * (b + 256 * (c + 256 * d))) * 16843009) with
    ((a + 256 * (a + b) + 65536 * (a + b + c) + 16777216 * (a + b + c + d)) +
     (b + c + d + 256 * (c + d) + 65536 * d) * 4294967296) by lia.
  rewrite Z.mod_add, Z.mod_small by lia. symmetry. apply (Z.div_unique _ _ _ (a + 256 * (a + b) + 65536 * (a + b + c))); lia.
Qed.

Lemma word_bits a b c d :
  byte_ok a -> byte_ok b -> byte_ok c -> byte_ok d ->
  aux_nibbles (aux_pairs (le_val [a; b; c; d])) = lanes (bits_of_byte a) (bits_of_byte b) (bits_of_byte c) (bits_of_byte d).
Proof.
  intros Ha Hb Hc Hd. replace (le_val [a; b; c; d]) with (lanes a b c d) by (cbn [le_val]; unfold lanes; lia).
  by rewrite aux_pairs_lanes, aux_nibbles_lanes.
Qed.

Lemma lanes_add a b c d a' b' c' d' : lanes a b c d + lanes a' b' c' d' = lanes (a + a') (b + b') (c + c') (d + d').
Proof. unfold lanes. lia. Qed.

Lemma lanes_small a b c d : 0 <= a < 256 -> 0 <= b < 256 -> 0 <= c < 256 -> 0 <= d < 256 -> uwrap 32 (lanes a b c d) = lanes a b c d.
Proof. intros. apply uwrap_small, lanes_range; done. Qed.

(** The sum of seven words, lane by lane. *)
Lemma sum_words (l : list Z) : Forall byte_ok l -> forall n, (n <= 7)%nat -> (4 * n <= length l)%nat ->
  exists a b c d, foldl (fun acc i => uwrap 32 (acc + aux_nibbles (aux_pairs (word32 l i)))) 0 (seq 0 n) = lanes a b c d /\
    0 <= a /\ 0 <= b /\ 0 <= c /\ 0 <= d /\ a + b + c + d <= 32 * Z.of_nat n /\
    a <= 8 * Z.of_nat n /\ b <= 8 * Z.of_nat n /\ c <= 8 * Z.of_nat n /\ d <= 8 * Z.of_nat n /\
    a + b + c + d = sum_bits (take (4 * n) l).
Proof.
  intros Hl n. induction n as [|n IH]; intros Hn Hlen.
  { exists 0, 0, 0, 0. split_and!; done. }
  destruct IH as (a & b & c & d & E & Ha & Hb & Hc & Hd & _ & Ba & Bb & Bc & Bd & Es); [lia|lia|].
  rewrite seq_S, foldl_app, E. cbn [foldl Nat.add].
  assert (exists x y z t, take 4 (drop (4 * n) l) = [x; y; z; t]) as (x & y & z & t & Ew).
  { assert (length (take 4 (drop (4 * n) l)) = 4%nat) as H4 by (rewrite length_take, length_drop; lia).
    destruct (take 4 (drop (4 * n) l)) as [|x [|y [|z [|t [|]]]]]; simpl in H4; try lia. by exists x, y, z, t. }
  assert (Forall byte_ok [x; y; z; t]) as Hw by (rewrite <- Ew; by apply Forall_take, Forall_drop).
  apply Forall_cons in Hw as [Hx Hw]. apply Forall_cons in Hw as [Hy Hw]. apply Forall_cons in Hw as [Hz Hw].
  apply Forall_cons in Hw as [Ht _]. unfold word32. rewrite Ew, word_bits, lanes_add by done.
  destruct (byte_steps x Hx) as (_ & _ & _ & _ & _ & Rx), (byte_steps y Hy) as (_ & _ & _ & _ & _ & Ry),
    (byte_steps z Hz) as (_ & _ & _ & _ & _ & Rz), (byte_steps t Ht) as (_ & _ & _ & _ & _ & Rt).
  rewrite lanes_small by lia. do 4 eexists. split; [done|].
  assert (take (4 * S n) l = take (4 * n) l ++ [x; y; z; t]) as ->.
  { replace (4 * S n)%nat with (4 * n + 4)%nat by lia. by rewrite <- Ew, take_take_drop. }
  assert (forall u v, sum_bits (u ++ v) = sum_bits u + sum_bits v) as Happ
    by (intros u v; induction u as [|e u IHu]; simpl; [lia|rewrite IHu; lia]).
  rewrite Happ, <- Es. simpl. split_and!; lia.
Qed.

Lemma sum_bits_app u v : sum_bits (u ++ v) = sum_bits u + sum_bits v.
Proof. induction u as [|e u IHu]; simpl; [lia|]. rewrite IHu. lia. Qed.

Lemma pop28_spec l : Forall byte_ok l -> length l = 28%nat -> pop28 l = sum_bits l.
Proof.
  intros Hl Hlen. unfold pop28. destruct (sum_words l Hl 7 ltac:(lia) ltac:(lia)) as (a & b & c & d & -> & Ha & Hb & Hc & Hd & Hs & _ & _ & _ & _ & Es).
  rewrite mul_lanes by lia. rewrite Es. rewrite take_ge by lia. done.
Qed.

Lemma sum_bits_range l : Forall byte_ok l -> 0 <= sum_bits l <= 8 * zlen l.
Proof.
  induction 1 as [|b l Hb _ IH]; [done|]. cbn [sum_bits foldr]. fold (sum_bits l). rewrite zlen_cons.
  pose proof (byte_steps b Hb). lia.
Qed.

Lemma pop_bytes_spec l bits :
  Forall byte_ok l -> 0 <= bits -> bits + 8 * zlen l < 2 ^ 64 -> pop_bytes l bits = bits + sum_bits l.
Proof.
  intros Hl. revert bits. induction Hl as [|b l Hb _ IH]; intros bits H0 Hfit; [simpl; lia|].
  cbn [pop_bytes sum_bits foldr]. fold (sum_bits l). rewrite zlen_cons in Hfit. pose proof (byte_steps b Hb).
  pose proof (zlen_nonneg l). rewrite uwrap_small by (unfold in_u; lia). rewrite IH by lia. lia.
Qed.

Lemma pop_align_spec addr l bits l' bits' :
  Forall byte_ok l -> 0 <= bits -> bits + 8 * zlen l < 2 ^ 64 -> pop_align addr l bits = (l', bits') ->
  Forall byte_ok l' /\ 0 <= bits' /\ bits' + 8 * zlen l' < 2 ^ 64 /\ bits' + sum_bits l' = bits + sum_bits l.
Proof.
  intros Hl. revert addr bits. induction Hl as [|b l Hb Hl IH]; intros addr bits H0 Hfit E.
  { injection E as <- <-. auto. }
  cbn [pop_align] in E. destruct (negb (Z.land addr 3 =? 0)); [|injection E as <- <-; auto].
  rewrite zlen_cons in Hfit. pose proof (byte_steps b Hb) as Hbs. pose proof (zlen_nonneg l) as Hz.
  rewrite uwrap_small in E by (unfold in_u; lia). apply IH in E as (G1 & G2 & G3 & G4); [|lia|lia].
  split_and!; try done. cbn [sum_bits foldr]. fold (sum_bits l). lia.
Qed.

Lemma pop_blocks_spec fuel l bits :
  Forall byte_ok l -> 0 <= bits -> bits + 8 * zlen l < 2 ^ 64 -> (length l <= fuel)%nat ->
  exists l' bits', pop_blocks fuel l bits = Some (l', bits') /\ Forall byte_ok l' /\ 0 <= bits' /\
    bits' + 8 * zlen l' < 2 ^ 64 /\ bits' + sum_bits l' = bits + sum_bits l.
Proof.
  revert l bits. induction fuel as [|fuel IH]; intros l bits Hl H0 Hfit Hf.
  all: cbn [pop_blocks]; rewrite Z.geb_leb; destruct (Z.leb_spec 28 (zlen l)) as [H28|H28]; [|by exists l, bits].
  { unfold zlen in H28. lia. }
  assert (zlen (drop 28 l) = zlen l - 28) as Ed by (rewrite zlen_drop; lia).
  assert (sum_bits l = sum_bits (take 28 l) + sum_bits (drop 28 l)) as Es by by rewrite <- sum_bits_app, take_drop.
  assert (Forall byte_ok (take 28 l)) as Ht by by apply Forall_take.
  pose proof (sum_bits_range _ Ht) as Hr. rewrite zlen_take in Hr.
  rewrite pop28_spec by (done || (rewrite length_take; unfold zlen in H28; lia)).
  rewrite uwrap_small by (unfold in_u; lia).
  destruct (IH (drop 28 l) (bits + sum_bits (take 28 l))) as (l' & bits' & E & H1 & H2 & H3 & H4).
  - by apply Forall_drop.
  - lia.
  - lia.
  - rewrite length_drop. unfold zlen in H28. lia.
  - exists l', bits'. split_and!; try done. lia.
Qed.

(** ** Counting bits one by one *)

Lemma bit_at_cons_lo b l i : 0 <= i < 8 -> bit_at (b :: l) i = Z.testbit b (7 - i).
Proof. intros Hi. unfold bit_at. rewrite Z.div_small, Z.mod_small by lia. done. Qed.

Lemma bit_at_cons_hi b l i : 8 <= i -> bit_at (b :: l) i = bit_at l (i - 8).
Proof.
  intros Hi. unfold bit_at. assert (i / 8 = (i - 8) / 8 + 1) as ->.
  { replace i with (i - 8 + 1 * 8) at 1 by lia. by rewrite Z.div_add by lia. }
  assert (i mod 8 = (i - 8) mod 8) as ->. { replace i with (i - 8 + 1 * 8) at 1 by lia. by rewrite Z.mod_add by lia. }
  assert (0 <= (i - 8) / 8) by (apply Z.div_pos; lia).
  replace (Z.to_nat ((i - 8) / 8 + 1)) with (S (Z.to_nat ((i - 8) / 8))) by lia. done.
Qed.

Lemma byte_ones b : byte_ok b ->
  zlen (filter (fun i => Z.testbit b (7 - Z.of_nat i) = true) (seq 0 8)) = bits_of_byte b.
Proof.
  intros Hb.
  assert (all_bytes (fun b => zlen (filter (fun i => Z.testbit b (7 - Z.of_nat i) = true) (seq 0 8)) =? bits_of_byte b) = true) as Hall
    by (vm_compute; reflexivity).
  apply (all_bytes_spec _ b Hall) in Hb. by apply Z.eqb_eq.
Qed.

Lemma filter_seq_shift (P Q : nat -> Prop) `{forall x, Decision (P x)} `{forall x, Decision (Q x)} a k n :
  (forall i, (a <= i < a + n)%nat -> P (i + k)%nat <-> Q i) -> length (filter P (seq (a + k) n)) = length (filter Q (seq a n)).
Proof.
  revert a. induction n as [|n IH]; intros a Hi; [done|]. cbn [seq].
  pose proof (Hi a ltac:(lia)) as Ha. assert (length (filter P (seq (S (a + k)) n)) = length (filter Q (seq (S a) n))) as E.
  { apply (IH (S a)). intros i Hr. apply Hi. lia. }
  destruct (decide (Q a)) as [HQ|HQ].
  - rewrite !filter_cons_True by tauto. cbn [length]. by rewrite E.
  - rewrite !filter_cons_False by tauto. done.
Qed.

Lemma ones_sum l : Forall byte_ok l -> ones l = sum_bits l.
Proof.
  induction 1 as [|b l Hb _ IH]; [done|]. cbn [sum_bits foldr]. fold (sum_bits l). rewrite <- IH, <- byte_ones by done.
  unfold ones. replace (8 * length (b :: l))%nat with (8 + 8 * length l)%nat by (simpl; lia).
  rewrite seq_app, filter_app, zlen_app. f_equal.
  unfold zlen. f_equal. apply (filter_seq_shift _ _ 0 8). intros i Hi. rewrite bit_at_cons_hi by lia.
  by replace (Z.of_nat (i + 8) - 8) with (Z.of_nat i) by lia.
Qed.

Lemma redisPopcount_spec addr l : Forall byte_ok l -> 8 * zlen l < 2 ^ 64 -> redisPopcount addr l = Some (ones l).
Proof.
  intros Hl Hfit. unfold redisPopcount. destruct (pop_align addr l 0) as [l1 b1] eqn:E1.
  destruct (pop_align_spec addr l 0 l1 b1 Hl ltac:(lia) ltac:(lia) E1) as (Hl1 & H1 & F1 & S1).
  destruct (pop_blocks_spec (length l1) l1 b1 Hl1 H1 F1 ltac:(lia)) as (l2 & b2 & -> & Hl2 & H2 & F2 & S2). cbn [mbind option_bind].
  rewrite pop_bytes_spec by done. rewrite ones_sum by done. f_equal. lia.
Qed.

(** ** Searching a bit *)

(** [r] is the first position, up to the end, whose bit is [bit]. *)
Definition is_first (l : list Z) (bit : bool) (r : Z) : Prop :=
  0 <= r <= 8 * zlen l /\ (forall i, 0 <= i < r -> bit_at l i = negb bit) /\ (r < 8 * zlen l -> bit_at l r = bit).

Lemma bit_at_end l i : 8 * zlen l <= i -> bit_at l i = false.
Proof.
  intros Hi. unfold bit_at. rewrite lookup_ge_None_2; [done|].
  assert (zlen l <= i / 8) by (apply Z.div_le_lower_bound; lia). unfold zlen in *. lia.
Qed.

Lemma bit_at_app u v i : 0 <= i -> bit_at (u ++ v) i = if i <? 8 * zlen u then bit_at u i else bit_at v (i - 8 * zlen u).
Proof.
  revert i. induction u as [|b u IH]; intros i Hi.
  { change (zlen (@nil Z)) with 0. rewrite (proj2 (Z.ltb_ge _ _)) by lia. simpl. f_equal. lia. }
  simpl app. rewrite zlen_cons. pose proof (zlen_nonneg u). destruct (Z.lt_ge_cases i 8).
  - rewrite (proj2 (Z.ltb_lt _ _)) by lia. by rewrite !bit_at_cons_lo by lia.
  - rewrite bit_at_cons_hi, IH by lia. destruct (Z.ltb_spec (i - 8) (8 * zlen u)), (Z.ltb_spec i (8 * (1 + zlen u))); try lia.
    + by rewrite bit_at_cons_hi by lia.
    + f_equal. lia.
Qed.

Lemma is_first_skip u v bit r :
  (forall i, 0 <= i < 8 * zlen u -> bit_at u i = negb bit) -> is_first v bit r -> is_first (u ++ v) bit (8 * zlen u + r).
Proof.
  intros Hu (Hr & Hb & He). pose proof (zlen_nonneg u). unfold is_first. rewrite zlen_app. split; [lia|]. split.
  - intros i Hi. rewrite bit_at_app by lia. destruct (Z.ltb_spec i (8 * zlen u)); [apply Hu; lia|apply Hb; lia].
  - intros Hlt. rewrite bit_at_app by lia. rewrite (proj2 (Z.ltb_ge _ _)) by lia.
    replace (8 * zlen u + r - 8 * zlen u) with r by lia. apply He. lia.
Qed.

Definition skip_byte (bit : bool) : Z := if bit then 0 else 255.

Lemma skip_byte_bits n bit i : 0 <= i < 8 * Z.of_nat n -> bit_at (replicate n (skip_byte bit)) i = negb bit.
Proof.
  intros Hi. unfold bit_at. assert (0 <= i / 8) by (apply Z.div_pos; lia).
  assert (i / 8 < Z.of_nat n) by (apply Z.div_lt_upper_bound; lia).
  rewrite lookup_replicate_2 by lia. pose proof (Z.mod_pos_bound i 8 ltac:(lia)). destruct bit; simpl.
  - by rewrite Z.bits_0.
  - change 255 with (Z.ones 8). rewrite Z.ones_spec_low by lia. done.
Qed.

Lemma bitpos_align_spec addr bit l pos l' pos' found :
  bitpos_align addr (skip_byte bit) l pos = (l', pos', found) ->
  exists n, l = replicate n (skip_byte bit) ++ l' /\ pos' = pos + 8 * Z.of_nat n /\
    (found = true -> exists b t, l' = b :: t /\ b <> skip_byte bit).
Proof.
  revert addr pos. induction l as [|b l IH]; intros addr pos E.
  { injection E as <- <- <-. exists 0%nat. split_and!; [done|lia|done]. }
  cbn [bitpos_align] in E. destruct (Z.land addr 7 =? 0).
  { injection E as <- <- <-. exists 0%nat. split_and!; [done|lia|done]. }
  destruct (Z.eqb_spec b (skip_byte bit)) as [->|Hb]; cbn [negb] in E.
  - apply IH in E as (n & -> & -> & Hf). exists (S n). split_and!; [done|lia|done].
  - injection E as <- <- <-. exists 0%nat. split_and!; [done|lia|eauto].
Qed.

Lemma skip_word l (bit : bool) :
  Forall byte_ok l -> length l = 8%nat -> le_val l = (if bit then 0 else 2 ^ 64 - 1) <-> l = replicate 8 (skip_byte bit).
Proof.
  intros Hl Hlen. split; intros E.
  - rewrite <- (le_bytes_val l Hl), Hlen, E. by destruct bit.
  - subst l. by destruct bit.
Qed.

Lemma bitpos_words_spec fuel (bit : bool) l pos :
  Forall byte_ok l -> (length l <= fuel)%nat ->
  exists n l', bitpos_words fuel (if bit then 0 else 2 ^ 64 - 1) l pos = Some (l', pos + 8 * Z.of_nat n) /\
    l = replicate n (skip_byte bit) ++ l' /\ (zlen l' < 8 \/ take 8 l' <> replicate 8 (skip_byte bit)).
Proof.
  revert l pos. induction fuel as [|fuel IH]; intros l pos Hl Hf.
  all: cbn [bitpos_words]; rewrite Z.geb_leb; destruct (Z.leb_spec 8 (zlen l)) as [H8|H8].
  all: try (exists 0%nat, l; rewrite Z.add_0_r; split_and!; [done|done|left; lia]).
  { unfold zlen in H8. lia. }
  assert (length (take 8 l) = 8%nat) as Hlen by (rewrite length_take; unfold zlen in H8; lia).
  pose proof (skip_word (take 8 l) bit (Forall_take _ _ _ Hl) Hlen) as Hw.
  destruct (Z.eqb_spec (le_val (take 8 l)) (if bit then 0 else 2 ^ 64 - 1)) as [E|E]; cbn [negb].
  - destruct (IH (drop 8 l) (pos + 64)) as (n & l' & E1 & E2 & E3); [by apply Forall_drop|rewrite length_drop; unfold zlen in H8; lia|].
    exists (8 + n)%nat, l'. split_and!; [rewrite E1; f_equal; f_equal; lia| |done].
    rewrite replicate_add, <- app_assoc, <- E2. apply Hw in E. rewrite <- E. by rewrite take_drop.
  - exists 0%nat, l. rewrite Z.add_0_r. split_and!; [done|done|right; by rewrite <- Hw].
Qed.

(** The word holds the next 64 bits, first bit first, padded with zeros. *)
Lemma load_word_bits j c word n :
  (j <= 8)%nat -> Forall byte_ok c -> 0 <= word < 2 ^ (64 - 8 * Z.of_nat j) -> 0 <= n ->
  0 <= load_word j c word < 2 ^ 64 /\
  Z.testbit (load_word j c word) n =
    if n <? 8 * Z.of_nat j then bit_at c (8 * Z.of_nat j - 1 - n) else Z.testbit word (n - 8 * Z.of_nat j).
Proof.
  revert c word. induction j as [|j IH]; intros c word Hj Hc Hword Hn.
  { rewrite (proj2 (Z.ltb_ge _ _)) by lia. split; [done|]. simpl. f_equal. lia. }
  assert (2 ^ (64 - 8 * Z.of_nat j) = 256 * 2 ^ (64 - 8 * Z.of_nat (S j))) as Epow.
  { replace (64 - 8 * Z.of_nat j) with (8 + (64 - 8 * Z.of_nat (S j))) by lia. rewrite Z.pow_add_r by lia. done. }
  assert (2 ^ (64 - 8 * Z.of_nat j) <= 2 ^ 64) as Hmax by (apply Z.pow_le_mono_r; lia).
  cbn [load_word]. rewrite Z.shiftl_mul_pow2 by lia. change (2 ^ 8) with 256.
  rewrite (uwrap_small 64) by (unfold in_u; lia).
  assert (exists b c', byte_ok b /\ Forall byte_ok c' /\
    match c with b :: c => load_word j c (Z.lor (word * 256) b) | [] => load_word j [] (word * 256) end
      = load_word j c' (b + 256 * word) /\ forall i, 0 <= i -> bit_at c i = bit_at (b :: c') i) as (b & c' & Hb & Hc' & -> & Hbits).
  { destruct c as [|b c].
    - exists 0, []. split_and!; try done; [f_equal; lia|]. intros i Hi. rewrite bit_at_end by (change (zlen (@nil Z)) with 0; lia).
      destruct (Z.lt_ge_cases i 8); [rewrite bit_at_cons_lo by lia; by rewrite Z.bits_0|].
      rewrite bit_at_cons_hi by lia. by rewrite bit_at_end by (change (zlen (@nil Z)) with 0; lia).
    - apply Forall_cons in Hc as [Hb Hc]. exists b, c. split_and!; try done. f_equal. apply Z.bits_inj'. intros k Hk.
      rewrite Z.lor_spec, testbit_lane by (unfold byte_ok in Hb; lia). change 256 with (2 ^ 8). rewrite Z.mul_pow2_bits by lia.
      destruct (Z.ltb_spec k 8).
      + by rewrite Z.testbit_neg_r by lia.
      + unfold byte_ok in Hb. rewrite <- (Z.mod_small b (2 ^ 8)) by lia. rewrite Z.mod_pow2_bits_high by lia. by rewrite orb_false_r. }
  unfold byte_ok in Hb. destruct (IH c' (b + 256 * word)) as [Hr Hl]; [lia|done|lia|done|]. split; [done|]. rewrite Hl.
  destruct (Z.ltb_spec n (8 * Z.of_nat j)), (Z.ltb_spec n (8 * Z.of_nat (S j))); try lia.
  - rewrite Hbits, bit_at_cons_hi by lia. f_equal. lia.
  - rewrite testbit_lane by lia. rewrite (proj2 (Z.ltb_lt _ _)) by lia. rewrite Hbits, bit_at_cons_lo by lia. f_equal. lia.
  - rewrite testbit_lane by lia. rewrite (proj2 (Z.ltb_ge _ _)) by lia. f_equal. lia.
Qed.

Lemma land_pow2_test n word : 0 <= n -> (Z.land (2 ^ n) word =? 0) = negb (Z.testbit word n).
Proof.
  intros Hn. destruct (Z.testbit word n) eqn:E; simpl.
  - apply Z.eqb_neq. intros H0. apply (f_equal (fun z => Z.testbit z n)) in H0.
    rewrite Z.land_spec, Z.pow2_bits_true, E, Z.bits_0 in H0 by lia. done.
  - apply Z.eqb_eq. apply Z.bits_inj'. intros k Hk. rewrite Z.land_spec, Z.bits_0.
    destruct (Z.eq_dec n k) as [->|Hne]; [by rewrite E, andb_false_r|]. by rewrite Z.pow2_bits_false by lia.
Qed.

Lemma bit_scan_spec (k n fuel : nat) word bit pos :
  (k <= n)%nat -> (n <= fuel)%nat -> Z.testbit word (Z.of_nat (n - k)) = bit ->
  (forall i, (i < k)%nat -> Z.testbit word (Z.of_nat (n - i)) = negb bit) ->
  bit_scan fuel (2 ^ Z.of_nat n) word bit pos = Some (pos + Z.of_nat k).
Proof.
  revert n fuel pos. induction k as [|k IH]; intros n fuel pos Hk Hf Hb Hbefore.
  all: assert (2 ^ Z.of_nat n <> 0) as H2 by (apply Z.pow_nonzero; lia).
  all: unfold bit_scan; destruct fuel as [|fuel]; fold bit_scan; rewrite (proj2 (Z.eqb_neq _ _)) by done;
    rewrite land_pow2_test, negb_involutive by lia; try lia.
  1, 2: rewrite Nat.sub_0_r in Hb; rewrite Hb, eqb_reflx; f_equal; lia.
  pose proof (Hbefore 0%nat ltac:(lia)) as H0. rewrite Nat.sub_0_r in H0. rewrite H0.
  replace (Bool.eqb (negb bit) bit) with false by by destruct bit.
  replace (Z.shiftr (2 ^ Z.of_nat n) 1) with (2 ^ Z.of_nat (n - 1)).
  2:{ rewrite Z.shiftr_div_pow2 by lia. rewrite <- Z.pow_sub_r by lia. f_equal. lia. }
  rewrite IH; [f_equal; lia|lia|lia|by replace (n - 1 - k)%nat with (n - S k)%nat by lia|].
  intros i Hi. replace (n - 1 - i)%nat with (n - S i)%nat by lia. apply Hbefore. lia.
Qed.

Lemma first_below (P : nat -> bool) n :
  (exists k, (k < n)%nat /\ P k = true /\ forall i, (i < k)%nat -> P i = false) \/ (forall i, (i < n)%nat -> P i = false).
Proof.
  induction n as [|n [(k & Hk & HP & Hb)|Hall]]; [right; lia|left; exists k; split_and!; [lia|done|done]|].
  destruct (P n) eqn:E; [left; exists n; split_and!; [lia|done|done]|]. right. intros i Hi.
  destruct (decide (i = n)) as [->|]; [done|]. apply Hall. lia.
Qed.

(** A byte is determined by its bits. *)
Lemma skip_byte_of_bits b bit :
  byte_ok b -> (forall i, 0 <= i < 8 -> Z.testbit b (7 - i) = negb bit) -> b = skip_byte bit.
Proof.
  intros Hb Hi. unfold byte_ok in Hb. apply Z.bits_inj'. intros n Hn. destruct (Z.lt_ge_cases n 8).
  - replace n with (7 - (7 - n)) at 1 by lia. rewrite Hi by lia. destruct bit; simpl; [by rewrite Z.bits_0|].
    change 255 with (Z.ones 8). by rewrite Z.ones_spec_low by lia.
  - rewrite <- (Z.mod_small b (2 ^ 8)) by lia. rewrite Z.mod_pow2_bits_high by lia. destruct bit; simpl; [by rewrite Z.bits_0|].
    change 255 with (Z.ones 8). by rewrite Z.ones_spec_high by lia.
Qed.

Lemma skip_bytes_of_bits l bit n :
  Forall byte_ok l -> (n <= length l)%nat -> (forall i, 0 <= i < 8 * Z.of_nat n -> bit_at l i = negb bit) ->
  take n l = replicate n (skip_byte bit).
Proof.
  intros Hl. revert n. induction Hl as [|b l Hb Hl IH]; intros n Hn Hi; [destruct n; [done|simpl in Hn; lia]|].
  destruct n as [|n]; [done|]. simpl. f_equal.
  - apply skip_byte_of_bits; [done|]. intros i Hi8. rewrite <- (bit_at_cons_lo b l) by lia. apply Hi. lia.
  - apply IH; [simpl in Hn; lia|]. intros i Hr. rewrite <- (Hi (i + 8)) by lia. rewrite bit_at_cons_hi by lia. f_equal. lia.
Qed.

Lemma last_word_spec l bit pos :
  Forall byte_ok l -> zlen l < 8 \/ take 8 l <> replicate 8 (skip_byte bit) ->
  exists r, is_first l bit r /\
    (if bit && (load_word 8 l 0 =? 0) then Some (-1) else bit_scan 64 (2 ^ 63) (load_word 8 l 0) bit pos)
      = Some (if bit && (r =? 8 * zlen l) then -1 else pos + r).
Proof.
  intros Hl Hstop. set (word := load_word 8 l 0). pose proof (zlen_nonneg l) as Hz.
  assert (forall i, 0 <= i < 64 -> Z.testbit word (63 - i) = bit_at l i) as Hw.
  { intros i Hi. unfold word. rewrite (proj2 (load_word_bits 8 l 0 (63 - i) ltac:(lia) Hl ltac:(simpl; lia) ltac:(lia))).
    rewrite (proj2 (Z.ltb_lt _ _)) by lia. f_equal. lia. }
  destruct (first_below (fun i => Bool.eqb (bit_at l (Z.of_nat i)) bit) 64) as [(k & Hk & HP & Hb)|Hall].
  - apply eqb_prop in HP.
    assert (forall i, 0 <= i < Z.of_nat k -> bit_at l i = negb bit) as Hbefore.
    { intros i Hi. specialize (Hb (Z.to_nat i) ltac:(lia)). rewrite Z2Nat.id in Hb by lia. apply eqb_false_iff in Hb.
      by destruct (bit_at l i), bit. }
    assert (Z.of_nat k <= 8 * zlen l /\ (bit = true -> Z.of_nat k < 8 * zlen l)) as [Hk1 Hk2].
    { destruct bit.
      - destruct (Z.lt_ge_cases (Z.of_nat k) (8 * zlen l)); [split; lia|]. by rewrite bit_at_end in HP.
      - split; [|done]. destruct (Z.le_gt_cases (Z.of_nat k) (8 * zlen l)) as [|Hgt]; [done|].
        specialize (Hbefore (8 * zlen l) ltac:(lia)). by rewrite bit_at_end in Hbefore by lia. }
    exists (Z.of_nat k). split; [split; [lia|]; split; [done|by intros _]|].
    assert (bit && (word =? 0) = false) as ->.
    { destruct bit; [|done]. simpl. apply Z.eqb_neq. intros E. specialize (Hw (Z.of_nat k) ltac:(lia)).
      by rewrite E, Z.bits_0, HP in Hw. }
    assert (bit && (Z.of_nat k =? 8 * zlen l) = false) as ->.
    { destruct bit; [|done]. simpl. apply Z.eqb_neq. specialize (Hk2 eq_refl). lia. }
    change 63 with (Z.of_nat 63). apply bit_scan_spec; [lia|lia| |].
    + replace (Z.of_nat (63 - k)) with (63 - Z.of_nat k) by lia. rewrite Hw by lia. done.
    + intros i Hi. replace (Z.of_nat (63 - i)) with (63 - Z.of_nat i) by lia. rewrite Hw by lia. apply Hbefore. lia.
  - assert (forall i, 0 <= i < 64 -> bit_at l i = negb bit) as Hn.
    { intros i Hi. specialize (Hall (Z.to_nat i) ltac:(lia)). cbv beta in Hall. rewrite Z2Nat.id in Hall by lia.
      apply eqb_false_iff in Hall. by destruct (bit_at l i), bit. }
    destruct (Z.lt_ge_cases (zlen l) 8) as [H8|H8].
    + destruct bit; [|specialize (Hn (8 * zlen l) ltac:(lia)); by rewrite bit_at_end in Hn].
      exists (8 * zlen l). split; [split; [lia|]; split; [intros i Hi; apply Hn; lia|lia]|].
      assert (word = 0) as ->; [|by rewrite !Z.eqb_refl].
      apply Z.bits_inj'. intros n Hn0. rewrite Z.bits_0. destruct (Z.lt_ge_cases n 64).
      * replace n with (63 - (63 - n)) by lia. rewrite Hw by lia. apply Hn. lia.
      * pose proof (proj1 (load_word_bits 8 l 0 0 ltac:(lia) Hl ltac:(simpl; lia) ltac:(lia))) as Hr. fold word in Hr.
        rewrite <- (Z.mod_small word (2 ^ 64)) by lia. by rewrite Z.mod_pow2_bits_high by lia.
    + exfalso. destruct Hstop as [|Hne]; [lia|]. apply Hne. apply skip_bytes_of_bits; [done|unfold zlen in H8; lia|].
      intros i Hi. apply Hn. lia.
Qed.

Lemma redisBitpos_spec addr s bit :
  Forall byte_ok s ->
  exists r, is_first s bit r /\ redisBitpos addr s bit = Some (if bit && (r =? 8 * zlen s) then -1 else r).
Proof.
  intros Hs. unfold redisBitpos. fold (skip_byte bit).
  destruct (bitpos_align addr (skip_byte bit) s 0) as [[c pos] found] eqn:E1.
  apply bitpos_align_spec in E1 as (n & -> & -> & Hfound). apply Forall_app in Hs as [_ Hc].
  assert (exists m l, (if found then Some (c, 0 + 8 * Z.of_nat n)
      else bitpos_words (length c) (if bit then 0 else 2 ^ 64 - 1) c (0 + 8 * Z.of_nat n)) = Some (l, 8 * Z.of_nat (n + m)) /\
    c = replicate m (skip_byte bit) ++ l /\ (zlen l < 8 \/ take 8 l <> replicate 8 (skip_byte bit))) as (m & l & -> & -> & Hstop).
  { destruct found.
    - exists 0%nat, c. split_and!; [f_equal; f_equal; lia|done|]. right. destruct (Hfound eq_refl) as (b & t & -> & Hb).
      simpl. intros E. injection E as E _. done.
    - destruct (bitpos_words_spec (length c) bit c (0 + 8 * Z.of_nat n) Hc ltac:(lia)) as (m & l & -> & E & Hst).
      exists m, l. split_and!; [f_equal; f_equal; lia|done|done]. }
  cbn [mbind option_bind]. apply Forall_app in Hc as [_ Hl].
  destruct (last_word_spec l bit (8 * Z.of_nat (n + m)) Hl Hstop) as (r & Hr & ->).
  exists (8 * Z.of_nat (n + m) + r). rewrite app_assoc, <- replicate_add.
  pose proof (zlen_replicate (n + m) (skip_byte bit)) as Ez. split.
  - rewrite <- Ez. apply is_first_skip; [|done]. rewrite Ez. intros i Hi. by apply skip_byte_bits.
  - rewrite zlen_app, Ez. do 2 f_equal. f_equal. destruct (Z.eqb_spec r (8 * zlen l)), (Z.eqb_spec (8 * Z.of_nat (n + m) + r) (8 * (Z.of_nat (n + m) + zlen l))); done || lia.
Qed.

(** ** Reading and writing bit fields *)

Lemma offset_split offset : 0 <= offset ->
  Z.shiftr offset 3 = offset / 8 /\ Z.land offset 7 = offset mod 8 /\ 0 <= offset / 8 /\ 0 <= offset mod 8 < 8 /\
  offset = 8 * (offset / 8) + offset mod 8.
Proof.
  intros H. split_and!.
  - by rewrite Z.shiftr_div_pow2.
  - change 7 with (Z.ones 3). by rewrite Z.land_ones.
  - apply Z.div_pos; lia.
  - by apply Z.mod_pos_bound.
  - by apply Z.mod_pos_bound.
  - apply Z.div_mod. lia.
Qed.

Lemma set_bit_byte b k v n : 0 <= k < 8 -> 0 <= n ->
  Z.testbit (Z.land (Z.lor (Z.land b (Z.lnot (Z.shiftl 1 k))) (Z.shiftl (Z.b2z v) k)) 0xff) n
    = if n =? k then v else (n <? 8) && Z.testbit b n.
Proof.
  intros Hk Hn. change 0xff with (Z.ones 8). rewrite Z.land_spec, Z.lor_spec, Z.land_spec, Z.lnot_spec by lia.
  rewrite !Z.shiftl_mul_pow2, Z.mul_1_l, Z.mul_pow2_bits by lia. rewrite Z.pow2_bits_eqb by lia.
  rewrite (Z.eqb_sym k n). destruct (Z.eqb_spec n k) as [->|Hne].
  - rewrite Z.sub_diag, Z.ones_spec_low by lia. rewrite andb_false_r, andb_true_r. by destruct v.
  - assert (Z.testbit (Z.b2z v) (n - k) = false) as ->.
    { destruct (Z.lt_ge_cases n k); [by rewrite Z.testbit_neg_r by lia|]. destruct v; simpl.
      - change 1 with (2 ^ 0). by rewrite Z.pow2_bits_false by lia.
      - apply Z.bits_0. }
    rewrite orb_false_r, andb_true_r. destruct (Z.ltb_spec n 8).
    + rewrite Z.ones_spec_low by lia. by rewrite andb_true_r.
    + rewrite Z.ones_spec_high by lia. by rewrite andb_false_r.
Qed.

Lemma set_bit_spec p offset v :
  Forall byte_ok p -> 0 <= offset < 8 * zlen p ->
  exists p', set_bit p offset v = Some p' /\ Forall byte_ok p' /\ zlen p' = zlen p /\
    forall i, 0 <= i -> bit_at p' i = if i =? offset then v else bit_at p i.
Proof.
  intros Hp Ho. destruct (offset_split offset ltac:(lia)) as (E1 & E2 & H1 & H2 & E3). unfold set_bit. rewrite E1, E2.
  assert (offset / 8 < zlen p) as Hlt by (apply Z.div_lt_upper_bound; lia).
  destruct (lookup_lt_is_Some_2 p (Z.to_nat (offset / 8))) as [b Eb]; [unfold zlen in Hlt; lia|]. rewrite Eb. cbn [mbind option_bind].
  set (nb := Z.land _ 0xff). eexists. split; [done|]. split_and!.
  - apply Forall_insert; [done|]. unfold byte_ok, nb. change 0xff with (Z.ones 8). rewrite Z.land_ones by lia.
    change 256 with (2 ^ 8). apply Z.mod_pos_bound. lia.
  - unfold zlen. by rewrite length_insert.
  - intros i Hi. destruct (offset_split i Hi) as (_ & _ & I1 & I2 & I3). unfold bit_at.
    destruct (Z.eq_dec (i / 8) (offset / 8)) as [Ed|Ed].
    + rewrite Ed, list_lookup_insert_eq by (unfold zlen in Hlt; lia). unfold nb. rewrite set_bit_byte by lia. rewrite Eb.
      rewrite (proj2 (Z.ltb_lt (7 - i mod 8) 8)) by lia. simpl.
      destruct (Z.eqb_spec (7 - i mod 8) (7 - offset mod 8)), (Z.eqb_spec i offset); try done; lia.
    + rewrite list_lookup_insert_ne by lia. rewrite (proj2 (Z.eqb_neq i offset)) by congruence. done.
Qed.

Lemma set_bits_spec n : forall p offset value,
  Forall byte_ok p -> 0 <= offset -> offset + Z.of_nat n <= 8 * zlen p -> 8 * zlen p < 2 ^ 64 ->
  exists p', set_bits p offset n value = Some p' /\ Forall byte_ok p' /\ zlen p' = zlen p /\
    forall i, 0 <= i -> bit_at p' i =
      if (offset <=? i) && (i <? offset + Z.of_nat n) then Z.testbit value (Z.of_nat n - 1 - (i - offset)) else bit_at p i.
Proof.
  induction n as [|n IH]; intros p offset value Hp Ho Hn Hfit.
  { exists p. split_and!; try done. intros i Hi. destruct (Z.leb_spec offset i), (Z.ltb_spec i (offset + Z.of_nat 0)); try done; lia. }
  cbn [set_bits]. rewrite Z.shiftl_1_l, Z.land_comm, land_pow2_test, negb_involutive by lia.
  destruct (set_bit_spec p offset (Z.testbit value (Z.of_nat n)) Hp ltac:(lia)) as (p1 & -> & Hp1 & El1 & Hb1). cbn [mbind option_bind].
  rewrite uwrap_small by (unfold in_u; lia).
  destruct (IH p1 (offset + 1) value Hp1 ltac:(lia) ltac:(lia) ltac:(lia)) as (p2 & -> & Hp2 & El2 & Hb2).
  exists p2. split_and!; [done|done|lia|]. intros i Hi. rewrite Hb2, Hb1 by lia.
  destruct (Z.leb_spec (offset + 1) i), (Z.ltb_spec i (offset + 1 + Z.of_nat n)), (Z.leb_spec offset i),
    (Z.ltb_spec i (offset + Z.of_nat (S n))), (Z.eqb_spec i offset); simpl; try lia; try done; f_equal; lia.
Qed.

(** The integer that the [n] bits from [offset] stand for. *)
Fixpoint field (p : list Z) (offset : Z) (n : nat) : Z :=
  match n with
  | O => 0
  | S n => 2 * field p offset n + Z.b2z (bit_at p (offset + Z.of_nat n))
  end.

Lemma field_range p offset n : 0 <= field p offset n < 2 ^ Z.of_nat n.
Proof.
  induction n as [|n IH]; [done|]. rewrite Nat2Z.inj_succ, Z.pow_succ_r by lia. cbn [field].
  destruct (bit_at p _); simpl; lia.
Qed.

Lemma field_front p offset n :
  field p offset (S n) = Z.b2z (bit_at p offset) * 2 ^ Z.of_nat n + field p (offset + 1) n.
Proof.
  induction n as [|n IH]; [cbn [field]; rewrite Z.add_0_r; change (2 ^ Z.of_nat 0) with 1; lia|].
  cbn [field] in IH |- *. rewrite IH. rewrite Nat2Z.inj_succ, Z.pow_succ_r by lia.
  replace (offset + Z.succ (Z.of_nat n)) with (offset + 1 + Z.of_nat n) by lia. lia.
Qed.

Lemma get_bits_spec n : forall p offset value,
  0 <= offset -> offset + Z.of_nat n <= 8 * zlen p -> 8 * zlen p < 2 ^ 64 ->
  0 <= value -> value * 2 ^ Z.of_nat n + 2 ^ Z.of_nat n <= 2 ^ 64 ->
  get_bits p offset n value = Some (value * 2 ^ Z.of_nat n + field p offset n).
Proof.
  induction n as [|n IH]; intros p offset value Ho Hn Hfit Hv Hr.
  { simpl. f_equal. lia. }
  cbn [get_bits]. destruct (offset_split offset Ho) as (E1 & E2 & H1 & H2 & E3). rewrite E1, E2.
  assert (offset / 8 < zlen p) as Hlt by (apply Z.div_lt_upper_bound; lia).
  destruct (lookup_lt_is_Some_2 p (Z.to_nat (offset / 8))) as [b Eb]; [unfold zlen in Hlt; lia|]. rewrite Eb. cbn [mbind option_bind].
  assert (Z.land (Z.shiftr b (7 - offset mod 8)) 1 = Z.b2z (bit_at p offset)) as ->.
  { unfold bit_at. rewrite Eb. change 1 with (Z.ones 1). rewrite Z.land_ones by lia. rewrite <- Z.bit0_mod, Z.shiftr_spec by lia.
    f_equal. }
  rewrite (uwrap_small 64 (offset + 1)) by (unfold in_u; lia). rewrite Nat2Z.inj_succ, Z.pow_succ_r in Hr by lia.
  assert (0 < 2 ^ Z.of_nat n) as Hpos by (apply Z.pow_pos_nonneg; lia).
  rewrite Z.shiftl_mul_pow2, (uwrap_small 64 (value * 2 ^ 1)) by (unfold in_u; nia).
  assert (Z.lor (value * 2 ^ 1) (Z.b2z (bit_at p offset)) = value * 2 + Z.b2z (bit_at p offset)) as ->.
  { change (2 ^ 1) with 2. destruct (bit_at p offset); simpl; [|rewrite Z.lor_0_r; lia].
    rewrite Z.mul_comm. by destruct value. }
  rewrite IH; [|lia|lia|lia|destruct (bit_at p offset); simpl; lia|destruct (bit_at p offset); simpl; nia].
  f_equal. rewrite field_front. rewrite Nat2Z.inj_succ, Z.pow_succ_r by lia. lia.
Qed.

(** ** Sign extension *)

Lemma testbit_split b x y n : 0 <= b -> 0 <= x < 2 ^ b -> 0 <= n ->
  Z.testbit (x + 2 ^ b * y) n = if n <? b then Z.testbit x n else Z.testbit y (n - b).
Proof.
  intros Hb Hx Hn. assert (0 < 2 ^ b) by lia. destruct (Z.ltb_spec n b) as [H8|H8].
  - rewrite <- (Z.mod_pow2_bits_low (x + 2 ^ b * y) b n) by lia. f_equal. rewrite Z.mul_comm, Z.mod_add, Z.mod_small by lia. done.
  - replace n with ((n - b) + b) at 1 by lia. rewrite <- Z.div_pow2_bits by lia. f_equal.
    rewrite Z.mul_comm, Z.div_add, Z.div_small by lia. lia.
Qed.

Lemma pow64_split b : 0 <= b <= 64 -> 2 ^ 64 = 2 ^ b * 2 ^ (64 - b).
Proof. intros Hb. rewrite <- Z.pow_add_r by lia. f_equal. lia. Qed.

Lemma pow_bounds b : 1 <= b <= 63 -> 2 <= 2 ^ b <= 2 ^ 63 /\ 2 ^ b = 2 * 2 ^ (b - 1) /\ 1 <= 2 ^ (b - 1) /\ 2 ^ 64 = 2 * 2 ^ 63.
Proof.
  intros Hb. pose proof (pow2_double b ltac:(lia)) as E. assert (0 < 2 ^ (b - 1)) by (apply Z.pow_pos_nonneg; lia).
  assert (2 ^ b <= 2 ^ 63) by (apply Z.pow_le_mono_r; lia). split_and!; lia.
Qed.

Lemma high_mask_small b : 1 <= b <= 63 -> high_mask b = Some (2 ^ 64 - 2 ^ b).
Proof.
  intros Hb. unfold high_mask. rewrite (proj2 (Z.ltb_lt _ _)) by lia. f_equal. rewrite Z.shiftl_mul_pow2 by lia. unfold uwrap.
  destruct (pow_bounds b Hb) as (H1 & H2 & H3 & H4).
  replace ((2 ^ 64 - 1) * 2 ^ b) with ((2 ^ 64 - 2 ^ b) + (2 ^ b - 1) * 2 ^ 64) by lia.
  rewrite Z.mod_add, Z.mod_small by lia. done.
Qed.

Lemma lor_high c b : 1 <= b <= 63 -> 0 <= c < 2 ^ 64 -> Z.lor c (2 ^ 64 - 2 ^ b) = c mod 2 ^ b + (2 ^ 64 - 2 ^ b).
Proof.
  intros Hb Hc. assert (0 < 2 ^ b) as Hp by (apply Z.pow_pos_nonneg; lia).
  assert (2 ^ 64 - 2 ^ b = 0 + 2 ^ b * Z.ones (64 - b)) as E.
  { rewrite Z.ones_equiv, (pow64_split b) by lia. lia. }
  pose proof (Z.mod_pos_bound c (2 ^ b) Hp).
  replace (c mod 2 ^ b + (2 ^ 64 - 2 ^ b)) with (c mod 2 ^ b + 2 ^ b * Z.ones (64 - b)) by lia. rewrite E.
  apply Z.bits_inj'. intros n Hn. rewrite Z.lor_spec, !testbit_split by lia. destruct (Z.ltb_spec n b).
  - rewrite Z.bits_0, orb_false_r. by rewrite Z.mod_pow2_bits_low by lia.
  - destruct (Z.lt_ge_cases n 64).
    + rewrite Z.ones_spec_low by lia. by rewrite orb_true_r.
    + rewrite Z.ones_spec_high by lia. rewrite <- (Z.mod_small c (2 ^ 64)) by lia. by rewrite Z.mod_pow2_bits_high by lia.
Qed.

Lemma msb_test c b : 1 <= b -> Z.testbit c (b - 1) = (2 ^ (b - 1) <=? c mod 2 ^ b).
Proof.
  intros Hb. rewrite <- (Z.mod_pow2_bits_low c b) by lia. pose proof (pow2_double b ltac:(lia)) as E.
  assert (0 < 2 ^ (b - 1)) as Hp by (apply Z.pow_pos_nonneg; lia). pose proof (Z.mod_pos_bound c (2 ^ b) ltac:(lia)) as Hr.
  set (x := c mod 2 ^ b) in *. destruct (Z.leb_spec (2 ^ (b - 1)) x) as [Hx|Hx].
  - replace x with ((x - 2 ^ (b - 1)) + 2 ^ (b - 1) * 1) by lia. rewrite testbit_split by lia.
    rewrite Z.ltb_irrefl, Z.sub_diag. done.
  - replace x with (x + 2 ^ (b - 1) * 0) by lia. rewrite testbit_split by lia. rewrite Z.ltb_irrefl, Z.sub_diag. done.
Qed.

Lemma sign_extend c b : 1 <= b <= 63 -> 0 <= c < 2 ^ 64 ->
  swrap 64 (if Z.testbit c (b - 1) then Z.lor c (2 ^ 64 - 2 ^ b) else c mod 2 ^ b) = swrap b c.
Proof.
  intros Hb Hc. destruct (pow_bounds b Hb) as (H1 & H2 & H3 & H4). rewrite msb_test, lor_high by lia.
  pose proof (Z.mod_pos_bound c (2 ^ b) ltac:(lia)) as Hr. unfold swrap at 2. change (64 - 1) with 63.
  destruct (Z.leb_spec (2 ^ (b - 1)) (c mod 2 ^ b)), (Z.ltb_spec (c mod 2 ^ b) (2 ^ (b - 1))); try lia; unfold swrap; change (64 - 1) with 63.
  - rewrite Z.mod_small by lia. rewrite (proj2 (Z.ltb_ge _ _)) by lia. lia.
  - rewrite (Z.mod_small (c mod 2 ^ b) (2 ^ 64)) by lia. rewrite (proj2 (Z.ltb_lt _ _)) by lia. done.
Qed.

Lemma mod_mod_pow x b : 0 <= b <= 64 -> (x mod 2 ^ 64) mod 2 ^ b = x mod 2 ^ b.
Proof.
  intros Hb. rewrite (pow64_split b Hb). assert (0 < 2 ^ b) by (apply Z.pow_pos_nonneg; lia).
  assert (0 < 2 ^ (64 - b)) by (apply Z.pow_pos_nonneg; lia). rewrite Z.rem_mul_r by lia.
  rewrite Z.mul_comm, Z.mod_add, Z.mod_mod by lia. done.
Qed.

Lemma swrap_uwrap x b : 1 <= b <= 64 -> swrap b (uwrap 64 x) = swrap b x.
Proof. intros Hb. unfold swrap, uwrap. by rewrite mod_mod_pow by lia. Qed.

(** ** The functions of the bit fields *)

Lemma getUnsigned_spec p offset bits :
  0 <= bits <= 64 -> 0 <= offset -> offset + bits <= 8 * zlen p -> 8 * zlen p < 2 ^ 64 ->
  getUnsignedBitfield p offset bits = Some (field p offset (Z.to_nat bits)).
Proof.
  intros Hb Ho Hn Hfit. unfold getUnsignedBitfield. rewrite get_bits_spec; [f_equal; lia|lia|lia|lia|lia|].
  rewrite Z2Nat.id by lia. assert (2 ^ bits <= 2 ^ 64) by (apply Z.pow_le_mono_r; lia). lia.
Qed.

Lemma field_ext p p' offset offset' n :
  (forall i, 0 <= i < Z.of_nat n -> bit_at p' (offset' + i) = bit_at p (offset + i)) -> field p' offset' n = field p offset n.
Proof.
  induction n as [|n IH]; intros Hb; [done|]. cbn [field]. rewrite IH by (intros i Hi; apply Hb; lia). rewrite Hb by lia. done.
Qed.

Lemma field_testbit p offset n k :
  0 <= k < Z.of_nat n -> Z.testbit (field p offset n) k = bit_at p (offset + (Z.of_nat n - 1 - k)).
Proof.
  revert k. induction n as [|n IH]; intros k Hk; [lia|]. cbn [field]. destruct (Z.eq_dec k 0) as [->|Hk0].
  - rewrite Z.testbit_0_r. f_equal. lia.
  - replace k with (Z.succ (k - 1)) by lia. rewrite Z.testbit_succ_r by lia. rewrite IH by lia. f_equal. lia.
Qed.

Lemma field_of_bits p offset n value :
  (forall i, 0 <= i < Z.of_nat n -> bit_at p (offset + i) = Z.testbit value (Z.of_nat n - 1 - i)) -> 
  field p offset n = value mod 2 ^ Z.of_nat n.
Proof.
  intros Hb. apply Z.bits_inj'. intros k Hk. destruct (Z.lt_ge_cases k (Z.of_nat n)) as [Hlt|Hge].
  - rewrite Z.mod_pow2_bits_low, field_testbit, Hb by lia. f_equal. lia.
  - rewrite Z.mod_pow2_bits_high by lia. rewrite <- (Z.mod_small _ _ (field_range p offset n)). by rewrite Z.mod_pow2_bits_high by lia.
Qed.

Lemma setUnsigned_spec p offset bits value :
  Forall byte_ok p -> 0 <= bits <= 64 -> 0 <= offset -> offset + bits <= 8 * zlen p -> 8 * zlen p < 2 ^ 64 ->
  exists p', setUnsignedBitfield p offset bits value = Some p' /\ Forall byte_ok p' /\ zlen p' = zlen p /\
    (forall i, 0 <= i -> ~ (offset <= i < offset + bits) -> bit_at p' i = bit_at p i) /\
    field p' offset (Z.to_nat bits) = value mod 2 ^ bits.
Proof.
  intros Hp Hb Ho Hn Hfit. unfold setUnsignedBitfield.
  destruct (set_bits_spec (Z.to_nat bits) p offset value Hp Ho ltac:(lia) Hfit) as (p' & -> & Hp' & El & Hbits).
  exists p'. split_and!; try done.
  - intros i Hi Hout. rewrite Hbits by lia. destruct (Z.leb_spec offset i), (Z.ltb_spec i (offset + Z.of_nat (Z.to_nat bits))); simpl; try done; lia.
  - rewrite (field_of_bits p' offset (Z.to_nat bits) value); [by rewrite Z2Nat.id by lia|]. intros i Hi. rewrite Hbits by lia.
    rewrite (proj2 (Z.leb_le _ _)), (proj2 (Z.ltb_lt _ _)) by lia. simpl. f_equal. lia.
Qed.

Lemma getSigned_spec p offset bits :
  1 <= bits <= 63 -> 0 <= offset -> offset + bits <= 8 * zlen p -> 8 * zlen p < 2 ^ 64 ->
  getSignedBitfield p offset bits = Some (swrap bits (field p offset (Z.to_nat bits))).
Proof.
  intros Hb Ho Hn Hfit. unfold getSignedBitfield. rewrite getUnsigned_spec by lia. cbn [mbind option_bind].
  pose proof (field_range p offset (Z.to_nat bits)) as Hr. rewrite Z2Nat.id in Hr by lia.
  destruct (pow_bounds bits Hb) as (H1 & H2 & H3 & H4).
  rewrite Z.shiftl_1_l, Z.land_comm, land_pow2_test, negb_involutive by lia.
  rewrite <- (sign_extend (field p offset (Z.to_nat bits)) bits) by lia. rewrite high_mask_small by lia. cbn [mbind option_bind].
  rewrite (Z.mod_small (field p offset (Z.to_nat bits))) by lia. by destruct (Z.testbit _ _).
Qed.

(** A 64-bit field is read when its sign bit is clear; otherwise the code
    shifts by 64. *)
Lemma getSigned_64 p offset :
  0 <= offset -> offset + 64 <= 8 * zlen p -> 8 * zlen p < 2 ^ 64 -> bit_at p offset = false ->
  getSignedBitfield p offset 64 = Some (swrap 64 (field p offset 64)).
Proof.
  intros Ho Hn Hfit Hbit. unfold getSignedBitfield. rewrite getUnsigned_spec by lia. cbn [mbind option_bind].
  rewrite Z.shiftl_1_l, Z.land_comm, land_pow2_test, negb_involutive by lia. change (Z.to_nat 64) with 64%nat.
  rewrite field_testbit by lia. replace (offset + _) with offset by lia. by rewrite Hbit.
Qed.

(** ** Overflow *)

(** The range of the integers of a field. *)
Definition bf_min (sign : bool) (bits : Z) : Z := if sign then - 2 ^ (bits - 1) else 0.
Definition bf_max (sign : bool) (bits : Z) : Z := if sign then 2 ^ (bits - 1) - 1 else 2 ^ bits - 1.
Definition bf_wrap (sign : bool) (bits x : Z) : Z := if sign then swrap bits x else x mod 2 ^ bits.

(** What a checked operation answers for the exact result [r]. *)
Definition overflow_answer (sign : bool) (bits r : Z) (ow : overflow_type) : Z * option Z :=
  if r >? bf_max sign bits then
    match ow with
    | BFOVERFLOW_WRAP => (1, Some (bf_wrap sign bits r))
    | BFOVERFLOW_SAT => (1, Some (bf_max sign bits))
    | BFOVERFLOW_FAIL => (1, None)
    end
  else if r <? bf_min sign bits then
    match ow with
    | BFOVERFLOW_WRAP => (1, Some (bf_wrap sign bits r))
    | BFOVERFLOW_SAT => (-1, Some (bf_min sign bits))
    | BFOVERFLOW_FAIL => (-1, None)
    end
  else (0, None).

Lemma checkUnsigned_spec value incr bits ow :
  1 <= bits <= 63 -> in_u 64 value -> in_s 64 incr -> value <= bf_max false bits \/ incr = 0 ->
  checkUnsignedBitfieldOverflow value incr bits ow = Some (overflow_answer false bits (value + incr) ow).
Proof.
  intros Hb Hv Hi Hok. destruct (pow_bounds bits Hb) as (H1 & H2 & H3 & H4).
  unfold checkUnsignedBitfieldOverflow, overflow_answer, bf_min, bf_max, bf_wrap in *.
  rewrite (proj2 (Z.eqb_neq bits 64)), high_mask_small by lia. cbn [mbind option_bind].
  replace (2 ^ 64 - 1 - (2 ^ 64 - 2 ^ bits)) with (Z.ones bits) by (rewrite Z.ones_equiv; lia).
  rewrite Z.land_ones by lia. unfold uwrap. rewrite mod_mod_pow by lia. unfold in_u, in_s in *. change (64 - 1) with 63 in *.
  rewrite !Z.gtb_ltb. destruct (Z.ltb_spec (2 ^ bits - 1) value) as [Hm|Hm].
  - destruct Hok as [| ->]; [lia|]. simpl orb. rewrite Z.add_0_r. rewrite (proj2 (Z.ltb_lt (2 ^ bits - 1) value)) by lia. by destruct ow.
  - rewrite (swrap_small 64 (2 ^ bits - 1 - value)), (swrap_small 64 (- value)) by (unfold in_s; change (64 - 1) with 63; lia). simpl orb.
    destruct (Z.ltb_spec 0 incr), (Z.ltb_spec (2 ^ bits - 1 - value) incr), (Z.ltb_spec (2 ^ bits - 1) (value + incr)),
      (Z.ltb_spec incr 0), (Z.ltb_spec incr (- value)), (Z.ltb_spec (value + incr) 0); simpl; try lia; by destruct ow.
Qed.

(** The signed check is exact as long as [max - value] does not overflow. *)
Lemma checkSigned_spec value incr bits ow :
  1 <= bits <= 63 -> in_s 64 value -> in_s 64 incr ->
  (bf_min true bits <= value <= bf_max true bits) \/ (incr = 0 /\ bf_max true bits - value < 2 ^ 63) ->
  checkSignedBitfieldOverflow value incr bits ow = Some (overflow_answer true bits (value + incr) ow).
Proof.
  intros Hb Hv Hi Hok. destruct (pow_bounds bits Hb) as (H1 & H2 & H3 & H4).
  unfold checkSignedBitfieldOverflow, overflow_answer, bf_min, bf_max, bf_wrap in *.
  rewrite (proj2 (Z.eqb_neq bits 64)), high_mask_small by lia. cbn [mbind option_bind negb andb].
  replace (2 ^ 64 - 1 - (2 ^ 64 - 2 ^ bits)) with (Z.ones bits) by (rewrite Z.ones_equiv; lia).
  rewrite Z.land_ones, Z.shiftl_1_l, (Z.land_comm _ (2 ^ (bits - 1))), land_pow2_test, negb_involutive by lia.
  assert (uwrap 64 (uwrap 64 value + uwrap 64 incr) = uwrap 64 (value + incr)) as -> by (unfold uwrap; by rewrite <- Z.add_mod by lia).
  rewrite sign_extend, swrap_uwrap by (lia || apply Z.mod_pos_bound; lia).
  unfold in_s in *. change (64 - 1) with 63 in *. rewrite !Z.gtb_ltb, !Z.geb_leb.
  replace (- (2 ^ (bits - 1) - 1) - 1) with (- 2 ^ (bits - 1)) by lia.
  destruct (Z.ltb_spec (2 ^ (bits - 1) - 1) value) as [Hm|Hm].
  - destruct Hok as [|[-> _]]; [lia|]. simpl orb. rewrite Z.add_0_r. rewrite (proj2 (Z.ltb_lt (2 ^ (bits - 1) - 1) value)) by lia. by destruct ow.
  - rewrite (swrap_small 64 (2 ^ (bits - 1) - 1 - value)) by (unfold in_s; change (64 - 1) with 63; lia). simpl orb.
    destruct (Z.ltb_spec value (- 2 ^ (bits - 1))) as [Hn|Hn].
    + destruct Hok as [|[-> Hok]]; [lia|]. rewrite Z.add_0_r.
      rewrite (proj2 (Z.ltb_ge (2 ^ (bits - 1) - 1 - value) 0)), (proj2 (Z.ltb_ge (2 ^ (bits - 1) - 1) value)),
        (proj2 (Z.ltb_lt value (- 2 ^ (bits - 1)))) by lia. simpl. rewrite !andb_false_r. by destruct ow.
    + rewrite (swrap_small 64 (- 2 ^ (bits - 1) - value)) by (unfold in_s; change (64 - 1) with 63; lia). simpl orb.
      destruct (Z.ltb_spec (2 ^ (bits - 1) - 1 - value) incr), (Z.ltb_spec (2 ^ (bits - 1) - 1) (value + incr)),
        (Z.ltb_spec incr (- 2 ^ (bits - 1) - value)), (Z.ltb_spec (value + incr) (- 2 ^ (bits - 1))); simpl; try lia;
        rewrite ?andb_false_r; by destruct ow.
Qed.

(** With 64 bits the sums are checked by the signs of their terms, so
    nothing overflows; wrapping around would shift by 64. *)
Lemma checkSigned_64 value incr ow :
  in_s 64 value -> in_s 64 incr -> (ow = BFOVERFLOW_WRAP -> bf_min true 64 <= value + incr <= bf_max true 64) ->
  checkSignedBitfieldOverflow value incr 64 ow = Some (overflow_answer true 64 (value + incr) ow).
Proof.
  intros Hv Hi Hw. unfold checkSignedBitfieldOverflow, overflow_answer, bf_min, bf_max, in_s in *. change (64 - 1) with 63 in *.
  change (64 =? 64) with true. cbv iota. cbn [negb andb]. rewrite !Z.gtb_ltb, !Z.geb_leb.
  rewrite (proj2 (Z.ltb_ge (2 ^ 63 - 1) value)), (proj2 (Z.ltb_ge value (- (2 ^ 63 - 1) - 1))) by lia. cbn [orb].
  destruct (Z.leb_spec 0 value), (Z.ltb_spec value 0); try lia; cbn [andb].
  - rewrite (swrap_small 64 (2 ^ 63 - 1 - value)) by (unfold in_s; change (64 - 1) with 63; lia).
    rewrite (proj2 (Z.ltb_ge (value + incr) (- 2 ^ 63))) by lia.
    destruct (Z.ltb_spec 0 incr), (Z.ltb_spec (2 ^ 63 - 1 - value) incr), (Z.ltb_spec (2 ^ 63 - 1) (value + incr)); cbn [andb];
      try lia; destruct ow; done || (specialize (Hw eq_refl); lia).
  - rewrite (swrap_small 64 (- (2 ^ 63 - 1) - 1 - value)) by (unfold in_s; change (64 - 1) with 63; lia).
    rewrite (proj2 (Z.ltb_ge (2 ^ 63 - 1) (value + incr))) by lia.
    destruct (Z.ltb_spec incr 0), (Z.ltb_spec incr (- (2 ^ 63 - 1) - 1 - value)), (Z.ltb_spec (value + incr) (- 2 ^ 63)); cbn [andb];
      try lia; destruct ow; try done; try (specialize (Hw eq_refl); lia).
Qed.

(** A SET so low that [max - value] overflows is taken for too high. *)
Lemma checkSigned_low value bits ow :
  1 <= bits <= 63 -> in_s 64 value -> 2 ^ 63 <= bf_max true bits - value ->
  checkSignedBitfieldOverflow value 0 bits ow = Some (1, match ow with
    | BFOVERFLOW_WRAP => Some (bf_wrap true bits value)
    | BFOVERFLOW_SAT => Some (bf_max true bits)
    | BFOVERFLOW_FAIL => None
    end).
Proof.
  intros Hb Hv Hlow. destruct (pow_bounds bits Hb) as (H1 & H2 & H3 & H4).
  unfold checkSignedBitfieldOverflow, bf_max, bf_wrap in *.
  rewrite (proj2 (Z.eqb_neq bits 64)), high_mask_small by lia. cbn [mbind option_bind negb andb].
  replace (2 ^ 64 - 1 - (2 ^ 64 - 2 ^ bits)) with (Z.ones bits) by (rewrite Z.ones_equiv; lia).
  rewrite Z.land_ones, Z.shiftl_1_l, (Z.land_comm _ (2 ^ (bits - 1))), land_pow2_test, negb_involutive by lia.
  assert (uwrap 64 (uwrap 64 value + uwrap 64 0) = uwrap 64 value) as -> by (unfold uwrap; rewrite <- Z.add_mod by lia; f_equal; lia).
  rewrite sign_extend, swrap_uwrap by (lia || apply Z.mod_pos_bound; lia).
  unfold in_s in Hv. change (64 - 1) with 63 in *.
  assert (swrap 64 (2 ^ (bits - 1) - 1 - value) < 0) as Hneg.
  { unfold swrap. change (64 - 1) with 63. rewrite Z.mod_small by lia. rewrite (proj2 (Z.ltb_ge _ _)) by lia. lia. }
  rewrite !Z.gtb_ltb. rewrite (proj2 (Z.ltb_lt _ 0) Hneg), orb_true_r. by destruct ow.
Qed.

(** ** BITFIELD *)

(** The integer held by a field, and the one stored for the exact result
    [r]; [None] when the policy refuses it. *)
Definition bf_value (sign : bool) (p : list Z) (offset bits : Z) : Z := bf_wrap sign bits (field p offset (Z.to_nat bits)).

Definition bf_stored (sign : bool) (bits r : Z) (ow : overflow_type) : option Z :=
  if bool_decide (bf_min sign bits <= r <= bf_max sign bits) then Some r else
  match ow with
  | BFOVERFLOW_WRAP => Some (bf_wrap sign bits r)
  | BFOVERFLOW_SAT => Some (if r >? bf_max sign bits then bf_max sign bits else bf_min sign bits)
  | BFOVERFLOW_FAIL => None
  end.

Lemma bf_wrap_range sign bits x : 1 <= bits -> bf_min sign bits <= bf_wrap sign bits x <= bf_max sign bits.
Proof.
  intros Hb. unfold bf_min, bf_wrap, bf_max. destruct sign.
  - pose proof (swrap_range bits x ltac:(lia)) as Hr. unfold in_s in Hr. lia.
  - pose proof (Z.mod_pos_bound x (2 ^ bits) ltac:(apply Z.pow_pos_nonneg; lia)). lia.
Qed.

Lemma bf_wrap_small sign bits x : 1 <= bits -> bf_min sign bits <= x <= bf_max sign bits -> bf_wrap sign bits x = x.
Proof.
  intros Hb. unfold bf_min, bf_wrap, bf_max. destruct sign; intros Hx; [apply swrap_small; [lia|unfold in_s; lia]|apply Z.mod_small; lia].
Qed.

Lemma bf_stored_range sign bits r ow v : 1 <= bits -> bf_stored sign bits r ow = Some v -> bf_min sign bits <= v <= bf_max sign bits.
Proof.
  intros Hb. unfold bf_stored. case_bool_decide; [by intros [= <-]|].
  assert (bf_min sign bits <= bf_max sign bits) by (pose proof (bf_wrap_range sign bits 0 Hb); lia).
  destruct ow; intros [= <-]; [by apply bf_wrap_range|case_match; lia].
Qed.

(** The answer [a] of a check makes the policy store what [bf_stored] says,
    [w] being the number stored when there is no overflow. *)
Definition stores (sign : bool) (bits r : Z) (ow : overflow_type) (w : Z) (a : Z * option Z) : Prop :=
  (bf_stored sign bits r ow = None -> ow = BFOVERFLOW_FAIL /\ (a.1 =? 0) = false) /\
  (forall v, bf_stored sign bits r ow = Some v -> overflowed w a = Some v /\ (ow = BFOVERFLOW_FAIL -> (a.1 =? 0) = true)).

Lemma answer_stored sign bits r ow w :
  (bf_min sign bits <= r <= bf_max sign bits -> w = r) -> stores sign bits r ow w (overflow_answer sign bits r ow).
Proof.
  intros Hw. unfold stores, bf_stored, overflow_answer, overflowed. rewrite Z.gtb_ltb.
  destruct (Z.ltb_spec (bf_max sign bits) r), (Z.ltb_spec r (bf_min sign bits)).
  1-3: rewrite bool_decide_eq_false_2 by lia; destruct ow; simpl; split; [done|naive_solver|done|naive_solver|done|naive_solver].
  rewrite bool_decide_eq_true_2 by lia. split; [done|]. intros v [= <-]. rewrite Hw by lia. by destruct ow.
Qed.

Lemma low_stored bits r ow w :
  1 <= bits <= 63 -> 2 ^ 63 <= bf_max true bits - r -> ow <> BFOVERFLOW_SAT ->
  stores true bits r ow w (1, match ow with
    | BFOVERFLOW_WRAP => Some (bf_wrap true bits r) | BFOVERFLOW_SAT => Some (bf_max true bits) | BFOVERFLOW_FAIL => None
    end).
Proof.
  intros Hb Hlow How. destruct (pow_bounds bits Hb) as (H1 & H2 & H3 & H4). unfold stores, bf_stored, overflowed.
  rewrite bool_decide_eq_false_2 by (unfold bf_min, bf_max in *; lia). destruct ow; simpl; split; done || naive_solver.
Qed.

(** Both families of functions behind one interface. *)
Record bf_family (sign : bool) (get : list Z -> Z -> Z -> option Z) (set : list Z -> Z -> Z -> Z -> option (list Z)) : Prop := {
  bff_get p offset bits : 1 <= bits <= 63 -> 0 <= offset -> offset + bits <= 8 * zlen p -> 8 * zlen p < 2 ^ 64 ->
    get p offset bits = Some (bf_value sign p offset bits);
  bff_set p offset bits v : Forall byte_ok p -> 1 <= bits <= 64 -> 0 <= offset -> offset + bits <= 8 * zlen p -> 8 * zlen p < 2 ^ 64 ->
    bf_min sign bits <= v <= bf_max sign bits ->
    exists p', set p offset bits v = Some p' /\ Forall byte_ok p' /\ zlen p' = zlen p /\
      (forall i, 0 <= i -> ~ (offset <= i < offset + bits) -> bit_at p' i = bit_at p i) /\ bf_value sign p' offset bits = v;
}.

Lemma unsigned_family : bf_family false getUnsignedBitfield setUnsignedBitfield.
Proof.
  constructor.
  - intros p offset bits Hb Ho Hn Hfit. rewrite getUnsigned_spec by lia. unfold bf_value, bf_wrap.
    pose proof (field_range p offset (Z.to_nat bits)) as Hr. rewrite Z2Nat.id in Hr by lia. by rewrite Z.mod_small.
  - intros p offset bits v Hp Hb Ho Hn Hfit Hv. destruct (setUnsigned_spec p offset bits v Hp ltac:(lia) Ho Hn Hfit) as (p' & E & H1 & H2 & H3 & H4).
    exists p'. split_and!; try done. unfold bf_value, bf_wrap. rewrite H4, Z.mod_mod by (apply Z.pow_nonzero; lia).
    unfold bf_min, bf_max in Hv. apply Z.mod_small. lia.
Qed.

Lemma signed_family : bf_family true getSignedBitfield setSignedBitfield.
Proof.
  constructor.
  - intros p offset bits Hb Ho Hn Hfit. by rewrite getSigned_spec by lia.
  - intros p offset bits v Hp Hb Ho Hn Hfit Hv. unfold setSignedBitfield.
    destruct (setUnsigned_spec p offset bits (uwrap 64 v) Hp ltac:(lia) Ho Hn Hfit) as (p' & E & H1 & H2 & H3 & H4).
    exists p'. split_and!; try done. unfold bf_value, bf_wrap. rewrite H4. unfold uwrap. rewrite mod_mod_pow, swrap_mod by lia.
    apply (bf_wrap_small true bits v ltac:(lia) Hv).
Qed.

(** The exact result of SET and INCRBY. *)
Definition bf_result (s : list Z) (o : bitfieldOp) : Z :=
  match bf_opcode o with
  | BITFIELDOP_INCRBY => bf_value (bf_sign o) s (bf_offset o) (bf_bits o) + bf_i64 o
  | _ => if bf_sign o then bf_i64 o else uwrap 64 (bf_i64 o)
  end.

Definition bf_reply (s : list Z) (o : bitfieldOp) (v : Z) : Z :=
  match bf_opcode o with BITFIELDOP_INCRBY => v | _ => bf_value (bf_sign o) s (bf_offset o) (bf_bits o) end.

(** The operations the code executes without an undefined shift or a wrong
    limit.  The type of the field is i1 to i64 or u1 to u63.  A saturating
    signed SET does not overflow [max - value].  A 64-bit field is not
    negative, and its result does not wrap around: both shift by 64. *)
Definition op_ok (s : list Z) (o : bitfieldOp) : Prop :=
  1 <= bf_bits o <= (if bf_sign o then 64 else 63) /\ 0 <= bf_offset o /\
  bf_offset o + bf_bits o <= 8 * zlen s /\ 8 * zlen s < 2 ^ 64 /\ in_s 64 (bf_i64 o) /\
  (bf_opcode o = BITFIELDOP_SET -> bf_sign o = true -> bf_owtype o = BFOVERFLOW_SAT ->
    bf_max true (bf_bits o) - bf_i64 o < 2 ^ 63) /\
  (bf_bits o = 64 -> bit_at s (bf_offset o) = false /\
    (bf_owtype o = BFOVERFLOW_WRAP -> bf_min true 64 <= bf_result s o <= bf_max true 64)).

Lemma bf_small_s64 (sign : bool) bits v :
  1 <= bits <= (if sign then 64 else 63) -> bf_min sign bits <= v <= bf_max sign bits -> in_s 64 v.
Proof.
  intros Hb Hv. destruct (Z.eq_dec bits 64) as [->|Hne].
  - destruct sign; [|lia]. unfold in_s, bf_min, bf_max in *. lia.
  - assert (1 <= bits <= 63) as Hb' by (destruct sign; lia).
    destruct (pow_bounds bits Hb') as (H1 & H2 & H3 & _). unfold in_s, bf_min, bf_max in *. change (64 - 1) with 63. destruct sign; lia.
Qed.

Lemma bitfield_write_spec s o w get set check :
  bf_opcode o <> BITFIELDOP_GET -> Forall byte_ok s -> op_ok s o -> bf_family (bf_sign o) get set ->
  get s (bf_offset o) (bf_bits o) = Some (bf_value (bf_sign o) s (bf_offset o) (bf_bits o)) ->
  (exists a, (match bf_opcode o with
    | BITFIELDOP_INCRBY => check (bf_value (bf_sign o) s (bf_offset o) (bf_bits o)) (bf_i64 o)
    | _ => check (w (bf_i64 o)) 0
    end) (bf_bits o) (bf_owtype o) = Some a /\
    stores (bf_sign o) (bf_bits o) (bf_result s o) (bf_owtype o) (w (bf_result s o)) a) ->
  w (w (bf_i64 o)) = w (bf_i64 o) -> (bf_opcode o = BITFIELDOP_SET -> bf_result s o = w (bf_i64 o)) ->
  match bf_stored (bf_sign o) (bf_bits o) (bf_result s o) (bf_owtype o) with
  | None => bitfield_write s o w get set check = Some (s, None)
  | Some v => exists s', bitfield_write s o w get set check = Some (s', Some (bf_reply s o v)) /\
      Forall byte_ok s' /\ zlen s' = zlen s /\ bf_value (bf_sign o) s' (bf_offset o) (bf_bits o) = v /\
      (forall i, 0 <= i -> ~ (bf_offset o <= i < bf_offset o + bf_bits o) -> bit_at s' i = bit_at s i)
  end.
Proof.
  intros Hop Hs (Hb & Ho & Hn & Hfit & Hi & _) Hfam Hget (a & Hcheck & Hstore) Hww Hset. unfold bitfield_write.
  assert (1 <= bf_bits o <= 64) as Hb64 by (destruct (bf_sign o); lia).
  rewrite Hget. cbn [mbind option_bind].
  set (old := bf_value (bf_sign o) s (bf_offset o) (bf_bits o)) in *.
  assert (exists inc, (match bf_opcode o with BITFIELDOP_INCRBY => true | _ => false end) = inc) as [inc Einc] by eauto. rewrite Einc.
  assert ((if inc then check old (bf_i64 o) (bf_bits o) (bf_owtype o)
    else check (if inc then w (old + bf_i64 o) else w (bf_i64 o)) 0 (bf_bits o) (bf_owtype o)) = Some a) as ->.
  { rewrite <- Hcheck. by destruct (bf_opcode o), inc. }
  cbn [mbind option_bind].
  assert ((if inc then w (old + bf_i64 o) else w (bf_i64 o)) = w (bf_result s o)) as ->.
  { destruct (bf_opcode o) eqn:Eop; [done| |]; subst inc; [by rewrite Hset|]. unfold bf_result. by rewrite Eop. }
  destruct Hstore as [Hnone Hsome].
  destruct (bf_stored _ _ _ _) as [v|] eqn:Ev.
  - destruct (Hsome v eq_refl) as [Eov Hfail]. pose proof (bf_stored_range (bf_sign o) (bf_bits o) _ _ _ ltac:(lia) Ev) as Hv.
    destruct (bff_set _ _ _ Hfam s (bf_offset o) (bf_bits o) v Hs Hb64 Ho Hn Hfit Hv) as (s' & Es & H1 & H2 & H3 & H4).
    assert (swrap 64 (if inc then v else old) = bf_reply s o v) as Er.
    { unfold bf_reply. fold old. pose proof (bf_wrap_range (bf_sign o) (bf_bits o) (field s (bf_offset o) (Z.to_nat (bf_bits o))) ltac:(lia)) as Hold.
      fold (bf_value (bf_sign o) s (bf_offset o) (bf_bits o)) in Hold. fold old in Hold.
      rewrite swrap_small; [by destruct (bf_opcode o), inc|lia|]. destruct inc; by eapply bf_small_s64. }
    exists s'. split_and!; try done. rewrite Eov. cbn [mbind option_bind]. rewrite Es. cbn [mbind option_bind]. rewrite Er.
    destruct (bf_owtype o); [done|done|]. by rewrite Hfail.
  - destruct (Hnone eq_refl) as [-> ->]. done.
Qed.

(** What the signed and the unsigned check answer. *)
Lemma signed_check s o :
  bf_opcode o <> BITFIELDOP_GET -> op_ok s o -> bf_sign o = true ->
  exists a, (match bf_opcode o with
    | BITFIELDOP_INCRBY => checkSignedBitfieldOverflow (bf_value true s (bf_offset o) (bf_bits o)) (bf_i64 o)
    | _ => checkSignedBitfieldOverflow (swrap 64 (bf_i64 o)) 0
    end) (bf_bits o) (bf_owtype o) = Some a /\
    stores true (bf_bits o) (bf_result s o) (bf_owtype o) (swrap 64 (bf_result s o)) a.
Proof.
  intros Hop (Hb & Ho & Hn & Hfit & Hi & Hset & H64) Hsign. unfold bf_result in *. rewrite Hsign in *.
  pose proof (bf_wrap_range true (bf_bits o) (field s (bf_offset o) (Z.to_nat (bf_bits o))) ltac:(lia)) as Hold.
  fold (bf_value true s (bf_offset o) (bf_bits o)) in Hold.
  assert (forall r, stores true (bf_bits o) r (bf_owtype o) (swrap 64 r) (overflow_answer true (bf_bits o) r (bf_owtype o))) as Hans.
  { intros r. apply answer_stored. intros Hr. apply swrap_small; [lia|]. by eapply (bf_small_s64 true). }
  pose proof (bf_small_s64 true (bf_bits o) _ Hb Hold) as Hold64.
  destruct (Z.eq_dec (bf_bits o) 64) as [E64|Hne].
  - destruct (H64 E64) as [_ Hw]. destruct (bf_opcode o); [done| |].
    + eexists. split; [|apply Hans].
      rewrite E64, (swrap_small 64 (bf_i64 o)) by (done || lia). rewrite <- (Z.add_0_r (bf_i64 o)) at 2. apply checkSigned_64; [done|done|]. by rewrite Z.add_0_r.
    + eexists. split; [|apply Hans]. rewrite E64 in *. by apply checkSigned_64.
  - assert (1 <= bf_bits o <= 63) as Hb' by lia. destruct (bf_opcode o); [done| |].
    + destruct (Z.lt_ge_cases (bf_max true (bf_bits o) - bf_i64 o) (2 ^ 63)) as [Hlt|Hge].
      * eexists. split; [|apply Hans]. rewrite (swrap_small 64 (bf_i64 o)) by (done || lia).
        rewrite <- (Z.add_0_r (bf_i64 o)) at 2. apply checkSigned_spec; try done. right. auto.
      * rewrite (swrap_small 64 (bf_i64 o)) by (done || lia). eexists. split; [by apply checkSigned_low|]. apply low_stored; [done|lia|]. intros How. specialize (Hset eq_refl eq_refl How). lia.
    + eexists. split; [|apply Hans]. apply checkSigned_spec; try done. by left.
Qed.

Lemma unsigned_check s o :
  bf_opcode o <> BITFIELDOP_GET -> op_ok s o -> bf_sign o = false ->
  exists a, (match bf_opcode o with
    | BITFIELDOP_INCRBY => checkUnsignedBitfieldOverflow (bf_value false s (bf_offset o) (bf_bits o)) (bf_i64 o)
    | _ => checkUnsignedBitfieldOverflow (uwrap 64 (bf_i64 o)) 0
    end) (bf_bits o) (bf_owtype o) = Some a /\
    stores false (bf_bits o) (bf_result s o) (bf_owtype o) (uwrap 64 (bf_result s o)) a.
Proof.
  intros Hop (Hb & Ho & Hn & Hfit & Hi & _) Hsign. unfold bf_result. rewrite Hsign in *. destruct (pow_bounds _ Hb) as (H1 & H2 & H3 & H4).
  pose proof (bf_wrap_range false (bf_bits o) (field s (bf_offset o) (Z.to_nat (bf_bits o))) ltac:(lia)) as Hold.
  fold (bf_value false s (bf_offset o) (bf_bits o)) in Hold.
  eexists. split; [|apply answer_stored; intros Hr; apply uwrap_small; unfold bf_min, bf_max, in_u in *; lia].
  destruct (bf_opcode o); [done| |].
  - rewrite <- (Z.add_0_r (uwrap 64 (bf_i64 o))) at 2. apply checkUnsigned_spec; try done; [apply uwrap_range; lia|by right].
  - apply checkUnsigned_spec; try done; [unfold bf_min, bf_max, in_u in *; lia|left; lia].
Qed.

Lemma bitfield_op_spec s o :
  bf_opcode o <> BITFIELDOP_GET -> Forall byte_ok s -> op_ok s o ->
  match bf_stored (bf_sign o) (bf_bits o) (bf_result s o) (bf_owtype o) with
  | None => bitfield_op s o = Some (s, None)
  | Some v => exists s', bitfield_op s o = Some (s', Some (bf_reply s o v)) /\
      Forall byte_ok s' /\ zlen s' = zlen s /\ bf_value (bf_sign o) s' (bf_offset o) (bf_bits o) = v /\
      (forall i, 0 <= i -> ~ (bf_offset o <= i < bf_offset o + bf_bits o) -> bit_at s' i = bit_at s i)
  end.
Proof.
  intros Hop Hs Hok. pose proof Hok as (Hb & Ho & Hn & Hfit & Hi & Hset & H64).
  assert (bitfield_op s o = if bf_sign o
    then bitfield_write s o (swrap 64) getSignedBitfield setSignedBitfield checkSignedBitfieldOverflow
    else bitfield_write s o (uwrap 64) getUnsignedBitfield setUnsignedBitfield checkUnsignedBitfieldOverflow) as ->
    by (unfold bitfield_op; by destruct (bf_opcode o)).
  destruct (bf_sign o) eqn:Esign; rewrite <- Esign.
  - apply bitfield_write_spec; rewrite ?Esign; try done.
    + apply signed_family.
    + destruct (Z.eq_dec (bf_bits o) 64) as [E64|Hne]; [|apply signed_family; lia].
      destruct (H64 E64) as [Hbit _]. rewrite E64 in *. unfold bf_value, bf_wrap. by apply getSigned_64.
    + by apply signed_check.
    + rewrite !(swrap_small 64 (bf_i64 o)); done || lia.
    + intros Eop. unfold bf_result. rewrite Eop, Esign, swrap_small; done || lia.
  - apply bitfield_write_spec; rewrite ?Esign; try done.
    + apply unsigned_family.
    + apply unsigned_family; lia.
    + by apply unsigned_check.
    + apply uwrap_small, uwrap_range. lia.
    + intros Eop. unfold bf_result. by rewrite Eop, Esign.
Qed.

Lemma get_buf_bits s byte i : 0 <= byte -> 0 <= i < 72 -> bit_at (get_buf s byte) i = bit_at s (8 * byte + i).
Proof.
  intros Hb Hi. destruct (offset_split i ltac:(lia)) as (_ & _ & I1 & I2 & I3). unfold bit_at, get_buf.
  assert (i / 8 < 9) by (apply Z.div_lt_upper_bound; lia).
  rewrite list_lookup_fmap, lookup_seq_lt by lia. simpl.
  replace (8 * byte + i) with (i + byte * 8) by lia. rewrite Z.mod_add, Z.div_add by lia.
  replace (Z.to_nat (i / 8 + byte)) with (Z.to_nat (i / 8) + Z.to_nat byte)%nat by lia.
  destruct (s !! _); simpl; [done|]. by rewrite Z.bits_0.
Qed.

Lemma bitfield_get_spec s o :
  bf_opcode o = BITFIELDOP_GET -> 1 <= bf_bits o <= 63 -> 0 <= bf_offset o ->
  bitfield_op s o = Some (s, Some (bf_value (bf_sign o) s (bf_offset o) (bf_bits o))).
Proof.
  intros Hop Hb Ho. unfold bitfield_op, bitfield_get. rewrite Hop.
  destruct (offset_split (bf_offset o) Ho) as (E1 & _ & I1 & I2 & I3). rewrite E1.
  set (byte := bf_offset o / 8) in *. set (off := bf_offset o - byte * 8).
  assert (zlen (get_buf s byte) = 9) as El by (unfold get_buf, zlen; by rewrite length_fmap, length_seq).
  assert (field (get_buf s byte) off (Z.to_nat (bf_bits o)) = field s (bf_offset o) (Z.to_nat (bf_bits o))) as Ef.
  { apply field_ext. intros i Hi. rewrite get_buf_bits by (unfold off; lia). f_equal. unfold off. lia. }
  assert (bf_value (bf_sign o) (get_buf s byte) off (bf_bits o) = bf_value (bf_sign o) s (bf_offset o) (bf_bits o)) as Ev
    by (unfold bf_value; by rewrite Ef).
  pose proof (bf_wrap_range (bf_sign o) (bf_bits o) (field s (bf_offset o) (Z.to_nat (bf_bits o))) ltac:(lia)) as Hr.
  fold (bf_value (bf_sign o) s (bf_offset o) (bf_bits o)) in Hr.
  destruct (bf_sign o) eqn:Es.
  - rewrite (bff_get _ _ _ signed_family) by (unfold off; lia). cbn [mbind option_bind]. rewrite Ev, swrap_small; [done|lia|].
    eapply (bf_small_s64 true); [|done]; lia.
  - rewrite (bff_get _ _ _ unsigned_family) by (unfold off; lia). cbn [mbind option_bind]. rewrite Ev, swrap_small; [done|lia|].
    by eapply (bf_small_s64 false).
Qed.

(** ** The arguments that reach the executor *)

Lemma getBitOffset_range p hash bits off :
  getBitOffsetFromArgument p hash bits = Some off -> 0 <= off < 2 ^ 32.
Proof.
  unfold getBitOffsetFromArgument. set (usehash := _ && _ && _). intros E.
  destruct (string2ll _) as [l|] eqn:El; [|done]. cbn [mbind option_bind] in E.
  assert (in_s 64 (if usehash then swrap 64 (l * bits) else l)) as Hr.
  { destruct usehash; [apply swrap_range; lia|]. by apply string2ll_spec in El as [_ ?]. }
  set (v := if usehash then swrap 64 (l * bits) else l) in *. unfold in_s in Hr. change (64 - 1) with 63 in Hr.
  destruct (Z.ltb_spec v 0) as [|Hv]; [done|]. cbn [orb] in E. rewrite Z.geb_leb, Z.shiftr_div_pow2 in E by lia.
  rewrite uwrap_small in E by (unfold in_u; change (2 ^ 64) with (2 * 2 ^ 63); lia).
  destruct (Z.leb_spec (512 * 1024 * 1024) (v / 2 ^ 3)) as [|Hlt]; [done|]. injection E as <-. split; [done|].
  change (2 ^ 3) with 8 in Hlt. change (2 ^ 32) with (8 * (512 * 1024 * 1024)). pose proof (Z.div_mod v 8 ltac:(lia)).
  pose proof (Z.mod_pos_bound v 8 ltac:(lia)). lia.
Qed.

Lemma getBitfieldType_range p sign bits :
  getBitfieldTypeFromArgument p = Some (sign, bits) -> 1 <= bits <= 64 /\ (sign = false -> bits <= 63).
Proof.
  unfold getBitfieldTypeFromArgument. destruct p as [|c p]; [done|]. intros E.
  destruct (if c =? 105 then Some true else if c =? 117 then Some false else None) as [sg|]; [|done]. cbn [mbind option_bind] in E.
  destruct (string2ll p) as [n|]; [|done]. cbn [mbind option_bind] in E. rewrite !Z.gtb_ltb in E.
  destruct (Z.ltb_spec n 1); [done|]. destruct sg; simpl in E.
  - destruct (Z.ltb_spec 64 n); [done|]. injection E as <- <-. split; [lia|done].
  - destruct (Z.ltb_spec 63 n); [done|]. injection E as <- <-. split; lia.
Qed.

(** ** Claims *)

(** C29 [redisPopcount] returns the number of bits set, whatever the
    alignment of the string: the bytes before the first word, the blocks of
    seven words counted in parallel within 32-bit words, and the rest. *)
Theorem redisPopcount_correct (addr : Z) (s : list Z) :
  Forall byte_ok s -> 8 * zlen s < 2 ^ 64 -> redisPopcount addr s = Some (ones s).
Proof. apply redisPopcount_spec. Qed.

Lemma redisPopcount_correct_witness :
  redisPopcount 1 (replicate 40 0xA5 ++ [1; 2]) = Some (ones (replicate 40 0xA5 ++ [1; 2])) /\
  redisPopcount 1 (replicate 40 0xA5 ++ [1; 2]) = Some 162.
Proof.
  split; [|vm_compute; reflexivity]. apply redisPopcount_correct; [|vm_compute; reflexivity].
  apply (bool_decide_unpack _). vm_compute. exact I.
Defined.

(** C30 [redisBitpos] never reaches its panic: it returns the position of the
    first bit equal to [bit]; when there is none it returns -1 for a one and
    the position after the end for a zero, whatever the alignment. *)
Theorem redisBitpos_correct (addr : Z) (s : list Z) (bit : bool) :
  Forall byte_ok s ->
  exists r, is_first s bit r /\ redisBitpos addr s bit = Some (if bit && (r =? 8 * zlen s) then -1 else r).
Proof. apply redisBitpos_spec. Qed.

Lemma redisBitpos_correct_witness :
  redisBitpos 5 (replicate 20 0 ++ [8]) true = Some 164 /\
  exists r, is_first (replicate 20 0 ++ [8]) true r /\
    redisBitpos 5 (replicate 20 0 ++ [8]) true = Some (if true && (r =? 8 * zlen (replicate 20 0 ++ [8])) then -1 else r).
Proof.
  split; [vm_compute; reflexivity|]. apply redisBitpos_correct. apply (bool_decide_unpack _). vm_compute. exact I.
Defined.

(** C28 BITFIELD SET and INCRBY on fields of type i1 to i63 or u1 to u63, at
    any bit offset: the exact result is stored when it fits; otherwise the
    policy decides: it wraps around, saturates at the nearest limit, or the
    field is left alone and the reply is null.  The field then holds the
    value stored, the other bits of the string are unchanged, and the reply
    is the new value for INCRBY and the old one for SET.  The same holds of
    i64 fields whose value before the operation is not negative, when the
    result does not have to wrap around: both would shift a 64-bit word by
    64, which C leaves undefined ([i64_read_undefined]).  A saturating signed
    SET is covered when [max - value] does not overflow; otherwise the code
    saturates at the wrong limit ([signed_set_saturates_wrong]). *)
Theorem bitfield_write_correct (s : list Z) (o : bitfieldOp) :
  bf_opcode o <> BITFIELDOP_GET -> Forall byte_ok s -> op_ok s o ->
  match bf_stored (bf_sign o) (bf_bits o) (bf_result s o) (bf_owtype o) with
  | None => bitfield_op s o = Some (s, None)
  | Some v => exists s', bitfield_op s o = Some (s', Some (bf_reply s o v)) /\
      Forall byte_ok s' /\ zlen s' = zlen s /\ bf_value (bf_sign o) s' (bf_offset o) (bf_bits o) = v /\
      (forall i, 0 <= i -> ~ (bf_offset o <= i < bf_offset o + bf_bits o) -> bit_at s' i = bit_at s i)
  end.
Proof. apply bitfield_op_spec. Qed.

Definition demo_op : bitfieldOp := mk_bitfieldOp 5 100 BITFIELDOP_INCRBY BFOVERFLOW_SAT 7 true.

Lemma bitfield_write_correct_witness :
  bitfield_op [7; 0x80; 3] demo_op = Some ([3; 0xF0; 3], Some 63) /\
  match bf_stored true 7 (bf_result [7; 0x80; 3] demo_op) BFOVERFLOW_SAT with
  | None => bitfield_op [7; 0x80; 3] demo_op = Some ([7; 0x80; 3], None)
  | Some v => exists s', bitfield_op [7; 0x80; 3] demo_op = Some (s', Some (bf_reply [7; 0x80; 3] demo_op v)) /\
      Forall byte_ok s' /\ zlen s' = 3 /\ bf_value true s' 5 7 = v /\
      (forall i, 0 <= i -> ~ (5 <= i < 5 + 7) -> bit_at s' i = bit_at [7; 0x80; 3] i)
  end.
Proof.
  split; [vm_compute; reflexivity|]. apply (bitfield_write_correct [7; 0x80; 3] demo_op); [done| |].
  - apply (bool_decide_unpack _). vm_compute. exact I.
  - unfold op_ok, in_s. simpl. split_and!; try done.
Defined.

(** A 64-bit counter is covered: it saturates at the largest integer. *)
Lemma i64_counter_covered :
  let s := [127] ++ replicate 7 255 in
  let o := mk_bitfieldOp 0 1 BITFIELDOP_INCRBY BFOVERFLOW_SAT 64 true in
  op_ok s o /\ bitfield_op s o = Some (s, Some (2 ^ 63 - 1)).
Proof. split; [unfold op_ok, in_s; simpl; split_and!; done || lia|vm_compute; reflexivity]. Qed.

(** BITFIELD GET reads the field at any offset, also when it lies partly
    or entirely after the end of the string, which counts as zeros, through
    its 9-byte buffer, without changing the string. *)
Theorem bitfield_get_correct (s : list Z) (o : bitfieldOp) :
  bf_opcode o = BITFIELDOP_GET -> 1 <= bf_bits o <= 63 -> 0 <= bf_offset o ->
  bitfield_op s o = Some (s, Some (bf_value (bf_sign o) s (bf_offset o) (bf_bits o))).
Proof. apply bitfield_get_spec. Qed.

Lemma bitfield_get_correct_witness :
  bitfield_op [0; 0xFF] (mk_bitfieldOp 12 0 BITFIELDOP_GET BFOVERFLOW_WRAP 8 true)
    = Some ([0; 0xFF], Some (bf_value true [0; 0xFF] 12 8)) /\ bf_value true [0; 0xFF] 12 8 = -16.
Proof.
  split; [|vm_compute; reflexivity].
  apply (bitfield_get_correct [0; 0xFF] (mk_bitfieldOp 12 0 BITFIELDOP_GET BFOVERFLOW_WRAP 8 true)); simpl; done || lia.
Defined.

(** ** Limits of the code *)

(** A signed SET of a very negative number into a narrow field: [max - value]
    overflows, the number is taken for too large and saturates at the
    maximum instead of the minimum. *)
Lemma signed_set_saturates_wrong :
  checkSignedBitfieldOverflow (- 2 ^ 63) 0 8 BFOVERFLOW_SAT = Some (1, Some 127).
Proof. vm_compute. reflexivity. Qed.

(** Reading a negative 64-bit field shifts by 64, which is undefined. *)
Lemma i64_read_undefined :
  setSignedBitfield (replicate 8 0) 0 64 (-5) ≫= (fun p => getSignedBitfield p 0 64) = None.
Proof. vm_compute. reflexivity. Qed.

(** The multiplication of an offset of the form #n by the width wraps
    around, so an offset far beyond the limit of 512 MB is accepted. *)
Lemma hash_offset_wraps :
  getBitOffsetFromArgument ([35] ++ [52; 54; 49; 49; 54; 56; 54; 48; 49; 56; 52; 50; 55; 51; 56; 55; 57; 48; 52]) true 8 = Some 0.
Proof. vm_compute. reflexivity. Qed.
