(* ===== verification/Adlist.v ===== *)
(** * Doubly linked lists ([adlist.c])

    Nodes live in a heap indexed by pointers; following a pointer that is not
    allocated gives [None].  [zmalloc] never returns NULL (it aborts the
    process), so the branches for a failed allocation do not occur; the [dup]
    method of a list may fail, and that branch is modelled.  The [free]
    method is an effect: the values passed to it are returned, in order. *)

From S2P Require Import Prelude.
From stdpp Require Import options.

Section Adlist.
Context {V : Type} `{EqDecision V}.

Record listNode := mk_listNode { prev : option positive; next : option positive; value : V }.

Inductive direction := AL_START_HEAD | AL_START_TAIL.

Record listIter := mk_iter { it_next : option positive; it_direction : direction }.

Record list_t := mk_list {
  head : option positive;
  tail : option positive;
  dup : option (V -> option V);
  has_free : bool;
  match_ : option (V -> V -> bool);
  len : Z;
}.

Abbreviation heap := (gmap positive listNode).

(** ** Field updates *)

Definition set_prev (h : heap) (x : positive) (p : option positive) : option heap :=
  n ← h !! x; Some (<[x := mk_listNode p (next n) (value n)]> h).

Definition set_next (h : heap) (x : positive) (p : option positive) : option heap :=
  n ← h !! x; Some (<[x := mk_listNode (prev n) p (value n)]> h).

Definition with_ends (l : list_t) (hd tl : option positive) (n : Z) : list_t :=
  mk_list hd tl (dup l) (has_free l) (match_ l) (uwrap 64 n).

(** [zmalloc] and the assignments of a new node. *)
Definition new_node (h : heap) (n : listNode) : heap * positive :=
  let x := fresh (dom h) in (<[x := n]> h, x).

(** ** Operations *)

Definition listCreate : list_t := mk_list None None None false None 0.

(** The values freed come last. *)
Fixpoint empty_loop (n : nat) (h : heap) (l : list_t) (current : option positive) (freed : list V)
    : option (heap * list V) :=
  match n with
  | O => Some (h, freed)
  | S n =>
    c ← current;
    nd ← h !! c;
    empty_loop n (delete c h) l (next nd) (if has_free l then freed ++ [value nd] else freed)
  end.

Definition listEmpty (h : heap) (l : list_t) : option (heap * list_t * list V) :=
  '(h, freed) ← empty_loop (Z.to_nat (len l)) h l (head l) [];
  Some (h, with_ends l None None 0, freed).

Definition listRelease (h : heap) (l : list_t) : option (heap * list V) :=
  '(h, _, freed) ← listEmpty h l; Some (h, freed).

Definition listAddNodeHead (h : heap) (l : list_t) (v : V) : option (heap * list_t) :=
  if len l =? 0 then
    let '(h, x) := new_node h (mk_listNode None None v) in
    Some (h, with_ends l (Some x) (Some x) (len l + 1))
  else
    let '(h, x) := new_node h (mk_listNode None (head l) v) in
    hd ← head l;
    h ← set_prev h hd (Some x);
    Some (h, with_ends l (Some x) (tail l) (len l + 1)).

Definition listAddNodeTail (h : heap) (l : list_t) (v : V) : option (heap * list_t) :=
  if len l =? 0 then
    let '(h, x) := new_node h (mk_listNode None None v) in
    Some (h, with_ends l (Some x) (Some x) (len l + 1))
  else
    let '(h, x) := new_node h (mk_listNode (tail l) None v) in
    tl ← tail l;
    h ← set_next h tl (Some x);
    Some (h, with_ends l (head l) (Some x) (len l + 1)).

Definition listInsertNode (h : heap) (l : list_t) (old_node : positive) (v : V) (after : bool) : option (heap * list_t) :=
  old ← h !! old_node;
  let '(pr, nx) := if after then (Some old_node, next old) else (prev old, Some old_node) in
  let '(h, x) := new_node h (mk_listNode pr nx v) in
  let tl := if after && bool_decide (tail l = Some old_node) then Some x else tail l in
  let hd := if negb after && bool_decide (head l = Some old_node) then Some x else head l in
  h ← match pr with Some p => set_next h p (Some x) | None => Some h end;
  h ← match nx with Some n => set_prev h n (Some x) | None => Some h end;
  Some (h, with_ends l hd tl (len l + 1)).

Definition listDelNode (h : heap) (l : list_t) (node : positive) : option (heap * list_t * list V) :=
  n ← h !! node;
  h ← match prev n with Some p => set_next h p (next n) | None => Some h end;
  let hd := match prev n with Some _ => head l | None => next n end in
  h ← match next n with Some q => set_prev h q (prev n) | None => Some h end;
  let tl := match next n with Some _ => tail l | None => prev n end in
  Some (delete node h, with_ends l hd tl (len l - 1), if has_free l then [value n] else []).

Definition listGetIterator (l : list_t) (d : direction) : listIter :=
  mk_iter (match d with AL_START_HEAD => head l | AL_START_TAIL => tail l end) d.

Definition listRewind (l : list_t) : listIter := mk_iter (head l) AL_START_HEAD.
Definition listRewindTail (l : list_t) : listIter := mk_iter (tail l) AL_START_TAIL.

Definition listNext (h : heap) (it : listIter) : option (listIter * option positive) :=
  match it_next it with
  | None => Some (it, None)
  | Some c =>
    n ← h !! c;
    Some (mk_iter (match it_direction it with AL_START_HEAD => next n | AL_START_TAIL => prev n end) (it_direction it), Some c)
  end.

(** [fuel] bounds the number of nodes. *)
Fixpoint dup_loop (fuel : nat) (h : heap) (copy : list_t) (it : listIter) : option (heap * option list_t) :=
  '(it, node) ← listNext h it;
  match node with
  | None => Some (h, Some copy)
  | Some node =>
    match fuel with
    | O => None
    | S fuel =>
      n ← h !! node;
      match (match dup copy with Some d => d (value n) | None => Some (value n) end) with
      | None => '(h, _) ← listRelease h copy; Some (h, None)
      | Some v => '(h, copy) ← listAddNodeTail h copy v; dup_loop fuel h copy it
      end
    end
  end.

(** The inner [None] is the NULL returned when [dup] fails. *)
Definition listDup (h : heap) (orig : list_t) : option (heap * option list_t) :=
  let copy := mk_list None None (dup orig) (has_free orig) (match_ orig) 0 in
  dup_loop (size h) h copy (listRewind orig).

Fixpoint search_loop (fuel : nat) (h : heap) (l : list_t) (key : V) (it : listIter) : option (option positive) :=
  '(it, node) ← listNext h it;
  match node with
  | None => Some None
  | Some node =>
    n ← h !! node;
    if match match_ l with Some m => m (value n) key | None => bool_decide (key = value n) end then Some (Some node) else
    match fuel with
    | O => None
    | S fuel => search_loop fuel h l key it
    end
  end.

Definition listSearchKey (h : heap) (l : list_t) (key : V) : option (option positive) :=
  search_loop (size h) h l key (listRewind l).

(** [while(index-- && n)] *)
Fixpoint index_loop (index : nat) (h : heap) (d : direction) (n : option positive) : option (option positive) :=
  match index, n with
  | S index, Some x =>
    nd ← h !! x;
    index_loop index h d (match d with AL_START_HEAD => next nd | AL_START_TAIL => prev nd end)
  | _, _ => Some n
  end.

Definition listIndex (h : heap) (l : list_t) (index : Z) : option (option positive) :=
  if index <? 0 then index_loop (Z.to_nat (- index - 1)) h AL_START_TAIL (tail l)
  else index_loop (Z.to_nat index) h AL_START_HEAD (head l).

Definition listRotate (h : heap) (l : list_t) : option (heap * list_t) :=
  if len l <=? 1 then Some (h, l) else
  tl ← tail l;
  t ← h !! tl;
  let newtail := prev t in
  nt ← newtail;
  h ← set_next h nt None;
  h ← set_prev h tl None;
  h ← set_next h tl (head l);
  hd ← head l;
  h ← set_prev h hd (Some tl);
  Some (h, mk_list (Some tl) newtail (dup l) (has_free l) (match_ l) (len l)).

(** The new [l] and the new [o]. *)
Definition listJoin (h : heap) (l o : list_t) : option (heap * list_t * list_t) :=
  h ← match head o with Some x => set_prev h x (tail l) | None => Some h end;
  h ← match tail l with Some x => set_next h x (head o) | None => Some h end;
  let hd := match tail l with Some _ => head l | None => head o end in
  let tl := match tail o with Some x => Some x | None => tail l end in
  Some (h, with_ends l hd tl (len l + len o), with_ends o None None 0).

#[local] Set Default Proof Using "Type*".

(** ** The abstract list

    The nodes in order, each with its value. [seg h pv xs nx]: the nodes [xs]
    are linked to each other, the first one back to [pv] and the last one to
    [nx]. *)

Abbreviation nodes := (list (positive * V)).
Implicit Types (h : heap) (l : list_t) (xs A B : nodes) (pv nx : option positive).

Definition first_ptr xs nx : option positive := match xs with [] => nx | n :: _ => Some n.1 end.
Definition last_ptr pv xs : option positive := match last xs with None => pv | Some n => Some n.1 end.

Fixpoint seg h pv xs nx : Prop :=
  match xs with
  | [] => True
  | (p, v) :: xs' => h !! p = Some (mk_listNode pv (first_ptr xs' nx) v) /\ seg h (Some p) xs' nx
  end.

Lemma first_ptr_app A B nx : first_ptr (A ++ B) nx = first_ptr A (first_ptr B nx).
Proof. by destruct A. Qed.

Lemma last_ptr_app pv A B : last_ptr pv (A ++ B) = last_ptr (last_ptr pv A) B.
Proof. unfold last_ptr. rewrite last_app. by destruct (last B). Qed.

Lemma seg_app h pv A B nx : seg h pv (A ++ B) nx <-> seg h pv A (first_ptr B nx) /\ seg h (last_ptr pv A) B nx.
Proof.
  revert pv. induction A as [|[p v] A IH]; intros pv; [simpl; tauto|]. cbn [app seg].
  rewrite IH, first_ptr_app. change ((p, v) :: A) with ([(p, v)] ++ A). rewrite last_ptr_app.
  change (last_ptr pv [(p, v)]) with (Some p). tauto.
Qed.

Lemma seg_frame h h' pv xs nx : (forall x, x ∈ xs.*1 -> h' !! x = h !! x) -> seg h pv xs nx -> seg h' pv xs nx.
Proof.
  revert pv. induction xs as [|[p v] xs IH]; intros pv Hf; [done|]. cbn [seg]. rewrite fmap_cons in Hf. simpl in Hf.
  intros [Hp Hs]. split; [by rewrite (Hf p) by set_solver|]. apply IH; [|done]. intros x Hx. apply Hf. set_solver.
Qed.

(** Redirecting the back link of the first node, or the forward link of the
    last one, where there is one. *)
Lemma relink_prev h pv B nx q :
  seg h pv B nx -> NoDup B.*1 ->
  exists h', (match first_ptr B None with Some p => set_prev h p q | None => Some h end) = Some h' /\
    seg h' q B nx /\ forall x, x ∉ B.*1 -> h' !! x = h !! x.
Proof.
  destruct B as [|[p v] B]; [by exists h|]. intros [Hp HB] Hnd. rewrite fmap_cons in Hnd. simpl in Hnd.
  apply NoDup_cons in Hnd as [Hn _]. simpl. unfold set_prev. rewrite Hp. cbn [mbind option_bind next value].
  eexists. split; [done|]. split; [split|].
  - by rewrite lookup_insert_eq.
  - eapply seg_frame; [|done]. intros x Hx. rewrite lookup_insert_ne; [done|]. by intros ->.
  - intros x Hx. rewrite lookup_insert_ne; [done|]. intros ->. apply Hx. set_solver.
Qed.

Lemma relink_next h pv A nx q :
  seg h pv A nx -> NoDup A.*1 ->
  exists h', (match last_ptr None A with Some p => set_next h p q | None => Some h end) = Some h' /\
    seg h' pv A q /\ forall x, x ∉ A.*1 -> h' !! x = h !! x.
Proof.
  destruct A as [|[p v] A _] using rev_ind; [by exists h|]. rewrite seg_app. intros [HA [Hp _]] Hnd.
  rewrite fmap_app in Hnd. apply NoDup_app in Hnd as (_ & Hn & _). unfold last_ptr at 1. rewrite last_snoc. simpl.
  unfold set_next. rewrite Hp. cbn [mbind option_bind prev value]. eexists. split; [done|]. split.
  - apply seg_app. split.
    + eapply seg_frame; [|exact HA]. intros x Hx. rewrite lookup_insert_ne; [done|]. intros ->. apply (Hn _ Hx). set_solver.
    + split; [|done]. by rewrite lookup_insert_eq.
  - intros x Hx. rewrite lookup_insert_ne; [done|]. intros ->. apply Hx. rewrite fmap_app. set_solver.
Qed.

Record list_rep h l xs : Prop := {
  lr_seg : seg h None xs None;
  lr_nodup : NoDup xs.*1;
  lr_head : head l = first_ptr xs None;
  lr_tail : tail l = last_ptr None xs;
  lr_len : len l = zlen xs;
  lr_fits : zlen xs < 2 ^ 64;
}.

(** What an operation does to the memory: nodes that leave the list are
    freed, nodes that enter it were not in use, the rest is untouched. *)
Record mem_step h xs h' xs' : Prop := {
  ms_frame x : x ∉ xs.*1 -> x ∉ xs'.*1 -> h' !! x = h !! x;
  ms_freed x : x ∈ xs.*1 -> x ∉ xs'.*1 -> h' !! x = None;
  ms_fresh x : x ∉ xs.*1 -> x ∈ xs'.*1 -> h !! x = None;
}.

Lemma mem_step_refl h xs : mem_step h xs h xs.
Proof. constructor; done. Qed.

Lemma mem_step_trans h xs h' xs' h'' xs'' : mem_step h xs h' xs' -> mem_step h' xs' h'' xs'' -> mem_step h xs h'' xs''.
Proof.
  intros [F1 D1 N1] [F2 D2 N2]. constructor; intros x H1 H2; destruct (decide (x ∈ xs'.*1)) as [H|H].
  - rewrite (D2 x), (N1 x) by done. done.
  - rewrite (F2 x), (F1 x) by done. done.
  - by apply D2.
  - rewrite (F2 x) by done. by apply D1.
  - by apply N1.
  - rewrite <- (F1 x) by done. by apply N2.
Qed.

Lemma rep_len l h xs : list_rep h l xs -> (len l =? 0) = bool_decide (xs = []).
Proof.
  intros Hr. rewrite (lr_len _ _ _ Hr). destruct xs as [|n xs]; [done|]. rewrite zlen_cons.
  pose proof (zlen_nonneg xs). rewrite (proj2 (Z.eqb_neq _ _)) by lia. done.
Qed.

Lemma new_node_spec h n h' x : new_node h n = (h', x) -> h !! x = None /\ h' = <[x := n]> h.
Proof. unfold new_node. intros [= <- <-]. split; [|done]. apply not_elem_of_dom, is_fresh. Qed.

Lemma seg_lookup h pv A p v B nx :
  seg h pv (A ++ (p, v) :: B) nx -> h !! p = Some (mk_listNode (last_ptr pv A) (first_ptr B nx) v).
Proof. rewrite seg_app. by intros [_ [Hp _]]. Qed.

Lemma seg_alloc h pv xs nx x : seg h pv xs nx -> h !! x = None -> x ∉ xs.*1.
Proof.
  intros Hs Hx ([p v] & -> & Hin)%list_elem_of_fmap. apply list_elem_of_split in Hin as (A & B & ->).
  apply seg_lookup in Hs. simpl in Hx. congruence.
Qed.

(** ** Insertion *)

#[local] Opaque new_node.
#[local] Ltac zcount := unfold zlen in *; rewrite ?length_app in *; cbn [length] in *; lia.

Lemma insert_between h l A B v h1 x :
  list_rep h l (A ++ B) -> new_node h (mk_listNode (last_ptr None A) (first_ptr B None) v) = (h1, x) ->
  exists h2 h3, (match last_ptr None A with Some p => set_next h1 p (Some x) | None => Some h1 end) = Some h2 /\
    (match first_ptr B None with Some q => set_prev h2 q (Some x) | None => Some h2 end) = Some h3 /\
    seg h3 None (A ++ (x, v) :: B) None /\ NoDup (A ++ (x, v) :: B).*1 /\ mem_step h (A ++ B) h3 (A ++ (x, v) :: B).
Proof.
  intros Hr [Hx ->]%new_node_spec. pose proof (lr_seg _ _ _ Hr) as Hs. pose proof (seg_alloc _ _ _ _ _ Hs Hx) as HxL.
  pose proof (lr_nodup _ _ _ Hr) as Hnd. rewrite fmap_app in Hnd, HxL. apply NoDup_app in Hnd as (HndA & Hdis & HndB).
  apply seg_app in Hs as [HA HB]. rewrite not_elem_of_app in HxL. destruct HxL as [HxA HxB].
  set (h1 := <[x := _]> h).
  assert (forall y, y <> x -> h1 !! y = h !! y) as F1 by (intros y Hy; unfold h1; by rewrite lookup_insert_ne by done).
  assert (seg h1 None A (first_ptr B None)) as HA1 by (eapply seg_frame; [|done]; intros y Hy; apply F1; by intros ->).
  destruct (relink_next h1 None A _ (Some x) HA1 HndA) as (h2 & E2 & HA2 & F2).
  assert (seg h2 (last_ptr None A) B None) as HB2.
  { eapply seg_frame; [|exact HB]. intros y Hy. rewrite F2 by (intros Hc; by apply (Hdis y)). apply F1. by intros ->. }
  destruct (relink_prev h2 _ B None (Some x) HB2 HndB) as (h3 & E3 & HB3 & F3).
  exists h2, h3. split_and!; [done|done| | |].
  - apply seg_app. split; [|split; [|done]].
    + eapply seg_frame; [|exact HA2]. intros y Hy. apply F3. by apply Hdis.
    + rewrite F3, F2 by done. unfold h1. by rewrite lookup_insert_eq.
  - rewrite fmap_app, fmap_cons, <- Permutation_middle. apply NoDup_cons. split; [by rewrite not_elem_of_app|].
    by apply NoDup_app.
  - constructor; intros y; rewrite !fmap_app, ?fmap_cons, !elem_of_app, ?elem_of_cons; simpl.
    + intros H1 H2. rewrite F3, F2, F1 by tauto. done.
    + tauto.
    + intros H1 [H2|[->|H2]]; [tauto|done|tauto].
Qed.

Lemma with_ends_rep h l xs hd tl n :
  seg h None xs None -> NoDup xs.*1 -> hd = first_ptr xs None -> tl = last_ptr None xs -> n = zlen xs -> zlen xs < 2 ^ 64 ->
  list_rep h (with_ends l hd tl n) xs.
Proof.
  intros Hs Hnd -> -> -> Hf. constructor; try done. simpl. pose proof (zlen_nonneg xs). apply uwrap_small. unfold in_u. lia.
Qed.

Lemma listAddNodeHead_rep h l xs v :
  list_rep h l xs -> zlen xs + 1 < 2 ^ 64 ->
  exists h' l' x, listAddNodeHead h l v = Some (h', l') /\ list_rep h' l' ((x, v) :: xs) /\ has_free l' = has_free l /\
    dup l' = dup l /\ match_ l' = match_ l /\ mem_step h xs h' ((x, v) :: xs).
Proof.
  intros Hr Hf. unfold listAddNodeHead. rewrite (rep_len _ _ _ Hr), (lr_head _ _ _ Hr).
  destruct (new_node h (mk_listNode None (first_ptr xs None) v)) as [h1 x] eqn:E.
  destruct (insert_between h l [] xs v h1 x Hr E) as (h2 & h3 & [= <-] & E3 & Hs & Hnd & Hm).
  case_bool_decide as Hxs.
  - subst xs. simpl in *. injection E3 as <-. rewrite E. do 3 eexists. split; [done|]. split_and!; try done.
    apply with_ends_rep; try done. by rewrite (lr_len _ _ _ Hr).
  - destruct xs as [|n xs]; [done|]. simpl in E3, E. cbn [first_ptr mbind option_bind]. rewrite E3. cbn [mbind option_bind].
    do 3 eexists. split; [done|]. split_and!; try done.
    apply with_ends_rep; try done; [|rewrite (lr_len _ _ _ Hr), !zlen_cons; lia|rewrite !zlen_cons in *; lia].
    rewrite (lr_tail _ _ _ Hr). unfold last_ptr. by rewrite last_cons_cons.
Qed.

Lemma listAddNodeTail_rep h l xs v :
  list_rep h l xs -> zlen xs + 1 < 2 ^ 64 ->
  exists h' l' x, listAddNodeTail h l v = Some (h', l') /\ list_rep h' l' (xs ++ [(x, v)]) /\ has_free l' = has_free l /\
    dup l' = dup l /\ match_ l' = match_ l /\ mem_step h xs h' (xs ++ [(x, v)]).
Proof.
  intros Hr Hf. unfold listAddNodeTail. rewrite (rep_len _ _ _ Hr), (lr_tail _ _ _ Hr).
  destruct (new_node h (mk_listNode (last_ptr None xs) None v)) as [h1 x] eqn:E.
  rewrite <- (app_nil_r xs) in Hr. destruct (insert_between h l xs [] v h1 x Hr E) as (h2 & h3 & E2 & [= <-] & Hs & Hnd & Hm).
  rewrite app_nil_r in Hr, Hm. case_bool_decide as Hxs.
  - subst xs. change (last_ptr None []) with (@None positive) in *. simpl in *. injection E2 as <-. rewrite E. do 3 eexists. split; [done|]. split_and!; try done.
    apply with_ends_rep; try done. by rewrite (lr_len _ _ _ Hr).
  - destruct (last_ptr None xs) as [t|] eqn:El.
    2:{ unfold last_ptr in El. destruct (last xs) eqn:El2; [done|]. by apply last_None in El2. }
    cbn [mbind option_bind]. rewrite E2. cbn [mbind option_bind].
    do 3 eexists. split; [done|]. split_and!; try done.
    apply with_ends_rep; try done; [| |rewrite (lr_len _ _ _ Hr), zlen_app; done|rewrite zlen_app; change (zlen [(x, v)]) with 1; lia].
    + rewrite (lr_head _ _ _ Hr), first_ptr_app. by destruct xs.
    + by rewrite last_ptr_app.
Qed.

Lemma listInsertNode_rep h l A p w B v (after : bool) :
  list_rep h l (A ++ (p, w) :: B) -> zlen (A ++ (p, w) :: B) + 1 < 2 ^ 64 ->
  exists h' l' x, (let xs' := A ++ (if after then [(p, w); (x, v)] else [(x, v); (p, w)]) ++ B in
    listInsertNode h l p v after = Some (h', l') /\ list_rep h' l' xs' /\ has_free l' = has_free l /\
    dup l' = dup l /\ match_ l' = match_ l /\ mem_step h (A ++ (p, w) :: B) h' xs').
Proof.
  intros Hr Hf. unfold listInsertNode. rewrite (seg_lookup _ _ _ _ _ _ _ (lr_seg _ _ _ Hr)). cbn [mbind option_bind prev next].
  pose proof (lr_nodup _ _ _ Hr) as Hnd0.
  assert ((p ∉ A.*1) /\ (p ∉ B.*1)) as [HpA HpB].
  { rewrite fmap_app, fmap_cons, <- Permutation_middle in Hnd0. apply NoDup_cons in Hnd0 as [Hp _]. simpl in Hp.
    by apply not_elem_of_app in Hp. }
  destruct after.
  - destruct (new_node h (mk_listNode (Some p) (first_ptr B None) v)) as [h1 x] eqn:E.
    assert (list_rep h l ((A ++ [(p, w)]) ++ B)) as Hr' by by rewrite <- app_assoc.
    assert (last_ptr None (A ++ [(p, w)]) = Some p) as Elast by by rewrite last_ptr_app.
    rewrite <- Elast in E. destruct (insert_between h l (A ++ [(p, w)]) B v h1 x Hr' E) as (h2 & h3 & E2 & E3 & Hs & Hnd & Hm).
    rewrite Elast in E2. rewrite E2. cbn [mbind option_bind]. rewrite E3. cbn [mbind option_bind].
    eexists h3, _, x. split; [done|]. rewrite <- (app_assoc A [(p, w)]) in Hs, Hnd. rewrite <- (app_assoc A [(p, w)] B), <- (app_assoc A [(p, w)] ((x, v) :: B)) in Hm. split_and!; try done.
    apply with_ends_rep; [exact Hs|exact Hnd|..].
    + simpl. rewrite (lr_head _ _ _ Hr), !first_ptr_app. done.
    + rewrite (lr_tail _ _ _ Hr). simpl. change (A ++ (p, w) :: (x, v) :: B) with (A ++ [(p, w); (x, v)] ++ B).
      change (A ++ (p, w) :: B) with (A ++ [(p, w)] ++ B). rewrite !last_ptr_app. simpl.
      change (last_ptr (last_ptr None A) [(p, w); (x, v)]) with (Some x). change (last_ptr (last_ptr None A) [(p, w)]) with (Some p).
      unfold last_ptr. destruct (last B) as [b|] eqn:El; [|by rewrite bool_decide_eq_true_2].
      rewrite bool_decide_eq_false_2; [done|]. intros [= Ec]. apply HpB. rewrite <- Ec. apply list_elem_of_fmap_2. by apply last_Some_elem_of.
    + rewrite (lr_len _ _ _ Hr). zcount.
    + zcount.
  - destruct (new_node h (mk_listNode (last_ptr None A) (Some p) v)) as [h1 x] eqn:E.
    destruct (insert_between h l A ((p, w) :: B) v h1 x Hr E) as (h2 & h3 & E2 & E3 & Hs & Hnd & Hm).
    simpl in E3. rewrite E2. cbn [mbind option_bind]. rewrite E3. cbn [mbind option_bind].
    eexists h3, _, x. split; [done|]. split_and!; try done.
    apply with_ends_rep; [exact Hs|exact Hnd|..].
    + rewrite (lr_head _ _ _ Hr), !first_ptr_app. simpl. destruct A as [|a A]; simpl; [by rewrite bool_decide_eq_true_2|].
      rewrite bool_decide_eq_false_2; [done|]. intros [= Ec]. apply HpA. rewrite fmap_cons, <- Ec. set_solver.
    + rewrite (lr_tail _ _ _ Hr). simpl. change (A ++ (x, v) :: (p, w) :: B) with (A ++ [(x, v); (p, w)] ++ B).
      change (A ++ (p, w) :: B) with (A ++ [(p, w)] ++ B). rewrite !last_ptr_app. done.
    + rewrite (lr_len _ _ _ Hr). zcount.
    + zcount.
Qed.

(** ** Deletion *)

Lemma nodup_middle A (p : positive) (v : V) B : NoDup (A ++ (p, v) :: B).*1 ->
  (p ∉ A.*1) /\ (p ∉ B.*1) /\ NoDup A.*1 /\ NoDup B.*1 /\ (forall x, x ∈ A.*1 -> x ∉ B.*1).
Proof.
  rewrite fmap_app, fmap_cons, <- Permutation_middle. intros [Hp Hnd]%NoDup_cons. simpl in Hp.
  apply not_elem_of_app in Hp as [? ?]. apply NoDup_app in Hnd as (? & ? & ?). auto.
Qed.

Lemma listDelNode_rep h l A p v B :
  list_rep h l (A ++ (p, v) :: B) ->
  exists h' l', listDelNode h l p = Some (h', l', if has_free l then [v] else []) /\ list_rep h' l' (A ++ B) /\
    has_free l' = has_free l /\ dup l' = dup l /\ match_ l' = match_ l /\ mem_step h (A ++ (p, v) :: B) h' (A ++ B).
Proof.
  intros Hr. unfold listDelNode. rewrite (seg_lookup _ _ _ _ _ _ _ (lr_seg _ _ _ Hr)). cbn [mbind option_bind prev next value].
  destruct (nodup_middle _ _ _ _ (lr_nodup _ _ _ Hr)) as (HpA & HpB & HndA & HndB & Hdis).
  pose proof (lr_seg _ _ _ Hr) as Hs. apply seg_app in Hs as [HA [_ HB]].
  destruct (relink_next h None A _ (first_ptr B None) HA HndA) as (h1 & -> & HA1 & F1). cbn [mbind option_bind].
  assert (seg h1 (Some p) B None) as HB1 by (eapply seg_frame; [|exact HB]; intros x Hx; apply F1; intros Hc; by apply (Hdis x)).
  destruct (relink_prev h1 _ B None (last_ptr None A) HB1 HndB) as (h2 & -> & HB2 & F2). cbn [mbind option_bind].
  do 2 eexists. split; [done|]. split_and!; try done.
  - apply with_ends_rep.
    + apply (seg_frame h2); [intros x Hx; rewrite lookup_delete_ne; [done|]; intros <-; rewrite fmap_app in Hx; set_solver|].
      apply seg_app. split; [|done]. eapply seg_frame; [|exact HA1]. intros x Hx. apply F2. by apply Hdis.
    + rewrite fmap_app. by apply NoDup_app.
    + rewrite (lr_head _ _ _ Hr), !first_ptr_app. destruct A as [|a A _] using rev_ind; [done|]. unfold last_ptr. rewrite last_snoc.
      by destruct A.
    + rewrite (lr_tail _ _ _ Hr). change (A ++ (p, v) :: B) with (A ++ [(p, v)] ++ B). rewrite !last_ptr_app.
      destruct B as [|b B]; [done|]. unfold last_ptr. simpl. destruct (last (b :: B)) eqn:El; [done|]. by apply last_None in El.
    + rewrite (lr_len _ _ _ Hr). zcount.
    + pose proof (lr_fits _ _ _ Hr). zcount.
  - constructor; intros x; rewrite !fmap_app, ?fmap_cons, !elem_of_app, ?elem_of_cons; simpl; intros H1 H2.
    + rewrite lookup_delete_ne, F2, F1 by naive_solver. done.
    + destruct (decide (x = p)) as [->|]; [apply lookup_delete_eq|]. tauto.
    + tauto.
Qed.

Lemma empty_loop_spec l xs : forall h pv freed,
  seg h pv xs None -> NoDup xs.*1 ->
  exists h', empty_loop (length xs) h l (first_ptr xs None) freed = Some (h', freed ++ (if has_free l then xs.*2 else [])) /\
    mem_step h xs h' [].
Proof.
  induction xs as [|[p v] xs IH]; intros h pv freed Hs Hnd.
  - exists h. split; [by destruct (has_free l); rewrite app_nil_r|apply mem_step_refl].
  - destruct Hs as [Hp Hs]. rewrite fmap_cons in Hnd. apply NoDup_cons in Hnd as [Hn Hnd]. simpl in Hn.
    cbn [length empty_loop first_ptr mbind option_bind fst]. rewrite Hp. cbn [mbind option_bind next value].
    assert (seg (delete p h) (Some p) xs None) as Hs' by (eapply seg_frame; [|done]; intros x Hx; rewrite lookup_delete_ne; [done|]; by intros <-).
    destruct (IH (delete p h) (Some p) (if has_free l then freed ++ [v] else freed) Hs' Hnd) as (h' & -> & [F D _]).
    exists h'. split; [by destruct (has_free l); rewrite <- ?app_assoc|].
    constructor; intros x; rewrite fmap_cons, ?elem_of_cons; simpl; intros H1 H2.
    + rewrite F by set_solver. rewrite lookup_delete_ne by naive_solver. done.
    + destruct (decide (x ∈ xs.*1)) as [Hx|Hx]; [by apply D|]. rewrite F by done. destruct H1 as [->|]; [|done]. apply lookup_delete_eq.
    + set_solver.
Qed.

Lemma listEmpty_rep h l xs :
  list_rep h l xs ->
  exists h' l', listEmpty h l = Some (h', l', if has_free l then xs.*2 else []) /\ list_rep h' l' [] /\
    has_free l' = has_free l /\ dup l' = dup l /\ match_ l' = match_ l /\ mem_step h xs h' [].
Proof.
  intros Hr. unfold listEmpty. rewrite (lr_head _ _ _ Hr), (lr_len _ _ _ Hr). unfold zlen at 1. rewrite Nat2Z.id.
  destruct (empty_loop_spec l xs h None [] (lr_seg _ _ _ Hr) (lr_nodup _ _ _ Hr)) as (h' & -> & Hm). cbn [mbind option_bind].
  do 2 eexists. split; [done|]. split_and!; try done. apply with_ends_rep; try done. constructor.
Qed.

(** Releasing a list gives back the memory it had when it was created. *)
Lemma listRelease_rep h0 h l xs :
  list_rep h l xs -> mem_step h0 [] h xs ->
  listRelease h l = Some (h0, if has_free l then xs.*2 else []).
Proof.
  intros Hr Hm. unfold listRelease. destruct (listEmpty_rep h l xs Hr) as (h' & l' & -> & _ & _ & _ & _ & Hm'). cbn [mbind option_bind].
  pose proof (mem_step_trans _ _ _ _ _ _ Hm Hm') as [F _ _]. do 2 f_equal. apply map_eq. intros x. apply F; set_solver.
Qed.

(** ** Access *)

Lemma index_loop_head h xs : forall pv k, seg h pv xs None ->
  index_loop k h AL_START_HEAD (first_ptr xs None) = Some (fst <$> xs !! k).
Proof.
  induction xs as [|[p v] xs IH]; intros pv k Hs; [by destruct k|]. destruct Hs as [Hp Hs].
  destruct k as [|k]; [done|]. cbn [index_loop first_ptr fst]. rewrite Hp. cbn [mbind option_bind next]. by eapply IH.
Qed.

Lemma index_loop_tail h xs : forall nx k, seg h None xs nx ->
  index_loop k h AL_START_TAIL (last_ptr None xs) = Some (fst <$> reverse xs !! k).
Proof.
  induction xs as [|[p v] xs IH] using rev_ind; intros nx k Hs; [by destruct k|]. apply seg_app in Hs as [HA [Hp _]].
  rewrite last_ptr_app, reverse_app. change (last_ptr (last_ptr None xs) [(p, v)]) with (Some p).
  destruct k as [|k]; [done|]. cbn [index_loop]. rewrite Hp. cbn [mbind option_bind prev]. by eapply IH.
Qed.

(** The position that a possibly negative index stands for. *)
Definition norm_index (n : Z) (index : Z) : Z := if index <? 0 then n + index else index.

Lemma listIndex_rep h l xs index :
  list_rep h l xs ->
  listIndex h l index = Some (if norm_index (zlen xs) index <? 0 then None else fst <$> xs !! Z.to_nat (norm_index (zlen xs) index)).
Proof.
  intros Hr. unfold listIndex, norm_index. pose proof (zlen_nonneg xs). destruct (Z.ltb_spec index 0) as [Hi|Hi].
  - rewrite (lr_tail _ _ _ Hr), (index_loop_tail h xs None _ (lr_seg _ _ _ Hr)). f_equal.
    destruct (Z.ltb_spec (zlen xs + index) 0) as [Hn|Hn].
    + rewrite lookup_ge_None_2; [done|]. rewrite length_reverse. unfold zlen in *. lia.
    + rewrite reverse_lookup by (unfold zlen in *; lia). do 2 f_equal. unfold zlen in *. lia.
  - rewrite (lr_head _ _ _ Hr), (index_loop_head h xs None _ (lr_seg _ _ _ Hr)).
    by rewrite (proj2 (Z.ltb_ge index 0)).
Qed.

Lemma seg_size h pv xs nx : seg h pv xs nx -> NoDup xs.*1 -> (length xs <= base.size h)%nat.
Proof.
  intros Hs Hnd. rewrite <- (length_fmap fst xs), <- size_dom, <- (size_list_to_set (C := gset positive) _ Hnd).
  apply subseteq_size. intros p Hp. apply elem_of_list_to_set, list_elem_of_fmap in Hp as ([q v] & -> & Hin).
  apply list_elem_of_split in Hin as (A & B & ->). apply elem_of_dom. simpl.
  by rewrite (seg_lookup _ _ _ _ _ _ _ Hs).
Qed.

Definition matches l (key : V) (n : positive * V) : bool :=
  match match_ l with Some m => m n.2 key | None => bool_decide (key = n.2) end.

Lemma listSearch_loop_spec l key h xs : forall fuel pv, seg h pv xs None -> (length xs <= fuel)%nat ->
  search_loop fuel h l key (mk_iter (first_ptr xs None) AL_START_HEAD) = Some (fst <$> List.find (matches l key) xs).
Proof.
  induction xs as [|[p v] xs IH]; intros fuel pv Hs Hf; [by destruct fuel|]. destruct Hs as [Hp Hs].
  destruct fuel as [|fuel]; [simpl in Hf; lia|]. cbn [search_loop listNext it_next it_direction first_ptr fst].
  rewrite Hp. cbn [mbind option_bind next value]. rewrite Hp. cbn [mbind option_bind value].
  cbn [List.find]. unfold matches at 1. cbn [snd]. destruct (match match_ l with Some m => m v key | None => bool_decide (key = v) end); [done|].
  apply (IH fuel (Some p)); [done|simpl in Hf; lia].
Qed.

Lemma listSearchKey_rep h l xs key : list_rep h l xs -> listSearchKey h l key = Some (fst <$> List.find (matches l key) xs).
Proof.
  intros Hr. unfold listSearchKey, listRewind. rewrite (lr_head _ _ _ Hr). apply (listSearch_loop_spec l key h xs _ None (lr_seg _ _ _ Hr)).
  eapply seg_size; [apply (lr_seg _ _ _ Hr)|apply (lr_nodup _ _ _ Hr)].
Qed.

(** ** Rotation and concatenation *)

Lemma listRotate_rep h l A t v :
  list_rep h l (A ++ [(t, v)]) ->
  exists h' l', listRotate h l = Some (h', l') /\ list_rep h' l' ((t, v) :: A) /\ has_free l' = has_free l /\
    dup l' = dup l /\ match_ l' = match_ l /\ mem_step h (A ++ [(t, v)]) h' ((t, v) :: A).
Proof.
  intros Hr. unfold listRotate. rewrite (lr_len _ _ _ Hr), (lr_tail _ _ _ Hr), (lr_head _ _ _ Hr).
  destruct A as [|a A' _] eqn:EA using rev_ind.
  { do 2 eexists. split; [done|]. by split_and!. }
  rewrite <- EA in *. assert (A <> []) as Hne by (rewrite EA; by destruct A').
  assert ((zlen (A ++ [(t, v)]) <=? 1) = false) as ->.
  { apply Z.leb_gt. rewrite zlen_app. change (zlen [(t, v)]) with 1. destruct A; [done|]. rewrite zlen_cons. pose proof (zlen_nonneg A). lia. }
  rewrite last_ptr_app. change (last_ptr (last_ptr None A) [(t, v)]) with (Some t). cbn [mbind option_bind].
  destruct (nodup_middle _ _ _ _ (lr_nodup _ _ _ Hr)) as (HtA & _ & HndA & _ & _).
  pose proof (lr_seg _ _ _ Hr) as Hs. rewrite (seg_lookup _ _ _ _ _ _ _ Hs). cbn [mbind option_bind prev].
  apply seg_app in Hs as [HA [Ht _]]. destruct (relink_next h None A _ None HA HndA) as (h1 & E1 & HA1 & F1).
  assert (exists q, last_ptr None A = Some q) as [q Eq].
  { unfold last_ptr. destruct (last A) eqn:El; [eauto|]. by apply last_None in El. }
  rewrite Eq in E1 |- *. cbn [mbind option_bind]. rewrite E1. cbn [mbind option_bind].
  assert (set_prev h1 t None = Some (<[t := mk_listNode None None v]> h1)) as -> by (unfold set_prev; rewrite F1, Ht by done; done).
  cbn [mbind option_bind].
  assert (forall q, set_next (<[t := mk_listNode None None v]> h1) t q = Some (<[t := mk_listNode None q v]> h1)) as ->
    by (intros q'; unfold set_next; rewrite lookup_insert_eq; simpl; by rewrite insert_insert_eq).
  cbn [mbind option_bind].
  rewrite first_ptr_app. assert (first_ptr A (first_ptr [(t, v)] None) = first_ptr A None) as -> by by destruct A.
  assert (exists b, first_ptr A None = Some b) as [b Eb] by (destruct A; [done|]; simpl; eauto). rewrite Eb. cbn [mbind option_bind].
  set (h2 := <[t := _]> h1).
  assert (seg h2 None A None) as HA2 by (eapply seg_frame; [|exact HA1]; intros x Hx; unfold h2; rewrite lookup_insert_ne; [done|]; by intros <-).
  destruct (relink_prev h2 None A None (Some t) HA2 HndA) as (h3 & E3 & HA3 & F3). rewrite Eb in E3. rewrite E3. cbn [mbind option_bind].
  do 2 eexists. split; [done|]. split_and!; try done.
  - constructor; simpl; try done.
    + split; [|done]. rewrite F3 by done. unfold h2. by rewrite lookup_insert_eq, Eb.
    + by apply NoDup_cons.
    + unfold last_ptr in *. rewrite last_cons. by destruct (last A).
    + zcount.
    + pose proof (lr_fits _ _ _ Hr). zcount.
  - constructor; intros x; rewrite fmap_app, !fmap_cons, elem_of_app, !elem_of_cons; simpl; rewrite ?elem_of_nil; intros H1 H2; [|tauto|tauto].
    rewrite F3 by tauto. unfold h2. rewrite lookup_insert_ne by naive_solver. apply F1. tauto.
Qed.

Lemma listJoin_rep h l o A B :
  list_rep h l A -> list_rep h o B -> (forall x, x ∈ A.*1 -> x ∉ B.*1) -> zlen A + zlen B < 2 ^ 64 ->
  exists h' l' o', listJoin h l o = Some (h', l', o') /\ list_rep h' l' (A ++ B) /\ list_rep h' o' [] /\
    has_free l' = has_free l /\ dup l' = dup l /\ match_ l' = match_ l /\ mem_step h (A ++ B) h' (A ++ B).
Proof.
  intros HrA HrB Hdis Hfit. unfold listJoin.
  rewrite (lr_head _ _ _ HrA), (lr_tail _ _ _ HrA), (lr_head _ _ _ HrB), (lr_tail _ _ _ HrB), (lr_len _ _ _ HrA), (lr_len _ _ _ HrB).
  destruct (relink_prev h None B None (last_ptr None A) (lr_seg _ _ _ HrB) (lr_nodup _ _ _ HrB)) as (h1 & -> & HB1 & F1). cbn [mbind option_bind].
  assert (seg h1 None A None) as HA1 by (eapply seg_frame; [|apply (lr_seg _ _ _ HrA)]; intros x Hx; apply F1; by apply Hdis).
  destruct (relink_next h1 None A None (first_ptr B None) HA1 (lr_nodup _ _ _ HrA)) as (h2 & -> & HA2 & F2). cbn [mbind option_bind].
  do 3 eexists. split; [done|]. split_and!; try done.
  - apply with_ends_rep.
    + apply seg_app. split; [done|]. eapply seg_frame; [|exact HB1]. intros x Hx. apply F2. intros Hc. by apply (Hdis x).
    + rewrite fmap_app. apply NoDup_app. split_and!; [apply (lr_nodup _ _ _ HrA)|done|apply (lr_nodup _ _ _ HrB)].
    + destruct A as [|a A]; [done|]. unfold last_ptr. destruct (last (a :: A)) eqn:El; [done|]. by apply last_None in El.
    + rewrite last_ptr_app. unfold last_ptr at 1 3. by destruct (last B).
    + zcount.
    + zcount.
  - apply with_ends_rep; try done. constructor.
  - constructor; intros x; [|tauto|tauto]. rewrite fmap_app, not_elem_of_app. intros [H1 H2] _. by rewrite F2, F1.
Qed.

(** ** Duplication *)

Lemma listNext_head h pv p v xs : seg h pv ((p, v) :: xs) None ->
  listNext h (mk_iter (first_ptr ((p, v) :: xs) None) AL_START_HEAD) = Some (mk_iter (first_ptr xs None) AL_START_HEAD, Some p).
Proof. intros [Hp _]. unfold listNext. simpl. by rewrite Hp. Qed.

Lemma other_list_frame h pv xs nx ys h' ys' :
  seg h pv xs nx -> (forall x, x ∈ xs.*1 -> x ∉ ys.*1) -> mem_step h ys h' ys' ->
  seg h' pv xs nx /\ (forall x, x ∈ xs.*1 -> x ∉ ys'.*1).
Proof.
  intros Hs Hdis [F D N].
  assert (forall x, x ∈ xs.*1 -> x ∉ ys'.*1) as Hdis'.
  { intros x Hx Hc. by apply (seg_alloc _ _ _ _ x Hs (N x (Hdis x Hx) Hc)). }
  split; [|done]. eapply seg_frame; [|exact Hs]. intros x Hx. apply F; auto.
Qed.

Definition dup_value l (v : V) : option V := match dup l with Some d => d v | None => Some v end.

Lemma dup_loop_spec h0 rest : forall fuel h copy pv ys,
  seg h pv rest None -> (length rest <= fuel)%nat -> list_rep h copy ys -> (forall x, x ∈ rest.*1 -> x ∉ ys.*1) ->
  mem_step h0 [] h ys -> zlen ys + zlen rest < 2 ^ 64 ->
  match mapM (dup_value copy) rest.*2 with
  | Some vs => exists h' copy' zs, dup_loop fuel h copy (mk_iter (first_ptr rest None) AL_START_HEAD) = Some (h', Some copy') /\
      list_rep h' copy' (ys ++ zs) /\ zs.*2 = vs /\ mem_step h0 [] h' (ys ++ zs) /\
      dup copy' = dup copy /\ has_free copy' = has_free copy /\ match_ copy' = match_ copy
  | None => dup_loop fuel h copy (mk_iter (first_ptr rest None) AL_START_HEAD) = Some (h0, None)
  end.
Proof.
  induction rest as [|[p v] rest IH]; intros fuel h copy pv ys Hs Hf Hr Hdis Hm Hfit.
  { simpl. exists h, copy, []. rewrite app_nil_r. split_and!; try done. by destruct fuel. }
  destruct fuel as [|fuel]; [simpl in Hf; lia|]. cbn [dup_loop]. rewrite (listNext_head _ _ _ _ _ Hs). cbn [mbind option_bind].
  destruct Hs as [Hp Hs]. rewrite Hp. cbn [mbind option_bind value]. fold (dup_value copy v).
  rewrite fmap_cons. cbn [snd mapM]. destruct (dup_value copy v) as [v'|] eqn:Ev; cbn [mbind option_bind].
  2:{ rewrite (listRelease_rep h0 h copy ys Hr Hm). done. }
  destruct (listAddNodeTail_rep h copy ys v' Hr) as (h1 & c1 & x & -> & Hr1 & Ef & Ed & Em & Hm1); [zcount|]. cbn [mbind option_bind].
  assert (forall y, y ∈ rest.*1 -> y ∉ ys.*1) as Hdis0 by (intros y Hy; apply Hdis; rewrite fmap_cons; by apply elem_of_cons; right).
  destruct (other_list_frame h (Some p) rest None ys h1 (ys ++ [(x, v')]) Hs Hdis0 Hm1) as [Hs1 Hdis1].
  specialize (IH fuel h1 c1 (Some p) (ys ++ [(x, v')]) Hs1 ltac:(simpl in Hf; lia) Hr1 Hdis1 (mem_step_trans _ _ _ _ _ _ Hm Hm1) ltac:(zcount)).
  assert (forall u, dup_value c1 u = dup_value copy u) as Edv by (intros u; unfold dup_value; by rewrite Ed).
  rewrite (mapM_ext _ (dup_value copy) _ Edv) in IH. destruct (mapM (dup_value copy) rest.*2) as [vs|]; cbn [mbind option_bind] in *.
  - destruct IH as (h' & copy' & zs & E & Hr' & <- & Hm' & Ed' & Ef' & Em'). exists h', copy', ((x, v') :: zs).
    rewrite <- app_assoc in Hr', Hm'. split_and!; try done; congruence.
  - done.
Qed.

Lemma listDup_rep h o xs :
  list_rep h o xs ->
  match mapM (dup_value o) xs.*2 with
  | Some vs => exists h' copy zs, listDup h o = Some (h', Some copy) /\ list_rep h' copy zs /\ zs.*2 = vs /\
      list_rep h' o xs /\ (forall x, x ∈ xs.*1 -> x ∉ zs.*1) /\ mem_step h [] h' zs /\
      dup copy = dup o /\ has_free copy = has_free o /\ match_ copy = match_ o
  | None => listDup h o = Some (h, None)
  end.
Proof.
  intros Hr. unfold listDup, listRewind. rewrite (lr_head _ _ _ Hr).
  set (c0 := mk_list None None (dup o) (has_free o) (match_ o) 0).
  assert (list_rep h c0 []) as Hr0 by (constructor; try done; constructor).
  pose proof (dup_loop_spec h xs (base.size h) h c0 None [] (lr_seg _ _ _ Hr)
    (seg_size _ _ _ _ (lr_seg _ _ _ Hr) (lr_nodup _ _ _ Hr)) Hr0 ltac:(set_solver) (mem_step_refl _ _)
    ltac:(pose proof (lr_fits _ _ _ Hr); zcount)) as Hl.
  change (dup_value c0) with (dup_value o) in Hl. destruct (mapM (dup_value o) xs.*2) as [vs|]; [|done].
  destruct Hl as (h' & copy & zs & E & Hr' & Ev & Hm & Ed & Ef & Em). exists h', copy, zs.
  destruct (other_list_frame h None xs None [] h' zs (lr_seg _ _ _ Hr) ltac:(set_solver) Hm) as [Hs' Hdis].
  split_and!; try done. destruct Hr. by constructor.
Qed.

(** ** Iteration

    The usage pattern that the header of [listNext] documents: visit every
    node, deleting the current one when [del] says so.  The values visited
    come back in order. *)
Fixpoint iterate (fuel : nat) (h : heap) (l : list_t) (it : listIter) (del : V -> bool) : option (heap * list_t * list V) :=
  '(it, node) ← listNext h it;
  match node with
  | None => Some (h, l, [])
  | Some node =>
    match fuel with
    | O => None
    | S fuel =>
      n ← h !! node;
      '(h, l) ← (if del (value n) then '(h, l, _) ← listDelNode h l node; Some (h, l) else Some (h, l));
      '(h, l, vs) ← iterate fuel h l it del;
      Some (h, l, value n :: vs)
    end
  end.

Definition keep (del : V -> bool) xs : nodes := filter (fun n => del n.2 = false) xs.

(** One visit in either direction. *)
Lemma visit_step h l (del : V -> bool) A p v B :
  list_rep h l (A ++ (p, v) :: B) ->
  exists h' l', (if del v then '(h, l, _) ← listDelNode h l p; Some (h, l) else Some (h, l)) = Some (h', l') /\
    list_rep h' l' (A ++ keep del [(p, v)] ++ B).
Proof.
  intros Hr. unfold keep. destruct (del v) eqn:Ed.
  - rewrite filter_cons_False by (simpl; congruence). destruct (listDelNode_rep h l A p v B Hr) as (h' & l' & -> & Hr' & _). eauto.
  - rewrite filter_cons_True by done. eauto.
Qed.

Lemma iterate_head del B : forall fuel h l A,
  list_rep h l (A ++ B) -> (length B <= fuel)%nat ->
  exists h' l', iterate fuel h l (mk_iter (first_ptr B None) AL_START_HEAD) del = Some (h', l', B.*2) /\ list_rep h' l' (A ++ keep del B).
Proof.
  induction B as [|[p v] B IH]; intros fuel h l A Hr Hf.
  { exists h, l. split; [by destruct fuel|done]. }
  destruct fuel as [|fuel]; [simpl in Hf; lia|]. cbn [iterate]. pose proof (lr_seg _ _ _ Hr) as Hs. apply seg_app in Hs as [_ Hs].
  rewrite (listNext_head _ _ _ _ _ Hs). cbn [mbind option_bind]. destruct Hs as [Hp _]. rewrite Hp. cbn [mbind option_bind value].
  destruct (visit_step h l del A p v B Hr) as (h1 & l1 & -> & Hr1). cbn [mbind option_bind]. rewrite app_assoc in Hr1.
  destruct (IH fuel h1 l1 _ Hr1 ltac:(simpl in Hf; lia)) as (h' & l' & -> & Hr'). cbn [mbind option_bind]. exists h', l'. split; [done|].
  unfold keep in *. change ((p, v) :: B) with ([(p, v)] ++ B). rewrite filter_app, app_assoc. done.
Qed.

Lemma iterate_tail del A : forall fuel h l B,
  list_rep h l (A ++ B) -> (length A <= fuel)%nat ->
  exists h' l', iterate fuel h l (mk_iter (last_ptr None A) AL_START_TAIL) del = Some (h', l', reverse A.*2) /\ list_rep h' l' (keep del A ++ B).
Proof.
  induction A as [|[p v] A IH] using rev_ind; intros fuel h l B Hr Hf.
  { exists h, l. split; [by destruct fuel|done]. }
  rewrite length_app in Hf. simpl in Hf. destruct fuel as [|fuel]; [lia|]. rewrite <- app_assoc in Hr. simpl app in Hr.
  rewrite last_ptr_app. change (last_ptr (last_ptr None A) [(p, v)]) with (Some p). cbn [iterate listNext it_next it_direction].
  rewrite (seg_lookup _ _ _ _ _ _ _ (lr_seg _ _ _ Hr)). cbn [mbind option_bind prev value].
  rewrite (seg_lookup _ _ _ _ _ _ _ (lr_seg _ _ _ Hr)). cbn [mbind option_bind prev value].
  destruct (visit_step h l del A p v B Hr) as (h1 & l1 & -> & Hr1). cbn [mbind option_bind].
  destruct (IH fuel h1 l1 _ Hr1 ltac:(lia)) as (h' & l' & -> & Hr'). cbn [mbind option_bind]. exists h', l'.
  rewrite fmap_app, reverse_app. split; [done|]. unfold keep in *. by rewrite filter_app, <- app_assoc.
Qed.

(** ** Sequences of operations on one list *)

Inductive lop :=
| LAddHead (v : V)
| LAddTail (v : V)
| LInsert (index : Z) (v : V) (after : bool)
| LDelete (index : Z)
| LRotate
| LJoin (vs : list V)
| LSearch (key : V)
| LIndex (index : Z)
| LEmpty.

(** Answers: the value found by a search or an index. *)
Definition read_value (h : heap) (node : option positive) : option (option V) :=
  match node with None => Some None | Some x => n ← h !! x; Some (Some (value n)) end.

Fixpoint add_all (h : heap) (l : list_t) (vs : list V) : option (heap * list_t) :=
  match vs with
  | [] => Some (h, l)
  | v :: vs => '(h, l) ← listAddNodeTail h l v; add_all h l vs
  end.

Definition run_lop (h : heap) (l : list_t) (o : lop) : option (heap * list_t * option V) :=
  match o with
  | LAddHead v => '(h, l) ← listAddNodeHead h l v; Some (h, l, None)
  | LAddTail v => '(h, l) ← listAddNodeTail h l v; Some (h, l, None)
  | LInsert i v after =>
    node ← listIndex h l i;
    match node with
    | None => Some (h, l, None)
    | Some x => '(h, l) ← listInsertNode h l x v after; Some (h, l, None)
    end
  | LDelete i =>
    node ← listIndex h l i;
    match node with
    | None => Some (h, l, None)
    | Some x => '(h, l, _) ← listDelNode h l x; Some (h, l, None)
    end
  | LRotate => '(h, l) ← listRotate h l; Some (h, l, None)
  | LJoin vs => '(h, o) ← add_all h listCreate vs; '(h, l, _) ← listJoin h l o; Some (h, l, None)
  | LSearch key => node ← listSearchKey h l key; r ← read_value h node; Some (h, l, r)
  | LIndex i => node ← listIndex h l i; r ← read_value h node; Some (h, l, r)
  | LEmpty => '(h, l, _) ← listEmpty h l; Some (h, l, None)
  end.

Definition at_index (vs : list V) (index : Z) : option nat :=
  let i := norm_index (zlen vs) index in
  if (i <? 0) || (zlen vs <=? i) then None else Some (Z.to_nat i).

(** The same operations on a list of values; [None] when the length would
    not fit its counter. *)
Definition spec_lop (eqv : V -> V -> bool) (vs : list V) (o : lop) : option (list V * option V) :=
  let room (k : Z) (r : list V * option V) := if zlen vs + k <? 2 ^ 64 then Some r else None in
  match o with
  | LAddHead v => room 1 (v :: vs, None)
  | LAddTail v => room 1 (vs ++ [v], None)
  | LInsert i v after =>
    match at_index vs i with
    | None => Some (vs, None)
    | Some k => room 1 (insert_at (if after then S k else k) v vs, None)
    end
  | LDelete i => Some (match at_index vs i with None => vs | Some k => remove_at k vs end, None)
  | LRotate => Some (match last vs with None => [] | Some v => v :: take (length vs - 1) vs end, None)
  | LJoin ws => room (zlen ws) (vs ++ ws, None)
  | LSearch key => Some (vs, List.find (fun v => eqv v key) vs)
  | LIndex i => Some (vs, at_index vs i ≫= fun k => vs !! k)
  | LEmpty => Some ([], None)
  end.

Fixpoint run_lops (h : heap) (l : list_t) (ops : list lop) : option (heap * list_t * list (option V)) :=
  match ops with
  | [] => Some (h, l, [])
  | o :: ops => '(h, l, r) ← run_lop h l o; '(h, l, rs) ← run_lops h l ops; Some (h, l, r :: rs)
  end.

Fixpoint spec_lops (eqv : V -> V -> bool) (vs : list V) (ops : list lop) : option (list V * list (option V)) :=
  match ops with
  | [] => Some (vs, [])
  | o :: ops => '(vs, r) ← spec_lop eqv vs o; '(vs, rs) ← spec_lops eqv vs ops; Some (vs, r :: rs)
  end.

Definition eqv_of (m : option (V -> V -> bool)) (v key : V) : bool :=
  match m with Some m => m v key | None => bool_decide (key = v) end.

Lemma add_all_rep vs : forall h o xs,
  list_rep h o xs -> zlen xs + zlen vs < 2 ^ 64 ->
  exists h' o' zs, add_all h o vs = Some (h', o') /\ list_rep h' o' (xs ++ zs) /\ zs.*2 = vs /\ mem_step h xs h' (xs ++ zs).
Proof.
  induction vs as [|v vs IH]; intros h o xs Hr Hf.
  { exists h, o, []. rewrite app_nil_r. split_and!; try done. }
  destruct (listAddNodeTail_rep h o xs v Hr ltac:(zcount)) as (h1 & o1 & x & E & Hr1 & _ & _ & _ & Hm1). cbn [add_all]. rewrite E. cbn [mbind option_bind].
  destruct (IH h1 o1 _ Hr1 ltac:(zcount)) as (h' & o' & zs & E' & Hr' & <- & Hm'). exists h', o', ((x, v) :: zs).
  rewrite <- app_assoc in Hr', Hm'. split_and!; try done. by eapply mem_step_trans.
Qed.

Lemma at_index_Some xs i : match at_index xs.*2 i with
  | Some k => exists A p v B, xs = A ++ (p, v) :: B /\ length A = k /\
      (if norm_index (zlen xs) i <? 0 then None else fst <$> xs !! Z.to_nat (norm_index (zlen xs) i)) = Some p
  | None => (if norm_index (zlen xs) i <? 0 then None else fst <$> xs !! Z.to_nat (norm_index (zlen xs) i)) = None
  end.
Proof.
  unfold at_index. replace (zlen xs.*2) with (zlen xs) by (unfold zlen; by rewrite length_fmap).
  destruct (Z.ltb_spec (norm_index (zlen xs) i) 0); [done|]. destruct (Z.leb_spec (zlen xs) (norm_index (zlen xs) i)); simpl.
  - rewrite lookup_ge_None_2; [done|]. unfold zlen in *. lia.
  - set (k := Z.to_nat (norm_index (zlen xs) i)). destruct (lookup_lt_is_Some_2 xs k) as [[p v] E]; [unfold zlen in *; lia|].
    rewrite E. apply list_elem_of_split_length in E as (A & B & EL & El). exists A, p, v, B. split_and!; [done|done|done].
Qed.

Lemma find_values m key xs : List.find (fun v => eqv_of m v key) xs.*2 = snd <$> List.find (fun n => eqv_of m n.2 key) xs.
Proof. induction xs as [|[p v] xs IH]; [done|]. rewrite fmap_cons. cbn [List.find snd]. destruct (eqv_of m v key); [done|]. apply IH. Qed.

Lemma read_found h l xs (f : positive * V -> bool) : list_rep h l xs ->
  read_value h (fst <$> List.find f xs) = Some (snd <$> List.find f xs).
Proof.
  intros Hr. destruct (List.find f xs) as [[p v]|] eqn:E; [|done]. apply List.find_some in E as [Hin _].
  apply list_elem_of_In, list_elem_of_split in Hin as (A & B & ->). simpl. by rewrite (seg_lookup _ _ _ _ _ _ _ (lr_seg _ _ _ Hr)).
Qed.

Lemma values_insert A (p : positive) (w : V) B x v (after : bool) :
  (A ++ (if after then [(p, w); (x, v)] else [(x, v); (p, w)]) ++ B).*2
    = insert_at (if after then S (length A) else length A) v (A ++ (p, w) :: B).*2.
Proof.
  unfold insert_at. rewrite !fmap_app. destruct after.
  - rewrite take_app_ge, drop_app_ge by (rewrite length_fmap; lia). rewrite length_fmap, Nat.sub_succ_l, Nat.sub_diag by lia.
    simpl. rewrite <- app_assoc. done.
  - rewrite take_app_length', drop_app_length' by by rewrite length_fmap. done.
Qed.

Lemma values_remove A (p : positive) (v : V) B : (A ++ B).*2 = remove_at (length A) (A ++ (p, v) :: B).*2.
Proof.
  unfold remove_at. rewrite !fmap_app. rewrite take_app_length' by by rewrite length_fmap.
  rewrite drop_app_ge by (rewrite length_fmap; lia). rewrite length_fmap, Nat.sub_succ_l, Nat.sub_diag by lia. done.
Qed.

Lemma run_lop_refines h l xs o vs' r :
  list_rep h l xs -> spec_lop (eqv_of (match_ l)) xs.*2 o = Some (vs', r) ->
  exists h' l' xs', run_lop h l o = Some (h', l', r) /\ list_rep h' l' xs' /\ xs'.*2 = vs' /\ mem_step h xs h' xs' /\
    match_ l' = match_ l /\ has_free l' = has_free l.
Proof.
  intros Hr. assert (zlen xs.*2 = zlen xs) as Ez by (unfold zlen; by rewrite length_fmap).
  destruct o as [v|v|i v after|i| |ws|key|i|]; cbn [spec_lop run_lop]; rewrite ?Ez.
  - destruct (Z.ltb_spec (zlen xs + 1) (2 ^ 64)); [|done]. intros [= <- <-].
    destruct (listAddNodeHead_rep h l xs v Hr) as (h' & l' & x & -> & Hr' & ? & ? & ? & Hm); [lia|]. cbn [mbind option_bind]. eauto 10.
  - destruct (Z.ltb_spec (zlen xs + 1) (2 ^ 64)); [|done]. intros [= <- <-].
    destruct (listAddNodeTail_rep h l xs v Hr) as (h' & l' & x & -> & Hr' & ? & ? & ? & Hm); [lia|]. cbn [mbind option_bind].
    do 3 eexists. split; [done|]. split_and!; try done. by rewrite fmap_app.
  - rewrite (listIndex_rep h l xs i Hr). cbn [mbind option_bind]. pose proof (at_index_Some xs i) as Hi.
    destruct (at_index xs.*2 i) as [k|].
    + destruct (Z.ltb_spec (zlen xs + 1) (2 ^ 64)) as [Hf|]; [|done]. intros [= <- <-].
      destruct Hi as (A & p & w & B & -> & <- & ->). cbv iota.
      destruct (listInsertNode_rep h l A p w B v after Hr Hf) as (h' & l' & x & -> & Hr' & ? & ? & ? & Hm). cbn [mbind option_bind].
      do 3 eexists. split; [done|]. split_and!; try done. apply values_insert.
    + rewrite Hi. cbv iota. intros [= <- <-]. do 3 eexists. split; [done|]. split_and!; try done.
  - rewrite (listIndex_rep h l xs i Hr). cbn [mbind option_bind]. pose proof (at_index_Some xs i) as Hi.
    intros [= <- <-]. destruct (at_index xs.*2 i) as [k|].
    + destruct Hi as (A & p & w & B & -> & <- & ->). cbv iota.
      destruct (listDelNode_rep h l A p w B Hr) as (h' & l' & -> & Hr' & ? & ? & ? & Hm). cbn [mbind option_bind].
      do 3 eexists. split; [done|]. split_and!; try done. apply values_remove.
    + rewrite Hi. cbv iota. do 3 eexists. split; [done|]. split_and!; try done.
  - intros [= <- <-]. destruct xs as [|[t v] A _] using rev_ind.
    + unfold listRotate. rewrite (lr_len _ _ _ Hr). simpl. do 3 eexists. split; [done|]. split_and!; try done.
    + destruct (listRotate_rep h l A t v Hr) as (h' & l' & -> & Hr' & ? & ? & ? & Hm). cbn [mbind option_bind].
      do 3 eexists. split; [done|]. split_and!; try done. rewrite fmap_app. simpl. rewrite last_snoc. f_equal.
      rewrite length_app. simpl. rewrite Nat.add_sub. by rewrite take_app_length.
  - destruct (Z.ltb_spec (zlen xs + zlen ws) (2 ^ 64)) as [Hf|]; [|done]. intros [= <- <-].
    assert (list_rep h listCreate []) as Hr0 by (constructor; try done; constructor).
    destruct (add_all_rep ws h listCreate [] Hr0) as (h1 & o & zs & -> & Hro & <- & Hm1); [pose proof (zlen_nonneg xs); zcount|].
    cbn [mbind option_bind]. simpl app in *.
    destruct (other_list_frame h None xs None [] h1 zs (lr_seg _ _ _ Hr) ltac:(set_solver) Hm1) as [Hs1 Hdis].
    assert (list_rep h1 l xs) as Hr1 by (destruct Hr; by constructor).
    assert (zlen zs = zlen zs.*2) as Ezs by (unfold zlen; by rewrite length_fmap).
    destruct (listJoin_rep h1 l o xs zs Hr1 Hro Hdis ltac:(lia)) as (h2 & l' & o' & -> & Hr' & _ & ? & ? & ? & Hm2). cbn [mbind option_bind].
    do 3 eexists. split; [done|]. split_and!; try done; [by rewrite fmap_app|]. eapply mem_step_trans; [|exact Hm2].
    destruct Hm1 as [F D N]. constructor; intros x; rewrite fmap_app, elem_of_app; intros G1 G2; [apply F; set_solver|tauto|apply N; set_solver].
  - rewrite (listSearchKey_rep h l xs key Hr). cbn [mbind option_bind]. rewrite (read_found h l xs _ Hr). cbn [mbind option_bind].
    intros [= <- <-]. do 3 eexists. split; [by rewrite find_values|]. split_and!; try done.
  - rewrite (listIndex_rep h l xs i Hr). cbn [mbind option_bind]. intros [= <- <-]. pose proof (at_index_Some xs i) as Hi.
    destruct (at_index xs.*2 i) as [k|].
    + destruct Hi as (A & p & w & B & -> & <- & ->). simpl. rewrite (seg_lookup _ _ _ _ _ _ _ (lr_seg _ _ _ Hr)). cbn [mbind option_bind].
      do 3 eexists. split; [|split_and!; done]. repeat f_equal. by rewrite list_lookup_fmap, lookup_app_r, Nat.sub_diag by lia.
    + rewrite Hi. simpl. do 3 eexists. split; [done|]. split_and!; try done.
  - intros [= <- <-]. destruct (listEmpty_rep h l xs Hr) as (h' & l' & -> & Hr' & ? & ? & ? & Hm). cbn [mbind option_bind].
    do 3 eexists. split; [done|]. split_and!; try done.
Qed.

Lemma run_lops_refine ops : forall h l xs vs' rs,
  list_rep h l xs -> spec_lops (eqv_of (match_ l)) xs.*2 ops = Some (vs', rs) ->
  exists h' l' xs', run_lops h l ops = Some (h', l', rs) /\ list_rep h' l' xs' /\ xs'.*2 = vs' /\ mem_step h xs h' xs' /\
    has_free l' = has_free l.
Proof.
  induction ops as [|o ops IH]; intros h l xs vs' rs Hr E.
  { simpl in E. injection E as <- <-. exists h, l, xs. split_and!; try done. }
  simpl in E. destruct (spec_lop (eqv_of (match_ l)) xs.*2 o) as [[vs1 r]|] eqn:E1; [|done]. cbn [mbind option_bind] in E.
  destruct (spec_lops _ vs1 ops) as [[vs2 rs']|] eqn:E2; [|done]. cbn [mbind option_bind] in E. injection E as <- <-.
  destruct (run_lop_refines h l xs o vs1 r Hr E1) as (h1 & l1 & xs1 & R1 & Hr1 & <- & Hm1 & Em & Ef).
  rewrite <- Em in E2. destruct (IH h1 l1 xs1 vs2 rs' Hr1 E2) as (h2 & l2 & xs2 & R2 & Hr2 & <- & Hm2 & Ef2).
  exists h2, l2, xs2. cbn [run_lops]. rewrite R1. cbn [mbind option_bind]. rewrite R2. cbn [mbind option_bind].
  split_and!; try done; [by eapply mem_step_trans|congruence].
Qed.

End Adlist.

Arguments listNode : clear implicits.
Arguments list_t : clear implicits.
Arguments lop : clear implicits.

(** ** Claims *)

(** C16 A doubly linked list refines a list of values: from an empty list with
    any methods set, every sequence of additions at both ends, insertions
    before or after a node found by a (possibly negative) index, deletions,
    rotations, concatenations with another list, searches, index reads and
    clears follows valid links only, answers as the list of values does and
    leaves consistent forward and back links, ends and length; releasing the
    list afterwards passes its values to the free method in order and gives
    back exactly the memory that was in use before. *)
Theorem adlist_refines_list {V} `{EqDecision V} (h : gmap positive (listNode V)) (l : list_t V) (ops : list (lop V))
    (vs : list V) (rs : list (option V)) :
  head l = None -> tail l = None -> len l = 0 -> spec_lops (eqv_of (match_ l)) [] ops = Some (vs, rs) ->
  exists h' l' xs, run_lops h l ops = Some (h', l', rs) /\ list_rep h' l' xs /\ xs.*2 = vs /\
    listRelease h' l' = Some (h, if has_free l then vs else []).
Proof.
  intros Eh Et El E. assert (list_rep h l []) as Hr by (constructor; simpl; try done; constructor).
  destruct (run_lops_refine ops h l [] vs rs Hr E) as (h' & l' & xs & R & Hr' & <- & Hm & Ef).
  exists h', l', xs. split_and!; try done. rewrite (listRelease_rep h h' l' xs Hr' Hm). by rewrite Ef.
Qed.

Definition demo_lops : list (lop Z) :=
  [LAddTail 1; LAddHead 2; LInsert (-1) 3 true; LRotate; LJoin [7; 8]; LDelete 1; LSearch 7; LIndex (-1)].

Lemma adlist_refines_list_witness :
  spec_lops (eqv_of None) [] demo_lops = Some ([3; 1; 7; 8], [None; None; None; None; None; None; Some 7; Some 8]) /\
  exists h' l' xs, run_lops ∅ listCreate demo_lops = Some (h', l', [None; None; None; None; None; None; Some 7; Some 8]) /\
    list_rep h' l' xs /\ xs.*2 = [3; 1; 7; 8] /\ listRelease h' l' = Some (∅, []).
Proof.
  split; [vm_compute; reflexivity|].
  apply (adlist_refines_list ∅ (listCreate (V := Z)) demo_lops); [done|done|done|vm_compute; reflexivity].
Defined.

(** Iterating with [listNext] in either direction visits every value once
    and in order, also when the loop deletes the node it has just been
    given; the nodes not deleted stay, in order. *)
Theorem listNext_visits_all {V} `{EqDecision V} (h : gmap positive (listNode V)) (l : list_t V) (xs : list (positive * V))
    (del : V -> bool) :
  list_rep h l xs ->
  (exists h' l', iterate (length xs) h l (listGetIterator l AL_START_HEAD) del = Some (h', l', xs.*2) /\
     list_rep h' l' (filter (fun n => del n.2 = false) xs)) /\
  (exists h' l', iterate (length xs) h l (listGetIterator l AL_START_TAIL) del = Some (h', l', reverse xs.*2) /\
     list_rep h' l' (filter (fun n => del n.2 = false) xs)).
Proof.
  intros Hr. unfold listGetIterator. rewrite (lr_head _ _ _ Hr), (lr_tail _ _ _ Hr). split.
  - apply (iterate_head del xs (length xs) h l []); done.
  - rewrite <- (app_nil_r xs) in Hr. destruct (iterate_tail del xs (length xs) h l [] Hr) as (h' & l' & E & Hr'); [done|].
    rewrite app_nil_r in Hr'. eauto.
Qed.

Definition demo_nodes : gmap positive (listNode Z) :=
  {[ 1%positive := mk_listNode None (Some 2%positive) 10; 2%positive := mk_listNode (Some 1%positive) (Some 3%positive) 21;
     3%positive := mk_listNode (Some 2%positive) None 30 ]}.
Definition demo_list : list_t Z := mk_list (Some 1%positive) (Some 3%positive) None false None 3.

Lemma demo_list_rep : list_rep demo_nodes demo_list [(1%positive, 10); (2%positive, 21); (3%positive, 30)].
Proof. constructor; try (vm_compute; tauto || reflexivity). by apply (bool_decide_unpack _). Qed.

Lemma listNext_visits_all_witness :
  (exists h' l', iterate 3 demo_nodes demo_list (listGetIterator demo_list AL_START_HEAD) Z.odd = Some (h', l', [10; 21; 30]) /\
     list_rep h' l' [(1%positive, 10); (3%positive, 30)]) /\
  (exists h' l', iterate 3 demo_nodes demo_list (listGetIterator demo_list AL_START_TAIL) Z.odd = Some (h', l', [30; 21; 10]) /\
     list_rep h' l' [(1%positive, 10); (3%positive, 30)]).
Proof. exact (listNext_visits_all demo_nodes demo_list _ Z.odd demo_list_rep). Defined.

(** C35 [listDup] returns a separate list with the same methods and the values
    passed through the dup method, the original being unchanged; when the
    dup method fails on some value it returns NULL, and the heap is what it
    was before the call. *)
Theorem listDup_correct {V} `{EqDecision V} (h : gmap positive (listNode V)) (o : list_t V) (xs : list (positive * V)) :
  list_rep h o xs ->
  match mapM (dup_value o) xs.*2 with
  | Some vs => exists h' copy zs, listDup h o = Some (h', Some copy) /\ list_rep h' copy zs /\ zs.*2 = vs /\
      list_rep h' o xs /\ (forall x, x ∈ xs.*1 -> x ∉ zs.*1) /\ mem_step h [] h' zs /\
      dup copy = dup o /\ has_free copy = has_free o /\ match_ copy = match_ o
  | None => listDup h o = Some (h, None)
  end.
Proof. apply listDup_rep. Qed.

Lemma listDup_correct_witness :
  exists h' copy zs, listDup demo_nodes demo_list = Some (h', Some copy) /\ list_rep h' copy zs /\ zs.*2 = [10; 21; 30] /\
    list_rep h' demo_list [(1%positive, 10); (2%positive, 21); (3%positive, 30)] /\
    (forall x, x ∈ [1%positive; 2%positive; 3%positive] -> x ∉ zs.*1) /\ mem_step demo_nodes [] h' zs /\
    dup copy = None /\ has_free copy = false /\ match_ copy = None.
Proof. exact (listDup_correct demo_nodes demo_list _ demo_list_rep). Defined.
