(* ===== verification/Ziplist.v ===== *)
(** * Ziplists ([ziplist.c])

    The packed list encoding: one allocation holding a header (total bytes,
    offset of the last entry, number of entries), the entries, each prefixed
    by the length of the entry before it in one or five bytes, and a
    terminator.  A ziplist is the list of its bytes, a pointer into it an
    offset, and every access is checked: an operation returns [None] when it
    would touch memory outside the allocation, reach a [panic] or an
    assertion, or shift into the sign bit.  The host's byte order and the
    contents of fresh memory are arguments. *)

From S2P Require Import Prelude Endianconv Numstr.
From stdpp Require Import options.

Definition ZIP_END : Z := 255.
Definition ZIP_BIG_PREVLEN : Z := 254.
Definition ZIP_STR_MASK : Z := 0xc0.
Definition ZIP_STR_06B : Z := 0.
Definition ZIP_STR_14B : Z := Z.shiftl 1 6.
Definition ZIP_STR_32B : Z := Z.shiftl 2 6.
Definition ZIP_INT_16B : Z := Z.lor 0xc0 (Z.shiftl 0 4).
Definition ZIP_INT_32B : Z := Z.lor 0xc0 (Z.shiftl 1 4).
Definition ZIP_INT_64B : Z := Z.lor 0xc0 (Z.shiftl 2 4).
Definition ZIP_INT_24B : Z := Z.lor 0xc0 (Z.shiftl 3 4).
Definition ZIP_INT_8B : Z := 0xfe.
Definition ZIP_INT_IMM_MASK : Z := 0x0f.
Definition ZIP_INT_IMM_MIN : Z := 0xf1.
Definition ZIP_INT_IMM_MAX : Z := 0xfd.
Definition INT24_MAX : Z := 0x7fffff.
Definition INT24_MIN : Z := - INT24_MAX - 1.
Definition UINT16_MAX : Z := 65535.
Definition ZIPLIST_HEADER_SIZE : Z := 10.
Definition ZIPLIST_END_SIZE : Z := 1.

Definition ZIP_IS_STR (enc : Z) : bool := Z.land enc ZIP_STR_MASK <? ZIP_STR_MASK.

Record zlentry := mk_zlentry {
  prevrawlensize : Z;
  prevrawlen : Z;
  lensize : Z;
  zle_len : Z;
  headersize : Z;
  zle_encoding : Z;
  zle_p : Z;
}.

(** One byte, [zl[p]]. *)
Definition byte_at (zl : list Z) (p : Z) : option Z :=
  if 0 <=? p then zl !! Z.to_nat p else None.

Definition zipIntSize (encoding : Z) : option Z :=
  if encoding =? ZIP_INT_8B then Some 1
  else if encoding =? ZIP_INT_16B then Some 2
  else if encoding =? ZIP_INT_24B then Some 3
  else if encoding =? ZIP_INT_32B then Some 4
  else if encoding =? ZIP_INT_64B then Some 8
  else if (encoding >=? ZIP_INT_IMM_MIN) && (encoding <=? ZIP_INT_IMM_MAX) then Some 0
  else None.

(** The bytes [zipStoreEntryEncoding] prepares in [buf]. *)
Definition encoding_buf (encoding rawlen : Z) : list Z :=
  if ZIP_IS_STR encoding then
    if rawlen <=? 0x3f then [Z.lor ZIP_STR_06B rawlen]
    else if rawlen <=? 0x3fff then
      [Z.lor ZIP_STR_14B (Z.land (Z.shiftr rawlen 8) 0x3f); Z.land rawlen 0xff]
    else
      [ZIP_STR_32B; Z.land (Z.shiftr rawlen 24) 0xff; Z.land (Z.shiftr rawlen 16) 0xff;
       Z.land (Z.shiftr rawlen 8) 0xff; Z.land rawlen 0xff]
  else [encoding].

(** [zipStoreEntryEncoding] with [p == NULL], and with a pointer. *)
Definition zipStoreEntryEncoding_size (encoding rawlen : Z) : Z :=
  if ZIP_IS_STR encoding then
    if rawlen <=? 0x3f then 1 else if rawlen <=? 0x3fff then 1 + 1 else 1 + 4
  else 1.

Definition zipStoreEntryEncoding (zl : list Z) (p encoding rawlen : Z) : option (list Z * Z) :=
  let buf := encoding_buf encoding rawlen in
  zl ← mwrite zl p buf; Some (zl, zlen buf).

(** [ZIP_DECODE_LENGTH]: the encoding, the size of the length field and the
    length.  [ptr[1] << 24] is undefined when it reaches the sign bit. *)
Definition ZIP_DECODE_LENGTH (zl : list Z) (ptr : Z) : option (Z * Z * Z) :=
  c0 ← byte_at zl ptr;
  let encoding := if c0 <? ZIP_STR_MASK then Z.land c0 ZIP_STR_MASK else c0 in
  if encoding <? ZIP_STR_MASK then
    if encoding =? ZIP_STR_06B then Some (encoding, 1, Z.land c0 0x3f)
    else if encoding =? ZIP_STR_14B then
      c1 ← byte_at zl (ptr + 1);
      Some (encoding, 2, Z.lor (Z.shiftl (Z.land c0 0x3f) 8) c1)
    else if encoding =? ZIP_STR_32B then
      c1 ← byte_at zl (ptr + 1); c2 ← byte_at zl (ptr + 2);
      c3 ← byte_at zl (ptr + 3); c4 ← byte_at zl (ptr + 4);
      if c1 >=? 128 then None else
      Some (encoding, 5,
            Z.lor (Z.lor (Z.lor (Z.shiftl c1 24) (Z.shiftl c2 16)) (Z.shiftl c3 8)) c4)
    else None
  else
    len ← zipIntSize encoding; Some (encoding, 1, len).

Definition zipStorePrevEntryLength_size (len : Z) : Z :=
  if len <? ZIP_BIG_PREVLEN then 1 else 5.

Definition ZIP_DECODE_PREVLENSIZE (zl : list Z) (ptr : Z) : option Z :=
  c ← byte_at zl ptr; Some (if c <? ZIP_BIG_PREVLEN then 1 else 5).

Definition zipPrevLenByteDiff (zl : list Z) (p len : Z) : option Z :=
  prevlensize ← ZIP_DECODE_PREVLENSIZE zl p;
  Some (zipStorePrevEntryLength_size len - prevlensize).

Definition zipRawEntryLength (zl : list Z) (p : Z) : option Z :=
  prevlensize ← ZIP_DECODE_PREVLENSIZE zl p;
  '(_, lsize, len) ← ZIP_DECODE_LENGTH zl (p + prevlensize);
  Some (uwrap 32 (prevlensize + lsize + len)).

(** The value and its encoding, or [None] when the string is no integer. *)
Definition zipTryEncoding (entry : list Z) : option (Z * Z) :=
  if (zlen entry >=? 32) || (zlen entry =? 0) then None else
  value ← string2ll entry;
  Some (value,
    if (value >=? 0) && (value <=? 12) then ZIP_INT_IMM_MIN + value
    else if (value >=? -128) && (value <=? 127) then ZIP_INT_8B
    else if (value >=? -32768) && (value <=? 32767) then ZIP_INT_16B
    else if (value >=? INT24_MIN) && (value <=? INT24_MAX) then ZIP_INT_24B
    else if (value >=? -2147483648) && (value <=? 2147483647) then ZIP_INT_32B
    else ZIP_INT_64B).

Section Ziplist.
Context (host : byte_order) (junk : nat -> Z).

(** ** Header fields *)

Definition ZIPLIST_BYTES (zl : list Z) : option Z :=
  bs ← mread zl 0 4; Some (native_val host bs).
Definition ZIPLIST_TAIL_OFFSET (zl : list Z) : option Z :=
  bs ← mread zl 4 4; Some (native_val host bs).
Definition ZIPLIST_LENGTH (zl : list Z) : option Z :=
  bs ← mread zl 8 2; Some (native_val host bs).
Definition set_ZIPLIST_BYTES (zl : list Z) (v : Z) : option (list Z) :=
  mwrite zl 0 (native_bytes host 4 v).
Definition set_ZIPLIST_TAIL_OFFSET (zl : list Z) (v : Z) : option (list Z) :=
  mwrite zl 4 (native_bytes host 4 v).
Definition set_ZIPLIST_LENGTH (zl : list Z) (v : Z) : option (list Z) :=
  mwrite zl 8 (native_bytes host 2 v).

Definition ZIPLIST_ENTRY_HEAD : Z := ZIPLIST_HEADER_SIZE.
Definition ZIPLIST_ENTRY_TAIL (zl : list Z) : option Z :=
  t ← ZIPLIST_TAIL_OFFSET zl; Some (intrev32ifbe host t).
Definition ZIPLIST_ENTRY_END (zl : list Z) : option Z :=
  b ← ZIPLIST_BYTES zl; Some (intrev32ifbe host b - 1).

Definition ZIPLIST_INCR_LENGTH (zl : list Z) (incr : Z) : option (list Z) :=
  n ← ZIPLIST_LENGTH zl;
  if n <? UINT16_MAX
  then set_ZIPLIST_LENGTH zl (intrev16ifbe host (uwrap 16 (intrev16ifbe host n + incr)))
  else Some zl.

(** ** Previous lengths and integers *)

Definition zipStorePrevEntryLengthLarge (zl : list Z) (p len : Z) : option (list Z) :=
  zl ← mwrite zl p [ZIP_BIG_PREVLEN];
  zl ← mwrite zl (p + 1) (native_bytes host 4 len);
  x ← mread zl (p + 1) 4; x ← memrev32ifbe host x;
  mwrite zl (p + 1) x.

Definition zipStorePrevEntryLength (zl : list Z) (p len : Z) : option (list Z * Z) :=
  if len <? ZIP_BIG_PREVLEN then zl ← mwrite zl p [len]; Some (zl, 1)
  else zl ← zipStorePrevEntryLengthLarge zl p len; Some (zl, 5).

(** [ZIP_DECODE_PREVLEN]: the size of the field and its value. *)
Definition ZIP_DECODE_PREVLEN (zl : list Z) (ptr : Z) : option (Z * Z) :=
  prevlensize ← ZIP_DECODE_PREVLENSIZE zl ptr;
  if prevlensize =? 1 then c ← byte_at zl ptr; Some (1, c)
  else
    x ← mread zl (ptr + 1) 4; x ← memrev32ifbe host x;
    Some (prevlensize, native_val host x).

(** [memcpy(p,&i,sizeof(i)); memrev*ifbe(p)] *)
Definition store_rev (n : nat) (zl : list Z) (p v : Z) : option (list Z) :=
  zl ← mwrite zl p (native_bytes host n v);
  x ← mread zl p (Z.of_nat n); x ← memrevifbe host n x;
  mwrite zl p x.

Definition load_rev (n : nat) (zl : list Z) (p : Z) : option Z :=
  x ← mread zl p (Z.of_nat n); x ← memrevifbe host n x;
  Some (swrap (8 * Z.of_nat n) (native_val host x)).

Definition zipSaveInteger (zl : list Z) (p value encoding : Z) : option (list Z) :=
  if encoding =? ZIP_INT_8B then mwrite zl p [uwrap 8 value]
  else if encoding =? ZIP_INT_16B then store_rev 2 zl p value
  else if encoding =? ZIP_INT_24B then
    i32 ← memrev32ifbe host (native_bytes host 4 (Z.shiftl value 8));
    mwrite zl p (drop 1 i32)
  else if encoding =? ZIP_INT_32B then store_rev 4 zl p value
  else if encoding =? ZIP_INT_64B then store_rev 8 zl p value
  else if (encoding >=? ZIP_INT_IMM_MIN) && (encoding <=? ZIP_INT_IMM_MAX) then Some zl
  else None.

Definition zipLoadInteger (zl : list Z) (p encoding : Z) : option Z :=
  if encoding =? ZIP_INT_8B then c ← byte_at zl p; Some (swrap 8 c)
  else if encoding =? ZIP_INT_16B then load_rev 2 zl p
  else if encoding =? ZIP_INT_32B then load_rev 4 zl p
  else if encoding =? ZIP_INT_24B then
    x ← mread zl p 3;
    i32 ← memrev32ifbe host (take 1 (native_bytes host 4 0) ++ x);
    Some (Z.shiftr (swrap 32 (native_val host i32)) 8)
  else if encoding =? ZIP_INT_64B then load_rev 8 zl p
  else if (encoding >=? ZIP_INT_IMM_MIN) && (encoding <=? ZIP_INT_IMM_MAX)
  then Some (Z.land encoding ZIP_INT_IMM_MASK - 1)
  else None.

Definition zipEntry (zl : list Z) (p : Z) : option zlentry :=
  '(psize, plen) ← ZIP_DECODE_PREVLEN zl p;
  '(enc, lsize, len) ← ZIP_DECODE_LENGTH zl (p + psize);
  Some (mk_zlentry psize plen lsize len (psize + lsize) enc p).

Definition ziplistNew : option (list Z) :=
  let bytes := ZIPLIST_HEADER_SIZE + ZIPLIST_END_SIZE in
  zl ← set_ZIPLIST_BYTES (mrealloc junk [] bytes) (intrev32ifbe host bytes);
  zl ← set_ZIPLIST_TAIL_OFFSET zl (intrev32ifbe host ZIPLIST_HEADER_SIZE);
  zl ← set_ZIPLIST_LENGTH zl 0;
  mwrite zl (bytes - 1) [ZIP_END].

(** The parameter is an [unsigned int], so a larger size is truncated. *)
Definition ziplistResize (zl : list Z) (size : Z) : option (list Z) :=
  let len := uwrap 32 size in
  let zl := mrealloc junk zl len in
  zl ← set_ZIPLIST_BYTES zl (intrev32ifbe host len);
  mwrite zl (uwrap 32 (len - 1)) [ZIP_END].

(** [ZIPLIST_TAIL_OFFSET(zl) = intrev32ifbe(intrev32ifbe(ZIPLIST_TAIL_OFFSET(zl))+d)] *)
Definition add_tail_offset (zl : list Z) (d : Z) : option (list Z) :=
  t ← ZIPLIST_TAIL_OFFSET zl;
  set_ZIPLIST_TAIL_OFFSET zl (intrev32ifbe host (uwrap 32 (intrev32ifbe host t + d))).

(** ** Cascading updates

    The loop of [__ziplistCascadeUpdate]; an iteration advances by one entry,
    so the size of the buffer bounds their number. *)
Fixpoint cascade_loop (fuel : nat) (zl : list Z) (p curlen : Z) : option (list Z) :=
  match fuel with
  | O => None
  | S fuel =>
    c ← byte_at zl p;
    if c =? ZIP_END then Some zl else
    cur ← zipEntry zl p;
    let rawlen := uwrap 32 (headersize cur + zle_len cur) in
    let rawlensize := zipStorePrevEntryLength_size rawlen in
    c ← byte_at zl (p + rawlen);
    if c =? ZIP_END then Some zl else
    next ← zipEntry zl (p + rawlen);
    if prevrawlen next =? rawlen then Some zl else
    if prevrawlensize next <? rawlensize then
      let extra := rawlensize - prevrawlensize next in
      zl ← ziplistResize zl (curlen + extra);
      let np := p + rawlen in
      t ← ZIPLIST_ENTRY_TAIL zl;
      zl ← (if negb (t =? np) then add_tail_offset zl extra else Some zl);
      zl ← mmove zl (np + rawlensize) (np + prevrawlensize next)
                 (curlen - np - prevrawlensize next - 1);
      '(zl, _) ← zipStorePrevEntryLength zl np rawlen;
      cascade_loop fuel zl (p + rawlen) (curlen + extra)
    else if prevrawlensize next >? rawlensize then
      zipStorePrevEntryLengthLarge zl (p + rawlen) rawlen
    else
      '(zl, _) ← zipStorePrevEntryLength zl (p + rawlen) rawlen; Some zl
  end.

Definition __ziplistCascadeUpdate (zl : list Z) (p : Z) : option (list Z) :=
  curlen ← ZIPLIST_BYTES zl;
  cascade_loop (length zl) zl p (intrev32ifbe host curlen).

(** ** Deletion *)

(** [for (i = 0; p[0] != ZIP_END && i < num; i++)]: the pointer reached and
    the number of entries passed. *)
Fixpoint skip_entries (fuel : nat) (zl : list Z) (p i num : Z) : option (Z * Z) :=
  match fuel with
  | O => None
  | S fuel =>
    c ← byte_at zl p;
    if (c =? ZIP_END) || (i >=? num) then Some (p, i) else
    n ← zipRawEntryLength zl p;
    skip_entries fuel zl (p + n) (i + 1) num
  end.

(** The entry after the deleted ones takes over the previous length of the
    first of them and moves to its place; the change of its size. *)
Definition delete_next (zl : list Z) (first : zlentry) (p totlen : Z) : option (list Z * Z) :=
  nextdiff ← zipPrevLenByteDiff zl p (prevrawlen first);
  let p := p - nextdiff in
  '(zl, _) ← zipStorePrevEntryLength zl p (prevrawlen first);
  zl ← add_tail_offset zl (- totlen);
  tail ← zipEntry zl p;
  c ← byte_at zl (p + headersize tail + zle_len tail);
  zl ← (if negb (c =? ZIP_END) then add_tail_offset zl nextdiff else Some zl);
  b ← ZIPLIST_BYTES zl;
  zl ← mmove zl (zle_p first) p (intrev32ifbe host b - p - 1);
  Some (zl, nextdiff).

(** Delete the bytes from the entry [first] up to [p]. *)
Definition delete_bytes (zl : list Z) (first : zlentry) (p deleted : Z) : option (list Z) :=
  let totlen := uwrap 32 (p - zle_p first) in
  if totlen >? 0 then
    c ← byte_at zl p;
    '(zl, nextdiff) ←
      (if negb (c =? ZIP_END) then delete_next zl first p totlen
       else
         zl ← set_ZIPLIST_TAIL_OFFSET zl
                (intrev32ifbe host (uwrap 32 (zle_p first - prevrawlen first)));
         Some (zl, 0));
    b ← ZIPLIST_BYTES zl;
    zl ← ziplistResize zl (intrev32ifbe host b - totlen + nextdiff);
    zl ← ZIPLIST_INCR_LENGTH zl (- deleted);
    if negb (nextdiff =? 0) then __ziplistCascadeUpdate zl (zle_p first) else Some zl
  else Some zl.

Definition __ziplistDelete (zl : list Z) (p num : Z) : option (list Z) :=
  first ← zipEntry zl p;
  '(p, deleted) ← skip_entries (S (length zl)) zl p 0 num;
  delete_bytes zl first p deleted.

(** ** Insertion *)

(** Length of the entry before the insertion point. *)
Definition insert_prevlen (zl : list Z) (p : Z) : option Z :=
  c ← byte_at zl p;
  if negb (c =? ZIP_END) then
    '(_, prevlen) ← ZIP_DECODE_PREVLEN zl p; Some prevlen
  else
    ptail ← ZIPLIST_ENTRY_TAIL zl;
    ct ← byte_at zl ptail;
    if negb (ct =? ZIP_END) then zipRawEntryLength zl ptail else Some 0.

(** Make room after the resize: move the rest, store the new previous length
    of the next entry and update the offset of the tail. *)
Definition insert_move (zl : list Z) (p curlen reqlen nextdiff : Z) (forcelarge : bool) : option (list Z) :=
  c ← byte_at zl p;
  if negb (c =? ZIP_END) then
    zl ← mmove zl (p + reqlen) (p - nextdiff) (curlen - p - 1 + nextdiff);
    zl ← (if forcelarge then zipStorePrevEntryLengthLarge zl (p + reqlen) (uwrap 32 reqlen)
          else '(zl, _) ← zipStorePrevEntryLength zl (p + reqlen) (uwrap 32 reqlen); Some zl);
    zl ← add_tail_offset zl reqlen;
    tail ← zipEntry zl (p + reqlen);
    c ← byte_at zl (p + reqlen + headersize tail + zle_len tail);
    if negb (c =? ZIP_END) then add_tail_offset zl nextdiff else Some zl
  else set_ZIPLIST_TAIL_OFFSET zl (intrev32ifbe host (uwrap 32 p)).

(** Write the entry itself. *)
Definition insert_write (zl : list Z) (p prevlen encoding value : Z) (s : list Z) : option (list Z) :=
  '(zl, n) ← zipStorePrevEntryLength zl p prevlen;
  let p := p + n in
  '(zl, n) ← zipStoreEntryEncoding zl p encoding (zlen s);
  let p := p + n in
  if ZIP_IS_STR encoding then mwrite zl p s else zipSaveInteger zl p value encoding.

(** From the size of the new entry on: room for the next entry's previous
    length, resize, move, cascade, write. *)
Definition insert_sized (zl : list Z) (p curlen prevlen reqlen encoding value : Z) (s : list Z) : option (list Z) :=
  c ← byte_at zl p;
  nextdiff ← (if negb (c =? ZIP_END) then zipPrevLenByteDiff zl p (uwrap 32 reqlen) else Some 0);
  let forcelarge := (nextdiff =? -4) && (reqlen <? 4) in
  let nextdiff := if forcelarge then 0 else nextdiff in
  zl ← ziplistResize zl (curlen + reqlen + nextdiff);
  zl ← insert_move zl p curlen reqlen nextdiff forcelarge;
  zl ← (if negb (nextdiff =? 0) then __ziplistCascadeUpdate zl (p + reqlen) else Some zl);
  zl ← insert_write zl p prevlen encoding value s;
  ZIPLIST_INCR_LENGTH zl 1.

Definition __ziplistInsert (zl : list Z) (p : Z) (s : list Z) : option (list Z) :=
  let slen := zlen s in
  curlen ← ZIPLIST_BYTES zl;
  let curlen := intrev32ifbe host curlen in
  prevlen ← insert_prevlen zl p;
  let try := zipTryEncoding s in
  let value := (default (123456789, 0) try).1 in
  let encoding := (default (123456789, 0) try).2 in
  reqlen ← (match try with Some _ => zipIntSize encoding | None => Some slen end);
  let reqlen := reqlen + zipStorePrevEntryLength_size prevlen in
  let reqlen := reqlen + zipStoreEntryEncoding_size encoding slen in
  insert_sized zl p curlen prevlen reqlen encoding value s.

(** ** Merging *)

(** Extend the target and copy the source after or before its entries. *)
Definition merge_copy (append : bool) (zl1 zl2 : list Z) (first_bytes second_bytes zlbytes : Z) : option (list Z) :=
  if append then
    src ← mread zl2 ZIPLIST_HEADER_SIZE (second_bytes - ZIPLIST_HEADER_SIZE);
    mwrite (mrealloc junk zl1 zlbytes) (first_bytes - ZIPLIST_END_SIZE) src
  else
    target ← mmove (mrealloc junk zl2 zlbytes) (first_bytes - ZIPLIST_END_SIZE)
                   ZIPLIST_HEADER_SIZE (second_bytes - ZIPLIST_HEADER_SIZE);
    src ← mread zl1 0 (first_bytes - ZIPLIST_END_SIZE);
    mwrite target 0 src.

(** The two input pointers may be null, or equal ([same]).  The result is the
    merged list with the input whose allocation was kept ([true] for
    [first]); the other one is freed. *)
Definition ziplistMerge (same : bool) (first second : option (list Z))
    : option (option (list Z * bool)) :=
  match first, second with
  | Some zl1, Some zl2 =>
    if same then Some None else
    b1 ← ZIPLIST_BYTES zl1; n1 ← ZIPLIST_LENGTH zl1;
    b2 ← ZIPLIST_BYTES zl2; n2 ← ZIPLIST_LENGTH zl2;
    let first_bytes := intrev32ifbe host b1 in
    let first_len := intrev16ifbe host n1 in
    let second_bytes := intrev32ifbe host b2 in
    let second_len := intrev16ifbe host n2 in
    let append := first_len >=? second_len in
    let zlbytes := first_bytes + second_bytes - ZIPLIST_HEADER_SIZE - ZIPLIST_END_SIZE in
    let zllength := first_len + second_len in
    let zllength := if zllength <? UINT16_MAX then zllength else UINT16_MAX in
    first_offset ← ZIPLIST_ENTRY_TAIL zl1;
    second_offset ← ZIPLIST_ENTRY_TAIL zl2;
    target ← merge_copy append zl1 zl2 first_bytes second_bytes zlbytes;
    target ← set_ZIPLIST_BYTES target (intrev32ifbe host (uwrap 32 zlbytes));
    target ← set_ZIPLIST_LENGTH target (intrev16ifbe host zllength);
    target ← set_ZIPLIST_TAIL_OFFSET target
               (intrev32ifbe host (uwrap 32 ((first_bytes - ZIPLIST_END_SIZE) +
                                             (second_offset - ZIPLIST_HEADER_SIZE))));
    target ← __ziplistCascadeUpdate target first_offset;
    Some (Some (target, append))
  | _, _ => Some None
  end.

(** ** Access *)

Inductive where_t := ZIPLIST_HEAD | ZIPLIST_TAIL.

Definition ziplistPush (zl : list Z) (s : list Z) (where_ : where_t) : option (list Z) :=
  p ← (match where_ with ZIPLIST_HEAD => Some ZIPLIST_ENTRY_HEAD | ZIPLIST_TAIL => ZIPLIST_ENTRY_END zl end);
  __ziplistInsert zl p s.

Fixpoint index_back (fuel : nat) (zl : list Z) (p prevlen index : Z) : option (Z * Z) :=
  match fuel with
  | O => None
  | S fuel =>
    if prevlen >? 0 then
      if index =? 0 then Some (p, index - 1) else
      let p := p - prevlen in
      '(_, prevlen) ← ZIP_DECODE_PREVLEN zl p;
      index_back fuel zl p prevlen (index - 1)
    else Some (p, index)
  end.

Fixpoint index_forward (fuel : nat) (zl : list Z) (p index : Z) : option (Z * Z) :=
  match fuel with
  | O => None
  | S fuel =>
    c ← byte_at zl p;
    if c =? ZIP_END then Some (p, index) else
    if index =? 0 then Some (p, index - 1) else
    n ← zipRawEntryLength zl p;
    index_forward fuel zl (p + n) (index - 1)
  end.

(** A pointer or [NULL]; negating [INT_MIN] is undefined. *)
Definition ziplistIndex (zl : list Z) (index : Z) : option (option Z) :=
  '(p, index) ←
    (if index <? 0 then
       if index =? -2147483648 then None else
       let index := - index - 1 in
       p ← ZIPLIST_ENTRY_TAIL zl;
       c ← byte_at zl p;
       if negb (c =? ZIP_END) then
         '(_, prevlen) ← ZIP_DECODE_PREVLEN zl p;
         index_back (length zl) zl p prevlen index
       else Some (p, index)
     else index_forward (length zl) zl ZIPLIST_ENTRY_HEAD index);
  c ← byte_at zl p;
  Some (if (c =? ZIP_END) || (index >? 0) then None else Some p).

Definition ziplistNext (zl : list Z) (p : Z) : option (option Z) :=
  c ← byte_at zl p;
  if c =? ZIP_END then Some None else
  n ← zipRawEntryLength zl p;
  c ← byte_at zl (p + n);
  Some (if c =? ZIP_END then None else Some (p + n)).

Definition ziplistPrev (zl : list Z) (p : Z) : option (option Z) :=
  c ← byte_at zl p;
  if c =? ZIP_END then
    p ← ZIPLIST_ENTRY_TAIL zl;
    c ← byte_at zl p;
    Some (if c =? ZIP_END then None else Some p)
  else if p =? ZIPLIST_ENTRY_HEAD then Some None
  else
    '(_, prevlen) ← ZIP_DECODE_PREVLEN zl p;
    if prevlen >? 0 then Some (Some (p - prevlen)) else None.

(** What [ziplistGet] stores: a pointer and a length, or an integer. *)
Inductive zl_value := GetStr (sstr slen : Z) | GetInt (sval : Z).

Definition ziplistGet (zl : list Z) (p : option Z) : option (option zl_value) :=
  match p with
  | None => Some None
  | Some p =>
    c ← byte_at zl p;
    if c =? ZIP_END then Some None else
    entry ← zipEntry zl p;
    if ZIP_IS_STR (zle_encoding entry)
    then Some (Some (GetStr (p + headersize entry) (zle_len entry)))
    else v ← zipLoadInteger zl (p + headersize entry) (zle_encoding entry);
         Some (Some (GetInt v))
  end.

Definition ziplistInsert (zl : list Z) (p : Z) (s : list Z) : option (list Z) :=
  __ziplistInsert zl p s.

(** The pointer is updated in place: the new list and the new [*p]. *)
Definition ziplistDelete (zl : list Z) (p : Z) : option (list Z * Z) :=
  zl ← __ziplistDelete zl p 1; Some (zl, p).

Definition ziplistDeleteRange (zl : list Z) (index num : Z) : option (list Z) :=
  p ← ziplistIndex zl index;
  match p with None => Some zl | Some p => __ziplistDelete zl p num end.

Definition ziplistCompare (zl : list Z) (p : Z) (sstr : list Z) : option bool :=
  c ← byte_at zl p;
  if c =? ZIP_END then Some false else
  entry ← zipEntry zl p;
  if ZIP_IS_STR (zle_encoding entry) then
    if zle_len entry =? zlen sstr then
      x ← mread zl (p + headersize entry) (zlen sstr); Some (bool_decide (x = sstr))
    else Some false
  else
    match zipTryEncoding sstr with
    | Some (sval, _) =>
      zval ← zipLoadInteger zl (p + headersize entry) (zle_encoding entry);
      Some (zval =? sval)
    | None => Some false
    end.

Fixpoint find_loop (fuel : nat) (zl : list Z) (p : Z) (vstr : list Z)
    (skip skipcnt vencoding vll : Z) : option (option Z) :=
  match fuel with
  | O => None
  | S fuel =>
    c ← byte_at zl p;
    if c =? ZIP_END then Some None else
    prevlensize ← ZIP_DECODE_PREVLENSIZE zl p;
    '(encoding, lsize, len) ← ZIP_DECODE_LENGTH zl (p + prevlensize);
    let q := p + prevlensize + lsize in
    if skipcnt =? 0 then
      '(found, vencoding, vll) ←
        (if ZIP_IS_STR encoding then
           if len =? zlen vstr then
             x ← mread zl q (zlen vstr); Some (bool_decide (x = vstr), vencoding, vll)
           else Some (false, vencoding, vll)
         else
           let '(vencoding, vll) :=
             if vencoding =? 0 then
               match zipTryEncoding vstr with
               | Some (v, e) => (e, v)
               | None => (255, vll)
               end
             else (vencoding, vll) in
           if vencoding =? 0 then None else
           if negb (vencoding =? 255) then
             ll ← zipLoadInteger zl q encoding; Some (ll =? vll, vencoding, vll)
           else Some (false, vencoding, vll));
      if (found : bool) then Some (Some p) else
      find_loop fuel zl (q + len) vstr skip (swrap 32 skip) vencoding vll
    else find_loop fuel zl (q + len) vstr skip (skipcnt - 1) vencoding vll
  end.

Definition ziplistFind (zl : list Z) (p : Z) (vstr : list Z) (skip : Z) : option (option Z) :=
  find_loop (length zl) zl p vstr skip 0 0 0.

Fixpoint len_loop (fuel : nat) (zl : list Z) (p len : Z) : option Z :=
  match fuel with
  | O => None
  | S fuel =>
    c ← byte_at zl p;
    if c =? ZIP_END then Some len else
    n ← zipRawEntryLength zl p;
    len_loop fuel zl (p + n) (uwrap 32 (len + 1))
  end.

Definition ziplistLen (zl : list Z) : option (list Z * Z) :=
  n ← ZIPLIST_LENGTH zl;
  if intrev16ifbe host n <? UINT16_MAX then Some (zl, intrev16ifbe host n) else
  len ← len_loop (length zl) zl ZIPLIST_HEADER_SIZE 0;
  zl ← (if len <? UINT16_MAX then set_ZIPLIST_LENGTH zl (intrev16ifbe host len) else Some zl);
  Some (zl, len).

Definition ziplistBlobLen (zl : list Z) : option Z :=
  b ← ZIPLIST_BYTES zl; Some (intrev32ifbe host b).

End Ziplist.

(** ** Reading and writing the parts of an entry

    The lemmas speak of a buffer written as a concatenation and of the offset
    of one of its parts; [off_eq] brings an offset to that form. *)

Lemma byte_at_mid a x b : byte_at (a ++ x :: b) (zlen a) = Some x.
Proof.
  unfold byte_at. rewrite (proj2 (Z.leb_le _ _) (zlen_nonneg a)).
  unfold zlen. rewrite Nat2Z.id. by rewrite lookup_app_r, Nat.sub_diag by lia.
Qed.

Lemma byte_at_off a x b p : p = zlen a -> byte_at (a ++ x :: b) p = Some x.
Proof. intros ->. apply byte_at_mid. Qed.

Lemma native_le host n v :
  in_u (8 * Z.of_nat n) v -> int_size n ->
  match host with LITTLE_ENDIAN => v | BIG_ENDIAN => rev_val n v end = native_val host (le_bytes n v).
Proof.
  intros Hv Hn. destruct host; simpl; [|done]. rewrite le_val_bytes. symmetry. by apply Z.mod_small.
Qed.

Lemma native_val_le32 host v : in_u 32 v -> native_val host (le_bytes 4 v) = intrev32ifbe host v.
Proof. intros Hv. rewrite <- native_le; [|done|by right; left]. destruct host; simpl; by rewrite ?intrev32_val. Qed.

Lemma native_val_le16 host v : in_u 16 v -> native_val host (le_bytes 2 v) = intrev16ifbe host v.
Proof. intros Hv. rewrite <- native_le; [|done|by left]. destruct host; simpl; by rewrite ?intrev16_val. Qed.

Lemma le_bytes_rev_val n v : le_bytes n (rev_val n v) = reverse (le_bytes n v).
Proof.
  unfold rev_val.
  assert (length (reverse (le_bytes n v)) = n) as Hl by (by rewrite length_reverse, length_le_bytes).
  rewrite <- Hl at 1. apply le_bytes_val, Forall_reverse_byte, le_bytes_ok.
Qed.

Lemma native_bytes_intrev32 host v : native_bytes host 4 (intrev32ifbe host v) = le_bytes 4 v.
Proof.
  destruct host; [done|]. unfold native_bytes, intrev32ifbe. rewrite intrev32_val, le_bytes_rev_val.
  apply reverse_involutive.
Qed.

Lemma native_bytes_intrev16 host v : native_bytes host 2 (intrev16ifbe host v) = le_bytes 2 v.
Proof.
  destruct host; [done|]. unfold native_bytes, intrev16ifbe. rewrite intrev16_val, le_bytes_rev_val.
  apply reverse_involutive.
Qed.

Lemma intrev16ifbe_involutive host v : in_u 16 v -> intrev16ifbe host (intrev16ifbe host v) = v.
Proof.
  intros Hv. destruct host; simpl; [done|].
  rewrite !intrev16_val, rev_val_involutive. by apply Z.mod_small.
Qed.

(** *** The previous length *)

Definition pl_bytes (big : bool) (q : Z) : list Z := if big then ZIP_BIG_PREVLEN :: le_bytes 4 q else [q].
Definition pl_size (big : bool) : Z := if big then 5 else 1.

(** The length [q] of the previous entry fits in a field of that size. *)
Definition fits (q : Z) (big : bool) : Prop := 0 <= q < 2 ^ 32 /\ (big = false -> q < ZIP_BIG_PREVLEN).

Lemma zlen_pl_bytes big q : zlen (pl_bytes big q) = pl_size big.
Proof. by destruct big. Qed.
#[export] Hint Rewrite zlen_pl_bytes : redis_len.

Lemma pl_head big q : fits q big -> exists c r, pl_bytes big q = c :: r /\
  c <> ZIP_END /\ (c <? ZIP_BIG_PREVLEN) = negb big.
Proof.
  intros [H1 H2]. destruct big; simpl; eexists _, _; split_and!; try done.
  - specialize (H2 eq_refl). unfold ZIP_END, ZIP_BIG_PREVLEN in *. lia.
  - apply Z.ltb_lt, (H2 eq_refl).
Qed.

Section Codec.
Context (host : byte_order) (junk : nat -> Z).

Lemma decode_prevlensize a big q r p :
  fits q big -> p = zlen a ->
  ZIP_DECODE_PREVLENSIZE (a ++ pl_bytes big q ++ r) p = Some (pl_size big).
Proof using Type.
  intros (c & r' & -> & _ & Hc)%pl_head ->. unfold ZIP_DECODE_PREVLENSIZE.
  cbn [app]. rewrite byte_at_mid. cbn [mbind option_bind]. rewrite Hc. by destruct big.
Qed.

Lemma decode_prevlen a big q r p :
  fits q big -> p = zlen a ->
  ZIP_DECODE_PREVLEN host (a ++ pl_bytes big q ++ r) p = Some (pl_size big, q).
Proof using Type.
  intros Hf Hp. unfold ZIP_DECODE_PREVLEN. rewrite decode_prevlensize by done. subst p.
  cbn [mbind option_bind]. destruct Hf as [Hq _]. destruct big; cbn [pl_size Z.eqb Pos.eqb pl_bytes].
  - change ((ZIP_BIG_PREVLEN :: le_bytes 4 q) ++ r) with ([ZIP_BIG_PREVLEN] ++ le_bytes 4 q ++ r).
    rewrite (app_assoc a), mread_off by (rewrite ?zlen_app; done). cbn [mbind option_bind].
    change (memrev32ifbe host) with (memrevifbe host 4). rewrite memrevifbe_le by (by right; left). cbn [mbind option_bind].
    rewrite native_val_bytes. do 2 f_equal. by apply Z.mod_small.
  - cbn [app]. by rewrite byte_at_mid.
Qed.

Lemma store_large a x b p q :
  p = zlen a -> zlen x = 5 ->
  zipStorePrevEntryLengthLarge host (a ++ x ++ b) p q = Some (a ++ pl_bytes true q ++ b).
Proof using Type.
  intros -> Hx. destruct (split_len x 1 4) as (x1 & x4 & -> & H1 & H4); [lia..|].
  unfold zipStorePrevEntryLengthLarge. rewrite <- app_assoc.
  rewrite (mwrite_off a x1 [ZIP_BIG_PREVLEN]) by done. cbn [mbind option_bind].
  rewrite (app_assoc a), (mwrite_off _ x4 (native_bytes host 4 q)); cycle 1.
  { by rewrite zlen_app. } { rewrite H4. unfold zlen. by rewrite length_native_bytes. }
  cbn [mbind option_bind].
  rewrite mread_off; cycle 1. { by rewrite zlen_app. } { unfold zlen. by rewrite length_native_bytes. }
  cbn [mbind option_bind].
  change (memrev32ifbe host) with (memrevifbe host 4). rewrite memrevifbe_native by (by right; left). cbn [mbind option_bind].
  rewrite mwrite_off; cycle 1. { by rewrite zlen_app. }
  { rewrite zlen_le_bytes. unfold zlen. by rewrite length_native_bytes. }
  f_equal. by rewrite <- !app_assoc.
Qed.

Lemma store_prevlen a x b p q :
  p = zlen a -> zlen x = zipStorePrevEntryLength_size q ->
  zipStorePrevEntryLength host (a ++ x ++ b) p q =
    Some (a ++ pl_bytes (negb (q <? ZIP_BIG_PREVLEN)) q ++ b, zipStorePrevEntryLength_size q).
Proof using Type.
  unfold zipStorePrevEntryLength, zipStorePrevEntryLength_size. intros Hp Hx.
  destruct (q <? ZIP_BIG_PREVLEN).
  - rewrite (mwrite_off a x [q]) by done. done.
  - rewrite store_large by done. done.
Qed.

End Codec.

(** *** The body of an entry: encoding, length and data *)

Definition int_bytes (enc v : Z) : list Z :=
  if enc =? ZIP_INT_8B then [uwrap 8 v]
  else if enc =? ZIP_INT_16B then le_bytes 2 v
  else if enc =? ZIP_INT_24B then le_bytes 3 v
  else if enc =? ZIP_INT_32B then le_bytes 4 v
  else if enc =? ZIP_INT_64B then le_bytes 8 v
  else [].

Definition body (s : list Z) : list Z :=
  match zipTryEncoding s with
  | Some (v, e) => e :: int_bytes e v
  | None => encoding_buf 0 (zlen s) ++ s
  end.

(** The encoding, the size of the length field and the size of the data that
    a reader finds in [body s]. *)
Definition body_enc (s : list Z) : Z :=
  match zipTryEncoding s with
  | Some (_, e) => e
  | None => if zlen s <=? 0x3f then ZIP_STR_06B else if zlen s <=? 0x3fff then ZIP_STR_14B else ZIP_STR_32B
  end.

Definition body_lensize (s : list Z) : Z :=
  match zipTryEncoding s with
  | Some _ => 1
  | None => zipStoreEntryEncoding_size 0 (zlen s)
  end.

Ltac enc_numerals :=
  change ZIP_INT_8B with 254 in *; change ZIP_INT_16B with 192 in *; change ZIP_INT_24B with 240 in *;
  change ZIP_INT_32B with 208 in *; change ZIP_INT_64B with 224 in *; change ZIP_STR_MASK with 192 in *;
  change ZIP_STR_06B with 0 in *; change ZIP_STR_14B with 64 in *; change ZIP_STR_32B with 128 in *;
  change ZIP_INT_IMM_MIN with 241 in *; change ZIP_INT_IMM_MAX with 253 in *.

(** The encodings an integer may have. *)
Definition int_enc (e v : Z) : Prop :=
  (e = 241 + v /\ 0 <= v <= 12) \/ (e = 254 /\ in_s 8 v) \/ (e = 192 /\ in_s 16 v) \/
  (e = 240 /\ in_s 24 v) \/ (e = 208 /\ in_s 32 v) \/ (e = 224 /\ in_s 64 v).

Lemma try_encoding_spec s v e :
  zipTryEncoding s = Some (v, e) -> string2ll s = Some v /\ int_enc e v.
Proof.
  unfold zipTryEncoding. destruct (_ || _); [done|]. intros (w & Hw & E)%bind_Some.
  injection E as <- <-. split; [done|]. apply string2ll_spec in Hw as [_ Hw].
  unfold int_enc. change (in_s 24 w) with (- 8388608 <= w < 8388608).
  unfold ZIP_INT_IMM_MIN, INT24_MIN, INT24_MAX. enc_numerals.
  repeat match goal with |- context [if ?c then _ else _] => destruct c eqn:? end;
    rewrite ?andb_true_iff, ?Z.geb_leb, ?Z.leb_le in *; width_lia.
Qed.

Lemma canonical_nat_len s n k : canonical_nat s n -> n < 10 ^ k -> 0 <= k -> zlen s <= Z.max 1 k.
Proof.
  intros Hc Hn Hk. destruct (canonical_nat_bounds _ _ Hc) as [[-> ->]|[Hb _]]; [change (zlen [ch_0]) with 1; lia|].
  destruct (Z.le_gt_cases (zlen s) (Z.max 1 k)); [done|]. exfalso.
  assert (10 ^ k <= 10 ^ (zlen s - 1)) by (apply Z.pow_le_mono_r; lia). lia.
Qed.

(** Every notation of a 64-bit integer is recognised. *)
Lemma string2ll_short s v : string2ll s = Some v -> 0 < zlen s <= 20.
Proof.
  intros [Hc Hv]%string2ll_spec. unfold canonical in Hc. case_match.
  - destruct Hc as (t & -> & Ht). rewrite zlen_cons. pose proof (zlen_nonneg t).
    pose proof (canonical_nat_len t _ 19 Ht). change (10 ^ 19) with 10000000000000000000 in *. width_lia.
  - pose proof (canonical_nat_len s _ 19 Hc). change (10 ^ 19) with 10000000000000000000 in *.
    destruct Hc as (Hne & _). destruct s; [done|]. rewrite zlen_cons in *. pose proof (zlen_nonneg s). width_lia.
Qed.

Lemma try_encoding_value s : fst <$> zipTryEncoding s = string2ll s.
Proof.
  unfold zipTryEncoding. destruct (string2ll s) as [v|] eqn:E; [|by destruct (_ || _)].
  apply string2ll_short in E. rewrite (proj2 (orb_false_iff _ _)); [done|].
  rewrite Z.geb_leb. split; [apply Z.leb_gt|apply Z.eqb_neq]; lia.
Qed.

(** Bit operations on length fields, as arithmetic. *)
Lemma land_ff x : Z.land x 0xff = x mod 256.
Proof. change 0xff with (Z.ones 8). by rewrite Z.land_ones. Qed.

Definition str_header_check (h : Z) : bool :=
  negb (h <? 64) ||
  ((Z.land h 192 =? 0) && (Z.land h 63 =? h) && (Z.land (Z.lor 64 h) 192 =? 64) &&
   (Z.land (Z.lor 64 h) 63 =? h) && (Z.lor 64 h <? 192)).

Lemma str_header_bits h : 0 <= h < 64 ->
  Z.land h 192 = 0 /\ Z.land h 63 = h /\ Z.land (Z.lor 64 h) 192 = 64 /\
  Z.land (Z.lor 64 h) 63 = h /\ Z.lor 64 h < 192.
Proof.
  intros Hh. pose proof (all_bytes_spec str_header_check h ltac:(vm_compute; reflexivity)
    ltac:(unfold byte_ok; lia)) as H. unfold str_header_check in H.
  rewrite (proj2 (Z.ltb_lt h 64)) in H by lia. cbn [negb orb] in H.
  rewrite !andb_true_iff, !Z.eqb_eq, Z.ltb_lt in H. tauto.
Qed.

(** Case analysis on the encoding of an integer; the immediate encodings are
    enumerated. *)
Ltac enc_cases H :=
  destruct H as [[-> H]|[[-> H]|[[-> H]|[[-> H]|[[-> H]|[-> H]]]]]].

Lemma imm_cases v : 0 <= v <= 12 -> v ∈ [0; 1; 2; 3; 4; 5; 6; 7; 8; 9; 10; 11; 12].
Proof. intros. rewrite !elem_of_cons. lia. Qed.

Definition imm_check (v : Z) : bool :=
  bool_decide (zipIntSize (241 + v) = Some 0 /\ int_bytes (241 + v) v = [] /\
    ZIP_IS_STR (241 + v) = false /\ Z.land (241 + v) 15 - 1 = v).

Lemma imm_facts v : 0 <= v <= 12 ->
  zipIntSize (241 + v) = Some 0 /\ int_bytes (241 + v) v = [] /\
  ZIP_IS_STR (241 + v) = false /\ Z.land (241 + v) 15 - 1 = v.
Proof.
  intros Hv%imm_cases. change (Is_true (imm_check v)) || apply (bool_decide_unpack _).
  change (Is_true (imm_check v)). revert v Hv. apply Forall_forall.
  repeat constructor.
Qed.

Lemma int_enc_facts e v : int_enc e v ->
  zipIntSize e = Some (zlen (int_bytes e v)) /\ ZIP_IS_STR e = false /\ 192 <= e < 255.
Proof.
  intros H. enc_cases H; [destruct (imm_facts v H) as (H1 & H2 & H3 & _); rewrite H2; auto with lia|done..].
Qed.

Lemma zlen_encoding_buf n : zlen (encoding_buf 0 n) = zipStoreEntryEncoding_size 0 n.
Proof. unfold encoding_buf, zipStoreEntryEncoding_size. simpl. by repeat case_match. Qed.

Lemma body_string s : zipTryEncoding s = None -> body s = encoding_buf 0 (zlen s) ++ s.
Proof. unfold body. by intros ->. Qed.

Lemma body_lensize_bounds s : 1 <= body_lensize s <= 5.
Proof. unfold body_lensize, zipStoreEntryEncoding_size. simpl. repeat case_match; lia. Qed.

Lemma body_datasize s : 0 <= zlen (body s) - body_lensize s.
Proof.
  unfold body, body_lensize. destruct (zipTryEncoding s) as [[v e]|].
  - rewrite zlen_cons. pose proof (zlen_nonneg (int_bytes e v)). lia.
  - rewrite zlen_app, zlen_encoding_buf. pose proof (zlen_nonneg s). lia.
Qed.

(** The body of an entry takes at most eight bytes more than the string. *)
Lemma body_bound s : 1 <= zlen (body s) <= 8 + zlen s.
Proof.
  unfold body. destruct (zipTryEncoding s) as [[v e]|] eqn:E.
  - destruct (try_encoding_spec _ _ _ E) as [Hs%string2ll_short He]. rewrite zlen_cons.
    enc_cases He.
    2-6: match goal with |- context [zlen (int_bytes ?e ?w)] =>
           let n := eval vm_compute in (zlen (int_bytes e 0)) in change (zlen (int_bytes e w)) with n end; lia.
    destruct (imm_facts v He) as (_ & -> & _). change (zlen (@nil Z)) with 0. lia.
  - rewrite zlen_app, zlen_encoding_buf. unfold zipStoreEntryEncoding_size. simpl.
    pose proof (zlen_nonneg s). repeat case_match; lia.
Qed.

Lemma body_enc_str s : ZIP_IS_STR (body_enc s) = match zipTryEncoding s with Some _ => false | None => true end.
Proof.
  unfold body_enc. destruct (zipTryEncoding s) as [[v e]|] eqn:E.
  - by apply try_encoding_spec in E as [_ (_ & ? & _)%int_enc_facts].
  - by repeat case_match.
Qed.

Lemma decode_int a e v r :
  int_enc e v -> ZIP_DECODE_LENGTH (a ++ e :: r) (zlen a) = Some (e, 1, zlen (int_bytes e v)).
Proof.
  intros (Hs & _ & He)%int_enc_facts. unfold ZIP_DECODE_LENGTH. rewrite byte_at_mid. cbn [mbind option_bind].
  enc_numerals. rewrite (proj2 (Z.ltb_ge e 192)) by lia.
  rewrite (proj2 (Z.ltb_ge e 192)) by lia. by rewrite Hs.
Qed.

Lemma byte_at_plus a l i : 0 <= i -> byte_at (a ++ l) (zlen a + i) = l !! Z.to_nat i.
Proof.
  intros Hi. unfold byte_at. pose proof (zlen_nonneg a). rewrite (proj2 (Z.leb_le _ _)) by lia.
  rewrite lookup_app_r by (unfold zlen; lia). f_equal. unfold zlen. lia.
Qed.

(** The four bytes of a 32-bit length, most significant first. *)
Lemma be32_value n :
  0 <= n < 2 ^ 31 ->
  Z.lor (Z.lor (Z.lor (Z.shiftl (n / 16777216) 24) (Z.shiftl ((n / 65536) mod 256) 16))
               (Z.shiftl ((n / 256) mod 256) 8)) (n mod 256) = n.
Proof.
  intros Hn. set (c1 := n / 16777216). set (c2 := (n / 65536) mod 256). set (c3 := (n / 256) mod 256).
  assert (0 <= c2 < 256 /\ 0 <= c3 < 256 /\ 0 <= n mod 256 < 256) as (H2 & H3 & H4)
    by (split_and!; apply Z.mod_pos_bound; lia).
  assert (forall x y k : Z, 0 <= k -> 0 <= y < 256 ->
    Z.lor (Z.shiftl x (k + 8)) (Z.shiftl y k) = Z.shiftl (x * 256 + y) k) as Hstep.
  { intros x y k Hk Hy. rewrite lor_shiftl; rewrite ?Z.shiftl_mul_pow2, ?Z.pow_add_r by lia; [|lia|].
    all: change (2 ^ 8) with 256. all: assert (0 < 2 ^ k) by lia. all: nia. }
  pose proof (Hstep c1 c2 16 ltac:(lia) H2) as E1. change (16 + 8) with 24 in E1. rewrite E1.
  pose proof (Hstep (c1 * 256 + c2) c3 8 ltac:(lia) H3) as E2. change (8 + 8) with 16 in E2. rewrite E2.
  rewrite lor_shiftl by lia.
  pose proof (Z.div_mod n 256). pose proof (Z.div_mod (n / 256) 256). pose proof (Z.div_mod (n / 65536) 256).
  rewrite !Z.div_div in * by lia. change (2 ^ 8) with 256.
  change (256 * 256) with 65536 in *. change (65536 * 256) with 16777216 in *. subst c1 c2 c3. lia.
Qed.

Lemma decode_str a n r :
  0 <= n < 2 ^ 31 ->
  ZIP_DECODE_LENGTH (a ++ encoding_buf 0 n ++ r) (zlen a) =
    Some (if n <=? 0x3f then ZIP_STR_06B else if n <=? 0x3fff then ZIP_STR_14B else ZIP_STR_32B,
          zipStoreEntryEncoding_size 0 n, n).
Proof.
  intros Hn. unfold ZIP_DECODE_LENGTH, encoding_buf, zipStoreEntryEncoding_size. change (ZIP_IS_STR 0) with true. cbv iota.
  destruct (Z.leb_spec n 0x3f); [|destruct (Z.leb_spec n 0x3fff)]; cbn [app].
  - rewrite byte_at_mid. cbn [mbind option_bind]. enc_numerals. rewrite Z.lor_0_l.
    destruct (str_header_bits n) as (H1 & H2 & _); [lia|].
    rewrite (proj2 (Z.ltb_lt n 192)), H1, H2 by lia. done.
  - rewrite byte_at_mid. cbn [mbind option_bind]. enc_numerals.
    rewrite Z.shiftr_div_pow2 by lia. change (2 ^ 8) with 256.
    assert (0 <= n / 256 < 64) by (split; [apply Z.div_pos; lia|apply Z.div_lt_upper_bound; lia]).
    destruct (str_header_bits (n / 256)) as (_ & H2 & H3 & H4 & H5); [done|].
    rewrite H2, H3, H4. rewrite (proj2 (Z.ltb_lt (Z.lor 64 (n / 256)) 192)) by lia. simpl.
    rewrite byte_at_plus by lia. simpl. do 2 f_equal. rewrite land_ff, lor_shiftl; [|lia|].
    2: apply Z.mod_pos_bound; lia. change (2 ^ 8) with 256. rewrite (Z.div_mod n 256) at 3 by lia. lia.
  - rewrite !land_ff, !Z.shiftr_div_pow2 by lia.
    rewrite byte_at_mid. cbn [mbind option_bind]. rewrite !byte_at_plus by lia.
    change (ZIP_STR_32B <? ZIP_STR_MASK) with true. cbv iota.
    change (Z.land ZIP_STR_32B ZIP_STR_MASK) with 128. change (128 <? ZIP_STR_MASK) with true.
    change (128 =? ZIP_STR_06B) with false. change (128 =? ZIP_STR_14B) with false.
    change (128 =? ZIP_STR_32B) with true. cbv iota.
    change (Z.to_nat 1) with 1%nat. change (Z.to_nat 2) with 2%nat.
    change (Z.to_nat 3) with 3%nat. change (Z.to_nat 4) with 4%nat.
    cbn [lookup list_lookup mbind option_bind].
    change (2 ^ 24) with 16777216. change (2 ^ 16) with 65536. change (2 ^ 8) with 256.
    assert (0 <= n / 16777216 < 128) by (split; [apply Z.div_pos; lia|apply Z.div_lt_upper_bound; lia]).
    rewrite (Z.mod_small (n / 16777216)) by lia.
    rewrite Z.geb_leb, (proj2 (Z.leb_gt _ _)) by lia. do 2 f_equal. by apply be32_value.
Qed.

Lemma decode_length a s r p :
  zlen s < 2 ^ 31 -> p = zlen a ->
  ZIP_DECODE_LENGTH (a ++ body s ++ r) p =
    Some (body_enc s, body_lensize s, zlen (body s) - body_lensize s).
Proof.
  intros Hs ->. unfold body, body_enc, body_lensize. destruct (zipTryEncoding s) as [[v e]|] eqn:E.
  - apply try_encoding_spec in E as [_ He]. cbn [app]. rewrite (decode_int _ _ v) by done.
    rewrite zlen_cons. do 2 f_equal. lia.
  - pose proof (zlen_nonneg s). rewrite <- app_assoc, decode_str by lia.
    rewrite zlen_app, zlen_encoding_buf. do 2 f_equal. lia.
Qed.

Section Integers.
Context (host : byte_order).

Lemma load_rev_spec n a v r p :
  int_size n -> p = zlen a -> in_s (8 * Z.of_nat n) v ->
  load_rev host n (a ++ le_bytes n v ++ r) p = Some v.
Proof using Type.
  intros Hn -> Hv. unfold load_rev. rewrite mread_off by (rewrite ?zlen_le_bytes; done).
  cbn [mbind option_bind]. rewrite memrevifbe_le by done. cbn [mbind option_bind].
  rewrite native_val_bytes. destruct Hn as [-> | [-> | ->]];
    rewrite swrap_mod, swrap_small by done || lia; done.
Qed.

Lemma store_rev_spec n a x r p v :
  int_size n -> p = zlen a -> zlen x = Z.of_nat n ->
  store_rev host n (a ++ x ++ r) p v = Some (a ++ le_bytes n v ++ r).
Proof using Type.
  intros Hn -> Hx. unfold store_rev.
  assert (zlen (native_bytes host n v) = Z.of_nat n) as Hb by (unfold zlen; by rewrite length_native_bytes).
  rewrite (mwrite_off a x) by (rewrite ?Hb; done). cbn [mbind option_bind].
  rewrite mread_off by (rewrite ?Hb; done). cbn [mbind option_bind].
  rewrite memrevifbe_native by done. cbn [mbind option_bind].
  by rewrite mwrite_off by (rewrite ?Hb, ?zlen_le_bytes; done).
Qed.

(** A 24-bit integer is the upper three bytes of a 32-bit one. *)
Lemma le_bytes_24 v : le_bytes 4 (Z.shiftl v 8) = 0 :: le_bytes 3 v.
Proof using Type.
  rewrite Z.shiftl_mul_pow2 by lia. change (2 ^ 8) with 256. change (le_bytes 4 (v * 256)) with
    ((v * 256) mod 256 :: le_bytes 3 (v * 256 / 256)).
  by rewrite Z.mod_mul, Z.div_mul by lia.
Qed.

Lemma load_integer a e v r p :
  int_enc e v -> p = zlen a -> zipLoadInteger host (a ++ int_bytes e v ++ r) p e = Some v.
Proof using Type.
  intros He Hp. unfold zipLoadInteger. enc_cases He.
  - destruct (imm_facts v He) as (_ & _ & _ & Hv). unfold ZIP_INT_IMM_MASK. enc_numerals.
    rewrite !(proj2 (Z.eqb_neq _ _)) by lia.
    rewrite (proj2 (andb_true_iff _ _)) by (rewrite Z.geb_leb, !Z.leb_le; lia). by rewrite Hv.
  - cbn [app int_bytes Z.eqb Pos.eqb]. change (254 =? ZIP_INT_8B) with true. cbv iota. change (int_bytes 254 v) with [uwrap 8 v]. cbn [app].
    subst p. rewrite byte_at_mid. cbn [mbind option_bind]. unfold uwrap. by rewrite swrap_mod, swrap_small.
  - apply (load_rev_spec 2); [by left|done|done].
  - change (int_bytes 240 v) with (le_bytes 3 v). change (240 =? ZIP_INT_24B) with true.
    change (240 =? ZIP_INT_8B) with false. change (240 =? ZIP_INT_16B) with false.
    change (240 =? ZIP_INT_32B) with false. cbv iota.
    rewrite mread_off by done. cbn [mbind option_bind].
    replace (take 1 (native_bytes host 4 0) ++ le_bytes 3 v) with (le_bytes 4 (Z.shiftl v 8))
      by (rewrite le_bytes_24; by destruct host).
    change (memrev32ifbe host) with (memrevifbe host 4). rewrite memrevifbe_le by (by right; left).
    cbn [mbind option_bind]. rewrite native_val_bytes. change (8 * Z.of_nat 4) with 32.
    assert (- 8388608 <= v < 8388608) by exact He.
    rewrite swrap_mod, swrap_small by (rewrite ?Z.shiftl_mul_pow2 by lia; width_lia).
    f_equal. rewrite Z.shiftr_shiftl_l by lia. by rewrite Z.shiftl_0_r.
  - apply (load_rev_spec 4); [by right; left|done|done].
  - apply (load_rev_spec 8); [by right; right|done|done].
Qed.

Lemma save_integer a x e v r p :
  int_enc e v -> p = zlen a -> zlen x = zlen (int_bytes e v) ->
  zipSaveInteger host (a ++ x ++ r) p v e = Some (a ++ int_bytes e v ++ r).
Proof using Type.
  intros He Hp Hx. unfold zipSaveInteger. enc_cases He.
  - destruct (imm_facts v He) as (_ & Hb & _). rewrite Hb in *. enc_numerals.
    rewrite !(proj2 (Z.eqb_neq _ _)) by lia.
    rewrite (proj2 (andb_true_iff _ _)) by (rewrite Z.geb_leb, !Z.leb_le; lia).
    destruct x; [done|]. rewrite zlen_cons in Hx. pose proof (zlen_nonneg x). change (zlen (@nil Z)) with 0 in Hx. lia.
  - apply (mwrite_off a x [uwrap 8 v]); done.
  - apply (store_rev_spec 2); [by left|done|done].
  - change (240 =? ZIP_INT_24B) with true. change (240 =? ZIP_INT_8B) with false.
    change (240 =? ZIP_INT_16B) with false. cbv iota.
    change (memrev32ifbe host) with (memrevifbe host 4). rewrite memrevifbe_native by (by right; left).
    cbn [mbind option_bind]. rewrite le_bytes_24. by rewrite mwrite_off.
  - apply (store_rev_spec 4); [by right; left|done|done].
  - apply (store_rev_spec 8); [by right; right|done|done].
Qed.
End Integers.
