(* ===== verification/ZiplistOps.v ===== *)
(** * Correctness of the ziplist operations

    A ziplist represents a list of byte strings.  [layout] is the image of
    the entries, [ziplist_rep] the invariant of the whole allocation: size,
    offset of the last entry, entry count, and a previous length in every
    entry.  The operations of [Ziplist] preserve it and act on the list of
    strings as the corresponding list operations do. *)

From S2P Require Import Prelude Endianconv Numstr Ziplist.
From stdpp Require Import options.

(** An entry: whether its previous length takes five bytes, and its string. *)
Abbreviation entry := (bool * list Z)%type.

Definition ent_len (e : entry) : Z := pl_size e.1 + zlen (body e.2).
Definition ent_bytes (q : Z) (e : entry) : list Z := pl_bytes e.1 q ++ body e.2.

Fixpoint size (es : list entry) : Z :=
  match es with [] => 0 | e :: es => ent_len e + size es end.

(** The entries, the first of them preceded by an entry of length [q]. *)
Fixpoint layout (q : Z) (es : list entry) : list Z :=
  match es with [] => [] | e :: es => ent_bytes q e ++ layout (ent_len e) es end.

Fixpoint chain (q : Z) (es : list entry) : Prop :=
  match es with [] => True | e :: es => fits q e.1 /\ zlen e.2 < 2 ^ 31 /\ chain (ent_len e) es end.

(** Length of the last entry, or [q] if there is none. *)
Fixpoint last_len (q : Z) (es : list entry) : Z :=
  match es with [] => q | e :: es => last_len (ent_len e) es end.

(** An upper bound of the size, whatever the previous length fields. *)
Fixpoint max_size (ss : list (list Z)) : Z :=
  match ss with [] => 0 | s :: ss => 5 + zlen (body s) + max_size ss end.

Definition header (b t n : Z) : list Z := le_bytes 4 b ++ le_bytes 4 t ++ le_bytes 2 n.

(** Offset of the last entry, the entries starting at offset [base]. *)
Fixpoint tail_off (base : Z) (es : list entry) : Z :=
  match es with [] => base | [e] => base | e :: es => tail_off (base + ent_len e) es end.

Definition count_ok (n : Z) (es : list entry) : Prop := n = UINT16_MAX \/ (n = zlen es /\ n < UINT16_MAX).

Record ziplist_rep (zl : list Z) (es : list entry) : Prop := {
  rep_chain : chain 0 es;
  rep_room : 11 + max_size es.*2 < 2 ^ 31;
  rep_bytes : exists n, count_ok n es /\
    zl = header (11 + size es) (tail_off 10 es) n ++ layout 0 es ++ [ZIP_END];
}.

(** ** The layout *)

Lemma ent_len_pos e : 2 <= ent_len e.
Proof. unfold ent_len, pl_size. pose proof (body_bound e.2). case_match; lia. Qed.

Lemma size_nonneg es : 0 <= size es.
Proof. induction es as [|e es IH]; simpl; [lia|]. pose proof (ent_len_pos e). lia. Qed.

Lemma max_size_nonneg ss : 0 <= max_size ss.
Proof. induction ss as [|s ss IH]; simpl; [lia|]. pose proof (zlen_nonneg (body s)). lia. Qed.

Lemma size_max es : size es <= max_size es.*2.
Proof.
  induction es as [|e es IH]; [done|]. rewrite fmap_cons. cbn [size max_size]. unfold ent_len, pl_size. case_match; lia.
Qed.

Lemma size_app es1 es2 : size (es1 ++ es2) = size es1 + size es2.
Proof. induction es1 as [|e es1 IH]; simpl; lia. Qed.

Lemma max_size_app ss1 ss2 : max_size (ss1 ++ ss2) = max_size ss1 + max_size ss2.
Proof. induction ss1 as [|e ss1 IH]; simpl; lia. Qed.

Lemma zlen_ent_bytes q e : zlen (ent_bytes q e) = ent_len e.
Proof. unfold ent_bytes, ent_len. by rewrite zlen_app, zlen_pl_bytes. Qed.

Lemma zlen_layout q es : zlen (layout q es) = size es.
Proof.
  revert q. induction es as [|e es IH]; intros q; [done|]. cbn [layout size].
  by rewrite zlen_app, zlen_ent_bytes, IH.
Qed.

Lemma zlen_header b t n : zlen (header b t n) = 10.
Proof. done. Qed.

#[export] Hint Rewrite zlen_ent_bytes zlen_layout zlen_header : redis_len.

Lemma layout_app q es1 es2 : layout q (es1 ++ es2) = layout q es1 ++ layout (last_len q es1) es2.
Proof.
  revert q. induction es1 as [|e es1 IH]; intros q; [done|]. cbn [layout app last_len].
  by rewrite IH, app_assoc.
Qed.

Lemma chain_app q es1 es2 : chain q (es1 ++ es2) <-> chain q es1 /\ chain (last_len q es1) es2.
Proof.
  revert q. induction es1 as [|e es1 IH]; intros q; cbn [chain app last_len]; [tauto|]. rewrite IH. tauto.
Qed.

Lemma last_len_app q es1 es2 : last_len q (es1 ++ es2) = last_len (last_len q es1) es2.
Proof. revert q. induction es1 as [|e es1 IH]; intros q; [done|]. cbn [app last_len]. apply IH. Qed.

Lemma tail_off_app base es1 e es2 : tail_off base (es1 ++ e :: es2) = tail_off (base + size es1) (e :: es2).
Proof.
  revert base. induction es1 as [|e1 es1 IH]; intros base; [cbn [app size]; by rewrite Z.add_0_r|].
  cbn [app size]. replace (base + (ent_len e1 + size es1)) with (base + ent_len e1 + size es1) by lia.
  rewrite <- IH. by destruct es1.
Qed.

Lemma tail_off_snoc base es e : tail_off base (es ++ [e]) = base + size es.
Proof. by rewrite tail_off_app. Qed.

Lemma tail_off_shift base d es : tail_off (base + d) es = tail_off base es + d.
Proof.
  revert base. induction es as [|e es IH]; intros base; [done|].
  destruct es as [|e' es]; [done|].
  change (tail_off (base + d + ent_len e) (e' :: es) = tail_off (base + ent_len e) (e' :: es) + d).
  rewrite <- IH. f_equal. lia.
Qed.

Lemma tail_off_bounds base es : base <= tail_off base es <= base + size es.
Proof.
  revert base. induction es as [|e es IH]; intros base; [cbn; lia|]. pose proof (ent_len_pos e).
  destruct es as [|e' es]; [cbn [tail_off size]; lia|]. specialize (IH (base + ent_len e)).
  change (tail_off base (e :: e' :: es)) with (tail_off (base + ent_len e) (e' :: es)).
  cbn [size] in *. lia.
Qed.

(** The entry found at the front of a non-empty layout. *)
Lemma layout_head q e es r :
  fits q e.1 -> exists c l, layout q (e :: es) ++ r = c :: l /\ c <> ZIP_END.
Proof.
  intros Hf. destruct (pl_head _ _ Hf) as (c & l & Hc & Hne & _). cbn [layout]. unfold ent_bytes. rewrite Hc.
  by eexists c, _.
Qed.

Section Ops.
Context (host : byte_order) (junk : nat -> Z).

(** ** Reading an entry and the header *)

Lemma zipEntry_spec a e q r p :
  fits q e.1 -> zlen e.2 < 2 ^ 31 -> p = zlen a ->
  zipEntry host (a ++ ent_bytes q e ++ r) p =
    Some (mk_zlentry (pl_size e.1) q (body_lensize e.2) (zlen (body e.2) - body_lensize e.2)
            (pl_size e.1 + body_lensize e.2) (body_enc e.2) p).
Proof using Type.
  intros Hf Hs ->. unfold zipEntry, ent_bytes. rewrite <- app_assoc, decode_prevlen by done.
  cbn [mbind option_bind]. rewrite (app_assoc a), decode_length by (rewrite ?zlen_app, ?zlen_pl_bytes; done).
  done.
Qed.

Lemma rawEntryLength_spec a e q r p :
  fits q e.1 -> zlen e.2 < 2 ^ 31 -> p = zlen a ->
  zipRawEntryLength (a ++ ent_bytes q e ++ r) p = Some (ent_len e).
Proof using Type.
  intros Hf Hs ->. unfold zipRawEntryLength, ent_bytes. rewrite <- app_assoc, decode_prevlensize by done.
  cbn [mbind option_bind]. rewrite (app_assoc a), decode_length by (rewrite ?zlen_app, ?zlen_pl_bytes; done).
  cbn [mbind option_bind]. f_equal. unfold ent_len. pose proof (body_bound e.2).
  rewrite uwrap_small; [lia|]. unfold pl_size in *. case_match; width_lia.
Qed.

Lemma rawlen_entry e : zlen e.2 < 2 ^ 31 ->
  uwrap 32 (pl_size e.1 + body_lensize e.2 + (zlen (body e.2) - body_lensize e.2)) = ent_len e.
Proof using Type.
  intros Hs. pose proof (body_bound e.2). unfold ent_len, pl_size. rewrite uwrap_small; [lia|]. case_match; width_lia.
Qed.

Lemma get_bytes b t n r : in_u 32 b -> ZIPLIST_BYTES host (header b t n ++ r) = Some (intrev32ifbe host b).
Proof using Type.
  intros Hb. unfold ZIPLIST_BYTES, header. rewrite <- !app_assoc, mread_front by done.
  cbn [mbind option_bind]. by rewrite native_val_le32.
Qed.

Lemma get_tail b t n r : in_u 32 t -> ZIPLIST_TAIL_OFFSET host (header b t n ++ r) = Some (intrev32ifbe host t).
Proof using Type.
  intros Hb. unfold ZIPLIST_TAIL_OFFSET, header. rewrite <- !app_assoc, mread_off by done.
  cbn [mbind option_bind]. by rewrite native_val_le32.
Qed.

Lemma entry_tail b t n r : in_u 32 t -> ZIPLIST_ENTRY_TAIL host (header b t n ++ r) = Some t.
Proof using Type.
  intros Ht. unfold ZIPLIST_ENTRY_TAIL. rewrite get_tail by done. cbn [mbind option_bind].
  by rewrite intrev32ifbe_involutive.
Qed.

Lemma get_length b t n r : in_u 16 n -> ZIPLIST_LENGTH host (header b t n ++ r) = Some (intrev16ifbe host n).
Proof using Type.
  intros Hb. unfold ZIPLIST_LENGTH, header. rewrite <- !app_assoc, (app_assoc (le_bytes 4 b)), mread_off by done.
  cbn [mbind option_bind]. by rewrite native_val_le16.
Qed.

Lemma set_bytes b t n r v :
  set_ZIPLIST_BYTES host (header b t n ++ r) (intrev32ifbe host v) = Some (header v t n ++ r).
Proof using Type.
  unfold set_ZIPLIST_BYTES, header. rewrite native_bytes_intrev32, <- !app_assoc.
  by rewrite mwrite_front.
Qed.

Lemma set_tail b t n r v :
  set_ZIPLIST_TAIL_OFFSET host (header b t n ++ r) (intrev32ifbe host v) = Some (header b v n ++ r).
Proof using Type.
  unfold set_ZIPLIST_TAIL_OFFSET, header. rewrite native_bytes_intrev32, <- !app_assoc.
  by rewrite (mwrite_off _ _ (le_bytes 4 v)).
Qed.

Lemma set_len b t n r v :
  set_ZIPLIST_LENGTH host (header b t n ++ r) (intrev16ifbe host v) = Some (header b t v ++ r).
Proof using Type.
  unfold set_ZIPLIST_LENGTH, header. rewrite native_bytes_intrev16, <- !app_assoc.
  rewrite (app_assoc (le_bytes 4 b)), (mwrite_off _ _ (le_bytes 2 v)) by done. by rewrite <- app_assoc.
Qed.

Lemma add_tail b t n r d :
  in_u 32 t -> in_u 32 (t + d) ->
  add_tail_offset host (header b t n ++ r) d = Some (header b (t + d) n ++ r).
Proof using Type.
  intros Ht Hd. unfold add_tail_offset. rewrite get_tail by done. cbn [mbind option_bind].
  rewrite intrev32ifbe_involutive, uwrap_small by done. apply set_tail.
Qed.

(** ** Resizing *)

Lemma mrealloc_grow m n : zlen m <= n -> exists j, zlen j = n - zlen m /\ mrealloc junk m n = m ++ j.
Proof using Type.
  intros Hn. unfold mrealloc. eexists. split; [|f_equal; apply take_ge; unfold zlen in *; lia].
  unfold zlen in *. rewrite length_fmap, length_seq. lia.
Qed.

Lemma mrealloc_shrink a b n : n = zlen a -> mrealloc junk (a ++ b) n = a.
Proof using Type.
  intros ->. unfold mrealloc, zlen. rewrite Nat2Z.id, take_app_length, length_app.
  replace (length a - (length a + length b))%nat with 0%nat by lia. apply app_nil_r.
Qed.

(** Growing: the new bytes [j] precede the terminator, and the byte that was
    the terminator still reads as one. *)
Lemma resize_grow b t n x k sz :
  0 <= k -> sz = 11 + zlen x + k -> sz < 2 ^ 31 -> exists j r,
    zlen j = k /\ j ++ [ZIP_END] = ZIP_END :: r /\
    ziplistResize host junk (header b t n ++ x ++ [ZIP_END]) sz = Some (header sz t n ++ x ++ j ++ [ZIP_END]).
Proof using Type.
  intros Hk -> Hsz. pose proof (zlen_nonneg x). unfold ziplistResize.
  rewrite (uwrap_small 32 (11 + zlen x + k)), (uwrap_small 32 (11 + zlen x + k - 1)) by width_lia.
  destruct (mrealloc_grow (header b t n ++ x ++ [ZIP_END]) (11 + zlen x + k)) as (jk & Hjk & ->).
  { autorewrite with redis_len. lia. }
  autorewrite with redis_len in Hjk. rewrite <- !app_assoc, set_bytes. cbn [mbind option_bind].
  destruct (split_len ([ZIP_END] ++ jk) k 1) as (j & c & E & Hj & Hc); [lia..|autorewrite with redis_len; lia|].
  rewrite E. destruct c as [|c [|c1 c2]]; [done| |rewrite !zlen_cons in Hc; pose proof (zlen_nonneg c2); lia].
  exists j. destruct j as [|d j].
  - exists []. split_and!; [done..|]. rewrite (app_assoc _ x).
    replace ((header (11 + zlen x + k) t n ++ x) ++ [] ++ [c]) with ((header (11 + zlen x + k) t n ++ x) ++ [c] ++ []) by done.
    rewrite (mwrite_off _ [c] [ZIP_END]); [by rewrite app_nil_r, <- app_assoc| |done].
    autorewrite with redis_len in *. lia.
  - injection E as <- ->. exists (j ++ [ZIP_END]). split_and!; [done..|].
    rewrite (app_assoc _ x), (app_assoc (_ ++ x)).
    replace (((header (11 + zlen x + k) t n ++ x) ++ ZIP_END :: j) ++ [c])
      with (((header (11 + zlen x + k) t n ++ x) ++ ZIP_END :: j) ++ [c] ++ []) by done.
    rewrite (mwrite_off _ [c] [ZIP_END]); [by rewrite app_nil_r, <- !app_assoc| |done].
    autorewrite with redis_len in *. lia.
Qed.

Lemma resize_shrink b t n x c y sz :
  sz = 11 + zlen x -> sz < 2 ^ 31 ->
  ziplistResize host junk (header b t n ++ x ++ c :: y) sz = Some (header sz t n ++ x ++ [ZIP_END]).
Proof using Type.
  intros -> Hsz. pose proof (zlen_nonneg x). unfold ziplistResize.
  rewrite (uwrap_small 32 (11 + zlen x)), (uwrap_small 32 (11 + zlen x - 1)) by width_lia.
  replace (header b t n ++ x ++ c :: y) with ((header b t n ++ x ++ [c]) ++ y) by (by rewrite <- !app_assoc).
  rewrite mrealloc_shrink by (autorewrite with redis_len; lia). rewrite set_bytes. cbn [mbind option_bind].
  rewrite (app_assoc _ x). change [c] with ([c] ++ []).
  rewrite (mwrite_off _ [c] [ZIP_END]); [by rewrite app_nil_r, <- app_assoc| |done].
  autorewrite with redis_len. lia.
Qed.

Lemma intrev16_max n : in_u 16 n -> (intrev16ifbe host n <? UINT16_MAX) = (n <? UINT16_MAX).
Proof using Type.
  intros Hn. pose proof (intrev16ifbe_involutive host n Hn) as Hi.
  assert (in_u 16 (intrev16ifbe host n)) as Hr.
  { destruct host; simpl; [done|]. rewrite intrev16_val. apply (rev_val_range 2). }
  assert (intrev16ifbe host UINT16_MAX = UINT16_MAX) as Hm by (by destruct host).
  unfold UINT16_MAX in *. destruct (Z.ltb_spec n 65535).
  - apply Z.ltb_lt. assert (intrev16ifbe host n <> 65535) by congruence || (intros E; rewrite E in Hi; lia). width_lia.
  - assert (n = 65535) as -> by width_lia. by rewrite Hm.
Qed.

Lemma count_range n es : count_ok n es -> in_u 16 n.
Proof using Type. unfold count_ok, UINT16_MAX. pose proof (zlen_nonneg es). width_lia. Qed.

Lemma incr_length b t n r d es es' :
  count_ok n es -> zlen es' = zlen es + d -> d <= 1 ->
  exists n', count_ok n' es' /\ ZIPLIST_INCR_LENGTH host (header b t n ++ r) d = Some (header b t n' ++ r).
Proof using Type.
  intros Hn Hd Hlt. pose proof (count_range _ _ Hn) as Hr. unfold ZIPLIST_INCR_LENGTH.
  rewrite get_length by done. cbn [mbind option_bind]. rewrite intrev16_max by done.
  destruct (Z.ltb_spec n UINT16_MAX).
  - exists (n + d). pose proof (zlen_nonneg es'). unfold count_ok, UINT16_MAX in *.
    rewrite intrev16ifbe_involutive, uwrap_small by (done || width_lia). rewrite set_len. split; [lia|done].
  - exists n. split; [|done]. unfold count_ok in *. lia.
Qed.

(** ** Cascading updates *)

Lemma entry_head a q e r p :
  fits q e.1 -> p = zlen a ->
  exists c, byte_at (a ++ ent_bytes q e ++ r) p = Some c /\ (c =? ZIP_END) = false.
Proof using Type.
  intros Hf Hp. destruct (pl_head _ _ Hf) as (c & l & Hc & Hne & _). exists c. unfold ent_bytes. rewrite Hc.
  split; [by apply byte_at_off|by apply Z.eqb_neq].
Qed.

(** What a reader finds at an entry. *)
Lemma read_entry a q e r p :
  fits q e.1 -> zlen e.2 < 2 ^ 31 -> p = zlen a ->
  exists c, byte_at (a ++ ent_bytes q e ++ r) p = Some c /\ (c =? ZIP_END) = false /\
    zipEntry host (a ++ ent_bytes q e ++ r) p =
      Some (mk_zlentry (pl_size e.1) q (body_lensize e.2) (zlen (body e.2) - body_lensize e.2)
              (pl_size e.1 + body_lensize e.2) (body_enc e.2) p).
Proof using Type.
  intros Hf Hs Hp. destruct (entry_head a q e r p Hf Hp) as (c & ? & ?). exists c.
  split_and!; [done..|by apply zipEntry_spec].
Qed.

Lemma prevlen_size_big q : zipStorePrevEntryLength_size q = pl_size (negb (q <? ZIP_BIG_PREVLEN)).
Proof using Type. unfold zipStorePrevEntryLength_size. by destruct (q <? ZIP_BIG_PREVLEN). Qed.

(** Growing the previous length of the entry [e] found at the end of [a], the
    bytes of [e] and of what follows moving four bytes up. *)
Lemma grow_prevlen a q s r j q' p np n :
  zlen j = 4 -> p = zlen a + 5 -> np = zlen a + 1 -> n = zlen (body s ++ r) -> ZIP_BIG_PREVLEN <= q' ->
  exists m, mmove (a ++ ent_bytes q (false, s) ++ r ++ j ++ [ZIP_END]) p np n = Some m /\
    zipStorePrevEntryLength host m (zlen a) q' = Some (a ++ ent_bytes q' (true, s) ++ r ++ [ZIP_END], 5).
Proof using Type.
  intros Hj -> -> -> Hq'. unfold ent_bytes. cbn [fst snd pl_bytes].
  destruct (split_len ([q] ++ body s ++ r ++ j) 5 (zlen (body s ++ r))) as (y & z & E & Hy & Hz).
  { lia. } { apply zlen_nonneg. } { autorewrite with redis_len. lia. }
  eexists. split; [apply (mmove_off _ (a ++ [q]) (body s ++ r) (j ++ [ZIP_END]) (a ++ y) z [ZIP_END])|].
  { by rewrite <- !app_assoc. }
  { replace ((a ++ y) ++ z ++ [ZIP_END]) with (a ++ (y ++ z) ++ [ZIP_END]) by (by rewrite <- !app_assoc).
    rewrite <- E. by rewrite <- !app_assoc. }
  { rewrite zlen_app. lia. } { by rewrite zlen_app. } { done. } { done. }
  rewrite <- app_assoc, store_prevlen; [|done|].
  - unfold zipStorePrevEntryLength_size. rewrite (proj2 (Z.ltb_ge _ _)) by done. do 2 f_equal.
    by rewrite <- !app_assoc.
  - unfold zipStorePrevEntryLength_size. by rewrite (proj2 (Z.ltb_ge _ _)).
Qed.

Lemma fits_big q : 0 <= q < 2 ^ 32 -> fits q true.
Proof using Type. by split. Qed.

Lemma fits_ent_len e big : zlen e.2 < 2 ^ 31 -> (big = false -> ent_len e < ZIP_BIG_PREVLEN) -> fits (ent_len e) big.
Proof using Type.
  intros Hs Hb. split; [|done]. pose proof (ent_len_pos e). pose proof (body_bound e.2).
  unfold ent_len, pl_size in *. case_match; width_lia.
Qed.

(** Storing a previous length that fits in the field [e] has. *)
Lemma cascade_store a q e r q' :
  ((q' <? ZIP_BIG_PREVLEN) = true \/ e.1 = true) ->
  (if pl_size e.1 >? zipStorePrevEntryLength_size q'
   then zipStorePrevEntryLengthLarge host (a ++ ent_bytes q e ++ r) (zlen a) q'
   else '(zl, _) ← zipStorePrevEntryLength host (a ++ ent_bytes q e ++ r) (zlen a) q'; Some zl) =
    Some (a ++ ent_bytes q' e ++ r).
Proof using Type.
  intros Hq. destruct e as [big s]. unfold ent_bytes. cbn [fst snd] in *. rewrite <- !app_assoc.
  rewrite prevlen_size_big. destruct (q' <? ZIP_BIG_PREVLEN) eqn:E, big; cbn [negb pl_size Z.gtb Z.compare Pos.compare Pos.compare_cont].
  - by rewrite store_large.
  - rewrite store_prevlen; [by rewrite E|done|]. by rewrite prevlen_size_big, E.
  - rewrite store_prevlen; [by rewrite E|done|]. by rewrite prevlen_size_big, E.
  - by destruct Hq.
Qed.

Lemma grow_entry a b t n q s r q' :
  zlen a + 16 + zlen (body s ++ r) < 2 ^ 31 -> in_u 32 t -> t < 2 ^ 31 -> ZIP_BIG_PREVLEN <= q' ->
  b = 12 + zlen a + zlen (body s ++ r) ->
  exists m0 m1 m2, ziplistResize host junk (header b t n ++ a ++ ent_bytes q (false, s) ++ r ++ [ZIP_END]) (b + 4) = Some m0 /\
    ZIPLIST_ENTRY_TAIL host m0 = Some t /\
    (if negb (t =? 10 + zlen a) then add_tail_offset host m0 4 else Some m0) = Some m1 /\
    mmove m1 (10 + zlen a + 5) (10 + zlen a + 1) (b - (10 + zlen a) - 1 - 1) = Some m2 /\
    zipStorePrevEntryLength host m2 (10 + zlen a) q' =
      Some (header (b + 4) (if t =? 10 + zlen a then t else t + 4) n ++ a ++ ent_bytes q' (true, s) ++ r ++ [ZIP_END], 5).
Proof using Type.
  intros Hsz Ht Ht' Hq Hb. pose proof (zlen_nonneg a). pose proof (zlen_nonneg (body s ++ r)).
  destruct (resize_grow b t n (a ++ ent_bytes q (false, s) ++ r) 4 (b + 4)) as (j & _ & Hj & _ & Hres).
  { lia. } { rewrite Hb. autorewrite with redis_len. unfold ent_len. cbn [fst snd pl_size]. lia. } { lia. }
  rewrite <- !app_assoc in Hres. eexists. rewrite Hres.
  set (t' := if t =? 10 + zlen a then t else t + 4).
  exists (header (b + 4) t' n ++ a ++ ent_bytes q (false, s) ++ r ++ j ++ [ZIP_END]).
  destruct (grow_prevlen (header (b + 4) t' n ++ a) q s r j q' (10 + zlen a + 5) (10 + zlen a + 1)
    (b - (10 + zlen a) - 1 - 1)) as (m2 & Hm & Hs); try (rewrite ?zlen_app, ?zlen_header; rewrite ?zlen_app in Hb; lia).
  rewrite <- !app_assoc in Hm, Hs. rewrite zlen_app, zlen_header in Hs. exists m2.
  split; [done|]. split; [by apply entry_tail|]. split; [|done]. subst t'.
  destruct (t =? 10 + zlen a); [done|]. cbn [negb]. apply add_tail; [done|width_lia].
Qed.

Lemma tail_off_grow base e0 s es :
  (if tail_off base (e0 :: (false, s) :: es) =? base + ent_len e0
   then tail_off base (e0 :: (false, s) :: es) else tail_off base (e0 :: (false, s) :: es) + 4) =
  tail_off (base + ent_len e0) ((true, s) :: es).
Proof using Type.
  change (tail_off base (e0 :: (false, s) :: es)) with (tail_off (base + ent_len e0) ((false, s) :: es)).
  destruct es as [|e es]; [cbn [tail_off]; by rewrite Z.eqb_refl|].
  change (tail_off (base + ent_len e0) ((false, s) :: e :: es)) with (tail_off (base + ent_len e0 + ent_len (false, s)) (e :: es)).
  change (tail_off (base + ent_len e0) ((true, s) :: e :: es)) with (tail_off (base + ent_len e0 + ent_len (true, s)) (e :: es)).
  pose proof (tail_off_bounds (base + ent_len e0 + ent_len (false, s)) (e :: es)). pose proof (ent_len_pos (false, s)).
  rewrite (proj2 (Z.eqb_neq _ _)) by lia. replace (ent_len (true, s)) with (ent_len (false, s) + 4) by (unfold ent_len; simpl; lia).
  rewrite Z.add_assoc. symmetry. apply tail_off_shift.
Qed.

Lemma cascade_spec es : forall fuel a e0 q0 q n b t,
  fits q0 e0.1 -> zlen e0.2 < 2 ^ 31 -> chain q es -> (length es < fuel)%nat ->
  b = 11 + zlen a + ent_len e0 + size es -> t = tail_off (10 + zlen a) (e0 :: es) ->
  11 + zlen a + ent_len e0 + max_size es.*2 < 2 ^ 31 ->
  exists es',
    cascade_loop host junk fuel (header b t n ++ a ++ ent_bytes q0 e0 ++ layout q es ++ [ZIP_END]) (10 + zlen a) b =
      Some (header (11 + zlen a + ent_len e0 + size es') (tail_off (10 + zlen a) (e0 :: es')) n ++
            a ++ ent_bytes q0 e0 ++ layout (ent_len e0) es' ++ [ZIP_END]) /\
    es'.*2 = es.*2 /\ chain (ent_len e0) es'.
Proof using Type.
  induction es as [|e1 es IH]; intros fuel a e0 q0 q n b t Hf0 Hs0 Hc Hfuel Hb Ht Hsz;
    (destruct fuel as [|fuel]; [lia|]); cbn [cascade_loop]; pose proof (zlen_nonneg a).
  - destruct (read_entry (header b t n ++ a) q0 e0 (layout q [] ++ [ZIP_END]) (10 + zlen a)) as (c & Hc0 & Hne & He);
      [done..|by rewrite zlen_app|]. rewrite <- app_assoc in *.
    rewrite Hc0. cbn [mbind option_bind]. rewrite Hne, He. cbn [mbind option_bind headersize zle_len].
    rewrite rawlen_entry by done. cbn [layout app].
    rewrite (app_assoc a), (app_assoc _ (a ++ _)), byte_at_off by (autorewrite with redis_len; lia).
    cbn [mbind option_bind]. change (ZIP_END =? ZIP_END) with true. cbv iota.
    exists []. rewrite <- !app_assoc. by subst b t.
  - destruct (read_entry (header b t n ++ a) q0 e0 (layout q (e1 :: es) ++ [ZIP_END]) (10 + zlen a)) as (c & Hc0 & Hne & He);
      [done..|by rewrite zlen_app|]. rewrite <- app_assoc in *.
    rewrite Hc0. cbn [mbind option_bind]. rewrite Hne, He. cbn [mbind option_bind headersize zle_len].
    rewrite rawlen_entry by done. cbn [layout chain] in *. destruct Hc as (Hf1 & Hs1 & Hc). clear c Hc0 Hne He.
    destruct (read_entry (header b t n ++ a ++ ent_bytes q0 e0) q e1 (layout (ent_len e1) es ++ [ZIP_END]) (10 + zlen a + ent_len e0)) as (c & Hc0 & Hne & He);
      [done..|autorewrite with redis_len; lia|]. rewrite <- !app_assoc in *.
    rewrite Hc0. cbn [mbind option_bind]. rewrite Hne, He. cbn [mbind option_bind prevrawlen prevrawlensize].
    destruct (Z.eqb_spec q (ent_len e0)) as [->|Hq].
    { exists (e1 :: es). cbn [layout chain]. rewrite <- app_assoc. by subst b t. }
    destruct e1 as [big s]. cbn [fst snd] in *.
    destruct (decide (big = false /\ ZIP_BIG_PREVLEN <= ent_len e0)) as [[-> Hlarge]|Hfit].
    + rewrite prevlen_size_big, (proj2 (Z.ltb_ge (ent_len e0) ZIP_BIG_PREVLEN)) by done. cbn [negb pl_size Z.ltb Z.compare Pos.compare Pos.compare_cont].
      rewrite fmap_cons in Hsz. cbn [size max_size snd] in *. pose proof (size_max es).
      assert (ent_len (false, s) = 1 + zlen (body s)) as Hl by done.
      assert (ent_len (true, s) = 5 + zlen (body s)) as Hl' by done.
      set (a' := a ++ ent_bytes q0 e0).
      assert (zlen a' = zlen a + ent_len e0) as Ha' by (subst a'; by autorewrite with redis_len).
      pose proof (tail_off_bounds (10 + zlen a) (e0 :: (false, s) :: es)) as Htb. cbn [size] in Htb.
      pose proof (size_nonneg es). pose proof (ent_len_pos e0).
      destruct (grow_entry a' b t n q s (layout (ent_len (false, s)) es) (ent_len e0)) as (m0 & m1 & m2 & E0 & E1 & E2 & E3 & E4).
      { autorewrite with redis_len. lia. } { width_lia. } { lia. } { done. } { autorewrite with redis_len. lia. }
      replace (10 + zlen a + ent_len e0) with (10 + zlen a') by lia. subst a'. rewrite <- app_assoc in E0, E4.
      change (5 - 1) with 4. rewrite E0. cbn [mbind option_bind]. rewrite E1. cbn [mbind option_bind].
      rewrite E2. cbn [mbind option_bind]. rewrite E3. cbn [mbind option_bind]. rewrite E4. cbn [mbind option_bind].
      rewrite (app_assoc a). destruct (IH fuel (a ++ ent_bytes q0 e0) (true, s) (ent_len e0) (ent_len (false, s)) n (b + 4)
        (if t =? 10 + zlen (a ++ ent_bytes q0 e0) then t else t + 4)) as (es' & Hes & Hval & Hch).
      { by apply fits_ent_len. } { done. } { done. } { cbn in Hfuel. lia. } { lia. }
      { rewrite Ha', Ht, Z.add_assoc. apply tail_off_grow. } { lia. }
      exists ((true, s) :: es'). rewrite Hes, Ha'. cbn [size layout chain fst snd]. rewrite !fmap_cons, Hval.
      split_and!; [|done|by apply fits_ent_len|done|done].
      f_equal. rewrite <- !app_assoc. f_equal.
      change (tail_off (10 + zlen a) (e0 :: (true, s) :: es')) with (tail_off (10 + zlen a + ent_len e0) ((true, s) :: es')).
      f_equal; [lia|f_equal; lia].
    + assert ((ent_len e0 <? ZIP_BIG_PREVLEN) = true \/ big = true) as Hor.
      { destruct big; [by right|left]. apply Z.ltb_lt. destruct (Z.lt_ge_cases (ent_len e0) ZIP_BIG_PREVLEN); [done|]. tauto. }
      rewrite (proj2 (Z.ltb_ge (pl_size big) _)).
      2:{ rewrite prevlen_size_big. destruct Hor as [-> | ->]; [destruct big; simpl; lia|]. destruct (negb _); simpl; lia. }
      pose proof (cascade_store (header b t n ++ a ++ ent_bytes q0 e0) q (big, s) (layout (ent_len (big, s)) es ++ [ZIP_END]) (ent_len e0) Hor) as Hst.
      rewrite <- !app_assoc in Hst. autorewrite with redis_len in Hst. cbn [fst] in Hst.
      replace (10 + (zlen a + ent_len e0)) with (10 + zlen a + ent_len e0) in Hst by lia. rewrite Hst.
      exists ((big, s) :: es). cbn [layout chain size]. rewrite <- !app_assoc. subst b t.
      split_and!; [done|done|apply fits_ent_len; [done|]|done|done].
      cbn [fst]. intros ->. by destruct Hor as [?%Z.ltb_lt|].
Qed.

Lemma length_size es : 2 * zlen es <= size es.
Proof using Type.
  induction es as [|e es IH]; [done|]. cbn [size]. rewrite zlen_cons. pose proof (ent_len_pos e). lia.
Qed.

Lemma cascadeUpdate_spec a e0 q0 q es n b t p :
  fits q0 e0.1 -> zlen e0.2 < 2 ^ 31 -> chain q es ->
  b = 11 + zlen a + ent_len e0 + size es -> t = tail_off (10 + zlen a) (e0 :: es) ->
  11 + zlen a + ent_len e0 + max_size es.*2 < 2 ^ 31 -> p = 10 + zlen a ->
  exists es',
    __ziplistCascadeUpdate host junk (header b t n ++ a ++ ent_bytes q0 e0 ++ layout q es ++ [ZIP_END]) p =
      Some (header (11 + zlen a + ent_len e0 + size es') (tail_off (10 + zlen a) (e0 :: es')) n ++
            a ++ ent_bytes q0 e0 ++ layout (ent_len e0) es' ++ [ZIP_END]) /\
    es'.*2 = es.*2 /\ chain (ent_len e0) es'.
Proof using Type.
  intros ??? Hb ? Hm ->. pose proof (size_max es). pose proof (zlen_nonneg a). pose proof (ent_len_pos e0).
  pose proof (length_size es). pose proof (zlen_nonneg es).
  unfold __ziplistCascadeUpdate. rewrite get_bytes by width_lia. cbn [mbind option_bind].
  rewrite intrev32ifbe_involutive by width_lia. apply cascade_spec; try done.
  apply Nat2Z.inj_lt. change (zlen es < zlen (header b t n ++ a ++ ent_bytes q0 e0 ++ layout q es ++ [ZIP_END])).
  autorewrite with redis_len. lia.
Qed.

(** ** Insertion *)

Lemma body_length s : zlen (body s) < 2 ^ 31 -> zlen s < 2 ^ 31.
Proof using Type.
  unfold body. destruct (zipTryEncoding s) as [[v e]|] eqn:E.
  - apply try_encoding_spec in E as [?%string2ll_short _]. lia.
  - rewrite zlen_app. pose proof (zlen_nonneg (encoding_buf 0 (zlen s))). lia.
Qed.

(** The integer and the encoding [__ziplistInsert] works with. *)
Lemma insert_reqlen s :
  exists r, (match zipTryEncoding s with Some _ => zipIntSize (default (123456789, 0) (zipTryEncoding s)).2
             | None => Some (zlen s) end) = Some r /\
    r + zipStoreEntryEncoding_size (default (123456789, 0) (zipTryEncoding s)).2 (zlen s) = zlen (body s).
Proof using Type.
  unfold body. destruct (zipTryEncoding s) as [[v e]|] eqn:E; cbn [default from_option id snd].
  - apply try_encoding_spec in E as [_ (Hi & Hs & _)%int_enc_facts]. eexists. split; [done|].
    unfold zipStoreEntryEncoding_size. rewrite Hs, zlen_cons. lia.
  - eexists. split; [done|]. rewrite zlen_app, zlen_encoding_buf. lia.
Qed.

Lemma insert_write_spec a g r q s p :
  p = zlen a -> zlen g = ent_len (negb (q <? ZIP_BIG_PREVLEN), s) ->
  insert_write host (a ++ g ++ r) p q (default (123456789, 0) (zipTryEncoding s)).2
    (default (123456789, 0) (zipTryEncoding s)).1 s =
  Some (a ++ ent_bytes q (negb (q <? ZIP_BIG_PREVLEN), s) ++ r).
Proof using Type.
  intros -> Hg. unfold ent_len in Hg. cbn [fst snd] in Hg. rewrite <- prevlen_size_big in Hg.
  assert (0 <= zipStorePrevEntryLength_size q) by (rewrite prevlen_size_big; by destruct (q <? ZIP_BIG_PREVLEN)).
  destruct (split_len g (zipStorePrevEntryLength_size q) (zlen (body s))) as (g1 & g2 & -> & H1 & H2); [done|apply zlen_nonneg|done|].
  unfold insert_write. rewrite <- app_assoc, store_prevlen by done. cbn [mbind option_bind].
  unfold zipStoreEntryEncoding, ent_bytes. cbn [fst snd]. set (pl := pl_bytes _ q).
  assert (zlen a + zipStorePrevEntryLength_size q = zlen (a ++ pl)) as ->
    by (rewrite zlen_app; subst pl; by rewrite zlen_pl_bytes, prevlen_size_big).
  rewrite (app_assoc a pl). unfold body in *. destruct (zipTryEncoding s) as [[v e]|] eqn:E; cbn [default from_option id fst snd].
  - apply try_encoding_spec in E as [_ He]. destruct (int_enc_facts _ _ He) as (_ & Hs & _).
    destruct (split_len g2 1 (zlen (int_bytes e v))) as (g3 & g4 & -> & H3 & H4); [done|apply zlen_nonneg|by rewrite H2, zlen_cons|].
    unfold encoding_buf. rewrite Hs. rewrite <- (app_assoc g3), (mwrite_off _ g3 [e]) by done. cbn [mbind option_bind].
    rewrite (app_assoc _ [e]), (save_integer host _ g4 e v) by (rewrite ?zlen_app; done).
    by rewrite <- !app_assoc.
  - rewrite zlen_app in H2. destruct (split_len g2 _ _ (zlen_nonneg _) (zlen_nonneg s) H2) as (g3 & g4 & -> & H3 & H4).
    rewrite <- (app_assoc g3), (mwrite_off _ g3) by done. cbn [mbind option_bind]. simpl ZIP_IS_STR. cbv iota.
    rewrite (app_assoc _ (encoding_buf 0 _)), (mwrite_off _ g4) by (rewrite ?zlen_app; done).
    by rewrite <- !app_assoc.
Qed.

Lemma last_len_snoc q es e : last_len q (es ++ [e]) = ent_len e.
Proof using Type. by rewrite last_len_app. Qed.

Lemma insert_prevlen_spec b n es1 es2 :
  chain 0 (es1 ++ es2) -> 11 + size (es1 ++ es2) < 2 ^ 31 ->
  insert_prevlen host (header b (tail_off 10 (es1 ++ es2)) n ++ layout 0 es1 ++ layout (last_len 0 es1) es2 ++ [ZIP_END])
    (10 + size es1) = Some (last_len 0 es1).
Proof using Type.
  intros Hc Hb. unfold insert_prevlen. pose proof (tail_off_bounds 10 (es1 ++ es2)).
  destruct es2 as [|e2 es2]; rewrite app_assoc.
  - cbn [layout app]. rewrite byte_at_off by (autorewrite with redis_len; lia). cbn [mbind option_bind].
    change (negb (ZIP_END =? ZIP_END)) with false. cbv iota. rewrite <- app_assoc, entry_tail by width_lia.
    cbn [mbind option_bind]. rewrite app_nil_r in *.
    destruct es1 as [|e1 es1 _] using rev_ind.
    + cbn [tail_off layout app last_len]. by rewrite byte_at_off.
    + rewrite tail_off_snoc in *. rewrite layout_app, last_len_snoc. cbn [layout]. rewrite app_nil_r.
      apply chain_app in Hc as [_ [Hf [Hs _]]].
      replace (header b (10 + size es1) n ++ (layout 0 es1 ++ ent_bytes (last_len 0 es1) e1) ++ [ZIP_END])
        with ((header b (10 + size es1) n ++ layout 0 es1) ++ ent_bytes (last_len 0 es1) e1 ++ [ZIP_END])
        by (by rewrite <- !app_assoc).
      destruct (entry_head (header b (10 + size es1) n ++ layout 0 es1) (last_len 0 es1) e1 [ZIP_END] (10 + size es1))
        as (c & -> & Hne); [done|by autorewrite with redis_len|]. cbn [mbind option_bind]. rewrite Hne.
      apply rawEntryLength_spec; [done|done|by autorewrite with redis_len].
  - apply chain_app in Hc as [_ [Hf [Hs _]]]. cbn [layout]. rewrite <- (app_assoc (ent_bytes _ _)).
    edestruct entry_head as (c & -> & Hne); [done|by autorewrite with redis_len|]. cbn [mbind option_bind]. rewrite Hne.
    unfold ent_bytes. rewrite <- (app_assoc (pl_bytes _ _)). rewrite decode_prevlen; [done|done|by autorewrite with redis_len].
Qed.

(** Where the tail is after the entries have moved by [d1] and, if the moved
    entry is not the last, by [d2] more. *)
Lemma tail_off_insert es1 e2 es3 enew e2' :
  tail_off 10 (es1 ++ enew :: e2' :: es3) =
    tail_off 10 (es1 ++ e2 :: es3) + ent_len enew +
    match es3 with [] => 0 | _ => ent_len e2' - ent_len e2 end.
Proof using Type.
  rewrite !tail_off_app. set (base := 10 + size es1).
  change (tail_off base (enew :: e2' :: es3)) with (tail_off (base + ent_len enew) (e2' :: es3)).
  rewrite tail_off_shift. destruct es3 as [|e3 es3]; [cbn [tail_off]; lia|].
  change (tail_off base (e2' :: e3 :: es3)) with (tail_off (base + ent_len e2') (e3 :: es3)).
  change (tail_off base (e2 :: e3 :: es3)) with (tail_off (base + ent_len e2) (e3 :: es3)).
  rewrite !tail_off_shift. lia.
Qed.

Lemma tail_off_insert_base es1 e2 es3 enew e2' :
  tail_off (10 + size es1 + ent_len enew) (e2' :: es3) =
    tail_off 10 (es1 ++ e2 :: es3) + ent_len enew +
    match es3 with [] => 0 | _ => ent_len e2' - ent_len e2 end.
Proof using Type. rewrite <- tail_off_insert. by rewrite tail_off_app. Qed.

(** The bytes after the [memmove]: [g] is the room for the new entry, [y] the
    room for the previous length of the entry that follows it. *)
Lemma shift_entry p q big s r j reqlen d pos cur :
  pos = zlen p -> zlen j = reqlen + d -> 0 <= reqlen -> 0 <= pl_size big + d -> d <= zlen p ->
  cur = zlen p + pl_size big + zlen (body s ++ r) + 1 ->
  exists g y, zlen g = reqlen /\ zlen y = pl_size big + d /\
    mmove (p ++ ent_bytes q (big, s) ++ r ++ j ++ [ZIP_END]) (pos + reqlen) (pos - d) (cur - pos - 1 + d) =
      Some (p ++ g ++ y ++ body s ++ r ++ [ZIP_END]).
Proof using Type.
  intros -> Hj Hreq Hpl Hd ->. unfold ent_bytes. cbn [fst snd].
  pose proof (zlen_nonneg (body s ++ r)).
  assert (0 <= pl_size big) by (destruct big; simpl; lia).
  destruct (split_len (p ++ pl_bytes big q) (zlen p - d) (pl_size big + d)) as (p' & y & E & Hp' & Hy);
    [lia|lia|rewrite zlen_app, zlen_pl_bytes; lia|].
  destruct (split_len (pl_bytes big q ++ body s ++ r ++ j) reqlen (zlen (y ++ body s ++ r))) as (g & z & E' & Hg & Hz);
    [done|apply zlen_nonneg|rewrite !zlen_app, zlen_pl_bytes in *; lia|].
  exists g, y. split_and!; [done..|].
  rewrite (mmove_off _ p' (y ++ body s ++ r) (j ++ [ZIP_END]) (p ++ g) z [ZIP_END]).
  - by rewrite <- !app_assoc.
  - rewrite <- !app_assoc, (app_assoc p), E. by rewrite <- !app_assoc.
  - replace ((p ++ g) ++ z ++ [ZIP_END]) with (p ++ (g ++ z) ++ [ZIP_END]) by (by rewrite <- !app_assoc).
    rewrite <- E'. by rewrite <- !app_assoc.
  - rewrite zlen_app. lia.
  - lia.
  - rewrite !zlen_app in *. lia.
  - done.
Qed.

(** Whether anything follows an entry. *)
Lemma after_entry a q es r p :
  p = zlen a -> chain q es ->
  exists c, byte_at (a ++ layout q es ++ ZIP_END :: r) p = Some c /\
    negb (c =? ZIP_END) = match es with [] => false | _ => true end.
Proof using Type.
  intros -> Hc. destruct es as [|e es]; [exists ZIP_END; split; [apply byte_at_mid|done]|].
  destruct Hc as [Hf _]. cbn [layout]. rewrite <- app_assoc.
  destruct (entry_head a q e (layout (ent_len e) es ++ ZIP_END :: r) _ Hf eq_refl) as (c & -> & Hne). exists c. by rewrite Hne.
Qed.

Lemma insert_move_mid es1 q big2 s2 es3 b n j reqlen d force cur t big2' :
  big2' = (if (force : bool) then true else negb (reqlen <? ZIP_BIG_PREVLEN)) ->
  d = pl_size big2' - pl_size big2 -> (force = true -> big2 = true) ->
  fits q big2 -> fits reqlen big2' -> zlen s2 < 2 ^ 31 -> chain (ent_len (big2, s2)) es3 ->
  zlen j = reqlen + d -> in_u 32 t -> in_u 32 (t + reqlen) -> in_u 32 (t + reqlen + d) ->
  cur = 11 + size es1 + ent_len (big2, s2) + size es3 -> 0 <= reqlen ->
  exists g, zlen g = reqlen /\
    insert_move host (header b t n ++ layout 0 es1 ++ ent_bytes q (big2, s2) ++
                      layout (ent_len (big2, s2)) es3 ++ j ++ [ZIP_END]) (10 + size es1) cur reqlen d force =
    Some (header b (t + reqlen + match es3 with [] => 0 | _ => d end) n ++ layout 0 es1 ++ g ++
          ent_bytes reqlen (big2', s2) ++ layout (ent_len (big2, s2)) es3 ++ [ZIP_END]).
Proof using Type.
  intros Hb' Hd Hforce Hf Hf' Hs Hc Hj Ht Ht1 Ht2 Hcur Hreq. unfold insert_move.
  rewrite (app_assoc _ (layout 0 es1)). set (p := header b t n ++ layout 0 es1).
  assert (10 + size es1 = zlen p) as Hp by (subst p; by autorewrite with redis_len).
  destruct (entry_head p q (big2, s2) (layout (ent_len (big2, s2)) es3 ++ j ++ [ZIP_END]) _ Hf Hp) as (c & -> & Hne).
  cbn [mbind option_bind]. rewrite Hne. cbn [negb].
  destruct (shift_entry p q big2 s2 (layout (ent_len (big2, s2)) es3) j reqlen d (10 + size es1) cur) as (g & y & Hg & Hy & ->).
  { done. } { done. } { done. } { subst d. destruct big2, big2'; simpl; lia. }
  { rewrite <- Hp. pose proof (size_nonneg es1). subst d. destruct big2, big2'; simpl; lia. }
  { rewrite <- Hp. autorewrite with redis_len. subst cur. unfold ent_len. simpl. lia. }
  exists g. split; [done|]. cbn [mbind option_bind]. rewrite (uwrap_small 32 reqlen) by (destruct Hf'; done).
  assert ((if force then zipStorePrevEntryLengthLarge host (p ++ g ++ y ++ body s2 ++ layout (ent_len (big2, s2)) es3 ++ [ZIP_END]) (10 + size es1 + reqlen) reqlen
     else '(zl, _) ← zipStorePrevEntryLength host (p ++ g ++ y ++ body s2 ++ layout (ent_len (big2, s2)) es3 ++ [ZIP_END]) (10 + size es1 + reqlen) reqlen; Some zl) =
     Some (p ++ g ++ ent_bytes reqlen (big2', s2) ++ layout (ent_len (big2, s2)) es3 ++ [ZIP_END])) as ->.
  { rewrite (app_assoc p). unfold ent_bytes. cbn [fst snd]. subst big2'. destruct force.
    - rewrite store_large; [by rewrite <- !app_assoc|rewrite zlen_app; lia|]. rewrite Hy, Hd. simpl. lia.
    - rewrite store_prevlen; [by rewrite <- !app_assoc|rewrite zlen_app; lia|].
      rewrite Hy, Hd, prevlen_size_big. lia. }
  cbn [mbind option_bind]. subst p. rewrite <- !app_assoc. rewrite add_tail by done. cbn [mbind option_bind].
  rewrite (app_assoc (layout 0 es1)), (app_assoc _ (layout 0 es1 ++ g)).
  rewrite zipEntry_spec; [|done|done|autorewrite with redis_len; lia]. cbn [mbind option_bind headersize zle_len fst snd].
  rewrite (app_assoc _ (ent_bytes _ _)).
  edestruct (after_entry ((header b (t + reqlen) n ++ layout 0 es1 ++ g) ++ ent_bytes reqlen (big2', s2))
    (ent_len (big2, s2)) es3 []) as (c' & -> & Hc'); [|done|].
  { autorewrite with redis_len. unfold ent_len. cbn [fst snd]. lia. }
  cbn [mbind option_bind]. rewrite Hc', <- !app_assoc. destruct es3; [by rewrite Z.add_0_r|by apply add_tail].
Qed.

Lemma zl_rep_split zl es1 es2 : ziplist_rep zl (es1 ++ es2) -> exists n, count_ok n (es1 ++ es2) /\
  zl = header (11 + size (es1 ++ es2)) (tail_off 10 (es1 ++ es2)) n ++
       layout 0 es1 ++ layout (last_len 0 es1) es2 ++ [ZIP_END].
Proof using Type. intros [_ _ (n & Hn & ->)]. exists n. split; [done|]. by rewrite layout_app, <- app_assoc. Qed.

Lemma zl_rep_size zl es : ziplist_rep zl es -> 11 + size es < 2 ^ 31.
Proof using Type. intros [_ H _]. pose proof (size_max es). lia. Qed.

(** The insertion once the size of the entry has been computed. *)
Lemma insert_open zl es1 es2 s :
  ziplist_rep zl (es1 ++ es2) ->
  let q := last_len 0 es1 in
  __ziplistInsert host junk zl (10 + size es1) s =
    insert_sized host junk zl (10 + size es1) (11 + size (es1 ++ es2)) q
      (ent_len (negb (q <? ZIP_BIG_PREVLEN), s)) (default (123456789, 0) (zipTryEncoding s)).2
      (default (123456789, 0) (zipTryEncoding s)).1 s.
Proof using Type.
  intros Hrep q. pose proof (zl_rep_size _ _ Hrep). pose proof (size_nonneg (es1 ++ es2)).
  destruct (zl_rep_split _ _ _ Hrep) as (n & Hn & ->). unfold __ziplistInsert.
  rewrite get_bytes by width_lia. cbn [mbind option_bind]. rewrite intrev32ifbe_involutive by width_lia.
  rewrite insert_prevlen_spec by (done || by apply Hrep). cbn [mbind option_bind].
  destruct (insert_reqlen s) as (r & -> & Hr). cbn [mbind option_bind]. fold q.
  replace (r + _ + _) with (ent_len (negb (q <? ZIP_BIG_PREVLEN), s)); [reflexivity|].
  unfold ent_len. cbn [fst snd]. rewrite <- Hr, <- prevlen_size_big. lia.
Qed.

Lemma fits_last es big : chain 0 es -> (big = false -> last_len 0 es < ZIP_BIG_PREVLEN) -> fits (last_len 0 es) big.
Proof using Type.
  intros Hc Hb. destruct es as [|e es _] using rev_ind; [done|]. rewrite last_len_snoc in *.
  apply chain_app in Hc as [_ (_ & Hs & _)]. by apply fits_ent_len.
Qed.

Lemma fits_store q : 0 <= q < 2 ^ 32 -> fits q (negb (q <? ZIP_BIG_PREVLEN)).
Proof using Type. intros. split; [done|]. by intros ?%negb_false_iff%Z.ltb_lt. Qed.

Lemma max_size_insert (es1 es2 : list entry) s :
  max_size (es1.*2 ++ s :: es2.*2) = max_size (es1 ++ es2).*2 + 5 + zlen (body s).
Proof using Type. rewrite fmap_app, !max_size_app. cbn [max_size]. lia. Qed.

Lemma count_insert n es1 es2 e es2' b t r :
  count_ok n (es1 ++ es2) -> length es2' = length es2 -> exists n', count_ok n' (es1 ++ e :: es2') /\
    ZIPLIST_INCR_LENGTH host (header b t n ++ r) 1 = Some (header b t n' ++ r).
Proof using Type.
  intros Hn Hl. eapply incr_length; [done| |done]. unfold zlen. rewrite !length_app, length_cons, Hl. lia.
Qed.

Lemma insert_end_spec zl (es1 : list entry) s :
  ziplist_rep zl es1 -> 11 + max_size (es1.*2 ++ [s]) < 2 ^ 31 ->
  exists zl' big, __ziplistInsert host junk zl (10 + size es1) s = Some zl' /\ ziplist_rep zl' (es1 ++ [(big, s)]).
Proof using Type.
  intros Hrep Hroom. rewrite <- (app_nil_r es1) in Hrep. rewrite (insert_open _ _ _ _ Hrep).
  set (q := last_len 0 es1). set (big := negb (q <? ZIP_BIG_PREVLEN)).
  pose proof (zl_rep_size _ _ Hrep). pose proof (rep_chain _ _ Hrep) as Hch. destruct (zl_rep_split _ _ _ Hrep) as (n & Hn & ->).
  rewrite !app_nil_r in *. cbn [layout app].
  pose proof (size_max es1). pose proof (size_nonneg es1). rewrite max_size_app in Hroom. cbn [max_size] in Hroom.
  pose proof (ent_len_pos (big, s)). assert (ent_len (big, s) <= 5 + zlen (body s)) by (unfold ent_len; simpl; destruct big; simpl; lia).
  unfold insert_sized. rewrite app_assoc, byte_at_off by (autorewrite with redis_len; lia). cbn [mbind option_bind].
  change (negb (ZIP_END =? ZIP_END)) with false. cbn [mbind option_bind Z.eqb andb].
  rewrite <- app_assoc. destruct (resize_grow (11 + size es1) (tail_off 10 es1) n (layout 0 es1) (ent_len (big, s))
    (11 + size es1 + ent_len (big, s) + 0)) as (j & r & Hj & Hr & ->); [lia|autorewrite with redis_len; lia|lia|].
  cbn [mbind option_bind]. unfold insert_move. rewrite Hr, app_assoc, byte_at_off by (autorewrite with redis_len; lia).
  cbn [mbind option_bind]. change (negb (ZIP_END =? ZIP_END)) with false. cbv iota.
  rewrite <- app_assoc, <- Hr, (uwrap_small 32 (10 + size es1)), set_tail by width_lia. cbn [mbind option_bind].
  cbn [negb mbind option_bind].
  rewrite app_assoc, insert_write_spec by (autorewrite with redis_len; done). cbn [mbind option_bind]. fold big.
  rewrite <- app_assoc. rewrite <- (app_nil_r es1) in Hn.
  destruct (count_insert n es1 [] (big, s) [] (11 + size es1 + ent_len (big, s) + 0) (10 + size es1)
    (layout 0 es1 ++ ent_bytes q (big, s) ++ [ZIP_END]) Hn eq_refl) as (n' & Hn' & ->).
  eexists _, big. split; [done|]. constructor.
  - apply chain_app. split; [done|]. cbn [chain fst snd]. split_and!; [|apply body_length; lia|done].
    apply fits_last; [done|]. by intros ?%negb_false_iff%Z.ltb_lt.
  - rewrite fmap_app, max_size_app. cbn. lia.
  - exists n'. split; [done|]. rewrite size_app, tail_off_snoc, layout_app, <- !app_assoc. cbn [layout size app].
    rewrite app_nil_r. f_equal. f_equal. lia.
Qed.

Lemma ent_len_le e : ent_len e <= 5 + zlen (body e.2).
Proof using Type. unfold ent_len, pl_size. case_match; lia. Qed.

(** The change of size of the next entry's previous length, and the size it
    ends up with. *)
Lemma next_diff r big2 :
  let nd := zipStorePrevEntryLength_size r - pl_size big2 in
  let force := (nd =? -4) && (r <? 4) in
  exists big2', big2' = (if force then true else negb (r <? ZIP_BIG_PREVLEN)) /\
    (if force then 0 else nd) = pl_size big2' - pl_size big2 /\ (force = true -> big2 = true) /\
    (0 <= r < 2 ^ 32 -> fits r big2') /\ (2 <= r -> 0 <= r + (if force then 0 else nd)).
Proof using Type.
  intros nd force. eexists. split; [done|]. subst nd force. rewrite prevlen_size_big.
  destruct (Z.ltb_spec r 4).
  - rewrite (proj2 (Z.ltb_lt r ZIP_BIG_PREVLEN)) by (unfold ZIP_BIG_PREVLEN; lia).
    destruct big2; simpl; split_and!; try done; try lia. intros. split; [done|]. intros. unfold ZIP_BIG_PREVLEN. lia.
  - rewrite andb_false_r. split_and!; [done|done|apply fits_store|].
    destruct (r <? _), big2; simpl; lia.
Qed.

Lemma prevlen_diff a q e r p len :
  fits q e.1 -> p = zlen a ->
  zipPrevLenByteDiff (a ++ ent_bytes q e ++ r) p len = Some (zipStorePrevEntryLength_size len - pl_size e.1).
Proof using Type.
  intros Hf Hp. unfold zipPrevLenByteDiff, ent_bytes. by rewrite <- app_assoc, decode_prevlensize.
Qed.

Lemma layout_snoc3 es1 q e l : layout q (es1 ++ e :: l) = layout q es1 ++ ent_bytes (last_len q es1) e ++ layout (ent_len e) l.
Proof using Type. by rewrite layout_app. Qed.

(** The update after a move: [e2] has got the previous length [q0] and a field
    of the size [big2'], the rest becomes well formed again. *)
Lemma maybe_cascade a q0 big2' s2 big2 es3 n d t b p :
  d = pl_size big2' - pl_size big2 -> fits q0 big2' -> zlen s2 < 2 ^ 31 ->
  chain (ent_len (big2, s2)) es3 -> 11 + zlen a + max_size ((big2, s2) :: es3).*2 < 2 ^ 31 ->
  b = 11 + zlen a + ent_len (big2', s2) + size es3 ->
  t = tail_off (10 + zlen a) ((big2', s2) :: es3) -> p = 10 + zlen a -> exists es3',
  (if negb (d =? 0) then __ziplistCascadeUpdate host junk (header b t n ++ a ++
     ent_bytes q0 (big2', s2) ++ layout (ent_len (big2, s2)) es3 ++ [ZIP_END]) p
   else Some (header b t n ++ a ++
     ent_bytes q0 (big2', s2) ++ layout (ent_len (big2, s2)) es3 ++ [ZIP_END])) =
  Some (header (11 + zlen a + size ((big2', s2) :: es3')) (tail_off (10 + zlen a) ((big2', s2) :: es3')) n ++
     a ++ layout q0 ((big2', s2) :: es3') ++ [ZIP_END]) /\
  es3'.*2 = es3.*2 /\ chain q0 ((big2', s2) :: es3').
Proof using Type.
  intros Hd Hf Hs Hc Hm Hb Ht ->. rewrite fmap_cons in Hm. cbn [max_size snd] in Hm.
  pose proof (ent_len_le (big2', s2)) as Hle. cbn [snd] in Hle.
  destruct (Z.eqb_spec d 0) as [Hd0|Hd0]; cbn [negb].
  - assert (big2' = big2) as -> by (destruct big2, big2'; simpl in Hd; lia || done).
    exists es3. cbn [layout chain size fst snd]. rewrite <- (app_assoc (ent_bytes _ _)). subst b t.
    split_and!; [|done..]. by rewrite <- Z.add_assoc.
  - destruct (cascadeUpdate_spec a (big2', s2) q0 (ent_len (big2, s2)) es3 n b t (10 + zlen a))
      as (es3' & He & Hv & Hch); [done..|lia|done|].
    exists es3'. rewrite He. cbn [layout chain size fst snd]. rewrite <- (app_assoc (ent_bytes _ _)).
    split_and!; [|done..]. by rewrite Z.add_assoc.
Qed.

Lemma insert_mid_spec zl es1 e2 es3 s :
  ziplist_rep zl (es1 ++ e2 :: es3) -> 11 + max_size (es1.*2 ++ s :: (e2 :: es3).*2) < 2 ^ 31 ->
  exists zl' big es', __ziplistInsert host junk zl (10 + size es1) s = Some zl' /\
    es'.*2 = (e2 :: es3).*2 /\ ziplist_rep zl' (es1 ++ (big, s) :: es').
Proof using Type.
  intros Hrep Hroom. rewrite (insert_open _ _ _ _ Hrep).
  set (q := last_len 0 es1). set (big := negb (q <? ZIP_BIG_PREVLEN)).
  pose proof (rep_chain _ _ Hrep) as [Hc1 Hc2]%chain_app.
  destruct (zl_rep_split _ _ _ Hrep) as (n & Hn & ->). destruct e2 as [big2 s2]. fold q in Hc2 |- *.
  destruct Hc2 as (Hf2 & Hs2 & Hc3). cbn [fst snd] in *.
  rewrite max_size_app in Hroom. cbn [max_size] in Hroom.
  pose proof (size_max es1). pose proof (size_nonneg es1). pose proof (size_max ((big2, s2) :: es3)) as Hsz.
  pose proof (tail_off_bounds 10 (es1 ++ (big2, s2) :: es3)) as Htb. rewrite size_app in Htb.
  pose proof (ent_len_pos (big, s)). pose proof (ent_len_le (big, s)) as Hle. cbn [snd] in Hle.
  set (R := ent_len (big, s)) in *. pose proof (size_nonneg es3).
  pose proof (ent_len_le (big2, s2)) as Hle2. pose proof (ent_len_pos (big2, s2)).
  rewrite fmap_cons in Hroom, Hsz. cbn [max_size snd size] in *. pose proof (size_max es3).
  unfold insert_sized. cbn [layout]. rewrite <- (app_assoc (ent_bytes _ _)), (app_assoc _ (layout 0 es1)).
  destruct (entry_head (header (11 + size (es1 ++ (big2, s2) :: es3)) (tail_off 10 (es1 ++ (big2, s2) :: es3)) n ++ layout 0 es1)
    q (big2, s2) (layout (ent_len (big2, s2)) es3 ++ [ZIP_END]) (10 + size es1)) as (c & -> & Hne); [done|by autorewrite with redis_len|].
  cbn [mbind option_bind]. rewrite Hne. cbn [negb]. rewrite (uwrap_small 32 R) by width_lia.
  rewrite prevlen_diff by (done || by autorewrite with redis_len).
  cbn [mbind option_bind fst]. destruct (next_diff R big2) as (big2' & Hb' & Hd & Hforce & Hf' & Hpos).
  set (force := (_ =? -4) && _) in *. set (d := if force then 0 else _) in *. clearbody d force.
  assert (fits R big2') as HfR by (apply Hf'; width_lia).
  assert (ent_len (big2', s2) = ent_len (big2, s2) + d) as Hl' by (rewrite Hd; unfold ent_len; simpl; lia).
  pose proof (ent_len_le (big2', s2)) as Hle2'. pose proof (ent_len_pos (big2', s2)). cbn [snd] in Hle2, Hle2'.
  set (rest := layout 0 es1 ++ ent_bytes q (big2, s2) ++ layout (ent_len (big2, s2)) es3).
  assert (zlen rest = size es1 + ent_len (big2, s2) + size es3) as Hrest by (subst rest; autorewrite with redis_len; lia).
  rewrite <- app_assoc. rewrite !size_app in *. cbn [size].
  destruct (resize_grow (11 + (size es1 + (ent_len (big2, s2) + size es3))) (tail_off 10 (es1 ++ (big2, s2) :: es3)) n rest (R + d)
    (11 + (size es1 + (ent_len (big2, s2) + size es3)) + R + d)) as (j & _ & Hj & _ & Hres).
  { apply Hpos. lia. } { lia. } { lia. }
  subst rest. rewrite <- !app_assoc in Hres. rewrite Hres. clear Hres. cbn [mbind option_bind].
  destruct (insert_move_mid es1 q big2 s2 es3 (11 + (size es1 + (ent_len (big2, s2) + size es3)) + R + d) n j R d force
    (11 + (size es1 + (ent_len (big2, s2) + size es3))) (tail_off 10 (es1 ++ (big2, s2) :: es3)) big2') as (g & Hg & ->);
    try (done || width_lia || lia).
  cbn [mbind option_bind].
  rewrite (app_assoc (layout 0 es1)).
  assert (zlen (layout 0 es1 ++ g) = size es1 + R) as Hlg by (autorewrite with redis_len; lia).
  edestruct (maybe_cascade (layout 0 es1 ++ g) R big2' s2 big2 es3 n d) as (es3' & -> & Hval & Hch); [done..| | | | |].
  { rewrite fmap_cons. cbn [max_size snd]. lia. } { lia. }
  { rewrite Hlg, Z.add_assoc. rewrite tail_off_insert_base with (e2 := (big2, s2)) (enew := (big, s)) by done.
    fold R. destruct es3; [lia|rewrite Hl'; lia]. } { lia. }
  rewrite Hlg, <- (app_assoc (layout 0 es1)).
  cbn [mbind option_bind]. rewrite (app_assoc _ (layout 0 es1)), insert_write_spec by (by autorewrite with redis_len).
  cbn [mbind option_bind]. fold big. rewrite <- (app_assoc _ (layout 0 es1)).
  edestruct (count_insert n es1 ((big2, s2) :: es3) (big, s) ((big2', s2) :: es3')) as (n' & Hn' & ->); [done| |].
  { apply (f_equal length) in Hval. rewrite !length_fmap in Hval. cbn. lia. }
  eexists _, big, ((big2', s2) :: es3'). split; [done|]. split; [by rewrite !fmap_cons, Hval|]. constructor.
  - apply chain_app. split; [done|]. split; [|split; [apply body_length; cbn [snd]; lia|done]].
    apply fits_last; [done|]. by intros ?%negb_false_iff%Z.ltb_lt.
  - rewrite fmap_app, !fmap_cons, Hval, max_size_app. cbn [max_size snd]. lia.
  - exists n'. split; [done|]. rewrite size_app, tail_off_app, layout_app, <- !app_assoc. cbn [layout size app].
    fold q R. rewrite <- !app_assoc. f_equal.
    change (tail_off (10 + size es1) ((big, s) :: (big2', s2) :: es3')) with (tail_off (10 + size es1 + R) ((big2', s2) :: es3')).
    f_equal; [lia|]. f_equal. lia.
Qed.

Lemma insert_spec zl es1 es2 s :
  ziplist_rep zl (es1 ++ es2) -> 11 + max_size (es1.*2 ++ s :: es2.*2) < 2 ^ 31 ->
  exists zl' big es', __ziplistInsert host junk zl (10 + size es1) s = Some zl' /\
    es'.*2 = es2.*2 /\ ziplist_rep zl' (es1 ++ (big, s) :: es').
Proof using Type.
  intros Hrep Hroom. destruct es2 as [|e2 es2]; [|by apply insert_mid_spec].
  rewrite app_nil_r in Hrep. destruct (insert_end_spec zl es1 s Hrep Hroom) as (zl' & big & ? & ?).
  by exists zl', big, [].
Qed.

(** ** Deletion *)

Lemma skip_spec dl : forall fuel a q es2 i num p,
  p = zlen a -> chain q (dl ++ es2) -> (length dl < fuel)%nat ->
  i + zlen dl = num \/ (i + zlen dl <= num /\ es2 = []) ->
  skip_entries fuel (a ++ layout q (dl ++ es2) ++ [ZIP_END]) p i num = Some (p + size dl, i + zlen dl).
Proof using Type.
  clear host junk. induction dl as [|e dl IH]; intros fuel a q es2 i num p Hp Hc Hfuel Hnum; (destruct fuel as [|fuel]; [cbn in Hfuel; lia|]);
    cbn [skip_entries app size].
  - destruct (after_entry a q es2 [] p Hp Hc) as (c & -> & Hne). cbn [mbind option_bind].
    change (zlen (@nil entry)) with 0 in *. rewrite !Z.add_0_r in *.
    replace ((c =? ZIP_END) || (i >=? num)) with true; [done|]. symmetry.
    destruct Hnum as [-> |[_ ->]]; [rewrite Z.geb_leb, Z.leb_refl; apply orb_true_r|].
    by apply negb_false_iff in Hne as ->.
  - rewrite zlen_cons in *. pose proof (zlen_nonneg dl). cbn [app chain] in Hc. destruct Hc as (Hf & Hs & Hc).
    cbn [layout]. rewrite <- (app_assoc (ent_bytes _ _)).
    destruct (entry_head a q e (layout (ent_len e) (dl ++ es2) ++ [ZIP_END]) p Hf Hp) as (c & -> & Hne).
    cbn [mbind option_bind]. rewrite Hne, Z.geb_leb, (proj2 (Z.leb_gt _ _)) by lia. cbn [orb].
    rewrite rawEntryLength_spec by done. cbn [mbind option_bind].
    rewrite (app_assoc a), (IH fuel (a ++ ent_bytes q e) _ es2).
    + do 2 f_equal; lia.
    + autorewrite with redis_len. lia.
    + done.
    + cbn in Hfuel. lia.
    + destruct Hnum; [left; lia|right; split; [lia|tauto]].
Qed.

Lemma tail_off_last es : tail_off 10 es = 10 + size es - last_len 0 es.
Proof using Type.
  destruct es as [|e es _] using rev_ind; [done|]. rewrite tail_off_snoc, last_len_snoc, size_app. cbn [size]. lia.
Qed.

Lemma tail_off_delete es1 dl e2 es3 e2' :
  tail_off (10 + size es1) (e2' :: es3) =
    tail_off 10 (es1 ++ dl ++ e2 :: es3) - size dl + match es3 with [] => 0 | _ => ent_len e2' - ent_len e2 end.
Proof using Type.
  rewrite app_assoc, tail_off_app, size_app. set (base := 10 + size es1).
  replace (10 + (size es1 + size dl)) with (base + size dl) by (subst base; lia). rewrite tail_off_shift.
  destruct es3 as [|e3 es3]; [cbn [tail_off]; lia|].
  change (tail_off base (e2' :: e3 :: es3)) with (tail_off (base + ent_len e2') (e3 :: es3)).
  change (tail_off base (e2 :: e3 :: es3)) with (tail_off (base + ent_len e2) (e3 :: es3)).
  rewrite !tail_off_shift. lia.
Qed.

(** The deleted entries leave room for the larger previous length. *)
Lemma deleted_room q big e dl :
  fits q e.1 -> 0 <= size (e :: dl) - (pl_size (negb (q <? ZIP_BIG_PREVLEN)) - pl_size big).
Proof using Type.
  intros [_ Hf]. cbn [size]. pose proof (size_nonneg dl). pose proof (ent_len_pos e). pose proof (body_bound e.2).
  unfold ent_len in *. destruct (Z.ltb_spec q ZIP_BIG_PREVLEN); [destruct big; simpl; lia|].
  destruct e.1; [destruct big; simpl in *; lia|]. specialize (Hf eq_refl). lia.
Qed.

Lemma delete_next_spec es1 dbytes q q2 big2 s2 es3 b t n first :
  let big2' := negb (q <? ZIP_BIG_PREVLEN) in
  let d := pl_size big2' - pl_size big2 in
  prevrawlen first = q -> zle_p first = 10 + size es1 ->
  fits q big2' -> fits q2 big2 -> zlen s2 < 2 ^ 31 -> chain (ent_len (big2, s2)) es3 ->
  0 <= zlen dbytes - d -> in_u 32 t -> in_u 32 (t - zlen dbytes) -> in_u 32 (t - zlen dbytes + d) -> in_u 32 b ->
  b = 11 + size es1 + zlen dbytes + ent_len (big2, s2) + size es3 ->
  exists c y, delete_next host (header b t n ++ layout 0 es1 ++ dbytes ++ ent_bytes q2 (big2, s2) ++
      layout (ent_len (big2, s2)) es3 ++ [ZIP_END]) first (10 + size es1 + zlen dbytes) (zlen dbytes) =
    Some (header b (t - zlen dbytes + match es3 with [] => 0 | _ => d end) n ++ layout 0 es1 ++
          ent_bytes q (big2', s2) ++ layout (ent_len (big2, s2)) es3 ++ c :: y, d).
Proof using Type.
  intros big2' d Hq Hp Hf Hf2 Hs Hc Hroom Ht Ht1 Ht2 Hbr Hb. unfold delete_next.
  rewrite (app_assoc _ (layout 0 es1)), (app_assoc _ dbytes).
  rewrite prevlen_diff by (done || (autorewrite with redis_len; lia)). rewrite Hq, Hp, prevlen_size_big.
  cbn [mbind option_bind fst]. fold big2'. fold d.
  destruct (split_len (dbytes ++ pl_bytes big2 q2) (zlen dbytes - d) (pl_size big2')) as (d' & y & E & Hd' & Hy);
    [done|destruct big2'; simpl; lia|rewrite zlen_app, zlen_pl_bytes; subst d; lia|].
  unfold ent_bytes at 1. cbn [fst snd]. rewrite <- !app_assoc, (app_assoc dbytes), E, <- app_assoc.
  rewrite (app_assoc _ (layout 0 es1)), (app_assoc _ d'), store_prevlen; cycle 1.
  { autorewrite with redis_len. lia. } { by rewrite prevlen_size_big. }
  fold big2'. cbn [mbind option_bind]. rewrite <- !app_assoc, add_tail by (rewrite ?Z.add_opp_r; done).
  cbn [mbind option_bind]. rewrite Z.add_opp_r.
  rewrite (app_assoc (pl_bytes big2' q)). change (pl_bytes big2' q ++ body s2) with (ent_bytes q (big2', s2)).
  rewrite (app_assoc _ (layout 0 es1)), (app_assoc _ d').
  rewrite zipEntry_spec; [|done|done|autorewrite with redis_len; lia]. cbn [mbind option_bind headersize zle_len fst snd].
  rewrite (app_assoc _ (ent_bytes _ _)).
  edestruct (after_entry (((header b (t - zlen dbytes) n ++ layout 0 es1) ++ d') ++ ent_bytes q (big2', s2))
    (ent_len (big2, s2)) es3 []) as (c' & -> & Hc'); [|done|].
  { autorewrite with redis_len. unfold ent_len. cbn [fst snd]. lia. }
  cbn [mbind option_bind]. rewrite Hc', <- !app_assoc. clear c' Hc'.
  assert ((if match es3 with [] => false | _ => true end
    then add_tail_offset host (header b (t - zlen dbytes) n ++ layout 0 es1 ++ d' ++ ent_bytes q (big2', s2) ++ layout (ent_len (big2, s2)) es3 ++ [ZIP_END]) d
    else Some (header b (t - zlen dbytes) n ++ layout 0 es1 ++ d' ++ ent_bytes q (big2', s2) ++ layout (ent_len (big2, s2)) es3 ++ [ZIP_END])) =
    Some (header b (t - zlen dbytes + match es3 with [] => 0 | _ => d end) n ++ layout 0 es1 ++ d' ++ ent_bytes q (big2', s2) ++ layout (ent_len (big2, s2)) es3 ++ [ZIP_END])) as ->.
  { destruct es3; [by rewrite Z.add_0_r|by apply add_tail]. }
  cbn [mbind option_bind]. rewrite get_bytes by done. cbn [mbind option_bind]. rewrite intrev32ifbe_involutive by done.
  set (t' := t - _ + _). set (mv := ent_bytes q (big2', s2) ++ layout (ent_len (big2, s2)) es3).
  assert (zlen mv = ent_len (big2', s2) + size es3) as Hmv by (subst mv; by autorewrite with redis_len).
  assert (ent_len (big2', s2) = ent_len (big2, s2) + d) as Hl' by (unfold ent_len; simpl; subst d; lia).
  destruct (split_len (d' ++ mv ++ [ZIP_END]) (zlen mv) (zlen d' + 1)) as (y1 & y2 & E2 & Hy1 & Hy2);
    [apply zlen_nonneg|lia|autorewrite with redis_len; lia|].
  destruct y2 as [|c y2]; [change (zlen (@nil Z)) with 0 in Hy2; lia|]. exists c, y2.
  rewrite (mmove_off _ (header b t' n ++ layout 0 es1 ++ d') mv [ZIP_END] (header b t' n ++ layout 0 es1) y1 (c :: y2)).
  - cbn [mbind option_bind]. subst mv. by rewrite <- !app_assoc.
  - subst mv. by rewrite <- !app_assoc.
  - rewrite <- !app_assoc, <- E2. subst mv. by rewrite <- !app_assoc.
  - by autorewrite with redis_len.
  - autorewrite with redis_len. lia.
  - rewrite Hmv. lia.
  - done.
Qed.

Lemma delete_open zl es1 e1 dl es2 num :
  ziplist_rep zl (es1 ++ (e1 :: dl) ++ es2) ->
  zlen (e1 :: dl) = num \/ (zlen (e1 :: dl) <= num /\ es2 = []) ->
  exists first, __ziplistDelete host junk zl (10 + size es1) num =
      delete_bytes host junk zl first (10 + size es1 + size (e1 :: dl)) (zlen (e1 :: dl)) /\
    zle_p first = 10 + size es1 /\ prevrawlen first = last_len 0 es1.
Proof using Type.
  intros Hrep Hnum. pose proof (rep_chain _ _ Hrep) as [Hc1 Hc2]%chain_app.
  destruct (zl_rep_split _ _ _ Hrep) as (n & Hn & Hzl). set (q := last_len 0 es1) in *. pose proof Hc2 as (Hf1 & Hs1 & _).
  unfold __ziplistDelete.
  assert (exists first, zipEntry host zl (10 + size es1) = Some first /\ zle_p first = 10 + size es1 /\ prevrawlen first = q)
    as (first & -> & Hp & Hq).
  { rewrite Hzl. cbn [app layout]. rewrite <- (app_assoc (ent_bytes _ _)), (app_assoc _ (layout 0 es1)).
    rewrite zipEntry_spec by (done || by autorewrite with redis_len). by eexists. }
  exists first. split; [|done]. cbn [mbind option_bind].
  assert (skip_entries (S (length zl)) zl (10 + size es1) 0 num = Some (10 + size es1 + size (e1 :: dl), 0 + zlen (e1 :: dl))) as ->; [|done].
  rewrite Hzl at 2. rewrite (app_assoc _ (layout 0 es1)). apply skip_spec; [by autorewrite with redis_len|done| |done].
  pose proof (length_size (e1 :: dl)). pose proof (size_nonneg es1). pose proof (size_nonneg es2). pose proof (zlen_nonneg (e1 :: dl)).
  assert (zlen zl = 11 + size (es1 ++ (e1 :: dl) ++ es2)) as Hl.
  { rewrite Hzl. autorewrite with redis_len. rewrite !size_app. lia. }
  rewrite !size_app in Hl. unfold zlen in *. lia.
Qed.

Lemma count_delete n es1 dl es2 es2' b t r :
  count_ok n (es1 ++ dl ++ es2) -> length es2' = length es2 -> exists n', count_ok n' (es1 ++ es2') /\
    ZIPLIST_INCR_LENGTH host (header b t n ++ r) (- zlen dl) = Some (header b t n' ++ r).
Proof using Type.
  intros Hn Hl. eapply incr_length; [done| |pose proof (zlen_nonneg dl); lia]. unfold zlen. rewrite !length_app, Hl. lia.
Qed.

Lemma delete_end_spec zl es1 e1 dl num :
  ziplist_rep zl (es1 ++ (e1 :: dl)) -> zlen (e1 :: dl) <= num ->
  exists zl', __ziplistDelete host junk zl (10 + size es1) num = Some zl' /\ ziplist_rep zl' es1.
Proof using Type.
  intros Hrep Hnum. rewrite <- (app_nil_r (e1 :: dl)) in Hrep.
  destruct (delete_open zl es1 e1 dl [] num Hrep) as (first & -> & Hp & Hq); [by right|].
  rewrite app_nil_r in Hrep. pose proof (zl_rep_size _ _ Hrep) as Hsz. pose proof (rep_chain _ _ Hrep) as [Hc1 Hc2]%chain_app.
  pose proof (rep_room _ _ Hrep) as Hroom. destruct (zl_rep_split _ _ _ Hrep) as (n & Hn & ->). clear Hrep.
  rewrite fmap_app, max_size_app in Hroom. pose proof (max_size_nonneg (e1 :: dl).*2).
  set (D := e1 :: dl) in *. assert (0 < size D) as HD by (subst D; cbn [size]; pose proof (ent_len_pos e1); pose proof (size_nonneg dl); lia).
  rewrite size_app in *. pose proof (size_nonneg es1). pose proof (size_max es1).
  pose proof (tail_off_bounds 10 es1) as Htb. rewrite tail_off_last in Htb.
  unfold delete_bytes. rewrite Hp, Hq. replace (10 + size es1 + size D - (10 + size es1)) with (size D) by lia.
  rewrite (uwrap_small 32 (size D)) by width_lia. rewrite Z.gtb_ltb, (proj2 (Z.ltb_lt _ _)) by done.
  rewrite (app_assoc _ (layout 0 es1)), (app_assoc _ (layout _ D)), byte_at_off by (autorewrite with redis_len; lia).
  cbn [mbind option_bind]. change (negb (ZIP_END =? ZIP_END)) with false. cbv iota. rewrite <- !app_assoc.
  rewrite (uwrap_small 32 (_ - _)), set_tail by width_lia. cbn [mbind option_bind].
  rewrite get_bytes by width_lia. cbn [mbind option_bind]. rewrite intrev32ifbe_involutive by width_lia.
  replace (11 + (size es1 + size D) - size D + 0) with (11 + size es1) by lia.
  destruct (layout (last_len 0 es1) D ++ [ZIP_END]) as [|c y] eqn:E; [by apply app_eq_nil in E as [_ ?]|].
  rewrite resize_shrink by (autorewrite with redis_len; lia). cbn [mbind option_bind].
  rewrite <- (app_nil_r D) in Hn.
  destruct (count_delete n es1 D [] [] (11 + size es1) (10 + size es1 - last_len 0 es1) (layout 0 es1 ++ [ZIP_END]) Hn eq_refl) as (n' & Hn' & ->).
  eexists. split; [done|]. rewrite app_nil_r in Hn'. constructor; [done|lia|]. exists n'. split; [done|].
  by rewrite tail_off_last.
Qed.

Lemma delete_mid_spec zl es1 e1 dl e2 es3 num :
  ziplist_rep zl (es1 ++ (e1 :: dl) ++ e2 :: es3) -> zlen (e1 :: dl) = num ->
  exists zl' es', __ziplistDelete host junk zl (10 + size es1) num = Some zl' /\
    es'.*2 = (e2 :: es3).*2 /\ ziplist_rep zl' (es1 ++ es').
Proof using Type.
  intros Hrep Hnum. destruct (delete_open zl es1 e1 dl (e2 :: es3) num Hrep) as (first & -> & Hp & Hq); [by left|].
  pose proof (zl_rep_size _ _ Hrep) as Hsz. pose proof (rep_chain _ _ Hrep) as [Hc1 [Hc2 Hc3]%chain_app]%chain_app.
  pose proof (rep_room _ _ Hrep) as Hroom. destruct (zl_rep_split _ _ _ Hrep) as (n & Hn & ->). clear Hrep.
  pose proof Hc2 as (Hf1 & _). set (q := last_len 0 es1) in *. set (big2' := negb (q <? ZIP_BIG_PREVLEN)).
  destruct e2 as [big2 s2]. pose proof (deleted_room q big2 e1 dl Hf1) as Hdr. set (D := e1 :: dl) in *.
  destruct Hc3 as (Hf2 & Hs2 & Hc3). cbn [fst snd] in *. set (q2 := last_len q D) in *.
  rewrite !fmap_app, !max_size_app, fmap_cons in Hroom. pose proof (max_size_nonneg D.*2).
  assert (0 < size D) as HD by (subst D; cbn [size]; pose proof (ent_len_pos e1); pose proof (size_nonneg dl); lia).
  pose proof (tail_off_delete es1 D (big2, s2) es3 (big2', s2)) as Htd.
  pose proof (tail_off_delete es1 D (big2, s2) es3 (big2, s2)) as Htd0.
  pose proof (tail_off_bounds (10 + size es1) ((big2, s2) :: es3)) as Htb0.
  pose proof (tail_off_bounds 10 (es1 ++ D ++ (big2, s2) :: es3)) as Htb.
  pose proof (tail_off_bounds (10 + size es1) ((big2', s2) :: es3)) as Htb'.
  rewrite !size_app in *. cbn [size max_size snd] in *.
  set (d := pl_size big2' - pl_size big2) in *. assert (-4 <= d <= 4) by (subst d; destruct big2', big2; simpl; lia).
  assert (ent_len (big2', s2) = ent_len (big2, s2) + d) as Hl' by (unfold ent_len; simpl; subst d; lia).
  pose proof (ent_len_le (big2', s2)) as Hle2'. pose proof (ent_len_le (big2, s2)) as Hle2. cbn [snd] in *.
  pose proof (ent_len_pos (big2', s2)). pose proof (size_max es1). pose proof (size_max es3). pose proof (size_nonneg es3).
  pose proof (size_nonneg es1). pose proof (ent_len_pos (big2, s2)). pose proof (size_max D).
  unfold delete_bytes. rewrite Hp. replace (10 + size es1 + size D - (10 + size es1)) with (size D) by lia.
  rewrite (uwrap_small 32 (size D)) by width_lia. rewrite Z.gtb_ltb, (proj2 (Z.ltb_lt _ _)) by done.
  rewrite (layout_app q D). fold q2. cbn [layout]. rewrite <- !app_assoc.
  rewrite (app_assoc _ (layout 0 es1)), (app_assoc _ (layout q D)).
  edestruct entry_head as (c & -> & Hne); [exact Hf2|autorewrite with redis_len; lia|]. cbn [mbind option_bind]. rewrite Hne.
  cbn [negb]. rewrite <- !app_assoc.
  set (b := 11 + _) in *. set (tl := tail_off 10 _) in *.
  destruct (delete_next_spec es1 (layout q D) q q2 big2 s2 es3 b tl n first) as (c' & y & Hdn);
    [done|done|by apply fits_last; [|intros ?%negb_false_iff%Z.ltb_lt]|done|done|done|rewrite ?zlen_layout..|].
  { done. } { width_lia. } { destruct es3; width_lia. } { fold big2' d. destruct es3; width_lia. } { subst b. width_lia. } { subst b. lia. }
  rewrite zlen_layout in Hdn. rewrite Hdn. clear Hdn. fold big2' d. cbn [mbind option_bind].
  rewrite get_bytes by (subst b; width_lia). cbn [mbind option_bind]. rewrite intrev32ifbe_involutive by (subst b; width_lia).
  rewrite (app_assoc (ent_bytes _ _)), (app_assoc (layout 0 es1)), resize_shrink by (autorewrite with redis_len; subst b; lia).
  cbn [mbind option_bind].
  edestruct (count_delete n es1 D ((big2, s2) :: es3) ((big2, s2) :: es3)) as (n' & Hn' & ->); [done|done|].
  cbn [mbind option_bind]. rewrite <- !app_assoc.
  edestruct (maybe_cascade (layout 0 es1) q big2' s2 big2 es3 n' d) as (es3' & -> & Hval & Hch);
    [done|by apply fits_last; [|intros ?%negb_false_iff%Z.ltb_lt]|done|done|..].
  { rewrite fmap_cons, zlen_layout. cbn [max_size snd]. lia. } { rewrite zlen_layout. subst b. lia. }
  { rewrite zlen_layout, Htd. destruct es3; [done|]. rewrite Hl'. lia. } { by rewrite zlen_layout. }
  rewrite zlen_layout. eexists _, ((big2', s2) :: es3'). split; [done|]. split; [by rewrite !fmap_cons, Hval|]. constructor.
  - by apply chain_app.
  - rewrite fmap_app, fmap_cons, Hval, max_size_app. cbn [max_size snd]. lia.
  - exists n'. split.
    + unfold count_ok, zlen in *. apply (f_equal length) in Hval. rewrite !length_fmap in Hval.
      rewrite !length_app in *. cbn [length] in *. lia.
    + rewrite size_app, tail_off_app, layout_app, <- !app_assoc. fold q. f_equal. f_equal. lia.
Qed.

Lemma delete_spec zl es1 e1 dl es2 num :
  ziplist_rep zl (es1 ++ (e1 :: dl) ++ es2) ->
  zlen (e1 :: dl) = num \/ (zlen (e1 :: dl) <= num /\ es2 = []) ->
  exists zl' es2', __ziplistDelete host junk zl (10 + size es1) num = Some zl' /\
    es2'.*2 = es2.*2 /\ ziplist_rep zl' (es1 ++ es2').
Proof using Type.
  intros Hrep Hnum. destruct es2 as [|e2 es2].
  - rewrite app_nil_r in Hrep. destruct (delete_end_spec zl es1 e1 dl num Hrep) as (zl' & ? & ?); [lia|].
    exists zl', []. by rewrite app_nil_r.
  - destruct Hnum as [Hnum|[_ ?]]; [|done]. by apply (delete_mid_spec zl es1 e1 dl).
Qed.

(** ** Creation *)

Lemma new_spec : exists zl, ziplistNew host junk = Some zl /\ ziplist_rep zl [].
Proof using Type.
  unfold ziplistNew. change (ZIPLIST_HEADER_SIZE + ZIPLIST_END_SIZE) with 11.
  destruct (split_len (mrealloc junk [] 11) 4 7) as (x1 & x2 & -> & H1 & H2); [lia|lia|by rewrite zlen_mrealloc|].
  destruct (split_len x2 4 3) as (x3 & x4 & -> & H3 & H4); [lia..|].
  destruct (split_len x4 2 1) as (x5 & x6 & -> & H5 & H6); [lia..|].
  unfold set_ZIPLIST_BYTES. rewrite native_bytes_intrev32, mwrite_front by done. cbn [mbind option_bind].
  unfold set_ZIPLIST_TAIL_OFFSET. rewrite native_bytes_intrev32, mwrite_off by done. cbn [mbind option_bind].
  assert (native_bytes host 2 0 = le_bytes 2 0) as Hz by (by destruct host).
  unfold set_ZIPLIST_LENGTH. rewrite Hz, (app_assoc (le_bytes 4 11)), mwrite_off by done. cbn [mbind option_bind].
  rewrite (app_assoc _ (le_bytes 2 0)). rewrite <- (app_nil_r x6), mwrite_off by done.
  eexists. split; [done|]. constructor; [done|done|]. exists 0. split; [by right|].
  unfold header. cbn [layout size tail_off app]. by rewrite <- !app_assoc.
Qed.

(** ** Access *)

(** Offset of entry [i]. *)
Definition off (es : list entry) (i : nat) : Z := 10 + size (take i es).

(** The entry an index designates, counting from the end if negative. *)
Definition index_pos (n : nat) (idx : Z) : option nat :=
  if (0 <=? idx) && (idx <? Z.of_nat n) then Some (Z.to_nat idx)
  else if (idx <? 0) && (- Z.of_nat n <=? idx) then Some (Z.to_nat (Z.of_nat n + idx)) else None.

Lemma rep_at zl es i e :
  ziplist_rep zl es -> es !! i = Some e -> exists a q r, zl = a ++ ent_bytes q e ++ r /\ zlen a = off es i /\
    fits q e.1 /\ zlen e.2 < 2 ^ 31 /\ q = last_len 0 (take i es) /\
    r = layout (ent_len e) (drop (S i) es) ++ [ZIP_END] /\ chain (ent_len e) (drop (S i) es).
Proof using Type.
  intros Hrep Hi. rewrite <- (take_drop_middle es i e Hi) in Hrep.
  pose proof (rep_chain _ _ Hrep) as [_ (Hf & Hs & Hc)]%chain_app. destruct (zl_rep_split _ _ _ Hrep) as (n & _ & ->).
  cbn [layout]. rewrite <- (app_assoc (ent_bytes _ _)), app_assoc. eexists (_ ++ layout 0 (take i es)), _, _.
  split; [reflexivity|]. split; [by autorewrite with redis_len|]. done.
Qed.

Lemma rep_end zl es : ziplist_rep zl es -> exists a, zl = a ++ [ZIP_END] /\ zlen a = 10 + size es.
Proof using Type.
  intros [_ _ (n & _ & ->)]. rewrite app_assoc. eexists. split; [reflexivity|]. by autorewrite with redis_len.
Qed.

(** The byte at an entry, or at the end. *)
Lemma rep_byte zl es i :
  ziplist_rep zl es -> (i <= length es)%nat ->
  exists c, byte_at zl (off es i) = Some c /\ (c =? ZIP_END) = negb (i <? length es)%nat.
Proof using Type.
  intros Hrep Hi. destruct (Nat.ltb_spec i (length es)) as [Hlt|Hge].
  - destruct (lookup_lt_is_Some_2 _ _ Hlt) as [e He]. destruct (rep_at _ _ _ _ Hrep He) as (a & q & r & -> & Ha & Hf & _).
    by apply entry_head.
  - assert (i = length es) as -> by lia. destruct (rep_end _ _ Hrep) as (a & -> & Ha). exists ZIP_END.
    split; [|done]. apply byte_at_off. unfold off. by rewrite firstn_all.
Qed.

Lemma take_S_size es i e : es !! i = Some e -> size (take (S i) es) = size (take i es) + ent_len e.
Proof using Type. intros Hi. rewrite (take_S_r _ _ _ Hi), size_app. cbn [size]. lia. Qed.

Lemma rep_rawlen zl es i e :
  ziplist_rep zl es -> es !! i = Some e -> zipRawEntryLength zl (off es i) = Some (ent_len e) /\ off es (S i) = off es i + ent_len e.
Proof using Type.
  intros Hrep He. split; [|unfold off; rewrite (take_S_size _ _ _ He); lia].
  destruct (rep_at _ _ _ _ Hrep He) as (a & q & r & -> & Ha & Hf & Hs & _). by apply rawEntryLength_spec.
Qed.

Lemma rep_prevlen zl es i e :
  ziplist_rep zl es -> es !! i = Some e ->
  ZIP_DECODE_PREVLEN host zl (off es i) = Some (pl_size e.1, last_len 0 (take i es)).
Proof using Type.
  intros Hrep He. destruct (rep_at _ _ _ _ Hrep He) as (a & q & r & -> & Ha & Hf & Hs & <- & _).
  unfold ent_bytes. rewrite <- app_assoc. by apply decode_prevlen.
Qed.

Lemma off_pred es i : (0 < i <= length es)%nat -> 0 < last_len 0 (take i es) /\ off es i - last_len 0 (take i es) = off es (i - 1).
Proof using Type.
  intros Hi. destruct i as [|i]; [lia|]. destruct (lookup_lt_is_Some_2 es i) as [e He]; [lia|].
  unfold off. replace (S i - 1)%nat with i by lia. rewrite (take_S_size _ _ _ He), (take_S_r _ _ _ He), last_len_snoc.
  pose proof (ent_len_pos e). lia.
Qed.

Lemma rep_zlen zl es : ziplist_rep zl es -> zlen zl = 11 + size es.
Proof using Type. intros [_ _ (n & _ & ->)]. autorewrite with redis_len. lia. Qed.

Lemma rep_count zl es : ziplist_rep zl es -> 11 + 2 * zlen es <= zlen zl /\ zlen zl < 2 ^ 31.
Proof using Type. intros Hrep. rewrite (rep_zlen _ _ Hrep). pose proof (length_size es). pose proof (zl_rep_size _ _ Hrep). lia. Qed.

Lemma index_forward_spec zl es fuel : ziplist_rep zl es -> forall i idx,
  (i <= length es)%nat -> (length es - i < fuel)%nat -> 0 <= idx ->
  index_forward fuel zl (off es i) idx =
    Some (off es (Nat.min (i + Z.to_nat idx) (length es)),
          if Z.of_nat i + idx <? zlen es then -1 else Z.of_nat i + idx - zlen es).
Proof using Type.
  intros Hrep. induction fuel as [|fuel IH]; intros i idx Hi Hfuel Hidx; [lia|]. cbn [index_forward].
  destruct (rep_byte zl es i Hrep Hi) as (c & -> & Hc). cbn [mbind option_bind]. rewrite Hc. unfold zlen in *.
  destruct (Nat.ltb_spec i (length es)) as [Hlt|Hge]; cbn [negb].
  - destruct (Z.eqb_spec idx 0) as [->|Hne].
    + rewrite (proj2 (Z.ltb_lt _ _)) by lia. do 3 f_equal. lia.
    + destruct (lookup_lt_is_Some_2 _ _ Hlt) as [e He]. destruct (rep_rawlen _ _ _ _ Hrep He) as [-> Hoff].
      cbn [mbind option_bind]. rewrite <- Hoff, IH by lia. do 2 f_equal; [f_equal; lia|].
      replace (Z.of_nat (S i) + (idx - 1)) with (Z.of_nat i + idx) by lia. done.
  - rewrite (proj2 (Z.ltb_ge _ _)) by lia. do 2 f_equal; [f_equal; lia|lia].
Qed.

Lemma index_back_spec zl es fuel : ziplist_rep zl es -> forall i idx,
  (i < length es)%nat -> (i < fuel)%nat -> 0 <= idx ->
  index_back host fuel zl (off es i) (last_len 0 (take i es)) idx =
    Some (off es (i - Z.to_nat idx), if idx <? Z.of_nat i then -1 else idx - Z.of_nat i).
Proof using Type.
  intros Hrep. induction fuel as [|fuel IH]; intros i idx Hi Hfuel Hidx; [lia|]. cbn [index_back].
  destruct i as [|i]; [cbn [take last_len]; change (0 >? 0) with false; cbv iota|].
  { rewrite (proj2 (Z.ltb_ge _ _)) by lia. do 2 f_equal. lia. }
  destruct (off_pred es (S i)) as [Hpos Hoff]; [lia|]. replace (S i - 1)%nat with i in Hoff by lia.
  rewrite Z.gtb_ltb, (proj2 (Z.ltb_lt _ _)) by done. destruct (Z.eqb_spec idx 0) as [->|Hne].
  - rewrite (proj2 (Z.ltb_lt _ _)) by lia. do 3 f_equal.
  - rewrite Hoff. destruct (lookup_lt_is_Some_2 es i) as [e He]; [lia|]. rewrite (rep_prevlen _ _ _ _ Hrep He).
    cbn [mbind option_bind]. rewrite IH by lia. do 2 f_equal; [f_equal; lia|].
    destruct (Z.ltb_spec (idx - 1) (Z.of_nat i)), (Z.ltb_spec idx (Z.of_nat (S i))); lia.
Qed.

Lemma rep_tail zl es : ziplist_rep zl es -> ZIPLIST_ENTRY_TAIL host zl = Some (off es (length es - 1)).
Proof using Type.
  intros Hrep. pose proof (zl_rep_size _ _ Hrep). pose proof (tail_off_bounds 10 es). destruct Hrep as [_ _ (n & _ & ->)].
  rewrite entry_tail by width_lia. f_equal. unfold off. destruct es as [|e es _] using rev_ind; [done|].
  rewrite tail_off_snoc, length_app. cbn [length]. replace (length es + 1 - 1)%nat with (length es) by lia.
  by rewrite take_app_length.
Qed.

Lemma rep_fuel zl es : ziplist_rep zl es -> (length es < length zl)%nat.
Proof using Type. intros Hrep. pose proof (rep_count _ _ Hrep). unfold zlen in *. lia. Qed.

Lemma index_spec zl es idx :
  ziplist_rep zl es -> - 2 ^ 31 < idx ->
  ziplistIndex host zl idx = Some (off es <$> index_pos (length es) idx).
Proof using Type.
  intros Hrep Hidx. pose proof (rep_fuel _ _ Hrep) as Hfuel. unfold ziplistIndex, index_pos, ZIPLIST_ENTRY_HEAD, ZIPLIST_HEADER_SIZE.
  destruct (Z.ltb_spec idx 0) as [Hneg|Hpos].
  - rewrite (proj2 (Z.eqb_neq _ _)) by lia. rewrite (rep_tail _ _ Hrep). cbn [mbind option_bind].
    rewrite (proj2 (Z.leb_gt 0 idx)) by done. cbn [andb].
    destruct (rep_byte zl es (length es - 1) Hrep) as (c & Hbc & Hc); [lia|]. rewrite Hbc. cbn [mbind option_bind]. rewrite Hc.
    destruct (Nat.ltb_spec (length es - 1) (length es)) as [Hlt|Hge]; cbn [negb].
    + destruct (lookup_lt_is_Some_2 _ _ Hlt) as [e He]. rewrite (rep_prevlen _ _ _ _ Hrep He). cbn [mbind option_bind].
      rewrite index_back_spec by (done || lia). cbn [mbind option_bind].
      destruct (rep_byte zl es (length es - 1 - Z.to_nat (- idx - 1)) Hrep) as (c' & -> & Hc'); [lia|]. cbn [mbind option_bind].
      rewrite Hc', (proj2 (Nat.ltb_lt _ _)) by lia. cbn [negb orb]. f_equal. destruct (Z.leb_spec (- Z.of_nat (length es)) idx).
      * cbn [fmap option_fmap option_map]. replace (_ >? 0) with false; [do 2 f_equal; lia|]. symmetry.
        destruct (Z.ltb_spec (- idx - 1) (Z.of_nat (length es - 1))); [done|]. rewrite Z.gtb_ltb. apply Z.ltb_ge. lia.
      * replace (_ >? 0) with true; [done|]. symmetry.
        rewrite (proj2 (Z.ltb_ge _ _)) by lia. rewrite Z.gtb_ltb. apply Z.ltb_lt. lia.
    + cbn [mbind option_bind]. rewrite Hbc. cbn [mbind option_bind]. rewrite Hc. cbn [orb].
      rewrite (proj2 (Z.leb_gt _ _)) by lia. done.
  - rewrite (proj2 (Z.leb_le 0 idx)) by done. cbn [andb]. change 10 with (off es 0) at 1.
    rewrite (index_forward_spec _ _ _ Hrep) by lia. cbn [mbind option_bind].
    destruct (rep_byte zl es (Nat.min (0 + Z.to_nat idx) (length es)) Hrep) as (c & -> & Hc); [lia|]. cbn [mbind option_bind].
    rewrite Hc. f_equal. change (Z.of_nat 0 + idx) with idx. unfold zlen. destruct (Z.ltb_spec idx (Z.of_nat (length es))).
    + rewrite (proj2 (Nat.ltb_lt _ _)) by lia. cbn. do 2 f_equal. lia.
    + by rewrite (proj2 (Nat.ltb_ge _ _)) by lia.
Qed.

Lemma next_spec zl es i e :
  ziplist_rep zl es -> es !! i = Some e ->
  ziplistNext zl (off es i) = Some (if (S i <? length es)%nat then Some (off es (S i)) else None).
Proof using Type.
  intros Hrep He. pose proof (lookup_lt_Some _ _ _ He) as Hlt. unfold ziplistNext.
  destruct (rep_byte zl es i Hrep) as (c & -> & Hc); [lia|]. cbn [mbind option_bind].
  rewrite Hc, (proj2 (Nat.ltb_lt _ _)) by done. cbn [negb]. destruct (rep_rawlen _ _ _ _ Hrep He) as [-> Hoff].
  cbn [mbind option_bind]. rewrite <- Hoff. destruct (rep_byte zl es (S i) Hrep) as (c' & -> & Hc'); [lia|].
  cbn [mbind option_bind]. rewrite Hc'. by destruct (S i <? length es)%nat.
Qed.

(** From the end, [ziplistPrev] gives the last entry. *)
Lemma prev_spec zl es i :
  ziplist_rep zl es -> (i <= length es)%nat ->
  ziplistPrev host zl (off es i) = Some (if (0 <? i)%nat then Some (off es (i - 1)) else None).
Proof using Type.
  intros Hrep Hi. unfold ziplistPrev. destruct (rep_byte zl es i Hrep Hi) as (c & -> & Hc). cbn [mbind option_bind]. rewrite Hc.
  destruct (Nat.ltb_spec i (length es)) as [Hlt|Hge]; cbn [negb].
  - unfold ZIPLIST_ENTRY_HEAD, ZIPLIST_HEADER_SIZE. destruct i as [|i]; [done|].
    destruct (off_pred es (S i)) as [Hpos Hoff]; [lia|].
    assert (off es (S i) <> 10) by (rewrite Z.sub_move_r in Hoff; rewrite Hoff; unfold off; pose proof (size_nonneg (take (S i - 1) es)); lia).
    rewrite (proj2 (Z.eqb_neq _ _)) by done. destruct (lookup_lt_is_Some_2 _ _ Hlt) as [e He].
    rewrite (rep_prevlen _ _ _ _ Hrep He). cbn [mbind option_bind]. rewrite Z.gtb_ltb, (proj2 (Z.ltb_lt _ _)) by done.
    by rewrite Hoff.
  - assert (i = length es) as -> by lia. rewrite (rep_tail _ _ Hrep). cbn [mbind option_bind].
    destruct (rep_byte zl es (length es - 1) Hrep) as (c' & -> & Hc'); [lia|]. cbn [mbind option_bind]. rewrite Hc'.
    destruct (length es) as [|m]; [done|]. replace (S m - 1)%nat with m by lia.
    by rewrite (proj2 (Nat.ltb_lt m (S m))) by lia.
Qed.

(** What a read of the string [s] gives. *)
Definition get_ok (zl s : list Z) (v : zl_value) : Prop :=
  match string2ll s with
  | Some n => v = GetInt n
  | None => exists p, v = GetStr p (zlen s) /\ mread zl p (zlen s) = Some s
  end.

(** The data of an entry, found behind its headers. *)
Lemma data_spec a q e r p :
  fits q e.1 -> p = zlen a + pl_size e.1 + body_lensize e.2 ->
  match zipTryEncoding e.2 with
  | Some (v, enc) => body_enc e.2 = enc /\ zipLoadInteger host (a ++ ent_bytes q e ++ r) p enc = Some v
  | None => zlen (body e.2) - body_lensize e.2 = zlen e.2 /\ mread (a ++ ent_bytes q e ++ r) p (zlen e.2) = Some e.2
  end.
Proof using Type.
  intros Hf ->. unfold ent_bytes, body, body_enc, body_lensize. destruct (zipTryEncoding e.2) as [[v enc]|] eqn:E.
  - split; [done|]. apply try_encoding_spec in E as [_ He].
    replace (a ++ (pl_bytes e.1 q ++ enc :: int_bytes enc v) ++ r) with ((a ++ pl_bytes e.1 q ++ [enc]) ++ int_bytes enc v ++ r)
      by (by rewrite <- !app_assoc). apply load_integer; [done|]. autorewrite with redis_len. lia.
  - split; [rewrite zlen_app, zlen_encoding_buf; lia|].
    replace (a ++ (pl_bytes e.1 q ++ encoding_buf 0 (zlen e.2) ++ e.2) ++ r)
      with ((a ++ pl_bytes e.1 q ++ encoding_buf 0 (zlen e.2)) ++ e.2 ++ r) by (by rewrite <- !app_assoc).
    apply mread_off; [|done]. rewrite !zlen_app, zlen_encoding_buf, zlen_pl_bytes. lia.
Qed.

Lemma get_spec zl es i e :
  ziplist_rep zl es -> es !! i = Some e ->
  exists v, ziplistGet host zl (Some (off es i)) = Some (Some v) /\ get_ok zl e.2 v.
Proof using Type.
  intros Hrep He. pose proof (lookup_lt_Some _ _ _ He). unfold ziplistGet, get_ok.
  destruct (rep_byte zl es i Hrep) as (c & -> & Hc); [lia|]. cbn [mbind option_bind]. rewrite Hc, (proj2 (Nat.ltb_lt _ _)) by done.
  cbn [negb]. destruct (rep_at _ _ _ _ Hrep He) as (a & q & r & -> & Ha & Hf & Hs & _).
  rewrite zipEntry_spec by done. cbn [mbind option_bind headersize zle_encoding zle_len]. rewrite body_enc_str.
  pose proof (data_spec a q e r (off es i + (pl_size e.1 + body_lensize e.2)) Hf ltac:(lia)) as Hd.
  rewrite <- try_encoding_value. destruct (zipTryEncoding e.2) as [[v enc]|]; cbn [fmap option_fmap option_map fst].
  - destruct Hd as [-> ->]. by eexists.
  - destruct Hd as [-> Hd]. eexists. split; [done|]. by eexists.
Qed.

(** Equal integers have equal notations. *)
Lemma int_compare s t n :
  string2ll s = Some n ->
  match zipTryEncoding t with Some (m, _) => n =? m | None => false end = bool_decide (s = t).
Proof using Type.
  intros Hs. pose proof (try_encoding_value t) as Ht. destruct (zipTryEncoding t) as [[m e]|]; cbn in Ht.
  - destruct (Z.eqb_spec n m) as [->|Hne].
    + symmetry. apply bool_decide_eq_true_2. symmetry in Ht. apply string2ll_spec in Hs as [Hs _], Ht as [Ht _].
      by eapply canonical_inj.
    + symmetry. apply bool_decide_eq_false_2. congruence.
  - symmetry. apply bool_decide_eq_false_2. congruence.
Qed.

Lemma str_compare (s t : list Z) :
  (if zlen s =? zlen t then bool_decide (s = t) else false) = bool_decide (s = t).
Proof using Type.
  destruct (Z.eqb_spec (zlen s) (zlen t)); [done|]. symmetry. apply bool_decide_eq_false_2. congruence.
Qed.

Lemma compare_spec zl es i e t :
  ziplist_rep zl es -> es !! i = Some e -> ziplistCompare host zl (off es i) t = Some (bool_decide (e.2 = t)).
Proof using Type.
  intros Hrep He. pose proof (lookup_lt_Some _ _ _ He). unfold ziplistCompare.
  destruct (rep_byte zl es i Hrep) as (c & -> & Hc); [lia|]. cbn [mbind option_bind]. rewrite Hc, (proj2 (Nat.ltb_lt _ _)) by done.
  cbn [negb]. destruct (rep_at _ _ _ _ Hrep He) as (a & q & r & -> & Ha & Hf & Hs & _).
  rewrite zipEntry_spec by done. cbn [mbind option_bind headersize zle_encoding zle_len]. rewrite body_enc_str.
  pose proof (data_spec a q e r (off es i + (pl_size e.1 + body_lensize e.2)) Hf ltac:(lia)) as Hd.
  pose proof (try_encoding_value e.2) as Hv. destruct (zipTryEncoding e.2) as [[v enc]|]; cbn in Hv.
  - destruct Hd as [-> ->]. rewrite <- (int_compare e.2 t v) by done. by destruct (zipTryEncoding t) as [[??]|].
  - destruct Hd as [-> Hd]. rewrite <- str_compare. destruct (Z.eqb_spec (zlen e.2) (zlen t)) as [El|]; [|done].
    rewrite <- El, Hd. done.
Qed.

(** What [ziplistFind] remembers of the searched string. *)
Definition find_cache (v : list Z) (venc vll : Z) : Prop :=
  venc = 0 \/ match zipTryEncoding v with Some (m, e) => venc = e /\ vll = m | None => venc = 255 end.

(** The first of the positions [i], [i + step], [i + 2 * step], ... that
    holds [v], and none if it is on none of them. *)
Definition find_ok (ss : list (list Z)) (i step : nat) (v : list Z) (r : option nat) : Prop :=
  match r with
  | Some j => ss !! j = Some v /\ exists k, j = (i + k * step)%nat /\ forall k', (k' < k)%nat -> ss !! (i + k' * step)%nat <> Some v
  | None => forall k, ss !! (i + k * step)%nat <> Some v
  end.

Lemma find_ok_next ss i step v r :
  ss !! i <> Some v -> find_ok ss (i + step) step v r -> find_ok ss i step v r.
Proof using Type.
  intros Hi. destruct r as [j|]; cbn.
  - intros (Hj & k & -> & Hk). split; [done|]. exists (S k). split; [lia|]. intros [|k'] ?; [by rewrite Nat.add_0_r|].
    replace (i + S k' * step)%nat with (i + step + k' * step)%nat by lia. apply Hk. lia.
  - intros Hk [|k]; [by rewrite Nat.add_0_r|]. replace (i + S k * step)%nat with (i + step + k * step)%nat by lia. apply Hk.
Qed.

(** One comparison of the search. *)
Lemma find_compare a q e r v venc vll p :
  fits q e.1 -> p = zlen a + pl_size e.1 + body_lensize e.2 -> find_cache v venc vll ->
  exists venc' vll', find_cache v venc' vll' /\
    (if ZIP_IS_STR (body_enc e.2) then
       if zlen (body e.2) - body_lensize e.2 =? zlen v then
         x ← mread (a ++ ent_bytes q e ++ r) p (zlen v); Some (bool_decide (x = v), venc, vll)
       else Some (false, venc, vll)
     else
       let '(venc, vll) :=
         if venc =? 0 then match zipTryEncoding v with Some (m, e) => (e, m) | None => (255, vll) end
         else (venc, vll) in
       if venc =? 0 then None else
       if negb (venc =? 255) then
         ll ← zipLoadInteger host (a ++ ent_bytes q e ++ r) p (body_enc e.2); Some (ll =? vll, venc, vll)
       else Some (false, venc, vll)) = Some (bool_decide (e.2 = v), venc', vll').
Proof using Type.
  intros Hf Hp Hc. rewrite body_enc_str. pose proof (data_spec a q e r p Hf Hp) as Hd.
  pose proof (try_encoding_value e.2) as Hv. destruct (zipTryEncoding e.2) as [[n enc]|]; cbn in Hv.
  - destruct Hd as [-> Hl]. rewrite <- (int_compare e.2 v n) by done.
    assert (exists venc' vll', (if venc =? 0 then match zipTryEncoding v with Some (m, e0) => (e0, m) | None => (255, vll) end
      else (venc, vll)) = (venc', vll') /\ match zipTryEncoding v with Some (m, e) => venc' = e /\ vll' = m | None => venc' = 255 end)
      as (venc' & vll' & -> & Hc').
    { destruct (Z.eqb_spec venc 0) as [->|Hne]; [destruct (zipTryEncoding v) as [[m e']|]; by eexists _, _|].
      destruct Hc as [|Hc]; [done|]. by eexists _, _. }
    exists venc', vll'. split; [by right|]. destruct (zipTryEncoding v) as [[m e']|] eqn:E.
    + destruct Hc' as [-> ->]. apply try_encoding_spec in E as [_ (_ & _ & ?)%int_enc_facts].
      rewrite !(proj2 (Z.eqb_neq _ _)) by lia. cbn [negb]. by rewrite Hl.
    + by subst venc'.
  - destruct Hd as [-> Hd]. exists venc, vll. split; [done|]. rewrite <- str_compare.
    destruct (Z.eqb_spec (zlen e.2) (zlen v)) as [El|]; [|done]. by rewrite <- El, Hd.
Qed.

Lemma find_loop_spec zl es v (skip : nat) fuel : ziplist_rep zl es -> Z.of_nat skip < 2 ^ 31 ->
  forall i (cnt : nat) venc vll,
  (i <= length es)%nat -> (length es - i < fuel)%nat -> find_cache v venc vll ->
  exists r, find_loop host fuel zl (off es i) v (Z.of_nat skip) (Z.of_nat cnt) venc vll = Some (off es <$> r) /\
    find_ok es.*2 (i + cnt) (S skip) v r.
Proof using Type.
  intros Hrep Hskip. induction fuel as [|fuel IH]; intros i cnt venc vll Hi Hfuel Hcache; [lia|]. cbn [find_loop].
  destruct (rep_byte zl es i Hrep Hi) as (c & -> & Hc). cbn [mbind option_bind]. rewrite Hc.
  destruct (Nat.ltb_spec i (length es)) as [Hlt|Hge]; cbn [negb].
  2:{ exists None. split; [done|]. intros k. rewrite lookup_ge_None_2; [done|]. rewrite length_fmap. lia. }
  destruct (lookup_lt_is_Some_2 _ _ Hlt) as [e He]. destruct (rep_rawlen _ _ _ _ Hrep He) as [_ Hoff].
  assert (es.*2 !! i = Some e.2) as Hs2 by (by rewrite list_lookup_fmap, He).
  destruct (rep_at _ _ _ _ Hrep He) as (a & q & r & Hzl & Ha & Hf & Hs & _).
  assert (ZIP_DECODE_PREVLENSIZE zl (off es i) = Some (pl_size e.1)) as ->
    by (rewrite Hzl; unfold ent_bytes; rewrite <- app_assoc; by apply decode_prevlensize).
  cbn [mbind option_bind].
  assert (ZIP_DECODE_LENGTH zl (off es i + pl_size e.1) = Some (body_enc e.2, body_lensize e.2, zlen (body e.2) - body_lensize e.2)) as ->.
  { rewrite Hzl. unfold ent_bytes. rewrite <- app_assoc, app_assoc. apply decode_length; [done|].
    rewrite zlen_app, zlen_pl_bytes. lia. }
  cbn [mbind option_bind].
  replace (off es i + pl_size e.1 + body_lensize e.2 + (zlen (body e.2) - body_lensize e.2)) with (off es (S i))
    by (rewrite Hoff; unfold ent_len; lia).
  destruct cnt as [|cnt].
  - cbn [Z.of_nat Z.eqb]. destruct (find_compare a q e r v venc vll (off es i + pl_size e.1 + body_lensize e.2) Hf ltac:(lia) Hcache)
      as (venc' & vll' & Hcache' & Heq). rewrite <- Hzl in Heq. rewrite Heq. clear Heq. cbn [mbind option_bind].
    rewrite Nat.add_0_r. case_bool_decide as Hev.
    + exists (Some i). split; [done|]. split; [by rewrite Hs2, Hev|]. exists 0%nat. split; [lia|]. lia.
    + rewrite swrap_small by width_lia. destruct (IH (S i) skip venc' vll') as (r' & -> & Hr'); [lia|lia|done|].
      exists r'. split; [done|]. apply find_ok_next; [by intros [= ?]; congruence|]. by replace (i + S skip)%nat with (S i + skip)%nat by lia.
  - rewrite (proj2 (Z.eqb_neq _ _)) by lia. replace (Z.of_nat (S cnt) - 1) with (Z.of_nat cnt) by lia.
    destruct (IH (S i) cnt venc vll) as (r' & -> & Hr'); [lia|lia|done|]. exists r'. split; [done|].
    by replace (i + S cnt)%nat with (S i + cnt)%nat by lia.
Qed.

Lemma zl_find_spec zl es v (skip : nat) i :
  ziplist_rep zl es -> Z.of_nat skip < 2 ^ 31 -> (i <= length es)%nat ->
  exists r, ziplistFind host zl (off es i) v (Z.of_nat skip) = Some (off es <$> r) /\ find_ok es.*2 i (S skip) v r.
Proof using Type.
  intros Hrep Hskip Hi. pose proof (rep_fuel _ _ Hrep). unfold ziplistFind.
  destruct (find_loop_spec zl es v skip (length zl) Hrep Hskip i 0 0 0) as (r & Hr & Hok); [done|lia|by left|].
  exists r. split; [done|]. by rewrite Nat.add_0_r in Hok.
Qed.

Lemma len_loop_spec zl es fuel : ziplist_rep zl es -> forall i,
  (i <= length es)%nat -> (length es - i < fuel)%nat ->
  len_loop fuel zl (off es i) (Z.of_nat i) = Some (zlen es).
Proof using Type.
  intros Hrep. pose proof (rep_count _ _ Hrep). induction fuel as [|fuel IH]; intros i Hi Hfuel; [lia|]. cbn [len_loop].
  destruct (rep_byte zl es i Hrep Hi) as (c & -> & Hc). cbn [mbind option_bind]. rewrite Hc.
  destruct (Nat.ltb_spec i (length es)) as [Hlt|Hge]; cbn [negb]; [|unfold zlen; f_equal; lia].
  destruct (lookup_lt_is_Some_2 _ _ Hlt) as [e He]. destruct (rep_rawlen _ _ _ _ Hrep He) as [-> Hoff]. cbn [mbind option_bind].
  rewrite <- Hoff, uwrap_small by (unfold zlen in *; width_lia). replace (Z.of_nat i + 1) with (Z.of_nat (S i)) by lia. apply IH; lia.
Qed.

Lemma len_spec zl es : ziplist_rep zl es -> exists zl', ziplistLen host zl = Some (zl', zlen es) /\ ziplist_rep zl' es.
Proof using Type.
  intros Hrep. pose proof (rep_fuel _ _ Hrep) as Hfuel. unfold ziplistLen.
  pose proof (len_loop_spec zl es (length zl) Hrep 0 ltac:(lia) ltac:(lia)) as Hloop.
  change (off es 0) with ZIPLIST_HEADER_SIZE in Hloop. change (Z.of_nat 0) with 0 in Hloop.
  pose proof Hrep as [Hch Hroom (n & Hn & Hzl)]. pose proof (count_range _ _ Hn) as Hr.
  assert (ZIPLIST_LENGTH host zl = Some (intrev16ifbe host n)) as -> by (rewrite Hzl; by apply get_length).
  cbn [mbind option_bind]. rewrite intrev16ifbe_involutive by done.
  destruct (Z.ltb_spec n UINT16_MAX).
  - exists zl. unfold count_ok in Hn. split; [|done]. do 2 f_equal. lia.
  - rewrite Hloop. cbn [mbind option_bind]. destruct (Z.ltb_spec (zlen es) UINT16_MAX).
    + rewrite Hzl, set_len. cbn [mbind option_bind]. eexists. split; [done|]. constructor; [done|done|].
      exists (zlen es). split; [by right|done].
    + by exists zl.
Qed.

Lemma blob_len_spec zl es : ziplist_rep zl es -> ziplistBlobLen host zl = Some (zlen zl).
Proof using Type.
  intros Hrep. pose proof (rep_zlen _ _ Hrep) as Hl. pose proof (zl_rep_size _ _ Hrep). pose proof (size_nonneg es).
  destruct Hrep as [_ _ (n & _ & Hzl)]. unfold ziplistBlobLen. rewrite Hl, Hzl, get_bytes by width_lia.
  cbn [mbind option_bind]. by rewrite intrev32ifbe_involutive by width_lia.
Qed.

Lemma push_spec zl es s w :
  ziplist_rep zl es -> 11 + max_size (s :: es.*2) < 2 ^ 31 ->
  exists zl' es', ziplistPush host junk zl s w = Some zl' /\ ziplist_rep zl' es' /\
    es'.*2 = match w with ZIPLIST_HEAD => s :: es.*2 | ZIPLIST_TAIL => es.*2 ++ [s] end.
Proof using Type.
  intros Hrep Hroom. cbn [max_size] in Hroom. unfold ziplistPush. destruct w; cbn [mbind option_bind].
  - destruct (insert_spec zl [] es s Hrep) as (zl' & big & es' & Hins & Hv & Hrep'); [cbn [fmap list_fmap app max_size]; done|].
    cbn [size] in Hins. change ZIPLIST_ENTRY_HEAD with (10 + 0). exists zl', ((big, s) :: es'). split_and!; [done|done|].
    by rewrite fmap_cons, Hv.
  - assert (ZIPLIST_ENTRY_END host zl = Some (10 + size es)) as ->.
    { pose proof (blob_len_spec _ _ Hrep) as Hb. rewrite (rep_zlen _ _ Hrep) in Hb. unfold ziplistBlobLen in Hb.
      unfold ZIPLIST_ENTRY_END. destruct (ZIPLIST_BYTES host zl); [|done]. cbn [mbind option_bind] in *. injection Hb as ->.
      f_equal. lia. }
    rewrite <- (app_nil_r es) in Hrep. cbn [mbind option_bind].
    destruct (insert_spec zl es [] s Hrep) as (zl' & big & es' & Hins & Hv & Hrep').
    { rewrite max_size_app. cbn [fmap list_fmap max_size]. lia. }
    exists zl', (es ++ (big, s) :: es'). split_and!; [done|done|]. by rewrite fmap_app, fmap_cons, Hv.
Qed.

(** ** Merging *)

Lemma merge_copy_spec append b1 t1 n1 l1 b2 t2 n2 l2 zb1 zb2 zb :
  zb1 = 11 + zlen l1 -> zb2 = 11 + zlen l2 -> zb = 11 + zlen l1 + zlen l2 ->
  merge_copy junk append (header b1 t1 n1 ++ l1 ++ [ZIP_END]) (header b2 t2 n2 ++ l2 ++ [ZIP_END]) zb1 zb2 zb =
    Some (header b1 t1 n1 ++ l1 ++ l2 ++ [ZIP_END]).
Proof using Type.
  intros -> -> ->. pose proof (zlen_nonneg l1). pose proof (zlen_nonneg l2).
  unfold merge_copy, ZIPLIST_HEADER_SIZE, ZIPLIST_END_SIZE. destruct append.
  - destruct (mrealloc_grow (header b1 t1 n1 ++ l1 ++ [ZIP_END]) (11 + zlen l1 + zlen l2)) as (j & Hj & ->);
      [autorewrite with redis_len; lia|]. autorewrite with redis_len in Hj.
    rewrite <- (app_nil_r (l2 ++ [ZIP_END])), mread_off by (autorewrite with redis_len; lia). cbn [mbind option_bind].
    rewrite <- !app_assoc, (app_assoc _ l1), <- (app_nil_r j), (app_assoc [ZIP_END] j), mwrite_off;
      [by rewrite <- !app_assoc, app_nil_r|autorewrite with redis_len; lia..].
  - destruct (mrealloc_grow (header b2 t2 n2 ++ l2 ++ [ZIP_END]) (11 + zlen l1 + zlen l2)) as (j & Hj & ->);
      [autorewrite with redis_len; lia|]. autorewrite with redis_len in Hj.
    destruct (split_len (header b2 t2 n2 ++ l2 ++ [ZIP_END] ++ j) (10 + zlen l1) (zlen (l2 ++ [ZIP_END]))) as (y & z & E & Hy & Hz);
      [lia|apply zlen_nonneg|autorewrite with redis_len; lia|].
    rewrite (mmove_off _ (header b2 t2 n2) (l2 ++ [ZIP_END]) j y z []).
    + cbn [mbind option_bind]. rewrite (app_assoc (header b1 t1 n1)), mread_front by (autorewrite with redis_len; lia). cbn [mbind option_bind].
      rewrite mwrite_front by (autorewrite with redis_len; lia). by rewrite <- !app_assoc, app_nil_r.
    + by rewrite <- !app_assoc.
    + by rewrite app_nil_r, <- E, <- !app_assoc.
    + lia.
    + done.
    + autorewrite with redis_len. lia.
    + done.
Qed.

Lemma count_merge n1 n2 es1 es2 es2' :
  count_ok n1 es1 -> count_ok n2 es2 -> length es2' = length es2 ->
  count_ok (if n1 + n2 <? UINT16_MAX then n1 + n2 else UINT16_MAX) (es1 ++ es2').
Proof using Type.
  intros H1 H2 Hl. pose proof (zlen_nonneg es1). pose proof (zlen_nonneg es2). unfold count_ok, UINT16_MAX in *.
  assert (zlen (es1 ++ es2') = zlen es1 + zlen es2) as -> by (unfold zlen; rewrite length_app, Hl; lia).
  destruct (Z.ltb_spec (n1 + n2) 65535); lia.
Qed.

(** The cascade that repairs the seam starts at the last entry of the first
    list, or at the first entry of the second when the first is empty. *)
Lemma merge_seam n es1 es2 :
  chain 0 es1 -> chain 0 es2 -> es2 <> [] -> 11 + max_size (es1.*2 ++ es2.*2) < 2 ^ 31 -> exists es2',
  __ziplistCascadeUpdate host junk (header (11 + size es1 + size es2) (10 + size es1 + (tail_off 10 es2 - 10)) n ++
      layout 0 es1 ++ layout 0 es2 ++ [ZIP_END]) (tail_off 10 es1) =
    Some (header (11 + size (es1 ++ es2')) (tail_off 10 (es1 ++ es2')) n ++ layout 0 (es1 ++ es2') ++ [ZIP_END]) /\
  es2'.*2 = es2.*2 /\ chain 0 (es1 ++ es2').
Proof using Type.
  intros Hc1 Hc2 Hne Hroom. rewrite max_size_app in Hroom. pose proof (max_size_nonneg es2.*2).
  destruct es1 as [|e es1 _] using rev_ind.
  - destruct es2 as [|e2 es2]; [done|]. destruct Hc2 as (Hf & Hs & Hc2). rewrite fmap_cons in *. cbn [max_size fmap list_fmap] in *.
    pose proof (ent_len_le e2). cbn [layout size app]. rewrite <- app_assoc.
    destruct (cascadeUpdate_spec [] e2 0 (ent_len e2) es2 n (11 + 0 + (ent_len e2 + size es2)) (10 + 0 + (tail_off 10 (e2 :: es2) - 10)) 10)
      as (es' & He & Hv & Hch); try done; try (change (zlen (@nil Z)) with 0; lia).
    { change (10 + zlen (@nil Z)) with 10. lia. }
    exists (e2 :: es'). cbn [app] in He. change (tail_off 10 []) with 10. rewrite He. cbn [layout size app zlen length Z.of_nat chain].
    rewrite fmap_cons, Hv, <- app_assoc. split_and!; [|done..]. do 2 f_equal. change (zlen (@nil Z)) with 0. f_equal. lia.
  - apply chain_app in Hc1 as [Hc1 (Hf & Hs & _)]. rewrite fmap_app, max_size_app in Hroom. cbn [fmap list_fmap max_size] in Hroom.
    pose proof (ent_len_le e). pose proof (size_max es1). rewrite tail_off_snoc, size_app, layout_app. cbn [size layout]. rewrite app_nil_r, <- !app_assoc.
    destruct (cascadeUpdate_spec (layout 0 es1) e (last_len 0 es1) 0 es2 n (11 + (size es1 + (ent_len e + 0)) + size es2)
      (10 + (size es1 + (ent_len e + 0)) + (tail_off 10 es2 - 10)) (10 + size es1)) as (es' & He & Hv & Hch);
      try done; try (rewrite zlen_layout; lia).
    { rewrite zlen_layout. destruct es2 as [|e2 es2]; [done|].
      change (tail_off (10 + size es1) (e :: e2 :: es2)) with (tail_off (10 + size es1 + ent_len e) (e2 :: es2)).
      replace (10 + size es1 + ent_len e) with (10 + (size es1 + ent_len e)) by lia. rewrite tail_off_shift. lia. }
    exists es'. replace ((es1 ++ [e]) ++ es') with (es1 ++ e :: es') by (by rewrite <- app_assoc).
    rewrite He, zlen_layout, tail_off_app, size_app, layout_app. cbn [size layout].
    split_and!; [|done|by apply chain_app]. rewrite <- !app_assoc. do 2 f_equal. f_equal. lia.
Qed.

Lemma merge_spec zl1 zl2 es1 es2 :
  ziplist_rep zl1 es1 -> ziplist_rep zl2 es2 -> es2 <> [] -> 11 + max_size (es1.*2 ++ es2.*2) < 2 ^ 31 ->
  exists zl' kept es', ziplistMerge host junk false (Some zl1) (Some zl2) = Some (Some (zl', kept)) /\
    ziplist_rep zl' es' /\ es'.*2 = es1.*2 ++ es2.*2.
Proof using Type.
  intros Hrep1 Hrep2 Hne Hroom. pose proof (rep_tail _ _ Hrep1) as Ht1. pose proof (rep_tail _ _ Hrep2) as Ht2.
  pose proof (zl_rep_size _ _ Hrep1). pose proof (zl_rep_size _ _ Hrep2). pose proof (tail_off_bounds 10 es1). pose proof (tail_off_bounds 10 es2).
  pose proof Hroom as Hroom'. rewrite max_size_app in Hroom'. pose proof (size_max es1). pose proof (size_max es2).
  destruct Hrep1 as [Hc1 _ (n1 & Hn1 & ->)], Hrep2 as [Hc2 _ (n2 & Hn2 & ->)].
  rewrite entry_tail in Ht1, Ht2 by width_lia. injection Ht1 as Ht1. injection Ht2 as Ht2.
  pose proof (count_range _ _ Hn1). pose proof (count_range _ _ Hn2). pose proof (size_nonneg es1). pose proof (size_nonneg es2).
  unfold ziplistMerge. rewrite !get_bytes by width_lia. rewrite !get_length by done. cbn [mbind option_bind].
  rewrite !intrev32ifbe_involutive, !intrev16ifbe_involutive by (done || width_lia). rewrite !entry_tail by width_lia. cbn [mbind option_bind].
  rewrite merge_copy_spec by (rewrite ?zlen_layout; unfold ZIPLIST_HEADER_SIZE, ZIPLIST_END_SIZE; lia). cbn [mbind option_bind].
  rewrite set_bytes. cbn [mbind option_bind]. rewrite set_len. cbn [mbind option_bind]. rewrite set_tail. cbn [mbind option_bind].
  unfold ZIPLIST_HEADER_SIZE, ZIPLIST_END_SIZE. rewrite !(uwrap_small 32) by width_lia.
  replace (11 + size es1 + (11 + size es2) - 10 - 1) with (11 + size es1 + size es2) by lia.
  replace (11 + size es1 - 1 + (tail_off 10 es2 - 10)) with (10 + size es1 + (tail_off 10 es2 - 10)) by lia.
  set (n' := if n1 + n2 <? UINT16_MAX then _ else _).
  destruct (merge_seam n' es1 es2 Hc1 Hc2 Hne Hroom) as (es2' & -> & Hv & Hch). cbn [mbind option_bind].
  eexists _, _, (es1 ++ es2'). split; [done|]. split; [|by rewrite fmap_app, Hv]. constructor; [done|by rewrite fmap_app, Hv|].
  exists n'. split; [|done]. apply count_merge with es2; [done|done|]. apply (f_equal length) in Hv. by rewrite !length_fmap in Hv.
Qed.

(** ** Sequences of operations *)

Inductive zl_op :=
  | ZPush (s : list Z) (w : where_t)
  | ZInsert (idx : Z) (s : list Z)
  | ZDelete (idx : Z)
  | ZDeleteRange (idx num : Z)
  | ZLen
  | ZGet (idx : Z)
  | ZCompare (idx : Z) (t : list Z)
  | ZFind (t : list Z) (skip : nat).

Inductive zl_answer := ADone | ANull | ALen (n : Z) | AInt (n : Z) | AStr (s : list Z) | ABool (b : bool).

(** An operation as a client performs it: find the entry by its index, then
    act on the pointer. *)
Definition zl_step (zl : list Z) (op : zl_op) : option (list Z * zl_answer) :=
  match op with
  | ZPush s w => zl ← ziplistPush host junk zl s w; Some (zl, ADone)
  | ZInsert idx s =>
    p ← ziplistIndex host zl idx;
    match p with None => Some (zl, ANull) | Some p => zl ← ziplistInsert host junk zl p s; Some (zl, ADone) end
  | ZDelete idx =>
    p ← ziplistIndex host zl idx;
    match p with None => Some (zl, ANull) | Some p => '(zl, _) ← ziplistDelete host junk zl p; Some (zl, ADone) end
  | ZDeleteRange idx num => zl ← ziplistDeleteRange host junk zl idx num; Some (zl, ADone)
  | ZLen => '(zl, n) ← ziplistLen host zl; Some (zl, ALen n)
  | ZGet idx =>
    p ← ziplistIndex host zl idx;
    v ← ziplistGet host zl p;
    match v with
    | None => Some (zl, ANull)
    | Some (GetInt n) => Some (zl, AInt n)
    | Some (GetStr p l) => s ← mread zl p l; Some (zl, AStr s)
    end
  | ZCompare idx t =>
    p ← ziplistIndex host zl idx;
    match p with None => Some (zl, ANull) | Some p => b ← ziplistCompare host zl p t; Some (zl, ABool b) end
  | ZFind t skip =>
    r ← ziplistFind host zl ZIPLIST_ENTRY_HEAD t (Z.of_nat skip);
    Some (zl, ABool (match r with Some _ => true | None => false end))
  end.

Fixpoint zl_run (zl : list Z) (ops : list zl_op) : option (list Z * list zl_answer) :=
  match ops with
  | [] => Some (zl, [])
  | op :: ops => '(zl, a) ← zl_step zl op; '(zl, l) ← zl_run zl ops; Some (zl, a :: l)
  end.

(** The same operations on a list of strings. *)
Definition spec_step (l : list (list Z)) (op : zl_op) : list (list Z) * zl_answer :=
  match op with
  | ZPush s ZIPLIST_HEAD => (s :: l, ADone)
  | ZPush s ZIPLIST_TAIL => (l ++ [s], ADone)
  | ZInsert idx s =>
    match index_pos (length l) idx with Some i => (insert_at i s l, ADone) | None => (l, ANull) end
  | ZDelete idx =>
    match index_pos (length l) idx with Some i => (remove_at i l, ADone) | None => (l, ANull) end
  | ZDeleteRange idx num =>
    match index_pos (length l) idx with
    | Some i => (take i l ++ drop (Z.to_nat num) (drop i l), ADone) | None => (l, ADone) end
  | ZLen => (l, ALen (zlen l))
  | ZGet idx =>
    (l, match index_pos (length l) idx ≫= fun i => l !! i with
        | None => ANull
        | Some s => match string2ll s with Some n => AInt n | None => AStr s end
        end)
  | ZCompare idx t =>
    (l, match index_pos (length l) idx ≫= fun i => l !! i with
        | None => ANull
        | Some s => ABool (bool_decide (s = t))
        end)
  | ZFind t skip =>
    (l, ABool (existsb (fun k => bool_decide (l !! (k * S skip)%nat = Some t)) (seq 0 (length l))))
  end.

Fixpoint spec_run (l : list (list Z)) (ops : list zl_op) : list (list Z) * list zl_answer :=
  match ops with
  | [] => (l, [])
  | op :: ops => let '(l, a) := spec_step l op in let '(l, r) := spec_run l ops in (l, a :: r)
  end.

(** The strings fit in a ziplist whatever the encodings chosen. *)
Definition total_room (l : list (list Z)) : Z := 11 + foldr (fun s n => 13 + zlen s + n) 0 l.

(** Arguments in range, and a list that stays below 2 GB: [ziplistResize]
    takes the new size as an [unsigned int] and [zlbytes] has 32 bits. *)
Definition op_ok (l : list (list Z)) (op : zl_op) : Prop :=
  match op with
  | ZPush _ _ => True
  | ZInsert idx _ | ZDelete idx | ZGet idx | ZCompare idx _ => - 2 ^ 31 < idx < 2 ^ 31
  | ZDeleteRange idx num => - 2 ^ 31 < idx < 2 ^ 31 /\ 0 <= num < 2 ^ 32
  | ZLen => True
  | ZFind _ skip => Z.of_nat skip < 2 ^ 31
  end /\ total_room (spec_step l op).1 < 2 ^ 31.

#[global] Instance op_ok_dec l op : Decision (op_ok l op).
Proof using Type. clear host junk. unfold op_ok. destruct op; apply _. Defined.

Fixpoint ops_ok (l : list (list Z)) (ops : list zl_op) : Prop :=
  match ops with [] => True | op :: ops => op_ok l op /\ ops_ok (spec_step l op).1 ops end.

Lemma max_size_room l : 11 + max_size l <= total_room l.
Proof using Type.
  unfold total_room. induction l as [|s l IH]; [done|]. cbn [max_size foldr]. pose proof (body_bound s). lia.
Qed.

Lemma index_pos_lt n idx i : index_pos n idx = Some i -> (i < n)%nat.
Proof using Type.
  unfold index_pos. destruct (Z.leb_spec 0 idx), (Z.ltb_spec idx (Z.of_nat n)); cbn [andb]; try (intros [= <-]; lia).
  all: destruct (Z.ltb_spec idx 0), (Z.leb_spec (- Z.of_nat n) idx); cbn [andb]; intros; simplify_eq; lia.
Qed.

(** A ziplist that holds the strings [l]. *)
Definition holds (zl : list Z) (l : list (list Z)) : Prop := exists es, ziplist_rep zl es /\ es.*2 = l.

Lemma insert_at_spec zl es i s :
  ziplist_rep zl es -> total_room (insert_at i s es.*2) < 2 ^ 31 ->
  exists zl', ziplistInsert host junk zl (off es i) s = Some zl' /\ holds zl' (insert_at i s es.*2).
Proof using Type.
  intros Hrep Hroom. pose proof (max_size_room (insert_at i s es.*2)) as Hm. unfold insert_at in *.
  rewrite <- fmap_take, <- fmap_drop in *. rewrite <- (take_drop i es) in Hrep.
  destruct (insert_spec zl (take i es) (drop i es) s Hrep) as (zl' & big & es' & Hi & Hv & Hrep'); [lia|].
  exists zl'. split; [done|]. exists (take i es ++ (big, s) :: es'). split; [done|]. by rewrite fmap_app, fmap_cons, Hv.
Qed.

Lemma delete_range_spec zl es i num :
  ziplist_rep zl es -> (i < length es)%nat -> 0 <= num ->
  exists zl', __ziplistDelete host junk zl (off es i) num = Some zl' /\
    holds zl' (take i es.*2 ++ drop (Z.to_nat num) (drop i es.*2)).
Proof using Type.
  intros Hrep Hi Hnum. rewrite <- fmap_take, <- !fmap_drop, <- fmap_app.
  destruct (Z.eq_dec num 0) as [->|Hn0].
  - exists zl. rewrite drop_0, take_drop. split; [|by exists es]. unfold __ziplistDelete.
    destruct (lookup_lt_is_Some_2 _ _ Hi) as [e He]. pose proof (rep_byte zl es i Hrep ltac:(lia)) as (c & Hb & _).
    assert (skip_entries (S (length zl)) zl (off es i) 0 0 = Some (off es i, 0)) as Hskip.
    { cbn [skip_entries]. rewrite Hb. cbn [mbind option_bind]. change (0 >=? 0) with true. by rewrite orb_true_r. }
    rewrite Hskip. destruct (rep_at _ _ _ _ Hrep He) as (a & q & r & -> & Ha & Hf & Hs & _). rewrite zipEntry_spec by done.
    cbn [mbind option_bind]. unfold delete_bytes. cbn [zle_p]. by rewrite Z.sub_diag.
  - destruct (drop i es) as [|e dr] eqn:E; [apply (f_equal length) in E; rewrite length_drop in E; cbn in E; lia|].
    assert (Z.to_nat num = S (Z.to_nat (num - 1))) as -> by lia. cbn [drop].
    set (k := Z.to_nat (num - 1)). rewrite <- (take_drop i es), E, <- (take_drop k dr) in Hrep.
    destruct (delete_spec zl (take i es) e (take k dr) (drop k dr) num Hrep) as (zl' & es' & Hd & Hv & Hrep').
    { rewrite zlen_cons. unfold zlen. rewrite length_take. destruct (Nat.le_gt_cases (length dr) k).
      - right. split; [lia|by apply drop_ge].
      - left. lia. }
    exists zl'. split; [done|]. eexists. split; [done|]. by rewrite fmap_app, Hv, <- fmap_app.
Qed.

Lemma existsb_find l t skip r :
  find_ok l 0 (S skip) t r ->
  match r with Some _ => true | None => false end =
    existsb (fun k => bool_decide (l !! (k * S skip)%nat = Some t)) (seq 0 (length l)).
Proof using Type.
  intros Hr. symmetry. destruct r as [j|]; cbn in Hr.
  - destruct Hr as (Hj & k & -> & _). apply existsb_exists. exists k. split; [|by apply bool_decide_eq_true_2].
    apply in_seq. apply lookup_lt_Some in Hj. lia.
  - apply not_true_is_false. rewrite existsb_exists. intros (k & _ & Hk%bool_decide_eq_true). by apply (Hr k).
Qed.

Lemma zl_step_spec zl l op :
  holds zl l -> op_ok l op ->
  exists zl', zl_step zl op = Some (zl', (spec_step l op).2) /\ holds zl' (spec_step l op).1.
Proof using Type.
  intros (es & Hrep & <-) [Hop Hroom]. pose proof (max_size_room (spec_step es.*2 op).1) as Hm.
  assert (holds zl es.*2) as Hh by (by exists es).
  destruct op as [s w|idx s|idx|idx num| |idx|idx t|t skip]; cbn [zl_step spec_step] in *; rewrite ?length_fmap in *.
  - destruct (push_spec zl es s w Hrep) as (zl' & es' & -> & Hrep' & Hv).
    { destruct w; cbn [fst] in Hm, Hroom; [lia|]. rewrite max_size_app in Hm. cbn [max_size] in *. lia. }
    exists zl'. destruct w; (split; [done|by exists es']).
  - rewrite (index_spec _ _ _ Hrep) by lia. destruct (index_pos _ idx) as [i|] eqn:E; cbn [mbind option_bind fmap option_fmap option_map]; [|by exists zl].
    destruct (insert_at_spec zl es i s Hrep Hroom) as (zl' & -> & Hh'). by exists zl'.
  - rewrite (index_spec _ _ _ Hrep) by lia. destruct (index_pos _ idx) as [i|] eqn:E; cbn [mbind option_bind fmap option_fmap option_map]; [|by exists zl].
    apply index_pos_lt in E. destruct (delete_range_spec zl es i 1 Hrep E ltac:(lia)) as (zl' & Hd & Hh').
    unfold ziplistDelete. rewrite Hd. exists zl'. split; [done|]. unfold remove_at. cbn [fst].
    rewrite drop_drop in Hh'. by replace (S i) with (i + Z.to_nat 1)%nat by lia.
  - unfold ziplistDeleteRange. rewrite (index_spec _ _ _ Hrep) by lia.
    destruct (index_pos _ idx) as [i|] eqn:E; cbn [mbind option_bind fmap option_fmap option_map]; [|by exists zl].
    apply index_pos_lt in E. destruct (delete_range_spec zl es i num Hrep E ltac:(lia)) as (zl' & -> & Hh'). by exists zl'.
  - destruct (len_spec _ _ Hrep) as (zl' & -> & Hrep'). exists zl'. cbn [mbind option_bind]. split; [|by exists es].
    unfold zlen. by rewrite length_fmap.
  - rewrite (index_spec _ _ _ Hrep) by lia. destruct (index_pos _ idx) as [i|] eqn:E; cbn [mbind option_bind fmap option_fmap option_map]; [|by exists zl].
    apply index_pos_lt in E. destruct (lookup_lt_is_Some_2 _ _ E) as [e He]. rewrite list_lookup_fmap, He. cbn [fmap option_fmap option_map].
    destruct (get_spec _ _ _ _ Hrep He) as (v & -> & Hv). cbn [mbind option_bind]. unfold get_ok in Hv. exists zl. split; [|done].
    destruct (string2ll e.2) as [n|]; [by subst v|]. destruct Hv as (p & -> & ->). done.
  - rewrite (index_spec _ _ _ Hrep) by lia. destruct (index_pos _ idx) as [i|] eqn:E; cbn [mbind option_bind fmap option_fmap option_map]; [|by exists zl].
    apply index_pos_lt in E. destruct (lookup_lt_is_Some_2 _ _ E) as [e He]. rewrite list_lookup_fmap, He. cbn [fmap option_fmap option_map].
    rewrite (compare_spec _ _ _ _ t Hrep He). cbn [mbind option_bind]. by exists zl.
  - destruct (zl_find_spec zl es t skip 0 Hrep Hop ltac:(lia)) as (r & Hr & Hok). change (off es 0) with ZIPLIST_ENTRY_HEAD in Hr. rewrite Hr.
    cbn [mbind option_bind]. exists zl. split; [|done]. apply existsb_find in Hok. rewrite length_fmap in Hok. rewrite <- Hok. by destruct r.
Qed.

Lemma zl_run_spec zl l ops :
  holds zl l -> ops_ok l ops ->
  exists zl', zl_run zl ops = Some (zl', (spec_run l ops).2) /\ holds zl' (spec_run l ops).1.
Proof using Type.
  revert zl l. induction ops as [|op ops IH]; intros zl l Hh Hok; cbn [zl_run spec_run]; [by exists zl|].
  destruct Hok as [Hop Hok]. destruct (zl_step_spec zl l op Hh Hop) as (zl1 & -> & Hh1). cbn [mbind option_bind].
  destruct (spec_step l op) as [l1 a]. cbn [fst snd] in *. destruct (IH zl1 l1 Hh1 Hok) as (zl2 & -> & Hh2). cbn [mbind option_bind].
  destruct (spec_run l1 ops) as [l2 r]. by exists zl2.
Qed.

Lemma new_holds : exists zl, ziplistNew host junk = Some zl /\ holds zl [].
Proof using Type. destruct new_spec as (zl & H & Hr). exists zl. split; [done|]. by exists []. Qed.

(** ** Iteration

    [for (p = start; p != NULL; p = step(p))], collecting the pointers. *)
Fixpoint zl_walk (fuel : nat) (step : Z -> option (option Z)) (p : option Z) : option (list Z) :=
  match p with
  | None => Some []
  | Some p =>
    match fuel with
    | O => None
    | S fuel => n ← step p; l ← zl_walk fuel step n; Some (p :: l)
    end
  end.

Definition zl_forward (zl : list Z) : option (list Z) :=
  p ← ziplistIndex host zl 0; zl_walk (length zl) (ziplistNext zl) p.
Definition zl_backward (zl : list Z) : option (list Z) :=
  p ← ziplistIndex host zl (-1); zl_walk (length zl) (ziplistPrev host zl) p.

Lemma zl_walk_next zl es fuel : ziplist_rep zl es -> forall i,
  (i < length es)%nat -> (length es - i <= fuel)%nat ->
  zl_walk fuel (ziplistNext zl) (Some (off es i)) = Some (off es <$> seq i (length es - i)).
Proof using Type.
  intros Hrep. induction fuel as [|fuel IH]; intros i Hi Hfuel; [lia|]. cbn [zl_walk].
  destruct (lookup_lt_is_Some_2 _ _ Hi) as [e He]. rewrite (next_spec _ _ _ _ Hrep He). cbn [mbind option_bind].
  replace (length es - i)%nat with (S (length es - S i)) by lia. cbn [seq]. destruct (Nat.ltb_spec (S i) (length es)).
  - rewrite IH by lia. done.
  - replace (length es - S i)%nat with 0%nat by lia. by destruct fuel.
Qed.

Lemma zl_walk_prev zl es fuel : ziplist_rep zl es -> forall i,
  (i < length es)%nat -> (i < fuel)%nat ->
  zl_walk fuel (ziplistPrev host zl) (Some (off es i)) = Some (off es <$> reverse (seq 0 (S i))).
Proof using Type.
  intros Hrep. induction fuel as [|fuel IH]; intros i Hi Hfuel; [lia|]. cbn [zl_walk].
  rewrite (prev_spec _ _ _ Hrep) by lia. cbn [mbind option_bind]. rewrite seq_S, reverse_app, fmap_app. cbn [Nat.add].
  destruct i as [|i]; [by destruct fuel|]. change (0 <? S i)%nat with true. cbv iota. replace (S i - 1)%nat with i by lia.
  rewrite IH by lia. done.
Qed.

Lemma walks_spec zl es :
  ziplist_rep zl es ->
  zl_forward zl = Some (off es <$> seq 0 (length es)) /\ zl_backward zl = Some (reverse (off es <$> seq 0 (length es))).
Proof using Type.
  intros Hrep. pose proof (rep_fuel _ _ Hrep). unfold zl_forward, zl_backward. rewrite !(index_spec _ _ _ Hrep) by lia.
  destruct es as [|e es]; [by destruct zl|]. set (es' := e :: es) in *.
  assert (index_pos (length es') 0 = Some 0%nat) as -> by done.
  assert (index_pos (length es') (-1) = Some (length es' - 1)%nat) as ->.
  { unfold index_pos. cbn [Z.leb Z.compare andb Z.ltb]. subst es'. rewrite (proj2 (Z.leb_le _ _)) by (cbn [length]; lia). f_equal. cbn [length]. lia. }
  cbn [mbind option_bind fmap option_fmap option_map]. rewrite (zl_walk_next _ _ _ Hrep) by (subst es'; cbn [length] in *; lia).
  rewrite (zl_walk_prev _ _ _ Hrep) by (subst es'; cbn [length] in *; lia).
  rewrite Nat.sub_0_r, <- fmap_reverse. split; [done|]. do 3 f_equal. f_equal. subst es'. cbn [length]. lia.
Qed.

Lemma gets_spec zl es :
  ziplist_rep zl es ->
  Forall2 (fun p s => exists v, ziplistGet host zl (Some p) = Some (Some v) /\ get_ok zl s v) (off es <$> seq 0 (length es)) es.*2.
Proof using Type.
  intros Hrep. apply Forall2_same_length_lookup_2; [by rewrite !length_fmap, length_seq|].
  intros i p s Hp Hs. rewrite list_lookup_fmap in Hp. apply list_lookup_fmap_Some in Hs as (e & -> & He).
  apply lookup_lt_Some in He as Hlt. rewrite lookup_seq_lt in Hp by done. injection Hp as <-. by apply get_spec.
Qed.

End Ops.

(** ** Claims *)

(** C8: every sequence of pushes, insertions, deletions (of one entry or of a
    range), length queries, reads, comparisons and searches on a new ziplist
    returns, on either byte order and whatever fresh memory contains; no step
    touches memory outside the allocation, reaches a [panic] or an assertion
    or runs forever; and the answers and final contents are those of a list
    of byte strings, although strings that are decimal notations are stored
    as integers and the previous lengths cascade.  The list stays below 2 GB,
    and the indices are ints other than INT_MIN ([ops_ok]): the code keeps the
    size of the list in 32 bits and does not check it. *)
Theorem ziplist_refines_list host junk ops :
  ops_ok [] ops ->
  exists zl zl', ziplistNew host junk = Some zl /\
    zl_run host junk zl ops = Some (zl', (spec_run [] ops).2) /\ holds zl' (spec_run [] ops).1.
Proof.
  intros Hok. destruct (new_holds host junk) as (zl & Hnew & Hh).
  destruct (zl_run_spec host junk zl [] ops Hh Hok) as (zl' & Hrun & Hh'). by exists zl, zl'.
Qed.

Definition demo_str (n : nat) : list Z := replicate n 97.
Definition demo_zl_ops : list zl_op :=
  [ZPush (demo_str 250) ZIPLIST_TAIL; ZPush (demo_str 250) ZIPLIST_TAIL; ZPush [45; 55] ZIPLIST_TAIL;
   ZPush (demo_str 300) ZIPLIST_HEAD; ZInsert 1 [49; 50; 51; 52; 53]; ZGet (-1); ZLen; ZDeleteRange 0 2; ZFind [45; 55] 0; ZGet 0].

Lemma ziplist_refines_list_witness :
  exists zl zl', ziplistNew BIG_ENDIAN (fun _ => 0) = Some zl /\
    zl_run BIG_ENDIAN (fun _ => 0) zl demo_zl_ops =
      Some (zl', [ADone; ADone; ADone; ADone; ADone; AInt (-7); ALen 5; ADone; ABool true; AStr (demo_str 250)]) /\
    holds zl' [demo_str 250; demo_str 250; [45; 55]].
Proof. apply (ziplist_refines_list BIG_ENDIAN (fun _ => 0) demo_zl_ops). decide_now || (vm_compute; repeat split; done). Defined.

(** C36: the invariant that makes a ziplist traversable in both directions:
    after any sequence of operations the recorded size is the size of the
    allocation, iterating with [ziplistNext] from the head visits entries
    that hold the strings in order, and iterating with [ziplistPrev] from the
    tail, by the previous lengths the cascades maintain, visits exactly the
    same entries in reverse.  As above, the list stays below 2 GB and no
    index is INT_MIN. *)
Theorem ziplist_walks host junk ops :
  ops_ok [] ops ->
  exists zl zl' ps, ziplistNew host junk = Some zl /\ zl_run host junk zl ops = Some (zl', (spec_run [] ops).2) /\
    ziplistBlobLen host zl' = Some (zlen zl') /\
    zl_forward host zl' = Some ps /\ zl_backward host zl' = Some (reverse ps) /\
    Forall2 (fun p s => exists v, ziplistGet host zl' (Some p) = Some (Some v) /\ get_ok zl' s v) ps (spec_run [] ops).1.
Proof.
  intros Hok. destruct (new_holds host junk) as (zl & Hnew & Hh).
  destruct (zl_run_spec host junk zl [] ops Hh Hok) as (zl' & Hrun & es & Hrep & Hv).
  destruct (walks_spec host zl' es Hrep) as [Hf Hb]. exists zl, zl', (off es <$> seq 0 (length es)).
  split_and!; [done|done|by apply blob_len_spec with es|done|done|]. rewrite <- Hv. by apply gets_spec.
Qed.

Lemma ziplist_walks_witness :
  exists zl zl' ps, ziplistNew LITTLE_ENDIAN (fun _ => 7) = Some zl /\
    zl_run LITTLE_ENDIAN (fun _ => 7) zl demo_zl_ops = Some (zl', (spec_run [] demo_zl_ops).2) /\
    ziplistBlobLen LITTLE_ENDIAN zl' = Some (zlen zl') /\
    zl_forward LITTLE_ENDIAN zl' = Some ps /\ zl_backward LITTLE_ENDIAN zl' = Some (reverse ps) /\
    Forall2 (fun p s => exists v, ziplistGet LITTLE_ENDIAN zl' (Some p) = Some (Some v) /\ get_ok zl' s v) ps
      [demo_str 250; demo_str 250; [45; 55]].
Proof. apply (ziplist_walks LITTLE_ENDIAN (fun _ => 7) demo_zl_ops). decide_now || (vm_compute; repeat split; done). Defined.

(** [ziplistFind] from any entry of a well-formed ziplist, comparing one
    entry and skipping [skip], returns the first entry on its path that
    equals the searched string, be it stored as an integer or as a string,
    and [NULL] exactly when there is none. *)
Theorem ziplistFind_correct host zl es v (skip : nat) i :
  ziplist_rep zl es -> Z.of_nat skip < 2 ^ 31 -> (i <= length es)%nat ->
  exists r, ziplistFind host zl (off es i) v (Z.of_nat skip) = Some (off es <$> r) /\ find_ok es.*2 i (S skip) v r.
Proof. apply zl_find_spec. Qed.

Definition demo_entries : list entry := [(false, [97]); (false, [49; 50]); (false, [49; 51])].
Definition demo_zl : list Z := header 19 15 3 ++ layout 0 demo_entries ++ [ZIP_END].

Lemma demo_zl_rep : ziplist_rep demo_zl demo_entries.
Proof.
  constructor; [vm_compute; intuition congruence|vm_compute; done|].
  exists 3. split; [by right|]. vm_compute. done.
Qed.

Lemma ziplistFind_correct_witness :
  exists r, ziplistFind BIG_ENDIAN demo_zl (off demo_entries 0) [49; 51] (Z.of_nat 1) = Some (off demo_entries <$> r) /\
    find_ok demo_entries.*2 0 2 [49; 51] r.
Proof. apply (ziplistFind_correct BIG_ENDIAN demo_zl demo_entries [49; 51] 1 0); [apply demo_zl_rep|lia|lia]. Defined.

(** C37: merging two ziplists, the second not empty, returns a well-formed
    ziplist with the entries of the first followed by those of the second;
    the seam, where a previous length must grow from one byte to five, is
    repaired by the cascade, whichever of the two allocations is reused.  The
    result is assumed to be below 2 GB: the code stores the sum of the sizes
    in 32 bits without a check. *)
Theorem ziplistMerge_correct host junk zl1 zl2 l1 l2 :
  holds zl1 l1 -> holds zl2 l2 -> l2 <> [] -> total_room (l1 ++ l2) < 2 ^ 31 ->
  exists zl' kept, ziplistMerge host junk false (Some zl1) (Some zl2) = Some (Some (zl', kept)) /\ holds zl' (l1 ++ l2).
Proof.
  intros (es1 & Hrep1 & <-) (es2 & Hrep2 & <-) Hne Hroom. pose proof (max_size_room (es1.*2 ++ es2.*2)).
  destruct (merge_spec host junk zl1 zl2 es1 es2 Hrep1 Hrep2) as (zl' & kept & es' & Hm & Hrep' & Hv).
  { by intros ->. } { lia. } exists zl', kept. split; [done|]. by exists es'.
Qed.

Lemma ziplistMerge_correct_witness :
  exists zl' kept, ziplistMerge LITTLE_ENDIAN (fun _ => 1) false (Some demo_zl) (Some demo_zl) = Some (Some (zl', kept)) /\
    holds zl' [[97]; [49; 50]; [49; 51]; [97]; [49; 50]; [49; 51]].
Proof.
  apply (ziplistMerge_correct LITTLE_ENDIAN (fun _ => 1) demo_zl demo_zl [[97]; [49; 50]; [49; 51]] [[97]; [49; 50]; [49; 51]]);
    [exists demo_entries; split; [apply demo_zl_rep|reflexivity]..|done|vm_compute; reflexivity].
Defined.

(** Merging with an empty second list leaves the tail offset at the
    terminator: the merged list is not empty, yet its last entry is not
    found, and the next push at the tail records a previous length of 0. *)
Lemma merge_empty_second :
  (e ← ziplistNew LITTLE_ENDIAN (fun _ => 0);
   r ← ziplistMerge LITTLE_ENDIAN (fun _ => 0) false (Some demo_zl) (Some e);
   zl ← fst <$> r;
   head ← ziplistIndex LITTLE_ENDIAN zl 0;
   tail ← ziplistIndex LITTLE_ENDIAN zl (-1);
   Some (head, tail)) = Some (Some 10, None).
Proof. vm_compute. reflexivity. Qed.
