(* ===== verification/Networking.v ===== *)
(** * Request parsing ([networking.c])

    How the bytes a client sends become commands: the query buffer, the
    parsers of the two request formats (inline and RESP), the loop that
    executes the commands found in the buffer, and the read handler that
    fills it, with arbitrary fragmentation of the input by the network.

    The parsers use dynamic strings only through the operations of the class
    [QueryBuffer]; the theorems are proved from the laws of [QueryBufferLaws]
    and the instance for [sds] discharges them.  The execution of a command
    is a parameter: what [processCommand] reports and does to the client it is
    called with.  It may answer differently each time, since the client
    records the commands it has executed.  Every operation returns [None] when
    it would read outside the buffer, write outside [argv], use the client
    after it was freed or fail an assertion. *)

From S2P Require Import Prelude Numstr Sds SdsText.
From stdpp Require Import options.

Definition PROTO_IOBUF_LEN : Z := 1024 * 16.
Definition PROTO_INLINE_MAX_SIZE : Z := 1024 * 64.
Definition PROTO_MBULK_BIG_ARG : Z := 1024 * 32.
Definition PROTO_REQ_INLINE : Z := 1.
Definition PROTO_REQ_MULTIBULK : Z := 2.

(** ** What the parser asks of a string *)

Class QueryBuffer (T : Type) := {
  qb_len : T -> Z;                                   (* sdslen *)
  qb_mem : T -> list Z;                              (* the memory it points to *)
  qb_range : T -> Z -> Z -> option T;                (* sdsrange *)
  qb_room : T -> Z -> option T;                      (* sdsMakeRoomFor *)
  qb_store : T -> Z -> list Z -> option T;           (* bytes written through the pointer *)
  qb_incr : T -> Z -> option T;                      (* sdsIncrLen *)
  qb_cat : T -> list Z -> Z -> option T;             (* sdscatlen *)
  qb_fat : Z -> option T;                            (* sdsnewlen(SDS_NOINIT,n); sdsclear *)
  qb_args : list Z -> Z -> option (option (list (list Z)));  (* sdsnewlen; sdssplitargs *)
}.

(** [qb_rep t bs]: [t] holds the bytes [bs]. *)
Class QueryBufferLaws (T : Type) `{QueryBuffer T} := {
  qb_rep : T -> list Z -> Prop;
  qb_law_len t bs : qb_rep t bs -> qb_len t = zlen bs;
  qb_law_mem t bs : qb_rep t bs -> exists r, qb_mem t = bs ++ 0 :: r;
  qb_law_range t bs pos : qb_rep t bs -> zlen bs < 2 ^ 62 -> 0 <= pos <= zlen bs ->
    exists t', qb_range t pos (-1) = Some t' /\ qb_rep t' (drop (Z.to_nat pos) bs);
  qb_law_room t bs n : qb_rep t bs -> 0 <= n -> zlen bs + n < 2 ^ 62 ->
    exists t', qb_room t n = Some t' /\ qb_rep t' bs;
  qb_law_read t bs n chunk : qb_rep t bs -> 0 < zlen chunk <= n -> zlen bs + n < 2 ^ 62 ->
    exists t1 t2 t3, qb_room t n = Some t1 /\ qb_store t1 (zlen bs) chunk = Some t2 /\
      mread (qb_mem t2) (zlen bs) (zlen chunk) = Some chunk /\
      qb_incr t2 (zlen chunk) = Some t3 /\ qb_rep t3 (bs ++ chunk);
  qb_law_cat t bs x : qb_rep t bs -> zlen bs + zlen x < 2 ^ 62 ->
    exists t', qb_cat t x (zlen x) = Some t' /\ qb_rep t' (bs ++ x);
  qb_law_chop t bs x : qb_rep t (bs ++ x) -> zlen x = 2 ->
    exists t', qb_incr t (-2) = Some t' /\ qb_rep t' bs;
  qb_law_fat n : 0 <= n < 2 ^ 62 -> exists t, qb_fat n = Some t /\ qb_rep t [];
  qb_law_args m n : 0 <= n <= zlen m -> n < 2 ^ 61 -> exists r, qb_args m n = Some r;
}.

(** ** The client *)

Inductive proto_error :=
  | TooBigInline | UnbalancedQuotes | TooBigMbulkCount | InvalidMbulk
  | TooBigBulkCount | ExpectedDollar (c : Z) | InvalidBulk.

Record client_flags := mk_flags {
  CLIENT_SLAVE : bool; CLIENT_MASTER : bool; CLIENT_MULTI : bool; CLIENT_BLOCKED : bool;
  CLIENT_CLOSE_AFTER_REPLY : bool; CLIENT_CLOSE_ASAP : bool;
  CLIENT_ASKING : bool; CLIENT_REPLY_SKIP : bool; CLIENT_REPLY_SKIP_NEXT : bool;
}.

Record client (T : Type) := mk_client {
  querybuf : T;
  qb_pos : Z;
  reqtype : Z;
  multibulklen : Z;
  bulklen : Z;
  argv : list (list Z);     (* the bytes of the argument objects; argc is their number *)
  argv_cap : Z;             (* number of pointers [argv] was allocated for *)
  flags : client_flags;
  asking_cmd : bool;        (* whether the last command was ASKING *)
  reploff : Z;
  read_reploff : Z;
  pending_querybuf : T;
  repl_ack_time : Z;
  querybuf_peak : Z;
  lastinteraction : Z;
  errors : list proto_error;
  executed : list (list (list Z));  (* the argument vectors passed to processCommand *)
  fed : list Z;             (* the bytes passed to replicationFeedSlavesFromMasterStream *)
  alive : bool;             (* false once freed *)
}.
Arguments mk_client {T}. Arguments querybuf {T}. Arguments qb_pos {T}. Arguments reqtype {T}.
Arguments multibulklen {T}. Arguments bulklen {T}. Arguments argv {T}. Arguments argv_cap {T}.
Arguments flags {T}. Arguments asking_cmd {T}. Arguments reploff {T}. Arguments read_reploff {T}.
Arguments pending_querybuf {T}. Arguments repl_ack_time {T}. Arguments querybuf_peak {T}. Arguments lastinteraction {T}.
Arguments errors {T}. Arguments executed {T}. Arguments fed {T}. Arguments alive {T}.

(** What executing a command reports and does to the client. *)
Record cmd_effect := mk_effect {
  ce_ok : bool;             (* processCommand returned C_OK *)
  ce_multi : bool;          (* CLIENT_MULTI after the command *)
  ce_blocked : bool;        (* the command blocked the client *)
  ce_module : bool;         (* ... in a module call *)
  ce_close : bool;          (* the client is to be closed after the reply *)
  ce_asking : bool;         (* the command was ASKING *)
  ce_freed : bool;          (* the client was freed meanwhile *)
}.

Record server_state := mk_server {
  clientsArePaused : bool;
  lua_timedout : bool;
  proto_max_bulk_len : Z;
  client_max_querybuf_len : Z;
  unixtime : Z;
}.

Section Client.
Context {T : Type} `{QueryBuffer T}.
Context (server : server_state) (processCommand : client T -> cmd_effect).

Definition set_parse (c : client T) (q : T) (pos rt mb bl : Z) (av : list (list Z)) (cap : Z) : client T :=
  mk_client q pos rt mb bl av cap (flags c) (asking_cmd c) (reploff c) (read_reploff c) (pending_querybuf c)
    (repl_ack_time c) (querybuf_peak c) (lastinteraction c) (errors c) (executed c) (fed c) (alive c).
Definition set_env (c : client T) (f : client_flags) (ask : bool) (er : list proto_error) (ex : list (list (list Z))) (al : bool) : client T :=
  mk_client (querybuf c) (qb_pos c) (reqtype c) (multibulklen c) (bulklen c) (argv c) (argv_cap c) f
    ask (reploff c) (read_reploff c) (pending_querybuf c) (repl_ack_time c) (querybuf_peak c) (lastinteraction c) er ex (fed c) al.
Definition with_flags (c : client T) (f : client_flags) : client T :=
  set_env c f (asking_cmd c) (errors c) (executed c) (alive c).
Definition set_link (c : client T) (off roff : Z) (pending : T) (fd : list Z) : client T :=
  mk_client (querybuf c) (qb_pos c) (reqtype c) (multibulklen c) (bulklen c) (argv c) (argv_cap c) (flags c)
    (asking_cmd c) off roff pending (repl_ack_time c) (querybuf_peak c) (lastinteraction c) (errors c) (executed c) fd (alive c).
Definition set_stats (c : client T) (ack peak last : Z) : client T :=
  mk_client (querybuf c) (qb_pos c) (reqtype c) (multibulklen c) (bulklen c) (argv c) (argv_cap c) (flags c)
    (asking_cmd c) (reploff c) (read_reploff c) (pending_querybuf c) ack peak last (errors c) (executed c) (fed c) (alive c).
Definition set_pos (c : client T) (pos : Z) : client T :=
  set_parse c (querybuf c) pos (reqtype c) (multibulklen c) (bulklen c) (argv c) (argv_cap c).
Definition set_buffer (c : client T) (q : T) (pos : Z) : client T :=
  set_parse c q pos (reqtype c) (multibulklen c) (bulklen c) (argv c) (argv_cap c).
Definition set_reqtype (c : client T) (rt : Z) : client T :=
  set_parse c (querybuf c) (qb_pos c) rt (multibulklen c) (bulklen c) (argv c) (argv_cap c).
Definition set_bulklen (c : client T) (bl : Z) : client T :=
  set_parse c (querybuf c) (qb_pos c) (reqtype c) (multibulklen c) bl (argv c) (argv_cap c).
Definition set_argv (c : client T) (av : list (list Z)) : client T :=
  set_parse c (querybuf c) (qb_pos c) (reqtype c) (multibulklen c) (bulklen c) av (argv_cap c).

Definition close_flag (f : client_flags) : client_flags :=
  mk_flags (CLIENT_SLAVE f) (CLIENT_MASTER f) (CLIENT_MULTI f) (CLIENT_BLOCKED f) true (CLIENT_CLOSE_ASAP f)
    (CLIENT_ASKING f) (CLIENT_REPLY_SKIP f) (CLIENT_REPLY_SKIP_NEXT f).

(** The error reply and [setProtocolError]. *)
Definition setProtocolError (e : proto_error) (c : client T) : client T :=
  set_env c (close_flag (flags c)) (asking_cmd c) (errors c ++ [e]) (executed c) (alive c).

Definition resetClient (c : client T) : client T :=
  let f := flags c in
  let asking := if negb (CLIENT_MULTI f) && negb (asking_cmd c) then false else CLIENT_ASKING f in
  with_flags (set_parse c (querybuf c) (qb_pos c) 0 0 (-1) [] (argv_cap c))
    (mk_flags (CLIENT_SLAVE f) (CLIENT_MASTER f) (CLIENT_MULTI f) (CLIENT_BLOCKED f) (CLIENT_CLOSE_AFTER_REPLY f)
       (CLIENT_CLOSE_ASAP f) asking (CLIENT_REPLY_SKIP_NEXT f) false).

(** [strchr] from a position of the buffer: stops at the first NUL. *)
Fixpoint strchr_loop (l : list Z) (ch p : Z) : option (option Z) :=
  match l with
  | [] => None
  | c :: l => if c =? ch then Some (Some p) else if c =? 0 then Some None else strchr_loop l ch (p + 1)
  end.

Definition strchr (m : list Z) (pos ch : Z) : option (option Z) := strchr_loop (drop (Z.to_nat pos) m) ch pos.


(** ** Inline requests *)

Definition processInlineBuffer (c : client T) : option (client T * rc) :=
  newline ← strchr (qb_mem (querybuf c)) (qb_pos c) 10;
  match newline with
  | None =>
    if qb_len (querybuf c) - qb_pos c >? PROTO_INLINE_MAX_SIZE
    then Some (setProtocolError TooBigInline c, C_ERR) else Some (c, C_ERR)
  | Some newline =>
    '(newline, linefeed_chars) ←
      (if negb (newline =? qb_pos c) then
         p ← mread (qb_mem (querybuf c)) (newline - 1) 1;
         Some (if bool_decide (p = [13]) then (newline - 1, 2) else (newline, 1))
       else Some (newline, 1));
    let querylen := newline - qb_pos c in
    args ← qb_args (drop (Z.to_nat (qb_pos c)) (qb_mem (querybuf c))) querylen;
    match args with
    | None => Some (setProtocolError UnbalancedQuotes c, C_ERR)
    | Some args =>
      let c := if (querylen =? 0) && CLIENT_SLAVE (flags c)
               then set_stats c (unixtime server) (querybuf_peak c) (lastinteraction c) else c in
      let cap := if zlen args =? 0 then argv_cap c else zlen args in
      Some (set_parse c (querybuf c) (qb_pos c + querylen + linefeed_chars) (reqtype c) (multibulklen c) (bulklen c)
              (filter (fun a => a <> []) args) cap, C_OK)
    end
  end.

(** ** RESP requests *)

(** The line [*<count>\r\n]; the last component tells whether the function
    returns here. *)
Definition read_mbulk_count (c : client T) : option (client T * option rc) :=
  if negb (zlen (argv c) =? 0) then None else
  let m := qb_mem (querybuf c) in
  newline ← strchr m (qb_pos c) 13;
  match newline with
  | None =>
    if qb_len (querybuf c) - qb_pos c >? PROTO_INLINE_MAX_SIZE
    then Some (setProtocolError TooBigMbulkCount c, Some C_ERR) else Some (c, Some C_ERR)
  | Some newline =>
    if newline - qb_pos c >? qb_len (querybuf c) - qb_pos c - 2 then Some (c, Some C_ERR) else
    star ← mread m (qb_pos c) 1;
    if negb (bool_decide (star = [42])) then None else
    digits ← mread m (1 + qb_pos c) (newline - (1 + qb_pos c));
    match string2ll digits with
    | Some ll =>
      if ll >? 1024 * 1024 then Some (setProtocolError InvalidMbulk c, Some C_ERR) else
      let c := set_pos c (newline + 2) in
      if ll <=? 0 then Some (c, Some C_OK) else
      Some (set_parse c (querybuf c) (qb_pos c) (reqtype c) ll (bulklen c) (argv c) ll, None)
    | None => Some (setProtocolError InvalidMbulk c, Some C_ERR)
    end
  end.

Inductive bulk_status := BULK_READY | BULK_WAIT | BULK_ERROR.

(** The line [$<length>\r\n] before an argument. *)
Definition read_bulk_len (c : client T) : option (client T * bulk_status) :=
  if negb (bulklen c =? -1) then Some (c, BULK_READY) else
  let m := qb_mem (querybuf c) in
  newline ← strchr m (qb_pos c) 13;
  match newline with
  | None =>
    if qb_len (querybuf c) - qb_pos c >? PROTO_INLINE_MAX_SIZE
    then Some (setProtocolError TooBigBulkCount c, BULK_ERROR) else Some (c, BULK_WAIT)
  | Some newline =>
    if newline - qb_pos c >? qb_len (querybuf c) - qb_pos c - 2 then Some (c, BULK_WAIT) else
    dollar ← mread m (qb_pos c) 1;
    d ← head dollar;
    if negb (d =? 36) then Some (setProtocolError (ExpectedDollar d) c, BULK_ERROR) else
    digits ← mread m (qb_pos c + 1) (newline - (qb_pos c + 1));
    match string2ll digits with
    | Some ll =>
      if (ll <? 0) || (ll >? proto_max_bulk_len server) then Some (setProtocolError InvalidBulk c, BULK_ERROR) else
      let c := set_pos c (newline + 2) in
      c ← (if (ll >=? PROTO_MBULK_BIG_ARG) && (qb_len (querybuf c) - qb_pos c <=? ll + 2) then
             q ← qb_range (querybuf c) (qb_pos c) (-1);
             q ← qb_room q (ll + 2);
             Some (set_buffer c q 0)
           else Some c);
      Some (set_bulklen c ll, BULK_READY)
    | None => Some (setProtocolError InvalidBulk c, BULK_ERROR)
    end
  end.

(** [c->argv[c->argc++] = o], inside the array. *)
Definition push_arg (c : client T) (a : list Z) : option (client T) :=
  if zlen (argv c) <? argv_cap c then Some (set_argv c (argv c ++ [a])) else None.

(** An argument whose bytes are all in the buffer; a large one alone in the
    buffer takes the buffer itself over. *)
Definition take_bulk (c : client T) : option (client T) :=
  if (qb_pos c =? 0) && (bulklen c >=? PROTO_MBULK_BIG_ARG) && (qb_len (querybuf c) =? bulklen c + 2) then
    obj ← qb_incr (querybuf c) (-2);
    a ← mread (qb_mem obj) 0 (qb_len obj);
    c ← push_arg c a;
    q ← qb_fat (bulklen c + 2);
    Some (set_parse c q (qb_pos c) (reqtype c) (multibulklen c - 1) (-1) (argv c) (argv_cap c))
  else
    a ← mread (qb_mem (querybuf c)) (qb_pos c) (bulklen c);
    c ← push_arg c a;
    Some (set_parse c (querybuf c) (qb_pos c + bulklen c + 2) (reqtype c) (multibulklen c - 1) (-1) (argv c) (argv_cap c)).

(** [while(c->multibulklen)]; at most one iteration per missing argument. *)
Fixpoint bulk_loop (fuel : nat) (c : client T) : option (client T * rc) :=
  if multibulklen c =? 0 then Some (c, C_OK) else
  match fuel with
  | O => None
  | S fuel =>
    '(c, st) ← read_bulk_len c;
    match st with
    | BULK_ERROR | BULK_WAIT => Some (c, C_ERR)
    | BULK_READY =>
      if qb_len (querybuf c) - qb_pos c <? bulklen c + 2 then Some (c, C_ERR) else
      c ← take_bulk c;
      bulk_loop fuel c
    end
  end.

Definition processMultibulkBuffer (c : client T) : option (client T * rc) :=
  '(c, done) ← (if multibulklen c =? 0 then read_mbulk_count c else Some (c, None));
  match done with
  | Some r => Some (c, r)
  | None => if multibulklen c >? 0 then bulk_loop (Z.to_nat (multibulklen c)) c else None
  end.

(** ** Execution *)

Definition apply_effect (c : client T) (e : cmd_effect) : client T :=
  let f := flags c in
  set_env c
    (mk_flags (CLIENT_SLAVE f) (CLIENT_MASTER f) (ce_multi e) (ce_blocked e)
       (CLIENT_CLOSE_AFTER_REPLY f || ce_close e) (CLIENT_CLOSE_ASAP f) (CLIENT_ASKING f)
       (CLIENT_REPLY_SKIP f) (CLIENT_REPLY_SKIP_NEXT f))
    (ce_asking e) (errors c) (executed c ++ [argv c]) (alive c && negb (ce_freed e)).

Definition set_reploff (c : client T) (off : Z) : client T :=
  set_link c off (read_reploff c) (pending_querybuf c) (fed c).

(** The part of the loop that runs a parsed command.  After [C_OK] the fields
    of the client are read again, so it must not have been freed. *)
Definition run_command (c : client T) : option (client T) :=
  if zlen (argv c) =? 0 then Some (resetClient c) else
  let e := processCommand c in
  let c := apply_effect c e in
  if ce_ok e then
    if negb (alive c) then None else
    let c := if CLIENT_MASTER (flags c) && negb (CLIENT_MULTI (flags c))
             then set_reploff c (read_reploff c - qb_len (querybuf c) + qb_pos c) else c in
    Some (if negb (CLIENT_BLOCKED (flags c)) || negb (ce_module e) then resetClient c else c)
  else Some c.

Definition must_break (c : client T) : bool :=
  (negb (CLIENT_SLAVE (flags c)) && clientsArePaused server) || CLIENT_BLOCKED (flags c) ||
  (lua_timedout server && CLIENT_MASTER (flags c)) ||
  (CLIENT_CLOSE_AFTER_REPLY (flags c) || CLIENT_CLOSE_ASAP (flags c)).

(** [while(c->qb_pos < sdslen(c->querybuf))]; every iteration consumes a byte
    of the buffer. *)
Fixpoint input_loop (fuel : nat) (c : client T) : option (client T) :=
  if qb_pos c <? qb_len (querybuf c) then
    match fuel with
    | O => None
    | S fuel =>
      if must_break c then Some c else
      c0 ← (if reqtype c =? 0 then mread (qb_mem (querybuf c)) (qb_pos c) 1 else Some []);
      let c := if reqtype c =? 0
               then set_reqtype c (if bool_decide (c0 = [42]) then PROTO_REQ_MULTIBULK else PROTO_REQ_INLINE) else c in
      '(c, r) ← (if reqtype c =? PROTO_REQ_INLINE then processInlineBuffer c
                 else if reqtype c =? PROTO_REQ_MULTIBULK then processMultibulkBuffer c else None);
      match r with
      | C_ERR => Some c
      | C_OK =>
        c ← run_command c;
        if alive c then input_loop fuel c else Some c
      end
    end
  else Some c.

Definition processInputBuffer (c : client T) : option (client T) :=
  c ← input_loop (Z.to_nat (qb_len (querybuf c) - qb_pos c)) c;
  if alive c && negb (qb_pos c =? 0) then
    q ← qb_range (querybuf c) (qb_pos c) (-1); Some (set_buffer c q 0)
  else Some c.

(** ** Reading from the socket *)

(** What a master sent and was applied is forwarded to the sub-replicas; a
    master freed by its own input would be used after being freed. *)
Definition processInputBufferAndReplicate (c : client T) : option (client T) :=
  if negb (CLIENT_MASTER (flags c)) then processInputBuffer c else
  let prev_offset := reploff c in
  c ← processInputBuffer c;
  if negb (alive c) then None else
  let applied := uwrap 64 (reploff c - prev_offset) in
  if negb (applied =? 0) then
    bytes ← mread (qb_mem (pending_querybuf c)) 0 applied;
    pending ← qb_range (pending_querybuf c) (swrap 64 applied) (-1);
    Some (set_link c (reploff c) (read_reploff c) pending (fed c ++ bytes))
  else Some c.

Definition read_len (c : client T) : Z :=
  if (reqtype c =? PROTO_REQ_MULTIBULK) && negb (multibulklen c =? 0) && negb (bulklen c =? -1) &&
     (bulklen c >=? PROTO_MBULK_BIG_ARG) then
    let remaining := swrap 64 (bulklen c + 2 - qb_len (querybuf c)) in
    if (remaining >? 0) && (remaining <? PROTO_IOBUF_LEN) then remaining else PROTO_IOBUF_LEN
  else PROTO_IOBUF_LEN.

(** What [read(2)] did: failed with [EAGAIN], failed otherwise, or stored
    bytes (none at the end of the stream). *)
Inductive read_result := RD_AGAIN | RD_ERROR | RD_DATA (bytes : list Z).

Definition freed (c : client T) : client T := set_env c (flags c) (asking_cmd c) (errors c) (executed c) false.

Definition readQueryFromClient (c : client T) (r : read_result) : option (client T) :=
  let readlen := read_len c in
  let qblen := qb_len (querybuf c) in
  let c := if querybuf_peak c <? qblen then set_stats c (repl_ack_time c) qblen (lastinteraction c) else c in
  q ← qb_room (querybuf c) readlen;
  let c := set_buffer c q (qb_pos c) in
  match r with
  | RD_AGAIN => Some c
  | RD_ERROR | RD_DATA [] => Some (freed c)
  | RD_DATA bytes =>
    let nread := zlen bytes in
    q ← qb_store (querybuf c) qblen bytes;
    pending ← (if CLIENT_MASTER (flags c)
               then new ← mread (qb_mem q) qblen nread; qb_cat (pending_querybuf c) new nread
               else Some (pending_querybuf c));
    q ← qb_incr q nread;
    let c := set_stats (set_buffer c q (qb_pos c)) (repl_ack_time c) (querybuf_peak c) (unixtime server) in
    let c := set_link c (reploff c) (if CLIENT_MASTER (flags c) then read_reploff c + nread else read_reploff c) pending (fed c) in
    if qb_len q >? client_max_querybuf_len server then Some (freed c)
    else processInputBufferAndReplicate c
  end.

(** The handler called once per readable event, with what each [read]
    returned, while the client exists. *)
Fixpoint feed (c : client T) (reads : list read_result) : option (client T) :=
  match reads with
  | [] => Some c
  | r :: reads => c ← readQueryFromClient c r; if alive c then feed c reads else Some c
  end.

Definition read_bytes (r : read_result) : list Z := match r with RD_DATA bytes => bytes | _ => [] end.

(** No [read] returned more bytes than were asked for. *)
Fixpoint admissible (c : client T) (reads : list read_result) : Prop :=
  match reads with
  | [] => True
  | r :: reads => zlen (read_bytes r) <= read_len c /\
      match readQueryFromClient c r with Some c' => admissible c' reads | None => True end
  end.

(** A client with the flags [f] whose link starts at offset [off]. *)
Definition new_client (q pending : T) (f : client_flags) (off : Z) : client T :=
  mk_client q 0 0 0 (-1) [] 0 f false off off pending 0 0 (unixtime server) [] [] [] true.

End Client.

(** ** Dynamic strings implement the interface *)

Definition sds_args (junk : nat -> Z) (m : list Z) (n : Z) : option (option (list (list Z))) :=
  aux ← sdsnewlen junk (INIT_BYTES m) n;
  r ← sdssplitargs junk (sh_buf aux);
  match r with
  | None => Some None
  | Some v => args ← mapM (fun t => mread (sh_buf t) 0 (sdslen t)) v; Some (Some args)
  end.

#[export] Instance sds_buffer (junk : nat -> Z) : QueryBuffer sds := {|
  qb_len := sdslen;
  qb_mem := sh_buf;
  qb_range := sdsrange;
  qb_room := sdsMakeRoomFor junk;
  qb_store := put;
  qb_incr := sdsIncrLen;
  qb_cat := sdscatlen junk;
  qb_fat n := s ← sdsnewlen junk SDS_NOINIT n; sdsclear s;
  qb_args := sds_args junk;
|}.

Lemma sds_noinit junk n : 0 <= n < 2 ^ 62 -> exists s bs, sdsnewlen junk SDS_NOINIT n = Some s /\ sds_rep s bs.
Proof.
  intros Hn. unfold sdsnewlen. destruct (reqtype_fits n ltac:(lia)) as (T1 & T2 & T3 & _).
  set (t0 := sdsReqType n) in *. cbv zeta. change SDS_TYPE_5 with 0. change SDS_TYPE_8 with 1.
  set (t := if (t0 =? 0) && (n =? 0) then 1 else t0).
  assert ((t = 0 -> n < 32) /\ 0 <= t <= 4 /\ (1 <= t -> n < 2 ^ hdr_width t)) as (Ht1 & Ht2 & Ht3).
  { unfold t. destruct (Z.eqb_spec t0 0), (Z.eqb_spec n 0); simpl; split_and!; auto; try lia.
    all: unfold hdr_width; simpl; lia. }
  pose proof (hdrsize_bound t) as Hh. set (buf := malloc_buf _ _ _).
  assert (zlen buf = n + 1) as Hbuf by (apply zlen_malloc_buf; lia).
  destruct (fresh_ok t n buf Ht1 Ht2 ltac:(lia) Ht3 ltac:(lia)) as (Hok & El & Ea & Eb). cbv zeta in Hok, El, Ea, Eb.
  set (s := if t =? 0 then _ else _) in *. clearbody s. cbn [mbind option_bind].
  pose proof (mread_is_Some (sh_buf s) 0 n ltac:(lia) ltac:(lia) ltac:(rewrite Eb; lia)) as Hr.
  set (bs := take _ _) in Hr. assert (zlen bs = n) as Hbs by (by apply mread_zlen in Hr).
  rewrite <- Hbs in Hr, El |- *. destruct (terminate s bs Hok Hr El) as (b & -> & Hrep). by eexists _, bs.
Qed.

Lemma sds_read junk t bs n chunk :
  sds_rep t bs -> 0 < zlen chunk <= n -> zlen bs + n < 2 ^ 62 ->
  exists t1 t2 t3, sdsMakeRoomFor junk t n = Some t1 /\ put t1 (zlen bs) chunk = Some t2 /\
    mread (sh_buf t2) (zlen bs) (zlen chunk) = Some chunk /\ sdsIncrLen t2 (zlen chunk) = Some t3 /\ sds_rep t3 (bs ++ chunk).
Proof.
  intros Hrep Hc Hn. pose proof (zlen_nonneg bs).
  destruct (sdsMakeRoomFor_spec junk t bs n Hrep ltac:(lia) Hn) as (t1 & E1 & Hrep1 & Hav & _).
  apply rep_split in Hrep1 as (Hok1 & El1 & Hr1 & _). pose proof (ok_bounds t1 Hok1) as (? & ? & ? & ?).
  destruct (put_content t1 (zlen bs) bs chunk Hok1 Hr1) as (t2 & E2 & Hok2 & Ha2 & _ & Hl2 & _ & Hr2); [lia|].
  destruct (sdsIncrLen_spec t2 (bs ++ chunk) (zlen chunk) Hok2) as (t3 & E3 & Hrep3); [done|zlia|zlia|lia|].
  exists t1, t2, t3. split_and!; try done. rewrite zlen_app in Hr2. by apply mread_app in Hr2 as [_ ?].
Qed.

Lemma nul_split (bs r : list Z) : exists cs r', bs ++ 0 :: r = cs ++ 0 :: r' /\ Forall (fun c => c <> 0) cs /\ zlen cs <= zlen bs.
Proof.
  induction bs as [|b bs (cs & r' & E & Hnz & Hl)]; [by exists [], r|]. destruct (Z.eq_dec b 0) as [->|Hb].
  - exists [], (bs ++ 0 :: r). split_and!; [done|done|]. rewrite zlen_cons. pose proof (zlen_nonneg bs). change (zlen (@nil Z)) with 0. lia.
  - exists (b :: cs), r'. cbn [app]. rewrite E. split_and!; [done|by constructor|rewrite !zlen_cons; lia].
Qed.

Lemma sds_mem_spec t bs : sds_rep t bs -> exists r, sh_buf t = bs ++ 0 :: r.
Proof.
  intros (_ & _ & Hm). exists (drop (Z.to_nat (zlen bs + 1)) (sh_buf t)). pose proof (zlen_nonneg bs).
  pose proof (mread_bounds _ _ _ _ Hm). rewrite mread_is_Some in Hm by lia. injection Hm as Hm. rewrite drop_0 in Hm.
  rewrite <- (take_drop (Z.to_nat (zlen bs + 1)) (sh_buf t)) at 1. rewrite Hm. by rewrite <- app_assoc.
Qed.

Lemma mapM_tokens v :
  Forall (fun t => exists bs, sds_rep t bs) v -> exists args, mapM (fun t => mread (sh_buf t) 0 (sdslen t)) v = Some args.
Proof.
  induction 1 as [|t v (bs & Hrep) _ (args & IH)]; [by exists []|]. apply rep_split in Hrep as (_ & Hl & Hr & _).
  exists (bs :: args). apply mapM_Some. apply mapM_Some in IH. constructor; [by rewrite Hl|done].
Qed.

Lemma sds_args_total junk m n : 0 <= n <= zlen m -> n < 2 ^ 61 -> exists r, sds_args junk m n = Some r.
Proof.
  intros Hn Hb. unfold sds_args. pose proof (mread_is_Some m 0 n ltac:(lia) ltac:(lia) ltac:(lia)) as Hr.
  set (bs := take _ _) in Hr. assert (zlen bs = n) as Hbs by (by apply mread_zlen in Hr). rewrite <- Hbs in Hr |- *.
  destruct (sdsnewlen_spec junk bs m Hr ltac:(lia)) as (aux & -> & Hrep). cbn [mbind option_bind].
  destruct (sds_mem_spec _ _ Hrep) as (r & Hm). destruct (nul_split bs r) as (cs & r' & E & Hnz & Hl). rewrite Hm, E.
  destruct (splitargs_loop_safe junk r' (S (length (cs ++ 0 :: r'))) (cs ++ 0 :: r') cs []) as (res & Hres & Htok);
    [done|lia|rewrite length_app; lia|constructor|]. unfold sdssplitargs. rewrite Hres. cbn [mbind option_bind].
  destruct res as [v|]; [|by eexists]. destruct (mapM_tokens v Htok) as (args & ->). by eexists.
Qed.

#[export, program] Instance sds_buffer_laws (junk : nat -> Z) : @QueryBufferLaws sds (sds_buffer junk) := {| qb_rep := sds_rep |}.
Next Obligation. intros junk t bs Hrep. apply Hrep. Qed.
Next Obligation. intros junk t bs. apply sds_mem_spec. Qed.
Next Obligation.
  intros junk t bs pos Hrep Hb Hpos. destruct (sdsrange_spec t bs pos (-1) Hrep Hb) as (t' & Ht & Hrep'); [width_lia|width_lia|].
  exists t'. split; [done|]. replace (drop (Z.to_nat pos) bs) with (range_bytes bs pos (-1)); [done|].
  unfold range_bytes, range_index. rewrite (proj2 (Z.ltb_ge pos 0)) by lia. cbn [Z.ltb Z.compare]. apply take_ge.
  rewrite length_drop. unfold zlen in *. lia.
Qed.
Next Obligation.
  intros junk t bs n Hrep Hn Hb. destruct (sdsMakeRoomFor_spec junk t bs n Hrep Hn Hb) as (t' & ? & ? & _). by exists t'.
Qed.
Next Obligation. intros. by apply sds_read. Qed.
Next Obligation. intros junk t bs x Hrep Hx. by apply sdscatlen_spec; [|apply mread_self|]. Qed.
Next Obligation.
  intros junk t bs x Hrep Hx. apply rep_split in Hrep as (Hok & Hl & Hr & _). rewrite zlen_app in Hl. pose proof (ok_bounds t Hok).
  rewrite zlen_app in Hr. apply mread_app in Hr as [Hr _]. apply sdsIncrLen_spec; [done|done|lia|lia|done].
Qed.
Next Obligation.
  intros junk n Hn. cbn [qb_fat sds_buffer]. destruct (sds_noinit junk n Hn) as (s & bs & -> & Hrep). cbn [mbind option_bind].
  by apply sdsclear_spec with bs.
Qed.
Next Obligation. intros junk m n. apply sds_args_total. Qed.

(** ** Searching the buffer *)

Lemma strchr_loop_spec u r ch p :
  ch <> 0 -> exists o, strchr_loop (u ++ 0 :: r) ch p = Some o /\
    match o with
    | Some k => exists d tl, u = d ++ ch :: tl /\ k = p + zlen d /\ (ch ∉ d) /\ 0 ∉ d
    | None => (ch ∉ u) \/ (exists d tl, u = d ++ 0 :: tl /\ ch ∉ d)
    end.
Proof.
  intros Hch. revert p. induction u as [|c u IH]; intros p; cbn [app strchr_loop].
  - rewrite (proj2 (Z.eqb_neq _ _)) by done. exists None. split; [done|]. left. set_solver.
  - destruct (Z.eqb_spec c ch) as [->|Hc].
    + exists (Some p). split; [done|]. exists [], u. split_and!; [done|change (zlen (@nil Z)) with 0; lia|set_solver..].
    + destruct (Z.eqb_spec c 0) as [->|Hc0].
      * exists None. split; [done|]. right. exists [], u. split; [done|set_solver].
      * destruct (IH (p + 1)) as (o & -> & Ho). exists o. split; [done|]. destruct o as [k|].
        -- destruct Ho as (d & tl & -> & -> & Hd & Hd0). exists (c :: d), tl. rewrite zlen_cons.
           split_and!; [done|lia|set_solver..].
        -- destruct Ho as [Ho|(d & tl & -> & Hd)]; [left; set_solver|]. right. exists (c :: d), tl. split; [done|set_solver].
Qed.

Section Laws.
Context {T : Type} {QB : QueryBuffer T} {LT : QueryBufferLaws T}.
Context (server : server_state).
#[local] Set Default Proof Using "Type*".

(** The buffer holds [bs], of which [u] is not parsed yet. *)
Definition buf_ok (c : client T) (u : list Z) : Prop :=
  exists p, qb_rep (querybuf c) (p ++ u) /\ qb_pos c = zlen p /\ zlen (p ++ u) < 2 ^ 60.

Lemma buf_len c u : buf_ok c u -> qb_len (querybuf c) - qb_pos c = zlen u /\ 0 <= qb_pos c.
Proof. intros (p & Hrep & -> & _). rewrite (qb_law_len _ _ Hrep), zlen_app. pose proof (zlen_nonneg p). lia. Qed.

Lemma buf_strchr c u ch :
  buf_ok c u -> ch <> 0 -> exists o, strchr (qb_mem (querybuf c)) (qb_pos c) ch = Some o /\
    match o with
    | Some k => exists d tl, u = d ++ ch :: tl /\ k = qb_pos c + zlen d /\ (ch ∉ d) /\ 0 ∉ d
    | None => (ch ∉ u) \/ (exists d tl, u = d ++ 0 :: tl /\ ch ∉ d)
    end.
Proof.
  intros (p & Hrep & Hp & _) Hch. destruct (qb_law_mem _ _ Hrep) as (r & ->). unfold strchr. rewrite Hp, <- app_assoc.
  unfold zlen at 1. rewrite Nat2Z.id, drop_app_length. by apply strchr_loop_spec.
Qed.

(** A slice of the unparsed bytes. *)
Lemma buf_read c u x y z off n :
  buf_ok c u -> u = x ++ y ++ z -> off = qb_pos c + zlen x -> n = zlen y ->
  mread (qb_mem (querybuf c)) off n = Some y.
Proof.
  intros (p & Hrep & Hp & _) -> -> ->. destruct (qb_law_mem _ _ Hrep) as (r & ->). rewrite Hp.
  replace ((p ++ x ++ y ++ z) ++ 0 :: r) with ((p ++ x) ++ y ++ (z ++ 0 :: r)) by (by rewrite <- !app_assoc).
  rewrite <- zlen_app. apply mread_mid.
Qed.

Lemma buf_read_head c a u n : buf_ok c (a :: u) -> n = 1 -> mread (qb_mem (querybuf c)) (qb_pos c) n = Some [a].
Proof. intros Hb ->. apply (buf_read c (a :: u) [] [a] u); [done|done|change (zlen (@nil Z)) with 0; lia|done]. Qed.

(** Advancing the position. *)
Lemma buf_advance c u x y pos rt mb bl av cap :
  buf_ok c u -> u = x ++ y -> pos = qb_pos c + zlen x -> buf_ok (set_parse c (querybuf c) pos rt mb bl av cap) y.
Proof.
  intros (p & Hrep & Hp & Hl) -> ->. exists (p ++ x). cbn. rewrite <- app_assoc, zlen_app, Hp. done.
Qed.

Lemma buf_reparse c u rt mb bl av cap :
  buf_ok c u -> buf_ok (set_parse c (querybuf c) (qb_pos c) rt mb bl av cap) u.
Proof. intros Hb. apply (buf_advance c u [] u); [done|done|change (zlen (@nil Z)) with 0; lia]. Qed.

(** Dropping the parsed bytes. *)
Lemma buf_trim c u :
  buf_ok c u -> exists q, qb_range (querybuf c) (qb_pos c) (-1) = Some q /\ buf_ok (set_buffer c q 0) u.
Proof.
  intros (p & Hrep & Hp & Hl). pose proof (zlen_nonneg u). pose proof (zlen_nonneg p). rewrite zlen_app in Hl.
  destruct (qb_law_range _ _ (qb_pos c) Hrep) as (q & Hq & Hrep'); [rewrite zlen_app; lia|rewrite zlen_app; lia|].
  exists q. split; [done|]. rewrite Hp in Hrep'. unfold zlen in Hrep' at 1. rewrite Nat2Z.id, drop_app_length in Hrep'.
  exists []. split_and!; [done|done|cbn [app]; lia].
Qed.

(** ** Lines *)

(** A line [l] ended by CR LF at the front of the input, of which [u] has been
    received and [rest] has not: either more input is needed, or the whole
    line is there. *)
Lemma line_cases (u rest l x : list Z) :
  u ++ rest = l ++ 13 :: 10 :: x ->
  (zlen u <= zlen l + 1 /\ rest <> []) \/ exists u', u = l ++ 13 :: 10 :: u' /\ x = u' ++ rest.
Proof.
  intros E. destruct (decide (zlen u <= zlen l + 1)) as [Hle|Hgt].
  - left. split; [done|]. intros ->. apply (f_equal zlen) in E. rewrite !zlen_app, !zlen_cons in E.
    pose proof (zlen_nonneg x). change (zlen (@nil Z)) with 0 in E. lia.
  - right. change (l ++ 13 :: 10 :: x) with (l ++ [13; 10] ++ x) in E. rewrite app_assoc in E.
    apply app_eq_inv in E as [(k & -> & ->)|(k & E1 & ->)].
    + exists k. by rewrite <- app_assoc.
    + pose proof (f_equal zlen E1) as El. rewrite !zlen_app in El. change (zlen [13; 10]) with 2 in El.
      assert (zlen k = 0) as Hk by (pose proof (zlen_nonneg k); lia). destruct k as [|b k]; [|rewrite zlen_cons in Hk; pose proof (zlen_nonneg k); lia].
      rewrite app_nil_r in E1. exists []. by rewrite <- E1.
Qed.

(** The position of the first CR of such a line. *)
Lemma line_cr (d l tl u' : list Z) :
  d ++ 13 :: tl = l ++ 13 :: 10 :: u' -> 13 ∉ d -> 13 ∉ l -> d = l.
Proof.
  revert l. induction d as [|c d IH]; intros [|b l] E Hd Hl; simplify_eq/=; [done|set_solver|set_solver|].
  f_equal. apply (IH l); set_solver.
Qed.

(** Scanning for the CR of a line that has not been received whole. *)
Lemma line_wait c u rest l x :
  buf_ok c u -> u ++ rest = l ++ 13 :: 10 :: x -> 13 ∉ l -> 0 ∉ l -> zlen u <= zlen l + 1 ->
  exists o, strchr (qb_mem (querybuf c)) (qb_pos c) 13 = Some o /\
    match o with Some k => k - qb_pos c > zlen u - 2 | None => True end.
Proof.
  intros Hb E Hl H0 Hle. destruct (buf_strchr c u 13 Hb ltac:(done)) as (o & -> & Ho). exists o. split; [done|].
  destruct o as [k|]; [|done]. destruct Ho as (d & tl & -> & -> & Hd & _). rewrite <- app_assoc in E. cbn [app] in E.
  apply line_cr in E as ->; [|done|done]. rewrite zlen_app, zlen_cons in *. pose proof (zlen_nonneg tl). lia.
Qed.

Lemma line_ready c u l u' :
  buf_ok c u -> u = l ++ 13 :: 10 :: u' -> 13 ∉ l -> 0 ∉ l ->
  strchr (qb_mem (querybuf c)) (qb_pos c) 13 = Some (Some (qb_pos c + zlen l)).
Proof.
  intros Hb -> Hl H0. destruct (buf_strchr c _ 13 Hb ltac:(done)) as (o & -> & Ho). destruct o as [k|].
  - destruct Ho as (d & tl & E & -> & Hd & _). symmetry in E. apply line_cr in E as ->; done.
  - destruct Ho as [Ho|(d & tl & E & Hd)]; [set_solver|]. exfalso. clear Hb. revert l Hl H0 E.
    induction d as [|b d IH]; intros [|a l] Hl H0 E; simplify_eq/=; [set_solver|set_solver|].
    apply (IH ltac:(set_solver) l); [set_solver|set_solver|done].
Qed.

(** ** Encoding of commands *)

Definition enc_arg (a : list Z) : list Z := (36 :: dec (zlen a)) ++ 13 :: 10 :: a ++ [13; 10].
Definition enc_args (l : list (list Z)) : list Z := concat (enc_arg <$> l).
Definition enc_cmd (args : list (list Z)) : list Z := (42 :: dec (zlen args)) ++ 13 :: 10 :: enc_args args.
Definition enc_cmds (cmds : list (list (list Z))) : list Z := concat (enc_cmd <$> cmds).

Lemma dec_canonical n : 0 <= n < 2 ^ 63 -> canonical_nat (dec n) n /\ string2ll (dec n) = Some n.
Proof.
  intros Hn. pose proof (canonical_nat_digits n ltac:(lia)) as Hc. split; [done|].
  apply string2ll_spec. unfold canonical. rewrite (proj2 (Z.ltb_ge _ _)) by lia. split; [done|width_lia].
Qed.

Lemma dec_line n (b : Z) : 0 <= n < 2 ^ 63 -> b <> 13 -> b <> 0 -> (13 ∉ b :: dec n) /\ (0 ∉ b :: dec n) /\ zlen (b :: dec n) <= 21.
Proof.
  intros Hn Hb Hb0. destruct (dec_canonical n Hn) as [Hc Hs]. assert (forall x, x ∈ dec n -> 48 <= x <= 57) as Hd.
  { intros x Hx. destruct Hc as (_ & Hd & _). rewrite Forall_forall in Hd. by apply is_digit_spec, Hd. }
  assert (zlen (dec n) <= 20).
  { unfold dec, zlen. rewrite length_dec_digits. pose proof (digits10_range n ltac:(lia)). lia. }
  rewrite zlen_cons. split_and!; [| |lia]; intros [?|?%Hd]%elem_of_cons; lia.
Qed.

(** ** Parsing RESP *)

(** Parsing changes nothing but the parse state. *)
Definition same_env (c c' : client T) : Prop :=
  flags c' = flags c /\ asking_cmd c' = asking_cmd c /\ reploff c' = reploff c /\ read_reploff c' = read_reploff c /\
  errors c' = errors c /\ executed c' = executed c /\ alive c' = alive c.

Lemma same_env_refl c : same_env c c.
Proof using Type. done. Qed.
Lemma same_env_trans c1 c2 c3 : same_env c1 c2 -> same_env c2 c3 -> same_env c1 c3.
Proof using Type. unfold same_env. intuition congruence. Qed.
Lemma same_env_parse c q pos rt mb bl av cap : same_env c (set_parse c q pos rt mb bl av cap).
Proof using Type. done. Qed.
#[local] Hint Resolve same_env_refl same_env_parse : redis.

Definition arg_fits (a : list Z) : Prop := zlen a <= proto_max_bulk_len server /\ zlen a < 2 ^ 60.

Lemma read_bulk_len_resp c u rest a x :
  buf_ok c u -> bulklen c = -1 -> arg_fits a -> u ++ rest = (36 :: dec (zlen a)) ++ 13 :: 10 :: x ->
  (read_bulk_len server c = Some (c, BULK_WAIT) /\ rest <> []) \/
  exists q pos u', read_bulk_len server c =
      Some (set_parse c q pos (reqtype c) (multibulklen c) (zlen a) (argv c) (argv_cap c), BULK_READY) /\
    buf_ok (set_parse c q pos (reqtype c) (multibulklen c) (zlen a) (argv c) (argv_cap c)) u' /\ u' ++ rest = x.
Proof.
  intros Hb Hbl [Hmax Ha] E. pose proof (zlen_nonneg a). destruct (buf_len c u Hb) as [Hlen Hpos].
  destruct (dec_line (zlen a) 36 ltac:(lia) ltac:(done) ltac:(done)) as (H13 & H0 & Hshort).
  destruct (dec_canonical (zlen a) ltac:(lia)) as [_ Hs]. unfold read_bulk_len. rewrite Hbl. cbn [negb Z.eqb Pos.eqb].
  destruct (line_cases _ _ _ _ E) as [[Hle Hrest]|(u' & Hu & ->)].
  - left. split; [|done]. destruct (line_wait c u rest _ _ Hb E H13 H0 Hle) as (o & -> & Ho). cbn [mbind option_bind].
    rewrite Hlen. destruct o as [k|].
    + by rewrite Z.gtb_ltb, (proj2 (Z.ltb_lt _ _)) by lia.
    + by rewrite Z.gtb_ltb, (proj2 (Z.ltb_ge _ _)) by (unfold PROTO_INLINE_MAX_SIZE; lia).
  - right. rewrite (line_ready c u _ u' Hb Hu H13 H0). cbn [mbind option_bind]. rewrite Hlen.
    assert (zlen u = zlen (36 :: dec (zlen a)) + 2 + zlen u') as Hul by (rewrite Hu, !zlen_app, !zlen_cons; lia).
    pose proof (zlen_nonneg u'). rewrite Z.gtb_ltb, (proj2 (Z.ltb_ge _ _)) by lia.
    rewrite (buf_read_head c 36 (dec (zlen a) ++ 13 :: 10 :: u') 1) by (done || by rewrite Hu in Hb). cbn [mbind option_bind head negb Z.eqb Pos.eqb].
    rewrite (buf_read c u [36] (dec (zlen a)) (13 :: 10 :: u')); [|done|done|done|rewrite zlen_cons; lia].
    cbn [mbind option_bind]. rewrite Hs. rewrite (proj2 (Z.ltb_ge _ 0)) by lia. rewrite Z.gtb_ltb, (proj2 (Z.ltb_ge _ _)) by lia. cbn [orb].
    assert (buf_ok (set_pos c (qb_pos c + zlen (36 :: dec (zlen a)) + 2)) u') as Hb'.
    { apply (buf_advance c u ((36 :: dec (zlen a)) ++ [13; 10]) u'); [done|by rewrite Hu, <- app_assoc|]. rewrite zlen_app. change (zlen [13; 10]) with 2. lia. }
    destruct (_ && _) eqn:Hbig.
    + destruct (buf_trim _ _ Hb') as (q & Hq & Hbq). rewrite Hq. cbn [mbind option_bind].
      pose proof Hbq as (p & Hrep & Hp & Hl). cbn [querybuf qb_pos set_buffer set_parse] in Hrep, Hp.
      destruct (qb_law_room q (p ++ u') (zlen a + 2) Hrep) as (q' & -> & Hrep'); [lia|lia|]. cbn [mbind option_bind].
      exists q', 0, u'. split; [done|]. split; [|done]. by exists p.
    + cbn [mbind option_bind]. eexists _, _, u'. split; [done|]. split; [|done]. destruct Hb' as (p & ? & ? & ?). by exists p.
Qed.

Lemma take_bulk_spec c a b1 b2 u x :
  buf_ok c u -> u = a ++ b1 :: b2 :: x -> bulklen c = zlen a -> zlen (argv c) < argv_cap c ->
  exists q pos, take_bulk c = Some (set_parse c q pos (reqtype c) (multibulklen c - 1) (-1) (argv c ++ [a]) (argv_cap c)) /\
    buf_ok (set_parse c q pos (reqtype c) (multibulklen c - 1) (-1) (argv c ++ [a]) (argv_cap c)) x.
Proof.
  intros Hb Hu Hbl Hcap. pose proof (zlen_nonneg a). destruct (buf_len c u Hb) as [Hlen Hpos]. pose proof (zlen_nonneg x).
  unfold take_bulk, push_arg. rewrite Hbl. destruct (_ && _) eqn:Hsteal.
  - apply andb_true_iff in Hsteal as [[Hp0%Z.eqb_eq _]%andb_true_iff Hl%Z.eqb_eq].
    pose proof Hb as (p & Hrep & Hp & Hlp). rewrite Hp0 in Hp, Hlen. destruct p; [|rewrite zlen_cons in Hp; pose proof (zlen_nonneg p); lia].
    cbn [app] in Hrep. assert (x = []) as ->.
    { rewrite Hu, zlen_app, !zlen_cons in Hlen. destruct x; [done|]. rewrite zlen_cons in *. pose proof (zlen_nonneg x). lia. }
    rewrite Hu in Hrep. destruct (qb_law_chop _ a [b1; b2] Hrep eq_refl) as (t' & -> & Hrep'). cbn [mbind option_bind].
    destruct (qb_law_mem _ _ Hrep') as (r & ->). rewrite (qb_law_len _ _ Hrep'), (mread_front a (0 :: r)) by done. cbn [mbind option_bind].
    rewrite (proj2 (Z.ltb_lt _ _)) by done. cbn [mbind option_bind bulklen set_argv set_parse]. rewrite Hbl.
    cbn [app] in Hlp. rewrite Hu, zlen_app in Hlp. destruct (qb_law_fat (zlen a + 2)) as (q & -> & Hq); [change (zlen [b1; b2]) with 2 in Hlp; lia|]. cbn [mbind option_bind].
    exists q, (qb_pos c). split; [done|]. exists []. rewrite Hp0. done.
  - rewrite (buf_read c u [] a (b1 :: b2 :: x)); [|done|done|change (zlen (@nil Z)) with 0; lia|done]. cbn [mbind option_bind].
    rewrite (proj2 (Z.ltb_lt _ _)) by done. cbn [mbind option_bind bulklen set_argv set_parse querybuf qb_pos]. rewrite Hbl.
    exists (querybuf c), (qb_pos c + zlen a + 2). split; [done|].
    apply (buf_advance c u (a ++ [b1; b2]) x); [done|by rewrite Hu, <- app_assoc|]. rewrite zlen_app. change (zlen [b1; b2]) with 2. lia.
Qed.

(** The parser is inside a command with arguments [args], followed by [x]:
    the arguments [done] have been read; before the next one, or inside it. *)
Definition mid_state (c : client T) (u rest : list Z) (args : list (list Z)) (x : list Z) : Prop :=
  exists done a left, args = done ++ a :: left /\ reqtype c = PROTO_REQ_MULTIBULK /\ multibulklen c = zlen (a :: left) /\
    argv c = done /\ argv_cap c = zlen args /\ buf_ok c u /\
    (bulklen c = -1 /\ u ++ rest = enc_args (a :: left) ++ x \/
     bulklen c = zlen a /\ u ++ rest = a ++ 13 :: 10 :: enc_args left ++ x).

Lemma enc_args_cons a l x : enc_args (a :: l) ++ x = (36 :: dec (zlen a)) ++ 13 :: 10 :: (a ++ 13 :: 10 :: enc_args l ++ x).
Proof using Type. unfold enc_args. rewrite fmap_cons. cbn [concat]. unfold enc_arg. rewrite <- !app_assoc. cbn [app]. by rewrite <- !app_assoc. Qed.

(** The length of the next argument gets known, or more input is needed. *)
Lemma bulk_len_step c u rest done a left x :
  reqtype c = PROTO_REQ_MULTIBULK -> multibulklen c = zlen (a :: left) -> argv c = done -> argv_cap c = zlen (done ++ a :: left) ->
  buf_ok c u -> arg_fits a ->
  (bulklen c = -1 /\ u ++ rest = enc_args (a :: left) ++ x \/ bulklen c = zlen a /\ u ++ rest = a ++ 13 :: 10 :: enc_args left ++ x) ->
  (read_bulk_len server c = Some (c, BULK_WAIT) /\ rest <> []) \/
  exists c1 u1, read_bulk_len server c = Some (c1, BULK_READY) /\ same_env c c1 /\ buf_ok c1 u1 /\
    reqtype c1 = PROTO_REQ_MULTIBULK /\ multibulklen c1 = zlen (a :: left) /\ argv c1 = done /\
    argv_cap c1 = zlen (done ++ a :: left) /\ bulklen c1 = zlen a /\ u1 ++ rest = a ++ 13 :: 10 :: enc_args left ++ x.
Proof.
  intros Hrt Hmb Hav Hcap Hb Hfit [[Hbl E]|[Hbl E]].
  - rewrite enc_args_cons in E. destruct (read_bulk_len_resp c u rest a _ Hb Hbl Hfit E) as [|(q & pos & u' & Hr & Hb' & E')]; [by left|].
    right. eexists _, u'. split; [exact Hr|]. split_and!; done.
  - right. exists c, u. split; [|by split_and!]. unfold read_bulk_len. pose proof (zlen_nonneg a). by rewrite Hbl, (proj2 (Z.eqb_neq _ _)) by lia.
Qed.

Lemma bulk_loop_resp fuel : forall c u rest args x,
  mid_state c u rest args x -> Forall arg_fits args -> multibulklen c <= Z.of_nat fuel ->
  exists c' r, bulk_loop server fuel c = Some (c', r) /\ same_env c c' /\
    match r with
    | C_OK => reqtype c' = PROTO_REQ_MULTIBULK /\ argv c' = args /\ exists u', buf_ok c' u' /\ u' ++ rest = x /\
        zlen u' < zlen u
    | C_ERR => rest <> [] /\ exists u', mid_state c' u' rest args x
    end.
Proof.
  induction fuel as [|fuel IH]; intros c u rest args x (done & a & left & -> & Hrt & Hmb & Hav & Hcap & Hb & Hph) Hfit Hfuel;
    rewrite zlen_cons in Hmb; pose proof (zlen_nonneg left); [lia|].
  cbn [bulk_loop]. rewrite (proj2 (Z.eqb_neq _ _)) by lia.
  pose proof Hfit as [_ [Hfa _]%Forall_cons]%Forall_app.
  destruct (bulk_len_step c u rest done a left x) as [[-> Hrest]|(c1 & u1 & -> & Henv & Hb1 & Hrt1 & Hmb1 & Hav1 & Hcap1 & Hbl1 & E1)];
    [done|by rewrite zlen_cons|done..| |]; cbn [mbind option_bind].
  - exists c, C_ERR. split; [done|]. split; [done|]. split; [done|]. exists u, done, a, left. rewrite zlen_cons. by split_and!.
  - destruct (buf_len c1 u1 Hb1) as [Hl1 _]. rewrite Hl1, Hbl1.
    assert (zlen u1 <= zlen u) as Hmono.
    { destruct Hph as [[_ E]|[_ E]].
      - rewrite enc_args_cons in E. apply (f_equal zlen) in E, E1. autorewrite with redis_len in E, E1.
        pose proof (zlen_nonneg (dec (zlen a))). lia.
      - rewrite <- E in E1. by apply app_inv_tail in E1 as ->. }
    destruct (line_cases _ _ _ _ E1) as [[Hle Hrest]|(u2 & Hu1 & Ex)].
    + rewrite (proj2 (Z.ltb_lt _ _)) by lia. exists c1, C_ERR. split; [done|]. split; [done|]. split; [done|].
      exists u1, done, a, left. split_and!; [done..|by right].
    + pose proof (zlen_nonneg u2). rewrite (proj2 (Z.ltb_ge _ _)) by (rewrite Hu1, zlen_app, !zlen_cons; lia).
      destruct (take_bulk_spec c1 a 13 10 u1 u2 Hb1 Hu1 Hbl1) as (q & pos & -> & Hb2).
      { rewrite Hav1, Hcap1, zlen_app, zlen_cons. lia. }
      cbn [mbind option_bind]. set (c2 := set_parse c1 _ _ _ _ _ _ _) in *.
      assert (same_env c c2) as Henv2 by (by eapply same_env_trans).
      assert (zlen u2 < zlen u1) as Hlt by (rewrite Hu1, zlen_app, !zlen_cons; pose proof (zlen_nonneg a); lia).
      destruct left as [|a' left].
      * change (zlen [a]) with 1 in Hmb1. cbn [enc_args fmap list_fmap concat app] in Ex. exists c2, C_OK. split.
        { destruct fuel; cbn [bulk_loop]; subst c2; cbn [multibulklen set_parse]; by rewrite Hmb1. }
        split; [done|]. subst c2. cbn [reqtype argv set_parse]. rewrite Hav1. split_and!; [done|done|]. exists u2. split_and!; [done|done|lia].
      * destruct (IH c2 u2 rest (done ++ a :: a' :: left) x) as (c' & r & Hr & Henv' & Hres).
        { exists (done ++ [a]), a', left. subst c2. cbn [reqtype argv multibulklen argv_cap bulklen set_parse]. rewrite <- app_assoc, Hav1, Hmb1, zlen_cons.
          split_and!; [done|done|lia|done|done|done|]. left. split; [done|]. by rewrite <- Ex. }
        { done. } { subst c2. cbn [multibulklen set_parse]. rewrite Hmb1, zlen_cons. lia. }
        exists c', r. split; [done|]. split; [by eapply same_env_trans|]. destruct r; [|done].
        destruct Hres as (? & ? & u' & ? & ? & ?). split_and!; [done|done|]. exists u'. split_and!; [done|done|lia].
Qed.

Definition cmd_fits (args : list (list Z)) : Prop :=
  args <> [] /\ zlen args <= 1024 * 1024 /\ Forall arg_fits args.

(** The input still to come into effect is the encoding of [cmds]: [u] is in
    the buffer, [rest] has not been received. *)
Definition resp_state (c : client T) (u rest : list Z) (cmds : list (list (list Z))) : Prop :=
  (buf_ok c u /\ multibulklen c = 0 /\ bulklen c = -1 /\ argv c = [] /\ u ++ rest = enc_cmds cmds /\
   (reqtype c = 0 \/ reqtype c = PROTO_REQ_MULTIBULK /\ u <> [])) \/
  exists args cmds', cmds = args :: cmds' /\ mid_state c u rest args (enc_cmds cmds').

Lemma enc_cmds_cons args cmds :
  enc_cmds (args :: cmds) = (42 :: dec (zlen args)) ++ 13 :: 10 :: (enc_args args ++ enc_cmds cmds).
Proof using Type. unfold enc_cmds. rewrite fmap_cons. cbn [concat]. unfold enc_cmd. by rewrite <- app_assoc. Qed.

Lemma mbulk_count_resp c u rest args x :
  buf_ok c u -> argv c = [] -> bulklen c = -1 -> reqtype c = PROTO_REQ_MULTIBULK -> cmd_fits args ->
  u ++ rest = (42 :: dec (zlen args)) ++ 13 :: 10 :: (enc_args args ++ x) ->
  (read_mbulk_count c = Some (c, Some C_ERR) /\ rest <> []) \/
  exists c1 u1, read_mbulk_count c = Some (c1, None) /\ same_env c c1 /\ mid_state c1 u1 rest args x /\ zlen u1 <= zlen u.
Proof.
  intros Hb Hav Hbl Hrt (Hne & Hmax & Hfit) E. pose proof (zlen_nonneg args). destruct (buf_len c u Hb) as [Hlen Hpos].
  destruct (dec_line (zlen args) 42 ltac:(lia) ltac:(done) ltac:(done)) as (H13 & H0 & Hshort).
  destruct (dec_canonical (zlen args) ltac:(lia)) as [_ Hs]. unfold read_mbulk_count. rewrite Hav. change (negb (zlen [] =? 0)) with false. cbv iota.
  destruct (line_cases _ _ _ _ E) as [[Hle Hrest]|(u' & Hu & Ex)].
  - left. split; [|done]. destruct (line_wait c u rest _ _ Hb E H13 H0 Hle) as (o & -> & Ho). cbn [mbind option_bind].
    rewrite Hlen. destruct o as [k|].
    + by rewrite Z.gtb_ltb, (proj2 (Z.ltb_lt _ _)) by lia.
    + by rewrite Z.gtb_ltb, (proj2 (Z.ltb_ge _ _)) by (unfold PROTO_INLINE_MAX_SIZE; lia).
  - right. rewrite (line_ready c u _ u' Hb Hu H13 H0). cbn [mbind option_bind]. rewrite Hlen.
    assert (zlen u = zlen (42 :: dec (zlen args)) + 2 + zlen u') as Hul by (rewrite Hu, !zlen_app, !zlen_cons; lia).
    pose proof (zlen_nonneg u'). rewrite Z.gtb_ltb, (proj2 (Z.ltb_ge _ _)) by lia.
    rewrite (buf_read_head c 42 (dec (zlen args) ++ 13 :: 10 :: u') 1) by (done || by rewrite Hu in Hb). cbn [mbind option_bind].
    rewrite bool_decide_eq_true_2 by done. cbn [negb].
    rewrite (buf_read c u [42] (dec (zlen args)) (13 :: 10 :: u')); [|done|done|change (zlen [42]) with 1; lia|rewrite zlen_cons; lia].
    cbn [mbind option_bind]. rewrite Hs. rewrite Z.gtb_ltb, (proj2 (Z.ltb_ge _ _)) by lia.
    destruct args as [|a left]; [done|]. rewrite (proj2 (Z.leb_gt _ _)) by (rewrite zlen_cons; pose proof (zlen_nonneg left); lia).
    eexists _, u'. split; [done|]. split; [done|]. split; [|pose proof (zlen_nonneg (42 :: dec (zlen (a :: left)))); lia].
    exists [], a, left. cbn [reqtype multibulklen argv argv_cap bulklen set_parse set_pos querybuf qb_pos]. split_and!; [done..| |by left].
    apply (buf_advance c u ((42 :: dec (zlen (a :: left))) ++ [13; 10]) u'); [done|by rewrite Hu, <- app_assoc|].
    rewrite zlen_app. change (zlen [13; 10]) with 2. lia.
Qed.

Lemma multibulk_resp c u rest cmds :
  resp_state c u rest cmds -> reqtype c = PROTO_REQ_MULTIBULK -> Forall cmd_fits cmds ->
  exists c' r, processMultibulkBuffer server c = Some (c', r) /\ same_env c c' /\
    match r with
    | C_OK => exists args cmds' u', cmds = args :: cmds' /\ argv c' = args /\ buf_ok c' u' /\ u' ++ rest = enc_cmds cmds' /\ zlen u' < zlen u
    | C_ERR => rest <> [] /\ exists u', resp_state c' u' rest cmds
    end.
Proof.
  intros Hst Hrt Hfit. unfold processMultibulkBuffer.
  assert (forall c1 u1 args cmds', cmds = args :: cmds' -> mid_state c1 u1 rest args (enc_cmds cmds') -> zlen u1 <= zlen u -> same_env c c1 ->
    exists c' r, (if multibulklen c1 >? 0 then bulk_loop server (Z.to_nat (multibulklen c1)) c1 else None) = Some (c', r) /\ same_env c c' /\
    match r with
    | C_OK => exists args cmds' u', cmds = args :: cmds' /\ argv c' = args /\ buf_ok c' u' /\ u' ++ rest = enc_cmds cmds' /\ zlen u' < zlen u
    | C_ERR => rest <> [] /\ exists u', resp_state c' u' rest cmds
    end) as Hmid.
  { intros c1 u1 args cmds' -> Hm Hle Henv. pose proof Hm as (done & a & left & _ & _ & Hmb & _). rewrite zlen_cons in Hmb. pose proof (zlen_nonneg left).
    rewrite Z.gtb_ltb, (proj2 (Z.ltb_lt _ _)) by lia. apply Forall_cons in Hfit as [(_ & _ & Hfa) _].
    destruct (bulk_loop_resp (Z.to_nat (multibulklen c1)) c1 u1 rest args (enc_cmds cmds') Hm Hfa) as (c' & r & -> & Henv' & Hres); [lia|].
    exists c', r. split; [done|]. split; [by eapply same_env_trans|]. destruct r.
    - destruct Hres as (_ & Hav & u' & Hb' & E' & Hlt). exists args, cmds', u'. split_and!; try done. lia.
    - destruct Hres as (Hrest & u' & Hm'). split; [done|]. exists u'. right. by exists args, cmds'. }
  destruct Hst as [(Hb & Hmb & Hbl & Hav & E & Hu)|(args & cmds' & Hc & Hm)].
  - rewrite Hmb. cbn [Z.eqb]. destruct cmds as [|args cmds].
    { destruct Hu as [?|[_ Hu]]; [unfold PROTO_REQ_MULTIBULK in *; congruence|]. by apply app_eq_nil in E as [? _]. }
    rewrite enc_cmds_cons in E. pose proof Hfit as [Hf _]%Forall_cons.
    destruct (mbulk_count_resp c u rest args _ Hb Hav Hbl Hrt Hf E) as [[-> Hrest]|(c1 & u1 & -> & Henv & Hm & Hle)]; cbn [mbind option_bind].
    + exists c, C_ERR. split; [done|]. split; [done|]. split; [done|]. exists u. left. rewrite enc_cmds_cons.
      split_and!; done.
    + by apply (Hmid c1 u1 args cmds).
  - pose proof Hm as (done & a & left & _ & _ & Hmb & _). rewrite zlen_cons in Hmb. pose proof (zlen_nonneg left).
    rewrite (proj2 (Z.eqb_neq _ _)) by lia. cbn [mbind option_bind]. by apply (Hmid c u args cmds').
Qed.

Lemma enc_cmds_app l1 l2 : enc_cmds (l1 ++ l2) = enc_cmds l1 ++ enc_cmds l2.
Proof using Type. unfold enc_cmds. by rewrite fmap_app, concat_app. Qed.
Lemma enc_args_app l1 l2 : enc_args (l1 ++ l2) = enc_args l1 ++ enc_args l2.
Proof using Type. unfold enc_args. by rewrite fmap_app, concat_app. Qed.

Lemma resp_len c u rest cmds : resp_state c u rest cmds -> zlen u + zlen rest <= zlen (enc_cmds cmds).
Proof using Type.
  intros [(_ & _ & _ & _ & E & _)|(args & cmds' & -> & done & a & left & -> & _ & _ & _ & _ & _ & E)].
  - rewrite <- E, zlen_app. lia.
  - rewrite enc_cmds_cons, enc_args_app, <- zlen_app.
    pose proof (zlen_nonneg (42 :: dec (zlen (done ++ a :: left)))). pose proof (zlen_nonneg (enc_args done)). pose proof (zlen_nonneg (dec (zlen a))).
    destruct E as [[_ ->]|[_ ->]].
    + autorewrite with redis_len in *. lia.
    + rewrite <- (app_assoc (enc_args done)), enc_args_cons. autorewrite with redis_len in *. lia.
Qed.

(** ** Reading *)

Lemma resp_done c cmds : resp_state c [] [] cmds -> cmds = [].
Proof using Type.
  intros [(_ & _ & _ & _ & E & _)|(args & cmds2 & -> & dn & a & lf & -> & _ & _ & _ & _ & _ & [[_ E]|[_ E]])].
  - destruct cmds as [|args cmds]; [done|]. by rewrite enc_cmds_cons in E.
  - by rewrite enc_args_cons in E.
  - by destruct a.
Qed.

Lemma read_len_range c : 0 < read_len c <= PROTO_IOBUF_LEN.
Proof using Type.
  unfold read_len, PROTO_IOBUF_LEN. cbv zeta. repeat case_match; try lia. all: rewrite ?andb_true_iff, ?Z.gtb_lt, ?Z.ltb_lt in *; lia.
Qed.

(** Only the buffer and the position matter. *)
Lemma buf_at c u : qb_rep (querybuf c) u -> qb_pos c = 0 -> zlen u < 2 ^ 60 -> buf_ok c u.
Proof using Type. intros ???. by exists []. Qed.

Lemma buf_same c c' u : buf_ok c u -> querybuf c' = querybuf c -> qb_pos c' = qb_pos c -> buf_ok c' u.
Proof using Type. intros (p & ? & ? & ?) E1 E2. exists p. by rewrite E1, E2. Qed.

Lemma buf_front c u : buf_ok c u -> qb_pos c = 0 -> qb_rep (querybuf c) u /\ zlen u < 2 ^ 60.
Proof.
  intros (p & Hrep & Hp & Hl) H0. destruct p as [|b p]; [done|]. rewrite zlen_cons in Hp. pose proof (zlen_nonneg p). lia.
Qed.

(** ** Arbitrary input *)

Definition open_client (c : client T) : Prop :=
  CLIENT_BLOCKED (flags c) = false /\ CLIENT_CLOSE_AFTER_REPLY (flags c) = false /\ CLIENT_CLOSE_ASAP (flags c) = false.

(** The parse state of a client whose input is processed. *)
Definition state_ok (c : client T) (u : list Z) : Prop :=
  (multibulklen c = 0 /\ argv c = [] /\ bulklen c = -1 /\
   (reqtype c = 0 \/ reqtype c = PROTO_REQ_INLINE \/ (reqtype c = PROTO_REQ_MULTIBULK /\ head u = Some 42))) \/
  (0 < multibulklen c /\ reqtype c = PROTO_REQ_MULTIBULK /\ zlen (argv c) + multibulklen c = argv_cap c /\
   -1 <= bulklen c < 2 ^ 60).

Definition client_ok (c : client T) (u : list Z) : Prop := buf_ok c u /\ (open_client c -> state_ok c u).

(** Nothing but the parse state and the error state changed. *)
Definition same_link (c c' : client T) : Prop :=
  alive c' = alive c /\ CLIENT_MASTER (flags c') = CLIENT_MASTER (flags c) /\ reploff c' = reploff c /\
  read_reploff c' = read_reploff c /\ pending_querybuf c' = pending_querybuf c /\ fed c' = fed c.

Lemma same_link_trans c1 c2 c3 : same_link c1 c2 -> same_link c2 c3 -> same_link c1 c3.
Proof using Type. unfold same_link. intuition congruence. Qed.

Lemma error_closes e c : ~ open_client (setProtocolError e c).
Proof using Type. by intros (_ & ? & _). Qed.

Lemma error_ok e c u : buf_ok c u -> client_ok (setProtocolError e c) u.
Proof using Type. intros (p & ? & ? & ?). split; [by exists p|]. by intros ?%error_closes. Qed.

Lemma error_stays e c u : buf_ok c u -> exists u', client_ok (setProtocolError e c) u' /\ zlen u' <= zlen u.
Proof using Type. intros Hb. exists u. split; [by apply error_ok|done]. Qed.

(** A scan that found the end of a line that is complete. *)
Lemma scan_line u (d tl : list Z) ch : u = d ++ ch :: tl -> zlen d <= zlen u - 2 -> exists b tl', tl = b :: tl'.
Proof using Type.
  intros -> Hl. destruct tl as [|b tl]; [|by eexists _, _]. rewrite zlen_app in Hl. change (zlen [ch]) with 1 in Hl. lia.
Qed.

Lemma mbulk_count_safe c u :
  buf_ok c u -> argv c = [] -> bulklen c = -1 -> multibulklen c = 0 -> reqtype c = PROTO_REQ_MULTIBULK -> head u = Some 42 ->
  exists c' d, read_mbulk_count c = Some (c', d) /\ same_link c c' /\
    match d with
    | Some C_ERR => exists u', client_ok c' u' /\ zlen u' <= zlen u
    | Some C_OK => argv c' = [] /\ exists u', buf_ok c' u' /\ zlen u' < zlen u
    | None => 0 < multibulklen c' /\ reqtype c' = PROTO_REQ_MULTIBULK /\ zlen (argv c') + multibulklen c' = argv_cap c' /\
        bulklen c' = -1 /\ exists u', buf_ok c' u' /\ zlen u' < zlen u
    end.
Proof.
  intros Hb Hav Hbl Hmb Hrt Hhd. destruct (buf_len c u Hb) as [Hlen _]. unfold read_mbulk_count. rewrite Hav.
  change (negb (zlen [] =? 0)) with false. cbv iota. assert (client_ok c u) as Hcok.
  { split; [done|]. intros _. left. split_and!; try done. by right; right. }
  destruct (buf_strchr c u 13 Hb ltac:(done)) as (o & -> & Ho). cbn [mbind option_bind]. destruct o as [k|].
  2:{ case_match; eexists _, _; (split; [done|]); (split; [done|]); exists u; (split; [|done]); [by apply error_ok|done]. }
  destruct Ho as (d & tl & Hu & -> & _ & _). replace (qb_pos c + zlen d - qb_pos c) with (zlen d) by lia. rewrite Hlen.
  destruct (Z.gtb_spec (zlen d) (zlen u - 2)) as [|Hle]; [by eexists _, _; split; [done|]; split; [done|]; exists u|].
  destruct (scan_line u d tl 13 Hu Hle) as (b & tl' & ->). destruct u as [|b0 u0]; [done|]. injection Hhd as ->.
  rewrite (buf_read_head c 42 u0 1 Hb eq_refl). cbn [mbind option_bind]. rewrite bool_decide_eq_true_2 by done. cbn [negb].
  destruct d as [|d0 d]; [done|]. assert (d0 = 42) as -> by (by injection Hu).
  rewrite (buf_read c _ [42] d (13 :: b :: tl') _ _ Hb Hu); [|change (zlen [42]) with 1; lia|rewrite zlen_cons; lia]. cbn [mbind option_bind].
  assert (buf_ok (set_pos c (qb_pos c + zlen (42 :: d) + 2)) tl') as Hb'.
  { apply (buf_advance c _ ((42 :: d) ++ [13; b]) tl' _ _ _ _ _ _ Hb); [by rewrite Hu, <- app_assoc|]. rewrite zlen_app. change (zlen [13; b]) with 2. lia. }
  assert (zlen tl' < zlen (42 :: u0)) as Hsh by (rewrite Hu, zlen_app, !zlen_cons; pose proof (zlen_nonneg d); lia).
  destruct (string2ll d) as [ll|]; [|eexists _, _; split; [done|]; split; [done|]; by apply error_stays].
  destruct (ll >? 1024 * 1024); [eexists _, _; split; [done|]; split; [done|]; by apply error_stays|].
  destruct (Z.leb_spec ll 0).
  - eexists _, _. split; [done|]. split; [done|]. split; [done|]. by exists tl'.
  - eexists _, _. split; [done|]. split; [done|]. cbn [multibulklen reqtype argv argv_cap bulklen set_parse set_pos querybuf qb_pos].
    split_and!; [done|done|rewrite Hav; change (zlen (@nil (list Z))) with 0; lia|done|]. exists tl'. split; [|done]. destruct Hb' as (p & ? & ? & ?). by exists p.
Qed.

Lemma bulk_len_safe c u :
  buf_ok c u -> 0 < multibulklen c -> -1 <= bulklen c < 2 ^ 60 -> proto_max_bulk_len server < 2 ^ 60 ->
  exists c' st, read_bulk_len server c = Some (c', st) /\ same_link c c' /\
    match st with
    | BULK_WAIT => c' = c
    | BULK_ERROR => exists u', client_ok c' u' /\ zlen u' <= zlen u
    | BULK_READY => exists u', buf_ok c' u' /\ zlen u' <= zlen u /\ 0 <= bulklen c' < 2 ^ 60 /\ multibulklen c' = multibulklen c /\
        argv c' = argv c /\ argv_cap c' = argv_cap c /\ reqtype c' = reqtype c
    end.
Proof.
  intros Hb Hmb Hbl Hmax. destruct (buf_len c u Hb) as [Hlen _]. unfold read_bulk_len.
  destruct (Z.eqb_spec (bulklen c) (-1)) as [Hb1|Hb1]; cbn [negb].
  2:{ eexists _, _. split; [done|]. split; [done|]. exists u. split_and!; try done; lia. }
  destruct (buf_strchr c u 13 Hb ltac:(done)) as (o & -> & Ho). cbn [mbind option_bind]. destruct o as [k|].
  2:{ case_match; eexists _, _; (split; [done|]); (split; [done|]); [by apply error_stays|done]. }
  destruct Ho as (d & tl & Hu & -> & _ & _). replace (qb_pos c + zlen d - qb_pos c) with (zlen d) by lia. rewrite Hlen.
  destruct (Z.gtb_spec (zlen d) (zlen u - 2)) as [|Hle]; [by eexists _, _|].
  destruct (scan_line u d tl 13 Hu Hle) as (b & tl' & ->). destruct u as [|b0 u0]; [by destruct d|].
  rewrite (buf_read_head c b0 u0 1 Hb eq_refl). cbn [mbind option_bind head].
  destruct (Z.eqb_spec b0 36) as [->|]; cbn [negb]; [|eexists _, _; split; [done|]; split; [done|]; by apply error_stays].
  destruct d as [|d0 d]; [done|]. assert (d0 = 36) as -> by (by injection Hu).
  rewrite (buf_read c _ [36] d (13 :: b :: tl') _ _ Hb Hu); [|change (zlen [36]) with 1; lia|rewrite zlen_cons; lia]. cbn [mbind option_bind].
  assert (buf_ok (set_pos c (qb_pos c + zlen (36 :: d) + 2)) tl') as Hb'.
  { apply (buf_advance c _ ((36 :: d) ++ [13; b]) tl' _ _ _ _ _ _ Hb); [by rewrite Hu, <- app_assoc|]. rewrite zlen_app. change (zlen [13; b]) with 2. lia. }
  assert (zlen tl' <= zlen (36 :: u0)) as Hsh by (rewrite Hu, zlen_app, !zlen_cons; pose proof (zlen_nonneg d); lia).
  destruct (string2ll d) as [ll|]; [|eexists _, _; split; [done|]; split; [done|]; by apply error_stays].
  destruct (_ || _) eqn:Hr; [eexists _, _; split; [done|]; split; [done|]; by apply error_stays|].
  apply orb_false_iff in Hr as [Hr1%Z.ltb_ge Hr2]. rewrite Z.gtb_ltb in Hr2. apply Z.ltb_ge in Hr2.
  destruct (_ && _).
  - destruct (buf_trim _ _ Hb') as (q & -> & Hbq). cbn [mbind option_bind]. pose proof Hbq as (p & Hrep & Hp & Hl).
    cbn [querybuf qb_pos set_buffer set_parse] in Hrep, Hp.
    destruct (qb_law_room q (p ++ tl') (ll + 2) Hrep) as (q' & -> & Hrep'); [lia|lia|]. cbn [mbind option_bind].
    eexists _, _. split; [done|]. split; [done|]. exists tl'. split_and!; try done; [by exists p|cbn; lia].
  - cbn [mbind option_bind]. eexists _, _. split; [done|]. split; [done|]. exists tl'. destruct Hb' as (p & ? & ? & ?).
    split_and!; try done; [by exists p|cbn; lia].
Qed.

(** The bytes of an argument and its two trailing bytes are in the buffer. *)
Lemma split_bulk (u : list Z) n : 0 <= n -> n + 2 <= zlen u -> exists a b1 b2 x, u = a ++ b1 :: b2 :: x /\ zlen a = n.
Proof using Type.
  intros Hn Hl. destruct (split_len u n (zlen u - n)) as (a & [|b1 [|b2 x]] & -> & Ha & _); [lia..|rewrite zlen_app in Hl| |].
  - change (zlen (@nil Z)) with 0 in Hl. lia.
  - rewrite zlen_app in Hl. change (zlen [b1]) with 1 in Hl. lia.
  - by exists a, b1, b2, x.
Qed.

Lemma bulk_loop_safe fuel : forall c u,
  buf_ok c u -> 0 <= multibulklen c <= Z.of_nat fuel -> reqtype c = PROTO_REQ_MULTIBULK ->
  zlen (argv c) + multibulklen c = argv_cap c -> -1 <= bulklen c < 2 ^ 60 -> proto_max_bulk_len server < 2 ^ 60 ->
  exists c' r, bulk_loop server fuel c = Some (c', r) /\ same_link c c' /\
    match r with
    | C_OK => exists u', buf_ok c' u' /\ zlen u' <= zlen u /\ (0 < multibulklen c -> zlen u' < zlen u)
    | C_ERR => exists u', client_ok c' u' /\ zlen u' <= zlen u
    end.
Proof.
  induction fuel as [|fuel IH]; intros c u Hb Hf Hrt Hcap Hbl Hmax; cbn [bulk_loop];
    (destruct (Z.eqb_spec (multibulklen c) 0) as [H0|H0]; [eexists _, _; split; [done|]; split; [done|]; exists u; split_and!; [done|lia|lia]|]); [lia|].
  destruct (bulk_len_safe c u Hb ltac:(lia) Hbl Hmax) as (c1 & st & -> & Hal & Hst). cbn [mbind option_bind].
  assert (forall c1 u1, buf_ok c1 u1 -> multibulklen c1 = multibulklen c -> argv c1 = argv c -> argv_cap c1 = argv_cap c ->
    reqtype c1 = reqtype c -> -1 <= bulklen c1 < 2 ^ 60 -> client_ok c1 u1) as Hwait.
  { intros c2 u2 Hb2 E1 E2 E3 E4 E5. split; [done|]. intros _. right. rewrite E1, E2, E3, E4. split_and!; [lia|done|done|lia|lia]. }
  destruct st.
  - destruct Hst as (u1 & Hb1 & Hl1 & Hbl1 & Hmb1 & Hav1 & Hcap1 & Hrt1). destruct (buf_len c1 u1 Hb1) as [-> _].
    destruct (Z.ltb_spec (zlen u1) (bulklen c1 + 2)) as [|Hle].
    + eexists _, _. split; [done|]. split; [done|]. exists u1. split; [apply Hwait; try done; lia|lia].
    + destruct (split_bulk u1 (bulklen c1) ltac:(lia) Hle) as (a & b1 & b2 & x & Hu1 & Ha).
      destruct (take_bulk_spec c1 a b1 b2 u1 x Hb1 Hu1 ltac:(done) ltac:(rewrite Hav1, Hcap1; lia)) as (q & pos & -> & Hb2).
      cbn [mbind option_bind].
      assert (zlen x < zlen u1) as Hlt by (rewrite Hu1, zlen_app, !zlen_cons; pose proof (zlen_nonneg a); lia).
      edestruct (IH _ x Hb2) as (c' & r & Hr & Hal' & Hres);
        [cbn; lia|cbn; congruence|cbn; rewrite zlen_app, Hav1; change (zlen [a]) with 1; lia|cbn; lia|done|].
      exists c', r. split; [exact Hr|]. split; [by eapply same_link_trans; [exact Hal|]|]. destruct r.
      * destruct Hres as (u' & ? & ? & _). exists u'. split_and!; [done|lia|lia].
      * destruct Hres as (u' & ? & ?). exists u'. split; [done|lia].
  - subst c1. eexists _, _. split; [done|]. split; [done|]. exists u. split; [apply Hwait; done || lia|done].
  - by eexists _, _.
Qed.

Lemma multibulk_safe c u :
  buf_ok c u -> open_client c -> state_ok c u -> reqtype c = PROTO_REQ_MULTIBULK -> proto_max_bulk_len server < 2 ^ 60 ->
  exists c' r, processMultibulkBuffer server c = Some (c', r) /\ same_link c c' /\
    match r with
    | C_OK => exists u', buf_ok c' u' /\ zlen u' < zlen u
    | C_ERR => exists u', client_ok c' u' /\ zlen u' <= zlen u
    end.
Proof.
  intros Hb _ Hst Hrt Hmax. unfold processMultibulkBuffer. destruct Hst as [(Hmb & Hav & Hbl & Hty)|(Hmb & _ & Hcap & Hbl)].
  - rewrite Hmb. cbn [Z.eqb]. destruct Hty as [?|[?|[_ Hhd]]]; [by rewrite Hrt in *|by rewrite Hrt in *|].
    destruct (mbulk_count_safe c u Hb Hav Hbl Hmb Hrt Hhd) as (c1 & d & -> & Hal & Hd). cbn [mbind option_bind].
    destruct d as [[]|].
    + destruct Hd as (_ & u' & ? & ?). eexists _, _. split; [done|]. split; [done|]. by exists u'.
    + by eexists _, _.
    + destruct Hd as (Hmb1 & Hrt1 & Hcap1 & Hbl1 & u1 & Hb1 & Hlt). rewrite Z.gtb_ltb, (proj2 (Z.ltb_lt _ _)) by done.
      destruct (bulk_loop_safe (Z.to_nat (multibulklen c1)) c1 u1 Hb1 ltac:(lia) Hrt1 Hcap1 ltac:(lia) Hmax) as (c' & r & -> & Hal' & Hr).
      eexists _, _. split; [done|]. split; [by eapply same_link_trans|]. destruct r; [destruct Hr as (u' & ? & ? & _)|destruct Hr as (u' & ? & ?)]; exists u'; (split; [done|lia]).
  - rewrite (proj2 (Z.eqb_neq _ _)) by lia. cbn [mbind option_bind]. rewrite Z.gtb_ltb, (proj2 (Z.ltb_lt _ _)) by done.
    destruct (bulk_loop_safe (Z.to_nat (multibulklen c)) c u Hb ltac:(lia) Hrt Hcap Hbl Hmax) as (c' & r & -> & Hal' & Hr).
    eexists _, _. split; [done|]. split; [done|]. destruct r; [|done]. destruct Hr as (u' & ? & _ & Hlt). exists u'. split; [done|by apply Hlt].
Qed.

Lemma inline_safe c u :
  buf_ok c u -> state_ok c u -> reqtype c = PROTO_REQ_INLINE ->
  exists c' r, processInlineBuffer server c = Some (c', r) /\ same_link c c' /\
    match r with
    | C_OK => exists u', buf_ok c' u' /\ zlen u' < zlen u
    | C_ERR => exists u', client_ok c' u' /\ zlen u' <= zlen u
    end.
Proof.
  intros Hb Hst Hrt. destruct (buf_len c u Hb) as [Hlen _]. unfold processInlineBuffer.
  destruct (buf_strchr c u 10 Hb ltac:(done)) as (o & -> & Ho). cbn [mbind option_bind]. destruct o as [k|].
  2:{ case_match; eexists _, _; (split; [done|]); (split; [done|]); exists u; (split; [|done]); [by apply error_ok|by split]. }
  destruct Ho as (d & tl & Hu & -> & _ & _).
  set (nl := if negb (qb_pos c + zlen d =? qb_pos c) then _ else _).
  assert (exists n lf, nl = Some (n, lf) /\ qb_pos c <= n /\ 1 <= lf /\ n - qb_pos c + lf = zlen d + 1) as (n & lf & -> & Hn & Hlf1 & Hlf).
  { unfold nl. pose proof (zlen_nonneg d). destruct (Z.eqb_spec (qb_pos c + zlen d) (qb_pos c)) as [|Hne]; cbn [negb]; [eexists _, _; split; [done|]; lia|].
    destruct (split_len d (zlen d - 1) 1) as (d1 & d2 & Hd & Hd1 & Hd2); [lia..|].
    rewrite (buf_read c u d1 d2 (10 :: tl) _ _ Hb); [|by rewrite Hu, Hd, <- app_assoc|lia|done].
    cbn [mbind option_bind]. case_match; eexists _, _; (split; [done|]); lia. }
  cbn [mbind option_bind].
  pose proof Hb as (p & Hrep & Hp & Hl). destruct (qb_law_mem _ _ Hrep) as (r & Hm).
  destruct (qb_law_args (drop (Z.to_nat (qb_pos c)) (qb_mem (querybuf c))) (n - qb_pos c)) as (res & ->).
  { rewrite Hm, <- app_assoc, Hp. change (Z.to_nat (zlen p)) with (Z.to_nat (Z.of_nat (length p))). rewrite Nat2Z.id, drop_app_length. rewrite Hu, !zlen_app, !zlen_cons. pose proof (zlen_nonneg tl). pose proof (zlen_nonneg r). lia. }
  { rewrite Hu, !zlen_app, zlen_cons in Hl. pose proof (zlen_nonneg tl). pose proof (zlen_nonneg p). lia. }
  cbn [mbind option_bind]. destruct res as [args|]; [|eexists _, _; split; [done|]; split; [done|]; by apply error_stays].
  cbv zeta. set (c1 := if _ && CLIENT_SLAVE _ then _ else c).
  assert (same_link c c1 /\ buf_ok c1 u /\ qb_pos c1 = qb_pos c) as (Hl1 & Hb1 & Hp1) by (unfold c1; case_match; [|done]; by split_and!).
  eexists _, _. split; [done|]. split; [done|]. exists tl. split.
  - apply (buf_advance c1 u (d ++ [10]) tl); [done|by rewrite Hu, <- app_assoc|]. rewrite zlen_app. change (zlen [10]) with 1. lia.
  - rewrite Hu, zlen_app, zlen_cons. pose proof (zlen_nonneg d). lia.
Qed.

(** ** Execution *)

Context (processCommand : client T -> cmd_effect).

(** The command at hand returns and leaves the client open for more. *)
Definition benign (c : client T) : Prop :=
  let e := processCommand c in ce_ok e = true /\ ce_blocked e = false /\ ce_close e = false /\ ce_freed e = false.

(** So do the commands [cmds] when they are executed in this order after those
    of [before]. *)
Definition benign_run (before cmds : list (list (list Z))) : Prop :=
  forall done args todo c, cmds = done ++ args :: todo -> executed c = before ++ done -> argv c = args -> benign c.

Lemma benign_first before args cmds c : benign_run before (args :: cmds) -> executed c = before -> argv c = args -> benign c.
Proof using Type. intros Hb He. apply (Hb [] args cmds); [done|by rewrite app_nil_r]. Qed.

Lemma benign_rest before done cmds : benign_run before (done ++ cmds) -> benign_run (before ++ done) cmds.
Proof using Type. intros Hb d args todo c -> He. apply (Hb (done ++ d) args todo); [by rewrite <- app_assoc|by rewrite app_assoc]. Qed.

Definition quiet (c : client T) : Prop := alive c = true /\ must_break server c = false.

(** Outside a transaction the applied replication offset of a master counts
    exactly the bytes of the commands executed: of what was read, the encoding
    of [cmds] except [rest] is not applied yet. *)
Definition synced (c : client T) (rest : list Z) (cmds : list (list (list Z))) : Prop :=
  CLIENT_MASTER (flags c) = true -> CLIENT_MULTI (flags c) = false ->
  reploff c = read_reploff c - (zlen (enc_cmds cmds) - zlen rest).

Lemma run_command_benign c u args rest cmds :
  buf_ok c u -> argv c = args -> args <> [] -> benign c -> quiet c -> u ++ rest = enc_cmds cmds ->
  exists c', run_command processCommand c = Some c' /\
  resp_state c' u rest cmds /\ quiet c' /\ executed c' = executed c ++ [args] /\ errors c' = errors c /\
  read_reploff c' = read_reploff c /\ synced c' rest cmds /\
  CLIENT_MASTER (flags c') = CLIENT_MASTER (flags c).
Proof.
  intros Hb Hav Hne (Hok & Hbk & Hcl & Hfr) [Hal Hbr] E. destruct (buf_len c u Hb) as [Hlen _].
  assert (zlen (argv c) <> 0) as Hz by (rewrite Hav; destruct args; [done|]; rewrite zlen_cons; pose proof (zlen_nonneg args); lia).
  exists (resetClient (let c2 := apply_effect c (processCommand c) in
      if CLIENT_MASTER (flags c2) && negb (CLIENT_MULTI (flags c2)) then set_reploff c2 (read_reploff c2 - qb_len (querybuf c2) + qb_pos c2) else c2)).
  split.
  { unfold run_command. rewrite (proj2 (Z.eqb_neq _ _)) by done. rewrite Hok. cbv zeta.
    cbn [alive apply_effect set_env]. rewrite Hal, Hfr. cbn [andb negb].
    destruct (_ && negb (CLIENT_MULTI _)); cbn [flags set_reploff set_link apply_effect set_env CLIENT_BLOCKED]; by rewrite Hbk. }
  cbv zeta. cbn [flags apply_effect set_env CLIENT_MASTER CLIENT_MULTI].
  assert (forall c2, querybuf c2 = querybuf c -> qb_pos c2 = qb_pos c -> resp_state (resetClient c2) u rest cmds) as Hst.
  { intros c2 Hq Hp. left. cbn. split_and!; try done; [|by left]. destruct Hb as (p & Hrep & Hpp & Hl). exists p. cbn. by rewrite Hq, Hp. }
  assert (read_reploff c - qb_len (querybuf c) + qb_pos c = read_reploff c - (zlen (enc_cmds cmds) - zlen rest)) as Hsync
    by (rewrite <- E, zlen_app; lia).
  unfold must_break in Hbr. rewrite !orb_false_iff in Hbr. destruct Hbr as [[[Hp _] Hlua] [Hca Hcs]].
  destruct (CLIENT_MASTER (flags c)) eqn:Hm, (ce_multi (processCommand c)) eqn:Hmu; cbn [andb negb].
  all: split; [by apply Hst|]; unfold quiet, must_break, synced; cbn; rewrite Hm, Hmu, Hal, Hfr, Hbk, Hcl, Hca, Hcs, Hp, Hlua, Hav; cbn; split_and!; done.
Qed.

Lemma quiet_env c c' : same_env c c' -> quiet c -> quiet c'.
Proof using Type. intros (Hf & _ & _ & _ & _ & _ & Ha) [Hal Hbr]. unfold quiet, must_break in *. by rewrite Hf, Ha. Qed.

Lemma synced_env c c' rest cmds : same_env c c' -> synced c rest cmds -> synced c' rest cmds.
Proof using Type. intros (Hf & _ & Hr & Hrr & _) Hs. unfold synced in *. by rewrite Hf, Hr, Hrr. Qed.

Lemma resp_buf c u rest cmds : resp_state c u rest cmds -> buf_ok c u.
Proof using Type. intros [(? & _)|(? & ? & _ & ? & ? & ? & _ & _ & _ & _ & _ & ? & _)]; done. Qed.

(** A RESP request is recognised by its first byte. *)
Lemma request_type_resp c u rest cmds :
  resp_state c u rest cmds -> u <> [] ->
  exists c0, (if reqtype c =? 0 then mread (qb_mem (querybuf c)) (qb_pos c) 1 else Some []) = Some c0 /\
    let c1 := if reqtype c =? 0 then set_reqtype c (if bool_decide (c0 = [42]) then PROTO_REQ_MULTIBULK else PROTO_REQ_INLINE) else c in
    resp_state c1 u rest cmds /\ reqtype c1 = PROTO_REQ_MULTIBULK /\ same_env c c1.
Proof.
  intros Hst Hu. pose proof (resp_buf _ _ _ _ Hst) as Hb. destruct Hst as [(_ & Hmb & Hbl & Hav & E & [Hrt|[Hrt _]])|Hmid].
  - rewrite Hrt. cbn [Z.eqb]. destruct u as [|b u]; [done|]. destruct cmds as [|args cmds]; [done|].
    assert (b = 42) as -> by (rewrite enc_cmds_cons in E; by injection E). exists [42]. split; [by eapply buf_read_head|].
    cbv zeta. rewrite bool_decide_eq_true_2 by done. split; [|done]. left. split_and!; try done; first [by apply buf_reparse|by right].
  - rewrite Hrt. exists []. split; [done|]. cbv zeta. rewrite <- Hrt. cbn. split; [|by rewrite Hrt]. left. rewrite Hrt. split_and!; try done. by right.
  - destruct Hmid as (args & cmds' & -> & Hm). pose proof Hm as (? & ? & ? & _ & Hrt & _). rewrite Hrt. exists []. split; [done|].
    cbv zeta. split; [|done]. right. by exists args, cmds'.
Qed.

Lemma input_loop_resp fuel : forall c u rest cmds,
  resp_state c u rest cmds -> quiet c -> Forall cmd_fits cmds -> benign_run (executed c) cmds -> zlen u <= Z.of_nat fuel ->
  exists c' u' done cmds', input_loop server processCommand fuel c = Some c' /\ cmds = done ++ cmds' /\
    resp_state c' u' rest cmds' /\ quiet c' /\ (u' = [] \/ rest <> []) /\
    executed c' = executed c ++ done /\ errors c' = errors c /\ read_reploff c' = read_reploff c /\
    CLIENT_MASTER (flags c') = CLIENT_MASTER (flags c) /\
    (synced c rest cmds -> synced c' rest cmds').
Proof.
  induction fuel as [|fuel IH]; intros c u rest cmds Hst Hq Hfit Hben Hfuel; cbn [input_loop].
  all: assert (buf_ok c u) as Hb by (destruct Hst as [(? & _)|(? & ? & _ & ? & ? & ? & _ & _ & _ & _ & _ & ? & _)]; done).
  all: destruct (buf_len c u Hb) as [Hlen _]; pose proof (zlen_nonneg u).
  { rewrite (proj2 (Z.ltb_ge _ _)) by lia. destruct u; [|rewrite zlen_cons in *; pose proof (zlen_nonneg u); lia].
    exists c, [], [], cmds. rewrite app_nil_r. split_and!; try done. by left. }
  destruct (Z.ltb_spec (qb_pos c) (qb_len (querybuf c))) as [Hlt|Hge].
  2:{ destruct u; [|rewrite zlen_cons in *; pose proof (zlen_nonneg u); lia].
      exists c, [], [], cmds. rewrite app_nil_r. split_and!; try done. by left. }
  destruct (request_type_resp c u rest cmds Hst) as (c0 & -> & Hst1 & Hrt1 & Henv1); [by intros ->; rewrite zlen_nil in Hlen; lia|].
  destruct Hq as [Hal Hbr]. rewrite Hbr. cbn [mbind option_bind]. set (c1 := if reqtype c =? 0 then _ else c) in *.
  rewrite Hrt1. change (PROTO_REQ_MULTIBULK =? PROTO_REQ_INLINE) with false. rewrite Z.eqb_refl. cbv iota.
  destruct (multibulk_resp c1 u rest cmds Hst1 Hrt1 Hfit) as (c2 & r & -> & Henv2 & Hres). cbn [mbind option_bind].
  assert (same_env c c2) as Henv by (by eapply same_env_trans). assert (quiet c2) as Hq2 by (by eapply quiet_env).
  destruct r.
  - destruct Hres as (args & cmds' & u2 & -> & Hav & Hb2 & E2 & Hlt2).
    pose proof Henv as (_ & _ & _ & _ & _ & Hex2' & _).
    apply Forall_cons in Hfit as [Hf1 Hfit]. pose proof (benign_first _ _ _ c2 Hben Hex2' Hav) as Hb1. pose proof Hf1 as (Hne & _).
    destruct (run_command_benign c2 u2 args rest cmds' Hb2 Hav Hne Hb1 Hq2 E2) as (c3 & -> & Hst3 & Hq3 & Hex3 & Her3 & Hrr3 & Hsy3 & Hma3).
    cbn [mbind option_bind]. rewrite Hex2' in Hex3. pose proof (benign_rest _ [args] cmds' Hben) as Hben3. rewrite <- Hex3 in Hben3.
    rewrite (proj1 Hq3). destruct (IH c3 u2 rest cmds' Hst3 Hq3 Hfit Hben3) as (c' & u' & done & cmds'' & -> & -> & Hst' & Hq' & Hor & Hex & Her & Hrr & Hma & Hsy); [lia|].
    destruct Henv as (Hfl & _ & _ & Hrr2 & Her2 & Hex2 & _).
    exists c', u', (args :: done), cmds''. split_and!; try done.
    + rewrite Hex, Hex3, <- app_assoc. done.
    + congruence.
    + congruence.
    + congruence.
    + intros _. by apply Hsy.
  - destruct Hres as (Hrest & u' & Hst'). exists c2, u', [], cmds. rewrite app_nil_r.
    pose proof Henv as (Hfl & _ & Hrf & Hrr2 & Her2 & Hex2 & _). split_and!; try done; [by right|congruence|].
    intros Hs. by eapply synced_env.
Qed.

Lemma process_input_resp c u rest cmds :
  resp_state c u rest cmds -> quiet c -> Forall cmd_fits cmds -> benign_run (executed c) cmds ->
  exists c' u' done cmds', processInputBuffer server processCommand c = Some c' /\ cmds = done ++ cmds' /\
    resp_state c' u' rest cmds' /\ quiet c' /\ (u' = [] \/ rest <> []) /\ qb_pos c' = 0 /\
    executed c' = executed c ++ done /\ errors c' = errors c /\ read_reploff c' = read_reploff c /\
    CLIENT_MASTER (flags c') = CLIENT_MASTER (flags c) /\
    (synced c rest cmds -> synced c' rest cmds').
Proof.
  intros Hst Hq Hfit Hben. pose proof (resp_buf _ _ _ _ Hst) as Hb. destruct (buf_len c u Hb) as [Hlen _]. pose proof (zlen_nonneg u).
  unfold processInputBuffer. rewrite Hlen.
  destruct (input_loop_resp (Z.to_nat (zlen u)) c u rest cmds Hst Hq Hfit Hben) as (c1 & u1 & done & cmds' & -> & Hc & Hst1 & Hq1 & Hor & Hrest); [lia|].
  cbn [mbind option_bind]. rewrite (proj1 Hq1). cbn [andb]. destruct (Z.eqb_spec (qb_pos c1) 0) as [Hp|Hp]; cbn [negb].
  - exists c1, u1, done, cmds'. split_and!; try done; apply Hrest.
  - pose proof (resp_buf _ _ _ _ Hst1) as Hb1. destruct (buf_trim c1 u1 Hb1) as (q & -> & Hb2). cbn [mbind option_bind].
    exists (set_buffer c1 q 0), u1, done, cmds'. split_and!; try done; try apply Hrest; [|apply Hq1..].
    destruct Hst1 as [(_ & ? & ? & ? & ? & ?)|(args & cmds2 & -> & dn & a & lf & -> & ? & ? & ? & ? & _ & ?)]; [left; split_and!; done|].
    right. exists (dn ++ a :: lf), cmds2. split; [done|]. exists dn, a, lf. split_and!; done.
Qed.

(** The contract in the comment of [processCommand]: after [C_OK] the client
    is still alive and valid, after [C_ERR] it is closed or freed. *)
Definition command_contract : Prop :=
  forall c, if ce_ok (processCommand c) then ce_freed (processCommand c) = false
            else ce_close (processCommand c) = true \/ ce_freed (processCommand c) = true.

Lemma reset_ok c u : buf_ok c u -> client_ok (resetClient c) u.
Proof using Type. intros (p & ? & ? & ?). split; [by exists p|]. intros _. left. split_and!; try done. by left. Qed.

Lemma run_command_runs c :
  command_contract -> alive c = true -> exists c', run_command processCommand c = Some c'.
Proof using Type.
  intros Hfc Hal. unfold run_command. cbv zeta. destruct (zlen (argv c) =? 0); [by eexists|]. specialize (Hfc c).
  destruct (ce_ok _); [|by eexists]. cbn [alive apply_effect set_env]. rewrite Hal, Hfc. by eexists.
Qed.

Lemma run_command_safe c u c' :
  command_contract -> buf_ok c u -> run_command processCommand c = Some c' -> alive c' = true -> client_ok c' u.
Proof using Type.
  intros Hfc Hb E Hal. unfold run_command in E. cbv zeta in E. destruct (zlen (argv c) =? 0); [simplify_eq; by apply reset_ok|].
  assert (buf_ok (apply_effect c (processCommand c)) u) as Hb1 by (destruct Hb as (p & ? & ? & ?); by exists p).
  set (c1 := apply_effect _ _) in *. specialize (Hfc c). destruct (ce_ok _).
  - destruct (alive c1); [|done]. cbn [negb] in E. apply (inj Some) in E as <-. set (c2 := if CLIENT_MASTER (flags c1) && _ then _ else _) in *.
    assert (buf_ok c2 u) as Hb2 by (destruct Hb1 as (p & ? & ? & ?); unfold c2; destruct (_ && _); by exists p).
    destruct (CLIENT_BLOCKED (flags c2)) eqn:Hbk; cbn [negb orb] in *; [|by apply reset_ok].
    destruct (ce_module _); cbn [negb] in *; [|by apply reset_ok]. split; [done|]. intros (Hbk' & _). congruence.
  - injection E as <-. split; [done|]. intros (_ & Hcl & _). cbn in Hal, Hcl. destruct Hfc as [E|E]; rewrite E in *.
    + by rewrite orb_true_r in Hcl.
    + by rewrite andb_false_r in Hal.
Qed.

Lemma break_open c : must_break server c = false -> open_client c.
Proof using Type.
  unfold must_break, open_client. rewrite !orb_false_iff. by intros [[[_ ?] _] [? ?]].
Qed.

(** One parse, whatever the request type. *)
Lemma parse_safe c u :
  client_ok c u -> open_client c -> u <> [] -> proto_max_bulk_len server < 2 ^ 60 ->
  exists c1, (c0 ← (if reqtype c =? 0 then mread (qb_mem (querybuf c)) (qb_pos c) 1 else Some []);
      Some (if reqtype c =? 0
            then set_reqtype c (if bool_decide (c0 = [42]) then PROTO_REQ_MULTIBULK else PROTO_REQ_INLINE) else c)) = Some c1 /\
    same_link c c1 /\ buf_ok c1 u /\ open_client c1 /\ state_ok c1 u /\
    (reqtype c1 = PROTO_REQ_INLINE \/ reqtype c1 = PROTO_REQ_MULTIBULK).
Proof.
  intros [Hb Hst] Ho Hu Hmax. specialize (Hst Ho). destruct (Z.eqb_spec (reqtype c) 0) as [Hr0|Hr0].
  - destruct u as [|b u]; [done|]. rewrite (buf_read_head c b u 1 Hb eq_refl). cbn [mbind option_bind].
    destruct Hst as [(Hmb & Hav & Hbl & _)|(_ & Hrt & _)]; [|by rewrite Hr0 in Hrt].
    eexists. split; [done|]. split; [done|]. split; [by apply buf_reparse|]. split; [done|].
    case_bool_decide as Hc; cbn; (split; [left; split_and!; try done; right|auto]); [right|by left]. split; [done|]. by injection Hc as ->.
  - cbn [mbind option_bind]. eexists. split; [done|]. split_and!; try done.
    destruct Hst as [(_ & _ & _ & [?|[?|[? _]]])|(_ & ? & _)]; auto. done.
Qed.

(** ** The link to a master

    From [c] with the bytes [u] unparsed to [c'] with [u']: the applied offset
    moves forward, and not beyond the first unparsed byte. *)
Definition advance (c : client T) (u : list Z) (c' : client T) (u' : list Z) : Prop :=
  zlen u' <= zlen u /\ CLIENT_MASTER (flags c') = CLIENT_MASTER (flags c) /\ read_reploff c' = read_reploff c /\
  pending_querybuf c' = pending_querybuf c /\ fed c' = fed c /\
  (reploff c <= read_reploff c - zlen u -> reploff c <= reploff c' <= read_reploff c - zlen u').

Lemma advance_trans c1 u1 c2 u2 c3 u3 : advance c1 u1 c2 u2 -> advance c2 u2 c3 u3 -> advance c1 u1 c3 u3.
Proof using Type.
  intros (L1 & M1 & R1 & P1 & F1 & O1) (L2 & M2 & R2 & P2 & F2 & O2). unfold advance. rewrite M2, R2, P2, F2. split_and!; try done; [lia|].
  intros H. specialize (O1 H). rewrite R1 in O2. lia.
Qed.

Lemma advance_link c u c' u' : same_link c c' -> zlen u' <= zlen u -> advance c u c' u'.
Proof using Type. intros (_ & M & R & RR & P & F) L. unfold advance. rewrite R. split_and!; try done. lia. Qed.

Lemma run_command_advance c u c' : buf_ok c u -> run_command processCommand c = Some c' -> advance c u c' u.
Proof.
  intros Hb E. destruct (buf_len c u Hb) as [Hlen _]. unfold run_command in E. cbv zeta in E.
  destruct (zlen (argv c) =? 0); [simplify_eq; by apply advance_link|].
  set (c1 := apply_effect _ _) in E. assert (same_link c (set_env c1 (flags c1) (asking_cmd c1) (errors c1) (executed c1) (alive c))) as (_ & M & R & RR & P & F) by done.
  cbn in M, R, RR, P, F. destruct (ce_ok _).
  - destruct (alive c1); [|done]. cbn [negb] in E. set (c2 := if CLIENT_MASTER (flags c1) && _ then _ else _) in E. assert (advance c u c2 u) as Ha.
    { unfold c2. destruct (_ && _); [|unfold advance; split_and!; try done; cbn; lia]. unfold advance. split_and!; try done. cbn. lia. }
    apply (inj Some) in E as <-. destruct (negb _ || _); [|done]. eapply advance_trans; [exact Ha|]. by apply advance_link.
  - injection E as <-. unfold advance. split_and!; try done; cbn; lia.
Qed.

(** The command layer never frees the link to the master it reads from: the
    callers use it afterwards, whatever [processCommand] returned. *)
Definition keeps_master : Prop := forall c, CLIENT_MASTER (flags c) = true -> ce_freed (processCommand c) = false.

Lemma run_command_alive c c' :
  keeps_master -> alive c = true -> CLIENT_MASTER (flags c) = true -> run_command processCommand c = Some c' -> alive c' = true.
Proof using Type.
  intros Hk Hal Hm E. unfold run_command in E. cbv zeta in E. destruct (zlen (argv c) =? 0); [by simplify_eq|].
  assert (alive (apply_effect c (processCommand c)) = true) as Ha by (cbn; by rewrite Hal, (Hk c Hm)).
  rewrite Ha in E. cbn [negb] in E. destruct (ce_ok _); [|by simplify_eq]. apply (inj Some) in E as <-. destruct (CLIENT_MASTER _ && _), (negb _ || _); done.
Qed.

Lemma input_loop_safe fuel : forall c u,
  command_contract -> proto_max_bulk_len server < 2 ^ 60 -> client_ok c u -> zlen u <= Z.of_nat fuel -> alive c = true -> keeps_master ->
  exists c' u', input_loop server processCommand fuel c = Some c' /\ advance c u c' u' /\ (alive c' = true -> client_ok c' u') /\
    (CLIENT_MASTER (flags c) = true -> alive c' = true).
Proof.
  induction fuel as [|fuel IH]; intros c u Hfc Hmax Hok Hf Hal Hk; cbn [input_loop]; destruct (buf_len c u (proj1 Hok)) as [Hlen _];
    (destruct (Z.ltb_spec (qb_pos c) (qb_len (querybuf c))) as [Hlt|]; [|exists c, u; split; [done|]; split; [by apply advance_link|done]]); [lia|].
  destruct (must_break server c) eqn:Hbr; [exists c, u; split; [done|]; split; [by apply advance_link|done]|]. apply break_open in Hbr as Ho.
  assert (u <> []) as Hu by (intros ->; change (zlen (@nil Z)) with 0 in *; lia).
  destruct (parse_safe c u Hok Ho Hu Hmax) as (c1 & E1 & Hal1 & Hb1 & Ho1 & Hst1 & Hrt1).
  destruct (if reqtype c =? 0 then _ else _) as [c0|]; [|done]. cbn [mbind option_bind] in E1 |- *. injection E1 as E1. rewrite E1.
  assert (exists c2 r, (if reqtype c1 =? PROTO_REQ_INLINE then processInlineBuffer server c1
      else if reqtype c1 =? PROTO_REQ_MULTIBULK then processMultibulkBuffer server c1 else None) = Some (c2, r) /\ same_link c1 c2 /\
      match r with C_OK => exists u', buf_ok c2 u' /\ zlen u' < zlen u | C_ERR => exists u', client_ok c2 u' /\ zlen u' <= zlen u end) as (c2 & r & -> & Hl2 & Hr).
  { destruct Hrt1 as [Hrt|Hrt]; rewrite Hrt; cbn.
    - destruct (inline_safe c1 u Hb1 Hst1 Hrt) as (c2 & r & ? & ? & ?). by exists c2, r.
    - destruct (multibulk_safe c1 u Hb1 Ho1 Hst1 Hrt Hmax) as (c2 & r & ? & ? & ?). by exists c2, r. }
  assert (same_link c c2) as Hl by (by eapply same_link_trans). pose proof Hl as (Ha & Hm & _).
  cbn [mbind option_bind]. destruct r.
  - destruct Hr as (u2 & Hb2 & Hlt2). destruct (run_command_runs c2 Hfc) as (c3 & E3); [congruence|]. rewrite E3. cbn [mbind option_bind].
    pose proof (run_command_advance c2 u2 c3 Hb2 E3) as Hadv.
    assert (advance c u c3 u2) as Hadv' by (eapply advance_trans; [apply (advance_link c u c2 u2 Hl); lia|exact Hadv]).
    pose proof Hadv' as (_ & Hm3 & _).
    destruct (alive c3) eqn:Hal3.
    + destruct (IH c3 u2 Hfc Hmax) as (c' & u' & -> & Hadv3 & Hok3 & Hma3);
        [by eapply run_command_safe|lia|done|done|].
      exists c', u'. split_and!; [done|by eapply advance_trans|done|]. rewrite <- Hm3. done.
    + exists c3, u2. split_and!; [done|done|congruence|]. intros Hmm. rewrite (run_command_alive c2 c3 Hk) in Hal3; congruence.
  - destruct Hr as (u2 & Hok2 & Hle). exists c2, u2. split_and!; [done|by apply advance_link|done|]. intros _. congruence.
Qed.

Lemma process_input_safe c u :
  command_contract -> proto_max_bulk_len server < 2 ^ 60 -> client_ok c u -> alive c = true -> keeps_master ->
  exists c' u', processInputBuffer server processCommand c = Some c' /\ advance c u c' u' /\
    (alive c' = true -> qb_pos c' = 0 /\ client_ok c' u') /\ (CLIENT_MASTER (flags c) = true -> alive c' = true).
Proof.
  intros Hfc Hmax Hok Hal Hk. destruct (buf_len c u (proj1 Hok)) as [Hlen _]. pose proof (zlen_nonneg u). unfold processInputBuffer. rewrite Hlen.
  destruct (input_loop_safe (Z.to_nat (zlen u)) c u Hfc Hmax Hok ltac:(lia) Hal Hk) as (c1 & u1 & -> & Hadv & Hc1 & Hm1). cbn [mbind option_bind].
  destruct (alive c1) eqn:Hal1; cbn [andb]; [|exists c1, u1; split; [done|]; split; [done|]; rewrite Hal1; done]. destruct (Hc1 eq_refl) as (Hb1 & Hst1).
  destruct (Z.eqb_spec (qb_pos c1) 0); cbn [negb]; [by exists c1, u1|].
  destruct (buf_trim c1 u1 Hb1) as (q & -> & Hb2). cbn [mbind option_bind]. exists (set_buffer c1 q 0), u1. split; [done|]. split; [done|]. by split.
Qed.

(** Between two reads: of the bytes [s] the master sent from offset [r0] on,
    those up to the applied offset were forwarded, the others are pending. *)
Definition link_ok (c : client T) (u s : list Z) (r0 : Z) : Prop :=
  CLIENT_MASTER (flags c) = true -> exists ps, qb_rep (pending_querybuf c) ps /\ fed c ++ ps = s /\
    read_reploff c = r0 + zlen s /\ reploff c = r0 + zlen (fed c) /\ zlen u <= zlen ps.

Lemma link_parse c u s r0 q pos rt mb bl av cap : link_ok c u s r0 -> link_ok (set_parse c q pos rt mb bl av cap) u s r0.
Proof using Type. done. Qed.

Lemma set_link_same (c : client T) : set_link c (reploff c) (read_reploff c) (pending_querybuf c) (fed c) = c.
Proof using Type. by destruct c. Qed.

Lemma replicate_safe c u s r0 :
  command_contract -> proto_max_bulk_len server < 2 ^ 60 -> client_ok c u -> alive c = true -> keeps_master ->
  link_ok c u s r0 -> zlen s < 2 ^ 61 ->
  exists c1 u' pending fd, processInputBuffer server processCommand c = Some c1 /\
    let c' := set_link c1 (reploff c1) (read_reploff c1) pending fd in
    processInputBufferAndReplicate server processCommand c = Some c' /\ CLIENT_MASTER (flags c') = CLIENT_MASTER (flags c) /\
    (alive c' = true -> qb_pos c' = 0 /\ client_ok c' u' /\ link_ok c' u' s r0).
Proof.
  intros Hfc Hmax Hok Hal Hk Hlink Hs. unfold processInputBufferAndReplicate.
  destruct (process_input_safe c u Hfc Hmax Hok Hal Hk) as (c1 & u' & -> & (_ & Hm & Hrr & Hp & Hfd & Hro) & Hok' & Hma).
  destruct (CLIENT_MASTER (flags c)) eqn:Hmc; cbn [negb mbind option_bind].
  2:{ exists c1, u', (pending_querybuf c1), (fed c1). cbv zeta. rewrite set_link_same. split; [done|]. split; [done|]. split; [done|].
      intros Ha. destruct (Hok' Ha) as [? ?]. split; [done|]. split; [done|]. intros ?. congruence. }
  rewrite (Hma eq_refl). cbn [negb]. destruct (Hok' (Hma eq_refl)) as (Hp1 & Hok1).
  destruct (Hlink Hmc) as (ps & Hps & Es & Hrs & Hrf & Hle). pose proof (f_equal zlen Es) as Els. rewrite zlen_app in Els.
  pose proof (zlen_nonneg u'). pose proof (zlen_nonneg (fed c)). specialize (Hro ltac:(lia)).
  rewrite uwrap_small by width_lia. destruct (Z.eqb_spec (reploff c1 - reploff c) 0) as [E0|E0]; cbn [negb].
  - exists c1, u', (pending_querybuf c1), (fed c1). cbv zeta. rewrite set_link_same. split; [done|]. split; [done|]. split; [done|].
    intros _. split; [done|]. split; [done|]. intros _. exists ps. rewrite Hp, Hfd, Hrr. split_and!; try done; lia.
  - destruct (split_len ps (reploff c1 - reploff c) (zlen ps - (reploff c1 - reploff c))) as (x & y & E & Hx & Hy); [lia..|].
    rewrite Hp. destruct (qb_law_mem _ _ Hps) as (r & Hmem). rewrite Hmem, E, <- app_assoc, <- Hx, mread_front by done. cbn [mbind option_bind].
    rewrite swrap_small by width_lia.
    destruct (qb_law_range _ ps (zlen x) Hps) as (q & -> & Hq); [lia|lia|]. cbn [mbind option_bind].
    exists c1, u', q, (fed c1 ++ x). cbv zeta. split; [done|]. split; [done|]. split; [done|]. intros _. split; [done|]. split; [done|].
    intros _. cbn [pending_querybuf fed read_reploff reploff set_link]. exists y. rewrite Hfd, Hrr, <- app_assoc, <- E, zlen_app.
    split_and!; try done; [|lia|lia]. rewrite E in Hq. unfold zlen in Hq. by rewrite Nat2Z.id, drop_app_length in Hq.
Qed.

(** More input leaves the parse state valid. *)
Lemma state_more c c' u x :
  state_ok c u -> reqtype c' = reqtype c -> multibulklen c' = multibulklen c -> bulklen c' = bulklen c -> argv c' = argv c ->
  argv_cap c' = argv_cap c -> state_ok c' (u ++ x).
Proof using Type.
  unfold state_ok. intros Hst -> -> -> -> ->. destruct Hst as [(? & ? & ? & Hr)|?]; [left|by right]. split_and!; try done.
  destruct Hr as [?|[?|[? Hh]]]; [by left|by right; left|]. right; right. split; [done|]. by destruct u.
Qed.

(** Everything but the buffer, the offsets of the link and the statistics is
    the same, and the buffer has grown by [x]. *)
Definition grown (c c1 : client T) (u s : list Z) (r0 : Z) (x : list Z) : Prop :=
  reqtype c1 = reqtype c /\ multibulklen c1 = multibulklen c /\ bulklen c1 = bulklen c /\ argv c1 = argv c /\ argv_cap c1 = argv_cap c /\
  flags c1 = flags c /\ alive c1 = alive c /\ errors c1 = errors c /\ executed c1 = executed c /\ reploff c1 = reploff c /\
  read_reploff c1 = (if CLIENT_MASTER (flags c) then read_reploff c + zlen x else read_reploff c) /\
  qb_pos c1 = 0 /\ (zlen (u ++ x) < 2 ^ 60 -> buf_ok c1 (u ++ x)) /\ link_ok c1 (u ++ x) (s ++ x) r0.

Lemma grown_ok c c1 u s r0 x : grown c c1 u s r0 x -> client_ok c u -> zlen (u ++ x) < 2 ^ 60 -> client_ok c1 (u ++ x).
Proof using Type.
  intros (E1 & E2 & E3 & E4 & E5 & E6 & _ & _ & _ & _ & _ & _ & Hb & _) [Hb0 Hst] Hl. split; [by apply Hb|].
  unfold open_client. rewrite E6. intros Ho. by apply (state_more c), E5; [apply Hst|..].
Qed.

(** The read handler up to the processing of the buffer. *)
Lemma read_handler c u s r0 r :
  client_ok c u -> qb_pos c = 0 -> link_ok c u s r0 -> zlen (read_bytes r) <= read_len c ->
  zlen (s ++ read_bytes r) < 2 ^ 61 ->
  exists c1, grown c c1 u s r0 (read_bytes r) /\
    readQueryFromClient server processCommand c r =
      match r with
      | RD_AGAIN => Some c1
      | RD_ERROR | RD_DATA [] => Some (freed c1)
      | RD_DATA bytes => if zlen (u ++ bytes) >? client_max_querybuf_len server then Some (freed c1)
          else processInputBufferAndReplicate server processCommand c1
      end.
Proof.
  intros [Hb _] Hp Hlink Hlen Hs. destruct (buf_front c u Hb Hp) as [Hrep Hu]. pose proof (read_len_range c) as Hrl. unfold PROTO_IOBUF_LEN in Hrl.
  unfold readQueryFromClient. set (rl := read_len c) in *. cbv zeta. rewrite (qb_law_len _ _ Hrep).
  set (c0 := if querybuf_peak c <? zlen u then _ else c).
  assert (same_link c c0 /\ querybuf c0 = querybuf c /\ qb_pos c0 = qb_pos c /\ reqtype c0 = reqtype c /\ multibulklen c0 = multibulklen c /\
    bulklen c0 = bulklen c /\ argv c0 = argv c /\ argv_cap c0 = argv_cap c /\ flags c0 = flags c /\ errors c0 = errors c /\ executed c0 = executed c)
    as ((Al & Ml & Rl & RRl & Pl & Fl) & Q0 & P0 & T0 & M0 & B0 & A0 & C0 & F0 & R0 & X0) by (unfold c0; case_match; done).
  clearbody c0. rewrite Q0. destruct (qb_law_room (querybuf c) u rl Hrep) as (q & Eq & Hq); [lia|lia|].
  assert (forall c2, c2 = set_buffer c0 q (qb_pos c0) -> grown c c2 u s r0 []) as Hidle.
  { intros c2 ->. unfold grown. cbn. rewrite P0, T0, M0, B0, A0, C0, F0, Al, R0, X0, Rl, RRl. split_and!; try done.
    - case_match; [change (zlen (@nil Z)) with 0; lia|done].
    - rewrite app_nil_r. intros Hl. apply buf_at; [done|cbn; congruence|done].
    - intros Hm. rewrite !app_nil_r. cbn in Hm |- *. rewrite F0 in Hm. destruct (Hlink Hm) as (ps & ? & ? & ? & ? & ?).
      exists ps. rewrite Pl, Fl, Rl, RRl. done. }
  rewrite Eq. cbn [mbind option_bind]. destruct r as [| |[|b bytes]]; cbn [read_bytes] in *; [by eexists; split; [by apply Hidle|]..|].
  set (x := b :: bytes) in *. assert (0 < zlen x) by (unfold x; rewrite zlen_cons; pose proof (zlen_nonneg bytes); lia).
  destruct (qb_law_read (querybuf c) u rl x Hrep) as (t1 & t2 & t3 & E1 & E2 & E4 & E3 & Hrep3); [lia|lia|]. rewrite Eq in E1. injection E1 as <-.
  cbn [querybuf set_buffer set_parse]. rewrite E2. cbn [mbind option_bind].
  set (pend := if CLIENT_MASTER _ then _ else _).
  assert (exists t, pend = Some t /\ (CLIENT_MASTER (flags c) = true -> exists ps, qb_rep t (ps ++ x) /\ fed c ++ ps = s /\
      read_reploff c = r0 + zlen s /\ reploff c = r0 + zlen (fed c) /\ zlen u <= zlen ps)) as (t & -> & Ht).
  { unfold pend. cbn. rewrite Ml. destruct (CLIENT_MASTER (flags c)) eqn:Hm; [|by eexists]. rewrite E4. cbn [mbind option_bind]. rewrite Pl.
    destruct (Hlink Hm) as (ps & Hps & Es & Hrest). pose proof (f_equal zlen Es) as El. rewrite zlen_app in El, Hs. pose proof (zlen_nonneg (fed c)).
    destruct (qb_law_cat _ ps x Hps) as (t & Et & Hrt); [lia|]. exists t. split; [done|]. intros _. by exists ps. }
  cbn [mbind option_bind]. rewrite E3. cbn [mbind option_bind]. rewrite (qb_law_len _ _ Hrep3).
  eexists. split; [|reflexivity]. unfold grown. cbn. rewrite P0, T0, M0, B0, A0, C0, F0, Al, R0, X0, Rl, RRl. split_and!; try done.
  - intros Hl. apply buf_at; [done|cbn; congruence|done].
  - intros Hm. cbn in Hm |- *. rewrite F0 in *. rewrite Hm. destruct (Ht Hm) as (ps & Hps & Es & Hrr & Hr & Hle).
    exists (ps ++ x). rewrite ?Fl, ?Rl, ?RRl, !zlen_app, app_assoc, Es. split_and!; try done; lia.
Qed.

(** What is asked of the configuration and of the command layer. *)
Definition env_ok : Prop :=
  command_contract /\ proto_max_bulk_len server < 2 ^ 60 /\ client_max_querybuf_len server < 2 ^ 59.

(** A client between two reads. *)
Definition resting (c : client T) (u s : list Z) (r0 : Z) : Prop := qb_pos c = 0 /\ client_ok c u /\ link_ok c u s r0.

Lemma grown_resting c c1 u s r0 x :
  grown c c1 u s r0 x -> client_ok c u -> zlen (u ++ x) < 2 ^ 60 -> resting c1 (u ++ x) (s ++ x) r0.
Proof using Type.
  intros Hg Hok Hl. pose proof (grown_ok c c1 u s r0 x Hg Hok Hl).
  by destruct Hg as (_ & _ & _ & _ & _ & _ & _ & _ & _ & _ & _ & ? & _ & ?).
Qed.

Lemma read_safe c u s r0 r :
  env_ok -> resting c u s r0 -> alive c = true -> keeps_master -> zlen (read_bytes r) <= read_len c -> zlen (s ++ read_bytes r) < 2 ^ 61 ->
  exists c', readQueryFromClient server processCommand c r = Some c' /\ CLIENT_MASTER (flags c') = CLIENT_MASTER (flags c) /\
    (alive c' = true -> exists u', resting c' u' (s ++ read_bytes r) r0).
Proof.
  intros (Hfc & Hmax & Hmax') (Hp & Hok & Hlink) Hal Hk Hlen Hs. destruct (read_handler c u s r0 r Hok Hp Hlink Hlen Hs) as (c1 & Hg & ->).
  destruct (buf_front c u (proj1 Hok) Hp) as [_ Hu]. pose proof Hg as (_ & _ & _ & _ & _ & Ef & Ea & _).
  destruct r as [| |[|b bytes]]; cbn [read_bytes] in *.
  - exists c1. rewrite Ef. split; [done|]. split; [done|]. intros _. eexists. eapply grown_resting; [done|done|]. by rewrite app_nil_r.
  - eexists. split; [done|]. cbn. by rewrite Ef.
  - eexists. split; [done|]. cbn. by rewrite Ef.
  - destruct (Z.gtb_spec (zlen (u ++ b :: bytes)) (client_max_querybuf_len server)) as [|Hle]; [eexists; split; [done|]; cbn; by rewrite Ef|].
    destruct (grown_resting _ _ _ _ _ _ Hg Hok ltac:(lia)) as (_ & Hok1 & Hl1).
    destruct (replicate_safe c1 _ (s ++ b :: bytes) r0 Hfc Hmax Hok1) as (c2 & u' & pend & fd & _ & Hr & Hm & Hc2);
      [by rewrite Ea|done|exact Hl1|done|].
    eexists. split; [exact Hr|]. split; [by rewrite Hm, Ef|]. intros Ha. exists u'. by apply Hc2.
Qed.

Lemma feed_safe reads : forall c u s r0,
  env_ok -> resting c u s r0 -> alive c = true -> keeps_master -> admissible server processCommand c reads ->
  zlen (s ++ concat (map read_bytes reads)) < 2 ^ 61 ->
  exists c', feed server processCommand c reads = Some c' /\
    (alive c' = true -> CLIENT_MASTER (flags c') = CLIENT_MASTER (flags c) /\ exists u', resting c' u' (s ++ concat (map read_bytes reads)) r0).
Proof.
  induction reads as [|r reads IH]; intros c u s r0 Henv Hrest Hal Hk Hadm Hs; cbn [feed map concat] in *.
  - exists c. split; [done|]. intros _. split; [done|]. exists u. by rewrite app_nil_r.
  - destruct Hadm as [Hch Hadm]. rewrite app_assoc in Hs |- *. pose proof Hs as Hs'. rewrite zlen_app in Hs'. pose proof (zlen_nonneg (concat (map read_bytes reads))).
    destruct (read_safe c u s r0 r Henv Hrest Hal Hk Hch ltac:(lia)) as (c1 & E & Hm & Hc1). rewrite E in *.
    cbn [mbind option_bind]. destruct (alive c1) eqn:Hal1; [|by exists c1; split; [done|]; congruence].
    destruct (Hc1 eq_refl) as (u1 & Hr1). rewrite <- Hm.
    apply (IH c1 u1); done.
Qed.

(** A client that is to be closed executes nothing more. *)
Lemma closed_input c c' :
  CLIENT_CLOSE_AFTER_REPLY (flags c) = true -> processInputBufferAndReplicate server processCommand c = Some c' ->
  CLIENT_CLOSE_AFTER_REPLY (flags c') = true /\ executed c' = executed c /\ errors c' = errors c.
Proof using Type.
  intros Hcl. assert (must_break server c = true) as Hbr by (unfold must_break; by rewrite Hcl, orb_true_r).
  assert (forall c1, processInputBuffer server processCommand c = Some c1 ->
    CLIENT_CLOSE_AFTER_REPLY (flags c1) = true /\ executed c1 = executed c /\ errors c1 = errors c) as Hin.
  { intros c1. unfold processInputBuffer. destruct (Z.to_nat _) as [|n]; cbn [input_loop]; rewrite ?Hbr.
    - case_match; [done|]. cbn [mbind option_bind]. case_match; [|by intros [= <-]]. destruct (qb_range _ _ _); [|done]. by intros [= <-].
    - case_match; cbn [mbind option_bind]; (case_match; [|by intros [= <-]]); (destruct (qb_range _ _ _); [|done]); by intros [= <-]. }
  unfold processInputBufferAndReplicate. case_match; [apply Hin|]. destruct (processInputBuffer _ _ _) as [c1|]; [|done].
  destruct (Hin c1 eq_refl) as (? & ? & ?). cbn [mbind option_bind]. repeat (case_match; [done|]). case_match; [|by intros [= <-]].
  destruct (mread _ _ _); [|done]. cbn [mbind option_bind]. destruct (qb_range _ _ _); [|done]. by intros [= <-].
Qed.

Lemma closed_feed reads : forall c c',
  CLIENT_CLOSE_AFTER_REPLY (flags c) = true -> feed server processCommand c reads = Some c' ->
  executed c' = executed c /\ errors c' = errors c.
Proof using Type.
  induction reads as [|r reads IH]; intros c c' Hcl; cbn [feed]; [by intros [= <-]|].
  destruct (readQueryFromClient _ _ _ _) as [c1|] eqn:E; [|done]. cbn [mbind option_bind].
  assert (CLIENT_CLOSE_AFTER_REPLY (flags c1) = true /\ executed c1 = executed c /\ errors c1 = errors c) as (Hcl1 & He1 & Hr1).
  { unfold readQueryFromClient in E. cbv zeta in E. set (c0 := if querybuf_peak c <? _ then _ else c) in E.
    assert (CLIENT_CLOSE_AFTER_REPLY (flags c0) = true /\ executed c0 = executed c /\ errors c0 = errors c) as (Hc0 & <- & <-) by (unfold c0; destruct (querybuf_peak c <? _); done).
    clearbody c0. destruct (qb_room _ _); [|done]. cbn [mbind option_bind] in E.
    destruct r as [| |[|b bytes]]; [by simplify_eq/=..|]. destruct (qb_store _ _ _); [|done]. cbn [mbind option_bind] in E.
    destruct (if CLIENT_MASTER _ then _ else _); [|done]. cbn [mbind option_bind] in E. destruct (qb_incr _ _); [|done]. cbn [mbind option_bind] in E.
    case_match; [by simplify_eq/=|]. by apply closed_input in E. }
  rewrite <- He1, <- Hr1. destruct (alive c1); [|by intros [= <-]]. by apply IH.
Qed.

(** ** Delivering RESP requests *)

Lemma resp_transfer c c1 u u1 rest rest1 cmds :
  resp_state c u rest cmds -> buf_ok c1 u1 -> u1 ++ rest1 = u ++ rest -> (u <> [] -> u1 <> []) ->
  reqtype c1 = reqtype c -> multibulklen c1 = multibulklen c -> bulklen c1 = bulklen c -> argv c1 = argv c -> argv_cap c1 = argv_cap c ->
  resp_state c1 u1 rest1 cmds.
Proof using Type.
  intros Hst Hb E Hne E1 E2 E3 E4 E5.
  destruct Hst as [(_ & ? & ? & ? & Eu & Hrt)|(args & cmds2 & -> & dn & a & lf & -> & ? & ? & ? & ? & _ & Hph)].
  - left. rewrite E1, E2, E3, E4, E. split_and!; try done. destruct Hrt as [?|[? ?]]; [by left|right]. split; [done|by apply Hne].
  - right. exists (dn ++ a :: lf), cmds2. split; [done|]. exists dn, a, lf. rewrite E1, E2, E3, E4, E5, E. by split_and!.
Qed.

Lemma resp_ok c u rest cmds : resp_state c u rest cmds -> Forall cmd_fits cmds -> client_ok c u.
Proof using Type.
  intros Hst Hfit. split; [by eapply resp_buf|]. intros _.
  destruct Hst as [(_ & ? & ? & ? & Eu & Hrt)|(args & cmds2 & -> & dn & a & lf & -> & ? & Hmb & Hav & Hcap & _ & Hph)].
  - left. split_and!; try done. destruct Hrt as [?|[? Hne]]; [by left|]. right; right. split; [done|].
    destruct u as [|b u]; [done|]. destruct cmds as [|args cmds]; [done|]. rewrite enc_cmds_cons in Eu. by injection Eu as ->.
  - right. apply Forall_cons in Hfit as [(_ & _ & Hargs) _]. apply Forall_app in Hargs as [_ [[_ Ha] _]%Forall_cons].
    rewrite Hmb, Hcap, Hav, zlen_app, zlen_cons. pose proof (zlen_nonneg lf). pose proof (zlen_nonneg a). split_and!; try done; try lia.
    all: destruct Hph as [[-> _]|[-> _]]; lia.
Qed.

Lemma resting_at c u u2 s r0 : resting c u2 s r0 -> client_ok c u -> resting c u s r0.
Proof.
  intros (Hp & [Hb2 _] & Hlink) Hok. split; [done|]. split; [done|]. intros Hm. destruct (Hlink Hm) as (ps & ? & ? & ? & ? & ?).
  exists ps. destruct (buf_len c u (proj1 Hok)), (buf_len c u2 Hb2). split_and!; try done. lia.
Qed.

(** A read that neither failed nor ended the stream. *)
Definition good_read (r : read_result) : Prop := r = RD_AGAIN \/ exists b bytes, r = RD_DATA (b :: bytes).

Lemma read_resp c u s r0 r rest cmds :
  env_ok -> resting c u s r0 -> keeps_master -> resp_state c u (read_bytes r ++ rest) cmds -> quiet c ->
  Forall cmd_fits cmds -> benign_run (executed c) cmds -> good_read r -> zlen (read_bytes r) <= read_len c ->
  zlen (enc_cmds cmds) <= client_max_querybuf_len server -> zlen (s ++ read_bytes r) < 2 ^ 61 ->
  (read_bytes r ++ rest = [] -> u = []) ->
  exists c' u' done cmds', readQueryFromClient server processCommand c r = Some c' /\ cmds = done ++ cmds' /\
    resp_state c' u' rest cmds' /\ quiet c' /\ (rest = [] -> u' = []) /\ resting c' u' (s ++ read_bytes r) r0 /\
    executed c' = executed c ++ done /\ errors c' = errors c /\ CLIENT_MASTER (flags c') = CLIENT_MASTER (flags c) /\
    (synced c (read_bytes r ++ rest) cmds -> synced c' rest cmds').
Proof.
  intros Henv Hrest Hk Hst Hq Hfit Hben Hgood Hlen Hmax Hs Hend. pose proof Hrest as (Hp & Hok & Hlink).
  destruct (read_safe c u s r0 r Henv Hrest (proj1 Hq) Hk Hlen Hs) as (c' & Hr & _ & Hresting).
  destruct (read_handler c u s r0 r Hok Hp Hlink Hlen Hs) as (c1 & Hg & E1).
  destruct (buf_front c u (proj1 Hok) Hp) as [_ Hu]. pose proof (resp_len _ _ _ _ Hst) as Hl. rewrite zlen_app in Hl. pose proof (zlen_nonneg rest).
  destruct Henv as (Hfc & Hmb & Hmax').
  assert (zlen (u ++ read_bytes r) < 2 ^ 60) as Hux by (rewrite zlen_app; lia).
  destruct (grown_resting _ _ _ _ _ _ Hg Hok Hux) as (Hp1 & Hok1 & Hl1).
  assert (resp_state c1 (u ++ read_bytes r) rest cmds) as Hst1.
  { destruct Hg as (? & ? & ? & ? & ? & _). apply (resp_transfer c c1 u (u ++ read_bytes r) (read_bytes r ++ rest) rest cmds Hst);
      [apply Hok1|by rewrite <- app_assoc|by intros Hne [? _]%app_eq_nil|done..]. }
  assert (quiet c1) as Hq1 by (destruct Hg as (_ & _ & _ & _ & _ & Ef & Ea & _); unfold quiet, must_break in *; by rewrite Ef, Ea).
  pose proof Hg as (_ & _ & _ & _ & _ & Ef & Ea & Eer & Eex & Ero & Err & _).
  assert (synced c (read_bytes r ++ rest) cmds -> synced c1 rest cmds) as Hsy.
  { unfold synced. rewrite Ef, Ero, Err. intros Hsy Hm Hmu. specialize (Hsy Hm Hmu). rewrite Hm, Hsy, zlen_app. lia. }
  destruct Hgood as [->|(b & bytes & ->)]; cbn [read_bytes] in *.
  - exists c1, u, [], cmds. rewrite !app_nil_r in *. rewrite E1, Ef. split_and!; done.
  - rewrite zlen_app in E1. rewrite Z.gtb_ltb, (proj2 (Z.ltb_ge (client_max_querybuf_len server) (zlen u + zlen (b :: bytes)))) in E1 by lia.
    destruct (replicate_safe c1 _ (s ++ b :: bytes) r0 Hfc Hmb Hok1 (proj1 Hq1)) as (c2 & u' & pend & fd & Hpi & Hpr & _);
      [done|done|done|]. cbv zeta in Hpr. rewrite E1, Hpr in Hr. injection Hr as <-.
    destruct (process_input_resp c1 (u ++ b :: bytes) rest cmds Hst1 Hq1 Hfit ltac:(by rewrite Eex))
      as (c3 & u3 & dn & cmds3 & Hpi' & Hcm & Hst3 & Hq3 & Hor & Hp3 & Hex3 & Her3 & Hrr3 & Hma3 & Hsy3).
    rewrite Hpi in Hpi'. injection Hpi' as <-. eexists _, u3, dn, cmds3. split; [rewrite E1; exact Hpr|]. split; [done|].
    assert (resp_state (set_link c2 (reploff c2) (read_reploff c2) pend fd) u3 rest cmds3) as Hst4
      by (apply (resp_transfer c2 _ u3 u3 rest rest cmds3 Hst3); [apply (buf_same c2); [by eapply resp_buf|done..]|done..]).
    split; [done|].
    split; [done|]. split; [intros ->; by destruct Hor|]. split; [destruct (Hresting (proj1 Hq3)) as (u2 & Hr2); apply (resting_at _ u3 u2 _ _ Hr2), (resp_ok _ _ rest cmds3 Hst4); by subst cmds; apply Forall_app in Hfit as [_ ?]|].
    cbn. rewrite Hex3, Her3, Hma3, Eex, Eer, Ef. split_and!; try done. intros Hs0. by apply Hsy3, Hsy.
Qed.

Lemma feed_resp reads : forall c u s r0 cmds,
  env_ok -> resting c u s r0 -> keeps_master -> resp_state c u (concat (map read_bytes reads)) cmds -> quiet c ->
  Forall cmd_fits cmds -> benign_run (executed c) cmds -> Forall good_read reads -> admissible server processCommand c reads ->
  zlen (enc_cmds cmds) <= client_max_querybuf_len server -> zlen (s ++ concat (map read_bytes reads)) < 2 ^ 61 ->
  (concat (map read_bytes reads) = [] -> u = []) ->
  exists c', feed server processCommand c reads = Some c' /\ resp_state c' [] [] [] /\ quiet c' /\
    resting c' [] (s ++ concat (map read_bytes reads)) r0 /\
    executed c' = executed c ++ cmds /\ errors c' = errors c /\ CLIENT_MASTER (flags c') = CLIENT_MASTER (flags c) /\
    (synced c (concat (map read_bytes reads)) cmds -> synced c' [] []).
Proof.
  induction reads as [|r reads IH]; intros c u s r0 cmds Henv Hrest Hk Hst Hq Hfit Hben Hgood Hadm Hmax Hs Hend; cbn [feed map concat] in *.
  - rewrite (Hend eq_refl) in *. assert (cmds = []) as -> by (by apply (resp_done c)). exists c. rewrite !app_nil_r. split; [done|]. split; [done|]. split; [done|]. split; [done|]. done.
  - destruct Hadm as [Hch Hadm]. apply Forall_cons in Hgood as [Hg Hgood]. rewrite app_assoc in Hs |- *.
    pose proof Hs as Hs'. rewrite zlen_app in Hs'. pose proof (zlen_nonneg (concat (map read_bytes reads))).
    destruct (read_resp c u s r0 r _ cmds Henv Hrest Hk Hst Hq Hfit Hben Hg Hch Hmax ltac:(lia) Hend)
      as (c1 & u1 & dn & cmds1 & Hr & -> & Hst1 & Hq1 & Hend1 & Hrest1 & Hex1 & Her1 & Hma1 & Hsy1).
    rewrite Hr in *. cbn [mbind option_bind]. rewrite (proj1 Hq1).
    apply Forall_app in Hfit as [_ Hfit]. apply benign_rest in Hben. rewrite <- Hex1 in Hben. rewrite enc_cmds_app, zlen_app in Hmax. pose proof (zlen_nonneg (enc_cmds dn)).
    destruct (IH c1 u1 (s ++ read_bytes r) r0 cmds1 Henv Hrest1) as (c' & Hf & Hst' & Hq' & Hrest' & Hex & Her & Hma & Hsy);
      [done|done|done|done|done|done|done|lia|done|done|].
    exists c'. rewrite Hex, Her, Hma, Hex1, Her1, Hma1, <- (app_assoc (executed c)). split; [done|]. split; [done|]. split; [done|]. split; [done|]. split_and!; try done.
    intros Hs0. by apply Hsy, Hsy1.
Qed.

End Laws.

(** ** Claims *)

(** A client between two requests, nothing buffered and nothing half parsed;
    if it is the link to a master, [s] is what was read since offset [r0]. *)
Definition idle {T} `{LT : QueryBufferLaws T} (server : server_state) (c : client T) (s : list Z) (r0 : Z) : Prop :=
  quiet server c /\ resp_state c [] [] [] /\ resting c [] s r0.

Lemma new_client_resting {T} `{LT : QueryBufferLaws T} server (q p : T) f off :
  qb_rep q [] -> qb_rep p [] -> resting (new_client server q p f off) [] [] off.
Proof.
  intros Hq Hp. split; [done|]. split.
  - split; [by exists []|]. intros _. left. split_and!; try done. by left.
  - intros _. exists []. cbn [new_client pending_querybuf fed read_reploff reploff app]. rewrite zlen_nil. split_and!; done || lia.
Qed.

Lemma new_client_idle {T} `{LT : QueryBufferLaws T} server (q p : T) f off :
  qb_rep q [] -> qb_rep p [] -> must_break server (new_client server q p f off) = false -> idle server (new_client server q p f off) [] off.
Proof.
  intros Hq Hp Hbr. split; [done|]. split; [|by apply new_client_resting]. left. split_and!; try done; [by exists []|by left].
Qed.

Lemma resp_fed {T} `{LT : QueryBufferLaws T} server processCommand (c : client T) s r0 cmds reads :
  env_ok server processCommand -> keeps_master processCommand -> idle server c s r0 ->
  concat (map read_bytes reads) = enc_cmds cmds -> Forall good_read reads -> admissible server processCommand c reads ->
  Forall (cmd_fits server) cmds -> benign_run processCommand (executed c) cmds ->
  zlen (enc_cmds cmds) <= client_max_querybuf_len server -> zlen (s ++ enc_cmds cmds) < 2 ^ 61 ->
  exists c', feed server processCommand c reads = Some c' /\ idle server c' (s ++ enc_cmds cmds) r0 /\
    executed c' = executed c ++ cmds /\ errors c' = errors c /\
    (CLIENT_MASTER (flags c) = true -> fed c = s -> CLIENT_MULTI (flags c') = false ->
     reploff c' = read_reploff c' /\ fed c' = s ++ enc_cmds cmds).
Proof.
  intros Henv Hk (Hq & Hst & Hrest) Hch Hgood Hadm Hfit Hben Hmax Hs. assert (resp_state c [] (concat (map read_bytes reads)) cmds) as Hst'.
  { rewrite Hch. destruct Hst as [(? & ? & ? & ? & _ & [?|[_ ?]])|(? & ? & ? & _)]; [|done..]. left. split_and!; try done. by left. }
  destruct (feed_resp server processCommand reads c [] s r0 cmds Henv Hrest Hk Hst' Hq Hfit Hben Hgood Hadm Hmax ltac:(by rewrite Hch) ltac:(done))
    as (c' & Hf & Hst2 & Hq' & Hrest' & Hex & Her & Hma & Hsy).
  rewrite Hch in *. exists c'. split; [done|]. split; [done|]. split; [done|]. split; [done|]. intros Hm Hfd Hnm.
  destruct Hrest' as (_ & _ & Hl'). destruct Hrest as (_ & _ & Hl). unfold synced in Hsy. rewrite Hma, Hm in Hsy.
  destruct (Hl Hm) as (ps & _ & Eps & R1 & R2 & _). rewrite Hfd in *.
  destruct (Hl' ltac:(by rewrite Hma)) as (ps' & _ & Eps' & R3 & R4 & _).
  assert (reploff c' = read_reploff c') as Heq by (rewrite Hsy; [change (enc_cmds []) with (@nil Z); lia|intros _ _; lia|done|done]).
  split; [done|]. rewrite <- Eps' in R3 |- *. rewrite zlen_app in R3. destruct ps' as [|b ps']; [by rewrite app_nil_r|].
  rewrite zlen_cons in R3. pose proof (zlen_nonneg ps'). lia.
Qed.

(** C7 A pipeline of RESP commands is executed exactly once each, in order and
    with the arguments that were sent, however the network cuts the bytes into
    reads: an idle client to which the encoding of [cmds] is delivered in any
    non-empty pieces, with any spurious wake-ups between them, ends idle,
    having executed [cmds] and nothing else, with no protocol error.  If the
    client is the link to a master and is not left inside a transaction,
    everything it sent has then been applied and forwarded to the
    sub-replicas.  The arguments are within the configured limits, the whole
    pipeline is no longer than the limit of the query buffer, and when its
    turn comes each command is executed without closing, freeing or blocking
    the client (so QUIT or BLPOP on an empty list end the pipeline considered
    here).  The command layer keeps the contract in the comment of
    [processCommand] and does not free the link to the master. *)
Theorem resp_commands_executed {T} `{LT : QueryBufferLaws T} server processCommand (c : client T) s r0 cmds reads :
  env_ok server processCommand -> keeps_master processCommand -> idle server c s r0 ->
  concat (map read_bytes reads) = enc_cmds cmds -> Forall good_read reads -> admissible server processCommand c reads ->
  Forall (cmd_fits server) cmds -> benign_run processCommand (executed c) cmds ->
  zlen (enc_cmds cmds) <= client_max_querybuf_len server -> zlen (s ++ enc_cmds cmds) < 2 ^ 61 ->
  exists c', feed server processCommand c reads = Some c' /\ idle server c' (s ++ enc_cmds cmds) r0 /\
    executed c' = executed c ++ cmds /\ errors c' = errors c /\
    (CLIENT_MASTER (flags c) = true -> fed c = s -> CLIENT_MULTI (flags c') = false ->
     reploff c' = read_reploff c' /\ fed c' = s ++ enc_cmds cmds).
Proof. apply resp_fed. Qed.

Definition demo_server : server_state := mk_server false false (512 * 1024 * 1024) (1024 * 1024 * 1024) 100.
Definition demo_flags (master : bool) : client_flags := mk_flags false master false false false false false false false.
(** MULTI opens a transaction, EXEC closes it. *)
Definition demo_command (c : client sds) : cmd_effect :=
  let multi := if bool_decide (argv c = [[77; 85; 76; 84; 73]]) then true
               else if bool_decide (argv c = [[69; 88; 69; 67]]) then false else CLIENT_MULTI (flags c) in
  mk_effect true multi false false false false false.
Definition demo_empty : sds := default (mk_sds 0 0 0 []) (sdsempty (fun _ => 0)).
Definition demo_client (master : bool) : client sds := new_client demo_server demo_empty demo_empty (demo_flags master) 7.
Definition demo_cmds : list (list (list Z)) := 
  [[[83; 69; 84]; [107]; [13; 10; 0; 42]]; [[77; 85; 76; 84; 73]]; [[68; 69; 76]; []]; [[69; 88; 69; 67]]; [[80; 73; 78; 71]]].
Definition demo_reads : list read_result :=
  let e := enc_cmds demo_cmds in
  RD_DATA (take 3 e) :: RD_AGAIN :: RD_DATA (take 14 (drop 3 e)) :: map (fun b => RD_DATA [b]) (drop 17 e).

Lemma demo_empty_rep : @qb_rep sds _ (sds_buffer_laws (fun _ => 0)) demo_empty [].
Proof. destruct (sdsempty_spec (fun _ => 0)) as (s & E & Hrep). unfold demo_empty. by rewrite E. Qed.

Lemma resp_commands_executed_witness :
  let QB := sds_buffer (fun _ => 0) in let LT := sds_buffer_laws (fun _ => 0) in
  exists c', feed demo_server demo_command (demo_client true) demo_reads = Some c' /\
    executed c' = demo_cmds /\ reploff c' = read_reploff c' /\ fed c' = enc_cmds demo_cmds.
Proof.
  intros QB LT.
  destruct (resp_commands_executed demo_server demo_command (demo_client true) [] 7 demo_cmds demo_reads) as (c' & Hf & _ & Hex & _ & Hro).
  - split; [intros c; reflexivity|split; reflexivity].
  - intros c _. reflexivity.
  - apply new_client_idle; [apply demo_empty_rep|apply demo_empty_rep|reflexivity].
  - vm_compute. reflexivity.
  - vm_compute. repeat (constructor; [first [left; reflexivity|right; eexists _, _; reflexivity]|]). constructor.
  - vm_compute. repeat split; discriminate.
  - repeat constructor; vm_compute; discriminate.
  - intros done args todo c _ _ _. repeat constructor.
  - vm_compute. discriminate.
  - vm_compute. reflexivity.
  - assert ((fun c => CLIENT_MULTI (flags c)) <$> feed demo_server demo_command (demo_client true) demo_reads = Some false) as Em by (vm_compute; reflexivity).
    rewrite Hf in Em. injection Em as Em. exists c'. split; [exact Hf|]. split; [exact Hex|]. apply Hro; [reflexivity|reflexivity|exact Em].
Defined.

(** C18 Whatever bytes a client sends, in whatever pieces: reading and
    processing them never reads outside the query buffer or the buffer of
    pending bytes, never writes outside [argv], never fails an assertion or
    meets an unknown request type, and always ends (the loop on the buffer
    consumes at least a byte per request); a client that was not freed is left
    with the buffer trimmed and a valid parse state.  For the link to a
    master, the bytes forwarded to the sub-replicas are exactly the bytes
    received up to the applied offset.  Once a protocol error has marked the
    client for closing, nothing more of its input is executed or reported.
    Assumed: the command layer keeps the contract in the comment of
    [processCommand] ([C_OK]: the client is still valid; [C_ERR]: it is closed
    or freed) and never frees the link to the master while it is reading from
    it.  REPLICAOF received over that link breaks this
    ([master_link_freed]).
    The limits of the configuration are below 2^60 and 2^59 bytes, and less
    than 2^61 bytes are received. *)
Theorem request_input_safe {T} `{LT : QueryBufferLaws T} server processCommand (c : client T) u s r0 reads :
  env_ok server processCommand -> keeps_master processCommand -> alive c = true -> resting c u s r0 ->
  admissible server processCommand c reads -> zlen (s ++ concat (map read_bytes reads)) < 2 ^ 61 ->
  exists c', feed server processCommand c reads = Some c' /\
    (alive c' = true -> exists u', resting c' u' (s ++ concat (map read_bytes reads)) r0) /\
    (CLIENT_CLOSE_AFTER_REPLY (flags c) = true -> executed c' = executed c /\ errors c' = errors c).
Proof.
  intros Henv Hk Hal Hrest Hadm Hs. destruct (feed_safe server processCommand reads c u s r0 Henv Hrest Hal Hk Hadm Hs) as (c' & Hf & Hc').
  exists c'. split; [done|]. split; [by intros Ha; apply Hc'|]. intros Hcl. by apply (closed_feed server processCommand reads c c').
Qed.

(** Inline commands, an unbalanced quote, and a request after it. *)
Definition demo_garbage : list read_result :=
  map RD_DATA [[71; 69; 84; 32]; [107; 13; 10; 42; 45; 49; 13; 10; 34; 97]; [10; 80; 73; 78; 71; 10]; [42; 49; 13; 10]].

Lemma request_input_safe_witness :
  let QB := sds_buffer (fun _ => 0) in let LT := sds_buffer_laws (fun _ => 0) in
  exists c', feed demo_server demo_command (demo_client false) demo_garbage = Some c' /\
    (alive c' = true -> qb_pos c' = 0) /\ executed c' = [[[71; 69; 84]; [107]]] /\ errors c' = [UnbalancedQuotes].
Proof.
  intros QB LT.
  destruct (request_input_safe demo_server demo_command (demo_client false) [] [] 7 demo_garbage) as (c' & Hf & Hok & _).
  - split; [intros c; reflexivity|split; reflexivity].
  - intros c _. reflexivity.
  - reflexivity.
  - apply new_client_resting; apply demo_empty_rep.
  - vm_compute. repeat split; discriminate.
  - vm_compute. reflexivity.
  - exists c'. split; [exact Hf|]. split; [intros Ha; destruct (Hok Ha) as (u & Hr); apply Hr|].
    assert (executed <$> feed demo_server demo_command (demo_client false) demo_garbage = Some [[[71; 69; 84]; [107]]]) as E1 by (vm_compute; reflexivity).
    assert (errors <$> feed demo_server demo_command (demo_client false) demo_garbage = Some [UnbalancedQuotes]) as E2 by (vm_compute; reflexivity).
    rewrite Hf in E1, E2. injection E1 as E1. injection E2 as E2. split; [exact E1|exact E2].
Defined.

(** A command that frees the link to the master it came over and returns
    [C_OK], as REPLICAOF NO ONE does, has the loop use a freed client. *)
Lemma master_link_freed :
  let QB := sds_buffer (fun _ => 0) in
  feed demo_server (fun _ => mk_effect true false false false false false true) (demo_client true) [RD_DATA [80; 73; 78; 71; 10]] = None.
Proof. vm_compute. reflexivity. Qed.
