(* ===== verification/Replies.v ===== *)
(** * Replies ([networking.c])

    The output half of a client: the static buffer and the list of reply
    blocks that hold what is to be sent, the functions that append replies in
    the wire format, the placeholders for array lengths that are filled later,
    the limits on the memory used, and the write path that sends the buffers
    in as many pieces as the socket accepts.

    A node of the reply list is a pair of its address and its value, [None]
    for the NULL placeholder of [addDeferredMultiBulkLength].  The list
    operations themselves are those of [Adlist].  [zmalloc_usable] is the
    allocator's; [None] as a result stands for a failed assertion, a NULL
    dereference or an access outside a buffer. *)

From S2P Require Import Prelude Numstr Networking.
From stdpp Require Import options.

Definition PROTO_REPLY_CHUNK_BYTES : Z := 16 * 1024.
Definition NET_MAX_WRITES_PER_EVENT : Z := 1024 * 64.
Definition OBJ_SHARED_BULKHDR_LEN : Z := 32.
Definition CLIENT_TYPE_NORMAL : Z := 0.
Definition CLIENT_TYPE_SLAVE : Z := 1.
Definition CLIENT_TYPE_PUBSUB : Z := 2.
Definition CLIENT_TYPE_MASTER : Z := 3.
Definition REPL_STATE_NONE : Z := 0.
Definition SLAVE_STATE_ONLINE : Z := 9.
Definition SIZE_MAX : Z := 2 ^ 64 - 1.
Definition sizeof_clientReplyBlock : Z := 16.
Definition sizeof_listNode : Z := 24.

Record clientReplyBlock := mk_block { blk_size : Z; blk_used : Z; blk_buf : list Z }.

(** The flags that the output functions only read. *)
Record out_flags := mk_out_flags {
  CLIENT_LUA : bool; CLIENT_MODULE : bool; CLIENT_REPLY_OFF : bool; CLIENT_REPLY_SKIP : bool;
  CLIENT_MASTER : bool; CLIENT_MASTER_FORCE_REPLY : bool; CLIENT_SLAVE : bool; CLIENT_MONITOR : bool;
  CLIENT_PUBSUB : bool; CLIENT_CLOSE_AFTER_REPLY : bool;
}.

(** What does not change while replies are produced and sent. *)
Record out_config := mk_config { oflags : out_flags; fd : Z; replstate : Z; repl_put_online_on_ack : bool }.

Abbreviation node := (Z * option clientReplyBlock)%type.

Record out_client := mk_out {
  config : out_config;
  CLIENT_CLOSE_ASAP : bool;
  CLIENT_PENDING_WRITE : bool;
  CLIENT_PROTECTED : bool;
  write_handler : bool;              (* an AE_WRITABLE event is installed *)
  buf : list Z;
  bufpos : Z;
  sentlen : Z;
  reply : list node;
  next_node : Z;                     (* address of the next list node *)
  reply_bytes : Z;
  obuf_soft_limit_reached_time : Z;
  out_lastinteraction : Z;
  valid : bool;                      (* false once freed *)
}.

Record clientBufferLimitsConfig := mk_limits {
  hard_limit_bytes : Z; soft_limit_bytes : Z; soft_limit_seconds : Z;
}.

Record out_server := mk_out_server {
  client_obuf_limits : Z -> clientBufferLimitsConfig;
  out_unixtime : Z;
  maxmemory : Z;
  zmalloc_used_memory : Z;
}.

Section Output.
Context (server : out_server) (zmalloc_usable : Z -> Z) (junk : nat -> Z).

Definition set_buf (c : out_client) (b : list Z) (pos sent : Z) : out_client :=
  mk_out (config c) (CLIENT_CLOSE_ASAP c) (CLIENT_PENDING_WRITE c) (CLIENT_PROTECTED c) (write_handler c) b pos sent
    (reply c) (next_node c) (reply_bytes c) (obuf_soft_limit_reached_time c) (out_lastinteraction c) (valid c).
Definition set_reply (c : out_client) (l : list node) (next bytes : Z) : out_client :=
  mk_out (config c) (CLIENT_CLOSE_ASAP c) (CLIENT_PENDING_WRITE c) (CLIENT_PROTECTED c) (write_handler c) (buf c) (bufpos c)
    (sentlen c) l next bytes (obuf_soft_limit_reached_time c) (out_lastinteraction c) (valid c).
Definition set_state (c : out_client) (asap pending prot handler : bool) (soft last : Z) (v : bool) : out_client :=
  mk_out (config c) asap pending prot handler (buf c) (bufpos c) (sentlen c) (reply c) (next_node c) (reply_bytes c) soft last v.

Definition oflag (c : out_client) (f : out_flags -> bool) : bool := f (oflags (config c)).

Definition clientHasPendingReplies (c : out_client) : bool := negb (bufpos c =? 0) || negb (zlen (reply c) =? 0).

(** A replica that is not online yet accumulates its replies. *)
Definition clientInstallWriteHandler (c : out_client) : out_client :=
  if negb (CLIENT_PENDING_WRITE c) &&
     ((replstate (config c) =? REPL_STATE_NONE) ||
      ((replstate (config c) =? SLAVE_STATE_ONLINE) && negb (repl_put_online_on_ack (config c))))
  then set_state c (CLIENT_CLOSE_ASAP c) true (CLIENT_PROTECTED c) (write_handler c) (obuf_soft_limit_reached_time c)
         (out_lastinteraction c) (valid c)
  else c.

Definition prepareClientToWrite (c : out_client) : out_client * rc :=
  if oflag c CLIENT_LUA || oflag c CLIENT_MODULE then (c, C_OK) else
  if oflag c CLIENT_REPLY_OFF || oflag c CLIENT_REPLY_SKIP then (c, C_ERR) else
  if oflag c CLIENT_MASTER && negb (oflag c CLIENT_MASTER_FORCE_REPLY) then (c, C_ERR) else
  if fd (config c) <=? 0 then (c, C_ERR) else
  ((if negb (clientHasPendingReplies c) then clientInstallWriteHandler c else c), C_OK).

(** ** Limits on the output buffers *)

Definition getClientOutputBufferMemoryUsage (c : out_client) : Z :=
  uwrap 64 (reply_bytes c + (sizeof_listNode + sizeof_clientReplyBlock) * zlen (reply c)).

Definition getClientType (c : out_client) : Z :=
  if oflag c CLIENT_MASTER then CLIENT_TYPE_MASTER else
  if oflag c CLIENT_SLAVE && negb (oflag c CLIENT_MONITOR) then CLIENT_TYPE_SLAVE else
  if oflag c CLIENT_PUBSUB then CLIENT_TYPE_PUBSUB else CLIENT_TYPE_NORMAL.

Definition checkClientOutputBufferLimits (c : out_client) : out_client * bool :=
  let used_mem := getClientOutputBufferMemoryUsage c in
  let class := getClientType c in
  let class := if class =? CLIENT_TYPE_MASTER then CLIENT_TYPE_NORMAL else class in
  let limits := client_obuf_limits server class in
  let hard := negb (hard_limit_bytes limits =? 0) && (used_mem >=? hard_limit_bytes limits) in
  let soft := negb (soft_limit_bytes limits =? 0) && (used_mem >=? soft_limit_bytes limits) in
  let set_time t := set_state c (CLIENT_CLOSE_ASAP c) (CLIENT_PENDING_WRITE c) (CLIENT_PROTECTED c) (write_handler c) t
                      (out_lastinteraction c) (valid c) in
  if soft then
    if obuf_soft_limit_reached_time c =? 0 then (set_time (out_unixtime server), hard)
    else
      let elapsed := out_unixtime server - obuf_soft_limit_reached_time c in
      (c, negb (elapsed <=? soft_limit_seconds limits) || hard)
  else (set_time 0, hard).

Definition freeClientAsync (c : out_client) : out_client :=
  if CLIENT_CLOSE_ASAP c || oflag c CLIENT_LUA then c
  else set_state c true (CLIENT_PENDING_WRITE c) (CLIENT_PROTECTED c) (write_handler c) (obuf_soft_limit_reached_time c)
         (out_lastinteraction c) (valid c).

Definition asyncCloseClientOnOutputBufferLimitReached (c : out_client) : option out_client :=
  if fd (config c) =? -1 then Some c else
  if negb (reply_bytes c <? SIZE_MAX - 1024 * 64) then None else
  if (reply_bytes c =? 0) || CLIENT_CLOSE_ASAP c then Some c else
  let '(c, reached) := checkClientOutputBufferLimits c in
  if reached then Some (freeClientAsync c) else Some c.

(** ** Appending bytes *)

Definition _addReplyToBuffer (c : out_client) (s : list Z) : option (out_client * rc) :=
  let available := uwrap 64 (PROTO_REPLY_CHUNK_BYTES - bufpos c) in
  if oflag c CLIENT_CLOSE_AFTER_REPLY then Some (c, C_OK) else
  if zlen (reply c) >? 0 then Some (c, C_ERR) else
  if zlen s >? available then Some (c, C_ERR) else
  b ← mwrite (buf c) (bufpos c) s;
  Some (set_buf c b (bufpos c + zlen s) (sentlen c), C_OK).

(** A block for [size] bytes holding [s]. *)
Definition new_block (size : Z) (s : list Z) : option clientReplyBlock :=
  let usable := uwrap 64 (zmalloc_usable (size + sizeof_clientReplyBlock) - sizeof_clientReplyBlock) in
  b ← mwrite (mrealloc junk [] usable) 0 s;
  Some (mk_block usable (zlen s) b).

(** The copy of a prefix of [s] into the last block, if there is one. *)
Definition fill_tail (c : out_client) (s : list Z) : option (out_client * list Z) :=
  match last (reply c) with
  | Some (n, Some tail) =>
    let avail := uwrap 64 (blk_size tail - blk_used tail) in
    let copy := if avail >=? zlen s then zlen s else avail in
    b ← mwrite (blk_buf tail) (blk_used tail) (take (Z.to_nat copy) s);
    let tail := mk_block (blk_size tail) (blk_used tail + copy) b in
    Some (set_reply c (take (length (reply c) - 1) (reply c) ++ [(n, Some tail)]) (next_node c) (reply_bytes c), drop (Z.to_nat copy) s)
  | _ => Some (c, s)
  end.

Definition _addReplyStringToList (c : out_client) (s : list Z) : option out_client :=
  if oflag c CLIENT_CLOSE_AFTER_REPLY then Some c else
  '(c, s) ← fill_tail c s;
  c ← (if negb (zlen s =? 0) then
         let size := if zlen s <? PROTO_REPLY_CHUNK_BYTES then PROTO_REPLY_CHUNK_BYTES else zlen s in
         tail ← new_block size s;
         Some (set_reply c (reply c ++ [(next_node c, Some tail)]) (next_node c + 1) (uwrap 64 (reply_bytes c + blk_size tail)))
       else Some c);
  asyncCloseClientOnOutputBufferLimitReached c.

(** The pair of calls made by every function that appends. *)
Definition add_bytes (c : out_client) (s : list Z) : option out_client :=
  '(c, r) ← _addReplyToBuffer c s;
  match r with C_OK => Some c | C_ERR => _addReplyStringToList c s end.

Definition addReplyString (c : out_client) (s : list Z) : option out_client :=
  match prepareClientToWrite c with
  | (c, C_OK) => add_bytes c s
  | (c, C_ERR) => Some c
  end.

Definition addReplySds (c : out_client) (s : list Z) : option out_client :=
  match prepareClientToWrite c with
  | (c, C_OK) => add_bytes c s
  | (c, C_ERR) => Some c
  end.

(** String objects: raw or embedded bytes, or an integer. *)
Inductive robj := OBJ_STR (s : list Z) | OBJ_INT (n : Z).

Definition addReply (c : out_client) (o : robj) : option out_client :=
  match prepareClientToWrite c with
  | (c, C_ERR) => Some c
  | (c, C_OK) =>
    match o with
    | OBJ_STR s => add_bytes c s
    | OBJ_INT n =>
      '(b, len) ← ll2string (mrealloc junk [] 32) 32 n;
      s ← mread b 0 len;
      add_bytes c s
    end
  end.

(** ** The wire format *)

Definition crlf : list Z := [13; 10].
(** [shared.mbulkhdr], [shared.bulkhdr]: tables of [OBJ_SHARED_BULKHDR_LEN] strings. *)
Definition shared_hdr (prefix j : Z) : option robj :=
  if (0 <=? j) && (j <? OBJ_SHARED_BULKHDR_LEN) then Some (OBJ_STR (prefix :: ld_text j ++ crlf)) else None.
Definition shared_crlf : robj := OBJ_STR crlf.
Definition shared_czero : robj := OBJ_STR (58 :: 48 :: crlf).
Definition shared_cone : robj := OBJ_STR (58 :: 49 :: crlf).
Definition shared_nullbulk : robj := OBJ_STR (36 :: 45 :: 49 :: crlf).

Definition addReplyErrorLength (c : out_client) (s : list Z) : option out_client :=
  c ← (if bool_decide (head s = Some 45) then Some c else addReplyString c [45; 69; 82; 82; 32]);
  c ← addReplyString c s;
  addReplyString c crlf.

Definition addReplyError (c : out_client) (err : list Z) : option out_client := addReplyErrorLength c err.

(** [s] is the formatted text. *)
Definition addReplyErrorFormat (c : out_client) (s : list Z) : option out_client :=
  addReplyErrorLength c (map (fun b => if (b =? 13) || (b =? 10) then 32 else b) s).

Definition addReplyStatusLength (c : out_client) (s : list Z) : option out_client :=
  c ← addReplyString c [43];
  c ← addReplyString c s;
  addReplyString c crlf.

Definition addReplyStatus (c : out_client) (s : list Z) : option out_client := addReplyStatusLength c s.

Definition addReplyLongLongWithPrefix (c : out_client) (ll prefix : Z) : option out_client :=
  if (prefix =? 42) && (ll <? OBJ_SHARED_BULKHDR_LEN) && (ll >=? 0) then o ← shared_hdr 42 ll; addReply c o else
  if (prefix =? 36) && (ll <? OBJ_SHARED_BULKHDR_LEN) && (ll >=? 0) then o ← shared_hdr 36 ll; addReply c o else
  let b := mrealloc junk [] 128 in
  b ← mwrite b 0 [prefix];
  '(digits, len) ← ll2string (drop 1 b) 127 ll;
  b ← mwrite b 1 digits;
  b ← mwrite b (len + 1) [13];
  b ← mwrite b (len + 2) [10];
  s ← mread b 0 (len + 3);
  addReplyString c s.

Definition addReplyLongLong (c : out_client) (ll : Z) : option out_client :=
  if ll =? 0 then addReply c shared_czero else
  if ll =? 1 then addReply c shared_cone else
  addReplyLongLongWithPrefix c ll 58.

(** The table is indexed without a test that the length is not negative. *)
Definition addReplyMultiBulkLen (c : out_client) (length : Z) : option out_client :=
  if length <? OBJ_SHARED_BULKHDR_LEN then o ← shared_hdr 42 length; addReply c o
  else addReplyLongLongWithPrefix c length 42.

(** [while((n = n/10) != 0) len++]. *)
Fixpoint count_digits (fuel : nat) (n len : Z) : option Z :=
  match fuel with
  | O => None
  | S fuel => let n := n ÷ 10 in if negb (n =? 0) then count_digits fuel n (len + 1) else Some len
  end.

(** The length of the text of an object; the negation of the smallest integer
    overflows. *)
Definition obj_text_len (o : robj) : option Z :=
  match o with
  | OBJ_STR s => Some (zlen s)
  | OBJ_INT n =>
    if n <? 0 then if n =? LONG_MIN then None else count_digits 20 (- n) 2
    else count_digits 20 n 1
  end.

Definition addReplyBulkLen (c : out_client) (o : robj) : option out_client :=
  len ← obj_text_len o;
  if len <? OBJ_SHARED_BULKHDR_LEN then h ← shared_hdr 36 len; addReply c h
  else addReplyLongLongWithPrefix c len 36.

Definition addReplyBulk (c : out_client) (o : robj) : option out_client :=
  c ← addReplyBulkLen c o;
  c ← addReply c o;
  addReply c shared_crlf.

Definition addReplyBulkCBuffer (c : out_client) (p : list Z) : option out_client :=
  c ← addReplyLongLongWithPrefix c (zlen p) 36;
  c ← addReplyString c p;
  addReply c shared_crlf.

Definition addReplyBulkSds (c : out_client) (s : list Z) : option out_client :=
  c ← addReplyLongLongWithPrefix c (zlen s) 36;
  c ← addReplySds c s;
  addReply c shared_crlf.

(** [None] is the NULL pointer. *)
Definition addReplyBulkCString (c : out_client) (s : option (list Z)) : option out_client :=
  match s with
  | None => addReply c shared_nullbulk
  | Some s => addReplyBulkCBuffer c s
  end.

Definition addReplyBulkLongLong (c : out_client) (ll : Z) : option out_client :=
  '(b, len) ← ll2string (mrealloc junk [] 64) 64 ll;
  s ← mread b 0 len;
  addReplyBulkCBuffer c s.

(** ** Deferred lengths *)

Definition addDeferredMultiBulkLength (c : out_client) : out_client * option Z :=
  match prepareClientToWrite c with
  | (c, C_ERR) => (c, None)
  | (c, C_OK) => (set_reply c (reply c ++ [(next_node c, None)]) (next_node c + 1) (reply_bytes c), Some (next_node c))
  end.

(** The node [id] with its neighbours. *)
Fixpoint find_node (id : Z) (l : list node) : option (list node * option clientReplyBlock * list node) :=
  match l with
  | [] => None
  | (n, v) :: l =>
    if n =? id then Some ([], v, l)
    else '(before, v', after) ← find_node id l; Some ((n, v) :: before, v', after)
  end.

(** Whether the text can be prefixed to the block that follows. *)
Definition can_glue (after : list node) (len : Z) : option (Z * clientReplyBlock) :=
  match after with
  | (n, Some next) :: _ =>
    if (uwrap 64 (blk_size next - blk_used next) >=? len) && (blk_used next <? PROTO_REPLY_CHUNK_BYTES * 4) then Some (n, next) else None
  | _ => None
  end.

Definition setDeferredMultiBulkLength (c : out_client) (nd : option Z) (length : Z) : option out_client :=
  let lenstr := 42 :: ld_text length ++ crlf in
  match nd with
  | None => Some c
  | Some id =>
    '(before, v, after) ← find_node id (reply c);
    match v with
    | Some _ => None
    | None =>
      c ← match can_glue after (zlen lenstr) with
          | Some (n, next) =>
            b ← mmove (blk_buf next) (zlen lenstr) 0 (blk_used next);
            b ← mwrite b 0 lenstr;
            let next := mk_block (blk_size next) (blk_used next + zlen lenstr) b in
            Some (set_reply c (before ++ (n, Some next) :: tail after) (next_node c) (reply_bytes c))
          | None =>
            blk ← new_block (zlen lenstr) lenstr;
            Some (set_reply c (before ++ (id, Some blk) :: after) (next_node c) (uwrap 64 (reply_bytes c + blk_size blk)))
          end;
      asyncCloseClientOnOutputBufferLimitReached c
    end
  end.

(** The help text of a command with subcommands: a heading (formatted from the
    command name) and the lines of the table. *)
Fixpoint add_statuses (c : out_client) (help : list (list Z)) : option out_client :=
  match help with
  | [] => Some c
  | h :: help => c ← addReplyStatus c h; add_statuses c help
  end.

Definition addReplyHelp (c : out_client) (heading : list Z) (help : list (list Z)) : option out_client :=
  let '(c, blenp) := addDeferredMultiBulkLength c in
  c ← addReplyStatus c heading;
  c ← add_statuses c help;
  setDeferredMultiBulkLength c blenp (zlen help + 1).

(** ** Moving replies between clients *)

(** Returns the two clients, [dst] and [src]. *)
Definition AddReplyFromClient (dst src : out_client) : option (out_client * out_client) :=
  match prepareClientToWrite dst with
  | (dst, C_ERR) => Some (dst, src)
  | (dst, C_OK) =>
    s ← mread (buf src) 0 (bufpos src);
    dst ← addReplyString dst s;
    let next := Z.max (next_node dst) (next_node src) in
    Some (set_reply dst (reply dst ++ reply src) next (uwrap 64 (reply_bytes dst + reply_bytes src)),
          set_buf (set_reply src [] (next_node src) 0) (buf src) 0 (sentlen src))
  end.

(** [listDup] with [dupClientReplyValue], which reads through the value. *)
Fixpoint dup_nodes (next : Z) (l : list node) : option (list node) :=
  match l with
  | [] => Some []
  | (_, None) :: _ => None
  | (_, Some b) :: l => l' ← dup_nodes (next + 1) l; Some ((next, Some b) :: l')
  end.

Definition copyClientOutputBuffer (dst src : out_client) : option out_client :=
  l ← dup_nodes (next_node dst) (reply src);
  s ← mread (buf src) 0 (bufpos src);
  b ← mwrite (buf dst) 0 s;
  Some (set_buf (set_reply dst l (next_node dst + zlen l) (reply_bytes src)) b (bufpos src) 0).

(** ** Writing to the socket *)

(** What the socket does with a [write(2)]: it has no room, it fails, or it
    has room for [n] bytes. *)
Inductive write_result := WR_AGAIN | WR_ERROR | WR_ROOM (n : Z).

Definition write_limit (c : out_client) (totwritten : Z) : bool :=
  (totwritten >? NET_MAX_WRITES_PER_EVENT) &&
  ((maxmemory server =? 0) || (zmalloc_used_memory server <? maxmemory server)) &&
  negb (oflag c CLIENT_SLAVE).

(** [while(clientHasPendingReplies(c))]: the client, whether an error was met,
    and the bytes accepted by the socket. *)
Fixpoint write_loop (fuel : nat) (ws : list write_result) (c : out_client) (sent : list Z) : option (out_client * bool * list Z) :=
  if negb (clientHasPendingReplies c) then Some (c, false, sent) else
  match fuel with
  | O => None
  | S fuel =>
    if bufpos c >? 0 then
      data ← mread (buf c) (sentlen c) (uwrap 64 (bufpos c - sentlen c));
      match ws with
      | [] | WR_AGAIN :: _ => Some (c, false, sent)
      | WR_ERROR :: _ => Some (c, true, sent)
      | WR_ROOM n :: ws =>
        let nwritten := Z.min n (zlen data) in
        if nwritten <=? 0 then Some (c, false, sent) else
        let sent := sent ++ take (Z.to_nat nwritten) data in
        let c := set_buf c (buf c) (bufpos c) (sentlen c + nwritten) in
        let c := if sentlen c =? bufpos c then set_buf c (buf c) 0 0 else c in
        if write_limit c (zlen sent) then Some (c, false, sent) else write_loop fuel ws c sent
      end
    else
      match reply c with
      | (_, Some o) :: rest =>
        let drop_head c := set_reply c rest (next_node c) (uwrap 64 (reply_bytes c - blk_size o)) in
        if blk_used o =? 0 then write_loop fuel ws (drop_head c) sent else
        data ← mread (blk_buf o) (sentlen c) (uwrap 64 (blk_used o - sentlen c));
        match ws with
        | [] | WR_AGAIN :: _ => Some (c, false, sent)
        | WR_ERROR :: _ => Some (c, true, sent)
        | WR_ROOM n :: ws =>
          let nwritten := Z.min n (zlen data) in
          if nwritten <=? 0 then Some (c, false, sent) else
          let sent := sent ++ take (Z.to_nat nwritten) data in
          let c := set_buf c (buf c) (bufpos c) (sentlen c + nwritten) in
          c ← (if sentlen c =? blk_used o then
                 let c := drop_head (set_buf c (buf c) (bufpos c) 0) in
                 if (zlen (reply c) =? 0) && negb (reply_bytes c =? 0) then None else Some c
               else Some c);
          if write_limit c (zlen sent) then Some (c, false, sent) else write_loop fuel ws c sent
        end
      | _ => None
      end
  end.

Definition pending_len (c : out_client) : Z :=
  bufpos c + foldr Z.add 0 (map (fun nd => match snd nd with Some b => blk_used b + 1 | None => 1 end) (reply c)).

Definition free_out (c : out_client) : out_client :=
  set_state c (CLIENT_CLOSE_ASAP c) (CLIENT_PENDING_WRITE c) (CLIENT_PROTECTED c) (write_handler c)
    (obuf_soft_limit_reached_time c) (out_lastinteraction c) false.

(** The client, the result and the bytes sent. *)
Definition writeToClient (c : out_client) (handler_installed : bool) (ws : list write_result) : option (out_client * rc * list Z) :=
  '(c, error, sent) ← write_loop (Z.to_nat (pending_len c)) ws c [];
  if (error : bool) then Some (free_out c, C_ERR, sent) else
  let c := if (zlen sent >? 0) && negb (oflag c CLIENT_MASTER)
           then set_state c (CLIENT_CLOSE_ASAP c) (CLIENT_PENDING_WRITE c) (CLIENT_PROTECTED c) (write_handler c)
                  (obuf_soft_limit_reached_time c) (out_unixtime server) (valid c) else c in
  if negb (clientHasPendingReplies c) then
    let c := set_buf c (buf c) (bufpos c) 0 in
    let c := if handler_installed
             then set_state c (CLIENT_CLOSE_ASAP c) (CLIENT_PENDING_WRITE c) (CLIENT_PROTECTED c) false
                    (obuf_soft_limit_reached_time c) (out_lastinteraction c) (valid c) else c in
    if oflag c CLIENT_CLOSE_AFTER_REPLY then Some (free_out c, C_ERR, sent) else Some (c, C_OK, sent)
  else Some (c, C_OK, sent).

Definition sendReplyToClient (c : out_client) (ws : list write_result) : option (out_client * list Z) :=
  '(c, _, sent) ← writeToClient c true ws; Some (c, sent).

(** The body of the loop of [handleClientsWithPendingWrites] for a client taken
    from the queue; [installed] is the result of [aeCreateFileEvent]. *)
Definition handlePendingWrite (c : out_client) (ws : list write_result) (installed : bool) : option (out_client * list Z) :=
  let set_handler (c : out_client) (pending handler : bool) :=
    set_state c (CLIENT_CLOSE_ASAP c) pending (CLIENT_PROTECTED c) handler (obuf_soft_limit_reached_time c) (out_lastinteraction c) (valid c) in
  let c := set_handler c false (write_handler c) in
  if CLIENT_PROTECTED c then Some (c, []) else
  '(c, r, sent) ← writeToClient c false ws;
  match r with
  | C_ERR => Some (c, sent)
  | C_OK =>
    if clientHasPendingReplies c then
      Some ((if (installed : bool) then set_handler c (CLIENT_PENDING_WRITE c) true else freeClientAsync c), sent)
    else Some (c, sent)
  end.

Definition protectClient (c : out_client) : out_client :=
  set_state c (CLIENT_CLOSE_ASAP c) (CLIENT_PENDING_WRITE c) true false (obuf_soft_limit_reached_time c) (out_lastinteraction c) (valid c).

Definition unprotectClient (c : out_client) : out_client :=
  if CLIENT_PROTECTED c then
    let c := set_state c (CLIENT_CLOSE_ASAP c) (CLIENT_PENDING_WRITE c) false (write_handler c) (obuf_soft_limit_reached_time c)
               (out_lastinteraction c) (valid c) in
    if clientHasPendingReplies c then clientInstallWriteHandler c else c
  else c.

End Output.

(** * What the buffers hold

    The pending output as a sequence of bytes and of places to be filled. *)

Inductive symbol := Byte (b : Z) | Hole (id : Z).

Definition node_syms (nd : node) : list symbol :=
  match snd nd with
  | Some b => map Byte (take (Z.to_nat (blk_used b)) (blk_buf b))
  | None => [Hole (fst nd)]
  end.

Definition list_syms (l : list node) : list symbol := concat (map node_syms l).

Definition raw (c : out_client) : list symbol := map Byte (take (Z.to_nat (bufpos c)) (buf c)) ++ list_syms (reply c).

(** What is still to be sent. *)
Definition flat (c : out_client) : list symbol := drop (Z.to_nat (sentlen c)) (raw c).

Definition sizes (l : list node) : Z := foldr Z.add 0 (map (fun nd => match snd nd with Some b => blk_size b | None => 0 end) l).

Definition block_ok (b : clientReplyBlock) : Prop := 0 < blk_used b <= blk_size b /\ zlen (blk_buf b) = blk_size b /\ blk_size b < 2 ^ 63.
Definition node_ok (nd : node) : Prop := match snd nd with Some b => block_ok b | None => True end.

(** The chunk that is being sent. *)
Definition head_len (c : out_client) : Z :=
  if bufpos c >? 0 then bufpos c else match reply c with (_, Some b) :: _ => blk_used b | _ => 0 end.

Definition list_ok (l : list node) (next : Z) : Prop :=
  Forall node_ok l /\ NoDup (map fst l) /\ Forall (fun nd => fst nd < next) l.

Definition out_ok (c : out_client) : Prop :=
  zlen (buf c) = PROTO_REPLY_CHUNK_BYTES /\ 0 <= bufpos c <= PROTO_REPLY_CHUNK_BYTES /\ list_ok (reply c) (next_node c) /\
  reply_bytes c = sizes (reply c) /\ 0 <= sentlen c /\ (sentlen c = 0 \/ sentlen c < head_len c).

(** Whether the client takes replies, and drops them while it is being closed. *)
Definition writable (k : out_config) : bool :=
  CLIENT_LUA (oflags k) || CLIENT_MODULE (oflags k) ||
  negb (CLIENT_REPLY_OFF (oflags k) || CLIENT_REPLY_SKIP (oflags k)) &&
  negb (CLIENT_MASTER (oflags k) && negb (CLIENT_MASTER_FORCE_REPLY (oflags k))) && (0 <? fd k).
Definition accepts (k : out_config) : bool := writable k && negb (CLIENT_CLOSE_AFTER_REPLY (oflags k)).

(** A connected client whose replies may be sent now. *)
Definition sends (k : out_config) : bool :=
  negb (CLIENT_LUA (oflags k) || CLIENT_MODULE (oflags k)) &&
  ((replstate k =? REPL_STATE_NONE) || ((replstate k =? SLAVE_STATE_ONLINE) && negb (repl_put_online_on_ack k))).

(** Something will make the server write to the client: it is in the queue of
    pending writes or has a write event, unless it is being freed or kept from
    all events. *)
Definition wired (c : out_client) : Prop :=
  sends (config c) = true -> CLIENT_PENDING_WRITE c || write_handler c || CLIENT_CLOSE_ASAP c || CLIENT_PROTECTED c = true.
Definition armed (c : out_client) : Prop := clientHasPendingReplies c = true -> wired c.

(** Only events, limits and times changed. *)
Definition same_out (c c' : out_client) : Prop :=
  config c' = config c /\ valid c' = valid c /\ buf c' = buf c /\ bufpos c' = bufpos c /\ sentlen c' = sentlen c /\
  reply c' = reply c /\ next_node c' = next_node c /\ reply_bytes c' = reply_bytes c.

Lemma same_out_ok c c' : same_out c c' -> out_ok c -> out_ok c' /\ raw c' = raw c.
Proof.
  intros (_ & _ & E1 & E2 & E3 & E4 & E5 & E6). unfold out_ok, raw, head_len. by rewrite E1, E2, E3, E4, E5, E6.
Qed.

(** The symbols [s] were put behind the others, with at most [k] bytes of new
    blocks. *)
Definition pushed (k : Z) (s : list symbol) (c c' : out_client) : Prop :=
  config c' = config c /\ valid c' = valid c /\ out_ok c' /\ raw c' = raw c ++ s /\ sentlen c' = sentlen c /\
  sizes (reply c') <= sizes (reply c) + k /\ next_node c <= next_node c' /\ (wired c -> wired c').

(** ... by a function that prepares the client first. *)
Definition appended (k : Z) (s : list symbol) (c c' : out_client) : Prop := pushed k s c c' /\ (armed c -> armed c').

Lemma pushed_trans k1 k2 s1 s2 c1 c2 c3 : pushed k1 s1 c1 c2 -> pushed k2 s2 c2 c3 -> pushed (k1 + k2) (s1 ++ s2) c1 c3.
Proof.
  intros (A1 & B1 & _ & R1 & S1 & Z1 & N1 & W1) (A2 & B2 & O2 & R2 & S2 & Z2 & N2 & W2). unfold pushed.
  rewrite A2, A1, B2, B1, R2, R1, S2, S1, app_assoc. split_and!; try done; [lia|lia|auto].
Qed.

Lemma appended_trans k1 k2 s1 s2 c1 c2 c3 : appended k1 s1 c1 c2 -> appended k2 s2 c2 c3 -> appended (k1 + k2) (s1 ++ s2) c1 c3.
Proof. intros [P1 A1] [P2 A2]. split; [by eapply pushed_trans|auto]. Qed.

Lemma same_out_pushed c c' : same_out c c' -> (wired c -> wired c') -> out_ok c -> pushed 0 [] c c'.
Proof.
  intros Hs Hw Hok. destruct (same_out_ok c c' Hs Hok) as [Hok' Hr]. destruct Hs as (A & B & _ & _ & S & R & N & _).
  unfold pushed. rewrite Hr, R, N, app_nil_r. split_and!; try done; lia.
Qed.

Lemma pushed_le k k' s c c' : pushed k s c c' -> k <= k' -> pushed k' s c c'.
Proof. intros (A & B & C & D & E & F & G & H) Hk. unfold pushed. split_and!; try done; lia. Qed.

Lemma list_syms_app l1 l2 : list_syms (l1 ++ l2) = list_syms l1 ++ list_syms l2.
Proof. unfold list_syms. by rewrite map_app, concat_app. Qed.

Lemma list_syms_one nd : list_syms [nd] = node_syms nd.
Proof. unfold list_syms. cbn. by rewrite app_nil_r. Qed.

Lemma sizes_app l1 l2 : sizes (l1 ++ l2) = sizes l1 + sizes l2.
Proof. unfold sizes. induction l1 as [|nd l1 IH]; cbn [app map foldr]; lia. Qed.

Lemma sizes_one nd : sizes [nd] = match snd nd with Some b => blk_size b | None => 0 end.
Proof. unfold sizes. cbn. lia. Qed.

Lemma sizes_nonneg l : Forall node_ok l -> 0 <= sizes l.
Proof.
  unfold sizes. induction 1 as [|[n [b|]] l Hnd _ IH]; cbn; try lia. destruct Hnd as (? & ? & ?). lia.
Qed.

Lemma zlen_map {A B} (f : A -> B) l : zlen (map f l) = zlen l.
Proof. unfold zlen. by rewrite length_map. Qed.

Lemma zlen_node n b : block_ok b -> zlen (node_syms (n, Some b)) = blk_used b.
Proof. intros (H1 & H2 & _). unfold node_syms. cbn [snd]. rewrite zlen_map, zlen_take. lia. Qed.

Lemma sent_in_raw c : out_ok c -> sentlen c <= zlen (raw c).
Proof.
  intros (Hb & Hp & (Hn & _) & _ & H0 & [->|Hs]); [apply zlen_nonneg|]. unfold raw, head_len in *. rewrite zlen_app, zlen_map, zlen_take.
  pose proof (zlen_nonneg (list_syms (reply c))). destruct (Z.gtb_spec (bufpos c) 0); [lia|].
  destruct (reply c) as [|[n [b|]] l]; [lia| |lia]. apply Forall_cons in Hn as [Hb' _].
  unfold list_syms. cbn [map concat]. rewrite zlen_app, zlen_node by done. pose proof (zlen_nonneg (concat (map node_syms l))). lia.
Qed.

Lemma pushed_flat k s c c' : pushed k s c c' -> out_ok c -> flat c' = flat c ++ s.
Proof.
  intros (_ & _ & _ & R & S & _) Hok. pose proof (sent_in_raw c Hok). unfold flat. rewrite R, S. apply drop_app_le. unfold zlen in *. lia.
Qed.

Section Append.
Context (server : out_server) (zmalloc_usable : Z -> Z) (junk : nat -> Z).
(** The allocator gives at least what was asked for, and not absurdly more. *)
Hypothesis allocator : forall n, 16 <= n -> n <= zmalloc_usable n <= 2 * n.
#[local] Set Default Proof Using "Type*".

(** ** Preparation and limits *)

Lemma prepare_spec c :
  exists c', prepareClientToWrite c = (c', if writable (config c) then C_OK else C_ERR) /\ same_out c c' /\
    (wired c -> wired c') /\ (armed c -> writable (config c) = true -> wired c').
Proof using Type.
  unfold prepareClientToWrite, writable, oflag. set (k := config c).
  assert (forall x, exists c', (c, x : rc) = (c', x) /\ same_out c c' /\ (wired c -> wired c')) as Hsame by (intros x; by exists c).
  destruct (CLIENT_LUA (oflags k) || CLIENT_MODULE (oflags k)) eqn:Hlm; cbn [orb].
  { exists c. split_and!; try done. intros _ _ Hs. unfold sends in Hs. fold k in Hs. by rewrite Hlm in Hs. }
  destruct (CLIENT_REPLY_OFF (oflags k) || CLIENT_REPLY_SKIP (oflags k)); cbn [negb andb]; [by exists c|].
  destruct (CLIENT_MASTER (oflags k) && negb (CLIENT_MASTER_FORCE_REPLY (oflags k))); cbn [negb andb]; [by exists c|].
  destruct (Z.leb_spec (fd k) 0); [exists c; rewrite (proj2 (Z.ltb_ge _ _)) by lia; done|]. rewrite (proj2 (Z.ltb_lt _ _)) by lia.
  destruct (clientHasPendingReplies c) eqn:Hp; cbn [negb]; [exists c; split_and!; try done; intros Ha _; by apply Ha|].
  eexists. split; [reflexivity|]. unfold clientInstallWriteHandler. fold k.
  destruct (CLIENT_PENDING_WRITE c) eqn:Hpw; cbn [negb andb].
  - split_and!; try done. intros _ _ _. by rewrite Hpw.
  - destruct ((replstate k =? REPL_STATE_NONE) || _) eqn:Hon; [split; [done|]; split; [intros _ _|intros _ _ _]; done|]. split; [done|]. split; [done|]. intros _ _ Hs.
    unfold sends in Hs. fold k in Hs. by rewrite Hlm, Hon in Hs.
Qed.

Lemma async_close_spec c :
  0 <= reply_bytes c < 2 ^ 63 ->
  exists c', asyncCloseClientOnOutputBufferLimitReached server c = Some c' /\ same_out c c' /\ (wired c -> wired c').
Proof using Type.
  intros Hrb. unfold asyncCloseClientOnOutputBufferLimitReached. destruct (fd (config c) =? -1); [by exists c|].
  rewrite (proj2 (Z.ltb_lt _ _)) by (unfold SIZE_MAX; lia). cbn [negb]. destruct ((reply_bytes c =? 0) || CLIENT_CLOSE_ASAP c); [by exists c|].
  destruct (checkClientOutputBufferLimits server c) as [c1 reached] eqn:E.
  assert (same_out c c1 /\ (wired c -> wired c1)) as [Hs Hw].
  { unfold checkClientOutputBufferLimits in E. cbv zeta in E. case_match; [case_match|]; simplify_eq; done. }
  assert (same_out c (freeClientAsync c1) /\ (wired c1 -> wired (freeClientAsync c1))) as [Hs' Hw'].
  { unfold freeClientAsync. case_match; [done|]. split; [done|]. intros _ _. cbn. by rewrite orb_true_r. }
  destruct reached; eexists; (split; [done|]); split; auto.
Qed.

Lemma new_block_spec size s :
  16 <= size + 16 -> zlen s <= size -> 0 < zlen s -> 2 * (size + 16) < 2 ^ 63 ->
  exists b, new_block zmalloc_usable junk size s = Some b /\ block_ok b /\ node_syms (0, Some b) = map Byte s /\
    size <= blk_size b <= 2 * (size + 16).
Proof.
  intros H0 Hs Hs0 Hmax. unfold new_block, sizeof_clientReplyBlock. destruct (allocator (size + 16) H0) as [Ha1 Ha2].
  rewrite uwrap_small by (unfold in_u; lia). set (u := zmalloc_usable _ - 16).
  destruct (split_len (mrealloc junk [] u) (zlen s) (u - zlen s)) as (x & y & E & Hx & Hy); [lia|lia|rewrite zlen_mrealloc; lia|].
  rewrite E, mwrite_front by done. cbn [mbind option_bind]. eexists. split; [done|]. unfold block_ok, node_syms. cbn.
  rewrite zlen_app. split_and!; try lia. unfold zlen. by rewrite Nat2Z.id, take_app_length.
Qed.

(** ** Appending bytes *)

Lemma last_split {A} (l : list A) x : last l = Some x -> l = take (length l - 1) l ++ [x].
Proof using Type.
  intros H. destruct l as [|a l _] using rev_ind; [done|]. rewrite last_snoc in H. injection H as ->.
  rewrite length_app. cbn [length]. replace (length l + 1 - 1)%nat with (length l) by lia. by rewrite take_app_length.
Qed.

(** Replacing the last block by one with more bytes in it. *)
Lemma grow_tail c l n b b' x :
  out_ok c -> reply c = l ++ [(n, Some b)] -> block_ok b' -> blk_size b' = blk_size b -> blk_used b <= blk_used b' ->
  node_syms (n, Some b') = node_syms (n, Some b) ++ x ->
  pushed 0 x c (set_reply c (l ++ [(n, Some b')]) (next_node c) (reply_bytes c)).
Proof using Type.
  intros (H1 & H2 & (Hn & Hd & Hlt) & Hrb & Hs0 & Hs) E Hb' Hsz Hu Hx. rewrite E in Hn, Hd, Hlt.
  apply Forall_app in Hn as [Hn _], Hlt as [Hlt Hltn]. unfold pushed, out_ok, list_ok, raw. cbn [config valid buf bufpos reply next_node reply_bytes sentlen set_reply].
  rewrite E in *. rewrite !list_syms_app, !list_syms_one, Hx, !sizes_app, !sizes_one in *. cbn [snd] in *. rewrite Hsz.
  rewrite !map_app in *. rewrite <- !app_assoc. split_and!; try done; try lia.
  - apply Forall_app. split; [done|]. by apply Forall_singleton.
  - apply Forall_app. split; [done|]. apply Forall_singleton. by rewrite Forall_singleton in Hltn.
  - unfold head_len in *. cbn [bufpos reply set_reply]. rewrite E in Hs. destruct Hs as [?|Hs]; [by left|right]. destruct (bufpos c >? 0); [done|].
    destruct l as [|[n0 [b0|]] l]; cbn [app] in *; lia.
Qed.

Lemma fill_tail_spec c s :
  out_ok c ->
  exists c1 s1 s2, fill_tail c s = Some (c1, s2) /\ s = s1 ++ s2 /\ pushed 0 (map Byte s1) c c1 /\ (reply c = [] -> c1 = c /\ s1 = []).
Proof using Type.
  intros Hok. unfold fill_tail. destruct (last (reply c)) as [[n [b|]]|] eqn:Hl.
  2,3: exists c, [], s; split_and!; try done; by apply same_out_pushed.
  apply last_split in Hl. set (l := take _ _) in Hl |- *. pose proof Hok as (_ & _ & (Hn & _) & _). rewrite Hl in Hn.
  apply Forall_app in Hn as [_ Hb]. rewrite Forall_singleton in Hb. pose proof Hb as (Hu & Hz & Hm). pose proof (zlen_nonneg s).
  rewrite uwrap_small by (unfold in_u; lia). set (copy := if _ >=? _ then _ else _).
  assert (0 <= copy <= zlen s /\ copy <= blk_size b - blk_used b) as Hc by (unfold copy; case_match; lia).
  destruct (split_len s copy (zlen s - copy)) as (s1 & s2 & -> & Hs1 & Hs2); [lia..|].
  destruct (split_len (blk_buf b) (blk_used b) (blk_size b - blk_used b)) as (x & y & Ex & Hx & Hy); [lia..|].
  destruct (split_len y copy (zlen y - copy)) as (y1 & y2 & -> & Hy1 & Hy2); [lia..|].
  rewrite <- Hs1. assert (Z.to_nat (zlen s1) = length s1) as En by (unfold zlen; lia). rewrite En, take_app_length, drop_app_length.
  rewrite Ex, (mwrite_off x y1 s1 y2) by lia. cbn [mbind option_bind].
  eexists _, s1, s2. split; [reflexivity|]. split; [done|]. split; [|intros E; by destruct l; rewrite E in Hl].
  assert (take (Z.to_nat (blk_used b)) (x ++ y1 ++ y2) = x) as Ht1 by (rewrite <- Hx; unfold zlen; by rewrite Nat2Z.id, take_app_length).
  assert (take (Z.to_nat (blk_used b + zlen s1)) (x ++ s1 ++ y2) = x ++ s1) as Ht2.
  { rewrite <- Hx, <- zlen_app, app_assoc. unfold zlen. by rewrite Nat2Z.id, take_app_length. }
  eapply (grow_tail c l n b); [done|done|..].
  - unfold block_ok. cbn [blk_used blk_size blk_buf]. rewrite !zlen_app in *. lia.
  - done.
  - cbn [blk_used]. pose proof (zlen_nonneg s1). lia.
  - unfold node_syms. cbn [snd blk_used blk_buf]. by rewrite Ex, Ht1, Ht2, map_app.
Qed.

(** A node put behind the others. *)
Lemma push_node c v x :
  out_ok c -> (match v with Some b => block_ok b | None => True end) -> node_syms (next_node c, v) = x ->
  let sz := match v with Some b => blk_size b | None => 0 end in
  sizes (reply c) + sz < 2 ^ 63 ->
  pushed sz x c (set_reply c (reply c ++ [(next_node c, v)]) (next_node c + 1) (uwrap 64 (reply_bytes c + sz))).
Proof using Type.
  intros (H1 & H2 & (Hn & Hd & Hlt) & Hrb & Hs0 & Hs) Hv Hx sz Hsz. pose proof (sizes_nonneg _ Hn).
  assert (0 <= sz) by (unfold sz; destruct v as [b|]; [destruct Hv as (? & ? & ?)|]; lia).
  unfold pushed, out_ok, list_ok, raw. cbn [config valid buf bufpos reply next_node reply_bytes sentlen set_reply].
  rewrite list_syms_app, list_syms_one, Hx, sizes_app, sizes_one, Hrb, map_app. cbn [snd]. fold sz. rewrite uwrap_small by width_lia.
  rewrite <- app_assoc. split_and!; try done; try lia.
  - apply Forall_app. split; [done|]. by apply Forall_singleton.
  - apply NoDup_app. split; [done|]. split; [|apply NoDup_singleton]. intros i Hi Hi'. apply list_elem_of_singleton in Hi' as ->.
    apply list_elem_of_fmap in Hi as ([i v'] & E & Hin). rewrite Forall_forall in Hlt. specialize (Hlt _ Hin). cbn in E, Hlt. rewrite E in Hlt. lia.
  - apply Forall_app. split; [|apply Forall_singleton; cbn; lia]. eapply Forall_impl; [exact Hlt|]. intros nd Hnd. cbn in Hnd. lia.
  - unfold head_len in *. cbn [bufpos reply set_reply]. destruct Hs as [?|Hs]; [by left|right]. destruct (bufpos c >? 0); [done|].
    destruct (reply c) as [|[n0 [b0|]] l]; cbn [app] in *; lia.
Qed.

Definition cost (s : list Z) : Z := 2 * (PROTO_REPLY_CHUNK_BYTES + zlen s + 16).

Definition tail_syms (k : out_config) (s : list Z) : list symbol := if CLIENT_CLOSE_AFTER_REPLY (oflags k) then [] else map Byte s.

Lemma add_to_list_spec c s :
  out_ok c -> sizes (reply c) + cost s < 2 ^ 63 ->
  exists c', _addReplyStringToList server zmalloc_usable junk c s = Some c' /\ pushed (cost s) (tail_syms (config c) s) c c'.
Proof.
  intros Hok Hc. pose proof (zlen_nonneg s). unfold _addReplyStringToList, tail_syms, oflag. unfold cost, PROTO_REPLY_CHUNK_BYTES in *. destruct (CLIENT_CLOSE_AFTER_REPLY _).
  { exists c. split; [done|]. eapply pushed_le; [by apply same_out_pushed|lia]. }
  destruct (fill_tail_spec c s Hok) as (c1 & s1 & s2 & -> & Es & Hp1 & _). cbn [mbind option_bind].
  pose proof Hp1 as (_ & _ & Hok1 & _ & _ & Hz1 & _). pose proof Hok1 as (_ & _ & (Hn1 & _) & Hrb1 & _). pose proof (sizes_nonneg _ Hn1).
  pose proof (zlen_nonneg s1). rewrite Es, zlen_app in *.
  assert (exists c2, (if negb (zlen s2 =? 0) then
         tail ← new_block zmalloc_usable junk (if zlen s2 <? 16 * 1024 then 16 * 1024 else zlen s2) s2;
         Some (set_reply c1 (reply c1 ++ [(next_node c1, Some tail)]) (next_node c1 + 1) (uwrap 64 (reply_bytes c1 + blk_size tail)))
       else Some c1) = Some c2 /\ pushed (2 * (16 * 1024 + (zlen s1 + zlen s2) + 16)) (map Byte s2) c1 c2) as (c2 & -> & Hp2).
  { destruct (Z.eqb_spec (zlen s2) 0) as [E0|E0]; cbn [negb].
    - exists c1. split; [done|]. destruct s2 as [|b s2]; [|rewrite zlen_cons in E0; pose proof (zlen_nonneg s2); lia].
      eapply pushed_le; [by apply same_out_pushed|lia].
    - set (size := if _ <? _ then _ else _). pose proof (zlen_nonneg s2).
      assert (zlen s2 <= size <= 16 * 1024 + zlen s2 /\ 16 * 1024 <= size) by (unfold size; case_match; lia).
      destruct (new_block_spec size s2) as (b & -> & Hb & Hsy & Hsz); [lia..|]. cbn [mbind option_bind]. eexists. split; [reflexivity|].
      eapply pushed_le; [apply (push_node c1 (Some b)); [done|done|exact Hsy|lia]|lia]. }
  cbn [mbind option_bind]. pose proof Hp2 as (_ & _ & Hok2 & _ & _ & Hz2 & _). pose proof Hok2 as (_ & _ & (Hn2 & _) & Hrb2 & _). pose proof (sizes_nonneg _ Hn2).
  destruct (async_close_spec c2) as (c3 & -> & Hs3 & Hw3); [rewrite Hrb2; lia|]. exists c3. split; [done|].
  eapply pushed_le; [|apply Z.le_refl]. replace (map Byte (s1 ++ s2)) with (map Byte s1 ++ map Byte s2 ++ []) by (by rewrite app_nil_r, map_app).
  rewrite <- (Z.add_0_l (2 * _)), <- (Z.add_0_r (2 * _)).
  eapply pushed_trans; [exact Hp1|]. eapply pushed_trans; [exact Hp2|]. by apply same_out_pushed.
Qed.

Lemma add_bytes_spec c s :
  out_ok c -> sizes (reply c) + cost s < 2 ^ 63 ->
  exists c', add_bytes server zmalloc_usable junk c s = Some c' /\ pushed (cost s) (tail_syms (config c) s) c c'.
Proof.
  intros Hok Hc. pose proof (zlen_nonneg s). pose proof Hok as (H1 & H2 & Hl & Hrb & Hs0 & Hs). unfold add_bytes, _addReplyToBuffer, oflag. cbv zeta.
  destruct (CLIENT_CLOSE_AFTER_REPLY _) eqn:Hcl.
  { cbn. exists c. split; [done|]. unfold tail_syms. rewrite Hcl. eapply pushed_le; [by apply same_out_pushed|]. unfold cost, PROTO_REPLY_CHUNK_BYTES. lia. }
  destruct (Z.gtb_spec (zlen (reply c)) 0) as [|Hl0]; [by apply add_to_list_spec|].
  assert (reply c = []) as Hnil by (destruct (reply c) as [|nd l]; [done|]; rewrite zlen_cons in Hl0; pose proof (zlen_nonneg l); lia).
  unfold PROTO_REPLY_CHUNK_BYTES in *. rewrite uwrap_small by width_lia.
  destruct (Z.gtb_spec (zlen s) (16 * 1024 - bufpos c)) as [|Hfit]; [by apply add_to_list_spec|]. cbn [mbind option_bind].
  destruct (split_len (buf c) (bufpos c) (zlen (buf c) - bufpos c)) as (x & y & Ex & Hx & Hy); [lia..|].
  destruct (split_len y (zlen s) (zlen y - zlen s)) as (y1 & y2 & -> & Hy1 & Hy2); [lia..|].
  rewrite Ex, (mwrite_off x y1 s y2) by lia. cbn [mbind option_bind]. eexists. split; [reflexivity|].
  unfold pushed, out_ok, list_ok, raw, tail_syms. cbn [config valid buf bufpos reply next_node reply_bytes sentlen set_buf]. rewrite Hcl, Hnil, Ex.
  rewrite <- Hx, <- zlen_app, (app_assoc x s). unfold zlen at 5 6. rewrite !Nat2Z.id, !take_app_length. rewrite Hnil in *. 
  rewrite !map_app. unfold list_syms. cbn [map concat]. rewrite !app_nil_r.
  rewrite !zlen_app in *. split_and!; try done; try lia.
  - unfold PROTO_REPLY_CHUNK_BYTES. lia.
  - unfold PROTO_REPLY_CHUNK_BYTES. lia.
  - constructor.
  - destruct Hs as [?|Hs]; [by left|right]. unfold head_len in *. cbn [bufpos reply set_buf]. rewrite Hnil in *.
    destruct (Z.gtb_spec (bufpos c) 0); [|lia]. rewrite Z.gtb_ltb, (proj2 (Z.ltb_lt _ _)) by lia. lia.
  - unfold cost, PROTO_REPLY_CHUNK_BYTES. lia.
Qed.

(** ** Strings and numbers *)

Definition text (k : out_config) (s : list Z) : list symbol := if accepts k then map Byte s else [].

Lemma text_app k s1 s2 : text k s1 ++ text k s2 = text k (s1 ++ s2).
Proof using Type. unfold text. case_match; [by rewrite map_app|done]. Qed.

Lemma pending_same c c' : same_out c c' -> clientHasPendingReplies c' = clientHasPendingReplies c.
Proof using Type. intros (_ & _ & _ & E1 & _ & E2 & _). unfold clientHasPendingReplies. by rewrite E1, E2. Qed.

(** A function that prepares the client and appends bytes. *)
Lemma prepared_add c s :
  out_ok c -> sizes (reply c) + cost s < 2 ^ 63 ->
  exists c', match prepareClientToWrite c with
    | (c, C_OK) => add_bytes server zmalloc_usable junk c s
    | (c, C_ERR) => Some c
    end = Some c' /\ appended (cost s) (text (config c) s) c c'.
Proof.
  intros Hok Hc. destruct (prepare_spec c) as (c1 & -> & Hs1 & Hw1 & Ha1). pose proof (zlen_nonneg s).
  pose proof (same_out_pushed c c1 Hs1 Hw1 Hok) as Hp1. unfold text, accepts. destruct (writable (config c)) eqn:Hwr; cbn [andb].
  - destruct (same_out_ok c c1 Hs1 Hok) as [Hok1 _]. pose proof Hs1 as (Hc1 & _ & _ & _ & _ & Hr1 & _).
    destruct (add_bytes_spec c1 s Hok1) as (c2 & -> & Hp2); [by rewrite Hr1|]. exists c2. split; [done|]. unfold tail_syms in Hp2. rewrite Hc1 in Hp2.
    split; [|intros Ha _; apply Hp2, Ha1; done].
    destruct (CLIENT_CLOSE_AFTER_REPLY _); apply (pushed_trans 0 (cost s) [] _ c c1 c2 Hp1 Hp2).
  - exists c1. split; [done|]. split; [eapply pushed_le; [done|unfold cost, PROTO_REPLY_CHUNK_BYTES; lia]|].
    intros Ha. unfold armed. rewrite (pending_same c c1 Hs1). auto.
Qed.

Lemma addReplyString_spec c s :
  out_ok c -> sizes (reply c) + cost s < 2 ^ 63 ->
  exists c', addReplyString server zmalloc_usable junk c s = Some c' /\ appended (cost s) (text (config c) s) c c'.
Proof. apply prepared_add. Qed.

(** The text of a string object. *)
Definition obj_text (o : robj) : list Z := match o with OBJ_STR s => s | OBJ_INT n => ld_text n end.
Definition obj_ok (o : robj) : Prop := match o with OBJ_STR s => True | OBJ_INT n => in_s 64 n end.

Lemma addReply_spec c o :
  out_ok c -> obj_ok o -> sizes (reply c) + cost (obj_text o) < 2 ^ 63 ->
  exists c', addReply server zmalloc_usable junk c o = Some c' /\ appended (cost (obj_text o)) (text (config c) (obj_text o)) c c'.
Proof.
  intros Hok Ho Hc. destruct (prepared_add c (obj_text o) Hok Hc) as (c' & E & Ha). exists c'. split; [|done]. rewrite <- E. unfold addReply.
  destruct (prepareClientToWrite c) as [c1 []]; [|done]. destruct o as [s|n]; [done|]. cbn [obj_text obj_ok] in *.
  destruct (ll2string_text (mrealloc junk [] 32) n Ho) as (dst' & E' & _ & Hr); [rewrite zlen_mrealloc; lia|].
  rewrite zlen_mrealloc in E' by lia. rewrite E'. cbn [mbind option_bind]. by rewrite Hr.
Qed.

Lemma appended_le k k' s c c' : appended k s c c' -> k <= k' -> appended k' s c c'.
Proof using Type. intros [? ?] ?. split; [by eapply pushed_le|done]. Qed.

(** Room for [n] pieces of total length at most [len]. *)
Definition room (c : out_client) (n len : Z) : Prop := sizes (reply c) + n * (2 * (PROTO_REPLY_CHUNK_BYTES + len + 16)) < 2 ^ 63.

(** The reply [s] was appended in at most [n] pieces. *)
Definition replied (n : Z) (s : list Z) (c : out_client) (r : option out_client) : Prop :=
  exists c', r = Some c' /\ appended (n * (2 * (PROTO_REPLY_CHUNK_BYTES + zlen s + 16))) (text (config c) s) c c'.

Lemma replied_one s c r : (exists c', r = Some c' /\ appended (cost s) (text (config c) s) c c') -> replied 1 s c r.
Proof using Type. intros (c' & -> & Ha). exists c'. split; [done|]. eapply appended_le; [done|]. unfold cost. lia. Qed.

Lemma appended_room k n n' len s c c' :
  appended k s c c' -> k <= n * (2 * (PROTO_REPLY_CHUNK_BYTES + len + 16)) -> room c (n + n') len -> room c' n' len /\ config c' = config c /\ out_ok c'.
Proof using Type. intros [(Hc & _ & Hok & _ & _ & Hz & _) _] Hk Hr. unfold room in *. split_and!; try done. lia. Qed.

(** Two replies one after the other. *)
Lemma replied_bind n1 n2 s1 s2 c r (f : out_client -> option out_client) :
  0 <= n1 -> 0 <= n2 -> room c (n1 + n2) (zlen (s1 ++ s2)) -> replied n1 s1 c r ->
  (forall c', out_ok c' -> room c' n2 (zlen s2) -> config c' = config c -> replied n2 s2 c' (f c')) ->
  replied (n1 + n2) (s1 ++ s2) c (r ≫= f).
Proof using Type.
  intros Hn1 Hn2 Hroom (c1 & -> & Ha1) Hf. cbn [mbind option_bind]. rewrite zlen_app in *. pose proof (zlen_nonneg s1). pose proof (zlen_nonneg s2).
  unfold PROTO_REPLY_CHUNK_BYTES in *.
  destruct (appended_room _ n1 n2 (zlen s1 + zlen s2) _ _ _ Ha1) as (Hr1 & Hc1 & Hok1); [unfold PROTO_REPLY_CHUNK_BYTES; nia|done|].
  destruct (Hf c1 Hok1) as (c2 & -> & Ha2); [unfold room, PROTO_REPLY_CHUNK_BYTES in *; nia|done|]. exists c2. split; [done|]. rewrite Hc1 in Ha2.
  rewrite <- text_app. eapply appended_le; [by eapply appended_trans|]. rewrite zlen_app. unfold PROTO_REPLY_CHUNK_BYTES in *. nia.
Qed.

(** ** The wire format *)

Definition hdr (prefix v : Z) : list Z := prefix :: ld_text v ++ crlf.
Definition bulk (s : list Z) : list Z := hdr 36 (zlen s) ++ s ++ crlf.

Lemma str_replied c s : out_ok c -> room c 1 (zlen s) -> replied 1 s c (addReplyString server zmalloc_usable junk c s).
Proof. intros Hok Hr. apply replied_one, addReplyString_spec; [done|]. unfold room, cost in *. lia. Qed.

Lemma obj_replied c o :
  out_ok c -> obj_ok o -> room c 1 (zlen (obj_text o)) -> replied 1 (obj_text o) c (addReply server zmalloc_usable junk c o).
Proof. intros Hok Ho Hr. apply replied_one, addReply_spec; [done|done|]. unfold room, cost in *. lia. Qed.

Lemma shared_replied c p j :
  out_ok c -> 0 <= j < OBJ_SHARED_BULKHDR_LEN -> room c 1 (zlen (hdr p j)) ->
  replied 1 (hdr p j) c (o ← shared_hdr p j; addReply server zmalloc_usable junk c o).
Proof.
  intros Hok Hj Hr. unfold shared_hdr. rewrite (proj2 (Z.leb_le 0 j)), (proj2 (Z.ltb_lt j _)) by lia. cbn [andb mbind option_bind].
  by apply (obj_replied c (OBJ_STR (hdr p j))).
Qed.

(** A prefix, a number and CRLF, put together in a buffer. *)
Lemma prefix_line m p v :
  in_s 64 v -> 24 <= zlen m -> exists r,
  (b ← mwrite m 0 [p];
   '(digits, len) ← ll2string (drop 1 b) (zlen m - 1) v;
   b ← mwrite b 1 digits; b ← mwrite b (len + 1) [13]; b ← mwrite b (len + 2) [10]; Some (b, len)) = Some (hdr p v ++ r, zlen (ld_text v)).
Proof using Type.
  intros Hv Hz. destruct (ld_text_len v Hv) as [Hl _].
  destruct m as [|x t]; [done|]. rewrite zlen_cons in *.
  change (mwrite (x :: t) 0 [p]) with (mwrite ([x] ++ t) 0 [p]). rewrite mwrite_front by done. cbn [mbind option_bind app]. change (drop 1 (p :: t)) with t.
  destruct (ll2string_text t v Hv) as (t' & E & Hz' & Hr); [lia|]. replace (zlen t) with (1 + zlen t - 1) in E by lia. rewrite E. cbn [mbind option_bind].
  set (d := ld_text v) in *.
  assert (mwrite (p :: t) 1 t' = Some (p :: t')) as E1.
  { pose proof (mwrite_off [p] t t' [] 1 eq_refl ltac:(lia)) as Hw. rewrite !app_nil_r in Hw. exact Hw. }
  rewrite E1. cbn [mbind option_bind].
  destruct (split_len t' (zlen d) (zlen t' - zlen d)) as (d' & r & Ht & Hd' & Hrl); [lia..|].
  assert (d' = d) as ->. { rewrite Ht, mread_front in Hr by done. by injection Hr. }
  destruct r as [|r1 [|r2 r]]; [rewrite zlen_nil in Hrl; lia|change (zlen [r1]) with 1 in Hrl; lia|]. rewrite Ht.
  assert (mwrite (p :: d ++ r1 :: r2 :: r) (zlen d + 1) [13] = Some (p :: d ++ 13 :: r2 :: r)) as E2
    by (apply (mwrite_off (p :: d) [r1] [13] (r2 :: r)); [rewrite zlen_cons; lia|done]).
  assert (mwrite (p :: d ++ 13 :: r2 :: r) (zlen d + 2) [10] = Some (p :: d ++ 13 :: 10 :: r)) as E3.
  { replace (p :: d ++ 13 :: r2 :: r) with ((p :: d ++ [13]) ++ [r2] ++ r) by (cbn; by rewrite <- app_assoc).
    rewrite (mwrite_off (p :: d ++ [13]) [r2] [10] r); [cbn; by rewrite <- app_assoc|rewrite zlen_cons, zlen_app; change (zlen [13]) with 1; lia|done]. }
  rewrite E2. cbn [mbind option_bind]. rewrite E3. cbn [mbind option_bind].
  exists r. unfold hdr, crlf. fold d. cbn. by rewrite <- app_assoc.
Qed.

Lemma hdr_len p v : zlen (hdr p v) = zlen (ld_text v) + 3.
Proof using Type. unfold hdr, crlf. rewrite zlen_cons, zlen_app. change (zlen [13; 10]) with 2. lia. Qed.

Lemma prefix_replied c v p :
  out_ok c -> in_s 64 v -> room c 1 (zlen (hdr p v)) -> replied 1 (hdr p v) c (addReplyLongLongWithPrefix server zmalloc_usable junk c v p).
Proof.
  intros Hok Hv Hr. unfold addReplyLongLongWithPrefix. destruct ((p =? 42) && _ && _) eqn:E1.
  { apply andb_true_iff in E1 as [[->%Z.eqb_eq ?%Z.ltb_lt]%andb_true_iff ?%Z.geb_le]. apply shared_replied; [done|lia|done]. }
  destruct ((p =? 36) && _ && _) eqn:E2.
  { apply andb_true_iff in E2 as [[->%Z.eqb_eq ?%Z.ltb_lt]%andb_true_iff ?%Z.geb_le]. apply shared_replied; [done|lia|done]. }
  clear E1 E2. destruct (prefix_line (mrealloc junk [] 128) p v Hv) as [r E]; [by rewrite zlen_mrealloc|]. rewrite zlen_mrealloc in E by lia. cbv zeta. destruct (mwrite _ 0 [p]) as [b|]; [|done]. cbn [mbind option_bind] in E |- *.
  destruct (ll2string _ _ _) as [[d len]|]; [|done]. cbn [mbind option_bind] in E |- *.
  destruct (mwrite b 1 d) as [b1|]; [|done]. cbn [mbind option_bind] in E |- *. destruct (mwrite b1 _ _) as [b2|]; [|done]. cbn [mbind option_bind] in E |- *.
  destruct (mwrite b2 _ _) as [b3|]; [|done]. cbn [mbind option_bind] in E. assert (b3 = hdr p v ++ r /\ len = zlen (ld_text v)) as [-> ->] by (split; congruence).
  cbn [mbind option_bind]. rewrite mread_front by (by rewrite hdr_len). cbn [mbind option_bind]. by apply str_replied.
Qed.

Lemma longlong_replied c v :
  out_ok c -> in_s 64 v -> room c 1 (zlen (hdr 58 v)) -> replied 1 (hdr 58 v) c (addReplyLongLong server zmalloc_usable junk c v).
Proof.
  intros Hok Hv Hr. unfold addReplyLongLong. destruct (Z.eqb_spec v 0) as [->|]; [by apply (obj_replied c shared_czero)|].
  destruct (Z.eqb_spec v 1) as [->|]; [by apply (obj_replied c shared_cone)|]. by apply prefix_replied.
Qed.

Lemma multibulk_replied c n :
  out_ok c -> 0 <= n < 2 ^ 63 -> room c 1 (zlen (hdr 42 n)) -> replied 1 (hdr 42 n) c (addReplyMultiBulkLen server zmalloc_usable junk c n).
Proof.
  intros Hok Hn Hr. unfold addReplyMultiBulkLen. destruct (Z.ltb_spec n OBJ_SHARED_BULKHDR_LEN); [apply shared_replied; [done|lia|done]|].
  apply prefix_replied; [done|width_lia|done].
Qed.

(** Counting digits by division. *)
Lemma count_digits_spec fuel : forall n d len,
  0 <= n -> has_digits n d -> 1 <= d <= Z.of_nat fuel -> count_digits fuel n len = Some (len + d - 1).
Proof using Type.
  induction fuel as [|fuel IH]; intros n d len Hn Hd Hf; [lia|]. cbn [count_digits]. rewrite Z.quot_div_nonneg by lia.
  destruct Hd as [[-> ->]|Hd]; [cbn; f_equal; lia|]. destruct (Z.eq_dec d 1) as [->|Hd1].
  - rewrite Z.div_small by lia. cbn. f_equal. lia.
  - replace d with (d - 1 + 1) in Hd by lia. rewrite Z.pow_add_r, Z.pow_1_r in Hd by lia.
    assert (10 ^ (d - 1) = 10 ^ (d - 2) * 10) as Hp by (replace (d - 1) with (d - 2 + 1) by lia; rewrite Z.pow_add_r, Z.pow_1_r by lia; done).
    replace (d - 1 + 1 - 1) with (d - 1) in Hd by lia.
    assert (10 ^ (d - 2) <= n / 10 < 10 ^ (d - 1)) as Hq by (split; [apply Z.div_le_lower_bound; lia|apply Z.div_lt_upper_bound; lia]).
    pose proof (Z.pow_pos_nonneg 10 (d - 2) ltac:(lia) ltac:(lia)). rewrite (proj2 (Z.eqb_neq _ _)) by lia. cbn [negb].
    rewrite (IH _ (d - 1)); [f_equal; lia|lia| |lia]. right. by replace (d - 1 - 1) with (d - 2) by lia.
Qed.

(** An object whose text length the code computes without overflow. *)
Definition obj_fits (o : robj) : Prop := match o with OBJ_STR s => zlen s < 2 ^ 62 | OBJ_INT n => LONG_MIN < n < 2 ^ 63 end.

Lemma obj_fits_ok o : obj_fits o -> obj_ok o.
Proof using Type. destruct o as [s|n]; cbn; [done|]. unfold LONG_MIN. width_lia. Qed.

Lemma obj_text_len_spec o : obj_fits o -> obj_text_len o = Some (zlen (obj_text o)) /\ zlen (obj_text o) < 2 ^ 62.
Proof using Type.
  destruct o as [s|n]; cbn [obj_fits obj_text obj_text_len]; [done|]. intros Hn. unfold LONG_MIN in *.
  assert (in_s 64 n) as Hs by width_lia. destruct (ld_text_len n Hs) as [Hl _]. split; [|lia].
  assert (forall m, 0 <= m < 2 ^ 63 -> has_digits m (zlen (dec m)) /\ 1 <= zlen (dec m) <= 20) as Hd.
  { intros m Hm. pose proof (digits10_range m ltac:(lia)). unfold dec, zlen. rewrite length_dec_digits, Z2Nat.id by lia.
    split; [apply has_digits_digits10; lia|lia]. }
  unfold ld_text in *. destruct (Z.ltb_spec n 0).
  - rewrite (proj2 (Z.eqb_neq _ _)) by lia. destruct (Hd (- n)) as [? ?]; [lia|]. rewrite (count_digits_spec 20 (- n) (zlen (dec (- n)))); [|lia|done|lia].
    rewrite zlen_cons. f_equal. lia.
  - destruct (Hd n) as [? ?]; [lia|]. rewrite (count_digits_spec 20 n (zlen (dec n))); [|lia|done|lia]. f_equal. lia.
Qed.

Lemma bulklen_replied c o :
  out_ok c -> obj_fits o -> room c 1 (zlen (hdr 36 (zlen (obj_text o)))) ->
  replied 1 (hdr 36 (zlen (obj_text o))) c (addReplyBulkLen server zmalloc_usable junk c o).
Proof.
  intros Hok Ho Hr. destruct (obj_text_len_spec o Ho) as [El Hl]. unfold addReplyBulkLen. rewrite El. cbn [mbind option_bind].
  pose proof (zlen_nonneg (obj_text o)). destruct (Z.ltb_spec (zlen (obj_text o)) OBJ_SHARED_BULKHDR_LEN); [apply shared_replied; [done|lia|done]|].
  apply prefix_replied; [done|width_lia|done].
Qed.

Lemma room_le c n n' len len' : room c n len -> 0 <= n' <= n -> 0 <= len' <= len -> room c n' len'.
Proof using Type. unfold room, PROTO_REPLY_CHUNK_BYTES. nia. Qed.

(** Three pieces: a first one, a body and the end of the line. *)
Lemma three_replied c s1 s2 s3 r f g :
  out_ok c -> room c 3 (zlen (s1 ++ s2 ++ s3)) -> (room c 1 (zlen s1) -> replied 1 s1 c r) ->
  (forall c, out_ok c -> room c 1 (zlen s2) -> replied 1 s2 c (f c)) -> (forall c, out_ok c -> room c 1 (zlen s3) -> replied 1 s3 c (g c)) ->
  replied 3 (s1 ++ s2 ++ s3) c (c1 ← r; c2 ← f c1; g c2).
Proof using Type.
  intros Hok Hroom H1 H2 H3. pose proof (zlen_nonneg s1). pose proof (zlen_nonneg s2). pose proof (zlen_nonneg s3).
  apply (replied_bind 1 2 s1 (s2 ++ s3) c r); [lia|lia|done| |].
  - apply H1. eapply room_le; [done|lia|]. rewrite !zlen_app. lia.
  - intros c1 Hok1 Hr1 _. apply (replied_bind 1 1 s2 s3 c1 (f c1)); [lia|lia|done| |].
    + apply H2; [done|]. eapply room_le; [done|lia|]. rewrite zlen_app. lia.
    + intros c2 Hok2 Hr2 _. apply H3; [done|]. done.
Qed.

Lemma bulk_replied c o :
  out_ok c -> obj_fits o -> room c 3 (zlen (bulk (obj_text o))) ->
  replied 3 (bulk (obj_text o)) c (addReplyBulk server zmalloc_usable junk c o).
Proof.
  intros Hok Ho Hr. apply three_replied; [done|done| | |].
  - intros Hr1. by apply bulklen_replied.
  - intros c1 Hok1 Hr1. apply obj_replied; [done|by apply obj_fits_ok|done].
  - intros c1 Hok1 Hr1. by apply (obj_replied c1 shared_crlf).
Qed.

Lemma cbuffer_replied c s :
  out_ok c -> zlen s < 2 ^ 62 -> room c 3 (zlen (bulk s)) ->
  replied 3 (bulk s) c (addReplyBulkCBuffer server zmalloc_usable junk c s) /\
  replied 3 (bulk s) c (addReplyBulkSds server zmalloc_usable junk c s).
Proof.
  intros Hok Hs Hr. pose proof (zlen_nonneg s). assert (in_s 64 (zlen s)) by width_lia.
  split; (apply three_replied; [done|done|intros Hr1; by apply prefix_replied|intros c1 Hok1 Hr1|intros c1 Hok1 Hr1; by apply (obj_replied c1 shared_crlf)]).
  - by apply str_replied.
  - apply replied_one. apply prepared_add; [done|]. unfold room, cost in *. lia.
Qed.

Lemma cstring_replied c s :
  out_ok c -> (match s with Some s => zlen s < 2 ^ 62 | None => True end) ->
  let t := match s with Some s => bulk s | None => [36; 45; 49; 13; 10] end in
  room c 3 (zlen t) -> replied 3 t c (addReplyBulkCString server zmalloc_usable junk c s).
Proof.
  intros Hok Hs t Hr. destruct s as [s|]; [by apply cbuffer_replied|]. cbn. pose proof (zlen_nonneg t).
  destruct (obj_replied c shared_nullbulk Hok ltac:(done)) as (c' & E & Ha); [apply (room_le c 3 1 (zlen t)); [done|lia|unfold t, zlen; cbn; lia]|].
  exists c'. split; [done|]. eapply appended_le; [done|]. unfold PROTO_REPLY_CHUNK_BYTES, t, zlen. cbn. lia.
Qed.

Lemma bulklonglong_replied c v :
  out_ok c -> in_s 64 v -> room c 3 (zlen (bulk (ld_text v))) ->
  replied 3 (bulk (ld_text v)) c (addReplyBulkLongLong server zmalloc_usable junk c v).
Proof.
  intros Hok Hv Hr. unfold addReplyBulkLongLong. destruct (ld_text_len v Hv) as [Hl _].
  destruct (ll2string_text (mrealloc junk [] 64) v Hv) as (d & E & _ & Hd); [rewrite zlen_mrealloc; lia|]. rewrite zlen_mrealloc in E by lia.
  rewrite E. cbn [mbind option_bind]. rewrite Hd. cbn [mbind option_bind]. apply cbuffer_replied; [done|lia|done].
Qed.

Lemma status_replied c s :
  out_ok c -> room c 3 (zlen (43 :: s ++ crlf)) -> replied 3 (43 :: s ++ crlf) c (addReplyStatusLength server zmalloc_usable junk c s).
Proof. intros Hok Hr. apply (three_replied c [43] s crlf); [done|done|..]; intros; by apply str_replied. Qed.

(** The text of an error: the generic code is added unless the message has
    its own. *)
Definition error_text (s : list Z) : list Z := (if bool_decide (head s = Some 45) then [] else [45; 69; 82; 82; 32]) ++ s ++ crlf.

Lemma error_replied c s :
  out_ok c -> room c 3 (zlen (error_text s)) -> replied 3 (error_text s) c (addReplyErrorLength server zmalloc_usable junk c s).
Proof.
  intros Hok Hr. unfold addReplyErrorLength, error_text in *. case_bool_decide.
  - apply (three_replied c [] s crlf (Some c)); [done|done| |intros; by apply str_replied..].
    intros _. exists c. split; [done|]. split; [|done]. unfold text. replace (if accepts (config c) then map Byte [] else []) with (@nil symbol) by (by case_match).
    eapply pushed_le; [by apply same_out_pushed|unfold PROTO_REPLY_CHUNK_BYTES, zlen; cbn; lia].
  - apply three_replied; [done|done|..]; intros; by apply str_replied.
Qed.

(** ** Deferred lengths *)

Lemma defer_spec c :
  out_ok c -> sizes (reply c) < 2 ^ 63 ->
  let '(c', nd) := addDeferredMultiBulkLength c in
  nd = (if writable (config c) then Some (next_node c) else None) /\
  appended 0 (if writable (config c) then [Hole (next_node c)] else []) c c'.
Proof using Type.
  intros Hok Hz. unfold addDeferredMultiBulkLength. destruct (prepare_spec c) as (c1 & -> & Hs1 & Hw1 & Ha1).
  pose proof (same_out_pushed c c1 Hs1 Hw1 Hok) as Hp1. destruct (same_out_ok c c1 Hs1 Hok) as [Hok1 _].
  pose proof Hs1 as (_ & _ & _ & _ & _ & Hr1 & Hn1 & _). destruct (writable (config c)) eqn:Hwr.
  - split; [by rewrite Hn1|]. rewrite Hn1. rewrite <- Hr1 in Hz.
    pose proof (push_node c1 None [Hole (next_node c)] Hok1 I) as Hp. cbn in Hp. pose proof Hok1 as (_ & _ & (Hno & _) & Hrb & _).
    pose proof (sizes_nonneg _ Hno). rewrite Hn1, !Z.add_0_r, uwrap_small in Hp by (unfold in_u; lia). specialize (Hp eq_refl ltac:(lia)).
    split; [apply (pushed_trans 0 0 [] _ c c1 _ Hp1 Hp)|]. intros Ha _. apply Hp, Ha1; done.
  - split; [done|]. split; [done|]. intros Ha. unfold armed. rewrite (pending_same c c1 Hs1). auto.
Qed.

(** Filling a place. *)
Definition fill (id : Z) (s : list Z) (l : list symbol) : list symbol :=
  concat (map (fun x => match x with Hole i => if i =? id then map Byte s else [x] | _ => [x] end) l).

Lemma fill_app id s l1 l2 : fill id s (l1 ++ l2) = fill id s l1 ++ fill id s l2.
Proof using Type. unfold fill. by rewrite map_app, concat_app. Qed.

Lemma fill_bytes id s l : fill id s (map Byte l) = map Byte l.
Proof using Type. unfold fill. induction l as [|b l IH]; cbn; [done|]. by rewrite IH. Qed.

Lemma fill_other id s l : id ∉ map fst l -> fill id s (list_syms l) = list_syms l.
Proof using Type.
  induction l as [|[n v] l IH]; [done|]. cbn [map]. intros [Hne Hni]%not_elem_of_cons. unfold list_syms in *. cbn [map concat].
  rewrite fill_app, IH by done. f_equal. unfold node_syms. cbn [fst snd]. destruct v as [b|]; [apply fill_bytes|].
  unfold fill. cbn. rewrite (proj2 (Z.eqb_neq _ _)) by (cbn in Hne; congruence). done.
Qed.

Lemma find_node_spec id l v :
  NoDup (map fst l) -> (id, v) ∈ l ->
  exists before after, find_node id l = Some (before, v, after) /\ l = before ++ (id, v) :: after /\ (id ∉ map fst before) /\ (id ∉ map fst after).
Proof using Type.
  induction l as [|[n w] l IH]; intros Hd Hin; [by apply elem_of_nil in Hin|]. cbn [map] in Hd. apply NoDup_cons in Hd as [Hn Hd]. cbn [fst] in Hn.
  cbn [find_node]. destruct (Z.eqb_spec n id) as [->|Hne].
  - apply elem_of_cons in Hin as [[= ->]|Hin]; [|by destruct Hn; apply list_elem_of_fmap; exists (id, v)].
    exists [], l. split_and!; try done. apply not_elem_of_nil.
  - apply elem_of_cons in Hin as [[= -> ->]|Hin]; [done|]. destruct (IH Hd Hin) as (before & after & -> & -> & Hb & Ha).
    cbn [mbind option_bind]. exists ((n, w) :: before), after. split_and!; try done. cbn [map fst]. apply not_elem_of_cons. done.
Qed.

(** The bytes already sent are at the front of the buffers. *)
Lemma sent_bytes c : out_ok c -> exists p, raw c = map Byte p ++ flat c /\ zlen p = sentlen c.
Proof using Type.
  intros Hok. pose proof (sent_in_raw c Hok) as Hle. destruct Hok as (Hb & Hp & (Hn & _) & _ & H0 & Hs).
  assert (exists p q, raw c = map Byte p ++ q /\ sentlen c <= zlen p) as (p & q & E & Hl).
  { destruct Hs as [->|Hs]; [exists [], (raw c); split; [done|apply zlen_nonneg]|]. revert Hs. unfold head_len, raw. destruct (Z.gtb_spec (bufpos c) 0); intros Hs.
    - eexists _, _. split; [reflexivity|]. rewrite zlen_take. lia.
    - destruct (reply c) as [|[n [b|]] l]; [lia| |lia]. apply Forall_cons in Hn as [Hb1 _]. unfold list_syms. cbn [map concat]. unfold node_syms at 1. cbn [snd].
      replace (Z.to_nat (bufpos c)) with 0%nat by lia. exists (take (Z.to_nat (blk_used b)) (blk_buf b)), (concat (map node_syms l)). split; [by rewrite take_0|]. destruct Hb1 as (? & ? & ?).
      rewrite zlen_take. lia. }
  exists (take (Z.to_nat (sentlen c)) p). unfold flat. rewrite E, zlen_take. split; [|lia].
  rewrite drop_app_le by (unfold zlen in *; rewrite length_map; lia). rewrite skipn_map, app_assoc. f_equal. rewrite <- map_app, take_drop. done.
Qed.

(** The node of the placeholder replaced by blocks [l'] that hold the text. *)
Lemma replace_hole c before id after l' bytes s :
  out_ok c -> reply c = before ++ (id, None) :: after -> (id ∉ map fst before) -> (id ∉ map fst after) ->
  list_syms l' = map Byte s ++ list_syms after -> Forall node_ok l' -> sublist (map fst l') (id :: map fst after) ->
  bytes = sizes (before ++ l') -> 
  let c' := set_reply c (before ++ l') (next_node c) bytes in
  out_ok c' /\ raw c' = fill id s (raw c) /\ flat c' = fill id s (flat c).
Proof using Type.
  intros Hok E Hb Ha Hl' Hn' Hsub Hby c'. assert (raw c' = fill id s (raw c)) as Hraw.
  { unfold raw. cbn [buf bufpos reply set_reply c']. rewrite E, !list_syms_app, Hl', !fill_app, fill_bytes, (fill_other id s before) by done.
    f_equal. f_equal. change ((id, None) :: after) with ([(id, @None clientReplyBlock)] ++ after).
    rewrite list_syms_app, fill_app, (fill_other id s after) by done. f_equal. unfold list_syms, fill. cbn. by rewrite Z.eqb_refl, !app_nil_r. }
  destruct (sent_bytes c Hok) as (p & Hp & Hpl). pose proof Hok as (H1 & H2 & (Hn & Hd & Hlt) & Hrb & Hs0 & Hs). split_and!.
  - unfold out_ok, list_ok. cbn [c' buf bufpos reply next_node reply_bytes sentlen set_reply]. rewrite E in Hn, Hd, Hlt.
    apply Forall_app in Hn as [Hn _]. rewrite map_app in *. cbn [map fst] in Hd. split_and!; try done; try lia.
    + apply Forall_app. by split.
    + eapply sublist_NoDup; [exact Hd|]. by apply sublist_app.
    + apply Forall_forall. intros nd Hin. assert (fst nd ∈ map fst (before ++ (id, None) :: after)) as Hi.
      { rewrite map_app. eapply elem_of_submseteq; [|apply sublist_submseteq, sublist_app; [reflexivity|exact Hsub]].
        rewrite <- map_app. apply list_elem_of_fmap. eauto. }
      apply list_elem_of_fmap in Hi as (nd' & -> & Hin'). rewrite Forall_forall in Hlt. by apply Hlt.
    + unfold head_len in *. cbn [c' bufpos reply set_reply]. rewrite E in Hs. destruct Hs as [?|Hs]; [by left|].
      destruct (bufpos c >? 0); [by right|]. destruct before as [|[n0 [b0|]] before]; cbn [app] in *; [lia|by right|lia].
  - done.
  - unfold flat. rewrite Hraw, Hp, fill_app, fill_bytes. cbn [c' sentlen set_reply]. rewrite !drop_app_length'; [done|..].
    + rewrite length_map. unfold zlen in Hpl. lia.
    + rewrite length_map. unfold zlen in Hpl. lia.
Qed.

(** The text put in front of the next block. *)
Lemma glue_block next s :
  block_ok next -> blk_size next - blk_used next >= zlen s -> 0 < zlen s ->
  exists b, (b ← mmove (blk_buf next) (zlen s) 0 (blk_used next); mwrite b 0 s) = Some b /\
    let next' := mk_block (blk_size next) (blk_used next + zlen s) b in
    block_ok next' /\ forall n, node_syms (n, Some next') = map Byte s ++ node_syms (n, Some next).
Proof using Type.
  intros (Hu & Hz & Hm) Hroom Hs. pose proof (zlen_nonneg s).
  destruct (split_len (blk_buf next) (blk_used next) (blk_size next - blk_used next)) as (x & y & E & Hx & Hy); [lia..|].
  destruct (split_len (blk_buf next) (zlen s) (blk_size next - zlen s)) as (a & r & E' & Ha & Hr); [lia..|].
  destruct (split_len r (blk_used next) (zlen r - blk_used next)) as (x' & y' & -> & Hx' & Hy'); [lia..|].
  assert (mmove (blk_buf next) (zlen s) 0 (blk_used next) = Some (a ++ x ++ y')) as Em.
  { unfold mmove. replace (mread (blk_buf next) 0 (blk_used next)) with (Some x) by (rewrite E; symmetry; by apply mread_front).
    cbn [mbind option_bind]. rewrite E'. apply mwrite_off; lia. }
  rewrite Em. cbn [mbind option_bind]. rewrite mwrite_front by lia.
  eexists. split; [reflexivity|]. unfold block_ok, node_syms. cbn [blk_used blk_size blk_buf snd]. rewrite E' in Hz. rewrite !zlen_app in *. split; [lia|].
  intros n. rewrite E. rewrite <- map_app. f_equal.
  replace (Z.to_nat (blk_used next + zlen s)) with (length (s ++ x)) by (rewrite length_app; unfold zlen in *; lia).
  rewrite app_assoc, take_app_length. f_equal. replace (Z.to_nat (blk_used next)) with (length x) by (unfold zlen in *; lia). by rewrite take_app_length.
Qed.

Lemma set_deferred_spec c id v :
  out_ok c -> in_s 64 v -> (id, None) ∈ reply c -> sizes (reply c) + cost (hdr 42 v) < 2 ^ 63 ->
  exists c', setDeferredMultiBulkLength server zmalloc_usable junk c (Some id) v = Some c' /\
    config c' = config c /\ valid c' = valid c /\ out_ok c' /\ raw c' = fill id (hdr 42 v) (raw c) /\ sentlen c' = sentlen c /\
    flat c' = fill id (hdr 42 v) (flat c) /\
    sizes (reply c') <= sizes (reply c) + cost (hdr 42 v) /\ next_node c' = next_node c /\ (wired c -> wired c') /\ (armed c -> armed c').
Proof.
  intros Hok Hv Hin Hz. pose proof Hok as (_ & _ & (Hn & Hd & _) & Hrb & _). pose proof (sizes_nonneg _ Hn). unfold setDeferredMultiBulkLength. cbv zeta.
  change (42 :: ld_text v ++ crlf) with (hdr 42 v). set (s := hdr 42 v) in *.
  assert (0 < zlen s <= 24) as Hs.
  { unfold s, hdr, crlf. destruct (ld_text_len v Hv) as [Hl _]. rewrite zlen_cons, zlen_app. change (zlen [13; 10]) with 2. lia. }
  destruct (find_node_spec id (reply c) None Hd Hin) as (before & after & -> & E & Hb & Ha). cbn [mbind option_bind].
  rewrite E in Hn. apply Forall_app in Hn as [Hnb [_ Hna]%Forall_cons].
  assert (exists l' bytes, (match can_glue after (zlen s) with
          | Some (n, next) =>
            b ← mmove (blk_buf next) (zlen s) 0 (blk_used next);
            b ← mwrite b 0 s;
            Some (set_reply c (before ++ (n, Some (mk_block (blk_size next) (blk_used next + zlen s) b)) :: tail after) (next_node c) (reply_bytes c))
          | None =>
            blk ← new_block zmalloc_usable junk (zlen s) s;
            Some (set_reply c (before ++ (id, Some blk) :: after) (next_node c) (uwrap 64 (reply_bytes c + blk_size blk)))
          end) = Some (set_reply c (before ++ l') (next_node c) bytes) /\
     list_syms l' = map Byte s ++ list_syms after /\ Forall node_ok l' /\ sublist (map fst l') (id :: map fst after) /\
     bytes = sizes (before ++ l') /\ bytes <= sizes (reply c) + cost s) as (l' & bytes & -> & Hl' & Hn' & Hsub & Hby & Hbound).
  { assert (sizes (reply c) = sizes before + sizes after) as Hsz by (rewrite E, sizes_app; done). unfold cost, PROTO_REPLY_CHUNK_BYTES in *.
    destruct (can_glue after (zlen s)) as [[n next]|] eqn:Hg.
    - unfold can_glue in Hg. destruct after as [|[n0 [b0|]] after]; [done| |done]. destruct (_ && _) eqn:Hc; [|done]. injection Hg as -> ->.
      apply Forall_cons in Hna as [Hb0 Hna]. apply andb_true_iff in Hc as [Hc%Z.geb_le _]. pose proof Hb0 as (? & ? & ?). rewrite uwrap_small in Hc by (unfold in_u; lia).
      destruct (glue_block next s Hb0) as (b & Eb & Hb' & Hsy); [lia|lia|]. destruct (mmove _ _ _ _) as [m|]; [|done]. cbn [mbind option_bind] in Eb |- *.
      rewrite Eb. cbn [mbind option_bind tail]. eexists _, _. split; [reflexivity|]. split_and!.
      + unfold list_syms. cbn [map concat]. by rewrite Hsy, <- app_assoc.
      + by constructor.
      + cbn [map fst]. by apply sublist_cons.
      + rewrite Hrb, Hsz, sizes_app. done.
      + lia.
    - destruct (new_block_spec (zlen s) s) as (b & -> & Hb' & Hsy & Hsz'); [lia..|]. cbn [mbind option_bind]. eexists _, _. split; [reflexivity|].
      pose proof Hb' as (? & ? & ?). rewrite Hrb. rewrite uwrap_small by (unfold in_u; lia). split_and!.
      + unfold list_syms. cbn [map concat]. f_equal. exact Hsy.
      + by constructor.
      + done.
      + rewrite Hsz, sizes_app. change ((id, Some b) :: after) with ([(id, Some b)] ++ after). rewrite sizes_app, sizes_one. cbn [snd]. lia.
      + lia. }
  cbn [mbind option_bind]. destruct (replace_hole c before id after l' bytes s Hok E Hb Ha Hl' Hn' Hsub Hby) as (Hok1 & Hraw1 & Hf1).
  set (c1 := set_reply c _ _ _) in *. assert (0 <= bytes) by (rewrite Hby; apply sizes_nonneg, Forall_app; done).
  destruct (async_close_spec c1) as (c2 & -> & Hs2 & Hw2); [cbn; lia|]. destruct (same_out_ok c1 c2 Hs2 Hok1) as [Hok2 Hr2].
  exists c2. pose proof Hs2 as (A & B & _ & _ & S & R & N & _). split; [done|]. split_and!; try done.
  - by rewrite Hr2.
  - unfold flat in *. by rewrite Hr2, S.
  - rewrite R. cbn [reply c1 set_reply]. lia.
  - intros Harm _. apply Hw2. apply Harm. unfold clientHasPendingReplies. rewrite E, zlen_app, zlen_cons. pose proof (zlen_nonneg before). pose proof (zlen_nonneg after).
    rewrite (proj2 (Z.eqb_neq (zlen before + (1 + zlen after)) 0)) by lia. by rewrite orb_true_r.
Qed.

(** ** Writing *)

(** No placeholder is waiting. *)
Definition hole_free (c : out_client) : Prop := Forall (fun nd => snd nd <> None) (reply c).

(** Only the buffers and what was sent of them changed. *)
Definition same_events (c c' : out_client) : Prop :=
  config c' = config c /\ valid c' = valid c /\ next_node c' = next_node c /\ CLIENT_CLOSE_ASAP c' = CLIENT_CLOSE_ASAP c /\
  CLIENT_PENDING_WRITE c' = CLIENT_PENDING_WRITE c /\ CLIENT_PROTECTED c' = CLIENT_PROTECTED c /\ write_handler c' = write_handler c.

(** [w] was sent of what [c] held. *)
Definition wrote (c c' : out_client) (w : list Z) : Prop :=
  out_ok c' /\ hole_free c' /\ flat c = map Byte w ++ flat c' /\ same_events c c' /\ sizes (reply c') <= sizes (reply c).

Lemma wrote_refl c : out_ok c -> hole_free c -> wrote c c [].
Proof using Type. intros ??. unfold wrote. split_and!; done || lia. Qed.

Lemma wrote_trans c1 c2 c3 w1 w2 : wrote c1 c2 w1 -> wrote c2 c3 w2 -> wrote c1 c3 (w1 ++ w2).
Proof using Type.
  intros (_ & _ & F1 & (A1 & B1 & C1 & D1 & E1 & G1 & H1) & Z1) (O2 & N2 & F2 & (A2 & B2 & C2 & D2 & E2 & G2 & H2) & Z2).
  unfold wrote, same_events. rewrite F1, F2, map_app, <- app_assoc. split_and!; try congruence; try done. lia.
Qed.

Definition measure (c : out_client) : Z := pending_len c - sentlen c.

Lemma pending_nonneg l :
  Forall node_ok l -> 0 <= foldr Z.add 0 (map (fun nd : node => match snd nd with Some b => blk_used b + 1 | None => 1 end) l).
Proof using Type. induction 1 as [|[n [b|]] l Hnd _ IH]; cbn; try lia. destruct Hnd as (? & ? & ?). lia. Qed.

(** Sending the first [n] bytes of what is left of the chunk [h]. *)
Lemma chunk_sent (h : list Z) sl n :
  0 <= sl -> 0 < n -> sl + n <= zlen h ->
  map Byte (drop (Z.to_nat sl) h) = map Byte (take (Z.to_nat n) (drop (Z.to_nat sl) h)) ++ map Byte (drop (Z.to_nat (sl + n)) h).
Proof using Type.
  intros H1 H2 H3. rewrite <- map_app. f_equal. rewrite <- (take_drop (Z.to_nat n) (drop (Z.to_nat sl) h)) at 1. f_equal. rewrite drop_drop. f_equal. lia.
Qed.

Lemma drop_chunk (h : list Z) (l : list symbol) sl :
  0 <= sl <= zlen h -> drop (Z.to_nat sl) (map Byte h ++ l) = map Byte (drop (Z.to_nat sl) h) ++ l.
Proof using Type. intros H. rewrite drop_app_le by (rewrite length_map; unfold zlen in H; lia). by rewrite skipn_map. Qed.

(** One write from the static buffer. *)
Lemma write_buffer c n :
  out_ok c -> hole_free c -> 0 < bufpos c -> 0 < n -> sentlen c + n <= bufpos c ->
  let data := drop (Z.to_nat (sentlen c)) (take (Z.to_nat (bufpos c)) (buf c)) in
  let c1 := set_buf c (buf c) (bufpos c) (sentlen c + n) in
  let c' := if sentlen c1 =? bufpos c1 then set_buf c1 (buf c1) 0 0 else c1 in
  wrote c c' (take (Z.to_nat n) data) /\ measure c' = measure c - n.
Proof using Type.
  intros Hok Hh Hbp Hn Hle data. pose proof Hok as (H1 & H2 & Hl & Hrb & Hs0 & Hs). set (h := take (Z.to_nat (bufpos c)) (buf c)) in *.
  assert (zlen h = bufpos c) as Hzh by (unfold h; rewrite zlen_take; lia).
  assert (flat c = map Byte (take (Z.to_nat n) data) ++ map Byte (drop (Z.to_nat (sentlen c + n)) h) ++ list_syms (reply c)) as Hf.
  { unfold flat, raw. fold h. rewrite drop_chunk by lia. rewrite (chunk_sent h (sentlen c) n) by lia. by rewrite <- app_assoc. }
  cbn zeta. cbn [sentlen bufpos buf set_buf]. unfold wrote, measure, pending_len. destruct (Z.eqb_spec (sentlen c + n) (bufpos c)) as [E|E].
  - split; [|cbn; lia]. split_and!; try done.
    + unfold out_ok. cbn [buf bufpos reply next_node reply_bytes sentlen set_buf]. split_and!; try done; try lia; try apply Hl.
    + rewrite Hf. f_equal. unfold flat, raw. cbn [buf bufpos reply next_node reply_bytes sentlen set_buf].
      rewrite drop_0, take_0. rewrite (drop_ge h) by (unfold zlen in *; lia). done.
  - split; [|cbn; lia]. split_and!; try done.
    + unfold out_ok, head_len. cbn [buf bufpos reply next_node reply_bytes sentlen set_buf]. rewrite Z.gtb_ltb, (proj2 (Z.ltb_lt 0 (bufpos c))) by lia.
      split_and!; try done; try lia; try apply Hl.
    + rewrite Hf. f_equal. unfold flat, raw. cbn [buf bufpos reply next_node reply_bytes sentlen set_buf]. fold h. by rewrite drop_chunk by lia.
Qed.

(** One write from the first block. *)
Lemma write_block c id b rest n :
  out_ok c -> hole_free c -> bufpos c = 0 -> reply c = (id, Some b) :: rest -> sizes (reply c) < 2 ^ 63 -> 0 < n -> sentlen c + n <= blk_used b ->
  let data := drop (Z.to_nat (sentlen c)) (take (Z.to_nat (blk_used b)) (blk_buf b)) in
  let c1 := set_buf c (buf c) (bufpos c) (sentlen c + n) in
  exists c', (if sentlen c1 =? blk_used b then
      let c2 := set_reply (set_buf c1 (buf c1) (bufpos c1) 0) rest (next_node c1) (uwrap 64 (reply_bytes c1 - blk_size b)) in
      if (zlen (reply c2) =? 0) && negb (reply_bytes c2 =? 0) then None else Some c2
    else Some c1) = Some c' /\ wrote c c' (take (Z.to_nat n) data) /\ measure c' <= measure c - n.
Proof using Type.
  intros Hok Hh Hbp E Hsz Hn Hle data c1. pose proof Hok as (H1 & H2 & (Hno & Hd & Hlt) & Hrb & Hs0 & Hs).
  rewrite E in Hno, Hd, Hlt. apply Forall_cons in Hno as [Hb Hno]. pose proof Hb as (Hu & Hz & Hm). cbn [map] in Hd. apply NoDup_cons in Hd as [_ Hd]. apply Forall_cons in Hlt as [_ Hlt].
  unfold hole_free in Hh. rewrite E in Hh. apply Forall_cons in Hh as [_ Hh]. set (h := take (Z.to_nat (blk_used b)) (blk_buf b)) in *.
  assert (zlen h = blk_used b) as Hzh by (unfold h; rewrite zlen_take; lia). pose proof (sizes_nonneg _ Hno).
  assert (sizes (reply c) = blk_size b + sizes rest) as Esz by (rewrite E; done).
  assert (flat c = map Byte (take (Z.to_nat n) data) ++ map Byte (drop (Z.to_nat (sentlen c + n)) h) ++ list_syms rest) as Hf.
  { unfold flat, raw, list_syms. rewrite E, Hbp. cbn [map concat]. unfold node_syms at 1. cbn [snd]. fold h. rewrite take_0. cbn [map app].
    rewrite drop_chunk by lia. rewrite (chunk_sent h (sentlen c) n) by lia. by rewrite <- app_assoc. }
  subst c1. cbn [sentlen bufpos buf set_buf reply set_reply next_node reply_bytes]. unfold measure, pending_len.
  destruct (Z.eqb_spec (sentlen c + n) (blk_used b)) as [Eq|Eq]; cbv zeta.
  - rewrite Hrb, uwrap_small by (unfold in_u; lia).
    assert ((zlen rest =? 0) && negb (sizes (reply c) - blk_size b =? 0) = false) as ->.
    { destruct rest as [|nd rest]; [|rewrite zlen_cons; pose proof (zlen_nonneg rest); by rewrite (proj2 (Z.eqb_neq _ _)) by lia].
      rewrite Esz. change (sizes []) with 0. rewrite (proj2 (Z.eqb_eq (blk_size b + 0 - blk_size b) 0)) by lia. done. }
    eexists. split; [reflexivity|]. split; [|rewrite E; cbn; lia]. unfold wrote. split_and!; try done.
    + unfold out_ok. cbn [buf bufpos reply next_node reply_bytes sentlen set_buf set_reply]. split_and!; try done; lia.
    + rewrite Hf. f_equal. unfold flat, raw. cbn [buf bufpos reply next_node reply_bytes sentlen set_buf set_reply].
      rewrite Hbp, drop_0, take_0, (drop_ge h) by (unfold zlen in *; lia). done.
    + cbn [reply set_reply set_buf]. lia.
  - eexists. split; [reflexivity|]. split; [|cbn; lia]. unfold wrote. split_and!; try done.
    + unfold out_ok, head_len. cbn [buf bufpos reply next_node reply_bytes sentlen set_buf set_reply]. rewrite Hbp, E. cbn [Z.gtb Z.compare].
      unfold list_ok. rewrite E in Hrb. split_and!; try done; try lia.
      * by constructor.
      * cbn [map fst]. destruct Hok as (_ & _ & (_ & Hd' & _) & _). by rewrite E in Hd'.
      * destruct Hok as (_ & _ & (_ & _ & Hlt') & _). by rewrite E in Hlt'.
    + unfold hole_free. cbn [reply set_buf]. rewrite E. by constructor.
    + rewrite Hf. f_equal. unfold flat, raw, list_syms. cbn [buf bufpos reply next_node reply_bytes sentlen set_buf].
      rewrite E, Hbp. cbn [map concat]. unfold node_syms at 2. cbn [snd]. fold h. rewrite take_0. cbn [map app]. by rewrite drop_chunk by lia.
Qed.

Lemma pending_measure c : out_ok c -> clientHasPendingReplies c = true -> 0 < measure c.
Proof using Type.
  intros (H1 & H2 & (Hn & _) & _ & H0 & Hs) Hp. unfold clientHasPendingReplies in Hp. unfold measure, pending_len, head_len in *.
  pose proof (pending_nonneg _ Hn). destruct (Z.gtb_spec (bufpos c) 0); [lia|]. rewrite (proj2 (Z.eqb_eq (bufpos c) 0)) in Hp by lia. cbn [negb orb] in Hp.
  destruct (reply c) as [|[n v] l]; [done|]. apply Forall_cons in Hn as [Hv Hn]. pose proof (pending_nonneg _ Hn). cbn [map foldr snd] in *.
  destruct v as [b|]; [destruct Hv as (? & ? & ?)|]; lia.
Qed.

Lemma none_pending c : out_ok c -> clientHasPendingReplies c = false -> flat c = [] /\ sentlen c = 0.
Proof using Type.
  intros (H1 & H2 & _ & _ & H0 & Hs) Hp. unfold clientHasPendingReplies in Hp. apply orb_false_iff in Hp as [Hb%negb_false_iff%Z.eqb_eq Hl%negb_false_iff%Z.eqb_eq].
  assert (reply c = []) as El by (destruct (reply c) as [|nd l]; [done|]; rewrite zlen_cons in Hl; pose proof (zlen_nonneg l); lia).
  unfold flat, raw, head_len in *. rewrite El, Hb in *. split; [by rewrite take_0; destruct (Z.to_nat (sentlen c))|cbn in Hs; lia].
Qed.

(** The socket always takes something. *)
Definition taking (ws : list write_result) : Prop := Forall (fun w => exists n, w = WR_ROOM n /\ 0 < n) ws.

Definition write_done (c : out_client) (sent : list Z) : Prop :=
  clientHasPendingReplies c = false \/ NET_MAX_WRITES_PER_EVENT < zlen sent.

Lemma write_limit_done c tot : write_limit server c tot = true -> NET_MAX_WRITES_PER_EVENT < tot.
Proof using Type. unfold write_limit. rewrite !andb_true_iff. intros [[H _] _]. by apply Z.gtb_lt. Qed.

Lemma write_loop_spec fuel : forall ws c sent,
  out_ok c -> hole_free c -> sizes (reply c) < 2 ^ 63 -> measure c <= Z.of_nat fuel ->
  exists c' err w, write_loop server fuel ws c sent = Some (c', err, sent ++ w) /\ wrote c c' w /\
    (taking ws -> measure c <= zlen ws -> err = false /\ write_done c' (sent ++ w)).
Proof using Type.
  induction fuel as [|fuel IH]; intros ws c sent Hok Hh Hsz Hf; cbn [write_loop]; destruct (clientHasPendingReplies c) eqn:Hp; cbn [negb];
    try (exists c, false, []; rewrite app_nil_r; split; [done|]; split; [by apply wrote_refl|]; intros _ _; split; [done|by left]).
  { pose proof (pending_measure c Hok Hp). lia. }
  pose proof (pending_measure c Hok Hp) as Hm. pose proof Hok as (H1 & H2 & (Hn & _) & Hrb & Hs0 & Hs).
  assert (forall err, (taking ws -> measure c <= zlen ws -> False) ->
    exists c' e w, Some (c, err, sent) = Some (c', e, sent ++ w) /\ wrote c c' w /\ (taking ws -> measure c <= zlen ws -> e = false /\ write_done c' (sent ++ w))) as Hstop.
  { intros err Hno. exists c, err, []. rewrite app_nil_r. split; [done|]. split; [by apply wrote_refl|]. intros ? ?. by destruct Hno. }
  assert (forall c1 ws1 w, wrote c c1 w -> measure c1 < measure c -> (taking ws -> taking ws1) -> zlen ws = 1 + zlen ws1 ->
    exists c' e w', (if write_limit server c1 (zlen (sent ++ w)) then Some (c1, false, sent ++ w) else write_loop server fuel ws1 c1 (sent ++ w)) = Some (c', e, sent ++ w') /\
      wrote c c' w' /\ (taking ws -> measure c <= zlen ws -> e = false /\ write_done c' (sent ++ w'))) as Hnext.
  { intros c1 ws1 w Hw Hm1 Hta Hzl. pose proof Hw as (Hok1 & Hh1 & _ & _ & Hz1). destruct (write_limit server c1 _) eqn:Hlim.
    - exists c1, false, w. split; [done|]. split; [done|]. intros _ _. split; [done|]. right. by apply write_limit_done in Hlim.
    - destruct (IH ws1 c1 (sent ++ w) Hok1 Hh1 ltac:(lia) ltac:(lia)) as (c' & e & w' & -> & Hw' & Hdone). exists c', e, (w ++ w'). rewrite <- app_assoc in *.
      split; [done|]. split; [by eapply wrote_trans|]. intros Ht Hl. apply Hdone; [auto|lia]. }
  assert (forall n (data : list Z), 0 < zlen data -> Z.min n (zlen data) <= 0 -> (exists ws', ws = WR_ROOM n :: ws') -> taking ws -> False) as Hroom.
  { intros n data Hd Hmin (ws' & ->) [(n' & [= <-] & ?) _]%Forall_cons. lia. }
  destruct (Z.gtb_spec (bufpos c) 0) as [Hb|Hb].
  - assert (sentlen c < bufpos c) as Hlt by (unfold head_len in Hs; rewrite Z.gtb_ltb, (proj2 (Z.ltb_lt _ _)) in Hs by lia; lia).
    rewrite uwrap_small by (unfold in_u, PROTO_REPLY_CHUNK_BYTES in *; lia). set (data := drop (Z.to_nat (sentlen c)) (take (Z.to_nat (bufpos c)) (buf c))).
    assert (mread (buf c) (sentlen c) (bufpos c - sentlen c) = Some data) as ->.
    { rewrite mread_is_Some by lia. f_equal. unfold data. rewrite take_drop_commute. f_equal. f_equal. lia. }
    assert (zlen data = bufpos c - sentlen c) as Hzd by (unfold data; rewrite zlen_drop, zlen_take; lia). cbn [mbind option_bind].
    destruct ws as [|[| |n] ws]; [apply Hstop; intros _; change (zlen (@nil write_result)) with 0; lia|apply Hstop; intros [(? & ? & _) _]%Forall_cons; done..|].
    destruct (Z.leb_spec (Z.min n (zlen data)) 0) as [Hz|Hz]; [apply Hstop; intros Ht _; apply (Hroom n data); [lia|done|by eexists|done]|].
    destruct (write_buffer c (Z.min n (zlen data)) Hok Hh Hb Hz ltac:(lia)) as [Hw Hmc]. cbv zeta.
    apply Hnext; [done|lia|by intros [_ ?]%Forall_cons|by rewrite zlen_cons].
  - assert (bufpos c = 0) as Hb0 by lia. destruct (reply c) as [|[id [b|]] rest] eqn:El.
    { unfold clientHasPendingReplies in Hp. by rewrite Hb0, El in Hp. }
    2:{ unfold hole_free in Hh. rewrite El in Hh. by apply Forall_cons in Hh as [? _]. }
    apply Forall_cons in Hn as [Hbk _]. pose proof Hbk as (Hu & Hz & Hmx). rewrite (proj2 (Z.eqb_neq _ _)) by lia.
    assert (sentlen c < blk_used b) as Hlt by (unfold head_len in Hs; rewrite Hb0, El in Hs; cbn in Hs; lia).
    rewrite uwrap_small by (unfold in_u; lia). set (data := drop (Z.to_nat (sentlen c)) (take (Z.to_nat (blk_used b)) (blk_buf b))).
    assert (mread (blk_buf b) (sentlen c) (blk_used b - sentlen c) = Some data) as ->.
    { rewrite mread_is_Some by lia. f_equal. unfold data. rewrite take_drop_commute. f_equal. f_equal. lia. }
    assert (zlen data = blk_used b - sentlen c) as Hzd by (unfold data; rewrite zlen_drop, zlen_take; lia). cbn [mbind option_bind].
    destruct ws as [|[| |n] ws]; [apply Hstop; intros _; change (zlen (@nil write_result)) with 0; lia|apply Hstop; intros [(? & ? & _) _]%Forall_cons; done..|].
    destruct (Z.leb_spec (Z.min n (zlen data)) 0) as [Hz0|Hz0]; [apply Hstop; intros Ht _; apply (Hroom n data); [lia|done|by eexists|done]|].
    rewrite <- El in Hsz. destruct (write_block c id b rest (Z.min n (zlen data)) Hok Hh Hb0 El Hsz Hz0 ltac:(lia)) as (c2 & E2 & Hw & Hmc).
    cbv zeta in E2 |- *. cbn [sentlen bufpos buf set_buf reply set_reply next_node reply_bytes] in E2 |- *. rewrite E2. cbn [mbind option_bind].
    apply Hnext; [done|lia|by intros [_ ?]%Forall_cons|by rewrite zlen_cons].
Qed.

Lemma writeToClient_spec c handler_installed ws :
  out_ok c -> hole_free c -> sizes (reply c) < 2 ^ 63 ->
  exists c' r w, writeToClient server c handler_installed ws = Some (c', r, w) /\ flat c = map Byte w ++ flat c' /\
    out_ok c' /\ hole_free c' /\ config c' = config c /\ next_node c' = next_node c /\ sizes (reply c') <= sizes (reply c) /\
    CLIENT_CLOSE_ASAP c' = CLIENT_CLOSE_ASAP c /\ CLIENT_PENDING_WRITE c' = CLIENT_PENDING_WRITE c /\ CLIENT_PROTECTED c' = CLIENT_PROTECTED c /\
    (clientHasPendingReplies c' = true -> write_handler c' = write_handler c) /\
    valid c' = (match r with C_OK => valid c | C_ERR => false end) /\
    (taking ws -> measure c <= zlen ws -> write_done c' w /\ (r = C_ERR -> clientHasPendingReplies c' = false)).
Proof using Type.
  intros Hok Hh Hsz. unfold writeToClient. pose proof Hok as (_ & _ & _ & _ & Hs0 & _).
  destruct (write_loop_spec (Z.to_nat (pending_len c)) ws c [] Hok Hh Hsz) as (c1 & err & w & -> & (Hok1 & Hh1 & Hf & (A & B & N & D & E & F & G) & Hz) & Hdone);
    [unfold measure; lia|]. cbn [mbind option_bind app]. destruct err.
  { exists (free_out c1), C_ERR, w. split_and!; try done. intros Ht Hl. by destruct (Hdone Ht Hl). }
  set (c2 := if (zlen w >? 0) && _ then _ else c1).
  assert (same_out c1 c2 /\ CLIENT_CLOSE_ASAP c2 = CLIENT_CLOSE_ASAP c1 /\ CLIENT_PENDING_WRITE c2 = CLIENT_PENDING_WRITE c1 /\
    CLIENT_PROTECTED c2 = CLIENT_PROTECTED c1 /\ write_handler c2 = write_handler c1) as (Hs & D2 & E2 & F2 & G2) by (unfold c2; destruct (_ && _); done).
  clearbody c2. destruct (same_out_ok c1 c2 Hs Hok1) as [Hok2 Hr2]. pose proof (pending_same c1 c2 Hs) as Hpd.
  pose proof Hs as (A2 & B2 & _ & _ & S2 & R2 & N2 & _).
  assert (flat c2 = flat c1) as Hf2 by (unfold flat; by rewrite Hr2, S2). assert (hole_free c2) as Hh2 by (unfold hole_free; by rewrite R2).
  destruct (clientHasPendingReplies c2) eqn:Hp2; cbn [negb].
  - exists c2, C_OK, w. split; [done|]. rewrite Hf2, A2, N2, R2, D2, E2, F2, G2, B2. split_and!; try done.
    intros Ht Hl. destruct (Hdone Ht Hl) as [_ [Hd|Hd]]; [congruence|]. split; [by right|done].
  - set (c3 := if handler_installed then _ else _).
    assert (same_out c2 c3 /\ CLIENT_CLOSE_ASAP c3 = CLIENT_CLOSE_ASAP c2 /\ CLIENT_PENDING_WRITE c3 = CLIENT_PENDING_WRITE c2 /\ CLIENT_PROTECTED c3 = CLIENT_PROTECTED c2)
      as (Hs3 & D3 & E3 & F3).
    { destruct (none_pending c2 Hok2 Hp2) as [_ Hsl]. unfold c3, same_out. destruct handler_installed; cbn; by rewrite ?Hsl. }
    clearbody c3. destruct (same_out_ok c2 c3 Hs3 Hok2) as [Hok3 Hr3]. pose proof (pending_same c2 c3 Hs3) as Hp3. rewrite Hp2 in Hp3.
    pose proof Hs3 as (A3 & B3 & _ & _ & S3 & R3 & N3 & _).
    assert (flat c3 = flat c2) as Hf3 by (unfold flat; by rewrite Hr3, S3). assert (hole_free c3) as Hh3 by (unfold hole_free; by rewrite R3).
    assert (forall c4 r, same_out c3 (set_state c4 (CLIENT_CLOSE_ASAP c4) (CLIENT_PENDING_WRITE c4) (CLIENT_PROTECTED c4) (write_handler c4)
        (obuf_soft_limit_reached_time c4) (out_lastinteraction c4) (valid c3)) -> CLIENT_CLOSE_ASAP c4 = CLIENT_CLOSE_ASAP c3 ->
      CLIENT_PENDING_WRITE c4 = CLIENT_PENDING_WRITE c3 -> CLIENT_PROTECTED c4 = CLIENT_PROTECTED c3 ->
      valid c4 = (match r with C_OK => valid c | C_ERR => false end) ->
      exists c' r' w', Some (c4, r, w) = Some (c', r', w') /\ flat c = map Byte w' ++ flat c' /\ out_ok c' /\ hole_free c' /\ config c' = config c /\
        next_node c' = next_node c /\ sizes (reply c') <= sizes (reply c) /\ CLIENT_CLOSE_ASAP c' = CLIENT_CLOSE_ASAP c /\
        CLIENT_PENDING_WRITE c' = CLIENT_PENDING_WRITE c /\ CLIENT_PROTECTED c' = CLIENT_PROTECTED c /\
        (clientHasPendingReplies c' = true -> write_handler c' = write_handler c) /\ valid c' = (match r' with C_OK => valid c | C_ERR => false end) /\
        (taking ws -> measure c <= zlen ws -> write_done c' w' /\ (r' = C_ERR -> clientHasPendingReplies c' = false))) as Hend.
    { intros c4 r (A4 & _ & U4 & P4 & S4 & R4 & N4 & Q4) D4 E4 F4 V4. cbn in A4, U4, P4, S4, R4, N4, Q4.
      assert (clientHasPendingReplies c4 = false) as Hp4 by (unfold clientHasPendingReplies in *; by rewrite P4, R4).
      assert (raw c4 = raw c3) as Hr4 by (unfold raw; by rewrite U4, P4, R4).
      exists c4, r, w. split; [done|]. split; [unfold flat in *; rewrite Hr4, S4; congruence|].
      split; [unfold out_ok, head_len in *; by rewrite U4, P4, R4, N4, Q4, S4|]. split; [unfold hole_free; by rewrite R4|].
      rewrite A4, A3, A2, N4, N3, N2, R4, R3, R2, D4, D3, D2, E4, E3, E2, F4, F3, F2, V4, Hp4. split_and!; try done.
      intros _ _. split; [by left|done]. }
    destruct (oflag c3 CLIENT_CLOSE_AFTER_REPLY); apply Hend; try done. by rewrite B3, B2.
Qed.

(** ** Handling of the write events *)

Lemma pending_flat c : out_ok c -> clientHasPendingReplies c = true -> flat c <> [].
Proof using Type.
  intros (H1 & H2 & (Hn & _) & _ & H0 & Hs) Hp Hf. apply (f_equal zlen) in Hf. unfold flat, raw in Hf. change (zlen (@nil symbol)) with 0 in Hf. rewrite zlen_drop, zlen_app, zlen_map, zlen_take in Hf.
  pose proof (zlen_nonneg (list_syms (reply c))). unfold clientHasPendingReplies in Hp. unfold head_len in Hs. destruct (Z.gtb_spec (bufpos c) 0); [lia|].
  rewrite (proj2 (Z.eqb_eq (bufpos c) 0)) in Hp by lia. cbn [negb orb] in Hp. destruct (reply c) as [|[n v] l]; [done|]. apply Forall_cons in Hn as [Hv _].
  unfold list_syms in *. cbn [map concat] in *. rewrite zlen_app in *. pose proof (zlen_nonneg (concat (map node_syms l))).
  destruct v as [b|]; [pose proof (zlen_node n b Hv); destruct Hv as (? & ? & ?); lia|]. change (zlen (node_syms (n, None))) with 1 in *. lia.
Qed.

Definition write_step (c c' : out_client) (w : list Z) : Prop :=
  flat c = map Byte w ++ flat c' /\ out_ok c' /\ hole_free c' /\ config c' = config c /\ sizes (reply c') <= sizes (reply c) /\
  (valid c' = true -> valid c = true /\ (armed c -> armed c')).

Lemma sendReply_spec c ws :
  out_ok c -> hole_free c -> sizes (reply c) < 2 ^ 63 -> exists c' w, sendReplyToClient server c ws = Some (c', w) /\ write_step c c' w.
Proof using Type.
  intros Hok Hh Hsz. unfold sendReplyToClient.
  destruct (writeToClient_spec c true ws Hok Hh Hsz) as (c' & r & w & -> & Hf & Hok' & Hh' & A & N & Z & D & E & F & G & V & _).
  cbn [mbind option_bind]. exists c', w. split; [done|]. unfold write_step. split_and!; try done. intros Hv. rewrite V in Hv. destruct r; [|done].
  split; [done|]. intros Harm Hp Hsn. rewrite A in Hsn. rewrite D, E, F, (G Hp). apply Harm; [|done].
  destruct (clientHasPendingReplies c) eqn:Hpc; [done|]. destruct (none_pending c Hok Hpc) as [Hfl _]. rewrite Hfl in Hf. symmetry in Hf. apply app_eq_nil in Hf as [_ Hfl'].
  by destruct (pending_flat c' Hok' Hp).
Qed.

Lemma handlePending_spec c ws installed :
  out_ok c -> hole_free c -> sizes (reply c) < 2 ^ 63 -> exists c' w, handlePendingWrite server c ws installed = Some (c', w) /\ write_step c c' w.
Proof using Type.
  intros Hok Hh Hsz. unfold handlePendingWrite. cbv zeta. set (c0 := set_state c _ false _ _ _ _ _).
  assert (same_out c c0) as Hs0 by done. destruct (same_out_ok c c0 Hs0 Hok) as [Hok0 Hr0]. assert (flat c0 = flat c) as Hf0 by (unfold flat; by rewrite Hr0).
  change (CLIENT_PROTECTED c0) with (CLIENT_PROTECTED c). destruct (CLIENT_PROTECTED c) eqn:Hpr.
  { exists c0, []. split; [done|]. unfold write_step. split_and!; try done. intros Hv. split; [done|]. intros _ _ _. cbn. by rewrite !orb_true_r. }
  destruct (writeToClient_spec c0 false ws Hok0 Hh Hsz) as (c' & r & w & -> & Hf & Hok' & Hh' & A & N & Z & D & E & F & G & V & _).
  cbn [mbind option_bind]. rewrite Hf0 in Hf. destruct r; [|exists c', w; split; [done|]; unfold write_step; split_and!; try done; by rewrite V].
  destruct (clientHasPendingReplies c') eqn:Hp; [|exists c', w; split; [done|]; unfold write_step; split_and!; try done; rewrite V; intros Hv; split; [done|]; unfold armed; congruence].
  eexists _, w. split; [reflexivity|]. unfold write_step. destruct installed.
  - split_and!; try done. intros Hv. split; [by transitivity (valid c')|]. intros _ _ _. cbn. by rewrite orb_true_r.
  - assert (same_out c' (freeClientAsync c')) as Hs' by (unfold freeClientAsync; by case_match).
    destruct (same_out_ok c' _ Hs' Hok') as [Hok2 Hr2]. pose proof Hs' as (A2 & B2 & _ & _ & S2 & R2 & _). split_and!; try done.
    + unfold flat in *. by rewrite Hr2, S2.
    + unfold hole_free. by rewrite R2.
    + by rewrite A2.
    + by rewrite R2.
    + rewrite B2, V. intros Hv. split; [done|]. intros _ _ Hsn. rewrite A2 in Hsn. unfold freeClientAsync, oflag.
      destruct (CLIENT_CLOSE_ASAP c') eqn:Ha; cbn [orb]; [rewrite Ha; by rewrite !orb_true_r|].
      unfold sends in Hsn. destruct (CLIENT_LUA (oflags (config c'))); [done|]. cbn. by rewrite orb_true_r.
Qed.

(** ** Whole replies *)

Lemma hole_in c id : Hole id ∈ raw c -> (id, None) ∈ reply c.
Proof using Type.
  unfold raw, list_syms. intros [Hin|Hin]%elem_of_app.
  - apply list_elem_of_fmap in Hin as (? & ? & _). done.
  - induction (reply c) as [|[n v] l IH]; cbn in Hin; [by apply elem_of_nil in Hin|]. apply elem_of_app in Hin as [Hin|Hin]; [|apply elem_of_cons; right; auto].
    destruct v as [b|]; cbn in Hin; [apply list_elem_of_fmap in Hin as (? & ? & _); done|]. apply list_elem_of_singleton in Hin as [= ->]. apply elem_of_cons. by left.
Qed.

(** A client that takes replies does not drop them. *)
Definition steady (k : out_config) : Prop := accepts k = writable k.

Lemma deferred_replied c v nb sb (f : out_client -> option out_client) :
  steady (config c) -> out_ok c -> in_s 64 v -> 0 <= nb -> room c (nb + 1) (zlen (hdr 42 v ++ sb)) ->
  (forall c', out_ok c' -> room c' nb (zlen sb) -> config c' = config c -> replied nb sb c' (f c')) ->
  replied (nb + 1) (hdr 42 v ++ sb) c (let '(c, nd) := addDeferredMultiBulkLength c in c ← f c; setDeferredMultiBulkLength server zmalloc_usable junk c nd v).
Proof.
  intros Hst Hok Hv Hnb Hroom Hf. pose proof (zlen_nonneg sb). pose proof (zlen_nonneg (hdr 42 v)). rewrite zlen_app in Hroom.
  pose proof Hok as (_ & _ & (Hn & _ & Hlt) & _). pose proof (sizes_nonneg _ Hn).
  assert (sizes (reply c) < 2 ^ 63) as Hz by (unfold room, PROTO_REPLY_CHUNK_BYTES in Hroom; nia).
  pose proof (defer_spec c Hok Hz) as Hd. destruct (addDeferredMultiBulkLength c) as [c1 nd]. destruct Hd as [-> Ha1].
  destruct (appended_room 0 1 nb (zlen (hdr 42 v) + zlen sb) _ c c1 Ha1) as (Hr1 & Hc1 & Hok1);
    [unfold PROTO_REPLY_CHUNK_BYTES; lia|by replace (1 + nb) with (nb + 1) by lia|].
  destruct (Hf c1 Hok1) as (c2 & -> & Ha2); [by eapply room_le; [exact Hr1|lia|lia]|done|]. cbn [mbind option_bind]. rewrite Hc1 in Ha2.
  unfold replied, text in *. rewrite Hst in Ha2 |- *. destruct (writable (config c)) eqn:Hwr.
  - destruct Ha1 as [(_ & V1 & _ & R1 & S1 & Z1 & N1 & W1) Ar1]. destruct Ha2 as [(C2 & V2 & Hok2 & R2 & S2 & Z2 & N2 & W2) Ar2].
    destruct (set_deferred_spec c2 (next_node c) v Hok2 Hv) as (c3 & -> & C3 & V3 & Hok3 & R3 & S3 & _ & Z3 & N3 & W3 & Ar3).
    { apply hole_in. rewrite R2, R1. apply elem_of_app. left. apply elem_of_app. right. by apply list_elem_of_singleton. }
    { unfold room, cost, PROTO_REPLY_CHUNK_BYTES in *. nia. }
    exists c3. split; [done|]. split; [|auto]. unfold pushed. rewrite C3, C2, Hc1, V3, V2, V1, S3, S2, S1, N3, R3, R2, R1. split_and!; try done.
    + rewrite !fill_app, fill_bytes, map_app. unfold raw at 1. rewrite fill_app, fill_bytes, fill_other.
      * unfold fill. cbn. rewrite Z.eqb_refl, app_nil_r. unfold raw. by rewrite <- !app_assoc.
      * intros Hin. apply list_elem_of_fmap in Hin as (nd & E & Hin). rewrite Forall_forall in Hlt. specialize (Hlt _ Hin). cbn in Hlt. lia.
    + unfold cost, PROTO_REPLY_CHUNK_BYTES in *. rewrite zlen_app. nia.
    + lia.
    + auto.
  - exists c2. split; [done|]. eapply appended_le; [by eapply (appended_trans 0 _ [] []); [exact Ha1|exact Ha2]|]. rewrite zlen_app. unfold PROTO_REPLY_CHUNK_BYTES. nia.
Qed.

End Append.

(** * Reply programs

    What a command implementation does to its client: a sequence of replies,
    where an array whose length is known late brackets its elements. *)

Inductive rop :=
  | RStr (s : list Z) | RObj (o : robj) | RBulk (o : robj) | RBulkBuffer (s : list Z) | RBulkString (s : option (list Z))
  | RBulkInt (v : Z) | RInt (v : Z) | RArray (n : Z) | RStatus (s : list Z) | RError (s : list Z)
  | RDeferred (n : Z) (body : list rop).

(** The bytes of a reply. *)
Fixpoint wire (r : rop) : list Z :=
  match r with
  | RStr s => s
  | RObj o => obj_text o
  | RBulk o => bulk (obj_text o)
  | RBulkBuffer s => bulk s
  | RBulkString s => match s with Some s => bulk s | None => [36; 45; 49; 13; 10] end
  | RBulkInt v => bulk (ld_text v)
  | RInt v => hdr 58 v
  | RArray n => hdr 42 n
  | RStatus s => 43 :: s ++ crlf
  | RError s => error_text s
  | RDeferred n body => hdr 42 n ++ concat (map wire body)
  end.

Fixpoint pieces (r : rop) : Z :=
  match r with
  | RStr _ | RObj _ | RInt _ | RArray _ => 1
  | RDeferred _ body => foldr Z.add 0 (map pieces body) + 1
  | _ => 3
  end.

Fixpoint rop_ok (r : rop) : Prop :=
  match r with
  | RStr _ | RStatus _ | RError _ => True
  | RObj o => obj_ok o
  | RBulk o => obj_fits o
  | RBulkBuffer s => zlen s < 2 ^ 62
  | RBulkString s => match s with Some s => zlen s < 2 ^ 62 | None => True end
  | RBulkInt v | RInt v => in_s 64 v
  | RArray n => 0 <= n < 2 ^ 63
  | RDeferred n body => in_s 64 n /\ foldr and True (map rop_ok body)
  end.

Section Run.
Context (server : out_server) (zmalloc_usable : Z -> Z) (junk : nat -> Z).
#[local] Set Default Proof Using "Type*".

Fixpoint run_rop (r : rop) (c : out_client) {struct r} : option out_client :=
  match r with
  | RStr s => addReplyString server zmalloc_usable junk c s
  | RObj o => addReply server zmalloc_usable junk c o
  | RBulk o => addReplyBulk server zmalloc_usable junk c o
  | RBulkBuffer s => addReplyBulkCBuffer server zmalloc_usable junk c s
  | RBulkString s => addReplyBulkCString server zmalloc_usable junk c s
  | RBulkInt v => addReplyBulkLongLong server zmalloc_usable junk c v
  | RInt v => addReplyLongLong server zmalloc_usable junk c v
  | RArray n => addReplyMultiBulkLen server zmalloc_usable junk c n
  | RStatus s => addReplyStatus server zmalloc_usable junk c s
  | RError s => addReplyError server zmalloc_usable junk c s
  | RDeferred n body =>
    let '(c, nd) := addDeferredMultiBulkLength c in
    c ← (fix go (l : list rop) (c : out_client) : option out_client :=
           match l with [] => Some c | r :: l => c ← run_rop r c; go l c end) body c;
    setDeferredMultiBulkLength server zmalloc_usable junk c nd n
  end.

Fixpoint run_rops (l : list rop) (c : out_client) : option out_client :=
  match l with [] => Some c | r :: l => c ← run_rop r c; run_rops l c end.

(** What happens to a client: its commands reply, the queue of pending writes
    is served, its socket becomes writable, it is kept from events and back. *)
Inductive event :=
  | EvReplies (l : list rop)
  | EvPendingWrites (ws : list write_result) (installed : bool)
  | EvWritable (ws : list write_result)
  | EvProtect
  | EvUnprotect.

(** The events do not occur on a client that did not ask for them. *)
Definition run_event (c : out_client) (e : event) : option (out_client * list Z) :=
  match e with
  | EvReplies l => c ← run_rops l c; Some (c, [])
  | EvPendingWrites ws installed => if CLIENT_PENDING_WRITE c then handlePendingWrite server c ws installed else Some (c, [])
  | EvWritable ws => if write_handler c then sendReplyToClient server c ws else Some (c, [])
  | EvProtect => Some (protectClient c, [])
  | EvUnprotect => Some (unprotectClient c, [])
  end.

(** The bytes sent, in the order they were accepted by the socket. *)
Fixpoint run_events (c : out_client) (sent : list Z) (es : list event) : option (out_client * list Z) :=
  match es with
  | [] => Some (c, sent)
  | e :: es => '(c, w) ← run_event c e; if valid c then run_events c (sent ++ w) es else Some (c, sent ++ w)
  end.

Definition event_wire (e : event) : list Z := match e with EvReplies l => concat (map wire l) | _ => [] end.
Definition event_pieces (e : event) : Z := match e with EvReplies l => foldr Z.add 0 (map pieces l) | _ => 0 end.
Definition event_ok (e : event) : Prop := match e with EvReplies l => Forall rop_ok l | _ => True end.

Hypothesis allocator : forall n, 16 <= n -> n <= zmalloc_usable n <= 2 * n.

Lemma pieces_pos r : 0 < pieces r.
Proof using Type.
  revert r. fix IH 1. intros [| | | | | | | | | |n body]; cbn; try lia.
  assert (0 <= foldr Z.add 0 (map pieces body)); [|lia]. induction body as [|r body IHb]; cbn; [lia|]. specialize (IH r). lia.
Qed.

Lemma pieces_nonneg l : 0 <= foldr Z.add 0 (map pieces l).
Proof using Type. induction l as [|r l IH]; cbn; [lia|]. pose proof (pieces_pos r). lia. Qed.

Lemma replied_le n n' s c r : replied n s c r -> n <= n' -> replied n' s c r.
Proof using Type.
  intros (c' & -> & Ha) Hn. exists c'. split; [done|]. eapply appended_le; [done|]. pose proof (zlen_nonneg s). unfold PROTO_REPLY_CHUNK_BYTES. nia.
Qed.

Lemma replied_nil c : out_ok c -> replied 0 [] c (Some c).
Proof using Type.
  intros Hok. exists c. split; [done|]. split; [|done]. unfold text. replace (if accepts (config c) then map Byte [] else []) with (@nil symbol) by (by case_match).
  by apply same_out_pushed.
Qed.

(** Every reply program appends exactly its bytes. *)
Lemma run_rop_spec r : forall c,
  rop_ok r -> steady (config c) -> out_ok c -> room c (pieces r) (zlen (wire r)) -> replied (pieces r) (wire r) c (run_rop r c).
Proof.
  revert r. fix IH 1. intros [s|o|o|s|s|v|v|n|s|s|n body] c Hok Hst Hc Hr; cbn [rop_ok pieces wire run_rop] in *.
  - by apply str_replied.
  - by apply obj_replied.
  - by apply bulk_replied.
  - by apply cbuffer_replied.
  - by apply cstring_replied.
  - by apply bulklonglong_replied.
  - by apply longlong_replied.
  - by apply multibulk_replied.
  - by apply status_replied.
  - by apply error_replied.
  - destruct Hok as [Hn Hbody]. apply deferred_replied; [done|done|done|done|apply pieces_nonneg|done|].
    intros c' Hc' Hr' Hk. assert (steady (config c')) as Hst' by (by rewrite Hk). clear Hr Hst Hc Hk c Hn n.
    revert c' Hbody Hc' Hr' Hst'. induction body as [|r body IHb]; intros c Hbody Hc Hr Hst; cbn [map concat foldr] in *; [by apply replied_nil|].
    destruct Hbody as [Hrok Hbody]. pose proof (pieces_pos r). pose proof (pieces_nonneg body). pose proof (zlen_nonneg (wire r)). pose proof (zlen_nonneg (concat (map wire body))).
    apply replied_bind; [lia|done|done| |].
    + apply (IH r c Hrok Hst Hc). eapply room_le; [exact Hr|lia|]. rewrite zlen_app. lia.
    + intros c1 Hc1 Hr1 Hk1. apply IHb; [done|done|done|by rewrite Hk1].
Qed.

Lemma run_rops_spec l : forall c,
  Forall rop_ok l -> steady (config c) -> out_ok c -> room c (foldr Z.add 0 (map pieces l)) (zlen (concat (map wire l))) ->
  replied (foldr Z.add 0 (map pieces l)) (concat (map wire l)) c (run_rops l c).
Proof.
  induction l as [|r l IH]; intros c Hok Hst Hc Hr; cbn [map concat foldr run_rops] in *; [by apply replied_nil|].
  apply Forall_cons in Hok as [Hrok Hok]. pose proof (pieces_pos r). pose proof (pieces_nonneg l). pose proof (zlen_nonneg (wire r)). pose proof (zlen_nonneg (concat (map wire l))).
  apply replied_bind; [lia|done|done| |].
  - apply run_rop_spec; [done..|]. eapply room_le; [exact Hr|lia|]. rewrite zlen_app. lia.
  - intros c1 Hc1 Hr1 Hk1. apply IH; [done|by rewrite Hk1|done|done].
Qed.

Lemma hole_free_raw c : hole_free c <-> forall id, Hole id ∉ raw c.
Proof using Type.
  unfold hole_free. rewrite Forall_forall. split.
  - intros Hh id Hin%hole_in. by apply Hh in Hin.
  - intros Hr [id v] Hin. destruct v as [b|]; [done|]. intros _. apply (Hr id). unfold raw. apply elem_of_app. right. unfold list_syms.
    apply list_elem_of_In, in_concat. exists [Hole id]. split; [|by left]. apply in_map_iff. exists (id, None). split; [done|]. by apply list_elem_of_In.
Qed.

Lemma unprotect_armed c : armed c -> armed (unprotectClient c).
Proof using Type.
  unfold unprotectClient. destruct (CLIENT_PROTECTED c) eqn:Hpr; [|done]. cbv zeta. set (c1 := set_state c _ _ false _ _ _ _). intros _.
  destruct (clientHasPendingReplies c1) eqn:Hp; [|intros Hp'; congruence]. unfold clientInstallWriteHandler.
  destruct (CLIENT_PENDING_WRITE c1) eqn:Hpw; cbn [negb andb]; [intros _ _; by rewrite Hpw|].
  destruct ((replstate (config c1) =? REPL_STATE_NONE) || _) eqn:Hon; [intros _ _; reflexivity|].
  intros _ Hs. unfold sends in Hs. rewrite Hon, andb_false_r in Hs. done.
Qed.

Lemma run_event_spec c e :
  valid c = true -> steady (config c) -> out_ok c -> hole_free c -> event_ok e -> room c (event_pieces e) (zlen (event_wire e)) ->
  exists c' w, run_event c e = Some (c', w) /\ flat c ++ text (config c) (event_wire e) = map Byte w ++ flat c' /\
    out_ok c' /\ hole_free c' /\ config c' = config c /\
    sizes (reply c') <= sizes (reply c) + event_pieces e * (2 * (PROTO_REPLY_CHUNK_BYTES + zlen (event_wire e) + 16)) /\
    (valid c' = true -> armed c -> armed c').
Proof.
  intros Hv Hst Hc Hh He Hr.
  assert (forall c', same_out c c' -> (armed c -> armed c') -> event_wire e = [] -> event_pieces e = 0 ->
    exists c2 w, Some (c', []) = Some (c2, w) /\ flat c ++ text (config c) (event_wire e) = map Byte w ++ flat c2 /\
    out_ok c2 /\ hole_free c2 /\ config c2 = config c /\
    sizes (reply c2) <= sizes (reply c) + event_pieces e * (2 * (PROTO_REPLY_CHUNK_BYTES + zlen (event_wire e) + 16)) /\
    (valid c2 = true -> armed c -> armed c2)) as Hstay.
  { intros c' Hs Ha -> ->. destruct (same_out_ok c c' Hs Hc) as [Hc' Hr']. destruct Hs as (A & B & _ & _ & S & R & _). exists c', []. split; [done|].
    split; [unfold text, flat; rewrite Hr', S; case_match; cbn; by rewrite app_nil_r|]. split; [done|].
    split; [unfold hole_free; by rewrite R|]. rewrite R. split_and!; try done. lia. }
  assert (forall c' w, write_step c c' w -> event_wire e = [] -> event_pieces e = 0 ->
    exists c2 w2, Some (c', w) = Some (c2, w2) /\ flat c ++ text (config c) (event_wire e) = map Byte w2 ++ flat c2 /\
    out_ok c2 /\ hole_free c2 /\ config c2 = config c /\
    sizes (reply c2) <= sizes (reply c) + event_pieces e * (2 * (PROTO_REPLY_CHUNK_BYTES + zlen (event_wire e) + 16)) /\
    (valid c2 = true -> armed c -> armed c2)) as Hwrite.
  { intros c' w (Hf & Hok' & Hh' & A & Z & Ha) -> ->. exists c', w. split; [done|]. split; [unfold text; case_match; cbn; by rewrite app_nil_r|].
    split_and!; try done; [lia|]. intros Hv'. by apply Ha. }
  pose proof Hc as (_ & _ & (Hn & _) & _). pose proof (sizes_nonneg _ Hn).
  assert (sizes (reply c) < 2 ^ 63) as Hz.
  { pose proof (zlen_nonneg (event_wire e)). assert (0 <= event_pieces e) by (destruct e; cbn; [apply pieces_nonneg|lia..]). unfold room, PROTO_REPLY_CHUNK_BYTES in Hr. nia. }
  destruct e as [l|ws installed|ws| |]; cbn [event_ok run_event] in *.
  - destruct (run_rops_spec l c He Hst Hc Hr) as (c' & -> & Hp & Ha). cbn [mbind option_bind]. exists c', []. split; [done|].
    rewrite (pushed_flat _ _ _ _ Hp Hc). destruct Hp as (A & B & Hc' & R & _ & Z & _). split; [done|]. split_and!; try done.
    apply hole_free_raw. intros id. rewrite R. intros [Hin|Hin]%elem_of_app; [by apply (proj1 (hole_free_raw c) Hh id)|].
    unfold text in Hin. case_match; [apply list_elem_of_fmap in Hin as (? & ? & _); done|by apply elem_of_nil in Hin].
  - destruct (CLIENT_PENDING_WRITE c); [|by apply Hstay]. destruct (handlePending_spec server c ws installed Hc Hh Hz) as (c' & w & -> & Hw). by apply Hwrite.
  - destruct (write_handler c); [|by apply Hstay]. destruct (sendReply_spec server c ws Hc Hh Hz) as (c' & w & -> & Hw). by apply Hwrite.
  - apply Hstay; [done| |done|done]. intros _ _ _. cbn. by rewrite orb_true_r.
  - apply Hstay; [|  |done|done].
    + unfold unprotectClient, clientInstallWriteHandler. repeat case_match; done.
    + apply unprotect_armed.
Qed.

Definition stream (es : list event) : list Z := concat (map event_wire es).
Definition total_pieces (es : list event) : Z := foldr Z.add 0 (map event_pieces es).

Lemma event_pieces_nonneg e : 0 <= event_pieces e.
Proof using Type. destruct e; cbn; [apply pieces_nonneg|lia..]. Qed.

Lemma total_nonneg es : 0 <= total_pieces es.
Proof using Type. unfold total_pieces. induction es as [|e es IH]; cbn; [lia|]. pose proof (event_pieces_nonneg e). lia. Qed.

Lemma run_events_spec es : forall c sent,
  valid c = true -> steady (config c) -> out_ok c -> hole_free c -> Forall event_ok es -> room c (total_pieces es) (zlen (stream es)) ->
  exists c' sent' rest, run_events c sent es = Some (c', sent') /\
    map Byte sent ++ flat c ++ text (config c) (stream es) = map Byte sent' ++ rest /\
    (valid c' = true -> rest = flat c' /\ out_ok c' /\ hole_free c' /\ config c' = config c /\ (armed c -> armed c')).
Proof.
  induction es as [|e es IH]; intros c sent Hv Hst Hc Hh He Hr.
  - exists c, sent, (flat c). cbn. split; [done|]. split; [|done]. unfold text. case_match; cbn; by rewrite app_nil_r.
  - apply Forall_cons in He as [He Hes]. unfold stream, total_pieces in Hr. cbn [map concat foldr] in Hr. fold (stream es) in Hr. fold (total_pieces es) in Hr. rewrite zlen_app in Hr.
    pose proof (event_pieces_nonneg e). pose proof (total_nonneg es). pose proof (zlen_nonneg (event_wire e)). pose proof (zlen_nonneg (stream es)).
    cbn [run_events]. destruct (run_event_spec c e Hv Hst Hc Hh He) as (c1 & w & -> & Hf & Hc1 & Hh1 & Hk & Hz & Ha);
      [eapply room_le; [exact Hr|lia|lia]|]. cbn [mbind option_bind].
    assert (map Byte sent ++ flat c ++ text (config c) (stream (e :: es)) = map Byte (sent ++ w) ++ flat c1 ++ text (config c) (stream es)) as E.
    { unfold stream. cbn [map concat]. rewrite <- text_app, (app_assoc (flat c)), Hf, map_app. by rewrite <- !app_assoc. }
    rewrite E. destruct (valid c1) eqn:Hv1; [|exists c1, (sent ++ w), (flat c1 ++ text (config c) (stream es)); split; [done|]; split; [done|]; congruence].
    rewrite <- Hk. destruct (IH c1 (sent ++ w) Hv1) as (c' & sent' & rest & -> & E' & Hend); [by rewrite Hk|done|done|done| |].
    { unfold room, PROTO_REPLY_CHUNK_BYTES in *. nia. }
    exists c', sent', rest. split; [done|]. split; [done|]. intros Hv'. destruct (Hend Hv') as (? & ? & ? & ? & ?). split_and!; try done. auto.
Qed.

(** ** Draining the buffers *)

(** The server serves the client by the queue of pending writes or by its
    write event. *)
Definition serve (c : out_client) (ws : list write_result) : option (out_client * list Z) :=
  if CLIENT_PENDING_WRITE c then handlePendingWrite server c ws true else if write_handler c then sendReplyToClient server c ws else Some (c, []).

Fixpoint serve_all (c : out_client) (sent : list Z) (wss : list (list write_result)) : option (out_client * list Z) :=
  match wss with
  | [] => Some (c, sent)
  | ws :: wss =>
    if valid c && clientHasPendingReplies c then '(c, w) ← serve c ws; serve_all c (sent ++ w) wss else Some (c, sent)
  end.

Lemma list_syms_len l :
  Forall node_ok l -> Forall (fun nd => snd nd <> None) l ->
  foldr Z.add 0 (map (fun nd : node => match snd nd with Some b => blk_used b + 1 | None => 1 end) l) = zlen (list_syms l) + zlen l /\
  zlen l <= zlen (list_syms l).
Proof using Type.
  induction 1 as [|[n [b|]] l Hn _ IH]; intros Hh; [done| |by apply Forall_cons in Hh as [? _]]. apply Forall_cons in Hh as [_ Hh].
  destruct (IH Hh) as [E Hle]. cbn [map foldr snd]. unfold list_syms in *. cbn [map concat]. rewrite zlen_app, (zlen_node n b Hn), zlen_cons, E. destruct Hn as (? & ? & ?). lia.
Qed.

Lemma measure_flat c : out_ok c -> hole_free c -> measure c <= 2 * zlen (flat c).
Proof using Type.
  intros Hok Hh. pose proof (sent_in_raw c Hok) as Hle. pose proof Hok as (H1 & H2 & (Hn & _) & _ & H0 & Hs). destruct (list_syms_len _ Hn Hh) as [E Hl].
  unfold measure, pending_len, flat. rewrite E, zlen_drop. unfold raw in *. rewrite zlen_app, zlen_map, zlen_take in *. unfold head_len in Hs.
  destruct (Z.gtb_spec (bufpos c) 0); [lia|]. unfold hole_free in Hh. destruct (reply c) as [|[n [b|]] l]; [lia| |by apply Forall_cons in Hh as [? _]].
  apply Forall_cons in Hn as [Hb Hn]. apply Forall_cons in Hh as [_ Hh]. destruct (list_syms_len _ Hn Hh) as [_ Hl']. unfold list_syms in *. cbn [map concat] in *.
  rewrite zlen_app, (zlen_node n b Hb), zlen_cons in *. destruct Hb as (? & ? & ?). lia.
Qed.

(** A client that can be served. *)
Definition servable (c : out_client) : Prop :=
  valid c = true /\ out_ok c /\ hole_free c /\ sizes (reply c) < 2 ^ 63 /\ armed c /\ sends (config c) = true /\
  CLIENT_CLOSE_ASAP c = false /\ CLIENT_PROTECTED c = false.

Lemma serve_spec c ws :
  servable c -> clientHasPendingReplies c = true -> taking ws -> 2 * zlen (flat c) <= zlen ws ->
  exists c' w, serve c ws = Some (c', w) /\ flat c = map Byte w ++ flat c' /\
    (clientHasPendingReplies c' = false /\ flat c' = [] \/ NET_MAX_WRITES_PER_EVENT < zlen w /\ servable c').
Proof using Type.
  intros (Hv & Hok & Hh & Hsz & Harm & Hse & Has & Hpr) Hp Ht Hl. pose proof (measure_flat c Hok Hh) as Hm. unfold serve.
  assert (forall c0 h, same_out c c0 -> CLIENT_CLOSE_ASAP c0 = false -> CLIENT_PROTECTED c0 = false ->
    exists c' r w, writeToClient server c0 h ws = Some (c', r, w) /\ flat c = map Byte w ++ flat c' /\
     (clientHasPendingReplies c' = false /\ flat c' = [] \/ NET_MAX_WRITES_PER_EVENT < zlen w /\ r = C_OK /\ valid c' = true /\ out_ok c' /\ hole_free c' /\ sizes (reply c') < 2 ^ 63 /\ sends (config c') = true /\
       CLIENT_CLOSE_ASAP c' = false /\ CLIENT_PROTECTED c' = false /\ clientHasPendingReplies c' = true /\ write_handler c' = write_handler c0)) as Hw.
  { intros c0 h Hs D0 F0. destruct (same_out_ok c c0 Hs Hok) as [Hok0 Hr0]. pose proof Hs as (A0 & V0 & _ & P0 & S0 & R0 & _).
    assert (flat c0 = flat c) as Hf0 by (unfold flat; by rewrite Hr0, S0). assert (measure c0 = measure c) as Hm0 by (unfold measure, pending_len; by rewrite P0, R0, S0).
    destruct (writeToClient_spec server c0 h ws Hok0) as (c' & r & w & E & Hf & Hok' & Hh' & A & N & Z & D & EE & F & G & V & Hd);
      [unfold hole_free; by rewrite R0|by rewrite R0|]. exists c', r, w. split; [done|]. rewrite Hf0 in Hf. split; [done|].
    destruct (clientHasPendingReplies c') eqn:Hp'; [|left; split; [done|by apply none_pending]]. right. destruct Hd as [[?|Hd] Her]; [done|lia|congruence|].
    split; [done|]. destruct r; [|by specialize (Her eq_refl)]. rewrite A, A0, V, V0, D, D0, F, F0, R0 in *. split_and!; try done; [lia|auto]. }
  destruct (CLIENT_PENDING_WRITE c) eqn:Hpw.
  - unfold handlePendingWrite. cbv zeta. set (c0 := set_state c _ false _ _ _ _ _). change (CLIENT_PROTECTED c0) with (CLIENT_PROTECTED c). rewrite Hpr.
    destruct (Hw c0 false) as (c' & r & w & -> & Hf & Hor); [done|done|done|]. cbn [mbind option_bind]. destruct Hor as [[Hp' Hnil]|(Hlim & -> & Hrest)].
    + exists c', w. rewrite Hp'. split; [by destruct r|]. split; [done|by left].
    + destruct Hrest as (V' & Hok' & Hh' & Hz' & Hs' & D' & F' & Hp' & G'). rewrite Hp'. eexists _, w. split; [reflexivity|]. split; [exact Hf|].
      right. split; [done|]. unfold servable. split_and!; try done. intros _ _. cbn. by rewrite orb_true_r.
  - assert (write_handler c = true) as Hwh by (specialize (Harm Hp Hse); rewrite Hpw, Has, Hpr, !orb_false_r in Harm; done). rewrite Hwh. unfold sendReplyToClient.
    destruct (Hw c true) as (c' & r & w & -> & Hf & Hor); [done|done|done|]. cbn [mbind option_bind]. exists c', w. split; [done|]. split; [done|].
    destruct Hor as [?|(Hlim & -> & V' & Hok' & Hh' & Hz' & Hs' & D' & F' & Hp' & G')]; [by left|]. right. split; [done|].
    unfold servable. split_and!; try done. intros _ _. rewrite G', Hwh. by rewrite orb_true_r.
Qed.

Lemma serve_all_spec wss : forall c sent,
  servable c -> Forall (fun ws => taking ws /\ 2 * zlen (flat c) <= zlen ws) wss -> zlen (flat c) <= NET_MAX_WRITES_PER_EVENT * zlen wss ->
  exists c' sent', serve_all c sent wss = Some (c', sent') /\ map Byte sent' = map Byte sent ++ flat c.
Proof using Type.
  induction wss as [|ws wss IH]; intros c sent Hsv Hws Hl.
  - change (zlen (@nil (list write_result))) with 0 in Hl. pose proof (zlen_nonneg (flat c)). exists c, sent. split; [done|].
    assert (flat c = []) as ->; [|by rewrite app_nil_r]. destruct (flat c) as [|x l]; [done|]. rewrite zlen_cons in *. pose proof (zlen_nonneg l). lia.
  - apply Forall_cons in Hws as [[Ht Hlw] Hws]. cbn [serve_all]. pose proof Hsv as (-> & Hok & _). cbn [andb].
    destruct (clientHasPendingReplies c) eqn:Hp; [|destruct (none_pending c Hok Hp) as [-> _]; exists c, sent; by rewrite app_nil_r].
    destruct (serve_spec c ws Hsv Hp Ht Hlw) as (c1 & w & -> & Hf & Hor). cbn [mbind option_bind]. rewrite Hf. destruct Hor as [[Hp1 Hnil]|[Hlim Hsv1]].
    + assert (exists c', serve_all c1 (sent ++ w) wss = Some (c', sent ++ w)) as (c' & Hc').
      { destruct wss as [|ws' wss]; [by eexists|]. cbn [serve_all]. rewrite Hp1, andb_false_r. by eexists. }
      exists c', (sent ++ w). split; [done|]. rewrite Hnil, app_nil_r, map_app. done.
    + destruct (IH c1 (sent ++ w) Hsv1) as (c' & sent' & -> & E).
      * eapply Forall_impl; [exact Hws|]. intros ws' [? Hl']. split; [done|]. apply (f_equal zlen) in Hf. rewrite zlen_app, zlen_map in Hf. pose proof (zlen_nonneg w). lia.
      * apply (f_equal zlen) in Hf. rewrite zlen_app, zlen_map in Hf. rewrite zlen_cons in Hl. unfold NET_MAX_WRITES_PER_EVENT in *. lia.
      * exists c', sent'. split; [done|]. rewrite E, map_app. by rewrite <- app_assoc.
Qed.

End Run.

(** ** Claims *)

Lemma flat_bytes_hole_free c pend : out_ok c -> flat c = map Byte pend -> hole_free c.
Proof.
  intros Hok Hf. apply hole_free_raw. intros id Hin. destruct (sent_bytes c Hok) as (p & E & _). rewrite E, Hf, <- map_app in Hin.
  apply list_elem_of_fmap in Hin as (? & ? & _). done.
Qed.


Definition demo_out_server : out_server := mk_out_server (fun _ => mk_limits 0 0 0) 100 0 0.
Definition demo_config : out_config :=
  mk_config (mk_out_flags false false false false false false false false false false) 5 REPL_STATE_NONE false.
Definition demo_out : out_client :=
  mk_out demo_config false false false false (repeat 0 (Z.to_nat PROTO_REPLY_CHUNK_BYTES)) 0 0 [] 0 0 0 0 true.
Definition demo_events : list event :=
  [EvReplies [RStatus [79; 75]; RDeferred 2 [RBulk (OBJ_INT (-5)); RBulkString None]];
   EvPendingWrites [WR_ROOM 3; WR_AGAIN] true; EvReplies [RInt 1]; EvWritable [WR_ROOM 2; WR_ROOM 9]].

Lemma demo_out_ok : out_ok demo_out.
Proof.
  unfold out_ok, list_ok. split_and!; try done; try apply NoDup_nil_2; try by left.
Qed.


(** C21 No reply is left behind: a client that may be written to, is not being
    freed and is scheduled as the previous property says, has all its
    pending output sent after finitely many services by the event loop (the
    queue of pending writes, then the write event), provided the socket
    takes some bytes at every write; each service sends everything or more
    than [NET_MAX_WRITES_PER_EVENT] bytes and leaves the client scheduled. *)
Theorem replies_drained server c wss :
  servable c -> Forall (fun ws => taking ws /\ 2 * zlen (flat c) <= zlen ws) wss ->
  zlen (flat c) <= NET_MAX_WRITES_PER_EVENT * zlen wss ->
  exists c' sent, serve_all server c [] wss = Some (c', sent) /\ map Byte sent = flat c.
Proof. intros Hs Hws Hl. destruct (serve_all_spec server wss c [] Hs Hws Hl) as (c' & sent & ? & ?). by exists c', sent. Qed.

(** A block of two bytes of which one was sent. *)
Definition demo_pending : out_client :=
  mk_out demo_config false true false false (repeat 0 (Z.to_nat PROTO_REPLY_CHUNK_BYTES)) 0 1 [(0, Some (mk_block 3 2 [88; 89; 0]))] 1 3 0 0 true.

Lemma replies_drained_witness :
  exists c' sent, serve_all demo_out_server demo_pending [] [[WR_ROOM 1; WR_ROOM 1]] = Some (c', sent) /\ map Byte sent = [Byte 89].
Proof.
  apply (replies_drained demo_out_server demo_pending [[WR_ROOM 1; WR_ROOM 1]]).
  - unfold servable, out_ok, list_ok, hole_free, head_len. split_and!; try done; try apply NoDup_singleton; try by right.
    all: repeat constructor; cbn; first [lia|done].
  - constructor; [|constructor]. split; [|vm_compute; discriminate]. repeat constructor; exists 1; split; reflexivity.
  - vm_compute. discriminate.
Defined.
