(* ===== verification/Replication.v ===== *)
(** * The replication stream of a master ([replication.c])

    The backlog, a circular buffer with the most recent bytes of the stream
    and the offset of the first of them; the propagation of commands to the
    backlog and to the output buffers of the attached replicas; partial
    resynchronisation, which sends a replica what it has missed.  The output
    of a replica is the component [Replies]; what it does with the bytes it
    receives is the component [Networking]. *)

From S2P Require Import Prelude Numstr Networking Replies.
From stdpp Require Import options.

Definition CONFIG_REPL_BACKLOG_MIN_SIZE : Z := 1024 * 16.
Definition LONG_STR_SIZE : Z := 21.
Definition PROTO_SHARED_SELECT_CMDS : Z := 10.
Definition SLAVE_STATE_WAIT_BGSAVE_START : Z := 6.

Record backlog := mk_backlog {
  repl_backlog : option (list Z);
  repl_backlog_size : Z;
  repl_backlog_histlen : Z;
  repl_backlog_idx : Z;
  repl_backlog_off : Z;
  master_repl_offset : Z;
}.

Record repl_server := mk_repl {
  log : backlog;
  has_master : bool;              (* server.masterhost != NULL *)
  slaveseldb : Z;
  replid : list Z;
  replid2 : list Z;
  second_replid_offset : Z;
  slaves : list out_client;
}.

Section Master.
Context (server : out_server) (zmalloc_usable : Z -> Z) (junk : nat -> Z).

(** ** The backlog *)

Definition createReplicationBacklog (b : backlog) : option backlog :=
  match repl_backlog b with
  | Some _ => None
  | None => Some (mk_backlog (Some (mrealloc junk [] (repl_backlog_size b))) (repl_backlog_size b) 0 0 (master_repl_offset b + 1) (master_repl_offset b))
  end.

Definition resizeReplicationBacklog (b : backlog) (newsize : Z) : backlog :=
  let newsize := if newsize <? CONFIG_REPL_BACKLOG_MIN_SIZE then CONFIG_REPL_BACKLOG_MIN_SIZE else newsize in
  if repl_backlog_size b =? newsize then b else
  match repl_backlog b with
  | Some _ => mk_backlog (Some (mrealloc junk [] newsize)) newsize 0 0 (master_repl_offset b + 1) (master_repl_offset b)
  | None => mk_backlog None newsize (repl_backlog_histlen b) (repl_backlog_idx b) (repl_backlog_off b) (master_repl_offset b)
  end.

Definition freeReplicationBacklog (st : repl_server) : option repl_server :=
  if negb (zlen (slaves st) =? 0) then None else
  let b := log st in
  Some (mk_repl (mk_backlog None (repl_backlog_size b) (repl_backlog_histlen b) (repl_backlog_idx b) (repl_backlog_off b) (master_repl_offset b))
          (has_master st) (slaveseldb st) (replid st) (replid2 st) (second_replid_offset st) (slaves st)).

(** [while(len)]; every iteration writes at least a byte. *)
Fixpoint feed_loop (fuel : nat) (m : list Z) (size idx histlen : Z) (p : list Z) : option (list Z * Z * Z) :=
  if zlen p =? 0 then Some (m, idx, histlen) else
  match fuel with
  | O => None
  | S fuel =>
    let thislen := uwrap 64 (size - idx) in
    let thislen := if thislen >? zlen p then zlen p else thislen in
    m ← mwrite m idx (take (Z.to_nat thislen) p);
    let idx := idx + thislen in
    let idx := if idx =? size then 0 else idx in
    feed_loop fuel m size idx (histlen + thislen) (drop (Z.to_nat thislen) p)
  end.

Definition feedReplicationBacklog (b : backlog) (p : list Z) : option backlog :=
  m ← repl_backlog b;
  let off := master_repl_offset b + zlen p in
  '(m, idx, histlen) ← feed_loop (length p) m (repl_backlog_size b) (repl_backlog_idx b) (repl_backlog_histlen b) p;
  let histlen := if histlen >? repl_backlog_size b then repl_backlog_size b else histlen in
  Some (mk_backlog (Some m) (repl_backlog_size b) histlen idx (off - histlen + 1) off).

Definition feedReplicationBacklogWithObject (b : backlog) (o : robj) : option backlog :=
  match o with
  | OBJ_INT n =>
    '(d, len) ← ll2string (mrealloc junk [] LONG_STR_SIZE) LONG_STR_SIZE n;
    p ← mread d 0 len;
    feedReplicationBacklog b p
  | OBJ_STR s => feedReplicationBacklog b s
  end.

(** ** Partial resynchronisation *)

(** The loop of [addReplyReplicationBacklog]: the part up to the end of the
    buffer, then the part from its start. *)
Fixpoint send_loop (fuel : nat) (c : out_client) (m : list Z) (size j len : Z) : option out_client :=
  if len =? 0 then Some c else
  match fuel with
  | O => None
  | S fuel =>
    let thislen := if size - j <? len then size - j else len in
    s ← mread m j thislen;
    c ← addReplySds server zmalloc_usable junk c s;
    send_loop fuel c m size 0 (len - thislen)
  end.

Definition addReplyReplicationBacklog (b : backlog) (c : out_client) (offset : Z) : option (out_client * Z) :=
  if repl_backlog_histlen b =? 0 then Some (c, 0) else
  m ← repl_backlog b;
  let skip := offset - repl_backlog_off b in
  let j := Z.rem (repl_backlog_idx b + (repl_backlog_size b - repl_backlog_histlen b)) (repl_backlog_size b) in
  let j := Z.rem (j + skip) (repl_backlog_size b) in
  let len := repl_backlog_histlen b - skip in
  c ← send_loop 2 c m (repl_backlog_size b) j len;
  Some (c, repl_backlog_histlen b - skip).

Definition tolower (c : Z) : Z := if (65 <=? c) && (c <=? 90) then c + 32 else c.

(** The bytes of a string up to its terminator. *)
Fixpoint cstr (s : list Z) : list Z :=
  match s with
  | [] => []
  | c :: s => if c =? 0 then [] else c :: cstr s
  end.

(** [strcasecmp(a,b) == 0] *)
Definition strcaseeq (a b : list Z) : bool := bool_decide (map tolower (cstr a) = map tolower (cstr b)).

Definition getLongLongFromObject (o : robj) : option Z :=
  match o with
  | OBJ_STR s => string2ll s
  | OBJ_INT n => Some n
  end.

(** "value is not an integer or out of range" *)
Definition not_an_integer : list Z :=
  [118; 97; 108; 117; 101; 32; 105; 115; 32; 110; 111; 116; 32; 97; 110; 32; 105; 110; 116; 101; 103; 101; 114; 32; 111; 114; 32;
   111; 117; 116; 32; 111; 102; 32; 114; 97; 110; 103; 101].

Definition getLongLongFromObjectOrReply (c : out_client) (o : robj) (msg : option (list Z)) : option (out_client * option Z) :=
  match getLongLongFromObject o with
  | Some value => Some (c, Some value)
  | None =>
    c ← addReplyError server zmalloc_usable junk c (match msg with Some m => m | None => not_an_integer end);
    Some (c, None)
  end.

(** Whether the stream can be continued from [psync_offset]. *)
Definition can_continue (st : repl_server) (master_replid : list Z) (psync_offset : Z) : bool :=
  let b := log st in
  if negb (strcaseeq master_replid (replid st)) && (negb (strcaseeq master_replid (replid2 st)) || (psync_offset >? second_replid_offset st)) then false else
  match repl_backlog b with
  | None => false
  | Some _ => negb ((psync_offset <? repl_backlog_off b) || (psync_offset >? repl_backlog_off b + repl_backlog_histlen b))
  end.

(** The client becomes an online replica. *)
Definition as_replica (c : out_client) : out_client :=
  let f := oflags (config c) in
  mk_out (mk_config (mk_out_flags (CLIENT_LUA f) (CLIENT_MODULE f) (CLIENT_REPLY_OFF f) (CLIENT_REPLY_SKIP f) (CLIENT_MASTER f)
                       (CLIENT_MASTER_FORCE_REPLY f) true (CLIENT_MONITOR f) (CLIENT_PUBSUB f) (CLIENT_CLOSE_AFTER_REPLY f))
                    (fd (config c)) SLAVE_STATE_ONLINE false)
    (CLIENT_CLOSE_ASAP c) (CLIENT_PENDING_WRITE c) (CLIENT_PROTECTED c) (write_handler c) (buf c) (bufpos c) (sentlen c) (reply c) (next_node c)
    (reply_bytes c) (obuf_soft_limit_reached_time c) (out_lastinteraction c) (valid c).

(** [+CONTINUE], with the replication id for a replica that knows PSYNC2. *)
Definition continue_line (st : repl_server) (psync2 : bool) : list Z :=
  [43; 67; 79; 78; 84; 73; 78; 85; 69] ++ (if psync2 then 32 :: cstr (replid st) else []) ++ crlf.

(** [psync2] is the capability the replica announced, [w] what [write]
    returns for the [+CONTINUE] line.  Beside the new state and the client,
    which the list of replicas holds when the answer is [C_OK], the result has
    the bytes written straight to the socket. *)
Definition masterTryPartialResynchronization (st : repl_server) (c : out_client) (psync2 : bool) (argv1 : list Z) (argv2 : robj) (w : Z)
    : option (repl_server * out_client * list Z * rc) :=
  '(c, psync_offset) ← getLongLongFromObjectOrReply c argv2 None;
  match psync_offset with
  | None => Some (st, c, [], C_ERR)
  | Some offset =>
    if can_continue st argv1 offset then
      let c := as_replica c in
      let buf := continue_line st psync2 in
      c ← (if negb (w =? zlen buf) then Some (freeClientAsync c)
           else '(c, _) ← addReplyReplicationBacklog (log st) c offset; Some c);
      Some (mk_repl (log st) (has_master st) (slaveseldb st) (replid st) (replid2 st) (second_replid_offset st) (slaves st ++ [c]),
            c, take (Z.to_nat w) buf, C_OK)
    else Some (st, c, [], C_ERR)
  end.

(** ** Propagation *)

Definition stringObjectLen (o : robj) : Z := match o with OBJ_STR s => zlen s | OBJ_INT n => sdigits10 n end.

(** [aux]: a prefix, a number and CRLF. *)
Definition aux_line (prefix v : Z) : option (list Z * Z) :=
  let aux := mrealloc junk [] (LONG_STR_SIZE + 3) in
  aux ← mwrite aux 0 [prefix];
  '(digits, len) ← ll2string (drop 1 aux) (LONG_STR_SIZE + 2) v;
  aux ← mwrite aux 1 digits;
  aux ← mwrite aux (len + 1) [13];
  aux ← mwrite aux (len + 2) [10];
  Some (aux, len).

Definition feed_line (b : backlog) (prefix v : Z) : option (backlog * list Z * Z) :=
  '(aux, len) ← aux_line prefix v;
  p ← mread aux 0 (len + 3);
  b ← feedReplicationBacklog b p;
  Some (b, aux, len).

Fixpoint feed_args (b : backlog) (argv : list robj) : option backlog :=
  match argv with
  | [] => Some b
  | o :: argv =>
    '(b, aux, len) ← feed_line b 36 (stringObjectLen o);
    b ← feedReplicationBacklogWithObject b o;
    p ← mread aux (len + 1) 2;
    b ← feedReplicationBacklog b p;
    feed_args b argv
  end.

(** [f] on every replica that is not waiting for the background save. *)
Definition feed_slaves (f : out_client -> option out_client) (l : list out_client) : option (list out_client) :=
  mapM (fun c => if replstate (config c) =? SLAVE_STATE_WAIT_BGSAVE_START then Some c else f c) l.

(** The text of a SELECT command, its number converted in a buffer of [n]
    bytes. *)
Definition select_text (n dictid : Z) : option robj :=
  '(d, len) ← ll2string (mrealloc junk [] n) n dictid;
  str ← mread d 0 len;
  Some (OBJ_STR ([42; 50; 13; 10; 36; 54; 13; 10; 83; 69; 76; 69; 67; 84; 13; 10; 36] ++ ld_text len ++ [13; 10] ++ str ++ [13; 10])).

Definition shared_select (j : Z) : option robj := select_text 64 j.

Definition selectcmd (dictid : Z) : option robj :=
  if (0 <=? dictid) && (dictid <? PROTO_SHARED_SELECT_CMDS) then shared_select dictid else select_text LONG_STR_SIZE dictid.

Fixpoint add_bulks (c : out_client) (argv : list robj) : option out_client :=
  match argv with
  | [] => Some c
  | o :: argv => c ← addReplyBulk server zmalloc_usable junk c o; add_bulks c argv
  end.

Definition replicationFeedSlaves (st : repl_server) (dictid : Z) (argv : list robj) : option repl_server :=
  let set_log st b l := mk_repl b (has_master st) dictid (replid st) (replid2 st) (second_replid_offset st) l in
  if has_master st then Some st else
  let nolog := match repl_backlog (log st) with None => true | Some _ => false end in
  if nolog && (zlen (slaves st) =? 0) then Some st else
  if negb (zlen (slaves st) =? 0) && nolog then None else
  st ← (if negb (slaveseldb st =? dictid) then
          cmd ← selectcmd dictid;
          b ← (if nolog then Some (log st) else feedReplicationBacklogWithObject (log st) cmd);
          l ← feed_slaves (fun c => addReply server zmalloc_usable junk c cmd) (slaves st);
          Some (set_log st b l)
        else Some (set_log st (log st) (slaves st)));
  b ← (if nolog then Some (log st) else
         '(b, _, _) ← feed_line (log st) 42 (zlen argv);
         feed_args b argv);
  l ← feed_slaves (fun c => c ← addReplyMultiBulkLen server zmalloc_usable junk c (zlen argv); add_bulks c argv) (slaves st);
  Some (set_log st b l).

(** The stream of our own master, forwarded as it came. *)
Definition replicationFeedSlavesFromMasterStream (st : repl_server) (bytes : list Z) : option repl_server :=
  b ← (match repl_backlog (log st) with Some _ => feedReplicationBacklog (log st) bytes | None => Some (log st) end);
  l ← feed_slaves (fun c => addReplyString server zmalloc_usable junk c bytes) (slaves st);
  Some (mk_repl b (has_master st) (slaveseldb st) (replid st) (replid2 st) (second_replid_offset st) l).

End Master.

(** * The backlog holds the end of the stream *)

(** The place of the [k]-th last byte. *)
Definition back (size idx k : Z) : Z := if k <=? idx then idx - k else size + idx - k.

(** The circular buffer holds the last [n] bytes of [s]. *)
Definition holds (m : list Z) (size idx : Z) (s : list Z) (n : Z) : Prop :=
  zlen m = size /\ 0 <= idx < size /\ 0 <= n <= size /\ n <= zlen s /\
  forall k, 1 <= k <= n -> m !! Z.to_nat (back size idx k) = s !! Z.to_nat (zlen s - k).

Lemma holds_write m size idx s n t :
  holds m size idx s n -> 0 < zlen t <= size - idx ->
  exists m', mwrite m idx t = Some m' /\
    holds m' size (if idx + zlen t =? size then 0 else idx + zlen t) (s ++ t) (Z.min size (n + zlen t)).
Proof.
  intros (Hz & Hi & Hn & Hns & Hk) Ht. destruct (mwrite_is_Some m idx t) as [m' Hm]; [lia|lia|]. exists m'. split; [done|].
  apply mwrite_Some in Hm as (_ & _ & Hz' & Hl). unfold holds. rewrite zlen_app. split; [lia|]. split; [destruct (Z.eqb_spec (idx + zlen t) size); lia|]. split; [lia|]. split; [lia|].
  intros k Hkr. rewrite Hl. set (idx' := if idx + zlen t =? size then 0 else idx + zlen t).
  assert (back size idx' k = if k <=? zlen t then idx + zlen t - k else back size idx (k - zlen t)) as ->.
  { unfold idx', back. destruct (Z.eqb_spec (idx + zlen t) size), (Z.leb_spec k (zlen t)); repeat case_match; rewrite ?Z.leb_le, ?Z.leb_gt in *; lia. }
  destruct (Z.leb_spec k (zlen t)) as [Hle|Hgt].
  - rewrite decide_True by lia. rewrite lookup_app_r by (unfold zlen in *; lia). f_equal. unfold zlen in *. lia.
  - assert (0 <= back size idx (k - zlen t) < size /\ ~ (idx <= back size idx (k - zlen t) < idx + zlen t)) as [Hb1 Hb2].
    { unfold back. case_match; rewrite ?Z.leb_le, ?Z.leb_gt in *; lia. }
    rewrite decide_False by lia. rewrite (Hk (k - zlen t)) by lia. rewrite lookup_app_l by (unfold zlen in *; lia). f_equal. lia.
Qed.

Lemma feed_loop_spec fuel : forall m size idx s histlen p,
  holds m size idx s (Z.min size histlen) -> 0 <= histlen -> zlen p <= Z.of_nat fuel -> size < 2 ^ 63 ->
  exists m' idx', feed_loop fuel m size idx histlen p = Some (m', idx', histlen + zlen p) /\ holds m' size idx' (s ++ p) (Z.min size (histlen + zlen p)).
Proof.
  induction fuel as [|fuel IH]; intros m size idx s histlen p Hh H0 Hf Hsz; pose proof (zlen_nonneg p); cbn [feed_loop];
    (destruct (Z.eqb_spec (zlen p) 0) as [E|E]; [exists m, idx; destruct p; [|rewrite zlen_cons in E; pose proof (zlen_nonneg p); lia];
       rewrite app_nil_r; change (zlen (@nil Z)) with 0; by rewrite Z.add_0_r|]); [lia|].
  pose proof Hh as (Hz & Hi & _). rewrite uwrap_small by (unfold in_u; lia). cbv zeta. set (n := if _ >? _ then _ else _).
  assert (0 < n <= zlen p /\ n <= size - idx) as Hn by (unfold n; case_match; rewrite ?Z.gtb_lt in *; lia).
  destruct (split_len p n (zlen p - n)) as (t & p' & -> & Ht & Hp'); [lia..|]. assert (Z.to_nat n = length t) as -> by (unfold zlen in *; lia).
  rewrite take_app_length, drop_app_length. destruct (holds_write m size idx s (Z.min size histlen) t Hh) as (m' & -> & Hh'); [lia|]. cbn [mbind option_bind].
  rewrite <- Ht. destruct (IH m' size (if idx + zlen t =? size then 0 else idx + zlen t) (s ++ t) (histlen + zlen t) p') as (m2 & idx2 & -> & Hh2); [|lia|rewrite zlen_app in Hf; lia|done|].
  - replace (Z.min size (histlen + zlen t)) with (Z.min size (Z.min size histlen + zlen t)) by lia. exact Hh'.
  - exists m2, idx2. rewrite zlen_app, app_assoc, Z.add_assoc. done.
Qed.

(** The backlog with the stream [s] that started at offset [r0]. *)
Definition backlog_ok (b : backlog) (s : list Z) (r0 : Z) : Prop :=
  0 < repl_backlog_size b < 2 ^ 63 /\ master_repl_offset b = r0 + zlen s /\
  repl_backlog_off b = master_repl_offset b - repl_backlog_histlen b + 1 /\
  exists m, repl_backlog b = Some m /\ holds m (repl_backlog_size b) (repl_backlog_idx b) s (repl_backlog_histlen b).

Lemma feed_spec b s r0 p :
  backlog_ok b s r0 -> exists b', feedReplicationBacklog b p = Some b' /\ backlog_ok b' (s ++ p) r0 /\ repl_backlog_size b' = repl_backlog_size b /\
    repl_backlog_histlen b' = Z.min (repl_backlog_size b) (repl_backlog_histlen b + zlen p).
Proof.
  intros (Hsz & Hoff & Hfirst & m & Hm & Hh). unfold feedReplicationBacklog. rewrite Hm. cbn [mbind option_bind]. pose proof Hh as (_ & _ & Hn & _). pose proof (zlen_nonneg p).
  destruct (feed_loop_spec (length p) m (repl_backlog_size b) (repl_backlog_idx b) s (repl_backlog_histlen b) p) as (m' & idx' & -> & Hh');
    [by rewrite Z.min_r by lia|lia|unfold zlen; lia|lia|]. cbn [mbind option_bind].
  replace (if _ >? _ then _ else _) with (Z.min (repl_backlog_size b) (repl_backlog_histlen b + zlen p))
    by (destruct (Z.gtb_spec (repl_backlog_histlen b + zlen p) (repl_backlog_size b)); lia).
  eexists. split; [reflexivity|]. split; [|done]. unfold backlog_ok. cbn. rewrite zlen_app. split_and!; try lia. by exists m'.
Qed.

(** An empty backlog for the stream from here on. *)
Lemma empty_backlog_ok junk size off s r0 :
  0 < size < 2 ^ 63 -> off = r0 + zlen s -> backlog_ok (mk_backlog (Some (mrealloc junk [] size)) size 0 0 (off + 1) off) s r0.
Proof.
  intros Hs Ho. unfold backlog_ok. cbn. split_and!; try lia. eexists. split; [done|]. unfold holds. pose proof (zlen_nonneg s).
  split; [rewrite zlen_mrealloc; lia|]. split_and!; try lia.
Qed.

Lemma backlog_resize_spec junk b s r0 n :
  backlog_ok b s r0 -> n < 2 ^ 63 ->
  backlog_ok (resizeReplicationBacklog junk b n) s r0 /\
  repl_backlog_size (resizeReplicationBacklog junk b n) = Z.max CONFIG_REPL_BACKLOG_MIN_SIZE n /\
  repl_backlog_histlen (resizeReplicationBacklog junk b n) =
    if repl_backlog_size b =? Z.max CONFIG_REPL_BACKLOG_MIN_SIZE n then repl_backlog_histlen b else 0.
Proof.
  intros Hb Hn. unfold resizeReplicationBacklog. cbv zeta.
  replace (if n <? CONFIG_REPL_BACKLOG_MIN_SIZE then _ else _) with (Z.max CONFIG_REPL_BACKLOG_MIN_SIZE n) by (destruct (Z.ltb_spec n CONFIG_REPL_BACKLOG_MIN_SIZE); lia).
  destruct (Z.eqb_spec (repl_backlog_size b) (Z.max CONFIG_REPL_BACKLOG_MIN_SIZE n)); [done|]. destruct Hb as (Hsz & Hoff & _ & m & -> & _).
  split; [|done]. apply empty_backlog_ok; [|done]. unfold CONFIG_REPL_BACKLOG_MIN_SIZE in *. lia.
Qed.

(** Reading a run of places back. *)
Lemma holds_read m size idx s n j len :
  holds m size idx s n -> 0 < len <= n -> 0 <= j -> 0 <= len -> forall t, 0 < t <= len -> j + t <= size -> back size idx len = j ->
  mread m j t = Some (take (Z.to_nat t) (drop (Z.to_nat (zlen s - len)) s)).
Proof.
  intros (Hz & Hi & Hn & Hns & Hk) Hl Hj _ t Ht Hjt Hb. apply mread_Some. split_and!; try lia.
  - rewrite zlen_take, zlen_drop. lia.
  - intros i Hlt. rewrite lookup_take_lt by lia. rewrite lookup_drop.
    assert (back size idx (len - Z.of_nat i) = j + Z.of_nat i) as Hbi.
    { unfold back in *. destruct (Z.leb_spec len idx), (Z.leb_spec (len - Z.of_nat i) idx); lia. }
    specialize (Hk (len - Z.of_nat i) ltac:(lia)). rewrite Hbi in Hk. replace (Z.to_nat j + i)%nat with (Z.to_nat (j + Z.of_nat i)) by lia. rewrite Hk. f_equal. lia.
Qed.

Lemma first_index size idx n skip :
  0 < size -> 0 <= idx < size -> 0 <= n <= size -> 0 <= skip -> 1 <= n - skip ->
  Z.rem (Z.rem (idx + (size - n)) size + skip) size = back size idx (n - skip).
Proof.
  intros Hs Hi Hn Hk Hl. rewrite (Z.rem_mod_nonneg (idx + (size - n))) by lia. pose proof (Z.mod_pos_bound (idx + (size - n)) size Hs).
  rewrite Z.rem_mod_nonneg by lia. rewrite Zplus_mod_idemp_l. symmetry. unfold back. destruct (Z.leb_spec (n - skip) idx).
  - apply (Z.mod_unique _ _ 1); lia.
  - apply (Z.mod_unique _ _ 0); lia.
Qed.

Section Resync.
Context (server : out_server) (zmalloc_usable : Z -> Z) (junk : nat -> Z).
Hypothesis allocator : forall n, 16 <= n -> n <= zmalloc_usable n <= 2 * n.
#[local] Set Default Proof Using "Type*".

Lemma sds_replied c s : out_ok c -> room c 1 (zlen s) -> replied 1 s c (addReplySds server zmalloc_usable junk c s).
Proof. exact (str_replied server zmalloc_usable junk allocator c s). Qed.

(** The last [len] bytes of the stream, in one piece or in two. *)
Lemma send_loop_spec c m size idx s n len :
  holds m size idx s n -> 0 <= len <= n -> out_ok c -> room c 2 len ->
  let s' := drop (Z.to_nat (zlen s - len)) s in
  replied 2 s' c (send_loop server zmalloc_usable junk 2 c m size (back size idx len) len).
Proof.
  intros Hh Hl Hok Hroom s'. pose proof Hh as (Hz & Hi & Hn & Hns & _).
  assert (zlen s' = len) as Hs' by (unfold s'; rewrite zlen_drop; lia). unfold send_loop at 1. fold send_loop.
  destruct (Z.eqb_spec len 0) as [->|Hne].
  { destruct s' eqn:E; [|rewrite zlen_cons in Hs'; pose proof (zlen_nonneg l); lia]. apply (replied_le 0); [by apply replied_nil|lia]. }
  set (j := back size idx len) in *. assert (0 <= j < size) as Hj by (unfold j, back; case_match; lia).
  set (t := if size - j <? len then size - j else len). cbv zeta.
  assert (0 < t <= len /\ j + t <= size) as Ht by (unfold t; destruct (Z.ltb_spec (size - j) len); lia).
  rewrite (holds_read m size idx s n j len) by (done || lia). fold s'. cbn [mbind option_bind].
  rewrite <- (take_drop (Z.to_nat t) s') at 1. apply (replied_bind 1 1); [lia|lia|by rewrite take_drop, Hs'| |].
  - apply sds_replied; [done|]. eapply room_le; [done|lia|]. rewrite zlen_take. lia.
  - intros c1 Hok1 Hr1 _. destruct (Z.eqb_spec (len - t) 0) as [E|E].
    { rewrite drop_ge by (unfold zlen in *; lia). apply (replied_le 0); [by apply replied_nil|lia]. }
    assert (t = size - j) as Et by (unfold t in *; destruct (Z.ltb_spec (size - j) len); lia).
    assert (back size idx (len - t) = 0) as Hb by (rewrite Et; unfold j, back in *; repeat case_match; rewrite ?Z.leb_le, ?Z.leb_gt in *; lia).
    replace (if size - 0 <? len - t then size - 0 else len - t) with (len - t) by (destruct (Z.ltb_spec (size - 0) (len - t)); lia).
    rewrite (holds_read m size idx s n 0 (len - t)) by (done || lia). cbn [mbind option_bind]. rewrite Z.sub_diag. change (0 =? 0) with true. cbn [option_bind].
    assert (drop (Z.to_nat t) s' = drop (Z.to_nat (zlen s - (len - t))) s) as Ed by (unfold s'; rewrite drop_drop; f_equal; lia).
    rewrite Ed, (take_ge (drop _ _)) by (rewrite length_drop; unfold zlen in *; lia). rewrite <- Ed.
    destruct (sds_replied c1 (drop (Z.to_nat t) s') Hok1 Hr1) as (c2 & -> & Ha). by exists c2.
Qed.

Lemma addReplyReplicationBacklog_spec b s r0 c offset :
  backlog_ok b s r0 -> repl_backlog_off b <= offset <= repl_backlog_off b + repl_backlog_histlen b ->
  let s' := drop (Z.to_nat (offset - 1 - r0)) s in
  out_ok c -> room c 2 (zlen s') ->
  exists c', addReplyReplicationBacklog server zmalloc_usable junk b c offset = Some (c', zlen s') /\ replied 2 s' c (Some c').
Proof.
  intros (Hsz & Hoff & Hfirst & m & Hm & Hh) Ho s' Hok Hr. pose proof Hh as (Hz & Hi & Hn & Hns & _). unfold addReplyReplicationBacklog.
  set (n := repl_backlog_histlen b) in *. assert (zlen s' = n - (offset - repl_backlog_off b)) as Hl by (unfold s'; rewrite zlen_drop; lia).
  destruct (Z.eqb_spec n 0) as [E|E].
  { exists c. assert (zlen s' = 0) as E0 by lia. rewrite E0. split; [done|]. destruct s'; [|rewrite zlen_cons in E0; pose proof (zlen_nonneg s'); lia].
    apply (replied_le 0); [by apply replied_nil|lia]. }
  assert (offset - 1 - r0 = zlen s - zlen s') as Eo by lia. rewrite Hm. cbn [mbind option_bind]. cbv zeta.
  assert (replied 2 s' c (send_loop server zmalloc_usable junk 2 c m (repl_backlog_size b)
    (Z.rem (Z.rem (repl_backlog_idx b + (repl_backlog_size b - n)) (repl_backlog_size b) + (offset - repl_backlog_off b)) (repl_backlog_size b)) (zlen s'))) as Hsend.
  { destruct (Z.eq_dec (zlen s') 0) as [E0|E0].
    - rewrite E0. cbn. destruct s'; [|rewrite zlen_cons in E0; pose proof (zlen_nonneg s'); lia]. apply (replied_le 0); [by apply replied_nil|lia].
    - pose proof (zlen_nonneg s'). rewrite first_index, <- Hl by lia.
      pose proof (send_loop_spec c m _ _ s n (zlen s') Hh ltac:(lia) Hok Hr) as Hs. cbv zeta in Hs. by rewrite <- Eo in Hs. }
  rewrite <- Hl. destruct Hsend as (c' & -> & Ha). exists c'. split; [done|]. by exists c'.
Qed.

(** ** The backlog against its specification *)

Inductive log_op := LFeed (p : list Z) | LResize (newsize : Z).

Definition log_op_ok (op : log_op) : Prop := match op with LFeed _ => True | LResize n => n < 2 ^ 63 end.

(** What the backlog promises: its size, the stream so far, and how many of its
    last bytes can still be asked for.  A change of the size flushes the old
    buffer, to be refilled with new data. *)
Definition spec_op (st : Z * list Z * Z) (op : log_op) : Z * list Z * Z :=
  let '(size, s, kept) := st in
  match op with
  | LFeed p => (size, s ++ p, Z.min size (kept + zlen p))
  | LResize n => let n := Z.max CONFIG_REPL_BACKLOG_MIN_SIZE n in if size =? n then st else (n, s, 0)
  end.

Definition run_log_op (b : backlog) (op : log_op) : option backlog :=
  match op with
  | LFeed p => feedReplicationBacklog b p
  | LResize n => Some (resizeReplicationBacklog junk b n)
  end.

Fixpoint run_log (b : backlog) (ops : list log_op) : option backlog :=
  match ops with
  | [] => Some b
  | op :: ops => b ← run_log_op b op; run_log b ops
  end.

Lemma run_log_spec ops : forall b size s kept r0,
  Forall log_op_ok ops -> backlog_ok b s r0 -> repl_backlog_size b = size -> repl_backlog_histlen b = kept ->
  let '(size', s', kept') := fold_left spec_op ops (size, s, kept) in
  exists b', run_log b ops = Some b' /\ backlog_ok b' s' r0 /\ repl_backlog_size b' = size' /\ repl_backlog_histlen b' = kept'.
Proof using Type.
  induction ops as [|op ops IH]; intros b size s kept r0 Hops Hb Hsz Hk; [by exists b|]. apply Forall_cons in Hops as [Hop Hops]. cbn [fold_left run_log].
  destruct op as [p|n]; cbn [spec_op run_log_op mbind option_bind].
  - destruct (feed_spec b s r0 p Hb) as (b1 & -> & Hb1 & Hsz1 & Hk1). cbn [mbind option_bind]. apply IH; [done..|by rewrite Hsz1|by rewrite Hk1, Hsz, Hk].
  - destruct (backlog_resize_spec junk b s r0 n Hb Hop) as (Hb1 & Hsz1 & Hk1). rewrite Hsz in *. rewrite Hk in Hk1.
    destruct (size =? Z.max CONFIG_REPL_BACKLOG_MIN_SIZE n) eqn:E; apply IH; try done; apply Z.eqb_eq in E; lia.
Qed.

Lemma as_replica_out c : out_ok c -> out_ok (as_replica c) /\ flat (as_replica c) = flat c /\ accepts (config (as_replica c)) = accepts (config c).
Proof using Type. done. Qed.

(** A request for a known history: continued when the stream is still there,
    refused without a trace otherwise. *)
Lemma resync_spec st s r0 c psync2 id o offset w :
  backlog_ok (log st) s r0 -> strcaseeq id (replid st) = true -> getLongLongFromObject o = Some offset ->
  out_ok c -> accepts (config c) = true -> room c 2 (zlen s) ->
  exists st' c' direct r, masterTryPartialResynchronization server zmalloc_usable junk st c psync2 id o w = Some (st', c', direct, r) /\
  if bool_decide (zlen s - repl_backlog_histlen (log st) <= offset - 1 - r0 <= zlen s) then
    r = C_OK /\ log st' = log st /\ slaves st' = slaves st ++ [c'] /\ out_ok c' /\
    (w = zlen (continue_line st psync2) ->
     direct = continue_line st psync2 /\ flat c' = flat c ++ map Byte (drop (Z.to_nat (offset - 1 - r0)) s))
  else r = C_ERR /\ st' = st /\ c' = c /\ direct = [].
Proof.
  intros Hb Hid Ho Hok Hacc Hroom. unfold masterTryPartialResynchronization, getLongLongFromObjectOrReply. rewrite Ho. cbn [mbind option_bind].
  pose proof Hb as (_ & Hoff & Hfirst & m & Hm & (_ & _ & Hn & _)). unfold can_continue. rewrite Hid, Hm. cbn [negb andb].
  set (k := repl_backlog_histlen (log st)) in *. destruct (bool_decide _) eqn:E.
  - apply bool_decide_eq_true in E. rewrite (proj2 (Z.ltb_ge _ _)), Z.gtb_ltb, (proj2 (Z.ltb_ge _ _)) by lia. cbn [negb orb].
    destruct (as_replica_out c Hok) as (Hok1 & Hf1 & Ha1). destruct (Z.eqb_spec w (zlen (continue_line st psync2))) as [->|Hw]; cbn [negb].
    + destruct (addReplyReplicationBacklog_spec (log st) s r0 (as_replica c) offset Hb) as (c' & -> & c'' & [= <-] & [Hp _]); [fold k; lia|done| |].
      { apply (room_le c 2 _ (zlen s)); [done|lia|]. rewrite zlen_drop. pose proof (zlen_nonneg s). lia. }
      cbn [mbind option_bind]. do 4 eexists. split; [reflexivity|]. split; [done|]. split; [done|]. split; [done|].
      pose proof (pushed_flat _ _ _ _ Hp Hok1) as Hf. destruct Hp as (_ & _ & Hok' & _). split; [exact Hok'|]. intros _. split.
      * apply take_ge. unfold zlen. lia.
      * rewrite Hf, Hf1. unfold text. by rewrite Ha1, Hacc.
    + cbn [mbind option_bind]. do 4 eexists. split; [reflexivity|]. split; [done|]. split; [done|]. split; [done|]. split; [|done].
      unfold freeClientAsync. case_match; exact Hok1.
  - apply bool_decide_eq_false in E. do 4 eexists. rewrite Z.gtb_ltb.
    destruct (Z.ltb_spec offset (repl_backlog_off (log st))), (Z.ltb_spec (repl_backlog_off (log st) + k) offset); cbn [negb orb]; try (split; [reflexivity|done]); lia.
Qed.

(** ** Commands in the backlog *)

(** The bytes [x] were added to the stream. *)
Definition logged (b : backlog) (x : list Z) (r : option backlog) : Prop :=
  forall s r0, backlog_ok b s r0 -> exists b', r = Some b' /\ backlog_ok b' (s ++ x) r0.

Lemma logged_feed b x : logged b x (feedReplicationBacklog b x).
Proof using Type. intros s r0 Hb. destruct (feed_spec b s r0 x Hb) as (b' & -> & Hb' & _). by exists b'. Qed.

Lemma logged_bind b x y r f : logged b x r -> (forall b', logged b' y (f b')) -> logged b (x ++ y) (r ≫= f).
Proof using Type.
  intros Hr Hf s r0 Hb. destruct (Hr s r0 Hb) as (b1 & -> & Hb1). destruct (Hf b1 _ _ Hb1) as (b2 & E & Hb2). exists b2. by rewrite app_assoc.
Qed.

Lemma logged_nil b : logged b [] (Some b).
Proof using Type. intros s r0 Hb. exists b. by rewrite app_nil_r. Qed.

Lemma logged_obj b o : obj_ok o -> logged b (obj_text o) (feedReplicationBacklogWithObject junk b o).
Proof using Type.
  destruct o as [s|n]; intros Ho; cbn [feedReplicationBacklogWithObject obj_text]; [apply logged_feed|].
  destruct (ll2string_text (mrealloc junk [] LONG_STR_SIZE) n Ho) as (d & E & _ & Hr); [by rewrite zlen_mrealloc|].
  rewrite zlen_mrealloc in E by done. rewrite E. cbn [mbind option_bind]. rewrite Hr. apply logged_feed.
Qed.

Lemma aux_line_spec p v :
  in_s 64 v -> exists aux, aux_line junk p v = Some (aux, zlen (ld_text v)) /\
    mread aux 0 (zlen (ld_text v) + 3) = Some (hdr p v) /\ mread aux (zlen (ld_text v) + 1) 2 = Some crlf.
Proof using Type.
  intros Hv. destruct (prefix_line (mrealloc junk [] (LONG_STR_SIZE + 3)) p v Hv) as [r E]; [by rewrite zlen_mrealloc|].
  rewrite zlen_mrealloc in E by done. exists (hdr p v ++ r). split; [exact E|]. split; [apply mread_front; by rewrite hdr_len|].
  replace (hdr p v ++ r) with ((p :: ld_text v) ++ crlf ++ r) by (unfold hdr; cbn; by rewrite <- app_assoc). apply mread_off; [rewrite zlen_cons; lia|done].
Qed.

Lemma stringObjectLen_spec o : obj_ok o -> zlen (obj_text o) < 2 ^ 63 -> stringObjectLen o = zlen (obj_text o) /\ in_s 64 (stringObjectLen o).
Proof using Type.
  intros Ho Hl. assert (stringObjectLen o = zlen (obj_text o)) as -> by (destruct o as [s|n]; [done|]; cbn; by destruct (ld_text_len n Ho) as [_ ->]).
  split; [done|]. pose proof (zlen_nonneg (obj_text o)). width_lia.
Qed.

(** A command as the code writes it. *)
Definition cmd_text (argv : list robj) : list Z := hdr 42 (zlen argv) ++ concat (map (fun o => bulk (obj_text o)) argv).

Lemma logged_line b p v f y :
  in_s 64 v ->
  (forall b' aux, mread aux (zlen (ld_text v) + 1) 2 = Some crlf -> logged b' y (f (b', aux, zlen (ld_text v)))) ->
  logged b (hdr p v ++ y) (feed_line junk b p v ≫= f).
Proof using Type.
  intros Hv Hf s r0 Hb. unfold feed_line. destruct (aux_line_spec p v Hv) as (aux & -> & Hr1 & Hr2). cbn [mbind option_bind]. rewrite Hr1. cbn [mbind option_bind].
  destruct (logged_feed b (hdr p v) s r0 Hb) as (b1 & -> & Hb1). cbn [mbind option_bind]. destruct (Hf b1 aux Hr2 _ _ Hb1) as (b2 & E & Hb2). exists b2. by rewrite app_assoc.
Qed.

Lemma logged_args argv : forall b, Forall obj_fits argv -> logged b (concat (map (fun o => bulk (obj_text o)) argv)) (feed_args junk b argv).
Proof using Type.
  induction argv as [|o argv IH]; intros b Hf; [apply logged_nil|]. apply Forall_cons in Hf as [Ho Hf]. cbn [feed_args map concat].
  destruct (obj_text_len_spec o Ho) as [_ Hlt]. destruct (stringObjectLen_spec o (obj_fits_ok o Ho) ltac:(lia)) as [El Hin].
  unfold bulk. rewrite <- !app_assoc. rewrite <- El at 1. apply logged_line; [done|]. intros b1 aux Haux. apply logged_bind; [by apply logged_obj, obj_fits_ok|].
  intros b2. rewrite Haux. cbn [mbind option_bind]. apply logged_bind; [apply logged_feed|]. intros b3. by apply IH.
Qed.

Lemma logged_cmd b argv :
  Forall obj_fits argv -> zlen argv < 2 ^ 31 -> logged b (cmd_text argv) ('(b, _, _) ← feed_line junk b 42 (zlen argv); feed_args junk b argv).
Proof using Type.
  intros Hf Hn. apply logged_line; [pose proof (zlen_nonneg argv); width_lia|]. intros b1 aux _. by apply logged_args.
Qed.

Lemma bulk_enc a : bulk a = enc_arg a.
Proof using Type. unfold bulk, hdr, enc_arg, crlf, ld_text. rewrite (proj2 (Z.ltb_ge _ _)) by apply zlen_nonneg. cbn. by rewrite <- app_assoc. Qed.

Lemma cmd_text_enc argv : cmd_text argv = enc_cmd (map obj_text argv).
Proof using Type.
  unfold cmd_text, enc_cmd, enc_args, hdr, crlf, ld_text. rewrite (proj2 (Z.ltb_ge _ _)) by apply zlen_nonneg. rewrite zlen_map.
  cbn. rewrite <- app_assoc. do 3 f_equal. cbn. do 2 f_equal. f_equal. rewrite <- list_fmap_compose. apply map_ext. intros o. apply bulk_enc.
Qed.

(** "SELECT" *)
Definition SELECT : list Z := [83; 69; 76; 69; 67; 84].

Lemma selectcmd_spec dictid :
  in_s 32 dictid -> selectcmd junk dictid = Some (OBJ_STR (enc_cmd [SELECT; ld_text dictid])).
Proof using Type.
  intros Hd. assert (in_s 64 dictid) as Hv by width_lia.
  assert (forall n, 21 <= n -> select_text junk n dictid = Some (OBJ_STR (enc_cmd [SELECT; ld_text dictid]))) as Hs.
  { intros n Hn. unfold select_text. destruct (ll2string_text (mrealloc junk [] n) dictid Hv) as (d & E & _ & Hr); [rewrite zlen_mrealloc; lia|].
    rewrite zlen_mrealloc in E by lia. rewrite E. cbn [mbind option_bind]. rewrite Hr. cbn [mbind option_bind]. f_equal. f_equal.
    unfold ld_text at 1. rewrite (proj2 (Z.ltb_ge _ _)) by apply zlen_nonneg. unfold enc_cmd, enc_args. cbn. by rewrite app_nil_r. }
  unfold selectcmd, shared_select. case_match; by apply Hs.
Qed.

(** ** Commands at the replicas *)

Definition waiting (c : out_client) : bool := replstate (config c) =? SLAVE_STATE_WAIT_BGSAVE_START.

(** The replica got [x], unless it waits for the snapshot that will hold it. *)
Definition relayed (n : Z) (x : list Z) (c c' : out_client) : Prop := if waiting c then c' = c else replied n x c (Some c').

Lemma feed_slaves_spec n x f l :
  (forall c, out_ok c -> room c n (zlen x) -> replied n x c (f c)) ->
  Forall (fun c => out_ok c /\ (waiting c = false -> room c n (zlen x))) l ->
  exists l', feed_slaves f l = Some l' /\ Forall2 (relayed n x) l l'.
Proof using Type.
  intros Hf. unfold feed_slaves. induction 1 as [|c l [Hok Hr] _ IH]; [by exists []|]. destruct IH as (l' & E & Hl). cbn [mapM].
  assert (exists c', (if replstate (config c) =? SLAVE_STATE_WAIT_BGSAVE_START then Some c else f c) = Some c' /\ relayed n x c c') as (c' & -> & Hc).
  { unfold relayed, waiting in *. case_match; [by exists c|]. destruct (Hf c Hok (Hr eq_refl)) as (c' & -> & Ha). exists c'. split; [done|]. by exists c'. }
  exists (c' :: l'). split; [by rewrite E|]. by constructor.
Qed.

Lemma relayed_config n x c c' : relayed n x c c' -> config c' = config c.
Proof using Type. unfold relayed. case_match; [by intros ->|]. by intros (? & [= <-] & (? & _) & _). Qed.

Lemma relayed_trans n1 n2 x y c c1 c2 :
  0 <= n1 -> 0 <= n2 -> relayed n1 x c c1 -> relayed n2 y c1 c2 -> relayed (n1 + n2) (x ++ y) c c2.
Proof using Type.
  intros H1 H2 R1 R2. pose proof (relayed_config _ _ _ _ R1) as Hc. unfold relayed, waiting in *. rewrite Hc in R2. case_match; [by subst|].
  destruct R1 as (? & [= <-] & A1), R2 as (? & [= <-] & A2). exists c2. split; [done|]. rewrite Hc in A2. rewrite <- text_app.
  eapply appended_le; [by eapply appended_trans|]. rewrite zlen_app. pose proof (zlen_nonneg x). pose proof (zlen_nonneg y).
  unfold PROTO_REPLY_CHUNK_BYTES. nia.
Qed.

(** Room at a replica for what is left. *)
Definition replica_room (n len : Z) (c : out_client) : Prop := out_ok c /\ (waiting c = false -> room c n len).

Lemma relayed_room n1 n2 x y c c1 :
  0 <= n1 -> 0 <= n2 -> replica_room (n1 + n2) (zlen (x ++ y)) c -> relayed n1 x c c1 -> replica_room n2 (zlen y) c1.
Proof using Type.
  intros H1 H2 [Hok Hr] R. pose proof (relayed_config _ _ _ _ R) as Hc. unfold replica_room, relayed, waiting in *. rewrite Hc.
  pose proof (zlen_nonneg x). pose proof (zlen_nonneg y). rewrite zlen_app in Hr. case_match; [subst; by split|]. destruct R as (? & [= <-] & A).
  destruct (appended_room _ n1 n2 (zlen x + zlen y) _ _ _ A) as (Hr1 & _ & Hok1); [unfold PROTO_REPLY_CHUNK_BYTES; nia|by apply Hr|].
  split; [done|]. intros _. eapply room_le; [done|lia|lia].
Qed.

Lemma add_bulks_replied argv : forall c,
  out_ok c -> Forall obj_fits argv -> room c (3 * zlen argv) (zlen (concat (map (fun o => bulk (obj_text o)) argv))) ->
  replied (3 * zlen argv) (concat (map (fun o => bulk (obj_text o)) argv)) c (add_bulks server zmalloc_usable junk c argv).
Proof.
  induction argv as [|o argv IH]; intros c Hok Hf Hr; [by apply (replied_nil c)|]. apply Forall_cons in Hf as [Ho Hf]. cbn [map concat add_bulks] in *.
  pose proof (zlen_nonneg argv). rewrite zlen_cons in *. replace (3 * (1 + zlen argv)) with (3 + 3 * zlen argv) in * by lia.
  apply replied_bind; [lia|lia|done| |].
  - apply bulk_replied; [done..|]. eapply room_le; [done|lia|]. rewrite zlen_app. pose proof (zlen_nonneg (concat (map (fun o => bulk (obj_text o)) argv))).
    split; [apply zlen_nonneg|lia].
  - intros c' Hok' Hr' _. by apply IH.
Qed.

Lemma cmd_replied argv c :
  out_ok c -> Forall obj_fits argv -> zlen argv < 2 ^ 31 -> room c (1 + 3 * zlen argv) (zlen (cmd_text argv)) ->
  replied (1 + 3 * zlen argv) (cmd_text argv) c
    (c ← addReplyMultiBulkLen server zmalloc_usable junk c (zlen argv); add_bulks server zmalloc_usable junk c argv).
Proof.
  intros Hok Hf Hn Hr. pose proof (zlen_nonneg argv). apply replied_bind; [lia|lia|done| |].
  - apply multibulk_replied; [done|done|lia|]. eapply room_le; [done|lia|]. unfold cmd_text. rewrite zlen_app.
    pose proof (zlen_nonneg (concat (map (fun o => bulk (obj_text o)) argv))). split; [apply zlen_nonneg|lia].
  - intros c' Hok' Hr' _. by apply add_bulks_replied.
Qed.

(** ** One command *)

(** What a command becomes on the stream. *)
Definition stream_cmds (seldb dictid : Z) (argv : list robj) : list (list (list Z)) :=
  (if seldb =? dictid then [] else [[SELECT; ld_text dictid]]) ++ [map obj_text argv].

Definition same_history (st st' : repl_server) : Prop :=
  has_master st' = has_master st /\ replid st' = replid st /\ replid2 st' = replid2 st /\ second_replid_offset st' = second_replid_offset st.

Lemma select_step st s r0 dictid n len :
  backlog_ok (log st) s r0 -> in_s 32 dictid -> slaveseldb st <> dictid -> 0 <= n ->
  let x := enc_cmds [[SELECT; ld_text dictid]] in
  Forall (replica_room (1 + n) (zlen x + len)) (slaves st) -> 0 <= len ->
  exists cmd b l, selectcmd junk dictid = Some cmd /\ feedReplicationBacklogWithObject junk (log st) cmd = Some b /\
    feed_slaves (fun c => addReply server zmalloc_usable junk c cmd) (slaves st) = Some l /\
    backlog_ok b (s ++ x) r0 /\ Forall2 (relayed 1 x) (slaves st) l.
Proof.
  intros Hb Hd Hne Hn x Hr Hlen. rewrite (selectcmd_spec dictid Hd). assert (x = enc_cmd [SELECT; ld_text dictid]) as Ex by (unfold x, enc_cmds; cbn [fmap list_fmap concat]; by rewrite app_nil_r).
  destruct (logged_obj (log st) (OBJ_STR x) I s r0 Hb) as (b & Eb & Hb'). cbn [obj_text] in Hb'.
  destruct (feed_slaves_spec 1 x (fun c => addReply server zmalloc_usable junk c (OBJ_STR x)) (slaves st)) as (l & El & Hl).
  - intros c Hok Hrm. by apply (obj_replied server zmalloc_usable junk allocator c (OBJ_STR x)).
  - eapply Forall_impl; [exact Hr|]. intros c [Hok Hrm]. split; [done|]. intros Hw. apply (room_le c (1 + n) _ (zlen x + len)); [by apply Hrm|lia|]. pose proof (zlen_nonneg x). lia.
  - rewrite <- Ex. by exists (OBJ_STR x), b, l.
Qed.

(** The part of [replicationFeedSlaves] before the command. *)
Definition select_phase (st : repl_server) (dictid : Z) : option repl_server :=
  if negb (slaveseldb st =? dictid) then
    cmd ← selectcmd junk dictid;
    b ← feedReplicationBacklogWithObject junk (log st) cmd;
    l ← feed_slaves (fun c => addReply server zmalloc_usable junk c cmd) (slaves st);
    Some (mk_repl b (has_master st) dictid (replid st) (replid2 st) (second_replid_offset st) l)
  else Some (mk_repl (log st) (has_master st) dictid (replid st) (replid2 st) (second_replid_offset st) (slaves st)).

Lemma one_cmd argv : enc_cmds [map obj_text argv] = cmd_text argv.
Proof using Type. unfold enc_cmds. cbn [fmap list_fmap concat]. by rewrite app_nil_r, cmd_text_enc. Qed.

Lemma relayed_nil l n len : Forall (replica_room n len) l -> Forall2 (relayed 0 []) l l.
Proof using Type.
  induction 1 as [|c l [Hok _] _ IH]; constructor; [|done]. unfold relayed. case_match; [done|]. by apply (replied_nil c).
Qed.

Lemma select_phase_spec st s r0 dictid argv :
  backlog_ok (log st) s r0 -> in_s 32 dictid ->
  let x := enc_cmds (stream_cmds (slaveseldb st) dictid argv) in
  Forall (replica_room (2 + 3 * zlen argv) (zlen x)) (slaves st) ->
  exists st1 x1 n1, x = x1 ++ cmd_text argv /\ 0 <= n1 <= 1 /\ select_phase st dictid = Some st1 /\ slaveseldb st1 = dictid /\
    backlog_ok (log st1) (s ++ x1) r0 /\ same_history st st1 /\ Forall2 (relayed n1 x1) (slaves st) (slaves st1).
Proof.
  intros Hb Hd x Hr. unfold x, stream_cmds, select_phase in *. pose proof (zlen_nonneg argv). clear x.
  destruct (Z.eqb_spec (slaveseldb st) dictid) as [E|E]; cbn [negb].
  - eexists _, [], 0. split; [by rewrite (app_nil_l (A := list (list Z))), one_cmd|]. split; [lia|]. split; [reflexivity|]. split; [done|].
    split; [by rewrite app_nil_r|]. split; [done|]. by eapply relayed_nil.
  - rewrite enc_cmds_app, one_cmd in *. rewrite zlen_app in Hr. replace (2 + 3 * zlen argv) with (1 + (1 + 3 * zlen argv)) in Hr by lia.
    destruct (select_step st s r0 dictid (1 + 3 * zlen argv) (zlen (cmd_text argv)) Hb Hd E ltac:(lia) Hr) as (cmd & b & l & -> & E2 & E3 & Hb1 & Hl); [apply zlen_nonneg|].
    cbn [mbind option_bind]. rewrite E2. cbn [mbind option_bind]. rewrite E3. cbn [mbind option_bind]. eexists _, _, 1.
    split; [reflexivity|]. split; [lia|]. split; [reflexivity|]. done.
Qed.

Lemma Forall2_compose {A} (P Q R : A -> A -> Prop) l1 l2 l3 :
  (forall a b c, P a b -> Q b c -> R a c) -> Forall2 P l1 l2 -> Forall2 Q l2 l3 -> Forall2 R l1 l3.
Proof using Type.
  intros H H12. revert l3. induction H12 as [|a b l1 l2 Hab _ IH]; intros l3 H23; inversion H23; subst; constructor; eauto.
Qed.

Lemma relayed_le n n' x c c' : relayed n x c c' -> n <= n' -> relayed n' x c c'.
Proof using Type. unfold relayed. case_match; [done|]. intros ? ?. by eapply replied_le. Qed.

Lemma command_step st s r0 dictid argv :
  has_master st = false -> backlog_ok (log st) s r0 -> in_s 32 dictid -> Forall obj_fits argv -> zlen argv < 2 ^ 31 ->
  let x := enc_cmds (stream_cmds (slaveseldb st) dictid argv) in
  let n := 2 + 3 * zlen argv in
  Forall (replica_room n (zlen x)) (slaves st) ->
  exists st', replicationFeedSlaves server zmalloc_usable junk st dictid argv = Some st' /\ backlog_ok (log st') (s ++ x) r0 /\
    slaveseldb st' = dictid /\ same_history st st' /\ Forall2 (relayed n x) (slaves st) (slaves st').
Proof.
  intros Hm Hb Hd Hf Hn x n Hr. pose proof Hb as (_ & _ & _ & m & Em & _). pose proof (zlen_nonneg argv).
  destruct (select_phase_spec st s r0 dictid argv Hb Hd Hr) as (st1 & x1 & n1 & Ex & Hn1 & E1 & Hdb & Hb1 & Hs1 & Hl1). fold x in Ex.
  unfold replicationFeedSlaves. rewrite Hm, Em. cbn [andb]. rewrite andb_false_r. cbv zeta. unfold select_phase in E1. rewrite Hm in E1. rewrite E1.
  cbn [mbind option_bind]. clear E1.
  destruct (logged_cmd (log st1) argv Hf Hn _ _ Hb1) as (b & Eb & Hb2). cbn [mbind option_bind] in Eb. rewrite Eb. cbn [mbind option_bind].
  assert (Forall (replica_room (1 + 3 * zlen argv) (zlen (cmd_text argv))) (slaves st1)) as Hr1.
  { clear Hb1 Hs1 Eb. revert Hr. induction Hl1 as [|c c1 l l1 Hc _ IH]; intros Hr; [done|]. apply Forall_cons in Hr as [Hrc Hr]. constructor; [|by apply IH].
    rewrite Ex in Hrc. eapply (relayed_room n1 _ x1); [lia|lia| |exact Hc]. destruct Hrc as [Hok Hrc]. split; [done|]. intros Hw.
    eapply room_le; [by apply Hrc|lia|]. split; [apply zlen_nonneg|lia]. }
  destruct (feed_slaves_spec (1 + 3 * zlen argv) (cmd_text argv)
    (fun c => c ← addReplyMultiBulkLen server zmalloc_usable junk c (zlen argv); add_bulks server zmalloc_usable junk c argv) (slaves st1)) as (l & El & Hl);
    [intros c Hok Hrm; by apply cmd_replied|exact Hr1|].
  rewrite El. cbn [mbind option_bind]. eexists. split; [reflexivity|]. rewrite Ex, app_assoc. split; [done|]. split; [done|].
  destruct Hs1 as (A1 & A2 & A3 & A4). split; [exact (conj A1 (conj A2 (conj A3 A4)))|]. cbn [slaves].
  eapply Forall2_impl; [eapply (Forall2_compose _ _ (relayed (n1 + (1 + 3 * zlen argv)) (x1 ++ cmd_text argv))); [|exact Hl1|exact Hl]|].
  - intros c c1 c2 R1 R2. exact (relayed_trans n1 (1 + 3 * zlen argv) x1 (cmd_text argv) c c1 c2 ltac:(lia) ltac:(lia) R1 R2).
  - intros c c' Hc. eapply relayed_le; [exact Hc|]. unfold n. lia.
Qed.

(** ** A history of commands *)

Fixpoint run_cmds (st : repl_server) (cmds : list (Z * list robj)) : option repl_server :=
  match cmds with
  | [] => Some st
  | (dictid, argv) :: cmds => st ← replicationFeedSlaves server zmalloc_usable junk st dictid argv; run_cmds st cmds
  end.

Fixpoint stream_of (seldb : Z) (cmds : list (Z * list robj)) : list (list (list Z)) :=
  match cmds with
  | [] => []
  | (dictid, argv) :: cmds => stream_cmds seldb dictid argv ++ stream_of dictid cmds
  end.

Definition cmds_pieces (cmds : list (Z * list robj)) : Z := foldr Z.add 0 (map (fun c => 2 + 3 * zlen (snd c)) cmds).

Definition repl_cmd_ok (c : Z * list robj) : Prop := in_s 32 (fst c) /\ Forall obj_fits (snd c) /\ zlen (snd c) < 2 ^ 31.

Lemma cmds_pieces_nonneg cmds : 0 <= cmds_pieces cmds.
Proof using Type. unfold cmds_pieces. induction cmds as [|[d a] cmds IH]; cbn [map foldr fst snd]; [lia|]. pose proof (zlen_nonneg a). lia. Qed.

Lemma run_cmds_spec cmds : forall st s r0,
  has_master st = false -> backlog_ok (log st) s r0 -> Forall repl_cmd_ok cmds ->
  let x := enc_cmds (stream_of (slaveseldb st) cmds) in
  Forall (replica_room (cmds_pieces cmds) (zlen x)) (slaves st) ->
  exists st', run_cmds st cmds = Some st' /\ backlog_ok (log st') (s ++ x) r0 /\ same_history st st' /\
    Forall2 (relayed (cmds_pieces cmds) x) (slaves st) (slaves st').
Proof.
  induction cmds as [|[dictid argv] cmds IH]; intros st s r0 Hm Hb Hok x Hr.
  - exists st. split; [done|]. split; [by rewrite app_nil_r|]. split; [done|]. by eapply relayed_nil.
  - apply Forall_cons in Hok as [(Hd & Hf & Hn) Hok]. unfold x in *. clear x. cbn [stream_of run_cmds] in *. rewrite enc_cmds_app in *.
    set (x := enc_cmds (stream_cmds (slaveseldb st) dictid argv)) in *. set (y := enc_cmds (stream_of dictid cmds)) in *.
    change (cmds_pieces ((dictid, argv) :: cmds)) with (2 + 3 * zlen argv + cmds_pieces cmds) in *. pose proof (cmds_pieces_nonneg cmds).
    cbn [fst snd] in *. pose proof (zlen_nonneg argv). pose proof (zlen_nonneg x). pose proof (zlen_nonneg y).
    destruct (command_step st s r0 dictid argv Hm Hb Hd Hf Hn) as (st1 & -> & Hb1 & Hdb & Hs1 & Hl1).
    { eapply Forall_impl; [exact Hr|]. intros c [Hc Hrm]. split; [done|]. intros Hw. eapply room_le; [by apply Hrm|lia|]. fold x. rewrite zlen_app. lia. }
    fold x in Hb1, Hl1. cbn [mbind option_bind]. destruct (IH st1 (s ++ x) r0) as (st2 & -> & Hb2 & Hs2 & Hl2); [by destruct Hs1 as [-> _]|done|done| |].
    { rewrite Hdb. fold y. clear IH Hb1 Hs1. revert Hr. induction Hl1 as [|c c1 l l1 Hc _ IHl]; intros Hr; [done|]. apply Forall_cons in Hr as [Hrc Hr].
      constructor; [|by apply IHl]. eapply (relayed_room _ _ x); [|done|exact Hrc|exact Hc]. lia. }
    rewrite Hdb in *. fold y in Hb2, Hl2. exists st2. split; [done|]. split; [by rewrite app_assoc|]. split.
    + destruct Hs1 as (A1 & A2 & A3 & A4), Hs2 as (B1 & B2 & B3 & B4). unfold same_history. by rewrite B1, B2, B3, B4.
    + eapply Forall2_compose; [|exact Hl1|exact Hl2]. intros c c1 c2 R1 R2. eapply relayed_trans; [lia|lia|exact R1|exact R2].
Qed.

(** The stream, read back: every command with the database it applies to. *)
Fixpoint located (db : list Z) (cmds : list (list (list Z))) : list (list Z * list (list Z)) :=
  match cmds with
  | [] => []
  | args :: cmds =>
    match args with
    | [name; d] => if bool_decide (name = SELECT) then located d cmds else (db, args) :: located db cmds
    | _ => (db, args) :: located db cmds
    end
  end.

Definition is_select (argv : list robj) : Prop := exists d, map obj_text argv = [SELECT; d].

Lemma located_stream cmds : forall seldb,
  Forall (fun c => ~ is_select (snd c)) cmds ->
  located (ld_text seldb) (stream_of seldb cmds) = map (fun c => (ld_text (fst c), map obj_text (snd c))) cmds.
Proof using Type.
  assert (forall db argv rest, ~ is_select argv -> located db (map obj_text argv :: rest) = (db, map obj_text argv) :: located db rest) as Hone.
  { intros db argv rest Hs. cbn [located]. repeat case_match; try done. subst. case_bool_decide; [|done]. subst. exfalso. apply Hs. by eexists. }
  assert (forall db d rest, located db ([SELECT; d] :: rest) = located d rest) as Hsel by done.
  induction cmds as [|[dictid argv] cmds IH]; intros seldb Hs; [done|]. apply Forall_cons in Hs as [Hs1 Hs]. cbn [stream_of map fst snd] in *. unfold stream_cmds.
  rewrite <- app_assoc. destruct (Z.eqb_spec seldb dictid) as [->|_].
  - cbn [app]. rewrite Hone by done. by rewrite IH.
  - cbn [app]. rewrite Hsel, Hone by done. by rewrite IH.
Qed.

End Resync.

(** * The properties *)

(** C11 A replica that reconnects resumes exactly where it was.  From the
    creation of the backlog (of any size, at offset [r0]), after any sequence of
    writes to the stream and changes of the size, let [s] be the stream and
    [kept] the number of its last bytes that the specification [spec_op]
    keeps: at most the size, and those written since the size last changed
    (a resize empties the backlog, as the comment in the body of
    [resizeReplicationBacklog] explains; the one before the function says that
    the most recent bytes are kept).
    A request with the current replication id for the bytes from [offset] on
    is accepted exactly when the replica is missing none or at most [kept] of
    the bytes of the stream and is not ahead of it.  Then the replica is
    attached and gets, after the [+CONTINUE] line, the bytes of [s] it is
    missing, all of them and nothing else.  Otherwise nothing changes and
    nothing is sent. *)
Theorem psync_resumes server zmalloc_usable junk size r0 idx off hist ops st c psync2 id o offset w :
  (forall n, 16 <= n -> n <= zmalloc_usable n <= 2 * n) ->
  0 < size < 2 ^ 63 -> Forall log_op_ok ops ->
  let '(_, s, kept) := fold_left spec_op ops (size, [], 0) in
  strcaseeq id (replid st) = true -> getLongLongFromObject o = Some offset ->
  out_ok c -> accepts (config c) = true -> clientHasPendingReplies c = false -> room c 2 (zlen s) ->
  exists b st' c' direct r,
    (b0 ← createReplicationBacklog junk (mk_backlog None size hist idx off r0); run_log junk b0 ops) = Some b /\
    masterTryPartialResynchronization server zmalloc_usable junk
      (mk_repl b (has_master st) (slaveseldb st) (replid st) (replid2 st) (second_replid_offset st) (slaves st)) c psync2 id o w = Some (st', c', direct, r) /\
    let missing := zlen s - (offset - 1 - r0) in
    if bool_decide (0 <= missing <= kept) then
      r = C_OK /\ log st' = b /\ slaves st' = slaves st ++ [c'] /\
      (w = zlen (continue_line st psync2) ->
       exists got rest, s = got ++ rest /\ zlen rest = missing /\ direct = continue_line st psync2 /\ flat c' = map Byte rest)
    else r = C_ERR /\ slaves st' = slaves st /\ log st' = b /\ c' = c /\ direct = [].
Proof.
  intros Hall Hsz Hops. assert (backlog_ok (mk_backlog (Some (mrealloc junk [] size)) size 0 0 (r0 + 1) r0) [] r0) as Hb0
    by (apply empty_backlog_ok; [done|by rewrite zlen_nil, Z.add_0_r]).
  pose proof (run_log_spec junk ops _ size [] 0 r0 Hops Hb0 eq_refl eq_refl) as Hrun.
  destruct (fold_left spec_op ops (size, [], 0)) as [[size' s] kept]. intros Hid Ho Hok Hacc Hpend Hroom. destruct Hrun as (b & Eb & Hb & _ & Hk).
  set (st1 := mk_repl b (has_master st) (slaveseldb st) (replid st) (replid2 st) (second_replid_offset st) (slaves st)).
  destruct (resync_spec server zmalloc_usable junk Hall st1 s r0 c psync2 id o offset w Hb Hid Ho Hok Hacc Hroom) as (st' & c' & direct & r & E & Hres).
  exists b, st', c', direct, r. split; [exact Eb|]. split; [exact E|]. cbv zeta. change (log st1) with b in Hres. rewrite Hk in Hres.
  destruct (decide (0 <= zlen s - (offset - 1 - r0) <= kept)) as [Hd|Hd].
  - rewrite bool_decide_eq_true_2 in Hres by lia. rewrite bool_decide_eq_true_2 by done. destruct Hres as (-> & Hl & Hs & _ & Hw). do 3 (split; [done|]).
    intros Ew. destruct (Hw Ew) as [Hdir Hf]. exists (take (Z.to_nat (offset - 1 - r0)) s), (drop (Z.to_nat (offset - 1 - r0)) s).
    pose proof Hb as (_ & _ & _ & m & _ & (_ & _ & _ & Hn & _)). rewrite Hk in Hn.
    split; [by rewrite take_drop|]. split; [rewrite zlen_drop; lia|]. split; [done|]. destruct (none_pending c Hok Hpend) as [Hz _]. by rewrite Hf, Hz.
  - rewrite bool_decide_eq_false_2 in Hres by lia. rewrite bool_decide_eq_false_2 by done. by destruct Hres as (-> & -> & -> & ->).
Qed.

(** A small backlog that has wrapped around, and a replica 20 bytes behind. *)
Definition demo_ops : list log_op := [LFeed (seqZ 0 20); LFeed (seqZ 20 25)].
Definition demo_repl (l : list out_client) : repl_server :=
  mk_repl (mk_backlog (Some (repeat 0 32)) 32 0 0 101 100) false (-1) [97; 66] [48] (-1) l.

Lemma psync_resumes_witness :
  exists b st' c' direct r,
    (b0 ← createReplicationBacklog (fun _ => 0) (mk_backlog None 32 0 0 0 100); run_log (fun _ => 0) b0 demo_ops) = Some b /\
    masterTryPartialResynchronization demo_out_server (fun n => n) (fun _ => 0) (mk_repl b false (-1) [97; 66] [48] (-1) []) demo_out true [65; 98] (OBJ_STR [49; 50; 54]) 14
      = Some (st', c', direct, r) /\
    r = C_OK /\ log st' = b /\ slaves st' = [c'] /\
    exists got rest, seqZ 0 45 = got ++ rest /\ zlen rest = 20 /\ direct = continue_line (demo_repl []) true /\ flat c' = map Byte rest.
Proof.
  destruct (psync_resumes demo_out_server (fun n => n) (fun _ => 0) 32 100 0 0 0 demo_ops (demo_repl []) demo_out true [65; 98] (OBJ_STR [49; 50; 54]) 126 14)
    as (b & st' & c' & direct & r & E1 & E2 & H).
  - intros n Hn. lia.
  - lia.
  - repeat constructor.
  - reflexivity.
  - reflexivity.
  - apply demo_out_ok.
  - reflexivity.
  - reflexivity.
  - vm_compute. reflexivity.
  - exists b, st', c', direct, r. split; [exact E1|]. split; [exact E2|]. destruct H as (-> & Hl & Hs & H). split; [reflexivity|]. split; [exact Hl|]. split; [exact Hs|].
    exact (H eq_refl).
Defined.


Definition demo_waiting : out_client :=
  mk_out (mk_config (oflags demo_config) 6 SLAVE_STATE_WAIT_BGSAVE_START false) false false false false (buf demo_out) 0 0 [] 0 0 0 0 true.
Definition demo_history : list (Z * list robj) :=
  [(0, [OBJ_STR [68; 69; 76]; OBJ_INT 12]); (0, [OBJ_STR [73; 78; 67; 82]; OBJ_STR [107]]); (11, [OBJ_STR [70; 76; 85; 83; 72; 68; 66]])].

