(* ===== verification/Cluster.v ===== *)
(** * Redis Cluster: slots, epochs and the election of a new master
      ([cluster.c], [cluster.h])

    The view a node has of the cluster ([clusterState]): the nodes it knows,
    the slots each of them serves, the epochs, and the state of its own
    election.  A node is designated by its name, the key of the dictionary of
    nodes, where the code has a pointer to its [clusterNode]; following a NULL
    or dangling pointer and a failed [serverAssert] give [None].  The bitmap of
    slots is the integer whose bit [j] is the bit of slot [j] (the bytes of the
    array, least significant first).  An operation returns the new view and the
    messages it sends, in order; the clock is read once per call.

    Not in the view: addresses and links apart from their existence, the
    flags [todo_before_sleep] (what they delay may happen at any later time),
    statistics and the log. *)

From S2P Require Import Prelude Sds.
From stdpp Require Import options.

Definition CLUSTER_SLOTS : Z := 16384.
Definition CLUSTER_FAIL_REPORT_VALIDITY_MULT : Z := 2.
Definition CLUSTER_FAIL_UNDO_TIME_MULT : Z := 2.
Definition CLUSTER_MF_TIMEOUT : Z := 5000.
Definition CLUSTER_MAX_REJOIN_DELAY : Z := 5000.
Definition CLUSTER_MIN_REJOIN_DELAY : Z := 500.
Definition CLUSTER_WRITABLE_DELAY : Z := 2000.
Definition CLUSTER_CANT_FAILOVER_NONE : Z := 0.
Definition CLUSTER_CANT_FAILOVER_DATA_AGE : Z := 1.
Definition CLUSTER_CANT_FAILOVER_WAITING_DELAY : Z := 2.
Definition CLUSTER_CANT_FAILOVER_EXPIRED : Z := 3.
Definition CLUSTER_CANT_FAILOVER_WAITING_VOTES : Z := 4.
Definition CLUSTER_CANT_FAILOVER_RELOG_PERIOD : Z := 60 * 5.

Abbreviation name := (list Z).

Record clusterNode := mk_node {
  nodeIsMaster : bool;
  nodeIsSlave : bool;
  nodeTimedOut : bool;
  nodeFailed : bool;
  nodeInHandshake : bool;
  migrate_to : bool;                 (* CLUSTER_NODE_MIGRATE_TO *)
  nodeCantFailover : bool;
  configEpoch : Z;
  slots : Z;
  numslots : Z;
  slaves : list name;
  slaveof : option name;
  fail_time : Z;
  voted_time : Z;
  repl_offset : Z;
  has_link : bool;
  fail_reports : list (name * Z);
}.

(** What a slave keeps about its election, *)
Record election := mk_election {
  failover_auth_time : Z;
  failover_auth_count : Z;
  failover_auth_sent : bool;
  failover_auth_rank : Z;
  failover_auth_epoch : Z;
}.

(** and about a manual failover. *)
Record manual := mk_manual { mf_end : Z; mf_slave : option name; mf_master_offset : Z; mf_can_start : bool }.

Record clusterState := mk_cluster {
  myself : name;
  currentEpoch : Z;
  lastVoteEpoch : Z;
  state_ok : bool;                   (* state == CLUSTER_OK *)
  size : Z;
  nodes : gmap name clusterNode;
  cslots : gmap Z name;              (* slots[] *)
  importing_slots_from : gmap Z name;
  migrating_slots_to : gmap Z name;
  elec : election;
  mf : manual;
  cant_failover_reason : Z;
  lastlog_time : Z;
  first_call_time : Z;
  among_minority_time : Z;
}.

Section Setters.
Implicit Types (st : clusterState) (nd : clusterNode).

Definition set_epochs st cur vote :=
  mk_cluster (myself st) cur vote (state_ok st) (size st) (nodes st) (cslots st) (importing_slots_from st) (migrating_slots_to st) (elec st) (mf st)
    (cant_failover_reason st) (lastlog_time st) (first_call_time st) (among_minority_time st).
Definition set_nodes st m :=
  mk_cluster (myself st) (currentEpoch st) (lastVoteEpoch st) (state_ok st) (size st) m (cslots st) (importing_slots_from st) (migrating_slots_to st)
    (elec st) (mf st) (cant_failover_reason st) (lastlog_time st) (first_call_time st) (among_minority_time st).
Definition set_cslots st m :=
  mk_cluster (myself st) (currentEpoch st) (lastVoteEpoch st) (state_ok st) (size st) (nodes st) m (importing_slots_from st) (migrating_slots_to st)
    (elec st) (mf st) (cant_failover_reason st) (lastlog_time st) (first_call_time st) (among_minority_time st).
Definition set_moving st imp mig :=
  mk_cluster (myself st) (currentEpoch st) (lastVoteEpoch st) (state_ok st) (size st) (nodes st) (cslots st) imp mig
    (elec st) (mf st) (cant_failover_reason st) (lastlog_time st) (first_call_time st) (among_minority_time st).
Definition set_elec st e :=
  mk_cluster (myself st) (currentEpoch st) (lastVoteEpoch st) (state_ok st) (size st) (nodes st) (cslots st) (importing_slots_from st)
    (migrating_slots_to st) e (mf st) (cant_failover_reason st) (lastlog_time st) (first_call_time st) (among_minority_time st).
Definition set_mf st m :=
  mk_cluster (myself st) (currentEpoch st) (lastVoteEpoch st) (state_ok st) (size st) (nodes st) (cslots st) (importing_slots_from st)
    (migrating_slots_to st) (elec st) m (cant_failover_reason st) (lastlog_time st) (first_call_time st) (among_minority_time st).
Definition set_reason st r t :=
  mk_cluster (myself st) (currentEpoch st) (lastVoteEpoch st) (state_ok st) (size st) (nodes st) (cslots st) (importing_slots_from st)
    (migrating_slots_to st) (elec st) (mf st) r t (first_call_time st) (among_minority_time st).
Definition set_health st ok sz first minority :=
  mk_cluster (myself st) (currentEpoch st) (lastVoteEpoch st) ok sz (nodes st) (cslots st) (importing_slots_from st)
    (migrating_slots_to st) (elec st) (mf st) (cant_failover_reason st) (lastlog_time st) first minority.

Definition put_node st n nd := set_nodes st (<[n := nd]> (nodes st)).

Definition nd_role nd master slave mig sof :=
  mk_node master slave (nodeTimedOut nd) (nodeFailed nd) (nodeInHandshake nd) mig (nodeCantFailover nd) (configEpoch nd) (slots nd) (numslots nd)
    (slaves nd) sof (fail_time nd) (voted_time nd) (repl_offset nd) (has_link nd) (fail_reports nd).
Definition nd_fail nd pfail fail time reports :=
  mk_node (nodeIsMaster nd) (nodeIsSlave nd) pfail fail (nodeInHandshake nd) (migrate_to nd) (nodeCantFailover nd) (configEpoch nd) (slots nd)
    (numslots nd) (slaves nd) (slaveof nd) time (voted_time nd) (repl_offset nd) (has_link nd) reports.
Definition nd_epoch nd e :=
  mk_node (nodeIsMaster nd) (nodeIsSlave nd) (nodeTimedOut nd) (nodeFailed nd) (nodeInHandshake nd) (migrate_to nd) (nodeCantFailover nd) e (slots nd)
    (numslots nd) (slaves nd) (slaveof nd) (fail_time nd) (voted_time nd) (repl_offset nd) (has_link nd) (fail_reports nd).
Definition nd_slots nd s n :=
  mk_node (nodeIsMaster nd) (nodeIsSlave nd) (nodeTimedOut nd) (nodeFailed nd) (nodeInHandshake nd) (migrate_to nd) (nodeCantFailover nd) (configEpoch nd)
    s n (slaves nd) (slaveof nd) (fail_time nd) (voted_time nd) (repl_offset nd) (has_link nd) (fail_reports nd).
Definition nd_slaves nd l mig :=
  mk_node (nodeIsMaster nd) (nodeIsSlave nd) (nodeTimedOut nd) (nodeFailed nd) (nodeInHandshake nd) mig (nodeCantFailover nd) (configEpoch nd) (slots nd)
    (numslots nd) l (slaveof nd) (fail_time nd) (voted_time nd) (repl_offset nd) (has_link nd) (fail_reports nd).
Definition nd_voted nd t :=
  mk_node (nodeIsMaster nd) (nodeIsSlave nd) (nodeTimedOut nd) (nodeFailed nd) (nodeInHandshake nd) (migrate_to nd) (nodeCantFailover nd) (configEpoch nd)
    (slots nd) (numslots nd) (slaves nd) (slaveof nd) (fail_time nd) t (repl_offset nd) (has_link nd) (fail_reports nd).
Definition nd_offset nd o nofailover :=
  mk_node (nodeIsMaster nd) (nodeIsSlave nd) (nodeTimedOut nd) (nodeFailed nd) (nodeInHandshake nd) (migrate_to nd) nofailover (configEpoch nd)
    (slots nd) (numslots nd) (slaves nd) (slaveof nd) (fail_time nd) (voted_time nd) o (has_link nd) (fail_reports nd).
End Setters.

(** ** Slots *)

Definition bitmapTestBit (bitmap pos : Z) : bool := Z.testbit bitmap pos.
Definition bitmapSetBit (bitmap pos : Z) : Z := Z.setbit bitmap pos.
Definition bitmapClearBit (bitmap pos : Z) : Z := Z.clearbit bitmap pos.

Definition all_nodes (st : clusterState) : list (name * clusterNode) := map_to_list (nodes st).

Definition clusterMastersHaveSlaves (st : clusterState) : bool :=
  negb (foldr Z.add 0 (map (fun p => if nodeIsSlave (snd p) then 0 else zlen (slaves (snd p))) (all_nodes st)) =? 0).

Definition clusterNodeSetSlotBit (st : clusterState) (n : name) (slot : Z) : option (clusterState * bool) :=
  nd ← nodes st !! n;
  let old := bitmapTestBit (slots nd) slot in
  let bits := bitmapSetBit (slots nd) slot in
  if old then Some (put_node st n (nd_slots nd bits (numslots nd)), old) else
  let nd := nd_slots nd bits (numslots nd + 1) in
  let st := put_node st n nd in
  if (numslots nd =? 1) && clusterMastersHaveSlaves st
  then Some (put_node st n (nd_slaves nd (slaves nd) true), old)
  else Some (st, old).

Definition clusterNodeClearSlotBit (st : clusterState) (n : name) (slot : Z) : option (clusterState * bool) :=
  nd ← nodes st !! n;
  let old := bitmapTestBit (slots nd) slot in
  let nd := nd_slots nd (bitmapClearBit (slots nd) slot) (if old then numslots nd - 1 else numslots nd) in
  Some (put_node st n nd, old).

Definition clusterNodeGetSlotBit (st : clusterState) (n : name) (slot : Z) : option bool :=
  nd ← nodes st !! n; Some (bitmapTestBit (slots nd) slot).

Definition clusterAddSlot (st : clusterState) (n : name) (slot : Z) : option (clusterState * rc) :=
  match cslots st !! slot with
  | Some _ => Some (st, C_ERR)
  | None =>
    '(st, _) ← clusterNodeSetSlotBit st n slot;
    Some (set_cslots st (<[slot := n]> (cslots st)), C_OK)
  end.

Definition clusterDelSlot (st : clusterState) (slot : Z) : option (clusterState * rc) :=
  match cslots st !! slot with
  | None => Some (st, C_ERR)
  | Some n =>
    '(st, old) ← clusterNodeClearSlotBit st n slot;
    if (old : bool) then Some (set_cslots st (delete slot (cslots st)), C_OK) else None
  end.

(** A loop over the slots from [j] on. *)
Fixpoint slots_loop {A} (f : A -> Z -> option A) (fuel : nat) (j : Z) (a : A) : option A :=
  match fuel with
  | O => Some a
  | S fuel => a ← f a j; slots_loop f fuel (j + 1) a
  end.

Definition for_slots {A} (f : A -> Z -> option A) (a : A) : option A := slots_loop f (Z.to_nat CLUSTER_SLOTS) 0 a.

Definition drop_slot (n : name) (a : clusterState * Z) (j : Z) : option (clusterState * Z) :=
  let '(st, deleted) := a in
  bit ← clusterNodeGetSlotBit st n j;
  if (bit : bool) then '(st, _) ← clusterDelSlot st j; Some (st, deleted + 1) else Some (st, deleted).

Definition clusterDelNodeSlots (st : clusterState) (n : name) : option (clusterState * Z) := for_slots (drop_slot n) (st, 0).

Definition clusterCloseAllSlots (st : clusterState) : clusterState := set_moving st ∅ ∅.

(** ** Roles *)

(** [master->slaves[j] == slave], the first such [j] removed. *)
Fixpoint remove_first (x : name) (l : list name) : list name :=
  match l with
  | [] => []
  | y :: l => if bool_decide (y = x) then l else y :: remove_first x l
  end.

Definition clusterNodeRemoveSlave (st : clusterState) (master slave : name) : option (clusterState * rc) :=
  m ← nodes st !! master;
  if bool_decide (slave ∈ slaves m) then
    let l := remove_first slave (slaves m) in
    Some (put_node st master (nd_slaves m l (if zlen l =? 0 then false else migrate_to m)), C_OK)
  else Some (st, C_ERR).

Definition clusterNodeAddSlave (st : clusterState) (master slave : name) : option (clusterState * rc) :=
  m ← nodes st !! master;
  if bool_decide (slave ∈ slaves m) then Some (st, C_ERR)
  else Some (put_node st master (nd_slaves m (slaves m ++ [slave]) true), C_OK).

Definition clusterSetNodeAsMaster (st : clusterState) (n : name) : option clusterState :=
  nd ← nodes st !! n;
  if nodeIsMaster nd then Some st else
  st ← (match slaveof nd with
        | Some m =>
          '(st, _) ← clusterNodeRemoveSlave st m n;
          nd ← nodes st !! n;
          Some (if negb (bool_decide (n = myself st)) then put_node st n (nd_slaves nd (slaves nd) true) else st)
        | None => Some st
        end);
  nd ← nodes st !! n;
  Some (put_node st n (nd_role nd true false (migrate_to nd) None)).

Definition resetManualFailover (st : clusterState) : clusterState := set_mf st (mk_manual 0 None 0 false).

Definition clusterSetMaster (st : clusterState) (n : name) : option clusterState :=
  me ← nodes st !! myself st;
  if bool_decide (n = myself st) then None else
  if negb (numslots me =? 0) then None else
  st ← (if nodeIsMaster me then
          Some (clusterCloseAllSlots (put_node st (myself st) (nd_role me false true false (slaveof me))))
        else
          match slaveof me with
          | Some m => '(st, _) ← clusterNodeRemoveSlave st m (myself st); Some st
          | None => Some st
          end);
  me ← nodes st !! myself st;
  let st := put_node st (myself st) (nd_role me (nodeIsMaster me) (nodeIsSlave me) (migrate_to me) (Some n)) in
  '(st, _) ← clusterNodeAddSlave st n (myself st);
  Some (resetManualFailover st).

(** ** The configuration announced by a node *)

(** The loop of [clusterUpdateSlotsConfigWith].  [keys] is [countKeysInSlot];
    the state is the view, the new master and the dirty slots. *)
Definition rebind_slot (keys : Z -> Z) (sender : name) (senderConfigEpoch bits : Z) (curmaster : option name)
    (a : clusterState * option name * list Z) (j : Z) : option (clusterState * option name * list Z) :=
  let '(st, newmaster, dirty) := a in
  if negb (bitmapTestBit bits j) then Some a else
  let owner := cslots st !! j in
  if bool_decide (owner = Some sender) then Some a else
  if bool_decide (is_Some (importing_slots_from st !! j)) then Some a else
  newer ← (match owner with
           | None => Some true
           | Some o => nd ← nodes st !! o; Some (configEpoch nd <? senderConfigEpoch)
           end);
  if (newer : bool) then
    let dirty := if bool_decide (owner = Some (myself st)) && negb (keys j =? 0) && negb (bool_decide (sender = myself st))
                 then dirty ++ [j] else dirty in
    let newmaster := if bool_decide (owner = curmaster) then Some sender else newmaster in
    '(st, _) ← clusterDelSlot st j;
    '(st, _) ← clusterAddSlot st sender j;
    Some (st, newmaster, dirty)
  else Some a.

(** Returns also the slots whose keys are deleted.  [no_redirection] is the
    flag [CLUSTER_MODULE_FLAG_NO_REDIRECTION]. *)
Definition clusterUpdateSlotsConfigWith (keys : Z -> Z) (no_redirection : bool) (st : clusterState) (sender : name) (senderConfigEpoch bits : Z)
    : option (clusterState * list Z) :=
  me ← nodes st !! myself st;
  let curmaster := if nodeIsMaster me then Some (myself st) else slaveof me in
  if bool_decide (sender = myself st) then Some (st, []) else
  '(st, newmaster, dirty) ← for_slots (rebind_slot keys sender senderConfigEpoch bits curmaster) (st, None, []);
  if no_redirection then Some (st, []) else
  match newmaster with
  | Some _ =>
    m ← curmaster;
    cur ← nodes st !! m;
    if numslots cur =? 0 then st ← clusterSetMaster st sender; Some (st, []) else Some (st, dirty)
  | None => Some (st, dirty)
  end.

(** ** Epochs *)

Definition clusterGetMaxEpoch (st : clusterState) : Z :=
  let max := foldr (fun p max => if configEpoch (snd p) >? max then configEpoch (snd p) else max) 0 (all_nodes st) in
  if max <? currentEpoch st then currentEpoch st else max.

(** The epochs are 64-bit counters. *)
Definition next_epoch (st : clusterState) : Z := uwrap 64 (currentEpoch st + 1).

Definition clusterBumpConfigEpochWithoutConsensus (st : clusterState) : option (clusterState * rc) :=
  me ← nodes st !! myself st;
  let maxEpoch := clusterGetMaxEpoch st in
  if (configEpoch me =? 0) || negb (configEpoch me =? maxEpoch) then
    let st := set_epochs st (next_epoch st) (lastVoteEpoch st) in
    Some (put_node st (myself st) (nd_epoch me (currentEpoch st)), C_OK)
  else Some (st, C_ERR).

Definition clusterHandleConfigEpochCollision (st : clusterState) (sender : name) : option clusterState :=
  me ← nodes st !! myself st;
  nd ← nodes st !! sender;
  if negb (configEpoch nd =? configEpoch me) || negb (nodeIsMaster nd) || negb (nodeIsMaster me) then Some st else
  if memcmp sender (myself st) <=? 0 then Some st else
  let st := set_epochs st (next_epoch st) (lastVoteEpoch st) in
  Some (put_node st (myself st) (nd_epoch me (currentEpoch st))).

(** ** Messages *)

Inductive clusterMsgType :=
  | CLUSTERMSG_TYPE_PING | CLUSTERMSG_TYPE_PONG | CLUSTERMSG_TYPE_FAIL (about : name)
  | CLUSTERMSG_TYPE_FAILOVER_AUTH_REQUEST | CLUSTERMSG_TYPE_FAILOVER_AUTH_ACK
  | CLUSTERMSG_TYPE_UPDATE (nodename : name) (reportedConfigEpoch nodeslots : Z) | CLUSTERMSG_TYPE_MFSTART.

Record clusterMsg := mk_msg {
  msg_type : clusterMsgType;
  msg_sender : name;
  msg_myslots : Z;
  msg_slaveof : option name;
  msg_nofailover : bool;
  msg_currentEpoch : Z;
  msg_configEpoch : Z;
  msg_offset : Z;
  msg_paused : bool;                 (* CLUSTERMSG_FLAG0_PAUSED *)
  msg_forceack : bool;               (* CLUSTERMSG_FLAG0_FORCEACK *)
}.

(** What the code reads of the rest of the server. *)
Record environment := mk_env {
  mstime : Z;
  time : Z;
  random : Z;
  cluster_node_timeout : Z;
  cluster_slave_no_failover : bool;
  cluster_slave_validity_factor : Z;
  repl_ping_slave_period : Z;
  cluster_require_full_coverage : bool;
  repl_connected : bool;             (* repl_state == REPL_STATE_CONNECTED *)
  master_age : Z;                    (* unixtime - master->lastinteraction *)
  down_age : Z;                      (* unixtime - repl_down_since *)
  slave_offset : Z;                  (* replicationGetSlaveOffset() *)
  master_offset : Z;                 (* master_repl_offset *)
  countKeysInSlot : Z -> Z;
  no_redirection : bool;
}.

Section Handlers.
Context (env : environment).

Definition clusterBuildMessageHdr (st : clusterState) (type : clusterMsgType) : option clusterMsg :=
  me ← nodes st !! myself st;
  let master := match slaveof me with Some m => if nodeIsSlave me then m else myself st | None => myself st end in
  m ← nodes st !! master;
  Some (mk_msg type (myself st) (slots m) (slaveof me) (nodeCantFailover me) (currentEpoch st) (configEpoch m)
          (if nodeIsSlave me then slave_offset env else master_offset env)
          (nodeIsMaster me && negb (mf_end (mf st) =? 0)) false).

Definition clusterBroadcastMessage (st : clusterState) (m : clusterMsg) : list (name * clusterMsg) :=
  map (fun p => (fst p, m)) (filter (fun p => has_link (snd p) && negb (bool_decide (fst p = myself st) || nodeInHandshake (snd p))) (all_nodes st)).

Definition with_forceack (m : clusterMsg) : clusterMsg :=
  mk_msg (msg_type m) (msg_sender m) (msg_myslots m) (msg_slaveof m) (msg_nofailover m) (msg_currentEpoch m) (msg_configEpoch m) (msg_offset m)
    (msg_paused m) true.

Definition clusterRequestFailoverAuth (st : clusterState) : option (list (name * clusterMsg)) :=
  hdr ← clusterBuildMessageHdr st CLUSTERMSG_TYPE_FAILOVER_AUTH_REQUEST;
  Some (clusterBroadcastMessage st (if negb (mf_end (mf st) =? 0) then with_forceack hdr else hdr)).

Definition clusterSendFailoverAuth (st : clusterState) (n : name) : option (list (name * clusterMsg)) :=
  nd ← nodes st !! n;
  if negb (has_link nd) then Some [] else
  hdr ← clusterBuildMessageHdr st CLUSTERMSG_TYPE_FAILOVER_AUTH_ACK;
  Some [(n, hdr)].

Definition clusterSendMFStart (st : clusterState) (n : name) : option (list (name * clusterMsg)) :=
  nd ← nodes st !! n;
  if negb (has_link nd) then Some [] else
  hdr ← clusterBuildMessageHdr st CLUSTERMSG_TYPE_MFSTART;
  Some [(n, hdr)].

Definition clusterSendFail (st : clusterState) (nodename : name) : option (list (name * clusterMsg)) :=
  hdr ← clusterBuildMessageHdr st (CLUSTERMSG_TYPE_FAIL nodename);
  Some (clusterBroadcastMessage st hdr).

Definition clusterSendUpdate (st : clusterState) (to n : name) : option (list (name * clusterMsg)) :=
  t ← nodes st !! to;
  if negb (has_link t) then Some [] else
  nd ← nodes st !! n;
  hdr ← clusterBuildMessageHdr st (CLUSTERMSG_TYPE_UPDATE n (configEpoch nd) (slots nd));
  Some [(to, hdr)].

(** [clusterBroadcastPong]: the pongs carry gossip, which is not modelled;
    [local] stands for [CLUSTER_BROADCAST_LOCAL_SLAVES]. *)
Definition clusterBroadcastPong (st : clusterState) (local : bool) : option (list (name * clusterMsg)) :=
  me ← nodes st !! myself st;
  hdr ← clusterBuildMessageHdr st CLUSTERMSG_TYPE_PONG;
  Some (map (fun p => (fst p, hdr))
    (filter (fun p => has_link (snd p) && negb (bool_decide (fst p = myself st) || nodeInHandshake (snd p)) &&
                      (negb local || (nodeIsSlave (snd p) && bool_decide (is_Some (slaveof (snd p))) &&
                                      (bool_decide (slaveof (snd p) = Some (myself st)) || bool_decide (slaveof (snd p) = slaveof me)))))
            (all_nodes st))).

(** ** Voting *)

(** A claimed slot is served, as far as we know, by a node with a greater epoch. *)
Fixpoint newer_slot (fuel : nat) (st : clusterState) (claimed requestConfigEpoch j : Z) : option bool :=
  match fuel with
  | O => Some false
  | S fuel =>
    if negb (bitmapTestBit claimed j) then newer_slot fuel st claimed requestConfigEpoch (j + 1) else
    match cslots st !! j with
    | None => newer_slot fuel st claimed requestConfigEpoch (j + 1)
    | Some o =>
      nd ← nodes st !! o;
      if configEpoch nd <=? requestConfigEpoch then newer_slot fuel st claimed requestConfigEpoch (j + 1) else Some true
    end
  end.

Definition clusterSendFailoverAuthIfNeeded (st : clusterState) (n : name) (request : clusterMsg) : option (clusterState * list (name * clusterMsg)) :=
  nd ← nodes st !! n;
  me ← nodes st !! myself st;
  if nodeIsSlave me || (numslots me =? 0) then Some (st, []) else
  if msg_currentEpoch request <? currentEpoch st then Some (st, []) else
  if lastVoteEpoch st =? currentEpoch st then Some (st, []) else
  if nodeIsMaster nd then Some (st, []) else
  match slaveof nd with
  | None => Some (st, [])
  | Some master =>
    m ← nodes st !! master;
    if negb (nodeFailed m) && negb (msg_forceack request) then Some (st, []) else
    if mstime env - voted_time m <? cluster_node_timeout env * 2 then Some (st, []) else
    newer ← newer_slot (Z.to_nat CLUSTER_SLOTS) st (msg_myslots request) (msg_configEpoch request) 0;
    if (newer : bool) then Some (st, []) else
    let st := set_epochs st (currentEpoch st) (currentEpoch st) in
    let st := put_node st master (nd_voted m (mstime env)) in
    out ← clusterSendFailoverAuth st n;
    Some (st, out)
  end.

(** ** The election of a slave *)

Definition clusterGetSlaveRank (st : clusterState) : option Z :=
  me ← nodes st !! myself st;
  if negb (nodeIsSlave me) then None else
  match slaveof me with
  | None => Some 0
  | Some master =>
    m ← nodes st !! master;
    foldr (fun s rank =>
      rank ← rank;
      nd ← nodes st !! s;
      Some (if negb (bool_decide (s = myself st)) && negb (nodeCantFailover nd) && (repl_offset nd >? slave_offset env) then rank + 1 else rank))
      (Some 0) (slaves m)
  end.

Definition clusterLogCantFailover (st : clusterState) (reason : Z) : option clusterState :=
  if (reason =? cant_failover_reason st) && (time env - lastlog_time st <? CLUSTER_CANT_FAILOVER_RELOG_PERIOD) then Some st else
  let nolog_fail_time := cluster_node_timeout env + 5000 in
  me ← nodes st !! myself st;
  recent ← (match slaveof me with
            | None => Some false
            | Some m => nd ← nodes st !! m; Some (nodeFailed nd && (mstime env - fail_time nd <? nolog_fail_time))
            end);
  Some (set_reason st reason (if (recent : bool) then lastlog_time st else time env)).

(** The cluster size and the health of the cluster. *)
Definition counts_as_voter (nd : clusterNode) : bool := nodeIsMaster nd && negb (numslots nd =? 0).

Definition covered_slot (st : clusterState) (ok : bool) (j : Z) : option bool :=
  if negb ok then Some ok else
  match cslots st !! j with
  | None => Some false
  | Some o => nd ← nodes st !! o; Some (negb (nodeFailed nd))
  end.

Definition covered (st : clusterState) : option bool := for_slots (covered_slot st) true.

(** The part of [clusterUpdateState] after the test that all the slots are
    covered, whose result is [ok]: the size of the cluster, the majority, and
    the change of state. *)
Definition new_health (st : clusterState) (master ok : bool) : clusterState :=
  let now := mstime env in
  let voters := filter (fun p => counts_as_voter (snd p)) (all_nodes st) in
  let sz := zlen voters in
  let reachable := zlen (filter (fun p => negb (nodeFailed (snd p) || nodeTimedOut (snd p))) voters) in
  let minority := reachable <? sz / 2 + 1 in
  let ok := ok && negb minority in
  let among := if minority then now else among_minority_time st in
  let st := set_health st (state_ok st) sz (first_call_time st) among in
  if eqb ok (state_ok st) then st else
  let delay := cluster_node_timeout env in
  let delay := if delay >? CLUSTER_MAX_REJOIN_DELAY then CLUSTER_MAX_REJOIN_DELAY else delay in
  let delay := if delay <? CLUSTER_MIN_REJOIN_DELAY then CLUSTER_MIN_REJOIN_DELAY else delay in
  if ok && master && (now - among <? delay) then st else
  set_health st ok sz (first_call_time st) among.

Definition mark_first_call (st : clusterState) : clusterState :=
  set_health st (state_ok st) (size st) (if first_call_time st =? 0 then mstime env else first_call_time st) (among_minority_time st).

Definition clusterUpdateState (st : clusterState) : option clusterState :=
  me ← nodes st !! myself st;
  if nodeIsMaster me && negb (state_ok st) && (mstime env - first_call_time (mark_first_call st) <? CLUSTER_WRITABLE_DELAY) then Some (mark_first_call st) else
  ok ← (if cluster_require_full_coverage env then covered st else Some true);
  Some (new_health (mark_first_call st) (nodeIsMaster me) ok).

(** Slot [j] of the old master becomes ours. *)
Definition take_slot (oldmaster : name) (st : clusterState) (j : Z) : option clusterState :=
  bit ← clusterNodeGetSlotBit st oldmaster j;
  if (bit : bool) then '(st, _) ← clusterDelSlot st j; '(st, _) ← clusterAddSlot st (myself st) j; Some st else Some st.

Definition clusterFailoverReplaceYourMaster (st : clusterState) : option (clusterState * list (name * clusterMsg)) :=
  me ← nodes st !! myself st;
  if nodeIsMaster me then Some (st, []) else
  match slaveof me with
  | None => Some (st, [])
  | Some oldmaster =>
    st ← clusterSetNodeAsMaster st (myself st);
    st ← for_slots (take_slot oldmaster) st;
    st ← clusterUpdateState st;
    out ← clusterBroadcastPong st false;
    Some (resetManualFailover st, out)
  end.

(** How old our data is, in milliseconds. *)
Definition data_age : Z :=
  let age := (if repl_connected env then master_age env else down_age env) * 1000 in
  if age >? cluster_node_timeout env then age - cluster_node_timeout env else age.

Definition schedule_election (st : clusterState) : option (clusterState * list (name * clusterMsg)) :=
  rank ← clusterGetSlaveRank st;
  let e := elec st in
  let auth_time := mstime env + 500 + random env mod 500 + rank * 1000 in
  let e := if negb (mf_end (mf st) =? 0) then mk_election (mstime env) 0 false 0 (failover_auth_epoch e)
           else mk_election auth_time 0 false rank (failover_auth_epoch e) in
  let st := set_elec st e in
  out ← clusterBroadcastPong st true;
  Some (st, out).

(** The delay grows with the rank as long as no vote was asked for. *)
Definition update_rank (st : clusterState) : option clusterState :=
  let e := elec st in
  if negb (failover_auth_sent e) && (mf_end (mf st) =? 0) then
    newrank ← clusterGetSlaveRank st;
    Some (if newrank >? failover_auth_rank e then
            set_elec st (mk_election (failover_auth_time e + (newrank - failover_auth_rank e) * 1000) (failover_auth_count e) (failover_auth_sent e)
                           newrank (failover_auth_epoch e))
          else st)
  else Some st.

(** The last result tells whether the election was won. *)
Definition clusterHandleSlaveFailover (st : clusterState) : option (clusterState * list (name * clusterMsg) * bool) :=
  let auth_age := mstime env - failover_auth_time (elec st) in
  let needed_quorum := size st / 2 + 1 in
  let manual_failover := negb (mf_end (mf st) =? 0) && mf_can_start (mf st) in
  let auth_timeout := cluster_node_timeout env * 2 in
  let auth_timeout := if auth_timeout <? 2000 then 2000 else auth_timeout in
  let auth_retry_time := auth_timeout * 2 in
  let nothing st := Some (set_reason st CLUSTER_CANT_FAILOVER_NONE (lastlog_time st), [], false) in
  me ← nodes st !! myself st;
  if nodeIsMaster me then nothing st else
  match slaveof me with
  | None => nothing st
  | Some master =>
    m ← nodes st !! master;
    if (negb (nodeFailed m) && negb manual_failover) || (cluster_slave_no_failover env && negb manual_failover) || (numslots m =? 0) then nothing st else
    if negb (cluster_slave_validity_factor env =? 0) &&
       (data_age >? repl_ping_slave_period env * 1000 + cluster_node_timeout env * cluster_slave_validity_factor env) && negb manual_failover
    then st ← clusterLogCantFailover st CLUSTER_CANT_FAILOVER_DATA_AGE; Some (st, [], false) else
    if auth_age >? auth_retry_time then '(st, out) ← schedule_election st; Some (st, out, false) else
    st ← update_rank st;
    if mstime env <? failover_auth_time (elec st)
    then st ← clusterLogCantFailover st CLUSTER_CANT_FAILOVER_WAITING_DELAY; Some (st, [], false) else
    if auth_age >? auth_timeout then st ← clusterLogCantFailover st CLUSTER_CANT_FAILOVER_EXPIRED; Some (st, [], false) else
    let e := elec st in
    if negb (failover_auth_sent e) then
      let st := set_epochs st (next_epoch st) (lastVoteEpoch st) in
      let st := set_elec st (mk_election (failover_auth_time e) (failover_auth_count e) false (failover_auth_rank e) (currentEpoch st)) in
      out ← clusterRequestFailoverAuth st;
      Some (set_elec st (mk_election (failover_auth_time e) (failover_auth_count e) true (failover_auth_rank e) (currentEpoch st)), out, false)
    else if failover_auth_count e >=? needed_quorum then
      me ← nodes st !! myself st;
      let st := if configEpoch me <? failover_auth_epoch e then put_node st (myself st) (nd_epoch me (failover_auth_epoch e)) else st in
      '(st, out) ← clusterFailoverReplaceYourMaster st;
      Some (st, out, true)
    else st ← clusterLogCantFailover st CLUSTER_CANT_FAILOVER_WAITING_VOTES; Some (st, [], false)
  end.

(** ** Manual failover *)

Definition manualFailoverCheckTimeout (st : clusterState) : clusterState :=
  if negb (mf_end (mf st) =? 0) && (mf_end (mf st) <? mstime env) then resetManualFailover st else st.

Definition clusterHandleManualFailover (st : clusterState) : clusterState :=
  if mf_end (mf st) =? 0 then st else
  if mf_can_start (mf st) then st else
  if mf_master_offset (mf st) =? 0 then st else
  if mf_master_offset (mf st) =? slave_offset env then set_mf st (mk_manual (mf_end (mf st)) (mf_slave (mf st)) (mf_master_offset (mf st)) true) else st.

(** ** Failure detection *)

Fixpoint add_report (l : list (name * Z)) (sender : name) (now : Z) : list (name * Z) * bool :=
  match l with
  | [] => ([(sender, now)], true)
  | (n, t) :: l => if bool_decide (n = sender) then ((n, now) :: l, false) else let '(l, b) := add_report l sender now in ((n, t) :: l, b)
  end.

Definition clusterNodeAddFailureReport (st : clusterState) (failing sender : name) : option (clusterState * bool) :=
  nd ← nodes st !! failing;
  let '(l, b) := add_report (fail_reports nd) sender (mstime env) in
  Some (put_node st failing (nd_fail nd (nodeTimedOut nd) (nodeFailed nd) (fail_time nd) l), b).

Definition clusterNodeCleanupFailureReports (nd : clusterNode) : clusterNode :=
  let maxtime := cluster_node_timeout env * CLUSTER_FAIL_REPORT_VALIDITY_MULT in
  nd_fail nd (nodeTimedOut nd) (nodeFailed nd) (fail_time nd) (filter (fun r => ~ (mstime env - snd r > maxtime)) (fail_reports nd)).

Fixpoint del_report (l : list (name * Z)) (sender : name) : option (list (name * Z)) :=
  match l with
  | [] => None
  | (n, t) :: l => if bool_decide (n = sender) then Some l else l ← del_report l sender; Some ((n, t) :: l)
  end.

Definition clusterNodeDelFailureReport (st : clusterState) (n sender : name) : option (clusterState * bool) :=
  nd ← nodes st !! n;
  Some (match del_report (fail_reports nd) sender with
        | None => (st, false)
        | Some l => (put_node st n (clusterNodeCleanupFailureReports (nd_fail nd (nodeTimedOut nd) (nodeFailed nd) (fail_time nd) l)), true)
        end).

Definition markNodeAsFailingIfNeeded (st : clusterState) (n : name) : option (clusterState * list (name * clusterMsg)) :=
  nd ← nodes st !! n;
  let needed_quorum := size st / 2 + 1 in
  if negb (nodeTimedOut nd) then Some (st, []) else
  if nodeFailed nd then Some (st, []) else
  let nd := clusterNodeCleanupFailureReports nd in
  let st := put_node st n nd in
  me ← nodes st !! myself st;
  let failures := zlen (fail_reports nd) + (if nodeIsMaster me then 1 else 0) in
  if failures <? needed_quorum then Some (st, []) else
  let st := put_node st n (nd_fail nd false true (mstime env) (fail_reports nd)) in
  out ← (if nodeIsMaster me then clusterSendFail st n else Some []);
  Some (st, out).

Definition clearNodeFailureIfNeeded (st : clusterState) (n : name) : option clusterState :=
  nd ← nodes st !! n;
  if negb (nodeFailed nd) then None else
  let clear nd := nd_fail nd (nodeTimedOut nd) false (fail_time nd) (fail_reports nd) in
  let nd := if nodeIsSlave nd || (numslots nd =? 0) then clear nd else nd in
  let nd := if nodeIsMaster nd && (numslots nd >? 0) && (mstime env - fail_time nd >? cluster_node_timeout env * CLUSTER_FAIL_UNDO_TIME_MULT)
            then clear nd else nd in
  Some (put_node st n nd).

(** ** Received messages *)

(** What the header of a message from a known node tells. *)
Definition process_header (st : clusterState) (m : clusterMsg) : option clusterState :=
  match nodes st !! msg_sender m with
  | None => Some st
  | Some sender =>
    if nodeInHandshake sender then Some st else
    let st := if msg_currentEpoch m >? currentEpoch st then set_epochs st (msg_currentEpoch m) (lastVoteEpoch st) else st in
    let sender := if msg_configEpoch m >? configEpoch sender then nd_epoch sender (msg_configEpoch m) else sender in
    let sender := nd_offset sender (msg_offset m) (nodeCantFailover sender) in
    let st := put_node st (msg_sender m) sender in
    me ← nodes st !! myself st;
    Some (if negb (mf_end (mf st) =? 0) && nodeIsSlave me && bool_decide (slaveof me = Some (msg_sender m)) && msg_paused m && (mf_master_offset (mf st) =? 0)
          then set_mf st (mk_manual (mf_end (mf st)) (mf_slave (mf st)) (msg_offset m) (mf_can_start (mf st)))
          else st)
  end.

(** PING and PONG: the role the sender announces. *)
Definition process_role (st : clusterState) (n : name) (m : clusterMsg) : option clusterState :=
  match msg_slaveof m with
  | None => clusterSetNodeAsMaster st n
  | Some master =>
    nd ← nodes st !! n;
    st ← (if nodeIsMaster nd then
            '(st, _) ← clusterDelNodeSlots st n;
            nd ← nodes st !! n;
            Some (put_node st n (nd_role nd false true false (slaveof nd)))
          else Some st);
    nd ← nodes st !! n;
    if bool_decide (is_Some (nodes st !! master)) && negb (bool_decide (slaveof nd = Some master)) then
      st ← (match slaveof nd with Some old => '(st, _) ← clusterNodeRemoveSlave st old n; Some st | None => Some st end);
      '(st, _) ← clusterNodeAddSlave st master n;
      nd ← nodes st !! n;
      Some (put_node st n (nd_role nd (nodeIsMaster nd) (nodeIsSlave nd) (migrate_to nd) (Some master)))
    else Some st
  end.

(** The first slot the sender claims that belongs, as far as we know, to a
    node with a greater epoch: its owner. *)
Fixpoint outdated_claim (fuel : nat) (st : clusterState) (sender : name) (bits senderConfigEpoch j : Z) : option (option name) :=
  match fuel with
  | O => Some None
  | S fuel =>
    if negb (bitmapTestBit bits j) then outdated_claim fuel st sender bits senderConfigEpoch (j + 1) else
    match cslots st !! j with
    | None => outdated_claim fuel st sender bits senderConfigEpoch (j + 1)
    | Some o =>
      if bool_decide (o = sender) then outdated_claim fuel st sender bits senderConfigEpoch (j + 1) else
      nd ← nodes st !! o;
      if configEpoch nd >? senderConfigEpoch then Some (Some o) else outdated_claim fuel st sender bits senderConfigEpoch (j + 1)
    end
  end.

(** PING and PONG from a known node: role, slots, epoch collision.  The
    gossip section, the handshake and the addresses are not modelled. *)
Definition process_config (st : clusterState) (m : clusterMsg) : option (clusterState * list (name * clusterMsg)) :=
  let n := msg_sender m in
  match nodes st !! n with
  | None => Some (st, [])
  | Some sender =>
    let senderConfigEpoch := if nodeInHandshake sender then 0 else msg_configEpoch m in
    let st := put_node st n (nd_offset sender (repl_offset sender) (msg_nofailover m)) in
    st ← process_role st n m;
    sender ← nodes st !! n;
    dirty ← (match (if nodeIsMaster sender then Some n else slaveof sender) with
             | None => Some false
             | Some sm => nd ← nodes st !! sm; Some (negb (slots nd =? msg_myslots m))
             end);
    '(st, _) ← (if nodeIsMaster sender && (dirty : bool)
                then clusterUpdateSlotsConfigWith (countKeysInSlot env) (no_redirection env) st n senderConfigEpoch (msg_myslots m)
                else Some (st, []));
    out ← (if (dirty : bool) then
             o ← outdated_claim (Z.to_nat CLUSTER_SLOTS) st n (msg_myslots m) senderConfigEpoch 0;
             match o with Some o => clusterSendUpdate st n o | None => Some [] end
           else Some []);
    me ← nodes st !! myself st;
    sender ← nodes st !! n;
    st ← (if nodeIsMaster me && nodeIsMaster sender && (senderConfigEpoch =? configEpoch me)
          then clusterHandleConfigEpochCollision st n else Some st);
    Some (st, out)
  end.

Definition process_fail (st : clusterState) (m : clusterMsg) (about : name) : clusterState :=
  match nodes st !! msg_sender m, nodes st !! about with
  | Some _, Some failing =>
    if nodeFailed failing || bool_decide (about = myself st) then st
    else put_node st about (nd_fail failing false true (mstime env) (fail_reports failing))
  | _, _ => st
  end.

Definition process_auth_request (st : clusterState) (m : clusterMsg) : option (clusterState * list (name * clusterMsg)) :=
  match nodes st !! msg_sender m with
  | None => Some (st, [])
  | Some _ => clusterSendFailoverAuthIfNeeded st (msg_sender m) m
  end.

(** The epoch of a sender in handshake was not read. *)
Definition process_auth_ack (st : clusterState) (m : clusterMsg) : clusterState :=
  match nodes st !! msg_sender m with
  | None => st
  | Some sender =>
    let senderCurrentEpoch := if nodeInHandshake sender then 0 else msg_currentEpoch m in
    let e := elec st in
    if nodeIsMaster sender && (numslots sender >? 0) && (senderCurrentEpoch >=? failover_auth_epoch e) then
      set_elec st (mk_election (failover_auth_time e) (failover_auth_count e + 1) (failover_auth_sent e) (failover_auth_rank e) (failover_auth_epoch e))
    else st
  end.

Definition process_mfstart (st : clusterState) (m : clusterMsg) : clusterState :=
  match nodes st !! msg_sender m with
  | None => st
  | Some sender =>
    if negb (bool_decide (slaveof sender = Some (myself st))) then st else
    set_mf (resetManualFailover st) (mk_manual (mstime env + CLUSTER_MF_TIMEOUT) (Some (msg_sender m)) 0 false)
  end.

Definition process_update (st : clusterState) (m : clusterMsg) (n : name) (reportedConfigEpoch bits : Z) : option clusterState :=
  match nodes st !! msg_sender m, nodes st !! n with
  | Some _, Some nd =>
    if configEpoch nd >=? reportedConfigEpoch then Some st else
    st ← (if nodeIsSlave nd then clusterSetNodeAsMaster st n else Some st);
    nd ← nodes st !! n;
    let st := put_node st n (nd_epoch nd reportedConfigEpoch) in
    '(st, _) ← clusterUpdateSlotsConfigWith (countKeysInSlot env) (no_redirection env) st n reportedConfigEpoch bits;
    Some st
  | _, _ => Some st
  end.

(** [clusterProcessPacket] after its sanity checks. *)
Definition process_packet (st : clusterState) (m : clusterMsg) : option (clusterState * list (name * clusterMsg)) :=
  st ← process_header st m;
  match msg_type m with
  | CLUSTERMSG_TYPE_PING | CLUSTERMSG_TYPE_PONG => process_config st m
  | CLUSTERMSG_TYPE_FAIL about => Some (process_fail st m about, [])
  | CLUSTERMSG_TYPE_FAILOVER_AUTH_REQUEST => process_auth_request st m
  | CLUSTERMSG_TYPE_FAILOVER_AUTH_ACK => Some (process_auth_ack st m, [])
  | CLUSTERMSG_TYPE_MFSTART => Some (process_mfstart st m, [])
  | CLUSTERMSG_TYPE_UPDATE n e bits => st ← process_update st m n e bits; Some (st, [])
  end.

End Handlers.

(** ** Loops over the slots *)

Lemma slots_loop_ind {A} (P : A -> Prop) (f : A -> Z -> option A) fuel : forall j a a',
  (forall a j a', P a -> f a j = Some a' -> P a') -> P a -> slots_loop f fuel j a = Some a' -> P a'.
Proof.
  induction fuel as [|fuel IH]; intros j a a' Hf Ha E; cbn [slots_loop] in E; [by injection E as <-|].
  destruct (f a j) as [a1|] eqn:E1; [|done]. cbn [mbind option_bind] in E. eapply IH; [done| |done]. by eapply Hf.
Qed.

Lemma for_slots_ind {A} (P : A -> Prop) (f : A -> Z -> option A) a a' :
  (forall a j a', P a -> f a j = Some a' -> P a') -> P a -> for_slots f a = Some a' -> P a'.
Proof. unfold for_slots. apply slots_loop_ind. Qed.
