(* ===== verification/ClusterElection.v ===== *)
(** * Redis Cluster: at most one winner per epoch

    The nodes of a cluster exchange messages over a network that may lose,
    delay and reorder them.  A node runs the handlers of [Cluster]: it processes
    a packet, or tries to fail over its master; everything else it does is an
    arbitrary change of its view that does not touch what elections are made
    of.  The world keeps, as history, the votes that were sent, the votes that
    were counted and the elections that were won. *)

From S2P Require Import Prelude Sds Cluster.
From stdpp Require Import options.

(** ** What the handlers do not change *)

(** The part of a view that elections are made of. *)
Definition ballot (e : election) : Z * bool * Z := (failover_auth_count e, failover_auth_sent e, failover_auth_epoch e).
Definition core (st : clusterState) : name * Z * Z * (Z * bool * Z) := (myself st, currentEpoch st, lastVoteEpoch st, ballot (elec st)).

Ltac core_tac := intros; repeat (simplify_option_eq; repeat case_match; simplify_eq/=); try done.

Lemma core_ClearSlotBit st n j st' b : clusterNodeClearSlotBit st n j = Some (st', b) -> core st' = core st.
Proof. unfold clusterNodeClearSlotBit. core_tac. Qed.

Lemma core_SetSlotBit st n j st' b : clusterNodeSetSlotBit st n j = Some (st', b) -> core st' = core st.
Proof. unfold clusterNodeSetSlotBit. core_tac. Qed.

Lemma core_AddSlot st n j st' r : clusterAddSlot st n j = Some (st', r) -> core st' = core st.
Proof.
  unfold clusterAddSlot. destruct (cslots st !! j); [by intros [= <- <-]|].
  destruct (clusterNodeSetSlotBit st n j) as [[st1 b]|] eqn:E; [|done]. intros [= <- <-]. by apply core_SetSlotBit in E.
Qed.

Lemma core_DelSlot st j st' r : clusterDelSlot st j = Some (st', r) -> core st' = core st.
Proof.
  unfold clusterDelSlot. destruct (cslots st !! j) as [n|]; [|by intros [= <- <-]].
  destruct (clusterNodeClearSlotBit st n j) as [[st1 []]|] eqn:E; [|done|done]. intros [= <- <-]. by apply core_ClearSlotBit in E.
Qed.

Lemma core_DelNodeSlots st n st' d : clusterDelNodeSlots st n = Some (st', d) -> core st' = core st.
Proof.
  unfold clusterDelNodeSlots. intros E. apply (for_slots_ind (fun a => core a.1 = core st)) in E; [done| |done]. intros [st1 d1] j [st2 d2] H1 E1. unfold drop_slot in E1.
  destruct (clusterNodeGetSlotBit st1 n j) as [[]|]; cbn in E1; [|by injection E1 as <- <-|done].
  destruct (clusterDelSlot st1 j) as [[st3 r]|] eqn:E3; [|done]. injection E1 as <- <-. apply core_DelSlot in E3. cbn in *. congruence.
Qed.

Lemma core_RemoveSlave st m s st' r : clusterNodeRemoveSlave st m s = Some (st', r) -> core st' = core st.
Proof. unfold clusterNodeRemoveSlave. core_tac. Qed.

Lemma core_AddSlave st m s st' r : clusterNodeAddSlave st m s = Some (st', r) -> core st' = core st.
Proof. unfold clusterNodeAddSlave. core_tac. Qed.

(** One step of a computation that keeps the core. *)
Ltac core_step :=
  match goal with
  | H : clusterNodeRemoveSlave _ _ _ = Some (_, _) |- _ => apply core_RemoveSlave in H
  | H : clusterNodeAddSlave _ _ _ = Some (_, _) |- _ => apply core_AddSlave in H
  | H : clusterDelNodeSlots _ _ = Some (_, _) |- _ => apply core_DelNodeSlots in H
  | H : clusterAddSlot _ _ _ = Some (_, _) |- _ => apply core_AddSlot in H
  | H : clusterDelSlot _ _ = Some (_, _) |- _ => apply core_DelSlot in H
  end.
Ltac core_solve := core_tac; repeat core_step; unfold core in *; cbn in *; congruence.

Lemma core_SetNodeAsMaster st n st' : clusterSetNodeAsMaster st n = Some st' -> core st' = core st.
Proof. unfold clusterSetNodeAsMaster. core_solve. Qed.

Lemma core_SetMaster st n st' : clusterSetMaster st n = Some st' -> core st' = core st.
Proof. unfold clusterSetMaster. core_solve. Qed.

Lemma core_rebind keys sender e bits cur st nm d j st' nm' d' :
  rebind_slot keys sender e bits cur (st, nm, d) j = Some (st', nm', d') -> core st' = core st.
Proof. unfold rebind_slot. core_solve. Qed.

Lemma core_UpdateSlots keys nr st n e bits st' d : clusterUpdateSlotsConfigWith keys nr st n e bits = Some (st', d) -> core st' = core st.
Proof.
  unfold clusterUpdateSlotsConfigWith. destruct (nodes st !! myself st) as [me|]; [|done]. cbn [mbind option_bind]. cbv zeta.
  case_match; [by intros [= <- <-]|]. set (cur := if nodeIsMaster me then _ else _). destruct (for_slots _ _) as [[[st1 nm] dirty]|] eqn:E; [|done]. cbn [mbind option_bind].
  apply (for_slots_ind (fun a => core a.1.1 = core st)) in E; [| |done].
  - cbn in E. intros H'. rewrite <- E. clear -H'. clearbody cur.
    destruct nr; [by injection H' as <- <-|]. destruct nm as [x|]; [|by injection H' as <- <-]. destruct cur as [c|]; [|done]. cbn [mbind option_bind] in H'.
    destruct (nodes st1 !! c) as [cn|]; [|done]. cbn [mbind option_bind] in H'. case_match; [|by injection H' as <- <-].
    destruct (clusterSetMaster st1 n) as [st2|] eqn:E2; [|done]. injection H' as <- <-. by apply core_SetMaster in E2.
  - intros [[st2 nm2] d2] j [[st3 nm3] d3] H2 E2. apply core_rebind in E2. cbn in *. congruence.
Qed.

Lemma core_new_health env st master ok : core (new_health env st master ok) = core st.
Proof. unfold new_health. cbv zeta. by repeat case_match. Qed.

Lemma core_UpdateState env st st' : clusterUpdateState env st = Some st' -> core st' = core st.
Proof.
  unfold clusterUpdateState. destruct (nodes st !! _) as [me|]; [|done]. cbn [mbind option_bind]. case_match; [by intros [= <-]|].
  destruct (if cluster_require_full_coverage env then covered st else Some true) as [ok|]; [|done]. intros [= <-]. by rewrite core_new_health.
Qed.

(** Messages that are part of an election. *)
Definition is_ack (m : clusterMsg) : bool := match msg_type m with CLUSTERMSG_TYPE_FAILOVER_AUTH_ACK => true | _ => false end.
Definition is_request (m : clusterMsg) : bool := match msg_type m with CLUSTERMSG_TYPE_FAILOVER_AUTH_REQUEST => true | _ => false end.
Definition neutral (out : list (name * clusterMsg)) : Prop := Forall (fun p => is_ack p.2 = false /\ is_request p.2 = false) out.

Lemma header_core env st t m : clusterBuildMessageHdr env st t = Some m -> msg_type m = t /\ msg_sender m = myself st /\ msg_currentEpoch m = currentEpoch st.
Proof. unfold clusterBuildMessageHdr. destruct (nodes st !! myself st); [|done]. cbn [mbind option_bind]. destruct (nodes st !! _); [|done]. by intros [= <-]. Qed.

Lemma neutral_map m (l : list (name * clusterNode)) : is_ack m = false -> is_request m = false -> neutral (map (fun p => (fst p, m)) l).
Proof. intros. apply Forall_map, Forall_true. done. Qed.

Lemma core_BroadcastPong env st local out : clusterBroadcastPong env st local = Some out -> neutral out.
Proof.
  unfold clusterBroadcastPong. destruct (nodes st !! myself st); [|done]. cbn [mbind option_bind].
  destruct (clusterBuildMessageHdr _ _ _) as [m|] eqn:E; [|done]. cbn [mbind option_bind]. intros [= <-]. apply header_core in E as [Et _].
  apply neutral_map; unfold is_ack, is_request; by rewrite Et.
Qed.

Lemma core_take_slot old s j s' : take_slot old s j = Some s' -> core s' = core s.
Proof. unfold take_slot. core_solve. Qed.

Lemma core_Replace env st st' out : clusterFailoverReplaceYourMaster env st = Some (st', out) -> core st' = core st /\ neutral out.
Proof.
  intros H. unfold clusterFailoverReplaceYourMaster in H. apply bind_Some in H as (me & _ & H).
  destruct (nodeIsMaster me); [injection H as <- <-; split; [done|constructor]|]. destruct (slaveof me) as [old|]; [|injection H as <- <-; split; [done|constructor]].
  apply bind_Some in H as (st1 & E1 & H). apply bind_Some in H as (st2 & E2 & H). apply bind_Some in H as (st3 & E3 & H). apply bind_Some in H as (o & E4 & H).
  injection H as <- <-. apply core_SetNodeAsMaster in E1. apply core_UpdateState in E3. apply core_BroadcastPong in E4. split; [|done].
  apply (for_slots_ind (fun a => core a = core st)) in E2; [|intros s j s' Hs E; apply core_take_slot in E; congruence|done].
  change (core st3 = core st). congruence.
Qed.

(** The epoch may have grown; nothing else of the core changed. *)
Definition epoch_grows (st st' : clusterState) : Prop :=
  myself st' = myself st /\ currentEpoch st <= currentEpoch st' /\ lastVoteEpoch st' = lastVoteEpoch st /\ ballot (elec st') = ballot (elec st).

Lemma core_grows st st' : core st' = core st -> epoch_grows st st'.
Proof.
  intros H. pose proof (f_equal (fun x => x.1.1.1) H) as E1. pose proof (f_equal (fun x => x.1.1.2) H) as E2. pose proof (f_equal (fun x => x.1.2) H) as E3.
  pose proof (f_equal snd H) as E4. cbn in *. unfold epoch_grows. rewrite E1, E2, E3, E4. split; [done|]. split; [lia|done].
Qed.

Lemma grows_trans st1 st2 st3 : epoch_grows st1 st2 -> epoch_grows st2 st3 -> epoch_grows st1 st3.
Proof. intros (A1 & B1 & C1 & D1) (A2 & B2 & C2 & D2). unfold epoch_grows. rewrite A2, A1, C2, C1, D2, D1. split; [done|]. split; [lia|done]. Qed.

Definition EPOCH_LIMIT : Z := 2 ^ 64 - 1.

Lemma next_epoch_succ st : 0 <= currentEpoch st < EPOCH_LIMIT -> next_epoch st = currentEpoch st + 1.
Proof. unfold EPOCH_LIMIT, next_epoch. intros. apply uwrap_small. unfold in_u. lia. Qed.

Lemma grows_Collision st n st' :
  0 <= currentEpoch st < EPOCH_LIMIT -> clusterHandleConfigEpochCollision st n = Some st' -> epoch_grows st st'.
Proof.
  intros He H. unfold clusterHandleConfigEpochCollision in H. apply bind_Some in H as (me & _ & H). apply bind_Some in H as (nd & _ & H).
  case_match; [injection H as <-; by apply core_grows|]. case_match; [injection H as <-; by apply core_grows|]. injection H as <-.
  unfold epoch_grows. cbn. rewrite next_epoch_succ by done. split; [done|]. split; [lia|done].
Qed.

(** The epoch of a sender that is known and not in handshake. *)
Definition seen_epoch (st : clusterState) (m : clusterMsg) : Z :=
  match nodes st !! msg_sender m with
  | Some nd => if nodeInHandshake nd then currentEpoch st else Z.max (currentEpoch st) (msg_currentEpoch m)
  | None => currentEpoch st
  end.

Lemma header_spec st m st' :
  process_header st m = Some st' ->
  core st' = (myself st, seen_epoch st m, lastVoteEpoch st, ballot (elec st)) /\
  (forall nd, nodes st !! msg_sender m = Some nd -> exists nd', nodes st' !! msg_sender m = Some nd' /\
     nodeInHandshake nd' = nodeInHandshake nd /\ nodeIsMaster nd' = nodeIsMaster nd /\ numslots nd' = numslots nd) /\
  (nodes st !! msg_sender m = None -> nodes st' !! msg_sender m = None).
Proof.
  intros H. unfold process_header, seen_epoch in *. destruct (nodes st !! msg_sender m) as [nd|] eqn:En; [|injection H as <-; done].
  destruct (nodeInHandshake nd) eqn:Eh; [injection H as <-; split; [done|]; split; [intros ? [= <-]; by exists nd|done]|].
  apply bind_Some in H as (me & _ & H). injection H as <-.
  set (st1 := if _ >? _ then _ else _). assert (core st1 = (myself st, Z.max (currentEpoch st) (msg_currentEpoch m), lastVoteEpoch st, ballot (elec st))) as Hc.
  { unfold st1. destruct (Z.gtb_spec (msg_currentEpoch m) (currentEpoch st)); unfold core; cbn; repeat f_equal; lia. }
  clearbody st1. set (nd' := nd_offset _ _ _). split; [|split; [|done]].
  - case_match; exact Hc.
  - intros ? [= <-]. exists nd'. assert (nodes (put_node st1 (msg_sender m) nd') !! msg_sender m = Some nd') as E by apply lookup_insert_eq.
    split; [case_match; exact E|]. unfold nd'. by case_match.
Qed.

Lemma core_role st n m st' : process_role st n m = Some st' -> core st' = core st.
Proof.
  intros H. unfold process_role in H. destruct (msg_slaveof m) as [master|]; [|by eapply core_SetNodeAsMaster].
  apply bind_Some in H as (nd & _ & H). apply bind_Some in H as (st1 & E1 & H).
  assert (core st1 = core st) as <-.
  { case_match; [|by injection E1 as <-]. apply bind_Some in E1 as ([st2 d] & E2 & E1). apply bind_Some in E1 as (nd2 & _ & E1). injection E1 as <-. by apply core_DelNodeSlots in E2. }
  clear E1. apply bind_Some in H as (nd1 & _ & H). case_match; [|by injection H as <-]. apply bind_Some in H as (st2 & E2 & H).
  apply bind_Some in H as ([st3 r] & E3 & H). apply bind_Some in H as (nd3 & _ & H). injection H as <-. apply core_AddSlave in E3. change (core st3 = core st1). rewrite E3.
  destruct (slaveof nd1); [|by injection E2 as <-]. apply bind_Some in E2 as ([st4 r4] & E4 & E2). injection E2 as <-. by apply core_RemoveSlave in E4.
Qed.

Lemma neutral_Update env st to n out : clusterSendUpdate env st to n = Some out -> neutral out.
Proof.
  intros H. unfold clusterSendUpdate in H. apply bind_Some in H as (t & _ & H). case_match; [injection H as <-; constructor|].
  apply bind_Some in H as (nd & _ & H). apply bind_Some in H as (hdr & E & H). injection H as <-. apply header_core in E as [Et _].
  constructor; [|constructor]. cbn. unfold is_ack, is_request. by rewrite Et.
Qed.

Lemma grows_config env st m st' out :
  0 <= currentEpoch st < EPOCH_LIMIT -> process_config env st m = Some (st', out) -> epoch_grows st st' /\ neutral out.
Proof.
  intros He H. unfold process_config in H. cbv zeta in H. destruct (nodes st !! msg_sender m) as [nd|]; [|injection H as <- <-; split; [by apply core_grows|constructor]].
  set (e := if nodeInHandshake nd then _ else _) in H. set (st0 := put_node _ _ _) in H. assert (core st0 = core st) as E0 by done. clearbody st0 e.
  apply bind_Some in H as (st1 & E1 & H). apply core_role in E1. apply bind_Some in H as (sender & _ & H). apply bind_Some in H as (dirty & _ & H).
  apply bind_Some in H as ([st2 d2] & E2 & H). assert (core st2 = core st1) as E2' by (destruct (nodeIsMaster sender && dirty); [by apply core_UpdateSlots in E2|by injection E2 as <- <-]). clear E2.
  apply bind_Some in H as (o & Eo & H). apply bind_Some in H as (me & _ & H). apply bind_Some in H as (sender2 & _ & H). apply bind_Some in H as (st3 & E3 & H).
  injection H as <- <-. assert (core st2 = core st) as Ec by congruence. split.
  - apply (grows_trans st st2); [by apply core_grows|]. destruct (nodeIsMaster me && nodeIsMaster sender2 && (e =? configEpoch me)); [|injection E3 as <-; by apply core_grows]. eapply grows_Collision; [|done].
    pose proof (f_equal (fun x => x.1.1.2) Ec) as E. cbn in E. by rewrite E.
  - destruct dirty; [|injection Eo as <-; constructor]. apply bind_Some in Eo as ([x|] & _ & Eo); [by eapply neutral_Update|injection Eo as <-; constructor].
Qed.

Lemma core_update env st m n e bits st' : process_update env st m n e bits = Some st' -> core st' = core st.
Proof.
  intros H. unfold process_update in H. destruct (nodes st !! msg_sender m); [|by injection H as <-]. destruct (nodes st !! n) as [nd|]; [|by injection H as <-].
  case_match; [by injection H as <-|]. apply bind_Some in H as (st1 & E1 & H). apply bind_Some in H as (nd1 & _ & H). apply bind_Some in H as ([st2 d] & E2 & H).
  injection H as <-. apply core_UpdateSlots in E2. rewrite E2. change (core st1 = core st). case_match; [by apply core_SetNodeAsMaster in E1|by injection E1 as <-].
Qed.

Lemma core_fail env st m about : core (process_fail env st m about) = core st.
Proof. unfold process_fail. repeat case_match; done. Qed.

Lemma core_mfstart env st m : core (process_mfstart env st m) = core st.
Proof. unfold process_mfstart. repeat case_match; done. Qed.

Lemma seen_le st m : currentEpoch st <= seen_epoch st m.
Proof. unfold seen_epoch. repeat case_match; lia. Qed.

Lemma header_grows st m st' : process_header st m = Some st' -> epoch_grows st st' /\ currentEpoch st' = seen_epoch st m.
Proof.
  intros [H _]%header_spec. pose proof (f_equal (fun x => x.1.1.1) H) as E1. pose proof (f_equal (fun x => x.1.1.2) H) as E2.
  pose proof (f_equal (fun x => x.1.2) H) as E3. pose proof (f_equal snd H) as E4. cbn in *. pose proof (seen_le st m).
  unfold epoch_grows. rewrite E1, E2, E3, E4. split; [|done]. split; [done|]. split; [lia|done].
Qed.

(** A message that is not part of an election. *)
Lemma packet_other env st m st' out :
  0 <= currentEpoch st < EPOCH_LIMIT -> msg_currentEpoch m < EPOCH_LIMIT -> is_ack m = false -> is_request m = false ->
  process_packet env st m = Some (st', out) -> epoch_grows st st' /\ neutral out.
Proof.
  intros He Hm Ha Hr H. unfold process_packet in H. apply bind_Some in H as (st1 & E1 & H). apply header_grows in E1 as [G1 Es].
  assert (0 <= currentEpoch st1 < EPOCH_LIMIT) as He1 by (rewrite Es; unfold seen_epoch; repeat case_match; lia).
  assert (forall st2, core st2 = core st1 -> epoch_grows st st2) as Hcore by (intros st2 E; eapply grows_trans; [exact G1|by apply core_grows]).
  assert (neutral []) as Hn by constructor. unfold is_ack, is_request in *. destruct (msg_type m); try done.
  - apply grows_config in H as [G2 Hout]; [|done]. split; [by eapply grows_trans|done].
  - apply grows_config in H as [G2 Hout]; [|done]. split; [by eapply grows_trans|done].
  - injection H as <- <-. split; [by apply Hcore, core_fail|done].
  - apply bind_Some in H as (st2 & E2 & H). injection H as <- <-. split; [by apply Hcore; eapply core_update|done].
  - injection H as <- <-. split; [by apply Hcore, core_mfstart|done].
Qed.

(** A request for a vote: granted at most once per epoch, for an epoch not
    beyond the one of the request. *)
Lemma packet_request env st m st' out :
  is_request m = true -> process_packet env st m = Some (st', out) ->
  (epoch_grows st st' /\ out = []) \/
  (myself st' = myself st /\ ballot (elec st') = ballot (elec st) /\ currentEpoch st' = lastVoteEpoch st' /\ currentEpoch st <= currentEpoch st' /\
   lastVoteEpoch st <> lastVoteEpoch st' /\ lastVoteEpoch st' <= msg_currentEpoch m /\
   Forall (fun p => is_ack p.2 = true /\ p.1 = msg_sender m /\ msg_sender p.2 = myself st /\ msg_currentEpoch p.2 = lastVoteEpoch st') out /\ (length out <= 1)%nat).
Proof.
  intros Hr H. unfold process_packet in H. apply bind_Some in H as (st1 & E1 & H). apply header_grows in E1 as [G1 Es].
  unfold is_request in Hr. destruct (msg_type m); try done. unfold process_auth_request in H.
  destruct (nodes st1 !! msg_sender m) as [nd|]; [|injection H as <- <-; by left]. unfold clusterSendFailoverAuthIfNeeded in H.
  apply bind_Some in H as (nd1 & _ & H). apply bind_Some in H as (me & _ & H). case_match; [injection H as <- <-; by left|].
  destruct (Z.ltb_spec (msg_currentEpoch m) (currentEpoch st1)); [injection H as <- <-; by left|].
  destruct (Z.eqb_spec (lastVoteEpoch st1) (currentEpoch st1)); [injection H as <- <-; by left|]. case_match; [injection H as <- <-; by left|].
  destruct (slaveof nd1) as [master|]; [|injection H as <- <-; by left]. apply bind_Some in H as (mn & _ & H).
  case_match; [injection H as <- <-; by left|]. case_match; [injection H as <- <-; by left|]. apply bind_Some in H as (newer & _ & H).
  case_match; [injection H as <- <-; by left|]. apply bind_Some in H as (o & Eo & H). injection H as <- <-. right.
  destruct G1 as (A1 & B1 & C1 & D1). cbn. split; [done|]. split; [done|]. split; [done|]. split; [done|]. split; [congruence|]. split; [done|].
  unfold clusterSendFailoverAuth in Eo. apply bind_Some in Eo as (nd2 & _ & Eo). case_match; [injection Eo as <-; split; [constructor|cbn; lia]|].
  apply bind_Some in Eo as (hdr & Eh & Eo). injection Eo as <-. apply header_core in Eh as (Et & Hs & Hc). split; [|cbn; lia]. constructor; [|constructor].
  cbn in *. unfold is_ack. rewrite Et. split; [done|]. split; [done|]. by rewrite Hs.
Qed.

(** A vote: counted if it comes from a master with slots and is not for an
    earlier election. *)
Lemma packet_ack env st m st' out :
  is_ack m = true -> process_packet env st m = Some (st', out) ->
  out = [] /\ myself st' = myself st /\ currentEpoch st <= currentEpoch st' /\ lastVoteEpoch st' = lastVoteEpoch st /\
  failover_auth_sent (elec st') = failover_auth_sent (elec st) /\ failover_auth_epoch (elec st') = failover_auth_epoch (elec st) /\
  (failover_auth_count (elec st') = failover_auth_count (elec st) \/
   failover_auth_count (elec st') = failover_auth_count (elec st) + 1 /\
   (0 < failover_auth_epoch (elec st) -> failover_auth_epoch (elec st) <= msg_currentEpoch m) /\
   exists nd, nodes st !! msg_sender m = Some nd /\ nodeIsMaster nd = true /\ 0 < numslots nd).
Proof.
  intros Ha H. unfold process_packet in H. apply bind_Some in H as (st1 & E1 & H). pose proof (header_spec _ _ _ E1) as (_ & Hn & Hnone).
  apply header_grows in E1 as [(A & B & C & D) _]. unfold is_ack in Ha. destruct (msg_type m); try done. injection H as <- <-. split; [done|].
  assert (failover_auth_count (elec st1) = failover_auth_count (elec st) /\ failover_auth_sent (elec st1) = failover_auth_sent (elec st) /\
    failover_auth_epoch (elec st1) = failover_auth_epoch (elec st)) as (D1 & D2 & D3) by (unfold ballot in D; by simplify_eq).
  unfold process_auth_ack. destruct (nodes st1 !! msg_sender m) as [nd'|] eqn:E'; [|rewrite D1, D2, D3; split_and!; try done; by left].
  destruct (nodes st !! msg_sender m) as [nd|]; [|specialize (Hnone eq_refl); congruence]. destruct (Hn nd eq_refl) as (nd2 & E2 & F1 & F2 & F3). injection E2 as <-.
  cbv zeta. rewrite F1, F2, F3, D3. destruct (nodeIsMaster nd && _ && _) eqn:Ec; [|rewrite D1, D2; split_and!; try done; by left]. cbn. rewrite D1, D2.
  apply andb_true_iff in Ec as [[Hm Hs%Z.gtb_lt]%andb_true_iff He%Z.geb_le]. split_and!; try done. right. split; [done|]. split; [|by exists nd].
  intros Hpos. destruct (nodeInHandshake nd); lia.
Qed.

Lemma core_Log env st r st' : clusterLogCantFailover env st r = Some st' -> core st' = core st /\ size st' = size st.
Proof.
  intros H. unfold clusterLogCantFailover in H. case_match; [by injection H as <-|]. apply bind_Some in H as (me & _ & H). apply bind_Some in H as (recent & _ & H). by injection H as <-.
Qed.

Lemma core_rank env st st' : update_rank env st = Some st' -> core st' = core st /\ size st' = size st /\ nodes st' = nodes st.
Proof.
  intros H. unfold update_rank in H. case_match; [|by injection H as <-]. apply bind_Some in H as (r & _ & H). injection H as <-. by case_match.
Qed.

(** What an attempt to fail over does: nothing, schedule an election, ask for
    votes in a new epoch, or win. *)
Lemma failover_spec env st st' out w :
  0 <= currentEpoch st < EPOCH_LIMIT -> clusterHandleSlaveFailover env st = Some (st', out, w) ->
  (w = false /\ core st' = core st /\ out = []) \/
  (w = false /\ neutral out /\ core st' = (myself st, currentEpoch st, lastVoteEpoch st, (0, false, failover_auth_epoch (elec st)))) \/
  (w = false /\ failover_auth_sent (elec st) = false /\
   core st' = (myself st, currentEpoch st + 1, lastVoteEpoch st, (failover_auth_count (elec st), true, currentEpoch st + 1)) /\
   Forall (fun p => is_ack p.2 = false /\ msg_sender p.2 = myself st /\ msg_currentEpoch p.2 = currentEpoch st + 1) out) \/
  (w = true /\ core st' = core st /\ neutral out /\ failover_auth_sent (elec st) = true /\ size st / 2 + 1 <= failover_auth_count (elec st)).
Proof.
  intros He H. unfold clusterHandleSlaveFailover in H. cbv zeta in H. apply bind_Some in H as (me & _ & H).
  case_match; [injection H as <- <- <-; by left|]. destruct (slaveof me) as [master|]; [|injection H as <- <- <-; by left].
  apply bind_Some in H as (mn & _ & H). case_match; [injection H as <- <- <-; by left|].
  assert (forall st0 r st1, core st0 = core st -> clusterLogCantFailover env st0 r = Some st1 -> core st1 = core st) as Hlog
    by (intros st0 r st1 E0 [E1 _]%core_Log; congruence).
  case_match; [apply bind_Some in H as (st1 & E1 & H); injection H as <- <- <-; left; split; [done|]; split; [by eapply Hlog|done]|].
  case_match.
  { apply bind_Some in H as ([st1 o] & E1 & H). injection H as <- <- <-. right. left. unfold schedule_election in E1. apply bind_Some in E1 as (r & _ & E1).
    apply bind_Some in E1 as (o1 & Eo & E1). injection E1 as <- <-. apply core_BroadcastPong in Eo. split; [done|]. split; [done|]. by destruct (negb (mf_end (mf st) =? 0)). }
  apply bind_Some in H as (st1 & E1 & H). apply core_rank in E1 as (E1 & Es & En).
  pose proof (f_equal (fun x => x.1.1.1) E1) as F1. pose proof (f_equal (fun x => x.1.1.2) E1) as F2. pose proof (f_equal (fun x => x.1.2) E1) as F3.
  pose proof (f_equal snd E1) as F4. unfold core, ballot in F1, F2, F3, F4. cbn [fst snd] in F1, F2, F3, F4. injection F4 as F5 F6 F7.
  case_match; [apply bind_Some in H as (st2 & E2 & H); injection H as <- <- <-; left; split; [done|]; split; [by eapply Hlog|done]|].
  case_match; [apply bind_Some in H as (st2 & E2 & H); injection H as <- <- <-; left; split; [done|]; split; [by eapply Hlog|done]|].
  destruct (failover_auth_sent (elec st1)) eqn:Esent; cbn [negb] in H.
  - destruct (Z.geb_spec (failover_auth_count (elec st1)) (size st / 2 + 1)).
    + apply bind_Some in H as (me1 & _ & H). apply bind_Some in H as ([st2 o] & E2 & H). injection H as <- <- <-. apply core_Replace in E2 as [E2 Ho].
      right. right. right. split; [done|]. split; [|split; [done|split; [congruence|lia]]]. rewrite E2. destruct (configEpoch me1 <? failover_auth_epoch (elec st1)); exact E1.
    + apply bind_Some in H as (st2 & E2 & H); injection H as <- <- <-; left; split; [done|]; split; [by eapply Hlog|done].
  - right. right. left. apply bind_Some in H as (o & Eo & H). injection H as <- <- <-. split; [done|]. split; [congruence|].
    assert (next_epoch st1 = currentEpoch st + 1) as En1 by (rewrite next_epoch_succ; [lia|by rewrite F2]). split.
    { unfold core, ballot. cbn. by rewrite F1, F3, F5, En1. }
    unfold clusterRequestFailoverAuth in Eo. apply bind_Some in Eo as (hdr & Eh & Eo). injection Eo as <-. apply header_core in Eh as (Et & Hs & Hc).
    cbn in Hs, Hc. rewrite F1 in Hs. rewrite En1 in Hc. apply Forall_map, Forall_true. intros p. unfold compose. cbn [fst snd].
    unfold is_ack. cbn. destruct (negb (mf_end (mf st1) =? 0)); cbn; rewrite Et; split_and!; done.
Qed.

(** ** The cluster *)

(** A vote: the voter, the epoch and the candidate. *)
Abbreviation vote := (name * Z * name)%type.

Record world := mk_world {
  views : gmap name clusterState;
  net : list (name * clusterMsg);        (* packets in flight, with their destination *)
  votes : list vote;                     (* sent so far *)
  counted : list vote;                   (* counted so far *)
  won : list (name * Z);                 (* elections won so far *)
}.

Definition as_vote (p : name * clusterMsg) : option vote := if is_ack p.2 then Some (msg_sender p.2, msg_currentEpoch p.2, p.1) else None.
Definition acks_of (l : list (name * clusterMsg)) : list vote := omap as_vote l.

Inductive event :=
  | Deliver (i : nat) (env : environment)                 (* the [i]-th packet arrives *)
  | Lose (i : nat)                                        (* it is lost *)
  | Failover (n : name) (env : environment)               (* a node calls [clusterHandleSlaveFailover] *)
  | Other (n : name) (st : clusterState) (out : list (name * clusterMsg))
  | Restart (n : name).

(** A node that restarts reads the epochs and its last vote from its
    configuration file, and has no election. *)
Definition restarted (st : clusterState) : clusterState := set_elec st (mk_election 0 0 false 0 0).

Definition run_event (w : world) (ev : event) : option world :=
  match ev with
  | Deliver i env =>
    '(n, m) ← net w !! i;
    st ← views w !! n;
    '(st', out) ← process_packet env st m;
    let c := if failover_auth_count (elec st) <? failover_auth_count (elec st') then [(msg_sender m, msg_currentEpoch m, n)] else [] in
    Some (mk_world (<[n := st']> (views w)) (delete i (net w) ++ out) (votes w ++ acks_of out) (counted w ++ c) (won w))
  | Lose i => _ ← net w !! i; Some (mk_world (views w) (delete i (net w)) (votes w) (counted w) (won w))
  | Failover n env =>
    st ← views w !! n;
    '(st', out, wins) ← clusterHandleSlaveFailover env st;
    Some (mk_world (<[n := st']> (views w)) (net w ++ out) (votes w ++ acks_of out) (counted w)
            (won w ++ if (wins : bool) then [(n, failover_auth_epoch (elec st))] else []))
  | Other n st' out => Some (mk_world (<[n := st']> (views w)) (net w ++ out) (votes w ++ acks_of out) (counted w) (won w))
  | Restart n =>
    st ← views w !! n;
    Some (mk_world (<[n := restarted st]> (views w)) (net w) (votes w) (counted w) (won w))
  end.

Fixpoint run_world (w : world) (evs : list event) : option world :=
  match evs with
  | [] => Some w
  | ev :: evs => w ← run_event w ev; run_world w evs
  end.

(** ** What elections rely on *)

Definition voter_view (st : clusterState) (v : name) : bool :=
  match nodes st !! v with Some nd => nodeIsMaster nd && (numslots nd >? 0) | None => false end.

(** For the elections of epoch [e]: those who count votes take them only from
    the masters [V], and know the size of the cluster to be at least that of
    [V]; a vote arrives while the election it is for, or a later one, is on
    (votes do not outlive the time after which an election is repeated);
    counters of epochs do not overflow; and what a node does beside the
    handlers of [Cluster] has nothing to do with elections. *)
Definition admissible_event (e : Z) (V : gset name) (timely : bool) (w : world) (ev : event) : Prop :=
  match ev with
  | Deliver i env => forall n m st, net w !! i = Some (n, m) -> views w !! n = Some st ->
      currentEpoch st < EPOCH_LIMIT /\ msg_currentEpoch m < EPOCH_LIMIT /\
      (timely = true -> is_ack m = true -> failover_auth_sent (elec st) = true) /\
      (is_ack m = true -> msg_currentEpoch m = e -> voter_view st (msg_sender m) = true -> msg_sender m ∈ V)
  | Lose _ => True
  | Failover n env => forall st, views w !! n = Some st -> currentEpoch st < EPOCH_LIMIT /\ (failover_auth_epoch (elec st) = e -> Z.of_nat (base.size V) <= size st)
  | Other n st' out => exists st, views w !! n = Some st /\ epoch_grows st st' /\ neutral out
  | Restart _ => True
  end.

Fixpoint admissible_run (e : Z) (V : gset name) (timely : bool) (w : world) (evs : list event) : Prop :=
  match evs with
  | [] => True
  | ev :: evs => admissible_event e V timely w ev /\ forall w', run_event w ev = Some w' -> admissible_run e V timely w' evs
  end.

(** No election is going on. *)
Definition calm (w : world) : Prop :=
  (forall n st, views w !! n = Some st -> myself st = n /\ 0 <= lastVoteEpoch st <= currentEpoch st /\ failover_auth_sent (elec st) = false /\ failover_auth_count (elec st) = 0) /\
  neutral (net w) /\ votes w = [] /\ counted w = [] /\ won w = [].

(** ** The invariant *)

Definition tally (l : list vote) (k : Z) (c : name) : Z := zlen (filter (fun x => x.1.2 = k /\ x.2 = c) l).

Definition view_ok (l : list vote) (n : name) (st : clusterState) : Prop :=
  myself st = n /\ 0 <= currentEpoch st /\ lastVoteEpoch st <= currentEpoch st /\
  (failover_auth_sent (elec st) = false -> failover_auth_count (elec st) = 0) /\
  (failover_auth_sent (elec st) = true -> 0 < failover_auth_epoch (elec st) <= currentEpoch st) /\
  failover_auth_count (elec st) <= tally l (failover_auth_epoch (elec st)) n.

(** The candidate [c] has asked for votes in epoch [k], and in none later
    than its current election. *)
Definition asked (vs : gmap name clusterState) (c : name) (k : Z) : Prop :=
  forall st, vs !! c = Some st -> k <= currentEpoch st /\ (failover_auth_sent (elec st) = true -> k <= failover_auth_epoch (elec st)).

Record election_inv (e : Z) (V : gset name) (w : world) : Prop := {
  inv_view n st : views w !! n = Some st -> view_ok (counted w) n st;
  inv_vote v k c : (v, k, c) ∈ votes w -> (exists st, views w !! v = Some st /\ k <= lastVoteEpoch st) /\ asked (views w) c k;
  inv_once : NoDup (map fst (votes w));
  inv_acks : acks_of (net w) ++ counted w ⊆+ votes w;
  inv_requests dst m : (dst, m) ∈ net w -> is_request m = true -> asked (views w) (msg_sender m) (msg_currentEpoch m);
  inv_won c : (c, e) ∈ won w -> Z.of_nat (base.size V) / 2 + 1 <= tally (counted w) e c;
  inv_voters v c : (v, e, c) ∈ counted w -> v ∈ V;
}.

(** How the view of a node evolves. *)
Definition view_step (st st' : clusterState) : Prop :=
  currentEpoch st <= currentEpoch st' /\ lastVoteEpoch st <= lastVoteEpoch st' /\
  (failover_auth_sent (elec st') = true ->
   failover_auth_sent (elec st) = true /\ failover_auth_epoch (elec st') = failover_auth_epoch (elec st) \/ currentEpoch st <= failover_auth_epoch (elec st')).

Lemma asked_step vs n st st' c k : vs !! n = Some st -> view_step st st' -> asked vs c k -> asked (<[n := st']> vs) c k.
Proof.
  intros Hn (Hc & _ & Hs) Ha s Hs'. destruct (decide (n = c)) as [->|Hne].
  - rewrite lookup_insert_eq in Hs'. injection Hs' as <-. destruct (Ha st Hn) as [H1 H2]. split; [lia|]. intros Hsent. destruct (Hs Hsent) as [[? ->]|?]; [by apply H2|lia].
  - rewrite lookup_insert_ne in Hs' by done. by apply Ha.
Qed.

Lemma tally_app l1 l2 k c : tally (l1 ++ l2) k c = tally l1 k c + tally l2 k c.
Proof. unfold tally. by rewrite filter_app, zlen_app. Qed.

Lemma tally_nonneg l k c : 0 <= tally l k c.
Proof. apply zlen_nonneg. Qed.

(** A step of one node: what has to be shown of its new view, of the votes it
    sends ([nv]) or counts ([nc]) and of the packets. *)
Lemma inv_step e V w n st st' net' nv nc nw :
  election_inv e V w -> views w !! n = Some st -> view_step st st' -> view_ok (counted w ++ nc) n st' ->
  Forall (fun x => x.1 = (n, lastVoteEpoch st') /\ lastVoteEpoch st < lastVoteEpoch st' /\ asked (<[n := st']> (views w)) x.2 (lastVoteEpoch st')) nv -> (length nv <= 1)%nat ->
  acks_of net' ++ counted w ++ nc ⊆+ votes w ++ nv ->
  (forall dst m, (dst, m) ∈ net' -> is_request m = true -> asked (<[n := st']> (views w)) (msg_sender m) (msg_currentEpoch m)) ->
  (forall c, (c, e) ∈ nw -> Z.of_nat (base.size V) / 2 + 1 <= tally (counted w) e c) ->
  (forall v c, (v, e, c) ∈ nc -> v ∈ V) ->
  election_inv e V (mk_world (<[n := st']> (views w)) net' (votes w ++ nv) (counted w ++ nc) (won w ++ nw)).
Proof.
  intros I Hn Hstep Hok Hnv Hlen Hacks Hreq Hwon Hvot. constructor; cbn [views net votes counted won].
  - intros n' s Hs. destruct (decide (n = n')) as [->|Hne].
    + rewrite lookup_insert_eq in Hs. by injection Hs as <-.
    + rewrite lookup_insert_ne in Hs by done. destruct (inv_view e V w I n' s Hs) as (A & B & C & D & E & F). unfold view_ok. rewrite tally_app.
      pose proof (tally_nonneg nc (failover_auth_epoch (elec s)) n'). split; [done|]. split; [done|]. split; [done|]. split; [done|]. split; [done|lia].
  - intros v k c [Hin|Hin]%elem_of_app.
    + destruct (inv_vote e V w I v k c Hin) as [(sv & Hv & Hk) Ha]. split; [|by eapply asked_step]. destruct (decide (n = v)) as [->|Hne].
      * exists st'. rewrite lookup_insert_eq. split; [done|]. rewrite Hn in Hv. injection Hv as <-. destruct Hstep as (_ & ? & _). lia.
      * exists sv. by rewrite lookup_insert_ne.
    + rewrite Forall_forall in Hnv. destruct (Hnv _ Hin) as (E & _ & Ha). cbn in E, Ha. injection E as -> ->. split; [|done]. exists st'. rewrite lookup_insert_eq. done.
  - rewrite map_app. apply NoDup_app. split; [apply (inv_once e V w I)|]. split.
    + intros x Hx Hx'. apply list_elem_of_fmap in Hx as ([[v k] c] & -> & Hin). apply list_elem_of_fmap in Hx' as (y & Ey & Hy).
      rewrite Forall_forall in Hnv. destruct (Hnv y Hy) as (Ex & Hlt & _). cbn in Ey. rewrite <- Ey in Ex. injection Ex as -> ->.
      destruct (inv_vote e V w I _ _ _ Hin) as [(sv & Hv & Hk) _]. rewrite Hn in Hv. injection Hv as <-. lia.
    + destruct nv as [|x [|y nv]]; [constructor|apply NoDup_singleton|cbn in Hlen; lia].
  - done.
  - done.
  - intros c [Hin|Hin]%elem_of_app; rewrite tally_app; pose proof (tally_nonneg nc e c); [pose proof (inv_won e V w I c Hin)|pose proof (Hwon c Hin)]; lia.
  - intros v c [Hin|Hin]%elem_of_app; [by eapply (inv_voters e V w I)|by eapply Hvot].
Qed.

Lemma acks_app l1 l2 : acks_of (l1 ++ l2) = acks_of l1 ++ acks_of l2.
Proof. apply omap_app. Qed.

Lemma acks_neutral l : neutral l -> acks_of l = [].
Proof. unfold acks_of. induction 1 as [|p l [Ha _] _ IH]; [done|]. cbn. destruct (as_vote p) eqn:E; [unfold as_vote in E; by rewrite Ha in E|done]. Qed.

Lemma acks_delete l i p : l !! i = Some p -> acks_of l ≡ₚ (match as_vote p with Some v => [v] | None => [] end) ++ acks_of (delete i l).
Proof.
  intros H. unfold acks_of. transitivity (omap as_vote (p :: delete i l)); [by apply omap_Permutation, delete_Permutation|]. cbn. by destruct (as_vote p).
Qed.

Lemma neutral_request l dst m : neutral l -> (dst, m) ∈ l -> is_request m = false.
Proof. intros H Hin. unfold neutral in H. rewrite Forall_forall in H. by destruct (H _ Hin). Qed.

Lemma grows_step st st' : epoch_grows st st' -> view_step st st'.
Proof.
  intros (_ & Hc & Hl & Hb). unfold ballot in Hb. injection Hb as _ Hs He. unfold view_step. rewrite Hl, Hs, He. split; [done|]. split; [lia|]. intros ->. by left.
Qed.

Lemma grows_ok l n st st' : epoch_grows st st' -> view_ok l n st -> view_ok l n st'.
Proof.
  intros (Hm & Hc & Hl & Hb) (A & B & C & D & E & F). unfold ballot in Hb. injection Hb as Hn Hs He. unfold view_ok. rewrite Hm, Hl, Hn, Hs, He.
  split; [done|]. split; [lia|]. split; [lia|]. split; [done|]. split; [|done]. intros Hsent. specialize (E Hsent). lia.
Qed.

(** A step that touches no vote and no election. *)
Lemma inv_neutral e V w n st st' net1 out :
  election_inv e V w -> views w !! n = Some st -> epoch_grows st st' -> neutral out ->
  acks_of net1 ⊆+ acks_of (net w) -> (forall p, p ∈ net1 -> p ∈ net w) ->
  election_inv e V (mk_world (<[n := st']> (views w)) (net1 ++ out) (votes w ++ acks_of out) (counted w ++ []) (won w ++ [])).
Proof.
  intros I Hn Hg Hout Hsub Hin. rewrite (acks_neutral out Hout). pose proof (grows_step _ _ Hg) as Hstep.
  apply (inv_step e V w n st st'); [done|done|done| |constructor|cbn; lia| | | |].
  - rewrite app_nil_r. eapply grows_ok; [done|]. by apply (inv_view e V w I).
  - rewrite acks_app, (acks_neutral out Hout), !app_nil_r. etrans; [|apply (inv_acks e V w I)]. by apply submseteq_app.
  - intros dst m [Hm|Hm]%elem_of_app Hr; [|by rewrite (neutral_request out dst m Hout Hm) in Hr]. eapply asked_step; [done|done|].
    by eapply (inv_requests e V w I), Hr; apply Hin.
  - intros c Hc. by apply elem_of_nil in Hc.
  - intros v c Hc. by apply elem_of_nil in Hc.
Qed.

Lemma core_fields st' m c l k s p :
  core st' = (m, c, l, (k, s, p)) ->
  myself st' = m /\ currentEpoch st' = c /\ lastVoteEpoch st' = l /\ failover_auth_count (elec st') = k /\ failover_auth_sent (elec st') = s /\ failover_auth_epoch (elec st') = p.
Proof. unfold core, ballot. intros H. by simplify_eq. Qed.

Lemma acks_delete_sub l i p : l !! i = Some p -> acks_of (delete i l) ⊆+ acks_of l.
Proof. intros E. rewrite (acks_delete l i p E). by apply submseteq_inserts_l. Qed.

Lemma acks_length l : (length (acks_of l) <= length l)%nat.
Proof. unfold acks_of. induction l as [|p l IH]; cbn; [lia|]. destruct (as_vote p); cbn; lia. Qed.

Lemma deliver_other e V w i env n m st st' out :
  election_inv e V w -> net w !! i = Some (n, m) -> views w !! n = Some st ->
  currentEpoch st < EPOCH_LIMIT -> msg_currentEpoch m < EPOCH_LIMIT -> is_ack m = false -> is_request m = false ->
  process_packet env st m = Some (st', out) ->
  failover_auth_count (elec st') = failover_auth_count (elec st) /\
  election_inv e V (mk_world (<[n := st']> (views w)) (delete i (net w) ++ out) (votes w ++ acks_of out) (counted w ++ []) (won w ++ [])).
Proof.
  intros I Hi Hn Hc Hm Ha Hr H. destruct (inv_view e V w I n st Hn) as (_ & Hpos & _).
  apply packet_other in H as [Hg Hout]; [|done..]. split; [destruct Hg as (_ & _ & _ & Hb); unfold ballot in Hb; by simplify_eq|].
  apply (inv_neutral e V w n st st' (delete i (net w))); [done..|by eapply acks_delete_sub|intros p Hp; by eapply list_elem_of_delete_inv].
Qed.

Lemma asked_le vs c k k' : asked vs c k -> k' <= k -> asked vs c k'.
Proof. intros Ha Hk st Hst. destruct (Ha st Hst) as [? Hs]. split; [lia|]. intros Hsent. specialize (Hs Hsent). lia. Qed.

Lemma deliver_request e V w i env n m st st' out :
  election_inv e V w -> net w !! i = Some (n, m) -> views w !! n = Some st -> is_request m = true ->
  process_packet env st m = Some (st', out) ->
  failover_auth_count (elec st') = failover_auth_count (elec st) /\
  election_inv e V (mk_world (<[n := st']> (views w)) (delete i (net w) ++ out) (votes w ++ acks_of out) (counted w ++ []) (won w ++ [])).
Proof.
  intros I Hi Hn Hr H. destruct (inv_view e V w I n st Hn) as (Hmy & Hpos & Hle & Hok).
  apply packet_request in H as [[Hg ->]|(A & B & C & D & E & F & Hout & Hlen)]; [| |done].
  - split; [destruct Hg as (_ & _ & _ & Hb); unfold ballot in Hb; by simplify_eq|].
    apply (inv_neutral e V w n st st' (delete i (net w))); [done..|constructor|by eapply acks_delete_sub|intros p Hp; by eapply list_elem_of_delete_inv].
  - pose proof B as Hb. unfold ballot in Hb. injection Hb as B1 B2 B3. split; [done|].
    assert (view_step st st') as Hstep by (unfold view_step; rewrite B2, B3; split; [lia|]; split; [lia|]; intros ->; by left).
    assert (asked (<[n := st']> (views w)) (msg_sender m) (lastVoteEpoch st')) as Hask.
    { eapply asked_step; [done|done|]. eapply asked_le; [|exact F]. eapply (inv_requests e V w I); [|done]. by eapply list_elem_of_lookup_2. }
    apply (inv_step e V w n st st'); [done|done|done| | | | | | |].
    + rewrite app_nil_r. unfold view_ok. rewrite A, B1, B2, B3. destruct Hok as (H1 & H2 & H3). split; [done|]. split; [lia|]. split; [lia|]. split; [done|]. split; [|done].
      intros Hs. specialize (H2 Hs). lia.
    + clear Hlen. unfold acks_of. induction Hout as [|p l (P1 & P2 & P3 & P4) _ IH]; [constructor|]. cbn. unfold as_vote. rewrite P1. constructor; [|exact IH].
      cbn. rewrite P2, P3, P4, Hmy. split; [done|]. split; [lia|done].
    + etrans; [apply acks_length|done].
    + rewrite acks_app, app_nil_r. transitivity ((acks_of (delete i (net w)) ++ counted w) ++ acks_of out).
      { rewrite <- !app_assoc. apply submseteq_app; [done|]. by rewrite (Permutation_app_comm (acks_of out)). }
      apply submseteq_app; [|done]. etrans; [|apply (inv_acks e V w I)]. apply submseteq_app; [by eapply acks_delete_sub|done].
    + intros dst m' [Hm|Hm]%elem_of_app Hr'; [eapply asked_step; [done|done|]; by eapply (inv_requests e V w I), Hr'; eapply list_elem_of_delete_inv|].
      rewrite Forall_forall in Hout. destruct (Hout _ Hm) as [Hack _]. cbn in Hack. unfold is_ack, is_request in *. by destruct (msg_type m').
    + intros c Hc. by apply elem_of_nil in Hc.
    + intros v c Hc. by apply elem_of_nil in Hc.
Qed.

Lemma deliver_ack e V w i env n m st st' out :
  election_inv e V w -> net w !! i = Some (n, m) -> views w !! n = Some st -> is_ack m = true -> failover_auth_sent (elec st) = true ->
  (msg_currentEpoch m = e -> voter_view st (msg_sender m) = true -> msg_sender m ∈ V) ->
  process_packet env st m = Some (st', out) ->
  election_inv e V (mk_world (<[n := st']> (views w)) (delete i (net w) ++ out) (votes w ++ acks_of out)
    (counted w ++ (if failover_auth_count (elec st) <? failover_auth_count (elec st') then [(msg_sender m, msg_currentEpoch m, n)] else [])) (won w ++ [])).
Proof.
  intros I Hi Hn Ha Hsent HV H. destruct (inv_view e V w I n st Hn) as (Hmy & Hpos & Hle & H1 & H2 & H3). specialize (H2 Hsent).
  apply packet_ack in H as (-> & A & B & C & D & E & [F|(F & G & nd & Hnd & Hmas & Hns)]); [| |done].
  - rewrite F, Z.ltb_irrefl. apply (inv_neutral e V w n st st' (delete i (net w))); [done..| |constructor|by eapply acks_delete_sub|intros p Hp; by eapply list_elem_of_delete_inv].
    unfold epoch_grows, ballot. rewrite A, C, D, E, F. split; [done|]. split; [lia|done].
  - rewrite (proj2 (Z.ltb_lt _ _)) by lia. set (v := (msg_sender m, msg_currentEpoch m, n)).
    assert (as_vote (n, m) = Some v) as Hv by (unfold as_vote; cbn; by rewrite Ha).
    assert (v ∈ votes w) as Hin.
    { eapply elem_of_submseteq; [|apply (inv_acks e V w I)]. apply elem_of_app. left. rewrite (acks_delete (net w) i (n, m) Hi), Hv. set_solver. }
    destruct (inv_vote e V w I _ _ _ Hin) as [_ Hask]. destruct (Hask st Hn) as [_ Hask']. specialize (Hask' Hsent). specialize (G ltac:(lia)).
    assert (msg_currentEpoch m = failover_auth_epoch (elec st)) as Hep by lia.
    assert (view_step st st') as Hstep by (unfold view_step; rewrite C, D, E; split; [lia|]; split; [lia|]; intros _; by left).
    apply (inv_step e V w n st st'); [done|done|done| |constructor|cbn; lia| | | |].
    + unfold view_ok. rewrite A, C, D, E, F, tally_app. unfold tally at 2, v. rewrite filter_cons_True by (by cbn). change (filter _ []) with (@nil vote).
      split; [done|]. split; [lia|]. split; [lia|]. split; [congruence|]. split; [lia|]. change (zlen [_]) with 1. lia.
    + rewrite acks_app, !app_nil_r. etrans; [|apply (inv_acks e V w I)]. rewrite (acks_delete (net w) i (n, m) Hi), Hv.
      rewrite app_assoc, (Permutation_app_comm _ [v]), app_assoc. done.
    + intros dst m' [Hm|Hm]%elem_of_app Hr'; [eapply asked_step; [done|done|]; by eapply (inv_requests e V w I), Hr'; eapply list_elem_of_delete_inv|].
      by apply elem_of_nil in Hm.
    + intros c Hc. by apply elem_of_nil in Hc.
    + intros v' c Hc. apply list_elem_of_singleton in Hc. unfold v in Hc. injection Hc as -> Ee _. apply HV; [done|]. unfold voter_view. rewrite Hnd, Hmas. cbn. apply Z.gtb_lt. lia.
Qed.

Lemma failover_step e V w env n st st' out wins :
  election_inv e V w -> views w !! n = Some st -> currentEpoch st < EPOCH_LIMIT -> (failover_auth_epoch (elec st) = e -> Z.of_nat (base.size V) <= size st) ->
  clusterHandleSlaveFailover env st = Some (st', out, wins) ->
  election_inv e V (mk_world (<[n := st']> (views w)) (net w ++ out) (votes w ++ acks_of out) (counted w ++ [])
    (won w ++ if wins then [(n, failover_auth_epoch (elec st))] else [])).
Proof.
  intros I Hn Hc HV H. destruct (inv_view e V w I n st Hn) as (Hmy & Hpos & Hle & H1 & H2 & H3).
  apply failover_spec in H as [(-> & E & ->)|[(-> & Hout & E)|[(-> & Hs & E & Hout)|(-> & E & Hout & Hs & Hq)]]]; [| | | |done].
  - apply (inv_neutral e V w n st st' (net w)); [done|done|by apply core_grows|constructor|done|done].
  - apply core_fields in E as (A & B & C & D & F & G). rewrite (acks_neutral out Hout).
    assert (view_step st st') as Hstep by (unfold view_step; rewrite B, C, F; split; [lia|]; split; [lia|done]).
    apply (inv_step e V w n st st'); [done|done|done| |constructor|cbn; lia| | | |].
    + unfold view_ok. rewrite app_nil_r, A, B, C, D, F, G. split; [done|]. split; [lia|]. split; [lia|]. split; [done|]. split; [done|]. apply tally_nonneg.
    + rewrite acks_app, (acks_neutral out Hout), !app_nil_r. apply (inv_acks e V w I).
    + intros dst m [Hm|Hm]%elem_of_app Hr; [|by rewrite (neutral_request out dst m Hout Hm) in Hr]. eapply asked_step; [done|done|]. by eapply (inv_requests e V w I).
    + intros c Hc'. by apply elem_of_nil in Hc'.
    + intros v c Hc'. by apply elem_of_nil in Hc'.
  - apply core_fields in E as (A & B & C & D & F & G). specialize (H1 Hs).
    assert (acks_of out = []) as Eo. { clear -Hout. unfold acks_of. induction Hout as [|p l (P & _) _ IH]; [done|]. cbn. destruct (as_vote p) eqn:Ep; [unfold as_vote in Ep; by rewrite P in Ep|done]. }
    assert (view_step st st') as Hstep by (unfold view_step; rewrite B, C, G; split; [lia|]; split; [lia|]; intros _; right; lia).
    rewrite Eo. apply (inv_step e V w n st st'); [done|done|done| |constructor|cbn; lia| | | |].
    + unfold view_ok. rewrite app_nil_r, A, B, C, D, F, G, H1. split; [done|]. split; [lia|]. split; [lia|]. split; [done|]. split; [lia|]. apply tally_nonneg.
    + rewrite acks_app, Eo, !app_nil_r. apply (inv_acks e V w I).
    + intros dst m [Hm|Hm]%elem_of_app Hr; [eapply asked_step; [done|done|]; by eapply (inv_requests e V w I)|].
      rewrite Forall_forall in Hout. destruct (Hout _ Hm) as (_ & P2 & P3). cbn in P2, P3. rewrite P2, P3, Hmy. intros s Hs'. rewrite lookup_insert_eq in Hs'. injection Hs' as <-. rewrite B, G. lia.
    + intros c Hc'. by apply elem_of_nil in Hc'.
    + intros v c Hc'. by apply elem_of_nil in Hc'.
  - pose proof (core_grows _ _ E) as Hg. rewrite (acks_neutral out Hout).
    apply (inv_step e V w n st st'); [done|done|by apply grows_step| |constructor|cbn; lia| | | |].
    + rewrite app_nil_r. by eapply grows_ok, (inv_view e V w I).
    + rewrite acks_app, (acks_neutral out Hout), !app_nil_r. apply (inv_acks e V w I).
    + intros dst m [Hm|Hm]%elem_of_app Hr; [|by rewrite (neutral_request out dst m Hout Hm) in Hr]. eapply asked_step; [done|by apply grows_step|]. by eapply (inv_requests e V w I).
    + intros c Hc'. apply list_elem_of_singleton in Hc'. injection Hc' as -> Ee. specialize (HV (eq_sym Ee)). rewrite <- Ee in H3.
      pose proof (Z.div_le_mono _ _ 2 ltac:(lia) HV). lia.
    + intros v c Hc'. by apply elem_of_nil in Hc'.
Qed.

Lemma inv_event e V w ev w' :
  election_inv e V w -> admissible_event e V true w ev -> run_event w ev = Some w' -> election_inv e V w'.
Proof.
  intros I Hadm H. destruct ev as [i env|i|n env|n st' out|n]; cbn [run_event] in H.
  - apply bind_Some in H as ([n m] & Hi & H). apply bind_Some in H as (st & Hn & H). apply bind_Some in H as ([st' out] & Hp & H). cbv zeta in H.
    destruct (Hadm n m st Hi Hn) as (Hc & Hm & Ht & HV). rewrite <- (app_nil_r (won w)) in H.
    destruct (is_ack m) eqn:Ea; [injection H as <-; eapply deliver_ack; eauto|].
    destruct (is_request m) eqn:Er.
    + destruct (deliver_request e V w i env n m st st' out I Hi Hn Er Hp) as [Ec Hinv]. rewrite Ec, Z.ltb_irrefl in H. by injection H as <-.
    + destruct (deliver_other e V w i env n m st st' out I Hi Hn Hc Hm Ea Er Hp) as [Ec Hinv]. rewrite Ec, Z.ltb_irrefl in H. by injection H as <-.
  - apply bind_Some in H as (p & Ei & H). injection H as <-. destruct I as [I1 I2 I3 I4 I5 I6 I7]; constructor; cbn; try done.
    + etrans; [|exact I4]. apply submseteq_app; [by eapply acks_delete_sub|done].
    + intros dst m Hm. eapply I5. by eapply list_elem_of_delete_inv.
  - apply bind_Some in H as (st & Hn & H). apply bind_Some in H as ([[st' out] wins] & Hf & H). injection H as <-. destruct (Hadm st Hn) as [Hc HV].
    rewrite <- (app_nil_r (counted w)). by eapply failover_step.
  - injection H as <-. destruct Hadm as (st & Hn & Hg & Hout). rewrite <- (app_nil_r (counted w)), <- (app_nil_r (won w)).
    by apply (inv_neutral e V w n st st' (net w)).
  - apply bind_Some in H as (st & Hn & H). injection H as <-. destruct (inv_view e V w I n st Hn) as (Hmy & Hpos & Hle & _).
    rewrite <- (app_nil_r (votes w)), <- (app_nil_r (counted w)), <- (app_nil_r (won w)).
    assert (view_step st (restarted st)) as Hstep by (unfold view_step; cbn; split; [lia|]; split; [lia|done]).
    apply (inv_step e V w n st); [done|done|done| |constructor|cbn; lia| | | |].
    + unfold view_ok. cbn. split_and!; try done. apply tally_nonneg.
    + rewrite !app_nil_r. apply (inv_acks e V w I).
    + intros dst m Hm Hr. eapply asked_step; [done|done|]. by eapply (inv_requests e V w I).
    + intros c Hc. by apply elem_of_nil in Hc.
    + intros v c Hc. by apply elem_of_nil in Hc.
Qed.

Lemma inv_run e V evs : forall w w',
  election_inv e V w -> admissible_run e V true w evs -> run_world w evs = Some w' -> election_inv e V w'.
Proof.
  induction evs as [|ev evs IH]; intros w w' I Hadm H; cbn [run_world] in H; [by injection H as <-|]. destruct Hadm as [He Hadm].
  apply bind_Some in H as (w1 & E1 & H). eapply IH; [|by apply Hadm|exact H]. by eapply inv_event.
Qed.

Lemma calm_inv e V w : calm w -> election_inv e V w.
Proof.
  intros (Hv & Hn & E1 & E2 & E3). constructor.
  - intros n st Hs. destruct (Hv n st Hs) as (A & B & C & D). unfold view_ok. rewrite C, D. split; [done|]. split; [lia|]. split; [lia|]. split; [done|]. split; [done|]. apply tally_nonneg.
  - intros v k c Hin. rewrite E1 in Hin. by apply elem_of_nil in Hin.
  - rewrite E1. constructor.
  - by rewrite (acks_neutral _ Hn), E2, E1.
  - intros dst m Hm Hr. by rewrite (neutral_request _ dst m Hn Hm) in Hr.
  - intros c Hc. rewrite E3 in Hc. by apply elem_of_nil in Hc.
  - intros v c Hc. rewrite E2 in Hc. by apply elem_of_nil in Hc.
Qed.

Lemma NoDup_sub {A} (l k : list A) : l ⊆+ k -> NoDup k -> NoDup l.
Proof. intros [k' ->]%submseteq_Permutation Hnd. by apply NoDup_app in Hnd as (? & _). Qed.

Lemma NoDup_voters e (l : list vote) : NoDup (map fst l) -> Forall (fun x => x.1.2 = e) l -> NoDup (map (fun x => x.1.1) l).
Proof.
  intros Hnd He. induction He as [|[[v k] c] l Hx He IH]; [constructor|]. cbn in *. apply NoDup_cons in Hnd as [Hni Hnd]. apply NoDup_cons. split; [|by apply IH].
  intros Hin. apply Hni. apply list_elem_of_fmap in Hin as ([[v' k'] c'] & Ey & Hy). apply list_elem_of_fmap. exists (v', k', c'). split; [|done].
  rewrite Forall_forall in He. specialize (He _ Hy). cbn in *. congruence.
Qed.

(** Two majorities of the same voters, each voting once. *)
Lemma one_majority e V w a b : election_inv e V w -> (a, e) ∈ won w -> (b, e) ∈ won w -> a = b.
Proof.
  intros I Ha Hb. destruct (decide (a = b)) as [|Hne]; [done|exfalso].
  pose proof (inv_won e V w I a Ha) as Qa. pose proof (inv_won e V w I b Hb) as Qb.
  set (f := fun c => filter (fun x : vote => x.1.2 = e /\ x.2 = c) (counted w)).
  assert (f a ++ f b ⊆+ counted w) as Hsub.
  { unfold f. clear -Hne. induction (counted w) as [|x l IH]; [done|]. rewrite !filter_cons. repeat case_decide; [naive_solver| | |].
    - cbn. by apply submseteq_skip.
    - rewrite <- Permutation_middle. by apply submseteq_skip.
    - by apply submseteq_cons. }
  assert (forall c x, x ∈ f c -> x.1.2 = e /\ x ∈ counted w) as Hf by (intros c x Hx; apply list_elem_of_filter in Hx; tauto).
  assert (NoDup (map (fun x => x.1.1) (f a ++ f b))) as Hnd.
  { apply (NoDup_voters e).
    - apply (NoDup_sub _ (map fst (votes w))); [|apply (inv_once e V w I)]. apply fmap_submseteq. etrans; [exact Hsub|].
      etrans; [|apply (inv_acks e V w I)]. by apply submseteq_inserts_l.
    - apply Forall_forall. intros x [Hx|Hx]%elem_of_app; by apply Hf in Hx as [? _]. }
  assert (list_to_set (map (fun x => x.1.1) (f a ++ f b)) ⊆ V) as HV.
  { intros v Hv. apply elem_of_list_to_set, list_elem_of_fmap in Hv as ([[v' k] c] & -> & Hx). assert (k = e /\ (v', k, c) ∈ counted w) as [-> Hc]
      by (apply elem_of_app in Hx as [Hx|Hx]; apply Hf in Hx; exact Hx). by eapply (inv_voters e V w I). }
  apply subseteq_size in HV. rewrite size_list_to_set in HV by done. rewrite length_map, length_app in HV. unfold tally, zlen in Qa, Qb. fold (f a) in Qa. fold (f b) in Qb.
  pose proof (Z.div_mod (Z.of_nat (base.size V)) 2 ltac:(lia)). pose proof (Z.mod_pos_bound (Z.of_nat (base.size V)) 2 ltac:(lia)). lia.
Qed.

(** C9 At most one node wins the election of an epoch, and with it the right to
    take over slots under that epoch: in any run of the cluster from a state
    without elections, with the packets delivered in any order or lost, nodes
    restarting and doing anything else meanwhile, two nodes that win the
    election of epoch [e] are the same node.  It takes that the candidates
    agree on who may vote in epoch [e] and that no vote arrives after the
    election it belongs to was abandoned; the code does not check the latter
    (see [late_votes_elect_two]). *)
Theorem one_winner_per_epoch e V w evs w' a b :
  calm w -> admissible_run e V true w evs -> run_world w evs = Some w' -> (a, e) ∈ won w' -> (b, e) ∈ won w' -> a = b.
Proof.
  intros Hcalm Hadm Hrun Ha Hb. eapply one_majority; [|exact Ha|exact Hb]. eapply inv_run; [|exact Hadm|exact Hrun]. by apply calm_inv.
Qed.

(** Two masters A and B, a master M that has failed, and its slaves X and Y. *)
Definition nA : name := [65].
Definition nB : name := [66].
Definition nM : name := [77].
Definition nX : name := [88].
Definition nY : name := [89].

Definition demo_master (failed : bool) (bits : Z) (l : list name) : clusterNode :=
  mk_node true false false failed false false false 0 bits 1 l None 0 0 0 true [].
Definition demo_slave : clusterNode := mk_node false true false false false false false 0 0 0 [] (Some nM) 0 0 0 true [].
Definition demo_nodes : gmap name clusterNode :=
  list_to_map [(nA, demo_master false 1 []); (nB, demo_master false 2 []); (nM, demo_master true 4 [nX; nY]); (nX, demo_slave); (nY, demo_slave)].
Definition demo_view (me : name) : clusterState :=
  mk_cluster me 0 0 true 3 demo_nodes (list_to_map [(0, nA); (1, nB); (2, nM)]) ∅ ∅ (mk_election 0 0 false 0 0) (mk_manual 0 None 0 false) 0 0 1 0.
Definition demo_world : world :=
  mk_world (list_to_map [(nA, demo_view nA); (nB, demo_view nB); (nX, demo_view nX); (nY, demo_view nY)]) [] [] [] [].
Definition demo_env (now : Z) : environment := mk_env now 0 0 15000 false 0 10 false false 0 0 0 0 (fun _ => 0) false.
Definition demo_voters : gset name := {[nA; nB; nM]}.

Definition demo_run : list event :=
  [Failover nX (demo_env 1000000); Failover nX (demo_env 1001000); Lose 2; Deliver 3 (demo_env 1001010); Deliver 2 (demo_env 1001020); Deliver 1 (demo_env 1001020);
   Deliver 1 (demo_env 1001030); Failover nX (demo_env 1001035); Deliver 1 (demo_env 1001040); Failover nX (demo_env 1001050)].
Definition demo_late : list event :=
  [Failover nX (demo_env 1000000); Failover nX (demo_env 1001000); Deliver 4 (demo_env 1001010); Deliver 3 (demo_env 1001010); Deliver 1 (demo_env 1001010);
   Failover nX (demo_env 1070000); Deliver 2 (demo_env 1070010); Deliver 2 (demo_env 1070010); Failover nX (demo_env 1071000); Failover nX (demo_env 1071010);
   Failover nY (demo_env 1075000); Failover nY (demo_env 1076000); Deliver 15 (demo_env 1076010); Deliver 14 (demo_env 1076010); Deliver 14 (demo_env 1076020);
   Deliver 14 (demo_env 1076020); Failover nY (demo_env 1076030)].

Lemma demo_calm : calm demo_world.
Proof.
  split; [|repeat split; constructor]. intros n st H. apply (elem_of_list_to_map_2 (M := gmap name)) in H.
  repeat (apply elem_of_cons in H as [H|H]; [injection H as -> ->; vm_compute; repeat split; discriminate|]). by apply elem_of_nil in H.
Qed.

(** The conditions as a test, for runs without [Other]. *)
Definition event_test (e : Z) (V : gset name) (timely : bool) (w : world) (ev : event) : bool :=
  match ev with
  | Deliver i _ =>
    match net w !! i with
    | None => true
    | Some (n, m) =>
      match views w !! n with
      | None => true
      | Some st =>
        (currentEpoch st <? EPOCH_LIMIT) && (msg_currentEpoch m <? EPOCH_LIMIT) && (negb timely || negb (is_ack m) || failover_auth_sent (elec st)) &&
        (negb (is_ack m) || negb (msg_currentEpoch m =? e) || negb (voter_view st (msg_sender m)) || bool_decide (msg_sender m ∈ V))
      end
    end
  | Failover n _ =>
    match views w !! n with
    | None => true
    | Some st => (currentEpoch st <? EPOCH_LIMIT) && (negb (failover_auth_epoch (elec st) =? e) || (Z.of_nat (base.size V) <=? size st))
    end
  | Other _ _ _ => false
  | _ => true
  end.

Fixpoint run_test (e : Z) (V : gset name) (timely : bool) (w : world) (evs : list event) : bool :=
  match evs with
  | [] => true
  | ev :: evs => event_test e V timely w ev && match run_event w ev with Some w' => run_test e V timely w' evs | None => true end
  end.

Lemma event_test_sound e V timely w ev : event_test e V timely w ev = true -> admissible_event e V timely w ev.
Proof.
  destruct ev as [i env|i|n env|n st' out|n]; cbn [event_test admissible_event]; try done.
  - intros H n m st Hi Hn. rewrite Hi, Hn in H. rewrite !andb_true_iff, !orb_true_iff, !negb_true_iff, !Z.ltb_lt, Z.eqb_neq, bool_decide_eq_true in H.
    destruct H as (((H1 & H2) & H3) & H4). split; [done|]. split; [done|]. split; intros; destruct_or!; congruence || done.
  - intros H st Hn. rewrite Hn in H. rewrite andb_true_iff, orb_true_iff, negb_true_iff, Z.ltb_lt, Z.eqb_neq, Z.leb_le in H. destruct H as [H1 [H2|H2]]; (split; [done|intros Ee]); [by contradict H2|done].
Qed.

Lemma run_test_sound e V timely evs : forall w, run_test e V timely w evs = true -> admissible_run e V timely w evs.
Proof.
  induction evs as [|ev evs IH]; intros w H; [done|]. cbn [run_test] in H. apply andb_true_iff in H as [H1 H2]. split; [by apply event_test_sound|].
  intros w' E. rewrite E in H2. by apply IH.
Qed.

Lemma one_winner_per_epoch_witness :
  exists w', run_world demo_world demo_run = Some w' /\ (nX, 1) ∈ won w' /\ forall b, (b, 1) ∈ won w' -> nX = b.
Proof.
  destruct (run_world demo_world demo_run) as [w'|] eqn:E; [|vm_compute in E; discriminate E]. exists w'.
  assert (won <$> run_world demo_world demo_run = Some [(nX, 1)]) as Ew by (vm_compute; reflexivity). rewrite E in Ew. injection Ew as Ew.
  assert ((nX, 1) ∈ won w') as Hin by (rewrite Ew; apply list_elem_of_singleton; reflexivity).
  split; [reflexivity|]. split; [exact Hin|]. intros b Hb. apply (one_winner_per_epoch 1 demo_voters demo_world demo_run w' nX b demo_calm); [|exact E|exact Hin|exact Hb].
  apply run_test_sound. vm_compute. reflexivity.
Defined.

(** Without the bound on the delay of votes there can be two winners.  The
    votes of epoch 1 for X arrive when X has given that election up but has
    not yet started its next one; the counter, which was reset before and is
    not reset again when the votes of epoch 2 are asked for, makes X win epoch 2
    without a vote, and Y wins it with the votes of A and B.  Both then serve
    the slots of M with the configuration epoch 2. *)
Theorem late_votes_elect_two :
  exists w', calm demo_world /\ admissible_run 2 demo_voters false demo_world demo_late /\ run_world demo_world demo_late = Some w' /\
    won w' = [(nX, 2); (nY, 2)] /\ votes w' = [(nA, 1, nX); (nB, 1, nX); (nA, 2, nY); (nB, 2, nY)] /\
    exists x y, views w' !! nX = Some x /\ views w' !! nY = Some y /\ cslots x !! 2 = Some nX /\ cslots y !! 2 = Some nY /\
      (configEpoch <$> nodes x !! nX) = Some 2 /\ (configEpoch <$> nodes y !! nY) = Some 2.
Proof.
  destruct (run_world demo_world demo_late) as [w'|] eqn:E; [|vm_compute in E; discriminate E]. exists w'. split; [apply demo_calm|].
  split; [apply run_test_sound; vm_compute; reflexivity|]. split; [done|].
  assert (Some w' = run_world demo_world demo_late) as E' by done. clear E. revert w' E'. vm_compute. intros w' [= ->].
  split; [reflexivity|]. split; [reflexivity|]. eexists _, _. split; [reflexivity|]. split; [reflexivity|]. repeat split; reflexivity.
Qed.
