(* ===== verification/ClusterSlots.v ===== *)
(** * Redis Cluster: the view of a node stays consistent

    The slot table and the bitmaps of the nodes are two representations of the
    same map from slots to nodes; the pointers between masters and slaves
    lead to known nodes; and the node itself is either a master, or a slave
    without slots whose master is known.  The handlers of [Cluster] rely on all
    of it (they dereference these pointers and assert the bits), and keep it
    whatever messages arrive. *)

From S2P Require Import Prelude Sds Cluster.
From stdpp Require Import options.

#[local] Opaque CLUSTER_SLOTS.

(** ** Counting bits *)

Fixpoint slots_from (fuel : nat) (j : Z) : list Z :=
  match fuel with O => [] | S fuel => j :: slots_from fuel (j + 1) end.

Definition all_slots : list Z := slots_from (Z.to_nat CLUSTER_SLOTS) 0.

Definition nbits (b : Z) : Z := zlen (filter (fun j => Z.testbit b j = true) all_slots).

Definition is_slot (j : Z) : Prop := 0 <= j < CLUSTER_SLOTS.

Lemma filter_flip (P Q : Z -> Prop) `{!forall x, Decision (P x), !forall x, Decision (Q x)} j l :
  NoDup l -> j ∈ l -> ~ P j -> Q j -> (forall i, i <> j -> P i <-> Q i) -> zlen (filter Q l) = zlen (filter P l) + 1.
Proof.
  intros Hnd Hin HP HQ Heq. induction l as [|x l IH]; [by apply elem_of_nil in Hin|]. apply NoDup_cons in Hnd as [Hx Hnd]. apply elem_of_cons in Hin as [<-|Hin].
  - rewrite filter_cons_True, filter_cons_False, zlen_cons by done. assert (filter Q l = filter P l) as ->; [|lia].
    clear -Heq Hx. induction l as [|y l IH]; [done|]. apply not_elem_of_cons in Hx as [Hy Hx]. specialize (Heq y (not_eq_sym Hy)) as Hyq.
    destruct (decide (P y)), (decide (Q y)); [rewrite !filter_cons_True by done; f_equal; by apply IH|tauto|tauto|rewrite !filter_cons_False by done; by apply IH].
  - assert (x <> j) as Hne by (intros ->; done). specialize (IH Hnd Hin). rewrite !filter_cons. specialize (Heq x Hne). repeat case_decide; rewrite ?zlen_cons; try tauto; lia.
Qed.

Lemma slots_from_seqZ fuel : forall j, slots_from fuel j = seqZ j (Z.of_nat fuel).
Proof. induction fuel as [|fuel IH]; intros j; cbn [slots_from]; [done|]. rewrite IH, (seqZ_cons j) by lia. do 2 f_equal; lia. Qed.

Lemma slot_in j : is_slot j <-> j ∈ all_slots.
Proof. unfold is_slot, all_slots. rewrite slots_from_seqZ, elem_of_seqZ, Z2Nat.id by done. lia. Qed.

Lemma all_slots_NoDup : NoDup all_slots.
Proof. unfold all_slots. rewrite slots_from_seqZ. apply NoDup_seqZ. Qed.

Lemma nbits_set b j : is_slot j -> Z.testbit b j = false -> nbits (Z.setbit b j) = nbits b + 1.
Proof.
  intros Hj Hb. unfold nbits. apply filter_flip with (j := j); [apply all_slots_NoDup|by apply slot_in|congruence|by rewrite Z.setbit_eq by (unfold is_slot in Hj; lia)|].
  intros i Hi. rewrite Z.setbit_eqb by (unfold is_slot in Hj; lia). by rewrite (proj2 (Z.eqb_neq j i)).
Qed.

Lemma nbits_clear b j : is_slot j -> Z.testbit b j = true -> nbits (Z.clearbit b j) = nbits b - 1.
Proof.
  intros Hj Hb. unfold nbits. enough (zlen (filter (fun i => Z.testbit b i = true) all_slots) = zlen (filter (fun i => Z.testbit (Z.clearbit b j) i = true) all_slots) + 1) by lia.
  apply filter_flip with (j := j); [apply all_slots_NoDup|by apply slot_in|by rewrite Z.clearbit_eq|done|].
  intros i Hi. rewrite Z.clearbit_eqb by (unfold is_slot in Hj; lia). rewrite (proj2 (Z.eqb_neq j i)) by done. by rewrite andb_true_r.
Qed.

Lemma nbits_pos b : nbits b = 0 -> forall j, is_slot j -> Z.testbit b j = false.
Proof.
  intros H j Hj. destruct (Z.testbit b j) eqn:E; [|done]. exfalso. unfold nbits in H.
  assert (j ∈ filter (fun j => Z.testbit b j = true) all_slots) as Hin by (apply list_elem_of_filter; split; [done|by apply slot_in]).
  destruct (filter _ _) as [|x l]; [by apply elem_of_nil in Hin|]. rewrite zlen_cons in H. pose proof (zlen_nonneg l). lia.
Qed.

(** ** Consistency *)

Definition known (st : clusterState) (n : name) : Prop := is_Some (nodes st !! n).

(** The table and the bitmaps agree, and the counters count the bits. *)
Record slots_ok (st : clusterState) : Prop := {
  so_table j n : cslots st !! j = Some n -> is_slot j /\ exists nd, nodes st !! n = Some nd /\ Z.testbit (slots nd) j = true;
  so_bits n nd j : nodes st !! n = Some nd -> is_slot j -> Z.testbit (slots nd) j = true -> cslots st !! j = Some n;
  so_count n nd : nodes st !! n = Some nd -> numslots nd = nbits (slots nd);
}.

Definition pointers_ok (st : clusterState) : Prop :=
  forall n nd, nodes st !! n = Some nd -> (forall m, slaveof nd = Some m -> known st m) /\ Forall (known st) (slaves nd).

(** This node: a master, or a slave without slots of a known master. *)
Definition me_ok (st : clusterState) : Prop :=
  exists me, nodes st !! myself st = Some me /\ nodeIsSlave me = negb (nodeIsMaster me) /\
    (nodeIsMaster me = false -> numslots me = 0 /\ is_Some (slaveof me)).

Definition base_ok (st : clusterState) : Prop := slots_ok st /\ pointers_ok st.
Definition view_wf (st : clusterState) : Prop := base_ok st /\ me_ok st.

(** What the slot operations leave alone. *)
Definition strip (nd : clusterNode) : clusterNode := nd_slots (nd_slaves nd (slaves nd) false) 0 0.
Definition frame (st st' : clusterState) : Prop :=
  (exists ns cs, st' = set_cslots (set_nodes st ns) cs) /\ forall n, strip <$> nodes st' !! n = strip <$> nodes st !! n.

Lemma frame_refl st : frame st st.
Proof. split; [|done]. exists (nodes st), (cslots st). by destruct st. Qed.

Lemma frame_trans st1 st2 st3 : frame st1 st2 -> frame st2 st3 -> frame st1 st3.
Proof. intros [(ns & cs & ->) F1] [(ns' & cs' & ->) F2]. split; [by exists ns', cs'|]. intros n. by rewrite F2, F1. Qed.

Lemma strip_same nd nd' :
  strip nd = strip nd' ->
  nodeIsMaster nd = nodeIsMaster nd' /\ nodeIsSlave nd = nodeIsSlave nd' /\ configEpoch nd = configEpoch nd' /\ slaves nd = slaves nd' /\ slaveof nd = slaveof nd' /\
  nodeFailed nd = nodeFailed nd' /\ has_link nd = has_link nd'.
Proof. destruct nd, nd'. unfold strip. cbn. intros H. by simplify_eq. Qed.

Lemma frame_node st st' n nd : frame st st' -> nodes st !! n = Some nd -> exists nd', nodes st' !! n = Some nd' /\ strip nd' = strip nd.
Proof. intros [_ F] H. specialize (F n). rewrite H in F. destruct (nodes st' !! n) as [nd'|]; [|done]. exists nd'. split; [done|]. by apply (inj Some) in F. Qed.

Lemma frame_node_back st st' n nd' : frame st st' -> nodes st' !! n = Some nd' -> exists nd, nodes st !! n = Some nd /\ strip nd' = strip nd.
Proof. intros [_ F] H. specialize (F n). rewrite H in F. destruct (nodes st !! n) as [nd|]; [|done]. exists nd. split; [done|]. by apply (inj Some) in F. Qed.

Lemma frame_known st st' n : frame st st' -> known st n <-> known st' n.
Proof.
  intros F. split; intros [nd H]; [destruct (frame_node _ _ _ _ F H) as (nd' & E & _)|destruct (frame_node_back _ _ _ _ F H) as (nd' & E & _)]; by exists nd'.
Qed.

Lemma frame_put st n nd nd' : nodes st !! n = Some nd -> strip nd' = strip nd -> frame st (put_node st n nd').
Proof.
  intros H E. split; [exists (<[n := nd']> (nodes st)), (cslots st); by destruct st|]. intros m. unfold put_node, set_nodes. cbn.
  destruct (decide (n = m)) as [->|Hne]; [by rewrite lookup_insert_eq, H; cbn; rewrite E|by rewrite lookup_insert_ne].
Qed.

Lemma frame_cslots st cs : frame st (set_cslots st cs).
Proof. split; [|done]. exists (nodes st), cs. by destruct st. Qed.

(** ** Deleting and adding a slot *)

Lemma del_slot_spec st j :
  slots_ok st -> is_slot j -> exists st' r, clusterDelSlot st j = Some (st', r) /\ slots_ok st' /\ cslots st' = delete j (cslots st) /\ frame st st' /\
    (forall n nd', nodes st' !! n = Some nd' -> exists nd, nodes st !! n = Some nd /\ slots nd' = (if decide (cslots st !! j = Some n) then Z.clearbit (slots nd) j else slots nd)).
Proof.
  intros Hok Hj. unfold clusterDelSlot. destruct (cslots st !! j) as [n|] eqn:Ej.
  2: { exists st, C_ERR. split; [done|]. split; [done|]. split; [by rewrite delete_id|]. split; [apply frame_refl|]. intros n nd Hn. exists nd. split; [done|]. by rewrite decide_False. }
  destruct (so_table st Hok j n Ej) as (_ & nd & Hn & Hb). unfold clusterNodeClearSlotBit, bitmapTestBit, bitmapClearBit. rewrite Hn. cbn [mbind option_bind]. rewrite Hb.
  set (nd' := nd_slots nd (Z.clearbit (slots nd) j) (numslots nd - 1)). eexists _, _. split; [reflexivity|].
  assert (forall m md, <[n := nd']> (nodes st) !! m = Some md -> exists md0, nodes st !! m = Some md0 /\ slots md = (if decide (m = n) then Z.clearbit (slots md0) j else slots md0) /\
    numslots md = (if decide (m = n) then numslots md0 - 1 else numslots md0)) as Hnodes.
  { intros m md Hm. destruct (decide (m = n)) as [->|Hne]; [rewrite lookup_insert_eq in Hm; injection Hm as <-; by exists nd|]. rewrite lookup_insert_ne in Hm by done. by exists md. }
  split; [constructor; cbn|split; [done|split; [|]]].
  - intros i m Hi. apply lookup_delete_Some in Hi as [Hne Hi]. destruct (so_table st Hok i m Hi) as (His & md & Hm & Hbit). split; [done|].
    destruct (decide (m = n)) as [->|Hmn]; [|exists md; by rewrite lookup_insert_ne]. exists nd'. rewrite lookup_insert_eq. split; [done|]. rewrite Hn in Hm. injection Hm as <-.
    cbn. by rewrite Z.clearbit_neq.
  - intros m md i Hm Hi Hbit. destruct (Hnodes m md Hm) as (md0 & Hm0 & Es & _). rewrite Es in Hbit. destruct (decide (i = j)) as [->|Hij].
    + exfalso. destruct (decide (m = n)) as [->|Hne]; [by rewrite Z.clearbit_eq in Hbit|]. apply Hne. pose proof (so_bits st Hok m md0 j Hm0 Hi Hbit). congruence.
    + rewrite lookup_delete_ne by done. apply (so_bits st Hok m md0); [done|done|]. destruct (decide (m = n)); [by rewrite Z.clearbit_neq in Hbit by done|done].
  - intros m md Hm. destruct (Hnodes m md Hm) as (md0 & Hm0 & Es & Ec). rewrite Ec, Es, (so_count st Hok m md0 Hm0). destruct (decide (m = n)) as [->|]; [|done].
    rewrite Hn in Hm0. injection Hm0 as <-. by rewrite nbits_clear.
  - eapply frame_trans; [by apply (frame_put st n nd nd')|apply frame_cslots].
  - cbn. intros m md Hm. destruct (Hnodes m md Hm) as (md0 & Hm0 & Es & _). exists md0. split; [done|]. rewrite Es. destruct (decide (m = n)) as [->|Hne]; [by rewrite decide_True|].
    by rewrite decide_False by congruence.
Qed.

Lemma add_slot_spec st n j :
  slots_ok st -> is_slot j -> cslots st !! j = None -> known st n ->
  exists st', clusterAddSlot st n j = Some (st', C_OK) /\ slots_ok st' /\ cslots st' = <[j := n]> (cslots st) /\ frame st st' /\
    (forall m md', nodes st' !! m = Some md' -> exists md, nodes st !! m = Some md /\ slots md' = (if decide (m = n) then Z.setbit (slots md) j else slots md)).
Proof.
  intros Hok Hj Ej [nd Hn]. pose proof Hj as Hj'. unfold is_slot in Hj'. assert (Z.testbit (slots nd) j = false) as Hb.
  { destruct (Z.testbit (slots nd) j) eqn:E; [|done]. pose proof (so_bits st Hok n nd j Hn Hj E). congruence. }
  unfold clusterAddSlot. rewrite Ej. unfold clusterNodeSetSlotBit, bitmapTestBit, bitmapSetBit. rewrite Hn. cbn [mbind option_bind]. rewrite Hb. cbv zeta.
  set (nd1 := nd_slots nd (Z.setbit (slots nd) j) (numslots nd + 1)). set (c := _ && _).
  assert (exists nd', (if c then Some (put_node (put_node st n nd1) n (nd_slaves nd1 (slaves nd1) true), false) else Some (put_node st n nd1, false)) = Some (put_node st n nd', false) /\
    slots nd' = Z.setbit (slots nd) j /\ numslots nd' = numslots nd + 1 /\ strip nd' = strip nd) as (nd' & -> & Es & Ec & Est).
  { destruct c; [exists (nd_slaves nd1 (slaves nd1) true)|exists nd1]; (split; [|done]); [|done]. unfold put_node, set_nodes. cbn. by rewrite insert_insert_eq. }
  clearbody c. clear c nd1. cbn [mbind option_bind]. eexists. split; [reflexivity|].
  assert (forall m md, <[n := nd']> (nodes st) !! m = Some md -> exists md0, nodes st !! m = Some md0 /\ slots md = (if decide (m = n) then Z.setbit (slots md0) j else slots md0) /\
    numslots md = (if decide (m = n) then numslots md0 + 1 else numslots md0)) as Hnodes.
  { intros m md Hm. destruct (decide (m = n)) as [->|Hne]; [rewrite lookup_insert_eq in Hm; injection Hm as <-; by exists nd|]. rewrite lookup_insert_ne in Hm by done. by exists md. }
  split; [constructor; cbn|split; [done|split; [|]]].
  - intros i m Hi. destruct (decide (i = j)) as [->|Hij].
    + rewrite lookup_insert_eq in Hi. injection Hi as <-. split; [done|]. exists nd'. rewrite lookup_insert_eq. split; [done|]. rewrite Es. apply Z.setbit_eq. lia.
    + rewrite lookup_insert_ne in Hi by done. destruct (so_table st Hok i m Hi) as (His & md & Hm & Hbit). split; [done|].
      destruct (decide (m = n)) as [->|Hmn]; [|exists md; by rewrite lookup_insert_ne]. exists nd'. rewrite lookup_insert_eq. split; [done|]. rewrite Hn in Hm. injection Hm as <-.
      rewrite Es. rewrite Z.setbit_neq by (lia || done). done.
  - intros m md i Hm Hi Hbit. destruct (Hnodes m md Hm) as (md0 & Hm0 & Em & _). rewrite Em in Hbit. destruct (decide (i = j)) as [->|Hij].
    + destruct (decide (m = n)) as [->|Hne]; [by rewrite lookup_insert_eq|]. pose proof (so_bits st Hok m md0 j Hm0 Hi Hbit). congruence.
    + rewrite lookup_insert_ne by done. apply (so_bits st Hok m md0); [done|done|]. destruct (decide (m = n)); [by rewrite Z.setbit_neq in Hbit by (lia || done)|done].
  - intros m md Hm. destruct (Hnodes m md Hm) as (md0 & Hm0 & Em & Ecm). rewrite Ecm, Em, (so_count st Hok m md0 Hm0). destruct (decide (m = n)) as [->|]; [|done].
    rewrite Hn in Hm0. injection Hm0 as <-. by rewrite nbits_set.
  - eapply frame_trans; [by apply (frame_put st n nd nd')|apply frame_cslots].
  - cbn. intros m md Hm. destruct (Hnodes m md Hm) as (md0 & Hm0 & Em & _). by exists md0.
Qed.

(** A slot moves to another node. *)
Definition move_slot (st : clusterState) (n : name) (j : Z) : option clusterState :=
  '(st, _) ← clusterDelSlot st j; '(st, _) ← clusterAddSlot st n j; Some st.

Lemma move_slot_spec st n j :
  slots_ok st -> is_slot j -> known st n ->
  exists st', move_slot st n j = Some st' /\ slots_ok st' /\ cslots st' = <[j := n]> (cslots st) /\ frame st st' /\
    (forall m md', nodes st' !! m = Some md' -> exists md, nodes st !! m = Some md /\
      (m <> n -> cslots st !! j <> Some m -> slots md' = slots md)).
Proof.
  intros Hok Hj Hn. unfold move_slot. destruct (del_slot_spec st j Hok Hj) as (st1 & r & -> & Hok1 & Ec1 & F1 & S1). cbn [mbind option_bind].
  destruct (add_slot_spec st1 n j Hok1 Hj) as (st2 & -> & Hok2 & Ec2 & F2 & S2); [by rewrite Ec1, lookup_delete_eq|by apply (frame_known st st1 n F1)|].
  cbn [mbind option_bind]. exists st2. split; [done|]. split; [done|]. split; [by rewrite Ec2, Ec1, insert_delete_eq|]. split; [by eapply frame_trans|].
  intros m md2 Hm2. destruct (S2 m md2 Hm2) as (md1 & Hm1 & E2). destruct (S1 m md1 Hm1) as (md & Hm & E1). exists md. split; [done|]. intros Hne Ho.
  rewrite decide_False in E2 by done. rewrite decide_False in E1 by done. congruence.
Qed.

(** ** Loops over the slots *)

Lemma slots_loop_spec {A} (P : Z -> A -> Prop) (f : A -> Z -> option A) fuel : forall j a,
  (forall i a, j <= i < j + Z.of_nat fuel -> P i a -> exists a', f a i = Some a' /\ P (i + 1) a') -> P j a ->
  exists a', slots_loop f fuel j a = Some a' /\ P (j + Z.of_nat fuel) a'.
Proof.
  induction fuel as [|fuel IH]; intros j a Hf Ha; cbn [slots_loop]; [exists a; split; [done|]; by rewrite Z.add_0_r|].
  destruct (Hf j a ltac:(lia) Ha) as (a1 & -> & Ha1). cbn [mbind option_bind]. destruct (IH (j + 1) a1) as (a2 & -> & Ha2); [intros i b Hi; apply Hf; lia|done|].
  exists a2. split; [done|]. by replace (j + Z.of_nat (S fuel)) with (j + 1 + Z.of_nat fuel) by lia.
Qed.

Lemma for_slots_spec {A} (P : Z -> A -> Prop) (f : A -> Z -> option A) a :
  (forall j a, is_slot j -> P j a -> exists a', f a j = Some a' /\ P (j + 1) a') -> P 0 a -> exists a', for_slots f a = Some a' /\ P CLUSTER_SLOTS a'.
Proof.
  intros Hf Ha. unfold for_slots. assert (Z.of_nat (Z.to_nat CLUSTER_SLOTS) = CLUSTER_SLOTS) as E by (apply Z2Nat.id; done).
  destruct (slots_loop_spec P f (Z.to_nat CLUSTER_SLOTS) 0 a) as (a' & Ea & Ha'); [intros i b Hi; apply Hf; unfold is_slot; lia|done|]. exists a'. split; [done|].
  by rewrite E, Z.add_0_l in Ha'.
Qed.

(** ** Changes of roles *)

Lemma base_same st st' : nodes st' = nodes st -> cslots st' = cslots st -> base_ok st -> base_ok st'.
Proof.
  intros E1 E2 [Hs Hp]. split.
  - destruct Hs as [H1 H2 H3]. constructor; rewrite ?E1, ?E2; done.
  - unfold pointers_ok, known in *. by rewrite E1.
Qed.

Lemma known_put st n nd m : known st n -> known (put_node st n nd) m <-> known st m.
Proof.
  intros Hn. unfold known, put_node, set_nodes. cbn. destruct (decide (n = m)) as [->|Hne]; [rewrite lookup_insert_eq|rewrite lookup_insert_ne by done]; [|done].
  split; [done|by eexists].
Qed.

(** Replacing a node without touching its slots. *)
Lemma base_put st n nd nd' :
  base_ok st -> nodes st !! n = Some nd -> slots nd' = slots nd -> numslots nd' = numslots nd ->
  (forall m, slaveof nd' = Some m -> known st m) -> Forall (known st) (slaves nd') -> base_ok (put_node st n nd').
Proof.
  intros [Hs Hp] Hn Es Ec Hof Hsl. assert (known st n) as Hk by (by eexists). split.
  - constructor; cbn.
    + intros j m Hj. destruct (so_table st Hs j m Hj) as (? & md & Hm & Hb). split; [done|].
      destruct (decide (n = m)) as [->|Hne]; [exists nd'; rewrite lookup_insert_eq, Es; split; [done|congruence]|exists md; by rewrite lookup_insert_ne].
    + intros m md j Hm Hj Hb. destruct (decide (n = m)) as [->|Hne]; [rewrite lookup_insert_eq in Hm; injection Hm as <-; rewrite Es in Hb; by eapply so_bits|].
      rewrite lookup_insert_ne in Hm by done. by eapply so_bits.
    + intros m md Hm. destruct (decide (n = m)) as [->|Hne]; [rewrite lookup_insert_eq in Hm; injection Hm as <-; rewrite Es, Ec; by eapply so_count|].
      rewrite lookup_insert_ne in Hm by done. by eapply so_count.
  - intros m md Hm. assert (forall x, known st x -> known (put_node st n nd') x) as Hkp by (intros x; by apply known_put). unfold put_node, set_nodes in Hm. cbn in Hm.
    assert ((forall x, slaveof md = Some x -> known st x) /\ Forall (known st) (slaves md)) as [H1 H2].
    { destruct (decide (n = m)) as [->|Hne]; [rewrite lookup_insert_eq in Hm; by injection Hm as <-|]. rewrite lookup_insert_ne in Hm by done. by apply Hp in Hm. }
    split; [intros x Hx; by apply Hkp, H1|]. eapply Forall_impl; [exact H2|exact Hkp].
Qed.

(** The slots and epochs of all nodes, and what the view knows of itself,
    stay as they are. *)
Definition keeps (st st' : clusterState) : Prop :=
  myself st' = myself st /\ cslots st' = cslots st /\ importing_slots_from st' = importing_slots_from st /\
  forall n, (fun nd => (slots nd, numslots nd, configEpoch nd)) <$> nodes st' !! n = (fun nd => (slots nd, numslots nd, configEpoch nd)) <$> nodes st !! n.

Lemma keeps_refl st : keeps st st.
Proof. done. Qed.

Lemma keeps_trans st1 st2 st3 : keeps st1 st2 -> keeps st2 st3 -> keeps st1 st3.
Proof. intros (A1 & B1 & C1 & D1) (A2 & B2 & C2 & D2). split; [congruence|]. split; [congruence|]. split; [congruence|]. intros n. by rewrite D2. Qed.

Lemma keeps_put st n nd nd' :
  nodes st !! n = Some nd -> slots nd' = slots nd -> numslots nd' = numslots nd -> configEpoch nd' = configEpoch nd -> keeps st (put_node st n nd').
Proof.
  intros Hn E1 E2 E3. split; [done|]. split; [done|]. split; [done|]. intros m. unfold put_node, set_nodes. cbn.
  destruct (decide (n = m)) as [->|Hne]; [rewrite lookup_insert_eq, Hn; cbn; congruence|by rewrite lookup_insert_ne].
Qed.

Lemma keeps_known st st' n : keeps st st' -> known st n <-> known st' n.
Proof. intros (_ & _ & _ & D). specialize (D n). unfold known. destruct (nodes st !! n), (nodes st' !! n); try done; split; intros [? ?]; by eexists. Qed.

Lemma keeps_node st st' n nd : keeps st st' -> nodes st !! n = Some nd -> exists nd', nodes st' !! n = Some nd' /\ slots nd' = slots nd /\ numslots nd' = numslots nd /\ configEpoch nd' = configEpoch nd.
Proof. intros (_ & _ & _ & D) Hn. specialize (D n). rewrite Hn in D. destruct (nodes st' !! n) as [nd'|]; [|done]. cbn in D. exists nd'. split; [done|]. by simplify_eq. Qed.

(** The role of [n] stays as it is. *)
Definition same_role (st st' : clusterState) (n : name) : Prop :=
  forall nd, nodes st !! n = Some nd -> exists nd', nodes st' !! n = Some nd' /\ nodeIsMaster nd' = nodeIsMaster nd /\ nodeIsSlave nd' = nodeIsSlave nd /\ slaveof nd' = slaveof nd.

Lemma same_role_trans st1 st2 st3 n : same_role st1 st2 n -> same_role st2 st3 n -> same_role st1 st3 n.
Proof. intros H1 H2 nd Hn. destruct (H1 nd Hn) as (nd' & Hn' & A & B & C). destruct (H2 nd' Hn') as (nd2 & Hn2 & A2 & B2 & C2). exists nd2. split; [done|]. by rewrite A2, B2, C2. Qed.

Lemma same_role_other st n nd m : m <> n -> same_role st (put_node st n nd) m.
Proof. intros Hne md Hm. exists md. unfold put_node, set_nodes. cbn. by rewrite lookup_insert_ne. Qed.

Lemma me_ok_role st st' : me_ok st -> keeps st st' -> same_role st st' (myself st) -> me_ok st'.
Proof.
  intros (me & Hme & H1 & H2) Hk Hr. destruct (Hr me Hme) as (me' & Hme' & A & B & C). destruct (keeps_node _ _ _ _ Hk Hme) as (me2 & E & _ & D & _).
  rewrite Hme' in E. injection E as <-. destruct Hk as (K & _). exists me'. rewrite K. split; [done|]. by rewrite A, B, C, D.
Qed.

Lemma remove_first_sub x l y : y ∈ remove_first x l -> y ∈ l.
Proof. induction l as [|z l IH]; cbn [remove_first]; [done|]. case_bool_decide; [intros; by right|]. intros [->|Hy]%elem_of_cons; [left|right; by apply IH]. Qed.

Lemma RemoveSlave_ok st m s : base_ok st -> known st m -> exists st' r, clusterNodeRemoveSlave st m s = Some (st', r) /\ base_ok st' /\ keeps st st' /\
    forall n, same_role st st' n.
Proof.
  intros Hb [md Hm]. unfold clusterNodeRemoveSlave. rewrite Hm. cbn [mbind option_bind]. case_bool_decide.
  - eexists _, _. split; [reflexivity|]. destruct (proj2 Hb m md Hm) as [H1 H2]. split; [|split; [by apply (keeps_put st m md)|]].
    + eapply base_put; [done|done|done|done|done|]. cbn. rewrite Forall_forall in *. intros y Hy. by eapply H2, remove_first_sub.
    + intros n nd Hn. unfold put_node, set_nodes. cbn. destruct (decide (m = n)) as [->|Hne]; [|exists nd; by rewrite lookup_insert_ne].
      rewrite Hm in Hn. injection Hn as <-. eexists. by rewrite lookup_insert_eq.
  - eexists _, _. split; [reflexivity|]. split; [done|]. split; [apply keeps_refl|]. intros n nd Hn. by exists nd.
Qed.

Lemma AddSlave_ok st m s : base_ok st -> known st m -> known st s -> exists st' r, clusterNodeAddSlave st m s = Some (st', r) /\ base_ok st' /\ keeps st st' /\
    forall n, same_role st st' n.
Proof.
  intros Hb [md Hm] Hs. unfold clusterNodeAddSlave. rewrite Hm. cbn [mbind option_bind]. case_bool_decide.
  - eexists _, _. split; [reflexivity|]. split; [done|]. split; [apply keeps_refl|]. intros n nd Hn. by exists nd.
  - eexists _, _. split; [reflexivity|]. destruct (proj2 Hb m md Hm) as [H1 H2]. split; [|split; [by apply (keeps_put st m md)|]].
    + eapply base_put; [done|done|done|done|done|]. cbn. apply Forall_app. split; [done|]. by constructor.
    + intros n nd Hn. unfold put_node, set_nodes. cbn. destruct (decide (m = n)) as [->|Hne]; [|exists nd; by rewrite lookup_insert_ne].
      rewrite Hm in Hn. injection Hn as <-. eexists. by rewrite lookup_insert_eq.
Qed.

Lemma SetNodeAsMaster_ok st n :
  base_ok st -> known st n -> exists st', clusterSetNodeAsMaster st n = Some st' /\ base_ok st' /\ keeps st st' /\ (forall m, m <> n -> same_role st st' m) /\
    exists nd nd', nodes st !! n = Some nd /\ nodes st' !! n = Some nd' /\ nodeIsMaster nd' = true /\ (nodeIsSlave nd = negb (nodeIsMaster nd) -> nodeIsSlave nd' = false).
Proof.
  intros Hb [nd Hn]. unfold clusterSetNodeAsMaster. rewrite Hn. cbn [mbind option_bind].
  destruct (nodeIsMaster nd) eqn:Em; [exists st; split; [done|]; split; [done|]; split; [apply keeps_refl|]; split; [intros m _ md Hm; by exists md|]; exists nd, nd; by rewrite Em|].
  assert (exists st1, match slaveof nd with
     | Some m => '(st1, _) ← clusterNodeRemoveSlave st m n; nd1 ← nodes st1 !! n;
         Some (if negb (bool_decide (n = myself st1)) then put_node st1 n (nd_slaves nd1 (slaves nd1) true) else st1)
     | None => Some st end = Some st1 /\ base_ok st1 /\ keeps st st1 /\ forall m, same_role st st1 m) as (st1 & -> & Hb1 & Hk1 & Hr1).
  { destruct (slaveof nd) as [m|] eqn:Eof; [|exists st; split; [done|]; split; [done|]; split; [apply keeps_refl|]; intros m md Hm; by exists md].
    destruct (RemoveSlave_ok st m n Hb) as (st1 & r & -> & Hb1 & Hk1 & Hr1); [by apply (proj1 (proj2 Hb n nd Hn))|]. cbn [mbind option_bind].
    destruct (keeps_node _ _ _ _ Hk1 Hn) as (nd1 & Hn1 & _). rewrite Hn1. cbn [mbind option_bind]. eexists. split; [reflexivity|].
    destruct (proj2 Hb1 n nd1 Hn1) as [P1 P2]. destruct (negb _); [|done]. split; [by eapply base_put|]. split; [eapply keeps_trans; [done|]; by eapply keeps_put|].
    intros x. eapply same_role_trans; [apply Hr1|]. destruct (decide (x = n)) as [->|Hne]; [|by apply same_role_other].
    intros md Hm. rewrite Hn1 in Hm. injection Hm as <-. eexists. unfold put_node, set_nodes. cbn. by rewrite lookup_insert_eq. }
  cbn [mbind option_bind]. destruct (keeps_node _ _ _ _ Hk1 Hn) as (nd1 & Hn1 & _). rewrite Hn1. cbn [mbind option_bind]. eexists. split; [reflexivity|].
  destruct (proj2 Hb1 n nd1 Hn1) as [P1 P2]. split; [by eapply base_put|]. split; [eapply keeps_trans; [done|]; by eapply keeps_put|]. split.
  - intros m Hne. eapply same_role_trans; [apply Hr1|by apply same_role_other].
  - eexists nd, _. split; [done|]. unfold put_node, set_nodes. cbn. rewrite lookup_insert_eq. done.
Qed.

Lemma SetNodeAsMaster_wf st n : view_wf st -> known st n -> exists st', clusterSetNodeAsMaster st n = Some st' /\ view_wf st' /\ keeps st st'.
Proof.
  intros [Hb Hme] Hn. destruct (SetNodeAsMaster_ok st n Hb Hn) as (st' & E & Hb' & Hk & Hr & nd & nd' & Hn0 & Hn' & Hm & Hs). exists st'. split; [done|]. split; [|done]. split; [done|].
  destruct (decide (myself st = n)) as [En|Hne]; [|by eapply me_ok_role, Hr]. destruct Hme as (me & Hme & H1 & H2). rewrite En in Hme. rewrite Hme in Hn0. injection Hn0 as <-.
  exists nd'. destruct Hk as (K & _). rewrite K, En. split; [done|]. rewrite Hm, (Hs H1). done.
Qed.

Lemma SetMaster_wf st n :
  view_wf st -> known st n -> n <> myself st -> (forall me, nodes st !! myself st = Some me -> numslots me = 0) ->
  exists st', clusterSetMaster st n = Some st' /\ view_wf st' /\ cslots st' = cslots st /\ myself st' = myself st /\ forall x, known st x <-> known st' x.
Proof.
  intros [Hb (me & Hme & Hrole & Hslave)] Hn Hne Hz. unfold clusterSetMaster. rewrite Hme. cbn [mbind option_bind]. rewrite bool_decide_eq_false_2 by done.
  rewrite (Hz me Hme). cbn [negb Z.eqb]. destruct (proj2 Hb _ _ Hme) as [P1 P2].
  assert (exists st1 me1, (if nodeIsMaster me then Some (clusterCloseAllSlots (put_node st (myself st) (nd_role me false true false (slaveof me))))
     else match slaveof me with Some m => '(st1, _) ← clusterNodeRemoveSlave st m (myself st); Some st1 | None => Some st end) = Some st1 /\
     base_ok st1 /\ myself st1 = myself st /\ cslots st1 = cslots st /\ nodes st1 !! myself st = Some me1 /\ nodeIsMaster me1 = false /\ nodeIsSlave me1 = true /\ numslots me1 = 0 /\
     (forall x, known st x <-> known st1 x)) as (st1 & me1 & -> & Hb1 & Em1 & Ec1 & Hme1 & F1 & F2 & F3 & Hkn).
  { destruct (nodeIsMaster me) eqn:Em.
    - eexists _, _. split; [reflexivity|]. split; [apply (base_same (put_node st (myself st) (nd_role me false true false (slaveof me)))); [done|done|]; by eapply base_put|]. split; [done|]. split; [done|]. unfold clusterCloseAllSlots, put_node, set_nodes. cbn.
      rewrite lookup_insert_eq. split; [done|]. split; [done|]. split; [done|]. split; [exact (Hz me Hme)|]. intros x. symmetry. apply (known_put st); by eexists.
    - destruct (Hslave eq_refl) as [Hz0 [m Hm]]. rewrite Hm. destruct (RemoveSlave_ok st m (myself st) Hb) as (st1 & r & -> & Hb1 & Hk1 & Hr1); [by apply P1|]. cbn [mbind option_bind].
      destruct (Hr1 _ me Hme) as (me1 & Hme1 & A & B & C). destruct (keeps_node _ _ _ _ Hk1 Hme) as (me2 & E2 & _ & D & _). rewrite Hme1 in E2. injection E2 as <-.
      exists st1, me1. split; [done|]. split; [done|]. pose proof Hk1 as (K1 & K2 & _). split; [done|]. split; [done|]. split; [done|]. split; [congruence|].
      split; [rewrite B, Hrole; done|]. split; [congruence|]. intros x. by apply keeps_known. }
  cbn [mbind option_bind]. rewrite Em1, Hme1. cbn [mbind option_bind]. destruct (proj2 Hb1 _ _ Hme1) as [Q1 Q2].
  set (me2 := nd_role me1 _ _ _ _). assert (base_ok (put_node st1 (myself st) me2)) as Hb2.
  { eapply base_put; [done|done|done|done| |done]. intros m [= <-]. by apply Hkn. }
  destruct (AddSlave_ok (put_node st1 (myself st) me2) n (myself st)) as (st3 & r & E3 & Hb3 & Hk3 & Hr3); [done|apply known_put; [by eexists|by apply Hkn]|apply known_put; by eexists|].
  cbn [myself put_node set_nodes] in *. rewrite Em1, E3. cbn [mbind option_bind]. eexists. split; [reflexivity|]. pose proof Hk3 as (K1 & K2 & _ & K4). cbn in K1, K2.
  split; [|split; [cbn; by rewrite K2|]; split; [cbn; by rewrite K1|]; intros x; rewrite Hkn; etransitivity; [symmetry; apply (known_put st1 (myself st) me2); by eexists|apply (keeps_known _ _ _ Hk3)]].
  split; [by apply (base_same st3)|]. destruct (Hr3 (myself st) me2) as (me3 & Hme3 & A & B & C); [cbn; by rewrite lookup_insert_eq|].
  exists me3. cbn. rewrite K1, Em1. split; [done|]. rewrite A, B, C. cbn. rewrite F1, F2. split; [done|]. intros _. split; [|by eexists].
  specialize (K4 (myself st)). cbn in K4. rewrite Hme3, lookup_insert_eq in K4. cbn in K4. injection K4 as _ -> _. done.
Qed.

(** ** Slots of a node, by the table *)

Lemma no_slots_iff st n nd : slots_ok st -> nodes st !! n = Some nd -> numslots nd = 0 <-> forall j, cslots st !! j <> Some n.
Proof.
  intros Hs Hn. rewrite (so_count st Hs n nd Hn). split.
  - intros Hz j Hj. destruct (so_table st Hs j n Hj) as (His & nd' & Hn' & Hb). rewrite Hn in Hn'. injection Hn' as <-. by rewrite (nbits_pos _ Hz) in Hb.
  - intros Hno. unfold nbits. destruct (filter _ _) as [|j l] eqn:E; [done|]. exfalso. apply (Hno j).
    assert (j ∈ filter (fun j => Z.testbit (slots nd) j = true) all_slots) as [Hb Hj]%list_elem_of_filter by (rewrite E; left).
    apply (so_bits st Hs n nd); [done|by apply slot_in|done].
Qed.

Lemma frame_pointers st st' : pointers_ok st -> frame st st' -> pointers_ok st'.
Proof.
  intros Hp F n nd' Hn'. destruct (frame_node_back _ _ _ _ F Hn') as (nd & Hn & E%strip_same). destruct E as (_ & _ & _ & -> & -> & _). destruct (Hp n nd Hn) as [H1 H2].
  split; [intros m Hm; by apply (frame_known st), H1|]. eapply Forall_impl; [exact H2|]. intros m Hm. by apply (frame_known st).
Qed.

Lemma frame_myself st st' : frame st st' -> myself st' = myself st.
Proof. by intros [(ns & cs & ->) _]. Qed.

(** Moving slots between other nodes keeps a view consistent. *)
Lemma frame_wf st st' :
  view_wf st -> slots_ok st' -> frame st st' -> (forall j, cslots st' !! j = Some (myself st) -> cslots st !! j = Some (myself st)) -> view_wf st'.
Proof.
  intros [[Hs Hp] (me & Hme & Hr & Hz)] Hs' F Hj. split; [split; [done|by eapply frame_pointers]|]. destruct (frame_node _ _ _ _ F Hme) as (me' & Hme' & E%strip_same).
  destruct E as (E1 & E2 & _ & _ & E3 & _). exists me'. rewrite (frame_myself _ _ F). split; [done|]. rewrite E1, E2, E3. split; [done|]. intros Hm. destruct (Hz Hm) as [Hz1 Hz2]. split; [|done].
  apply (no_slots_iff st' (myself st)); [done|done|]. intros j H. by apply (proj1 (no_slots_iff st (myself st) me Hs Hme) Hz1 j), Hj.
Qed.

(** Replacing a node without touching its slots or its role. *)
Lemma view_put st n nd nd' :
  view_wf st -> nodes st !! n = Some nd -> slots nd' = slots nd -> numslots nd' = numslots nd -> slaveof nd' = slaveof nd -> slaves nd' = slaves nd ->
  nodeIsMaster nd' = nodeIsMaster nd -> nodeIsSlave nd' = nodeIsSlave nd -> view_wf (put_node st n nd').
Proof.
  intros [Hb (me & Hme & Hr & Hz)] Hn E1 E2 E3 E4 E5 E6. destruct (proj2 Hb n nd Hn) as [P1 P2]. split; [eapply base_put; rewrite ?E3, ?E4; done|].
  unfold me_ok, put_node, set_nodes. cbn. destruct (decide (n = myself st)) as [->|Hne]; [|exists me; by rewrite lookup_insert_ne].
  rewrite Hme in Hn. injection Hn as <-. exists nd'. rewrite lookup_insert_eq. split; [done|]. by rewrite E2, E3, E5, E6.
Qed.

Lemma view_same st st' : nodes st' = nodes st -> cslots st' = cslots st -> myself st' = myself st -> view_wf st -> view_wf st'.
Proof. intros E1 E2 E3 [Hb Hme]. split; [by eapply base_same|]. unfold me_ok in *. by rewrite E1, E3. Qed.

(** ** The slots of a node are dropped *)

Definition dropped (n : name) (o : option name) : option name := if decide (o = Some n) then None else o.

Lemma DelNodeSlots_ok st n :
  slots_ok st -> known st n -> exists st' d, clusterDelNodeSlots st n = Some (st', d) /\ slots_ok st' /\ frame st st' /\ forall j, cslots st' !! j = dropped n (cslots st !! j).
Proof.
  intros Hs Hn. unfold clusterDelNodeSlots.
  destruct (for_slots_spec (fun j a => slots_ok a.1 /\ frame st a.1 /\ forall i, cslots a.1 !! i = if decide (i < j) then dropped n (cslots st !! i) else cslots st !! i)
              (drop_slot n) (st, 0)) as ([st' d] & E & Hs' & F & Hc).
  - intros j [s d] Hj (Hs1 & F1 & Hc1). cbn [fst] in *. destruct (proj1 (frame_known _ _ n F1) Hn) as [nd Hnd].
    unfold drop_slot, clusterNodeGetSlotBit, bitmapTestBit. rewrite Hnd. cbn [mbind option_bind]. destruct (Z.testbit (slots nd) j) eqn:Eb.
    + destruct (del_slot_spec s j Hs1 Hj) as (s2 & r & -> & Hs2 & Ec2 & F2 & _). cbn [mbind option_bind]. eexists. split; [reflexivity|]. cbn [fst]. split; [done|].
      split; [by eapply frame_trans|]. pose proof (so_bits s Hs1 n nd j Hnd Hj Eb) as Ho. rewrite Hc1, decide_False in Ho by lia. intros i. rewrite Ec2. destruct (decide (i = j)) as [->|Hij].
      * rewrite lookup_delete_eq, decide_True by lia. unfold dropped. by rewrite decide_True.
      * rewrite lookup_delete_ne, Hc1 by done. by do 2 case_decide; try lia.
    + eexists. split; [reflexivity|]. cbn [fst]. split; [done|]. split; [done|]. intros i. rewrite Hc1. destruct (decide (i = j)) as [->|Hij]; [|by do 2 case_decide; try lia].
      rewrite decide_False, decide_True by lia. unfold dropped. case_decide as Ho; [|done]. specialize (Hc1 j). rewrite decide_False, Ho in Hc1 by lia.
      destruct (so_table s Hs1 j n Hc1) as (_ & nd' & Hnd' & Hb'). congruence.
  - split; [done|]. split; [apply frame_refl|]. intros i. case_decide; [|done]. unfold dropped. case_decide as Ho; [|done]. apply (so_table st Hs) in Ho as [Hi _]. unfold is_slot in Hi. lia.
  - cbn [fst] in *. exists st', d. split; [done|]. split; [done|]. split; [done|]. intros j. rewrite Hc. case_decide; [done|]. unfold dropped. case_decide as Ho; [|done].
    apply (so_table st Hs) in Ho as [Hi _]. unfold is_slot in Hi. lia.
Qed.

(** ** A node announces its slots *)

(** The owner of a slot after [sender] announced the slots [bits] with epoch
    [e]: the sender, if it claims the slot, we are not importing it, and the
    slot is free or belongs to a node with a smaller epoch. *)
Definition rebound (st : clusterState) (sender : name) (e bits j : Z) : option name :=
  let owner := cslots st !! j in
  let older := match owner with None => true | Some o => match nodes st !! o with Some nd => configEpoch nd <? e | None => false end end in
  if Z.testbit bits j && bool_decide (importing_slots_from st !! j = None) && older then Some sender else owner.

Lemma frame_importing st st' : frame st st' -> importing_slots_from st' = importing_slots_from st.
Proof. by intros [(ns & cs & ->) _]. Qed.

Lemma frame_epoch st st' n nd nd' : frame st st' -> nodes st !! n = Some nd -> nodes st' !! n = Some nd' -> configEpoch nd' = configEpoch nd.
Proof. intros F H H'. destruct (frame_node _ _ _ _ F H) as (x & Hx & E%strip_same). rewrite H' in Hx. injection Hx as <-. tauto. Qed.

(** The state of the loop before slot [j]. *)
Definition rebinding (st : clusterState) (sender : name) (e bits j : Z) (a : clusterState * option name * list Z) : Prop :=
  slots_ok a.1.1 /\ frame st a.1.1 /\ (a.1.2 = None \/ a.1.2 = Some sender) /\
  forall i, cslots a.1.1 !! i = if decide (0 <= i < j) then rebound st sender e bits i else cslots st !! i.

Lemma rebinding_stays st sender e bits j s nm d nm' d' :
  rebinding st sender e bits j (s, nm, d) -> 0 <= j -> rebound st sender e bits j = cslots st !! j -> nm' = None \/ nm' = Some sender -> rebinding st sender e bits (j + 1) (s, nm', d').
Proof.
  intros (Hs & F & _ & Hc) Hj E Hnm. cbn [fst snd] in *. split; [done|]. split; [done|]. split; [done|]. intros i. cbn [fst snd]. rewrite Hc.
  destruct (decide (i = j)) as [->|Hij]; [rewrite decide_False, decide_True by lia; by rewrite E|]. by do 2 case_decide; try lia.
Qed.

Lemma rebind_slot_ok keys st sender e bits cur j a :
  known st sender -> is_slot j -> rebinding st sender e bits j a -> exists a', rebind_slot keys sender e bits cur a j = Some a' /\ rebinding st sender e bits (j + 1) a'.
Proof.
  intros Hk Hj Ha. destruct a as [[s nm] d]. pose proof Ha as (Hs & F & Hnm & Hc). cbn [fst snd] in *. assert (0 <= j) as Hj0 by (unfold is_slot in Hj; lia).
  assert (cslots s !! j = cslots st !! j) as Ej by (rewrite Hc; by rewrite decide_False by lia).
  unfold rebind_slot, bitmapTestBit. rewrite Ej, (frame_importing _ _ F). unfold rebound in *.
  destruct (Z.testbit bits j) eqn:Eb; [|exists (s, nm, d); split; [done|]; eapply rebinding_stays; [done|done| |done]; unfold rebound; by rewrite Eb]. cbn [negb].
  case_bool_decide as Eo; [exists (s, nm, d); split; [done|]; eapply rebinding_stays; [done|done| |done]; unfold rebound; rewrite Eo; by destruct (_ && _)|].
  case_bool_decide as Ei; [exists (s, nm, d); split; [done|]; eapply rebinding_stays; [done|done| |done]; unfold rebound; rewrite Eb, bool_decide_eq_false_2 by (by intros E; rewrite E in Ei; destruct Ei); done|].
  apply eq_None_not_Some in Ei. set (older := match cslots st !! j with None => true | Some o => match nodes st !! o with Some nd => configEpoch nd <? e | None => false end end).
  assert (match cslots st !! j with None => Some true | Some o => nd ← nodes s !! o; Some (configEpoch nd <? e) end = Some older) as ->.
  { unfold older. destruct (cslots st !! j) as [o|] eqn:Eo1; [|done]. destruct (so_table s Hs j o) as (_ & nd' & Hn' & _); [congruence|]. rewrite Hn'. cbn [mbind option_bind].
    destruct (frame_node_back _ _ _ _ F Hn') as (nd & Hn & _). rewrite Hn. by rewrite (frame_epoch _ _ _ _ _ F Hn Hn'). }
  cbn [mbind option_bind]. destruct older eqn:Eold; [|exists (s, nm, d); split; [done|]; eapply rebinding_stays; [done|done| |done]; unfold rebound; fold older; rewrite Eold; by rewrite andb_false_r].
  destruct (move_slot_spec s sender j Hs Hj) as (s2 & E2 & Hs2 & Ec2 & F2 & _); [by apply (frame_known st)|]. unfold move_slot in E2.
  apply bind_Some in E2 as ([s1 r1] & -> & E2). apply bind_Some in E2 as ([s3 r3] & E3 & [= ->]). cbn [mbind option_bind]. rewrite E3. cbn [mbind option_bind].
  eexists. split; [reflexivity|]. split; [done|]. cbn [fst snd]. split; [by eapply frame_trans|]. split; [case_bool_decide; [by right|done]|].
  intros i. rewrite Ec2. destruct (decide (i = j)) as [->|Hij].
  - rewrite lookup_insert_eq, decide_True by lia. unfold rebound. fold older. by rewrite Eb, Eold, bool_decide_eq_true_2 by done.
  - rewrite lookup_insert_ne, Hc by done. unfold rebound. by do 2 case_decide; try lia.
Qed.

Lemma table_out st j : slots_ok st -> ~ is_slot j -> cslots st !! j = None.
Proof. intros Hs Hj. destruct (cslots st !! j) as [n|] eqn:E; [|done]. by apply (so_table st Hs) in E as [? _]. Qed.

Lemma rebind_loop keys st sender e bits cur :
  slots_ok st -> known st sender -> exists st' nm d, for_slots (rebind_slot keys sender e bits cur) (st, None, []) = Some (st', nm, d) /\
    slots_ok st' /\ frame st st' /\ (nm = None \/ nm = Some sender) /\ forall j, is_slot j -> cslots st' !! j = rebound st sender e bits j.
Proof.
  intros Hs Hk. destruct (for_slots_spec (rebinding st sender e bits) (rebind_slot keys sender e bits cur) (st, None, [])) as ([[st' nm] d] & E & Hs' & F & Hnm & Hc).
  - intros j a Hj Ha. by apply rebind_slot_ok.
  - split; [done|]. split; [apply frame_refl|]. split; [by left|]. intros i. by rewrite decide_False by lia.
  - exists st', nm, d. split; [done|]. split; [done|]. split; [done|]. split; [done|]. intros j Hj. cbn [fst snd] in Hc. unfold is_slot in Hj. by rewrite Hc, decide_True.
Qed.

(** Nodes are neither added nor removed. *)
Definition same_nodes (st st' : clusterState) : Prop := myself st' = myself st /\ forall n, known st n <-> known st' n.

Lemma same_nodes_refl st : same_nodes st st.
Proof. done. Qed.

Lemma same_nodes_trans st1 st2 st3 : same_nodes st1 st2 -> same_nodes st2 st3 -> same_nodes st1 st3.
Proof. intros [E1 H1] [E2 H2]. split; [congruence|]. intros n. by rewrite H1. Qed.

Lemma same_nodes_put st n nd : known st n -> same_nodes st (put_node st n nd).
Proof. intros Hn. split; [done|]. intros m. symmetry. by apply known_put. Qed.

Lemma same_nodes_frame st st' : frame st st' -> same_nodes st st'.
Proof. intros F. split; [by apply frame_myself|]. intros n. by apply frame_known. Qed.

Lemma same_nodes_keeps st st' : keeps st st' -> same_nodes st st'.
Proof. intros K. split; [by destruct K|]. intros n. by apply keeps_known. Qed.

Lemma UpdateSlots_wf keys nored st sender e bits :
  view_wf st -> known st sender -> exists st' dirty, clusterUpdateSlotsConfigWith keys nored st sender e bits = Some (st', dirty) /\ view_wf st' /\ same_nodes st st' /\
    (sender <> myself st -> forall j, is_slot j -> cslots st' !! j = rebound st sender e bits j).
Proof.
  intros Hwf Hk. pose proof Hwf as [[Hs Hp] (me & Hme & Hr & Hz)]. unfold clusterUpdateSlotsConfigWith. rewrite Hme. cbn [mbind option_bind]. set (cur := if nodeIsMaster me then _ else _).
  case_bool_decide as Es; [exists st, []; split; [done|]; split; [done|]; split; [done|]; by intros ?|].
  destruct (rebind_loop keys st sender e bits cur Hs Hk) as (st1 & nm & d & -> & Hs1 & F1 & Hnm & Hc). cbn [mbind option_bind].
  assert (view_wf st1) as Hwf1.
  { eapply frame_wf; [done|done|done|]. intros j Hj. pose proof (so_table st1 Hs1 j _ Hj) as [Hjs _]. rewrite Hc in Hj by done. unfold rebound in Hj. destruct (_ && _); [congruence|done]. }
  pose proof (same_nodes_frame _ _ F1) as HN1. destruct nored; [by exists st1, []|]. destruct nm as [nm|]; [|by exists st1, d].
  destruct Hnm as [Hnm|[= ->]]; [done|].
  assert (exists m, cur = Some m /\ known st m /\ (nodeIsMaster me = true -> m = myself st)) as (m & -> & Hm & Hmm).
  { unfold cur. destruct (nodeIsMaster me); [exists (myself st); split; [done|]; split; [by eexists|done]|]. destruct (Hz eq_refl) as [_ [m Hm]]. exists m. split; [done|]. split; [|done]. by apply (proj1 (Hp _ _ Hme)). }
  cbn [mbind option_bind]. destruct (proj1 (frame_known _ _ m F1) Hm) as [cm Hcm]. rewrite Hcm. cbn [mbind option_bind]. destruct (numslots cm =? 0) eqn:Ecm; [|by exists st1, d].
  apply Z.eqb_eq in Ecm. destruct (SetMaster_wf st1 sender Hwf1) as (st2 & -> & Hwf2 & Ec2 & Em2 & Hk2); [by apply (frame_known st)|by rewrite (frame_myself _ _ F1)| |].
  - intros me1 Hme1. destruct Hwf1 as [[_ _] (me1' & Hme1' & _ & Hz1)]. rewrite Hme1 in Hme1'. injection Hme1' as <-. destruct (nodeIsMaster me1) eqn:Em1; [|by apply Hz1].
    rewrite (frame_myself _ _ F1) in Hme1. destruct (frame_node_back _ _ _ _ F1 Hme1) as (me0 & Hme0 & E%strip_same). rewrite Hme in Hme0. injection Hme0 as <-. destruct E as (E & _).
    rewrite Hmm in Hcm by congruence. congruence.
  - cbn [mbind option_bind]. exists st2, []. split; [done|]. split; [done|]. split; [eapply same_nodes_trans; [done|by split]|]. intros _ j Hj. by rewrite Ec2, Hc.
Qed.

(** ** The role a node announces *)

Lemma view_put_other st n nd nd' :
  view_wf st -> nodes st !! n = Some nd -> n <> myself st -> slots nd' = slots nd -> numslots nd' = numslots nd ->
  (forall m, slaveof nd' = Some m -> known st m) -> Forall (known st) (slaves nd') -> view_wf (put_node st n nd').
Proof. intros [Hb (me & Hme & H)] Hn Hne E1 E2 H1 H2. split; [by eapply base_put|]. exists me. unfold put_node, set_nodes. cbn. by rewrite lookup_insert_ne. Qed.

Lemma process_role_wf st n m :
  view_wf st -> known st n -> n <> myself st -> exists st', process_role st n m = Some st' /\ view_wf st' /\ same_nodes st st'.
Proof.
  intros Hwf Hk Hne. unfold process_role. destruct (msg_slaveof m) as [master|].
  2: { destruct (SetNodeAsMaster_wf st n Hwf Hk) as (st' & E & Hwf' & K). exists st'. split; [done|]. split; [done|]. by apply same_nodes_keeps. }
  destruct Hk as [nd Hn]. rewrite Hn. cbn [mbind option_bind].
  assert (exists st1 : clusterState, (if nodeIsMaster nd then '(st0, _) ← clusterDelNodeSlots st n; nd1 ← nodes st0 !! n; Some (put_node st0 n (nd_role nd1 false true false (slaveof nd1))) else Some st) = Some st1 /\ view_wf st1 /\ same_nodes st st1) as (st1 & -> & Hwf1 & N1).
  { destruct (nodeIsMaster nd); [|by exists st]. destruct (DelNodeSlots_ok st n) as (st1 & d & -> & Hs1 & F1 & Hc1); [apply Hwf|by eexists|]. cbn [mbind option_bind].
    destruct (frame_node _ _ _ _ F1 Hn) as (nd1 & Hn1 & _). rewrite Hn1. cbn [mbind option_bind]. eexists. split; [reflexivity|].
    assert (view_wf st1) as Hwf1. { eapply frame_wf; [done|done|done|]. intros j Hj. rewrite Hc1 in Hj. unfold dropped in Hj. by case_decide. }
    split; [|eapply same_nodes_trans; [by apply same_nodes_frame|apply same_nodes_put; by eexists]]. destruct (proj2 (proj1 Hwf1) n nd1 Hn1) as [P1 P2]. apply view_put_other with (nd := nd1); [done|done|by rewrite (frame_myself _ _ F1)|done..]. }
  cbn [mbind option_bind]. destruct (proj1 (proj2 N1 n) ltac:(by eexists)) as [nd1 Hn1]. rewrite Hn1. cbn [mbind option_bind]. case_bool_decide as Emk; [|by exists st1]. case_bool_decide as Eof; [by exists st1|]. cbn [negb andb].
  assert (exists st2, match slaveof nd1 with Some old => '(st2, _) ← clusterNodeRemoveSlave st1 old n; Some st2 | None => Some st1 end = Some st2 /\ view_wf st2 /\ same_nodes st1 st2) as (st2 & -> & Hwf2 & N2).
  { destruct (slaveof nd1) as [old|] eqn:Eo; [|by exists st1]. destruct (RemoveSlave_ok st1 old n) as (st2 & r & -> & Hb2 & K2 & R2); [apply Hwf1|by apply (proj1 (proj2 (proj1 Hwf1) _ _ Hn1))|].
    cbn [mbind option_bind]. exists st2. split; [done|]. split; [|by apply same_nodes_keeps]. split; [done|]. eapply me_ok_role; [apply Hwf1|done|apply R2]. }
  cbn [mbind option_bind]. destruct (AddSlave_ok st2 master n) as (st3 & r & -> & Hb3 & K3 & R3); [apply Hwf2|by apply (proj2 N2)|apply (proj2 N2), (proj2 N1); by eexists|].
  cbn [mbind option_bind]. assert (view_wf st3) as Hwf3 by (split; [done|]; eapply me_ok_role; [apply Hwf2|done|apply R3]). pose proof (same_nodes_keeps _ _ K3) as N3.
  assert (same_nodes st st3) as N by (eapply same_nodes_trans; [done|]; eapply same_nodes_trans; done). destruct (proj1 (proj2 N n) ltac:(by eexists)) as [nd3 Hn3].
  rewrite Hn3. cbn [mbind option_bind]. eexists. split; [reflexivity|]. split; [|eapply same_nodes_trans; [done|apply same_nodes_put; by eexists]].
  destruct (proj2 (proj1 Hwf3) n nd3 Hn3) as [P1 P2]. apply view_put_other with (nd := nd3); [done|done|by rewrite (proj1 N)|done|done|intros x [= <-]; by apply (proj2 N3), (proj2 N2)|done].
Qed.

(** ** Sending *)

Section Handlers.
Context (env : environment).
Implicit Types (st : clusterState) (m : clusterMsg).

Lemma hdr_total st type : view_wf st -> exists hdr, clusterBuildMessageHdr env st type = Some hdr.
Proof.
  intros [[Hs Hp] (me & Hme & _)]. unfold clusterBuildMessageHdr. rewrite Hme. cbn [mbind option_bind]. set (ms := match slaveof me with Some _ => _ | None => _ end).
  assert (known st ms) as [md ->]; [|by eexists]. unfold ms. destruct (slaveof me) as [m|] eqn:E; [|by eexists]. destruct (nodeIsSlave me); [by apply (proj1 (Hp _ _ Hme))|by eexists].
Qed.

Lemma SendFailoverAuth_total st n : view_wf st -> known st n -> exists out, clusterSendFailoverAuth env st n = Some out.
Proof.
  intros Hwf [nd Hn]. unfold clusterSendFailoverAuth. rewrite Hn. cbn [mbind option_bind]. destruct (negb _); [by eexists|].
  destruct (hdr_total st CLUSTERMSG_TYPE_FAILOVER_AUTH_ACK Hwf) as [hdr ->]. by eexists.
Qed.

Lemma SendUpdate_total st to n : view_wf st -> known st to -> known st n -> exists out, clusterSendUpdate env st to n = Some out.
Proof.
  intros Hwf [t Ht] [nd Hn]. unfold clusterSendUpdate. rewrite Ht. cbn [mbind option_bind]. destruct (negb _); [by eexists|]. rewrite Hn. cbn [mbind option_bind].
  destruct (hdr_total st (CLUSTERMSG_TYPE_UPDATE n (configEpoch nd) (slots nd)) Hwf) as [hdr ->]. by eexists.
Qed.

Lemma SendFail_total st n : view_wf st -> exists out, clusterSendFail env st n = Some out.
Proof. intros Hwf. unfold clusterSendFail. destruct (hdr_total st (CLUSTERMSG_TYPE_FAIL n) Hwf) as [hdr ->]. by eexists. Qed.

Lemma RequestFailoverAuth_total st : view_wf st -> exists out, clusterRequestFailoverAuth env st = Some out.
Proof. intros Hwf. unfold clusterRequestFailoverAuth. destruct (hdr_total st CLUSTERMSG_TYPE_FAILOVER_AUTH_REQUEST Hwf) as [hdr ->]. by eexists. Qed.

Lemma BroadcastPong_total st local : view_wf st -> exists out, clusterBroadcastPong env st local = Some out.
Proof.
  intros Hwf. unfold clusterBroadcastPong. pose proof Hwf as [_ (me & -> & _)]. cbn [mbind option_bind]. destruct (hdr_total st CLUSTERMSG_TYPE_PONG Hwf) as [hdr ->]. by eexists.
Qed.

(** ** Loops that only read the table *)

Lemma owner_known st j o : slots_ok st -> cslots st !! j = Some o -> known st o.
Proof. intros Hs H. destruct (so_table st Hs j o H) as (_ & nd & Hn & _). by eexists. Qed.

Lemma newer_slot_total st claimed e fuel : slots_ok st -> forall j, exists b, newer_slot fuel st claimed e j = Some b.
Proof.
  intros Hs. induction fuel as [|fuel IH]; intros j; cbn [newer_slot]; [by eexists|]. destruct (negb _); [apply IH|]. destruct (cslots st !! j) as [o|] eqn:E; [|apply IH].
  destruct (owner_known st j o Hs E) as [nd ->]. cbn [mbind option_bind]. destruct (_ <=? _); [apply IH|by eexists].
Qed.

Lemma outdated_claim_total st n bits e fuel : slots_ok st -> forall j, exists o, outdated_claim fuel st n bits e j = Some o /\ forall x, o = Some x -> known st x.
Proof.
  intros Hs. induction fuel as [|fuel IH]; intros j; cbn [outdated_claim]; [by eexists|]. destruct (negb _); [apply IH|]. destruct (cslots st !! j) as [o|] eqn:E; [|apply IH].
  case_bool_decide; [apply IH|]. pose proof (owner_known st j o Hs E) as Ho. destruct Ho as [nd Hn]. rewrite Hn. cbn [mbind option_bind]. destruct (_ >? _); [|apply IH].
  eexists. split; [reflexivity|]. intros x [= <-]. by eexists.
Qed.

Lemma covered_total st : slots_ok st -> exists b, covered st = Some b.
Proof.
  intros Hs. destruct (for_slots_spec (fun _ _ => True) (covered_slot st) true) as (b & E & _); [|done|by exists b].
  intros j ok _ _. unfold covered_slot. destruct (negb ok); [by eexists|]. destruct (cslots st !! j) as [o|] eqn:E; [|by eexists].
  destruct (owner_known st j o Hs E) as [nd ->]. by eexists.
Qed.

(** ** Received messages *)

Lemma process_header_wf st m : view_wf st -> exists st', process_header st m = Some st' /\ view_wf st' /\ same_nodes st st'.
Proof.
  intros Hwf. unfold process_header. destruct (nodes st !! msg_sender m) as [nd|] eqn:Hn; [|by exists st]. destruct (nodeInHandshake nd); [by exists st|]. cbv zeta.
  set (st1 := if _ >? currentEpoch st then _ else _). set (nd1 := nd_offset _ _ _).
  assert (nodes st1 = nodes st /\ cslots st1 = cslots st /\ myself st1 = myself st) as (E1 & E2 & E3) by (unfold st1; by destruct (_ >? _)).
  assert (view_wf (put_node st1 (msg_sender m) nd1)) as Hwf2.
  { apply view_put with (nd := nd); [by apply (view_same st)|by rewrite E1|..]; unfold nd1; by destruct (msg_configEpoch m >? configEpoch nd). }
  assert (same_nodes st (put_node st1 (msg_sender m) nd1)) as N2.
  { eapply same_nodes_trans; [split; [exact E3|unfold known; by rewrite E1]|apply same_nodes_put; unfold known; rewrite E1; by eexists]. }
  set (st2 := put_node _ _ _) in *. clearbody st2. pose proof Hwf2 as [_ (me & -> & _)]. cbn [mbind option_bind]. destruct (_ && _); [|by exists st2].
  eexists. split; [reflexivity|]. split; [by apply (view_same st2)|done].
Qed.

Lemma EpochCollision_wf st n : view_wf st -> known st n -> exists st', clusterHandleConfigEpochCollision st n = Some st' /\ view_wf st' /\ same_nodes st st'.
Proof.
  intros Hwf [nd Hn]. unfold clusterHandleConfigEpochCollision. pose proof Hwf as [_ (me & Hme & _)]. rewrite Hme, Hn. cbn [mbind option_bind].
  destruct (_ || _); [by exists st|]. destruct (_ <=? _); [by exists st|]. eexists. split; [reflexivity|]. set (st1 := set_epochs _ _ _).
  assert (view_wf st1) as Hwf1 by (by apply (view_same st)). split; [by apply view_put with (nd := me)|]. apply (same_nodes_put st1). by exists me.
Qed.

Lemma process_config_wf st m : view_wf st -> msg_sender m <> myself st -> exists st' out, process_config env st m = Some (st', out) /\ view_wf st' /\ same_nodes st st'.
Proof.
  intros Hwf Hne. unfold process_config. destruct (nodes st !! msg_sender m) as [nd|] eqn:Hn; [|by exists st, []]. cbv zeta. set (e := if nodeInHandshake nd then _ else _). set (n := msg_sender m) in *.
  set (st0 := put_node _ _ _). assert (view_wf st0) as Hwf0 by (by eapply view_put). assert (same_nodes st st0) as N0 by (apply same_nodes_put; by eexists). clearbody st0.
  destruct (process_role_wf st0 n m Hwf0) as (st1 & -> & Hwf1 & N1); [apply (proj2 N0); by eexists|by rewrite (proj1 N0)|]. cbn [mbind option_bind].
  assert (same_nodes st st1) as N01 by (by eapply same_nodes_trans). destruct (proj1 (proj2 N01 n) ltac:(by eexists)) as [sd Hsd]. rewrite Hsd. cbn [mbind option_bind].
  assert (exists dirty, match (if nodeIsMaster sd then Some n else slaveof sd) with None => Some false | Some sm => x ← nodes st1 !! sm; Some (negb (slots x =? msg_myslots m)) end = Some dirty) as (dirty & ->).
  { destruct (nodeIsMaster sd); [rewrite Hsd; by eexists|]. destruct (slaveof sd) as [sm|] eqn:Es; [|by eexists]. destruct (proj1 (proj2 (proj1 Hwf1) _ _ Hsd) _ Es) as [x ->]. by eexists. }
  cbn [mbind option_bind].
  assert (exists st2 d, (if nodeIsMaster sd && dirty then clusterUpdateSlotsConfigWith (countKeysInSlot env) (no_redirection env) st1 n e (msg_myslots m) else Some (st1, [])) = Some (st2, d) /\
    view_wf st2 /\ same_nodes st1 st2) as (st2 & d & -> & Hwf2 & N2).
  { destruct (_ && _); [|by exists st1, []]. destruct (UpdateSlots_wf (countKeysInSlot env) (no_redirection env) st1 n e (msg_myslots m) Hwf1) as (st2 & d & E & Hwf2 & N2 & _); [by eexists|]. by exists st2, d. }
  cbn [mbind option_bind]. assert (same_nodes st st2) as N02 by (by eapply same_nodes_trans). assert (known st2 n) as Hn2 by (apply (proj2 N02); by eexists).
  assert (exists out, (if dirty then o ← outdated_claim (Z.to_nat CLUSTER_SLOTS) st2 n (msg_myslots m) e 0; match o with Some o => clusterSendUpdate env st2 n o | None => Some [] end else Some []) = Some out) as (out & ->).
  { destruct dirty; [|by eexists]. destruct (outdated_claim_total st2 n (msg_myslots m) e (Z.to_nat CLUSTER_SLOTS) (proj1 (proj1 Hwf2)) 0) as (o & -> & Ho). cbn [mbind option_bind].
    destruct o as [o|]; [|by eexists]. apply SendUpdate_total; [done|done|by apply Ho]. }
  cbn [mbind option_bind]. pose proof Hwf2 as [_ (me & Hme & _)]. rewrite Hme. cbn [mbind option_bind]. destruct Hn2 as [sd2 Hsd2]. rewrite Hsd2. cbn [mbind option_bind].
  destruct (_ && _); [|by exists st2, out]. destruct (EpochCollision_wf st2 n Hwf2) as (st3 & -> & Hwf3 & N3); [by eexists|]. exists st3, out. split; [done|]. split; [done|]. by eapply same_nodes_trans.
Qed.

Lemma process_fail_wf st m about : view_wf st -> view_wf (process_fail env st m about) /\ same_nodes st (process_fail env st m about).
Proof.
  intros Hwf. unfold process_fail. destruct (nodes st !! msg_sender m); [|done]. destruct (nodes st !! about) as [nd|] eqn:Hn; [|done]. destruct (_ || _); [done|].
  split; [by eapply view_put|apply same_nodes_put; by eexists].
Qed.

Lemma process_auth_request_wf st m : view_wf st -> exists st' out, process_auth_request env st m = Some (st', out) /\ view_wf st' /\ same_nodes st st'.
Proof.
  intros Hwf. unfold process_auth_request. destruct (nodes st !! msg_sender m) as [nd|] eqn:Hn; [|by exists st, []]. unfold clusterSendFailoverAuthIfNeeded. rewrite Hn. cbn [mbind option_bind].
  pose proof Hwf as [[Hs Hp] (me & Hme & _)]. rewrite Hme. cbn [mbind option_bind]. destruct (nodeIsSlave me || _); [by exists st, []|]. destruct (_ <? currentEpoch st); [by exists st, []|].
  destruct (_ =? currentEpoch st); [by exists st, []|]. destruct (nodeIsMaster nd); [by exists st, []|]. destruct (slaveof nd) as [ms|] eqn:Es; [|by exists st, []].
  destruct (proj1 (Hp _ _ Hn) _ Es) as [md Hmd]. rewrite Hmd. cbn [mbind option_bind]. destruct (negb (nodeFailed md) && _); [by exists st, []|]. destruct (_ <? _ * 2); [by exists st, []|].
  destruct (newer_slot_total st (msg_myslots m) (msg_configEpoch m) (Z.to_nat CLUSTER_SLOTS) Hs 0) as [b ->]. cbn [mbind option_bind]. destruct b; [by exists st, []|]. cbv zeta.
  set (st1 := set_epochs _ _ _). set (st2 := put_node _ _ _). assert (view_wf st2) as Hwf2 by (apply view_put with (nd := md); [by apply (view_same st)|done..]).
  assert (same_nodes st st2) as N by (apply (same_nodes_put st1); by exists md). destruct (SendFailoverAuth_total st2 (msg_sender m) Hwf2) as [out ->]; [apply (proj2 N); by eexists|].
  by exists st2, out.
Qed.

Lemma process_auth_ack_wf st m : view_wf st -> view_wf (process_auth_ack st m) /\ same_nodes st (process_auth_ack st m).
Proof.
  intros Hwf. unfold process_auth_ack. destruct (nodes st !! msg_sender m) as [nd|]; [|done]. cbv zeta. destruct (_ && _); [|done]. split; [by apply (view_same st)|done].
Qed.

Lemma process_mfstart_wf st m : view_wf st -> view_wf (process_mfstart env st m) /\ same_nodes st (process_mfstart env st m).
Proof. intros Hwf. unfold process_mfstart. destruct (nodes st !! msg_sender m) as [nd|]; [|done]. destruct (negb _); [done|]. split; [by apply (view_same st)|done]. Qed.

Lemma process_update_wf st m n e bits : view_wf st -> exists st', process_update env st m n e bits = Some st' /\ view_wf st' /\ same_nodes st st'.
Proof.
  intros Hwf. unfold process_update. destruct (nodes st !! msg_sender m); [|by exists st]. destruct (nodes st !! n) as [nd|] eqn:Hn; [|by exists st]. destruct (_ >=? _); [by exists st|].
  assert (exists st1, (if nodeIsSlave nd then clusterSetNodeAsMaster st n else Some st) = Some st1 /\ view_wf st1 /\ same_nodes st st1) as (st1 & -> & Hwf1 & N1).
  { destruct (nodeIsSlave nd); [|by exists st]. destruct (SetNodeAsMaster_wf st n Hwf) as (st1 & E & Hwf1 & K); [by eexists|]. exists st1. split; [done|]. split; [done|]. by apply same_nodes_keeps. }
  cbn [mbind option_bind]. destruct (proj1 (proj2 N1 n) ltac:(by eexists)) as [nd1 Hn1]. rewrite Hn1. cbn [mbind option_bind]. set (st2 := put_node _ _ _).
  assert (view_wf st2) as Hwf2 by (by apply view_put with (nd := nd1)). assert (same_nodes st st2) as N2 by (eapply same_nodes_trans; [done|apply same_nodes_put; by eexists]).
  destruct (UpdateSlots_wf (countKeysInSlot env) (no_redirection env) st2 n e bits Hwf2) as (st3 & d & -> & Hwf3 & N3 & _); [apply (proj2 N2); by eexists|].
  cbn [mbind option_bind]. exists st3. split; [done|]. split; [done|]. by eapply same_nodes_trans.
Qed.

Lemma process_packet_wf st m : view_wf st -> msg_sender m <> myself st -> exists st' out, process_packet env st m = Some (st', out) /\ view_wf st' /\ same_nodes st st'.
Proof.
  intros Hwf Hne. unfold process_packet. destruct (process_header_wf st m Hwf) as (st1 & -> & Hwf1 & N1). cbn [mbind option_bind]. assert (msg_sender m <> myself st1) as Hne1 by (by rewrite (proj1 N1)).
  assert (forall r : option (clusterState * list (name * clusterMsg)), (exists st' out, r = Some (st', out) /\ view_wf st' /\ same_nodes st1 st') -> exists st' out, r = Some (st', out) /\ view_wf st' /\ same_nodes st st') as Hstep.
  { intros r (st2 & out & E & Hwf2 & N2). exists st2, out. split; [done|]. split; [done|]. by eapply same_nodes_trans. }
  apply Hstep. destruct (msg_type m) as [| |about| | |n e bits|].
  - by apply process_config_wf.
  - by apply process_config_wf.
  - eexists _, _. split; [reflexivity|]. by apply process_fail_wf.
  - by apply process_auth_request_wf.
  - eexists _, _. split; [reflexivity|]. by apply process_auth_ack_wf.
  - destruct (process_update_wf st1 m n e bits Hwf1) as (st2 & -> & H). by exists st2, [].
  - eexists _, _. split; [reflexivity|]. by apply process_mfstart_wf.
Qed.

(** ** The state of the cluster *)

Lemma same_fields_wf st st' : nodes st' = nodes st -> cslots st' = cslots st -> myself st' = myself st -> view_wf st -> view_wf st' /\ same_nodes st st'.
Proof. intros E1 E2 E3 Hwf. split; [by apply (view_same st)|]. split; [done|]. unfold known. by rewrite E1. Qed.

Lemma new_health_same st b ok : nodes (new_health env st b ok) = nodes st /\ cslots (new_health env st b ok) = cslots st /\ myself (new_health env st b ok) = myself st.
Proof. unfold new_health. cbv zeta. destruct (eqb _ _); [done|]. by destruct (_ && _). Qed.

Lemma UpdateState_wf st : view_wf st -> exists st', clusterUpdateState env st = Some st' /\ view_wf st' /\ nodes st' = nodes st /\ cslots st' = cslots st /\ myself st' = myself st.
Proof.
  intros Hwf. unfold clusterUpdateState. pose proof Hwf as [[Hs _] (me & Hme & _)]. rewrite Hme. cbn [mbind option_bind]. destruct (_ && _); [exists (mark_first_call env st); split; [done|]; by split; [apply (view_same st)|]|].
  assert (exists ok, (if cluster_require_full_coverage env then covered st else Some true) = Some ok) as (ok & ->) by (destruct (cluster_require_full_coverage env); [by apply covered_total|by eexists]).
  cbn [mbind option_bind]. eexists. split; [reflexivity|]. destruct (new_health_same (mark_first_call env st) (nodeIsMaster me) ok) as (E1 & E2 & E3). split; [|done]. by apply (view_same st).
Qed.

(** ** Taking over from the master *)

Definition taken (st : clusterState) (old : name) (j : Z) : option name := if decide (cslots st !! j = Some old) then Some (myself st) else cslots st !! j.

Lemma take_loop st old :
  slots_ok st -> known st old -> known st (myself st) -> exists st', for_slots (take_slot old) st = Some st' /\ slots_ok st' /\ frame st st' /\ forall j, cslots st' !! j = taken st old j.
Proof.
  intros Hs Ho Hme.
  destruct (for_slots_spec (fun j a => slots_ok a /\ frame st a /\ forall i, cslots a !! i = if decide (i < j) then taken st old i else cslots st !! i)
              (take_slot old) st) as (st' & E & Hs' & F & Hc).
  - intros j s Hj (Hs1 & F1 & Hc1). destruct (proj1 (frame_known _ _ old F1) Ho) as [nd Hnd].
    unfold take_slot, clusterNodeGetSlotBit, bitmapTestBit. rewrite Hnd. cbn [mbind option_bind]. destruct (Z.testbit (slots nd) j) eqn:Eb.
    + destruct (move_slot_spec s (myself s) j Hs1 Hj) as (s2 & E2 & Hs2 & Ec2 & F2 & _); [rewrite (frame_myself _ _ F1); by apply (frame_known st)|]. unfold move_slot in E2.
      apply bind_Some in E2 as ([s1 r1] & E1 & E2). apply bind_Some in E2 as ([s3 r3] & E3 & [= ->]). rewrite E1. cbn [mbind option_bind].
      assert (myself s1 = myself s) as ->. { destruct (del_slot_spec s j Hs1 Hj) as (s1' & r' & E1' & _ & _ & F1' & _). rewrite E1 in E1'. injection E1' as -> _. by apply frame_myself. }
      rewrite E3. cbn [mbind option_bind]. eexists. split; [reflexivity|]. split; [done|].
      split; [by eapply frame_trans|]. pose proof (so_bits s Hs1 old nd j Hnd Hj Eb) as Hoj. rewrite Hc1, decide_False in Hoj by lia. intros i. rewrite Ec2. destruct (decide (i = j)) as [->|Hij].
      * rewrite lookup_insert_eq, decide_True by lia. unfold taken. rewrite decide_True by done. by rewrite (frame_myself _ _ F1).
      * rewrite lookup_insert_ne, Hc1 by done. by do 2 case_decide; try lia.
    + eexists. split; [reflexivity|]. split; [done|]. split; [done|]. intros i. rewrite Hc1. destruct (decide (i = j)) as [->|Hij]; [|by do 2 case_decide; try lia].
      rewrite decide_False, decide_True by lia. unfold taken. case_decide as Hoj; [|done]. specialize (Hc1 j). rewrite decide_False, Hoj in Hc1 by lia.
      destruct (so_table s Hs1 j old Hc1) as (_ & nd' & Hnd' & Hb'). congruence.
  - split; [done|]. split; [apply frame_refl|]. intros i. case_decide; [|done]. unfold taken. case_decide as Hoj; [|done]. apply (so_table st Hs) in Hoj as [Hi _]. unfold is_slot in Hi. lia.
  - exists st'. split; [done|]. split; [done|]. split; [done|]. intros j. rewrite Hc. case_decide; [done|]. unfold taken. case_decide as Hoj; [|done].
    apply (so_table st Hs) in Hoj as [Hi _]. unfold is_slot in Hi. lia.
Qed.

Lemma ReplaceYourMaster_run st me old st1 st2 st3 out :
  nodes st !! myself st = Some me -> nodeIsMaster me = false -> slaveof me = Some old -> clusterSetNodeAsMaster st (myself st) = Some st1 -> for_slots (take_slot old) st1 = Some st2 ->
  clusterUpdateState env st2 = Some st3 -> clusterBroadcastPong env st3 false = Some out -> clusterFailoverReplaceYourMaster env st = Some (resetManualFailover st3, out).
Proof.
  intros Hme Em Eo Q1 Q2 Q3 Q4. unfold clusterFailoverReplaceYourMaster. apply bind_Some. exists me. split; [done|]. rewrite Em, Eo.
  apply bind_Some. exists st1. split; [done|]. apply bind_Some. exists st2. split; [done|]. apply bind_Some. exists st3. split; [done|]. apply bind_Some. by exists out.
Qed.

Lemma ReplaceYourMaster_ok st me old :
  view_wf st -> nodes st !! myself st = Some me -> nodeIsMaster me = false -> slaveof me = Some old ->
  exists st' out me', clusterFailoverReplaceYourMaster env st = Some (st', out) /\ view_wf st' /\ same_nodes st st' /\
    nodes st' !! myself st = Some me' /\ nodeIsMaster me' = true /\ configEpoch me' = configEpoch me /\ forall j, cslots st' !! j = taken st old j.
Proof.
  intros Hwf Hme Em Eo.
  destruct (SetNodeAsMaster_ok st (myself st) (proj1 Hwf)) as (st1 & Q1 & Hb1 & K1 & R1 & nd & nd1 & Hnd & Hnd1 & Hm1 & Hsl1); [by eexists|]. pose proof (same_nodes_keeps _ _ K1) as N1.
  pose proof K1 as (Em1 & Ec1 & _). rewrite Hme in Hnd. injection Hnd as <-.
  destruct (take_loop st1 old) as (st2 & Q2 & Hs2 & F2 & Hc2); [apply Hb1|apply (proj2 N1), (proj1 (proj2 (proj1 Hwf) _ _ Hme) _ Eo)|rewrite Em1; by eexists|].
  destruct (frame_node _ _ _ _ F2 Hnd1) as (me2 & Hme2 & E2%strip_same). destruct E2 as (M2 & S2 & C2 & _).
  assert (view_wf st2) as Hwf2.
  { split; [split; [done|eapply frame_pointers; [apply Hb1|done]]|]. exists me2. rewrite (frame_myself _ _ F2), Em1. split; [done|]. rewrite M2, S2, Hm1. split; [|done].
    apply Hsl1. destruct Hwf as [_ (x & Hx & H & _)]. congruence. }
  destruct (UpdateState_wf st2 Hwf2) as (st3 & Q3 & Hwf3 & E1 & E2 & E3). destruct (BroadcastPong_total st3 false Hwf3) as [out Q4].
  exists (resetManualFailover st3), out, me2. split; [by apply (ReplaceYourMaster_run st me old st1 st2 st3)|]. split; [by apply (view_same st3)|].
  split; [eapply same_nodes_trans; [done|]; eapply same_nodes_trans; [by apply same_nodes_frame|]; split; [done|unfold known; cbn; by rewrite E1]|].
  split; [cbn; by rewrite E1|]. split; [congruence|]. split; [|intros j; cbn; rewrite E2, Hc2; unfold taken; by rewrite Em1, Ec1].
  destruct (keeps_node _ _ _ _ K1 Hme) as (x & Hx & _ & _ & Ex). congruence.
Qed.

(** ** An attempt of a slave to replace its master *)

Lemma SlaveRank_total st : view_wf st -> (forall me, nodes st !! myself st = Some me -> nodeIsMaster me = false) -> exists r, clusterGetSlaveRank env st = Some r.
Proof.
  intros [[Hs Hp] (me & Hme & Hr & _)] Hm. unfold clusterGetSlaveRank. rewrite Hme. cbn [mbind option_bind]. rewrite Hr, (Hm me Hme). cbn [negb]. destruct (slaveof me) as [ms|] eqn:Eo; [|by eexists].
  destruct (proj1 (Hp _ _ Hme) _ Eo) as [md Hmd]. rewrite Hmd. cbn [mbind option_bind]. destruct (Hp _ _ Hmd) as [_ Hsl]. induction Hsl as [|x l [nd Hx] Hl [r IH]]; [by eexists|].
  cbn [foldr]. rewrite IH. cbn [mbind option_bind]. rewrite Hx. by eexists.
Qed.

Lemma LogCantFailover_wf st reason : view_wf st -> exists st', clusterLogCantFailover env st reason = Some st' /\ view_wf st' /\ same_nodes st st'.
Proof.
  intros Hwf. unfold clusterLogCantFailover. destruct (_ && _); [by exists st|]. pose proof Hwf as [[_ Hp] (me & Hme & _)]. rewrite Hme. cbn [mbind option_bind].
  assert (exists b, match slaveof me with None => Some false | Some m => nd ← nodes st !! m; Some (nodeFailed nd && (mstime env - fail_time nd <? cluster_node_timeout env + 5000)) end = Some b) as (b & ->).
  { destruct (slaveof me) as [m|] eqn:E; [|by eexists]. destruct (proj1 (Hp _ _ Hme) _ E) as [nd ->]. by eexists. }
  cbn [mbind option_bind]. eexists. split; [reflexivity|]. by apply same_fields_wf.
Qed.

Lemma schedule_election_wf st :
  view_wf st -> (forall me, nodes st !! myself st = Some me -> nodeIsMaster me = false) -> exists st' out, schedule_election env st = Some (st', out) /\ view_wf st' /\ same_nodes st st'.
Proof.
  intros Hwf Hm. unfold schedule_election. destruct (SlaveRank_total st Hwf Hm) as [r ->]. cbn [mbind option_bind]. cbv zeta. set (st1 := set_elec _ _).
  assert (view_wf st1 /\ same_nodes st st1) as [Hwf1 N1] by (by apply same_fields_wf). destruct (BroadcastPong_total st1 true Hwf1) as [out ->]. by exists st1, out.
Qed.

Lemma update_rank_wf st :
  view_wf st -> (forall me, nodes st !! myself st = Some me -> nodeIsMaster me = false) ->
  exists st', update_rank env st = Some st' /\ view_wf st' /\ nodes st' = nodes st /\ cslots st' = cslots st /\ myself st' = myself st.
Proof.
  intros Hwf Hm. unfold update_rank. cbv zeta. destruct (_ && _); [|by exists st]. destruct (SlaveRank_total st Hwf Hm) as [r ->]. cbn [mbind option_bind]. eexists. split; [reflexivity|].
  destruct (_ >? _); [|done]. split; [by apply (view_same st)|done].
Qed.

(** The last step of an election that was won. *)
Lemma win_wf st me old e :
  view_wf st -> nodes st !! myself st = Some me -> nodeIsMaster me = false -> slaveof me = Some old ->
  exists st' out, (me ← nodes st !! myself st;
    let st := if configEpoch me <? e then put_node st (myself st) (nd_epoch me e) else st in
    '(st, out) ← clusterFailoverReplaceYourMaster env st; Some (st, out, true)) = Some (st', out, true) /\ view_wf st' /\ same_nodes st st' /\ forall j, cslots st' !! j = taken st old j.
Proof.
  intros Hwf Hme Em Eo. set (me1 := if configEpoch me <? e then nd_epoch me e else me).
  set (st1 := if configEpoch me <? e then put_node st (myself st) (nd_epoch me e) else st).
  assert (view_wf st1 /\ same_nodes st st1 /\ nodes st1 !! myself st = Some me1 /\ cslots st1 = cslots st) as (Hwf1 & N1 & Hme1 & Ec1).
  { unfold st1, me1. destruct (_ <? _); [|done]. split; [by eapply view_put|]. split; [apply same_nodes_put; by eexists|]. cbn. by rewrite lookup_insert_eq. }
  destruct (ReplaceYourMaster_ok st1 me1 old Hwf1) as (st2 & out & me2 & Q & Hwf2 & N2 & _ & _ & _ & Hc2); [by rewrite (proj1 N1)|unfold me1; by destruct (_ <? _)|unfold me1; by destruct (_ <? _)|].
  exists st2, out. split; [apply bind_Some; exists me; split; [done|]; apply bind_Some; by exists (st2, out)|]. split; [done|]. split; [by eapply same_nodes_trans|].
  intros j. rewrite Hc2. unfold taken. by rewrite Ec1, (proj1 N1).
Qed.

(** An attempt succeeds in the model and keeps the view; a won election gives
    us all the slots of the master. *)
Definition attempt_ok st (r : option (clusterState * list (name * clusterMsg) * bool)) : Prop :=
  exists st' out won, r = Some (st', out, won) /\ view_wf st' /\ same_nodes st st' /\
    forall me old, nodes st !! myself st = Some me -> slaveof me = Some old -> won = true -> forall j, cslots st' !! j = taken st old j.

Lemma attempt_waits st (r : option clusterState) out :
  (exists st', r = Some st' /\ view_wf st' /\ same_nodes st st') -> attempt_ok st (st' ← r; Some (st', out, false)).
Proof. intros (st' & -> & H1 & H2). by exists st', out, false. Qed.

Lemma HandleSlaveFailover_ok st : view_wf st -> attempt_ok st (clusterHandleSlaveFailover env st).
Proof.
  intros Hwf. pose proof Hwf as [[_ Hp] (me & Hme & _ & _)]. unfold clusterHandleSlaveFailover. cbv zeta. rewrite Hme. set (none := Some (set_reason st CLUSTER_CANT_FAILOVER_NONE (lastlog_time st), [], false)).
  assert (attempt_ok st none) as Hnone by (eexists _, _, _; split; [reflexivity|]; split; [by apply (view_same st)|done]).
  cbn [mbind option_bind]. destruct (nodeIsMaster me) eqn:Em; [done|]. destruct (slaveof me) as [old|] eqn:Eo; [|done].
  destruct (proj1 (Hp _ _ Hme) _ Eo) as [md Hmd]. rewrite Hmd. cbn [mbind option_bind]. destruct (_ || _); [done|]. clear Hnone none.
  destruct (_ && _); [by apply (attempt_waits st _ []), LogCantFailover_wf|].
  assert (forall x, nodes st !! myself st = Some x -> nodeIsMaster x = false) as Hsl by congruence.
  destruct (_ >? _ * 2); [destruct (schedule_election_wf st Hwf Hsl) as (st1 & out & -> & H1 & H2); by exists st1, out, false|].
  destruct (update_rank_wf st Hwf Hsl) as (st1 & -> & Hwf1 & E1 & E2 & E3). cbn [mbind option_bind].
  assert (same_nodes st st1) as N1 by (split; [done|]; unfold known; by rewrite E1).
  assert (forall reason, exists st', clusterLogCantFailover env st1 reason = Some st' /\ view_wf st' /\ same_nodes st st') as Hlog.
  { intros reason. destruct (LogCantFailover_wf st1 reason Hwf1) as (st' & Q & H1 & H2). exists st'. split; [done|]. split; [done|]. by eapply same_nodes_trans. }
  destruct (_ <? _); [apply (attempt_waits st _ []), Hlog|]. destruct (_ >? _); [apply (attempt_waits st _ []), Hlog|]. destruct (negb _).
  - match goal with |- context [clusterRequestFailoverAuth env ?s] => set (st2 := s) end. assert (view_wf st2 /\ same_nodes st st2) as [Hwf2 N2] by (split; [by apply (view_same st1)|done]).
    destruct (RequestFailoverAuth_total st2 Hwf2) as [out ->]. cbn [mbind option_bind]. eexists _, _, _. split; [reflexivity|]. split; [by apply (view_same st1)|done].
  - destruct (_ >=? _); [|apply (attempt_waits st _ []), Hlog].
    destruct (win_wf st1 me old (failover_auth_epoch (elec st1)) Hwf1) as (st2 & out & Q & Hwf2 & N2 & Hc2); [by rewrite E3, E1|done|done|].
    exists st2, out, true. split; [exact Q|]. split; [done|]. split; [by eapply same_nodes_trans|].
    intros me0 old0 Hme0 Eo0 _ j. rewrite Hme in Hme0. injection Hme0 as <-. rewrite Eo in Eo0. injection Eo0 as <-. rewrite Hc2. unfold taken. by rewrite E2, E3.
Qed.
End Handlers.

(** ** Failure reports *)

Section Failures.
Context (env : environment).

Lemma AddFailureReport_wf st n sender : view_wf st -> known st n -> exists st' b, clusterNodeAddFailureReport env st n sender = Some (st', b) /\ view_wf st'.
Proof.
  intros Hwf [nd Hn]. unfold clusterNodeAddFailureReport. rewrite Hn. cbn [mbind option_bind]. destruct (add_report _ _ _) as [l b]. eexists _, _. split; [reflexivity|]. by eapply view_put.
Qed.

Lemma DelFailureReport_wf st n sender : view_wf st -> known st n -> exists st' b, clusterNodeDelFailureReport env st n sender = Some (st', b) /\ view_wf st'.
Proof.
  intros Hwf [nd Hn]. unfold clusterNodeDelFailureReport. rewrite Hn. cbn [mbind option_bind]. destruct (del_report _ _) as [l|]; eexists _, _; (split; [reflexivity|]); [|done]. by eapply view_put.
Qed.

Lemma markNodeAsFailing_wf st n : view_wf st -> known st n -> exists st' out, markNodeAsFailingIfNeeded env st n = Some (st', out) /\ view_wf st'.
Proof.
  intros Hwf [nd Hn]. unfold markNodeAsFailingIfNeeded. rewrite Hn. cbn [mbind option_bind]. cbv zeta. destruct (negb _); [by exists st, []|]. destruct (nodeFailed nd); [by exists st, []|].
  set (nd1 := clusterNodeCleanupFailureReports env nd). set (st1 := put_node st n nd1). assert (view_wf st1) as Hwf1 by (by apply view_put with (nd := nd)).
  pose proof Hwf1 as [_ (me & Hme & _)]. rewrite Hme. cbn [mbind option_bind]. destruct (_ <? _); [by exists st1, []|]. set (st2 := put_node st1 n _).
  assert (view_wf st2) as Hwf2 by (apply view_put with (nd := nd1); [done|cbn; by rewrite lookup_insert_eq|done..]).
  assert (exists out, (if nodeIsMaster me then clusterSendFail env st2 n else Some []) = Some out) as (out & ->) by (destruct (nodeIsMaster me); [by apply SendFail_total|by eexists]).
  by exists st2, out.
Qed.

Lemma clearNodeFailure_wf st n nd : view_wf st -> nodes st !! n = Some nd -> nodeFailed nd = true -> exists st', clearNodeFailureIfNeeded env st n = Some st' /\ view_wf st'.
Proof.
  intros Hwf Hn Hf. unfold clearNodeFailureIfNeeded. rewrite Hn. cbn [mbind option_bind]. rewrite Hf. cbv zeta. cbn [negb]. eexists. split; [reflexivity|]. set (nd1 := if nodeIsSlave nd || _ then _ else _).
  assert (nd1 = nd \/ nd1 = nd_fail nd (nodeTimedOut nd) false (fail_time nd) (fail_reports nd)) as E1 by (unfold nd1; destruct (_ || _); tauto). clearbody nd1.
  destruct (_ && _); destruct E1 as [->| ->]; by eapply view_put.
Qed.
End Failures.

(** ** The handlers together *)

(** What happens to a node, apart from nodes joining and leaving: a packet,
    the periodic attempt to fail over and the refresh of the state, the steps
    of a manual failover, and what the gossip and the timeouts say about a
    node. *)
Inductive view_event :=
  | Receive (m : clusterMsg) | Attempt | Refresh | CheckManual | HandleManual
  | Suspect (failing sender : name) | Retract (n sender : name) | MarkFailing (n : name) | ClearFailing (n : name).

Definition view_handle (env : environment) (st : clusterState) (ev : view_event) : option clusterState :=
  match ev with
  | Receive m => fst <$> process_packet env st m
  | Attempt => (fun r => r.1.1) <$> clusterHandleSlaveFailover env st
  | Refresh => clusterUpdateState env st
  | CheckManual => Some (manualFailoverCheckTimeout env st)
  | HandleManual => Some (clusterHandleManualFailover env st)
  | Suspect failing sender => fst <$> clusterNodeAddFailureReport env st failing sender
  | Retract n sender => fst <$> clusterNodeDelFailureReport env st n sender
  | MarkFailing n => fst <$> markNodeAsFailingIfNeeded env st n
  | ClearFailing n => clearNodeFailureIfNeeded env st n
  end.

(** The callers pass nodes of the dictionary, clear only failing nodes, and
    a node does not receive packets from itself. *)
Definition view_valid (st : clusterState) (ev : view_event) : Prop :=
  match ev with
  | Receive m => msg_sender m <> myself st
  | Attempt | Refresh | CheckManual | HandleManual => True
  | Suspect n _ | Retract n _ | MarkFailing n => known st n
  | ClearFailing n => exists nd, nodes st !! n = Some nd /\ nodeFailed nd = true
  end.

Inductive view_step : relation clusterState :=
  | view_step_intro env ev st st' : view_valid st ev -> view_handle env st ev = Some st' -> view_step st st'.

Lemma view_handle_wf env st ev : view_wf st -> view_valid st ev -> exists st', view_handle env st ev = Some st' /\ view_wf st'.
Proof.
  intros Hwf Hv. destruct ev as [m| | | | |n sender|n sender|n|n]; cbn [view_handle view_valid] in *.
  - destruct (process_packet_wf env st m Hwf Hv) as (st' & out & -> & H & _). by exists st'.
  - destruct (HandleSlaveFailover_ok env st Hwf) as (st' & out & won & -> & H & _). by exists st'.
  - destruct (UpdateState_wf env st Hwf) as (st' & -> & H & _). by exists st'.
  - eexists. split; [reflexivity|]. unfold manualFailoverCheckTimeout. destruct (_ && _); [by apply (view_same st)|done].
  - eexists. split; [reflexivity|]. unfold clusterHandleManualFailover. repeat (destruct (_ : bool); [done|]). destruct (_ =? slave_offset env); [by apply (view_same st)|done].
  - destruct (AddFailureReport_wf env st n sender Hwf Hv) as (st' & b & -> & H). by exists st'.
  - destruct (DelFailureReport_wf env st n sender Hwf Hv) as (st' & b & -> & H). by exists st'.
  - destruct (markNodeAsFailing_wf env st n Hwf Hv) as (st' & out & -> & H). by exists st'.
  - destruct Hv as (nd & Hn & Hf). by apply (clearNodeFailure_wf env st n nd).
Qed.

(** C10 From a consistent view, whatever packets arrive from other nodes (also
    late, duplicated or contradictory ones), whatever a slave attempts to take
    over its master, and whatever is reported of other nodes: no handler
    follows a dangling pointer or fails an assertion, and the view stays
    consistent (the slot table and the bitmaps agree, every counter counts
    the bits of its bitmap, the pointers lead to known nodes, a slave owns no
    slot and has a master). *)
Theorem cluster_view_safe st0 st :
  view_wf st0 -> rtc view_step st0 st -> view_wf st /\ forall env ev, view_valid st ev -> is_Some (view_handle env st ev).
Proof.
  intros H0 Hr. assert (view_wf st) as Hwf.
  { induction Hr as [|x y z [env ev s s' Hv E] _ IH]; [done|]. apply IH. destruct (view_handle_wf env s ev H0 Hv) as (s2 & E' & H). congruence. }
  split; [done|]. intros env ev Hv. destruct (view_handle_wf env st ev Hwf Hv) as (st' & -> & _). by eexists.
Qed.

(** C20 A node that announces slots with its configuration epoch gets exactly
    the announced slots that are unassigned or whose owner has a smaller epoch,
    apart from those being imported here; every other slot keeps its owner.
    The update never fails on a consistent view. *)
Theorem slots_newest_epoch keys nored st sender e bits :
  view_wf st -> known st sender -> sender <> myself st ->
  exists st' dirty, clusterUpdateSlotsConfigWith keys nored st sender e bits = Some (st', dirty) /\ view_wf st' /\
    forall j, is_slot j -> cslots st' !! j = rebound st sender e bits j.
Proof. intros Hwf Hk Hne. destruct (UpdateSlots_wf keys nored st sender e bits Hwf Hk) as (st' & d & E & H & _ & Hc). exists st', d. split; [done|]. split; [done|]. by apply Hc. Qed.

(** C19 When a slave wins its election it owns every slot of its old master, no
    other slot changes hands, and the view is consistent. *)
Theorem failover_takes_all_slots env st st' out me old :
  view_wf st -> nodes st !! myself st = Some me -> slaveof me = Some old -> clusterHandleSlaveFailover env st = Some (st', out, true) ->
  view_wf st' /\ forall j, cslots st' !! j = taken st old j.
Proof.
  intros Hwf Hme Eo E. destruct (HandleSlaveFailover_ok env st Hwf) as (s & o & won & E' & H & _ & Hc). rewrite E in E'. injection E' as <- <- <-. split; [done|]. by apply (Hc me).
Qed.

(** ** A concrete view *)

(** Consistency is decidable. *)
Definition is_known (st : clusterState) (n : name) : bool := bool_decide (is_Some (nodes st !! n)).

Definition view_check (st : clusterState) : bool :=
  forallb (fun p => (0 <=? fst p) && (fst p <? CLUSTER_SLOTS) && match nodes st !! snd p with Some nd => Z.testbit (slots nd) (fst p) | None => false end) (map_to_list (cslots st)) &&
  forallb (fun p => (numslots (snd p) =? nbits (slots (snd p))) &&
                    forallb (fun j => negb (Z.testbit (slots (snd p)) j) || bool_decide (cslots st !! j = Some (fst p))) all_slots &&
                    match slaveof (snd p) with Some m => is_known st m | None => true end && forallb (is_known st) (slaves (snd p))) (map_to_list (nodes st)) &&
  match nodes st !! myself st with
  | Some me => eqb (nodeIsSlave me) (negb (nodeIsMaster me)) && (nodeIsMaster me || (numslots me =? 0) && bool_decide (is_Some (slaveof me)))
  | None => false
  end.

Lemma view_check_wf st : view_check st = true -> view_wf st.
Proof.
  unfold view_check. intros [[Ht Hn]%andb_true_iff Hme]%andb_true_iff. rewrite forallb_forall in Ht, Hn.
  assert (forall n nd, nodes st !! n = Some nd -> numslots nd = nbits (slots nd) /\ (forall j, is_slot j -> Z.testbit (slots nd) j = true -> cslots st !! j = Some n) /\
    (forall m, slaveof nd = Some m -> known st m) /\ Forall (known st) (slaves nd)) as Hnode.
  { intros n nd H. specialize (Hn (n, nd)). cbn in Hn. rewrite !andb_true_iff in Hn. destruct Hn as (((H1 & H2) & H3) & H4); [by apply list_elem_of_In, elem_of_map_to_list|].
    split; [by apply Z.eqb_eq|]. rewrite forallb_forall in H2, H4. split; [|split].
    - intros j Hj Hb. specialize (H2 j). rewrite Hb in H2. cbn in H2. apply bool_decide_eq_true in H2; [done|]. by apply list_elem_of_In, slot_in.
    - intros m Em. rewrite Em in H3. by apply bool_decide_eq_true in H3.
    - apply Forall_forall. intros x Hx. specialize (H4 x). apply bool_decide_eq_true in H4; [done|]. by apply list_elem_of_In. }
  split; [split; [constructor|]|].
  - intros j n H. specialize (Ht (j, n)). cbn in Ht. rewrite !andb_true_iff in Ht. destruct Ht as ((H1 & H2) & H3); [by apply list_elem_of_In, elem_of_map_to_list|].
    split; [unfold is_slot; lia|]. destruct (nodes st !! n) as [nd|]; [by exists nd|done].
  - intros n nd j H. by apply (Hnode n nd H).
  - intros n nd H. by apply (Hnode n nd H).
  - intros n nd H. by apply (Hnode n nd H).
  - destruct (nodes st !! myself st) as [me|] eqn:E; [|done]. rewrite andb_true_iff in Hme. destruct Hme as [H1 H2]. exists me. split; [done|]. split; [by apply eqb_prop|].
    intros Hm. rewrite Hm in H2. cbn in H2. apply andb_true_iff in H2 as [H2 H3]. split; [by apply Z.eqb_eq|by apply bool_decide_eq_true in H3].
Qed.

(** Node 2 is a slave of the failed master 1 (slot 0), and node 3 (slot 1)
    voted for it, as did node 1 before it failed: it has the two votes it needs. *)
Definition demo_master (failed : bool) (e bits n : Z) (sl : list name) : clusterNode := mk_node true false false failed false false false e bits n sl None 0 0 0 true [].
Definition demo_slave (ms : name) : clusterNode := mk_node false true false false false false false 0 0 0 [] (Some ms) 0 0 0 true [].
Definition demo_view : clusterState :=
  mk_cluster [2] 5 0 true 2 (list_to_map [([1], demo_master true 1 1 1 [[2]]); ([2], demo_slave [1]); ([3], demo_master false 2 2 1 [])]) (list_to_map [(0, [1]); (1, [3])]) ∅ ∅
    (mk_election 1000 2 true 0 5) (mk_manual 0 None 0 false) 0 0 0 0.
Definition demo_env : environment := mk_env 1100 1 0 15000 false 10 10 true true 1 1 0 0 (fun _ => 0) false.

(** A pong of node 3 with epoch 7 that claims the slots 0 to 2. *)
Definition demo_pong : clusterMsg := mk_msg CLUSTERMSG_TYPE_PONG [3] 7 None false 7 7 0 false false.

Lemma demo_view_wf : view_wf demo_view.
Proof. apply view_check_wf. vm_compute. reflexivity. Qed.

Lemma cluster_view_safe_witness : exists st, rtc view_step demo_view st /\ cslots st !! 0 = Some [3] /\ view_wf st /\ is_Some (view_handle demo_env st Attempt).
Proof.
  destruct (view_handle demo_env demo_view (Receive demo_pong)) as [st|] eqn:E; [|by vm_compute in E].
  assert (rtc view_step demo_view st) as Hr by (eapply rtc_l; [by apply (view_step_intro demo_env (Receive demo_pong))|apply rtc_refl]).
  exists st. split; [done|]. destruct (cluster_view_safe demo_view st demo_view_wf Hr) as [H1 H2]. split; [|split; [done|by apply H2]].
  assert ((fun s => cslots s !! 0) <$> view_handle demo_env demo_view (Receive demo_pong) = Some (Some [3])) as H by (vm_compute; reflexivity). rewrite E in H. by apply (inj Some) in H.
Defined.

Lemma slots_newest_epoch_witness : exists st d, clusterUpdateSlotsConfigWith (fun _ => 0) false demo_view [3] 7 7 = Some (st, d) /\ cslots st !! 0 = Some [3] /\ cslots st !! 3 = None.
Proof.
  destruct (slots_newest_epoch (fun _ => 0) false demo_view [3] 7 7 demo_view_wf) as (st & d & E & _ & H); [eexists; vm_compute; reflexivity|done|].
  exists st, d. split; [done|]. 
  split; [rewrite (H 0)|rewrite (H 3)]; vm_compute; try reflexivity; split; done.
Defined.

Lemma failover_takes_all_slots_witness : exists st out, clusterHandleSlaveFailover demo_env demo_view = Some (st, out, true) /\ cslots st !! 0 = Some [2] /\ cslots st !! 1 = Some [3].
Proof.
  assert (snd <$> clusterHandleSlaveFailover demo_env demo_view = Some true) as H by (vm_compute; reflexivity).
  destruct (clusterHandleSlaveFailover demo_env demo_view) as [[[st out] won]|] eqn:E; [|done]. apply (inj Some) in H. cbn in H. subst won. exists st, out. split; [done|].
  destruct (failover_takes_all_slots demo_env demo_view st out (demo_slave [1]) [1] demo_view_wf) as [_ Hc]; [vm_compute; reflexivity|reflexivity|exact E|]. split; [rewrite (Hc 0)|rewrite (Hc 1)]; vm_compute; reflexivity.
Defined.
