(* ===== verification/Objects.v ===== *)
(** * Redis objects and their reference counts ([object.c])

    The values of the key space and the arguments of commands are reference
    counted objects on the heap.  An object that is not shared may be changed
    in place; the commands decide by its reference count.  The heap maps
    addresses to objects; using an address that is not allocated, a string
    operation on an integer pointer, or a failed assertion gives [None].

    Strings are their bytes: the dynamic strings themselves are the subject of
    [Sds].  Values of other types are opaque here ([PtrOther]), as the commands
    modelled in [Commands] only look at their type.  The fields for eviction
    ([lru]) are left out. *)

From S2P Require Import Prelude Numstr.
From stdpp Require Import options.

Definition OBJ_SHARED_REFCOUNT : Z := 2 ^ 31 - 1.
Definition OBJ_SHARED_INTEGERS : Z := 10000.
Definition OBJ_ENCODING_EMBSTR_SIZE_LIMIT : Z := 44.

Inductive otype := OBJ_STRING | OBJ_LIST | OBJ_SET | OBJ_ZSET | OBJ_HASH | OBJ_MODULE | OBJ_STREAM.
#[export] Instance otype_eq_dec : EqDecision otype.
Proof. solve_decision. Defined.

Inductive oencoding := OBJ_ENCODING_RAW | OBJ_ENCODING_INT | OBJ_ENCODING_EMBSTR | OBJ_ENCODING_OTHER.
#[export] Instance oencoding_eq_dec : EqDecision oencoding.
Proof. solve_decision. Defined.

Inductive optr := PtrInt (v : Z) | PtrSds (s : list Z) | PtrOther (x : Z).

Record redisObject := mk_obj { o_type : otype; o_encoding : oencoding; o_ptr : optr; refcount : Z }.

Abbreviation addr := Z.

Record heap := mk_heap { cells : gmap addr redisObject; brk : addr }.

Definition set_cell (h : heap) (a : addr) (o : redisObject) : heap := mk_heap (<[a := o]> (cells h)) (brk h).
Definition zmalloc (h : heap) (o : redisObject) : heap * addr := (mk_heap (<[brk h := o]> (cells h)) (brk h + 1), brk h).
Definition zfree (h : heap) (a : addr) : heap := mk_heap (delete a (cells h)) (brk h).

(** The shared objects have the first addresses: the integers, then DEL. *)
Definition shared_integers (v : Z) : addr := v.
Definition shared_del : addr := OBJ_SHARED_INTEGERS.
Definition DEL_name : list Z := [68; 69; 76].

Definition createSharedObjects : heap :=
  mk_heap (<[shared_del := mk_obj OBJ_STRING OBJ_ENCODING_EMBSTR (PtrSds DEL_name) OBJ_SHARED_REFCOUNT]>
            (list_to_map (map (fun v => (shared_integers v, mk_obj OBJ_STRING OBJ_ENCODING_INT (PtrInt v) OBJ_SHARED_REFCOUNT))
                              (map Z.of_nat (seq 0 (Z.to_nat OBJ_SHARED_INTEGERS))))))
          (OBJ_SHARED_INTEGERS + 1).

(** ** Operations *)

Definition with_refcount (o : redisObject) (n : Z) : redisObject := mk_obj (o_type o) (o_encoding o) (o_ptr o) n.

Definition createObject (h : heap) (type : otype) (ptr : optr) : heap * addr := zmalloc h (mk_obj type OBJ_ENCODING_RAW ptr 1).
Definition createRawStringObject (h : heap) (s : list Z) : heap * addr := createObject h OBJ_STRING (PtrSds s).
Definition createEmbeddedStringObject (h : heap) (s : list Z) : heap * addr := zmalloc h (mk_obj OBJ_STRING OBJ_ENCODING_EMBSTR (PtrSds s) 1).
Definition createStringObject (h : heap) (s : list Z) : heap * addr :=
  if zlen s <=? OBJ_ENCODING_EMBSTR_SIZE_LIMIT then createEmbeddedStringObject h s else createRawStringObject h s.

Definition incrRefCount (h : heap) (a : addr) : option heap :=
  o ← cells h !! a;
  Some (if negb (refcount o =? OBJ_SHARED_REFCOUNT) then set_cell h a (with_refcount o (refcount o + 1)) else h).

Definition decrRefCount (h : heap) (a : addr) : option heap :=
  o ← cells h !! a;
  if refcount o =? 1 then Some (zfree h a) else
  if refcount o <=? 0 then None else
  Some (if negb (refcount o =? OBJ_SHARED_REFCOUNT) then set_cell h a (with_refcount o (refcount o - 1)) else h).

(** [private] stands for the eviction policies that need the age of each
    value ([maxmemory != 0] and [MAXMEMORY_FLAG_NO_SHARED_INTEGERS]). *)
Definition createStringObjectFromLongLongWithOptions (private : bool) (h : heap) (value : Z) (valueobj : bool) : option (heap * addr) :=
  let valueobj := if negb private then false else valueobj in
  if (0 <=? value) && (value <? OBJ_SHARED_INTEGERS) && negb valueobj then
    h ← incrRefCount h (shared_integers value);
    Some (h, shared_integers value)
  else if (LONG_MIN <=? value) && (value <=? LONG_MAX) then
    let '(h, a) := createObject h OBJ_STRING (PtrInt 0) in
    Some (set_cell h a (mk_obj OBJ_STRING OBJ_ENCODING_INT (PtrInt value) 1), a)
  else Some (createObject h OBJ_STRING (PtrSds (ld_text value))).

Definition createStringObjectFromLongLongForValue (private : bool) (h : heap) (value : Z) : option (heap * addr) :=
  createStringObjectFromLongLongWithOptions private h value true.

Definition sdsEncodedObject (o : redisObject) : bool :=
  match o_encoding o with OBJ_ENCODING_RAW | OBJ_ENCODING_EMBSTR => true | _ => false end.

Definition sds_of (o : redisObject) : option (list Z) := match o_ptr o with PtrSds s => Some s | _ => None end.
Definition long_of (o : redisObject) : option Z := match o_ptr o with PtrInt v => Some v | _ => None end.

(** The last attempt, trimming the free space of the string, keeps its bytes. *)
Definition tryObjectEncoding (private : bool) (h : heap) (a : addr) : option (heap * addr) :=
  o ← cells h !! a;
  if negb (bool_decide (o_type o = OBJ_STRING)) then None else
  if negb (sdsEncodedObject o) then Some (h, a) else
  if refcount o >? 1 then Some (h, a) else
  s ← sds_of o;
  match (if zlen s <=? 20 then string2l s else None) with
  | Some value =>
    if negb private && (0 <=? value) && (value <? OBJ_SHARED_INTEGERS) then
      h ← decrRefCount h a;
      h ← incrRefCount h (shared_integers value);
      Some (h, shared_integers value)
    else Some (set_cell h a (mk_obj (o_type o) OBJ_ENCODING_INT (PtrInt value) (refcount o)), a)
  | None =>
    if zlen s <=? OBJ_ENCODING_EMBSTR_SIZE_LIMIT then
      if bool_decide (o_encoding o = OBJ_ENCODING_EMBSTR) then Some (h, a) else
      let '(h, emb) := createEmbeddedStringObject h s in
      h ← decrRefCount h a;
      Some (h, emb)
    else Some (h, a)
  end.

(** [ll2string] into a buffer of the stack. *)
Definition ll_buf (n v : Z) : option (list Z) :=
  '(b, len) ← ll2string (replicate (Z.to_nat n) 0) n v;
  mread b 0 len.

Definition getDecodedObject (h : heap) (a : addr) : option (heap * addr) :=
  o ← cells h !! a;
  if sdsEncodedObject o then h ← incrRefCount h a; Some (h, a) else
  if bool_decide (o_type o = OBJ_STRING) && bool_decide (o_encoding o = OBJ_ENCODING_INT) then
    v ← long_of o;
    s ← ll_buf 32 v;
    Some (createStringObject h s)
  else None.

(** [compareStringObjects(a,b) == 0]: a pointer to itself, or the same bytes up
    to the length of the shorter one and a difference of the lengths, a
    [size_t] returned as an [int], that is 0. *)
Definition bytes_to_compare (o : redisObject) : option (list Z) :=
  if sdsEncodedObject o then sds_of o else v ← long_of o; ll_buf 128 v.

Definition same_bytes (s t : list Z) : bool :=
  let minlen := Nat.min (length s) (length t) in
  bool_decide (take minlen s = take minlen t) && (swrap 32 (zlen s - zlen t) =? 0)%Z.

Definition compareStringObjects (h : heap) (a b : addr) : option bool :=
  oa ← cells h !! a;
  ob ← cells h !! b;
  if negb (bool_decide (o_type oa = OBJ_STRING) && bool_decide (o_type ob = OBJ_STRING)) then None else
  if (a =? b)%Z then Some true else
  s ← bytes_to_compare oa;
  t ← bytes_to_compare ob;
  Some (same_bytes s t).

Definition equalStringObjects (h : heap) (a b : addr) : option bool :=
  oa ← cells h !! a;
  ob ← cells h !! b;
  if bool_decide (o_encoding oa = OBJ_ENCODING_INT) && bool_decide (o_encoding ob = OBJ_ENCODING_INT) then
    v ← long_of oa;
    w ← long_of ob;
    Some (v =? w)%Z
  else compareStringObjects h a b.

Definition stringObjectLen (h : heap) (a : addr) : option Z :=
  o ← cells h !! a;
  if negb (bool_decide (o_type o = OBJ_STRING)) then None else
  if sdsEncodedObject o then s ← sds_of o; Some (zlen s) else v ← long_of o; Some (sdigits10 v).

(** The result is [C_ERR] or the number. *)
Definition getLongLongFromObject (h : heap) (a : option addr) : option (option Z) :=
  match a with
  | None => Some (Some 0)
  | Some a =>
    o ← cells h !! a;
    if negb (bool_decide (o_type o = OBJ_STRING)) then None else
    if sdsEncodedObject o then s ← sds_of o; Some (string2ll s) else
    if bool_decide (o_encoding o = OBJ_ENCODING_INT) then v ← long_of o; Some (Some v) else None
  end.

(** ** The contents of objects *)

Inductive value := VString (s : list Z) | VOther (t : otype) (x : Z).

Definition value_of (o : redisObject) : value :=
  match o_ptr o with PtrSds s => VString s | PtrInt v => VString (ld_text v) | PtrOther x => VOther (o_type o) x end.

Definition value_at (h : heap) (a : addr) : option value := value_of <$> cells h !! a.

(** An object apart from its count. *)
Definition repr_at (h : heap) (a : addr) : option (otype * oencoding * optr) := (fun o => (o_type o, o_encoding o, o_ptr o)) <$> cells h !! a.

Lemma repr_value h h' a a' : repr_at h' a' = repr_at h a -> value_at h' a' = value_at h a.
Proof. unfold repr_at, value_at. destruct (cells h' !! a') as [o'|], (cells h !! a) as [o|]; cbn; [|done..]. intros [= E1 E2 E3]. unfold value_of. by rewrite E1, E3. Qed.

Definition object_ok (o : redisObject) : Prop :=
  match o_ptr o with
  | PtrInt v => o_type o = OBJ_STRING /\ o_encoding o = OBJ_ENCODING_INT /\ in_s 64 v
  | PtrSds s => o_type o = OBJ_STRING /\ sdsEncodedObject o = true
  | PtrOther x => o_type o <> OBJ_STRING /\ o_encoding o = OBJ_ENCODING_OTHER
  end.

(** ** The counts are exact *)

(** The number of references to [a] among [refs]. *)
Definition count (a : addr) (refs : list addr) : Z := zlen (filter (fun b => b = a) refs).

(** [refs] are all the references to objects, with repetitions: no object is
    referred to after it was freed, the count of every object that is not
    shared is the number of its references, and no object without references
    is left. *)
Record heap_ok (h : heap) (refs : list addr) : Prop := {
  ho_object a o : cells h !! a = Some o -> a < brk h /\ object_ok o;
  ho_count a o : cells h !! a = Some o -> refcount o = OBJ_SHARED_REFCOUNT \/ refcount o = count a refs /\ 0 < count a refs;
  ho_live a : a ∈ refs -> is_Some (cells h !! a);
  ho_integers v : 0 <= v < OBJ_SHARED_INTEGERS -> cells h !! shared_integers v = Some (mk_obj OBJ_STRING OBJ_ENCODING_INT (PtrInt v) OBJ_SHARED_REFCOUNT);
  ho_del : cells h !! shared_del = Some (mk_obj OBJ_STRING OBJ_ENCODING_EMBSTR (PtrSds DEL_name) OBJ_SHARED_REFCOUNT);
}.

Lemma count_nil a : count a [] = 0.
Proof. done. Qed.

Lemma count_cons a b l : count a (b :: l) = (if decide (b = a) then 1 else 0) + count a l.
Proof. unfold count. rewrite filter_cons. case_decide; [by rewrite zlen_cons|done]. Qed.

Lemma count_app a l k : count a (l ++ k) = count a l + count a k.
Proof. unfold count. by rewrite filter_app, zlen_app. Qed.

#[export] Instance count_proper a : Proper ((≡ₚ) ==> (=)) (count a).
Proof. intros l k E. unfold count, zlen. by rewrite E. Qed.

Lemma count_nonneg a l : 0 <= count a l.
Proof. apply zlen_nonneg. Qed.

Lemma count_pos a l : 0 < count a l <-> a ∈ l.
Proof.
  induction l as [|b l IH]; [rewrite count_nil, elem_of_nil; lia|]. rewrite count_cons, elem_of_cons, <- IH. pose proof (count_nonneg a l). case_decide as E; [|naive_solver lia].
  split; [intros; by left|lia].
Qed.

#[export] Instance heap_ok_proper h : Proper ((≡ₚ) ==> iff) (heap_ok h).
Proof.
  assert (forall l k, l ≡ₚ k -> heap_ok h l -> heap_ok h k) as H; [|intros l k E; split; [by apply H|by apply H; symmetry]].
  intros l k E [H1 H2 H3 H4 H5]. constructor; [done| |intros a; rewrite <- E; apply H3|done|done]. intros a o Ha. rewrite <- E. by apply H2.
Qed.

(** The holders of [refs] see the same objects. *)
Definition keeps_values (refs : list addr) (h h' : heap) : Prop := forall a, a ∈ refs -> repr_at h' a = repr_at h a.

Lemma keeps_values_refl refs h : keeps_values refs h h.
Proof. done. Qed.

Lemma keeps_value refs h h' a : keeps_values refs h h' -> a ∈ refs -> value_at h' a = value_at h a.
Proof. intros K Ha. by apply repr_value, K. Qed.

Lemma keeps_values_trans refs h1 h2 h3 : keeps_values refs h1 h2 -> keeps_values refs h2 h3 -> keeps_values refs h1 h3.
Proof. intros H1 H2 a Ha. by rewrite H2, H1. Qed.

Lemma keeps_values_sub refs refs' h h' : (forall a, a ∈ refs' -> a ∈ refs) -> keeps_values refs h h' -> keeps_values refs' h h'.
Proof. intros Hs H a Ha. by apply H, Hs. Qed.

Lemma shared_cell h refs a o : heap_ok h refs -> cells h !! a = Some o -> refcount o <> OBJ_SHARED_REFCOUNT -> ~ (0 <= a < OBJ_SHARED_INTEGERS) /\ a <> shared_del.
Proof.
  intros Hok Ha Hn. split.
  - intros Hr. pose proof (ho_integers h refs Hok a Hr) as H. unfold shared_integers in H. rewrite Ha in H. injection H as ->. by apply Hn.
  - intros ->. pose proof (ho_del h refs Hok) as H. rewrite Ha in H. injection H as ->. by apply Hn.
Qed.

(** Changing one object that is not shared. *)
Lemma heap_ok_set h refs refs' a o o' :
  heap_ok h refs -> cells h !! a = Some o -> refcount o <> OBJ_SHARED_REFCOUNT -> object_ok o' -> refcount o' = count a refs' -> 0 < count a refs' ->
  (forall b, b <> a -> count b refs' = count b refs) -> heap_ok (set_cell h a o') refs'.
Proof.
  intros Hok Ha Hn Ho' Hc Hp Hb. destruct (shared_cell h refs a o Hok Ha Hn) as [Hni Hnd]. constructor; cbn.
  - intros b x Hx. destruct (decide (a = b)) as [->|Hne]; [rewrite lookup_insert_eq in Hx; injection Hx as <-; split; [by apply (ho_object h refs Hok b o)|done]|].
    rewrite lookup_insert_ne in Hx by done. by apply (ho_object h refs Hok b x).
  - intros b x Hx. destruct (decide (a = b)) as [->|Hne]; [rewrite lookup_insert_eq in Hx; injection Hx as <-; right; by split|].
    rewrite lookup_insert_ne in Hx by done. rewrite Hb by done. by apply (ho_count h refs Hok b x).
  - intros b Hr. destruct (decide (a = b)) as [->|Hne]; [rewrite lookup_insert_eq; by eexists|]. rewrite lookup_insert_ne by done.
    apply (ho_live h refs Hok). apply count_pos. rewrite <- Hb by done. by apply count_pos.
  - intros v Hv. rewrite lookup_insert_ne by (unfold shared_integers; intros ->; lia). by apply (ho_integers h refs Hok).
  - rewrite lookup_insert_ne by done. by apply (ho_del h refs Hok).
Qed.

(** An extra reference to a shared object changes nothing. *)
Lemma heap_ok_shared h refs a o : heap_ok h refs -> cells h !! a = Some o -> refcount o = OBJ_SHARED_REFCOUNT -> heap_ok h (a :: refs).
Proof.
  intros Hok Ha Hs. constructor; [apply (ho_object h refs Hok)| | |apply (ho_integers h refs Hok)|apply (ho_del h refs Hok)].
  - intros b x Hx. rewrite count_cons. destruct (decide (a = b)) as [->|Hne]; [left; congruence|]. rewrite Z.add_0_l. by apply (ho_count h refs Hok).
  - intros b [->|Hb]%elem_of_cons; [by eexists|by apply (ho_live h refs Hok)].
Qed.

Lemma incrRefCount_ok h refs a :
  heap_ok h refs -> is_Some (cells h !! a) -> exists h', incrRefCount h a = Some h' /\ heap_ok h' (a :: refs) /\ (forall b, repr_at h' b = repr_at h b) /\ brk h' = brk h.
Proof.
  intros Hok [o Ha]. unfold incrRefCount. rewrite Ha. cbn [mbind option_bind]. eexists. split; [reflexivity|]. destruct (Z.eqb_spec (refcount o) OBJ_SHARED_REFCOUNT) as [E|E]; cbn [negb].
  - split; [by eapply heap_ok_shared|done].
  - pose proof (ho_count h refs Hok a o Ha) as [?|[Hc Hp]]; [done|]. split; [|split; [|done]].
    + eapply heap_ok_set; [done|done|done|exact (proj2 (ho_object h refs Hok a o Ha))| | |]; rewrite ?count_cons, ?decide_True by done; [cbn; lia|lia|]. intros b Hb. rewrite count_cons, decide_False by done. lia.
    + intros b. unfold repr_at. cbn. destruct (decide (a = b)) as [->|Hne]; [by rewrite lookup_insert_eq, Ha|by rewrite lookup_insert_ne].
Qed.

Lemma heap_ok_drop h refs a o : heap_ok h (a :: refs) -> cells h !! a = Some o -> refcount o = OBJ_SHARED_REFCOUNT -> heap_ok h refs.
Proof.
  intros Hok Ha Hs. constructor; [apply (ho_object h _ Hok)| | |apply (ho_integers h _ Hok)|apply (ho_del h _ Hok)].
  - intros b x Hx. destruct (decide (a = b)) as [->|Hne]; [left; congruence|]. pose proof (ho_count h _ Hok b x Hx) as H. rewrite count_cons, decide_False in H by done. by rewrite Z.add_0_l in H.
  - intros b Hb. apply (ho_live h _ Hok). by right.
Qed.

Lemma decrRefCount_ok h refs a :
  heap_ok h (a :: refs) -> exists h', decrRefCount h a = Some h' /\ heap_ok h' refs /\ keeps_values refs h h' /\ brk h' = brk h.
Proof.
  intros Hok. destruct (ho_live h _ Hok a) as [o Ha]; [left|]. unfold decrRefCount. rewrite Ha. cbn [mbind option_bind].
  pose proof (ho_count h _ Hok a o Ha) as Hc. rewrite count_cons, decide_True in Hc by done. pose proof (count_nonneg a refs) as Hnn.
  destruct (Z.eqb_spec (refcount o) 1) as [E1|E1].
  { destruct Hc as [Hc|[Hc _]]; [rewrite E1 in Hc; done|]. assert (count a refs = 0) as H0 by lia. assert (a ∉ refs) as Hni by (rewrite <- count_pos; lia).
    destruct (shared_cell h _ a o Hok Ha) as [Hs1 Hs2]; [by rewrite E1|]. eexists. split; [reflexivity|]. split; [constructor; cbn|split; [|done]].
    - intros b x Hx. apply lookup_delete_Some in Hx as [_ Hx]. by apply (ho_object h _ Hok).
    - intros b x Hx. apply lookup_delete_Some in Hx as [Hne Hx]. pose proof (ho_count h _ Hok b x Hx) as H. rewrite count_cons, decide_False in H by done. by rewrite Z.add_0_l in H.
    - intros b Hb. rewrite lookup_delete_ne by (intros ->; done). apply (ho_live h _ Hok). by right.
    - intros v Hv. rewrite lookup_delete_ne by (unfold shared_integers; intros ->; lia). by apply (ho_integers h _ Hok).
    - rewrite lookup_delete_ne by done. by apply (ho_del h _ Hok).
    - intros b Hb. unfold repr_at. cbn. by rewrite lookup_delete_ne by (intros ->; done). }
  destruct (Z.leb_spec (refcount o) 0) as [E0|E0]; [destruct Hc as [Hc|[Hc _]]; [rewrite Hc in E0; done|lia]|]. eexists. split; [reflexivity|].
  destruct (Z.eqb_spec (refcount o) OBJ_SHARED_REFCOUNT) as [E|E]; cbn [negb]; [split; [by eapply heap_ok_drop|done]|].
  destruct Hc as [?|[Hc _]]; [done|]. split; [|split; [|done]].
  - eapply heap_ok_set; [done|done|done|exact (proj2 (ho_object h _ Hok a o Ha))|cbn; lia|lia|]. intros b Hb. rewrite count_cons, decide_False by done. lia.
  - intros b _. unfold repr_at. cbn. destruct (decide (a = b)) as [->|Hne]; [by rewrite lookup_insert_eq, Ha|by rewrite lookup_insert_ne].
Qed.

(** A new object. *)
Lemma zmalloc_ok h refs o :
  heap_ok h refs -> object_ok o -> refcount o = 1 -> exists h' a, zmalloc h o = (h', a) /\ heap_ok h' (a :: refs) /\ keeps_values refs h h' /\ cells h' !! a = Some o /\ a ∉ refs.
Proof.
  intros Hok Ho H1. eexists _, _. split; [reflexivity|]. assert (cells h !! brk h = None) as Hf.
  { destruct (cells h !! brk h) as [x|] eqn:E; [|done]. apply (ho_object h refs Hok) in E as [? _]. lia. }
  assert (brk h ∉ refs) as Hni by (intros Hi; apply (ho_live h refs Hok) in Hi as [x Hx]; congruence).
  assert (count (brk h) refs = 0) as H0. { pose proof (count_nonneg (brk h) refs). destruct (decide (count (brk h) refs = 0)); [done|]. exfalso. apply Hni, count_pos. lia. }
  split; [constructor; cbn|split; [|split; [cbn; by rewrite lookup_insert_eq|done]]].
  - intros b x Hx. destruct (decide (brk h = b)) as [<-|Hne]; [rewrite lookup_insert_eq in Hx; injection Hx as <-; split; [lia|done]|]. rewrite lookup_insert_ne in Hx by done.
    apply (ho_object h refs Hok) in Hx as [? ?]. split; [lia|done].
  - intros b x Hx. rewrite count_cons. destruct (decide (brk h = b)) as [<-|Hne]; [rewrite lookup_insert_eq in Hx; injection Hx as <-; right; lia|].
    rewrite lookup_insert_ne in Hx by done. rewrite Z.add_0_l. by apply (ho_count h refs Hok).
  - intros b [->|Hb]%elem_of_cons; [rewrite lookup_insert_eq; by eexists|]. rewrite lookup_insert_ne by (intros <-; done). by apply (ho_live h refs Hok).
  - intros v Hv. pose proof (ho_integers h refs Hok v Hv) as H. rewrite lookup_insert_ne; [done|]. intros E. rewrite E in Hf. congruence.
  - pose proof (ho_del h refs Hok) as H. rewrite lookup_insert_ne; [done|]. intros E. rewrite E in Hf. congruence.
  - intros b Hb. unfold repr_at. cbn. by rewrite lookup_insert_ne by (intros <-; done).
Qed.

(** ** Strings *)

(** The two representations of a string. *)
Lemma string_cases h refs a s :
  heap_ok h refs -> value_at h a = Some (VString s) -> exists o, cells h !! a = Some o /\ o_type o = OBJ_STRING /\
    ((exists v, o_encoding o = OBJ_ENCODING_INT /\ o_ptr o = PtrInt v /\ s = ld_text v /\ in_s 64 v) \/ (sdsEncodedObject o = true /\ o_ptr o = PtrSds s)).
Proof.
  intros Hok Hv. unfold value_at in Hv. destruct (cells h !! a) as [o|] eqn:Ha; [|done]. apply (inj Some) in Hv. exists o. split; [done|].
  pose proof (proj2 (ho_object h refs Hok a o Ha)) as Ho. unfold object_ok, value_of in *. destruct (o_ptr o) as [v|s'|x]; [|injection Hv as ->|done].
  - destruct Ho as (H1 & H2 & H3). split; [done|]. left. exists v. injection Hv as <-. done.
  - destruct Ho as [H1 H2]. split; [done|]. by right.
Qed.

Lemma int_not_sds o : o_encoding o = OBJ_ENCODING_INT -> sdsEncodedObject o = false.
Proof. intros E. unfold sdsEncodedObject. by rewrite E. Qed.

Lemma stringObjectLen_ok h refs a s : heap_ok h refs -> value_at h a = Some (VString s) -> stringObjectLen h a = Some (zlen s).
Proof.
  intros Hok Hv. destruct (string_cases h refs a s Hok Hv) as (o & Ha & Ht & Hc). unfold stringObjectLen. rewrite Ha. cbn [mbind option_bind]. rewrite bool_decide_eq_true_2 by done. cbn [negb].
  destruct Hc as [(v & He & Hp & -> & Hv64)|[He Hp]].
  - rewrite int_not_sds by done. unfold long_of. rewrite Hp. cbn [mbind option_bind]. by rewrite (proj2 (ld_text_len v Hv64)).
  - rewrite He. unfold sds_of. by rewrite Hp.
Qed.

Lemma getLongLongFromObject_ok h refs a s : heap_ok h refs -> value_at h a = Some (VString s) -> getLongLongFromObject h (Some a) = Some (string2ll s).
Proof.
  intros Hok Hv. destruct (string_cases h refs a s Hok Hv) as (o & Ha & Ht & Hc). unfold getLongLongFromObject. rewrite Ha. cbn [mbind option_bind]. rewrite bool_decide_eq_true_2 by done. cbn [negb].
  destruct Hc as [(v & He & Hp & -> & Hv64)|[He Hp]].
  - rewrite int_not_sds, bool_decide_eq_true_2 by done. unfold long_of. rewrite Hp. cbn [mbind option_bind]. by rewrite string2ll_text.
  - rewrite He. unfold sds_of. by rewrite Hp.
Qed.

Lemma ll_buf_ok n v : in_s 64 v -> 21 <= n -> ll_buf n v = Some (ld_text v).
Proof.
  intros Hv Hn. unfold ll_buf. assert (zlen (replicate (Z.to_nat n) 0) = n) as Hz by (rewrite zlen_replicate; lia).
  destruct (ll2string_text (replicate (Z.to_nat n) 0) v Hv) as (d & E & _ & Hr); [lia|]. rewrite Hz in E. rewrite E. done.
Qed.

Lemma new_string_ok h refs e s :
  heap_ok h refs -> e = OBJ_ENCODING_RAW \/ e = OBJ_ENCODING_EMBSTR ->
  exists h' a, zmalloc h (mk_obj OBJ_STRING e (PtrSds s) 1) = (h', a) /\ heap_ok h' (a :: refs) /\ keeps_values refs h h' /\ cells h' !! a = Some (mk_obj OBJ_STRING e (PtrSds s) 1) /\ a ∉ refs.
Proof. intros Hok He. apply zmalloc_ok; [done| |done]. split; [done|]. by destruct He as [->| ->]. Qed.

Lemma createStringObject_ok h refs s :
  heap_ok h refs -> exists h' a, createStringObject h s = (h', a) /\ heap_ok h' (a :: refs) /\ keeps_values refs h h' /\
    exists e, (e = OBJ_ENCODING_RAW \/ e = OBJ_ENCODING_EMBSTR) /\ cells h' !! a = Some (mk_obj OBJ_STRING e (PtrSds s) 1) /\ a ∉ refs.
Proof.
  intros Hok. unfold createStringObject, createEmbeddedStringObject, createRawStringObject, createObject.
  destruct (_ <=? _); [destruct (new_string_ok h refs OBJ_ENCODING_EMBSTR s Hok) as (h' & a & E & H1 & H2 & H3); [tauto|]|destruct (new_string_ok h refs OBJ_ENCODING_RAW s Hok) as (h' & a & E & H1 & H2 & H3); [tauto|]];
    exists h', a; (split; [done|]); (split; [done|]); (split; [done|]); eexists; (split; [|done]); tauto.
Qed.

Lemma FromLongLong_ok private h refs v b :
  heap_ok h refs -> in_s 64 v ->
  exists h' a, createStringObjectFromLongLongWithOptions private h v b = Some (h', a) /\ heap_ok h' (a :: refs) /\ keeps_values refs h h' /\ value_at h' a = Some (VString (ld_text v)).
Proof.
  intros Hok Hv. unfold createStringObjectFromLongLongWithOptions. set (c := _ && _ && _). destruct c eqn:Ec; subst c.
  - apply andb_true_iff in Ec as [Ec _]. assert (0 <= v < OBJ_SHARED_INTEGERS) as Hr by lia. pose proof (ho_integers h refs Hok v Hr) as Hi.
    destruct (incrRefCount_ok h refs (shared_integers v) Hok) as (h' & -> & H1 & H2 & _); [by eexists|]. cbn [mbind option_bind]. exists h', (shared_integers v). split; [done|]. split; [done|].
    split; [intros a _; apply H2|]. rewrite (repr_value _ _ _ _ (H2 _)). unfold value_at. by rewrite Hi.
  - assert ((LONG_MIN <=? v) && (v <=? LONG_MAX) = true) as -> by (unfold LONG_MIN, LONG_MAX in *; unfold in_s in Hv; lia).
    unfold createObject. destruct (zmalloc_ok h refs (mk_obj OBJ_STRING OBJ_ENCODING_INT (PtrInt v) 1) Hok) as (h' & a & E & H1 & H2 & H3 & H4); [done|done|].
    unfold zmalloc in *. injection E as <- <-. eexists _, _. split; [reflexivity|]. unfold set_cell. cbn in *. rewrite insert_insert_eq. split; [done|]. split; [done|].
    unfold value_at. cbn. by rewrite lookup_insert_eq.
Qed.

Lemma tryObjectEncoding_ok private h refs a s :
  heap_ok h (a :: refs) -> value_at h a = Some (VString s) ->
  exists h' a', tryObjectEncoding private h a = Some (h', a') /\ heap_ok h' (a' :: refs) /\ keeps_values refs h h' /\ value_at h' a' = Some (VString s).
Proof.
  intros Hok Hv. destruct (string_cases h _ a s Hok Hv) as (o & Ha & Ht & Hc). unfold tryObjectEncoding. rewrite Ha. cbn [mbind option_bind]. rewrite bool_decide_eq_true_2 by done. cbn [negb].
  destruct Hc as [(v & He & _)|[He Hp]]; [rewrite int_not_sds by done; by exists h, a|]. rewrite He. cbn [negb]. destruct (Z.gtb_spec (refcount o) 1) as [|Hrc]; [by exists h, a|].
  unfold sds_of. rewrite Hp. cbn [mbind option_bind].
  assert (refcount o = 1 /\ count a refs = 0) as [H1 H0].
  { pose proof (ho_count h _ Hok a o Ha) as [Hs|[H1 _]]; [unfold OBJ_SHARED_REFCOUNT in Hs; lia|]. rewrite count_cons, decide_True in H1 by done. pose proof (count_nonneg a refs). lia. }
  assert (a ∉ refs) as Hni by (rewrite <- count_pos; lia).
  set (n := if zlen s <=? 20 then string2l s else None). destruct n as [v|] eqn:En; subst n.
  - assert (string2ll s = Some v) as Hs by (destruct (_ <=? _); [by rewrite <- string2l_string2ll|done]). pose proof (text_string2ll s v Hs) as Es. pose proof (proj2 (proj1 (string2ll_spec s v) Hs)) as Hv64.
    set (c := _ && _ && _). destruct c eqn:Ec; subst c.
    + assert (0 <= v < OBJ_SHARED_INTEGERS) as Hr by lia. destruct (decrRefCount_ok h refs a Hok) as (h1 & -> & Hok1 & K1 & _). cbn [mbind option_bind].
      pose proof (ho_integers h1 refs Hok1 v Hr) as Hi. destruct (incrRefCount_ok h1 refs (shared_integers v) Hok1) as (h2 & -> & Hok2 & K2 & _); [by eexists|]. cbn [mbind option_bind].
      exists h2, (shared_integers v). split; [done|]. split; [done|]. split; [intros b Hb; rewrite K2; by apply K1|]. rewrite (repr_value _ _ _ _ (K2 _)). unfold value_at. rewrite Hi. cbn. by rewrite Es.
    + eexists _, _. split; [reflexivity|]. assert (count a (a :: refs) = 1) as Hc1 by (rewrite count_cons, decide_True by done; lia). split.
      * eapply heap_ok_set; [done|done|by rewrite H1|rewrite Ht; done|cbn; by rewrite Hc1|lia|done].
      * split; [intros b Hb; unfold repr_at; cbn; by rewrite lookup_insert_ne by (intros ->; done)|]. unfold value_at. cbn. rewrite lookup_insert_eq. cbn. by rewrite Es.
  - destruct (zlen s <=? OBJ_ENCODING_EMBSTR_SIZE_LIMIT); [|by exists h, a]. case_bool_decide; [by exists h, a|]. unfold createEmbeddedStringObject.
    destruct (new_string_ok h (a :: refs) OBJ_ENCODING_EMBSTR s Hok) as (h1 & b & -> & Hok1 & K1 & Hb & _); [tauto|].
    destruct (decrRefCount_ok h1 (b :: refs) a) as (h2 & -> & Hok2 & K2 & _); [eapply heap_ok_proper; [|exact Hok1]; apply Permutation_swap|]. cbn [mbind option_bind].
    exists h2, b. split; [done|]. split; [done|]. split; [|rewrite (repr_value h1 h2 b b) by (apply K2; left); unfold value_at; by rewrite Hb]. intros x Hx. rewrite K2 by (by right). apply K1. by right.
Qed.

Lemma getDecodedObject_ok h refs a s :
  heap_ok h refs -> value_at h a = Some (VString s) ->
  exists h' d o, getDecodedObject h a = Some (h', d) /\ heap_ok h' (d :: refs) /\ keeps_values refs h h' /\ cells h' !! d = Some o /\ o_ptr o = PtrSds s.
Proof.
  intros Hok Hv. destruct (string_cases h refs a s Hok Hv) as (o & Ha & Ht & Hc). unfold getDecodedObject. rewrite Ha. cbn [mbind option_bind].
  destruct Hc as [(v & He & Hp & -> & Hv64)|[He Hp]].
  - rewrite int_not_sds, !bool_decide_eq_true_2 by done. cbn [andb]. unfold long_of. rewrite Hp. cbn [mbind option_bind]. rewrite ll_buf_ok by (done || lia). cbn [mbind option_bind].
    destruct (createStringObject_ok h refs (ld_text v) Hok) as (h' & d & -> & H1 & H2 & e & _ & H3 & _). by exists h', d, (mk_obj OBJ_STRING e (PtrSds (ld_text v)) 1).
  - rewrite He. unfold incrRefCount. rewrite Ha. cbn [mbind option_bind]. destruct (incrRefCount_ok h refs a Hok) as (h' & E & H1 & H2 & _); [by eexists|].
    unfold incrRefCount in E. rewrite Ha in E. cbn [mbind option_bind] in E. injection E as E. rewrite E.
    exists h', a, (if negb (refcount o =? OBJ_SHARED_REFCOUNT) then with_refcount o (refcount o + 1) else o). split; [done|]. split; [done|]. split; [intros b _; apply H2|].
    rewrite <- E. destruct (negb _); [cbn; by rewrite lookup_insert_eq|done].
Qed.
