(* ===== verification/Db.v ===== *)
(** * The key space ([db.c], the keys watched by transactions of [multi.c])

    The state of the server that commands work on: the heap of objects, the
    databases, the clients, and the client and arguments of the command being
    executed.  Operations are written in a state monad with failure: [None]
    stands for a failed assertion or an access to memory that is not
    allocated.

    A database is designated by its index, a client by a number, and the keys
    of the dictionaries are strings, copies of the argument as in the code;
    the tables of watched keys hold the key objects themselves.
    Databases are maps here; that the hash tables are maps is the subject of
    [Dict].  The clock is read once per command.  [propagated] collects what is
    sent to the append only file and to the replicas.

    Left out: the options that free memory in the background (off by default),
    the statistics and key space notifications, keys that clients block on,
    and the table of the keys of a writable replica. *)

From S2P Require Import Prelude Numstr Objects.
From stdpp Require Import strings options.
#[local] Open Scope Z_scope.

Abbreviation key := (list Z).

(** [watched_keys] maps a key to the key object of the entry and the clients. *)
Record redisDb := mk_db {
  dict : gmap key addr;
  expires : gmap key Z;
  watched_keys : gmap key (addr * list Z);
}.

(** What is sent back to a client. *)
Inductive reply :=
  | R_ok | R_queued | R_nullbulk | R_nullmultibulk | R_emptybulk
  | R_int (v : Z) | R_colon (s : list Z) | R_bulk (s : list Z) | R_status (s : string) | R_multibulklen (n : Z)
  | R_syntaxerr | R_wrongtypeerr | R_nokeyerr | R_sameobjecterr | R_outofrangeerr | R_execaborterr | R_roslaveerr
  | R_pong | R_noautherr | R_bgsaveerr | R_noreplicaserr | R_masterdownerr
  | R_error (msg : string).

(** The commands modelled in [Commands]. *)
Inductive command :=
  | GET | SET | SETNX | SETEX | PSETEX | GETSET | APPEND | STRLEN | SETRANGE | GETRANGE | MGET | MSET | MSETNX
  | INCR | DECR | INCRBY | DECRBY | DEL | EXISTS | TYPE | TOUCH | RENAME | RENAMENX | MOVE | SWAPDB | SELECT | FLUSHDB | FLUSHALL
  | EXPIRE | PEXPIRE | EXPIREAT | PEXPIREAT | TTL | PTTL | PERSIST | MULTI | EXEC | DISCARD | WATCH | UNWATCH
  | AUTH | PING | ECHO | DBSIZE.
#[export] Instance command_eq_dec : EqDecision command.
Proof. solve_decision. Defined.

(** A queued command: [multiCmd]. *)
Record multiCmd := mk_multi { mc_cmd : command; mc_argv : list addr }.

(** A key that a client watches: the object with its name, and its database. *)
Record watchedKey := mk_wk { wk_key : addr; wk_db : nat }.

Record client := mk_client {
  c_db : nat;
  CLIENT_MULTI : bool;
  CLIENT_DIRTY_CAS : bool;
  CLIENT_DIRTY_EXEC : bool;
  CLIENT_MASTER : bool;
  authenticated : bool;
  CLIENT_CLOSE_AFTER_REPLY : bool;
  mstate : list multiCmd;
  mstate_write : bool;               (* mstate.cmd_flags & CMD_WRITE *)
  c_watched : list watchedKey;
  out : list reply;
}.

Record server := mk_server {
  sheap : heap;
  dbs : list redisDb;
  clients : gmap Z client;
  cur : Z;                           (* the client whose command is executed *)
  cmd : command;                     (* its c->cmd *)
  argv : list addr;                  (* and c->argv *)
  dirty : Z;
  propagated : list (nat * list (list Z));
}.

(** The clock and the configuration. *)
Record env := mk_env {
  mstime : Z;
  masterhost : bool;                 (* masterhost != NULL: this is a replica *)
  repl_slave_ro : bool;
  private_integers : bool;           (* integers are not shared, for eviction *)
  requirepass : option (list Z);
  stop_writes_on_bgsave_err : bool;
  saveparamslen : Z;
  lastbgsave_ok : bool;              (* lastbgsave_status == C_OK *)
  aof_on : bool;                     (* aof_state != AOF_OFF *)
  aof_last_write_ok : bool;          (* aof_last_write_status == C_OK *)
  repl_min_slaves_to_write : Z;
  repl_min_slaves_max_lag : Z;
  repl_good_slaves_count : Z;
  repl_connected : bool;             (* repl_state == REPL_STATE_CONNECTED *)
  repl_serve_stale_data : bool;
  module_type_name : Z -> string;    (* the name of the type of a module's value *)
}.

Section Setters.
Implicit Types (s : server) (c : client).
Definition set_heap s h := mk_server h (dbs s) (clients s) (cur s) (cmd s) (argv s) (dirty s) (propagated s).
Definition set_dbs s l := mk_server (sheap s) l (clients s) (cur s) (cmd s) (argv s) (dirty s) (propagated s).
Definition set_clients s m := mk_server (sheap s) (dbs s) m (cur s) (cmd s) (argv s) (dirty s) (propagated s).
Definition set_cmd s cm l := mk_server (sheap s) (dbs s) (clients s) (cur s) cm l (dirty s) (propagated s).
Definition set_dirty s n := mk_server (sheap s) (dbs s) (clients s) (cur s) (cmd s) (argv s) n (propagated s).
Definition set_propagated s l := mk_server (sheap s) (dbs s) (clients s) (cur s) (cmd s) (argv s) (dirty s) l.
Definition set_cur s n := mk_server (sheap s) (dbs s) (clients s) n (cmd s) (argv s) (dirty s) (propagated s).

Definition c_select c d :=
  mk_client d (CLIENT_MULTI c) (CLIENT_DIRTY_CAS c) (CLIENT_DIRTY_EXEC c) (CLIENT_MASTER c) (authenticated c) (CLIENT_CLOSE_AFTER_REPLY c) (mstate c) (mstate_write c) (c_watched c) (out c).
Definition c_flags c m cas ex :=
  mk_client (c_db c) m cas ex (CLIENT_MASTER c) (authenticated c) (CLIENT_CLOSE_AFTER_REPLY c) (mstate c) (mstate_write c) (c_watched c) (out c).
Definition c_mstate c l w :=
  mk_client (c_db c) (CLIENT_MULTI c) (CLIENT_DIRTY_CAS c) (CLIENT_DIRTY_EXEC c) (CLIENT_MASTER c) (authenticated c) (CLIENT_CLOSE_AFTER_REPLY c) l w (c_watched c) (out c).
Definition c_watch c l :=
  mk_client (c_db c) (CLIENT_MULTI c) (CLIENT_DIRTY_CAS c) (CLIENT_DIRTY_EXEC c) (CLIENT_MASTER c) (authenticated c) (CLIENT_CLOSE_AFTER_REPLY c) (mstate c) (mstate_write c) l (out c).
Definition c_out c l :=
  mk_client (c_db c) (CLIENT_MULTI c) (CLIENT_DIRTY_CAS c) (CLIENT_DIRTY_EXEC c) (CLIENT_MASTER c) (authenticated c) (CLIENT_CLOSE_AFTER_REPLY c) (mstate c) (mstate_write c) (c_watched c) l.
Definition c_auth c b :=
  mk_client (c_db c) (CLIENT_MULTI c) (CLIENT_DIRTY_CAS c) (CLIENT_DIRTY_EXEC c) (CLIENT_MASTER c) b (CLIENT_CLOSE_AFTER_REPLY c) (mstate c) (mstate_write c) (c_watched c) (out c).
Definition c_close c :=
  mk_client (c_db c) (CLIENT_MULTI c) (CLIENT_DIRTY_CAS c) (CLIENT_DIRTY_EXEC c) (CLIENT_MASTER c) (authenticated c) true (mstate c) (mstate_write c) (c_watched c) (out c).
End Setters.

(** ** The monad *)

Definition M (A : Type) : Type := server -> option (A * server).
Definition ret {A} (x : A) : M A := fun s => Some (x, s).
Definition bind {A B} (m : M A) (k : A -> M B) : M B := fun s => match m s with Some (x, s) => k x s | None => None end.
Definition fail {A} : M A := fun _ => None.
Definition gets {A} (f : server -> A) : M A := fun s => Some (f s, s).
Definition modify (f : server -> server) : M unit := fun s => Some (tt, f s).
Definition lift {A} (o : option A) : M A := fun s => match o with Some x => Some (x, s) | None => None end.

Declare Scope db_scope.
Delimit Scope db_scope with db.
Notation "x <- m ; k" := (bind m (fun x => k)) (at level 100, m at next level, k at level 200, right associativity) : db_scope.
Notation "m ;; k" := (bind m (fun _ => k)) (at level 100, k at level 200, right associativity) : db_scope.
#[local] Open Scope db_scope.

(** Operations of [Objects] on the heap of the server. *)
Definition on_heap (f : heap -> option heap) : M unit := fun s => h ← f (sheap s); Some (tt, set_heap s h).
Definition on_heap_new (f : heap -> option (heap * addr)) : M addr := fun s => '(h, a) ← f (sheap s); Some (a, set_heap s h).
Definition read_heap {A} (f : heap -> option A) : M A := fun s => x ← f (sheap s); Some (x, s).

Definition get_obj (a : addr) : M redisObject := read_heap (fun h => cells h !! a).
Definition get_db (d : nat) : M redisDb := s <- gets dbs; lift (s !! d).
Definition put_db (d : nat) (db : redisDb) : M unit := modify (fun s => set_dbs s (<[d := db]> (dbs s))).
Definition get_client (id : Z) : M client := m <- gets clients; lift (m !! id).
Definition put_client (id : Z) (c : client) : M unit := modify (fun s => set_clients s (<[id := c]> (clients s))).
Definition me : M client := id <- gets cur; get_client id.
Definition put_me (c : client) : M unit := id <- gets cur; put_client id c.
(** Nothing is sent back to the master ([prepareClientToWrite]). *)
Definition addReply (r : reply) : M unit := c <- me; put_me (c_out c (if CLIENT_MASTER c then out c else out c ++ [r])).
Definition set_dict (db : redisDb) (m : gmap key addr) : redisDb := mk_db m (expires db) (watched_keys db).
Definition set_expires (db : redisDb) (m : gmap key Z) : redisDb := mk_db (dict db) m (watched_keys db).
Definition set_watched (db : redisDb) (m : gmap key (addr * list Z)) : redisDb := mk_db (dict db) (expires db) m.

(** [c->argv[i]], and its [ptr], a string. *)
Definition arg (i : nat) : M addr := l <- gets argv; lift (l !! i).
Definition arg_sds (i : nat) : M (list Z) := a <- arg i; o <- get_obj a; lift (sds_of o).
Definition put_arg (i : nat) (a : addr) : M unit := l <- gets argv; c <- gets cmd; modify (fun s => set_cmd s c (<[i := a]> l)).
Definition incr (a : addr) : M unit := on_heap (fun h => incrRefCount h a).
Definition decr (a : addr) : M unit := on_heap (fun h => decrRefCount h a).
Definition add_dirty (n : Z) : M unit := d <- gets dirty; modify (fun s => set_dirty s (d + n)).
Definition propagate (d : nat) (args : list (list Z)) : M unit := modify (fun s => set_propagated s (propagated s ++ [(d, args)])).

(** Arithmetic on [long long]; it wraps around where C leaves it undefined. *)
Definition sll (v : Z) : Z := swrap 64 v.

(** A loop over a list. *)
Fixpoint for_each {A} (l : list A) (f : A -> M unit) : M unit :=
  match l with
  | [] => ret tt
  | x :: l => f x;; for_each l f
  end.

(** ** Watched keys *)

Section Db.
Context (e : env).

Definition mark_dirty (id : Z) : M unit :=
  c <- get_client id;
  put_client id (c_flags c (CLIENT_MULTI c) true (CLIENT_DIRTY_EXEC c)).

(** The name that a key object holds. *)
Definition name_of (a : addr) : M key := o <- get_obj a; lift (sds_of o).

(** [dictFetchValue(db->watched_keys, key)]: the comparison with the key of the
    entry reads its object. *)
Definition watchers (db : redisDb) (k : key) : M (option (addr * list Z)) :=
  match watched_keys db !! k with
  | None => ret None
  | Some (a, ids) => name <- name_of a; ret (if bool_decide (name = k) then Some (a, ids) else None)
  end.

Definition touchWatchedKey (d : nat) (k : key) : M unit :=
  db <- get_db d;
  w <- watchers db k;
  match w with
  | None => ret tt
  | Some (_, ids) => for_each ids mark_dirty
  end.

(** Flushing database [dbid] ([None]: all of them) touches the watched keys
    that exist. *)
Definition touch_flushed (dbid : option nat) (id : Z) (wk : watchedKey) : M unit :=
  if bool_decide (dbid = None) || bool_decide (dbid = Some (wk_db wk)) then
    db <- get_db (wk_db wk);
    k <- name_of (wk_key wk);
    if bool_decide (is_Some (dict db !! k)) then mark_dirty id else ret tt
  else ret tt.

Definition touchWatchedKeysOnFlush (dbid : option nat) : M unit :=
  m <- gets clients;
  for_each (map_to_list m) (fun p => for_each (c_watched (snd p)) (touch_flushed dbid (fst p))).

Definition signalModifiedKey (d : nat) (k : key) : M unit := touchWatchedKey d k.
Definition signalFlushedDb (dbid : option nat) : M unit := touchWatchedKeysOnFlush dbid.

(** Is the key already watched in this database? *)
Fixpoint already_watched (a : addr) (d : nat) (l : list watchedKey) : M bool :=
  match l with
  | [] => ret false
  | wk :: l =>
    if negb (bool_decide (wk_db wk = d)) then already_watched a d l else
    same <- read_heap (fun h => equalStringObjects h a (wk_key wk));
    if same : bool then ret true else already_watched a d l
  end.

(** The key object is kept by the new entry of the table, and by the record of
    the client: both count. *)
Definition watchForKey (a : addr) : M unit :=
  c <- me;
  dup <- already_watched a (c_db c) (c_watched c);
  if dup : bool then ret tt else
  k <- name_of a;
  db <- get_db (c_db c);
  w <- watchers db k;
  id <- gets cur;
  match w with
  | None => put_db (c_db c) (set_watched db (<[k := (a, [id])]> (watched_keys db)));; incr a
  | Some (a0, ids) => put_db (c_db c) (set_watched db (<[k := (a0, ids ++ [id])]> (watched_keys db)))
  end;;
  incr a;;
  put_me (c_watch c (c_watched c ++ [mk_wk a (c_db c)])).

(** [listDelNode(clients, listSearchKey(clients, c))]: deleting the NULL that
    the search returns when the client is not there would be an error. *)
Fixpoint list_remove_id (id : Z) (l : list Z) : option (list Z) :=
  match l with
  | [] => None
  | x :: l => if x =? id then Some l else l ← list_remove_id id l; Some (x :: l)
  end.

(** The last client of an entry goes with it: [dictDelete] releases its key. *)
Definition unwatch_key (id : Z) (wk : watchedKey) : M unit :=
  k <- name_of (wk_key wk);
  db <- get_db (wk_db wk);
  w <- watchers db k;
  entry <- lift w;
  ids <- lift (list_remove_id id (snd entry));
  (if zlen ids =? 0 then put_db (wk_db wk) (set_watched db (delete k (watched_keys db)));; decr (fst entry)
   else put_db (wk_db wk) (set_watched db (<[k := (fst entry, ids)]> (watched_keys db))));;
  c <- get_client id;
  put_client id (c_watch c (tail (c_watched c)));;
  decr (wk_key wk).

Definition unwatchAllKeys : M unit :=
  c <- me;
  id <- gets cur;
  for_each (c_watched c) (unwatch_key id).

(** ** Lookup and expiration *)

Definition lookupKey (d : nat) (k : key) : M (option addr) := db <- get_db d; ret (dict db !! k).

Definition getExpire (d : nat) (k : key) : M Z :=
  db <- get_db d;
  match expires db !! k with
  | None => ret (-1)
  | Some when => if bool_decide (is_Some (dict db !! k)) then ret when else fail
  end.

Definition keyIsExpired (d : nat) (k : key) : M bool :=
  when <- getExpire d k;
  if when <? 0 then ret false else ret (mstime e >? when).

Definition dbSyncDelete (d : nat) (k : key) : M bool :=
  db <- get_db d;
  let db := set_expires db (delete k (expires db)) in
  match dict db !! k with
  | Some a => put_db d (set_dict db (delete k (dict db)));; decr a;; ret true
  | None => put_db d db;; ret false
  end.

Definition dbDelete (d : nat) (k : key) : M bool := dbSyncDelete d k.

Definition propagateExpire (d : nat) (k : key) : M unit := propagate d [DEL_name; k].

Definition expireIfNeeded (d : nat) (k : key) : M bool :=
  expired <- keyIsExpired d k;
  if negb expired then ret false else
  if masterhost e then ret true else
  propagateExpire d k;;
  dbSyncDelete d k.

(** Commands that only read: [CMD_READONLY]. *)
Definition CMD_READONLY (c : command) : bool :=
  match c with
  | GET | STRLEN | GETRANGE | MGET | EXISTS | TYPE | TOUCH | TTL | PTTL | DBSIZE => true
  | _ => false
  end.

Definition CMD_WRITE (c : command) : bool :=
  match c with
  | SET | SETNX | SETEX | PSETEX | GETSET | APPEND | SETRANGE | MSET | MSETNX | INCR | DECR | INCRBY | DECRBY | DEL
  | RENAME | RENAMENX | MOVE | SWAPDB | FLUSHDB | FLUSHALL | EXPIRE | PEXPIRE | EXPIREAT | PEXPIREAT | PERSIST => true
  | _ => false
  end.

(** Commands a replica runs while its data may be stale. *)
Definition CMD_STALE (c : command) : bool := match c with AUTH | PING => true | _ => false end.

Inductive disk_error := DISK_ERROR_TYPE_AOF | DISK_ERROR_TYPE_RDB | DISK_ERROR_TYPE_NONE.

Definition writeCommandsDeniedByDiskError : disk_error :=
  if stop_writes_on_bgsave_err e && (saveparamslen e >? 0) && negb (lastbgsave_ok e) then DISK_ERROR_TYPE_RDB else
  if aof_on e && negb (aof_last_write_ok e) then DISK_ERROR_TYPE_AOF else
  DISK_ERROR_TYPE_NONE.

Definition disk_error_reply : option reply :=
  match writeCommandsDeniedByDiskError with
  | DISK_ERROR_TYPE_NONE => None
  | DISK_ERROR_TYPE_RDB => Some R_bgsaveerr
  | DISK_ERROR_TYPE_AOF => Some (R_error "MISCONF Errors writing to the AOF file")
  end.

(** The checks of [processCommand] between the arity and the execution: the
    answer to a command that is refused, and whether the transaction is flagged. *)
Definition refused (master auth : bool) (cm : command) : option (bool * reply) :=
  if bool_decide (is_Some (requirepass e)) && negb auth && negb (bool_decide (cm = AUTH)) then Some (true, R_noautherr) else
  match (if negb (masterhost e) && (CMD_WRITE cm || bool_decide (cm = PING)) then disk_error_reply else None) with
  | Some r => Some (true, r)
  | None =>
  if negb (masterhost e) && negb (repl_min_slaves_to_write e =? 0) && negb (repl_min_slaves_max_lag e =? 0) && CMD_WRITE cm && (repl_good_slaves_count e <? repl_min_slaves_to_write e)
  then Some (true, R_noreplicaserr) else
  if masterhost e && repl_slave_ro e && negb master && CMD_WRITE cm then Some (false, R_roslaveerr) else
  if masterhost e && negb (repl_connected e) && negb (repl_serve_stale_data e) && negb (CMD_STALE cm) then Some (true, R_masterdownerr) else
  None
  end.

Definition lookupKeyReadWithFlags (d : nat) (k : key) : M (option addr) :=
  expired <- expireIfNeeded d k;
  c <- me;
  cm <- gets cmd;
  if expired && negb (masterhost e) then ret None else
  if expired && negb (CLIENT_MASTER c) && CMD_READONLY cm then ret None else
  lookupKey d k.

Definition lookupKeyRead (d : nat) (k : key) : M (option addr) := lookupKeyReadWithFlags d k.

Definition lookupKeyWrite (d : nat) (k : key) : M (option addr) := expireIfNeeded d k;; lookupKey d k.

Definition lookupKeyReadOrReply (d : nat) (k : key) (r : reply) : M (option addr) :=
  o <- lookupKeyRead d k;
  match o with None => addReply r;; ret o | Some _ => ret o end.

Definition lookupKeyWriteOrReply (d : nat) (k : key) (r : reply) : M (option addr) :=
  o <- lookupKeyWrite d k;
  match o with None => addReply r;; ret o | Some _ => ret o end.

(** ** Changing the key space *)

Definition dbAdd (d : nat) (k : key) (a : addr) : M unit :=
  db <- get_db d;
  if bool_decide (is_Some (dict db !! k)) then fail else put_db d (set_dict db (<[k := a]> (dict db))).

Definition dbOverwrite (d : nat) (k : key) (a : addr) : M unit :=
  db <- get_db d;
  old <- lift (dict db !! k);
  put_db d (set_dict db (<[k := a]> (dict db)));;
  decr old.

Definition removeExpire (d : nat) (k : key) : M bool :=
  db <- get_db d;
  if bool_decide (is_Some (dict db !! k)) then
    put_db d (set_expires db (delete k (expires db)));;
    ret (bool_decide (is_Some (expires db !! k)))
  else fail.

Definition setExpire (d : nat) (k : key) (when : Z) : M unit :=
  db <- get_db d;
  if bool_decide (is_Some (dict db !! k)) then put_db d (set_expires db (<[k := when]> (expires db))) else fail.

Definition setKey (d : nat) (k : key) (a : addr) : M unit :=
  old <- lookupKeyWrite d k;
  match old with
  | None => dbAdd d k a
  | Some _ => dbOverwrite d k a
  end;;
  incr a;;
  removeExpire d k;;
  signalModifiedKey d k.

(** The object at [k] is made ready for changes in place. *)
Definition dbUnshareStringValue (d : nat) (k : key) (a : addr) : M addr :=
  o <- get_obj a;
  if negb (bool_decide (o_type o = OBJ_STRING)) then fail else
  if negb (refcount o =? 1) || negb (bool_decide (o_encoding o = OBJ_ENCODING_RAW)) then
    decoded <- on_heap_new (fun h => getDecodedObject h a);
    od <- get_obj decoded;
    s <- lift (sds_of od);
    a' <- on_heap_new (fun h => Some (createRawStringObject h s));
    decr decoded;;
    dbOverwrite d k a';;
    ret a'
  else ret a.

Definition empty_one (d : nat) : M Z :=
  db <- get_db d;
  put_db d (mk_db ∅ ∅ (watched_keys db));;
  for_each (map snd (map_to_list (dict db))) decr;;
  ret (Z.of_nat (size (dict db))).

Fixpoint empty_all (l : list nat) (removed : Z) : M Z :=
  match l with
  | [] => ret removed
  | d :: l => n <- empty_one d; empty_all l (removed + n)
  end.

Definition emptyDb (dbid : option nat) : M Z :=
  l <- gets dbs;
  empty_all (match dbid with Some d => [d] | None => seq 0 (length l) end) 0.

(** [C_ERR] is [false]. *)
Definition selectDb (id : Z) : M bool :=
  l <- gets dbs;
  if (id <? 0) || (id >=? zlen l) then ret false else
  c <- me;
  put_me (c_select c (Z.to_nat id));;
  ret true.

Definition dbSwapDatabases (id1 id2 : Z) : M bool :=
  l <- gets dbs;
  if (id1 <? 0) || (id1 >=? zlen l) || (id2 <? 0) || (id2 >=? zlen l) then ret false else
  if id1 =? id2 then ret true else
  db1 <- get_db (Z.to_nat id1);
  db2 <- get_db (Z.to_nat id2);
  put_db (Z.to_nat id1) (mk_db (dict db2) (expires db2) (watched_keys db1));;
  put_db (Z.to_nat id2) (mk_db (dict db1) (expires db1) (watched_keys db2));;
  ret true.

End Db.
