(* ===== verification/Keyspace.v ===== *)
(** * What the commands promise: an abstract key space

    The specification of the commands of [Commands]: databases that map keys to
    values with an optional deadline, clients with their selected database,
    queue of commands, watched keys and replies, and the effect of every
    command on them, without objects, reference counts, encodings or dangling
    pointers.  [Requests] proves that requests to the server do exactly this.

    A key whose deadline has passed is removed when it is accessed (on a
    replica it is kept and hidden). *)

From S2P Require Import Prelude Numstr Objects Db.
From stdpp Require Import strings options.
#[local] Open Scope Z_scope.

Abbreviation entry := (value * option Z)%type.
Abbreviation kvs := (gmap key entry).

Record aclient := mk_ac {
  a_db : nat;
  a_multi : bool;
  a_cas : bool;                      (* a watched key was touched *)
  a_abort : bool;                    (* a command could not be queued *)
  a_master : bool;
  a_auth : bool;
  a_closing : bool;
  a_queue : list (command * list (list Z));
  a_watched : list (nat * key);
  a_out : list reply;
}.

Record astate := mk_as {
  a_dbs : list kvs;
  a_clients : gmap Z aclient;
  a_cur : Z;
  a_cmd : command;
  a_args : list (list Z);
  a_dirty : Z;
  a_log : list (nat * list (list Z));
}.

(** ** The state monad of the specification *)

Definition Spec (A : Type) : Type := astate -> A * astate.
Definition sret {A} (x : A) : Spec A := fun t => (x, t).
Definition sbind {A B} (m : Spec A) (k : A -> Spec B) : Spec B := fun t => let '(x, t) := m t in k x t.
Definition sgets {A} (f : astate -> A) : Spec A := fun t => (f t, t).
Definition smod (f : astate -> astate) : Spec unit := fun t => (tt, f t).

Declare Scope spec_scope.
Delimit Scope spec_scope with spec.
Notation "x <- m ; k" := (sbind m (fun x => k)) (at level 100, m at next level, k at level 200, right associativity) : spec_scope.
Notation "m ;; k" := (sbind m (fun _ => k)) (at level 100, k at level 200, right associativity) : spec_scope.
#[local] Open Scope spec_scope.

Fixpoint sfor {A} (l : list A) (f : A -> Spec unit) : Spec unit :=
  match l with
  | [] => sret tt
  | x :: l => f x;; sfor l f
  end.

Section Setters.
Implicit Types (t : astate) (c : aclient).
Definition t_dbs t l := mk_as l (a_clients t) (a_cur t) (a_cmd t) (a_args t) (a_dirty t) (a_log t).
Definition t_clients t m := mk_as (a_dbs t) m (a_cur t) (a_cmd t) (a_args t) (a_dirty t) (a_log t).
Definition t_cmd t cm l := mk_as (a_dbs t) (a_clients t) (a_cur t) cm l (a_dirty t) (a_log t).
Definition t_cur t i := mk_as (a_dbs t) (a_clients t) i (a_cmd t) (a_args t) (a_dirty t) (a_log t).
Definition t_dirty t n := mk_as (a_dbs t) (a_clients t) (a_cur t) (a_cmd t) (a_args t) n (a_log t).
Definition t_log t l := mk_as (a_dbs t) (a_clients t) (a_cur t) (a_cmd t) (a_args t) (a_dirty t) l.
Definition ac_out c l := mk_ac (a_db c) (a_multi c) (a_cas c) (a_abort c) (a_master c) (a_auth c) (a_closing c) (a_queue c) (a_watched c) l.
Definition ac_flags c m cas ab := mk_ac (a_db c) m cas ab (a_master c) (a_auth c) (a_closing c) (a_queue c) (a_watched c) (a_out c).
Definition ac_db c d := mk_ac d (a_multi c) (a_cas c) (a_abort c) (a_master c) (a_auth c) (a_closing c) (a_queue c) (a_watched c) (a_out c).
Definition ac_queue c q := mk_ac (a_db c) (a_multi c) (a_cas c) (a_abort c) (a_master c) (a_auth c) (a_closing c) q (a_watched c) (a_out c).
Definition ac_auth c b := mk_ac (a_db c) (a_multi c) (a_cas c) (a_abort c) (a_master c) b (a_closing c) (a_queue c) (a_watched c) (a_out c).
Definition ac_close c := mk_ac (a_db c) (a_multi c) (a_cas c) (a_abort c) (a_master c) (a_auth c) true (a_queue c) (a_watched c) (a_out c).
Definition ac_watch c w := mk_ac (a_db c) (a_multi c) (a_cas c) (a_abort c) (a_master c) (a_auth c) (a_closing c) (a_queue c) w (a_out c).
End Setters.

(** ** Primitives *)

Definition on_me (f : aclient -> aclient) : Spec unit := smod (fun t => t_clients t (alter f (a_cur t) (a_clients t))).
Definition no_client : aclient := mk_ac 0 false false false false false false [] [] [].
Definition s_me : Spec aclient := sgets (fun t => default no_client (a_clients t !! a_cur t)).
Definition s_reply (r : reply) : Spec unit := on_me (fun c => ac_out c (if a_master c then a_out c else a_out c ++ [r])).
Definition s_dirty (n : Z) : Spec unit := smod (fun t => t_dirty t (a_dirty t + n)).
Definition s_log (d : nat) (args : list (list Z)) : Spec unit := smod (fun t => t_log t (a_log t ++ [(d, args)])).
Definition s_db (d : nat) : Spec kvs := sgets (fun t => default ∅ (a_dbs t !! d)).
Definition s_put_db (d : nat) (m : kvs) : Spec unit := smod (fun t => t_dbs t (<[d := m]> (a_dbs t))).
Definition s_my_db : Spec nat := c <- s_me; sret (a_db c).

(** The clients that watch the key get to know. *)
Definition notice (wk : nat * key) (c : aclient) : aclient := if bool_decide (wk ∈ a_watched c) then ac_flags c (a_multi c) true (a_abort c) else c.
Definition s_touch (d : nat) (k : key) : Spec unit := smod (fun t => t_clients t (notice (d, k) <$> a_clients t)).

Section Spec.
Context (e : env).

Definition past (deadline : option Z) : bool := match deadline with Some w => negb (w <? 0) && (mstime e >? w) | None => false end.

(** A key whose deadline has passed is deleted, on a master. *)
Definition s_expire (d : nat) (k : key) : Spec bool :=
  m <- s_db d;
  match m !! k with
  | Some (_, w) =>
    if negb (past w) then sret false else
    if masterhost e then sret true else
    s_log d [DEL_name; k];;
    s_put_db d (delete k m);;
    sret true
  | None => sret false
  end.

Definition s_lookup (d : nat) (k : key) : Spec (option entry) := m <- s_db d; sret (m !! k).
Definition s_find (d : nat) (k : key) : Spec (option entry) := s_expire d k;; s_lookup d k.

(** Readers on a replica do not see keys whose deadline has passed. *)
Definition s_read (d : nat) (k : key) : Spec (option entry) :=
  gone <- s_expire d k;
  c <- s_me;
  cm <- sgets a_cmd;
  if gone && negb (masterhost e) then sret None else
  if gone && negb (a_master c) && CMD_READONLY cm then sret None else
  s_lookup d k.

Definition s_store (d : nat) (k : key) (x : entry) : Spec unit := m <- s_db d; s_put_db d (<[k := x]> m).

Definition s_delete (d : nat) (k : key) : Spec bool :=
  m <- s_db d;
  s_put_db d (delete k m);;
  sret (bool_decide (is_Some (m !! k))).

(** A new value without deadline. *)
Definition s_set (d : nat) (k : key) (s : list Z) : Spec unit :=
  s_find d k;;
  s_store d k (VString s, None);;
  s_touch d k.

(** ** Strings *)

Definition not_integer : reply := R_error "value is not an integer or out of range".

(** A number among the arguments. *)
Definition s_number (s : list Z) (k : Z -> Spec unit) : Spec unit :=
  match string2ll s with None => s_reply not_integer | Some v => k v end.

Definition s_setGeneric (nx xx : bool) (k : key) (val : list Z) (expire : option (list Z)) (seconds : bool) (ok abort : reply) (name : string) : Spec unit :=
  let go (ms : option Z) : Spec unit :=
    d <- s_my_db;
    found <- (if nx then o <- s_find d k; sret (bool_decide (is_Some o)) else sret false);
    missing <- (if negb found && xx then o <- s_find d k; sret (bool_decide (o = None)) else sret false);
    if found || missing then s_reply abort else
    s_set d k val;;
    s_dirty 1;;
    match ms with Some ms => s_store d k (VString val, Some (sll (mstime e + ms))) | None => sret tt end;;
    s_reply ok in
  match expire with
  | None => go None
  | Some x => s_number x (fun ms =>
      if ms <=? 0 then s_reply (R_error ("invalid expire time in " +:+ name)) else go (Some (if seconds then sll (ms * 1000) else ms)))
  end.

Definition two_letters (a : list Z) (x y : Z) : bool :=
  let c i := nth i (a ++ [0]) 0 in
  ((c 0%nat =? x) || (c 0%nat =? x - 32)) && ((c 1%nat =? y) || (c 1%nat =? y - 32)) && (c 2%nat =? 0).

(** The options of SET: NX or XX, EX or PX with a number. *)
Record soptions := mk_so { so_nx : bool; so_xx : bool; so_ex : bool; so_px : bool; so_expire : option (list Z); so_seconds : bool }.

Fixpoint s_options (l : list (list Z)) (o : soptions) : option soptions :=
  match l with
  | [] => Some o
  | a :: l =>
    if two_letters a 110 120 && negb (so_xx o) then s_options l (mk_so true (so_xx o) (so_ex o) (so_px o) (so_expire o) (so_seconds o)) else
    if two_letters a 120 120 && negb (so_nx o) then s_options l (mk_so (so_nx o) true (so_ex o) (so_px o) (so_expire o) (so_seconds o)) else
    match l with
    | [] => None
    | x :: l =>
      if two_letters a 101 120 && negb (so_px o) then s_options l (mk_so (so_nx o) (so_xx o) true (so_px o) (Some x) true) else
      if two_letters a 112 120 && negb (so_ex o) then s_options l (mk_so (so_nx o) (so_xx o) (so_ex o) true (Some x) false) else None
    end
  end.

Definition argn (args : list (list Z)) (i : nat) : list Z := nth i args [].

Definition sSET (args : list (list Z)) : Spec unit :=
  match s_options (drop 3 args) (mk_so false false false false None true) with
  | None => s_reply R_syntaxerr
  | Some o => s_setGeneric (so_nx o) (so_xx o) (argn args 1) (argn args 2) (so_expire o) (so_seconds o) R_ok R_nullbulk "set"
  end.

Definition sSETNX (args : list (list Z)) : Spec unit := s_setGeneric true false (argn args 1) (argn args 2) None true (R_int 1) (R_int 0) "setnx".
Definition sSETEX (args : list (list Z)) : Spec unit := s_setGeneric false false (argn args 1) (argn args 3) (Some (argn args 2)) true R_ok R_nullbulk "setex".
Definition sPSETEX (args : list (list Z)) : Spec unit := s_setGeneric false false (argn args 1) (argn args 3) (Some (argn args 2)) false R_ok R_nullbulk "psetex".

(** [false]: the value has the wrong type. *)
Definition s_getGeneric (k : key) : Spec bool :=
  d <- s_my_db;
  o <- s_read d k;
  match o with
  | None => s_reply R_nullbulk;; sret true
  | Some (VString s, _) => s_reply (R_bulk s);; sret true
  | Some (VOther _ _, _) => s_reply R_wrongtypeerr;; sret false
  end.

Definition sGET (args : list (list Z)) : Spec unit := s_getGeneric (argn args 1);; sret tt.

Definition sGETSET (args : list (list Z)) : Spec unit :=
  ok <- s_getGeneric (argn args 1);
  if negb ok then sret tt else
  d <- s_my_db;
  s_set d (argn args 1) (argn args 2);;
  s_dirty 1.

(** The limit on the length of a string; the length is taken as a signed number
    of 64 bits, so that one of 2^63 or more passes. *)
Definition too_long (n : Z) : bool := sll n >? 512 * 1024 * 1024.
Definition too_long_error : reply := R_error "string exceeds maximum allowed size (512MB)".

(** [s] with [v] written at [off], zeros in between if it is too short. *)
Definition splice (s : list Z) (off : Z) (v : list Z) : list Z :=
  let s := s ++ replicate (Z.to_nat (off + zlen v - zlen s)) 0 in take (Z.to_nat off) s ++ v ++ drop (Z.to_nat (off + zlen v)) s.

Definition sSETRANGE (args : list (list Z)) : Spec unit :=
  let v := argn args 3 in
  s_number (argn args 2) (fun off =>
    if off <? 0 then s_reply (R_error "offset is out of range") else
    d <- s_my_db;
    o <- s_find d (argn args 1);
    let write s w :=
      if too_long (off + zlen v) then s_reply too_long_error else
      s_store d (argn args 1) (VString (splice s off v), w);; s_touch d (argn args 1);; s_dirty 1;; s_reply (R_int (zlen (splice s off v))) in
    match o with
    | None => if zlen v =? 0 then s_reply (R_int 0) else write [] None
    | Some (VString s, w) => if zlen v =? 0 then s_reply (R_int (zlen s)) else write s w
    | Some (VOther _ _, _) => s_reply R_wrongtypeerr
    end).

(** The characters from [start] to [stop]; negative indexes count from the end,
    in 64 bits. *)
Definition index_in (s : list Z) (i : Z) : Z := Z.max 0 (if i <? 0 then sll (zlen s + i) else i).
Definition substring (s : list Z) (start stop : Z) : list Z :=
  let i := index_in s start in
  let j := Z.min (zlen s - 1) (index_in s stop) in
  if (start <? 0) && (stop <? 0) && (start >? stop) then [] else
  take (Z.to_nat (j - i + 1)) (drop (Z.to_nat i) s).

Definition bulk_or_empty (s : list Z) : reply := match s with [] => R_emptybulk | _ => R_bulk s end.

Definition sGETRANGE (args : list (list Z)) : Spec unit :=
  s_number (argn args 2) (fun start => s_number (argn args 3) (fun stop =>
    d <- s_my_db;
    o <- s_read d (argn args 1);
    match o with
    | None => s_reply R_emptybulk
    | Some (VString s, _) => s_reply (bulk_or_empty (substring s start stop))
    | Some (VOther _ _, _) => s_reply R_wrongtypeerr
    end)).

Definition sSTRLEN (args : list (list Z)) : Spec unit :=
  d <- s_my_db;
  o <- s_read d (argn args 1);
  match o with
  | None => s_reply (R_int 0)
  | Some (VString s, _) => s_reply (R_int (zlen s))
  | Some (VOther _ _, _) => s_reply R_wrongtypeerr
  end.

Definition sAPPEND (args : list (list Z)) : Spec unit :=
  d <- s_my_db;
  o <- s_find d (argn args 1);
  let v := argn args 2 in
  let finish s w := s_store d (argn args 1) (VString s, w);; s_touch d (argn args 1);; s_dirty 1;; s_reply (R_int (zlen s)) in
  match o with
  | None => finish v None
  | Some (VString s, w) => if too_long (zlen s + zlen v) then s_reply too_long_error else finish (s ++ v) w
  | Some (VOther _ _, _) => s_reply R_wrongtypeerr
  end.

Definition sMGET (args : list (list Z)) : Spec unit :=
  s_reply (R_multibulklen (zlen args - 1));;
  d <- s_my_db;
  sfor (tail args) (fun k => o <- s_read d k; s_reply (match o with Some (VString s, _) => R_bulk s | _ => R_nullbulk end)).

(** Keys and values in turn. *)
Fixpoint pairs (l : list (list Z)) : list (key * list Z) := match l with k :: v :: l => (k, v) :: pairs l | _ => [] end.

Fixpoint s_any (d : nat) (l : list key) : Spec bool :=
  match l with
  | [] => sret false
  | k :: l => o <- s_find d k; if bool_decide (is_Some o) then sret true else s_any d l
  end.

Definition s_msetGeneric (nx : bool) (args : list (list Z)) : Spec unit :=
  if zlen args mod 2 =? 0 then s_reply (R_error "wrong number of arguments for MSET") else
  d <- s_my_db;
  found <- (if nx then s_any d (map fst (pairs (tail args))) else sret false);
  if found : bool then s_reply (R_int 0) else
  sfor (pairs (tail args)) (fun p => s_set d (fst p) (snd p));;
  s_dirty ((zlen args - 1) / 2);;
  s_reply (if nx then R_int 1 else R_ok).

(** The counter at the key; a missing key counts as 0. *)
Definition s_incr (k : key) (by_ : Z) : Spec unit :=
  d <- s_my_db;
  o <- s_find d k;
  let add old w :=
    if (old + by_ <? LLONG_MIN) || (old + by_ >? LLONG_MAX) then s_reply (R_error "increment or decrement would overflow") else
    s_store d k (VString (ld_text (old + by_)), w);; s_touch d k;; s_dirty 1;; s_reply (R_colon (ld_text (old + by_))) in
  match o with
  | None => add 0 None
  | Some (VString s, w) => match string2ll s with None => s_reply not_integer | Some old => add old w end
  | Some (VOther _ _, _) => s_reply R_wrongtypeerr
  end.

(** ** Keys *)

Fixpoint s_del (d : nat) (l : list key) (n : Z) : Spec Z :=
  match l with
  | [] => sret n
  | k :: l =>
    s_expire d k;;
    deleted <- s_delete d k;
    (if deleted : bool then s_touch d k;; s_dirty 1 else sret tt);;
    s_del d l (if deleted : bool then n + 1 else n)
  end.

Definition sDEL (args : list (list Z)) : Spec unit := d <- s_my_db; n <- s_del d (tail args) 0; s_reply (R_int n).

Fixpoint s_count (d : nat) (l : list key) (n : Z) : Spec Z :=
  match l with
  | [] => sret n
  | k :: l => o <- s_read d k; s_count d l (match o with Some _ => n + 1 | None => n end)
  end.

Definition sEXISTS (args : list (list Z)) : Spec unit := d <- s_my_db; n <- s_count d (tail args) 0; s_reply (R_int n).

Definition type_of (v : value) : otype := match v with VString _ => OBJ_STRING | VOther t _ => t end.

Definition type_text (t : otype) : string :=
  match t with
  | OBJ_STRING => "string" | OBJ_LIST => "list" | OBJ_SET => "set" | OBJ_ZSET => "zset" | OBJ_HASH => "hash" | OBJ_STREAM => "stream" | OBJ_MODULE => "module"
  end.

Definition sTYPE (args : list (list Z)) : Spec unit :=
  d <- s_my_db;
  o <- s_read d (argn args 1);
  s_reply (R_status (match o with None => "none" | Some (VOther OBJ_MODULE x, _) => module_type_name e x | Some (v, _) => type_text (type_of v) end)).

(** -1 stands for no deadline. *)
Definition same_deadline (w : option Z) : option Z := match w with Some (-1) => None | w => w end.

Definition s_rename (nx : bool) (args : list (list Z)) : Spec unit :=
  let src := argn args 1 in
  let dst := argn args 2 in
  d <- s_my_db;
  o <- s_find d src;
  match o with
  | None => s_reply R_nokeyerr
  | Some (v, w) =>
    if bool_decide (src = dst) then s_reply (if nx then R_int 0 else R_ok) else
    old <- s_find d dst;
    if bool_decide (is_Some old) && nx then s_reply (R_int 0) else
    s_store d dst (v, same_deadline w);;
    s_delete d src;;
    s_touch d src;;
    s_touch d dst;;
    s_dirty 1;;
    s_reply (if nx then R_int 1 else R_ok)
  end.

(** The clients that watch the key are not told. *)
Definition sMOVE (args : list (list Z)) : Spec unit :=
  let k := argn args 1 in
  l <- sgets a_dbs;
  src <- s_my_db;
  match string2ll (argn args 2) with
  | None => s_reply R_outofrangeerr
  | Some i =>
    if (i <? 0) || (i >=? zlen l) || (i >? 2 ^ 31 - 1) then s_reply R_outofrangeerr else
    let dst := Z.to_nat i in
    if bool_decide (src = dst) then s_reply R_sameobjecterr else
    o <- s_find src k;
    match o with
    | None => s_reply (R_int 0)
    | Some (v, w) =>
      old <- s_find dst k;
      if bool_decide (is_Some old) then s_reply (R_int 0) else
      s_store dst k (v, same_deadline w);;
      s_delete src k;;
      s_dirty 1;;
      s_reply (R_int 1)
    end
  end.

(** An index is taken modulo 2^32. *)
Definition sSELECT (args : list (list Z)) : Spec unit :=
  l <- sgets a_dbs;
  match string2ll (argn args 1) with
  | None => s_reply (R_error "invalid DB index")
  | Some i =>
    let i := swrap 32 i in
    if (i <? 0) || (i >=? zlen l) then s_reply (R_error "DB index is out of range") else
    on_me (fun c => ac_db c (Z.to_nat i));; s_reply R_ok
  end.

Definition sSWAPDB (args : list (list Z)) : Spec unit :=
  l <- sgets a_dbs;
  match string2ll (argn args 1), string2ll (argn args 2) with
  | None, _ => s_reply (R_error "invalid first DB index")
  | _, None => s_reply (R_error "invalid second DB index")
  | Some i, Some j =>
    let i := swrap 32 i in
    let j := swrap 32 j in
    if (i <? 0) || (i >=? zlen l) || (j <? 0) || (j >=? zlen l) then s_reply (R_error "DB index is out of range") else
    x <- s_db (Z.to_nat i);
    y <- s_db (Z.to_nat j);
    s_put_db (Z.to_nat i) y;;
    s_put_db (Z.to_nat j) x;;
    s_dirty 1;;
    s_reply R_ok
  end.

(** Every client that watches a key that exists gets to know. *)
Definition notice_flush (l : list kvs) (dbid : option nat) (c : aclient) : aclient :=
  if existsb (fun wk => (bool_decide (dbid = None) || bool_decide (dbid = Some (fst wk))) && bool_decide (is_Some (default ∅ (l !! fst wk) !! snd wk))) (a_watched c)
  then ac_flags c (a_multi c) true (a_abort c) else c.

Definition s_touch_flush (dbid : option nat) : Spec unit := smod (fun t => t_clients t (notice_flush (a_dbs t) dbid <$> a_clients t)).

Definition sizes (l : list kvs) : Z := foldr (fun m n => Z.of_nat (size m) + n) 0 l.

Definition lower (c : Z) : Z := if (65 <=? c) && (c <=? 90) then c + 32 else c.
Fixpoint up_to_nul (s : list Z) : list Z :=
  match s with
  | [] => []
  | c :: s => if c =? 0 then [] else c :: up_to_nul s
  end.

Definition flush_args (args : list (list Z)) : bool :=
  match args with
  | [_] | [] => true
  | [_; x] => bool_decide (map lower (up_to_nul x) = [97; 115; 121; 110; 99])
  | _ => false
  end.

Definition sFLUSHDB (args : list (list Z)) : Spec unit :=
  if negb (flush_args args) then s_reply R_syntaxerr else
  d <- s_my_db;
  s_touch_flush (Some d);;
  m <- s_db d;
  s_put_db d ∅;;
  s_dirty (Z.of_nat (size m));;
  s_reply R_ok.

(** FLUSHALL saves, and keeps the number of changes meanwhile in an [int]. *)
Definition s_dirty_int : Spec unit := smod (fun t => t_dirty t (swrap 32 (a_dirty t))).

Definition sFLUSHALL (args : list (list Z)) : Spec unit :=
  if negb (flush_args args) then s_reply R_syntaxerr else
  s_touch_flush None;;
  l <- sgets a_dbs;
  smod (fun t => t_dbs t (map (fun _ => ∅) l));;
  s_dirty (sizes l);;
  s_reply R_ok;;
  (if saveparamslen e >? 0 then s_dirty_int else sret tt);;
  s_dirty 1.

(** ** Deadlines *)

(** A deadline that has already passed deletes the key, on a master, and the
    command is propagated as DEL. *)
Definition s_expireGeneric (basetime : Z) (seconds : bool) (args : list (list Z)) : Spec unit :=
  let k := argn args 1 in
  s_number (argn args 2) (fun when =>
    let when := sll ((if seconds then sll (when * 1000) else when) + basetime) in
    d <- s_my_db;
    o <- s_find d k;
    match o with
    | None => s_reply (R_int 0)
    | Some (v, _) =>
      if (when <=? mstime e) && negb (masterhost e) then
        s_delete d k;; s_dirty 1;; smod (fun t => t_cmd t DEL [DEL_name; k]);; s_touch d k;; s_reply (R_int 1)
      else
        s_store d k (v, Some when);; s_reply (R_int 1);; s_touch d k;; s_dirty 1
    end).

Definition s_ttl (ms : bool) (args : list (list Z)) : Spec unit :=
  d <- s_my_db;
  o <- s_read d (argn args 1);
  s_reply (R_int (match o with
    | None => -2
    | Some (_, w) => match same_deadline w with
                     | None => -1
                     | Some w => let ttl := Z.max 0 (sll (w - mstime e)) in if ms then ttl else Z.quot (sll (ttl + 500)) 1000
                     end
    end)).

(** The clients that watch the key are not told. *)
Definition sPERSIST (args : list (list Z)) : Spec unit :=
  d <- s_my_db;
  o <- s_find d (argn args 1);
  match o with
  | Some (v, Some _) => s_store d (argn args 1) (v, None);; s_reply (R_int 1);; s_dirty 1
  | _ => s_reply (R_int 0)
  end.

(** ** Transactions *)

Definition s_unwatch : Spec unit := on_me (fun c => ac_watch c []).
Definition sUNWATCH : Spec unit := s_unwatch;; on_me (fun c => ac_flags c (a_multi c) false (a_abort c));; s_reply R_ok.

Definition s_discard : Spec unit := on_me (fun c => ac_watch (ac_flags (ac_queue c []) false false false) []).

Definition sMULTI : Spec unit :=
  c <- s_me;
  if a_multi c then s_reply (R_error "MULTI calls can not be nested") else on_me (fun c => ac_flags c true (a_cas c) (a_abort c));; s_reply R_ok.

Definition sDISCARD : Spec unit := c <- s_me; if negb (a_multi c) then s_reply (R_error "DISCARD without MULTI") else s_discard;; s_reply R_ok.

(** Names are compared up to the length of the shorter one, and the difference
    of the lengths in 32 bits. *)
Definition same_name (k k' : key) : bool :=
  let n := Nat.min (length k) (length k') in bool_decide (take n k = take n k') && ((zlen k - zlen k') mod 2 ^ 32 =? 0).

Definition s_watch (k : key) : Spec unit := on_me (fun c => if existsb (fun wk => bool_decide (fst wk = a_db c) && same_name k (snd wk)) (a_watched c) then c else ac_watch c (a_watched c ++ [(a_db c, k)])).

Definition sWATCH (args : list (list Z)) : Spec unit :=
  c <- s_me;
  if a_multi c then s_reply (R_error "WATCH inside MULTI is not allowed") else sfor (tail args) s_watch;; s_reply R_ok.

(** Passwords are C strings; a string has less than 2^32 bytes, or is cut. *)
Definition low32 (s : list Z) : list Z := take (Z.to_nat (zlen s mod 2 ^ 32)) s.
Definition same_password (a b : list Z) : bool :=
  let a := low32 (up_to_nul a) in let b := low32 (up_to_nul b) in bool_decide (a = b) && (zlen a <=? 512).

Definition sAUTH (args : list (list Z)) : Spec unit :=
  match requirepass e with
  | None => s_reply (R_error "Client sent AUTH, but no password is set")
  | Some pass =>
    let ok := same_password (argn args 1) pass in
    on_me (fun c => ac_auth c ok);; s_reply (if ok then R_ok else R_error "invalid password")
  end.

Definition sPING (args : list (list Z)) : Spec unit :=
  s_reply (match args with [_] => R_pong | [_; x] => R_bulk x | _ => R_error "wrong number of arguments" end).

Definition sECHO (args : list (list Z)) : Spec unit := s_reply (R_bulk (argn args 1)).

Definition sDBSIZE : Spec unit := d <- s_my_db; m <- s_db d; s_reply (R_int (Z.of_nat (size m))).

(** What changed the key space is propagated. *)
Definition s_call (p : Spec unit) : Spec unit :=
  before <- sgets a_dirty;
  p;;
  after <- sgets a_dirty;
  if after - before >? 0 then d <- s_my_db; args <- sgets a_args; s_log d args else sret tt.

Definition s_queued (c : command) (args : list (list Z)) : Spec unit :=
  match c with
  | GET => sGET args | SET => sSET args | SETNX => sSETNX args | SETEX => sSETEX args | PSETEX => sPSETEX args | GETSET => sGETSET args
  | APPEND => sAPPEND args | STRLEN => sSTRLEN args | SETRANGE => sSETRANGE args | GETRANGE => sGETRANGE args
  | MGET => sMGET args | MSET => s_msetGeneric false args | MSETNX => s_msetGeneric true args
  | INCR => s_incr (argn args 1) 1 | DECR => s_incr (argn args 1) (-1)
  | INCRBY => s_number (argn args 2) (s_incr (argn args 1)) | DECRBY => s_number (argn args 2) (fun v => s_incr (argn args 1) (sll (- v)))
  | DEL => sDEL args | EXISTS | TOUCH => sEXISTS args | TYPE => sTYPE args | RENAME => s_rename false args | RENAMENX => s_rename true args
  | MOVE => sMOVE args | SWAPDB => sSWAPDB args | SELECT => sSELECT args | FLUSHDB => sFLUSHDB args | FLUSHALL => sFLUSHALL args
  | EXPIRE => s_expireGeneric (mstime e) true args | PEXPIRE => s_expireGeneric (mstime e) false args
  | EXPIREAT => s_expireGeneric 0 true args | PEXPIREAT => s_expireGeneric 0 false args
  | TTL => s_ttl false args | PTTL => s_ttl true args | PERSIST => sPERSIST args | UNWATCH => sUNWATCH
  | AUTH => sAUTH args | PING => sPING args | ECHO => sECHO args | DBSIZE => sDBSIZE
  | MULTI | EXEC | DISCARD | WATCH => sret tt
  end.

(** The queued commands run one after the other; MULTI is propagated before the
    first that is not read only. *)
Fixpoint s_exec_queue (q : list (command * list (list Z))) (must : bool) : Spec bool :=
  match q with
  | [] => sret must
  | (cm, args) :: q =>
    smod (fun t => t_cmd t cm args);;
    must <- (if negb must && negb (CMD_READONLY cm) then d <- s_my_db; s_log d [[77; 85; 76; 84; 73]];; sret true else sret must);
    s_call (s_queued cm args);;
    s_exec_queue q must
  end.

Definition sEXEC : Spec unit :=
  c <- s_me;
  if negb (a_multi c) then s_reply (R_error "EXEC without MULTI") else
  if a_cas c || a_abort c then s_reply (if a_abort c then R_execaborterr else R_nullmultibulk);; s_discard else
  if masterhost e && repl_slave_ro e && negb (a_master c) && existsb (fun p => CMD_WRITE (fst p)) (a_queue c) then
    s_reply (R_error "Transaction contains write commands but instance is now a read-only slave. EXEC aborted.");; s_discard
  else
    s_unwatch;;
    on_me (fun c => ac_queue c []);;
    cm <- sgets a_cmd;
    args <- sgets a_args;
    s_reply (R_multibulklen (zlen (a_queue c)));;
    must <- s_exec_queue (a_queue c) false;
    smod (fun t => t_cmd t cm args);;
    s_discard;;
    if must : bool then s_dirty 1 else sret tt.

Definition s_proc (c : command) (args : list (list Z)) : Spec unit :=
  match c with
  | MULTI => sMULTI | EXEC => sEXEC | DISCARD => sDISCARD | WATCH => sWATCH args
  | c => s_queued c args
  end.

(** ** Requests *)

Definition s_flag : Spec unit := on_me (fun c => if a_multi c then ac_flags c true (a_cas c) true else c).

Definition s_quit (name : list Z) : bool := bool_decide (map lower (up_to_nul name) = [113; 117; 105; 116]).

(** [table] gives the command and the arity of a name. *)
Definition s_process (table : list Z -> option (command * Z)) (args : list (list Z)) : Spec unit :=
  if s_quit (argn args 0) then s_reply R_ok;; on_me ac_close else
  match table (argn args 0) with
  | None => s_flag;; s_reply (R_error "unknown command")
  | Some (cm, arity) =>
    smod (fun t => t_cmd t cm args);;
    if ((arity >? 0) && negb (arity =? zlen args)) || (zlen args <? - arity) then s_flag;; s_reply (R_error "wrong number of arguments") else
    c <- s_me;
    match refused e (a_master c) (a_auth c) cm with
    | Some (flag, r) => (if flag : bool then s_flag else sret tt);; s_reply r
    | None =>
      if a_multi c && negb (bool_decide (cm = EXEC)) && negb (bool_decide (cm = DISCARD)) && negb (bool_decide (cm = MULTI)) && negb (bool_decide (cm = WATCH))
      then on_me (fun c => ac_queue c (a_queue c ++ [(cm, args)]));; s_reply R_queued
      else s_call (s_proc cm args)
    end
  end.

Definition s_request (table : list Z -> option (command * Z)) (id : Z) (args : list (list Z)) : Spec unit :=
  smod (fun t => t_cur t id);;
  c <- s_me;
  if a_closing c then sret tt else
  cm <- sgets a_cmd;
  smod (fun t => t_cmd t cm args);;
  s_process table args;;
  cm <- sgets a_cmd;
  smod (fun t => t_cmd t cm []).

Definition s_connect (id : Z) : Spec unit := smod (fun t => t_clients t (<[id := no_client]> (a_clients t))).
Definition s_disconnect (id : Z) : Spec unit := smod (fun t => t_cmd (t_clients (t_cur t id) (delete id (a_clients t))) (a_cmd t) []).

End Spec.
