(* ===== verification/Commands.v ===== *)
(** * Commands on strings and keys, transactions ([t_string.c], [db.c],
      [expire.c], [multi.c], [processCommand] and [call] of [server.c])

    Each command works on the client [cur] and its arguments [argv] of the
    state of [Db].  A request ([request]) creates the argument objects, runs
    [processCommand] and releases them.

    Of [processCommand] the steps that depend on the configuration
    (authentication, cluster redirection, memory and disk limits, scripts) are
    left out, as is the text of the errors for unknown commands.  Monitors,
    the slow log and INCRBYFLOAT are not modelled. *)

From S2P Require Import Prelude Numstr Objects Db.
From stdpp Require Import strings options.
#[local] Open Scope Z_scope.
#[local] Open Scope db_scope.

Section Commands.
Context (e : env).

Definition argc : M Z := l <- gets argv; ret (zlen l).
Definition my_db : M nat := c <- me; ret (c_db c).

(** The text of a string object. *)
Definition obj_text (a : addr) : M (list Z) :=
  o <- get_obj a;
  match o_ptr o with
  | PtrSds s => ret s
  | PtrInt v => lift (ll_buf 32 v)
  | PtrOther _ => fail
  end.

Definition addReplyBulk (a : addr) : M unit := s <- obj_text a; addReply (R_bulk s).
Definition addReplyLongLong (v : Z) : M unit := addReply (R_int v).
Definition shared_cone : reply := R_int 1.
Definition shared_czero : reply := R_int 0.

(** [true] when the type is wrong. *)
Definition checkType (a : addr) (t : otype) : M bool :=
  o <- get_obj a;
  if negb (bool_decide (o_type o = t)) then addReply R_wrongtypeerr;; ret true else ret false.

Definition getLongLongFromObjectOrReply (a : option addr) (msg : option string) : M (option Z) :=
  r <- read_heap (fun h => getLongLongFromObject h a);
  match r with
  | None => addReply (R_error (match msg with Some m => m | None => "value is not an integer or out of range" end));; ret None
  | Some v => ret (Some v)
  end.

Definition getLongFromObjectOrReply (a : option addr) (msg : option string) : M (option Z) :=
  r <- getLongLongFromObjectOrReply a msg;
  match r with
  | None => ret None
  | Some v =>
    if (v <? LONG_MIN) || (v >? LONG_MAX) then
      addReply (R_error (match msg with Some m => m | None => "value is out of range" end));; ret None
    else ret (Some v)
  end.

Definition encode_arg (i : nat) : M addr :=
  a <- arg i;
  a' <- on_heap_new (fun h => tryObjectEncoding (private_integers e) h a);
  put_arg i a';;
  ret a'.

(** The argument is a [long long]: the callers' [size_t] is converted. *)
Definition checkStringLength (n : Z) : M bool :=
  if n >? 512 * 1024 * 1024 then addReply (R_error "string exceeds maximum allowed size (512MB)");; ret false else ret true.

(** ** SET and GET *)

Inductive expire_unit := UNIT_SECONDS | UNIT_MILLISECONDS.

Definition setGenericCommand (nx xx : bool) (k : key) (val : addr) (expire : option addr) (u : expire_unit) (ok_reply abort_reply : reply) (cmd_name : string) : M unit :=
  ms <- match expire with
        | None => ret (Some 0)
        | Some x =>
          r <- getLongLongFromObjectOrReply (Some x) None;
          match r with
          | None => ret None
          | Some ms =>
            if ms <=? 0 then addReply (R_error ("invalid expire time in " +:+ cmd_name));; ret None else
            ret (Some (match u with UNIT_SECONDS => sll (ms * 1000) | UNIT_MILLISECONDS => ms end))
          end
        end;
  match ms with
  | None => ret tt
  | Some ms =>
    d <- my_db;
    found <- (if nx then o <- lookupKeyWrite e d k; ret (bool_decide (is_Some o)) else ret false);
    missing <- (if negb found && xx then o <- lookupKeyWrite e d k; ret (bool_decide (o = None)) else ret false);
    if found || missing then addReply abort_reply else
    setKey e d k val;;
    add_dirty 1;;
    match expire with Some _ => setExpire d k (sll (mstime e + ms)) | None => ret tt end;;
    addReply ok_reply
  end.

(** The option at [a] is the two letters, in either case. *)
Definition is_option (a : list Z) (x y : Z) : bool :=
  let c i := nth i (a ++ [0]) 0 in
  ((c 0%nat =? x) || (c 0%nat =? x - 32)) && ((c 1%nat =? y) || (c 1%nat =? y - 32)) && (c 2%nat =? 0).

Record set_options := mk_options { o_nx : bool; o_xx : bool; o_ex : bool; o_px : bool; o_expire : option addr; o_unit : expire_unit }.

(** The options from argument [j] on. *)
Fixpoint parse_set (fuel : nat) (j : nat) (o : set_options) : M (option set_options) :=
  match fuel with
  | O => fail
  | S fuel =>
    l <- gets argv;
    if (length l <=? j)%nat then ret (Some o) else
    a <- arg_sds j;
    let next := l !! S j in
    if is_option a 110 120 && negb (o_xx o) then
      parse_set fuel (S j) (mk_options true (o_xx o) (o_ex o) (o_px o) (o_expire o) (o_unit o))
    else if is_option a 120 120 && negb (o_nx o) then
      parse_set fuel (S j) (mk_options (o_nx o) true (o_ex o) (o_px o) (o_expire o) (o_unit o))
    else if is_option a 101 120 && negb (o_px o) && bool_decide (is_Some next) then
      parse_set fuel (S (S j)) (mk_options (o_nx o) (o_xx o) true (o_px o) next UNIT_SECONDS)
    else if is_option a 112 120 && negb (o_ex o) && bool_decide (is_Some next) then
      parse_set fuel (S (S j)) (mk_options (o_nx o) (o_xx o) (o_ex o) true next UNIT_MILLISECONDS)
    else addReply R_syntaxerr;; ret None
  end.

Definition setCommand : M unit :=
  l <- gets argv;
  o <- parse_set (S (length l)) 3 (mk_options false false false false None UNIT_SECONDS);
  match o with
  | None => ret tt
  | Some o =>
    val <- encode_arg 2;
    k <- arg_sds 1;
    setGenericCommand (o_nx o) (o_xx o) k val (o_expire o) (o_unit o) R_ok R_nullbulk "set"
  end.

Definition setnxCommand : M unit :=
  val <- encode_arg 2;
  k <- arg_sds 1;
  setGenericCommand true false k val None UNIT_SECONDS shared_cone shared_czero "setnx".

Definition setexCommand : M unit :=
  val <- encode_arg 3;
  k <- arg_sds 1;
  x <- arg 2;
  setGenericCommand false false k val (Some x) UNIT_SECONDS R_ok R_nullbulk "setex".

Definition psetexCommand : M unit :=
  val <- encode_arg 3;
  k <- arg_sds 1;
  x <- arg 2;
  setGenericCommand false false k val (Some x) UNIT_MILLISECONDS R_ok R_nullbulk "psetex".

(** [C_ERR] is [false]. *)
Definition getGenericCommand : M bool :=
  d <- my_db;
  k <- arg_sds 1;
  o <- lookupKeyReadOrReply e d k R_nullbulk;
  match o with
  | None => ret true
  | Some a =>
    ob <- get_obj a;
    if negb (bool_decide (o_type ob = OBJ_STRING)) then addReply R_wrongtypeerr;; ret false
    else addReplyBulk a;; ret true
  end.

Definition getCommand : M unit := getGenericCommand;; ret tt.

Definition getsetCommand : M unit :=
  ok <- getGenericCommand;
  if negb ok then ret tt else
  val <- encode_arg 2;
  d <- my_db;
  k <- arg_sds 1;
  setKey e d k val;;
  add_dirty 1.

(** ** Ranges *)

(** The string of an object that may be changed in place. *)
Definition put_string (a : addr) (s : list Z) : M unit :=
  o <- get_obj a;
  on_heap (fun h => Some (set_cell h a (mk_obj (o_type o) (o_encoding o) (PtrSds s) (refcount o)))).

(** [sdsgrowzero] and [memcpy] at an offset. *)
Definition sdsgrowzero (s : list Z) (len : Z) : list Z := s ++ replicate (Z.to_nat (len - zlen s)) 0.
Definition overwrite_at (s : list Z) (off : Z) (v : list Z) : list Z := take (Z.to_nat off) s ++ v ++ drop (Z.to_nat (off + zlen v)) s.

(** The common end of SETRANGE: the value is not empty. *)
Definition setrange_store (d : nat) (k : key) (a : addr) (offset : Z) (value : list Z) : M unit :=
  o <- get_obj a;
  s <- lift (sds_of o);
  let s := overwrite_at (sdsgrowzero s (offset + zlen value)) offset value in
  put_string a s;;
  signalModifiedKey d k;;
  add_dirty 1;;
  addReplyLongLong (zlen s).

Definition setrangeCommand : M unit :=
  value <- arg_sds 3;
  x <- arg 2;
  r <- getLongFromObjectOrReply (Some x) None;
  match r with
  | None => ret tt
  | Some offset =>
    if offset <? 0 then addReply (R_error "offset is out of range") else
    d <- my_db;
    k <- arg_sds 1;
    o <- lookupKeyWrite e d k;
    match o with
    | None =>
      if zlen value =? 0 then addReply shared_czero else
      ok <- checkStringLength (sll (offset + zlen value));
      if negb ok then ret tt else
      a <- on_heap_new (fun h => Some (createObject h OBJ_STRING (PtrSds (replicate (Z.to_nat (offset + zlen value)) 0))));
      dbAdd d k a;;
      setrange_store d k a offset value
    | Some a =>
      wrong <- checkType a OBJ_STRING;
      if wrong : bool then ret tt else
      olen <- read_heap (fun h => stringObjectLen h a);
      if zlen value =? 0 then addReplyLongLong olen else
      ok <- checkStringLength (sll (offset + zlen value));
      if negb ok then ret tt else
      a <- dbUnshareStringValue d k a;
      setrange_store d k a offset value
    end
  end.

(** The part of a string of length [len] between two indexes, which count
    from the end when negative; [None]: nothing. *)
Definition string_range (len start stop : Z) : option (Z * Z) :=
  if (start <? 0) && (stop <? 0) && (start >? stop) then None else
  let start := if start <? 0 then sll (len + start) else start in
  let stop := if stop <? 0 then sll (len + stop) else stop in
  let start := if start <? 0 then 0 else start in
  let stop := if stop <? 0 then 0 else stop in
  let stop := if stop >=? len then sll (len - 1) else stop in
  if (start >? stop) || (len =? 0) then None else Some (start, stop - start + 1).

Definition getrangeCommand : M unit :=
  x <- arg 2;
  r <- getLongLongFromObjectOrReply (Some x) None;
  match r with
  | None => ret tt
  | Some start =>
    y <- arg 3;
    r <- getLongLongFromObjectOrReply (Some y) None;
    match r with
    | None => ret tt
    | Some stop =>
      d <- my_db;
      k <- arg_sds 1;
      o <- lookupKeyReadOrReply e d k R_emptybulk;
      match o with
      | None => ret tt
      | Some a =>
        wrong <- checkType a OBJ_STRING;
        if wrong : bool then ret tt else
        str <- obj_text a;
        match string_range (zlen str) start stop with
        | None => addReply R_emptybulk
        | Some (off, n) => s <- lift (mread str off n); addReply (R_bulk s)
        end
      end
    end
  end.

Definition strlenCommand : M unit :=
  d <- my_db;
  k <- arg_sds 1;
  o <- lookupKeyReadOrReply e d k shared_czero;
  match o with
  | None => ret tt
  | Some a =>
    wrong <- checkType a OBJ_STRING;
    if wrong : bool then ret tt else
    n <- read_heap (fun h => stringObjectLen h a);
    addReplyLongLong n
  end.

Definition appendCommand : M unit :=
  d <- my_db;
  k <- arg_sds 1;
  o <- lookupKeyWrite e d k;
  totlen <- match o with
            | None =>
              val <- encode_arg 2;
              dbAdd d k val;;
              incr val;;
              n <- read_heap (fun h => stringObjectLen h val);
              ret (Some n)
            | Some a =>
              wrong <- checkType a OBJ_STRING;
              if wrong : bool then ret None else
              append <- arg_sds 2;
              n <- read_heap (fun h => stringObjectLen h a);
              ok <- checkStringLength (sll (n + zlen append));
              if negb ok then ret None else
              a <- dbUnshareStringValue d k a;
              ob <- get_obj a;
              s <- lift (sds_of ob);
              put_string a (s ++ append);;
              ret (Some (zlen (s ++ append)))
            end;
  match totlen with
  | None => ret tt
  | Some n => signalModifiedKey d k;; add_dirty 1;; addReplyLongLong n
  end.

(** ** Several keys *)

Definition mget_key (d : nat) (k : key) : M unit :=
  o <- lookupKeyRead e d k;
  match o with
  | None => addReply R_nullbulk
  | Some a => ob <- get_obj a; if negb (bool_decide (o_type ob = OBJ_STRING)) then addReply R_nullbulk else addReplyBulk a
  end.

(** The loops over the arguments from 1 on. *)
Definition for_args (from step n : nat) (f : nat -> M unit) : M unit := for_each (map (fun i => from + step * i)%nat (seq 0 n)) f.

Definition mgetCommand : M unit :=
  n <- argc;
  addReply (R_multibulklen (n - 1));;
  d <- my_db;
  for_args 1 1 (Z.to_nat (n - 1)) (fun j => k <- arg_sds j; mget_key d k).

Fixpoint any_key (d : nat) (l : list nat) : M bool :=
  match l with
  | [] => ret false
  | j :: l => k <- arg_sds j; o <- lookupKeyWrite e d k; if bool_decide (is_Some o) then ret true else any_key d l
  end.

Definition mset_key (d : nat) (j : nat) : M unit :=
  val <- encode_arg (S j);
  k <- arg_sds j;
  setKey e d k val.

Definition msetGenericCommand (nx : bool) : M unit :=
  n <- argc;
  if n mod 2 =? 0 then addReply (R_error "wrong number of arguments for MSET") else
  d <- my_db;
  let pairs := Z.to_nat ((n - 1) / 2) in
  exists_ <- (if nx then any_key d (map (fun i => 1 + 2 * i)%nat (seq 0 pairs)) else ret false);
  if exists_ : bool then addReply shared_czero else
  for_args 1 2 pairs (mset_key d);;
  add_dirty ((n - 1) / 2);;
  addReply (if nx then shared_cone else R_ok).

Definition msetCommand : M unit := msetGenericCommand false.
Definition msetnxCommand : M unit := msetGenericCommand true.

(** ** Counters *)

(** The number is stored in the object itself when nobody else sees it. *)
Definition incrDecrCommand (incr_ : Z) : M unit :=
  d <- my_db;
  k <- arg_sds 1;
  o <- lookupKeyWrite e d k;
  wrong <- match o with None => ret false | Some a => checkType a OBJ_STRING end;
  if wrong : bool then ret tt else
  r <- getLongLongFromObjectOrReply o None;
  match r with
  | None => ret tt
  | Some oldvalue =>
    if ((incr_ <? 0) && (oldvalue <? 0) && (incr_ <? LLONG_MIN - oldvalue)) || ((incr_ >? 0) && (oldvalue >? 0) && (incr_ >? LLONG_MAX - oldvalue))
    then addReply (R_error "increment or decrement would overflow") else
    let value := sll (oldvalue + incr_) in
    new <- match o with
           | None =>
             new <- on_heap_new (fun h => createStringObjectFromLongLongForValue (private_integers e) h value);
             dbAdd d k new;;
             ret new
           | Some a =>
             ob <- get_obj a;
             if (refcount ob =? 1) && bool_decide (o_encoding ob = OBJ_ENCODING_INT) && ((value <? 0) || (value >=? OBJ_SHARED_INTEGERS)) &&
                (value >=? LONG_MIN) && (value <=? LONG_MAX)
             then
               on_heap (fun h => Some (set_cell h a (mk_obj (o_type ob) (o_encoding ob) (PtrInt value) (refcount ob))));;
               ret a
             else
               new <- on_heap_new (fun h => createStringObjectFromLongLongForValue (private_integers e) h value);
               dbOverwrite d k new;;
               ret new
           end;
    signalModifiedKey d k;;
    add_dirty 1;;
    s <- obj_text new;
    addReply (R_colon s)
  end.

Definition incrCommand : M unit := incrDecrCommand 1.
Definition decrCommand : M unit := incrDecrCommand (-1).

Definition incrbyCommand : M unit :=
  x <- arg 2;
  r <- getLongLongFromObjectOrReply (Some x) None;
  match r with None => ret tt | Some v => incrDecrCommand v end.

(** The negation wraps around for the smallest number. *)
Definition decrbyCommand : M unit :=
  x <- arg 2;
  r <- getLongLongFromObjectOrReply (Some x) None;
  match r with None => ret tt | Some v => incrDecrCommand (sll (- v)) end.

(** ** Keys *)

Fixpoint del_keys (d : nat) (l : list nat) (numdel : Z) : M Z :=
  match l with
  | [] => ret numdel
  | j :: l =>
    k <- arg_sds j;
    expireIfNeeded e d k;;
    deleted <- dbSyncDelete d k;
    (if deleted : bool then signalModifiedKey d k;; add_dirty 1 else ret tt);;
    del_keys d l (if deleted : bool then numdel + 1 else numdel)
  end.

Definition delCommand : M unit :=
  n <- argc;
  d <- my_db;
  c <- del_keys d (seq 1 (Z.to_nat (n - 1))) 0;
  addReplyLongLong c.

Fixpoint count_keys (d : nat) (l : list nat) (count : Z) : M Z :=
  match l with
  | [] => ret count
  | j :: l => k <- arg_sds j; o <- lookupKeyRead e d k; count_keys d l (match o with Some _ => count + 1 | None => count end)
  end.

Definition existsCommand : M unit :=
  n <- argc;
  d <- my_db;
  c <- count_keys d (seq 1 (Z.to_nat (n - 1))) 0;
  addReplyLongLong c.

Definition touchCommand : M unit := existsCommand.

(** A module value answers with the name of its type. *)
Definition type_name (o : redisObject) : option string :=
  match o_type o with
  | OBJ_STRING => Some "string" | OBJ_LIST => Some "list" | OBJ_SET => Some "set" | OBJ_ZSET => Some "zset" | OBJ_HASH => Some "hash" | OBJ_STREAM => Some "stream"
  | OBJ_MODULE => match o_ptr o with PtrOther x => Some (module_type_name e x) | _ => None end
  end%string.

Definition typeCommand : M unit :=
  d <- my_db;
  k <- arg_sds 1;
  o <- lookupKeyReadWithFlags e d k;
  match o with
  | None => addReply (R_status "none")
  | Some a => ob <- get_obj a; name <- lift (type_name ob); addReply (R_status name)
  end.

Definition renameGenericCommand (nx : bool) : M unit :=
  src <- arg_sds 1;
  dst <- arg_sds 2;
  let samekey := bool_decide (src = dst) in
  d <- my_db;
  o <- lookupKeyWriteOrReply e d src R_nokeyerr;
  match o with
  | None => ret tt
  | Some a =>
    if samekey then addReply (if nx then shared_czero else R_ok) else
    incr a;;
    expire <- getExpire d src;
    old <- lookupKeyWrite e d dst;
    if bool_decide (is_Some old) && nx then decr a;; addReply shared_czero else
    (if bool_decide (is_Some old) then dbDelete d dst;; ret tt else ret tt);;
    dbAdd d dst a;;
    (if negb (expire =? -1) then setExpire d dst expire else ret tt);;
    dbDelete d src;;
    signalModifiedKey d src;;
    signalModifiedKey d dst;;
    add_dirty 1;;
    addReply (if nx then shared_cone else R_ok)
  end.

Definition moveCommand : M unit :=
  c <- me;
  let src := c_db c in
  x <- arg 2;
  r <- read_heap (fun h => getLongLongFromObject h (Some x));
  dst <- match r with
         | None => ret None
         | Some dbid =>
           if (dbid <? - 2 ^ 31) || (dbid >? 2 ^ 31 - 1) then ret None else
           ok <- selectDb dbid;
           if ok : bool then c <- me; ret (Some (c_db c)) else ret None
         end;
  match dst with
  | None => addReply R_outofrangeerr
  | Some dst =>
    selectDb (Z.of_nat src);;
    if bool_decide (src = dst) then addReply R_sameobjecterr else
    k <- arg_sds 1;
    o <- lookupKeyWrite e src k;
    match o with
    | None => addReply shared_czero
    | Some a =>
      expire <- getExpire src k;
      old <- lookupKeyWrite e dst k;
      if bool_decide (is_Some old) then addReply shared_czero else
      dbAdd dst k a;;
      (if negb (expire =? -1) then setExpire dst k expire else ret tt);;
      incr a;;
      dbDelete src k;;
      add_dirty 1;;
      addReply shared_cone
    end
  end.

(** The index is narrowed to [int] by the call of [selectDb]. *)
Definition selectCommand : M unit :=
  x <- arg 1;
  r <- getLongFromObjectOrReply (Some x) (Some "invalid DB index");
  match r with
  | None => ret tt
  | Some id => ok <- selectDb (swrap 32 id); if ok : bool then addReply R_ok else addReply (R_error "DB index is out of range")
  end.

(** The arguments are narrowed to [int] by the call. *)
Definition swapdbCommand : M unit :=
  x <- arg 1;
  r1 <- getLongFromObjectOrReply (Some x) (Some "invalid first DB index");
  match r1 with
  | None => ret tt
  | Some id1 =>
    y <- arg 2;
    r2 <- getLongFromObjectOrReply (Some y) (Some "invalid second DB index");
    match r2 with
    | None => ret tt
    | Some id2 =>
      ok <- dbSwapDatabases (swrap 32 id1) (swrap 32 id2);
      if negb ok then addReply (R_error "DB index is out of range") else add_dirty 1;; addReply R_ok
    end
  end.

(** What the C library sees of a string, and the letter case. *)
Fixpoint c_string (s : list Z) : list Z :=
  match s with
  | [] => []
  | c :: s => if c =? 0 then [] else c :: c_string s
  end.

Definition tolower (c : Z) : Z := if (65 <=? c) && (c <=? 90) then c + 32 else c.

(** Only the test of the arguments is done for ASYNC: the memory is freed at once. *)
Definition getFlushCommandFlags : M bool :=
  n <- argc;
  if n >? 1 then
    a <- arg_sds 1;
    if (n >? 2) || negb (bool_decide (map tolower (c_string a) = [97; 115; 121; 110; 99]))
    then addReply R_syntaxerr;; ret false else ret true
  else ret true.

Definition flushdbCommand : M unit :=
  ok <- getFlushCommandFlags;
  if negb ok then ret tt else
  d <- my_db;
  signalFlushedDb (Some d);;
  n <- emptyDb (Some d);
  add_dirty n;;
  addReply R_ok.

(** The snapshot that [rdbSave] writes resets the number of changes; it is kept
    meanwhile, in an [int]. *)
Definition flushallCommand : M unit :=
  ok <- getFlushCommandFlags;
  if negb ok then ret tt else
  signalFlushedDb None;;
  n <- emptyDb None;
  add_dirty n;;
  addReply R_ok;;
  (if saveparamslen e >? 0 then
     saved_dirty <- gets (fun s => swrap 32 (dirty s));
     modify (fun s => set_dirty s saved_dirty)
   else ret tt);;
  add_dirty 1.

(** ** Expiration *)

(** The command becomes DEL for the replicas and the append only file. *)
Definition rewriteClientCommandVector (cm : command) (l : list addr) : M unit :=
  for_each l incr;;
  old <- gets argv;
  for_each old decr;;
  modify (fun s => set_cmd s cm l).

Definition expireGenericCommand (basetime : Z) (u : expire_unit) : M unit :=
  param <- arg 2;
  r <- getLongLongFromObjectOrReply (Some param) None;
  match r with
  | None => ret tt
  | Some when =>
    let when := match u with UNIT_SECONDS => sll (when * 1000) | UNIT_MILLISECONDS => when end in
    let when := sll (when + basetime) in
    d <- my_db;
    k <- arg_sds 1;
    o <- lookupKeyWrite e d k;
    match o with
    | None => addReply shared_czero
    | Some _ =>
      if (when <=? mstime e) && negb (masterhost e) then
        deleted <- dbSyncDelete d k;
        if negb deleted then fail else
        add_dirty 1;;
        ka <- arg 1;
        rewriteClientCommandVector DEL [shared_del; ka];;
        signalModifiedKey d k;;
        addReply shared_cone
      else
        setExpire d k when;;
        addReply shared_cone;;
        signalModifiedKey d k;;
        add_dirty 1
    end
  end.

Definition expireCommand : M unit := expireGenericCommand (mstime e) UNIT_SECONDS.
Definition expireatCommand : M unit := expireGenericCommand 0 UNIT_SECONDS.
Definition pexpireCommand : M unit := expireGenericCommand (mstime e) UNIT_MILLISECONDS.
Definition pexpireatCommand : M unit := expireGenericCommand 0 UNIT_MILLISECONDS.

Definition ttlGenericCommand (output_ms : bool) : M unit :=
  d <- my_db;
  k <- arg_sds 1;
  o <- lookupKeyReadWithFlags e d k;
  match o with
  | None => addReplyLongLong (-2)
  | Some _ =>
    expire <- getExpire d k;
    let ttl := if negb (expire =? -1) then (if sll (expire - mstime e) <? 0 then 0 else sll (expire - mstime e)) else -1 in
    if ttl =? -1 then addReplyLongLong (-1) else addReplyLongLong (if output_ms then ttl else Z.quot (sll (ttl + 500)) 1000)
  end.

Definition ttlCommand : M unit := ttlGenericCommand false.
Definition pttlCommand : M unit := ttlGenericCommand true.

Definition persistCommand : M unit :=
  d <- my_db;
  k <- arg_sds 1;
  o <- lookupKeyWrite e d k;
  match o with
  | None => addReply shared_czero
  | Some _ =>
    removed <- removeExpire d k;
    if removed : bool then addReply shared_cone;; add_dirty 1 else addReply shared_czero
  end.

(** ** Transactions *)

Definition initClientMultiState : M unit := c <- me; put_me (c_mstate c [] false).

Definition freeClientMultiState : M unit :=
  c <- me;
  for_each (mstate c) (fun mc => for_each (mc_argv mc) decr).

Definition queueMultiCommand : M unit :=
  cm <- gets cmd;
  l <- gets argv;
  for_each l incr;;
  c <- me;
  put_me (c_mstate c (mstate c ++ [mk_multi cm l]) (mstate_write c || CMD_WRITE cm)).

Definition discardTransaction : M unit :=
  freeClientMultiState;;
  initClientMultiState;;
  c <- me;
  put_me (c_flags c false false false);;
  unwatchAllKeys.

Definition flagTransaction : M unit :=
  c <- me;
  if CLIENT_MULTI c then put_me (c_flags c true (CLIENT_DIRTY_CAS c) true) else ret tt.

Definition multiCommand : M unit :=
  c <- me;
  if CLIENT_MULTI c then addReply (R_error "MULTI calls can not be nested") else
  put_me (c_flags c true (CLIENT_DIRTY_CAS c) (CLIENT_DIRTY_EXEC c));;
  addReply R_ok.

Definition discardCommand : M unit :=
  c <- me;
  if negb (CLIENT_MULTI c) then addReply (R_error "DISCARD without MULTI") else
  discardTransaction;;
  addReply R_ok.

Definition watchCommand : M unit :=
  c <- me;
  if CLIENT_MULTI c then addReply (R_error "WATCH inside MULTI is not allowed") else
  n <- argc;
  for_args 1 1 (Z.to_nat (n - 1)) (fun j => a <- arg j; watchForKey a);;
  addReply R_ok.

Definition unwatchCommand : M unit :=
  unwatchAllKeys;;
  c <- me;
  put_me (c_flags c (CLIENT_MULTI c) false (CLIENT_DIRTY_EXEC c));;
  addReply R_ok.

(** ** AUTH, PING, ECHO and DBSIZE *)

Definition CONFIG_AUTHPASS_MAX_LEN : Z := 512.

(** The buffers are compared in full whatever they hold. *)
Definition time_independent_strcmp (a b : list Z) : Z :=
  let a := c_string a in
  let b := c_string b in
  let alen := zlen a mod 2 ^ 32 in
  let blen := zlen b mod 2 ^ 32 in
  if (alen >? CONFIG_AUTHPASS_MAX_LEN) || (blen >? CONFIG_AUTHPASS_MAX_LEN) then 1 else
  let bufa := overwrite_at (replicate (Z.to_nat CONFIG_AUTHPASS_MAX_LEN) 0) 0 (take (Z.to_nat alen) a) in
  let bufb := overwrite_at (replicate (Z.to_nat CONFIG_AUTHPASS_MAX_LEN) 0) 0 (take (Z.to_nat blen) b) in
  let diff := foldl (fun diff p => Z.lor diff (Z.lxor (fst p) (snd p))) 0 (zip bufa bufb) in
  Z.lor diff (Z.lxor alen blen).

Definition authCommand : M unit :=
  match requirepass e with
  | None => addReply (R_error "Client sent AUTH, but no password is set")
  | Some pass =>
    a <- arg_sds 1;
    c <- me;
    if time_independent_strcmp a pass =? 0 then put_me (c_auth c true);; addReply R_ok
    else put_me (c_auth c false);; addReply (R_error "invalid password")
  end.

Definition pingCommand : M unit :=
  n <- argc;
  if n >? 2 then addReply (R_error "wrong number of arguments") else
  if n =? 1 then addReply R_pong else a <- arg 1; addReplyBulk a.

Definition echoCommand : M unit := a <- arg 1; addReplyBulk a.

Definition dbsizeCommand : M unit := d <- my_db; db <- get_db d; addReplyLongLong (Z.of_nat (size (dict db))).

(** ** Executing commands *)

Fixpoint texts (l : list addr) : M (list (list Z)) :=
  match l with
  | [] => ret []
  | a :: l => s <- obj_text a; r <- texts l; ret (s :: r)
  end.

(** [call] around the body of a command. *)
Definition call (proc : M unit) : M unit :=
  before <- gets dirty;
  proc;;
  after <- gets dirty;
  if after - before >? 0 then
    l <- gets argv;
    args <- texts l;
    d <- my_db;
    propagate d args
  else ret tt.

(** The commands that may be queued (the others are refused). *)
Definition queued_proc (c : command) : M unit :=
  match c with
  | GET => getCommand | SET => setCommand | SETNX => setnxCommand | SETEX => setexCommand | PSETEX => psetexCommand | GETSET => getsetCommand
  | APPEND => appendCommand | STRLEN => strlenCommand | SETRANGE => setrangeCommand | GETRANGE => getrangeCommand
  | MGET => mgetCommand | MSET => msetCommand | MSETNX => msetnxCommand
  | INCR => incrCommand | DECR => decrCommand | INCRBY => incrbyCommand | DECRBY => decrbyCommand
  | DEL => delCommand | EXISTS => existsCommand | TYPE => typeCommand | TOUCH => touchCommand | RENAME => renameGenericCommand false
  | RENAMENX => renameGenericCommand true | MOVE => moveCommand | SWAPDB => swapdbCommand | SELECT => selectCommand
  | FLUSHDB => flushdbCommand | FLUSHALL => flushallCommand
  | EXPIRE => expireCommand | PEXPIRE => pexpireCommand | EXPIREAT => expireatCommand | PEXPIREAT => pexpireatCommand
  | TTL => ttlCommand | PTTL => pttlCommand | PERSIST => persistCommand | UNWATCH => unwatchCommand
  | AUTH => authCommand | PING => pingCommand | ECHO => echoCommand | DBSIZE => dbsizeCommand
  | MULTI | EXEC | DISCARD | WATCH => fail
  end.

Definition MULTI_name : list Z := [77; 85; 76; 84; 73].

Definition execCommandPropagateMulti : M unit := d <- my_db; propagate d [MULTI_name].

(** The queue from command [j] on; the result tells whether MULTI was
    propagated.  [c->argv] is the vector of the queued command while it runs. *)
Fixpoint exec_queue (l : list multiCmd) (j : nat) (must_propagate : bool) : M bool :=
  match l with
  | [] => ret must_propagate
  | mc :: l =>
    modify (fun s => set_cmd s (mc_cmd mc) (mc_argv mc));;
    must <- (if negb must_propagate && negb (CMD_READONLY (mc_cmd mc)) then execCommandPropagateMulti;; ret true else ret must_propagate);
    call (queued_proc (mc_cmd mc));;
    cm <- gets cmd;
    av <- gets argv;
    c <- me;
    put_me (c_mstate c (<[j := mk_multi cm av]> (mstate c)) (mstate_write c));;
    exec_queue l (S j) must
  end.

Definition execCommand : M unit :=
  c <- me;
  if negb (CLIENT_MULTI c) then addReply (R_error "EXEC without MULTI") else
  if CLIENT_DIRTY_CAS c || CLIENT_DIRTY_EXEC c then
    addReply (if CLIENT_DIRTY_EXEC c then R_execaborterr else R_nullmultibulk);;
    discardTransaction
  else if masterhost e && repl_slave_ro e && negb (CLIENT_MASTER c) && mstate_write c then
    addReply (R_error "Transaction contains write commands but instance is now a read-only slave. EXEC aborted.");;
    discardTransaction
  else
    unwatchAllKeys;;
    orig_argv <- gets argv;
    orig_cmd <- gets cmd;
    c <- me;
    addReply (R_multibulklen (zlen (mstate c)));;
    must_propagate <- exec_queue (mstate c) 0 false;
    modify (fun s => set_cmd s orig_cmd orig_argv);;
    discardTransaction;;
    if must_propagate : bool then add_dirty 1 else ret tt.

Definition proc (c : command) : M unit :=
  match c with
  | MULTI => multiCommand | EXEC => execCommand | DISCARD => discardCommand | WATCH => watchCommand
  | c => queued_proc c
  end.

(** ** Requests *)

Definition bytes_of (s : string) : list Z := map (fun a => Z.of_nat (Ascii.nat_of_ascii a)) (String.list_ascii_of_string s).

(** The names and arities of the command table. *)
Definition redisCommandTable : list (string * command * Z) :=
  [("get", GET, 2); ("set", SET, -3); ("setnx", SETNX, 3); ("setex", SETEX, 4); ("psetex", PSETEX, 4); ("append", APPEND, 3); ("strlen", STRLEN, 2);
   ("del", DEL, -2); ("exists", EXISTS, -2); ("setrange", SETRANGE, 4); ("getrange", GETRANGE, 4); ("incr", INCR, 2); ("decr", DECR, 2); ("mget", MGET, -2);
   ("incrby", INCRBY, 3); ("decrby", DECRBY, 3); ("getset", GETSET, 3); ("mset", MSET, -3); ("msetnx", MSETNX, -3); ("select", SELECT, 2);
   ("swapdb", SWAPDB, 3); ("move", MOVE, 3); ("rename", RENAME, 3); ("renamenx", RENAMENX, 3); ("expire", EXPIRE, 3); ("expireat", EXPIREAT, 3);
   ("pexpire", PEXPIRE, 3); ("pexpireat", PEXPIREAT, 3); ("type", TYPE, 2); ("multi", MULTI, 1); ("exec", EXEC, 1); ("discard", DISCARD, 1);
   ("flushdb", FLUSHDB, -1); ("flushall", FLUSHALL, -1); ("ttl", TTL, 2); ("touch", TOUCH, -2); ("pttl", PTTL, 2); ("persist", PERSIST, 2);
   ("dbsize", DBSIZE, 1); ("auth", AUTH, 2); ("ping", PING, -1); ("echo", ECHO, 2); ("substr", GETRANGE, 4);
   ("watch", WATCH, -2); ("unwatch", UNWATCH, 1)].

Definition lookupCommand (name : list Z) : option (command * Z) :=
  (fun p => (snd (fst p), snd p)) <$> head (filter (fun p => bytes_of (fst (fst p)) = map tolower name) redisCommandTable).

(** The result tells whether the client stays ([C_OK] in the source). *)
Definition answered (m : M unit) : M bool := m;; ret true.

Definition processCommand : M bool :=
  name <- arg_sds 0;
  if bool_decide (map tolower (c_string name) = bytes_of "quit") then addReply R_ok;; c <- me; put_me (c_close c);; ret false else
  n <- argc;
  match lookupCommand name with
  | None => answered (flagTransaction;; addReply (R_error "unknown command"))
  | Some (cm, arity) =>
    l <- gets argv;
    modify (fun s => set_cmd s cm l);;
    if ((arity >? 0) && negb (arity =? n)) || (n <? - arity) then answered (flagTransaction;; addReply (R_error "wrong number of arguments")) else
    c <- me;
    match refused e (CLIENT_MASTER c) (authenticated c) cm with
    | Some (flag, r) => answered ((if flag : bool then flagTransaction else ret tt);; addReply r)
    | None =>
      if CLIENT_MULTI c && negb (bool_decide (cm = EXEC)) && negb (bool_decide (cm = DISCARD)) && negb (bool_decide (cm = MULTI)) && negb (bool_decide (cm = WATCH))
      then answered (queueMultiCommand;; addReply R_queued)
      else answered (call (proc cm))
    end
  end.

(** The argument objects of a request, and their release ([freeClientArgv]). *)
Fixpoint create_args (l : list (list Z)) : M (list addr) :=
  match l with
  | [] => ret []
  | s :: l => a <- on_heap_new (fun h => Some (createStringObject h s)); r <- create_args l; ret (a :: r)
  end.

Definition freeClientArgv : M unit :=
  l <- gets argv;
  for_each l decr;;
  c <- gets cmd;
  modify (fun s => set_cmd s c []).

(** The commands of a client that is being closed are not read any more.  The
    arguments of QUIT are released here; the source does it with the client. *)
Definition request (id : Z) (args : list (list Z)) : M unit :=
  modify (fun s => set_cur s id);;
  c <- me;
  if CLIENT_CLOSE_AFTER_REPLY c then ret tt else
  l <- create_args args;
  cm <- gets cmd;
  modify (fun s => set_cmd s cm l);;
  processCommand;;
  freeClientArgv.

(** ** Connections *)

Definition createClient : client := mk_client 0 false false false false false false [] false [] [].

(** [createClient] enters the client into the table. *)
Definition connect (id : Z) : M unit := modify (fun s => set_clients s (<[id := createClient]> (clients s))).

(** A client other than the master goes: its keys are not watched any more, its
    queue is released. *)
Definition freeClient (id : Z) : M unit :=
  modify (fun s => set_cur s id);;
  unwatchAllKeys;;
  freeClientArgv;;
  freeClientMultiState;;
  modify (fun s => set_clients s (delete id (clients s))).

End Commands.
