(* ===== verification/CommandsInv.v ===== *)
(** * Requests refine the abstract key space: invariant and primitives

    The server of [Db] represents a state of [Keyspace]: [abs] reads the
    contents of the objects the databases, arguments and queued commands refer
    to.  [inv] is what holds between any two operations of a command: the
    reference counts are exact, deadlines belong to existing keys, the two
    directions of the watch tables agree, and the arguments are strings.  Each
    operation of [Db] keeps it and does to the abstract state what its
    counterpart in [Keyspace] does. *)

From S2P Require Import Prelude Numstr Objects Db Keyspace Commands.
From stdpp Require Import strings options.
#[local] Open Scope Z_scope.

(** ** Abstraction *)

Definition text_at (h : heap) (a : addr) : list Z := match value_at h a with Some (VString s) => s | _ => [] end.

Definition db_kv (h : heap) (db : redisDb) : kvs := map_imap (fun k a => v ← value_at h a; Some (v, expires db !! k)) (dict db).

Definition watched_names (T : addr -> list Z) (l : list watchedKey) : list (nat * key) := map (fun wk => (wk_db wk, T (wk_key wk))) l.

Definition abs_client (h : heap) (hide : bool) (c : client) : aclient :=
  mk_ac (c_db c) (CLIENT_MULTI c) (CLIENT_DIRTY_CAS c) (CLIENT_DIRTY_EXEC c) (CLIENT_MASTER c) (authenticated c) (CLIENT_CLOSE_AFTER_REPLY c)
    (if hide then [] else map (fun mc => (mc_cmd mc, map (text_at h) (mc_argv mc))) (mstate c)) (watched_names (text_at h) (c_watched c)) (out c).

(** The queue of the client [X] is not shown while it is executed. *)
Definition abs (X : option Z) (s : server) : astate :=
  mk_as (map (db_kv (sheap s)) (dbs s)) (map_imap (fun id c => Some (abs_client (sheap s) (bool_decide (X = Some id)) c)) (clients s))
    (cur s) (cmd s) (map (text_at (sheap s)) (argv s)) (dirty s) (propagated s).

Lemma lookup_db_kv h db k : db_kv h db !! k = a ← dict db !! k; v ← value_at h a; Some (v, expires db !! k).
Proof. unfold db_kv. by rewrite map_lookup_imap. Qed.

Lemma lookup_abs_client X s id : a_clients (abs X s) !! id = abs_client (sheap s) (bool_decide (X = Some id)) <$> clients s !! id.
Proof. unfold abs. cbn. rewrite map_lookup_imap. by destruct (clients s !! id). Qed.

Lemma lookup_abs_db X s d : a_dbs (abs X s) !! d = db_kv (sheap s) <$> dbs s !! d.
Proof. unfold abs. cbn. by rewrite list_lookup_fmap. Qed.

(** ** References *)

Definition vals (db : redisDb) : list addr := map snd (map_to_list (dict db)).
Definition refs_of (l : list redisDb) : list addr := concat (map vals l).
Definition db_refs (s : server) : list addr := refs_of (dbs s).

Lemma in_vals db a : a ∈ vals db <-> exists k, dict db !! k = Some a.
Proof.
  unfold vals. rewrite list_elem_of_fmap. split.
  - intros ([k x] & -> & H). exists k. by apply elem_of_map_to_list.
  - intros [k H]. exists (k, a). split; [done|]. by apply elem_of_map_to_list.
Qed.

Lemma vals_insert db k a : dict db !! k = None -> vals (set_dict db (<[k := a]> (dict db))) ≡ₚ a :: vals db.
Proof. intros H. unfold vals. cbn. by rewrite (map_to_list_insert _ _ _ H). Qed.

Lemma concat_split {A} (f : A -> list addr) l d x :
  l !! d = Some x -> exists rest, concat (map f l) ≡ₚ f x ++ rest /\ forall x', concat (map f (<[d := x']> l)) ≡ₚ f x' ++ rest.
Proof.
  intros H. exists (concat (map f (take d l)) ++ concat (map f (drop (S d) l))). assert (d < length l)%nat as Hd by (by eapply lookup_lt_Some). split.
  - rewrite <- (take_drop_middle l d x H) at 1. rewrite map_app, concat_app. cbn. by rewrite !app_assoc, (Permutation_app_comm (concat (map f (take d l)))).
  - intros x'. rewrite insert_take_drop by done. rewrite map_app, concat_app. cbn. by rewrite !app_assoc, (Permutation_app_comm (concat (map f (take d l)))).
Qed.

Lemma refs_split l d db : l !! d = Some db -> exists rest, refs_of l ≡ₚ vals db ++ rest /\ forall db', refs_of (<[d := db']> l) ≡ₚ vals db' ++ rest.
Proof. apply concat_split. Qed.

Lemma in_refs l a : a ∈ refs_of l <-> exists d db k, l !! d = Some db /\ dict db !! k = Some a.
Proof.
  unfold refs_of. rewrite list_elem_of_In, in_concat. split.
  - intros (x & Hx & Ha). apply list_elem_of_In, list_elem_of_fmap in Hx as (db & -> & [d Hd]%list_elem_of_lookup). apply list_elem_of_In, in_vals in Ha as [k Hk]. by exists d, db, k.
  - intros (d & db & k & Hd & Hk). exists (vals db). split; [apply list_elem_of_In, list_elem_of_fmap; exists db; split; [done|by eapply list_elem_of_lookup_2]|apply list_elem_of_In, in_vals; by exists k].
Qed.

(** ** The invariant *)

Definition sds_at (h : heap) (a : addr) (s : list Z) : Prop := exists o, cells h !! a = Some o /\ o_ptr o = PtrSds s.

(** The arguments are the strings [args]; those that [J] marks may be encoded. *)
Definition has_args (J : nat -> bool) (s : server) (args : list (list Z)) : Prop :=
  length (argv s) = length args /\
  forall i a, argv s !! i = Some a -> exists x, args !! i = Some x /\ value_at (sheap s) a = Some (VString x) /\ (J i = false -> sds_at (sheap s) a x).

Definition queues (s : server) : gmap Z (list multiCmd * bool) := (fun c => (mstate c, mstate_write c)) <$> clients s.

(** What WATCH keeps: the keys of each client, the tables of the databases, and
    the key objects that both refer to. *)
Definition watch_tables : Type := gmap Z (list watchedKey) * list (gmap key (addr * list Z)).
Definition wtab (s : server) : watch_tables := (c_watched <$> clients s, map watched_keys (dbs s)).
Definition client_wrefs (m : gmap Z (list watchedKey)) : list addr := concat (map (fun p => map wk_key (snd p)) (map_to_list m)).
Definition table_wrefs (m : gmap key (addr * list Z)) : list addr := map (fun p => fst (snd p)) (map_to_list m).
Definition wrefs (W : watch_tables) : list addr := client_wrefs (fst W) ++ concat (map table_wrefs (snd W)).

(** The lists of watching clients and of watched keys agree; [T] gives the names
    that the key objects hold. *)
Record watch_ok (T : addr -> list Z) (s : server) : Prop := {
  wo_listed d db k a ids id : dbs s !! d = Some db -> watched_keys db !! k = Some (a, ids) -> id ∈ ids -> exists c, clients s !! id = Some c /\ (d, k) ∈ watched_names T (c_watched c);
  wo_watching id c d k : clients s !! id = Some c -> (d, k) ∈ watched_names T (c_watched c) -> exists db a ids, dbs s !! d = Some db /\ watched_keys db !! k = Some (a, ids) /\ id ∈ ids;
  wo_ids d db k a ids : dbs s !! d = Some db -> watched_keys db !! k = Some (a, ids) -> NoDup ids;
  wo_keys id c : clients s !! id = Some c -> NoDup (watched_names T (c_watched c));
  wo_names d db k a ids : dbs s !! d = Some db -> watched_keys db !! k = Some (a, ids) -> T a = k;
}.

Lemma in_client_wrefs m a : a ∈ client_wrefs m <-> exists id l wk, m !! id = Some l /\ wk ∈ l /\ wk_key wk = a.
Proof.
  unfold client_wrefs. rewrite list_elem_of_In, in_concat. split.
  - intros (x & Hx & Ha). apply list_elem_of_In, list_elem_of_fmap in Hx as ([id l] & -> & H%elem_of_map_to_list). apply list_elem_of_In, list_elem_of_fmap in Ha as (wk & -> & Hwk). by exists id, l, wk.
  - intros (id & l & wk & H%elem_of_map_to_list & Hwk & <-). exists (map wk_key l). split; [apply list_elem_of_In, list_elem_of_fmap; by exists (id, l)|]. apply list_elem_of_In, list_elem_of_fmap. by exists wk.
Qed.

Lemma in_table_wrefs m a : a ∈ table_wrefs m <-> exists k ids, m !! k = Some (a, ids).
Proof.
  unfold table_wrefs. rewrite list_elem_of_fmap. split.
  - intros ([k [x ids]] & -> & H%elem_of_map_to_list). by exists k, ids.
  - intros (k & ids & H%elem_of_map_to_list). by exists (k, (a, ids)).
Qed.

Lemma wrefs_client s id c wk : clients s !! id = Some c -> wk ∈ c_watched c -> wk_key wk ∈ wrefs (wtab s).
Proof. intros Hc Hwk. apply elem_of_app. left. apply in_client_wrefs. exists id, (c_watched c), wk. cbn. by rewrite lookup_fmap, Hc. Qed.

Lemma wrefs_table s d db k a ids : dbs s !! d = Some db -> watched_keys db !! k = Some (a, ids) -> a ∈ wrefs (wtab s).
Proof.
  intros Hd Hk. apply elem_of_app. right. rewrite list_elem_of_In, in_concat. exists (table_wrefs (watched_keys db)). split; apply list_elem_of_In; [|apply in_table_wrefs; by exists k, ids].
  cbn. rewrite map_map. apply list_elem_of_fmap. exists db. split; [done|by eapply list_elem_of_lookup_2].
Qed.

Lemma watched_names_ext (T T' : addr -> list Z) l : (forall wk, wk ∈ l -> T (wk_key wk) = T' (wk_key wk)) -> watched_names T l = watched_names T' l.
Proof. intros H. apply map_ext_in. intros wk Hwk%list_elem_of_In. by rewrite H. Qed.

Lemma watch_ok_ext (T T' : addr -> list Z) s : (forall a, a ∈ wrefs (wtab s) -> T a = T' a) -> watch_ok T s -> watch_ok T' s.
Proof.
  intros H [W1 W2 W3 W4 W5]. assert (forall id c, clients s !! id = Some c -> watched_names T' (c_watched c) = watched_names T (c_watched c)) as HE.
  { intros id c Hc. apply watched_names_ext. intros wk Hwk. symmetry. by eapply H, wrefs_client. }
  constructor; [| |exact W3| |].
  - intros d db k a ids id Hd Hk Hin. destruct (W1 d db k a ids id Hd Hk Hin) as (c & Hc & Hw). exists c. by rewrite (HE id c Hc).
  - intros id c d k Hc. rewrite (HE id c Hc). by apply W2.
  - intros id c Hc. rewrite (HE id c Hc). by apply (W4 id).
  - intros d db k a ids Hd Hk. rewrite <- (H a) by (by eapply wrefs_table). by eapply W5.
Qed.

Section Inv.
(** [X] is the client whose queue is being executed, [q] the queues, [u] the
    client of the command, [F] the references held by queues and by callers,
    [V] the strings among them that must not change, [W] the tables of WATCH,
    whose key objects are among them. *)
Context {X : option Z} {q : gmap Z (list multiCmd * bool)} {W : watch_tables} {u : Z} {F : list addr} {V : gmap addr (list Z)}.

Definition held_ok (h : heap) : Prop := forall a x, V !! a = Some x -> a ∈ F /\ sds_at h a x.

Definition held_text (a : addr) : list Z := default [] (V !! a).

(** [E] are the references that local variables hold. *)
Record inv (E : list addr) (J : nat -> bool) (args : list (list Z)) (s : server) : Prop := {
  i_heap : heap_ok (sheap s) (E ++ db_refs s ++ argv s ++ F);
  i_deadlines d db k : dbs s !! d = Some db -> is_Some (expires db !! k) -> is_Some (dict db !! k);
  i_watch : watch_ok held_text s;
  i_queues : queues s = q;
  i_cur : cur s = u;
  i_me : is_Some (clients s !! u);
  i_db id c : clients s !! id = Some c -> is_Some (dbs s !! c_db c);
  i_args : has_args J s args;
  i_queued id l w mc a : q !! id = Some (l, w) -> X <> Some id -> mc ∈ l -> a ∈ mc_argv mc -> is_Some (V !! a);
  i_held : held_ok (sheap s);
  i_wtab : wtab s = W;
  i_wheld a : a ∈ wrefs W -> is_Some (V !! a);
}.

(** The key objects are kept, and hold their names. *)
Lemma wref_held E J args s a : inv E J args s -> a ∈ wrefs (wtab s) -> a ∈ F /\ sds_at (sheap s) a (held_text a).
Proof using Type. intros Hi Ha. rewrite (i_wtab _ _ _ _ Hi) in Ha. destruct (i_wheld _ _ _ _ Hi a Ha) as [x Hx]. unfold held_text. rewrite Hx. by apply (i_held _ _ _ _ Hi). Qed.

Lemma sds_text h a x : sds_at h a x -> text_at h a = x.
Proof using Type. intros (o & Ho & Hp). unfold text_at, value_at. rewrite Ho. cbn. unfold value_of. by rewrite Hp. Qed.

Lemma names_held E J args s id c : inv E J args s -> clients s !! id = Some c -> watched_names (text_at (sheap s)) (c_watched c) = watched_names held_text (c_watched c).
Proof using Type. intros Hi Hc. apply watched_names_ext. intros wk Hwk. apply sds_text. eapply wref_held; [done|by eapply wrefs_client]. Qed.

Lemma names_keep E J args s id c h' :
  inv E J args s -> clients s !! id = Some c -> keeps_values F (sheap s) h' -> watched_names (text_at h') (c_watched c) = watched_names (text_at (sheap s)) (c_watched c).
Proof using Type.
  intros Hi Hc K. apply watched_names_ext. intros wk Hwk. destruct (wref_held E J args s (wk_key wk) Hi) as [HF _]; [by eapply wrefs_client|]. unfold text_at. by rewrite (repr_value _ _ _ _ (K _ HF)).
Qed.

Lemma name_of_run E J args s a : inv E J args s -> a ∈ wrefs (wtab s) -> name_of a s = Some (held_text a, s).
Proof using Type. intros Hi Ha. destruct (wref_held _ _ _ _ _ Hi Ha) as [_ (o & Ho & Hp)]. unfold name_of, bind, get_obj, read_heap. rewrite Ho. cbn [mbind option_bind]. unfold lift, sds_of. by rewrite Hp. Qed.

Lemma watchers_run E J args s d db k : inv E J args s -> dbs s !! d = Some db -> watchers db k s = Some (watched_keys db !! k, s).
Proof using Type.
  intros Hi Hd. unfold watchers. destruct (watched_keys db !! k) as [[a ids]|] eqn:Ek; [|done]. unfold bind. rewrite (name_of_run E J args s a Hi) by (by eapply wrefs_table).
  unfold ret. by rewrite bool_decide_eq_true_2 by (by apply (wo_names _ _ (i_watch _ _ _ _ Hi) d db k a ids)).
Qed.

(** ** A calculus for refinement *)

(** From [s] the operation [m] succeeds and does to the abstract state what
    [p] does; [Q] relates the results. *)
Definition sim {A B} (m : M A) (p : Spec B) (s : server) (Q : A -> B -> server -> Prop) : Prop :=
  exists x s', m s = Some (x, s') /\ abs X s' = snd (p (abs X s)) /\ Q x (fst (p (abs X s))) s'.

Lemma sim_bind {A B A' B'} (m : M A) (k : A -> M A') (p : Spec B) (k' : B -> Spec B') s Q :
  sim m p s (fun x y s' => sim (k x) (k' y) s' Q) -> sim (bind m k) (sbind p k') s Q.
Proof using Type.
  intros (x & s' & E & Ea & x2 & s2 & E2 & Ea2 & HQ). exists x2, s2. unfold bind, sbind. rewrite E. split; [done|]. destruct (p (abs X s)) as [y t]. cbn in *. subst t. done.
Qed.

(** A step that is not visible in the abstract state. *)
Lemma sim_left {A A' B} (m : M A) (k : A -> M A') (p : Spec B) s x s1 Q :
  m s = Some (x, s1) -> abs X s1 = abs X s -> sim (k x) p s1 Q -> sim (bind m k) p s Q.
Proof using Type. intros E Ea (x2 & s2 & E2 & Ea2 & HQ). exists x2, s2. unfold bind. rewrite E, <- Ea. done. Qed.

Lemma sim_mono {A B} (m : M A) (p : Spec B) s (Q Q' : A -> B -> server -> Prop) :
  sim m p s Q -> (forall x y s', Q x y s' -> Q' x y s') -> sim m p s Q'.
Proof using Type. intros (x & s' & E & Ea & HQ) H. exists x, s'. split; [done|]. split; [done|]. by apply H. Qed.

Lemma sim_ret {A B} (x : A) (y : B) s (Q : A -> B -> server -> Prop) : Q x y s -> sim (ret x) (sret y) s Q.
Proof using Type. intros H. by exists x, s. Qed.

(** A step of the specification that reads. *)
Lemma sim_right {A B B'} (m : M A) (p : Spec B) (k' : B -> Spec B') s y Q :
  p (abs X s) = (y, abs X s) -> sim m (k' y) s Q -> sim m (sbind p k') s Q.
Proof using Type. intros E (x2 & s2 & E2 & Ea2 & HQ). exists x2, s2. unfold sbind. rewrite E. done. Qed.

(** ** Changes of the heap *)

Lemma repr_sds h h' a x : repr_at h' a = repr_at h a -> sds_at h a x -> sds_at h' a x.
Proof using Type.
  intros E (o & Ha & Hp). unfold repr_at in E. rewrite Ha in E. destruct (cells h' !! a) as [o'|] eqn:Ha'; [|done]. exists o'. split; [done|]. cbn in E. apply (inj Some) in E. congruence.
Qed.

Lemma held_keeps h h' : held_ok h -> keeps_values F h h' -> held_ok h'.
Proof using Type. intros H K a x Hx. destruct (H a x Hx) as [HF Hs]. split; [done|]. by apply (repr_sds h); [apply K|]. Qed.

Lemma repr_text h h' a : repr_at h' a = repr_at h a -> text_at h' a = text_at h a.
Proof using Type. intros E. unfold text_at. by rewrite (repr_value _ _ _ _ E). Qed.

Lemma db_kv_keeps h h' db : (forall a, a ∈ vals db -> repr_at h' a = repr_at h a) -> db_kv h' db = db_kv h db.
Proof using Type.
  intros H. apply map_eq. intros k. rewrite !lookup_db_kv. destruct (dict db !! k) as [a|] eqn:Ek; [|done]. cbn. rewrite (repr_value h h' a a); [done|]. apply H, in_vals. by exists k.
Qed.

(** A new heap that keeps what the databases and queues refer to, and a new
    command. *)
Lemma abs_cmd E J args s h' cm l :
  inv E J args s -> keeps_values (db_refs s ++ F) (sheap s) h' -> abs X (set_cmd (set_heap s h') cm l) = t_cmd (abs X s) cm (map (text_at h') l).
Proof using Type.
  intros Hi K. unfold abs, t_cmd. cbn. f_equal.
  - apply map_ext_in. intros db Hdb%list_elem_of_In. apply db_kv_keeps. intros a Ha. apply K, elem_of_app. left. apply list_elem_of_lookup in Hdb as [d Hd]. apply in_vals in Ha as [k Hk].
    apply in_refs. by exists d, db, k.
  - apply map_eq. intros id. rewrite !map_lookup_imap. destruct (clients s !! id) as [c|] eqn:Hc; [|done]. cbn. f_equal. unfold abs_client. rewrite (names_keep E J args s id c h' Hi Hc) by (intros a Ha; apply K; rewrite !elem_of_app; tauto). case_bool_decide as HX; [done|]. f_equal.
    apply map_ext_in. intros mc Hmc%list_elem_of_In. f_equal. apply map_ext_in. intros a Ha%list_elem_of_In. apply repr_text, K.
    assert (q !! id = Some (mstate c, mstate_write c)) as Hq by (rewrite <- (i_queues _ _ _ _ Hi); unfold queues; by rewrite lookup_fmap, Hc).
    destruct (i_queued _ _ _ _ Hi _ _ _ _ _ Hq HX Hmc Ha) as [x Hx]. destruct (i_held _ _ _ _ Hi a x Hx) as [HF _]. apply elem_of_app. by right.
Qed.

(** Only the heap and the arguments differ, and what they say is the same. *)
Lemma abs_same E J args s s' :
  inv E J args s -> dbs s' = dbs s -> clients s' = clients s -> cur s' = cur s -> cmd s' = cmd s -> dirty s' = dirty s -> propagated s' = propagated s ->
  keeps_values (db_refs s ++ F) (sheap s) (sheap s') -> map (text_at (sheap s')) (argv s') = map (text_at (sheap s)) (argv s) -> abs X s' = abs X s.
Proof using Type.
  intros Hi E1 E2 E3 E4 E5 E6 K Ht. assert (s' = set_cmd (set_heap s (sheap s')) (cmd s) (argv s')) as -> by (destruct s, s'; cbn in *; by subst).
  cbn [sheap argv set_cmd set_heap] in *. rewrite (abs_cmd _ _ _ _ _ _ _ Hi K), Ht. done.
Qed.

Lemma abs_heap E J args s h' :
  inv E J args s -> keeps_values (db_refs s ++ argv s ++ F) (sheap s) h' -> abs X (set_heap s h') = abs X s.
Proof using Type.
  intros Hi K. apply (abs_same E J args s); [done..| |].
  - intros a Ha. apply K. rewrite !elem_of_app in *. tauto.
  - apply map_ext_in. intros a Ha%list_elem_of_In. apply repr_text, K. rewrite !elem_of_app. tauto.
Qed.

Lemma has_args_keeps J args s s' : argv s' = argv s -> keeps_values (argv s) (sheap s) (sheap s') -> has_args J s args -> has_args J s' args.
Proof using Type.
  intros E K [Hl H]. split; [by rewrite E|]. rewrite E. intros i a Ha. destruct (H i a Ha) as (x & Hx & Hv & Hs). assert (a ∈ argv s) as Hin by (by eapply list_elem_of_lookup_2).
  exists x. split; [done|]. split; [by rewrite (keeps_value _ _ _ _ K Hin)|]. intros HJ. by apply (repr_sds (sheap s)), Hs; [apply K|].
Qed.

Lemma inv_heap E E' J args s h' :
  inv E J args s -> heap_ok h' (E' ++ db_refs s ++ argv s ++ F) -> keeps_values (db_refs s ++ argv s ++ F) (sheap s) h' -> inv E' J args (set_heap s h').
Proof using Type.
  intros Hi Hh K. destruct Hi as [I1 I2 [W1 W2 W3 W4 W5] I4 I5 I6 I7 I8 I9 I10 I11 I12]. constructor; [exact Hh|exact I2|by constructor|exact I4|exact I5|exact I6|exact I7| |exact I9| |exact I11|exact I12].
  - apply (has_args_keeps J args s); [done| |exact I8]. intros a Ha. apply K. apply elem_of_app. right. apply elem_of_app. by left.
  - eapply held_keeps; [exact I10|]. intros a Ha. apply K. rewrite !elem_of_app. tauto.
Qed.

(** Other arguments. *)
Lemma inv_argv E E' J J' args args' s h' cm l :
  inv E J args s -> heap_ok h' (E' ++ db_refs s ++ l ++ F) -> keeps_values (db_refs s ++ F) (sheap s) h' -> has_args J' (set_cmd (set_heap s h') cm l) args' ->
  inv E' J' args' (set_cmd (set_heap s h') cm l).
Proof using Type.
  intros [I1 I2 [W1 W2 W3 W4 W5] I4 I5 I6 I7 I8 I9 I10 I11 I12] Hh K HA. constructor; [exact Hh|exact I2|by constructor|exact I4|exact I5|exact I6|exact I7|exact HA|exact I9| |exact I11|exact I12].
  eapply held_keeps; [exact I10|]. intros a Ha. apply K, elem_of_app. by right.
Qed.

(** The same memory and arguments: what commands rely on between replies. *)
Definition same_mem (s s' : server) : Prop := sheap s' = sheap s /\ dbs s' = dbs s /\ argv s' = argv s.

(** ** Clients *)

Lemma abs_set_client s id c' :
  abs X (set_clients s (<[id := c']> (clients s))) = t_clients (abs X s) (<[id := abs_client (sheap s) (bool_decide (X = Some id)) c']> (a_clients (abs X s))).
Proof using Type.
  unfold abs, t_clients. cbn. f_equal. apply map_eq. intros i. rewrite map_lookup_imap. destruct (decide (id = i)) as [->|Hne]; [by rewrite !lookup_insert_eq|].
  rewrite !lookup_insert_ne by done. by rewrite map_lookup_imap.
Qed.

(** A client changes, but not its queue or its watched keys. *)
Lemma inv_client E J args s id c c' :
  inv E J args s -> clients s !! id = Some c -> mstate c' = mstate c -> mstate_write c' = mstate_write c -> c_watched c' = c_watched c -> is_Some (dbs s !! c_db c') ->
  inv E J args (set_clients s (<[id := c']> (clients s))).
Proof using Type.
  intros [I1 I2 [W1 W2 W3 W4 W5] I4 I5 I6 I7 I8 I9 I10 I11 I12] Hc E1 E2 E3 Hd. constructor; cbn; [exact I1|exact I2| | |exact I5| | |exact I8|exact I9|exact I10| |exact I12].
  - constructor; cbn.
    + intros d db k a ids i Hdb Hk Hin. destruct (W1 d db k a ids i Hdb Hk Hin) as (x & Hx & Hw). destruct (decide (id = i)) as [->|Hne]; [|exists x; by rewrite lookup_insert_ne].
      exists c'. rewrite lookup_insert_eq, E3. split; [done|]. congruence.
    + intros i x d k Hx Hw. destruct (decide (id = i)) as [->|Hne]; [rewrite lookup_insert_eq in Hx; injection Hx as <-; rewrite E3 in Hw; by eapply W2|].
      rewrite lookup_insert_ne in Hx by done. by eapply W2.
    + exact W3.
    + intros i x Hx. destruct (decide (id = i)) as [->|Hne]; [rewrite lookup_insert_eq in Hx; injection Hx as <-; rewrite E3; by eapply W4|]. rewrite lookup_insert_ne in Hx by done. by eapply W4.
    + exact W5.
  - unfold queues in *. cbn. rewrite fmap_insert, E1, E2. rewrite insert_id; [done|]. by rewrite lookup_fmap, Hc.
  - destruct (decide (id = u)) as [->|Hne]; [rewrite lookup_insert_eq; by eexists|by rewrite lookup_insert_ne].
  - intros i x Hx. destruct (decide (id = i)) as [->|Hne]; [rewrite lookup_insert_eq in Hx; by injection Hx as <-|]. rewrite lookup_insert_ne in Hx by done. by apply (I7 i).
  - rewrite <- I11. unfold wtab. cbn. by rewrite fmap_insert, E3, insert_id by (by rewrite lookup_fmap, Hc).
Qed.

Lemma alter_some {A} (f : A -> A) (m : gmap Z A) i x : m !! i = Some x -> alter f i m = <[i := f x]> m.
Proof using Type. intros H. apply map_eq. intros j. destruct (decide (i = j)) as [->|Hne]; [by rewrite lookup_alter_eq, lookup_insert_eq, H|by rewrite lookup_alter_ne, lookup_insert_ne]. Qed.

Lemma me_run E J args s : inv E J args s -> exists c, clients s !! u = Some c /\ me s = Some (c, s) /\ s_me (abs X s) = (abs_client (sheap s) (bool_decide (X = Some u)) c, abs X s).
Proof using Type.
  intros Hi. destruct (i_me _ _ _ _ Hi) as [c Hc]. pose proof (i_cur _ _ _ _ Hi) as Hu. exists c. split; [done|]. unfold me, get_client, bind, gets, lift. rewrite Hu, Hc. split; [done|].
  unfold s_me, sgets. rewrite lookup_abs_client. cbn. by rewrite Hu, Hc.
Qed.

Lemma put_me_run s c : put_me c s = Some (tt, set_clients s (<[cur s := c]> (clients s))).
Proof using Type. done. Qed.

(** A change of the client of the command. *)
Lemma put_me_sim E J args s c c' f :
  inv E J args s -> clients s !! u = Some c -> f (abs_client (sheap s) (bool_decide (X = Some u)) c) = abs_client (sheap s) (bool_decide (X = Some u)) c' ->
  mstate c' = mstate c -> mstate_write c' = mstate_write c -> c_watched c' = c_watched c -> is_Some (dbs s !! c_db c') ->
  sim (put_me c') (on_me f) s (fun _ _ s' => inv E J args s' /\ same_mem s s' /\ cmd s' = cmd s /\ clients s' = <[u := c']> (clients s)).
Proof using Type.
  intros Hi Hc Hf E1 E2 E3 E4. pose proof (i_cur _ _ _ _ Hi) as Hu. eexists _, _. split; [apply put_me_run|]. rewrite Hu. split.
  - rewrite abs_set_client. unfold on_me, smod. cbn [snd]. f_equal. cbn [abs a_cur]. rewrite Hu. erewrite alter_some; [by rewrite Hf|]. by rewrite lookup_abs_client, Hc.
  - split; [by eapply inv_client|]. done.
Qed.

Lemma addReply_sim E J args s r :
  inv E J args s -> sim (addReply r) (s_reply r) s (fun _ _ s' => inv E J args s' /\ same_mem s s' /\ cmd s' = cmd s).
Proof using Type.
  intros Hi. destruct (me_run E J args s Hi) as (c & Hc & Hm & _). unfold addReply. eapply sim_left; [exact Hm|done|]. eapply sim_mono; [eapply put_me_sim; [done|done|done|done|done|done|]|].
  - cbn. by apply (i_db _ _ _ _ Hi u).
  - cbn. tauto.
Qed.

(** ** Databases *)

Definition empty_db : redisDb := mk_db ∅ ∅ ∅.
(** The values of the other databases. *)
Definition rest_refs (s : server) (d : nat) : list addr := refs_of (<[d := empty_db]> (dbs s)).

Lemma refs_here s d db : dbs s !! d = Some db -> db_refs s ≡ₚ vals db ++ rest_refs s d.
Proof using Type. intros H. destruct (refs_split _ _ _ H) as (rest & E1 & E2). unfold db_refs, rest_refs. by rewrite E1, E2. Qed.

Lemma refs_changed s d db db' : dbs s !! d = Some db -> refs_of (<[d := db']> (dbs s)) ≡ₚ vals db' ++ rest_refs s d.
Proof using Type. intros H. destruct (refs_split _ _ _ H) as (rest & E1 & E2). unfold rest_refs. by rewrite !E2. Qed.

Lemma vals_delete db k a : dict db !! k = Some a -> vals db ≡ₚ a :: vals (set_dict db (delete k (dict db))).
Proof using Type. intros H. unfold vals. cbn. by rewrite <- (map_to_list_delete _ _ _ H). Qed.

Lemma vals_overwrite db k a b : dict db !! k = Some a -> vals (set_dict db (<[k := b]> (dict db))) ≡ₚ b :: vals (set_dict db (delete k (dict db))).
Proof using Type. intros H. rewrite <- insert_delete_eq. exact (vals_insert (set_dict db (delete k (dict db))) k b (lookup_delete_eq (dict db) k)). Qed.

Definition put_database (s : server) (h : heap) (d : nat) (db : redisDb) : server := set_dbs (set_heap s h) (<[d := db]> (dbs s)).

Lemma inv_db E E' J args s h' d db db' :
  inv E J args s -> dbs s !! d = Some db -> watched_keys db' = watched_keys db -> (forall k, is_Some (expires db' !! k) -> is_Some (dict db' !! k)) ->
  heap_ok h' (E' ++ vals db' ++ rest_refs s d ++ argv s ++ F) -> keeps_values (argv s ++ F) (sheap s) h' -> inv E' J args (put_database s h' d db').
Proof using Type.
  intros Hi Hd Hw Hex Hh K. destruct Hi as [I1 I2 [W1 W2 W3 W4 W5] I4 I5 I6 I7 I8 I9 I10 I11 I12]. assert (d < length (dbs s))%nat as Hlt by (by eapply lookup_lt_Some). constructor; cbn.
  - unfold db_refs. cbn. rewrite (refs_changed s d db db' Hd). by rewrite <- !app_assoc.
  - intros i x k Hx. destruct (decide (d = i)) as [<-|Hne]; [rewrite list_lookup_insert_eq in Hx by done; injection Hx as <-; apply Hex|]. rewrite list_lookup_insert_ne in Hx by done. by eapply I2.
  - constructor; cbn.
    + intros i x k a ids id Hx Hk Hin. destruct (decide (d = i)) as [<-|Hne]; [rewrite list_lookup_insert_eq in Hx by done; injection Hx as <-; rewrite Hw in Hk; by eapply W1|].
      rewrite list_lookup_insert_ne in Hx by done. by eapply W1.
    + intros id c i k Hc Hin. destruct (W2 id c i k Hc Hin) as (x & a & ids & Hx & Hk & Hids). destruct (decide (d = i)) as [<-|Hne]; [|exists x, a, ids; by rewrite list_lookup_insert_ne].
      exists db', a, ids. rewrite list_lookup_insert_eq, Hw by done. rewrite Hd in Hx. by injection Hx as <-.
    + intros i x k a ids Hx Hk. destruct (decide (d = i)) as [<-|Hne]; [rewrite list_lookup_insert_eq in Hx by done; injection Hx as <-; rewrite Hw in Hk; by eapply W3|].
      rewrite list_lookup_insert_ne in Hx by done. by eapply W3.
    + exact W4.
    + intros i x k a ids Hx Hk. destruct (decide (d = i)) as [<-|Hne]; [rewrite list_lookup_insert_eq in Hx by done; injection Hx as <-; rewrite Hw in Hk; by eapply W5|].
      rewrite list_lookup_insert_ne in Hx by done. by eapply W5.
  - exact I4.
  - exact I5.
  - exact I6.
  - intros id c Hc. destruct (I7 id c Hc) as [x Hx]. destruct (decide (d = c_db c)) as [<-|Hne]; [rewrite list_lookup_insert_eq by done; by eexists|rewrite list_lookup_insert_ne by done; by eexists].
  - apply (has_args_keeps J args s); [done| |exact I8]. intros a Ha. apply K, elem_of_app. by left.
  - exact I9.
  - eapply held_keeps; [exact I10|]. intros a Ha. apply K, elem_of_app. by right.
  - rewrite <- I11. unfold wtab. cbn. by rewrite list_fmap_insert, Hw, list_insert_id by (by rewrite list_lookup_fmap, Hd).
  - exact I12.
Qed.

Lemma abs_db E J args s h' d db db' :
  inv E J args s -> dbs s !! d = Some db -> keeps_values (rest_refs s d ++ argv s ++ F) (sheap s) h' ->
  abs X (put_database s h' d db') = t_dbs (abs X s) (<[d := db_kv h' db']> (a_dbs (abs X s))).
Proof using Type.
  intros Hi Hd K.
  assert (abs X (put_database s h' d db') = t_dbs (abs X (set_heap (set_dbs s (<[d := empty_db]> (dbs s))) h')) (<[d := db_kv h' db']> (a_dbs (abs X (set_heap (set_dbs s (<[d := empty_db]> (dbs s))) h'))))) as ->.
  { unfold abs, t_dbs, put_database. cbn. f_equal. by rewrite <- !list_fmap_insert, list_insert_insert_eq. }
  assert (d < length (dbs s))%nat as Hlt by (by eapply lookup_lt_Some).
  assert (forall i db0, i <> d -> dbs s !! i = Some db0 -> db_kv h' db0 = db_kv (sheap s) db0) as Hother.
  { intros i db0 Hne Hi0. apply db_kv_keeps. intros a [k Hk]%in_vals. apply K, elem_of_app. left. apply in_refs. exists i, db0, k. by rewrite list_lookup_insert_ne. }
  unfold abs, t_dbs. cbn. f_equal.
  - apply list_eq. intros i. destruct (decide (d = i)) as [<-|Hne]; [rewrite !list_lookup_insert_eq by (rewrite !length_map, ?length_insert; done); done|].
    rewrite !list_lookup_insert_ne by done. rewrite !list_lookup_fmap, list_lookup_insert_ne by done. destruct (dbs s !! i) as [db0|] eqn:E0; [|done]. cbn. f_equal. by apply (Hother i).
  - apply map_eq. intros id. rewrite !map_lookup_imap. destruct (clients s !! id) as [c|] eqn:Hc; [|done]. cbn. f_equal. unfold abs_client. rewrite (names_keep E J args s id c h' Hi Hc) by (intros a Ha; apply K; rewrite !elem_of_app; tauto). case_bool_decide as HX; [done|]. f_equal.
    apply map_ext_in. intros mc Hmc%list_elem_of_In. f_equal. apply map_ext_in. intros a Ha%list_elem_of_In. apply repr_text, K.
    assert (q !! id = Some (mstate c, mstate_write c)) as Hq by (rewrite <- (i_queues _ _ _ _ Hi); unfold queues; by rewrite lookup_fmap, Hc).
    destruct (i_queued _ _ _ _ Hi _ _ _ _ _ Hq HX Hmc Ha) as [x Hx]. destruct (i_held _ _ _ _ Hi a x Hx) as [HF _]. apply elem_of_app. right. apply elem_of_app. by right.
  - apply map_ext_in. intros a Ha%list_elem_of_In. apply repr_text, K. apply elem_of_app. right. apply elem_of_app. by left.
Qed.

Lemma db_kv_insert h h' db k a v ex w :
  (forall k' b, k' <> k -> dict db !! k' = Some b -> value_at h' b = value_at h b) -> value_at h' a = Some v -> (forall k', k' <> k -> ex !! k' = expires db !! k') ->
  db_kv h' (mk_db (<[k := a]> (dict db)) ex w) = <[k := (v, ex !! k)]> (db_kv h db).
Proof using Type.
  intros H Ha He. apply map_eq. intros k'. rewrite lookup_db_kv. cbn. destruct (decide (k = k')) as [<-|Hne]; [by rewrite !lookup_insert_eq; cbn; rewrite Ha|].
  rewrite !lookup_insert_ne, lookup_db_kv by done. destruct (dict db !! k') as [b|] eqn:Eb; [|done]. cbn. rewrite (H k' b) by done. by rewrite He.
Qed.

Lemma db_kv_delete h h' db k ex w :
  (forall k' b, k' <> k -> dict db !! k' = Some b -> value_at h' b = value_at h b) -> (forall k', k' <> k -> ex !! k' = expires db !! k') ->
  db_kv h' (mk_db (delete k (dict db)) ex w) = delete k (db_kv h db).
Proof using Type.
  intros H He. apply map_eq. intros k'. rewrite lookup_db_kv. cbn. destruct (decide (k = k')) as [<-|Hne]; [by rewrite !lookup_delete_eq|].
  rewrite !lookup_delete_ne, lookup_db_kv by done. destruct (dict db !! k') as [b|] eqn:Eb; [|done]. cbn. rewrite (H k' b) by done. by rewrite He.
Qed.

(** What is stored at a key. *)
Definition entry_at (s : server) (d : nat) (k : key) (a : addr) (v : value) (w : option Z) : Prop :=
  exists db, dbs s !! d = Some db /\ dict db !! k = Some a /\ value_at (sheap s) a = Some v /\ expires db !! k = w.

Definition others_stay (d : nat) (k : key) (s s' : server) : Prop :=
  forall d' k' a v w, (d', k') <> (d, k) -> entry_at s d' k' a v w -> entry_at s' d' k' a v w.

Lemma spec_db s d db : dbs s !! d = Some db -> s_db d (abs X s) = (db_kv (sheap s) db, abs X s).
Proof using Type. intros H. unfold s_db, sgets. by rewrite lookup_abs_db, H. Qed.

Lemma run_db s d db : dbs s !! d = Some db -> get_db d s = Some (db, s).
Proof using Type. intros H. unfold get_db, bind, gets, lift. by rewrite H. Qed.

Lemma abs_entry s d k a v w : entry_at s d k a v w -> exists db, dbs s !! d = Some db /\ db_kv (sheap s) db !! k = Some (v, w).
Proof using Type. intros (db & H1 & H2 & H3 & H4). exists db. split; [done|]. rewrite lookup_db_kv, H2. cbn. rewrite H3. cbn. by rewrite H4. Qed.

(** Every key of a database has a value. *)
Lemma db_cases E J args s d db k :
  inv E J args s -> dbs s !! d = Some db ->
  (dict db !! k = None /\ db_kv (sheap s) db !! k = None /\ expires db !! k = None) \/
  (exists a v w, entry_at s d k a v w /\ db_kv (sheap s) db !! k = Some (v, w) /\ dict db !! k = Some a /\ expires db !! k = w /\ value_at (sheap s) a = Some v).
Proof using Type.
  intros Hi Hd. rewrite lookup_db_kv. destruct (dict db !! k) as [a|] eqn:Ek.
  - right. destruct (ho_live _ _ (i_heap _ _ _ _ Hi) a) as [o Ho].
    { apply elem_of_app. right. apply elem_of_app. left. apply in_refs. by exists d, db, k. }
    exists a, (value_of o), (expires db !! k). assert (value_at (sheap s) a = Some (value_of o)) as Hv by (unfold value_at; by rewrite Ho).
    split; [by exists db|]. cbn. by rewrite Hv.
  - left. split; [done|]. split; [done|]. destruct (expires db !! k) as [w|] eqn:Ew; [|done]. destruct (i_deadlines _ _ _ _ Hi d db k Hd) as [a Ha]; [by eexists|congruence].
Qed.

(** ** Deleting a key *)

Lemma entry_other E J args s h' d db db' d' k' k a v w :
  inv E J args s -> dbs s !! d = Some db -> keeps_values (vals db' ++ rest_refs s d) (sheap s) h' ->
  (forall k2, k2 <> k -> dict db' !! k2 = dict db !! k2 /\ expires db' !! k2 = expires db !! k2) ->
  (d', k') <> (d, k) -> entry_at s d' k' a v w -> entry_at (put_database s h' d db') d' k' a v w.
Proof using Type.
  intros Hi Hd K Hk Hne (db0 & H1 & H2 & H3 & H4). assert (d < length (dbs s))%nat as Hlt by (by eapply lookup_lt_Some). unfold entry_at, put_database. cbn. destruct (decide (d = d')) as [<-|Hdd].
  - rewrite Hd in H1. injection H1 as <-. destruct (Hk k') as [Ek Ee]; [congruence|]. exists db'. rewrite list_lookup_insert_eq by done. rewrite Ek, Ee. split; [done|]. split; [done|]. split; [|done].
    rewrite (keeps_value _ _ _ _ K); [done|]. apply elem_of_app. left. apply in_vals. exists k'. by rewrite Ek.
  - exists db0. rewrite list_lookup_insert_ne by done. split; [done|]. split; [done|]. split; [|done]. rewrite (keeps_value _ _ _ _ K); [done|]. apply elem_of_app. right.
    apply in_refs. exists d', db0, k'. by rewrite list_lookup_insert_ne.
Qed.

(** What an operation on key [k] of database [d] leaves as it was. *)
Definition touches_only (E : list addr) (J : nat -> bool) (args : list (list Z)) (d : nat) (k : key) (s s' : server) : Prop :=
  inv E J args s' /\ argv s' = argv s /\ cmd s' = cmd s /\ clients s' = clients s /\ others_stay d k s s' /\ keeps_values (argv s ++ F) (sheap s) (sheap s') /\ length (dbs s') = length (dbs s).

Lemma touches_refl E J args d k s : inv E J args s -> touches_only E J args d k s s.
Proof using Type. intros Hi. split; [done|]. split; [done|]. split; [done|]. split; [done|]. split; [by intros ? ? ? ? ? _ ?|]. split; [apply keeps_values_refl|done]. Qed.

Lemma dbSyncDelete_sim E J args s d k :
  inv E J args s -> is_Some (dbs s !! d) -> sim (dbSyncDelete d k) (s_delete d k) s (fun x y s' => x = y /\ touches_only E J args d k s s').
Proof using Type.
  intros Hi [db Hd]. assert (d < length (dbs s))%nat as Hlt by (by eapply lookup_lt_Some). unfold sim, dbSyncDelete, s_delete, bind, sbind. rewrite (run_db s d db Hd).
  destruct (db_cases E J args s d db k Hi Hd) as [(H1 & H2 & H3)|(a & v & w & He & H2 & H1 & H3 & Hv)].
  - cbn [dict set_expires]. rewrite H1. unfold bind, put_db, modify, ret. eexists _, _. split; [reflexivity|]. rewrite (spec_db s d db Hd). cbn [fst snd]. rewrite H2.
    assert (set_expires db (delete k (expires db)) = db) as -> by (destruct db; unfold set_expires; cbn in *; f_equal; by apply delete_id).
    rewrite list_insert_id by done. assert (set_dbs s (dbs s) = s) as -> by (by destruct s). split.
    + unfold s_put_db, smod. cbn [snd]. rewrite delete_id by done. assert (a_dbs (abs X s) !! d = Some (db_kv (sheap s) db)) as Ha by (by rewrite lookup_abs_db, Hd).
      unfold t_dbs. rewrite list_insert_id by done. by destruct (abs X s).
    + split; [done|by apply touches_refl].
  - cbn [set_expires dict]. rewrite H1. pose proof (i_heap _ _ _ _ Hi) as Hh. set (db' := mk_db (delete k (dict db)) (delete k (expires db)) (watched_keys db)).
    assert (heap_ok (sheap s) (a :: E ++ vals db' ++ rest_refs s d ++ argv s ++ F)) as Hh'.
    { eapply heap_ok_proper; [|exact Hh]. rewrite (refs_here s d db Hd), (vals_delete db k a H1). change (vals (set_dict db (delete k (dict db)))) with (vals db').
      rewrite <- !app_assoc. cbn. by rewrite <- Permutation_middle. }
    destruct (decrRefCount_ok _ _ _ Hh') as (h1 & Ed & Hh1 & K1 & _).
    assert (keeps_values (vals db' ++ rest_refs s d ++ argv s ++ F) (sheap s) h1) as K by (intros b Hb; apply K1, elem_of_app; by right).
    unfold bind, put_db, modify, ret, decr, on_heap. cbn [sheap set_dbs]. rewrite Ed. cbn [mbind option_bind]. exists true, (put_database s h1 d db'). split; [reflexivity|].
    rewrite (spec_db s d db Hd). cbn [fst snd]. rewrite H2. unfold s_put_db, smod. cbn [fst snd]. split; [|split; [done|]].
    + rewrite (abs_db E J args s h1 d db db' Hi Hd) by (intros b Hb; apply K, elem_of_app; by right). assert (db_kv h1 db' = delete k (db_kv (sheap s) db)) as ->; [|done]. apply db_kv_delete; [|intros k' Hne; cbn; by rewrite lookup_delete_ne].
      intros k' b Hne Hb. apply (keeps_value _ _ _ _ K), elem_of_app. left. apply in_vals. exists k'. cbn. by rewrite lookup_delete_ne.
    + split; [|split; [done|]; split; [done|]; split; [done|]; split; [|split; [|cbn; by rewrite length_insert]]].
      * eapply inv_db; [done|done|done| |exact Hh1|intros b Hb; apply K, elem_of_app; right; apply elem_of_app; by right].
        intros k'. cbn. destruct (decide (k = k')) as [<-|Hne]; [rewrite lookup_delete_eq; by intros [? ?]|]. rewrite !lookup_delete_ne by done. by eapply i_deadlines.
      * intros d' k' a' v' w' Hne He'. eapply entry_other; [done|done| | |done|done]; [intros b Hb; apply K; rewrite app_assoc; apply elem_of_app; by left|].
        intros k2 Hk2. cbn. by rewrite !lookup_delete_ne.
      * intros b Hb. apply K. rewrite app_assoc. apply elem_of_app. by right.
Qed.

(** ** Expiration and lookup *)

Section Env.
Context {e : env}.

Lemma propagate_sim E J args s d l : inv E J args s -> sim (propagate d l) (s_log d l) s (fun _ _ s' => inv E J args s' /\ same_mem s s' /\ cmd s' = cmd s /\ clients s' = clients s).
Proof using Type. intros [I1 I2 [W1 W2 W3 W4 W5] I4 I5 I6 I7 I8 I9 I10 I11 I12]. eexists _, _. split; [reflexivity|]. split; [done|]. split; [constructor; try done; by constructor|done]. Qed.

Lemma add_dirty_sim E J args s n : inv E J args s -> sim (add_dirty n) (s_dirty n) s (fun _ _ s' => inv E J args s' /\ same_mem s s' /\ cmd s' = cmd s /\ clients s' = clients s).
Proof using Type. intros [I1 I2 [W1 W2 W3 W4 W5] I4 I5 I6 I7 I8 I9 I10 I11 I12]. eexists _, _. split; [reflexivity|]. split; [done|]. split; [constructor; try done; by constructor|done]. Qed.

Lemma keyIsExpired_run E J args s d db k :
  inv E J args s -> dbs s !! d = Some db -> keyIsExpired e d k s = Some (match db_kv (sheap s) db !! k with Some (_, w) => past e w | None => false end, s).
Proof using Type.
  intros Hi Hd. unfold keyIsExpired, getExpire, bind. rewrite (run_db s d db Hd). destruct (db_cases E J args s d db k Hi Hd) as [(H1 & -> & H3)|(a & v & w & _ & -> & H1 & H3 & _)]; rewrite H3; [done|].
  destruct w as [w|]; [|done]. rewrite bool_decide_eq_true_2 by (rewrite H1; by eexists). cbn. by destruct (w <? 0).
Qed.

Lemma expireIfNeeded_sim E J args s d k :
  inv E J args s -> is_Some (dbs s !! d) -> sim (expireIfNeeded e d k) (s_expire e d k) s (fun x y s' => x = y /\ touches_only E J args d k s s').
Proof using Type.
  intros Hi [db Hd]. unfold expireIfNeeded. eapply sim_left; [by eapply keyIsExpired_run|done|]. unfold s_expire. eapply sim_right; [by apply spec_db|].
  destruct (db_kv (sheap s) db !! k) as [[v w]|] eqn:Ek; [|apply sim_ret; split; [done|by apply touches_refl]].
  destruct (past e w); cbn [negb]; [|apply sim_ret; split; [done|by apply touches_refl]]. destruct (masterhost e); [apply sim_ret; split; [done|by apply touches_refl]|].
  unfold propagateExpire. apply sim_bind. eapply sim_mono; [by apply (propagate_sim E J args)|]. intros _ _ s1 (Hi1 & (M1 & M2 & M3) & C1 & C2). cbn beta.
  assert (dbs s1 !! d = Some db) as Hd1 by (by rewrite M2). destruct (dbSyncDelete_sim E J args s1 d k Hi1) as (x & s2 & E2 & A2 & Hx & T2); [by eexists|].
  exists x, s2. split; [done|]. revert A2 Hx. unfold s_delete, sbind. rewrite (spec_db s1 d db Hd1). cbn. rewrite M1, Ek. cbn. intros A2 Hx. split; [done|]. split; [by rewrite Hx|].
  destruct T2 as (T1 & T2 & T3 & T4 & T5 & T6 & T7). split; [done|]. split; [by rewrite T2, M3|]. split; [by rewrite T3, C1|]. split; [by rewrite T4, C2|]. rewrite M1, M2, M3 in *. split; [|done].
  intros d' k' a' v' w' Hne (db0 & ? & ? & ? & ?). apply T5; [done|]. exists db0. by rewrite M1, M2.
Qed.

(** The object at a key and the entry it stands for. *)
Definition found (s : server) (d : nat) (k : key) (x : option addr) (y : option entry) : Prop :=
  match x, y with
  | None, None => exists db, dbs s !! d = Some db /\ dict db !! k = None /\ expires db !! k = None
  | Some a, Some (v, w) => entry_at s d k a v w
  | _, _ => False
  end.

Lemma lookupKey_sim E J args s d k :
  inv E J args s -> is_Some (dbs s !! d) -> sim (lookupKey d k) (s_lookup d k) s (fun x y s' => s' = s /\ found s d k x y).
Proof using Type.
  intros Hi [db Hd]. unfold lookupKey, s_lookup, sim, bind, sbind. rewrite (run_db s d db Hd), (spec_db s d db Hd). eexists _, _. split; [reflexivity|]. split; [done|]. split; [done|]. cbn.
  destruct (db_cases E J args s d db k Hi Hd) as [(H1 & -> & H3)|(a & v & w & He & -> & H1 & H3 & _)]; rewrite H1; [by exists db|done].
Qed.

Lemma touches_trans E E' J args d k s1 s2 s3 : touches_only E' J args d k s1 s2 -> touches_only E J args d k s2 s3 -> touches_only E J args d k s1 s3.
Proof using Type.
  intros (A1 & A2 & A3 & A4 & A5 & A6 & A7) (B1 & B2 & B3 & B4 & B5 & B6 & B7). split; [done|]. split; [congruence|]. split; [congruence|]. split; [congruence|].
  split; [intros d' k' a v w Hne H; by apply B5, A5|]. split; [|congruence]. eapply keeps_values_trans; [done|by rewrite <- A2].
Qed.

Lemma db_in s s' d : length (dbs s') = length (dbs s) -> is_Some (dbs s !! d) -> is_Some (dbs s' !! d).
Proof using Type. intros E H. apply lookup_lt_is_Some. rewrite E. by apply lookup_lt_is_Some. Qed.

Lemma lookupKeyWrite_sim E J args s d k :
  inv E J args s -> is_Some (dbs s !! d) -> sim (lookupKeyWrite e d k) (s_find e d k) s (fun x y s' => touches_only E J args d k s s' /\ found s' d k x y).
Proof using Type.
  intros Hi Hd. unfold lookupKeyWrite, s_find. apply sim_bind. eapply sim_mono; [by apply (expireIfNeeded_sim E J args)|]. intros x y s1 [_ T]. cbn beta. pose proof T as (Hi1 & _ & _ & _ & _ & _ & L).
  eapply sim_mono; [apply (lookupKey_sim E J args); [done|by eapply db_in]|]. intros x' y' s2 [-> H]. done.
Qed.

Lemma lookupKeyRead_sim E J args s d k :
  inv E J args s -> is_Some (dbs s !! d) -> sim (lookupKeyRead e d k) (s_read e d k) s (fun x y s' => touches_only E J args d k s s' /\ (x = None /\ y = None \/ found s' d k x y)).
Proof using Type.
  intros Hi Hd. unfold lookupKeyRead, lookupKeyReadWithFlags, s_read. apply sim_bind. eapply sim_mono; [by apply (expireIfNeeded_sim E J args)|]. intros x y s1 [-> T]. cbn beta.
  pose proof T as (Hi1 & _ & _ & _ & _ & _ & L). destruct (me_run E J args s1 Hi1) as (c & Hc & Hm & Hs). eapply sim_left; [exact Hm|done|]. eapply sim_right; [exact Hs|].
  eapply sim_left; [done|done|]. eapply sim_right; [done|]. cbn [abs a_cmd abs_client a_master]. destruct (y && negb (masterhost e)); [apply sim_ret; split; [done|by left]|].
  destruct (y && negb (CLIENT_MASTER c) && _); [apply sim_ret; split; [done|by left]|].
  eapply sim_mono; [apply (lookupKey_sim E J args); [done|by eapply db_in]|]. intros x' y' s2 [-> H]. split; [done|by right].
Qed.

(** ** Telling the clients that watch *)

(** The clients change, but not their queues or watched keys. *)
Lemma inv_clients E J args s (g : Z -> client -> client) m' :
  inv E J args s -> (forall i, m' !! i = g i <$> clients s !! i) -> (forall i c, mstate (g i c) = mstate c /\ mstate_write (g i c) = mstate_write c /\ c_watched (g i c) = c_watched c /\ c_db (g i c) = c_db c) ->
  inv E J args (set_clients s m').
Proof using Type.
  intros [I1 I2 [W1 W2 W3 W4 W5] I4 I5 I6 I7 I8 I9 I10 I11 I12] Hm Hg.
  assert (forall i x, m' !! i = Some x -> exists c, clients s !! i = Some c /\ x = g i c) as Hback.
  { intros i x Hx. rewrite Hm in Hx. destruct (clients s !! i) as [c|]; [|done]. exists c. split; [done|]. by injection Hx as <-. }
  constructor; cbn; [exact I1|exact I2| | |exact I5| | |exact I8|exact I9|exact I10| |exact I12].
  - constructor; cbn.
    + intros d db k a ids i Hdb Hk Hin. destruct (W1 d db k a ids i Hdb Hk Hin) as (x & Hx & Hw). exists (g i x). rewrite Hm, Hx. split; [done|]. by destruct (Hg i x) as (_ & _ & -> & _).
    + intros i x d k Hx Hw. destruct (Hback i x Hx) as (c & Hc & ->). destruct (Hg i c) as (_ & _ & E3 & _). rewrite E3 in Hw. by eapply W2.
    + exact W3.
    + intros i x Hx. destruct (Hback i x Hx) as (c & Hc & ->). destruct (Hg i c) as (_ & _ & -> & _). by eapply W4.
    + exact W5.
  - rewrite <- I4. unfold queues. cbn. apply map_eq. intros i. rewrite !lookup_fmap, Hm. destruct (clients s !! i) as [c|]; [|done]. cbn. by destruct (Hg i c) as (-> & -> & _ & _).
  - destruct I6 as [c Hc]. rewrite Hm, Hc. by eexists.
  - intros i x Hx. destruct (Hback i x Hx) as (c & Hc & ->). destruct (Hg i c) as (_ & _ & _ & ->). by apply (I7 i).
  - rewrite <- I11. unfold wtab. cbn. f_equal. apply map_eq. intros i. rewrite !lookup_fmap, Hm. destruct (clients s !! i) as [c|]; [|done]. cbn. by destruct (Hg i c) as (_ & _ & -> & _).
Qed.

Definition dirty_cas (c : client) : client := c_flags c (CLIENT_MULTI c) true (CLIENT_DIRTY_EXEC c).
Definition marked (P : Z -> bool) (i : Z) (c : client) : client := if P i then dirty_cas c else c.

Lemma marked_same P i c : mstate (marked P i c) = mstate c /\ mstate_write (marked P i c) = mstate_write c /\ c_watched (marked P i c) = c_watched c /\ c_db (marked P i c) = c_db c.
Proof using Type. unfold marked. by destruct (P i). Qed.

(** Marking some clients, one after the other. *)
Lemma mark_run ids : forall s, (forall i, i ∈ ids -> is_Some (clients s !! i)) ->
  exists m', for_each ids mark_dirty s = Some (tt, set_clients s m') /\ forall i, m' !! i = marked (fun i => bool_decide (i ∈ ids)) i <$> clients s !! i.
Proof using Type.
  induction ids as [|x ids IH]; intros s Hin; cbn [for_each].
  - exists (clients s). split; [by destruct s|]. intros i. unfold marked. rewrite bool_decide_eq_false_2 by apply not_elem_of_nil. by destruct (clients s !! i).
  - destruct (Hin x) as [c Hc]; [left|]. unfold bind at 1. unfold mark_dirty, get_client, put_client, bind, gets, lift, modify. rewrite Hc. fold mark_dirty.
    destruct (IH (set_clients s (<[x := dirty_cas c]> (clients s)))) as (m' & E' & Hm').
    { intros i Hi. cbn. destruct (decide (x = i)) as [->|Hne]; [rewrite lookup_insert_eq; by eexists|]. rewrite lookup_insert_ne by done. apply Hin. by right. }
    unfold dirty_cas in E'. exists m'. split; [exact E'|]. intros i. rewrite Hm'. cbn. unfold marked. destruct (decide (x = i)) as [->|Hne].
    + rewrite lookup_insert_eq, Hc. cbn. f_equal. rewrite (bool_decide_eq_true_2 (i ∈ i :: ids)) by left. by destruct (bool_decide (i ∈ ids)).
    + rewrite lookup_insert_ne by done. destruct (clients s !! i) as [c'|]; [|done]. cbn. f_equal. destruct (decide (i ∈ ids)) as [Hi|Hi].
      * rewrite !bool_decide_eq_true_2; [done|by right|done].
      * rewrite !bool_decide_eq_false_2; [done| |done]. rewrite elem_of_cons. by intros [->|?].
Qed.

(** The state with clients marked. *)
Lemma marked_abs s (P : Z -> bool) m' (f : aclient -> aclient) :
  (forall i, m' !! i = marked P i <$> clients s !! i) ->
  (forall i c, clients s !! i = Some c -> abs_client (sheap s) (bool_decide (X = Some i)) (marked P i c) = f (abs_client (sheap s) (bool_decide (X = Some i)) c)) ->
  abs X (set_clients s m') = t_clients (abs X s) (f <$> a_clients (abs X s)).
Proof using Type.
  intros Hm Hf. unfold abs, t_clients. cbn. f_equal. apply map_eq. intros i. rewrite map_lookup_imap, lookup_fmap, map_lookup_imap, Hm.
  destruct (clients s !! i) as [c|] eqn:Hc; [|done]. cbn. f_equal. by apply Hf.
Qed.

Lemma signalModifiedKey_sim E J args s d k :
  inv E J args s -> is_Some (dbs s !! d) -> sim (signalModifiedKey d k) (s_touch d k) s (fun _ _ s' => inv E J args s' /\ same_mem s s' /\ cmd s' = cmd s).
Proof using Type.
  intros Hi [db Hd]. unfold signalModifiedKey, touchWatchedKey. pose proof (i_watch _ _ _ _ Hi) as HW.
  set (ids := match watched_keys db !! k with Some (_, ids) => ids | None => [] end).
  assert (forall i c, clients s !! i = Some c -> i ∈ ids <-> (d, k) ∈ watched_names held_text (c_watched c)) as Hids.
  { intros i c Hc. unfold ids. split.
    - destruct (watched_keys db !! k) as [[a l]|] eqn:El; [|by intros ?%elem_of_nil]. intros Hin. destruct (wo_listed _ s HW d db k a l i Hd El Hin) as (c' & Hc' & Hw). congruence.
    - intros Hw. destruct (wo_watching _ s HW i c d k Hc Hw) as (db' & a & l & Hd' & Hl & Hin). rewrite Hd in Hd'. injection Hd' as <-. by rewrite Hl. }
  destruct (mark_run ids s) as (m' & E' & Hm').
  { intros i Hin. unfold ids in Hin. destruct (watched_keys db !! k) as [[a l]|] eqn:El; [|by apply elem_of_nil in Hin]. destruct (wo_listed _ s HW d db k a l i Hd El Hin) as (c & Hc & _). by eexists. }
  exists tt, (set_clients s m'). split.
  { unfold bind. rewrite (run_db s d db Hd), (watchers_run _ _ _ _ _ _ k Hi Hd). rewrite <- E'. unfold ids. by destruct (watched_keys db !! k) as [[a l]|]. }
  split.
  - unfold s_touch, smod. cbn [snd]. apply (marked_abs s _ m' _ Hm'). intros i c Hc. unfold notice, marked. cbn [a_watched abs_client].
    rewrite (names_held _ _ _ _ _ _ Hi Hc), (bool_decide_ext _ _ (Hids i c Hc)). by destruct (bool_decide ((d, k) ∈ watched_names held_text (c_watched c))).
  - split; [|done]. eapply inv_clients; [done|exact Hm'|]. intros i c. apply marked_same.
Qed.

(** ** Storing at a key *)

Definition with_entry (db : redisDb) (k : key) (a : addr) (ex : gmap key Z) : redisDb := mk_db (<[k := a]> (dict db)) ex (watched_keys db).
Definition without (db : redisDb) (k : key) : redisDb := set_dict db (delete k (dict db)).

Lemma vals_with db k a ex : vals (with_entry db k a ex) ≡ₚ a :: vals (without db k).
Proof using Type. unfold vals. cbn. rewrite <- insert_delete_eq. by rewrite map_to_list_insert by apply lookup_delete_eq. Qed.

Lemma put_entry E E' J args s h' d db k a v ex :
  inv E J args s -> dbs s !! d = Some db -> value_at h' a = Some v -> (forall k', k' <> k -> ex !! k' = expires db !! k') ->
  heap_ok h' (E' ++ a :: vals (without db k) ++ rest_refs s d ++ argv s ++ F) ->
  keeps_values (vals (without db k) ++ rest_refs s d ++ argv s ++ F) (sheap s) h' ->
  abs X (put_database s h' d (with_entry db k a ex)) = snd (s_store d k (v, ex !! k) (abs X s)) /\
  touches_only E' J args d k s (put_database s h' d (with_entry db k a ex)) /\ entry_at (put_database s h' d (with_entry db k a ex)) d k a v (ex !! k).
Proof using Type.
  intros Hi Hd Hv Hex Hh K. assert (d < length (dbs s))%nat as Hlt by (by eapply lookup_lt_Some).
  assert (forall k' b, k' <> k -> dict db !! k' = Some b -> b ∈ vals (without db k)) as Hin by (intros k' b Hne Hb; apply in_vals; exists k'; cbn; by rewrite lookup_delete_ne).
  assert (keeps_values (argv s ++ F) (sheap s) h') as KA by (intros b Hb; apply K; rewrite app_assoc; apply elem_of_app; by right). split; [|split].
  - rewrite (abs_db E J args s h' d db (with_entry db k a ex) Hi Hd) by (intros b Hb; apply K, elem_of_app; by right). unfold s_store, sbind. rewrite (spec_db s d db Hd). unfold s_put_db, smod. cbn [snd].
    unfold with_entry. rewrite (db_kv_insert (sheap s) h' db k a v ex); [done| |done|done]. intros k' b Hne Hb. apply (keeps_value _ _ _ _ K), elem_of_app. left. by eapply Hin.
  - split; [|split; [done|]; split; [done|]; split; [done|]; split; [|split; [exact KA|cbn; by rewrite length_insert]]].
    + eapply inv_db; [done|done|done| | |done].
      * intros k'. cbn. destruct (decide (k = k')) as [<-|Hne]; [rewrite lookup_insert_eq; by eexists|]. rewrite lookup_insert_ne, Hex by done. by eapply i_deadlines.
      * eapply heap_ok_proper; [|exact Hh]. by rewrite vals_with.
    + intros d' k' a' v' w' Hne (db0 & H1 & H2 & H3 & H4). unfold entry_at, put_database. cbn. destruct (decide (d = d')) as [<-|Hdd].
      * rewrite Hd in H1. injection H1 as <-. assert (k' <> k) as Hkk by congruence. exists (with_entry db k a ex). rewrite list_lookup_insert_eq by done. cbn. rewrite lookup_insert_ne, Hex by done.
        split; [done|]. split; [done|]. split; [|done]. rewrite (keeps_value _ _ _ _ K); [done|]. apply elem_of_app. left. by eapply Hin.
      * exists db0. rewrite list_lookup_insert_ne by done. split; [done|]. split; [done|]. split; [|done]. rewrite (keeps_value _ _ _ _ K); [done|]. apply elem_of_app. right. apply elem_of_app. left.
        apply in_refs. exists d', db0, k'. by rewrite list_lookup_insert_ne.
  - exists (with_entry db k a ex). unfold put_database. cbn. rewrite list_lookup_insert_eq by done. split; [done|]. rewrite lookup_insert_eq. done.
Qed.

Lemma without_id db k : dict db !! k = None -> without db k = db.
Proof using Type. intros H. unfold without, set_dict. rewrite delete_id by done. by destruct db. Qed.

Lemma with_entry_id db k a : dict db !! k = Some a -> with_entry db k a (expires db) = db.
Proof using Type. intros H. unfold with_entry. rewrite insert_id by done. by destruct db. Qed.

Lemma put_heap_id s d db h' : dbs s !! d = Some db -> put_database s h' d db = set_heap s h'.
Proof using Type. intros H. unfold put_database. rewrite list_insert_id by done. by destruct s. Qed.

(** The references with those of one key set apart. *)
Lemma refs_entry E s d db k a :
  dbs s !! d = Some db -> dict db !! k = Some a -> E ++ db_refs s ++ argv s ++ F ≡ₚ a :: E ++ vals (without db k) ++ rest_refs s d ++ argv s ++ F.
Proof using Type. intros Hd Hk. rewrite (refs_here s d db Hd), (vals_delete db k a Hk). fold (without db k). cbn. rewrite <- app_assoc. by rewrite <- Permutation_middle. Qed.

Lemma refs_missing E s d db k :
  dbs s !! d = Some db -> dict db !! k = None -> E ++ db_refs s ++ argv s ++ F ≡ₚ E ++ vals (without db k) ++ rest_refs s d ++ argv s ++ F.
Proof using Type. intros Hd Hk. rewrite (refs_here s d db Hd), without_id by done. by rewrite <- app_assoc. Qed.

(** A new object goes to a new key, *)
Lemma dbAdd_sim E J args s d k a v :
  inv (a :: E) J args s -> value_at (sheap s) a = Some v -> found s d k None None ->
  sim (dbAdd d k a) (s_store d k (v, None)) s (fun _ _ s' => touches_only E J args d k s s' /\ entry_at s' d k a v None).
Proof using Type.
  intros Hi Hv (db & Hd & Hk & Hx). destruct (put_entry (a :: E) E J args s (sheap s) d db k a v (expires db) Hi Hd Hv) as (A1 & A2 & A3); [done| |done|].
  - eapply heap_ok_proper; [|exact (i_heap _ _ _ _ Hi)]. rewrite (refs_missing _ s d db k Hd Hk). cbn. symmetry. apply Permutation_middle.
  - exists tt, (put_database s (sheap s) d (with_entry db k a (expires db))). rewrite Hx in *. split; [|done]. unfold dbAdd, bind. rewrite (run_db s d db Hd), bool_decide_eq_false_2 by (rewrite Hk; by intros [? ?]). by destruct s.
Qed.

Lemma decr_other h a h' b : decrRefCount h a = Some h' -> b <> a -> cells h' !! b = cells h !! b.
Proof using Type.
  unfold decrRefCount. intros H Hne. destruct (cells h !! a) as [o|]; [|done]. cbn [mbind option_bind] in H. destruct (refcount o =? 1); [injection H as <-; cbn; by rewrite lookup_delete_ne|].
  destruct (refcount o <=? 0); [done|]. injection H as <-. destruct (negb _); [cbn; by rewrite lookup_insert_ne|done].
Qed.

(** or replaces the old one, which is released. *)
Lemma dbOverwrite_sim E J args s d k a v old vold w :
  inv (a :: E) J args s -> value_at (sheap s) a = Some v -> entry_at s d k old vold w ->
  sim (dbOverwrite d k a) (s_store d k (v, w)) s (fun _ _ s' => touches_only E J args d k s s' /\ entry_at s' d k a v w /\
    forall b, b <> old -> cells (sheap s') !! b = cells (sheap s) !! b).
Proof using Type.
  intros Hi Hv (db & Hd & Hk & _ & Hw). pose proof (i_heap _ _ _ _ Hi) as Hh. rewrite (refs_entry (a :: E) s d db k old Hd Hk) in Hh.
  destruct (decrRefCount_ok _ _ _ Hh) as (h1 & Ed & Hh1 & K1 & _). cbn [app] in Hh1, K1.
  destruct (put_entry (a :: E) E J args s h1 d db k a v (expires db) Hi Hd) as (A1 & A2 & A3); [rewrite (keeps_value _ _ _ _ K1) by left; done|done|by rewrite <- Permutation_middle|intros b Hb; apply K1; right; apply elem_of_app; by right|].
  exists tt, (put_database s h1 d (with_entry db k a (expires db))). rewrite Hw in *. split; [|split; [done|]; split; [done|]; split; [done|]; intros b Hb; by eapply decr_other]. unfold dbOverwrite, bind. rewrite (run_db s d db Hd). unfold lift. rewrite Hk.
  unfold put_db, modify, decr, on_heap. cbn [sheap set_dbs]. by rewrite Ed.
Qed.

(** Deadlines. *)
Lemma put_deadline E J args s d db k a v w ex :
  inv E J args s -> dbs s !! d = Some db -> dict db !! k = Some a -> value_at (sheap s) a = Some v -> expires db !! k = w -> (forall k', k' <> k -> ex !! k' = expires db !! k') ->
  abs X (set_dbs s (<[d := set_expires db ex]> (dbs s))) = snd (s_store d k (v, ex !! k) (abs X s)) /\
  touches_only E J args d k s (set_dbs s (<[d := set_expires db ex]> (dbs s))) /\ entry_at (set_dbs s (<[d := set_expires db ex]> (dbs s))) d k a v (ex !! k).
Proof using Type.
  intros Hi Hd Hk Hv Hw Hex. assert (set_dbs s (<[d := set_expires db ex]> (dbs s)) = put_database s (sheap s) d (with_entry db k a ex)) as ->.
  { unfold put_database, with_entry, set_expires. rewrite insert_id by done. by destruct s. }
  apply (put_entry E E); [done|done|done|done| |done]. pose proof (i_heap _ _ _ _ Hi) as Hh. rewrite (refs_entry E s d db k a Hd Hk) in Hh. by rewrite <- Permutation_middle.
Qed.

Lemma setExpire_sim E J args s d k a v w t :
  inv E J args s -> entry_at s d k a v w -> sim (setExpire d k t) (s_store d k (v, Some t)) s (fun _ _ s' => touches_only E J args d k s s' /\ entry_at s' d k a v (Some t)).
Proof using Type.
  intros Hi (db & Hd & Hk & Hv & Hw). destruct (put_deadline E J args s d db k a v w (<[k := t]> (expires db)) Hi Hd Hk Hv Hw) as (A1 & A2 & A3); [intros k' Hne; by rewrite lookup_insert_ne|].
  rewrite lookup_insert_eq in *. eexists tt, _. split; [|split; [exact A1|done]]. unfold setExpire, bind. by rewrite (run_db s d db Hd), bool_decide_eq_true_2 by (rewrite Hk; by eexists).
Qed.

Lemma removeExpire_sim E J args s d k a v w :
  inv E J args s -> entry_at s d k a v w ->
  sim (removeExpire d k) (s_store d k (v, None)) s (fun x _ s' => x = bool_decide (is_Some w) /\ touches_only E J args d k s s' /\ entry_at s' d k a v None).
Proof using Type.
  intros Hi (db & Hd & Hk & Hv & Hw). destruct (put_deadline E J args s d db k a v w (delete k (expires db)) Hi Hd Hk Hv Hw) as (A1 & A2 & A3); [intros k' Hne; by rewrite lookup_delete_ne|].
  rewrite lookup_delete_eq in *. eexists _, _. split; [unfold removeExpire, bind; rewrite (run_db s d db Hd), bool_decide_eq_true_2 by (rewrite Hk; by eexists); reflexivity|]. split; [exact A1|]. by rewrite Hw.
Qed.

(** An object that only the key refers to is changed in place. *)
Lemma set_cell_sim E J args s d k a o o' v w :
  inv E J args s -> entry_at s d k a v w -> cells (sheap s) !! a = Some o -> refcount o = 1 -> object_ok o' -> refcount o' = 1 ->
  let s' := set_heap s (set_cell (sheap s) a o') in
  abs X s' = snd (s_store d k (value_of o', w) (abs X s)) /\ touches_only E J args d k s s' /\ entry_at s' d k a (value_of o') w.
Proof using Type.
  intros Hi (db & Hd & Hk & _ & Hw) Ho H1 Hok H1' s'. pose proof (i_heap _ _ _ _ Hi) as Hh. pose proof (refs_entry E s d db k a Hd Hk) as HP. rewrite HP in Hh.
  set (others := E ++ vals (without db k) ++ rest_refs s d ++ argv s ++ F) in *.
  assert (count a (a :: others) = 1) as Hc by (pose proof (ho_count _ _ Hh a o Ho) as [Hc|[Hc _]]; [rewrite H1 in Hc; done|congruence]).
  assert (a ∉ others) as Hni by (rewrite count_cons, decide_True in Hc by done; rewrite <- count_pos; lia).
  assert (s' = put_database s (set_cell (sheap s) a o') d (with_entry db k a (expires db))) as ->.
  { rewrite with_entry_id by done. by rewrite put_heap_id. }
  rewrite <- Hw. apply (put_entry E E); [done|done|unfold value_at; cbn; by rewrite lookup_insert_eq|done| |].
  - rewrite <- Permutation_middle. apply (heap_ok_set (sheap s) (a :: others) (a :: others) a o o'); [done|done|by rewrite H1|done|by rewrite Hc|lia|done].
  - intros b Hb. unfold repr_at. cbn. rewrite lookup_insert_ne; [done|]. intros <-. apply Hni. unfold others. apply elem_of_app. by right.
Qed.

(** [setKey]: the object is also referred to by the arguments. *)
Lemma store_arg_run E J args s d k a v x y :
  inv E J args s -> a ∈ argv s ++ F -> value_at (sheap s) a = Some v -> found s d k x y ->
  exists b s', (match x with None => dbAdd d k a | Some _ => dbOverwrite d k a end;; incr a;; removeExpire d k)%db s = Some (b, s') /\
    abs X s' = snd (s_store d k (v, None) (abs X s)) /\ touches_only E J args d k s s' /\ entry_at s' d k a v None.
Proof using Type.
  intros Hi Ha Hv Hf. destruct x as [old|].
  - destruct y as [[vold w]|]; [|done]. destruct Hf as (db & Hd & Hk & _ & Hw). assert (d < length (dbs s))%nat as Hlt by (by eapply lookup_lt_Some).
    pose proof (i_heap _ _ _ _ Hi) as Hh. rewrite (refs_entry E s d db k old Hd Hk) in Hh. destruct (decrRefCount_ok _ _ _ Hh) as (h1 & Ed & Hh1 & K1 & _).
    assert (a ∈ E ++ vals (without db k) ++ rest_refs s d ++ argv s ++ F) as Hin by (rewrite !elem_of_app in *; tauto).
    destruct (incrRefCount_ok h1 _ a Hh1) as (h2 & Ei & Hh2 & K2 & _); [by apply (ho_live _ _ Hh1)|].
    destruct (put_entry E E J args s h2 d db k a v (delete k (expires db)) Hi Hd) as (A1 & A2 & A3).
    { rewrite (repr_value _ _ _ _ (K2 a)). by rewrite (keeps_value _ _ _ _ K1 Hin). }
    { intros k' Hne. by rewrite lookup_delete_ne. }
    { by rewrite <- Permutation_middle. }
    { intros b Hb. rewrite K2. apply K1, elem_of_app. by right. }
    rewrite lookup_delete_eq in *. eexists _, _. split; [|split; [exact A1|done]]. unfold dbOverwrite, removeExpire, incr, decr, on_heap, put_db, modify, bind. rewrite (run_db s d db Hd). unfold lift. rewrite Hk.
    cbn [sheap set_dbs]. rewrite Ed. cbn [mbind option_bind]. cbn [sheap set_heap]. rewrite Ei. cbn [mbind option_bind].
    match goal with |- context [get_db d ?s1] => assert (dbs s1 !! d = Some (set_dict db (<[k := a]> (dict db)))) as Hd1 by (cbn; by rewrite list_lookup_insert_eq) end.
    rewrite (run_db _ d _ Hd1). cbn [dict set_dict]. rewrite lookup_insert_eq, bool_decide_eq_true_2 by (by eexists). unfold ret. f_equal. f_equal. unfold put_database, set_dbs, set_heap. cbn. f_equal. by rewrite list_insert_insert_eq.
  - destruct y as [[vold w]|]; [done|]. destruct Hf as (db & Hd & Hk & Hw). assert (d < length (dbs s))%nat as Hlt by (by eapply lookup_lt_Some).
    pose proof (i_heap _ _ _ _ Hi) as Hh. rewrite (refs_missing E s d db k Hd Hk) in Hh. assert (a ∈ E ++ vals (without db k) ++ rest_refs s d ++ argv s ++ F) as Hin by (rewrite !elem_of_app in *; tauto).
    destruct (incrRefCount_ok _ _ a Hh) as (h2 & Ei & Hh2 & K2 & _); [by apply (ho_live _ _ Hh)|].
    destruct (put_entry E E J args s h2 d db k a v (delete k (expires db)) Hi Hd) as (A1 & A2 & A3).
    { by rewrite (repr_value _ _ _ _ (K2 a)). }
    { intros k' Hne. by rewrite lookup_delete_ne. }
    { by rewrite <- Permutation_middle. }
    { intros b Hb. apply K2. }
    rewrite lookup_delete_eq in *. eexists _, _. split; [|split; [exact A1|done]]. unfold dbAdd, removeExpire, incr, on_heap, put_db, modify, bind. rewrite (run_db s d db Hd). rewrite bool_decide_eq_false_2 by (rewrite Hk; by intros [? ?]).
    cbn [sheap set_dbs]. rewrite Ei. cbn [mbind option_bind].
    match goal with |- context [get_db d ?s1] => assert (dbs s1 !! d = Some (set_dict db (<[k := a]> (dict db)))) as Hd1 by (cbn; by rewrite list_lookup_insert_eq) end.
    rewrite (run_db _ d _ Hd1). cbn [dict set_dict]. rewrite lookup_insert_eq, bool_decide_eq_true_2 by (by eexists). unfold ret. f_equal. f_equal. unfold put_database, set_dbs, set_heap. cbn. f_equal. by rewrite list_insert_insert_eq.
Qed.

Lemma entry_same s s' d k a v w : same_mem s s' -> entry_at s d k a v w -> entry_at s' d k a v w.
Proof using Type. intros (M1 & M2 & M3) (db & ? & ? & ? & ?). exists db. by rewrite M1, M2. Qed.

(** A sequence associates. *)
Lemma bind_assoc {A B C} (m : M A) (f : A -> M B) (g : B -> M C) s : bind (bind m f) g s = bind m (fun x => bind (f x) g) s.
Proof using Type. unfold bind. by destruct (m s) as [[x s']|]. Qed.

Lemma sim_run {A B} (m m' : M A) (p : Spec B) s Q : m s = m' s -> sim m' p s Q -> sim m p s Q.
Proof using Type. intros E (x & s' & H). exists x, s'. by rewrite E. Qed.

Lemma setKey_sim E J args s d k a txt :
  inv E J args s -> is_Some (dbs s !! d) -> a ∈ argv s ++ F -> value_at (sheap s) a = Some (VString txt) ->
  sim (setKey e d k a) (s_set e d k txt) s (fun _ _ s' => inv E J args s' /\ argv s' = argv s /\ cmd s' = cmd s /\ entry_at s' d k a (VString txt) None /\
    keeps_values (argv s ++ F) (sheap s) (sheap s') /\ length (dbs s') = length (dbs s)).
Proof using Type.
  intros Hi Hd Ha Hv. unfold setKey, s_set. apply sim_bind. eapply sim_mono; [by apply (lookupKeyWrite_sim E J args)|]. intros x y s1 [(Hi1 & V1 & C1 & _ & _ & K1 & L1) Hf]. cbn beta.
  assert (value_at (sheap s1) a = Some (VString txt)) as Hv1 by (by rewrite (keeps_value _ _ _ _ K1 Ha)).
  destruct (store_arg_run E J args s1 d k a (VString txt) x y Hi1) as (b & s2 & R2 & A2 & (Hi2 & V2 & C2 & _ & _ & K2 & L2) & He2); [by rewrite V1|done|done|].
  eapply (sim_run _ (bind (bind (match x with Some _ => dbOverwrite d k a | None => dbAdd d k a end) (fun _ => bind (incr a) (fun _ => removeExpire d k))) (fun _ => signalModifiedKey d k))).
  { unfold bind. destruct x; [destruct (dbOverwrite d k a s1) as [[? ?]|]|destruct (dbAdd d k a s1) as [[? ?]|]]; try done; by destruct (incr a _) as [[? ?]|]. }
  apply sim_bind. exists b, s2. split; [by destruct x|]. split; [exact A2|].
  eapply sim_mono; [apply (signalModifiedKey_sim E J args); [done|]|].
  - destruct He2 as (db2 & H2 & _). by exists db2.
  - intros [] [] s3 (Hi3 & HM & C3). pose proof HM as (M1 & M2 & M3). split; [done|]. split; [congruence|]. split; [congruence|]. split; [by eapply entry_same|]. split; [|congruence].
    rewrite M1. eapply keeps_values_trans; [done|by rewrite <- V1].
Qed.

(** ** Arguments *)

Lemma arg_value E J args s i x :
  inv E J args s -> args !! i = Some x -> exists a, argv s !! i = Some a /\ arg i s = Some (a, s) /\ value_at (sheap s) a = Some (VString x) /\ a ∈ argv s.
Proof using Type.
  intros Hi Hx. destruct (i_args _ _ _ _ Hi) as [Hl Ha]. destruct (argv s !! i) as [a|] eqn:Ei.
  - destruct (Ha i a Ei) as (x' & Hx' & Hv & _). exists a. split; [done|]. split; [unfold arg, bind, gets, lift; by rewrite Ei|]. split; [congruence|by eapply list_elem_of_lookup_2].
  - apply lookup_ge_None in Ei. apply lookup_lt_Some in Hx. lia.
Qed.

Lemma arg_sds_run E J args s i x : inv E J args s -> args !! i = Some x -> J i = false -> arg_sds i s = Some (x, s).
Proof using Type.
  intros Hi Hx HJ. destruct (arg_value E J args s i x Hi Hx) as (a & Ha & Hr & _). destruct (i_args _ _ _ _ Hi) as [_ H]. destruct (H i a Ha) as (x' & Hx' & _ & Hs).
  rewrite Hx in Hx'. injection Hx' as <-. destruct (Hs HJ) as (o & Ho & Hp). unfold arg_sds, bind. rewrite Hr. unfold get_obj, read_heap, lift. rewrite Ho. cbn [mbind option_bind]. unfold sds_of. by rewrite Hp.
Qed.

Definition also (J : nat -> bool) (i j : nat) : bool := if decide (i = j) then true else J j.

Lemma list_split_at {A} (l : list A) i x : l !! i = Some x -> l ≡ₚ x :: delete i l /\ forall y, <[i := y]> l ≡ₚ y :: delete i l.
Proof using Type.
  intros H. assert (i < length l)%nat as Hlt by (by eapply lookup_lt_Some). rewrite delete_take_drop. split.
  - rewrite <- (take_drop_middle l i x H) at 1. by rewrite <- Permutation_middle.
  - intros y. rewrite insert_take_drop by done. by rewrite <- Permutation_middle.
Qed.

Lemma in_delete {A} (l : list A) i j x : i <> j -> l !! j = Some x -> x ∈ delete i l.
Proof using Type.
  intros Hne H. apply list_elem_of_lookup. destruct (decide (j < i)%nat); [exists j; by rewrite list_lookup_delete_lt|].
  exists (pred j). rewrite list_lookup_delete_ge by lia. by replace (S (pred j)) with j by lia.
Qed.

Lemma encode_arg_run E J args s i x :
  inv E J args s -> args !! i = Some x ->
  exists a s', encode_arg e i s = Some (a, s') /\ abs X s' = abs X s /\ inv E (also J i) args s' /\ a ∈ argv s' /\ value_at (sheap s') a = Some (VString x) /\
    dbs s' = dbs s /\ cmd s' = cmd s /\ clients s' = clients s /\ argv s' = <[i := a]> (argv s) /\ forall d k b v w, entry_at s d k b v w -> entry_at s' d k b v w.
Proof using Type.
  intros Hi Hx. destruct (arg_value E J args s i x Hi Hx) as (a & Ha & Hr & Hv & _). pose proof (i_heap _ _ _ _ Hi) as Hh. destruct (list_split_at _ _ _ Ha) as [P1 P2].
  assert (i < length (argv s))%nat as Hlt by (by eapply lookup_lt_Some). set (rest := delete i (argv s)) in *.
  assert (heap_ok (sheap s) (a :: E ++ db_refs s ++ rest ++ F)) as Hh1 by (eapply heap_ok_proper; [|exact Hh]; rewrite P1; solve_Permutation).
  destruct (tryObjectEncoding_ok (private_integers e) _ _ _ _ Hh1 Hv) as (h' & a' & Et & Hh' & K & Hv').
  exists a', (set_cmd (set_heap s h') (cmd s) (<[i := a']> (argv s))). split.
  { unfold encode_arg, put_arg, on_heap_new, bind. rewrite Hr. rewrite Et. done. }
  assert (keeps_values (db_refs s ++ F) (sheap s) h') as K1 by (intros b Hb; apply K; rewrite !elem_of_app in *; tauto). split; [|split; [|split; [|split; [exact Hv'|]]]].
  - apply (abs_same E J args s); [done..|exact K1|]. cbn. rewrite list_fmap_insert. apply list_eq. intros j. destruct (decide (i = j)) as [<-|Hne].
    + rewrite list_lookup_insert_eq by (by rewrite length_map). rewrite list_lookup_fmap, Ha. cbn. f_equal. unfold text_at. by rewrite Hv', Hv.
    + rewrite list_lookup_insert_ne by done. rewrite !list_lookup_fmap. destruct (argv s !! j) as [b|] eqn:Eb; [|done]. cbn. f_equal. apply repr_text, K.
      pose proof (in_delete _ _ _ _ Hne Eb). rewrite !elem_of_app. tauto.
  - destruct Hi as [I1 I2 [W1 W2 W3 W4 W5] I4 I5 I6 I7 [Il I8] I9 I10 I11 I12]. constructor; cbn; [|exact I2|by constructor|exact I4|exact I5|exact I6|exact I7| |exact I9| |exact I11|exact I12].
    + eapply heap_ok_proper; [|exact Hh']. unfold db_refs. cbn. rewrite P2. fold (db_refs s). solve_Permutation.
    + split; [cbn; by rewrite length_insert|]. cbn. intros j b Hb. unfold also. destruct (decide (i = j)) as [<-|Hne].
      * rewrite list_lookup_insert_eq in Hb by done. injection Hb as <-. by exists x.
      * rewrite list_lookup_insert_ne in Hb by done. destruct (I8 j b Hb) as (y & Hy & Hvy & Hsy). assert (repr_at h' b = repr_at (sheap s) b) as Er.
        { apply K. pose proof (in_delete _ _ _ _ Hne Hb). rewrite !elem_of_app. tauto. }
        exists y. split; [done|]. split; [by rewrite (repr_value _ _ _ _ Er)|]. intros HJ. by eapply repr_sds, Hsy.
    + eapply held_keeps; [exact I10|]. intros b Hb. apply K1, elem_of_app. by right.
  - cbn. eapply list_elem_of_lookup_2. by apply list_lookup_insert_eq.
  - split; [done|]. split; [done|]. split; [done|]. split; [done|]. intros d k b v w (db & H1 & H2 & H3 & H4). exists db. split; [done|]. split; [done|]. split; [|done]. cbn.
    rewrite (keeps_value _ _ _ _ K1); [done|]. apply elem_of_app. left. apply in_refs. by exists d, db, k.
Qed.

(** ** Reading values *)

Lemma obj_text_run E J args s a txt : inv E J args s -> value_at (sheap s) a = Some (VString txt) -> obj_text a s = Some (txt, s).
Proof using Type.
  intros Hi Hv. destruct (string_cases _ _ _ _ (i_heap _ _ _ _ Hi) Hv) as (o & Ho & _ & Hc). unfold obj_text, bind, get_obj, read_heap. rewrite Ho. cbn [mbind option_bind].
  destruct Hc as [(v & _ & Hp & -> & Hr)|[_ Hp]]; rewrite Hp; [|done]. unfold lift. by rewrite ll_buf_ok.
Qed.

Lemma addReplyBulk_sim E J args s a txt :
  inv E J args s -> value_at (sheap s) a = Some (VString txt) -> sim (addReplyBulk a) (s_reply (R_bulk txt)) s (fun _ _ s' => inv E J args s' /\ same_mem s s' /\ cmd s' = cmd s).
Proof using Type. intros Hi Hv. unfold addReplyBulk. eapply sim_left; [by eapply obj_text_run|done|]. by apply addReply_sim. Qed.

Lemma my_db_run E J args s : inv E J args s -> exists d, my_db s = Some (d, s) /\ s_my_db (abs X s) = (d, abs X s) /\ is_Some (dbs s !! d).
Proof using Type.
  intros Hi. destruct (me_run E J args s Hi) as (c & Hc & Hm & Hs). exists (c_db c). unfold my_db, s_my_db, bind, sbind. rewrite Hm, Hs. split; [done|]. split; [done|]. by apply (i_db _ _ _ _ Hi u).
Qed.

Lemma number_run E J args s a txt : inv E J args s -> value_at (sheap s) a = Some (VString txt) -> read_heap (fun h => getLongLongFromObject h (Some a)) s = Some (string2ll txt, s).
Proof using Type. intros Hi Hv. unfold read_heap. by rewrite (getLongLongFromObject_ok _ _ _ _ (i_heap _ _ _ _ Hi) Hv). Qed.

(** A number, or an error. *)
Lemma number_at_sim {B} E J args s a x (k : option Z -> M B) (k' : Z -> Spec unit) Q :
  inv E J args s -> value_at (sheap s) a = Some (VString x) ->
  (forall s', inv E J args s' -> same_mem s s' -> cmd s' = cmd s -> exists y, k None s' = Some (y, s') /\ Q y tt s') ->
  (forall v, string2ll x = Some v -> in_s 64 v -> sim (k (Some v)) (k' v) s Q) ->
  sim (r <- getLongLongFromObjectOrReply (Some a) None; k r)%db (s_number x k') s Q.
Proof using Type.
  intros Hi Hv Hn Hs. unfold s_number.
  assert (getLongLongFromObjectOrReply (Some a) None s = match string2ll x with None => (addReply not_integer;; ret None)%db s | Some v => Some (Some v, s) end) as E1.
  { unfold getLongLongFromObjectOrReply, bind at 1. rewrite (number_run E J args s a x Hi Hv). by destruct (string2ll x). }
  destruct (string2ll x) as [v|] eqn:Ex.
  - eapply sim_left; [exact E1|done|]. apply Hs; [done|]. by apply string2ll_spec in Ex as [_ ?].
  - destruct (addReply_sim E J args s not_integer Hi) as ([] & s1 & R1 & A1 & Hi1 & M1 & C1). destruct (Hn s1 Hi1 M1 C1) as (y & Hy & HQ).
    exists y, s1. split; [|split; [done|]].
    + unfold bind at 1. rewrite E1. unfold bind at 1. rewrite R1. exact Hy.
    + destruct (fst (s_reply not_integer (abs X s))). exact HQ.
Qed.

(** A number among the arguments. *)
Lemma number_sim {B} E J args s i x (k : option Z -> M B) (k' : Z -> Spec unit) Q :
  inv E J args s -> args !! i = Some x ->
  (forall s', inv E J args s' -> same_mem s s' -> cmd s' = cmd s -> exists y, k None s' = Some (y, s') /\ Q y tt s') ->
  (forall v, string2ll x = Some v -> in_s 64 v -> sim (k (Some v)) (k' v) s Q) ->
  sim (a <- arg i; r <- getLongLongFromObjectOrReply (Some a) None; k r)%db (s_number x k') s Q.
Proof using Type.
  intros Hi Hx Hn Hs. destruct (arg_value E J args s i x Hi Hx) as (a & _ & Hr & Hv & _). eapply sim_left; [exact Hr|done|]. by eapply number_at_sim.
Qed.

Lemma type_string o : object_ok o -> o_type o = OBJ_STRING <-> exists txt, value_of o = VString txt.
Proof using Type.
  unfold object_ok, value_of. destruct (o_ptr o) as [v|s|x]; intros H; [split; [by eexists|tauto]|split; [by eexists|tauto]|]. split; [tauto|]. by intros [txt [=]].
Qed.

(** The type of the value at a key. *)
Lemma checkType_run E J args s a v :
  inv E J args s -> value_at (sheap s) a = Some v -> checkType a OBJ_STRING s = match v with VString _ => Some (false, s) | VOther _ _ => (addReply R_wrongtypeerr;; ret true)%db s end.
Proof using Type.
  intros Hi Hv. unfold value_at in Hv. destruct (cells (sheap s) !! a) as [o|] eqn:Ho; [|done]. injection Hv as <-. pose proof (type_string o (proj2 (ho_object _ _ (i_heap _ _ _ _ Hi) a o Ho))) as Ht.
  unfold checkType, bind, get_obj, read_heap. rewrite Ho. cbn [mbind option_bind]. destruct (value_of o) as [txt|t x]; [rewrite bool_decide_eq_true_2 by (apply Ht; by eexists); done|].
  rewrite bool_decide_eq_false_2; [done|]. intros [txt [=]]%Ht.
Qed.

(** ** Objects that may be changed *)

Lemma entry_ref s d k a v w : entry_at s d k a v w -> a ∈ db_refs s.
Proof using Type. intros (db & Hd & Hk & _). apply in_refs. by exists d, db, k. Qed.

Lemma new_object_run E J args s (f : heap -> option (heap * addr)) v :
  inv E J args s -> (forall refs, heap_ok (sheap s) refs -> exists h' a, f (sheap s) = Some (h', a) /\ heap_ok h' (a :: refs) /\ keeps_values refs (sheap s) h' /\ value_at h' a = Some v) ->
  exists a s', on_heap_new f s = Some (a, s') /\ abs X s' = abs X s /\ inv (a :: E) J args s' /\ value_at (sheap s') a = Some v /\ cmd s' = cmd s /\ clients s' = clients s /\ dbs s' = dbs s /\ argv s' = argv s /\
    keeps_values (db_refs s ++ argv s ++ F) (sheap s) (sheap s') /\ forall d k b x w, entry_at s d k b x w -> entry_at s' d k b x w.
Proof using Type.
  intros Hi Hf. destruct (Hf _ (i_heap _ _ _ _ Hi)) as (h' & a & E1 & Hh & K & Hv). exists a, (set_heap s h'). unfold on_heap_new. rewrite E1. cbn [mbind option_bind].
  assert (keeps_values (db_refs s ++ argv s ++ F) (sheap s) h') as K1 by (intros b Hb; apply K, elem_of_app; by right).
  split; [done|]. split; [by eapply abs_heap|]. split; [by eapply inv_heap|]. split; [done|]. split; [done|]. split; [done|]. split; [done|]. split; [done|]. split; [done|].
  intros d k b x w He. pose proof (entry_ref _ _ _ _ _ _ He) as Hr. destruct He as (db & H1 & H2 & H3 & H4). exists db. split; [done|]. split; [done|]. split; [|done]. cbn.
  rewrite (keeps_value _ _ _ _ K1); [done|]. apply elem_of_app. by left.
Qed.

Lemma store_same s d k a v w : entry_at s d k a v w -> snd (s_store d k (v, w) (abs X s)) = abs X s.
Proof using Type.
  intros He. destruct (abs_entry s d k a v w He) as (db & Hd & Hk). unfold s_store, sbind. rewrite (spec_db s d db Hd). unfold s_put_db, smod. cbn [snd]. rewrite insert_id by done.
  unfold t_dbs. rewrite list_insert_id by (by rewrite lookup_abs_db, Hd). by destruct (abs X s).
Qed.

Lemma decr_run E J args s a :
  inv (a :: E) J args s -> exists s', decr a s = Some (tt, s') /\ abs X s' = abs X s /\ inv E J args s' /\ cmd s' = cmd s /\ clients s' = clients s /\ dbs s' = dbs s /\ argv s' = argv s /\
    keeps_values (E ++ db_refs s ++ argv s ++ F) (sheap s) (sheap s').
Proof using Type.
  intros Hi. pose proof (i_heap _ _ _ _ Hi) as Hh. cbn [app] in Hh. destruct (decrRefCount_ok _ _ _ Hh) as (h' & Ed & Hh' & K & _). exists (set_heap s h'). unfold decr, on_heap. rewrite Ed.
  assert (keeps_values (db_refs s ++ argv s ++ F) (sheap s) h') as K1 by (intros b Hb; apply K, elem_of_app; by right).
  split; [done|]. split; [by eapply abs_heap|]. split; [by eapply inv_heap|]. done.
Qed.

Lemma incr_run E J args s a :
  inv E J args s -> is_Some (cells (sheap s) !! a) -> exists s', incr a s = Some (tt, s') /\ abs X s' = abs X s /\ inv (a :: E) J args s' /\ cmd s' = cmd s /\ clients s' = clients s /\ dbs s' = dbs s /\ argv s' = argv s /\
    forall b, repr_at (sheap s') b = repr_at (sheap s) b.
Proof using Type.
  intros Hi Ha. destruct (incrRefCount_ok _ _ a (i_heap _ _ _ _ Hi) Ha) as (h' & Ed & Hh' & K & _). exists (set_heap s h'). unfold incr, on_heap. rewrite Ed.
  assert (keeps_values (db_refs s ++ argv s ++ F) (sheap s) h') as K1 by (intros b Hb; apply K).
  split; [done|]. split; [by eapply abs_heap|]. split; [by eapply inv_heap|]. done.
Qed.

(** After [dbUnshareStringValue] the key has an object of its own with the
    same text. *)
Lemma unshare_run E J args s d k a txt w :
  inv E J args s -> entry_at s d k a (VString txt) w ->
  exists a' s' o, dbUnshareStringValue d k a s = Some (a', s') /\ abs X s' = abs X s /\ touches_only E J args d k s s' /\ entry_at s' d k a' (VString txt) w /\
    cells (sheap s') !! a' = Some o /\ refcount o = 1 /\ o_type o = OBJ_STRING /\ o_encoding o = OBJ_ENCODING_RAW /\ o_ptr o = PtrSds txt.
Proof using Type.
  intros Hi He. pose proof He as (db & Hd & Hk & Hv & Hw). pose proof (i_heap _ _ _ _ Hi) as Hh. destruct (string_cases _ _ _ _ Hh Hv) as (o & Ho & Ht & Hc).
  unfold dbUnshareStringValue, bind at 1. unfold get_obj at 1. unfold read_heap at 1. rewrite Ho. cbn [mbind option_bind]. rewrite bool_decide_eq_true_2 by done. cbn [negb].
  destruct (negb (refcount o =? 1) || negb (bool_decide (o_encoding o = OBJ_ENCODING_RAW))) eqn:Eb.
  - destruct (getDecodedObject_ok _ _ _ _ Hh Hv) as (h1 & dc & od & E1 & Hh1 & K1 & Hod & Hpd). destruct (new_string_ok h1 _ OBJ_ENCODING_RAW txt Hh1) as (h2 & a' & E2 & Hh2 & K2 & Ha' & Hni); [by left|].
    assert (heap_ok h2 (dc :: a' :: E ++ db_refs s ++ argv s ++ F)) as Hh2' by (eapply heap_ok_proper; [|exact Hh2]; apply Permutation_swap).
    destruct (decrRefCount_ok _ _ _ Hh2') as (h3 & E3 & Hh3 & K3 & _). set (s3 := set_heap s h3).
    assert (keeps_values (E ++ db_refs s ++ argv s ++ F) (sheap s) h3) as K.
    { intros b Hb. rewrite K3 by (by right). rewrite K2 by (by right). by apply K1. }
    assert (keeps_values (db_refs s ++ argv s ++ F) (sheap s) h3) as K' by (intros b Hb; apply K, elem_of_app; by right).
    assert (cells h3 !! a' = Some (mk_obj OBJ_STRING OBJ_ENCODING_RAW (PtrSds txt) 1)) as Ha3 by (rewrite (decr_other _ _ _ a' E3); [done|intros ->; apply Hni; left]).
    assert (inv (a' :: E) J args s3) as Hi3 by (eapply inv_heap; [exact Hi|exact Hh3|exact K']). assert (abs X s3 = abs X s) as A3 by (by eapply abs_heap).
    assert (entry_at s3 d k a (VString txt) w) as He3.
    { exists db. split; [done|]. split; [done|]. split; [|done]. cbn. rewrite (keeps_value _ _ _ _ K'); [done|]. apply elem_of_app. left. by eapply entry_ref. }
    destruct (dbOverwrite_sim E J args s3 d k a' (VString txt) a (VString txt) w Hi3) as ([] & s4 & R4 & A4 & T4 & He4 & Hcells); [cbn; unfold value_at; by rewrite Ha3|done|].
    rewrite (store_same _ _ _ _ _ _ He3) in A4. exists a', s4, (mk_obj OBJ_STRING OBJ_ENCODING_RAW (PtrSds txt) 1). split; [|split; [congruence|split; [|split; [done|split; [|done]]]]].
    + unfold on_heap_new, bind. rewrite E1. cbn [mbind option_bind]. unfold get_obj, read_heap. cbn [sheap set_heap]. rewrite Hod. cbn [mbind option_bind]. unfold lift, sds_of. rewrite Hpd.
      unfold createRawStringObject, createObject. cbn [sheap set_heap]. rewrite E2. cbn [mbind option_bind]. unfold decr, on_heap. cbn [sheap set_heap]. rewrite E3. cbn [mbind option_bind].
      change (set_heap (set_heap (set_heap s h1) h2) h3) with s3. by rewrite R4.
    + destruct T4 as (T1 & T2 & T3 & T4 & T5 & T6 & T7). split; [done|]. split; [done|]. split; [done|]. split; [done|]. split; [|split; [|done]].
      * intros d' k' b v' w' Hne He'. apply T5; [done|]. pose proof (entry_ref _ _ _ _ _ _ He') as Hr. destruct He' as (db' & X1 & X2 & X3 & X4). exists db'. split; [done|]. split; [done|]. split; [|done].
        cbn. rewrite (keeps_value _ _ _ _ K'); [done|]. apply elem_of_app. by left.
      * eapply keeps_values_trans; [|exact T6]. intros b Hb. apply K', elem_of_app. by right.
    + rewrite Hcells; [done|]. intros ->. apply Hni. right. apply elem_of_app. right. apply elem_of_app. left. by eapply entry_ref.
  - apply orb_false_iff in Eb as [Eb1 Eb2]. apply negb_false_iff in Eb1, Eb2. apply Z.eqb_eq in Eb1. apply bool_decide_eq_true in Eb2. exists a, s, o. split; [done|]. split; [done|].
    split; [by apply touches_refl|]. split; [done|]. split; [done|]. split; [done|]. split; [done|]. split; [done|]. destruct Hc as [(v & Hx & _)|[_ Hp]]; [congruence|done].
Qed.

End Env.
End Inv.
