(* ===== verification/CommandsRefine.v ===== *)
(** * Requests refine the abstract key space: the commands

    Every command of [Commands], with any arguments of the right number, does
    what its specification in [Keyspace] says, and keeps the invariant of
    [CommandsInv]. *)

From S2P Require Import Prelude Numstr Objects Db Keyspace Commands CommandsInv.
From stdpp Require Import strings options.
#[local] Open Scope Z_scope.

Section Refine.
Context {X : option Z} {q : gmap Z (list multiCmd * bool)} {W : watch_tables} {u : Z} {F : list addr} {V : gmap addr (list Z)} {e : env}.
#[local] Abbreviation inv := (@CommandsInv.inv X q W u F V).
#[local] Abbreviation sim := (@CommandsInv.sim X _ _).
#[local] Abbreviation touches_only := (@CommandsInv.touches_only X q W u F V).

(** No argument has been encoded yet. *)
Definition plain (i : nat) : bool := false.

(** A command ends with the invariant; the arguments may have been encoded or
    rewritten, but are strings. *)
Definition done_ok (s : server) : Prop := exists J args, inv [] J args s.
Definition ends {A B} (_ : A) (_ : B) (s : server) : Prop := done_ok s.

Lemma arg_ok (args : list (list Z)) i : (i < length args)%nat -> args !! i = Some (argn args i).
Proof using Type. intros H. unfold argn. destruct (lookup_lt_is_Some_2 args i H) as [x Hx]. by rewrite (nth_lookup_Some _ _ _ _ Hx). Qed.

Lemma reply_end J args s r : inv [] J args s -> sim (addReply r) (s_reply r) s ends.
Proof using Type. intros Hi. eapply sim_mono; [by eapply addReply_sim|]. intros [] [] s' (H & _). by exists J, args. Qed.

Lemma ret_end {A B} J args s (x : A) (y : B) : inv [] J args s -> sim (ret x) (sret y) s ends.
Proof using Type. intros Hi. apply sim_ret. by exists J, args. Qed.

Lemma dirty_end J args s n : inv [] J args s -> sim (add_dirty n) (s_dirty n) s ends.
Proof using Type. intros Hi. eapply sim_mono; [by eapply add_dirty_sim|]. intros [] [] s' (H & _). by exists J, args. Qed.

(** The end of most commands that change a key. *)
Lemma touch_dirty_reply J args s d k n r :
  inv [] J args s -> is_Some (dbs s !! d) ->
  sim (signalModifiedKey d k;; add_dirty n;; addReply r)%db (s_touch d k;; s_dirty n;; s_reply r)%spec s ends.
Proof using Type.
  intros Hi Hd. apply sim_bind. eapply sim_mono; [by eapply signalModifiedKey_sim|]. intros [] [] s1 (Hi1 & _). cbn beta.
  apply sim_bind. eapply sim_mono; [by eapply add_dirty_sim|]. intros [] [] s2 (Hi2 & _). by eapply reply_end.
Qed.

(** The value the specification reads and the object. *)
Lemma found_cases s d k x y :
  x = None /\ y = None \/ found s d k x y -> x = None /\ y = None \/ exists a v w, x = Some a /\ y = Some (v, w) /\ entry_at s d k a v w.
Proof using Type. intros [[-> ->]|H]; [by left|]. destruct x as [a|], y as [[v w]|]; try done; [right; by exists a, v, w|by left]. Qed.

Lemma entry_value s d k a v w : entry_at s d k a v w -> value_at (sheap s) a = Some v.
Proof using Type. by intros (db & _ & _ & H & _). Qed.

Lemma type_run J args s a v : inv [] J args s -> value_at (sheap s) a = Some v -> exists o, get_obj a s = Some (o, s) /\ o_type o = type_of v /\ (o_type o = OBJ_STRING <-> exists txt, v = VString txt).
Proof using Type.
  intros Hi Hv. unfold value_at in Hv. destruct (cells (sheap s) !! a) as [o|] eqn:Ho; [|done]. injection Hv as <-. exists o. unfold get_obj, read_heap. rewrite Ho. split; [done|].
  pose proof (proj2 (ho_object _ _ (i_heap _ _ _ _ Hi) a o Ho)) as Hok. split; [|by apply type_string]. unfold type_of, value_of. unfold object_ok in Hok. destruct (o_ptr o); tauto.
Qed.

(** ** Reading commands *)

(** A lookup for reading with a reply when there is nothing. *)
Lemma read_or_reply {A B} J args s d k r (f : option addr -> M A) (h : option entry -> Spec B) Q :
  inv [] J args s -> is_Some (dbs s !! d) ->
  (forall s', inv [] J args s' -> sim (addReply r;; f None)%db (h None) s' Q) ->
  (forall s' a v w, touches_only [] J args d k s s' -> inv [] J args s' -> entry_at s' d k a v w -> sim (f (Some a)) (h (Some (v, w))) s' Q) ->
  sim (bind (lookupKeyReadOrReply e d k r) f) (sbind (s_read e d k) h) s Q.
Proof using Type.
  intros Hi Hd Hn Hs. unfold lookupKeyReadOrReply.
  eapply (sim_run _ (o <- lookupKeyRead e d k; match o with None => addReply r;; f None | Some a => f o end)%db).
  { unfold bind. destruct (lookupKeyRead e d k s) as [[[a|] s1]|]; try done. destruct (addReply r s1) as [[? ?]|]; done. }
  apply sim_bind. eapply sim_mono; [by eapply lookupKeyRead_sim|]. intros x y s1 [T Hf]. cbn beta.
  destruct (found_cases _ _ _ _ _ Hf) as [[-> ->]|(a & v & w & -> & -> & He)]; [|eapply Hs; [done| |done]; apply T]. apply Hn; apply T.
Qed.

Lemma getGeneric_sim J args s k :
  inv [] J args s -> args !! 1%nat = Some k -> J 1%nat = false ->
  sim (getGenericCommand e) (s_getGeneric e k) s (fun x y s' => x = y /\ inv [] J args s').
Proof using Type.
  intros Hi Hk HJ. unfold getGenericCommand, s_getGeneric. destruct (my_db_run _ _ _ _ Hi) as (d & R1 & S1 & Hd). eapply sim_left; [exact R1|done|]. eapply sim_right; [exact S1|].
  eapply sim_left; [by eapply arg_sds_run|done|]. eapply read_or_reply; [done|done| |].
  - intros s1 Hi1. cbn beta iota. apply sim_bind. eapply sim_mono; [by eapply addReply_sim|]. intros [] [] s2 (Hi2 & _). by apply sim_ret.
  - intros s1 a v w _ Hi1 He. cbn beta iota. destruct (type_run _ _ _ _ _ Hi1 (entry_value _ _ _ _ _ _ He)) as (o & Ro & _ & Ht). eapply sim_left; [exact Ro|done|].
    destruct v as [txt|t x].
    + rewrite bool_decide_eq_true_2 by (apply Ht; by exists txt). cbn [negb]. apply sim_bind. eapply sim_mono; [eapply addReplyBulk_sim; [done|by eapply entry_value]|].
      intros [] [] s2 (Hi2 & _). by apply sim_ret.
    + rewrite bool_decide_eq_false_2 by (intros [txt [=]]%Ht). cbn [negb]. apply sim_bind. eapply sim_mono; [by eapply addReply_sim|]. intros [] [] s2 (Hi2 & _). by apply sim_ret.
Qed.


Lemma get_sim args s : inv [] plain args s -> (2 <= length args)%nat -> sim (getCommand e) (sGET e args) s ends.
Proof using Type.
  intros Hi Hl. unfold getCommand, sGET. apply sim_bind. eapply sim_mono; [eapply getGeneric_sim; [done|apply arg_ok; lia|done]|]. intros x y s1 [-> Hi1]. by eapply ret_end.
Qed.

(** [checkType] when the value is not a string. *)
Lemma wrong_type J args s a t x (f : bool -> M unit) :
  inv [] J args s -> value_at (sheap s) a = Some (VOther t x) -> (forall s', f true s' = Some (tt, s')) -> sim (bind (checkType a OBJ_STRING) f) (s_reply R_wrongtypeerr) s ends.
Proof using Type.
  intros Hi Hv Hf. eapply (sim_run _ (addReply R_wrongtypeerr)); [|by eapply reply_end]. unfold bind at 1. rewrite (checkType_run _ _ _ _ _ _ Hi Hv). cbv beta iota.
  destruct (addReply_sim _ _ _ _ R_wrongtypeerr Hi) as ([] & s1 & R1 & _). unfold bind. rewrite R1. cbn. by rewrite Hf.
Qed.

Lemma right_type {A} J args s a txt (f : bool -> M A) (p : Spec unit) Q :
  inv [] J args s -> value_at (sheap s) a = Some (VString txt) -> sim (f false) p s Q -> sim (bind (checkType a OBJ_STRING) f) p s Q.
Proof using Type. intros Hi Hv Hs. eapply sim_left; [|done|exact Hs]. by rewrite (checkType_run _ _ _ _ _ _ Hi Hv). Qed.

Lemma len_run J args s a txt : inv [] J args s -> value_at (sheap s) a = Some (VString txt) -> read_heap (fun h => stringObjectLen h a) s = Some (zlen txt, s).
Proof using Type. intros Hi Hv. unfold read_heap. by rewrite (stringObjectLen_ok _ _ _ _ (i_heap _ _ _ _ Hi) Hv). Qed.

Lemma db_sim {A B} J args s (f : nat -> M A) (g : nat -> Spec B) Q :
  inv [] J args s -> (forall d, is_Some (dbs s !! d) -> sim (f d) (g d) s Q) -> sim (bind my_db f) (sbind s_my_db g) s Q.
Proof using Type. intros Hi H. destruct (my_db_run _ _ _ _ Hi) as (d & R1 & S1 & Hd). eapply sim_left; [exact R1|done|]. eapply sim_right; [exact S1|]. by apply H. Qed.

Lemma arg_sim {A B} J args s i (f : list Z -> M A) (p : Spec B) Q :
  inv [] J args s -> (i < length args)%nat -> J i = false -> sim (f (argn args i)) p s Q -> sim (bind (arg_sds i) f) p s Q.
Proof using Type. intros Hi Hl HJ H. eapply sim_left; [eapply arg_sds_run; [done|by apply arg_ok|done]|done|done]. Qed.

Lemma reply_then J args s r : inv [] J args s -> sim (addReply r;; ret tt)%db (s_reply r) s ends.
Proof using Type.
  intros Hi. eapply (sim_run _ (addReply r)); [|by eapply reply_end]. unfold bind. destruct (addReply r s) as [[[] s1]|]; done.
Qed.

Lemma strlen_sim args s : inv [] plain args s -> (2 <= length args)%nat -> sim (strlenCommand e) (sSTRLEN e args) s ends.
Proof using Type.
  intros Hi Hl. unfold strlenCommand, sSTRLEN. apply (db_sim _ _ _ _ _ _ Hi). intros d Hd. eapply arg_sim; [done|lia|done|]. eapply read_or_reply; [done|done|intros s1 Hi1; by eapply reply_then|].
  intros s1 a v w _ Hi1 He%entry_value. destruct v as [txt|t x]; [|by eapply wrong_type]. eapply right_type; [done|done|]. eapply sim_left; [by eapply len_run|done|]. by eapply reply_end.
Qed.

(** ** Loops over the arguments *)

Definition at_arg (args : list (list Z)) (i : nat) (x : list Z) : Prop := args !! i = Some x.

Lemma seq_args (l pre : list (list Z)) : Forall2 (at_arg (pre ++ l)) (seq (length pre) (length l)) l.
Proof using Type.
  revert pre. induction l as [|x l IH]; intros pre; cbn; [done|]. constructor; [unfold at_arg; rewrite lookup_app_r by lia; by rewrite Nat.sub_diag|].
  replace (pre ++ x :: l) with ((pre ++ [x]) ++ l) by (by rewrite <- app_assoc). replace (S (length pre)) with (length (pre ++ [x])) by (rewrite length_app; cbn; lia). apply IH.
Qed.

Lemma tail_args args : (1 <= length args)%nat -> Forall2 (at_arg args) (seq 1 (Z.to_nat (zlen args - 1))) (tail args).
Proof using Type. destruct args as [|x l]; cbn [length tail]; [lia|]. intros _. replace (Z.to_nat (zlen (x :: l) - 1)) with (length l) by (unfold zlen; cbn [length]; lia). exact (seq_args l [x]). Qed.

Lemma step_one n : map (fun i => 1 + 1 * i)%nat (seq 0 n) = seq 1 n.
Proof using Type. rewrite <- seq_shift. apply map_ext. lia. Qed.

Lemma argc_run J args s : inv [] J args s -> argc s = Some (zlen args, s).
Proof using Type. intros Hi. destruct (i_args _ _ _ _ Hi) as [Hl _]. unfold argc, bind, gets, ret, zlen. by rewrite Hl. Qed.

Lemma loop_sim {A B} (R : A -> B -> Prop) (P : server -> Prop) f g l l' :
  Forall2 R l l' -> (forall x y s, R x y -> P s -> sim (f x) (g y) s (fun _ _ s' => P s')) -> forall s, P s -> sim (for_each l f) (sfor l' g) s (fun _ _ s' => P s').
Proof using Type.
  intros HR Hf. induction HR as [|x y l l' Hxy _ IH]; intros s HP; cbn [for_each sfor]; [by apply sim_ret|]. apply sim_bind. eapply sim_mono; [by apply Hf|]. intros [] [] s1 HP1. by apply IH.
Qed.

(** What stays between the keys of one command. *)
Definition between (J : nat -> bool) (args : list (list Z)) (d : nat) (s : server) : Prop := inv [] J args s /\ is_Some (dbs s !! d).

Lemma between_touched J args d k s s' : is_Some (dbs s !! d) -> touches_only [] J args d k s s' -> between J args d s'.
Proof using Type. intros Hd T. split; [apply T|]. eapply db_in; [|exact Hd]. apply T. Qed.

Lemma between_same J args d s s' : between J args d s -> inv [] J args s' -> same_mem s s' -> between J args d s'.
Proof using Type. intros [_ Hd] Hi (_ & E & _). split; [done|]. by rewrite E. Qed.

Lemma between_reply J args d s r : between J args d s -> sim (addReply r) (s_reply r) s (fun _ _ s' => between J args d s').
Proof using Type. intros Hb. eapply sim_mono; [eapply addReply_sim, Hb|]. intros [] [] s' (H & M & _). by eapply between_same. Qed.

Lemma mget_sim args s : inv [] plain args s -> (2 <= length args)%nat -> sim (mgetCommand e) (sMGET e args) s ends.
Proof using Type.
  intros Hi Hl. unfold mgetCommand, sMGET. eapply sim_left; [by eapply argc_run|done|]. apply sim_bind. eapply sim_mono; [by eapply addReply_sim|]. intros [] [] s1 (Hi1 & _).
  apply (db_sim _ _ _ _ _ _ Hi1). intros d Hd. unfold for_args. rewrite step_one. apply (sim_mono _ _ _ (fun _ _ s' => between plain args d s')); [|intros [] [] s2 [H _]; by exists plain, args].
  eapply (loop_sim (at_arg args)); [by apply tail_args; lia| |done]. clear. intros j k s Hj [Hi Hd]. eapply sim_left; [by eapply arg_sds_run|done|].
  unfold mget_key. apply sim_bind. eapply sim_mono; [by eapply lookupKeyRead_sim|]. intros x y s1 [T Hf]. cbn beta. pose proof (between_touched _ _ _ _ _ _ Hd T) as Hb.
  destruct (found_cases _ _ _ _ _ Hf) as [[-> ->]|(a & v & w & -> & -> & He%entry_value)]; [by apply between_reply|]. destruct (type_run _ _ _ _ _ (proj1 Hb) He) as (o & Ro & _ & Ht).
  eapply sim_left; [exact Ro|done|]. destruct v as [txt|t x].
  - rewrite bool_decide_eq_true_2 by (apply Ht; by exists txt). cbn [negb]. eapply sim_mono; [eapply addReplyBulk_sim; [apply Hb|done]|]. intros [] [] s2 (H & M & _). by eapply between_same.
  - rewrite bool_decide_eq_false_2 by (intros [txt [=]]%Ht). cbn [negb]. by apply between_reply.
Qed.

Lemma count_sim args d l xs : Forall2 (at_arg args) l xs -> forall n s, between plain args d s -> sim (count_keys e d l n) (s_count e d xs n) s (fun x y s' => x = y /\ inv [] plain args s').
Proof using Type.
  induction 1 as [|j k l xs Hj _ IH]; intros n s [Hi Hd]; cbn [count_keys s_count]; [by apply sim_ret|]. eapply sim_left; [by eapply arg_sds_run|done|].
  apply sim_bind. eapply sim_mono; [by eapply lookupKeyRead_sim|]. intros x y s1 [T Hf]. cbn beta. pose proof (between_touched _ _ _ _ _ _ Hd T) as Hb.
  destruct (found_cases _ _ _ _ _ Hf) as [[-> ->]|(a & v & w & -> & -> & _)]; by apply IH.
Qed.

Lemma exists_sim args s : inv [] plain args s -> (2 <= length args)%nat -> sim (existsCommand e) (sEXISTS e args) s ends.
Proof using Type.
  intros Hi Hl. unfold existsCommand, sEXISTS. eapply sim_left; [by eapply argc_run|done|]. apply (db_sim _ _ _ _ _ _ Hi). intros d Hd. apply sim_bind.
  eapply sim_mono; [eapply count_sim; [by apply tail_args; lia|done]|]. intros x y s1 [-> Hi1]. by eapply reply_end.
Qed.

Lemma type_sim args s : inv [] plain args s -> (2 <= length args)%nat -> sim (typeCommand e) (sTYPE e args) s ends.
Proof using Type.
  intros Hi Hl. unfold typeCommand, sTYPE. apply (db_sim _ _ _ _ _ _ Hi). intros d Hd. eapply arg_sim; [done|lia|done|]. apply sim_bind. eapply sim_mono; [by eapply lookupKeyRead_sim|].
  intros x y s1 [(Hi1 & _) Hf]. cbn beta. destruct (found_cases _ _ _ _ _ Hf) as [[-> ->]|(a & v & w & -> & -> & He%entry_value)]; [by eapply reply_end|].
  unfold value_at in He. destruct (cells (sheap s1) !! a) as [o|] eqn:Ho; [|done]. injection He as <-. pose proof (proj2 (ho_object _ _ (i_heap _ _ _ _ Hi1) a o Ho)) as Hok.
  assert (type_name e o = Some (match value_of o with VOther OBJ_MODULE x => module_type_name e x | v => type_text (type_of v) end)) as Hn.
  { unfold type_name, value_of, type_of. unfold object_ok in Hok. destruct (o_ptr o) as [z|z|z]; [destruct Hok as [-> _]; done|destruct Hok as [-> _]; done|]. by destruct (o_type o). }
  eapply sim_left; [unfold get_obj, read_heap; rewrite Ho; reflexivity|done|]. eapply sim_left; [unfold lift; rewrite Hn; reflexivity|done|].
  destruct (value_of o) as [?|[] ?]; by eapply reply_end.
Qed.

Lemma getExpire_run E J args s d k a v w : inv E J args s -> entry_at s d k a v w -> getExpire d k s = Some (default (-1) w, s).
Proof using Type.
  intros Hi (db & Hd & Hk & _ & Hw). unfold getExpire, bind. rewrite (run_db s d db Hd), Hw. destruct w as [w|]; [|done]. by rewrite bool_decide_eq_true_2 by (rewrite Hk; by eexists).
Qed.

Lemma deadline_cases w : default (-1) w = -1 /\ same_deadline w = None \/ default (-1) w <> -1 /\ same_deadline w = w /\ w = Some (default (-1) w).
Proof using Type. destruct w as [w|]; [|by left]. cbn. destruct (decide (w = -1)) as [->|Hne]; [by left|]. right. split; [done|]. split; [|done]. destruct w as [|p|p]; try done. by destruct p. Qed.

Lemma ttl_sim b args s : inv [] plain args s -> (2 <= length args)%nat -> sim (ttlGenericCommand e b) (s_ttl e b args) s ends.
Proof using Type.
  intros Hi Hl. unfold ttlGenericCommand, s_ttl. apply (db_sim _ _ _ _ _ _ Hi). intros d Hd. eapply arg_sim; [done|lia|done|]. apply sim_bind. eapply sim_mono; [by eapply lookupKeyRead_sim|].
  intros x y s1 [(Hi1 & _) Hf]. cbn beta. destruct (found_cases _ _ _ _ _ Hf) as [[-> ->]|(a & v & w & -> & -> & He)]; [by eapply reply_end|].
  eapply sim_left; [by eapply getExpire_run|done|]. pose proof (deadline_cases w) as HD. set (t := default (-1) w) in *. unfold addReplyLongLong.
  destruct HD as [[E1 ->]|(Hne & -> & E2)]; [rewrite E1; by eapply reply_end|]. rewrite E2,  (proj2 (Z.eqb_neq _ _) Hne). cbn [negb].
  replace (if sll (t - mstime e) <? 0 then 0 else sll (t - mstime e)) with (Z.max 0 (sll (t - mstime e))) by (destruct (Z.ltb_spec (sll (t - mstime e)) 0); lia).
  cbv zeta. rewrite (proj2 (Z.eqb_neq (Z.max 0 (sll (t - mstime e))) (-1))) by lia. by eapply reply_end.
Qed.

Lemma string_range_ok txt start stop :
  in_s 64 start -> in_s 64 stop ->
  match string_range (zlen txt) start stop with
  | None => substring txt start stop = []
  | Some (off, n) => mread txt off n = Some (substring txt start stop) /\ substring txt start stop <> []
  end.
Proof using Type.
  intros H1 H2. unfold string_range, substring, index_in. destruct ((start <? 0) && (stop <? 0) && (start >? stop)); [done|]. cbv zeta.
  set (i := if start <? 0 then sll (zlen txt + start) else start). set (j := if stop <? 0 then sll (zlen txt + stop) else stop).
  assert (in_s 64 j) as Hj by (unfold j, sll; destruct (stop <? 0); [by apply swrap_range|done]). clearbody i j. pose proof (zlen_nonneg txt) as Hlen. unfold in_s in Hj.
  replace (if i <? 0 then 0 else i) with (Z.max 0 i) by (destruct (Z.ltb_spec i 0); lia). replace (if j <? 0 then 0 else j) with (Z.max 0 j) by (destruct (Z.ltb_spec j 0); lia).
  assert ((if Z.max 0 j >=? zlen txt then sll (zlen txt - 1) else Z.max 0 j) = Z.min (zlen txt - 1) (Z.max 0 j)) as ->.
  { rewrite Z.geb_leb. destruct (Z.leb_spec (zlen txt) (Z.max 0 j)); [|lia]. unfold sll. rewrite swrap_small by (unfold in_s; lia). lia. }
  set (a := Z.max 0 i). set (b := Z.min (zlen txt - 1) (Z.max 0 j)). assert (0 <= a) by lia. assert (b <= zlen txt - 1) by lia.
  destruct ((a >? b) || (zlen txt =? 0)) eqn:Eb.
  - apply orb_true_iff in Eb as [Eb|Eb]; [replace (Z.to_nat (b - a + 1)) with 0%nat by lia; done|]. apply Z.eqb_eq in Eb. replace (Z.to_nat (b - a + 1)) with 0%nat by lia. done.
  - apply orb_false_iff in Eb as [Eb1 Eb2]. rewrite mread_is_Some by lia. split; [done|]. intros E%(f_equal zlen). unfold zlen in *. rewrite length_take, length_drop in E. cbn in E. lia.
Qed.

Lemma getrange_sim args s : inv [] plain args s -> (4 <= length args)%nat -> sim (getrangeCommand e) (sGETRANGE e args) s ends.
Proof using Type.
  intros Hi Hl. unfold getrangeCommand, sGETRANGE. eapply number_sim; [done|apply arg_ok; lia|intros s1 Hi1 _ _; exists tt; split; [done|by eexists _, _]|]. intros start _ Hs1. cbn beta iota.
  eapply number_sim; [done|apply arg_ok; lia|intros s1 Hi1 _ _; exists tt; split; [done|by eexists _, _]|]. intros stop _ Hs2. cbn beta iota.
  apply (db_sim _ _ _ _ _ _ Hi). intros d Hd. eapply arg_sim; [done|lia|done|]. eapply read_or_reply; [done|done|intros s1 Hi1; by eapply reply_then|].
  intros s1 a v w _ Hi1 He%entry_value. destruct v as [txt|t x]; [|by eapply wrong_type]. eapply right_type; [done|done|]. eapply sim_left; [by eapply obj_text_run|done|].
  pose proof (string_range_ok txt start stop Hs1 Hs2) as HR. destruct (string_range (zlen txt) start stop) as [[off n]|]; [|rewrite HR; by eapply reply_end].
  destruct HR as [Hm Hne]. eapply sim_left; [unfold lift; by rewrite Hm|done|]. destruct (substring txt start stop) as [|c sub]; [done|]. by eapply reply_end.
Qed.

(** ** SET and GET *)

(** The object to store is among the arguments. *)
Record ready (J : nat -> bool) (args : list (list Z)) (d : nat) (val : addr) (txt : list Z) (s : server) : Prop := {
  r_inv : inv [] J args s;
  r_db : is_Some (dbs s !! d);
  r_in : val ∈ argv s ++ F;
  r_value : value_at (sheap s) val = Some (VString txt);
}.

Lemma ready_touched J args d val txt k s s' : ready J args d val txt s -> touches_only [] J args d k s s' -> ready J args d val txt s'.
Proof using Type.
  intros [R1 R2 R3 R4] (T1 & T2 & T3 & T4 & T5 & T6 & T7). constructor; [done|by eapply db_in|by rewrite T2|]. by rewrite (keeps_value _ _ _ _ T6).
Qed.

(** A test of the key whose answer depends on its presence. *)
Lemma presence_sim J args d val txt s k (b : bool) (f : option addr -> bool) (g : option entry -> bool) :
  ready J args d val txt s -> (forall a x, f (Some a) = g (Some x)) -> f None = g None ->
  sim (if b then o <- lookupKeyWrite e d k; ret (f o) else ret false)%db (if b then o <- s_find e d k; sret (g o) else sret false)%spec s
    (fun x y s' => x = y /\ ready J args d val txt s').
Proof using Type.
  intros R Hf Hn. destruct b; [|by apply sim_ret]. apply sim_bind. eapply sim_mono; [eapply lookupKeyWrite_sim; apply R|]. intros x y s1 [T F1]. apply sim_ret.
  split; [|by eapply ready_touched]. destruct x as [a|], y as [[v w]|]; by try apply Hf.
Qed.

Lemma set_go_sim J args s (nx xx : bool) k val txt (expire : bool) ms ok abort :
  inv [] J args s -> val ∈ argv s ++ F -> value_at (sheap s) val = Some (VString txt) ->
  sim (d <- my_db;
       found <- (if nx then o <- lookupKeyWrite e d k; ret (bool_decide (is_Some o)) else ret false);
       missing <- (if negb found && xx then o <- lookupKeyWrite e d k; ret (bool_decide (o = None)) else ret false);
       if found || missing then addReply abort else
       setKey e d k val;; add_dirty 1;; (if expire then setExpire d k (sll (mstime e + ms)) else ret tt);; addReply ok)%db
      (d <- s_my_db;
       found <- (if nx then o <- s_find e d k; sret (bool_decide (is_Some o)) else sret false);
       missing <- (if negb found && xx then o <- s_find e d k; sret (bool_decide (o = None)) else sret false);
       if found || missing then s_reply abort else
       s_set e d k txt;; s_dirty 1;; (if expire then s_store d k (VString txt, Some (sll (mstime e + ms))) else sret tt);; s_reply ok)%spec s ends.
Proof using Type.
  intros Hi Hin Hv. apply (db_sim _ _ _ _ _ _ Hi). intros d Hd. apply sim_bind. assert (ready J args d val txt s) as R by done.
  eapply sim_mono; [eapply presence_sim; [exact R| |done]; intros; by rewrite !bool_decide_eq_true_2|]. intros x y s1 [-> R1]. cbn beta. apply sim_bind.
  eapply sim_mono; [eapply presence_sim; [exact R1| |]; [intros; by rewrite !bool_decide_eq_false_2|by rewrite !bool_decide_eq_true_2]|]. intros x z s2 [-> R2]. cbn beta.
  destruct (y || z); [eapply reply_end, R2|]. apply sim_bind. eapply sim_mono; [eapply setKey_sim; apply R2|]. intros [] [] s3 (Hi3 & A3 & _ & He3 & _ & L3). cbn beta.
  apply sim_bind. eapply sim_mono; [by eapply add_dirty_sim|]. intros [] [] s4 (Hi4 & M4 & _). cbn beta. apply (entry_same s3 s4) in He3; [|done].
  apply sim_bind. destruct expire.
  - eapply sim_mono; [by eapply setExpire_sim|]. intros [] [] s5 [T5 _]. eapply reply_end, T5.
  - apply sim_ret. by eapply reply_end.
Qed.

Definition is_seconds (t : expire_unit) : bool := match t with UNIT_SECONDS => true | UNIT_MILLISECONDS => false end.

Lemma setGeneric_sim J args s nx xx k val txt expire xtxt t ok abort name :
  inv [] J args s -> val ∈ argv s ++ F -> value_at (sheap s) val = Some (VString txt) ->
  match expire, xtxt with Some x, Some y => value_at (sheap s) x = Some (VString y) | None, None => True | _, _ => False end ->
  sim (setGenericCommand e nx xx k val expire t ok abort name) (s_setGeneric e nx xx k txt xtxt (is_seconds t) ok abort name) s ends.
Proof using Type.
  intros Hi Hin Hv Hx. unfold setGenericCommand, s_setGeneric. destruct expire as [x|], xtxt as [y|]; try done; [|by apply (set_go_sim J args s nx xx k val txt false 0 ok abort)].
  eapply sim_run; [apply bind_assoc|]. eapply number_at_sim; [done|done|intros s1 Hi1 _ _; exists tt; split; [done|by eexists _, _]|]. intros v _ _. cbn beta iota.
  destruct (v <=? 0).
  - eapply (sim_run _ (addReply (R_error ("invalid expire time in " +:+ name)))); [|by eapply reply_end]. unfold bind. destruct (addReply _ s) as [[[] s1]|]; done.
  - eapply sim_left; [done|done|]. cbn beta iota. destruct t; by apply (set_go_sim J args s nx xx k val txt true).
Qed.

(** The parsed options: [o_expire] is an argument after the value. *)
Record same_options (s : server) (args : list (list Z)) (o : set_options) (so : soptions) : Prop := {
  so_flags : (o_nx o, o_xx o, o_ex o, o_px o, is_seconds (o_unit o)) = (so_nx so, so_xx so, so_ex so, so_px so, so_seconds so);
  so_deadline : match o_expire o, so_expire so with
    | Some a, Some y => exists i, (3 <= i)%nat /\ argv s !! i = Some a /\ args !! i = Some y
    | None, None => True
    | _, _ => False
    end;
}.

Lemma parse_set_run args s :
  inv [] plain args s -> forall fuel j o so, (length args - j < fuel)%nat -> (3 <= j)%nat -> same_options s args o so ->
  match s_options (drop j args) so with
  | Some so' => exists o', parse_set fuel j o s = Some (Some o', s) /\ same_options s args o' so'
  | None => parse_set fuel j o s = (addReply R_syntaxerr;; ret None)%db s
  end.
Proof using Type.
  intros Hi. destruct (i_args _ _ _ _ Hi) as [Hlen _]. induction fuel as [|fuel IH]; intros j o so Hf Hj Ho; [lia|].
  remember (parse_set (S fuel) j o s) as r eqn:Hr. cbn [parse_set] in Hr. unfold bind at 1 in Hr. unfold gets at 1 in Hr. cbv beta iota in Hr. rewrite Hlen in Hr. destruct (Nat.leb_spec (length args) j) as [Hle|Hlt].
  { rewrite drop_ge by done. cbn. rewrite Hr. by exists o. }
  destruct (lookup_lt_is_Some_2 args j Hlt) as [x Hx]. rewrite (drop_S _ _ _ Hx). cbn [s_options]. unfold bind at 1 in Hr. rewrite (arg_sds_run _ _ _ _ _ _ Hi Hx) in Hr by done. cbv beta iota zeta in Hr.
  destruct o as [nx xx ex px ax un], so as [nx' xx' ex' px' ax' se'], Ho as [Hfl Hd]. cbn in Hfl. injection Hfl as -> -> -> -> Hu. cbn [o_nx o_xx o_ex o_px o_expire o_unit so_nx so_xx so_ex so_px so_expire so_seconds] in *.
  rewrite Hr. clear r Hr. change two_letters with is_option.
  destruct (is_option x 110 120 && negb xx'); [apply IH; [lia|lia|by constructor; [cbn; rewrite Hu|]]|].
  destruct (is_option x 120 120 && negb nx'); [apply IH; [lia|lia|by constructor; [cbn; rewrite Hu|]]|].
  destruct (decide (S j < length args)%nat) as [Hn|Hn].
  - destruct (lookup_lt_is_Some_2 args (S j) Hn) as [y Hy]. destruct (arg_value _ _ _ _ _ _ Hi Hy) as (a & Ha & _). rewrite (drop_S _ _ _ Hy), Ha. rewrite (bool_decide_eq_true_2 (is_Some _)) by (by eexists). rewrite !andb_true_r.
    destruct (is_option x 101 120 && negb px'); [apply IH; [lia|lia|constructor; [done|cbn; exists (S j); repeat split; [lia|done|done]]]|].
    destruct (is_option x 112 120 && negb ex'); [apply IH; [lia|lia|constructor; [done|cbn; exists (S j); repeat split; [lia|done|done]]]|]. done.
  - rewrite (drop_ge args (S j)) by lia. rewrite (lookup_ge_None_2 (argv s) (S j)) by lia. rewrite (bool_decide_eq_false_2 (is_Some _)) by (by intros [? ?]). by rewrite !andb_false_r.
Qed.

(** The value is encoded, then the key is read. *)
Lemma encode_sim {A B} J args s i (f : addr -> M A) (p : Spec B) Q :
  inv [] J args s -> (i < length args)%nat ->
  (forall a s', inv [] (also J i) args s' -> abs X s' = abs X s -> a ∈ argv s' ++ F -> value_at (sheap s') a = Some (VString (argn args i)) -> dbs s' = dbs s ->
    (forall j, j <> i -> argv s' !! j = argv s !! j) -> (forall d k b v w, entry_at s d k b v w -> entry_at s' d k b v w) -> sim (f a) p s' Q) ->
  sim (bind (encode_arg e i) f) p s Q.
Proof using Type.
  intros Hi Hl H. destruct (encode_arg_run (e := e) _ _ _ _ _ _ Hi (arg_ok _ _ Hl)) as (a & s1 & R1 & A1 & Hi1 & Hin & Hv & D1 & _ & _ & V1 & E1). eapply sim_left; [exact R1|done|].
  apply H; [done|done|apply elem_of_app; by left|done|done| |done]. intros j Hj. by rewrite V1, list_lookup_insert_ne.
Qed.

Lemma set_sim args s : inv [] plain args s -> (3 <= length args)%nat -> sim (setCommand e) (sSET e args) s ends.
Proof using Type.
  intros Hi Hl. unfold setCommand, sSET. eapply sim_left; [done|done|]. destruct (i_args _ _ _ _ Hi) as [Hlen _]. cbv beta. rewrite Hlen.
  pose proof (parse_set_run args s Hi (S (length args)) 3 (mk_options false false false false None UNIT_SECONDS) (mk_so false false false false None true)) as HP.
  destruct (s_options (drop 3 args) _) as [so|].
  - destruct HP as (o & R & [HF HD]); [lia|lia|done|]. eapply sim_left; [exact R|done|]. eapply encode_sim; [done|lia|]. intros a s1 Hi1 A1 Hin Hv D1 V1 _. eapply arg_sim; [done|lia|done|].
    injection HF as -> -> _ _ <-. eapply setGeneric_sim; [done|done|done|]. destruct (o_expire o) as [x|], (so_expire so) as [y|]; try done. destruct HD as (i & H3 & Ha & Hy).
    rewrite <- V1 in Ha by lia. destruct (i_args _ _ _ _ Hi1) as [_ HA]. destruct (HA i x Ha) as (y' & Hy' & Hvx & _). congruence.
  - eapply (sim_run _ (addReply R_syntaxerr)); [|by eapply reply_end]. unfold bind at 1. rewrite HP by (lia || done). unfold bind. destruct (addReply R_syntaxerr s) as [[[] s1]|]; done.
Qed.

Lemma setnx_sim args s : inv [] plain args s -> (3 <= length args)%nat -> sim (setnxCommand e) (sSETNX e args) s ends.
Proof using Type.
  intros Hi Hl. unfold setnxCommand, sSETNX. eapply encode_sim; [done|lia|]. intros a s1 Hi1 A1 Hin Hv D1 V1 _. eapply arg_sim; [done|lia|done|]. by eapply (setGeneric_sim _ _ _ _ _ _ _ _ None None UNIT_SECONDS).
Qed.

(** SETEX and PSETEX. *)
Lemma setex_sim t args s name :
  inv [] plain args s -> (4 <= length args)%nat ->
  sim (val <- encode_arg e 3; k <- arg_sds 1; x <- arg 2; setGenericCommand e false false k val (Some x) t R_ok R_nullbulk name)%db
    (s_setGeneric e false false (argn args 1) (argn args 3) (Some (argn args 2)) (is_seconds t) R_ok R_nullbulk name) s ends.
Proof using Type.
  intros Hi Hl. eapply encode_sim; [done|lia|]. intros a s1 Hi1 A1 Hin Hv D1 V1 _. eapply arg_sim; [done|lia|done|].
  destruct (arg_value _ _ _ _ 2 (argn args 2) Hi1) as (x & _ & Rx & Hx & _); [apply arg_ok; lia|]. eapply sim_left; [exact Rx|done|]. by eapply setGeneric_sim.
Qed.

Lemma getset_sim args s : inv [] plain args s -> (3 <= length args)%nat -> sim (getsetCommand e) (sGETSET e args) s ends.
Proof using Type.
  intros Hi Hl. unfold getsetCommand, sGETSET. apply sim_bind. eapply sim_mono; [eapply getGeneric_sim; [done|apply arg_ok; lia|done]|]. intros x y s1 [-> Hi1]. cbn beta.
  destruct y; cbn [negb]; [|by eapply ret_end]. eapply encode_sim; [done|lia|]. intros a s2 Hi2 A2 Hin Hv D2 V2 _. apply (db_sim _ _ _ _ _ _ Hi2). intros d Hd. eapply arg_sim; [done|lia|done|].
  apply sim_bind. eapply sim_mono; [by eapply setKey_sim|]. intros [] [] s3 (Hi3 & _). by eapply dirty_end.
Qed.

(** ** Several keys *)

Lemma any_sim args d l xs : Forall2 (at_arg args) l xs -> forall s, between plain args d s -> sim (any_key e d l) (s_any e d xs) s (fun x y s' => x = y /\ between plain args d s').
Proof using Type.
  induction 1 as [|j k l xs Hj _ IH]; intros s [Hi Hd]; cbn [any_key s_any]; [by apply sim_ret|]. eapply sim_left; [by eapply arg_sds_run|done|].
  apply sim_bind. eapply sim_mono; [by eapply lookupKeyWrite_sim|]. intros x y s1 [T Hf]. cbn beta. pose proof (between_touched _ _ _ _ _ _ Hd T) as Hb.
  destruct x as [a|], y as [[v w]|]; try done; [by apply sim_ret|by apply IH].
Qed.

Lemma inv_weaken (J J' : nat -> bool) E args s : (forall i, J' i = false -> J i = false) -> inv E J args s -> inv E J' args s.
Proof using Type.
  intros HJ [I1 I2 I3 I4 I5 I6 I7 [Il I8] I9 I10 I11 I12]. constructor; [done..| |done|done|done|done]. split; [done|]. intros i a Ha. destruct (I8 i a Ha) as (x & Hx & Hv & Hs). exists x. split; [done|]. split; [done|]. intros H. by apply Hs, HJ.
Qed.

(** The keys are at the odd positions and the values follow. *)
Definition at_pair (args : list (list Z)) (j : nat) (p : key * list Z) : Prop := args !! j = Some (fst p) /\ args !! S j = Some (snd p) /\ Nat.even j = false.

Lemma pair_args n : forall l pre, length l = (2 * n)%nat -> Nat.even (length pre) = false -> Forall2 (at_pair (pre ++ l)) (map (fun i => length pre + 2 * i)%nat (seq 0 n)) (pairs l).
Proof using Type.
  induction n as [|n IH]; intros l pre Hl Ho; [destruct l; cbn in *; [done|lia]|]. destruct l as [|k [|v l]]; cbn in Hl; [lia|lia|]. cbn [seq map pairs]. constructor.
  - rewrite Nat.mul_0_r, Nat.add_0_r. split; [|split; [|done]]; rewrite lookup_app_r by lia; [by rewrite Nat.sub_diag|]. replace (S (length pre) - length pre)%nat with 1%nat by lia. done.
  - specialize (IH l (pre ++ [k; v])). rewrite <- app_assoc in IH. cbn [app] in IH. rewrite <- seq_shift, map_map. eapply Forall2_impl; [|done].
    rewrite (map_ext _ (fun i => length (pre ++ [k; v]) + 2 * i)%nat) by (intros i; rewrite length_app; cbn; lia). apply IH; [lia|]. rewrite length_app, Nat.even_add. by rewrite Ho.
Qed.

Lemma mset_pairs args : zlen args mod 2 <> 0 -> Forall2 (at_pair args) (map (fun i => 1 + 2 * i)%nat (seq 0 (Z.to_nat ((zlen args - 1) / 2)))) (pairs (tail args)).
Proof using Type.
  intros Hm. destruct args as [|x l]; [done|]. cbn [tail]. apply (pair_args _ l [x]); [|done]. unfold zlen in *. cbn [length] in *.
  assert ((2 | Z.of_nat (length l))) as [z Hz]. { apply Z.mod_divide; [lia|]. pose proof (Z.mod_pos_bound (Z.of_nat (S (length l))) 2). rewrite Nat2Z.inj_succ in *. rewrite <- Z.add_1_l, Zplus_mod in Hm. pose proof (Z.mod_pos_bound (Z.of_nat (length l)) 2). destruct (decide (Z.of_nat (length l) mod 2 = 0)) as [?|Hne]; [done|]. replace (Z.of_nat (length l) mod 2) with 1 in Hm by lia. done. }
  replace (Z.of_nat (S (length l)) - 1) with (z * 2) by lia. rewrite Z.div_mul by done. lia.
Qed.

Lemma mset_key_sim args d j p s :
  at_pair args j p -> between Nat.even args d s -> sim (mset_key e d j) (s_set e d (fst p) (snd p)) s (fun _ _ s' => between Nat.even args d s').
Proof using Type.
  intros (Hk & Hv & Ho) [Hi Hd]. unfold mset_key. destruct (encode_arg_run (e := e) _ _ _ _ _ _ Hi Hv) as (a & s1 & R1 & A1 & Hi1 & Hin & Hv1 & D1 & _ & _ & V1 & E1). eapply sim_left; [exact R1|done|].
  apply (inv_weaken _ Nat.even) in Hi1; [|intros i Hx; unfold also; destruct (decide (S j = i)) as [<-|]; [rewrite Nat.even_succ, <- Nat.negb_even, Ho in Hx; done|done]].
  eapply sim_left; [by eapply arg_sds_run|done|]. eapply sim_mono; [eapply setKey_sim; [done|by rewrite D1|apply elem_of_app; by left|done]|]. intros [] [] s2 (Hi2 & _ & _ & _ & _ & L2). split; [done|].
  eapply db_in; [exact L2|by rewrite D1].
Qed.

Lemma mset_sim nx args s : inv [] plain args s -> (3 <= length args)%nat -> sim (msetGenericCommand e nx) (s_msetGeneric e nx args) s ends.
Proof using Type.
  intros Hi Hl. unfold msetGenericCommand, s_msetGeneric. eapply sim_left; [by eapply argc_run|done|]. destruct (Z.eqb_spec (zlen args mod 2) 0) as [|Hm]; [by eapply reply_end|].
  apply (db_sim _ _ _ _ _ _ Hi). intros d Hd. pose proof (mset_pairs args Hm) as HP. cbv zeta. apply sim_bind.
  apply (sim_mono _ _ _ (fun x y s' => x = y /\ between plain args d s')).
  { destruct nx; [|by apply sim_ret]. apply any_sim; [|done]. apply Forall2_fmap_r. eapply Forall2_impl; [exact HP|]. by intros j p (? & _). }
  intros x y s1 [-> [Hi1 Hd1]]. cbn beta. destruct y; [by eapply reply_end|]. apply sim_bind. unfold for_args. apply (sim_mono _ _ _ (fun _ _ s' => between Nat.even args d s')).
  - eapply loop_sim; [exact HP|intros; by apply mset_key_sim|]. split; [|done]. by apply (inv_weaken plain).
  - intros [] [] s2 [Hi2 _]. apply sim_bind. eapply sim_mono; [by eapply add_dirty_sim|]. intros [] [] s3 (Hi3 & _). destruct nx; by eapply reply_end.
Qed.

(** ** Changes in place *)

(** What follows a step only reads. *)
Lemma sim_post {A A' B} (m : M A) (k : A -> M A') (p : Spec B) s Q : sim m p s (fun x y s' => exists z, k x s' = Some (z, s') /\ Q z y s') -> sim (bind m k) p s Q.
Proof using Type. intros (x & s' & E & Ea & z & Ez & HQ). exists z, s'. unfold bind. by rewrite E. Qed.

Lemma add_arg_sim J args s d k a v :
  inv [] J args s -> a ∈ argv s ++ F -> value_at (sheap s) a = Some v -> found s d k None None ->
  sim (dbAdd d k a;; incr a)%db (s_store d k (v, None)) s (fun _ _ s' => touches_only [] J args d k s s' /\ entry_at s' d k a v None).
Proof using Type.
  intros Hi Ha Hv (db & Hd & Hk & Hw). assert (d < length (dbs s))%nat as Hlt by (by eapply lookup_lt_Some). pose proof (i_heap _ _ _ _ Hi) as Hh. rewrite (refs_missing [] s d db k Hd Hk) in Hh.
  assert (a ∈ [] ++ vals (without db k) ++ rest_refs s d ++ argv s ++ F) as Hin by (rewrite !elem_of_app in *; tauto).
  destruct (incrRefCount_ok _ _ a Hh) as (h2 & Ei & Hh2 & K2 & _); [by apply (ho_live _ _ Hh)|].
  destruct (put_entry [] [] J args s h2 d db k a v (expires db) Hi Hd) as (A1 & A2 & A3); [by rewrite (repr_value _ _ _ _ (K2 a))|done|done|intros b Hb; apply K2|].
  rewrite Hw in A1, A3. eexists tt, _. split; [|split; [exact A1|done]]. unfold dbAdd, incr, on_heap, put_db, modify, bind. rewrite (run_db s d db Hd). rewrite bool_decide_eq_false_2 by (rewrite Hk; by intros [? ?]).
  cbn [sheap set_dbs]. rewrite Ei. by destruct s.
Qed.

Lemma edit_run J args s d k a txt w new :
  inv [] J args s -> entry_at s d k a (VString txt) w ->
  exists a' s1 o s2, dbUnshareStringValue d k a s = Some (a', s1) /\ get_obj a' s1 = Some (o, s1) /\ sds_of o = Some txt /\ put_string a' new s1 = Some (tt, s2) /\
    abs X s2 = snd (s_store d k (VString new, w) (abs X s)) /\ touches_only [] J args d k s s2 /\ entry_at s2 d k a' (VString new) w.
Proof using Type.
  intros Hi He. destruct (unshare_run _ _ _ _ _ _ _ _ _ Hi He) as (a' & s1 & o & R1 & A1 & T1 & He1 & Ho & Hr & Ht & Hc & Hp).
  destruct (set_cell_sim _ _ _ _ _ _ _ _ (mk_obj (o_type o) (o_encoding o) (PtrSds new) (refcount o)) _ _ (proj1 T1) He1 Ho Hr) as (A2 & T2 & He2); [unfold object_ok, sdsEncodedObject; cbn; by rewrite Ht, Hc|done|].
  assert (get_obj a' s1 = Some (o, s1)) as Ro by (unfold get_obj, read_heap; by rewrite Ho). eexists a', s1, o, _. split; [done|]. split; [done|]. split; [unfold sds_of; by rewrite Hp|]. split; [unfold put_string, bind; rewrite Ro; reflexivity|].
  split; [by rewrite A2, A1|]. split; [by eapply touches_trans|done].
Qed.

Lemma string_length_run J args s n :
  inv [] J args s -> checkStringLength (sll n) s = if too_long n then (addReply too_long_error;; ret false)%db s else Some (true, s).
Proof using Type. intros _. unfold checkStringLength, too_long. by destruct (sll n >? _). Qed.

(** The length is checked before the change. *)
Lemma check_length_sim J args s n (f : bool -> M unit) (p : Spec unit) :
  inv [] J args s -> (forall s', f false s' = Some (tt, s')) -> sim (f true) p s ends -> sim (bind (checkStringLength (sll n)) f) (if too_long n then s_reply too_long_error else p) s ends.
Proof using Type.
  intros Hi Hf Hs. pose proof (string_length_run _ _ _ n Hi) as R. destruct (too_long n); [|by eapply sim_left].
  eapply (sim_run _ (addReply too_long_error)); [|by eapply reply_end]. unfold bind at 1. rewrite R. unfold bind. destruct (addReply too_long_error s) as [[[] s1]|]; [|done]. apply Hf.
Qed.

Lemma append_sim args s : inv [] plain args s -> (3 <= length args)%nat -> sim (appendCommand e) (sAPPEND e args) s ends.
Proof using Type.
  intros Hi Hl. unfold appendCommand, sAPPEND. apply (db_sim _ _ _ _ _ _ Hi). intros d Hd. eapply arg_sim; [done|lia|done|]. set (k := argn args 1). set (v := argn args 2). cbv zeta.
  apply sim_bind. eapply sim_mono; [by eapply lookupKeyWrite_sim|]. intros x y s1 [T1 Hf]. cbn beta. pose proof T1 as (Hi1 & _). destruct (between_touched _ _ _ _ _ _ Hd T1) as [_ Hd1].
  destruct x as [a|], y as [[vv w]|]; try done.
  - destruct vv as [txt|t z].
    + eapply sim_run; [apply bind_assoc|]. eapply right_type; [done|by eapply entry_value|]. eapply sim_run; [apply bind_assoc|]. eapply arg_sim; [done|lia|done|]. fold v.
      eapply sim_run; [apply bind_assoc|]. eapply sim_left; [eapply len_run; [done|by eapply entry_value]|done|]. eapply sim_run; [apply bind_assoc|]. eapply check_length_sim; [done|done|]. cbn beta.
      cbn [negb]. destruct (edit_run _ _ _ _ _ _ _ _ (txt ++ v) Hi1 Hf) as (a' & s2 & o & s3 & R1 & R2 & R3 & R4 & A3 & T3 & _). apply sim_bind.
      exists (Some (zlen (txt ++ v))), s3. split; [|split; [done|]].
      * unfold bind. rewrite R1, R2. unfold lift. by rewrite R3, R4.
      * destruct (between_touched _ _ _ _ _ _ Hd1 T3) as [Hi3 Hd3]. by eapply touch_dirty_reply.
    + eapply sim_run; [apply bind_assoc|]. eapply wrong_type; [done|by eapply entry_value|done].
  - apply sim_bind. eapply encode_sim; [done|lia|]. intros a s2 Hi2 A2 Hin Hv D2 V2 _. fold v in Hv.
    apply (sim_run _ ((dbAdd d k a;; incr a);; n <- read_heap (fun h => stringObjectLen h a); ret (Some n))%db); [symmetry; apply bind_assoc|]. apply sim_post.
    eapply sim_mono; [eapply add_arg_sim; [done|done|done|unfold found; by rewrite D2]|]. intros [] [] s3 [T3 He3]. exists (Some (zlen v)). pose proof T3 as (Hi3 & _). split.
    + unfold bind. by rewrite (len_run _ _ _ _ _ Hi3 (entry_value _ _ _ _ _ _ He3)).
    + rewrite <- D2 in Hd1. destruct (between_touched _ _ _ _ _ _ Hd1 T3) as [_ Hd3]. by eapply touch_dirty_reply.
Qed.

(** [getLongFromObjectOrReply]: every [long long] is a [long]. *)
Lemma long_run J args s a x msg :
  inv [] J args s -> value_at (sheap s) a = Some (VString x) ->
  getLongFromObjectOrReply (Some a) msg s =
    match string2ll x with
    | None => (addReply (R_error (match msg with Some m => m | None => "value is not an integer or out of range" end));; ret None)%db s
    | Some v => Some (Some v, s)
    end.
Proof using Type.
  intros Hi Hv. unfold getLongFromObjectOrReply, getLongLongFromObjectOrReply, bind. rewrite (number_run _ _ _ _ _ _ Hi Hv). destruct (string2ll x) as [v|] eqn:Ex.
  - cbn [ret]. apply string2ll_spec in Ex as [_ Hr]. unfold in_s in Hr. replace ((v <? LONG_MIN) || (v >? LONG_MAX)) with false; [done|]. symmetry. apply orb_false_iff. unfold LONG_MIN, LONG_MAX. lia.
  - destruct (addReply _ s) as [[[] s1]|]; done.
Qed.

Lemma long_sim J args s i msg (k : option Z -> M unit) (k' : Z -> Spec unit) :
  inv [] J args s -> (i < length args)%nat -> (forall s', k None s' = Some (tt, s')) ->
  (forall v, string2ll (argn args i) = Some v -> in_s 64 v -> sim (k (Some v)) (k' v) s ends) ->
  sim (a <- arg i; r <- getLongFromObjectOrReply (Some a) msg; k r)%db
    (match string2ll (argn args i) with None => s_reply (R_error (match msg with Some m => m | None => "value is not an integer or out of range" end)) | Some v => k' v end) s ends.
Proof using Type.
  intros Hi Hl Hn Hs. destruct (arg_value _ _ _ _ _ _ Hi (arg_ok _ _ Hl)) as (a & _ & Ra & Hv & _). eapply sim_left; [exact Ra|done|]. pose proof (long_run _ _ _ _ _ msg Hi Hv) as R.
  destruct (string2ll (argn args i)) as [v|] eqn:Ev; [eapply sim_left; [exact R|done|]; apply Hs; [done|by apply string2ll_spec in Ev as [_ ?]]|].
  match goal with |- context [s_reply ?r] => eapply (sim_run _ (addReply r)); [|by eapply reply_end]; unfold bind at 1; rewrite R; unfold bind; destruct (addReply r s) as [[[] s1]|]; [apply Hn|done] end.
Qed.

Lemma new_string_run J args s txt :
  inv [] J args s -> exists a s', on_heap_new (fun h => Some (createObject h OBJ_STRING (PtrSds txt))) s = Some (a, s') /\ abs X s' = abs X s /\ inv [a] J args s' /\
    cells (sheap s') !! a = Some (mk_obj OBJ_STRING OBJ_ENCODING_RAW (PtrSds txt) 1) /\ dbs s' = dbs s.
Proof using Type.
  intros Hi. destruct (new_string_ok _ _ OBJ_ENCODING_RAW txt (i_heap _ _ _ _ Hi)) as (h' & a & E1 & Hh & K & Ha & _); [by left|]. exists a, (set_heap s h'). split; [|split; [|split; [|split; [done|done]]]].
  - unfold on_heap_new, createObject. rewrite E1. done.
  - eapply abs_heap; [exact Hi|done].
  - eapply inv_heap; [exact Hi|done|done].
Qed.

Lemma store_twice d k x y t : snd (s_store d k y (snd (s_store d k x t))) = snd (s_store d k y t).
Proof using Type.
  unfold s_store, sbind, s_db, sgets, s_put_db, smod, t_dbs. destruct t as [l m c cm ar n lg]. cbn. f_equal. rewrite list_insert_insert_eq.
  destruct (decide (d < length l)%nat) as [Hlt|Hge]; [|by rewrite !list_insert_ge by lia]. rewrite list_lookup_insert_eq by done. cbn. by rewrite insert_insert_eq.
Qed.

(** The common end of SETRANGE, for an object of the key alone. *)
Lemma setrange_store_sim J args s d k a s0 off v txt w o :
  inv [] J args s -> entry_at s d k a (VString txt) w -> cells (sheap s) !! a = Some o -> refcount o = 1 -> o_type o = OBJ_STRING -> o_encoding o = OBJ_ENCODING_RAW -> o_ptr o = PtrSds txt ->
  splice txt off v = splice s0 off v ->
  sim (setrange_store d k a off v) (s_store d k (VString (splice s0 off v), w);; s_touch d k;; s_dirty 1;; s_reply (R_int (zlen (splice s0 off v))))%spec s ends.
Proof using Type.
  intros Hi He Ho Hr Ht Hc Hp <-. unfold setrange_store. assert (get_obj a s = Some (o, s)) as Ro by (unfold get_obj, read_heap; by rewrite Ho). eapply sim_left; [exact Ro|done|].
  eapply sim_left; [unfold lift, sds_of; by rewrite Hp|done|]. cbv zeta. change (overwrite_at (sdsgrowzero txt (off + zlen v)) off v) with (splice txt off v). set (new := splice txt off v).
  destruct (set_cell_sim _ _ _ _ _ _ _ _ (mk_obj (o_type o) (o_encoding o) (PtrSds new) (refcount o)) _ _ Hi He Ho Hr) as (A2 & T2 & He2); [unfold object_ok, sdsEncodedObject; cbn; by rewrite Ht, Hc|done|].
  apply sim_bind. eexists tt, _. split; [unfold put_string, bind; rewrite Ro; reflexivity|]. split; [exact A2|]. destruct He2 as (db & Hd & _). eapply touch_dirty_reply; [apply T2|by eexists].
Qed.

Lemma splice_zeros off v : 0 <= off -> splice (replicate (Z.to_nat (off + zlen v)) 0) off v = splice [] off v.
Proof using Type.
  intros Ho. unfold splice. pose proof (zlen_nonneg v). replace (zlen (replicate (Z.to_nat (off + zlen v)) 0)) with (off + zlen v) by (unfold zlen; rewrite length_replicate; unfold zlen in *; lia).
  rewrite Z.sub_diag. cbn [replicate Z.to_nat]. rewrite app_nil_r. cbn [app]. rewrite Z.sub_0_r. done.
Qed.

Lemma dbAdd_heap d k a s s' : dbAdd d k a s = Some (tt, s') -> sheap s' = sheap s.
Proof using Type.
  unfold dbAdd, bind, get_db, gets, lift. cbn. destruct (dbs s !! d) as [db|]; [|done]. case_bool_decide; [done|]. unfold put_db, modify. by intros [= <-].
Qed.

Lemma setrange_sim args s : inv [] plain args s -> (4 <= length args)%nat -> sim (setrangeCommand e) (sSETRANGE e args) s ends.
Proof using Type.
  intros Hi Hl. unfold setrangeCommand, sSETRANGE. eapply arg_sim; [done|lia|done|]. set (v := argn args 3). set (k := argn args 1). cbv zeta. unfold s_number.
  eapply (long_sim _ _ _ 2 None); [done|lia|done|]. intros off _ _. cbn beta iota. destruct (Z.ltb_spec off 0) as [|Hoff]; [by eapply reply_end|].
  apply (db_sim _ _ _ _ _ _ Hi). intros d Hd. eapply arg_sim; [done|lia|done|]. fold k. apply sim_bind. eapply sim_mono; [by eapply lookupKeyWrite_sim|]. intros x y s1 [T1 Hf]. cbn beta.
  pose proof T1 as (Hi1 & _). destruct (between_touched _ _ _ _ _ _ Hd T1) as [_ Hd1]. destruct x as [a|], y as [[vv w]|]; try done.
  - destruct vv as [txt|t z]; [|eapply wrong_type; [done|by eapply entry_value|done]]. eapply right_type; [done|by eapply entry_value|]. eapply sim_left; [eapply len_run; [done|by eapply entry_value]|done|].
    destruct (zlen v =? 0); [by eapply reply_end|]. eapply check_length_sim; [done|done|]. cbn [negb].
    destruct (unshare_run _ _ _ _ _ _ _ _ _ Hi1 Hf) as (a' & s2 & o & R2 & A2 & (Hi2 & _) & He2 & Ho & Hr & Ht & Hc & Hp). eapply sim_left; [exact R2|exact A2|]. by eapply setrange_store_sim.
  - destruct (zlen v =? 0); [by eapply reply_end|]. eapply check_length_sim; [done|done|]. cbn [negb]. set (zeros := replicate (Z.to_nat (off + zlen v)) 0).
    destruct (new_string_run _ _ _ zeros Hi1) as (a & s2 & R2 & A2 & Hi2 & Ha & D2). eapply sim_left; [exact R2|exact A2|].
    destruct (dbAdd_sim [] _ _ s2 d k a (VString zeros) Hi2) as ([] & s3 & R3 & A3 & (Hi3 & _) & He3); [unfold value_at; by rewrite Ha|unfold found; by rewrite D2|].
    assert (sim (setrange_store d k a off v) (s_store d k (VString (splice [] off v), None);; s_touch d k;; s_dirty 1;; s_reply (R_int (zlen (splice [] off v))))%spec s3 ends) as (x & s4 & R4 & A4 & Q4).
    { eapply setrange_store_sim; [done|exact He3|by rewrite (dbAdd_heap _ _ _ _ _ R3)|done..|]. by apply splice_zeros. }
    exists x, s4. split; [unfold bind; by rewrite R3|]. split; [|done]. rewrite A4, A3, A2. unfold sbind at 1 4.
    pose proof (store_twice d k (VString zeros, None) (VString (splice [] off v), None) (abs X s1)) as E. destruct (s_store d k (VString (splice [] off v), None) (snd _)) as [[] t1]. destruct (s_store d k (VString (splice [] off v), None) (abs X s1)) as [[] t2]. cbn [snd] in E. by subst.
Qed.

(** ** Counters *)

Lemma no_overflow by_ old :
  in_s 64 by_ -> in_s 64 old ->
  ((by_ <? 0) && (old <? 0) && (by_ <? LLONG_MIN - old)) || ((by_ >? 0) && (old >? 0) && (by_ >? LLONG_MAX - old)) = (old + by_ <? LLONG_MIN) || (old + by_ >? LLONG_MAX).
Proof using Type.
  unfold in_s, LLONG_MIN, LLONG_MAX. intros H1 H2. apply eq_true_iff_eq. rewrite !orb_true_iff, !andb_true_iff, !Z.gtb_ltb, !Z.ltb_lt. lia.
Qed.

Definition counts (J : nat -> bool) (args : list (list Z)) (d : nat) (k : key) (txt : list Z) (x : addr) (s : server) : Prop :=
  inv [] J args s /\ is_Some (dbs s !! d) /\ value_at (sheap s) x = Some (VString txt).

Lemma counts_of J args d k txt x w s s' : touches_only [] J args d k s s' -> entry_at s' d k x (VString txt) w -> counts J args d k txt x s'.
Proof using Type. intros T (db & Hd & _ & Hv & _). split; [apply T|]. split; [by eexists|done]. Qed.

(** A new object with the number. *)
Lemma new_number_run J args s v : inv [] J args s -> in_s 64 v ->
  exists a s', on_heap_new (fun h => createStringObjectFromLongLongForValue (private_integers e) h v) s = Some (a, s') /\ abs X s' = abs X s /\ inv [a] J args s' /\
    value_at (sheap s') a = Some (VString (ld_text v)) /\ dbs s' = dbs s /\ forall d k b x w, entry_at s d k b x w -> entry_at s' d k b x w.
Proof using Type.
  intros Hi Hv. destruct (new_object_run [] _ _ s (fun h => createStringObjectFromLongLongForValue (private_integers e) h v) (VString (ld_text v)) Hi) as (a & s' & R & A & I & Vl & _ & _ & D & _ & _ & E).
  - intros refs Hr. by apply FromLongLong_ok.
  - by exists a, s'.
Qed.

(** The result replaces the value, in place if possible. *)
Lemma put_number_sim J args s d k x y txt v :
  inv [] J args s -> in_s 64 v -> found s d k x y -> match y with Some (VString t, _) => t = txt | Some (VOther _ _, _) => False | None => True end ->
  sim (match x with
       | None => new <- on_heap_new (fun h => createStringObjectFromLongLongForValue (private_integers e) h v); dbAdd d k new;; ret new
       | Some a =>
         ob <- get_obj a;
         if (refcount ob =? 1) && bool_decide (o_encoding ob = OBJ_ENCODING_INT) && ((v <? 0) || (v >=? OBJ_SHARED_INTEGERS)) && (v >=? LONG_MIN) && (v <=? LONG_MAX)
         then on_heap (fun h => Some (set_cell h a (mk_obj (o_type ob) (o_encoding ob) (PtrInt v) (refcount ob))));; ret a
         else new <- on_heap_new (fun h => createStringObjectFromLongLongForValue (private_integers e) h v); dbOverwrite d k new;; ret new
       end)%db (s_store d k (VString (ld_text v), match y with Some (_, w) => w | None => None end)) s (fun x _ s' => counts J args d k (ld_text v) x s').
Proof using Type.
  intros Hi Hv Hf Hy. destruct x as [a|], y as [[vv w]|]; try done.
  - destruct vv as [t|]; [subst t|done]. destruct (string_cases _ _ _ _ (i_heap _ _ _ _ Hi) (entry_value _ _ _ _ _ _ Hf)) as (o & Ho & Ht & _).
    eapply sim_left; [unfold get_obj, read_heap; by rewrite Ho|done|]. cbn [mbind option_bind].
    match goal with |- context [if ?b then _ else _] => destruct b eqn:Eb end.
    + rewrite !andb_true_iff, Z.eqb_eq, bool_decide_eq_true in Eb. destruct Eb as [[[[Hr Hc] _] _] _].
      destruct (set_cell_sim _ _ _ _ _ _ _ _ (mk_obj (o_type o) (o_encoding o) (PtrInt v) (refcount o)) _ _ Hi Hf Ho Hr) as (A2 & T2 & He2); [unfold object_ok; cbn; by rewrite Ht, Hc|done|].
      eexists a, _. split; [reflexivity|]. split; [exact A2|]. by eapply counts_of.
    + destruct (new_number_run _ _ _ _ Hi Hv) as (new & s1 & R1 & A1 & Hi1 & V1 & D1 & E1). eapply sim_left; [exact R1|exact A1|]. apply sim_post.
      eapply sim_mono; [eapply (dbOverwrite_sim []); [exact Hi1|exact V1|by apply E1]|]. intros [] [] s2 (T2 & He2 & _). exists new. split; [done|]. by eapply counts_of.
  - destruct (new_number_run _ _ _ _ Hi Hv) as (new & s1 & R1 & A1 & Hi1 & V1 & D1 & E1). eapply sim_left; [exact R1|exact A1|]. apply sim_post.
    eapply sim_mono; [eapply (dbAdd_sim []); [exact Hi1|exact V1|unfold found; by rewrite D1]|]. intros [] [] s2 (T2 & He2). exists new. split; [done|]. by eapply counts_of.
Qed.

Lemma count_end J args s d k txt x :
  counts J args d k txt x s -> sim (signalModifiedKey d k;; add_dirty 1;; s <- obj_text x; addReply (R_colon s))%db (s_touch d k;; s_dirty 1;; s_reply (R_colon txt))%spec s ends.
Proof using Type.
  intros (Hi & Hd & Hv). apply sim_bind. eapply sim_mono; [by eapply signalModifiedKey_sim|]. intros [] [] s1 (Hi1 & (M1 & _) & _). cbn beta.
  apply sim_bind. eapply sim_mono; [by eapply add_dirty_sim|]. intros [] [] s2 (Hi2 & (M2 & _) & _). cbn beta. eapply sim_left; [eapply obj_text_run; [done|by rewrite M2, M1]|done|]. by eapply reply_end.
Qed.

(** The addition and its end. *)
Lemma add_number_sim J args s d k x y txt old by_ :
  inv [] J args s -> in_s 64 old -> in_s 64 by_ -> found s d k x y -> match y with Some (VString t, _) => t = txt | Some (VOther _ _, _) => False | None => True end ->
  sim (if ((by_ <? 0) && (old <? 0) && (by_ <? LLONG_MIN - old)) || ((by_ >? 0) && (old >? 0) && (by_ >? LLONG_MAX - old))
       then addReply (R_error "increment or decrement would overflow") else
       let value := sll (old + by_) in
       new <- match x with
       | None => new <- on_heap_new (fun h => createStringObjectFromLongLongForValue (private_integers e) h value); dbAdd d k new;; ret new
       | Some a =>
         ob <- get_obj a;
         if (refcount ob =? 1) && bool_decide (o_encoding ob = OBJ_ENCODING_INT) && ((value <? 0) || (value >=? OBJ_SHARED_INTEGERS)) && (value >=? LONG_MIN) && (value <=? LONG_MAX)
         then on_heap (fun h => Some (set_cell h a (mk_obj (o_type ob) (o_encoding ob) (PtrInt value) (refcount ob))));; ret a
         else new <- on_heap_new (fun h => createStringObjectFromLongLongForValue (private_integers e) h value); dbOverwrite d k new;; ret new
       end;
       signalModifiedKey d k;; add_dirty 1;; s <- obj_text new; addReply (R_colon s))%db
      (if (old + by_ <? LLONG_MIN) || (old + by_ >? LLONG_MAX) then s_reply (R_error "increment or decrement would overflow") else
       s_store d k (VString (ld_text (old + by_)), match y with Some (_, w) => w | None => None end);; s_touch d k;; s_dirty 1;; s_reply (R_colon (ld_text (old + by_))))%spec s ends.
Proof using Type.
  intros Hi Ho Hb Hf Hy. rewrite (no_overflow by_ old Hb Ho). destruct ((old + by_ <? LLONG_MIN) || (old + by_ >? LLONG_MAX)) eqn:Eo; [by eapply reply_end|].
  apply orb_false_iff in Eo as [E1 E2]. unfold LLONG_MIN, LLONG_MAX in *. assert (in_s 64 (old + by_)) as Hr by (unfold in_s in *; lia). cbv zeta. unfold sll. rewrite swrap_small by done.
  apply sim_bind. eapply sim_mono; [by eapply put_number_sim|]. intros new [] s1 Hc. by eapply count_end.
Qed.

Lemma incr_sim J args s k by_ :
  inv [] J args s -> args !! 1%nat = Some k -> J 1%nat = false -> in_s 64 by_ -> sim (incrDecrCommand e by_) (s_incr e k by_) s ends.
Proof using Type.
  intros Hi Hk HJ Hb. unfold incrDecrCommand, s_incr. apply (db_sim _ _ _ _ _ _ Hi). intros d Hd. eapply sim_left; [by eapply arg_sds_run|done|]. cbv zeta. apply sim_bind.
  eapply sim_mono; [by eapply lookupKeyWrite_sim|]. intros x y s1 [(Hi1 & _) Hf]. cbn beta. destruct x as [a|], y as [[vv w]|]; try done.
  - destruct vv as [txt|t z]; [|eapply wrong_type; [done|by eapply entry_value|done]]. eapply right_type; [done|by eapply entry_value|].
    eapply number_at_sim; [done|by eapply entry_value|intros s2 Hi2 _ _; exists tt; split; [done|by eexists _, _]|]. intros old _ Hold. cbn beta iota.
    by apply (add_number_sim J args s1 d k (Some a) (Some (VString txt, w)) txt old by_).
  - eapply sim_left; [done|done|]. cbn beta iota. eapply sim_left; [done|done|]. cbn beta iota. by apply (add_number_sim J args s1 d k None None [] 0 by_).
Qed.

Lemma incrby_sim (f : Z -> Z) args s :
  inv [] plain args s -> (3 <= length args)%nat -> (forall v, in_s 64 v -> in_s 64 (f v)) ->
  sim (x <- arg 2; r <- getLongLongFromObjectOrReply (Some x) None; match r with None => ret tt | Some v => incrDecrCommand e (f v) end)%db
    (s_number (argn args 2) (fun v => s_incr e (argn args 1) (f v))) s ends.
Proof using Type.
  intros Hi Hl Hf. eapply number_sim; [done|apply arg_ok; lia|intros s1 Hi1 _ _; exists tt; split; [done|by eexists _, _]|]. intros v _ Hv. cbn beta iota.
  eapply incr_sim; [done|apply arg_ok; lia|done|by apply Hf].
Qed.

(** ** Keys *)

Lemma del_sim args d l xs : Forall2 (at_arg args) l xs -> forall n s, between plain args d s -> sim (del_keys e d l n) (s_del e d xs n) s (fun x y s' => x = y /\ inv [] plain args s').
Proof using Type.
  induction 1 as [|j k l xs Hj _ IH]; intros n s [Hi Hd]; cbn [del_keys s_del]; [by apply sim_ret|]. eapply sim_left; [by eapply arg_sds_run|done|].
  apply sim_bind. eapply sim_mono; [by eapply expireIfNeeded_sim|]. intros b1 b2 s1 [_ T1]. cbn beta. destruct (between_touched _ _ _ _ _ _ Hd T1) as [Hi1 Hd1].
  apply sim_bind. eapply sim_mono; [by eapply dbSyncDelete_sim|]. intros x y s2 [-> T2]. cbn beta. destruct (between_touched _ _ _ _ _ _ Hd1 T2) as [Hi2 Hd2].
  apply sim_bind. apply (sim_mono _ _ _ (fun _ _ s' => between plain args d s')); [|intros [] [] s3 Hb; by apply IH]. destruct y; [|apply sim_ret; by split].
  apply sim_bind. eapply sim_mono; [by eapply signalModifiedKey_sim|]. intros [] [] s3 (Hi3 & M3 & _). cbn beta. eapply sim_mono; [by eapply add_dirty_sim|]. intros [] [] s4 (Hi4 & M4 & _).
  apply (between_same _ _ _ s3); [apply (between_same _ _ _ s2)|..]; done.
Qed.

Lemma delete_sim args s : inv [] plain args s -> (2 <= length args)%nat -> sim (delCommand e) (sDEL e args) s ends.
Proof using Type.
  intros Hi Hl. unfold delCommand, sDEL. eapply sim_left; [by eapply argc_run|done|]. apply (db_sim _ _ _ _ _ _ Hi). intros d Hd. apply sim_bind.
  eapply sim_mono; [eapply del_sim; [by apply tail_args; lia|done]|]. intros x y s1 [-> Hi1]. by eapply reply_end.
Qed.

(** An object in hand goes to a new key, with the deadline it had. *)
Definition add_with_deadline (d : nat) (k : key) (a : addr) (x : Z) : M unit := (dbAdd d k a;; if negb (x =? -1) then setExpire d k x else ret tt)%db.

Lemma add_with_deadline_sim E J args s d k a v w :
  inv (a :: E) J args s -> value_at (sheap s) a = Some v -> found s d k None None ->
  sim (add_with_deadline d k a (default (-1) w)) (s_store d k (v, same_deadline w)) s (fun _ _ s' => touches_only E J args d k s s' /\ entry_at s' d k a v (same_deadline w)).
Proof using Type.
  intros Hi Hv Hf. destruct (dbAdd_sim _ _ _ _ _ _ _ _ Hi Hv Hf) as ([] & s1 & R1 & A1 & T1 & He1). unfold add_with_deadline. pose proof T1 as (Hi1 & _).
  destruct (deadline_cases w) as [[E1 ->]|(Hne & -> & E2)].
  - rewrite E1. exists tt, s1. unfold bind. by rewrite R1.
  - rewrite (proj2 (Z.eqb_neq _ _) Hne). cbn [negb]. destruct (setExpire_sim _ _ _ _ _ _ _ _ _ (default (-1) w) Hi1 He1) as ([] & s2 & R2 & A2 & T2 & He2). rewrite <- E2 in A2, He2.
    exists tt, s2. split; [unfold bind; by rewrite R1, R2|]. split; [by rewrite A2, A1, store_twice|]. split; [by eapply touches_trans|done].
Qed.

Lemma found_none E J args s d m : inv E J args s -> a_dbs (abs X s) !! d = Some m -> forall k, m !! k = None -> found s d k None None.
Proof using Type.
  intros Hi Hm k Hk. rewrite lookup_abs_db in Hm. destruct (dbs s !! d) as [db|] eqn:Hd; [|done]. cbn in Hm. apply (inj Some) in Hm as <-.
  destruct (db_cases _ _ _ _ _ _ k Hi Hd) as [(H1 & _ & H3)|(a & v & w & _ & H & _)]; [by exists db|congruence].
Qed.

(** The spec of a deletion, and of a store after it. *)
Lemma delete_none d k t : (d < length (a_dbs t))%nat -> exists m, a_dbs (snd (s_delete d k t)) !! d = Some m /\ m !! k = None.
Proof using Type.
  intros Hd. unfold s_delete, sbind, s_db, sgets, s_put_db, smod. cbn. rewrite list_lookup_insert_eq by done. eexists. split; [done|]. apply lookup_delete_eq.
Qed.

Lemma store_deleted d k x t : snd (s_store d k x (snd (s_delete d k t))) = snd (s_store d k x t).
Proof using Type.
  unfold s_store, s_delete, sbind, s_db, sgets, s_put_db, smod, sret, t_dbs. destruct t as [l m c cm ar n lg]. cbn. f_equal. rewrite list_insert_insert_eq.
  destruct (decide (d < length l)%nat) as [Hlt|Hge]; [|by rewrite !list_insert_ge by lia]. rewrite list_lookup_insert_eq by done. cbn. by rewrite insert_delete_eq.
Qed.

(** After a deletion the key is free. *)
Lemma deleted_found E J args s d k :
  inv E J args s -> is_Some (dbs s !! d) -> exists s', dbDelete d k s = Some (bool_decide (is_Some (default ∅ (a_dbs (abs X s) !! d) !! k)), s') /\ abs X s' = snd (s_delete d k (abs X s)) /\
    touches_only E J args d k s s' /\ found s' d k None None.
Proof using Type.
  intros Hi Hd. destruct (dbSyncDelete_sim _ _ _ _ _ k Hi Hd) as (x & s1 & R1 & A1 & Hx & T1). exists s1. split; [unfold dbDelete; by rewrite R1, Hx|]. split; [done|]. split; [done|].
  destruct (delete_none d k (abs X s)) as (m & Hm & Hk). { destruct Hd as [db Hd]. cbn. rewrite length_map. by eapply lookup_lt_Some. }
  rewrite <- A1 in Hm. eapply found_none; [apply T1|exact Hm|exact Hk].
Qed.

(** The destination is cleared if need be and takes the value. *)
Lemma replace_sim E J args s d k a v w x y :
  inv (a :: E) J args s -> value_at (sheap s) a = Some v -> is_Some (dbs s !! d) -> found s d k x y ->
  (exists d' k' w', (d', k') <> (d, k) /\ entry_at s d' k' a v w') ->
  sim ((if bool_decide (is_Some x) then dbDelete d k;; ret tt else ret tt);; add_with_deadline d k a (default (-1) w))%db (s_store d k (v, same_deadline w)) s
    (fun _ _ s' => touches_only E J args d k s s').
Proof using Type.
  intros Hi Hv Hd Hf (d' & k' & w' & Hne & He'). destruct x as [b|].
  - rewrite bool_decide_eq_true_2 by (by eexists). destruct (deleted_found _ _ _ _ _ k Hi Hd) as (s1 & R1 & A1 & T1 & F1). pose proof T1 as (Hi1 & _ & _ & _ & O1 & _).
    destruct (add_with_deadline_sim _ _ _ _ _ _ _ v w Hi1 (entry_value _ _ _ _ _ _ (O1 _ _ _ _ _ Hne He')) F1) as ([] & s2 & R2 & A2 & T2 & _). exists tt, s2. split; [unfold bind; rewrite R1; exact R2|]. split; [by rewrite A2, A1, store_deleted|].
    by eapply touches_trans.
  - rewrite bool_decide_eq_false_2 by (by intros [? ?]). destruct y as [[? ?]|]; [done|]. destruct (add_with_deadline_sim _ _ _ _ _ _ _ v w Hi Hv Hf) as ([] & s2 & R2 & A2 & T2 & _). by exists tt, s2.
Qed.

Lemma regroup {A} (m1 m2 m3 : M unit) (k : M A) s : (m1;; m2;; m3;; k)%db s = ((m1;; m2;; m3);; k)%db s.
Proof using Type. unfold bind. destruct (m1 s) as [[[] s1]|]; [|done]. by destruct (m2 s1) as [[[] s2]|]. Qed.

Lemma write_or_reply {A B} J args s d k r (f : option addr -> M A) (h : option entry -> Spec B) Q :
  inv [] J args s -> is_Some (dbs s !! d) ->
  (forall s', inv [] J args s' -> sim (addReply r;; f None)%db (h None) s' Q) ->
  (forall s' a v w, touches_only [] J args d k s s' -> inv [] J args s' -> entry_at s' d k a v w -> sim (f (Some a)) (h (Some (v, w))) s' Q) ->
  sim (bind (lookupKeyWriteOrReply e d k r) f) (sbind (s_find e d k) h) s Q.
Proof using Type.
  intros Hi Hd Hn Hs. unfold lookupKeyWriteOrReply.
  eapply (sim_run _ (o <- lookupKeyWrite e d k; match o with None => addReply r;; f None | Some a => f o end)%db).
  { unfold bind. destruct (lookupKeyWrite e d k s) as [[[a|] s1]|]; try done. destruct (addReply r s1) as [[? ?]|]; done. }
  apply sim_bind. eapply sim_mono; [by eapply lookupKeyWrite_sim|]. intros x y s1 [T Hf]. cbn beta. pose proof T as (Hi1 & _).
  destruct x as [a|], y as [[v w]|]; try done; [by eapply Hs|by apply Hn].
Qed.

(** Another reference to the object at a key. *)
Lemma retain_run J args s d k a v w :
  inv [] J args s -> entry_at s d k a v w -> exists s', incr a s = Some (tt, s') /\ abs X s' = abs X s /\ inv [a] J args s' /\ entry_at s' d k a v w /\ dbs s' = dbs s /\ s' = set_heap s (sheap s').
Proof using Type.
  intros Hi He. pose proof He as (db & Hd & Hk & Hv & Hw). destruct (incr_run [] _ _ _ a Hi) as (s1 & R1 & A1 & Hi1 & _ & _ & D1 & _ & K1).
  { unfold value_at in Hv. destruct (cells (sheap s) !! a); [by eexists|done]. }
  exists s1. split; [done|]. split; [done|]. split; [done|]. split; [|split; [done|]].
  - exists db. rewrite D1. split; [done|]. split; [done|]. split; [|done]. by rewrite (repr_value _ _ _ _ (K1 a)).
  - unfold incr, on_heap in R1. destruct (incrRefCount (sheap s) a) as [h|]; [|done]. by injection R1 as <-.
Qed.

Lemma rename_sim nx args s : inv [] plain args s -> (3 <= length args)%nat -> sim (renameGenericCommand e nx) (s_rename e nx args) s ends.
Proof using Type.
  intros Hi Hl. unfold renameGenericCommand, s_rename. eapply arg_sim; [done|lia|done|]. eapply arg_sim; [done|lia|done|]. set (src := argn args 1). set (dst := argn args 2). cbv zeta.
  apply (db_sim _ _ _ _ _ _ Hi). intros d Hd. eapply write_or_reply; [done|done|intros; by eapply reply_then|]. intros s1 a v w T1 Hi1 He1. cbn beta iota.
  destruct (between_touched _ _ _ _ _ _ Hd T1) as [_ Hd1]. case_bool_decide as Hsame; [destruct nx; by eapply reply_end|].
  destruct (retain_run _ _ _ _ _ _ _ _ Hi1 He1) as (s2 & R2 & A2 & Hi2 & He2 & D2 & _). eapply sim_left; [exact R2|exact A2|]. eapply sim_left; [by eapply getExpire_run|done|].
  apply sim_bind. eapply sim_mono; [eapply (lookupKeyWrite_sim [a]); [done|by rewrite D2]|]. intros x y s3 [T3 Hf]. cbn beta. pose proof T3 as (Hi3 & _ & _ & _ & O3 & _ & L3).
  assert (is_Some (dbs s3 !! d)) as Hd3 by (eapply db_in; [exact L3|by rewrite D2]). assert (entry_at s3 d src a v w) as He3 by (apply O3; [congruence|done]).
  assert (bool_decide (is_Some x) = bool_decide (is_Some y)) as Exy by (destruct x as [b|], y as [[? ?]|]; done). rewrite <- Exy.
  destruct (bool_decide (is_Some x) && nx).
  - destruct (decr_run [] _ _ _ _ Hi3) as (s4 & R4 & A4 & Hi4 & _). eapply sim_left; [exact R4|exact A4|]. by eapply reply_end.
  - eapply sim_run; [apply regroup|]. apply sim_bind. eapply sim_mono; [eapply (replace_sim [] _ _ _ _ _ _ v w); [done|by eapply entry_value|done|done|exists d, src, w; split; [congruence|done]]|].
    intros [] [] s4 T4. cbn beta. destruct (between_touched _ _ _ _ _ _ Hd3 T4) as [Hi4 Hd4]. unfold dbDelete. apply sim_bind. eapply sim_mono; [by eapply dbSyncDelete_sim|]. intros ? ? s5 [_ T5]. cbn beta.
    destruct (between_touched _ _ _ _ _ _ Hd4 T5) as [Hi5 Hd5]. apply sim_bind. eapply sim_mono; [by eapply signalModifiedKey_sim|]. intros [] [] s6 (Hi6 & (_ & M6 & _) & _). cbn beta.
    destruct nx; eapply touch_dirty_reply; (done || by rewrite M6).
Qed.

(** Selecting another database and coming back. *)
Lemma select_back J args s c i :
  inv [] J args s -> clients s !! u = Some c -> 0 <= i < zlen (dbs s) ->
  exists s1, selectDb i s = Some (true, s1) /\ me s1 = Some (c_select c (Z.to_nat i), s1) /\ selectDb (Z.of_nat (c_db c)) s1 = Some (true, s).
Proof using Type.
  intros Hi Hc Hr. pose proof (i_cur _ _ _ _ Hi) as Hu. set (c1 := c_select c (Z.to_nat i)). exists (set_clients s (<[u := c1]> (clients s))).
  assert (me s = Some (c, s)) as Hm by (unfold me, get_client, bind, gets, lift; by rewrite Hu, Hc).
  assert (me (set_clients s (<[u := c1]> (clients s))) = Some (c1, set_clients s (<[u := c1]> (clients s)))) as Hm1 by (unfold me, get_client, bind, gets, lift; cbn; by rewrite Hu, lookup_insert_eq).
  split; [|split; [done|]].
  - unfold selectDb, bind at 1. unfold gets at 1. cbv beta iota. replace ((i <? 0) || (i >=? zlen (dbs s))) with false by (symmetry; apply orb_false_iff; lia). unfold bind at 1. rewrite Hm.
    unfold bind. rewrite put_me_run, Hu. done.
  - destruct (i_db _ _ _ _ Hi u c Hc) as [db Hd]. apply lookup_lt_Some in Hd. unfold selectDb, bind at 1. unfold gets at 1. cbv beta iota. cbn [dbs set_clients].
    replace ((Z.of_nat (c_db c) <? 0) || (Z.of_nat (c_db c) >=? zlen (dbs s))) with false by (symmetry; apply orb_false_iff; unfold zlen; lia). unfold bind at 1. rewrite Hm1. unfold bind. rewrite put_me_run. cbn [cur set_clients clients].
    rewrite Hu, insert_insert_eq, Nat2Z.id. replace (c_select c1 (c_db c)) with c by (by destruct c). rewrite (insert_id (clients s) u c Hc). by destruct s.
Qed.

Lemma selectDb_out s i : i < 0 \/ zlen (dbs s) <= i -> selectDb i s = Some (false, s).
Proof using Type. intros H. unfold selectDb, bind, gets. replace ((i <? 0) || (i >=? zlen (dbs s))) with true; [done|]. symmetry. apply orb_true_iff. lia. Qed.

Lemma add_with_deadline_heap d k a x s h : add_with_deadline d k a x (set_heap s h) = (fun p => (fst p, set_heap (snd p) h)) <$> add_with_deadline d k a x s.
Proof using Type.
  unfold add_with_deadline, dbAdd, setExpire, bind, get_db, gets, lift, put_db, modify. cbn. destruct (dbs s !! d) as [db|]; [|done]. destruct (bool_decide (is_Some (dict db !! k))); [done|]. cbn.
  destruct (x =? -1); cbn; [done|]. destruct (<[d := set_dict db (<[k := a]> (dict db))]> (dbs s) !! d) as [db1|]; [|done]. cbn. by destruct (bool_decide _).
Qed.

(** The object is stored under the second key before it is counted. *)
Lemma add_retain_sim J args s d k a v w d0 k0 w0 :
  inv [] J args s -> found s d k None None -> entry_at s d0 k0 a v w0 -> (d0, k0) <> (d, k) ->
  sim (add_with_deadline d k a (default (-1) w);; incr a)%db (s_store d k (v, same_deadline w)) s (fun _ _ s' => inv [] J args s' /\ length (dbs s') = length (dbs s) /\ entry_at s' d0 k0 a v w0).
Proof using Type.
  intros Hi Hf He Hne. destruct (retain_run _ _ _ _ _ _ _ _ Hi He) as (s1 & R1 & A1 & Hi1 & He1 & D1 & E1).
  destruct (add_with_deadline_sim [] _ _ s1 d k a v w Hi1) as ([] & s2 & R2 & A2 & T2 & _); [by eapply entry_value|unfold found; by rewrite D1|].
  pose proof R2 as R2'. rewrite E1, add_with_deadline_heap in R2'. destruct (add_with_deadline d k a (default (-1) w) s) as [[[] s3]|] eqn:R3; [|done]. cbn in R2'. injection R2' as E2.
  assert (sheap s3 = sheap s) as Hh. { pose proof (add_with_deadline_heap d k a (default (-1) w) s (sheap s)) as Hq. replace (set_heap s (sheap s)) with s in Hq by (by destruct s). rewrite R3 in Hq. cbn in Hq. injection Hq as Hq. by rewrite Hq. }
  exists tt, s2. split.
  - unfold bind. rewrite R3. unfold incr, on_heap in *. rewrite Hh. destruct (incrRefCount (sheap s) a) as [h|]; [|done]. cbn in *. injection R1 as R1. rewrite <- E2, <- R1. done.
  - split; [by rewrite A2, A1|]. destruct T2 as (B1 & _ & _ & _ & B5 & _ & B7). split; [done|]. split; [congruence|]. by apply B5.
Qed.

Lemma length_abs_dbs s : length (a_dbs (abs X s)) = length (dbs s).
Proof using Type. cbn. apply length_map. Qed.

Lemma zlen_abs_dbs s : zlen (a_dbs (abs X s)) = zlen (dbs s).
Proof using Type. unfold zlen. by rewrite length_abs_dbs. Qed.

(** MOVE between two different databases. *)
Lemma move_body_sim args s src dst :
  inv [] plain args s -> (3 <= length args)%nat -> is_Some (dbs s !! src) -> is_Some (dbs s !! dst) -> src <> dst ->
  sim (k <- arg_sds 1;
       o <- lookupKeyWrite e src k;
       match o with
       | None => addReply shared_czero
       | Some a =>
         expire <- getExpire src k;
         old <- lookupKeyWrite e dst k;
         if bool_decide (is_Some old) then addReply shared_czero else
         dbAdd dst k a;; (if negb (expire =? -1) then setExpire dst k expire else ret tt);; incr a;; dbDelete src k;; add_dirty 1;; addReply shared_cone
       end)%db
      (o <- s_find e src (argn args 1);
       match o with
       | None => s_reply (R_int 0)
       | Some (v, w) =>
         old <- s_find e dst (argn args 1);
         if bool_decide (is_Some old) then s_reply (R_int 0) else
         s_store dst (argn args 1) (v, same_deadline w);; s_delete src (argn args 1);; s_dirty 1;; s_reply (R_int 1)
       end)%spec s ends.
Proof using Type.
  intros Hi Hl Hs Hd Hne. eapply arg_sim; [done|lia|done|]. set (k := argn args 1). apply sim_bind. eapply sim_mono; [by eapply lookupKeyWrite_sim|]. intros x y s1 [T1 Hf1]. cbn beta.
  pose proof T1 as (Hi1 & _ & _ & _ & _ & _ & L1). pose proof (db_in _ _ _ L1 Hs) as Hs1. pose proof (db_in _ _ _ L1 Hd) as Hd1. destruct x as [a|], y as [[v w]|]; try done; [|by eapply reply_end].
  eapply sim_left; [by eapply getExpire_run|done|]. apply sim_bind. eapply sim_mono; [by eapply lookupKeyWrite_sim|]. intros x y s2 [T2 Hf2]. cbn beta.
  pose proof T2 as (Hi2 & _ & _ & _ & O2 & _ & L2). pose proof (db_in _ _ _ L2 Hs1) as Hs2. destruct x as [b|], y as [[? ?]|]; try done; [by eapply reply_end|].
  rewrite !bool_decide_eq_false_2 by (by intros [? ?]). eapply sim_run; [apply regroup|].
  eapply (sim_run _ ((add_with_deadline dst k a (default (-1) w);; incr a);; dbDelete src k;; add_dirty 1;; addReply shared_cone)%db).
  { unfold add_with_deadline, bind. destruct (dbAdd dst k a s2) as [[[] s3]|]; [|done]. by destruct ((if negb (default (-1) w =? -1) then setExpire dst k (default (-1) w) else ret tt) s3) as [[[] s4]|]. }
  apply sim_bind. eapply sim_mono; [eapply (add_retain_sim _ _ _ _ _ _ _ _ src k w); [done|done|apply O2; [congruence|exact Hf1]|congruence]|]. intros [] [] s3 (Hi3 & L3 & _). cbn beta. pose proof (db_in _ _ _ L3 Hs2) as Hs3.
  unfold dbDelete. apply sim_bind. eapply sim_mono; [by eapply dbSyncDelete_sim|]. intros ? ? s4 [_ (Hi4 & _)]. cbn beta. apply sim_bind. eapply sim_mono; [by eapply add_dirty_sim|]. intros [] [] s5 (Hi5 & _). by eapply reply_end.
Qed.

Lemma move_sim args s : inv [] plain args s -> (3 <= length args)%nat -> sim (moveCommand e) (sMOVE e args) s ends.
Proof using Type.
  intros Hi Hl. unfold moveCommand, sMOVE. destruct (me_run _ _ _ _ Hi) as (c & Hc & Rm & Sm). pose proof (i_db _ _ _ _ Hi u c Hc) as Hsrc. eapply sim_left; [exact Rm|done|]. cbv zeta.
  destruct (arg_value _ _ _ _ _ _ Hi (arg_ok args 2 ltac:(lia))) as (a & _ & Ra & Hv & _). eapply sim_left; [exact Ra|done|]. eapply sim_left; [by eapply number_run|done|].
  eapply sim_right; [done|]. eapply sim_right; [unfold s_my_db, sbind; rewrite Sm; reflexivity|]. rewrite zlen_abs_dbs. cbn [abs_client a_db].
  destruct (string2ll (argn args 2)) as [i|]; [|eapply sim_left; [done|done|]; by eapply reply_end].
  destruct ((i <? - 2 ^ 31) || (i >? 2 ^ 31 - 1)) eqn:E31.
  { replace ((i <? 0) || (i >=? zlen (dbs s)) || (i >? 2 ^ 31 - 1)) with true; [eapply sim_left; [done|done|]; by eapply reply_end|]. symmetry. rewrite orb_true_iff in E31. rewrite !orb_true_iff. lia. }
  rewrite orb_false_iff in E31. destruct (decide (0 <= i < zlen (dbs s))) as [Hr|Hr].
  - replace ((i <? 0) || (i >=? zlen (dbs s)) || (i >? 2 ^ 31 - 1)) with false by (symmetry; rewrite !orb_false_iff; lia).
    destruct (select_back _ _ _ _ _ Hi Hc Hr) as (s1 & R1 & M1 & B1). eapply (sim_run _ (if bool_decide (c_db c = Z.to_nat i) then addReply R_sameobjecterr else _)).
    { unfold bind at 1 2. rewrite R1. unfold bind at 1. rewrite M1. unfold ret at 1. cbv beta iota. unfold bind at 1. rewrite B1. reflexivity. }
    cbn [c_db c_select]. destruct (bool_decide_reflect (c_db c = Z.to_nat i)) as [Hsd|Hsd]; [by eapply reply_end|]. apply move_body_sim; [done|lia|done| |done]. apply lookup_lt_is_Some_2. unfold zlen in Hr. lia.
  - replace ((i <? 0) || (i >=? zlen (dbs s)) || (i >? 2 ^ 31 - 1)) with true by (symmetry; rewrite !orb_true_iff; lia). eapply sim_left; [unfold bind; rewrite selectDb_out by lia; done|done|]. by eapply reply_end.
Qed.

Lemma select_sim args s : inv [] plain args s -> (2 <= length args)%nat -> sim selectCommand (sSELECT args) s ends.
Proof using Type.
  intros Hi Hl. unfold selectCommand, sSELECT. eapply sim_right; [done|]. rewrite zlen_abs_dbs. eapply (long_sim _ _ _ 1 (Some "invalid DB index")); [done|lia|done|]. intros v _ _. cbn beta iota zeta.
  set (i := swrap 32 v). destruct ((i <? 0) || (i >=? zlen (dbs s))) eqn:Eb.
  - eapply sim_left; [apply selectDb_out; rewrite orb_true_iff in Eb; lia|done|]. by eapply reply_end.
  - destruct (me_run _ _ _ _ Hi) as (c & Hc & Rm & _). eapply (sim_run _ (put_me (c_select c (Z.to_nat i));; addReply R_ok)%db).
    { unfold selectDb, bind at 1. unfold gets, bind at 1. cbv beta iota. rewrite Eb. unfold bind at 1. rewrite Rm. unfold bind. rewrite put_me_run. done. }
    apply sim_bind. eapply sim_mono; [eapply put_me_sim; [done|exact Hc|done|done|done|done|]|intros [] [] s1 (Hi1 & _); by eapply reply_end].
    cbn. apply lookup_lt_is_Some_2. rewrite orb_false_iff in Eb. unfold zlen in Eb. lia.
Qed.

(** The databases change places; the lists of watching clients do not. *)
Lemma inv_exchange J args s i j db1 db2 :
  inv [] J args s -> i <> j -> dbs s !! i = Some db1 -> dbs s !! j = Some db2 ->
  let s' := set_dbs s (<[j := mk_db (dict db1) (expires db1) (watched_keys db2)]> (<[i := mk_db (dict db2) (expires db2) (watched_keys db1)]> (dbs s))) in
  inv [] J args s' /\ abs X s' = t_dbs (abs X s) (<[j := db_kv (sheap s) db1]> (<[i := db_kv (sheap s) db2]> (a_dbs (abs X s)))).
Proof using Type.
  intros Hi Hne H1 H2. set (A := mk_db (dict db2) (expires db2) (watched_keys db1)). set (B := mk_db (dict db1) (expires db1) (watched_keys db2)). cbv zeta.
  assert (i < length (dbs s))%nat as L1 by (by eapply lookup_lt_Some). assert (j < length (dbs s))%nat as L2 by (by eapply lookup_lt_Some). set (l' := <[j := B]> (<[i := A]> (dbs s))).
  assert (forall d x, l' !! d = Some x -> exists y z, dbs s !! d = Some y /\ watched_keys x = watched_keys y /\ (exists d', dbs s !! d' = Some z) /\ dict x = dict z /\ expires x = expires z) as Hback.
  { intros d x. unfold l'. destruct (decide (j = d)) as [<-|Hj]; [rewrite list_lookup_insert_eq by (by rewrite length_insert); intros [= <-]; exists db2, db1; repeat split; [done|by exists i]|].
    rewrite list_lookup_insert_ne by done. destruct (decide (i = d)) as [<-|Hd]; [rewrite list_lookup_insert_eq by done; intros [= <-]; exists db1, db2; repeat split; [done|by exists j]|].
    rewrite list_lookup_insert_ne by done. intros Hx. exists x, x. repeat split; [done|by exists d]. }
  assert (forall d y, dbs s !! d = Some y -> exists x, l' !! d = Some x /\ watched_keys x = watched_keys y) as Hfwd.
  { intros d y Hy. destruct (lookup_lt_is_Some_2 l' d) as [x Hx]; [unfold l'; rewrite !length_insert; by eapply lookup_lt_Some|]. destruct (Hback d x Hx) as (y' & z & Hy' & Hw & _). exists x. split; [done|congruence]. }
  split.
  - destruct Hi as [I1 I2 [W1 W2 W3 W4 W5] I4 I5 I6 I7 I8 I9 I10 I11 I12]. constructor; cbn; fold l'; [| | |exact I4|exact I5|exact I6| |exact I8|exact I9|exact I10| |exact I12].
    + change (heap_ok (sheap s) (refs_of (<[j := B]> (<[i := A]> (dbs s))) ++ argv s ++ F)). destruct (refs_split _ _ _ H1) as (r1 & P1 & Q1).
      destruct (refs_split (<[i := A]> (dbs s)) j db2) as (r2 & P2 & Q2); [by rewrite list_lookup_insert_ne|]. rewrite (Q1 A) in P2. change (vals A) with (vals db2) in P2. apply Permutation_app_inv_l in P2.
      rewrite (Q2 B). change (vals B) with (vals db1). rewrite <- P2, <- P1. exact I1.
    + intros d x k Hx He. destruct (Hback d x Hx) as (_ & z & _ & _ & [d' Hz] & -> & Ee). rewrite Ee in He. by eapply I2.
    + constructor; cbn; fold l'.
      * intros d x k a ids id Hx Hk. destruct (Hback d x Hx) as (y & _ & Hy & Hw & _). rewrite Hw in Hk. by apply (W1 d y k a ids id).
      * intros id c d k Hc Hk. destruct (W2 id c d k Hc Hk) as (y & a & ids & Hy & Hk' & Hin). destruct (Hfwd d y Hy) as (x & Hx & Hw). exists x, a, ids. by rewrite Hw.
      * intros d x k a ids Hx Hk. destruct (Hback d x Hx) as (y & _ & Hy & Hw & _). rewrite Hw in Hk. by eapply W3.
      * exact W4.
      * intros d x k a ids Hx Hk. destruct (Hback d x Hx) as (y & _ & Hy & Hw & _). rewrite Hw in Hk. by eapply W5.
    + intros id c Hc. destruct (I7 id c Hc) as [y Hy]. destruct (Hfwd _ _ Hy) as (x & Hx & _). by exists x.
    + rewrite <- I11. unfold wtab, l'. cbn. f_equal. rewrite !list_fmap_insert. cbn. rewrite (list_insert_id _ i) by (by rewrite list_lookup_fmap, H1). by rewrite list_insert_id by (by rewrite list_lookup_fmap, H2).
  - unfold abs, t_dbs. cbn. f_equal. unfold l'. by rewrite !list_fmap_insert.
Qed.

Lemma swap_run J args s i j :
  inv [] J args s -> 0 <= i < zlen (dbs s) -> 0 <= j < zlen (dbs s) ->
  exists s', dbSwapDatabases i j s = Some (true, s') /\ inv [] J args s' /\
    abs X s' = snd ((x <- s_db (Z.to_nat i); y <- s_db (Z.to_nat j); s_put_db (Z.to_nat i) y;; s_put_db (Z.to_nat j) x)%spec (abs X s)).
Proof using Type.
  intros Hi H1 H2. unfold zlen in H1, H2. destruct (lookup_lt_is_Some_2 (dbs s) (Z.to_nat i)) as [db1 D1]; [lia|]. destruct (lookup_lt_is_Some_2 (dbs s) (Z.to_nat j)) as [db2 D2]; [lia|].
  unfold dbSwapDatabases, bind at 1. unfold gets. cbv beta iota. replace ((i <? 0) || (i >=? zlen (dbs s)) || (j <? 0) || (j >=? zlen (dbs s))) with false by (symmetry; rewrite !orb_false_iff; unfold zlen; lia).
  unfold sbind at 1 2. rewrite (spec_db s _ _ D1). cbv beta iota. rewrite (spec_db s _ _ D2). cbv beta iota. unfold sbind, s_put_db, smod, t_dbs. cbn [snd a_dbs a_clients a_cur a_cmd a_args a_dirty a_log].
  destruct (Z.eqb_spec i j) as [->|Hne].
  - exists s. split; [done|]. split; [done|]. assert (db1 = db2) as <- by congruence. rewrite list_insert_insert_eq, list_insert_id; [by destruct (abs X s)|]. by rewrite lookup_abs_db, D1.
  - destruct (inv_exchange J args s (Z.to_nat i) (Z.to_nat j) db1 db2 Hi) as [I A]; [lia|done|done|]. eexists. split; [|split; [exact I|exact A]].
    unfold bind. rewrite (run_db s _ _ D1), (run_db s _ _ D2). done.
Qed.

Lemma swapdb_sim args s : inv [] plain args s -> (3 <= length args)%nat -> sim swapdbCommand (sSWAPDB args) s ends.
Proof using Type.
  intros Hi Hl. unfold swapdbCommand, sSWAPDB. eapply sim_right; [done|]. rewrite zlen_abs_dbs. eapply (long_sim _ _ _ 1 (Some "invalid first DB index")); [done|lia|done|]. intros v1 _ _. cbn beta iota zeta.
  eapply (long_sim _ _ _ 2 (Some "invalid second DB index")); [done|lia|done|]. intros v2 _ _. cbn beta iota zeta. set (i := swrap 32 v1). set (j := swrap 32 v2).
  destruct ((i <? 0) || (i >=? zlen (dbs s)) || (j <? 0) || (j >=? zlen (dbs s))) eqn:Eb.
  - eapply (sim_left _ _ _ _ false s); [|done|by eapply reply_end]. unfold dbSwapDatabases, bind, gets. by rewrite Eb.
  - rewrite !orb_false_iff in Eb. destruct (swap_run _ _ _ i j Hi) as (s1 & R1 & Hi1 & A1); [lia|lia|].
    assert (sim (add_dirty 1;; addReply R_ok)%db (s_dirty 1;; s_reply R_ok)%spec s1 ends) as (x & s2 & R2 & A2 & Q2).
    { apply sim_bind. eapply sim_mono; [by eapply add_dirty_sim|]. intros [] [] s2 (Hi2 & _). by eapply reply_end. }
    exists x, s2. split; [unfold bind at 1; rewrite R1; exact R2|]. split; [|done]. rewrite A2, A1. unfold sbind. destruct (s_db (Z.to_nat i) (abs X s)) as [m1 t1]. destruct (s_db (Z.to_nat j) t1) as [m2 t2].
    destruct (s_put_db (Z.to_nat i) m2 t2) as [[] t3]. by destruct (s_put_db (Z.to_nat j) m1 t3) as [[] t4].
Qed.

(** ** Flushing *)

Lemma flush_flags_run args s :
  inv [] plain args s -> (1 <= length args)%nat -> getFlushCommandFlags s = if flush_args args then Some (true, s) else (addReply R_syntaxerr;; ret false)%db s.
Proof using Type.
  intros Hi Hl. unfold getFlushCommandFlags, bind at 1. rewrite (argc_run _ _ _ Hi). cbv beta iota. destruct args as [|x0 [|x1 l]]; [cbn in Hl; lia|done|].
  replace (zlen (x0 :: x1 :: l) >? 1) with true by (symmetry; apply Z.gtb_lt; unfold zlen; cbn [length]; lia). unfold bind at 1. rewrite (arg_sds_run _ _ _ _ 1 x1 Hi) by done. cbv beta iota. destruct l as [|x2 l].
  - cbn [flush_args]. change lower with tolower. change up_to_nul with c_string. change (zlen [x0; x1] >? 2) with false. cbn [orb]. by destruct (bool_decide (map tolower (c_string x1) = [97; 115; 121; 110; 99])).
  - replace (zlen (x0 :: x1 :: x2 :: l) >? 2) with true by (symmetry; apply Z.gtb_lt; unfold zlen; cbn [length]; lia). done.
Qed.

(** The watched keys that a flush removes. *)
Definition hit (l : list redisDb) (dbid : option nat) (wk : nat * key) : bool :=
  (bool_decide (dbid = None) || bool_decide (dbid = Some (fst wk))) && match l !! fst wk with Some db => bool_decide (is_Some (dict db !! snd wk)) | None => false end.

Lemma marked_marked P Q i c : marked P i (marked Q i c) = marked (fun j => Q j || P j) i c.
Proof using Type. unfold marked. by destruct (Q i), (P i). Qed.

(** A watched key with a name that can be read, in a database. *)
Definition names_key (s : server) (wk : watchedKey) : Prop := is_Some (dbs s !! wk_db wk) /\ sds_at (sheap s) (wk_key wk) (text_at (sheap s) (wk_key wk)).

Lemma touch_keys_run dbid id l : forall s, is_Some (clients s !! id) -> (forall wk, wk ∈ l -> names_key s wk) ->
  exists m', for_each l (touch_flushed dbid id) s = Some (tt, set_clients s m') /\
    forall i, m' !! i = marked (fun i => (i =? id) && existsb (hit (dbs s) dbid) (watched_names (text_at (sheap s)) l)) i <$> clients s !! i.
Proof using Type.
  induction l as [|wk l IH]; intros s Hc Hd; cbn [for_each existsb watched_names map].
  - exists (clients s). split; [by destruct s|]. intros i. unfold marked. rewrite andb_false_r. by destruct (clients s !! i).
  - assert (exists m1, touch_flushed dbid id wk s = Some (tt, set_clients s m1) /\ forall i, m1 !! i = marked (fun i => (i =? id) && hit (dbs s) dbid (wk_db wk, text_at (sheap s) (wk_key wk))) i <$> clients s !! i) as (m1 & R1 & H1).
    { destruct (Hd wk) as [[db Hdb] (o & Ho & Hp)]; [left|]. destruct Hc as [c Hc]. unfold touch_flushed, hit. cbn [fst snd]. rewrite Hdb. destruct (bool_decide (dbid = None) || bool_decide (dbid = Some (wk_db wk))) eqn:Eb.
      - unfold bind at 1. rewrite (run_db s _ _ Hdb). unfold name_of, bind at 1. unfold bind at 1, get_obj, read_heap. rewrite Ho. cbn [mbind option_bind]. unfold lift, sds_of. rewrite Hp. cbn [andb]. destruct (bool_decide (is_Some (dict db !! text_at (sheap s) (wk_key wk)))).
        + exists (<[id := dirty_cas c]> (clients s)). split; [unfold mark_dirty, get_client, bind, gets, lift; by rewrite Hc|]. intros i. unfold marked. destruct (Z.eqb_spec i id) as [->|Hne]; cbn [andb]; [by rewrite lookup_insert_eq, Hc|].
          rewrite lookup_insert_ne by done. by destruct (clients s !! i).
        + exists (clients s). split; [by destruct s|]. intros i. unfold marked. rewrite andb_false_r. by destruct (clients s !! i).
      - exists (clients s). split; [by destruct s|]. intros i. unfold marked. cbn [andb]. rewrite andb_false_r. by destruct (clients s !! i). }
    destruct (IH (set_clients s m1)) as (m2 & R2 & H2); [cbn; rewrite H1; destruct Hc as [c ->]; by eexists|intros w Hw; apply Hd; by right|].
    exists m2. split; [unfold bind; rewrite R1; by rewrite R2|]. intros i. rewrite H2. cbn [clients set_clients dbs]. rewrite H1. destruct (clients s !! i) as [c|]; [|done]. cbn. rewrite marked_marked. unfold marked. by destruct (i =? id).
Qed.

Lemma touch_clients_run dbid ps : forall s, (forall p, p ∈ ps -> is_Some (clients s !! fst p) /\ forall wk, wk ∈ c_watched (snd p) -> names_key s wk) ->
  exists m', for_each ps (fun p => for_each (c_watched (snd p)) (touch_flushed dbid (fst p))) s = Some (tt, set_clients s m') /\
    forall i, m' !! i = marked (fun i => existsb (fun p => (i =? fst p) && existsb (hit (dbs s) dbid) (watched_names (text_at (sheap s)) (c_watched (snd p)))) ps) i <$> clients s !! i.
Proof using Type.
  induction ps as [|p ps IH]; intros s Hp; cbn [for_each existsb].
  - exists (clients s). split; [by destruct s|]. intros i. unfold marked. by destruct (clients s !! i).
  - destruct (Hp p) as [Hc Hd]; [left|]. destruct (touch_keys_run dbid (fst p) _ s Hc Hd) as (m1 & R1 & H1).
    destruct (IH (set_clients s m1)) as (m2 & R2 & H2).
    { intros p' Hp'. destruct (Hp p') as [[c Hc'] Hd']; [by right|]. split; [cbn; rewrite H1, Hc'; by eexists|exact Hd']. }
    exists m2. split; [unfold bind; rewrite R1; by rewrite R2|]. intros i. rewrite H2. cbn [clients set_clients dbs]. rewrite H1. destruct (clients s !! i) as [c|]; [|done]. cbn. by rewrite marked_marked.
Qed.

Lemma hit_abs E J args s dbid wk :
  inv E J args s ->
  (bool_decide (dbid = None) || bool_decide (dbid = Some (fst wk))) && bool_decide (is_Some (default ∅ (a_dbs (abs X s) !! fst wk) !! snd wk)) = hit (dbs s) dbid wk.
Proof using Type.
  intros Hi. unfold hit. f_equal. rewrite lookup_abs_db. destruct (dbs s !! fst wk) as [db|] eqn:Hd; cbn; [|by rewrite lookup_empty].
  destruct (db_cases _ _ _ _ _ _ (snd wk) Hi Hd) as [(-> & -> & _)|(a & v & w & _ & -> & -> & _)]; done.
Qed.

Lemma existsb_client (f : client -> bool) (m : gmap Z client) i c : m !! i = Some c -> existsb (fun p => (i =? fst p) && f (snd p)) (map_to_list m) = f c.
Proof using Type.
  intros Hc. apply eq_true_iff_eq. rewrite existsb_exists. split.
  - intros ([j c'] & Hin%list_elem_of_In%elem_of_map_to_list & H). cbn in *. apply andb_true_iff in H as [->%Z.eqb_eq H]. congruence.
  - intros H. exists (i, c). split; [by apply list_elem_of_In, elem_of_map_to_list|]. cbn. by rewrite Z.eqb_refl.
Qed.

Lemma signalFlushedDb_sim E J args s dbid : inv E J args s -> sim (signalFlushedDb dbid) (s_touch_flush dbid) s (fun _ _ s' => inv E J args s' /\ same_mem s s' /\ cmd s' = cmd s).
Proof using Type.
  intros Hi. unfold signalFlushedDb, touchWatchedKeysOnFlush. eapply sim_left; [done|done|]. cbv beta.
  destruct (touch_clients_run dbid (map_to_list (clients s)) s) as (m' & R & Hm).
  { intros [id c] Hc%elem_of_map_to_list. cbn. split; [by eexists|]. intros wk Hwk. destruct (wref_held _ _ _ _ _ Hi (wrefs_client _ _ _ _ Hc Hwk)) as [_ Hs]. split; [|by rewrite (sds_text _ _ _ Hs)].
    destruct (wo_watching _ _ (i_watch _ _ _ _ Hi) id c (wk_db wk) (@held_text V (wk_key wk)) Hc) as (db & _ & _ & Hd & _); [apply list_elem_of_fmap; by exists wk|by eexists]. }
  exists tt, (set_clients s m'). split; [exact R|]. split; [|split; [|done]].
  - unfold s_touch_flush, smod. cbn [snd]. eapply marked_abs; [exact Hm|]. intros i c Hc. unfold marked, notice_flush. rewrite (existsb_client (fun c => existsb (hit (dbs s) dbid) (watched_names (text_at (sheap s)) (c_watched c))) _ _ _ Hc).
    replace (existsb _ (a_watched _)) with (existsb (hit (dbs s) dbid) (watched_names (text_at (sheap s)) (c_watched c))); [by destruct (existsb _ _)|]. cbn [abs_client a_watched]. generalize (watched_names (text_at (sheap s)) (c_watched c)) as l. induction l as [|wk l IH]; [done|]. cbn [existsb].
    by rewrite IH, <- (hit_abs _ _ _ _ dbid wk Hi).
  - eapply inv_clients; [exact Hi|exact Hm|]. intros i c. apply marked_same.
Qed.

(** ** Emptying databases *)

Lemma decr_all_run E J args : forall l s, inv (l ++ E) J args s -> exists s', for_each l decr s = Some (tt, s') /\ abs X s' = abs X s /\ inv E J args s' /\ cmd s' = cmd s /\ clients s' = clients s /\ dbs s' = dbs s /\ argv s' = argv s.
Proof using Type.
  induction l as [|a l IH]; intros s Hi; cbn [for_each app] in *; [by exists s|]. destruct (decr_run _ _ _ _ _ Hi) as (s1 & R1 & A1 & Hi1 & C1 & K1 & D1 & V1 & _). destruct (IH s1 Hi1) as (s2 & R2 & A2 & Hi2 & C2 & K2 & D2 & V2).
  exists s2. split; [unfold bind; by rewrite R1|]. split; [congruence|]. split; [done|]. split; [congruence|]. split; [congruence|]. split; congruence.
Qed.

Lemma size_db_kv E J args s d db : inv E J args s -> dbs s !! d = Some db -> size (db_kv (sheap s) db) = size (dict db).
Proof using Type.
  intros Hi Hd. rewrite <- !(size_dom (D := gset key)). f_equal. apply set_eq. intros k. rewrite !elem_of_dom. destruct (db_cases _ _ _ _ _ _ k Hi Hd) as [(-> & -> & _)|(a & v & w & _ & -> & -> & _)]; split; first [done|intros _; by eexists].
Qed.

Lemma empty_one_run J args s d db :
  inv [] J args s -> dbs s !! d = Some db ->
  exists s', empty_one d s = Some (Z.of_nat (size (db_kv (sheap s) db)), s') /\ inv [] J args s' /\ abs X s' = t_dbs (abs X s) (<[d := ∅]> (a_dbs (abs X s))) /\ length (dbs s') = length (dbs s).
Proof using Type.
  intros Hi Hd. set (db' := mk_db ∅ ∅ (watched_keys db)). set (s1 := put_database s (sheap s) d db').
  assert (inv (vals db ++ []) J args s1) as Hi1.
  { eapply inv_db; [exact Hi|exact Hd|done|intros k; cbn; rewrite lookup_empty; by intros [? ?]| |done]. eapply heap_ok_proper; [|exact (i_heap _ _ _ _ Hi)]. rewrite (refs_here s d db Hd). unfold db', vals. cbn. rewrite map_to_list_empty. cbn. solve_Permutation. }
  destruct (decr_all_run [] _ _ (vals db) s1 Hi1) as (s2 & R2 & A2 & Hi2 & _ & _ & D2 & _). exists s2. split; [|split; [done|split]].
  - unfold empty_one, bind at 1. rewrite (run_db s d db Hd). cbv beta iota. unfold bind at 1. unfold put_db at 1. unfold modify at 1. cbv beta iota. change (map snd (map_to_list (dict db))) with (vals db).
    replace (set_dbs s _) with s1 by (unfold s1, put_database; by destruct s). unfold bind. rewrite R2. by rewrite (size_db_kv _ _ _ _ _ _ Hi Hd).
  - rewrite A2. unfold s1. rewrite (abs_db [] J args s (sheap s) d db db' Hi Hd); done.
  - rewrite D2. unfold s1, put_database. cbn. by rewrite length_insert.
Qed.

Lemma empty_all_run J args n : forall i acc s, inv [] J args s -> (i + n = length (dbs s))%nat ->
  exists s', empty_all (seq i n) acc s = Some (acc + sizes (drop i (a_dbs (abs X s))), s') /\ inv [] J args s' /\ abs X s' = t_dbs (abs X s) (take i (a_dbs (abs X s)) ++ replicate n ∅).
Proof using Type.
  induction n as [|n IH]; intros i acc s Hi Hn; cbn [seq empty_all].
  - exists s. rewrite drop_ge, take_ge by (rewrite length_abs_dbs; lia). cbn [sizes foldr replicate]. rewrite Z.add_0_r, app_nil_r. split; [done|]. split; [done|]. by destruct (abs X s).
  - destruct (lookup_lt_is_Some_2 (dbs s) i) as [db Hd]; [lia|]. destruct (empty_one_run _ _ _ _ _ Hi Hd) as (s1 & R1 & Hi1 & A1 & L1).
    assert (a_dbs (abs X s) !! i = Some (db_kv (sheap s) db)) as Hm by (by rewrite lookup_abs_db, Hd).
    destruct (IH (S i) (acc + Z.of_nat (size (db_kv (sheap s) db))) s1 Hi1) as (s2 & R2 & Hi2 & A2); [lia|]. exists s2. unfold bind. rewrite R1, R2. rewrite A2, A1. cbn [a_dbs t_dbs].
    rewrite (drop_S _ _ _ Hm). rewrite drop_insert_lt by lia. cbn [sizes foldr]. split; [f_equal; f_equal; unfold sizes; lia|]. split; [done|]. unfold t_dbs. cbn [a_dbs a_clients a_cur a_cmd a_args a_dirty a_log]. f_equal.
    rewrite (take_S_r _ i ∅) by (apply list_lookup_insert_eq; rewrite length_abs_dbs; lia). rewrite take_insert_ge by lia. rewrite <- app_assoc. done.
Qed.

Lemma flush_flags_sim args s (m : M unit) (p : Spec unit) :
  inv [] plain args s -> (1 <= length args)%nat -> sim m p s ends ->
  sim (ok <- getFlushCommandFlags; if negb ok then ret tt else m)%db (if negb (flush_args args) then s_reply R_syntaxerr else p) s ends.
Proof using Type.
  intros Hi Hl H. pose proof (flush_flags_run _ _ Hi Hl) as R. destruct (flush_args args); cbn [negb]; [by eapply sim_left|].
  eapply (sim_run _ (addReply R_syntaxerr)); [|by eapply reply_end]. unfold bind at 1. rewrite R. unfold bind. destruct (addReply R_syntaxerr s) as [[[] s1]|]; done.
Qed.

Lemma flushdb_sim args s : inv [] plain args s -> (1 <= length args)%nat -> sim flushdbCommand (sFLUSHDB args) s ends.
Proof using Type.
  intros Hi Hl. unfold flushdbCommand, sFLUSHDB. apply flush_flags_sim; [done|done|]. apply (db_sim _ _ _ _ _ _ Hi). intros d Hd. apply sim_bind. eapply sim_mono; [by eapply signalFlushedDb_sim|].
  intros [] [] s1 (Hi1 & (_ & M1 & _) & _). cbn beta. rewrite <- M1 in Hd. destruct Hd as [db Hd]. eapply sim_right; [by apply spec_db|]. apply sim_bind.
  destruct (empty_one_run _ _ _ _ _ Hi1 Hd) as (s2 & R2 & Hi2 & A2 & _). eexists _, s2. split; [unfold emptyDb, bind, gets; cbn [empty_all]; unfold bind; rewrite R2; reflexivity|]. split; [exact A2|].
  rewrite Z.add_0_l. apply sim_bind. eapply sim_mono; [by eapply add_dirty_sim|]. intros [] [] s3 (Hi3 & _). by eapply reply_end.
Qed.

Lemma flushall_sim args s : inv [] plain args s -> (1 <= length args)%nat -> sim (flushallCommand e) (sFLUSHALL e args) s ends.
Proof using Type.
  intros Hi Hl. unfold flushallCommand, sFLUSHALL. apply flush_flags_sim; [done|done|]. apply sim_bind. eapply sim_mono; [by eapply signalFlushedDb_sim|]. intros [] [] s1 (Hi1 & _). cbn beta.
  eapply sim_right; [done|]. apply sim_bind. destruct (empty_all_run _ _ (length (dbs s1)) 0 0 _ Hi1) as (s2 & R2 & Hi2 & A2); [done|]. rewrite drop_0, Z.add_0_l in R2. cbn [take app] in A2.
  exists (sizes (a_dbs (abs X s1))), s2. split; [unfold emptyDb, bind, gets; exact R2|]. split.
  { rewrite A2. unfold smod. cbn [snd]. f_equal. rewrite <- (length_abs_dbs s1). symmetry. apply list_eq. intros i. rewrite list_lookup_fmap. destruct (decide (i < length (a_dbs (abs X s1)))%nat) as [Hlt|Hge].
    - destruct (lookup_lt_is_Some_2 _ _ Hlt) as [m Hm]. rewrite Hm. symmetry. by apply lookup_replicate_2.
    - rewrite (lookup_ge_None_2 (a_dbs (abs X s1))) by lia. symmetry. apply lookup_ge_None_2. etrans; [apply Nat.eq_le_incl, length_replicate|lia]. }
  apply sim_bind. eapply sim_mono; [by eapply add_dirty_sim|]. intros [] [] s3 (Hi3 & _). cbn beta. apply sim_bind. eapply sim_mono; [by eapply addReply_sim|]. intros [] [] s4 (Hi4 & _). cbn beta.
  apply sim_bind. apply (sim_mono _ _ _ (fun _ _ s' => inv [] plain args s')); [|intros [] [] s5 Hi5; by eapply dirty_end]. destruct (saveparamslen e >? 0); [|by apply sim_ret].
  eapply sim_left; [done|done|]. destruct Hi4 as [I1 I2 [W1 W2 W3 W4 W5] I4 I5 I6 I7 I8 I9 I10 I11 I12]. eexists _, _. split; [reflexivity|]. split; [done|]. constructor; try done.
Qed.

(** ** Expiration *)

Lemma release_run R : forall l s, heap_ok (sheap s) (l ++ R) -> exists h', for_each l decr s = Some (tt, set_heap s h') /\ heap_ok h' R /\ keeps_values R (sheap s) h'.
Proof using Type.
  induction l as [|a l IH]; intros s Hh; cbn [for_each app] in *; [exists (sheap s); split; [by destruct s|done]|]. destruct (decrRefCount_ok _ _ _ Hh) as (h1 & E1 & Hh1 & K1 & _).
  destruct (IH (set_heap s h1) Hh1) as (h2 & R2 & Hh2 & K2). assert (decr a s = Some (tt, set_heap s h1)) as R1 by (unfold decr, on_heap; by rewrite E1).
  exists h2. split; [unfold bind; rewrite R1; exact R2|]. split; [done|].
  intros b Hb. rewrite (K2 b Hb). apply K1, elem_of_app. by right.
Qed.

(** The arguments become DEL and the key. *)
Lemma rewrite_del_sim J args s ka k :
  inv [] J args s -> argv s !! 1%nat = Some ka -> args !! 1%nat = Some k ->
  sim (rewriteClientCommandVector DEL [shared_del; ka]) (smod (fun t => t_cmd t DEL [DEL_name; k])) s (fun _ _ s' => inv [] (fun _ => true) [DEL_name; k] s' /\ dbs s' = dbs s).
Proof using Type.
  intros Hi Ha Hk. unfold rewriteClientCommandVector. assert (value_at (sheap s) ka = Some (VString k)) as Hv.
  { destruct (i_args _ _ _ _ Hi) as [_ HA]. destruct (HA _ _ Ha) as (x & Hx & Hv & _). congruence. }
  destruct (incr_run [] _ _ _ shared_del Hi) as (s1 & R1 & A1 & Hi1 & C1 & K1 & D1 & V1 & P1); [rewrite (ho_del _ _ (i_heap _ _ _ _ Hi)); by eexists|].
  assert (value_at (sheap s1) ka = Some (VString k)) as Hv1 by (by rewrite (repr_value _ _ _ _ (P1 ka))).
  destruct (incr_run [shared_del] _ _ _ ka Hi1) as (s2 & R2 & A2 & Hi2 & C2 & K2 & D2 & V2 & P2); [unfold value_at in Hv1; destruct (cells (sheap s1) !! ka); [by eexists|done]|].
  assert (value_at (sheap s2) ka = Some (VString k)) as Hv2 by (by rewrite (repr_value _ _ _ _ (P2 ka))).
  assert (heap_ok (sheap s2) (argv s2 ++ ([] ++ db_refs s2 ++ [shared_del; ka] ++ F))) as Hh by (eapply heap_ok_proper; [|exact (i_heap _ _ _ _ Hi2)]; solve_Permutation).
  destruct (release_run _ _ _ Hh) as (h' & R3 & Hh' & K3). exists tt, (set_cmd (set_heap s2 h') DEL [shared_del; ka]).
  assert (value_at h' ka = Some (VString k)) as Hv3 by (rewrite (keeps_value _ _ _ _ K3); [done|rewrite !elem_of_app; right; right; left; right; left]).
  assert (value_at h' shared_del = Some (VString DEL_name)) as Hvd by (unfold value_at; by rewrite (ho_del _ _ Hh')).
  assert (keeps_values (db_refs s2 ++ F) (sheap s2) h') as K by (intros b Hb; apply K3; rewrite !elem_of_app in *; tauto). split; [|split; [|split]].
  - unfold bind. cbn [for_each]. unfold bind. rewrite R1, R2. cbn. by rewrite R3.
  - rewrite (abs_cmd _ _ _ _ _ _ _ Hi2 K), A2, A1. unfold smod. cbn [snd map]. unfold text_at. by rewrite Hv3, Hvd.
  - eapply inv_argv; [exact Hi2|exact Hh'|exact K|]. split; [done|]. cbn. intros i a Hia. destruct i as [|[|i]]; [injection Hia as <-; by exists DEL_name|injection Hia as <-; by exists k|done].
  - cbn. congruence.
Qed.

Lemma expire_sim base t args s : inv [] plain args s -> (3 <= length args)%nat -> sim (expireGenericCommand e base t) (s_expireGeneric e base (is_seconds t) args) s ends.
Proof using Type.
  intros Hi Hl. unfold expireGenericCommand, s_expireGeneric. cbv zeta. eapply number_sim; [done|apply arg_ok; lia|intros s1 Hi1 _ _; exists tt; split; [done|by eexists _, _]|]. intros v _ _. cbn beta iota.
  set (when := sll ((match t with UNIT_SECONDS => sll (v * 1000) | UNIT_MILLISECONDS => v end) + base)). replace (sll ((if is_seconds t then sll (v * 1000) else v) + base)) with when by (by destruct t).
  apply (db_sim _ _ _ _ _ _ Hi). intros d Hd. eapply arg_sim; [done|lia|done|]. set (k := argn args 1). apply sim_bind. eapply sim_mono; [by eapply lookupKeyWrite_sim|]. intros x y s1 [T1 Hf]. cbn beta.
  pose proof T1 as (Hi1 & _). destruct (between_touched _ _ _ _ _ _ Hd T1) as [_ Hd1]. destruct x as [a|], y as [[vv w]|]; try done; [|by eapply reply_end].
  destruct ((when <=? mstime e) && negb (masterhost e)).
  - destruct (deleted_found _ _ _ _ _ k Hi1 Hd1) as (s2 & R2 & A2 & T2 & _). apply sim_bind. exists true, s2. split; [|split; [exact A2|]].
    { unfold dbDelete in R2. rewrite R2. f_equal. f_equal. apply bool_decide_eq_true_2. destruct (abs_entry _ _ _ _ _ _ Hf) as (db & Hdb & Hkv). rewrite lookup_abs_db, Hdb. cbn. rewrite Hkv. by eexists. }
    cbn [negb]. destruct (between_touched _ _ _ _ _ _ Hd1 T2) as [Hi2 Hd2]. apply sim_bind. eapply sim_mono; [by eapply add_dirty_sim|]. intros [] [] s3 (Hi3 & (_ & M3 & _) & _). cbn beta.
    destruct (arg_value _ _ _ _ _ _ Hi3 (arg_ok args 1 ltac:(lia))) as (ka & Hka & Rk & _). eapply sim_left; [exact Rk|done|]. apply sim_bind. eapply sim_mono; [eapply rewrite_del_sim; [exact Hi3|exact Hka|apply arg_ok; lia]|].
    intros [] [] s4 [Hi4 D4]. cbn beta. apply sim_bind. eapply sim_mono; [eapply signalModifiedKey_sim; [exact Hi4|congruence]|]. intros [] [] s5 (Hi5 & _). by eapply reply_end.
  - apply sim_bind. eapply sim_mono; [by eapply setExpire_sim|]. intros [] [] s2 [T2 _]. cbn beta. destruct (between_touched _ _ _ _ _ _ Hd1 T2) as [Hi2 Hd2].
    apply sim_bind. eapply sim_mono; [by eapply addReply_sim|]. intros [] [] s3 (Hi3 & (_ & M3 & _) & _). cbn beta. apply sim_bind. eapply sim_mono; [eapply signalModifiedKey_sim; [exact Hi3|congruence]|].
    intros [] [] s4 (Hi4 & _). by eapply dirty_end.
Qed.

Lemma persist_sim args s : inv [] plain args s -> (2 <= length args)%nat -> sim (persistCommand e) (sPERSIST e args) s ends.
Proof using Type.
  intros Hi Hl. unfold persistCommand, sPERSIST. apply (db_sim _ _ _ _ _ _ Hi). intros d Hd. eapply arg_sim; [done|lia|done|]. set (k := argn args 1). apply sim_bind. eapply sim_mono; [by eapply lookupKeyWrite_sim|].
  intros x y s1 [(Hi1 & _) Hf]. cbn beta. destruct x as [a|], y as [[vv w]|]; try done; [|by eapply reply_end]. destruct (removeExpire_sim _ _ _ _ _ _ _ _ _ Hi1 Hf) as (x & s2 & R2 & A2 & -> & (Hi2 & _) & _).
  destruct w as [w|].
  - apply sim_bind. eexists _, s2. split; [exact R2|]. split; [exact A2|]. cbn beta. rewrite bool_decide_eq_true_2 by (by eexists). apply sim_bind. eapply sim_mono; [by eapply addReply_sim|].
    intros [] [] s3 (Hi3 & _). by eapply dirty_end.
  - eapply sim_left; [exact R2|rewrite A2; by eapply store_same|]. rewrite bool_decide_eq_false_2 by (by intros [? ?]). by eapply reply_end.
Qed.

(** ** UNWATCH *)

Lemma on_me_twice f g t : snd (on_me f (snd (on_me g t))) = snd (on_me (fun c => f (g c)) t).
Proof using Type.
  unfold on_me, smod. cbn. unfold t_clients. cbn. f_equal. apply map_eq. intros i. destruct (decide (a_cur t = i)) as [->|Hne]; [rewrite !lookup_alter_eq; by destruct (a_clients t !! i)|by rewrite !lookup_alter_ne].
Qed.

(** Nothing changes for a client that watches no key. *)
Lemma unwatch_none E J args s c : inv E J args s -> clients s !! u = Some c -> c_watched c = [] -> unwatchAllKeys s = Some (tt, s) /\ snd (s_unwatch (abs X s)) = abs X s.
Proof using Type.
  intros Hi Hc Hw. destruct (me_run _ _ _ _ Hi) as (c' & Hc' & Rm & _). assert (c' = c) as -> by congruence. split; [unfold unwatchAllKeys, bind, gets; by rewrite Rm, Hw|].
  unfold s_unwatch, on_me, smod. cbn [snd]. rewrite (alter_some _ _ _ (abs_client (sheap s) (bool_decide (X = Some u)) c)) by (cbn [abs a_cur]; rewrite (i_cur _ _ _ _ Hi); by rewrite lookup_abs_client, Hc). cbn [abs a_cur]. rewrite (i_cur _ _ _ _ Hi).
  rewrite insert_id; [by destruct (abs X s)|]. rewrite lookup_abs_client, Hc. cbn. f_equal. unfold abs_client, ac_watch. cbn. by rewrite Hw.
Qed.

(** What UNWATCH does after the keys are given up. *)
Lemma unwatch_end J args s :
  inv [] J args s -> sim (c <- me; put_me (c_flags c (CLIENT_MULTI c) false (CLIENT_DIRTY_EXEC c));; addReply R_ok)%db (on_me (fun c => ac_flags c (a_multi c) false (a_abort c));; s_reply R_ok)%spec s ends.
Proof using Type.
  intros Hi1. destruct (me_run _ _ _ _ Hi1) as (c1 & Hc1 & Rm & _). eapply sim_left; [exact Rm|done|]. apply sim_bind. eapply sim_mono; [eapply put_me_sim; [exact Hi1|exact Hc1|done|done|done|done|exact (i_db _ _ _ _ Hi1 u c1 Hc1)]|].
  intros [] [] s2 (Hi2 & _). by eapply reply_end.
Qed.

Lemma unwatch_sim J args s : inv [] J args s -> (forall c, clients s !! u = Some c -> c_watched c = []) -> sim unwatchCommand sUNWATCH s ends.
Proof using Type.
  intros Hi Hw. unfold unwatchCommand, sUNWATCH. destruct (i_me _ _ _ _ Hi) as [c Hc]. destruct (unwatch_none _ _ _ _ _ Hi Hc (Hw c Hc)) as [R A]. apply sim_bind. exists tt, s. split; [done|]. split; [by rewrite A|]. by eapply unwatch_end.
Qed.

(** ** AUTH, PING, ECHO and DBSIZE *)

Lemma lor_xor_zero : forall (l l' : list Z) d, length l = length l' ->
  foldl (fun diff p => Z.lor diff (Z.lxor (fst p) (snd p))) d (zip l l') = 0 <-> d = 0 /\ l = l'.
Proof using Type.
  induction l as [|x l IH]; intros [|y l'] d Hl; try done; cbn [zip foldl]; [naive_solver|]. injection Hl as Hl. unfold zip in IH. cbn [zip_with foldl fst snd]. rewrite (IH l' _ Hl), Z.lor_eq_0_iff, Z.lxor_eq_0_iff. naive_solver.
Qed.

(** The comparison that takes the same time for all passwords is an equality test. *)
Lemma time_independent_strcmp_ok a b : (time_independent_strcmp a b =? 0) = same_password a b.
Proof using Type.
  unfold time_independent_strcmp, same_password. change up_to_nul with c_string. set (sa := c_string a). set (sb := c_string b). unfold low32. set (na := zlen sa mod 2 ^ 32). set (nb := zlen sb mod 2 ^ 32). cbv zeta.
  assert (0 <= na <= zlen sa /\ 0 <= nb <= zlen sb) as [Ha Hb] by (unfold na, nb, zlen; split; (split; [by apply Z.mod_pos_bound|apply Z.mod_le; lia])). clearbody na nb. set (ta := take (Z.to_nat na) sa). set (tb := take (Z.to_nat nb) sb).
  assert (zlen ta = na /\ zlen tb = nb) as [La Lb] by (unfold ta, tb, zlen in *; rewrite !length_take; lia). clearbody ta tb. clear Ha Hb. subst na nb.
  assert (forall t : list Z, zlen t <= CONFIG_AUTHPASS_MAX_LEN -> length (overwrite_at (replicate (Z.to_nat CONFIG_AUTHPASS_MAX_LEN) 0) 0 t) = Z.to_nat CONFIG_AUTHPASS_MAX_LEN) as HL.
  { intros t Ht. unfold overwrite_at, zlen in *. rewrite !length_app, length_drop, length_take, length_replicate. lia. }
  change 512 with CONFIG_AUTHPASS_MAX_LEN. destruct ((zlen ta >? CONFIG_AUTHPASS_MAX_LEN) || (zlen tb >? CONFIG_AUTHPASS_MAX_LEN)) eqn:E.
  - apply orb_true_iff in E. symmetry. change (1 =? 0) with false. apply andb_false_iff. case_bool_decide as Heq; [right|by left]. rewrite <- Heq in E. lia.
  - apply orb_false_iff in E as [E1 E2]. assert (zlen ta <= CONFIG_AUTHPASS_MAX_LEN) as G1 by lia. assert (zlen tb <= CONFIG_AUTHPASS_MAX_LEN) as G2 by lia. replace (zlen ta <=? CONFIG_AUTHPASS_MAX_LEN) with true by lia. rewrite andb_true_r.
    apply eq_bool_prop_intro. rewrite Is_true_true, Z.eqb_eq, Z.lor_eq_0_iff, Z.lxor_eq_0_iff, lor_xor_zero by (by rewrite !HL). rewrite Is_true_true, bool_decide_eq_true. split; [|by intros ->].
    intros [[_ Hbuf] Hlen]. unfold overwrite_at in Hbuf. change (Z.to_nat 0) with 0%nat in Hbuf. rewrite !take_0 in Hbuf. cbn [app] in Hbuf. apply app_inj_1 in Hbuf as [H _]; [exact H|]. unfold zlen in Hlen. lia.
Qed.

Lemma auth_sim args s : inv [] plain args s -> (2 <= length args)%nat -> sim (authCommand e) (sAUTH e args) s ends.
Proof using Type.
  intros Hi Hl. unfold authCommand, sAUTH. destruct (requirepass e) as [pass|]; [|by eapply reply_end]. eapply arg_sim; [exact Hi|lia|done|]. destruct (me_run _ _ _ _ Hi) as (c & Hc & Rm & _). eapply sim_left; [exact Rm|done|].
  rewrite time_independent_strcmp_ok. cbv zeta. destruct (same_password (argn args 1) pass).
  all: apply sim_bind; (eapply sim_mono; [eapply put_me_sim; [exact Hi|exact Hc|done|done|done|done|exact (i_db _ _ _ _ Hi u c Hc)]|]); intros [] [] s1 (Hi1 & _); by eapply reply_end.
Qed.

Lemma bulk_end J args s a x : inv [] J args s -> value_at (sheap s) a = Some (VString x) -> sim (addReplyBulk a) (s_reply (R_bulk x)) s ends.
Proof using Type. intros Hi Hv. eapply sim_mono; [by eapply addReplyBulk_sim|]. intros [] [] s' (H & _). by exists J, args. Qed.

Lemma echo_sim args s : inv [] plain args s -> (2 <= length args)%nat -> sim echoCommand (sECHO args) s ends.
Proof using Type. intros Hi Hl. destruct (arg_value _ _ _ _ _ _ Hi (arg_ok args 1 Hl)) as (a & _ & Ra & Hv & _). unfold echoCommand. eapply sim_left; [exact Ra|done|]. by eapply bulk_end. Qed.

Lemma ping_sim args s : inv [] plain args s -> (1 <= length args)%nat -> sim pingCommand (sPING args) s ends.
Proof using Type.
  intros Hi Hl. unfold pingCommand, sPING. eapply sim_left; [by eapply argc_run|done|]. destruct args as [|x0 [|x1 [|x2 args]]]; [cbn in Hl; lia| | |].
  - by eapply reply_end.
  - destruct (arg_value _ _ _ _ 1 x1 Hi eq_refl) as (a & _ & Ra & Hv & _). change (zlen [x0; x1] >? 2) with false. change (zlen [x0; x1] =? 1) with false. cbv iota. eapply sim_left; [exact Ra|done|]. by eapply bulk_end.
  - assert ((zlen (x0 :: x1 :: x2 :: args) >? 2) = true) as -> by (unfold zlen; rewrite !length_cons; apply Z.gtb_lt; lia). by eapply reply_end.
Qed.

Lemma dbsize_sim args s : inv [] plain args s -> sim dbsizeCommand sDBSIZE s ends.
Proof using Type.
  intros Hi. unfold dbsizeCommand, sDBSIZE. destruct (my_db_run _ _ _ _ Hi) as (d & Rd & Sd & [db Hd]). eapply sim_left; [exact Rd|done|]. eapply sim_right; [exact Sd|]. eapply sim_left; [by apply run_db|done|].
  eapply sim_right; [by apply spec_db|]. rewrite (size_db_kv _ _ _ _ _ _ Hi Hd). by eapply reply_end.
Qed.

(** ** Every command that can be queued *)

(** The least number of arguments, with the name, that the command table asks for. *)
Definition least_args (c : command) : nat :=
  match c with
  | MULTI | EXEC | DISCARD | UNWATCH | FLUSHDB | FLUSHALL | PING | DBSIZE => 1
  | GET | STRLEN | DEL | EXISTS | TOUCH | INCR | DECR | MGET | TYPE | TTL | PTTL | PERSIST | SELECT | WATCH | AUTH | ECHO => 2
  | SETEX | PSETEX | SETRANGE | GETRANGE => 4
  | _ => 3
  end.

Definition queueable (c : command) : bool := match c with MULTI | EXEC | DISCARD | WATCH => false | _ => true end.

Lemma queued_sim c args s :
  inv [] plain args s -> (least_args c <= length args)%nat -> queueable c = true -> (c = UNWATCH -> forall c, clients s !! u = Some c -> c_watched c = []) -> sim (queued_proc e c) (s_queued e c args) s ends.
Proof using Type.
  intros Hi Hl Hq Hw. destruct c; try discriminate Hq; cbn [least_args] in Hl; cbn [queued_proc s_queued].
  - by apply get_sim.
  - by apply set_sim.
  - by apply setnx_sim.
  - by apply (setex_sim UNIT_SECONDS).
  - by apply (setex_sim UNIT_MILLISECONDS).
  - by apply getset_sim.
  - by apply append_sim.
  - by apply strlen_sim.
  - by apply setrange_sim.
  - by apply getrange_sim.
  - by apply mget_sim.
  - by apply mset_sim.
  - by apply mset_sim.
  - eapply incr_sim; [done|apply arg_ok; lia|done|done].
  - eapply incr_sim; [done|apply arg_ok; lia|done|done].
  - by apply (incrby_sim (fun v => v)).
  - apply (incrby_sim (fun v => sll (- v))); [done|done|]. intros v _. by apply swrap_range.
  - by apply delete_sim.
  - by apply exists_sim.
  - by apply type_sim.
  - by apply exists_sim.
  - by apply rename_sim.
  - by apply rename_sim.
  - by apply move_sim.
  - by apply swapdb_sim.
  - by apply select_sim.
  - by apply flushdb_sim.
  - by apply flushall_sim.
  - by apply (expire_sim _ UNIT_SECONDS).
  - by apply (expire_sim _ UNIT_MILLISECONDS).
  - by apply (expire_sim _ UNIT_SECONDS).
  - by apply (expire_sim _ UNIT_MILLISECONDS).
  - by apply ttl_sim.
  - by apply ttl_sim.
  - by apply persist_sim.
  - eapply unwatch_sim; [done|by apply Hw].
  - by apply auth_sim.
  - by apply ping_sim.
  - by apply echo_sim.
  - by eapply dbsize_sim.
Qed.

(** ** [call] *)

Lemma texts_run E J args s : inv E J args s -> texts (argv s) s = Some (map (text_at (sheap s)) (argv s), s).
Proof using Type.
  intros Hi. assert (forall a, a ∈ argv s -> exists x, value_at (sheap s) a = Some (VString x)) as Ha.
  { intros a [i Hia]%list_elem_of_lookup. destruct (i_args _ _ _ _ Hi) as [_ H]. destruct (H i a Hia) as (x & _ & Hv & _). by exists x. }
  revert Ha. generalize (argv s) as l. induction l as [|a l IH]; intros Ha; [done|]. cbn [texts map]. destruct (Ha a) as [x Hx]; [left|]. unfold bind at 1. rewrite (obj_text_run _ _ _ _ _ _ Hi Hx).
  unfold bind. rewrite IH by (intros b Hb; apply Ha; by right). unfold text_at at 2. by rewrite Hx.
Qed.

Lemma call_sim m p s : sim m p s ends -> sim (call m) (s_call p) s ends.
Proof using Type.
  intros H. unfold call, s_call. eapply sim_left; [done|done|]. eapply sim_right; [done|]. apply sim_bind. eapply sim_mono; [exact H|]. intros x y s1 (J1 & args1 & Hi1). cbn beta. clear H.
  eapply sim_left; [done|done|]. eapply sim_right; [done|]. cbn [abs a_dirty]. destruct (dirty s1 - dirty s >? 0); [|by eapply ret_end].
  eapply sim_left; [done|done|]. eapply sim_left; [by eapply texts_run|done|]. apply (db_sim _ _ _ _ _ _ Hi1). intros d _. eapply sim_right; [done|]. cbn [abs a_args].
  eapply sim_mono; [by eapply propagate_sim|]. intros [] [] s2 (Hi2 & _). by exists J1, args1.
Qed.
End Refine.
