(* ===== verification/WatchTables.v ===== *)
(** * Requests refine the abstract key space: WATCH and UNWATCH

    Watching a key adds its object to the record of the client, and to the table
    of the database when it is the first client; giving a key up releases both
    references.  The references that the tables hold ([wrefs]) are counted like
    those of the databases and the queues. *)

From S2P Require Import Prelude Numstr Objects Db Keyspace Commands CommandsInv CommandsRefine.
From stdpp Require Import strings options.
#[local] Open Scope Z_scope.

#[local] Abbreviation inv X q W u F V := (@CommandsInv.inv X q W u F V).
#[local] Abbreviation held_ok F V := (@CommandsInv.held_ok F V).
#[local] Abbreviation held_text V := (@CommandsInv.held_text V).

(** ** A change of one entry of a table and of one client *)

Definition rewatch (u : Z) (s : server) (h : heap) (d : nat) (db : redisDb) (T : gmap key (addr * list Z)) (c : client) (l : list watchedKey) : server :=
  set_clients (set_heap (set_dbs s (<[d := set_watched db T]> (dbs s))) h) (<[u := c_watch c l]> (clients s)).

Lemma refs_rewatch l d db T : l !! d = Some db -> refs_of (<[d := set_watched db T]> l) = refs_of l.
Proof. intros Hd. unfold refs_of. rewrite list_fmap_insert. change (vals (set_watched db T)) with (vals db). by rewrite list_insert_id by (by rewrite list_lookup_fmap, Hd). Qed.

Lemma lookup_rewatch s d db T d' x : dbs s !! d = Some db -> <[d := set_watched db T]> (dbs s) !! d' = Some x -> exists y, dbs s !! d' = Some y /\ watched_keys x = if decide (d = d') then T else watched_keys y.
Proof.
  intros Hd Hx. assert (d < length (dbs s))%nat as Hlt by (by eapply lookup_lt_Some). destruct (decide (d = d')) as [<-|Hne]; [rewrite list_lookup_insert_eq in Hx by done; injection Hx as <-; by exists db|].
  rewrite list_lookup_insert_ne in Hx by done. by exists x.
Qed.

Lemma rewatch_lookup s d db T d' y : dbs s !! d = Some db -> dbs s !! d' = Some y -> exists x, <[d := set_watched db T]> (dbs s) !! d' = Some x /\ watched_keys x = if decide (d = d') then T else watched_keys y.
Proof.
  intros Hd Hy. assert (d < length (dbs s))%nat as Hlt by (by eapply lookup_lt_Some). destruct (decide (d = d')) as [<-|Hne]; [exists (set_watched db T); by rewrite list_lookup_insert_eq|].
  exists y. by rewrite list_lookup_insert_ne.
Qed.

(** The references before and after. *)
Lemma client_wrefs_insert m u l : client_wrefs (<[u := l]> m) ≡ₚ map wk_key l ++ client_wrefs (delete u m).
Proof. unfold client_wrefs. rewrite <- insert_delete_eq. assert (delete u m !! u = None) as H by apply lookup_delete_eq. rewrite (map_to_list_insert (delete u m) u l H). done. Qed.

Lemma rewatch_wrefs u s d db c :
  dbs s !! d = Some db -> clients s !! u = Some c ->
  exists R, wrefs (wtab s) ≡ₚ map wk_key (c_watched c) ++ table_wrefs (watched_keys db) ++ R /\
    forall h T l, wrefs (wtab (rewatch u s h d db T c l)) ≡ₚ map wk_key l ++ table_wrefs T ++ R.
Proof.
  intros Hd Hc. destruct (concat_split table_wrefs (map watched_keys (dbs s)) d (watched_keys db)) as (R & P1 & P2); [by rewrite list_lookup_fmap, Hd|].
  exists (client_wrefs (delete u (c_watched <$> clients s)) ++ R). split.
  - unfold wrefs, wtab. cbn [fst snd]. rewrite P1. rewrite <- (insert_id (c_watched <$> clients s) u (c_watched c)) at 1 by (by rewrite lookup_fmap, Hc). rewrite client_wrefs_insert. solve_Permutation.
  - intros h T l. unfold wrefs, wtab, rewatch. cbn. rewrite fmap_insert, list_fmap_insert, client_wrefs_insert, P2. cbn. solve_Permutation.
Qed.

Lemma table_wrefs_new m k a ids : m !! k = None -> table_wrefs (<[k := (a, ids)]> m) ≡ₚ a :: table_wrefs m.
Proof. intros H. unfold table_wrefs. by rewrite (map_to_list_insert m k (a, ids) H). Qed.

Lemma table_wrefs_gone m k a ids : m !! k = Some (a, ids) -> table_wrefs m ≡ₚ a :: table_wrefs (delete k m).
Proof. intros H. rewrite <- (insert_delete_id m k (a, ids) H) at 1. apply table_wrefs_new, lookup_delete_eq. Qed.

Lemma table_wrefs_same m k a ids ids' : m !! k = Some (a, ids) -> table_wrefs (<[k := (a, ids')]> m) ≡ₚ table_wrefs m.
Proof. intros H. rewrite (table_wrefs_gone m k a ids H), <- insert_delete_eq. apply table_wrefs_new, lookup_delete_eq. Qed.

(** The invariant after such a change; other strings may be held from then on. *)
Lemma inv_rewatch X q W u F F' V V' E E' J args s h d db T c l :
  inv X q W u F V E J args s -> dbs s !! d = Some db -> clients s !! u = Some c ->
  heap_ok h (E' ++ db_refs s ++ argv s ++ F') -> keeps_values (db_refs s ++ argv s ++ F') (sheap s) h -> held_ok F' V' (sheap s) ->
  (forall id l w mc a, q !! id = Some (l, w) -> X <> Some id -> mc ∈ l -> a ∈ mc_argv mc -> is_Some (V' !! a)) ->
  watch_ok (held_text V') (rewatch u s h d db T c l) -> (forall a, a ∈ wrefs (wtab (rewatch u s h d db T c l)) -> is_Some (V' !! a)) ->
  inv X q (wtab (rewatch u s h d db T c l)) u F' V' E' J args (rewatch u s h d db T c l).
Proof.
  intros [I1 I2 _ I4 I5 I6 I7 I8 I9 I10 I11 I12] Hd Hc Hh K HV Hq HW Hwr. assert (d < length (dbs s))%nat as Hlt by (by eapply lookup_lt_Some).
  constructor; cbn; [| |exact HW| |exact I5| | | |exact Hq| |done|exact Hwr].
  - change (heap_ok h (E' ++ refs_of (<[d := set_watched db T]> (dbs s)) ++ argv s ++ F')). by rewrite refs_rewatch.
  - intros i x k Hx. destruct (decide (d = i)) as [<-|Hne]; [rewrite list_lookup_insert_eq in Hx by done; injection Hx as <-; exact (I2 d db k Hd)|]. rewrite list_lookup_insert_ne in Hx by done. by eapply I2.
  - unfold queues in *. cbn. rewrite fmap_insert. rewrite insert_id; [done|]. by rewrite lookup_fmap, Hc.
  - rewrite lookup_insert_eq. by eexists.
  - assert (forall i, is_Some (dbs s !! i) -> is_Some (<[d := set_watched db T]> (dbs s) !! i)) as HS by (intros i ?; apply lookup_lt_is_Some_2; rewrite length_insert; by apply lookup_lt_is_Some_1).
    intros id x Hx. apply HS. destruct (decide (u = id)) as [<-|Hne]; [rewrite lookup_insert_eq in Hx; injection Hx as <-; by apply (I7 u c)|]. rewrite lookup_insert_ne in Hx by done. by apply (I7 id).
  - apply (has_args_keeps J args s); [done| |exact I8]. intros a Ha. apply K. rewrite !elem_of_app. tauto.
  - eapply held_keeps; [exact HV|]. intros a Ha. apply K. rewrite !elem_of_app. tauto.
Qed.

Lemma abs_rewatch X q W u F F' V V' E E' J args s h d db T c l :
  inv X q W u F V E J args s -> dbs s !! d = Some db -> clients s !! u = Some c -> keeps_values (db_refs s ++ argv s ++ F') (sheap s) h ->
  inv X q (wtab (rewatch u s h d db T c l)) u F' V' E' J args (rewatch u s h d db T c l) ->
  abs X (rewatch u s h d db T c l) = snd (on_me (fun c => ac_watch c (watched_names (text_at h) l)) (abs X s)).
Proof.
  intros Hi Hd Hc K Hi'. pose proof (i_cur _ _ _ _ Hi) as Hu. set (s' := rewatch u s h d db T c l) in *.
  assert (forall a x, V' !! a = Some x -> repr_at h a = repr_at (sheap s) a) as KV by (intros a x Hx; destruct (i_held _ _ _ _ Hi' a x Hx) as [HF _]; apply K; rewrite !elem_of_app; tauto).
  unfold on_me, smod. cbn [snd abs a_cur]. rewrite Hu. unfold t_clients. cbn. unfold abs, s', rewatch. cbn. f_equal.
  - rewrite list_fmap_insert. change (db_kv h (set_watched db T)) with (db_kv h db). rewrite list_insert_id by (by rewrite list_lookup_fmap, Hd).
    apply map_ext_in. intros x [i Hx]%list_elem_of_In%list_elem_of_lookup. apply db_kv_keeps. intros a [k Hk]%in_vals. apply K, elem_of_app. left. apply in_refs. by exists i, x, k.
  - apply map_eq. intros id. rewrite map_lookup_imap.
    assert (forall x l0, clients s' !! id = Some x -> mstate x = l0 -> X <> Some id -> forall mc, mc ∈ l0 -> map (text_at h) (mc_argv mc) = map (text_at (sheap s)) (mc_argv mc)) as Hqueue.
    { intros x l0 Hx <- HX mc Hmc. apply map_ext_in. intros a Ha%list_elem_of_In. apply repr_text.
      assert (q !! id = Some (mstate x, mstate_write x)) as Hq by (rewrite <- (i_queues _ _ _ _ Hi'); unfold queues; by rewrite lookup_fmap, Hx).
      destruct (i_queued _ _ _ _ Hi' id _ _ mc a Hq HX Hmc Ha) as [y Hy]. by eapply KV. }
    destruct (decide (u = id)) as [<-|Hne].
    + rewrite lookup_insert_eq, lookup_alter_eq, map_lookup_imap, Hc. cbn. f_equal. unfold abs_client, ac_watch. cbn. f_equal. case_bool_decide as HX; [done|]. apply map_ext_in. intros mc Hmc%list_elem_of_In. f_equal.
      eapply (Hqueue (c_watch c l)); [cbn; by rewrite lookup_insert_eq|done|done|done].
    + rewrite lookup_insert_ne, lookup_alter_ne, map_lookup_imap by done. destruct (clients s !! id) as [x|] eqn:Hx; [|done]. cbn. f_equal. assert (clients s' !! id = Some x) as Hx' by (cbn; by rewrite lookup_insert_ne).
      unfold abs_client. f_equal.
      * case_bool_decide as HX; [done|]. apply map_ext_in. intros mc Hmc%list_elem_of_In. f_equal. by eapply Hqueue.
      * apply watched_names_ext. intros wk Hwk. apply repr_text. destruct (i_wheld _ _ _ _ Hi' (wk_key wk)) as [y Hy]; [by eapply wrefs_client|]. by eapply KV.
  - apply map_ext_in. intros a Ha%list_elem_of_In. apply repr_text, K. rewrite !elem_of_app. tauto.
Qed.

(** ** Giving a key up *)

Lemma list_remove_id_ok id : forall ids, NoDup ids -> id ∈ ids -> exists ids', list_remove_id id ids = Some ids' /\ NoDup ids' /\ forall x, x ∈ ids' <-> x ∈ ids /\ x <> id.
Proof.
  induction ids as [|y ids IH]; intros HN Hin; [by apply elem_of_nil in Hin|]. apply NoDup_cons in HN as [Hy HN]. cbn. destruct (Z.eqb_spec y id) as [->|Hne].
  - exists ids. split; [done|]. split; [done|]. intros x. rewrite elem_of_cons. split; [intros Hx; split; [by right|by intros ->]|]. intros [[->|Hx] Hne]; done.
  - apply elem_of_cons in Hin as [->|Hin]; [done|]. destruct (IH HN Hin) as (ids' & -> & HN' & Hx). cbn. exists (y :: ids'). split; [done|]. split.
    + apply NoDup_cons. split; [|done]. intros H%Hx. tauto.
    + intros x. rewrite !elem_of_cons, Hx. split; [intros [->|[H1 H2]]; tauto|tauto].
Qed.

(** The table without the client: the entry goes with its last client. *)
Definition table_without (m : gmap key (addr * list Z)) (k : key) (a : addr) (ids : list Z) : gmap key (addr * list Z) :=
  if zlen ids =? 0 then delete k m else <[k := (a, ids)]> m.

Lemma lookup_without m k a ids k' : table_without m k a ids !! k' = if decide (k = k') then (if zlen ids =? 0 then None else Some (a, ids)) else m !! k'.
Proof.
  unfold table_without. destruct (zlen ids =? 0); case_decide as Hk; [subst; apply lookup_delete_eq|by rewrite lookup_delete_ne|subst; apply lookup_insert_eq|by rewrite lookup_insert_ne].
Qed.

Lemma without_listed m k a ids a' ids' x : table_without m k a ids !! k = Some (a', ids') -> x ∈ ids' -> a' = a /\ ids' = ids.
Proof. rewrite lookup_without, decide_True by done. destruct (_ =? _); [done|]. by intros [= <- <-]. Qed.

(** The lists agree after one key is taken off both. *)
Lemma unwatch_ok T u s h d db k a ids ids' c wk l :
  watch_ok T s -> clients s !! u = Some c -> c_watched c = wk :: l -> wk_db wk = d -> T (wk_key wk) = k -> dbs s !! d = Some db -> watched_keys db !! k = Some (a, ids) ->
  NoDup ids' -> (forall x, x ∈ ids' <-> x ∈ ids /\ x <> u) -> watch_ok T (rewatch u s h d db (table_without (watched_keys db) k a ids') c l).
Proof.
  intros [W1 W2 W3 W4 W5] Hc Hl Hwd Hwk Hd Hk HN Hx. assert (watched_names T (c_watched c) = (d, k) :: watched_names T l) as Hn by (rewrite Hl; cbn; by rewrite Hwd, Hwk).
  assert (NoDup ((d, k) :: watched_names T l)) as HNc by (rewrite <- Hn; by eapply W4). apply NoDup_cons in HNc as [Hni HNl].
  assert (forall x, x ∈ ids' -> (zlen ids' =? 0) = false) as Hne0 by (intros x Hin; destruct ids'; [by apply elem_of_nil in Hin|]; unfold zlen; cbn [length]; apply Z.eqb_neq; lia).
  assert (forall d' x k' a' ids0, <[d := set_watched db (table_without (watched_keys db) k a ids')]> (dbs s) !! d' = Some x -> watched_keys x !! k' = Some (a', ids0) ->
    exists y ids1, dbs s !! d' = Some y /\ watched_keys y !! k' = Some (a', ids1) /\ ((d, k) = (d', k') /\ ids0 = ids' /\ ids1 = ids \/ (d, k) <> (d', k') /\ ids0 = ids1)) as Hback.
  { intros d' x k' a' ids0 Hx' Hk'. destruct (lookup_rewatch _ _ _ _ _ _ Hd Hx') as (y & Hy & Hw). rewrite Hw in Hk'. exists y. destruct (decide (d = d')) as [<-|Hdd]; [|exists ids0; split; [done|]; split; [done|]; right; split; [congruence|done]].
    assert (y = db) as -> by congruence. rewrite lookup_without in Hk'. destruct (decide (k = k')) as [<-|Hkk]; [|exists ids0; split; [done|]; split; [done|]; right; split; [congruence|done]].
    destruct (zlen ids' =? 0); [done|]. injection Hk' as <- <-. exists ids. split; [done|]. split; [done|]. by left. }
  constructor; cbn.
  - intros d' x k' a' ids0 id Hx' Hk' Hin. destruct (Hback d' x k' a' ids0 Hx' Hk') as (y & ids1 & Hy & Hk1 & Hcase).
    assert (id ∈ ids1 /\ ((d, k) = (d', k') -> id <> u)) as [Hin1 Hnu] by (destruct Hcase as [(He & -> & ->)|(He & ->)]; [split; [|intros _]; by apply Hx|done]).
    destruct (W1 d' y k' a' ids1 id Hy Hk1 Hin1) as (c0 & Hc0 & Hin0). destruct (decide (u = id)) as [<-|Hne]; [|exists c0; by rewrite lookup_insert_ne]. exists (c_watch c l). rewrite lookup_insert_eq. split; [done|]. cbn.
    rewrite Hc in Hc0. injection Hc0 as <-. rewrite Hn in Hin0. apply elem_of_cons in Hin0 as [Heq|]; [|done]. exfalso. by apply Hnu.
  - intros id x d' k' Hx' Hin. assert (exists c0, clients s !! id = Some c0 /\ (d', k') ∈ watched_names T (c_watched c0) /\ ((d, k) = (d', k') -> id <> u)) as (c0 & Hc0 & Hin0 & Hne).
    { destruct (decide (u = id)) as [<-|Hne]; [|rewrite lookup_insert_ne in Hx' by done; exists x; split; [done|]; split; [done|congruence]]. rewrite lookup_insert_eq in Hx'. injection Hx' as <-. cbn in Hin.
      exists c. split; [done|]. split; [rewrite Hn; by right|]. intros [= <- <-]. done. }
    destruct (W2 id c0 d' k' Hc0 Hin0) as (y & a0 & ids0 & Hy & Hk0 & Hin1). destruct (rewatch_lookup s d db (table_without (watched_keys db) k a ids') d' y Hd Hy) as (z & Hz & Hw). exists z. rewrite Hz, Hw.
    destruct (decide (d = d')) as [<-|Hd']; [|by exists a0, ids0]. assert (y = db) as -> by congruence. rewrite lookup_without. destruct (decide (k = k')) as [<-|Hk']; [|by exists a0, ids0].
    assert (ids0 = ids /\ a0 = a) as [-> ->] by (rewrite Hk in Hk0; by injection Hk0 as -> ->). assert (id ∈ ids') as Hin2 by (apply Hx; split; [done|by apply Hne]). exists a, ids'. by rewrite (Hne0 id Hin2).
  - intros d' x k' a' ids0 Hx' Hk'. destruct (Hback d' x k' a' ids0 Hx' Hk') as (y & ids1 & Hy & Hk1 & [(_ & -> & _)|(_ & ->)]); [done|by eapply W3].
  - intros id x Hx'. destruct (decide (u = id)) as [<-|Hne]; [rewrite lookup_insert_eq in Hx'; by injection Hx' as <-|]. rewrite lookup_insert_ne in Hx' by done. by eapply W4.
  - intros d' x k' a' ids0 Hx' Hk'. destruct (Hback d' x k' a' ids0 Hx' Hk') as (y & ids1 & Hy & Hk1 & _). by eapply W5.
Qed.

(** Fewer strings are held. *)
Definition restrict (F : list addr) (V : gmap addr (list Z)) : gmap addr (list Z) := filter (fun p => fst p ∈ F) V.

Lemma lookup_restrict F V a x : restrict F V !! a = Some x <-> V !! a = Some x /\ a ∈ F.
Proof. apply map_lookup_filter_Some. Qed.

Lemma restrict_some F V a : is_Some (V !! a) -> a ∈ F -> is_Some (restrict F V !! a).
Proof. intros [x Hx] Ha. exists x. by apply lookup_restrict. Qed.

Lemma restrict_text F V a : is_Some (V !! a) -> a ∈ F -> held_text (restrict F V) a = held_text V a.
Proof. intros [x Hx] Ha. unfold CommandsInv.held_text. rewrite Hx. assert (restrict F V !! a = Some x) as -> by (by apply lookup_restrict). done. Qed.

Lemma held_restrict F F' V h : held_ok F V h -> held_ok F' (restrict F' V) h.
Proof. intros H a x [Hx HF]%lookup_restrict. split; [done|]. by apply (H a x). Qed.

(** The references of the queues that are shown are among [G]. *)
Definition queued_in (X : option Z) (q : gmap Z (list multiCmd * bool)) (G : list addr) : Prop :=
  forall id l w mc a, q !! id = Some (l, w) -> X <> Some id -> mc ∈ l -> a ∈ mc_argv mc -> a ∈ G.

(** What giving keys up leaves as it was. *)
Definition same_but_watch (G : list addr) (s s' : server) : Prop :=
  argv s' = argv s /\ cmd s' = cmd s /\ length (dbs s') = length (dbs s) /\ keeps_values (argv s ++ G) (sheap s) (sheap s').

Lemma unwatch_key_run X q W u G V E J args s c wk l :
  inv X q W u (wrefs W ++ G) V E J args s -> queued_in X q G -> clients s !! u = Some c -> c_watched c = wk :: l ->
  exists s' V', unwatch_key u wk s = Some (tt, s') /\ inv X q (wtab s') u (wrefs (wtab s') ++ G) V' E J args s' /\
    abs X s' = snd (on_me (fun c => ac_watch c (watched_names (text_at (sheap s')) l)) (abs X s)) /\ clients s' = <[u := c_watch c l]> (clients s) /\ same_but_watch G s s'.
Proof.
  intros Hi HG Hc Hl. set (d := wk_db wk). set (k := held_text V (wk_key wk)). pose proof (i_watch _ _ _ _ Hi) as HW.
  destruct (wo_watching _ _ HW u c d k Hc) as (db & a & ids & Hd & Hk & Hin); [rewrite Hl; left|]. destruct (list_remove_id_ok u ids) as (ids' & Hr & HN & Hx); [by eapply (wo_ids _ _ HW)|done|].
  set (T := table_without (watched_keys db) k a ids'). destruct (rewatch_wrefs u s d db c Hd Hc) as (R & P1 & P2). rewrite (i_wtab _ _ _ _ Hi) in P1. set (W' := wtab (rewatch u s (sheap s) d db T c l)).
  set (freed := (if zlen ids' =? 0 then [a] else []) ++ [wk_key wk]).
  assert (wrefs W ≡ₚ freed ++ wrefs W') as HP.
  { unfold W', freed. rewrite P2, P1, Hl. unfold T, table_without. cbn [map]. destruct (zlen ids' =? 0); [rewrite (table_wrefs_gone _ _ _ _ Hk)|rewrite (table_wrefs_same _ _ _ _ ids' Hk)]; solve_Permutation. }
  assert (heap_ok (sheap s) (freed ++ (E ++ db_refs s ++ argv s ++ wrefs W' ++ G))) as Hh by (eapply heap_ok_proper; [|exact (i_heap _ _ _ _ Hi)]; rewrite HP; solve_Permutation).
  destruct (release_run _ _ s Hh) as (h' & Rr & Hh' & K). set (V' := restrict (wrefs W' ++ G) V). set (s' := rewatch u s h' d db T c l). assert (wtab s' = W') as HW' by done.
  assert (forall x, x ∈ wrefs W' -> is_Some (V !! x)) as Hsub by (intros x Hx'; apply (i_wheld _ _ _ _ Hi); rewrite HP; apply elem_of_app; by right).
  assert (keeps_values (db_refs s ++ argv s ++ wrefs W' ++ G) (sheap s) h') as K' by (intros x Hx'; apply K, elem_of_app; by right).
  assert (inv X q (wtab s') u (wrefs W' ++ G) V' E J args s') as Hi'.
  { eapply inv_rewatch; [exact Hi|exact Hd|exact Hc|exact Hh'|exact K'|by eapply held_restrict, (i_held _ _ _ _ Hi)| | |].
    - intros id l0 w mc x Hq HX Hmc Hx'. apply restrict_some; [by eapply (i_queued _ _ _ _ Hi)|]. apply elem_of_app. right. by eapply HG.
    - apply (watch_ok_ext (held_text V)); [|by eapply unwatch_ok]. intros x Hx'. change (x ∈ wrefs W') in Hx'. symmetry. apply restrict_text; [by apply Hsub|apply elem_of_app; by left].
    - intros x Hx'. change (x ∈ wrefs W') in Hx'. apply restrict_some; [by apply Hsub|apply elem_of_app; by left]. }
  exists s', V'. split; [|split; [exact Hi'|split; [by eapply abs_rewatch|split; [done|]]]].
  - unfold unwatch_key, bind. rewrite (name_of_run _ _ _ _ (wk_key wk) Hi) by (eapply wrefs_client; [exact Hc|rewrite Hl; left]). fold k d. rewrite (run_db s d db Hd), (watchers_run _ _ _ _ _ _ k Hi Hd). unfold lift. rewrite Hk. cbn [fst snd]. rewrite Hr.
    unfold freed in Rr. unfold s', rewatch, T, table_without, put_db, modify, get_client, put_client, decr, on_heap, bind, gets, lift in *. destruct (zlen ids' =? 0).
    + cbn [app for_each] in Rr. unfold bind in Rr. cbn [sheap set_dbs]. destruct (decrRefCount (sheap s) a) as [h1|]; [|done]. cbn [mbind option_bind] in Rr |- *. cbn [clients set_heap set_dbs]. rewrite Hc, Hl. unfold modify. cbn [sheap set_clients set_heap clients set_dbs tail] in Rr |- *.
      destruct (decrRefCount h1 (wk_key wk)) as [h2|]; [|done]. cbn [mbind option_bind] in Rr |- *. injection Rr as Rr. assert (h2 = h') as -> by (by inversion Rr). done.
    + cbn [app for_each] in Rr. unfold bind in Rr. cbn [clients set_dbs]. rewrite Hc, Hl. unfold modify. cbn [sheap set_clients set_dbs clients tail]. destruct (decrRefCount (sheap s) (wk_key wk)) as [h1|]; [|done]. cbn [mbind option_bind] in Rr |- *.
      injection Rr as Rr. assert (h1 = h') as -> by (by inversion Rr). done.
  - split; [done|]. split; [done|]. split; [cbn; by rewrite length_insert|]. intros x Hx'. apply K'. rewrite !elem_of_app in *. tauto.
Qed.

Lemma unwatch_loop_run X q u G E J args : queued_in X q G -> forall l W V s c, inv X q W u (wrefs W ++ G) V E J args s -> clients s !! u = Some c -> c_watched c = l ->
  exists s' V', for_each l (unwatch_key u) s = Some (tt, s') /\ inv X q (wtab s') u (wrefs (wtab s') ++ G) V' E J args s' /\ abs X s' = snd (s_unwatch (abs X s)) /\
    clients s' = <[u := c_watch c []]> (clients s) /\ same_but_watch G s s'.
Proof.
  intros HG. induction l as [|wk l IH]; intros W V s c Hi Hc Hl; cbn [for_each].
  - destruct (unwatch_none _ _ _ _ _ Hi Hc Hl) as [_ A]. assert (c_watch c [] = c) as Ec by (destruct c; cbn in *; by subst). exists s, V. rewrite Ec, insert_id, A by done. rewrite (i_wtab _ _ _ _ Hi). done.
  - destruct (unwatch_key_run _ _ _ _ _ _ _ _ _ _ _ _ _ Hi HG Hc Hl) as (s1 & V1 & R1 & Hi1 & A1 & C1 & (S1 & S2 & S3 & S4)).
    destruct (IH _ _ s1 (c_watch c l) Hi1) as (s2 & V2 & R2 & Hi2 & A2 & C2 & (S5 & S6 & S7 & S8)); [by rewrite C1, lookup_insert_eq|done|].
    exists s2, V2. split; [unfold bind; by rewrite R1|]. split; [done|]. split; [rewrite A2, A1; unfold s_unwatch; by rewrite on_me_twice|]. split; [rewrite C2, C1, insert_insert_eq; done|].
    split; [congruence|]. split; [congruence|]. split; [congruence|]. eapply keeps_values_trans; [exact S4|]. by rewrite <- S1.
Qed.

Lemma unwatchAll_run X q W u G V E J args s c :
  inv X q W u (wrefs W ++ G) V E J args s -> queued_in X q G -> clients s !! u = Some c ->
  exists s' V', unwatchAllKeys s = Some (tt, s') /\ inv X q (wtab s') u (wrefs (wtab s') ++ G) V' E J args s' /\ abs X s' = snd (s_unwatch (abs X s)) /\
    clients s' = <[u := c_watch c []]> (clients s) /\ same_but_watch G s s'.
Proof.
  intros Hi HG Hc. destruct (me_run _ _ _ _ Hi) as (c' & Hc' & Rm & _). assert (c' = c) as -> by congruence. destruct (unwatch_loop_run X q u G E J args HG _ W V s c Hi Hc eq_refl) as (s' & V' & R & H).
  exists s', V'. split; [|done]. unfold unwatchAllKeys, bind, gets. by rewrite Rm, (i_cur _ _ _ _ Hi).
Qed.

(** ** Watching a key *)

Lemma same_name_refl k : same_name k k = true.
Proof. unfold same_name. rewrite bool_decide_eq_true_2 by done. rewrite Z.sub_diag. done. Qed.

Lemma same_bytes_name x y : same_bytes x y = same_name x y.
Proof.
  unfold same_bytes, same_name. f_equal. unfold swrap. pose proof (Z.mod_pos_bound (zlen x - zlen y) (2 ^ 32)) as Hm. apply eq_true_iff_eq. rewrite !Z.eqb_eq. destruct (Z.ltb_spec ((zlen x - zlen y) mod 2 ^ 32) (2 ^ (32 - 1))) as [?|Hge]; [done|].
  change (2 ^ (32 - 1)) with 2147483648 in Hge. change (2 ^ 32) with 4294967296 in *. lia.
Qed.

(** The comparison of two string objects is that of their names. *)
Lemma equalStringObjects_ok h refs a b x y : heap_ok h refs -> sds_at h a x -> sds_at h b y -> equalStringObjects h a b = Some (same_name x y).
Proof.
  intros Hh (oa & Ha & Hpa) (ob & Hb & Hpb). pose proof (proj2 (ho_object _ _ Hh a oa Ha)) as Oa. pose proof (proj2 (ho_object _ _ Hh b ob Hb)) as Ob. unfold object_ok in Oa, Ob. rewrite Hpa in Oa. rewrite Hpb in Ob. destruct Oa as [Ta Ea], Ob as [Tb Eb].
  assert (o_encoding oa <> OBJ_ENCODING_INT) as Na by (intros E; unfold sdsEncodedObject in Ea; by rewrite E in Ea).
  unfold equalStringObjects, compareStringObjects. rewrite Ha, Hb. cbn [mbind option_bind]. rewrite (bool_decide_eq_false_2 (o_encoding oa = OBJ_ENCODING_INT)) by done. cbn [andb].
  rewrite !bool_decide_eq_true_2 by done. cbn [andb negb]. destruct (Z.eqb_spec a b) as [<-|Hne].
  - assert (x = y) as -> by congruence. by rewrite same_name_refl.
  - unfold bytes_to_compare. rewrite Ea, Eb. unfold sds_of. rewrite Hpa, Hpb. cbn [mbind option_bind]. by rewrite same_bytes_name.
Qed.

Definition watched_already (k : key) (d : nat) (l : list (nat * key)) : bool := existsb (fun wk => bool_decide (fst wk = d) && same_name k (snd wk)) l.

Lemma already_watched_run h refs a k d s : heap_ok h refs -> sheap s = h -> sds_at h a k -> forall l, (forall wk, wk ∈ l -> sds_at h (wk_key wk) (text_at h (wk_key wk))) ->
  already_watched a d l s = Some (watched_already k d (watched_names (text_at h) l), s).
Proof.
  intros Hh Hs Ha. unfold watched_already. induction l as [|wk l IH]; intros Hl; [done|]. cbn [already_watched watched_names map existsb fst snd]. fold (watched_names (text_at h) l).
  case_bool_decide as Hd; cbn [negb andb orb]; [|apply IH; intros wk' H; apply Hl; by right].
  unfold bind, read_heap. rewrite Hs. rewrite (equalStringObjects_ok h refs a (wk_key wk) k (text_at h (wk_key wk)) Hh Ha) by (apply Hl; left). cbn [mbind option_bind].
  destruct (same_name k _); cbn [orb]; [done|]. apply IH. intros wk' H. apply Hl. by right.
Qed.

#[local] Arguments watched_names : simpl never.

(** The entry of the table after a client is added. *)
Definition table_with (m : gmap key (addr * list Z)) (k : key) (a : addr) (u : Z) : gmap key (addr * list Z) :=
  match m !! k with None => <[k := (a, [u])]> m | Some (a0, ids) => <[k := (a0, ids ++ [u])]> m end.

Lemma lookup_with m k a u k' a' ids' : table_with m k a u !! k' = Some (a', ids') ->
  m !! k' = Some (a', ids') /\ k <> k' \/ k = k' /\ (m !! k = None /\ a' = a /\ ids' = [u] \/ exists ids, m !! k = Some (a', ids) /\ ids' = ids ++ [u]).
Proof.
  unfold table_with. destruct (m !! k) as [[a0 ids]|] eqn:Ek; intros [[<- [= <- <-]]|[Hne H]]%lookup_insert_Some; [right|by left|right|by left]; (split; [done|]); [right; by exists ids|by left].
Qed.

Lemma table_with_same m k a u : exists a' ids, table_with m k a u !! k = Some (a', ids) /\ u ∈ ids /\ forall a0 ids0 x, m !! k = Some (a0, ids0) -> x ∈ ids0 -> x ∈ ids.
Proof.
  unfold table_with. destruct (m !! k) as [[a0 ids]|] eqn:Ek; rewrite lookup_insert_eq; eexists _, _; (split; [done|]).
  - split; [apply elem_of_app; right; by apply list_elem_of_singleton|]. intros a1 ids1 x [= <- <-] Hx. apply elem_of_app. by left.
  - split; [by apply list_elem_of_singleton|done].
Qed.

Lemma table_with_other m k a u k' : k <> k' -> table_with m k a u !! k' = m !! k'.
Proof. intros H. unfold table_with. destruct (m !! k) as [[a0 ids]|]; by rewrite lookup_insert_ne. Qed.

Lemma table_wrefs_with m k a u : table_wrefs (table_with m k a u) ≡ₚ (if decide (m !! k = None) then [a] else []) ++ table_wrefs m.
Proof. unfold table_with. destruct (m !! k) as [[a0 ids]|] eqn:Ek; [rewrite decide_False by done; by eapply table_wrefs_same|rewrite decide_True by done; by apply table_wrefs_new]. Qed.

Lemma watch_ok_add T u s h d db k a c :
  watch_ok T s -> clients s !! u = Some c -> dbs s !! d = Some db -> T a = k -> (d, k) ∉ watched_names T (c_watched c) ->
  watch_ok T (rewatch u s h d db (table_with (watched_keys db) k a u) c (c_watched c ++ [mk_wk a d])).
Proof.
  intros [W1 W2 W3 W4 W5] Hc Hd Ha Hni. set (Tb := table_with (watched_keys db) k a u). assert (watched_names T (c_watched c ++ [mk_wk a d]) = watched_names T (c_watched c) ++ [(d, k)]) as Hn by (unfold watched_names; rewrite map_app; cbn; by rewrite Ha).
  assert (forall a0 ids, watched_keys db !! k = Some (a0, ids) -> u ∉ ids) as Hu by (intros a0 ids Hk Hin; destruct (W1 d db k a0 ids u Hd Hk Hin) as (c0 & Hc0 & Hin0); congruence).
  assert (forall d' x k' a' ids0, <[d := set_watched db Tb]> (dbs s) !! d' = Some x -> watched_keys x !! k' = Some (a', ids0) ->
    (exists y, dbs s !! d' = Some y /\ watched_keys y !! k' = Some (a', ids0)) \/ (d, k) = (d', k') /\ (a' = a /\ ids0 = [u] \/ exists ids, watched_keys db !! k = Some (a', ids) /\ ids0 = ids ++ [u])) as Hback.
  { intros d' x k' a' ids0 Hx Hk. destruct (lookup_rewatch _ _ _ _ _ _ Hd Hx) as (y & Hy & Hw). rewrite Hw in Hk. destruct (decide (d = d')) as [<-|]; [|left; by exists y]. assert (y = db) as -> by congruence.
    destruct (lookup_with _ _ _ _ _ _ _ Hk) as [[Hk' _]|[<- [(_ & -> & ->)|Hids]]]; [left; by exists db|right; split; [done|by left]|right; split; [done|by right]]. }
  constructor; cbn.
  - intros d' x k' a' ids0 id Hx Hk Hin.
    assert ((d, k) = (d', k') /\ id = u \/ exists c0, clients s !! id = Some c0 /\ (d', k') ∈ watched_names T (c_watched c0)) as [[[= <- <-] ->]|(c0 & Hc0 & Hin0)].
    { destruct (Hback d' x k' a' ids0 Hx Hk) as [(y & Hy & Hk')|(He & [(-> & ->)|(ids & Hk' & ->)])]; [right; by eapply W1|apply list_elem_of_singleton in Hin as ->; by left|].
      injection He as <- <-. apply elem_of_app in Hin as [Hin|Hin%list_elem_of_singleton]; [right; by eapply W1|by left]. }
    + exists (c_watch c (c_watched c ++ [mk_wk a d])). rewrite lookup_insert_eq. split; [done|]. cbn. rewrite Hn. apply elem_of_app. right. by apply list_elem_of_singleton.
    + destruct (decide (u = id)) as [<-|Hne]; [|exists c0; by rewrite lookup_insert_ne]. eexists. rewrite lookup_insert_eq. split; [done|]. cbn. rewrite Hn. apply elem_of_app. left. congruence.
  - intros id x d' k' Hx Hin. destruct (table_with_same (watched_keys db) k a u) as (a1 & ids1 & Hs & Hu1 & Hold). fold Tb in Hs.
    assert ((d', k') = (d, k) /\ id = u \/ exists c0, clients s !! id = Some c0 /\ (d', k') ∈ watched_names T (c_watched c0)) as [[[= -> ->] ->]|(c0 & Hc0 & Hin0)].
    { destruct (decide (u = id)) as [<-|Hne]; [|rewrite lookup_insert_ne in Hx by done; right; by exists x]. rewrite lookup_insert_eq in Hx. injection Hx as <-. cbn in Hin. rewrite Hn in Hin. apply elem_of_app in Hin as [Hin|Hin%list_elem_of_singleton]; [right; by exists c|by left]. }
    + destruct (rewatch_lookup s d db Tb d db Hd Hd) as (z & Hz & Hw). rewrite decide_True in Hw by done. exists z, a1, ids1. by rewrite Hz, Hw.
    + destruct (W2 id c0 d' k' Hc0 Hin0) as (y & a0 & ids0 & Hy & Hk0 & Hin1). destruct (rewatch_lookup s d db Tb d' y Hd Hy) as (z & Hz & Hw). exists z. rewrite Hz, Hw. destruct (decide (d = d')) as [<-|]; [|by exists a0, ids0].
      assert (y = db) as -> by congruence. destruct (decide (k = k')) as [<-|Hk']; [exists a1, ids1; split; [done|]; split; [done|by eapply Hold]|]. exists a0, ids0. unfold Tb. by rewrite table_with_other.
  - intros d' x k' a' ids0 Hx Hk. destruct (Hback d' x k' a' ids0 Hx Hk) as [(y & Hy & Hk')|(He & [(-> & ->)|(ids & Hk' & ->)])]; [by eapply W3|apply NoDup_singleton|]. apply NoDup_app. split; [by eapply W3|].
    split; [|apply NoDup_singleton]. intros x0 H1 H2%list_elem_of_singleton. subst. by eapply Hu.
  - intros id x Hx. destruct (decide (u = id)) as [<-|Hne]; [|rewrite lookup_insert_ne in Hx by done; by eapply W4]. rewrite lookup_insert_eq in Hx. injection Hx as <-. cbn. rewrite Hn. apply NoDup_app. split; [by eapply W4|].
    split; [|apply NoDup_singleton]. intros x0 H1 H2%list_elem_of_singleton. by subst.
  - intros d' x k' a' ids0 Hx Hk. destruct (Hback d' x k' a' ids0 Hx Hk) as [(y & Hy & Hk')|(He & [(-> & _)|(ids & Hk' & _)])]; [by eapply W5| |]; injection He as <- <-; [done|by eapply W5].
Qed.

(** References are added to a live object. *)
Lemma retain_all_run refs a : forall n s, heap_ok (sheap s) refs -> a ∈ refs -> exists h', for_each (replicate n a) incr s = Some (tt, set_heap s h') /\ heap_ok h' (replicate n a ++ refs) /\ forall b, repr_at h' b = repr_at (sheap s) b.
Proof.
  intros n. assert (forall s refs', heap_ok (sheap s) refs' -> a ∈ refs' -> exists h', for_each (replicate n a) incr s = Some (tt, set_heap s h') /\ heap_ok h' (replicate n a ++ refs') /\ forall b, repr_at h' b = repr_at (sheap s) b) as H; [|intros s; apply H].
  induction n as [|n IH]; intros s refs' Hh Ha; cbn [replicate for_each app]; [exists (sheap s); by destruct s|]. destruct (incrRefCount_ok _ _ a Hh (ho_live _ _ Hh a Ha)) as (h1 & E1 & Hh1 & P1 & _).
  destruct (IH (set_heap s h1) (a :: refs') Hh1) as (h2 & R2 & Hh2 & P2); [by left|]. exists h2. split; [assert (incr a s = Some (tt, set_heap s h1)) as R1 by (unfold incr, on_heap; by rewrite E1); unfold bind; rewrite R1; exact R2|]. split; [by rewrite Permutation_middle|].
  intros b. by rewrite P2, <- P1.
Qed.

Lemma watch_key_run X q W u G V J args s a k :
  inv X q W u (wrefs W ++ G) V [] J args s -> queued_in X q G -> a ∈ argv s -> sds_at (sheap s) a k ->
  exists s' V', watchForKey a s = Some (tt, s') /\ inv X q (wtab s') u (wrefs (wtab s') ++ G) V' [] J args s' /\ abs X s' = snd (s_watch k (abs X s)) /\ argv s' = argv s.
Proof.
  intros Hi HG Hav Ha. destruct (me_run _ _ _ _ Hi) as (c & Hc & Rm & _). pose proof (i_cur _ _ _ _ Hi) as Hu. pose proof (i_heap _ _ _ _ Hi) as Hh. destruct (i_db _ _ _ _ Hi u c Hc) as [db Hd]. set (d := c_db c) in *.
  set (names := watched_names (text_at (sheap s)) (c_watched c)).
  assert (already_watched a d (c_watched c) s = Some (watched_already k d names, s)) as Ral.
  { eapply already_watched_run; [exact Hh|done|exact Ha|]. intros wk Hwk. destruct (wref_held _ _ _ _ _ Hi (wrefs_client _ _ _ _ Hc Hwk)) as [_ Hs]. by rewrite (sds_text _ _ _ Hs). }
  assert (forall f, snd (on_me f (abs X s)) = t_clients (abs X s) (<[u := f (abs_client (sheap s) (bool_decide (X = Some u)) c)]> (a_clients (abs X s)))) as Hon.
  { intros f. unfold on_me, smod. cbn [snd]. cbn [abs a_cur]. rewrite Hu. by rewrite (alter_some _ _ u (abs_client (sheap s) (bool_decide (X = Some u)) c)) by (by rewrite lookup_abs_client, Hc). }
  assert (snd (s_watch k (abs X s)) = if watched_already k d names then abs X s else snd (on_me (fun c => ac_watch c (names ++ [(d, k)])) (abs X s))) as Hspec.
  { unfold s_watch. rewrite !Hon. cbn [a_watched a_db abs_client]. fold d names. change (existsb _ names) with (watched_already k d names). destruct (watched_already k d names); [|done]. rewrite insert_id by (by rewrite lookup_abs_client, Hc). by destruct (abs X s). }
  unfold watchForKey. destruct (watched_already k d names) eqn:Ew.
  { exists s, V. split; [unfold bind; rewrite Rm; fold d; by rewrite Ral|]. split; [by rewrite (i_wtab _ _ _ _ Hi)|]. split; [by rewrite Hspec|done]. }
  set (V' := <[a := k]> V). set (T := table_with (watched_keys db) k a u). set (l := c_watched c ++ [mk_wk a d]). set (new := if decide (watched_keys db !! k = None) then 2%nat else 1%nat).
  destruct (rewatch_wrefs u s d db c Hd Hc) as (R & P1 & P2). rewrite (i_wtab _ _ _ _ Hi) in P1. set (W' := wtab (rewatch u s (sheap s) d db T c l)).
  assert (wrefs W' ≡ₚ replicate new a ++ wrefs W) as HP.
  { unfold W', new. rewrite P2, P1. unfold T, l. rewrite map_app, table_wrefs_with. cbn [map wk_key]. destruct (watched_keys db !! k); [rewrite !decide_False by done|rewrite !decide_True by done]; cbn [replicate]; solve_Permutation. }
  assert (new = 1%nat \/ new = 2%nat) as Hnew by (unfold new; destruct (watched_keys db !! k); [rewrite decide_False by done; by left|rewrite decide_True by done; by right]).
  assert (a ∈ wrefs W') as Ha' by (rewrite HP; apply elem_of_app; left; destruct Hnew as [-> | ->]; left).
  assert (forall b, b ∈ wrefs W' <-> b = a \/ b ∈ wrefs W) as Hin'. { intros b. rewrite HP, elem_of_app. destruct Hnew as [-> | ->]; cbn [replicate]; rewrite !elem_of_cons, elem_of_nil; tauto. }
  destruct (retain_all_run _ a new s Hh) as (h' & Rr & Hh' & K); [rewrite !elem_of_app; tauto|].
  assert (forall b x, V !! b = Some x -> held_text V' b = x) as HVt. { intros b x Hx. unfold CommandsInv.held_text, V'. destruct (decide (a = b)) as [<-|Hne]; [rewrite lookup_insert_eq; cbn|by rewrite lookup_insert_ne, Hx]. destruct (i_held _ _ _ _ Hi a x Hx) as [_ Hs]. rewrite <- (sds_text _ _ _ Hs). symmetry. by apply sds_text. }
  assert (forall b, is_Some (V !! b) -> is_Some (V' !! b)) as HVs by (intros b Hb; unfold V'; destruct (decide (a = b)) as [<-|Hne]; [rewrite lookup_insert_eq; by eexists|by rewrite lookup_insert_ne]).
  assert (held_text V' a = k) as HVa by (unfold CommandsInv.held_text, V'; by rewrite lookup_insert_eq).
  assert (watch_ok (held_text V') s) as HW.
  { apply (watch_ok_ext (held_text V)); [|exact (i_watch _ _ _ _ Hi)]. intros b Hb. rewrite (i_wtab _ _ _ _ Hi) in Hb. destruct (i_wheld _ _ _ _ Hi b Hb) as [x Hx]. rewrite (HVt b x Hx). unfold CommandsInv.held_text. by rewrite Hx. }
  assert (watched_names (held_text V') (c_watched c) = names) as Hnames.
  { apply watched_names_ext. intros wk Hwk. pose proof (wrefs_client _ _ _ _ Hc Hwk) as Hr. rewrite (i_wtab _ _ _ _ Hi) in Hr. destruct (i_wheld _ _ _ _ Hi _ Hr) as [x Hx]. rewrite (HVt _ x Hx). symmetry. apply sds_text. by apply (i_held _ _ _ _ Hi _ x). }
  assert ((d, k) ∉ names) as Hni. { intros Hin. assert (watched_already k d names = true) as E; [|congruence]. apply existsb_exists. exists (d, k). split; [by apply list_elem_of_In|]. cbn. rewrite bool_decide_eq_true_2 by done. apply same_name_refl. }
  set (s' := rewatch u s h' d db T c l). assert (wtab s' = W') as HW' by done.
  assert (keeps_values (db_refs s ++ argv s ++ wrefs W' ++ G) (sheap s) h') as K' by (intros b _; apply K).
  assert (inv X q (wtab s') u (wrefs W' ++ G) V' [] J args s') as Hi'.
  { eapply inv_rewatch; [exact Hi|exact Hd|exact Hc| |exact K'| | | |].
    - eapply heap_ok_proper; [|exact Hh']. rewrite HP. cbn. solve_Permutation.
    - intros b x Hx. unfold V' in Hx. apply lookup_insert_Some in Hx as [[<- <-]|[Hne Hx]]; [split; [apply elem_of_app; by left|done]|]. destruct (i_held _ _ _ _ Hi b x Hx) as [HF Hs]. split; [|done]. rewrite elem_of_app in *. rewrite Hin'. tauto.
    - intros id l0 w mc b Hq HX Hmc Hb. by eapply HVs, (i_queued _ _ _ _ Hi).
    - apply watch_ok_add; [exact HW|done|done|exact HVa|]. by rewrite Hnames.
    - intros b Hb. change (b ∈ wrefs W') in Hb. apply Hin' in Hb as [->|Hb]; [unfold V'; rewrite lookup_insert_eq; by eexists|]. by apply HVs, (i_wheld _ _ _ _ Hi). }
  exists s', V'. split; [|split; [exact Hi'|split; [|done]]].
  - unfold bind. rewrite Rm. fold d. rewrite Ral. destruct Ha as (o & Ho & Hp). unfold name_of, bind, get_obj, read_heap, lift. rewrite Ho. cbn [mbind option_bind]. unfold sds_of. rewrite Hp. rewrite (run_db s d db Hd), (watchers_run _ _ _ _ _ _ k Hi Hd).
    unfold gets. rewrite Hu. unfold s', rewatch, T, table_with, put_db, modify, incr, on_heap, put_me, put_client, bind, gets in *. revert Rr. unfold new. destruct (watched_keys db !! k) as [[a0 ids]|]; [rewrite decide_False by done|rewrite decide_True by done]; cbn [replicate for_each]; unfold bind.
    + cbn [sheap set_dbs]. destruct (incrRefCount (sheap s) a) as [h1|]; [|done]. cbn [mbind option_bind]. unfold ret. intros [= E]. subst h1. unfold modify. cbn [cur set_heap set_dbs clients]. by rewrite Hu.
    + cbn [sheap set_dbs]. destruct (incrRefCount (sheap s) a) as [h1|]; [|done]. cbn [mbind option_bind]. cbn [sheap set_heap]. destruct (incrRefCount h1 a) as [h2|]; [|done]. cbn [mbind option_bind]. unfold ret. intros [= E]. subst h2.
      unfold modify. cbn [cur set_heap set_dbs clients]. by rewrite Hu.
  - rewrite Hspec. unfold s'. rewrite (abs_rewatch _ _ _ _ _ _ _ _ _ _ _ _ _ _ _ _ _ _ _ Hi Hd Hc K' Hi'). rewrite !Hon. f_equal. f_equal. f_equal. unfold l, names, watched_names. rewrite map_app. cbn. f_equal.
    + apply watched_names_ext. intros wk Hwk. apply repr_text, K.
    + do 2 f_equal. rewrite (repr_text (sheap s) h' a) by apply K. by apply sds_text.
Qed.
