(* ===== verification/Requests.v ===== *)
(** * Requests refine the abstract key space: transactions and requests

    The queues of the clients hold references to their arguments; [idle] is the
    invariant of the server between two requests.  From such a state every
    request ends (no object is used after it is freed, no assertion of [db.c]
    fails), leaves such a state, and does to the abstract state what
    [Keyspace.s_request] says. *)

From S2P Require Import Prelude Numstr Objects Db Keyspace Commands CommandsInv CommandsRefine WatchTables.
From stdpp Require Import strings options.
#[local] Open Scope Z_scope.

#[local] Abbreviation queue_map := (gmap Z (list multiCmd * bool)).
#[local] Abbreviation sim X := (@CommandsInv.sim X _ _).
#[local] Abbreviation inv X q W u F V := (@CommandsInv.inv X q W u F V).
#[local] Abbreviation held_text V := (@CommandsInv.held_text V).
#[local] Abbreviation held_ok F V := (@CommandsInv.held_ok F V).

#[local] Arguments watched_names : simpl never.

(** ** The references of the queues *)

Definition queue_refs (l : list multiCmd) : list addr := concat (map mc_argv l).
Definition qrefs (q : queue_map) : list addr := concat (map (fun p => queue_refs (fst (snd p))) (map_to_list q)).

Lemma qrefs_insert (q : queue_map) u l w : qrefs (<[u := (l, w)]> q) ≡ₚ queue_refs l ++ qrefs (delete u q).
Proof.
  unfold qrefs. rewrite <- insert_delete_eq. assert (delete u q !! u = None) as H by apply lookup_delete_eq. rewrite (map_to_list_insert (delete u q) u (l, w) H). done.
Qed.

Lemma qrefs_delete (q : queue_map) u l w : q !! u = Some (l, w) -> qrefs q ≡ₚ queue_refs l ++ qrefs (delete u q).
Proof. intros H. rewrite <- (insert_id q u (l, w) H) at 1. apply qrefs_insert. Qed.

Lemma in_queue_refs l a : a ∈ queue_refs l <-> exists mc, mc ∈ l /\ a ∈ mc_argv mc.
Proof.
  unfold queue_refs. rewrite list_elem_of_In, in_concat. split.
  - intros (x & Hx & Ha). apply list_elem_of_In, list_elem_of_fmap in Hx as (mc & -> & Hmc). exists mc. split; [done|by apply list_elem_of_In].
  - intros (mc & Hmc & Ha). exists (mc_argv mc). split; [apply list_elem_of_In, list_elem_of_fmap; by exists mc|by apply list_elem_of_In].
Qed.

Lemma in_qrefs q a : a ∈ qrefs q <-> exists id l w mc, q !! id = Some (l, w) /\ mc ∈ l /\ a ∈ mc_argv mc.
Proof.
  unfold qrefs. rewrite list_elem_of_In, in_concat. split.
  - intros (x & Hx & Ha). apply list_elem_of_In, list_elem_of_fmap in Hx as ([id [l w]] & -> & H). apply list_elem_of_In, in_queue_refs in Ha as (mc & Hmc & Ha). exists id, l, w, mc. split; [by apply elem_of_map_to_list|done].
  - intros (id & l & w & mc & H & Hmc & Ha). exists (queue_refs l). split; [apply list_elem_of_In, list_elem_of_fmap; exists (id, (l, w)); split; [done|by apply elem_of_map_to_list]|].
    apply list_elem_of_In, in_queue_refs. by exists mc.
Qed.

(** What the commands in the queues were checked for. *)
Definition multi_ok (mc : multiCmd) : Prop := queueable (mc_cmd mc) = true /\ (least_args (mc_cmd mc) <= length (mc_argv mc))%nat.
Definition queue_ok (q : queue_map) : Prop :=
  forall id l w, q !! id = Some (l, w) -> w = existsb (fun mc => CMD_WRITE (mc_cmd mc)) l /\ forall mc, mc ∈ l -> multi_ok mc.

(** The strings that references stand for. *)
Definition snap (h : heap) (refs : list addr) : gmap addr (list Z) := list_to_map (map (fun a => (a, text_at h a)) refs).

Lemma lookup_snap h refs a x : snap h refs !! a = Some x <-> a ∈ refs /\ x = text_at h a.
Proof.
  unfold snap. induction refs as [|b refs IH]; cbn; [rewrite lookup_empty; split; [done|intros [H _]; by apply elem_of_nil in H]|]. rewrite elem_of_cons. destruct (decide (b = a)) as [->|Hne].
  - rewrite lookup_insert_eq. split; [intros [= <-]; split; [by left|done]|]. by intros [_ ->].
  - rewrite lookup_insert_ne by done. rewrite IH. split; [tauto|]. intros [[->|H] Hx]; done.
Qed.

Lemma snap_held h refs F : (forall a, a ∈ refs -> a ∈ F /\ exists x, sds_at h a x) -> held_ok F (snap h refs) h.
Proof. intros H a x [Ha ->]%lookup_snap. destruct (H a Ha) as [HF [y Hy]]. split; [done|]. by rewrite (sds_text _ _ _ Hy). Qed.

(** The key objects of WATCH are held as before. *)
Definition keeps_watched (W : watch_tables) (V V' : gmap addr (list Z)) : Prop := forall a, a ∈ wrefs W -> V' !! a = V !! a.

Lemma watch_ok_keep W V V' s : wtab s = W -> keeps_watched W V V' -> watch_ok (held_text V) s -> watch_ok (held_text V') s.
Proof. intros <- H. apply watch_ok_ext. intros a Ha. unfold CommandsInv.held_text. by rewrite H. Qed.

Lemma snap_keeps X q W u F V E J args s h0 refs :
  inv X q W u F V E J args s -> (forall a, a ∈ wrefs W -> a ∈ refs /\ text_at h0 a = text_at (sheap s) a) -> keeps_watched W V (snap h0 refs).
Proof.
  intros Hi H a Ha. destruct (H a Ha) as [Hr Ht]. destruct (i_wheld _ _ _ _ Hi a Ha) as [x Hx]. rewrite Hx. apply lookup_snap. split; [done|]. rewrite Ht. symmetry. apply sds_text. by apply (i_held _ _ _ _ Hi).
Qed.

(** ** Changing a queue *)

Lemma inv_perm X q W u F V E E' J args s : E ≡ₚ E' -> inv X q W u F V E J args s -> inv X q W u F V E' J args s.
Proof. intros P [I1 I2 I3 I4 I5 I6 I7 I8 I9 I10 I11 I12]. constructor; [|done..]. by rewrite <- P. Qed.

Lemma inv_mstate X X' (q : queue_map) W u F F' V V' E E' J args s c l w :
  inv X q W u F V E J args s -> clients s !! u = Some c -> heap_ok (sheap s) (E' ++ db_refs s ++ argv s ++ F') ->
  (forall id l' w' mc a, <[u := (l, w)]> q !! id = Some (l', w') -> X' <> Some id -> mc ∈ l' -> a ∈ mc_argv mc -> is_Some (V' !! a)) -> held_ok F' V' (sheap s) -> keeps_watched W V V' ->
  inv X' (<[u := (l, w)]> q) W u F' V' E' J args (set_clients s (<[u := c_mstate c l w]> (clients s))).
Proof.
  intros [I1 I2 HW I4 I5 I6 I7 I8 I9 I10 I11 I12] Hc Hh HV Hheld HK. apply (watch_ok_keep W V V' s I11 HK) in HW as [W1 W2 W3 W4 W5].
  constructor; cbn; [exact Hh|exact I2| | |exact I5|rewrite lookup_insert_eq; by eexists| |exact I8|exact HV|exact Hheld| |intros a Ha; rewrite HK by done; by apply I12].
  - constructor; cbn; [|  |exact W3| |exact W5].
    + intros d db k a ids id Hd Hk Hin. destruct (W1 d db k a ids id Hd Hk Hin) as (x & Hx & Hw). destruct (decide (u = id)) as [<-|Hne]; [|exists x; by rewrite lookup_insert_ne]. exists (c_mstate c l w). rewrite lookup_insert_eq. split; [done|]. cbn. congruence.
    + intros id x d k Hx Hin. destruct (decide (u = id)) as [<-|Hne]; [rewrite lookup_insert_eq in Hx; injection Hx as <-; by apply (W2 u c)|]. rewrite lookup_insert_ne in Hx by done. by apply (W2 id x).
    + intros id x Hx. destruct (decide (u = id)) as [<-|Hne]; [rewrite lookup_insert_eq in Hx; injection Hx as <-; by apply (W4 u c)|]. rewrite lookup_insert_ne in Hx by done. by apply (W4 id).
  - unfold queues in *. cbn. rewrite fmap_insert. by rewrite I4.
  - intros id x Hx. destruct (decide (u = id)) as [<-|Hne]; [rewrite lookup_insert_eq in Hx; injection Hx as <-; by apply (I7 u c)|]. rewrite lookup_insert_ne in Hx by done. by apply (I7 id).
  - rewrite <- I11. unfold wtab. cbn. rewrite fmap_insert. cbn. by rewrite insert_id by (by rewrite lookup_fmap, Hc).
Qed.

Lemma incr_all_run X q W u F V J args : forall l E s, inv X q W u F V E J args s -> (forall a, a ∈ l -> is_Some (cells (sheap s) !! a)) ->
  exists s', for_each l incr s = Some (tt, s') /\ abs X s' = abs X s /\ inv X q W u F V (l ++ E) J args s' /\ cmd s' = cmd s /\ clients s' = clients s /\ dbs s' = dbs s /\ argv s' = argv s /\
    forall b, repr_at (sheap s') b = repr_at (sheap s) b.
Proof.
  induction l as [|a l IH]; intros E s Hi Hl; cbn [for_each app]; [by exists s|]. destruct (incr_run _ _ _ _ a Hi) as (s1 & R1 & A1 & Hi1 & C1 & K1 & D1 & V1 & P1); [apply Hl; left|].
  destruct (IH (a :: E) s1 Hi1) as (s2 & R2 & A2 & Hi2 & C2 & K2 & D2 & V2 & P2).
  { intros b Hb. destruct (Hl b) as [o Ho]; [by right|]. specialize (P1 b). unfold repr_at in P1. rewrite Ho in P1. destruct (cells (sheap s1) !! b); [by eexists|done]. }
  exists s2. split; [unfold bind; by rewrite R1|]. split; [congruence|]. split; [eapply inv_perm; [|exact Hi2]; symmetry; apply Permutation_middle|]. split; [congruence|]. split; [congruence|]. split; [congruence|]. split; [congruence|].
  intros b. by rewrite P2.
Qed.

Lemma args_text X q W u F V E J args s : inv X q W u F V E J args s -> map (text_at (sheap s)) (argv s) = args.
Proof.
  intros Hi. destruct (i_args _ _ _ _ Hi) as [Hl Ha]. apply list_eq_same_length with (length args); [done|by rewrite length_map|]. intros i x y Hi' Hx Hy. rewrite list_lookup_fmap in Hx. destruct (argv s !! i) as [a|] eqn:Ei; [|done].
  destruct (Ha i a Ei) as (z & Hz & Hv & _). cbn in Hx. apply (inj Some) in Hx as <-. unfold text_at. rewrite Hv. congruence.
Qed.

(** The state while a request is served: the queues hold what they refer to. *)
Definition serving (u : Z) (s : server) : Prop := exists q W V J args, inv None q W u (wrefs W ++ qrefs q) V [] J args s /\ queue_ok q.

(** Every reference of the queues and of WATCH is a string. *)
Lemma queue_strings q W u V E J args s a : inv None q W u (wrefs W ++ qrefs q) V E J args s -> a ∈ wrefs W ++ qrefs q -> exists x, sds_at (sheap s) a x.
Proof.
  intros Hi [Ha|(id & l & w & mc & Hq & Hmc & Ha)%in_qrefs]%elem_of_app; [destruct (i_wheld _ _ _ _ Hi a Ha) as [x Hx]; exists x; by apply (i_held _ _ _ _ Hi a x Hx)|]. destruct (i_queued _ _ _ _ Hi id l w mc a Hq) as [x Hx]; [done..|]. exists x. by apply (i_held _ _ _ _ Hi a x Hx).
Qed.

Lemma argv_strings X q W u F V E args s a : inv X q W u F V E plain args s -> a ∈ argv s -> exists x, sds_at (sheap s) a x.
Proof. intros Hi [i Hia]%list_elem_of_lookup. destruct (i_args _ _ _ _ Hi) as [_ H]. destruct (H i a Hia) as (x & _ & _ & Hs). exists x. by apply Hs. Qed.

Lemma my_queue_of X q W u F V E J args s id c : inv X q W u F V E J args s -> clients s !! id = Some c -> q !! id = Some (mstate c, mstate_write c).
Proof. intros Hi Hc. rewrite <- (i_queues _ _ _ _ Hi). unfold queues. by rewrite lookup_fmap, Hc. Qed.

Lemma my_queue X q W u F V E J args s c : inv X q W u F V E J args s -> clients s !! u = Some c -> q !! u = Some (mstate c, mstate_write c).
Proof. apply my_queue_of. Qed.

Lemma queue_sim q W u V args s :
  inv None q W u (wrefs W ++ qrefs q) V [] plain args s -> queue_ok q -> queueable (cmd s) = true -> (least_args (cmd s) <= length args)%nat ->
  sim None queueMultiCommand (on_me (fun c => ac_queue c (a_queue c ++ [(cmd s, args)]))) s (fun _ _ s' => serving u s').
Proof.
  intros Hi Hok Hqu Hl. unfold queueMultiCommand. eapply sim_left; [done|done|]. eapply sim_left; [done|done|]. cbv beta.
  destruct (incr_all_run _ _ _ _ _ _ _ _ (argv s) [] s Hi) as (s1 & R1 & A1 & Hi1 & C1 & K1 & D1 & V1 & P1).
  { intros a Ha. destruct (argv_strings _ _ _ _ _ _ _ _ _ _ Hi Ha) as (x & o & Ho & _). by exists o. }
  eapply sim_left; [exact R1|exact A1|]. destruct (me_run _ _ _ _ Hi1) as (c & Hc & Rm & _). eapply sim_left; [exact Rm|done|]. set (l := argv s) in *. set (l' := mstate c ++ [mk_multi (cmd s) l]). set (w' := mstate_write c || CMD_WRITE (cmd s)).
  pose proof (my_queue _ _ _ _ _ _ _ _ _ _ _ Hi1 Hc) as Hq. set (q' := <[u := (l', w')]> q).
  assert (qrefs q' ≡ₚ l ++ qrefs q) as HP. { unfold q'. rewrite qrefs_insert, (qrefs_delete q u _ _ Hq). unfold l', queue_refs. rewrite map_app, concat_app. cbn. rewrite app_nil_r. solve_Permutation. }
  assert (forall a, a ∈ wrefs W ++ qrefs q' -> exists x, sds_at (sheap s1) a x) as Hs.
  { intros a Ha. assert (a ∈ l \/ a ∈ wrefs W ++ qrefs q) as [Ha'|Ha'] by (rewrite HP, !elem_of_app in Ha; rewrite elem_of_app; tauto); [|by eapply queue_strings]. clear Ha. rename Ha' into Ha. rewrite <- V1 in Ha. destruct (argv_strings _ _ _ _ _ _ _ _ _ _ Hi1 Ha) as [x Hx]. by exists x. }
  exists tt, (set_clients s1 (<[u := c_mstate c l' w']> (clients s1))). split; [rewrite put_me_run, (i_cur _ _ _ _ Hi1); done|]. split.
  - rewrite abs_set_client. unfold on_me, smod. cbn [snd]. f_equal. cbn [abs a_cur]. rewrite (i_cur _ _ _ _ Hi1). rewrite (alter_some _ _ u (abs_client (sheap s1) false c)) by (by rewrite lookup_abs_client, Hc).
    f_equal. rewrite bool_decide_eq_false_2 by done. unfold abs_client, ac_queue. cbn. f_equal. unfold l'. rewrite map_app. cbn. rewrite <- V1. by rewrite (args_text _ _ _ _ _ _ _ _ _ _ Hi1).
  - exists q', W, (snap (sheap s1) (wrefs W ++ qrefs q')), plain, args. split.
    + eapply inv_mstate; [exact Hi1|exact Hc| | | |].
      * rewrite HP. eapply heap_ok_proper; [|exact (i_heap _ _ _ _ Hi1)]. rewrite V1. fold l. solve_Permutation.
      * intros id l0 w0 mc a Hq0 _ Hmc Ha. exists (text_at (sheap s1) a). apply lookup_snap. split; [|done]. apply elem_of_app. right. apply in_qrefs. by exists id, l0, w0, mc.
      * apply snap_held. intros a Ha. split; [done|by apply Hs].
      * eapply snap_keeps; [exact Hi1|]. intros a Ha. split; [apply elem_of_app; by left|done].
    + intros id l0 w0 Hq0. unfold q' in Hq0. destruct (decide (u = id)) as [<-|Hne]; [|rewrite lookup_insert_ne in Hq0 by done; by apply (Hok id)]. rewrite lookup_insert_eq in Hq0. injection Hq0 as <- <-.
      destruct (Hok u _ _ Hq) as [Hw Hm]. split; [unfold w', l'; rewrite existsb_app, Hw; cbn; by rewrite orb_false_r|]. intros mc [Hin|Hin]%elem_of_app; [by apply Hm|]. apply list_elem_of_singleton in Hin as ->.
      split; [done|]. cbn. unfold l. rewrite (proj1 (i_args _ _ _ _ Hi)). done.
Qed.

(** ** Dropping a queue *)

Lemma for_each_app {A} (l k : list A) (f : A -> M unit) s : for_each (l ++ k) f s = (for_each l f;; for_each k f)%db s.
Proof. revert s. induction l as [|x l IH]; intros s; [done|]. cbn [app for_each]. unfold bind at 1 2 3. destruct (f x s) as [[[] s1]|]; [|done]. apply IH. Qed.

Lemma for_each_queue l s : for_each l (fun mc => for_each (mc_argv mc) decr) s = for_each (queue_refs l) decr s.
Proof.
  revert s. induction l as [|mc l IH]; intros s; [done|]. unfold queue_refs. cbn [map concat for_each]. rewrite for_each_app. unfold bind. destruct (for_each (mc_argv mc) decr s) as [[[] s1]|]; [|done]. apply IH.
Qed.

(** The abstract state after the queue of [u] is dropped. *)
Lemma abs_drop X q W u F V J args s c h' :
  inv X q W u F V [] J args s -> X = None \/ X = Some u -> clients s !! u = Some c -> keeps_values (db_refs s ++ argv s ++ wrefs W) (sheap s) h' ->
  (forall id l w mc a, id <> u -> q !! id = Some (l, w) -> mc ∈ l -> a ∈ mc_argv mc -> repr_at h' a = repr_at (sheap s) a) ->
  abs None (set_clients (set_heap s h') (<[u := c_mstate c [] false]> (clients s))) = snd (on_me (fun c => ac_queue c []) (abs X s)).
Proof.
  intros Hi HX Hc K Ho. unfold on_me, smod. cbn [snd]. unfold t_clients. cbn [abs a_dbs a_clients a_cur a_cmd a_args a_dirty a_log]. rewrite (i_cur _ _ _ _ Hi). unfold abs. cbn [dbs sheap clients cur cmd argv dirty propagated set_clients set_heap].
  assert (forall id c0, clients s !! id = Some c0 -> watched_names (text_at h') (c_watched c0) = watched_names (text_at (sheap s)) (c_watched c0)) as Hn.
  { intros id c0 Hc0. apply watched_names_ext. intros wk Hwk. apply repr_text, K. rewrite !elem_of_app. right. right. rewrite <- (i_wtab _ _ _ _ Hi). by eapply wrefs_client. }
  f_equal; [|  |by rewrite (i_cur _ _ _ _ Hi)|].
  - apply map_ext_in. intros db [d Hd]%list_elem_of_In%list_elem_of_lookup. apply db_kv_keeps. intros a [k Hk]%in_vals. apply K, elem_of_app. left. apply in_refs. by exists d, db, k.
  - apply map_eq. intros id. rewrite map_lookup_imap. destruct (decide (u = id)) as [<-|Hne].
    + rewrite lookup_insert_eq, lookup_alter_eq, map_lookup_imap, Hc. unfold abs_client, ac_queue. cbn. by rewrite (Hn u c Hc).
    + rewrite lookup_insert_ne, lookup_alter_ne, map_lookup_imap by done. destruct (clients s !! id) as [c'|] eqn:Hc'; [|done]. cbn. f_equal. unfold abs_client. rewrite !bool_decide_eq_false_2 by (destruct HX as [->| ->]; congruence). rewrite (Hn id c' Hc'). f_equal.
      apply map_ext_in. intros mc Hmc%list_elem_of_In. f_equal. apply map_ext_in. intros a Ha%list_elem_of_In. apply repr_text. eapply Ho; [by apply not_eq_sym|rewrite <- (i_queues _ _ _ _ Hi); unfold queues; by rewrite lookup_fmap, Hc'|exact Hmc|exact Ha].
  - apply map_ext_in. intros a Ha%list_elem_of_In. apply repr_text, K. rewrite !elem_of_app. tauto.
Qed.

Lemma drop_queue_run X q W u F F' V V' J args s c :
  inv X q W u F V [] J args s -> X = None \/ X = Some u -> clients s !! u = Some c -> F ≡ₚ queue_refs (mstate c) ++ F' ->
  (forall id l w mc a, id <> u -> q !! id = Some (l, w) -> mc ∈ l -> a ∈ mc_argv mc -> is_Some (V' !! a)) -> held_ok F' V' (sheap s) -> keeps_watched W V V' ->
  exists s', (freeClientMultiState;; initClientMultiState)%db s = Some (tt, s') /\ inv None (<[u := ([], false)]> q) W u F' V' [] J args s' /\
    abs None s' = snd (on_me (fun c => ac_queue c []) (abs X s)) /\ clients s' = <[u := c_mstate c [] false]> (clients s).
Proof.
  intros Hi HX Hc HF Hcov Hheld HK. destruct (me_run _ _ _ _ Hi) as (c0 & Hc0 & Rm & _). assert (c0 = c) as -> by congruence.
  assert (heap_ok (sheap s) (queue_refs (mstate c) ++ ([] ++ db_refs s ++ argv s ++ F'))) as Hh by (eapply heap_ok_proper; [|exact (i_heap _ _ _ _ Hi)]; rewrite HF; solve_Permutation).
  destruct (release_run _ _ _ Hh) as (h' & R1 & Hh' & K1). set (s1 := set_heap s h'). exists (set_clients s1 (<[u := c_mstate c [] false]> (clients s1))).
  assert (forall a x, V' !! a = Some x -> repr_at h' a = repr_at (sheap s) a) as KV by (intros a x Hx; destruct (Hheld a x Hx) as [HF' _]; apply K1; rewrite !elem_of_app; tauto). split; [|split; [|split; [|done]]].
  - unfold freeClientMultiState, initClientMultiState. unfold bind at 1 2. rewrite Rm, for_each_queue, R1. fold s1. assert (me s1 = Some (c, s1)) as Rm1 by (unfold me, get_client, bind, gets, lift; cbn; by rewrite (i_cur _ _ _ _ Hi), Hc).
    unfold bind. rewrite Rm1, put_me_run. unfold s1. cbn [cur set_heap]. by rewrite (i_cur _ _ _ _ Hi).
  - assert (inv (Some u) q W u F' V' [] J args s1) as Hi1.
    { destruct Hi as [I1 I2 HW I4 I5 I6 I7 I8 I9 I10 I11 I12]. apply (watch_ok_keep W V V' s I11 HK) in HW as [W1 W2 W3 W4 W5].
      constructor; [exact Hh'|exact I2|by constructor|exact I4|exact I5|exact I6|exact I7| | | |exact I11|intros a Ha; rewrite HK by done; by apply I12].
      - apply (has_args_keeps J args s); [done| |exact I8]. intros a Ha. apply K1. rewrite !elem_of_app. tauto.
      - intros id l w mc a Hq HXu Hmc Ha. apply (Hcov id l w mc a); [congruence|done..].
      - eapply held_keeps; [exact Hheld|]. intros a Ha. apply K1. rewrite !elem_of_app. tauto. }
    apply (inv_mstate (Some u) None q W u F' F' V' V' [] [] J args s1 c); [exact Hi1|exact Hc|exact Hh'| |exact (i_held _ _ _ _ Hi1)|done]. intros id l w mc a Hq _ Hmc Ha. destruct (decide (u = id)) as [<-|Hne].
    + rewrite lookup_insert_eq in Hq. injection Hq as <- <-. by apply elem_of_nil in Hmc.
    + rewrite lookup_insert_ne in Hq by done. apply (Hcov id l w mc a); [congruence|done..].
  - apply (abs_drop X q W u F V J args s c h'); [done|done|done| |].
    + intros a Ha. rewrite app_assoc in Ha. apply elem_of_app in Ha as [Ha|Ha]; [apply K1; rewrite !elem_of_app in *; tauto|]. destruct (i_wheld _ _ _ _ Hi a Ha) as [x Hx]. apply (KV a x). by rewrite HK.
    + intros id l w mc a Hne Hq Hmc Ha. destruct (Hcov id l w mc a Hne Hq Hmc Ha) as [x Hx]. by eapply KV.
Qed.

(** The queue of [u] is dropped and its keys are given up; [G] are the
    references of the other queues. *)
Lemma discard_run X q W u F G V V' J args s c :
  inv X q W u F V [] J args s -> X = None \/ X = Some u -> clients s !! u = Some c -> F ≡ₚ queue_refs (mstate c) ++ wrefs W ++ G ->
  (forall id l w mc a, id <> u -> q !! id = Some (l, w) -> mc ∈ l -> a ∈ mc_argv mc -> a ∈ G /\ is_Some (V' !! a)) -> held_ok (wrefs W ++ G) V' (sheap s) -> keeps_watched W V V' ->
  exists s' W2 V2, discardTransaction s = Some (tt, s') /\ inv None (<[u := ([], false)]> q) W2 u (wrefs W2 ++ G) V2 [] J args s' /\ abs None s' = snd (s_discard (abs X s)).
Proof.
  intros Hi HX Hc HF Hcov Hheld HK. destruct (drop_queue_run _ _ _ _ _ _ _ _ _ _ _ _ Hi HX Hc HF ltac:(intros id l w mc a H1 H2 H3 H4; by apply (Hcov id l w mc a)) Hheld HK) as (s1 & R1 & Hi1 & A1 & C1).
  destruct (me_run _ _ _ _ Hi1) as (c1 & Hc1 & Rm & _). destruct (put_me_sim _ _ _ _ _ (c_flags c1 false false false) (fun c => ac_flags c false false false) Hi1 Hc1) as ([] & s2 & R2 & A2 & Hi2 & _ & _ & C2); [done..|exact (i_db _ _ _ _ Hi1 u c1 Hc1)|].
  destruct (unwatchAll_run _ _ _ _ _ _ _ _ _ _ (c_flags c1 false false false) Hi2) as (s3 & V3 & R3 & Hi3 & A3 & _); [|by rewrite C2, lookup_insert_eq|].
  { intros id l w mc a Hq _ Hmc Ha. destruct (decide (u = id)) as [<-|Hne]; [rewrite lookup_insert_eq in Hq; injection Hq as <- <-; by apply elem_of_nil in Hmc|]. rewrite lookup_insert_ne in Hq by done. by apply (Hcov id l w mc a). }
  exists s3, (wtab s3), V3. split; [|split; [done|]].
  - unfold discardTransaction. unfold bind in R1. unfold bind. destruct (freeClientMultiState s) as [[[] s0]|]; [|done]. by rewrite R1, Rm, R2.
  - rewrite A3, A2, A1. unfold s_unwatch, s_discard. by rewrite !on_me_twice.
Qed.

(** With a queue that nobody executes, the others keep theirs. *)
Lemma discard_serving q W u V J args s :
  inv None q W u (wrefs W ++ qrefs q) V [] J args s -> queue_ok q -> sim None discardTransaction s_discard s (fun _ _ s' => serving u s').
Proof.
  intros Hi Hok. destruct (i_me _ _ _ _ Hi) as [c Hc]. pose proof (my_queue _ _ _ _ _ _ _ _ _ _ _ Hi Hc) as Hq. set (q' := <[u := ([], false)]> q).
  assert (qrefs q' ≡ₚ qrefs (delete u q)) as HP by (unfold q'; by rewrite qrefs_insert). pose proof (qrefs_delete q u _ _ Hq) as HPq.
  assert (forall a, a ∈ wrefs W ++ qrefs q' -> a ∈ wrefs W ++ qrefs q) as Hin by (intros a; rewrite HPq, !elem_of_app, HP; tauto).
  destruct (discard_run None q W u (wrefs W ++ qrefs q) (qrefs q') V (snap (sheap s) (wrefs W ++ qrefs q')) J args s c Hi) as (s1 & W1 & V1 & R1 & Hi1 & A1); [by left|done|rewrite HP, HPq; solve_Permutation|..].
  - intros id l w mc a Hne Hqi Hmc Ha. assert (a ∈ qrefs q') as Hq'. { apply in_qrefs. exists id, l, w, mc. split; [|done]. unfold q'. by rewrite lookup_insert_ne by congruence. }
    split; [done|]. exists (text_at (sheap s) a). apply lookup_snap. split; [apply elem_of_app; by right|done].
  - apply snap_held. intros a Ha. split; [done|]. eapply queue_strings; [exact Hi|by apply Hin].
  - eapply snap_keeps; [exact Hi|]. intros a Ha. split; [apply elem_of_app; by left|done].
  - exists tt, s1. split; [done|]. split; [done|]. eexists q', _, _, _, _. split; [exact Hi1|]. intros id l w. unfold q'. destruct (decide (u = id)) as [<-|Hne]; [|rewrite lookup_insert_ne by done; apply Hok].
    rewrite lookup_insert_eq. intros [= <- <-]. split; [done|]. intros mc H. by apply elem_of_nil in H.
Qed.

(** Steps that do not concern the queues. *)
Lemma serving_ends q W u V s (m : M unit) (p : Spec unit) : queue_ok q -> sim None m p s (@ends None q W u (wrefs W ++ qrefs q) V unit unit) -> sim None m p s (fun _ _ s' => serving u s').
Proof. intros Hok H. eapply sim_mono; [exact H|]. intros ? ? s1 (J & args & Hi). by exists q, W, V, J, args. Qed.

Lemma discard_command_sim q W u V J args s : inv None q W u (wrefs W ++ qrefs q) V [] J args s -> queue_ok q -> sim None discardCommand sDISCARD s (fun _ _ s' => serving u s').
Proof.
  intros Hi Hok. unfold discardCommand, sDISCARD. destruct (me_run _ _ _ _ Hi) as (c & Hc & Rm & Sm). eapply sim_left; [exact Rm|done|]. eapply sim_right; [exact Sm|]. cbn [abs_client a_multi].
  destruct (CLIENT_MULTI c); cbn [negb]; [|eapply serving_ends; [exact Hok|by eapply reply_end]]. apply sim_bind. eapply sim_mono; [by eapply discard_serving|]. intros [] [] s1 (q1 & W1 & V1 & J1 & args1 & Hi1 & Hok1).
  eapply serving_ends; [exact Hok1|by eapply reply_end].
Qed.

Lemma multi_sim X q W u F V J args s : inv X q W u F V [] J args s -> sim X multiCommand sMULTI s (@ends X q W u F V unit unit).
Proof.
  intros Hi. unfold multiCommand, sMULTI. destruct (me_run _ _ _ _ Hi) as (c & Hc & Rm & Sm). eapply sim_left; [exact Rm|done|]. eapply sim_right; [exact Sm|]. cbn [abs_client a_multi].
  destruct (CLIENT_MULTI c); [by eapply reply_end|]. apply sim_bind. eapply sim_mono; [eapply put_me_sim; [exact Hi|exact Hc|done|done|done|done|exact (i_db _ _ _ _ Hi u c Hc)]|]. intros [] [] s1 (Hi1 & _). by eapply reply_end.
Qed.

Lemma flag_sim X q W u F V J args s r : inv X q W u F V [] J args s -> sim X (flagTransaction;; addReply r)%db (s_flag;; s_reply r)%spec s (@ends X q W u F V unit unit).
Proof.
  intros Hi. apply sim_bind. unfold flagTransaction, s_flag. destruct (me_run _ _ _ _ Hi) as (c & Hc & Rm & _). eapply sim_left; [exact Rm|done|]. destruct (CLIENT_MULTI c) eqn:Em.
  - eapply sim_mono; [eapply put_me_sim; [exact Hi|exact Hc| |done|done|done|exact (i_db _ _ _ _ Hi u c Hc)]|]. { unfold abs_client. cbn [a_multi]. by rewrite Em. } intros [] [] s1 (Hi1 & _). by eapply reply_end.
  - exists tt, s. split; [done|]. split; [|by eapply reply_end]. unfold on_me, smod. cbn [snd]. cbn [abs a_cur]. rewrite (i_cur _ _ _ _ Hi).
    rewrite (alter_some _ _ u (abs_client (sheap s) (bool_decide (X = Some u)) c)) by (by rewrite lookup_abs_client, Hc). cbn [abs_client a_multi]. rewrite Em. rewrite insert_id by (by rewrite lookup_abs_client, Hc). by destruct (abs X s).
Qed.

(** ** WATCH *)

(** The queues are what refers to the arguments of commands that wait. *)
Lemma queued_qrefs q : queued_in None q (qrefs q).
Proof. intros id l w mc a Hq _ Hmc Ha. apply in_qrefs. by exists id, l, w, mc. Qed.

Definition watching (u : Z) (q : queue_map) (args : list (list Z)) (s : server) : Prop := exists W V, inv None q W u (wrefs W ++ qrefs q) V [] plain args s.

Lemma watching_serving u q args s : watching u q args s -> queue_ok q -> serving u s.
Proof. intros (W & V & Hi) Hok. by exists q, W, V, plain, args. Qed.

Lemma watch_key_sim u q args j k s :
  watching u q args s -> args !! j = Some k -> sim None (a <- arg j; watchForKey a)%db (s_watch k) s (fun _ _ s' => watching u q args s').
Proof.
  intros (W & V & Hi) Hj. destruct (arg_value _ _ _ _ _ _ Hi Hj) as (a & Ha & Ra & _ & Hin). destruct (i_args _ _ _ _ Hi) as [_ HA]. destruct (HA j a Ha) as (x & Hx & _ & Hs). assert (x = k) as -> by congruence.
  destruct (watch_key_run _ _ _ _ _ _ _ _ _ a k Hi (queued_qrefs q) Hin (Hs eq_refl)) as (s1 & V1 & R1 & Hi1 & A1 & _). exists tt, s1. split; [unfold bind; by rewrite Ra|]. split; [done|]. by eexists _, _.
Qed.

Lemma watch_sim q W u V args s :
  inv None q W u (wrefs W ++ qrefs q) V [] plain args s -> queue_ok q -> (2 <= length args)%nat -> sim None watchCommand (sWATCH args) s (fun _ _ s' => serving u s').
Proof.
  intros Hi Hok Hl. unfold watchCommand, sWATCH. destruct (me_run _ _ _ _ Hi) as (c & Hc & Rm & Sm). eapply sim_left; [exact Rm|done|]. eapply sim_right; [exact Sm|]. cbn [abs_client a_multi].
  destruct (CLIENT_MULTI c); [eapply serving_ends; [exact Hok|by eapply reply_end]|]. eapply sim_left; [by eapply argc_run|done|]. apply sim_bind. unfold for_args. rewrite step_one.
  apply (sim_mono _ _ _ (fun _ _ s' => watching u q args s')); [|intros [] [] s1 (W1 & V1 & Hi1); eapply serving_ends; [exact Hok|by eapply reply_end]]. eapply (loop_sim (at_arg args)); [by apply tail_args; lia| |by exists W, V].
  intros j k s1 Hj Hi1. eapply watch_key_sim; [exact Hi1|exact Hj].
Qed.

Lemma unwatch_command_sim q W u V J args s : inv None q W u (wrefs W ++ qrefs q) V [] J args s -> queue_ok q -> sim None unwatchCommand sUNWATCH s (fun _ _ s' => serving u s').
Proof.
  intros Hi Hok. unfold unwatchCommand, sUNWATCH. destruct (i_me _ _ _ _ Hi) as [c Hc]. destruct (unwatchAll_run _ _ _ _ _ _ _ _ _ _ c Hi (queued_qrefs q) Hc) as (s1 & V1 & R1 & Hi1 & A1 & _).
  apply sim_bind. exists tt, s1. split; [done|]. split; [done|]. eapply serving_ends; [exact Hok|]. by eapply unwatch_end.
Qed.

(** ** EXEC *)

(** The command and its arguments are replaced. *)
Lemma inv_switch X q W u F F' V V' E J J' args args' s cm l :
  inv X q W u F V E J args s -> argv s ++ F ≡ₚ l ++ F' -> held_ok F' V' (sheap s) ->
  (forall id l' w' mc a, q !! id = Some (l', w') -> X <> Some id -> mc ∈ l' -> a ∈ mc_argv mc -> is_Some (V' !! a)) -> keeps_watched W V V' -> has_args J' (set_cmd s cm l) args' ->
  inv X q W u F' V' E J' args' (set_cmd s cm l).
Proof.
  intros [I1 I2 HW I4 I5 I6 I7 I8 I9 I10 I11 I12] HP Hh HV HK HA. apply (watch_ok_keep W V V' s I11 HK) in HW as [W1 W2 W3 W4 W5].
  constructor; [|exact I2|by constructor|exact I4|exact I5|exact I6|exact I7|exact HA|exact HV|exact Hh|exact I11|intros a Ha; rewrite HK by done; by apply I12]. cbn. change (db_refs (set_cmd s cm l)) with (db_refs s).
  rewrite <- HP. exact I1.
Qed.

(** The state between two commands of the queue: [dn] is done, [l] is left, [R]
    are the other references, those of WATCH among them; the strings are those of the heap [h0]. *)
Definition executing (u : Z) (h0 : heap) (w : bool) (W : watch_tables) (R : list addr) (dn l : list multiCmd) (q : queue_map) (s : server) : Prop :=
  exists F V J args, inv (Some u) q W u F V [] J args s /\ q !! u = Some (dn ++ l, w) /\ argv s ++ F ≡ₚ queue_refs dn ++ queue_refs l ++ R /\
    (forall a, a ∈ queue_refs l ++ R -> sds_at (sheap s) a (text_at h0 a)) /\ forall a, a ∈ wrefs W -> a ∈ R.

Lemma queue_refs_app l k : queue_refs (l ++ k) = queue_refs l ++ queue_refs k.
Proof. unfold queue_refs. by rewrite map_app, concat_app. Qed.

Lemma queue_refs_cons mc l : queue_refs (mc :: l) = mc_argv mc ++ queue_refs l.
Proof. done. Qed.

(** A command of the queue is installed. *)
Lemma install_command u h0 w W R dn mc l q s :
  executing u h0 w W R dn (mc :: l) q s -> (forall id l' w' mc a, id <> u -> q !! id = Some (l', w') -> mc ∈ l' -> a ∈ mc_argv mc -> a ∈ R) ->
  inv (Some u) q W u (queue_refs dn ++ queue_refs l ++ R) (snap h0 (queue_refs l ++ R)) [] plain (map (text_at h0) (mc_argv mc)) (set_cmd s (mc_cmd mc) (mc_argv mc)) /\
  abs (Some u) (set_cmd s (mc_cmd mc) (mc_argv mc)) = t_cmd (abs (Some u) s) (mc_cmd mc) (map (text_at h0) (mc_argv mc)).
Proof.
  intros (F & V & J & args & Hi & Hq & HP & Hs & HWR) HR.
  assert (forall a, a ∈ mc_argv mc -> sds_at (sheap s) a (text_at h0 a)) as Hmc by (intros a Ha; apply Hs; rewrite queue_refs_cons, !elem_of_app; tauto). split.
  - eapply inv_switch; [exact Hi|rewrite HP, queue_refs_cons; solve_Permutation| | | |].
    + intros a x [Ha ->]%lookup_snap. split; [rewrite elem_of_app; by right|]. apply Hs. rewrite queue_refs_cons, !elem_of_app in *. tauto.
    + intros id l' w' mc' a Hq' HX Hmc' Ha. exists (text_at h0 a). apply lookup_snap. split; [|done]. apply elem_of_app. right. apply (HR id l' w' mc' a); [congruence|done..].
    + eapply snap_keeps; [exact Hi|]. intros a Ha%HWR. split; [apply elem_of_app; by right|]. symmetry. apply sds_text, Hs. rewrite !elem_of_app. tauto.
    + split; [by rewrite length_map|]. intros i a Ha. cbn in *. exists (text_at h0 a). rewrite list_lookup_fmap, Ha. split; [done|]. assert (a ∈ mc_argv mc) as Hin by (by eapply list_elem_of_lookup_2). split; [|intros _; by apply Hmc].
      destruct (Hmc a Hin) as (o & Ho & Hp). unfold value_at. rewrite Ho. cbn. unfold value_of. by rewrite Hp.
  - unfold abs, t_cmd. cbn. f_equal. apply map_ext_in. intros a Ha%list_elem_of_In. by apply sds_text, Hmc.
Qed.

(** After the command its vector, which may have changed, goes back to the queue. *)
Lemma store_command u h0 w W R dn mc l q J args s c :
  inv (Some u) q W u (queue_refs dn ++ queue_refs l ++ R) (snap h0 (queue_refs l ++ R)) [] J args s -> (forall a, a ∈ wrefs W -> a ∈ R) -> q !! u = Some (dn ++ mc :: l, w) -> clients s !! u = Some c ->
  let mc' := mk_multi (cmd s) (argv s) in
  exists s', put_me (c_mstate c (<[length dn := mc']> (mstate c)) (mstate_write c)) s = Some (tt, s') /\ abs (Some u) s' = abs (Some u) s /\
    executing u h0 w W R (dn ++ [mc']) l (<[u := (dn ++ mc' :: l, w)]> q) s'.
Proof.
  intros Hi HWR Hq Hc mc'. pose proof (my_queue _ _ _ _ _ _ _ _ _ _ _ Hi Hc) as Hq'. rewrite Hq in Hq'. injection Hq' as Em Ew.
  assert (<[length dn := mc']> (mstate c) = dn ++ mc' :: l) as El by (by rewrite <- Em, insert_app_r_alt, Nat.sub_diag by lia). rewrite El, <- Ew.
  exists (set_clients s (<[u := c_mstate c (dn ++ mc' :: l) w]> (clients s))). split; [by rewrite put_me_run, (i_cur _ _ _ _ Hi)|]. split.
  - rewrite abs_set_client. rewrite insert_id; [by destruct (abs (Some u) s)|]. rewrite lookup_abs_client, Hc. cbn. by rewrite bool_decide_eq_true_2.
  - eexists _, _, J, args. split; [|split; [|split; [|split; [|exact HWR]]]].
    + eapply inv_mstate; [exact Hi|exact Hc|exact (i_heap _ _ _ _ Hi)| |exact (i_held _ _ _ _ Hi)|done]. intros id l' w' mc0 a Hq0 HX Hmc Ha. rewrite lookup_insert_ne in Hq0 by congruence. by apply (i_queued _ _ _ _ Hi id l' w' mc0 a).
    + rewrite lookup_insert_eq. by rewrite <- app_assoc.
    + cbn. rewrite queue_refs_app. cbn. rewrite app_nil_r. solve_Permutation.
    + intros a Ha. apply (i_held _ _ _ _ Hi). by apply lookup_snap.
Qed.

Definition queue_texts (h : heap) (l : list multiCmd) : list (command * list (list Z)) := map (fun mc => (mc_cmd mc, map (text_at h) (mc_argv mc))) l.

Lemma exec_queue_sim e u h0 w W R : forall l dn q s must,
  executing u h0 w W R dn l q s -> (forall mc, mc ∈ l -> multi_ok mc) -> default [] (fst W !! u) = [] -> (forall id l' w' mc a, id <> u -> q !! id = Some (l', w') -> mc ∈ l' -> a ∈ mc_argv mc -> a ∈ R) ->
  sim (Some u) (exec_queue e l (length dn) must) (s_exec_queue e (queue_texts h0 l) must) s
    (fun x y s' => x = y /\ exists q' dn', executing u h0 w W R dn' [] q' s' /\ forall id, id <> u -> q' !! id = q !! id).
Proof.
  induction l as [|mc l IH]; intros dn q s must Hx Hok HNW HR; cbn [exec_queue queue_texts map s_exec_queue].
  - apply sim_ret. split; [done|]. by exists q, dn.
  - destruct (install_command _ _ _ _ _ _ _ _ _ _ Hx HR) as [Hi1 A1]. pose proof Hx as (_ & _ & _ & _ & _ & Hq & _ & _ & HWR). set (args := map (text_at h0) (mc_argv mc)) in *. set (s1 := set_cmd s (mc_cmd mc) (mc_argv mc)) in *.
    apply sim_bind. exists tt, s1. split; [done|]. split; [exact A1|]. cbn [fst snd]. fold args. apply sim_bind.
    apply (sim_mono _ _ _ (fun x y s' => x = y /\ inv (Some u) q W u (queue_refs dn ++ queue_refs l ++ R) (snap h0 (queue_refs l ++ R)) [] plain args s')).
    { destruct (negb must && negb (CMD_READONLY (mc_cmd mc))); [|by apply sim_ret]. unfold execCommandPropagateMulti. eapply sim_run; [apply bind_assoc|]. eapply db_sim; [exact Hi1|]. intros d _. apply sim_bind.
      eapply sim_mono; [by eapply propagate_sim|]. intros [] [] s2 (Hi2 & _). by apply sim_ret. }
    intros x y s2 [-> Hi2]. cbn beta. apply sim_bind. destruct (Hok mc) as [Hqu Hlen]; [left|].
    eapply sim_mono; [eapply call_sim, queued_sim; [exact Hi2|unfold args; by rewrite length_map|done|]|].
    { intros _ c0 Hc0. rewrite <- (i_wtab _ _ _ _ Hi2) in HNW. cbn in HNW. by rewrite lookup_fmap, Hc0 in HNW. } intros [] [] s3 (J3 & args3 & Hi3). cbn beta.
    eapply sim_left; [done|done|]. eapply sim_left; [done|done|]. destruct (me_run _ _ _ _ Hi3) as (c & Hc & Rm & _). eapply sim_left; [exact Rm|done|].
    destruct (store_command _ _ _ _ _ _ _ _ _ _ _ _ _ Hi3 HWR Hq Hc) as (s4 & R4 & A4 & Hx4). eapply sim_left; [exact R4|exact A4|].
    replace (S (length dn)) with (length (dn ++ [mk_multi (cmd s3) (argv s3)])) by (rewrite length_app; cbn; lia). eapply sim_mono; [eapply IH; [exact Hx4|intros mc0 H0; apply Hok; by right|exact HNW|]|].
    + intros id l' w' mc0 a Hne Hq0. rewrite lookup_insert_ne in Hq0 by congruence. by apply (HR id l' w').
    + intros x z s5 [-> (q' & dn' & Hx5 & Hsame)]. split; [done|]. exists q', dn'. split; [done|]. intros id Hne. rewrite Hsame by done. by apply lookup_insert_ne.
Qed.

(** Hiding the queue of the client that executes it. *)
Lemma abs_hide u s c : clients s !! u = Some c -> cur s = u -> abs (Some u) s = snd (on_me (fun c => ac_queue c []) (abs None s)).
Proof.
  intros Hc Hu. unfold on_me, smod. cbn [snd abs a_cur]. rewrite Hu. rewrite (alter_some _ _ u (abs_client (sheap s) false c)) by (by rewrite lookup_abs_client, Hc). unfold abs at 1, t_clients. cbn. f_equal; try done.
  apply map_eq. intros id. rewrite map_lookup_imap. destruct (decide (u = id)) as [<-|Hne]; [rewrite lookup_insert_eq, Hc; cbn; by rewrite bool_decide_eq_true_2|]. rewrite lookup_insert_ne, map_lookup_imap by done.
  destruct (clients s !! id) as [c'|]; [|done]. cbn. by rewrite !bool_decide_eq_false_2 by congruence.
Qed.

Lemma inv_hide q W u F V E J args s : inv None q W u F V E J args s -> inv (Some u) q W u F V E J args s.
Proof. intros [I1 I2 I3 I4 I5 I6 I7 I8 I9 I10 I11 I12]. constructor; [done..| |done|done|done]. intros id l w mc a Hq _. by apply (I9 id l w mc a Hq). Qed.

Lemma sbind_eq {A B} (m : Spec A) (k : A -> Spec B) t : sbind m k t = k (fst (m t)) (snd (m t)).
Proof. unfold sbind. by destruct (m t). Qed.

(** The queue is executed, from the state where its client no longer watches keys. *)
Lemma run_queue_sim e q W u V args s c :
  inv None q W u (wrefs W ++ qrefs q) V [] plain args s -> queue_ok q -> clients s !! u = Some c -> c_watched c = [] ->
  sim None (orig_argv <- gets argv;
            orig_cmd <- gets cmd;
            c <- me;
            addReply (R_multibulklen (zlen (mstate c)));;
            must_propagate <- exec_queue e (mstate c) 0 false;
            modify (fun s => set_cmd s orig_cmd orig_argv);;
            discardTransaction;;
            if must_propagate : bool then add_dirty 1 else ret tt)%db
           (on_me (fun c => ac_queue c []);;
            cm <- sgets a_cmd;
            args <- sgets a_args;
            s_reply (R_multibulklen (zlen (queue_texts (sheap s) (mstate c))));;
            must <- s_exec_queue e (queue_texts (sheap s) (mstate c)) false;
            smod (fun t => t_cmd t cm args);;
            s_discard;;
            if must : bool then s_dirty 1 else sret tt)%spec s (fun _ _ s' => serving u s').
Proof.
  intros Hi Hok Hc Hnw. set (h0 := sheap s). set (l := mstate c). pose proof (i_cur _ _ _ _ Hi) as Hu. pose proof (my_queue _ _ _ _ _ _ _ _ _ _ _ Hi Hc) as Hq. fold l in Hq. set (w := mstate_write c) in *.
  set (others := qrefs (delete u q)). pose proof (qrefs_delete q u l w Hq) as HP. fold others in HP. set (R := argv s ++ wrefs W ++ others). pose proof (inv_hide _ _ _ _ _ _ _ _ _ Hi) as Hi0.
  assert (abs (Some u) s = snd (on_me (fun c => ac_queue c []) (abs None s))) as A0 by (by eapply abs_hide).
  destruct (addReply_sim _ _ _ _ (R_multibulklen (zlen l)) Hi0) as ([] & s1 & R1 & A1 & Hi1 & (M1 & M1' & M1'') & C1).
  assert (executing u h0 w W R [] l q s1) as Hx1.
  { eexists _, _, _, _. split; [exact Hi1|]. split; [done|]. split; [rewrite M1'', HP; unfold R; cbn; solve_Permutation|]. rewrite M1. split; [|intros a Ha; unfold R; rewrite !elem_of_app; tauto]. intros a Ha.
    assert (exists x, sds_at (sheap s) a x) as [x Hx]. { unfold R in Ha. rewrite !elem_of_app in Ha. destruct Ha as [Ha|[Ha|Ha]]; [|by eapply argv_strings|]; (eapply queue_strings; [exact Hi|]; rewrite HP, !elem_of_app; tauto). }
    unfold h0. by rewrite (sds_text _ _ _ Hx). }
  destruct (exec_queue_sim e u h0 w W R l [] q s1 false Hx1) as (must & s2 & R2 & A2 & Em & q2 & dn & (F2 & V2 & J2 & args2 & Hi2 & Hq2 & HP2 & Hs2 & HWR) & Hsame).
  { intros mc Hmc. by apply (Hok u l w Hq). }
  { rewrite <- (i_wtab _ _ _ _ Hi). cbn. by rewrite lookup_fmap, Hc. }
  { intros id l' w' mc a Hne Hq' Hmc Ha. unfold R. rewrite !elem_of_app. right. right. apply in_qrefs. exists id, l', w', mc. split; [by rewrite lookup_delete_ne|done]. }
  cbn [queue_refs map concat app] in HP2, Hs2. rewrite app_nil_r in Hq2. set (s3 := set_cmd s2 (cmd s) (argv s)).
  assert (inv (Some u) q2 W u (queue_refs dn ++ wrefs W ++ others) (snap h0 (wrefs W ++ others)) [] plain args s3) as Hi3.
  { eapply inv_switch; [exact Hi2|rewrite HP2; unfold R; solve_Permutation| | | |].
    - intros a x [Ha ->]%lookup_snap. split; [apply elem_of_app; by right|]. apply Hs2. unfold R. apply elem_of_app. by right.
    - intros id l' w' mc a Hq' HX Hmc Ha. rewrite Hsame in Hq' by congruence. exists (text_at h0 a). apply lookup_snap. split; [|done]. apply elem_of_app. right. apply in_qrefs. exists id, l', w', mc. split; [rewrite lookup_delete_ne by congruence; done|done].
    - eapply snap_keeps; [exact Hi2|]. intros a Ha. split; [apply elem_of_app; by left|]. symmetry. by apply sds_text, Hs2, HWR.
    - destruct (i_args _ _ _ _ Hi) as [Hlen HA]. split; [done|]. cbn. intros i a Ha. destruct (HA i a Ha) as (x & Hxi & Hv & Hsx). exists x. split; [done|]. specialize (Hsx eq_refl).
      assert (sds_at (sheap s2) a x) as Hs by (rewrite <- (sds_text _ _ _ Hsx); apply Hs2; unfold R; apply elem_of_app; left; by eapply list_elem_of_lookup_2). split; [|done].
      destruct Hs as (o & Ho & Hp). unfold value_at. rewrite Ho. cbn. unfold value_of. by rewrite Hp. }
  assert (abs (Some u) s3 = t_cmd (abs (Some u) s2) (cmd s) args) as A3.
  { unfold s3, abs, t_cmd. cbn. f_equal. exact (args_text _ _ _ _ _ _ _ _ _ _ Hi3). }
  destruct (i_me _ _ _ _ Hi3) as [c3 Hc3]. pose proof (my_queue _ _ _ _ _ _ _ _ _ _ _ Hi3 Hc3) as Hq3. rewrite Hq2 in Hq3. injection Hq3 as Em3 _.
  set (q4 := <[u := ([], false)]> q2). assert (qrefs q4 ≡ₚ others) as HP4.
  { unfold q4, others. rewrite qrefs_insert. cbn. replace (delete u q2) with (delete u q); [done|]. apply map_eq. intros id. destruct (decide (u = id)) as [<-|Hne]; [by rewrite !lookup_delete_eq|]. rewrite !lookup_delete_ne by done. symmetry. by apply Hsame. }
  destruct (discard_run (Some u) q2 W u (queue_refs dn ++ wrefs W ++ others) (qrefs q4) (snap h0 (wrefs W ++ others)) (snap h0 (wrefs W ++ qrefs q4)) plain args s3 c3 Hi3) as (s4 & W4 & V4 & R4 & Hi4 & A4); [by right|done|by rewrite <- Em3, HP4|..].
  { intros id l' w' mc a Hne Hq' Hmc Ha. assert (a ∈ qrefs q4) as H4. { apply in_qrefs. exists id, l', w', mc. split; [unfold q4; by rewrite lookup_insert_ne by congruence|done]. } split; [done|]. exists (text_at h0 a). apply lookup_snap. split; [apply elem_of_app; by right|done]. }
  { intros a x [Ha ->]%lookup_snap. split; [done|]. apply (i_held _ _ _ _ Hi3). apply lookup_snap. split; [by rewrite <- HP4|done]. }
  { intros a Ha. transitivity (Some (text_at h0 a)); [|symmetry]; apply lookup_snap; (split; [apply elem_of_app; by left|done]). }
  assert (queue_ok q4) as Hok4.
  { intros id l' w'. unfold q4. destruct (decide (u = id)) as [<-|Hne]; [rewrite lookup_insert_eq; intros [= <- <-]; split; [done|]; intros mc H; by apply elem_of_nil in H|]. rewrite lookup_insert_ne, Hsame by congruence. apply Hok. }
  assert (sim None (if must : bool then add_dirty 1 else ret tt) (if must : bool then s_dirty 1 else sret tt) s4 (fun _ _ s' => serving u s')) as ([] & s5 & R5 & A5 & Q5).
  { eapply serving_ends; [exact Hok4|]. destruct must; [by eapply dirty_end|by eapply ret_end]. }
  exists tt, s5. split; [|split; [|done]].
  - unfold bind at 1 2. unfold gets. cbv beta iota. unfold bind at 1. destruct (me_run _ _ _ _ Hi) as (c0 & Hc0 & Rm & _). assert (c0 = c) as -> by congruence. rewrite Rm. fold l. unfold bind at 1. rewrite R1. unfold bind at 1.
    cbn [length] in R2. rewrite R2. unfold bind at 1. unfold modify. cbv beta iota. fold s3. unfold bind at 1. rewrite R4. exact R5.
  - repeat (rewrite sbind_eq; cbv beta). rewrite A5, A4, A3, A2, A1, A0, Em. fold (queue_texts h0 l). replace (zlen (queue_texts h0 l)) with (zlen l) by (unfold queue_texts, zlen; by rewrite length_map).
    unfold sgets, smod at 1. cbn [fst snd]. rewrite A1, A0. replace (a_args (snd (on_me (fun c => ac_queue c []) (abs None s)))) with args by (symmetry; exact (args_text _ _ _ _ _ _ _ _ _ _ Hi)). done.
Qed.

Lemma exec_sim e q W u V args s :
  inv None q W u (wrefs W ++ qrefs q) V [] plain args s -> queue_ok q -> sim None (execCommand e) (sEXEC e) s (fun _ _ s' => serving u s').
Proof.
  intros Hi Hok. unfold execCommand, sEXEC. destruct (me_run _ _ _ _ Hi) as (c & Hc & Rm & Sm). pose proof (my_queue _ _ _ _ _ _ _ _ _ _ _ Hi Hc) as Hq. destruct (Hok u _ _ Hq) as [Hw _].
  eapply sim_left; [exact Rm|done|]. eapply sim_right; [exact Sm|]. cbn [abs_client a_multi a_cas a_abort a_master a_queue]. rewrite bool_decide_eq_false_2 by done. fold (queue_texts (sheap s) (mstate c)).
  destruct (CLIENT_MULTI c); cbn [negb]; [|eapply serving_ends; [exact Hok|by eapply reply_end]].
  destruct (CLIENT_DIRTY_CAS c || CLIENT_DIRTY_EXEC c).
  { apply sim_bind. eapply sim_mono; [by eapply addReply_sim|]. intros [] [] s1 (Hi1 & _). by eapply discard_serving. }
  replace (existsb (fun p => CMD_WRITE (fst p)) (queue_texts (sheap s) (mstate c))) with (mstate_write c) by (rewrite Hw; unfold queue_texts; generalize (mstate c); intros l; induction l as [|mc l IH]; [done|]; cbn; by rewrite IH).
  destruct (masterhost e && repl_slave_ro e && negb (CLIENT_MASTER c) && mstate_write c).
  { apply sim_bind. eapply sim_mono; [by eapply addReply_sim|]. intros [] [] s1 (Hi1 & _). by eapply discard_serving. }
  destruct (unwatchAll_run _ _ _ _ _ _ _ _ _ _ c Hi (queued_qrefs q) Hc) as (s1 & V1 & R1 & Hi1 & A1 & C1 & _ & _ & _ & K1). apply sim_bind. exists tt, s1. split; [done|]. split; [done|].
  assert (clients s1 !! u = Some (c_watch c [])) as Hc1 by (by rewrite C1, lookup_insert_eq). replace (queue_texts (sheap s) (mstate c)) with (queue_texts (sheap s1) (mstate c)).
  - by eapply (run_queue_sim e q (wtab s1) u V1 args s1 (c_watch c [])).
  - apply map_ext_in. intros mc Hmc%list_elem_of_In. f_equal. apply map_ext_in. intros a Ha%list_elem_of_In. apply repr_text, K1, elem_of_app. right. apply in_qrefs. by exists u, (mstate c), (mstate_write c), mc.
Qed.

(** ** [processCommand] *)

Lemma call_serving u m p s : sim None m p s (fun _ _ s' => serving u s') -> sim None (call m) (s_call p) s (fun _ _ s' => serving u s').
Proof.
  intros (x & s1 & R1 & A1 & q & W & V & J & args & Hi & Hok). assert (sim None m p s (@ends None q W u (wrefs W ++ qrefs q) V unit unit)) as H by (exists x, s1; split; [done|]; split; [done|]; by exists J, args).
  by eapply serving_ends, call_sim.
Qed.

(** The command table. *)
Lemma table_arity name cm arity : lookupCommand name = Some (cm, arity) -> (0 <= arity -> Z.of_nat (least_args cm) = arity) /\ (arity < 0 -> Z.of_nat (least_args cm) = - arity).
Proof.
  unfold lookupCommand. destruct (head (filter _ redisCommandTable)) as [[[nm c] a]|] eqn:Eh; [|done]. cbn. intros [= <- <-].
  assert ((nm, c, a) ∈ redisCommandTable) as Hin. { destruct (filter _ redisCommandTable) as [|p l] eqn:Ef; [done|]. injection Eh as ->. assert ((nm, c, a) ∈ filter (fun p => bytes_of (fst (fst p)) = map tolower name) redisCommandTable) as H by (rewrite Ef; left). by apply list_elem_of_filter in H as [_ H]. }
  clear Eh. apply list_elem_of_In in Hin. cbn in Hin. repeat (destruct Hin as [[= <- <- <-]|Hin]; [cbn; lia|]). done.
Qed.

Lemma table_least name cm arity (n : nat) :
  lookupCommand name = Some (cm, arity) -> ((arity >? 0) && negb (arity =? Z.of_nat n)) || (Z.of_nat n <? - arity) = false -> (least_args cm <= n)%nat.
Proof.
  intros Ht Ha. destruct (table_arity _ _ _ Ht) as [H1 H2]. apply orb_false_iff in Ha as [Ha1 Ha2]. apply andb_false_iff in Ha1. destruct (decide (arity < 0)); [lia|]. specialize (H1 ltac:(lia)).
  destruct Ha1 as [Ha1|Ha1]; [lia|]. apply negb_false_iff, Z.eqb_eq in Ha1. lia.
Qed.

Lemma proc_sim e q W u V args s cm :
  inv None q W u (wrefs W ++ qrefs q) V [] plain args s -> queue_ok q -> (least_args cm <= length args)%nat -> sim None (proc e cm) (s_proc e cm args) s (fun _ _ s' => serving u s').
Proof.
  intros Hi Hok Hl. destruct (decide (cm = UNWATCH)) as [->|Hnu]; [by eapply unwatch_command_sim|]. destruct (queueable cm) eqn:Eq.
  - eapply serving_ends; [exact Hok|]. replace (proc e cm) with (queued_proc e cm) by (by destruct cm). replace (s_proc e cm args) with (s_queued e cm args) by (by destruct cm). by apply queued_sim.
  - destruct cm; try discriminate Eq; cbn [proc s_proc].
    + eapply serving_ends; [exact Hok|by eapply multi_sim].
    + by eapply exec_sim.
    + by eapply discard_command_sim.
    + by eapply watch_sim.
Qed.

Lemma ok_sim (m : M unit) (p : Spec unit) s (P : server -> Prop) : sim None m p s (fun _ _ s' => P s') -> sim None (answered m) p s (fun _ _ s' => P s').
Proof. intros ([] & s1 & R & A & H). exists true, s1. split; [unfold answered, bind; by rewrite R|done]. Qed.

Lemma close_sim q W u V args s : inv None q W u (wrefs W ++ qrefs q) V [] plain args s -> queue_ok q ->
  sim None (addReply R_ok;; c <- me; put_me (c_close c);; ret false)%db (s_reply R_ok;; on_me ac_close)%spec s (fun _ _ s' => serving u s').
Proof.
  intros Hi Hok. apply sim_bind. eapply sim_mono; [by eapply addReply_sim|]. intros [] [] s1 (Hi1 & _). destruct (me_run _ _ _ _ Hi1) as (c & Hc & Rm & _). eapply sim_left; [exact Rm|done|].
  destruct (put_me_sim (X := None) [] plain args s1 c (c_close c) ac_close Hi1 Hc) as ([] & s2 & R2 & A2 & Hi2 & _); [done..|exact (i_db _ _ _ _ Hi1 u c Hc)|]. exists false, s2. split; [unfold bind; by rewrite R2|]. split; [done|]. by exists q, W, V, plain, args.
Qed.

Lemma process_sim e q W u V args s :
  inv None q W u (wrefs W ++ qrefs q) V [] plain args s -> queue_ok q -> (1 <= length args)%nat -> sim None (processCommand e) (s_process e lookupCommand args) s (fun _ _ s' => serving u s').
Proof.
  intros Hi Hok Hl. unfold processCommand, s_process. eapply arg_sim; [exact Hi|lia|done|]. unfold s_quit. change (map tolower (c_string (argn args 0))) with (map lower (up_to_nul (argn args 0))). change (bytes_of "quit") with [113; 117; 105; 116].
  destruct (bool_decide _); [by eapply close_sim|]. eapply sim_left; [by eapply argc_run|done|].
  destruct (lookupCommand (argn args 0)) as [[cm arity]|] eqn:Et; [|eapply ok_sim, serving_ends; [exact Hok|by eapply flag_sim]].
  eapply sim_left; [done|done|]. cbv beta. apply sim_bind. set (s1 := set_cmd s cm (argv s)). assert (inv None q W u (wrefs W ++ qrefs q) V [] plain args s1) as Hi1.
  { eapply inv_switch; [exact Hi|done|exact (i_held _ _ _ _ Hi)|exact (i_queued _ _ _ _ Hi)|done|exact (i_args _ _ _ _ Hi)]. }
  exists tt, s1. split; [done|]. split; [unfold smod, abs, t_cmd; cbn; f_equal; exact (args_text _ _ _ _ _ _ _ _ _ _ Hi)|]. cbn [fst].
  destruct (((arity >? 0) && negb (arity =? zlen args)) || (zlen args <? - arity)) eqn:Ea; [eapply ok_sim, serving_ends; [exact Hok|by eapply flag_sim]|].
  pose proof (table_least _ _ _ (length args) Et Ea) as Hlen. destruct (me_run _ _ _ _ Hi1) as (c & Hc & Rm & Sm). eapply sim_left; [exact Rm|done|]. eapply sim_right; [exact Sm|]. cbn [abs_client a_master a_auth a_multi].
  destruct (refused e (CLIENT_MASTER c) (authenticated c) cm) as [[[|] r]|]; [eapply ok_sim, serving_ends; [exact Hok|by eapply flag_sim]| |].
  { eapply ok_sim, serving_ends; [exact Hok|]. eapply sim_left; [done|done|]. eapply sim_right; [done|]. by eapply reply_end. }
  match goal with |- context [if ?b then answered (bind queueMultiCommand _) else _] => destruct b eqn:Eb end; apply ok_sim; [|by apply call_serving, (proc_sim e q W u V)].
  apply sim_bind. eapply sim_mono; [eapply (queue_sim q W u V args s1); [exact Hi1|done| |exact Hlen]|intros [] [] s2 (q2 & W2 & V2 & J2 & args2 & Hi2 & Hok2); eapply serving_ends; [exact Hok2|by eapply reply_end]].
  cbn. destruct cm; try done; rewrite !andb_true_iff in Eb; destruct Eb as [[[[_ E1] E2] E3] E4]; done.
Qed.

(** ** Requests *)

(** The references of the server between two requests: those of the databases,
    of the tables of WATCH and of the queues. *)
Definition server_refs (s : server) : list addr := db_refs s ++ wrefs (wtab s) ++ qrefs (queues s).

Record idle (s : server) : Prop := {
  id_heap : heap_ok (sheap s) (server_refs s);
  id_deadlines d db k : dbs s !! d = Some db -> is_Some (expires db !! k) -> is_Some (dict db !! k);
  id_watch : watch_ok (text_at (sheap s)) s;
  id_db i c : clients s !! i = Some c -> is_Some (dbs s !! c_db c);
  id_strings a : a ∈ wrefs (wtab s) ++ qrefs (queues s) -> exists x, sds_at (sheap s) a x;
  id_queues : queue_ok (queues s);
  id_argv : argv s = [];
  id_dbs : (0 < length (dbs s))%nat;
}.

(** The strings that are held between two requests. *)
Definition idle_strings (s : server) : gmap addr (list Z) := snap (sheap s) (wrefs (wtab s) ++ qrefs (queues s)).

Lemma idle_inv s id :
  idle s -> is_Some (clients s !! id) -> inv None (queues s) (wtab s) id (wrefs (wtab s) ++ qrefs (queues s)) (idle_strings s) [] plain [] (set_cur s id).
Proof.
  intros [I1 I2 HW I4 I5 I6 I7 I8] Hc. assert (forall a, a ∈ wrefs (wtab s) -> idle_strings s !! a = Some (text_at (sheap s) a)) as HV by (intros a Ha; apply lookup_snap; split; [apply elem_of_app; by left|done]).
  apply (watch_ok_ext _ (held_text (idle_strings s))) in HW as [W1 W2 W3 W4 W5]; [|intros a Ha; unfold CommandsInv.held_text; by rewrite HV].
  constructor; [|exact I2|by constructor|done|done|exact Hc|exact I4| | | |done|intros a Ha; rewrite HV by done; by eexists].
  - change (argv (set_cur s id)) with (argv s). rewrite I7. exact I1.
  - split; cbn; rewrite I7; [done|]. by intros i a.
  - intros i l w mc a Hq _ Hmc Ha. exists (text_at (sheap s) a). apply lookup_snap. split; [|done]. apply elem_of_app. right. apply in_qrefs. by exists i, l, w, mc.
  - apply snap_held. intros a Ha. split; [done|]. by apply I5.
Qed.

Lemma idle_cur s id : idle s -> idle (set_cur s id).
Proof. intros [I1 I2 [W1 W2 W3 W4 W5] I4 I5 I6 I7 I8]. by constructor. Qed.

Lemma create_args_run q W u V J : forall args E s, inv None q W u (wrefs W ++ qrefs q) V E J [] s ->
  exists l s', create_args args s = Some (l, s') /\ abs None s' = abs None s /\ inv None q W u (wrefs W ++ qrefs q) V (l ++ E) J [] s' /\ Forall2 (sds_at (sheap s')) l args /\
    keeps_values E (sheap s) (sheap s') /\ argv s' = argv s /\ cmd s' = cmd s.
Proof.
  induction args as [|x args IH]; intros E s Hi; cbn [create_args]; [by exists [], s|]. destruct (createStringObject_ok _ _ x (i_heap _ _ _ _ Hi)) as (h1 & a & E1 & Hh1 & K1 & en & _ & Ha & _). set (s1 := set_heap s h1).
  assert (keeps_values (db_refs s ++ argv s ++ wrefs W ++ qrefs q) (sheap s) h1) as K by (intros b Hb; apply K1, elem_of_app; by right).
  assert (inv None q W u (wrefs W ++ qrefs q) V (a :: E) J [] s1) as Hi1 by (eapply inv_heap; [exact Hi|exact Hh1|exact K]). destruct (IH (a :: E) s1 Hi1) as (l & s2 & R2 & A2 & Hi2 & HF & K2 & V2 & C2).
  exists (a :: l), s2. split; [unfold bind, on_heap_new; rewrite E1; cbn [mbind option_bind]; fold s1; by rewrite R2|]. split; [rewrite A2; unfold s1; by eapply abs_heap|]. split; [eapply inv_perm; [|exact Hi2]; symmetry; apply Permutation_middle|].
  split; [constructor; [|done]|split; [|done]].
  - apply (repr_sds (sheap s1)); [apply K2; left|]. eexists. split; [exact Ha|done].
  - intros b Hb. rewrite K2 by (by right). apply K1, elem_of_app. by left.
Qed.

Lemma some_database X q W u F V E J args s : inv X q W u F V E J args s -> (0 < length (dbs s))%nat.
Proof. intros Hi. destruct (i_me _ _ _ _ Hi) as [c Hc]. destruct (i_db _ _ _ _ Hi u c Hc) as [db Hd]. apply lookup_lt_Some in Hd. lia. Qed.

(** The arguments are released at the end. *)
Lemma free_args_run u s : serving u s -> exists s', freeClientArgv s = Some (tt, s') /\ idle s' /\ abs None s' = t_cmd (abs None s) (cmd s) [].
Proof.
  intros (q & W & V & J & args & Hi & Hok). assert (heap_ok (sheap s) (argv s ++ (db_refs s ++ wrefs W ++ qrefs q))) as Hh by (eapply heap_ok_proper; [|exact (i_heap _ _ _ _ Hi)]; cbn; solve_Permutation).
  destruct (release_run _ _ _ Hh) as (h' & R1 & Hh' & K). set (s' := set_cmd (set_heap s h') (cmd s) []). exists s'. split; [unfold freeClientArgv, bind, gets; by rewrite R1|].
  assert (queues s' = q) as Hqs by exact (i_queues _ _ _ _ Hi). assert (wtab s' = W) as Hws by exact (i_wtab _ _ _ _ Hi). split; [|exact (abs_cmd _ _ _ _ _ _ [] Hi K)].
  assert (forall a, a ∈ wrefs W ++ qrefs q -> exists x, sds_at h' a x /\ sds_at (sheap s) a x) as Hs.
  { intros a Ha. destruct (queue_strings _ _ _ _ _ _ _ _ a Hi Ha) as [x Hx]. exists x. split; [|done]. eapply repr_sds; [|exact Hx]. apply K, elem_of_app. by right. }
  constructor.
  - unfold server_refs. rewrite Hqs, Hws. exact Hh'.
  - exact (i_deadlines _ _ _ _ Hi).
  - apply (watch_ok_ext (held_text V)); [|destruct (i_watch _ _ _ _ Hi) as [W1 W2 W3 W4 W5]; by constructor]. intros a Ha. rewrite Hws in Ha. destruct (Hs a) as (x & Hx & Hx0); [apply elem_of_app; by left|].
    symmetry. cbn. rewrite (sds_text _ _ _ Hx), <- (sds_text _ _ _ Hx0). apply sds_text. eapply wref_held; [exact Hi|by rewrite (i_wtab _ _ _ _ Hi)].
  - exact (i_db _ _ _ _ Hi).
  - rewrite Hqs, Hws. intros a Ha. destruct (Hs a Ha) as (x & Hx & _). by exists x.
  - by rewrite Hqs.
  - done.
  - exact (some_database _ _ _ _ _ _ _ _ _ _ Hi).
Qed.

Lemma request_refines e s id args :
  idle s -> is_Some (clients s !! id) -> args <> [] ->
  exists s', request e id args s = Some (tt, s') /\ idle s' /\ abs None s' = snd (s_request e lookupCommand id args (abs None s)).
Proof.
  intros Hs Hc Ha. pose proof (idle_inv s id Hs Hc) as Hi. pose proof (id_queues _ Hs) as Hok. set (q := queues s) in *. set (W := wtab s) in *. set (V := idle_strings s) in *.
  destruct (me_run _ _ _ _ Hi) as (c & Hc' & Rm & Sm). unfold request, s_request, bind at 1. unfold modify at 1. cbv beta iota. unfold bind at 1. rewrite Rm. do 2 (rewrite sbind_eq; cbv beta).
  change (snd (smod (fun t => t_cur t id) (abs None s))) with (abs None (set_cur s id)). rewrite Sm. cbn [fst snd abs_client a_closing]. destruct (CLIENT_CLOSE_AFTER_REPLY c).
  { exists (set_cur s id). split; [done|]. split; [by apply idle_cur|done]. }
  destruct (create_args_run _ _ _ _ _ args [] _ Hi) as (l & s1 & R1 & A1 & Hi1 & HF & _ & V1 & C1). set (s2 := set_cmd s1 (cmd s1) l). rewrite app_nil_r in Hi1.
  assert (inv None q W id (wrefs W ++ qrefs q) V [] plain args s2) as Hi2.
  { assert (s2 = set_cmd (set_heap s1 (sheap s1)) (cmd s1) l) as -> by (unfold s2; by destruct s1). eapply inv_argv; [exact Hi1| |done|].
    - cbn. eapply heap_ok_proper; [|exact (i_heap _ _ _ _ Hi1)]. rewrite V1. cbn. rewrite (id_argv _ Hs). cbn. solve_Permutation.
    - split; [by apply Forall2_length in HF|]. cbn. intros i a Hia. destruct (Forall2_lookup_l _ _ _ _ _ HF Hia) as (x & Hx & Hsx). exists x. split; [done|]. split; [|done]. destruct Hsx as (o & Ho & Hp). unfold value_at. rewrite Ho. cbn. unfold value_of. by rewrite Hp. }
  assert (abs None s2 = t_cmd (abs None (set_cur s id)) (cmd s) args) as A2 by (rewrite <- A1; unfold s2, abs, t_cmd; cbn; rewrite C1; f_equal; exact (args_text _ _ _ _ _ _ _ _ _ _ Hi2)).
  destruct (process_sim e q W id V args s2 Hi2 Hok) as (b & s3 & R3 & A3 & Q3); [destruct args; [done|cbn; lia]|]. destruct (free_args_run _ _ Q3) as (s4 & R4 & Hid & A4). exists s4. split; [|split; [done|]].
  - unfold bind at 1. rewrite R1. unfold bind at 1. unfold gets at 1. unfold bind at 1. unfold modify. fold s2. unfold bind at 1. rewrite R3. exact R4.
  - rewrite A4. assert (cmd s3 = a_cmd (abs None s3)) as -> by done. rewrite A3, A2. by repeat (rewrite sbind_eq; cbv beta).
Qed.

(** ** Connections *)

Lemma connect_refines s id :
  idle s -> clients s !! id = None -> exists s', connect id s = Some (tt, s') /\ idle s' /\ abs None s' = snd (s_connect id (abs None s)).
Proof.
  intros [I1 I2 [W1 W2 W3 W4 W5] I4 I5 I6 I7 Hd] Hc. set (s' := set_clients s (<[id := createClient]> (clients s))). exists s'. split; [done|].
  assert (queues s' = <[id := ([], false)]> (queues s)) as Hq by (unfold queues, s'; cbn; by rewrite fmap_insert).
  assert (queues s !! id = None) as Hn by (unfold queues; by rewrite lookup_fmap, Hc).
  assert (qrefs (queues s') ≡ₚ qrefs (queues s)) as HP by (rewrite Hq, qrefs_insert, delete_id by done; done).
  assert (wrefs (wtab s') ≡ₚ wrefs (wtab s)) as HPW. { unfold wrefs, wtab, s'. cbn. rewrite fmap_insert, client_wrefs_insert, delete_id by (by rewrite lookup_fmap, Hc). done. }
  split.
  - constructor; [eapply heap_ok_proper; [|exact I1]; unfold server_refs; by rewrite HP, HPW|exact I2| | |intros a Ha; apply I5; by rewrite <- HP, <- HPW| |exact I7|exact Hd].
    + constructor; [| |exact W3| |exact W5].
      * intros d db k a ids i Hdb Hk Hin. destruct (W1 d db k a ids i Hdb Hk Hin) as (c & Hci & Hw). exists c. cbn. rewrite lookup_insert_ne by congruence. done.
      * cbn. intros i c d k [[<- <-]|[_ H]]%lookup_insert_Some Hin; [by apply elem_of_nil in Hin|by apply (W2 i c)].
      * cbn. intros i c [[<- <-]|[_ H]]%lookup_insert_Some; [apply NoDup_nil_2|by apply (W4 i)].
    + cbn. intros i c [[<- <-]|[_ H]]%lookup_insert_Some; [by apply lookup_lt_is_Some|by apply (I4 i)].
    + rewrite Hq. intros i l w [[<- [= <- <-]]|[_ H]]%lookup_insert_Some; [|by apply (I6 i)]. split; [done|]. intros mc H. by apply elem_of_nil in H.
  - unfold s_connect, smod, abs, t_clients. cbn. f_equal. rewrite map_imap_insert. done.
Qed.

(** What a client that goes leaves behind. *)
Lemma abs_gone q W u F V J args s h' :
  inv None q W u F V [] J args s -> keeps_values (db_refs s ++ wrefs W ++ qrefs (delete u q)) (sheap s) h' ->
  abs None (set_clients (set_heap (set_cmd s (cmd s) []) h') (delete u (clients s))) = t_cmd (t_clients (abs None s) (delete u (a_clients (abs None s)))) (cmd s) [].
Proof.
  intros Hi K. unfold abs, t_cmd, t_clients. cbn. f_equal.
  - apply map_ext_in. intros db Hdb%list_elem_of_In. apply db_kv_keeps. intros a [k Hk]%in_vals. apply K, elem_of_app. left. apply list_elem_of_lookup in Hdb as [d Hd]. apply in_refs. by exists d, db, k.
  - apply map_eq. intros id. rewrite map_lookup_imap. destruct (decide (u = id)) as [<-|Hne]; [by rewrite !lookup_delete_eq|]. rewrite !lookup_delete_ne by done. rewrite map_lookup_imap. destruct (clients s !! id) as [c|] eqn:Hc; [|done]. cbn. f_equal.
    unfold abs_client. rewrite bool_decide_eq_false_2 by done. f_equal.
    + apply map_ext_in. intros mc Hmc%list_elem_of_In. f_equal. apply map_ext_in. intros a Ha%list_elem_of_In. apply repr_text, K. rewrite !elem_of_app. right. right.
      apply in_qrefs. exists id, (mstate c), (mstate_write c), mc. split; [|done]. rewrite lookup_delete_ne by done. by eapply my_queue_of.
    + apply watched_names_ext. intros wk Hwk. apply repr_text, K. rewrite !elem_of_app. right. left. rewrite <- (i_wtab _ _ _ _ Hi). by eapply wrefs_client.
Qed.

(** The tables without a client that watches no key. *)
Lemma gone_wrefs s s' u c : clients s !! u = Some c -> c_watched c = [] -> clients s' = delete u (clients s) -> dbs s' = dbs s -> wrefs (wtab s') ≡ₚ wrefs (wtab s).
Proof.
  intros Hc Hw Hs Hd. unfold wrefs, wtab. cbn [fst snd]. rewrite Hs, Hd, fmap_delete.
  assert (c_watched <$> clients s = <[u := []]> (c_watched <$> clients s)) as E by (symmetry; apply insert_id; rewrite lookup_fmap, Hc; cbn; by rewrite Hw). rewrite E at 2. by rewrite client_wrefs_insert.
Qed.

Lemma disconnect_refines s id :
  idle s -> is_Some (clients s !! id) -> exists s', freeClient id s = Some (tt, s') /\ idle s' /\ abs None s' = snd (s_disconnect id (abs None s)).
Proof.
  intros Hs [c Hc]. pose proof (idle_inv s id Hs (mk_is_Some _ _ Hc)) as Hi. pose proof (id_queues _ Hs) as Hok. set (q := queues s) in *.
  destruct (unwatchAll_run _ _ _ _ _ _ _ _ _ _ c Hi (queued_qrefs q) Hc) as (s1 & V & R1 & Hi1 & A1 & C1 & V1 & K1 & _ & _). cbn in C1, V1, K1. rewrite (id_argv _ Hs) in V1. set (W := wtab s1) in *.
  assert (clients s1 !! id = Some (c_watch c [])) as Hc1 by (by rewrite C1, lookup_insert_eq). pose proof (my_queue _ _ _ _ _ _ _ _ _ _ _ Hi1 Hc1) as Hq. cbn in Hq.
  assert (heap_ok (sheap s1) (queue_refs (mstate c) ++ (db_refs s1 ++ wrefs W ++ qrefs (delete id q)))) as Hh.
  { eapply heap_ok_proper; [|exact (i_heap _ _ _ _ Hi1)]. rewrite V1, (qrefs_delete q id _ _ Hq). cbn. solve_Permutation. }
  set (s2 := set_cmd s1 (cmd s1) []). destruct (release_run _ (queue_refs (mstate c)) s2 Hh) as (h' & R3 & Hh' & K3). cbn in K3. set (s4 := set_clients (set_heap s2 h') (delete id (clients s1))). exists s4.
  assert (queues s4 = delete id q) as Hqs by (rewrite <- (i_queues _ _ _ _ Hi1); unfold queues, s4; cbn; apply fmap_delete).
  assert (wrefs (wtab s4) ≡ₚ wrefs W) as HPW by (by eapply gone_wrefs).
  assert (forall a, a ∈ wrefs W ++ qrefs (delete id q) -> exists x, sds_at h' a x /\ sds_at (sheap s1) a x) as Hstr.
  { intros a Ha. destruct (queue_strings _ _ _ _ _ _ _ _ a Hi1) as [x Hx]; [rewrite (qrefs_delete q id _ _ Hq); rewrite !elem_of_app in *; tauto|]. exists x. split; [|done]. eapply repr_sds; [|exact Hx]. apply K3, elem_of_app. by right. }
  split; [|split].
  - unfold freeClient, bind at 1. unfold modify at 1. cbv beta iota. unfold bind at 1. rewrite R1. unfold bind at 1. unfold freeClientArgv. unfold bind at 1. unfold gets at 1. rewrite V1. cbn [for_each]. unfold bind at 1 2. unfold ret, gets, modify.
    fold s2. unfold bind, freeClientMultiState, bind. assert (me s2 = Some (c_watch c [], s2)) as -> by (unfold me, get_client, bind, gets, lift; cbn; by rewrite (i_cur _ _ _ _ Hi1), Hc1). rewrite for_each_queue. cbn [mstate c_watch]. by rewrite R3.
  - assert (watch_ok (text_at h') s1) as [W1 W2 W3 W4 W5].
    { apply (watch_ok_ext (held_text V)); [|exact (i_watch _ _ _ _ Hi1)]. intros a Ha. destruct (Hstr a) as (x & Hx & Hx0); [apply elem_of_app; by left|]. rewrite (sds_text _ _ _ Hx), <- (sds_text _ _ _ Hx0). symmetry. apply sds_text. by eapply wref_held. }
    constructor; [unfold server_refs; rewrite Hqs, HPW; exact Hh'|exact (i_deadlines _ _ _ _ Hi1)| | | | |done|exact (some_database _ _ _ _ _ _ _ _ _ _ Hi1)].
    + constructor; cbn; [|intros i x d k [_ Hx]%lookup_delete_Some; by apply (W2 i x)|exact W3|intros i x [_ Hx]%lookup_delete_Some; by apply (W4 i)|exact W5].
      intros d db k a ids i Hdb Hk Hin. destruct (W1 d db k a ids i Hdb Hk Hin) as (x & Hx & Hw). exists x. split; [|done]. apply lookup_delete_Some. split; [|done]. intros <-. rewrite Hc1 in Hx. injection Hx as <-. by apply elem_of_nil in Hw.
    + cbn. intros i x [_ Hx]%lookup_delete_Some. by apply (i_db _ _ _ _ Hi1 i).
    + rewrite Hqs. intros a Ha. rewrite HPW in Ha. destruct (Hstr a Ha) as (x & Hx & _). by exists x.
    + rewrite Hqs. intros i l w [_ Hl]%lookup_delete_Some. by apply (Hok i).
  - unfold s4, s2. rewrite (abs_gone q W id _ V plain [] s1 h' Hi1 K3). rewrite A1, K1. unfold s_unwatch, s_disconnect, on_me, smod. cbn [snd]. unfold t_clients, t_cmd, t_cur. cbn. f_equal. apply map_eq. intros i.
    destruct (decide (id = i)) as [<-|Hne]; [by rewrite !lookup_delete_eq|]. by rewrite !lookup_delete_ne, lookup_alter_ne.
Qed.

(** ** The server at its start *)

(** [dbnum] empty databases, and no client. *)
Definition initServer (dbnum : nat) : server := mk_server createSharedObjects (replicate dbnum (mk_db ∅ ∅ ∅)) ∅ 0 GET [] 0 [].

Definition shared_integer (v : Z) : redisObject := mk_obj OBJ_STRING OBJ_ENCODING_INT (PtrInt v) OBJ_SHARED_REFCOUNT.

Lemma lookup_integers n a o :
  (list_to_map (map (fun v => (shared_integers v, shared_integer v)) (map Z.of_nat (seq 0 n))) : gmap addr redisObject) !! a = Some o <-> 0 <= a < Z.of_nat n /\ o = shared_integer a.
Proof.
  rewrite <- elem_of_list_to_map.
  - rewrite list_elem_of_fmap. split.
    + intros (v & [= -> ->] & Hv). apply list_elem_of_fmap in Hv as (m & -> & Hm). apply elem_of_seq in Hm. unfold shared_integers. split; [lia|done].
    + intros [Ha ->]. exists a. split; [done|]. apply list_elem_of_fmap. exists (Z.to_nat a). split; [lia|]. apply elem_of_seq. lia.
  - rewrite <- list_fmap_compose. rewrite (list_fmap_ext _ (fun v => v)) by done. rewrite list_fmap_id. apply (NoDup_fmap_2 Z.of_nat). apply NoDup_ListNoDup, seq_NoDup.
Qed.

Lemma shared_heap_ok : heap_ok createSharedObjects [].
Proof.
  assert (forall a, cells createSharedObjects !! a = if decide (a = shared_del) then Some (mk_obj OBJ_STRING OBJ_ENCODING_EMBSTR (PtrSds DEL_name) OBJ_SHARED_REFCOUNT) else
    if decide (0 <= a < OBJ_SHARED_INTEGERS) then Some (shared_integer a) else None) as H.
  { intros a. unfold createSharedObjects. cbn [cells]. case_decide as Hd; [subst a; apply lookup_insert_eq|]. rewrite lookup_insert_ne by congruence. apply option_eq. intros o. fold shared_integer. rewrite (lookup_integers (Z.to_nat OBJ_SHARED_INTEGERS) a o).
    rewrite Z2Nat.id by done. case_decide; [split; [by intros [_ ->]|by intros [= <-]]|split; [tauto|done]]. }
  assert (brk createSharedObjects = OBJ_SHARED_INTEGERS + 1) as Hb by done. generalize dependent createSharedObjects. intros h H Hb.
  assert (forall a o, cells h !! a = Some o -> a < brk h /\ object_ok o /\ refcount o = OBJ_SHARED_REFCOUNT) as Hall.
  { intros a o. rewrite H, Hb. case_decide as Hd; [intros [= <-]; subst a; unfold shared_del; split; [lia|done]|]. case_decide as Hr; [|done]. intros [= <-]. split; [lia|]. split; [|done]. split; [done|]. split; [done|].
    cbn. unfold in_s, OBJ_SHARED_INTEGERS in *. lia. }
  constructor; [intros a o Ho; destruct (Hall a o Ho) as (? & ? & _); done|intros a o Ho; left; apply (Hall a o Ho)|intros a Ha; by apply elem_of_nil in Ha| |].
  - intros v Hv. rewrite H. unfold shared_integers. rewrite decide_False by (unfold shared_del; lia). by rewrite decide_True.
  - rewrite H. by rewrite decide_True.
Qed.

Lemma init_wrefs dbnum : wrefs (wtab (initServer dbnum)) = [].
Proof.
  unfold wrefs, wtab, client_wrefs. cbn [initServer clients dbs fst snd]. rewrite fmap_empty, map_to_list_empty. cbn. induction dbnum as [|n IH]; [done|]. cbn. rewrite IH. unfold table_wrefs. by rewrite map_to_list_empty.
Qed.

Lemma init_idle dbnum : (0 < dbnum)%nat -> idle (initServer dbnum).
Proof.
  intros Hn. assert (forall d db, dbs (initServer dbnum) !! d = Some db -> db = mk_db ∅ ∅ ∅) as Hd by (intros d db [-> _]%lookup_replicate; done).
  assert (queues (initServer dbnum) = ∅) as Hq by (unfold queues; cbn; apply fmap_empty).
  assert (db_refs (initServer dbnum) = []) as Hr. { unfold db_refs, refs_of. cbn. clear. induction dbnum as [|n IH]; [done|]. cbn. rewrite IH, app_nil_r. unfold vals. cbn. by rewrite map_to_list_empty. }
  assert (qrefs (queues (initServer dbnum)) = []) as Hqr by (rewrite Hq; unfold qrefs; by rewrite map_to_list_empty).
  assert (forall d db k x, dbs (initServer dbnum) !! d = Some db -> watched_keys db !! k = Some x -> False) as Hnone by (intros d db k x Hdb Hk; rewrite (Hd _ _ Hdb) in Hk; cbn in Hk; by rewrite lookup_empty in Hk).
  assert (forall j c, clients (initServer dbnum) !! j = Some c -> False) as Hnc by (intros j c Hj; cbn in Hj; by rewrite lookup_empty in Hj).
  constructor; [unfold server_refs; rewrite Hr, Hqr, init_wrefs; exact shared_heap_ok|intros d db k Hdb [x Hx]; rewrite (Hd _ _ Hdb) in Hx; cbn in Hx; by rewrite lookup_empty in Hx| |intros j c Hj; by apply Hnc in Hj|rewrite Hqr, init_wrefs; intros a Ha; by apply elem_of_nil in Ha| |done|cbn; by rewrite length_replicate].
  - constructor; [intros d db k a l id Hdb Hk; by destruct (Hnone _ _ _ _ Hdb Hk)|intros j c d k Hj; by apply Hnc in Hj|intros d db k a l Hdb Hk; by destruct (Hnone _ _ _ _ Hdb Hk)|intros j c Hj; by apply Hnc in Hj|intros d db k a l Hdb Hk; by destruct (Hnone _ _ _ _ Hdb Hk)].
  - rewrite Hq. intros j l w Hj. by rewrite lookup_empty in Hj.
Qed.
