(* ===== verification/Watching.v ===== *)
(** * Watched keys and histories of requests

    Histories of requests on the server and on the abstract key space, and what
    WATCH guarantees: a small logic for the specifications of the commands shows
    that whoever changes a key tells the clients that watch it. *)

From S2P Require Import Prelude Numstr Objects Db Keyspace Commands CommandsInv CommandsRefine WatchTables Requests.
From stdpp Require Import strings options.
#[local] Open Scope Z_scope.
#[local] Open Scope spec_scope.

(** ** What every step of the specification keeps *)

Section Shaped.
(** [ok] holds for the commands that are put into queues. *)
Context {ok : command * list (list Z) -> Prop}.

(** The clients and the number of databases stay; queues get only such commands. *)
Record same_shape (t t' : astate) : Prop := {
  ss_clients : a_master <$> a_clients t' = a_master <$> a_clients t;
  ss_dbs : length (a_dbs t') = length (a_dbs t);
  ss_queues j c' : a_clients t' !! j = Some c' -> exists c, a_clients t !! j = Some c /\ forall p, p ∈ a_queue c' -> p ∈ a_queue c \/ ok p;
}.
Definition shaped {A} (m : Spec A) : Prop := forall t, same_shape t (snd (m t)).

Lemma same_shape_refl t : same_shape t t.
Proof using Type. constructor; [done|done|]. intros j c' H. exists c'. split; [done|]. by left. Qed.

Lemma same_shape_trans t1 t2 t3 : same_shape t1 t2 -> same_shape t2 t3 -> same_shape t1 t3.
Proof using Type.
  intros [A1 A2 A3] [B1 B2 B3]. constructor; [congruence|congruence|]. intros j c' H. destruct (B3 j c' H) as (c1 & H1 & Q1). destruct (A3 j c1 H1) as (c & H0 & Q0). exists c. split; [done|]. intros p Hp. destruct (Q1 p Hp); [by apply Q0|by right].
Qed.

Lemma shaped_ret {A} (x : A) : shaped (sret x).
Proof using Type. intros t. apply same_shape_refl. Qed.

Lemma shaped_gets {A} (f : astate -> A) : shaped (sgets f).
Proof using Type. intros t. apply same_shape_refl. Qed.

Lemma shaped_bind {A B} (m : Spec A) (k : A -> Spec B) : shaped m -> (forall x, shaped (k x)) -> shaped (sbind m k).
Proof using Type. intros Hm Hk t. rewrite sbind_eq. eapply same_shape_trans; [apply Hm|apply Hk]. Qed.

Lemma shaped_on_me f : (forall c p, p ∈ a_queue (f c) -> p ∈ a_queue c \/ ok p) -> (forall c, a_master (f c) = a_master c) -> shaped (on_me f).
Proof using Type.
  intros Hf Hm t. constructor; [|done|].
  { cbn. apply map_eq. intros j. rewrite !lookup_fmap. destruct (decide (a_cur t = j)) as [<-|Hne]; [|by rewrite lookup_alter_ne]. rewrite lookup_alter_eq. destruct (a_clients t !! a_cur t); [cbn; by rewrite Hm|done]. }
  intros j c' H. cbn in H. destruct (decide (a_cur t = j)) as [<-|Hne]; [|rewrite lookup_alter_ne in H by done; exists c'; split; [done|]; by left].
  rewrite lookup_alter_eq in H. destruct (a_clients t !! a_cur t) as [c|]; [|done]. injection H as <-. exists c. split; [done|]. apply Hf.
Qed.

Lemma shaped_mod f : (forall t, a_clients (f t) = a_clients t) -> (forall t, length (a_dbs (f t)) = length (a_dbs t)) -> shaped (smod f).
Proof using Type. intros H1 H2 t. destruct (same_shape_refl t) as [E1 E2 E3]. constructor; cbn; [by rewrite H1|apply H2|rewrite H1; exact E3]. Qed.

Lemma shaped_put d m : shaped (s_put_db d m).
Proof using Type. intros t. destruct (same_shape_refl t) as [H1 H2 H3]. constructor; [done|cbn; apply length_insert|exact H3]. Qed.

Lemma shaped_notice f : (forall t c, a_queue (f t c) = a_queue c) -> (forall t c, a_master (f t c) = a_master c) -> shaped (smod (fun t => t_clients t (f t <$> a_clients t))).
Proof using Type.
  intros Hf Hm t. constructor; [cbn; rewrite <- map_fmap_compose; apply map_fmap_ext; intros i c _; apply Hm|done|]. intros j c' H. cbn in H. rewrite lookup_fmap in H. destruct (a_clients t !! j) as [c|]; [|done]. injection H as <-. exists c. split; [done|]. rewrite Hf. by left.
Qed.

Lemma shaped_touch d k : shaped (s_touch d k).
Proof using Type. apply shaped_notice; intros t c; unfold notice; by case_match. Qed.

Lemma shaped_touch_flush d : shaped (s_touch_flush d).
Proof using Type. apply shaped_notice; intros t c; unfold notice_flush; by case_match. Qed.

Lemma shaped_for {A} (f : A -> Spec unit) l : (forall x, shaped (f x)) -> shaped (sfor l f).
Proof using Type. intros Hf. induction l as [|x l IH]; cbn [sfor]; [apply shaped_ret|]. by apply shaped_bind. Qed.
End Shaped.

Create HintDb shape.
#[export] Hint Resolve shaped_ret shaped_gets shaped_bind shaped_put shaped_touch shaped_touch_flush shaped_for : shape.
#[export] Hint Extern 2 (shaped (smod _)) => (apply shaped_mod; intros ?; reflexivity) : shape.
#[export] Hint Extern 2 (shaped (on_me _)) => (apply shaped_on_me; [intros ? ?; repeat case_match; cbn; rewrite ?elem_of_nil; tauto|intros ?; repeat case_match; done]) : shape.

Ltac shape_step :=
  match goal with
  | |- shaped (sbind _ _) => apply shaped_bind; [|intros ?]
  | |- shaped (sfor _ _) => apply shaped_for; intros ?
  | |- shaped (match _ with _ => _ end) => case_match
  | _ => solve [eauto with shape]
  end.
Ltac shape := intros; repeat shape_step.

Section Shape.
Context {ok : command * list (list Z) -> Prop} (e : env).
#[local] Abbreviation shaped := (@shaped ok _).

Lemma shaped_expire d k : shaped (s_expire e d k).
Proof using Type. unfold s_expire, s_log, s_db. shape. Qed.
#[local] Hint Resolve shaped_expire : shape.
Lemma shaped_find d k : shaped (s_find e d k).
Proof using Type. unfold s_find, s_lookup, s_db. shape. Qed.
Lemma shaped_read d k : shaped (s_read e d k).
Proof using Type. unfold s_read, s_lookup, s_db, s_me. shape. Qed.
Lemma shaped_store d k x : shaped (s_store d k x).
Proof using Type. unfold s_store, s_db. shape. Qed.
Lemma shaped_delete d k : shaped (s_delete d k).
Proof using Type. unfold s_delete, s_db. shape. Qed.
#[local] Hint Resolve shaped_find shaped_read shaped_store shaped_delete : shape.
Lemma shaped_set d k s : shaped (s_set e d k s).
Proof using Type. unfold s_set. shape. Qed.
#[local] Hint Resolve shaped_set : shape.
Lemma shaped_any d l : shaped (s_any e d l).
Proof using Type. induction l; cbn [s_any]; shape. Qed.
Lemma shaped_del d l : forall n, shaped (s_del e d l n).
Proof using Type. induction l; cbn [s_del]; intros; unfold s_dirty; shape. Qed.
Lemma shaped_count d l : forall n, shaped (s_count e d l n).
Proof using Type. induction l; cbn [s_count]; shape. Qed.
#[local] Hint Resolve shaped_any shaped_del shaped_count : shape.

Lemma shaped_setGeneric nx xx k v x b r1 r2 name : shaped (s_setGeneric e nx xx k v x b r1 r2 name).
Proof using Type. unfold s_setGeneric, s_number, s_my_db, s_me, s_reply, s_dirty. cbv zeta. shape. Qed.
Lemma shaped_getGeneric k : shaped (s_getGeneric e k).
Proof using Type. unfold s_getGeneric, s_my_db, s_me, s_reply. shape. Qed.
Lemma shaped_incr k v : shaped (s_incr e k v).
Proof using Type. unfold s_incr, s_my_db, s_me, s_reply, s_dirty. cbv zeta. shape. Qed.
#[local] Hint Resolve shaped_setGeneric shaped_getGeneric shaped_incr : shape.

Lemma shaped_flushall args : shaped (sFLUSHALL e args).
Proof using Type.
  unfold sFLUSHALL, s_dirty_int, s_dirty, s_reply. case_match; [shape|]. apply shaped_bind; [shape|intros ?]. intros t. rewrite sbind_eq. cbn [fst snd sgets].
  rewrite sbind_eq. match goal with |- same_shape _ (snd (_ ?t1)) => apply (same_shape_trans _ t1) end.
  - destruct (@same_shape_refl ok t) as [H1 H2 H3]. constructor; [exact H1|cbn; apply length_map|exact H3].
  - match goal with |- same_shape _ (snd (?m ?t1)) => assert (shaped m) as Hm by shape; apply Hm end.
Qed.
#[local] Hint Resolve shaped_flushall : shape.

Lemma shaped_queued c args : shaped (s_queued e c args).
Proof using Type.
  destruct c; cbn [s_queued]; try solve [eauto with shape]; unfold sGET, sSET, sSETNX, sSETEX, sPSETEX, sGETSET, sAPPEND, sSTRLEN, sSETRANGE, sGETRANGE, sMGET, s_msetGeneric, sDEL, sEXISTS, sTYPE, s_rename, sMOVE,
    sSWAPDB, sSELECT, sFLUSHDB, s_expireGeneric, s_ttl, sPERSIST, sUNWATCH, sAUTH, sPING, sECHO, sDBSIZE, s_unwatch, s_number, s_my_db, s_me, s_reply, s_dirty, s_db; cbv zeta; shape.
Qed.

#[local] Hint Resolve shaped_queued : shape.
Lemma shaped_call p : shaped p -> shaped (s_call p).
Proof using Type. intros Hp. unfold s_call, s_my_db, s_me, s_log. shape. Qed.
#[local] Hint Resolve shaped_call : shape.
Lemma shaped_exec_queue l : forall b, shaped (s_exec_queue e l b).
Proof using Type. induction l as [|[cm args] l IH]; cbn [s_exec_queue]; unfold s_my_db, s_me, s_log; shape. Qed.
#[local] Hint Resolve shaped_exec_queue : shape.
Lemma shaped_exec : shaped (sEXEC e).
Proof using Type. unfold sEXEC, s_me, s_reply, s_discard, s_unwatch, s_dirty. shape. Qed.
#[local] Hint Resolve shaped_exec : shape.
Lemma shaped_proc c args : shaped (s_proc e c args).
Proof using Type. destruct c; cbn [s_proc]; try solve [eauto with shape]; unfold sMULTI, sDISCARD, sWATCH, s_watch, s_discard, s_me, s_reply; shape. Qed.
#[local] Hint Resolve shaped_proc : shape.
Lemma shaped_request table id args : (forall cm arity, table (argn args 0) = Some (cm, arity) -> ok (cm, args)) -> shaped (s_request e table id args).
Proof using Type.
  intros Hok. unfold s_request, s_process, s_flag, s_me, s_reply. shape. apply shaped_on_me; [|done]. cbn. intros c0 p0 [Hp|Hp%list_elem_of_singleton]%elem_of_app; [by left|]. right. subst p0. by eapply Hok.
Qed.
End Shape.

(** ** Histories *)

(** What happens to the server: at a time, under a configuration, a client
    connects, sends a command, or goes. *)
Inductive action := Connect | Request (args : list (list Z)) | Disconnect.
Record event := mk_event { ev_env : env; ev_client : Z; ev_action : action }.

Definition perform (x : event) : M unit :=
  match ev_action x with
  | Connect => connect (ev_client x)
  | Request args => request (ev_env x) (ev_client x) args
  | Disconnect => freeClient (ev_client x)
  end.
Fixpoint requests (l : list event) : M unit :=
  match l with
  | [] => ret tt
  | x :: l => (perform x;; requests l)%db
  end.

Definition s_perform (x : event) : Spec unit :=
  match ev_action x with
  | Connect => s_connect (ev_client x)
  | Request args => s_request (ev_env x) lookupCommand (ev_client x) args
  | Disconnect => s_disconnect (ev_client x)
  end.
Fixpoint s_requests (l : list event) : Spec unit :=
  match l with
  | [] => sret tt
  | x :: l => s_perform x;; s_requests l
  end.

(** The connections, with the one to the master marked, and the events that are
    possible: a new client has a new number, commands are not empty and come from
    clients that are connected.  (The client of the master is not freed: its
    state is kept for a partial resynchronisation.) *)
Definition links (s : server) : gmap Z bool := CLIENT_MASTER <$> clients s.
Definition possible (m : gmap Z bool) (x : event) : bool :=
  match ev_action x with
  | Connect => bool_decide (m !! ev_client x = None)
  | Request args => bool_decide (is_Some (m !! ev_client x)) && negb (bool_decide (args = []))
  | Disconnect => bool_decide (m !! ev_client x = Some false)
  end.
Definition links_after (m : gmap Z bool) (x : event) : gmap Z bool :=
  match ev_action x with
  | Connect => <[ev_client x := false]> m
  | Request _ => m
  | Disconnect => delete (ev_client x) m
  end.
Fixpoint valid (m : gmap Z bool) (l : list event) : bool :=
  match l with
  | [] => true
  | x :: l => possible m x && valid (links_after m x) l
  end.

Lemma links_abs s : links s = a_master <$> a_clients (abs None s).
Proof. apply map_eq. intros i. unfold links. rewrite !lookup_fmap, lookup_abs_client. by destruct (clients s !! i). Qed.

Lemma perform_run x s : idle s -> possible (links s) x = true ->
  exists s', perform x s = Some (tt, s') /\ idle s' /\ abs None s' = snd (s_perform x (abs None s)) /\ links s' = links_after (links s) x.
Proof.
  intros Hs. unfold possible, perform, s_perform, links_after. destruct (ev_action x) as [|args|].
  - rewrite bool_decide_eq_true. intros Hn. destruct (connect_refines s (ev_client x) Hs) as (s' & R & Hs' & A); [unfold links in Hn; rewrite lookup_fmap in Hn; by destruct (clients s !! ev_client x)|].
    exists s'. split; [done|]. split; [done|]. split; [done|]. rewrite !links_abs, A. cbn. by rewrite fmap_insert.
  - rewrite andb_true_iff, bool_decide_eq_true, negb_true_iff, bool_decide_eq_false. intros [Hc Ha]. destruct (request_refines (ev_env x) s (ev_client x) args Hs) as (s' & R & Hs' & A); [unfold links in Hc; rewrite lookup_fmap in Hc; destruct (clients s !! ev_client x); [by eexists|by destruct Hc]|done|].
    exists s'. split; [done|]. split; [done|]. split; [done|]. rewrite !links_abs, A. apply (ss_clients _ _ (shaped_request (ok := fun _ => True) _ _ _ _ (fun _ _ _ => I) _)).
  - rewrite bool_decide_eq_true. intros Hn. destruct (disconnect_refines s (ev_client x) Hs) as (s' & R & Hs' & A); [unfold links in Hn; rewrite lookup_fmap in Hn; destruct (clients s !! ev_client x); [by eexists|done]|].
    exists s'. split; [done|]. split; [done|]. split; [done|]. rewrite !links_abs, A. cbn. by rewrite fmap_delete.
Qed.

Lemma requests_run l : forall s, idle s -> valid (links s) l = true ->
  exists s', requests l s = Some (tt, s') /\ idle s' /\ abs None s' = snd (s_requests l (abs None s)).
Proof.
  induction l as [|x l IH]; intros s Hs; cbn [requests s_requests valid]; [by exists s|]. intros [Hx Hl]%andb_true_iff. destruct (perform_run x s Hs Hx) as (s1 & R1 & Hs1 & A1 & L1).
  destruct (IH s1 Hs1) as (s2 & R2 & Hs2 & A2); [by rewrite L1|]. exists s2. split; [unfold bind; by rewrite R1|]. split; [done|]. by rewrite sbind_eq, A2, A1.
Qed.

(** ** What a client that watches keys is told *)

Definition kv (t : astate) (wk : nat * key) : option entry := default ∅ (a_dbs t !! fst wk) !! snd wk.

(** The value is the same (the deadline may have been removed), or the key is
    gone because its deadline had passed at time [now]. *)
Definition kept (now : Z) (x y : option entry) : Prop :=
  match y with
  | Some (v, w) => exists w0, x = Some (v, w0) /\ (w = w0 \/ w = None)
  | None => x = None \/ exists v w, x = Some (v, Some w) /\ 0 <= w < now
  end.

Lemma kept_refl now x : kept now x x.
Proof. destruct x as [[v w]|]; [exists w; tauto|by left]. Qed.

Lemma kept_trans now x y z : kept now x y -> kept now y z -> kept now x z.
Proof.
  destruct z as [[v w]|]; cbn; [|destruct y as [[v w]|]; [|by intros H _]].
  - intros H (w0 & -> & Hw). destruct H as (w1 & -> & Hw1). exists w1. split; [done|]. destruct Hw as [->| ->]; [|by right]. done.
  - intros (w0 & -> & Hw) [H|(v' & w' & [= <- ->] & Hr)]; [done|]. right. exists v, w'. destruct Hw as [<-|]; [done|done].
Qed.

Section Watch.
Context (now i : Z).

(** From [t0] to [t] client [i] was told about every change of a key that it
    still watches, except the keys [K]; it was told about the keys [P]. *)
Definition told (K P : list (nat * key)) (t0 t : astate) : Prop :=
  forall c', a_clients t !! i = Some c' -> exists c, a_clients t0 !! i = Some c /\ forall wk, wk ∈ a_watched c' ->
    wk ∈ a_watched c /\ (a_cas c = true -> a_cas c' = true) /\ (a_cas c' = true \/ wk ∈ K \/ kept now (kv t0 wk) (kv t wk)) /\ (wk ∈ P -> a_cas c' = true).

Definition pays {A} (K P : list (nat * key)) (m : Spec A) (K' P' : list (nat * key)) : Prop := forall t0 t, told K P t0 t -> told K' P' t0 (snd (m t)).

Lemma pays_bind {A B} K P K1 P1 K2 P2 (m : Spec A) (k : A -> Spec B) : pays K P m K1 P1 -> (forall x, pays K1 P1 (k x) K2 P2) -> pays K P (sbind m k) K2 P2.
Proof using Type. intros Hm Hk t0 t H. rewrite sbind_eq. by apply Hk, Hm. Qed.

Lemma pays_weaken {A} K P K' P' (m : Spec A) : pays K P m K' P' -> pays K P m K' [].
Proof using Type.
  intros Hm t0 t H c' Hc'. destruct (Hm t0 t H c' Hc') as (c & Hc & Hw). exists c. split; [done|]. intros wk Hin. destruct (Hw wk Hin) as (H1 & H2 & H3 & _). split; [done|]. split; [done|]. split; [done|]. intros H4. by apply elem_of_nil in H4.
Qed.

(** Steps that change no key and hide nothing from the client. *)
Lemma pays_quiet {A} K P (m : Spec A) :
  (forall t c', a_clients (snd (m t)) !! i = Some c' -> exists c, a_clients t !! i = Some c /\ forall wk, wk ∈ a_watched c' -> wk ∈ a_watched c /\ (a_cas c = true -> a_cas c' = true)) ->
  (forall t, a_dbs (snd (m t)) = a_dbs t) -> pays K P m K P.
Proof using Type.
  intros Hc Hd t0 t H c2 Hc2. destruct (Hc t c2 Hc2) as (c1 & Hc1 & Hw1). destruct (H c1 Hc1) as (c & Hc0 & Hw). exists c. split; [done|]. intros wk Hin. destruct (Hw1 wk Hin) as [Hin1 Hcas]. destruct (Hw wk Hin1) as (H1 & H2 & H3 & H4).
  split; [done|]. split; [tauto|]. split; [|tauto]. assert (kv (snd (m t)) wk = kv t wk) as -> by (unfold kv; by rewrite Hd). tauto.
Qed.

Lemma pays_ret {A} K P (x : A) : pays K P (sret x) K P.
Proof using Type. by intros t0 t H. Qed.

Lemma pays_gets {A} K P (f : astate -> A) : pays K P (sgets f) K P.
Proof using Type. by intros t0 t H. Qed.

Lemma pays_on_me K P f : (forall c wk, wk ∈ a_watched (f c) -> wk ∈ a_watched c /\ (a_cas c = true -> a_cas (f c) = true)) -> pays K P (on_me f) K P.
Proof using Type.
  intros Hf. apply pays_quiet; [|done]. intros t c' Hc'. cbn in Hc'. destruct (decide (a_cur t = i)) as [<-|Hne]; [|rewrite lookup_alter_ne in Hc' by done; exists c'; split; [done|]; intros wk H; tauto].
  rewrite lookup_alter_eq in Hc'. destruct (a_clients t !! a_cur t) as [c|]; [|done]. injection Hc' as <-. exists c. split; [done|]. intros wk. apply Hf.
Qed.

Lemma pays_mod K P f : (forall t, a_clients (f t) = a_clients t) -> (forall t, a_dbs (f t) = a_dbs t) -> pays K P (smod f) K P.
Proof using Type. intros Hc Hd. apply pays_quiet; [|exact Hd]. intros t c'. cbn. rewrite Hc. intros H. exists c'. split; [done|]. intros wk Hw. tauto. Qed.

(** Putting something at a key. *)
Lemma kv_put t d m wk : wk <> (d, snd wk) -> kv (snd (s_put_db d m t)) wk = kv t wk.
Proof using Type. intros H. unfold kv. cbn. destruct wk as [d' k']. cbn in *. rewrite list_lookup_insert_ne by congruence. done. Qed.

Lemma kv_update t d m k wk : (forall k', k' <> k -> m !! k' = kv t (d, k')) -> wk <> (d, k) -> kv (snd (s_put_db d m t)) wk = kv t wk.
Proof using Type.
  intros Hm Hne. destruct wk as [d' k']. destruct (decide (d = d')) as [<-|Hd]; [|apply kv_put; congruence]. unfold kv. cbn. destruct (decide (d < length (a_dbs t))%nat) as [Hlt|Hge].
  - rewrite list_lookup_insert_eq by done. cbn. rewrite Hm by congruence. done.
  - by rewrite list_insert_ge by lia.
Qed.

(** A change of one key is a debt, unless the client already knows. *)
Lemma pays_change {A} K P (m : Spec A) d k :
  (forall t, a_clients (snd (m t)) = a_clients t) -> (forall t wk, wk <> (d, k) -> kv (snd (m t)) wk = kv t wk) -> pays K P m ((d, k) :: K) P.
Proof using Type.
  intros Hc Hk t0 t H c' Hc'. rewrite Hc in Hc'. destruct (H c' Hc') as (c & Hc0 & Hw). exists c. split; [done|]. intros wk Hin. destruct (Hw wk Hin) as (H1 & H2 & H3 & H4). split; [done|]. split; [done|]. split; [|done].
  destruct (decide (wk = (d, k))) as [->|Hne]; [right; left; left|]. rewrite (Hk t wk Hne). destruct H3 as [|[|]]; [tauto|right; left; by right|tauto].
Qed.

Lemma pays_change_paid {A} K P (m : Spec A) d k :
  (forall t, a_clients (snd (m t)) = a_clients t) -> (forall t wk, wk <> (d, k) -> kv (snd (m t)) wk = kv t wk) -> (d, k) ∈ P -> pays K P m K P.
Proof using Type.
  intros Hc Hk HP t0 t H c' Hc'. destruct (pays_change K P m d k Hc Hk t0 t H c' Hc') as (c & Hc0 & Hw). exists c. split; [done|]. intros wk Hin. destruct (Hw wk Hin) as (H1 & H2 & H3 & H4). split; [done|]. split; [done|]. split; [|done].
  destruct H3 as [|[[->|]%elem_of_cons|]]; [tauto|left; by apply H4|tauto|tauto].
Qed.

Lemma store_others d k x t wk : wk <> (d, k) -> kv (snd (s_store d k x t)) wk = kv t wk.
Proof using Type. intros Hne. unfold s_store. rewrite sbind_eq. apply (kv_update _ _ _ k); [|done]. intros k' Hk'. by rewrite lookup_insert_ne. Qed.

Lemma delete_others d k t wk : wk <> (d, k) -> kv (snd (s_delete d k t)) wk = kv t wk.
Proof using Type. intros Hne. unfold s_delete. rewrite !sbind_eq. cbn [snd sret]. apply (kv_update _ _ _ k); [|done]. intros k' Hk'. by rewrite lookup_delete_ne. Qed.

Lemma pays_store K P d k x : pays K P (s_store d k x) ((d, k) :: K) P.
Proof using Type. apply pays_change; [done|]. intros. by apply store_others. Qed.

Lemma pays_store_paid K P d k x : (d, k) ∈ P -> pays K P (s_store d k x) K P.
Proof using Type. apply pays_change_paid; [done|]. intros. by apply store_others. Qed.

Lemma pays_delete K P d k : pays K P (s_delete d k) ((d, k) :: K) P.
Proof using Type. apply pays_change; [done|]. intros. by apply delete_others. Qed.

(** Telling the clients pays the debt. *)
Lemma pays_touch K P d k : pays ((d, k) :: K) P (s_touch d k) K ((d, k) :: P).
Proof using Type.
  intros t0 t H c' Hc'. cbn in Hc'. rewrite lookup_fmap in Hc'. destruct (a_clients t !! i) as [c1|] eqn:Hc1; [|done]. cbn in Hc'. injection Hc' as <-. destruct (H c1 Hc1) as (c & Hc & Hw). exists c. split; [done|].
  unfold notice. intros wk Hin. assert (wk ∈ a_watched c1) as Hin1 by (by destruct (bool_decide _)). destruct (Hw wk Hin1) as (H1 & H2 & H3 & H4). split; [done|]. change (kv (snd (s_touch d k t)) wk) with (kv t wk).
  destruct (bool_decide_reflect ((d, k) ∈ a_watched c1)) as [Hb|Hb]; cbn; [tauto|]. assert (wk <> (d, k)) as Hne by congruence. split; [done|]. rewrite elem_of_cons in *. split; [tauto|]. intros [?|?]; [done|tauto].
Qed.

(** Deleting a key that is not there changes nothing. *)
Lemma pays_delete_bind {B} K P K' P' d k (f : bool -> Spec B) : pays ((d, k) :: K) P (f true) K' P' -> pays K P (f false) K' P' -> pays K P (sbind (s_delete d k) f) K' P'.
Proof using Type.
  intros Ht Hf t0 t H. rewrite sbind_eq. pose proof (pays_delete K P d k t0 t H) as Hd. assert (fst (s_delete d k t) = bool_decide (is_Some (kv t (d, k)))) as -> by done. case_bool_decide as Hk; [by apply Ht|]. apply Hf.
  assert (a_dbs (snd (s_delete d k t)) = a_dbs t) as E.
  { unfold s_delete. rewrite !sbind_eq. cbn. unfold kv in Hk. cbn in Hk. destruct (a_dbs t !! d) as [m|] eqn:Em; [|by rewrite list_insert_ge by (by apply lookup_ge_None)]. cbn in *.
    rewrite delete_id by (by apply eq_None_not_Some). by apply list_insert_id. }
  intros c' Hc'. destruct (H c') as (c & Hc & Hw); [exact Hc'|]. exists c. split; [done|]. intros wk Hin. assert (kv (snd (s_delete d k t)) wk = kv t wk) as -> by (unfold kv; by rewrite E). by apply Hw.
Qed.

Lemma pays_for {A} (f : A -> Spec unit) l : (forall x, pays [] [] (f x) [] []) -> pays [] [] (sfor l f) [] [].
Proof using Type. intros Hf. induction l as [|x l IH]; cbn [sfor]; [apply pays_ret|]. by eapply pays_bind. Qed.

Context (e : env).
Hypothesis now_ok : mstime e <= now.

Lemma pays_expire K P d k : pays K P (s_expire e d k) K P.
Proof using now_ok.
  intros t0 t H. unfold s_expire. rewrite sbind_eq. cbn [fst snd]. change (fst (s_db d t)) with (default ∅ (a_dbs t !! d)). change (snd (s_db d t)) with t. destruct (default ∅ (a_dbs t !! d) !! k) as [[v w]|] eqn:Ek; [|done].
  destruct (past e w) eqn:Ep; cbn [negb]; [|done]. destruct (masterhost e); [done|]. rewrite !sbind_eq. cbn [snd sret]. intros c' Hc'. destruct (H c') as (c & Hc & Hw); [exact Hc'|]. exists c. split; [done|].
  intros wk Hin. destruct (Hw wk Hin) as (H1 & H2 & H3 & H4). split; [done|]. split; [done|]. split; [|done]. destruct H3 as [H3|[H3|H3]]; [tauto|tauto|]. right. right. eapply kept_trans; [exact H3|].
  set (t' := snd (s_log d [DEL_name; k] t)). assert (forall x, kv t' x = kv t x) as E by done. destruct (decide (wk = (d, k))) as [->|Hne].
  - assert (kv (snd (s_put_db d (delete k (default ∅ (a_dbs t !! d))) t')) (d, k) = None) as ->.
    { unfold kv. cbn. destruct (decide (d < length (a_dbs t))%nat) as [Hlt|Hge]; [rewrite list_lookup_insert_eq by done; cbn; apply lookup_delete_eq|]. rewrite list_insert_ge by lia. rewrite lookup_ge_None_2 in Ek by lia. cbn in Ek. by rewrite lookup_empty in Ek. }
    right. unfold past in Ep. destruct w as [w|]; [|done]. exists v, w. split; [exact Ek|]. apply andb_true_iff in Ep as [E1 E2]. lia.
  - rewrite (kv_update t' d _ k wk); [rewrite E; apply kept_refl| |done]. intros k' Hk'. by rewrite lookup_delete_ne.
Qed.

Lemma pays_find K P d k : pays K P (s_find e d k) K P.
Proof using now_ok. unfold s_find. eapply pays_bind; [apply pays_expire|]. intros _. by intros t0 t H. Qed.

Lemma pays_read K P d k : pays K P (s_read e d k) K P.
Proof using now_ok.
  unfold s_read. eapply pays_bind; [apply pays_expire|]. intros gone. eapply pays_bind; [apply pays_gets|]. intros c. eapply pays_bind; [apply pays_gets|]. intros cm. case_match; [apply pays_ret|]. case_match; [apply pays_ret|]. by intros t0 t Ht.
Qed.

(** Removing the deadline keeps the value. *)
Lemma pays_persist {B} K P K' P' d k (f : option entry -> Spec B) :
  (forall v w, exists g, f (Some (v, Some w)) = (s_store d k (v, None);; g)%spec /\ pays K P g K' P') ->
  (forall v, pays K P (f (Some (v, None))) K' P') -> pays K P (f None) K' P' -> pays K P (sbind (s_find e d k) f) K' P'.
Proof using now_ok.
  intros Hs Hv Hn t0 t H. rewrite sbind_eq. pose proof (pays_find K P d k t0 t H) as H1. set (t1 := snd (s_find e d k t)) in *. assert (fst (s_find e d k t) = kv t1 (d, k)) as E.
  { unfold t1, s_find. rewrite sbind_eq. done. }
  rewrite E. destruct (kv t1 (d, k)) as [[v [w|]]|] eqn:Ek; [|by apply Hv|by apply Hn]. destruct (Hs v w) as (g & -> & Hg). rewrite sbind_eq. apply Hg. intros c' Hc'. destruct (H1 c') as (c & Hc & Hw); [exact Hc'|].
  exists c. split; [done|]. intros wk Hin. destruct (Hw wk Hin) as (G1 & G2 & G3 & G4). split; [done|]. split; [done|]. split; [|done]. destruct G3 as [|[|G3]]; [tauto|tauto|]. right. right. eapply kept_trans; [exact G3|].
  destruct (decide (wk = (d, k))) as [->|Hne]; [|rewrite store_others by done; apply kept_refl]. rewrite Ek. unfold s_store. rewrite sbind_eq. unfold kv. cbn. unfold kv in Ek. cbn in Ek.
  destruct (decide (d < length (a_dbs t1))%nat) as [Hlt|Hge]; [rewrite list_lookup_insert_eq by done; cbn; rewrite lookup_insert_eq; exists (Some w); tauto|]. rewrite lookup_ge_None_2 in Ek by lia. cbn in Ek. by rewrite lookup_empty in Ek.
Qed.

(** Flushing tells about the keys that it removes. *)
Lemma told_flush K P t0 t dbid t2 :
  told K P t0 t -> a_clients t2 = a_clients (snd (s_touch_flush dbid t)) ->
  (forall wk, kv t2 wk = if bool_decide (dbid = None) || bool_decide (dbid = Some (fst wk)) then None else kv t wk) -> told K P t0 t2.
Proof using Type.
  intros H Ec Ek c' Hc'. rewrite Ec in Hc'. cbn in Hc'. rewrite lookup_fmap in Hc'. destruct (a_clients t !! i) as [c1|] eqn:Hc1; [|done]. cbn in Hc'. injection Hc' as <-. destruct (H c1 Hc1) as (c & Hc & Hw). exists c. split; [done|].
  unfold notice_flush. intros wk Hin. assert (wk ∈ a_watched c1) as Hin1 by (by destruct (existsb _ _)). destruct (Hw wk Hin1) as (H1 & H2 & H3 & H4). split; [done|]. destruct (existsb _ (a_watched c1)) eqn:Eb; cbn; [tauto|]. split; [done|].
  split; [|done]. destruct H3 as [|[|H3]]; [tauto|tauto|]. right. right. rewrite Ek. destruct (bool_decide (dbid = None) || bool_decide (dbid = Some (fst wk))) eqn:Es; [|done].
  eapply kept_trans; [exact H3|]. left. apply eq_None_not_Some. intros Hs. apply not_true_iff_false in Eb. apply Eb. apply existsb_exists. exists wk. split; [by apply list_elem_of_In|]. rewrite Es. by rewrite bool_decide_eq_true_2.
Qed.

Lemma pays_flushdb {B} (K P K' P' : list (nat * key)) (d : nat) (f : kvs -> Spec B) :
  (forall m, pays K P (f m) K' P') -> pays K P (s_touch_flush (Some d);; m <- s_db d; s_put_db d ∅;; f m) K' P'.
Proof using Type.
  intros Hf t0 t H. repeat (rewrite sbind_eq; cbv beta). apply Hf. eapply told_flush; [exact H|done|]. intros [d' k']. cbn [fst]. rewrite (bool_decide_eq_false_2 (Some d = None)) by done. cbn [orb].
  case_bool_decide as Hd; [injection Hd as <-|].
  - unfold kv. cbn. destruct (decide (d < length (a_dbs t))%nat); [by rewrite list_lookup_insert_eq|]. rewrite list_insert_ge, lookup_ge_None_2 by lia. done.
  - unfold kv. cbn. by rewrite list_lookup_insert_ne by congruence.
Qed.

Lemma pays_flushall {B} (K P K' P' : list (nat * key)) (f : list kvs -> Spec B) :
  (forall l, pays K P (f l) K' P') -> pays K P (s_touch_flush None;; l <- sgets a_dbs; smod (fun t => t_dbs t (map (fun _ => ∅) l));; f l) K' P'.
Proof using Type.
  intros Hf t0 t H. repeat (rewrite sbind_eq; cbv beta). apply Hf. eapply told_flush; [exact H|done|]. intros [d' k']. cbn [fst]. rewrite (bool_decide_eq_true_2 (None = None)) by done. cbn [orb].
  unfold kv. cbn. rewrite list_lookup_fmap. by destruct (a_dbs t !! d').
Qed.

(** ** The commands pay their debts *)

Definition tells {A} (m : Spec A) : Prop := pays [] [] m [] [].

Lemma pays_reply K P r : pays K P (s_reply r) K P.
Proof using Type. apply pays_on_me. intros c wk H. done. Qed.
Lemma pays_dirty K P n : pays K P (s_dirty n) K P.
Proof using Type. by apply pays_mod. Qed.
Lemma pays_log K P d l : pays K P (s_log d l) K P.
Proof using Type. by apply pays_mod. Qed.
Lemma pays_cmd K P cm l : pays K P (smod (fun t => t_cmd t cm l)) K P.
Proof using Type. by apply pays_mod. Qed.
Lemma pays_db K P d : pays K P (s_db d) K P.
Proof using Type. apply pays_gets. Qed.
Lemma pays_me K P : pays K P s_me K P.
Proof using Type. apply pays_gets. Qed.
Lemma pays_my_db K P : pays K P s_my_db K P.
Proof using Type. unfold s_my_db. eapply pays_bind; [apply pays_me|]. intros. apply pays_ret. Qed.

Lemma pays_set K P d k s : pays K P (s_set e d k s) K ((d, k) :: P).
Proof using now_ok. unfold s_set. eapply pays_bind; [apply pays_find|]. intros _. eapply pays_bind; [apply pays_store|]. intros _. apply pays_touch. Qed.

(** One step of a command. *)
Ltac pay1 :=
  first
    [ apply pays_ret | apply pays_reply | apply pays_dirty | apply pays_log | apply pays_cmd | apply pays_my_db | apply pays_me | apply pays_db | apply pays_find | apply pays_read | apply pays_expire | apply pays_set | apply pays_touch
    | apply pays_store_paid; solve [left|right; left] | apply pays_store | apply pays_delete | apply pays_gets ].
Ltac pay :=
  intros; cbv zeta;
  repeat match goal with
  | |- tells _ => unfold tells
  | |- pays _ _ (sbind _ _) _ _ => eapply pays_bind; [pay1|intros ?]
  | |- pays _ _ (match _ with _ => _ end) _ _ => case_match
  | |- pays _ ?P _ _ [] => lazymatch P with [] => pay1 | _ => eapply pays_weaken; pay1 end
  | |- _ => pay1
  end.

Lemma tells_setGeneric nx xx k v x b r1 r2 name : tells (s_setGeneric e nx xx k v x b r1 r2 name).
Proof using now_ok.
  unfold s_setGeneric, s_number. cbv zeta. destruct x as [x|]; [destruct (string2ll x) as [ms|]; [destruct (ms <=? 0)|]|]; [pay| |pay|].
  all: eapply pays_bind; [apply pays_my_db|intros d]; eapply pays_bind; [destruct nx; [eapply pays_bind; [apply pays_find|intros]|]; apply pays_ret|intros f1];
    eapply pays_bind; [case_match; [eapply pays_bind; [apply pays_find|intros]|]; apply pays_ret|intros f2]; pay.
Qed.

Lemma tells_any d l : tells (s_any e d l).
Proof using now_ok. unfold tells. induction l; cbn [s_any]; [apply pays_ret|]. eapply pays_bind; [apply pays_find|]. intros o. case_match; [apply pays_ret|done]. Qed.

Lemma tells_count d l : forall n, tells (s_count e d l n).
Proof using now_ok. unfold tells. induction l; cbn [s_count]; intros n; [apply pays_ret|]. eapply pays_bind; [apply pays_read|]. intros o. apply IHl. Qed.

Lemma tells_del d l : forall n, tells (s_del e d l n).
Proof using now_ok.
  unfold tells. induction l as [|k l IH]; cbn [s_del]; intros n; [apply pays_ret|]. eapply pays_bind; [apply pays_expire|]. intros _. apply pays_delete_bind.
  - eapply pays_bind; [eapply pays_weaken; eapply pays_bind; [apply pays_touch|intros _; apply pays_dirty]|]. intros _. apply IH.
  - eapply pays_bind; [apply pays_ret|]. intros _. apply IH.
Qed.

Lemma tells_persist args : tells (sPERSIST e args).
Proof using now_ok.
  unfold tells, sPERSIST. eapply pays_bind; [apply pays_my_db|]. intros d. apply pays_persist; [|intros v; apply pays_reply|apply pays_reply]. intros v w. eexists. split; [reflexivity|]. pay.
Qed.

Lemma tells_flushdb args : tells (sFLUSHDB args).
Proof using Type.
  unfold tells, sFLUSHDB. case_match; [apply pays_reply|]. eapply pays_bind; [apply pays_my_db|]. intros d. apply (pays_flushdb [] [] [] [] d (fun m => s_dirty (Z.of_nat (size m));; s_reply R_ok)). pay.
Qed.

Lemma tells_flushall args : tells (sFLUSHALL e args).
Proof using Type.
  unfold tells, sFLUSHALL. case_match; [apply pays_reply|]. apply (pays_flushall [] [] [] [] (fun l => s_dirty (sizes l);; s_reply R_ok;; (if saveparamslen e >? 0 then s_dirty_int else sret tt);; s_dirty 1)). intros l.
  eapply pays_bind; [apply pays_dirty|]. intros _. eapply pays_bind; [apply pays_reply|]. intros _. eapply pays_bind; [case_match; [by apply pays_mod|apply pays_ret]|]. intros _. apply pays_dirty.
Qed.

Lemma tells_mset nx args : tells (s_msetGeneric e nx args).
Proof using now_ok.
  unfold tells, s_msetGeneric. case_match; [apply pays_reply|]. eapply pays_bind; [apply pays_my_db|]. intros d. eapply pays_bind; [destruct nx; [apply tells_any|apply pays_ret]|]. intros f. case_match; [apply pays_reply|].
  eapply pays_bind; [apply pays_for; intros [k v]; eapply pays_weaken, pays_set|]. pay.
Qed.

Lemma tells_mget args : tells (sMGET e args).
Proof using now_ok.
  unfold tells, sMGET. eapply pays_bind; [apply pays_reply|]. intros _. eapply pays_bind; [apply pays_my_db|]. intros d. apply pays_for. pay.
Qed.

Lemma tells_select args : tells (sSELECT args).
Proof using Type.
  unfold tells, sSELECT. eapply pays_bind; [apply pays_gets|]. intros l. case_match; [|apply pays_reply]. cbv zeta. case_match; [apply pays_reply|]. eapply pays_bind; [apply pays_on_me; intros c wk Hw; done|]. intros _. apply pays_reply.
Qed.

Lemma tells_unwatch : tells sUNWATCH.
Proof using Type.
  unfold tells, sUNWATCH, s_unwatch. intros t0 t H. rewrite !sbind_eq. eapply pays_reply. rewrite on_me_twice. revert t0 t H. apply (pays_on_me [] []). intros c wk Hw. by apply elem_of_nil in Hw.
Qed.

Lemma tells_auth args : tells (sAUTH e args).
Proof using Type. unfold tells, sAUTH. case_match; [|apply pays_reply]. cbv zeta. eapply pays_bind; [by apply pays_on_me|]. intros _. apply pays_reply. Qed.

(** Commands that move values behind the backs of the clients. *)
Definition unannounced (c : command) : bool := match c with MOVE | SWAPDB => true | _ => false end.

Lemma tells_getGeneric k : tells (s_getGeneric e k).
Proof using now_ok. unfold s_getGeneric. pay. Qed.

Lemma tells_queued c args : unannounced c = false -> tells (s_queued e c args).
Proof using now_ok.
  intros Hc. destruct c; try discriminate Hc; cbn [s_queued].
  all: try solve [apply tells_setGeneric|apply tells_persist|apply tells_flushdb|apply tells_flushall|apply tells_mset|apply tells_mget|apply tells_select|apply tells_unwatch|apply tells_auth|apply pays_ret].
  all: unfold sAPPEND, sSTRLEN, sSETRANGE, sGETRANGE, s_incr, s_rename, s_expireGeneric, s_ttl, sTYPE, s_number, sPING, sECHO, sDBSIZE; try solve [pay].
  - eapply pays_bind; [apply tells_getGeneric|]. pay.
  - unfold sSET. case_match; [apply tells_setGeneric|pay].
  - eapply pays_bind; [apply tells_getGeneric|]. pay.
  - unfold sDEL. eapply pays_bind; [apply pays_my_db|]. intros d. eapply pays_bind; [apply tells_del|]. pay.
  - unfold sEXISTS. eapply pays_bind; [apply pays_my_db|]. intros d. eapply pays_bind; [apply tells_count|]. pay.
  - unfold sEXISTS. eapply pays_bind; [apply pays_my_db|]. intros d. eapply pays_bind; [apply tells_count|]. pay.
Qed.

(** ** Requests tell what they change *)

Lemma tells_call p : tells p -> tells (s_call p).
Proof using Type.
  intros Hp. unfold tells, s_call. eapply pays_bind; [apply pays_gets|]. intros b. eapply pays_bind; [exact Hp|]. intros _. eapply pays_bind; [apply pays_gets|]. intros a. case_match; [|apply pays_ret]. pay.
Qed.

Definition announced (l : list (command * list (list Z))) : Prop := Forall (fun p => unannounced (fst p) = false) l.

Lemma tells_exec_queue l : announced l -> forall b, tells (s_exec_queue e l b).
Proof using now_ok.
  unfold tells. induction 1 as [|[cm args] l Hc _ IH]; intros b; cbn [s_exec_queue]; [apply pays_ret|]. eapply pays_bind; [apply pays_cmd|]. intros _. eapply pays_bind; [case_match; pay|]. intros b'.
  eapply pays_bind; [by apply tells_call, tells_queued|]. intros _. apply IH.
Qed.

Lemma pays_drop K P f : (forall c, a_watched (f c) = []) -> pays K P (on_me f) K P.
Proof using Type. intros Hf. apply pays_on_me. intros c wk Hw. rewrite Hf in Hw. by apply elem_of_nil in Hw. Qed.

(** The queue that EXEC runs is that of the client. *)
Definition queues_announced (t : astate) : Prop := forall j c, a_clients t !! j = Some c -> announced (a_queue c).

Lemma told_exec t0 t : queues_announced t -> told [] [] t0 t -> told [] [] t0 (snd (sEXEC e t)).
Proof using now_ok.
  intros Hq H. unfold sEXEC. rewrite sbind_eq. change (snd (s_me t)) with t. set (c := fst (s_me t)). assert (announced (a_queue c)) as Ha.
  { unfold c, s_me, sgets. cbn. destruct (a_clients t !! a_cur t) as [c0|] eqn:E; cbn; [by eapply Hq|constructor]. }
  assert (forall r, pays [] [] (s_reply r;; s_discard) [] []) as Hd by (intros r; eapply pays_bind; [apply pays_reply|]; intros _; by apply pays_drop).
  clearbody c. case_match; [by apply pays_reply|]. case_match; [by apply Hd|]. case_match; [by apply Hd|]. revert t0 t Hq H.
  intros t0 t _. revert t0 t. change (tells (s_unwatch;; on_me (fun c => ac_queue c []);; cm <- sgets a_cmd; args <- sgets a_args; s_reply (R_multibulklen (zlen (a_queue c)));;
    must <- s_exec_queue e (a_queue c) false; smod (fun t => t_cmd t cm args);; s_discard;; if must : bool then s_dirty 1 else sret tt)).
  unfold tells. eapply pays_bind; [by apply pays_drop|]. intros _. eapply pays_bind; [by apply pays_on_me|]. intros _. eapply pays_bind; [apply pays_gets|]. intros cm. eapply pays_bind; [apply pays_gets|]. intros args.
  eapply pays_bind; [apply pays_reply|]. intros _. eapply pays_bind; [by apply tells_exec_queue|]. intros must. eapply pays_bind; [apply pays_cmd|]. intros _. eapply pays_bind; [by apply pays_drop|]. pay.
Qed.

(** Watching more keys, for another client. *)
Lemma told_other t0 t t' : told [] [] t0 t -> a_clients t' !! i = a_clients t !! i -> a_dbs t' = a_dbs t -> told [] [] t0 t'.
Proof using Type.
  intros H Hc Hd c' Hc'. rewrite Hc in Hc'. destruct (H c' Hc') as (c & Hc0 & Hw). exists c. split; [done|]. intros wk Hin. assert (kv t' wk = kv t wk) as -> by (unfold kv; by rewrite Hd). by apply Hw.
Qed.

Lemma watch_others l : forall t, a_cur t <> i -> a_clients (snd (sfor l s_watch t)) !! i = a_clients t !! i /\ a_dbs (snd (sfor l s_watch t)) = a_dbs t.
Proof using Type.
  induction l as [|k l IH]; intros t Hne; cbn [sfor]; [done|]. rewrite sbind_eq. destruct (IH (snd (s_watch k t))) as [H1 H2]; [done|]. rewrite H1, H2. split; [|done]. cbn. by rewrite lookup_alter_ne.
Qed.

(** Whether client [i] is told about what a command does. *)
Definition fair (cm : command) (id : Z) : Prop := unannounced cm = false /\ (cm = WATCH -> id <> i).

Lemma told_proc cm args t0 t : fair cm (a_cur t) -> queues_announced t -> told [] [] t0 t -> told [] [] t0 (snd (s_proc e cm args t)).
Proof using now_ok.
  intros [Hu Hw] Hq H. destruct (decide (cm = EXEC)) as [->|H1]; [by apply told_exec|]. destruct (decide (cm = WATCH)) as [->|H2].
  - cbn [s_proc]. unfold sWATCH. rewrite sbind_eq. change (snd (s_me t)) with t. case_match; [by apply pays_reply|]. rewrite sbind_eq. apply (pays_reply [] []). destruct (watch_others (tail args) t (Hw eq_refl)) as [E1 E2]. by eapply told_other.
  - revert t0 t Hq Hw H. intros t0 t _ _. revert t0 t. change (tells (s_proc e cm args)). destruct cm; try done; try (by apply (tells_queued _ args)); cbn [s_proc].
    + unfold sMULTI. eapply pays_bind; [apply pays_me|]. intros c. case_match; [apply pays_reply|]. eapply pays_bind; [by apply pays_on_me|]. pay.
    + unfold sDISCARD. eapply pays_bind; [apply pays_me|]. intros c. case_match; [apply pays_reply|]. eapply pays_bind; [by apply pays_drop|]. pay.
Qed.

Lemma told_call p t0 t : (told [] [] t0 t -> told [] [] t0 (snd (p t))) -> told [] [] t0 t -> told [] [] t0 (snd (s_call p t)).
Proof using Type.
  intros Hp H. unfold s_call. rewrite !sbind_eq. apply Hp in H. cbn [fst snd sgets]. set (t1 := snd (p t)) in *. case_match; [|done]. apply (pays_bind [] [] [] [] [] [] s_my_db); [apply pays_my_db| |done].
  intros d. eapply pays_bind; [apply pays_gets|]. pay.
Qed.

Lemma told_process args t0 t :
  (forall cm arity, lookupCommand (argn args 0) = Some (cm, arity) -> fair cm (a_cur t)) -> queues_announced t -> told [] [] t0 t -> told [] [] t0 (snd (s_process e lookupCommand args t)).
Proof using now_ok.
  intros Hf Hq H. assert (forall r, pays [] [] (s_flag;; s_reply r) [] []) as Hflag.
  { intros r. eapply pays_bind; [apply pays_on_me; intros c wk; case_match; done|]. intros _. apply pays_reply. }
  unfold s_process. case_match; [rewrite sbind_eq; by apply (pays_on_me [] []), (pays_reply [] [])|]. destruct (lookupCommand (argn args 0)) as [[cm arity]|]; [|by apply Hflag]. rewrite sbind_eq. set (t1 := snd (smod (fun t => t_cmd t cm args) t)). assert (told [] [] t0 t1) as H1 by (by apply pays_cmd). assert (queues_announced t1) as Hq1 by exact Hq.
  specialize (Hf cm arity eq_refl). change (a_cur t) with (a_cur t1) in Hf. clearbody t1. case_match; [by apply Hflag|]. rewrite sbind_eq. change (snd (s_me t1)) with t1. destruct (refused _ _ _ cm) as [[[|] r]|]; [by apply Hflag|rewrite sbind_eq; by apply (pays_reply [] [])|]. case_match.
  - rewrite sbind_eq. apply (pays_reply [] []). by apply (pays_on_me [] []).
  - apply told_call; [|done]. by apply told_proc.
Qed.

Lemma told_request id args t0 t :
  (forall cm arity, lookupCommand (argn args 0) = Some (cm, arity) -> fair cm id) -> queues_announced t -> told [] [] t0 t -> told [] [] t0 (snd (s_request e lookupCommand id args t)).
Proof using now_ok.
  intros Hf Hq H. unfold s_request. do 2 (rewrite sbind_eq; cbv beta). case_match; [exact H|]. do 2 (rewrite sbind_eq; cbv beta). set (t1 := snd (smod (fun t => t_cmd t _ args) _)). assert (told [] [] t0 t1) as H1 by exact H. assert (queues_announced t1) as Hq1 by exact Hq.
  rewrite sbind_eq. assert (told [] [] t0 (snd (s_process e lookupCommand args t1))) as H2 by (by apply told_process). rewrite sbind_eq. exact H2.
Qed.
End Watch.

(** ** Histories tell the clients that watch keys *)

(** Events until time [now], without MOVE and SWAPDB. *)
Definition fair_event (now : Z) (x : event) : Prop :=
  mstime (ev_env x) <= now /\
  match ev_action x with
  | Request args => forall cm arity, lookupCommand (argn args 0) = Some (cm, arity) -> unannounced cm = false
  | Connect | Disconnect => True
  end.

(** From [t0] to [t], if client [i] watches the key in [t]: a mark stays, and the
    client is marked or the key is as it was. *)
Definition safe (now i : Z) (wk : nat * key) (t0 t : astate) : Prop :=
  forall c', a_clients t !! i = Some c' -> wk ∈ a_watched c' ->
  exists c, a_clients t0 !! i = Some c /\ (a_cas c = true -> a_cas c' = true) /\ (a_cas c' = true \/ kept now (kv t0 wk) (kv t wk)).

Lemma told_safe now i wk t0 t : told now i [] [] t0 t -> safe now i wk t0 t.
Proof. intros H c' Hc' Hw. destruct (H c' Hc') as (c & Hc & Hk). exists c. split; [done|]. destruct (Hk wk Hw) as (_ & H1 & [H2|[H2|H2]] & _); [tauto|by apply elem_of_nil in H2|tauto]. Qed.

Lemma told_refl now i t : told now i [] [] t t.
Proof. intros c Hc. exists c. split; [done|]. intros wk Hw. split; [done|]. split; [done|]. split; [right; right; apply kept_refl|]. intros H. by apply elem_of_nil in H. Qed.

Lemma safe_trans now i wk t0 t1 t2 c1 : safe now i wk t0 t1 -> safe now i wk t1 t2 -> a_clients t1 !! i = Some c1 -> wk ∈ a_watched c1 -> safe now i wk t0 t2.
Proof.
  intros H1 H2 Hc1 Hw1 c' Hc' Hw. destruct (H2 c' Hc' Hw) as (c & Hc & M2 & K2). assert (c = c1) as -> by congruence. destruct (H1 c1 Hc1 Hw1) as (c0 & Hc0 & M1 & K1). exists c0. split; [done|]. split; [tauto|].
  destruct K2 as [K2|K2]; [tauto|]. destruct K1 as [K1|K1]; [left; by apply M2|right; by eapply kept_trans].
Qed.

(** Steps that change no key and remove no mark. *)
Definition calm {A} (m : Spec A) : Prop :=
  forall t, a_dbs (snd (m t)) = a_dbs t /\ forall j c', a_clients (snd (m t)) !! j = Some c' -> exists c, a_clients t !! j = Some c /\ (a_cas c = true -> a_cas c' = true).

Lemma calm_quiet {A} (m : Spec A) : (forall t, a_dbs (snd (m t)) = a_dbs t) -> (forall t, a_clients (snd (m t)) = a_clients t) -> calm m.
Proof. intros Hd Hc t. split; [apply Hd|]. rewrite Hc. intros j c' H. by exists c'. Qed.

Lemma calm_bind {A B} (m : Spec A) (k : A -> Spec B) : calm m -> (forall x, calm (k x)) -> calm (sbind m k).
Proof.
  intros Hm Hk t. rewrite sbind_eq. destruct (Hm t) as [D1 C1]. destruct (Hk (fst (m t)) (snd (m t))) as [D2 C2]. split; [congruence|]. intros j c' H. destruct (C2 j c' H) as (c1 & H1 & M1). destruct (C1 j c1 H1) as (c & H0 & M0). exists c. split; [done|tauto].
Qed.

Lemma calm_on_me f : (forall c, a_cas (f c) = a_cas c) -> calm (on_me f).
Proof.
  intros Hf t. split; [done|]. intros j c'. cbn. destruct (decide (a_cur t = j)) as [<-|Hne]; [|rewrite lookup_alter_ne by done; intros H; by exists c']. rewrite lookup_alter_eq. destruct (a_clients t !! a_cur t) as [c|]; [|done]. intros [= <-]. exists c. by rewrite Hf.
Qed.

Lemma calm_for {A} (f : A -> Spec unit) l : (forall x, calm (f x)) -> calm (sfor l f).
Proof. intros Hf. induction l as [|x l IH]; cbn [sfor]; [by apply calm_quiet|]. apply calm_bind; [apply Hf|done]. Qed.

Ltac calm :=
  repeat first
    [ apply calm_bind; [|intros ?] | apply calm_on_me; intros ?; repeat case_match; done | by apply calm_quiet
    | apply calm_for; intros ? | case_match | progress cbv zeta ].

Lemma calm_watch e id args arity : lookupCommand (argn args 0) = Some (WATCH, arity) -> calm (s_request e lookupCommand id args).
Proof. intros Hw. unfold s_request, s_process. rewrite Hw. cbn [s_proc]. unfold s_flag, s_reply, s_call, sWATCH, s_watch, s_my_db, s_me, s_log. calm. Qed.

Lemma calm_safe {A} (m : Spec A) now i wk t : calm m -> safe now i wk t (snd (m t)).
Proof. intros Hm c' Hc' _. destruct (Hm t) as [Hd Hc]. destruct (Hc i c' Hc') as (c & H & M). exists c. split; [done|]. split; [done|]. right. assert (kv (snd (m t)) wk = kv t wk) as -> by (unfold kv; by rewrite Hd). apply kept_refl. Qed.

Lemma safe_perform now i wk x t : fair_event now x -> queues_announced t -> safe now i wk t (snd (s_perform x t)) /\ queues_announced (snd (s_perform x t)).
Proof.
  unfold s_perform. intros [Hn Hf] Hq. destruct (ev_action x) as [|args|].
  - split; [|intros j c; cbn; intros [[<- <-]|[_ Hc]]%lookup_insert_Some; [constructor|by eapply Hq]]. intros c'. cbn. intros [[_ <-]|[_ Hc]]%lookup_insert_Some Hw; [by apply elem_of_nil in Hw|]. exists c'. split; [done|]. split; [done|]. right. apply kept_refl.
  - split.
    + destruct (lookupCommand (argn args 0)) as [[cm arity]|] eqn:El; [destruct (decide (cm = WATCH)) as [->|Hne]|]; [by eapply calm_safe, calm_watch| |];
        apply told_safe, told_request; [done| |done|apply told_refl|done| |done|apply told_refl]; rewrite El; [|done]. intros cm' arity' [= <- <-]. split; [by eapply Hf|done].
    + intros j c' Hc'. destruct (ss_queues _ _ (shaped_request (ok := fun p => unannounced (fst p) = false) (ev_env x) lookupCommand (ev_client x) args Hf t) j c' Hc') as (c & Hc & Hp).
      apply Forall_forall. intros p Hin. destruct (Hp p Hin) as [H1|H1]; [|done]. pose proof (Hq j c Hc) as Ha. unfold announced in Ha. rewrite Forall_forall in Ha. by apply Ha.
  - split; [|intros j c; cbn; intros [_ Hc]%lookup_delete_Some; by eapply Hq]. intros c'. cbn. intros [_ Hc']%lookup_delete_Some _. exists c'. split; [done|]. split; [done|]. right. apply kept_refl.
Qed.

(** Client [i] watches key [k] of database [d]; it does so all the time. *)
Definition watches (s : server) (i : Z) (d : nat) (k : key) : Prop :=
  exists c wk, clients s !! i = Some c /\ wk ∈ c_watched c /\ wk_db wk = d /\ sds_at (sheap s) (wk_key wk) k.
Definition watches_throughout (l : list event) (s : server) (i : Z) (d : nat) (k : key) : Prop :=
  forall l1 l2 s1, l = l1 ++ l2 -> requests l1 s = Some (tt, s1) -> watches s1 i d k.

Lemma watches_abs s i d k : watches s i d k -> exists c, a_clients (abs None s) !! i = Some c /\ (d, k) ∈ a_watched c.
Proof.
  intros (c & wk & Hc & Hw & Hd & Hk). exists (abs_client (sheap s) false c). split; [by rewrite lookup_abs_client, Hc|]. cbn. apply list_elem_of_fmap. exists wk. split; [|done]. by rewrite Hd, (sds_text _ _ _ Hk).
Qed.

Lemma safe_history now i d k l : forall s s', idle s -> valid (links s) l = true -> Forall (fair_event now) l -> queues_announced (abs None s) -> watches_throughout l s i d k -> requests l s = Some (tt, s') ->
  safe now i (d, k) (abs None s) (abs None s').
Proof.
  induction l as [|x l IH]; intros s s' Hs; cbn [valid requests]; [intros _ _ _ _ [= <-]; apply told_safe, told_refl|]. intros [Hx Hl]%andb_true_iff [Hfx Hfl]%Forall_cons Hq Hw R.
  destruct (perform_run x s Hs Hx) as (s1 & R1 & Hs1 & A1 & L1). unfold bind in R. rewrite R1 in R. destruct (safe_perform now i (d, k) x _ Hfx Hq) as [Sx Hqx]. rewrite <- A1 in Sx, Hqx.
  assert (watches_throughout l s1 i d k) as Hw1. { intros l1 l2 s2 -> R2. apply (Hw (x :: l1) l2); [done|]. cbn [requests]. unfold bind. by rewrite R1. }
  destruct (watches_abs s1 i d k (Hw1 [] l s1 eq_refl eq_refl)) as (c1 & Hc1 & Hin1). eapply safe_trans; [exact Sx| |exact Hc1|exact Hin1]. apply IH; [done|by rewrite L1|done|done|done|done].
Qed.

(** What is stored at a key, with its deadline. *)
Definition stored (s : server) (d : nat) (k : key) : option entry := db ← dbs s !! d; db_kv (sheap s) db !! k.

Lemma stored_abs s d k : stored s d k = kv (abs None s) (d, k).
Proof. unfold stored, kv. cbn [fst snd]. rewrite lookup_abs_db. by destruct (dbs s !! d) as [db|]. Qed.

(** No queue holds MOVE or SWAPDB. *)
Definition no_moves_queued (s : server) : Prop := forall j c mc, clients s !! j = Some c -> mc ∈ mstate c -> unannounced (mc_cmd mc) = false.

Lemma no_moves_abs s : no_moves_queued s -> queues_announced (abs None s).
Proof.
  intros H j c' Hc'. rewrite lookup_abs_client in Hc'. destruct (clients s !! j) as [c|] eqn:Hc; [|done]. injection Hc' as <-. cbn. apply Forall_forall. intros p Hp. apply list_elem_of_fmap in Hp as (mc & -> & Hmc). by apply (H j c).
Qed.

(** ** EXEC of a client that was told *)

Definition EXEC_args : list (list Z) := [bytes_of "EXEC"].

Lemma on_me_lookup f t : a_clients (snd (on_me f t)) !! a_cur t = f <$> a_clients t !! a_cur t.
Proof. cbn. apply lookup_alter_eq. Qed.

(** It answers with at most one reply, which is not the head of results. *)
Definition no_results (c c' : aclient) : Prop := a_out c' = a_out c \/ exists r, a_out c' = a_out c ++ [r] /\ forall n, r <> R_multibulklen n.

Lemma reply_no_results r t c : (forall n, r <> R_multibulklen n) -> a_clients t !! a_cur t = Some c -> exists c', a_clients (snd (s_reply r t)) !! a_cur t = Some c' /\ no_results c c'.
Proof.
  intros Hr Hc. unfold s_reply. rewrite on_me_lookup, Hc. eexists. split; [reflexivity|]. unfold no_results. cbn. destruct (a_master c); [by left|]. right. by exists r.
Qed.

Lemma refused_no_results e m a cm f r : refused e m a cm = Some (f, r) -> forall n, r <> R_multibulklen n.
Proof. unfold refused, disk_error_reply. intros H n ->. repeat case_match; simplify_eq. Qed.

Lemma call_clients p t : a_clients (snd (s_call p t)) = a_clients (snd (p t)).
Proof. unfold s_call. do 3 (rewrite sbind_eq; cbv beta). case_match; [|done]. by do 2 (rewrite sbind_eq; cbv beta). Qed.

Lemma exec_marked e i t c : a_clients t !! i = Some c -> a_cas c = true -> exists c', a_clients (snd (s_request e lookupCommand i EXEC_args t)) !! i = Some c' /\ no_results c c'.
Proof.
  intros Hc Hcas. unfold s_request. do 2 (rewrite sbind_eq; cbv beta). set (t1 := snd (smod (fun t => t_cur t i) t)). assert (a_cur t1 = i) as Hu by done. assert (a_clients t1 !! i = Some c) as Hc1 by done. clearbody t1.
  change (snd (s_me t1)) with t1. assert (fst (s_me t1) = c) as -> by (unfold s_me, sgets; cbn; by rewrite Hu, Hc1). destruct (a_closing c); [exists c; split; [done|by left]|].
  do 2 (rewrite sbind_eq; cbv beta). set (t2 := snd (smod _ _)). assert (a_cur t2 = i) as Hu2 by exact Hu. assert (a_clients t2 !! i = Some c) as Hc2 by exact Hc1. clearbody t2. clear t1 Hu Hc1. do 2 (rewrite sbind_eq; cbv beta).
  match goal with |- exists c', a_clients (snd (smod _ ?t3)) !! i = _ /\ _ => change (exists c', a_clients t3 !! i = Some c' /\ no_results c c') end.
  change (snd (sgets a_cmd (snd (s_process e lookupCommand EXEC_args t2)))) with (snd (s_process e lookupCommand EXEC_args t2)).
  unfold s_process. change (s_quit (argn EXEC_args 0)) with false. assert (lookupCommand (argn EXEC_args 0) = Some (EXEC, 1)) as -> by reflexivity. cbv iota. rewrite sbind_eq. set (t3 := snd (smod _ t2)). assert (a_cur t3 = i) as Hu3 by exact Hu2. assert (a_clients t3 !! i = Some c) as Hc3 by exact Hc2. clearbody t3.
  change ((1 >? 0) && negb (1 =? zlen EXEC_args) || (zlen EXEC_args <? - (1))) with false. cbv iota. rewrite sbind_eq. change (snd (s_me t3)) with t3. assert (fst (s_me t3) = c) as -> by (unfold s_me, sgets; cbn; by rewrite Hu3, Hc3).
  assert (forall f r, (forall x, a_out (f x) = a_out x) -> (forall n, r <> R_multibulklen n) -> exists c', a_clients (snd ((on_me f;; s_reply r) t3)) !! i = Some c' /\ no_results c c') as Hquiet.
  { intros f r Hf Hr. rewrite sbind_eq. assert (a_clients (snd (on_me f t3)) !! i = Some (f c)) as Hc4 by (rewrite <- Hu3, on_me_lookup, Hu3, Hc3; done). change (a_cur t3) with (a_cur (snd (on_me f t3))) in Hu3.
    destruct (reply_no_results r (snd (on_me f t3)) (f c) Hr) as (c' & Hc' & Hn); [by rewrite Hu3|]. rewrite Hu3 in Hc'. exists c'. split; [done|]. unfold no_results in *. by rewrite Hf in Hn. }
  assert (forall r, (forall n, r <> R_multibulklen n) -> exists c', a_clients (snd (s_reply r t3)) !! i = Some c' /\ no_results c c') as Hreply.
  { intros r Hr. destruct (reply_no_results r t3 c Hr) as (c' & Hc' & Hn); [by rewrite Hu3|]. rewrite Hu3 in Hc'. by exists c'. }
  destruct (refused e (a_master c) (a_auth c) EXEC) as [[[|] r]|] eqn:Er; [apply Hquiet; [intros x; by case_match|by eapply refused_no_results]|rewrite sbind_eq; apply Hreply; by eapply refused_no_results|].
  rewrite (bool_decide_eq_true_2 (EXEC = EXEC)) by done. cbn [negb]. rewrite andb_false_r. cbn [andb]. rewrite call_clients. cbn [s_proc]. unfold sEXEC. rewrite sbind_eq. change (snd (s_me t3)) with t3.
  assert (fst (s_me t3) = c) as -> by (unfold s_me, sgets; cbn; by rewrite Hu3, Hc3). destruct (negb (a_multi c)); [by apply Hreply|]. rewrite Hcas. cbn [orb]. rewrite sbind_eq.
  destruct (Hreply (if a_abort c then R_execaborterr else R_nullmultibulk)) as (c' & Hc' & Hn); [by destruct (a_abort c)|]. match type of Hc' with a_clients ?t4 !! _ = _ => assert (a_cur t4 = i) as Hu4 by exact Hu3; set (t5 := t4) in * end.
  unfold s_discard. rewrite <- Hu4, on_me_lookup, Hu4, Hc'. eexists. split; [reflexivity|]. exact Hn.
Qed.

(** ** Theorems *)

(** C1: the server refines the abstract key space.  From a state between two
    requests, whatever clients connect, send and disconnect, in any order and at
    any times, runs to its end (no object is used after its release, no assertion
    fails, no lookup is out of range), leaves such a state again, and has on the
    databases, deadlines, watched keys, queues and replies, and on what is sent to
    the replicas, exactly the effect that the specifications of the commands give
    it, transactions and refused commands included.  The configuration may change
    with every request, within what [env] has: there is no memory limit, no
    cluster, no script or subscription, values are freed at once, and memory is
    never short.  MOVE, SWAPDB and PERSIST do not tell the clients that watch a
    key, although the comment on [signalModifiedKey] says that every change does. *)
Theorem requests_refine_keyspace (l : list event) (s : server) :
  idle s -> valid (links s) l = true -> exists s', requests l s = Some (tt, s') /\ idle s' /\ abs None s' = snd (s_requests l (abs None s)).
Proof. intros Hs Hl. exact (requests_run l s Hs Hl). Qed.

(** C4: the reference counts stay exact.  After any requests, connections and
    disconnections, every object has a pointer that fits its type and encoding,
    its reference count is the number of references to it from the databases, from
    the queued commands, from the keys that clients watch and from the tables of
    watched keys (unless it is a shared object), and these references point to
    objects that exist: nothing leaks and nothing dangles. *)
Theorem reference_counts_exact (l : list event) (s : server) :
  idle s -> valid (links s) l = true ->
  exists s', requests l s = Some (tt, s') /\ argv s' = [] /\
    (forall a o, cells (sheap s') !! a = Some o -> object_ok o /\ (refcount o = OBJ_SHARED_REFCOUNT \/ refcount o = count a (db_refs s' ++ wrefs (wtab s') ++ qrefs (queues s')) /\ 0 < refcount o)) /\
    (forall a, a ∈ db_refs s' ++ wrefs (wtab s') ++ qrefs (queues s') -> is_Some (cells (sheap s') !! a)).
Proof.
  intros Hs Hl. destruct (requests_run l s Hs Hl) as (s' & R & Hs' & _). exists s'. split; [done|]. split; [apply Hs'|]. pose proof (id_heap _ Hs') as Hh. split; [|apply (ho_live _ _ Hh)].
  intros a o Ho. split; [apply (ho_object _ _ Hh a o Ho)|]. destruct (ho_count _ _ Hh a o Ho) as [H|[H1 H2]]; [by left|right]. split; [done|lia].
Qed.

(** C2: optimistic locking with WATCH.  A client watches a key; whatever the
    clients do then, as long as it goes on watching the key (it may WATCH this and
    other keys again), if its EXEC runs its queue (it answers with the number of
    results) the key has the value that it had at the start, or is gone because
    its deadline has passed; its deadline may have been removed.  MOVE and SWAPDB
    are excluded, in the history and in the queues: they do not tell the clients
    that watch a key. *)
Theorem watched_keys_unchanged (now i : Z) (l : list event) (e : env) (s s' s'' : server) (c' c'' : client) (d : nat) (k : key) (n : Z) (results : list reply) :
  idle s -> valid (links s) l = true -> Forall (fair_event now) l -> no_moves_queued s -> watches_throughout l s i d k ->
  requests l s = Some (tt, s') -> clients s' !! i = Some c' ->
  request e i EXEC_args s' = Some (tt, s'') -> clients s'' !! i = Some c'' -> out c'' = out c' ++ R_multibulklen n :: results ->
  kept now (stored s d k) (stored s' d k).
Proof.
  intros Hs Hl Hf Hq Hw R Hc' R2 Hc'' Ho. destruct (requests_run l s Hs Hl) as (s1 & R1 & Hs1 & _). rewrite R in R1. injection R1 as <-.
  pose proof (safe_history now i d k l s s' Hs Hl Hf (no_moves_abs _ Hq) Hw R) as H. destruct (watches_abs s' i d k (Hw l [] s' (eq_sym (app_nil_r l)) R)) as (x & Hx & Hin).
  destruct (H x Hx Hin) as (c & Hc & _ & [H1|H1]); [|by rewrite !stored_abs]. exfalso.
  destruct (request_refines e s' i EXEC_args Hs1) as (s2 & R3 & _ & A2); [by eexists|done|]. rewrite R2 in R3. injection R3 as <-. destruct (exec_marked e i _ _ Hx H1) as (c2 & Hc2 & Hn). rewrite <- A2, lookup_abs_client, Hc'' in Hc2. injection Hc2 as <-.
  rewrite lookup_abs_client, Hc' in Hx. injection Hx as <-. unfold no_results in Hn. cbn in Hn. rewrite Ho in Hn. destruct Hn as [Hn|(r & Hn & Hr)]; [apply (f_equal length) in Hn; rewrite length_app in Hn; cbn in Hn; lia|]. apply app_inv_head in Hn. injection Hn as Hn _. by apply (Hr n).
Qed.

(** ** Examples *)

(** A master with the default configuration, at time [t]. *)
Definition at_time (t : Z) : env := mk_env t false true false None true 3 true false true 0 10 0 false true (fun _ => "").
Definition ask (t id : Z) (words : list string) : event := mk_event (at_time t) id (Request (map bytes_of words)).
Definition joins (t id : Z) : event := mk_event (at_time t) id Connect.
Definition goes (t id : Z) : event := mk_event (at_time t) id Disconnect.
Definition after (l : list event) (s : server) : server := match requests l s with Some (_, s) => s | None => s end.
Definition fresh : server := initServer 2.

(** A counter that is watched, and a transaction on it, among others. *)
Definition prepare : list event :=
  [joins 90 1; joins 91 2; joins 92 3; ask 100 1 ["SET"; "n"; "41"]; ask 101 1 ["WATCH"; "n"]; ask 102 2 ["SET"; "m"; "x"; "PX"; "50"]; ask 103 3 ["WATCH"; "n"]; ask 104 3 ["MULTI"]; ask 105 3 ["GET"; "m"]].
Definition meanwhile : list event := [ask 106 1 ["WATCH"; "z"; "n"]; ask 110 2 ["GET"; "n"]; ask 120 2 ["APPEND"; "m"; "y"]; goes 125 3; ask 130 1 ["MULTI"]; ask 131 1 ["INCR"; "n"]].
Definition transaction : list event := meanwhile ++ [ask 140 1 ["EXEC"]; ask 160 1 ["GET"; "m"]; ask 161 1 ["QUIT"]; goes 162 2].

(** The abstract state after them. *)
Definition spec_after (l : list event) (s : server) : astate := snd (s_requests l (abs None s)).

Lemma after_run l s : idle s -> valid (links s) l = true -> requests l s = Some (tt, after l s) /\ idle (after l s) /\ abs None (after l s) = spec_after l s.
Proof. intros Hs Hl. destruct (requests_run l s Hs Hl) as (s' & R & Hs' & A). unfold after. by rewrite R. Qed.

Lemma fresh_idle : idle fresh.
Proof. apply init_idle. lia. Qed.

(** What a client gets, and what is stored, is read off the abstract state. *)
Lemma replies_after l i : valid (links fresh) l = true -> out <$> clients (after l fresh) !! i = a_out <$> a_clients (spec_after l fresh) !! i.
Proof. intros Hl. destruct (after_run l fresh fresh_idle Hl) as (_ & _ & <-). rewrite lookup_abs_client. by destruct (clients (after l fresh) !! i). Qed.

Lemma stored_after l d k : valid (links fresh) l = true -> stored (after l fresh) d k = kv (spec_after l fresh) (d, k).
Proof. intros Hl. destruct (after_run l fresh fresh_idle Hl) as (_ & _ & <-). by rewrite stored_abs. Qed.

Definition fair_eventb (now : Z) (x : event) : bool :=
  (mstime (ev_env x) <=? now) &&
  match ev_action x with
  | Request args => match lookupCommand (argn args 0) with Some (cm, _) => negb (unannounced cm) | None => true end
  | Connect | Disconnect => true
  end.

Lemma fair_eventb_ok now l : forallb (fair_eventb now) l = true -> Forall (fair_event now) l.
Proof.
  rewrite forallb_forall. intros H. apply Forall_forall. intros x Hx%list_elem_of_In. apply H in Hx. unfold fair_eventb in Hx. apply andb_true_iff in Hx as [H1 H2]. split; [lia|]. destruct (ev_action x) as [|args|]; [done| |done]. intros cm arity E. rewrite E in H2. by apply negb_true_iff.
Qed.

(** Whether a client watches a key throughout is read off the abstract states. *)
Definition watchingb (i : Z) (wk : nat * key) (t : astate) : bool := match a_clients t !! i with Some c => bool_decide (wk ∈ a_watched c) | None => false end.
Fixpoint watching_throughoutb (i : Z) (wk : nat * key) (l : list event) (t : astate) : bool :=
  watchingb i wk t && match l with [] => true | x :: l => watching_throughoutb i wk l (snd (s_perform x t)) end.

Lemma watchingb_ok s i d k : idle s -> watchingb i (d, k) (abs None s) = true -> watches s i d k.
Proof.
  intros Hs. unfold watchingb. rewrite lookup_abs_client. destruct (clients s !! i) as [c|] eqn:Hc; [|done]. cbn. rewrite bool_decide_eq_true. intros (wk & [= -> ->] & Hwk)%list_elem_of_fmap. exists c, wk. split; [done|]. split; [done|]. split; [done|].
  destruct (id_strings _ Hs (wk_key wk)) as [x Hx]; [apply elem_of_app; left; by eapply wrefs_client|]. by rewrite (sds_text _ _ _ Hx).
Qed.

Lemma watching_throughoutb_ok i d k l : forall s, idle s -> valid (links s) l = true -> watching_throughoutb i (d, k) l (abs None s) = true -> watches_throughout l s i d k.
Proof.
  induction l as [|x l IH]; intros s Hs; cbn [valid watching_throughoutb].
  - intros _ [H _]%andb_true_iff l1 l2 s1 E R. destruct l1; [|done]. injection R as <-. by apply watchingb_ok.
  - intros [Hx Hl]%andb_true_iff [H1 H2]%andb_true_iff l1 l2 s1 E R. destruct l1 as [|y l1]; [injection R as <-; by apply watchingb_ok|]. injection E as <- ->. cbn [requests] in R. unfold bind in R.
    destruct (perform_run x s Hs Hx) as (s2 & R2 & Hs2 & A2 & L2). rewrite R2 in R. rewrite <- A2 in H2. apply (IH s2 Hs2) in H2; [|by rewrite L2]. by eapply H2.
Qed.

Lemma requests_refine_keyspace_witness :
  out <$> clients (after (prepare ++ transaction) fresh) !! 1 = Some [R_ok; R_ok; R_ok; R_ok; R_queued; R_multibulklen 1; R_colon (bytes_of "42"); R_nullbulk; R_ok] /\
  exists s', requests (prepare ++ transaction) fresh = Some (tt, s') /\ idle s' /\ abs None s' = snd (s_requests (prepare ++ transaction) (abs None fresh)).
Proof. split; [rewrite replies_after by reflexivity; vm_compute; reflexivity|]. apply requests_refine_keyspace; [apply fresh_idle|reflexivity]. Defined.

Lemma reference_counts_exact_witness :
  exists s', requests (prepare ++ transaction) fresh = Some (tt, s') /\ argv s' = [] /\
    (forall a o, cells (sheap s') !! a = Some o -> object_ok o /\ (refcount o = OBJ_SHARED_REFCOUNT \/ refcount o = count a (db_refs s' ++ wrefs (wtab s') ++ qrefs (queues s')) /\ 0 < refcount o)) /\
    (forall a, a ∈ db_refs s' ++ wrefs (wtab s') ++ qrefs (queues s') -> is_Some (cells (sheap s') !! a)).
Proof. apply reference_counts_exact; [apply fresh_idle|reflexivity]. Defined.

(** No moves are queued where the abstract queues have none. *)
Lemma quiet_queues_ok s : forallb (fun p => forallb (fun x => negb (unannounced (fst x))) (a_queue (snd p))) (map_to_list (a_clients (abs None s))) = true -> no_moves_queued s.
Proof.
  rewrite forallb_forall. intros H j c mc Hc Hmc. assert ((j, abs_client (sheap s) false c) ∈ map_to_list (a_clients (abs None s))) as Hin by (apply elem_of_map_to_list; by rewrite lookup_abs_client, Hc).
  apply list_elem_of_In, H in Hin. rewrite forallb_forall in Hin. specialize (Hin (mc_cmd mc, map (text_at (sheap s)) (mc_argv mc))). apply negb_true_iff, Hin, list_elem_of_In. cbn. apply list_elem_of_fmap. by exists mc.
Qed.

Lemma watched_keys_unchanged_witness :
  let s := after prepare fresh in let s' := after meanwhile s in
  stored s 0 (bytes_of "n") = Some (VString (bytes_of "41"), None) /\ kept 131 (stored s 0 (bytes_of "n")) (stored s' 0 (bytes_of "n")).
Proof.
  intros s s'. split; [unfold s; rewrite stored_after by reflexivity; vm_compute; reflexivity|].
  assert (requests prepare fresh = Some (tt, s) /\ idle s /\ abs None s = spec_after prepare fresh) as (R & Hs & A) by (apply after_run; [apply fresh_idle|reflexivity]). clearbody s.
  assert (valid (links s) meanwhile = true) as Hl by (rewrite links_abs, A; vm_compute; reflexivity).
  assert (requests meanwhile s = Some (tt, s') /\ idle s' /\ abs None s' = spec_after meanwhile s) as (R' & Hs' & A') by (by apply after_run). clearbody s'. unfold spec_after in A' at 1. rewrite A in A'.
  assert (exists c', clients s' !! 1 = Some c' /\ out c' = [R_ok; R_ok; R_ok; R_ok; R_queued]) as (c' & Hc' & Ho).
  { pose proof (lookup_abs_client None s' 1) as H. rewrite A' in H. replace (a_clients (snd (s_requests meanwhile (spec_after prepare fresh))) !! 1) with
      (Some (mk_ac 0 true false false false false false [(INCR, [bytes_of "INCR"; bytes_of "n"])] [(0%nat, bytes_of "n"); (0%nat, bytes_of "z")] [R_ok; R_ok; R_ok; R_ok; R_queued])) in H by (vm_compute; reflexivity).
    destruct (clients s' !! 1) as [c'|]; [|done]. exists c'. split; [reflexivity|]. injection H as _ _ _ _ _ _ _ _ _ H2. exact (eq_sym H2). }
  destruct (request_refines (at_time 140) s' 1 EXEC_args Hs') as (s'' & R'' & _ & A''); [by eexists|done|].
  assert (exists c'', clients s'' !! 1 = Some c'' /\ out c'' = [R_ok; R_ok; R_ok; R_ok; R_queued; R_multibulklen 1; R_colon (bytes_of "42")]) as (c'' & Hc'' & Ho'').
  { pose proof (lookup_abs_client None s'' 1) as H. rewrite A'', A' in H. replace (a_clients (snd (s_request (at_time 140) lookupCommand 1 EXEC_args (snd (s_requests meanwhile (spec_after prepare fresh))))) !! 1) with
      (Some (mk_ac 0 false false false false false false [] [] [R_ok; R_ok; R_ok; R_ok; R_queued; R_multibulklen 1; R_colon (bytes_of "42")])) in H by (vm_compute; reflexivity).
    destruct (clients s'' !! 1) as [c''|]; [|done]. exists c''. split; [reflexivity|]. injection H as _ _ _ _ _ _ _ _ _ H1. exact (eq_sym H1). }
  apply (watched_keys_unchanged 131 1 meanwhile (at_time 140) s s' s'' c' c'' 0 (bytes_of "n") 1 [R_colon (bytes_of "42")]);
    [exact Hs|exact Hl|apply fair_eventb_ok; reflexivity|apply quiet_queues_ok; rewrite A; vm_compute; reflexivity|apply watching_throughoutb_ok; [exact Hs|exact Hl|rewrite A; vm_compute; reflexivity]|exact R'|exact Hc'|exact R''|exact Hc''|rewrite Ho, Ho''; reflexivity].
Defined.

(** MOVE and SWAPDB change a watched key without a mark: EXEC runs, and INCR
    starts from a key that is no longer there. *)
Definition lost_update (words : list string) : list event :=
  [joins 90 1; joins 91 2; ask 100 1 ["SET"; "n"; "41"]; ask 101 1 ["WATCH"; "n"]; ask 102 2 words; ask 103 1 ["MULTI"]; ask 104 1 ["INCR"; "n"]; ask 105 1 ["EXEC"]].

Lemma watch_misses_move :
  out <$> clients (after (lost_update ["MOVE"; "n"; "1"]) fresh) !! 1 = Some [R_ok; R_ok; R_ok; R_queued; R_multibulklen 1; R_colon (bytes_of "1")].
Proof. rewrite replies_after by reflexivity. vm_compute. reflexivity. Qed.

Lemma watch_misses_swapdb :
  out <$> clients (after (lost_update ["SWAPDB"; "0"; "1"]) fresh) !! 1 = Some [R_ok; R_ok; R_ok; R_queued; R_multibulklen 1; R_colon (bytes_of "1")].
Proof. rewrite replies_after by reflexivity. vm_compute. reflexivity. Qed.

(** Any other change is noticed: EXEC answers nil. *)
Lemma watch_notices_set :
  out <$> clients (after (lost_update ["SET"; "n"; "7"]) fresh) !! 1 = Some [R_ok; R_ok; R_ok; R_queued; R_nullmultibulk].
Proof. rewrite replies_after by reflexivity. vm_compute. reflexivity. Qed.

(** The index of a database is taken modulo 2^32. *)
Lemma select_wraps : out <$> clients (after [joins 90 1; ask 100 1 ["SELECT"; "4294967296"]] fresh) !! 1 = Some [R_ok].
Proof. rewrite replies_after by reflexivity. vm_compute. reflexivity. Qed.
