(* ===== verification/Rdb.v ===== *)
(** * Snapshots ([rdb.c], [rio.c], [rio.h])

    Writing the databases to a stream and reading them back: lengths, integers
    and strings in their compact forms (LZF included), deadlines, the auxiliary
    fields with the state of replication, the end mark and the checksum.  The
    functions run in a state monad over the stream and the server; their four
    outcomes are a result, the error value of the function (-1, NULL or
    [RDB_LENERR]; a stream that is full or exhausted), the end of the process
    on a corrupt file, and [Stuck] for a failed assertion, an access out of
    bounds or what is not modelled.

    A stream for reading is the bytes that are left; one for writing, the bytes
    written and, for a file, how many more the device takes.  Both keep the
    checksum of what passed, in chunks as the code processes them.

    Left out: values that are not strings, the counts of bytes written that the
    functions return, the difference that an AOF rewrite reads meanwhile, the
    events that are served while a file is loaded, and the ages of values,
    which are written and skipped but not kept in objects. *)

From S2P Require Import Prelude Endianconv Numstr Lzf Crc64 Objects Db Keyspace Commands.
From stdpp Require Import strings options.
#[local] Open Scope Z_scope.

Definition RDB_VERSION : Z := 9.
Definition RDB_6BITLEN : Z := 0.
Definition RDB_14BITLEN : Z := 1.
Definition RDB_32BITLEN : Z := 0x80.
Definition RDB_64BITLEN : Z := 0x81.
Definition RDB_ENCVAL : Z := 3.
Definition RDB_LENERR : Z := 2 ^ 64 - 1.
Definition RDB_ENC_INT8 : Z := 0.
Definition RDB_ENC_INT16 : Z := 1.
Definition RDB_ENC_INT32 : Z := 2.
Definition RDB_ENC_LZF : Z := 3.
Definition RDB_TYPE_STRING : Z := 0.
Definition rdbIsObjectType (t : Z) : bool := (t >=? 0) && (t <=? 7) || (t >=? 9) && (t <=? 15).
Definition RDB_OPCODE_MODULE_AUX : Z := 247.
Definition RDB_OPCODE_IDLE : Z := 248.
Definition RDB_OPCODE_FREQ : Z := 249.
Definition RDB_OPCODE_AUX : Z := 250.
Definition RDB_OPCODE_RESIZEDB : Z := 251.
Definition RDB_OPCODE_EXPIRETIME_MS : Z := 252.
Definition RDB_OPCODE_EXPIRETIME : Z := 253.
Definition RDB_OPCODE_SELECTDB : Z := 254.
Definition RDB_OPCODE_EOF : Z := 255.
Definition UINT32_MAX : Z := 2 ^ 32 - 1.
Definition LONG_STR_SIZE : Z := 21.
Definition CONFIG_RUN_ID_SIZE : Z := 40.

(** ** Streams *)

Record rio := mk_rio {
  inp : list Z;
  outp : list Z;
  room : option Z;
  update_cksum : bool;
  cksum : Z;
  max_processing_chunk : Z;
}.

(** [rioInitWithBuffer], and a file that is written. *)
Definition rioInitWithBuffer (s : list Z) : rio := mk_rio s [] None false 0 0.
Definition rioInitWithFile (s : list Z) (space : Z) : rio := mk_rio s [] (Some space) false 0 0.

Definition rioGenericUpdateChecksum (r : rio) (buf : list Z) : rio :=
  mk_rio (inp r) (outp r) (room r) (update_cksum r) (crc64 (cksum r) buf) (max_processing_chunk r).

Definition with_cksum (r : rio) (buf : list Z) : rio := if update_cksum r then rioGenericUpdateChecksum r buf else r.

(** [rioBufferWrite] and [rioFileWrite]; [rioBufferRead] and [rioFileRead]. *)
Definition backend_write (r : rio) (buf : list Z) : option rio :=
  match room r with
  | Some k => if k <? zlen buf then None else Some (mk_rio (inp r) (outp r ++ buf) (Some (k - zlen buf)) (update_cksum r) (cksum r) (max_processing_chunk r))
  | None => Some (mk_rio (inp r) (outp r ++ buf) None (update_cksum r) (cksum r) (max_processing_chunk r))
  end.

Definition backend_read (r : rio) (len : Z) : option (list Z * rio) :=
  if zlen (inp r) <? len then None else
  Some (take (Z.to_nat len) (inp r), mk_rio (drop (Z.to_nat len) (inp r)) (outp r) (room r) (update_cksum r) (cksum r) (max_processing_chunk r)).

Definition chunk (r : rio) (len : Z) : Z :=
  if negb (max_processing_chunk r =? 0) && (max_processing_chunk r <? len) then max_processing_chunk r else len.

Fixpoint rio_write_loop (fuel : nat) (r : rio) (buf : list Z) : option rio :=
  if zlen buf =? 0 then Some r else
  match fuel with
  | O => None
  | S fuel =>
    let n := Z.to_nat (chunk r (zlen buf)) in
    let r := with_cksum r (take n buf) in
    r ← backend_write r (take n buf);
    rio_write_loop fuel r (drop n buf)
  end.

Fixpoint rio_read_loop (fuel : nat) (r : rio) (len : Z) : option (list Z * rio) :=
  if len =? 0 then Some ([], r) else
  match fuel with
  | O => None
  | S fuel =>
    let n := chunk r len in
    '(buf, r) ← backend_read r n;
    let r := with_cksum r buf in
    '(rest, r) ← rio_read_loop fuel r (len - n);
    Some (buf ++ rest, r)
  end.

(** ** State and outcomes *)

Record rdbSaveInfo := mk_rsi {
  repl_stream_db : Z;
  repl_id_is_set : bool;
  repl_id : list Z;
  repl_offset : Z;
}.

Record state := mk_st {
  io : rio;
  srv : server;
  rsi : option rdbSaveInfo;          (* what the caller of the loader passes *)
  lua_scripts : list (list Z);       (* the bodies of the scripts known *)
}.

Definition set_io (t : state) (r : rio) : state := mk_st r (srv t) (rsi t) (lua_scripts t).
Definition set_srv (t : state) (s : server) : state := mk_st (io t) s (rsi t) (lua_scripts t).
Definition set_rsi (t : state) (i : option rdbSaveInfo) : state := mk_st (io t) (srv t) i (lua_scripts t).
Definition set_scripts (t : state) (l : list (list Z)) : state := mk_st (io t) (srv t) (rsi t) l.

Inductive outcome (A : Type) := Done (x : A) (t : state) | Failed | Exited | Stuck.
Arguments Done {A} x t.
Arguments Failed {A}.
Arguments Exited {A}.
Arguments Stuck {A}.

Definition R (A : Type) : Type := state -> outcome A.
Definition done {A} (x : A) : R A := fun t => Done x t.
Definition failed {A} : R A := fun _ => Failed.
(** [rdbExitReportCorruptRDB], [exit(1)] *)
Definition exits {A} : R A := fun _ => Exited.
Definition stuck {A} : R A := fun _ => Stuck.
Definition andthen {A B} (m : R A) (k : A -> R B) : R B :=
  fun t => match m t with Done x t => k x t | Failed => Failed | Exited => Exited | Stuck => Stuck end.

Declare Scope rdb_scope.
Delimit Scope rdb_scope with rdb.
Notation "x <- m ; k" := (andthen m (fun x => k)) (at level 100, m at next level, k at level 200, right associativity) : rdb_scope.
Notation "m ;; k" := (andthen m (fun _ => k)) (at level 100, k at level 200, right associativity) : rdb_scope.
#[local] Open Scope rdb_scope.

(** [goto eoferr] when the function reports an error. *)
Definition or_exit {A} (m : R A) : R A := fun t => match m t with Failed => Exited | o => o end.

(** Operations of the server and of its heap. *)
Definition serve {A} (m : M A) : R A := fun t => match m (srv t) with Some (x, s) => Done x (set_srv t s) | None => Stuck end.
Definition the {A} (o : option A) : R A := fun t => match o with Some x => Done x t | None => Stuck end.
Definition reading {A} (f : state -> A) : R A := fun t => Done (f t) t.

Fixpoint each {A} (l : list A) (f : A -> R unit) : R unit :=
  match l with
  | [] => done tt
  | x :: l => f x;; each l f
  end.

Definition rioWrite (buf : list Z) : R unit :=
  fun t => match rio_write_loop (length buf) (io t) buf with Some r => Done tt (set_io t r) | None => Failed end.
Definition rioRead (len : Z) : R (list Z) :=
  fun t => match rio_read_loop (Z.to_nat len) (io t) len with Some (buf, r) => Done buf (set_io t r) | None => Failed end.

(** ** Configuration *)

Record conf := mk_conf {
  host : byte_order;
  en : env;
  rdb_compression : bool;
  rdb_checksum : bool;
  loading_process_events_interval_bytes : Z;
  policy_lru : bool;                 (* maxmemory_policy & MAXMEMORY_FLAG_LRU *)
  policy_lfu : bool;                 (* maxmemory_policy & MAXMEMORY_FLAG_LFU *)
  estimateObjectIdleTime : addr -> Z;
  LFUDecrAndReturn : addr -> Z;
  time : Z;
  zmalloc_used_memory : Z;
  replid : list Z;
  master_repl_offset : Z;
  lua_compiles : list Z -> bool;
  htab : Z -> Z;                     (* the uninitialised table of lzf_compress *)
  junk : nat -> Z;                   (* what allocated memory holds *)
}.

Section Rdb.
Context (cf : conf).

(** ** Bytes and lengths *)

Definition rdbWriteRaw (p : list Z) : R unit := rioWrite p.
Definition rdbLoadRaw (len : Z) : R (list Z) := or_exit (rioRead len).

Definition rdbSaveType (type : Z) : R unit := rdbWriteRaw [type].
Definition rdbLoadType : R Z := buf <- rioRead 1; the (buf !! 0%nat).

Definition rdbLoadTime : R Z := buf <- rdbLoadRaw 4; done (swrap 32 (native_val (host cf) buf)).

Definition rdbSaveMillisecondTime (t : Z) : R unit :=
  buf <- the (memrev64ifbe (host cf) (native_bytes (host cf) 8 t));
  rdbWriteRaw buf.

Definition rdbLoadMillisecondTime (rdbver : Z) : R Z :=
  buf <- rdbLoadRaw 8;
  buf <- the (if rdbver >=? 9 then memrev64ifbe (host cf) buf else Some buf);
  done (swrap 64 (native_val (host cf) buf)).

Definition htonl (v : Z) : Z := match host cf with BIG_ENDIAN => v | LITTLE_ENDIAN => intrev32 (host cf) v end.
Definition ntohl (v : Z) : Z := htonl v.

Definition rdbSaveLen (len : Z) : R unit :=
  if len <? Z.shiftl 1 6 then rdbWriteRaw [Z.lor (Z.land len 0xff) (Z.shiftl RDB_6BITLEN 6)] else
  if len <? Z.shiftl 1 14 then rdbWriteRaw [Z.lor (Z.land (Z.shiftr len 8) 0xff) (Z.shiftl RDB_14BITLEN 6); Z.land len 0xff] else
  if len <=? UINT32_MAX then
    rdbWriteRaw [RDB_32BITLEN];;
    rdbWriteRaw (native_bytes (host cf) 4 (htonl len))
  else
    rdbWriteRaw [RDB_64BITLEN];;
    rdbWriteRaw (native_bytes (host cf) 8 (htonu64 (host cf) len)).

(** [*isencoded] and [*lenptr] *)
Definition rdbLoadLenByRef : R (bool * Z) :=
  buf <- rioRead 1;
  b <- the (buf !! 0%nat);
  let type := Z.shiftr (Z.land b 0xc0) 6 in
  if type =? RDB_ENCVAL then done (true, Z.land b 0x3f) else
  if type =? RDB_6BITLEN then done (false, Z.land b 0x3f) else
  if type =? RDB_14BITLEN then
    buf <- rioRead 1;
    b1 <- the (buf !! 0%nat);
    done (false, Z.lor (Z.shiftl (Z.land b 0x3f) 8) b1)
  else if b =? RDB_32BITLEN then
    buf <- rioRead 4;
    done (false, ntohl (native_val (host cf) buf))
  else if b =? RDB_64BITLEN then
    buf <- rioRead 8;
    done (false, ntohu64 (host cf) (native_val (host cf) buf))
  else exits.

(** A length of [RDB_LENERR] is taken for an error by every caller. *)
Definition rdbLoadLen : R (bool * Z) :=
  r <- rdbLoadLenByRef;
  if snd r =? RDB_LENERR then failed else done r.

(** ** Strings *)

(** [None] is 0: the value does not fit. *)
Definition rdbEncodeInteger (value : Z) : option (list Z) :=
  if (value >=? - Z.shiftl 1 7) && (value <=? Z.shiftl 1 7 - 1) then
    Some [Z.lor (Z.shiftl RDB_ENCVAL 6) RDB_ENC_INT8; Z.land value 0xff]
  else if (value >=? - Z.shiftl 1 15) && (value <=? Z.shiftl 1 15 - 1) then
    Some [Z.lor (Z.shiftl RDB_ENCVAL 6) RDB_ENC_INT16; Z.land value 0xff; Z.land (Z.shiftr value 8) 0xff]
  else if (value >=? - Z.shiftl 1 31) && (value <=? Z.shiftl 1 31 - 1) then
    Some [Z.lor (Z.shiftl RDB_ENCVAL 6) RDB_ENC_INT32; Z.land value 0xff; Z.land (Z.shiftr value 8) 0xff;
          Z.land (Z.shiftr value 16) 0xff; Z.land (Z.shiftr value 24) 0xff]
  else None.

Inductive load_flags := RDB_LOAD_NONE | RDB_LOAD_ENC | RDB_LOAD_PLAIN | RDB_LOAD_SDS.

(** What the loaders of strings return, by their flags. *)
Inductive loaded := An_object (a : addr) | A_string (s : list Z).

Definition new_object (f : heap -> option (heap * addr)) : R loaded := a <- serve (on_heap_new f); done (An_object a).

Definition load_integer (enctype : Z) : R Z :=
  if enctype =? RDB_ENC_INT8 then
    enc <- rioRead 1;
    a <- the (enc !! 0%nat);
    done (swrap 8 a)
  else if enctype =? RDB_ENC_INT16 then
    enc <- rioRead 2;
    a <- the (enc !! 0%nat); b <- the (enc !! 1%nat);
    done (swrap 16 (Z.lor a (Z.shiftl b 8)))
  else if enctype =? RDB_ENC_INT32 then
    enc <- rioRead 4;
    a <- the (enc !! 0%nat); b <- the (enc !! 1%nat); c <- the (enc !! 2%nat); d <- the (enc !! 3%nat);
    done (swrap 32 (Z.lor (Z.lor (Z.lor a (Z.shiftl b 8)) (Z.shiftl c 16)) (Z.shiftl d 24)))
  else exits.

Definition rdbLoadIntegerObject (enctype : Z) (flags : load_flags) : R loaded :=
  val <- load_integer enctype;
  match flags with
  | RDB_LOAD_PLAIN | RDB_LOAD_SDS => s <- the (ll_buf LONG_STR_SIZE val); done (A_string s)
  | RDB_LOAD_ENC => new_object (fun h => createStringObjectFromLongLongForValue (private_integers (en cf)) h val)
  | RDB_LOAD_NONE => new_object (fun h => Some (createObject h OBJ_STRING (PtrSds (ld_text val))))
  end.

Definition isspace (c : Z) : bool := (c =? 32) || (9 <=? c) && (c <=? 13).

Fixpoint skip_spaces (s : list Z) : list Z :=
  match s with
  | c :: s' => if isspace c then skip_spaces s' else s
  | [] => []
  end.

Fixpoint take_digits (s : list Z) : list Z * list Z :=
  match s with
  | c :: s' => if is_digit c then let '(d, r) := take_digits s' in (c :: d, r) else ([], s)
  | [] => ([], [])
  end.

(** [strtoll(s, &endptr, 10)] on a string that a NUL follows: the value, which
    saturates, and the bytes from [endptr] on. *)
Definition strtoll (s : list Z) : Z * list Z :=
  let p := skip_spaces s in
  let neg := match p with c :: _ => c =? ch_minus | [] => false end in
  let p := match p with c :: p' => if (c =? ch_minus) || (c =? 43) then p' else p | [] => [] end in
  match take_digits p with
  | ([], _) => (0, s)
  | (d, r) => (if neg then Z.max LLONG_MIN (- dec_val d) else Z.min LLONG_MAX (dec_val d), r)
  end.

(** [atoi]: [strtol], narrowed to an [int]. *)
Definition atoi (s : list Z) : Z := swrap 32 (fst (strtoll s)).

Definition rdbTryIntegerEncoding (s : list Z) : option (list Z) :=
  let '(value, endptr) := strtoll s in
  if match endptr with c :: _ => negb (c =? 0) | [] => false end then None else
  buf ← ll_buf 32 value;
  if negb (bool_decide (buf = s)) then None else rdbEncodeInteger value.

Definition rdbSaveLzfBlob (data : list Z) (original_len : Z) : R unit :=
  rdbWriteRaw [Z.lor (Z.shiftl RDB_ENCVAL 6) RDB_ENC_LZF];;
  rdbSaveLen (zlen data);;
  rdbSaveLen original_len;;
  rdbWriteRaw data.

(** Allocated memory that is not initialised. *)
Definition noinit (n : Z) : list Z := mrealloc (junk cf) [] n.

(** The result is whether the string was saved. *)
Definition rdbSaveLzfStringObject (s : list Z) : R bool :=
  if zlen s <=? 4 then done false else
  r <- the (lzf_compress (htab cf) s (noinit (zlen s - 4)));
  if fst r =? 0 then done false else
  rdbSaveLzfBlob (take (Z.to_nat (fst r)) (snd r)) (zlen s);;
  done true.

(** The lengths are passed as [unsigned int]s; what [lzf_decompress] does not
    fill keeps what the memory held. *)
Definition rdbLoadLzfStringObject (flags : load_flags) : R loaded :=
  clen <- rdbLoadLen;
  len <- rdbLoadLen;
  c <- rioRead (snd clen);
  let val := noinit (snd len) in
  r <- the (lzf_decompress (take (Z.to_nat (uwrap 32 (snd clen))) c) (take (Z.to_nat (uwrap 32 (snd len))) val));
  if fst r =? 0 then failed else
  let val := snd r ++ drop (length (snd r)) val in
  match flags with
  | RDB_LOAD_PLAIN | RDB_LOAD_SDS => done (A_string val)
  | _ => new_object (fun h => Some (createObject h OBJ_STRING (PtrSds val)))
  end.

Definition rdbSaveRawString (s : list Z) : R unit :=
  match (if zlen s <=? 11 then rdbTryIntegerEncoding s else None) with
  | Some enc => rdbWriteRaw enc
  | None =>
    saved <- (if rdb_compression cf && (zlen s >? 20) then rdbSaveLzfStringObject s else done false);
    if saved then done tt else
    rdbSaveLen (zlen s);;
    if zlen s >? 0 then rdbWriteRaw s else done tt
  end.

Definition rdbSaveLongLongAsStringObject (value : Z) : R unit :=
  match rdbEncodeInteger value with
  | Some enc => rdbWriteRaw enc
  | None =>
    buf <- the (ll_buf 32 value);
    if negb (zlen buf <? 32) then stuck else
    rdbSaveLen (zlen buf);;
    rdbWriteRaw buf
  end.

Definition rdbSaveStringObject (o : redisObject) : R unit :=
  if bool_decide (o_encoding o = OBJ_ENCODING_INT) then v <- the (long_of o); rdbSaveLongLongAsStringObject v else
  if negb (sdsEncodedObject o) then stuck else
  s <- the (sds_of o);
  rdbSaveRawString s.

(** The object is created once its bytes are read; the code creates it before
    and releases it when the stream is too short. *)
Definition rdbGenericLoadStringObject (flags : load_flags) : R loaded :=
  r <- rdbLoadLen;
  let len := snd r in
  if fst r then
    if (len =? RDB_ENC_INT8) || (len =? RDB_ENC_INT16) || (len =? RDB_ENC_INT32) then rdbLoadIntegerObject len flags else
    if len =? RDB_ENC_LZF then rdbLoadLzfStringObject flags else exits
  else
    s <- (if len =? 0 then done [] else rioRead len);
    match flags with
    | RDB_LOAD_PLAIN | RDB_LOAD_SDS => done (A_string s)
    | RDB_LOAD_ENC => new_object (fun h => Some (createStringObject h s))
    | RDB_LOAD_NONE => new_object (fun h => Some (createRawStringObject h s))
    end.

Definition as_object (x : loaded) : R addr := match x with An_object a => done a | A_string _ => stuck end.
Definition rdbLoadStringObject : R addr := x <- rdbGenericLoadStringObject RDB_LOAD_NONE; as_object x.
Definition rdbLoadEncodedStringObject : R addr := x <- rdbGenericLoadStringObject RDB_LOAD_ENC; as_object x.

(** ** Values, keys and auxiliary fields *)

Definition rdbSaveObjectType (o : redisObject) : R unit :=
  match o_type o with
  | OBJ_STRING => rdbSaveType RDB_TYPE_STRING
  | _ => stuck
  end.

Definition rdbSaveObject (o : redisObject) : R unit :=
  match o_type o with
  | OBJ_STRING => rdbSaveStringObject o
  | _ => stuck
  end.

Definition rdbLoadObject (rdbtype : Z) : R addr :=
  if rdbtype =? RDB_TYPE_STRING then
    o <- rdbLoadEncodedStringObject;
    serve (on_heap_new (fun h => tryObjectEncoding (private_integers (en cf)) h o))
  else if rdbIsObjectType rdbtype then stuck else exits.

Definition rdbSaveKeyValuePair (key : redisObject) (val : addr) (expiretime : Z) : R unit :=
  (if negb (expiretime =? -1) then
     rdbSaveType RDB_OPCODE_EXPIRETIME_MS;;
     rdbSaveMillisecondTime expiretime
   else done tt);;
  (if policy_lru cf then
     rdbSaveType RDB_OPCODE_IDLE;;
     rdbSaveLen (estimateObjectIdleTime cf val / 1000)
   else done tt);;
  (if policy_lfu cf then
     rdbSaveType RDB_OPCODE_FREQ;;
     rdbWriteRaw [uwrap 8 (LFUDecrAndReturn cf val)]
   else done tt);;
  o <- serve (get_obj val);
  rdbSaveObjectType o;;
  rdbSaveStringObject key;;
  rdbSaveObject o.

Definition rdbSaveAuxField (key val : list Z) : R unit :=
  rdbSaveType RDB_OPCODE_AUX;;
  rdbSaveRawString key;;
  rdbSaveRawString val.

(** [val] is a string that ends at a NUL. *)
Definition rdbSaveAuxFieldStrStr (key : string) (val : list Z) : R unit := rdbSaveAuxField (bytes_of key) (up_to_nul val).

Definition rdbSaveAuxFieldStrInt (key : string) (val : Z) : R unit :=
  buf <- the (ll_buf LONG_STR_SIZE val);
  rdbSaveAuxField (bytes_of key) buf.

Definition REDIS_VERSION : string := "5.0.5".

Definition rdbSaveInfoAuxFields (aof_preamble : bool) (rsi : option rdbSaveInfo) : R unit :=
  rdbSaveAuxFieldStrStr "redis-ver" (bytes_of REDIS_VERSION);;
  rdbSaveAuxFieldStrInt "redis-bits" 64;;
  rdbSaveAuxFieldStrInt "ctime" (time cf);;
  rdbSaveAuxFieldStrInt "used-mem" (zmalloc_used_memory cf);;
  match rsi with
  | Some i =>
    rdbSaveAuxFieldStrInt "repl-stream-db" (repl_stream_db i);;
    rdbSaveAuxFieldStrStr "repl-id" (replid cf);;
    rdbSaveAuxFieldStrInt "repl-offset" (master_repl_offset cf)
  | None => done tt
  end;;
  rdbSaveAuxFieldStrInt "aof-preamble" (if aof_preamble then 1 else 0).

(** ** The whole snapshot *)

Definition on_io (f : rio -> rio) : R unit := fun t => Done tt (set_io t (f (io t))).

Definition magic : list Z := bytes_of "REDIS0009".

(** [initStaticStringObject] *)
Definition static_string (k : key) : redisObject := mk_obj OBJ_STRING OBJ_ENCODING_RAW (PtrSds k) 1.

Definition save_key (j : nat) (e : key * addr) : R unit :=
  expire <- serve (getExpire j (fst e));
  rdbSaveKeyValuePair (static_string (fst e)) (snd e) expire.

Definition save_db (j : nat) : R unit :=
  db <- serve (get_db j);
  if Z.of_nat (size (dict db)) =? 0 then done tt else
  rdbSaveType RDB_OPCODE_SELECTDB;;
  rdbSaveLen (Z.of_nat j);;
  rdbSaveType RDB_OPCODE_RESIZEDB;;
  rdbSaveLen (Z.of_nat (size (dict db)));;
  rdbSaveLen (Z.of_nat (size (expires db)));;
  each (map_to_list (dict db)) (save_key j).

Definition rdbSaveRio (aof_preamble : bool) (rsi : option rdbSaveInfo) : R unit :=
  on_io (fun r => mk_rio (inp r) (outp r) (room r) (if rdb_checksum cf then true else update_cksum r) (cksum r) (max_processing_chunk r));;
  rdbWriteRaw magic;;
  rdbSaveInfoAuxFields aof_preamble rsi;;
  l <- serve (gets dbs);
  each (seq 0 (length l)) save_db;;
  scripts <- reading lua_scripts;
  (if bool_decide (is_Some rsi) && negb (zlen scripts =? 0) then each scripts (rdbSaveAuxField (bytes_of "lua")) else done tt);;
  rdbSaveType RDB_OPCODE_EOF;;
  c <- reading (fun t => cksum (io t));
  buf <- the (memrev64ifbe (host cf) (native_bytes (host cf) 8 c));
  rioWrite buf.

(** [strcasecmp(a,b) == 0] *)
Definition strcaseeq (a : list Z) (b : string) : bool := bool_decide (map lower (up_to_nul a) = map lower (bytes_of b)).

Definition get_rsi : R (option rdbSaveInfo) := reading rsi.
Definition put_rsi (i : rdbSaveInfo) : R unit := fun t => Done tt (set_rsi t (Some i)).

(** Scripts are kept as their bodies, and told apart by them instead of by their
    SHA1; one that is known already is kept.  [lua_compiles] stands for the
    interpreter. *)
Definition luaCreateFunction (body : list Z) : R bool :=
  scripts <- reading lua_scripts;
  if bool_decide (body ∈ scripts) then done true else
  if lua_compiles cf body then fun t => Done true (set_scripts t (scripts ++ [body])) else done false.

(** What an auxiliary field means. *)
Definition aux_field (k v : list Z) : R unit :=
  i <- get_rsi;
  if bool_decide (head k = Some 37) then done tt else
  if strcaseeq k "repl-stream-db" then
    match i with Some i => put_rsi (mk_rsi (atoi v) (repl_id_is_set i) (repl_id i) (repl_offset i)) | None => done tt end
  else if strcaseeq k "repl-id" then
    match i with
    | Some i => if zlen v =? CONFIG_RUN_ID_SIZE then put_rsi (mk_rsi (repl_stream_db i) true v (repl_offset i)) else done tt
    | None => done tt
    end
  else if strcaseeq k "repl-offset" then
    match i with Some i => put_rsi (mk_rsi (repl_stream_db i) (repl_id_is_set i) (repl_id i) (fst (strtoll v))) | None => done tt end
  else if strcaseeq k "lua" then
    ok <- luaCreateFunction v;
    if ok then done tt else exits
  else done tt.

Definition load_aux : R unit :=
  auxkey <- or_exit rdbLoadStringObject;
  auxval <- or_exit rdbLoadStringObject;
  ok <- serve (get_obj auxkey); k <- the (sds_of ok);
  ov <- serve (get_obj auxval); v <- the (sds_of ov);
  aux_field k v;;
  serve (decr auxkey);;
  serve (decr auxval).

(** The key and the value that follow; [expiretime] as read before. *)
Definition load_key (loading_aof : bool) (now : Z) (type : Z) (d : nat) (expiretime : Z) : R unit :=
  key <- or_exit rdbLoadStringObject;
  val <- or_exit (rdbLoadObject type);
  if negb (masterhost (en cf)) && negb loading_aof && negb (expiretime =? -1) && (expiretime <? now) then
    serve (decr key);;
    serve (decr val)
  else
    o <- serve (get_obj key);
    k <- the (sds_of o);
    serve (dbAdd d k val);;
    (if negb (expiretime =? -1) then serve (setExpire d k expiretime) else done tt);;
    serve (decr key).

(** Each round reads one opcode and what belongs to it. *)
Fixpoint load_loop (fuel : nat) (loading_aof : bool) (now rdbver : Z) (d : nat) (expiretime : Z) : R unit :=
  match fuel with
  | O => stuck
  | S fuel =>
    type <- or_exit rdbLoadType;
    if type =? RDB_OPCODE_EXPIRETIME then
      t <- rdbLoadTime;
      load_loop fuel loading_aof now rdbver d (t * 1000)
    else if type =? RDB_OPCODE_EXPIRETIME_MS then
      t <- rdbLoadMillisecondTime rdbver;
      load_loop fuel loading_aof now rdbver d t
    else if type =? RDB_OPCODE_FREQ then
      or_exit (rioRead 1);;
      load_loop fuel loading_aof now rdbver d expiretime
    else if type =? RDB_OPCODE_IDLE then
      or_exit rdbLoadLen;;
      load_loop fuel loading_aof now rdbver d expiretime
    else if type =? RDB_OPCODE_EOF then done tt
    else if type =? RDB_OPCODE_SELECTDB then
      dbid <- or_exit rdbLoadLen;
      l <- serve (gets dbs);
      if snd dbid >=? zlen l then exits else
      load_loop fuel loading_aof now rdbver (Z.to_nat (snd dbid)) expiretime
    else if type =? RDB_OPCODE_RESIZEDB then
      or_exit rdbLoadLen;;
      or_exit rdbLoadLen;;
      load_loop fuel loading_aof now rdbver d expiretime
    else if type =? RDB_OPCODE_AUX then
      load_aux;;
      load_loop fuel loading_aof now rdbver d expiretime
    else if type =? RDB_OPCODE_MODULE_AUX then exits
    else
      load_key loading_aof now type d expiretime;;
      load_loop fuel loading_aof now rdbver d (-1)
  end.

Definition rdbLoadRio (loading_aof : bool) : R rc :=
  on_io (fun r => mk_rio (inp r) (outp r) (room r) (rdb_checksum cf) (cksum r) (loading_process_events_interval_bytes cf));;
  buf <- or_exit (rioRead 9);
  if negb (bool_decide (take 5 buf = bytes_of "REDIS")) then done C_ERR else
  let rdbver := atoi (drop 5 buf) in
  if (rdbver <? 1) || (rdbver >? RDB_VERSION) then done C_ERR else
  left <- reading (fun t => inp (io t));
  load_loop (length left) loading_aof (mstime (en cf)) rdbver 0 (-1);;
  if rdbver >=? 5 then
    expected <- reading (fun t => cksum (io t));
    buf <- or_exit (rioRead 8);
    if rdb_checksum cf then
      buf <- the (memrev64ifbe (host cf) buf);
      let c := native_val (host cf) buf in
      if c =? 0 then done C_OK else
      if negb (c =? expected) then exits else done C_OK
    else done C_OK
  else done C_OK.

End Rdb.
