(* ===== verification/RdbLoad.v ===== *)
(** * Snapshots can be loaded

    What is written is read back: by any server, of either byte order, with any
    options.  [saves] describes a writer by the bytes it adds to the stream,
    [reads] and [decodes] a reader by the bytes it takes; both compose.  Loading
    keeps the invariant [idle] of the server and puts the saved keys into its
    databases. *)

From S2P Require Import Prelude Endianconv Numstr Lzf Crc64 Objects Db Keyspace Commands CommandsInv CommandsRefine Requests Watching Rdb.
From stdpp Require Import strings options.
#[local] Open Scope Z_scope.
#[local] Open Scope rdb_scope.

(** ** Streams *)

Lemma crc64_app c a b : crc64 c (a ++ b) = crc64 (crc64 c a) b.
Proof. apply foldl_app. Qed.

(** The stream with [bs] written, and with [bs] read where [rest] is left. *)
Definition sum_on (r : rio) (bs : list Z) : Z := if update_cksum r then crc64 (cksum r) bs else cksum r.
Definition wrote (r : rio) (bs : list Z) : rio :=
  mk_rio (inp r) (outp r ++ bs) ((fun k => k - zlen bs) <$> room r) (update_cksum r) (sum_on r bs) (max_processing_chunk r).
Definition fits (r : rio) (bs : list Z) : bool := match room r with Some k => zlen bs <=? k | None => true end.
Definition ate (r : rio) (bs rest : list Z) : rio :=
  mk_rio rest (outp r) (room r) (update_cksum r) (sum_on r bs) (max_processing_chunk r).

Lemma sum_on_nil r : sum_on r [] = cksum r.
Proof. unfold sum_on. by destruct (update_cksum r). Qed.

Lemma wrote_app r a b : wrote (wrote r a) b = wrote r (a ++ b).
Proof.
  unfold wrote, sum_on. cbn. rewrite app_assoc, zlen_app. f_equal; [|destruct (update_cksum r); [by rewrite crc64_app|done]].
  destruct (room r); cbn; [|done]. f_equal. lia.
Qed.

Lemma fits_app r a b : fits r (a ++ b) = fits r a && fits (wrote r a) b.
Proof. unfold fits, wrote. cbn. rewrite zlen_app. destruct (room r); cbn; [|done]. pose proof (zlen_nonneg b). apply eq_true_iff_eq. rewrite andb_true_iff, !Z.leb_le. lia. Qed.

Lemma ate_app r a b rest rest' : ate (ate r a rest') b rest = ate r (a ++ b) rest.
Proof. unfold ate, sum_on. cbn. f_equal. destruct (update_cksum r); [by rewrite crc64_app|done]. Qed.

Definition stream_ok (r : rio) : Prop := 0 <= max_processing_chunk r /\ match room r with Some k => 0 <= k | None => True end.

Lemma wrote_ok r bs : stream_ok r -> fits r bs = true -> stream_ok (wrote r bs).
Proof. unfold stream_ok, fits, wrote. cbn. intros [H1 H2] Hf. split; [done|]. destruct (room r); cbn; lia. Qed.

Lemma ate_ok r bs rest : stream_ok r -> stream_ok (ate r bs rest).
Proof. done. Qed.

Lemma wrote_nil r : wrote r [] = r.
Proof. unfold wrote. rewrite app_nil_r, sum_on_nil. destruct r as [i o [k|] u c m]; cbn; [|done]. by rewrite Z.sub_0_r. Qed.

Lemma fits_nil r : stream_ok r -> fits r [] = true.
Proof. unfold stream_ok, fits. intros [_ H]. destruct (room r); [|done]. change (zlen []) with 0. lia. Qed.

Lemma chunk_bounds r n : 0 <= max_processing_chunk r -> 0 < n -> 0 < chunk r n <= n.
Proof. unfold chunk. intros Hc Hn. destruct (Z.eqb_spec (max_processing_chunk r) 0), (Z.ltb_spec (max_processing_chunk r) n); cbn; lia. Qed.

Lemma backend_write_ok r bs : (r ← Some (with_cksum r bs); backend_write r bs) = if fits r bs then Some (wrote r bs) else None.
Proof.
  cbn. unfold backend_write, fits, wrote, with_cksum, rioGenericUpdateChecksum, sum_on. destruct (update_cksum r) eqn:E; cbn; destruct (room r) as [k|]; cbn; rewrite ?E; try done;
    destruct (Z.ltb_spec k (zlen bs)), (Z.leb_spec (zlen bs) k); done || lia.
Qed.

Lemma rio_write_loop_ok fuel r buf :
  (length buf <= fuel)%nat -> stream_ok r -> rio_write_loop fuel r buf = if fits r buf then Some (wrote r buf) else None.
Proof.
  revert r buf. induction fuel as [|fuel IH]; intros r buf Hl Hr; cbn [rio_write_loop]; destruct (Z.eqb_spec (zlen buf) 0) as [E|E].
  1,3: destruct buf; [|unfold zlen in E; cbn in E; lia]; by rewrite fits_nil, wrote_nil.
  - unfold zlen in E. lia.
  - destruct (chunk_bounds r (zlen buf)) as [H1 H2]; [apply Hr|pose proof (zlen_nonneg buf); lia|]. set (n := Z.to_nat (chunk r (zlen buf))).
    change (with_cksum r (take n buf)) with (default r (Some (with_cksum r (take n buf)))). pose proof (backend_write_ok r (take n buf)) as Hb. cbn in Hb |- *. rewrite Hb.
    assert (fits r buf = fits r (take n buf) && fits (wrote r (take n buf)) (drop n buf)) as -> by (by rewrite <- fits_app, take_drop).
    destruct (fits r (take n buf)) eqn:F; [|done]. cbn. rewrite IH; [|rewrite length_drop; unfold zlen in *; lia|by apply wrote_ok]. by rewrite wrote_app, take_drop.
Qed.

Lemma backend_read_ok r bs rest : inp r = bs ++ rest -> ('(b, r) ← backend_read r (zlen bs); Some (b, with_cksum r b)) = Some (bs, ate r bs rest).
Proof.
  intros E. unfold backend_read. rewrite E, zlen_app. pose proof (zlen_nonneg rest). destruct (Z.ltb_spec (zlen bs + zlen rest) (zlen bs)); [lia|]. unfold zlen. rewrite Nat2Z.id, take_app_length, drop_app_length. cbn.
  unfold with_cksum, rioGenericUpdateChecksum, ate, sum_on. cbn. by destruct (update_cksum r).
Qed.

Lemma rio_read_loop_ok fuel r bs rest :
  (length bs <= fuel)%nat -> stream_ok r -> inp r = bs ++ rest -> rio_read_loop fuel r (zlen bs) = Some (bs, ate r bs rest).
Proof.
  revert r bs. induction fuel as [|fuel IH]; intros r bs Hl Hr Hi; cbn [rio_read_loop]; destruct (Z.eqb_spec (zlen bs) 0) as [E|E].
  1,3: destruct bs; [|unfold zlen in E; cbn in E; lia]; cbn in Hi; unfold ate; rewrite sum_on_nil, <- Hi; by destruct r.
  - unfold zlen in E. lia.
  - destruct (chunk_bounds r (zlen bs)) as [H1 H2]; [apply Hr|pose proof (zlen_nonneg bs); lia|]. set (n := Z.to_nat (chunk r (zlen bs))).
    assert (chunk r (zlen bs) = zlen (take n bs)) as -> by (rewrite zlen_take; unfold n; lia). assert (zlen bs - zlen (take n bs) = zlen (drop n bs)) as -> by (rewrite <- (take_drop n bs) at 1; rewrite zlen_app; lia).
    pose proof (backend_read_ok r (take n bs) (drop n bs ++ rest)) as Hb. rewrite app_assoc, take_drop in Hb. specialize (Hb Hi). destruct (backend_read r (zlen (take n bs))) as [[b r']|]; [|done]. cbn in Hb |- *. injection Hb as -> Hb. rewrite Hb.
    rewrite IH; [|rewrite length_drop; unfold zlen in *; lia|done|done]. cbn. by rewrite ate_app, take_drop.
Qed.

(** ** Writers *)

(** [m] adds [bs] to the stream of a server [s] and gives [x], or reports that
    the stream is full. *)
Definition saves_as {A} (s : server) (m : R A) (x : A) (bs : list Z) : Prop :=
  forall t, srv t = s -> stream_ok (io t) -> m t = if fits (io t) bs then Done x (set_io t (wrote (io t) bs)) else Failed.
Abbreviation saves s m bs := (saves_as s m tt bs).

Lemma saves_write s bs : saves s (rioWrite bs) bs.
Proof. intros t _ Ht. unfold rioWrite. rewrite rio_write_loop_ok by done. by destruct (fits _ _). Qed.

Lemma saves_done {A} s (x : A) : saves_as s (done x) x [].
Proof. intros t _ Ht. rewrite fits_nil, wrote_nil by done. by destruct t. Qed.

Lemma saves_bind {A B} s (m : R A) k x (y : B) a b : saves_as s m x a -> saves_as s (k x) y b -> saves_as s (z <- m; k z) y (a ++ b).
Proof.
  intros Hm Hk t Hs Ht. unfold andthen. rewrite Hm, fits_app by done. destruct (fits (io t) a) eqn:F; [|done]. cbn [andb]. rewrite Hk; [|done|by apply wrote_ok]. cbn. by rewrite wrote_app.
Qed.

Lemma saves_the {A B} s (o : option A) x k (y : B) bs : o = Some x -> saves_as s (k x) y bs -> saves_as s (z <- the o; k z) y bs.
Proof. intros -> H. exact H. Qed.

Lemma saves_serve {A} s (m : M A) x k bs : m s = Some (x, s) -> saves s (k x) bs -> saves s (y <- serve m; k y) bs.
Proof. intros E H t Hs Ht. unfold andthen, serve. rewrite Hs, E. rewrite <- Hs. assert (set_srv t (srv t) = t) as -> by (by destruct t). by apply H. Qed.

(** ** Readers *)

(** [m] takes [bs] from the stream and gives [x]. *)
Definition reads {A} (m : R A) (bs : list Z) (x : A) : Prop :=
  forall t rest, stream_ok (io t) -> inp (io t) = bs ++ rest -> m t = Done x (set_io t (ate (io t) bs rest)).

Lemma reads_read bs : reads (rioRead (zlen bs)) bs bs.
Proof. intros t rest Ht Hi. unfold rioRead. by rewrite (rio_read_loop_ok _ _ _ rest) by (done || unfold zlen; lia). Qed.

Lemma reads_done {A} (x : A) : reads (done x) [] x.
Proof. intros t rest Ht Hi. unfold done. f_equal. cbn in Hi. unfold ate. rewrite sum_on_nil, <- Hi. by destruct t as [[] ? ? ?]. Qed.

Lemma reads_bind {A B} (m : R A) k a b x (y : B) : reads m a x -> reads (k x) b y -> reads (z <- m; k z) (a ++ b) y.
Proof.
  intros Hm Hk t rest Ht Hi. unfold andthen. rewrite (Hm t (b ++ rest)); [|done|by rewrite Hi, app_assoc]. rewrite (Hk _ rest); [|done|done]. cbn. by rewrite ate_app.
Qed.

Lemma reads_then {A B} (m : R A) k bs x (y : B) : reads m bs x -> k x = done y -> reads (z <- m; k z) bs y.
Proof. intros Hm Hk. rewrite <- (app_nil_r bs). eapply reads_bind; [exact Hm|]. rewrite Hk. apply reads_done. Qed.

Lemma reads_or_exit {A} (m : R A) bs x : reads m bs x -> reads (or_exit m) bs x.
Proof. intros H t rest Ht Hi. unfold or_exit. by rewrite (H t rest). Qed.

Lemma reads_the {A B} (o : option A) x k bs (y : B) : o = Some x -> reads (k x) bs y -> reads (z <- the o; k z) bs y.
Proof. intros -> H. exact H. Qed.

(** ** Lengths *)

(** The three forms, and the network order of the longer ones. *)
Definition be_bytes (n : nat) (v : Z) : list Z := reverse (le_bytes n v).
Definition len_bytes (n : Z) : list Z :=
  if n <? 64 then [n] else
  if n <? 16384 then [64 + n / 256; n mod 256] else
  if n <=? UINT32_MAX then RDB_32BITLEN :: be_bytes 4 n else RDB_64BITLEN :: be_bytes 8 n.

Lemma zlen_be n v : zlen (be_bytes n v) = Z.of_nat n.
Proof. unfold be_bytes, zlen. by rewrite length_reverse, length_le_bytes. Qed.

Lemma htonl_network cf v : in_u 32 v -> native_bytes (host cf) 4 (htonl cf v) = be_bytes 4 v.
Proof.
  intros Hv. unfold htonl, be_bytes. destruct (host cf); [|done]. rewrite intrev32_val. cbn [native_bytes]. unfold rev_val.
  assert (length (reverse (le_bytes 4 v)) = 4%nat) as Hl by (by rewrite length_reverse, length_le_bytes). rewrite <- Hl at 1. apply le_bytes_val, Forall_reverse_byte, le_bytes_ok.
Qed.

Lemma ntohl_network cf v : in_u 32 v -> ntohl cf (native_val (host cf) (be_bytes 4 v)) = v.
Proof.
  intros Hv. rewrite <- (htonl_network cf v) by done. rewrite native_val_bytes. unfold ntohl, htonl. change (2 ^ (8 * Z.of_nat 4)) with (2 ^ 32). destruct (host cf); [|by apply Z.mod_small].
  rewrite Z.mod_small by (rewrite intrev32_val; apply rev_val_range). rewrite !intrev32_val, rev_val_involutive. by apply Z.mod_small.
Qed.

Lemma ntohu64_network host v : in_u 64 v -> ntohu64 host (native_val host (be_bytes 8 v)) = v.
Proof.
  intros Hv. unfold be_bytes. rewrite <- (htonu64_network host v) by done. rewrite native_val_bytes, Z.mod_small; [by apply ntohu64_htonu64|].
  unfold htonu64. destruct host; [rewrite intrev64_val; apply rev_val_range|exact Hv].
Qed.

Lemma saves_len cf s n : 0 <= n < 2 ^ 64 -> saves s (rdbSaveLen cf n) (len_bytes n).
Proof.
  intros Hn. unfold rdbSaveLen, len_bytes, RDB_6BITLEN, RDB_14BITLEN. change (Z.shiftl 1 6) with 64. change (Z.shiftl 1 14) with 16384. change (Z.shiftl 0 6) with 0. change (Z.shiftl 1 6) with 64.
  assert (forall x, Z.land x 0xff = x mod 256) as Hff by (intros x; change 0xff with (Z.ones 8); by rewrite Z.land_ones).
  destruct (Z.ltb_spec n 64); [|destruct (Z.ltb_spec n 16384); [|destruct (Z.leb_spec n UINT32_MAX)]].
  - rewrite Hff, Z.lor_0_r, Z.mod_small by lia. apply saves_write.
  - rewrite !Hff, Z.shiftr_div_pow2 by lia. change (2 ^ 8) with 256. rewrite (Z.mod_small (n / 256)) by (split; [apply Z.div_pos; lia|apply Z.div_lt_upper_bound; lia]).
    assert (Z.lor (n / 256) 64 = 64 + n / 256) as ->; [|apply saves_write]. rewrite Z.lor_comm. change 64 with (Z.shiftl 1 6) at 1. rewrite lor_shiftl; [lia|lia|]. split; [apply Z.div_pos; lia|apply Z.div_lt_upper_bound; [lia|]]. lia.
  - rewrite htonl_network by (unfold UINT32_MAX, in_u in *; lia). apply (saves_bind _ _ _ tt _ [_]); apply saves_write.
  - rewrite htonu64_network by done. apply (saves_bind _ _ _ tt _ [_]); apply saves_write.
Qed.

Lemma saves_type s x : saves s (rdbSaveType x) [x].
Proof. apply saves_write. Qed.

Lemma reads_byte {B} b (k : Z -> R B) bs (y : B) : reads (k b) bs y -> reads (buf <- rioRead 1; x <- the (buf !! 0%nat); k x) (b :: bs) y.
Proof. intros H. apply (reads_bind _ _ [b] bs [b]); [apply (reads_read [b])|]. exact H. Qed.

Lemma reads_len cf n : 0 <= n < RDB_LENERR -> reads (rdbLoadLen cf) (len_bytes n) (false, n).
Proof.
  unfold RDB_LENERR. intros Hn. unfold rdbLoadLen. apply (reads_then _ _ _ (false, n)); [|cbn [snd]; unfold RDB_LENERR; destruct (Z.eqb_spec n (2 ^ 64 - 1)); [lia|reflexivity]]. unfold rdbLoadLenByRef, len_bytes.
  assert (forall x, Z.land x 0x3f = x mod 64) as H3f by (intros x; change 0x3f with (Z.ones 6); by rewrite Z.land_ones).
  assert (forall x, 0 <= x < 256 -> Z.shiftr (Z.land x 0xc0) 6 = x / 64) as Hc0.
  { intros x Hx. apply Z.eqb_eq. apply (all_bytes_spec (fun x => Z.shiftr (Z.land x 0xc0) 6 =? x / 64)); [vm_compute; reflexivity|exact Hx]. }
  destruct (Z.ltb_spec n 64); [|destruct (Z.ltb_spec n 16384); [|destruct (Z.leb_spec n UINT32_MAX)]].
  - apply reads_byte. rewrite Hc0, Z.div_small, H3f, Z.mod_small by lia. apply reads_done.
  - assert (0 <= n / 256 < 64) as Hd by (split; [apply Z.div_pos; lia|apply Z.div_lt_upper_bound; lia]). assert ((64 + n / 256) / 64 = 1) as E by (symmetry; apply (Z.div_unique _ _ _ (n / 256)); lia).
    apply reads_byte. rewrite Hc0, E by lia. cbn [Z.eqb RDB_ENCVAL RDB_6BITLEN RDB_14BITLEN Pos.eqb]. apply reads_byte. rewrite H3f. assert ((64 + n / 256) mod 64 = n / 256) as -> by (symmetry; apply (Z.mod_unique _ _ 1); lia).
    rewrite lor_shiftl by (apply Z.mod_pos_bound || idtac; lia). change (2 ^ 8) with 256. rewrite (Z.mul_comm _ 256), <- Z.div_mod by lia. apply reads_done.
  - apply reads_byte. change (Z.shiftr (Z.land RDB_32BITLEN 192) 6) with 2. cbn [Z.eqb RDB_ENCVAL RDB_6BITLEN RDB_14BITLEN RDB_32BITLEN Pos.eqb]. eapply reads_then; [apply (reads_read (be_bytes 4 n))|]. by rewrite ntohl_network by (unfold UINT32_MAX, in_u in *; lia).
  - apply reads_byte. change (Z.shiftr (Z.land RDB_64BITLEN 192) 6) with 2. cbn [Z.eqb RDB_ENCVAL RDB_6BITLEN RDB_14BITLEN RDB_32BITLEN RDB_64BITLEN Pos.eqb]. eapply reads_then; [apply (reads_read (be_bytes 8 n))|]. by rewrite ntohu64_network by (unfold in_u; lia).
Qed.

(** ** Strings *)

(** [f] creates an object that holds [s], as a string if [raw]. *)
Definition creates (raw : bool) (f : heap -> option (heap * addr)) (s : list Z) : Prop :=
  forall h refs, heap_ok h refs -> exists h' a, f h = Some (h', a) /\ heap_ok h' (a :: refs) /\ keeps_values refs h h' /\ value_at h' a = Some (VString s) /\ (raw = true -> sds_at h' a s).

Lemma creates_raw s raw e : e = OBJ_ENCODING_RAW \/ e = OBJ_ENCODING_EMBSTR -> creates raw (fun h => Some (Objects.zmalloc h (mk_obj OBJ_STRING e (PtrSds s) 1))) s.
Proof.
  intros He h refs Hok. destruct (new_string_ok h refs e s Hok He) as (h' & a & E & H1 & H2 & H3 & _). exists h', a. rewrite E. split; [done|]. split; [done|]. split; [done|].
  split; [unfold value_at; by rewrite H3|]. intros _. by eexists.
Qed.

Lemma creates_string s raw : creates raw (fun h => Some (createStringObject h s)) s.
Proof.
  intros h refs Hok. destruct (createStringObject_ok h refs s Hok) as (h' & a & E & H1 & H2 & e & _ & H3 & _). exists h', a. rewrite E. split; [done|]. split; [done|]. split; [done|].
  split; [unfold value_at; by rewrite H3|]. intros _. by eexists.
Qed.

Lemma creates_integer p v : in_s 64 v -> creates false (fun h => createStringObjectFromLongLongForValue p h v) (ld_text v).
Proof. intros Hv h refs Hok. destruct (FromLongLong_ok p h refs v true Hok Hv) as (h' & a & H). exists h', a. naive_solver. Qed.

(** [m] takes [bs] from the stream and makes an object that holds [s]. *)
Definition loads (raw : bool) (m : R loaded) (bs s : list Z) : Prop :=
  forall t rest refs, stream_ok (io t) -> inp (io t) = bs ++ rest -> heap_ok (sheap (srv t)) refs ->
  exists h a, m t = Done (An_object a) (set_srv (set_io t (ate (io t) bs rest)) (set_heap (srv t) h)) /\
    heap_ok h (a :: refs) /\ keeps_values refs (sheap (srv t)) h /\ value_at h a = Some (VString s) /\ (raw = true -> sds_at h a s).

Lemma loads_new raw f s : creates raw f s -> loads raw (new_object f) [] s.
Proof.
  intros Hf t rest refs Ht Hi Hh. destruct (Hf _ _ Hh) as (h & a & E & H). exists h, a. split; [|exact H]. unfold new_object, andthen, serve, on_heap_new. rewrite E. cbn. unfold done. f_equal.
  cbn in Hi. unfold ate. rewrite sum_on_nil, <- Hi. by destruct t as [[] ? ? ?].
Qed.

Lemma loads_bind {A} raw (m : R A) k a b x s : reads m a x -> loads raw (k x) b s -> loads raw (y <- m; k y) (a ++ b) s.
Proof.
  intros Hm Hk t rest refs Ht Hi Hh. destruct (Hk (set_io t (ate (io t) a (b ++ rest))) rest refs Ht) as (h & ad & E & H); [done|done|]. exists h, ad. split; [|exact H].
  unfold andthen. rewrite (Hm t (b ++ rest)); [|done|by rewrite Hi, app_assoc]. rewrite E. cbn. by rewrite ate_app.
Qed.

Lemma loads_then {A} raw (m : R A) k bs x s : reads m bs x -> loads raw (k x) [] s -> loads raw (y <- m; k y) bs s.
Proof. intros Hm Hk. rewrite <- (app_nil_r bs). by eapply loads_bind. Qed.

(** The bytes [bs] stand for the string [s]. *)
Definition decodes (cf : conf) (bs s : list Z) : Prop :=
  bs <> [] /\ loads true (rdbGenericLoadStringObject cf RDB_LOAD_NONE) bs s /\ loads false (rdbGenericLoadStringObject cf RDB_LOAD_ENC) bs s.

(** An encoding of the string other than by its length. *)
Lemma reads_encoding cf k : 0 <= k < 64 -> reads (rdbLoadLen cf) [Z.lor (Z.shiftl RDB_ENCVAL 6) k] (true, k).
Proof.
  intros Hk. unfold rdbLoadLen. apply (reads_then _ _ _ (true, k)); [|cbn [snd]; unfold RDB_LENERR; destruct (Z.eqb_spec k (2 ^ 64 - 1)); [lia|reflexivity]]. unfold rdbLoadLenByRef.
  assert (((Z.shiftr (Z.land (Z.lor (Z.shiftl RDB_ENCVAL 6) k) 0xc0) 6 =? RDB_ENCVAL) && (Z.land (Z.lor (Z.shiftl RDB_ENCVAL 6) k) 0x3f =? k)) || negb (k <? 64) = true) as H.
  { apply (all_bytes_spec (fun k => ((Z.shiftr (Z.land (Z.lor (Z.shiftl RDB_ENCVAL 6) k) 0xc0) 6 =? RDB_ENCVAL) && (Z.land (Z.lor (Z.shiftl RDB_ENCVAL 6) k) 0x3f =? k)) || negb (k <? 64))); [vm_compute; reflexivity|unfold byte_ok; lia]. }
  destruct (Z.ltb_spec k 64) as [_|]; [|lia]. rewrite orb_false_r in H. apply andb_true_iff in H as [H1 H2%Z.eqb_eq]. apply reads_byte. rewrite H1, H2. apply reads_done.
Qed.

Lemma lor_above x b k : 0 <= k -> 0 <= x < 2 ^ k -> Z.lor x (Z.shiftl b k) = x + b * 2 ^ k.
Proof. intros Hk Hx. rewrite Z.lor_comm, lor_shiftl by done. lia. Qed.

Lemma land_byte x : Z.land x 0xff = x mod 256.
Proof. change 0xff with (Z.ones 8). by rewrite Z.land_ones. Qed.

Lemma byte_at_shift v k : 0 <= k -> Z.land (Z.shiftr v k) 0xff = v / 2 ^ k mod 256.
Proof. intros Hk. by rewrite land_byte, Z.shiftr_div_pow2. Qed.

Lemma le_bytes_4 v : le_bytes 4 v = [v mod 256; v / 2 ^ 8 mod 256; v / 2 ^ 16 mod 256; v / 2 ^ 24 mod 256].
Proof. cbn [le_bytes]. change (2 ^ 8) with 256. change (2 ^ 16) with (256 * 256). change (2 ^ 24) with (256 * 256 * 256). by rewrite <- !Z.div_div by lia. Qed.

(** The bytes of an integer, after the one that tells their number. *)
Lemma integer_bytes v enc :
  rdbEncodeInteger v = Some enc ->
  exists k body, enc = Z.lor (Z.shiftl RDB_ENCVAL 6) k :: body /\ (k = RDB_ENC_INT8 \/ k = RDB_ENC_INT16 \/ k = RDB_ENC_INT32) /\ reads (load_integer k) body v /\ in_s 64 v.
Proof.
  pose proof (le_val_bytes 4 v) as E4. rewrite le_bytes_4 in E4. cbn [le_val] in E4. change (2 ^ (8 * Z.of_nat 4)) with (2 ^ 32) in E4.
  pose proof (le_val_bytes 2 v) as E2. cbn [le_bytes le_val] in E2. change (2 ^ (8 * Z.of_nat 2)) with (2 ^ 16) in E2.
  assert (forall x, 0 <= x mod 256 < 256) as Hb by (intros; apply Z.mod_pos_bound; lia). pose proof (Hb v). pose proof (Hb (v / 2 ^ 8)). pose proof (Hb (v / 2 ^ 16)). pose proof (Hb (v / 2 ^ 24)).
  unfold rdbEncodeInteger. change (Z.shiftl 1 7) with 128. change (Z.shiftl 1 15) with 32768. change (Z.shiftl 1 31) with 2147483648. rewrite !byte_at_shift, !land_byte by lia.
  destruct ((v >=? - (128)) && (v <=? 128 - 1)) eqn:E8; [|destruct ((v >=? - (32768)) && (v <=? 32768 - 1)) eqn:E16; [|destruct ((v >=? - (2147483648)) && (v <=? 2147483648 - 1)) eqn:E32; [|done]]];
    intros [= <-]; eexists _, _; (split; [reflexivity|]); (split; [tauto|]); (split; [|unfold in_s; lia]); unfold load_integer; cbn [Z.eqb Pos.eqb RDB_ENC_INT8 RDB_ENC_INT16 RDB_ENC_INT32].
  - eapply reads_then; [apply (reads_read [_])|]. change (done (swrap 8 (v mod 2 ^ 8)) = done v). f_equal. rewrite swrap_mod by lia. apply swrap_small; unfold in_s; lia.
  - eapply reads_then; [apply (reads_read [_; _])|]. change (done (swrap 16 (Z.lor (v mod 256) (Z.shiftl (v / 2 ^ 8 mod 256) 8))) = done v). f_equal. change (2 ^ 8) with 256 in *. rewrite lor_above by lia. change (2 ^ 8) with 256. replace (v mod 256 + v / 256 mod 256 * 256) with (v mod 2 ^ 16) by lia. rewrite swrap_mod by lia. apply swrap_small; unfold in_s; lia.
  - eapply reads_then; [apply (reads_read [_; _; _; _])|].
    change (done (swrap 32 (Z.lor (Z.lor (Z.lor (v mod 256) (Z.shiftl (v / 2 ^ 8 mod 256) 8)) (Z.shiftl (v / 2 ^ 16 mod 256) 16)) (Z.shiftl (v / 2 ^ 24 mod 256) 24))) = done v). f_equal. rewrite (lor_above (v mod 256)), (lor_above (v mod 256 + _)), lor_above by lia.
    match goal with |- swrap 32 ?x = _ => replace x with (v mod 2 ^ 32) by lia end. rewrite swrap_mod by lia. apply swrap_small; unfold in_s; lia.
Qed.

Lemma decodes_integer cf v enc : rdbEncodeInteger v = Some enc -> decodes cf enc (ld_text v).
Proof.
  intros E. destruct (integer_bytes v enc E) as (k & body & -> & Hk & Hr & Hv). split; [done|]. unfold rdbGenericLoadStringObject.
  assert ((k =? RDB_ENC_INT8) || (k =? RDB_ENC_INT16) || (k =? RDB_ENC_INT32) = true) as Hsel by (by destruct Hk as [->|[->| ->]]).
  assert (0 <= k < 64) as Hr64 by (destruct Hk as [->|[->| ->]]; done).
  split; (apply (loads_bind _ _ _ [_] _ (true, k)); [by apply reads_encoding|]); cbn [fst snd]; rewrite Hsel; (eapply loads_then; [exact Hr|]); apply loads_new; [apply creates_raw; by left|by apply creates_integer].
Qed.

Lemma len_bytes_nonnil n : len_bytes n <> [].
Proof. unfold len_bytes. by repeat case_match. Qed.

Lemma decodes_verbatim cf s : zlen s < RDB_LENERR -> decodes cf (len_bytes (zlen s) ++ s) s.
Proof.
  intros Hs. pose proof (zlen_nonneg s). split; [intros [E _]%app_nil; by eapply len_bytes_nonnil|].
  assert (reads (if zlen s =? 0 then done [] else rioRead (zlen s)) s s) as Hr.
  { destruct (Z.eqb_spec (zlen s) 0) as [E|E]; [destruct s; [apply reads_done|unfold zlen in E; cbn in E; lia]|apply reads_read]. }
  unfold rdbGenericLoadStringObject. split; (apply (loads_bind _ _ _ _ _ (false, zlen s)); [apply reads_len; lia|]); cbn [fst snd]; (eapply loads_then; [exact Hr|]); apply loads_new; [apply creates_raw; by left|apply creates_string].
Qed.

Lemma decodes_lzf cf s c :
  0 < zlen c < 2 ^ 32 -> 0 < zlen s < 2 ^ 32 -> (forall buf, zlen buf = zlen s -> lzf_decompress c buf = Some (zlen s, s)) ->
  decodes cf ([Z.lor (Z.shiftl RDB_ENCVAL 6) RDB_ENC_LZF] ++ len_bytes (zlen c) ++ len_bytes (zlen s) ++ c) s.
Proof.
  intros Hc Hs Hd. assert (forall n, 0 < n < 2 ^ 32 -> 0 <= n < RDB_LENERR) as Hn by (unfold RDB_LENERR; lia). split; [done|]. unfold rdbGenericLoadStringObject, rdbLoadLzfStringObject.
  assert (take (Z.to_nat (uwrap 32 (zlen c))) c = c) as Ec by (rewrite uwrap_small by (unfold in_u; lia); apply take_ge; unfold zlen; lia).
  assert (zlen (take (Z.to_nat (uwrap 32 (zlen s))) (noinit cf (zlen s))) = zlen s) as El.
  { rewrite uwrap_small by (unfold in_u; lia). rewrite zlen_take. unfold noinit. rewrite zlen_mrealloc by lia. lia. }
  assert (s ++ drop (length s) (noinit cf (zlen s)) = s) as Ed. { rewrite drop_ge, app_nil_r; [done|]. pose proof (zlen_mrealloc (junk cf) [] (zlen s) ltac:(lia)) as H. unfold noinit, zlen in *. lia. }
  split; (apply (loads_bind _ _ _ _ _ (true, RDB_ENC_LZF)); [by apply reads_encoding|]); cbn [fst snd Z.eqb Pos.eqb orb RDB_ENC_LZF RDB_ENC_INT8 RDB_ENC_INT16 RDB_ENC_INT32];
    (apply (loads_bind _ _ _ _ _ (false, zlen c)); [apply reads_len; auto|]); (apply (loads_bind _ _ _ _ _ (false, zlen s)); [apply reads_len; auto|]); cbn [fst snd];
    (eapply loads_then; [apply reads_read|]); rewrite Ec, Hd by exact El; change (the (Some (zlen s, s))) with (done (zlen s, s)); (apply (loads_then _ _ _ _ (zlen s, s)); [apply reads_done|]); cbn [fst snd];
    (destruct (Z.eqb_spec (zlen s) 0); [lia|]); rewrite Ed; apply loads_new; apply creates_raw; by left.
Qed.

(** The writer's configuration and the reader's are independent. *)
Section Both.
Context (cs cl : conf) (s0 : server).

Lemma saves_lzf s :
  Forall byte_ok s -> 20 < zlen s < 2 ^ 32 ->
  saves_as s0 (rdbSaveLzfStringObject cs s) false [] \/ exists bs, saves_as s0 (rdbSaveLzfStringObject cs s) true bs /\ decodes cl bs s.
Proof using Type.
  intros Hb Hl. unfold rdbSaveLzfStringObject. destruct (Z.leb_spec (zlen s) 4); [lia|]. assert (zlen (noinit cs (zlen s - 4)) = zlen s - 4) as Ef by (unfold noinit; apply zlen_mrealloc; lia).
  assert (exists n o, lzf_compress (htab cs) s (noinit cs (zlen s - 4)) = Some (n, o) /\ zlen o = zlen s - 4 /\
    (n = 0 \/ 0 < n <= zlen s - 4 /\ forall buf, zlen buf = zlen s -> lzf_decompress (take (Z.to_nat n) o) buf = Some (zlen s, s))) as (n & o & -> & Ho & Hn).
  { destruct (lzf_inverse (htab cs) s (noinit cs (zlen s - 4)) s Hb) as (n & o & E & Eo & Hn); [lia|done|]. exists n, o. rewrite Ef in *. split; [done|]. split; [done|]. destruct Hn as [[-> _]|[Hn _]]; [by left|right]. split; [done|]. intros buf Hbuf.
    destruct (lzf_inverse (htab cs) s (noinit cs (zlen s - 4)) buf Hb) as (n' & o' & E' & _ & Hn'); [lia|done|]. rewrite E in E'. injection E' as <- <-. destruct Hn' as [[? _]|[_ ?]]; [lia|done]. }
  cbn [the]. destruct (Z.eqb_spec n 0) as [->|Hn0].
  { left. eapply saves_the; [reflexivity|]. cbn [fst Z.eqb]. apply saves_done. }
  right. destruct Hn as [?|[Hn Hd]]; [done|]. set (c := take (Z.to_nat n) o) in *. assert (zlen c = n) as Ec by (unfold c; rewrite zlen_take; lia).
  exists ([Z.lor (Z.shiftl RDB_ENCVAL 6) RDB_ENC_LZF] ++ len_bytes (zlen c) ++ len_bytes (zlen s) ++ c). split; [|apply decodes_lzf; [lia|lia|done]].
  eapply saves_the; [reflexivity|]. cbn [fst snd]. destruct (Z.eqb_spec n 0); [done|]. fold c. rewrite <- (app_nil_r (_ ++ _)). eapply saves_bind; [|apply saves_done]. unfold rdbSaveLzfBlob.
  eapply saves_bind; [apply saves_write|]. eapply saves_bind; [apply saves_len; lia|]. eapply saves_bind; [apply saves_len; lia|]. apply saves_write.
Qed.

(** A string is written in a form that is read as this string. *)
Lemma saves_raw s : Forall byte_ok s -> zlen s < 2 ^ 32 -> exists bs, saves s0 (rdbSaveRawString cs s) bs /\ decodes cl bs s.
Proof using Type.
  intros Hb Hl. pose proof (zlen_nonneg s). unfold rdbSaveRawString. destruct (if zlen s <=? 11 then rdbTryIntegerEncoding s else None) as [enc|] eqn:E.
  { exists enc. split; [apply saves_write|]. destruct (zlen s <=? 11); [|done]. unfold rdbTryIntegerEncoding in E. destruct (strtoll s) as [v e]. case_match; [done|]. destruct (ll_buf 32 v) as [buf|] eqn:El; [|done]. cbn in E.
    case_bool_decide as Es; [|done]. cbn in E. subst buf. destruct (integer_bytes v enc E) as (_ & _ & _ & _ & _ & Hv). rewrite ll_buf_ok in El by (done || lia). injection El as <-. by apply decodes_integer. }
  assert (exists bs, saves s0 (rdbSaveLen cs (zlen s);; if zlen s >? 0 then rdbWriteRaw s else done tt) bs /\ decodes cl bs s) as (bs & Hs & Hd).
  { exists (len_bytes (zlen s) ++ s). split; [|apply decodes_verbatim; unfold RDB_LENERR; lia]. eapply saves_bind; [apply saves_len; lia|]. destruct (Z.gtb_spec (zlen s) 0); [apply saves_write|]. destruct s; [apply saves_done|rewrite zlen_cons in *; pose proof (zlen_nonneg s); lia]. }
  destruct (rdb_compression cs && (zlen s >? 20)) eqn:Ec.
  - destruct (saves_lzf s) as [Hz|(bz & Hz & Hdz)]; [done|lia| |].
    + exists bs. split; [|done]. change bs with ([] ++ bs). eapply saves_bind; [exact Hz|]. exact Hs.
    + exists bz. split; [|done]. rewrite <- (app_nil_r bz). eapply saves_bind; [exact Hz|]. apply saves_done.
  - exists bs. split; [|done]. change bs with ([] ++ bs). eapply saves_bind; [apply saves_done|]. exact Hs.
Qed.

Lemma saves_integer v : in_s 64 v -> exists bs, saves s0 (rdbSaveLongLongAsStringObject cs v) bs /\ decodes cl bs (ld_text v).
Proof using Type.
  intros Hv. unfold rdbSaveLongLongAsStringObject. destruct (rdbEncodeInteger v) as [enc|] eqn:E; [exists enc; split; [apply saves_write|by apply decodes_integer]|]. destruct (ld_text_len v Hv) as [Hl _].
  exists (len_bytes (zlen (ld_text v)) ++ ld_text v). split; [|apply decodes_verbatim; unfold RDB_LENERR; lia]. eapply saves_the; [apply ll_buf_ok; [done|lia]|]. destruct (Z.ltb_spec (zlen (ld_text v)) 32); [|lia]. cbn [negb].
  eapply saves_bind; [apply saves_len; lia|apply saves_write].
Qed.

(** Strings that a snapshot can hold. *)
Definition storable (s : list Z) : Prop := Forall byte_ok s /\ zlen s < 2 ^ 32.

Lemma saves_object o s : object_ok o -> value_of o = VString s -> storable s -> exists bs, saves s0 (rdbSaveStringObject cs o) bs /\ decodes cl bs s.
Proof using Type.
  intros Ho Hv [Hb Hl]. unfold rdbSaveStringObject, object_ok, value_of, long_of, sds_of in *. destruct (o_ptr o) as [v|s'|x] eqn:Ep; [| |done].
  - destruct Ho as (_ & -> & Hv64). rewrite bool_decide_eq_true_2 by done. injection Hv as <-. destruct (saves_integer v Hv64) as (bs & Hs & Hd). exists bs. split; [by eapply saves_the|done].
  - destruct Ho as [_ He]. injection Hv as ->. rewrite bool_decide_eq_false_2 by (intros E; by rewrite int_not_sds in He). rewrite He. cbn [negb]. destruct (saves_raw s Hb Hl) as (bs & Hs & Hd). exists bs. split; [by eapply saves_the|done].
Qed.

(** ** The server while a snapshot is loaded *)

Lemma abs_keeps s h : idle s -> keeps_values (server_refs s) (sheap s) h -> abs None (set_heap s h) = abs None s.
Proof using Type.
  intros Hs K. unfold abs. cbn. rewrite (id_argv _ Hs). f_equal.
  - apply map_ext_in. intros db Hdb%list_elem_of_In. apply db_kv_keeps. intros a [k Hk]%in_vals. apply K, elem_of_app. left. apply list_elem_of_lookup in Hdb as [d Hd]. apply in_refs. by exists d, db, k.
  - apply map_eq. intros id. rewrite !map_lookup_imap. destruct (clients s !! id) as [c|] eqn:Hc; [|done]. cbn. f_equal. unfold abs_client. rewrite bool_decide_eq_false_2 by done. f_equal.
    + apply map_ext_in. intros mc Hmc%list_elem_of_In. f_equal. apply map_ext_in. intros a Ha%list_elem_of_In. apply repr_text, K. unfold server_refs. rewrite !elem_of_app. right. right.
      apply in_qrefs. exists id, (mstate c), (mstate_write c), mc. split; [unfold queues; by rewrite lookup_fmap, Hc|done].
    + apply watched_names_ext. intros wk Hwk. apply repr_text, K. unfold server_refs. rewrite !elem_of_app. right. left. by eapply wrefs_client.
Qed.

Lemma watch_ok_keeps s h : idle s -> keeps_values (server_refs s) (sheap s) h -> watch_ok (text_at h) s.
Proof using Type.
  intros Hs K. apply (watch_ok_ext (text_at (sheap s))); [|exact (id_watch _ Hs)]. intros a Ha. symmetry. apply repr_text, K. unfold server_refs. rewrite !elem_of_app. tauto.
Qed.

Lemma idle_keeps s h : idle s -> heap_ok h (server_refs s) -> keeps_values (server_refs s) (sheap s) h -> idle (set_heap s h).
Proof using Type.
  intros Hs Hh K. pose proof (watch_ok_keeps s h Hs K) as [W1 W2 W3 W4 W5]. destruct Hs as [I1 I2 I3 I4 I5 I6 I7 I8]. constructor; try done. intros a Ha. destruct (I5 a Ha) as [x Hx]. exists x. eapply repr_sds; [|exact Hx]. apply K, elem_of_app. by right.
Qed.

(** A key is added. *)
Definition db_add (db : redisDb) (k : key) (a : addr) (w : option Z) : redisDb :=
  mk_db (<[k := a]> (dict db)) (match w with Some x => <[k := x]> (expires db) | None => expires db end) (watched_keys db).

Lemma idle_add s d db k a v w h :
  idle s -> dbs s !! d = Some db -> dict db !! k = None -> heap_ok h (a :: server_refs s) -> keeps_values (server_refs s) (sheap s) h -> value_at h a = Some v ->
  idle (set_dbs (set_heap s h) (<[d := db_add db k a w]> (dbs s))) /\
  abs None (set_dbs (set_heap s h) (<[d := db_add db k a w]> (dbs s))) = t_dbs (abs None s) (<[d := <[k := (v, w)]> (db_kv (sheap s) db)]> (a_dbs (abs None s))).
Proof using Type.
  intros Hs Hd Hk Hh K Hv. set (s' := set_dbs _ _). pose proof (lookup_lt_Some _ _ _ Hd) as Hlt. assert (forall i db', dbs s' !! i = Some db' -> i = d /\ db' = db_add db k a w \/ i <> d /\ dbs s !! i = Some db') as Hl.
  { intros i db' Hi. unfold s' in Hi. cbn in Hi. destruct (decide (d = i)) as [<-|Hne]; [rewrite list_lookup_insert_eq in Hi by done; left; naive_solver|rewrite list_lookup_insert_ne in Hi by done; right; naive_solver]. }
  assert (expires db !! k = None) as He. { destruct (expires db !! k) as [x|] eqn:E; [|done]. destruct (id_deadlines _ Hs d db k Hd) as [y Hy]; [by eexists|congruence]. }
  assert (wtab s' = wtab s) as Hwt. { unfold wtab, s'. cbn. f_equal. rewrite list_fmap_insert. by rewrite list_insert_id by (by rewrite list_lookup_fmap, Hd). }
  split; [constructor|].
  - destruct (refs_split (dbs s) d db Hd) as (rest & E1 & E2). eapply heap_ok_proper; [|exact Hh]. unfold server_refs. rewrite Hwt. unfold db_refs, s'. cbn [dbs set_dbs]. rewrite (E2 (db_add db k a w)), E1. assert (vals (db_add db k a w) ≡ₚ a :: vals db) as -> by (exact (vals_insert db k a Hk)). done.
  - intros i db' k' Hi. destruct (Hl i db' Hi) as [[-> ->]|[_ Hi']]; [|by apply (id_deadlines _ Hs i db')]. cbn. intros H. destruct (decide (k = k')) as [<-|Hne]; [rewrite lookup_insert_eq; by eexists|]. rewrite lookup_insert_ne by done. apply (id_deadlines _ Hs d db k' Hd). destruct w; [by rewrite lookup_insert_ne in H|done].
  - destruct (watch_ok_keeps s h Hs K) as [W1 W2 W3 W4 W5]. constructor; [| | |exact W4|].
    + intros i db' k' b ids id Hi Hw Hin. destruct (Hl i db' Hi) as [[-> ->]|[_ Hi']]; [by apply (W1 d db k' b ids)|by apply (W1 i db' k' b ids)].
    + intros id c i k' Hc Hw. destruct (W2 id c i k' Hc Hw) as (db' & b & ids & Hi & H). unfold s'. cbn. destruct (decide (d = i)) as [<-|Hne]; [exists (db_add db k a w), b, ids; rewrite list_lookup_insert_eq by done; split; [done|]; by simplify_eq|exists db', b, ids; by rewrite list_lookup_insert_ne].
    + intros i db' k' b ids Hi Hw. destruct (Hl i db' Hi) as [[-> ->]|[_ Hi']]; [by apply (W3 d db k' b)|by apply (W3 i db' k' b)].
    + intros i db' k' b ids Hi Hw. destruct (Hl i db' Hi) as [[-> ->]|[_ Hi']]; [by apply (W5 d db k' b ids)|by apply (W5 i db' k' b ids)].
  - intros i c Hc. cbn. rewrite list_lookup_insert_is_Some. by eapply id_db.
  - rewrite Hwt. intros b Hb. destruct (id_strings _ Hs b Hb) as [x Hx]. exists x. eapply repr_sds; [|exact Hx]. apply K, elem_of_app. by right.
  - exact (id_queues _ Hs).
  - exact (id_argv _ Hs).
  - cbn. rewrite length_insert. exact (id_dbs _ Hs).
  - rewrite <- (abs_keeps s h Hs K). unfold s', abs, t_dbs. cbn. f_equal. change (map (db_kv h) (<[d:=db_add db k a w]> (dbs s)) = <[d := <[k:=(v, w)]> (db_kv (sheap s) db)]> (db_kv h <$> dbs s)).
    change (map (db_kv h)) with (fmap (M := list) (db_kv h)). rewrite list_fmap_insert. f_equal. apply map_eq. intros k'.
    assert (db_kv (sheap s) db = db_kv h db) as ->. { symmetry. apply db_kv_keeps. intros b [kb Hb]%in_vals. apply K, elem_of_app. left. apply in_refs. by exists d, db, kb. }
    rewrite lookup_db_kv. cbn. destruct (decide (k = k')) as [<-|Hne]; [|rewrite !lookup_insert_ne by done; rewrite lookup_db_kv; destruct w; [by rewrite lookup_insert_ne|done]].
    rewrite !lookup_insert_eq. cbn. rewrite Hv. cbn. destruct w; [by rewrite lookup_insert_eq|by rewrite He].
Qed.

(** [m] takes [bs] and gives the address of an object that holds [s]. *)
Definition gives (raw : bool) (m : R addr) (bs s : list Z) : Prop :=
  forall t rest refs, stream_ok (io t) -> inp (io t) = bs ++ rest -> heap_ok (sheap (srv t)) refs ->
  exists h a, m t = Done a (set_srv (set_io t (ate (io t) bs rest)) (set_heap (srv t) h)) /\
    heap_ok h (a :: refs) /\ keeps_values refs (sheap (srv t)) h /\ value_at h a = Some (VString s) /\ (raw = true -> sds_at h a s).

Lemma gives_object raw m bs s : loads raw m bs s -> gives raw (x <- m; as_object x) bs s.
Proof using Type. intros H t rest refs Ht Hi Hh. destruct (H t rest refs Ht Hi Hh) as (h & a & E & H'). exists h, a. split; [|done]. unfold andthen. by rewrite E. Qed.

Lemma gives_or_exit raw m bs s : gives raw m bs s -> gives raw (or_exit m) bs s.
Proof using Type. intros H t rest refs Ht Hi Hh. destruct (H t rest refs Ht Hi Hh) as (h & a & E & H'). exists h, a. split; [|done]. unfold or_exit. by rewrite E. Qed.

Lemma gives_key bs s : decodes cl bs s -> gives true (or_exit (rdbLoadStringObject cl)) bs s.
Proof using Type. intros (_ & H & _). by apply gives_or_exit, gives_object. Qed.

Lemma gives_value bs s : decodes cl bs s -> gives false (or_exit (rdbLoadObject cl RDB_TYPE_STRING)) bs s.
Proof using Type.
  intros (_ & _ & H). apply gives_or_exit. intros t rest refs Ht Hi Hh. destruct (gives_object _ _ _ _ H t rest refs Ht Hi Hh) as (h & a & E & Hh1 & K1 & V1 & _).
  destruct (tryObjectEncoding_ok (private_integers (en cl)) h refs a s Hh1 V1) as (h2 & a2 & E2 & Hh2 & K2 & V2). exists h2, a2. split; [|split; [done|]; split; [by eapply keeps_values_trans|done]].
  unfold rdbLoadObject. cbn [Z.eqb RDB_TYPE_STRING]. unfold rdbLoadEncodedStringObject in *. unfold andthen at 1. rewrite E. unfold serve, on_heap_new. cbn [srv set_srv sheap set_heap]. by rewrite E2.
Qed.

(** A key is not loaded when its deadline has passed, on a master. *)
Definition dropped (aof : bool) (ex : Z) : bool := negb (masterhost (en cl)) && negb aof && negb (ex =? -1) && (ex <? mstime (en cl)).
Definition deadline (ex : Z) : option Z := if ex =? -1 then None else Some ex.

Lemma serve_run {A B} (m : M A) (k : A -> R B) t x s : m (srv t) = Some (x, s) -> (y <- serve m; k y) t = k x (set_srv t s).
Proof using Type. intros E. unfold andthen, serve. by rewrite E. Qed.

Lemma release_object t a refs : heap_ok (sheap (srv t)) (a :: refs) -> exists h, serve (decr a) t = Done tt (set_srv t (set_heap (srv t) h)) /\ heap_ok h refs /\ keeps_values refs (sheap (srv t)) h.
Proof using Type. intros Hh. destruct (decrRefCount_ok _ _ _ Hh) as (h & E & H1 & H2 & _). exists h. split; [|done]. unfold serve, decr, on_heap. by rewrite E. Qed.

(** [dbAdd] and [setExpire] *)
Lemma add_run {B} d k a ex t db (m : R B) :
  dbs (srv t) !! d = Some db -> dict db !! k = None ->
  (serve (dbAdd d k a);; (if negb (ex =? -1) then serve (setExpire d k ex) else done tt);; m) t = m (set_srv t (set_dbs (srv t) (<[d := db_add db k a (deadline ex)]> (dbs (srv t))))).
Proof using Type.
  intros Hd Hk. pose proof (lookup_lt_Some _ _ _ Hd) as Hlt. rewrite (serve_run _ _ _ tt (set_dbs (srv t) (<[d := set_dict db (<[k := a]> (dict db))]> (dbs (srv t))))).
  - unfold deadline. destruct (ex =? -1); cbn [negb]; [done|]. rewrite (serve_run _ _ _ tt (set_dbs (srv t) (<[d := db_add db k a (Some ex)]> (dbs (srv t))))); [done|].
    unfold setExpire, bind, get_db, gets, lift. cbn. rewrite list_lookup_insert_eq by done. cbn. rewrite lookup_insert_eq, bool_decide_eq_true_2 by (by eexists). unfold put_db, modify. cbn. by rewrite list_insert_insert_eq.
  - unfold dbAdd, bind, get_db, gets, lift. cbn. rewrite Hd, Hk. by rewrite bool_decide_eq_false_2 by (by intros []).
Qed.

Lemma load_key_ok aof d ex t rest bk bv k v db :
  idle (srv t) -> dbs (srv t) !! d = Some db -> dict db !! k = None -> stream_ok (io t) -> inp (io t) = (bk ++ bv) ++ rest -> decodes cl bk k -> decodes cl bv v ->
  exists s', load_key cl aof (mstime (en cl)) RDB_TYPE_STRING d ex t = Done tt (set_srv (set_io t (ate (io t) (bk ++ bv) rest)) s') /\ idle s' /\
    abs None s' = (if dropped aof ex then abs None (srv t) else t_dbs (abs None (srv t)) (<[d := <[k := (VString v, deadline ex)]> (db_kv (sheap (srv t)) db)]> (a_dbs (abs None (srv t))))).
Proof using Type.
  intros Hs Hd Hk Ht Hi Dk Dv. rewrite <- app_assoc in Hi. set (refs := server_refs (srv t)).
  destruct (gives_key bk k Dk t (bv ++ rest) refs Ht Hi (id_heap _ Hs)) as (h1 & a1 & E1 & Hh1 & K1 & _ & S1).
  set (t1 := set_srv _ _) in E1. destruct (gives_value bv v Dv t1 rest (a1 :: refs) Ht) as (h2 & a2 & E2 & Hh2 & K2 & V2 & _); [done|exact Hh1|].
  set (t2 := set_srv _ _) in E2. assert (t2 = set_srv (set_io t (ate (io t) (bk ++ bv) rest)) (set_heap (srv t) h2)) as Et2 by (unfold t2, t1; cbn; by rewrite ate_app). clearbody t2. subst t2.
  assert (keeps_values refs (sheap (srv t)) h2) as K12 by (eapply keeps_values_trans; [exact K1|]; eapply keeps_values_sub; [|exact K2]; intros; by right).
  assert (heap_ok h2 (a1 :: a2 :: refs)) as Hh2' by (eapply heap_ok_proper; [apply Permutation_swap|exact Hh2]).
  unfold load_key, andthen at 1. rewrite E1. unfold andthen at 1. rewrite E2. fold (dropped aof ex). destruct (dropped aof ex).
  - destruct (release_object (set_srv (set_io t (ate (io t) (bk ++ bv) rest)) (set_heap (srv t) h2)) a1 _ Hh2') as (h3 & R3 & Hh3 & K3). unfold andthen at 1. rewrite R3. clear R3.
    destruct (release_object (set_srv (set_io t (ate (io t) (bk ++ bv) rest)) (set_heap (srv t) h3)) a2 _ Hh3) as (h4 & R4 & Hh4 & K4). exists (set_heap (srv t) h4). split; [exact R4|]. cbn in K3, K4.
    assert (keeps_values refs (sheap (srv t)) h4) as K by (eapply keeps_values_trans; [exact K12|]; eapply keeps_values_trans; [|exact K4]; eapply keeps_values_sub; [|exact K3]; intros; by right).
    split; [by apply idle_keeps|by apply abs_keeps].
  - destruct (repr_sds h1 h2 a1 k) as (o & Ho & Hp); [apply K2; left|by apply S1|]. set (t2 := set_srv _ _).
    rewrite (serve_run _ _ t2 o (srv t2)) by (unfold get_obj, read_heap; cbn; by rewrite Ho). assert (set_srv t2 (srv t2) = t2) as -> by done. unfold sds_of. rewrite Hp. unfold andthen at 1. cbn [the].
    rewrite (add_run d k a2 ex t2 db) by done. destruct (release_object (set_srv t2 (set_dbs (srv t2) (<[d:=db_add db k a2 (deadline ex)]> (dbs (srv t2))))) a1 _ Hh2') as (h3 & R3 & Hh3 & K3). rewrite R3. cbn in K3.
    assert (keeps_values refs (sheap (srv t)) h3) as K by (eapply keeps_values_trans; [exact K12|]; eapply keeps_values_sub; [|exact K3]; intros; by right).
    assert (value_at h3 a2 = Some (VString v)) as V3 by (rewrite <- V2; apply (keeps_value _ _ _ _ K3); left).
    exists (set_dbs (set_heap (srv t) h3) (<[d := db_add db k a2 (deadline ex)]> (dbs (srv t)))). split; [done|]. by apply idle_add.
Qed.

(** ** The rounds of the loader *)

(** What loading is about: the abstract state of the server, the replication
    state and the scripts. *)
Definition view : Type := astate * option rdbSaveInfo * list (list Z).
Definition view_of (t : state) : view := (abs None (srv t), rsi t, lua_scripts t).

Context (aof : bool).
#[local] Abbreviation loop fuel d ex := (load_loop cl fuel aof (mstime (en cl)) RDB_VERSION d ex).

(** From database [d] and deadline [ex], the rounds that read [bs] end with [d']
    and [ex'] and change the view by [f], if [P] holds of it before. *)
Definition runs (bs : list Z) (P : view -> Prop) (d : nat) (ex : Z) (d' : nat) (ex' : Z) (f : view -> view) : Prop :=
  forall t rest, stream_ok (io t) -> inp (io t) = bs ++ rest -> idle (srv t) -> P (view_of t) ->
  exists n t', (n <= length bs)%nat /\ (forall fuel, loop (n + fuel)%nat d ex t = loop fuel d' ex' t') /\ io t' = ate (io t) bs rest /\ idle (srv t') /\ view_of t' = f (view_of t).

Lemma runs_nil d ex : runs [] (fun _ => True) d ex d ex id.
Proof using Type.
  intros t rest Ht Hi Hs _. exists 0%nat, t. split; [done|]. split; [done|]. split; [|done]. cbn in Hi. unfold ate. rewrite sum_on_nil, <- Hi. by destruct (io t).
Qed.

Lemma runs_app a b P1 P2 d ex d1 ex1 d2 ex2 f1 f2 :
  runs a P1 d ex d1 ex1 f1 -> runs b P2 d1 ex1 d2 ex2 f2 -> runs (a ++ b) (fun v => P1 v /\ P2 (f1 v)) d ex d2 ex2 (fun v => f2 (f1 v)).
Proof using Type.
  intros R1 R2 t rest Ht Hi Hs [H1 H2]. rewrite <- app_assoc in Hi. destruct (R1 t (b ++ rest) Ht Hi Hs H1) as (n1 & t1 & Hn1 & E1 & Hio & Hs1 & Hv1).
  destruct (R2 t1 rest) as (n2 & t2 & Hn2 & E2 & Hio2 & Hs2 & Hv2); [by rewrite Hio|by rewrite Hio|done|by rewrite Hv1|]. exists (n1 + n2)%nat, t2. split; [rewrite length_app; lia|].
  split; [intros fuel; by rewrite <- Nat.add_assoc, E1, E2|]. split; [by rewrite Hio2, Hio, ate_app|]. split; [done|]. by rewrite Hv2, Hv1.
Qed.

Lemma runs_weaken bs P P' d ex d' ex' f f' : runs bs P d ex d' ex' f -> (forall v, P' v -> P v /\ f v = f' v) -> runs bs P' d ex d' ex' f'.
Proof using Type. intros H Hw t rest Ht Hi Hs HP. destruct (Hw _ HP) as [HP' <-]. by apply H. Qed.

(** A round begins with its opcode. *)
Lemma reads_type b : reads (or_exit rdbLoadType) [b] b.
Proof using Type. apply reads_or_exit. apply (reads_bind _ _ [b] [] [b]); [apply (reads_read [b])|]. apply reads_done. Qed.

(** A round that only reads. *)
Lemma runs_op op bs P d ex d' ex' :
  (forall t0 t rest fuel, or_exit rdbLoadType t0 = Done op t -> stream_ok (io t) -> inp (io t) = bs ++ rest -> P (view_of t) -> loop (S fuel) d ex t0 = loop fuel d' ex' (set_io t (ate (io t) bs rest))) ->
  runs (op :: bs) P d ex d' ex' id.
Proof using Type.
  intros H t rest Ht Hi Hs HP. exists 1%nat, (set_io t (ate (io t) (op :: bs) rest)). split; [cbn; lia|]. split; [|done]. intros fuel.
  assert (or_exit rdbLoadType t = Done op (set_io t (ate (io t) [op] (bs ++ rest)))) as E by (by apply reads_type). change (1 + fuel)%nat with (S fuel). rewrite (H _ _ rest fuel E); [|done|done|done]. f_equal. unfold set_io. cbn. by rewrite ate_app.
Qed.

Ltac round E := cbn [load_loop]; unfold andthen at 1; rewrite E; cbn [Z.eqb Pos.eqb RDB_OPCODE_EXPIRETIME RDB_OPCODE_EXPIRETIME_MS RDB_OPCODE_FREQ RDB_OPCODE_IDLE RDB_OPCODE_EOF RDB_OPCODE_SELECTDB RDB_OPCODE_RESIZEDB RDB_OPCODE_AUX RDB_OPCODE_MODULE_AUX RDB_TYPE_STRING].

Lemma reads_ms v : in_s 64 v -> reads (rdbLoadMillisecondTime cl RDB_VERSION) (le_bytes 8 v) v.
Proof using Type.
  intros Hv. unfold rdbLoadMillisecondTime. assert (zlen (le_bytes 8 v) = 8) as Hl by (by rewrite zlen_le_bytes). eapply reads_then; [apply reads_or_exit; rewrite <- Hl; apply reads_read|].
  change (RDB_VERSION >=? 9) with true. cbv iota. pose proof (memrevifbe_le (host cl) 8 v ltac:(by right; right)) as E. change (memrevifbe (host cl) 8) with (memrev64ifbe (host cl)) in E. rewrite E. change (done (swrap 64 (native_val (host cl) (native_bytes (host cl) 8 v))) = done v). f_equal.
  rewrite native_val_bytes. change (2 ^ (8 * Z.of_nat 8)) with (2 ^ 64). rewrite swrap_mod by lia. by apply swrap_small.
Qed.

Lemma saves_ms v : saves s0 (rdbSaveMillisecondTime cs v) (le_bytes 8 v).
Proof using Type. unfold rdbSaveMillisecondTime. eapply saves_the; [exact (memrevifbe_native (host cs) 8 v ltac:(by right; right))|apply saves_write]. Qed.

Lemma runs_expire d ex v : in_s 64 v -> runs (RDB_OPCODE_EXPIRETIME_MS :: le_bytes 8 v) (fun _ => True) d ex d v id.
Proof using Type. intros Hv. apply runs_op. intros t0 t rest fuel E Ht Hi _. round E. unfold andthen at 1. by rewrite (reads_ms v Hv t rest Ht Hi). Qed.

Lemma runs_idle d ex n : 0 <= n < RDB_LENERR -> runs (RDB_OPCODE_IDLE :: len_bytes n) (fun _ => True) d ex d ex id.
Proof using Type. intros Hn. apply runs_op. intros t0 t rest fuel E Ht Hi _. round E. unfold andthen at 1. by rewrite (reads_or_exit _ _ _ (reads_len cl n Hn) t rest Ht Hi). Qed.

Lemma runs_freq d ex b : runs [RDB_OPCODE_FREQ; b] (fun _ => True) d ex d ex id.
Proof using Type. apply runs_op. intros t0 t rest fuel E Ht Hi _. round E. unfold andthen at 1. change 1 with (zlen [b]). by rewrite (reads_or_exit _ _ _ (reads_read [b]) t rest Ht Hi). Qed.

Lemma runs_select d ex j : Z.of_nat j < RDB_LENERR -> runs (RDB_OPCODE_SELECTDB :: len_bytes (Z.of_nat j)) (fun v => (j < length (a_dbs v.1.1))%nat) d ex j ex id.
Proof using Type.
  intros Hj. apply runs_op. intros t0 t rest fuel E Ht Hi Hl. round E. unfold andthen at 1. rewrite (reads_or_exit _ _ _ (reads_len cl (Z.of_nat j) ltac:(lia)) t rest Ht Hi). unfold andthen at 1, serve, gets. cbn [srv set_io set_srv snd fst].
  cbn in Hl. rewrite length_map in Hl. destruct (Z.geb_spec (Z.of_nat j) (zlen (dbs (srv t)))); [unfold zlen in *; lia|]. rewrite Nat2Z.id. by destruct t.
Qed.

Lemma runs_resize d ex n m : 0 <= n < RDB_LENERR -> 0 <= m < RDB_LENERR -> runs (RDB_OPCODE_RESIZEDB :: len_bytes n ++ len_bytes m) (fun _ => True) d ex d ex id.
Proof using Type.
  intros Hn Hm. apply runs_op. intros t0 t rest fuel E Ht Hi _. round E. rewrite <- app_assoc in Hi. unfold andthen at 1. rewrite (reads_or_exit _ _ _ (reads_len cl n Hn) t _ Ht Hi). unfold andthen at 1.
  rewrite (reads_or_exit _ _ _ (reads_len cl m Hm) (set_io t (ate (io t) (len_bytes n) (len_bytes m ++ rest))) rest Ht eq_refl). f_equal. unfold set_io. cbn. by rewrite ate_app.
Qed.

(** A key with its value. *)
Definition put_entry (d : nat) (k v : list Z) (ex : Z) (w : view) : view :=
  (if dropped aof ex then w.1.1 else t_dbs w.1.1 (<[d := <[k := (VString v, deadline ex)]> (default ∅ (a_dbs w.1.1 !! d))]> (a_dbs w.1.1)), w.1.2, w.2).
Definition free_in (d : nat) (k : list Z) (w : view) : Prop := exists m : kvs, a_dbs w.1.1 !! d = Some m /\ m !! k = None.

Lemma free_dict s d k m db : idle s -> dbs s !! d = Some db -> db_kv (sheap s) db = m -> m !! k = None -> dict db !! k = None.
Proof using Type.
  intros Hs Hd <- Hk. rewrite lookup_db_kv in Hk. destruct (dict db !! k) as [a|] eqn:E; [|done]. cbn in Hk. destruct (ho_live _ _ (id_heap _ Hs) a) as [o Ho]; [apply elem_of_app; left; apply in_refs; by exists d, db, k|].
  unfold value_at in Hk. by rewrite Ho in Hk.
Qed.

Lemma runs_key d ex bk bv k v : decodes cl bk k -> decodes cl bv v -> runs (RDB_TYPE_STRING :: bk ++ bv) (free_in d k) d ex d (-1) (put_entry d k v ex).
Proof using Type.
  intros Dk Dv t rest Ht Hi Hs (m & Hm & Hk). cbn in Hm. change (map (db_kv (sheap (srv t))) (dbs (srv t))) with (db_kv (sheap (srv t)) <$> dbs (srv t)) in Hm. rewrite list_lookup_fmap in Hm. destruct (dbs (srv t) !! d) as [db|] eqn:Hd; [|done]. apply (inj Some) in Hm.
  set (t1 := set_io t (ate (io t) [RDB_TYPE_STRING] ((bk ++ bv) ++ rest))).
  destruct (load_key_ok aof d ex t1 rest bk bv k v db) as (s' & E & Hs' & Ha); [done|done|by eapply (free_dict (srv t))|done|done|done|done|].
  eexists 1%nat, _. split; [cbn; lia|]. split; [|].
  - intros fuel. assert (or_exit rdbLoadType t = Done RDB_TYPE_STRING t1) as E0 by (by apply reads_type). change (1 + fuel)%nat with (S fuel). round E0. unfold andthen at 1. rewrite E. reflexivity.
  - cbn [io set_srv set_io]. split; [unfold t1; cbn; by rewrite ate_app|]. split; [done|]. unfold view_of, put_entry. cbn [srv rsi lua_scripts set_srv set_io fst snd]. rewrite Ha. change (srv t1) with (srv t). f_equal. f_equal.
    destruct (dropped aof ex); [done|]. f_equal. f_equal. f_equal. change (a_dbs (abs None (srv t)) !! d) with ((db_kv (sheap (srv t)) <$> dbs (srv t)) !! d). by rewrite list_lookup_fmap, Hd.
Qed.

(** An auxiliary field, if [aux_field] has the effect [g]. *)
Lemma runs_aux d ex bk bv k v (P : view -> Prop) (g : option rdbSaveInfo * list (list Z) -> option rdbSaveInfo * list (list Z)) :
  decodes cl bk k -> decodes cl bv v ->
  (forall t, P (view_of t) -> aux_field cl k v t = Done tt (mk_st (io t) (srv t) (g (rsi t, lua_scripts t)).1 (g (rsi t, lua_scripts t)).2)) ->
  (forall w w', P w -> w.1.2 = w'.1.2 -> w.2 = w'.2 -> P w') ->
  runs (RDB_OPCODE_AUX :: bk ++ bv) P d ex d ex (fun w => (w.1.1, (g (w.1.2, w.2)).1, (g (w.1.2, w.2)).2)).
Proof using Type.
  intros Dk Dv Hg HPw t rest Ht Hi Hs HP. cbn [app] in Hi. set (refs := server_refs (srv t)). set (t0 := set_io t (ate (io t) [RDB_OPCODE_AUX] ((bk ++ bv) ++ rest))).
  destruct (gives_key bk k Dk t0 (bv ++ rest) refs Ht) as (h1 & a1 & E1 & Hh1 & K1 & _ & S1); [cbn; by rewrite app_assoc|exact (id_heap _ Hs)|]. set (t1 := set_srv _ _) in E1.
  destruct (gives_key bv v Dv t1 rest (a1 :: refs) Ht eq_refl Hh1) as (h2 & a2 & E2 & Hh2 & K2 & _ & S2). set (t2 := set_srv _ _) in E2.
  destruct (repr_sds h1 h2 a1 k) as (o1 & Ho1 & Hp1); [apply K2; left|by apply S1|]. destruct S2 as (o2 & Ho2 & Hp2); [done|]. set (t3 := mk_st (io t2) (srv t2) (g (rsi t, lua_scripts t)).1 (g (rsi t, lua_scripts t)).2).
  destruct (release_object t3 a1 (a2 :: refs)) as (h3 & R3 & Hh3 & K3); [eapply heap_ok_proper; [apply Permutation_swap|exact Hh2]|]. destruct (release_object (set_srv t3 (set_heap (srv t3) h3)) a2 refs Hh3) as (h4 & R4 & Hh4 & K4). cbn in K3, K4.
  assert (keeps_values refs (sheap (srv t)) h4) as K.
  { eapply keeps_values_trans; [exact K1|]. eapply keeps_values_trans; [eapply keeps_values_sub; [|exact K2]; intros; by right|]. eapply keeps_values_trans; [|exact K4]. eapply keeps_values_sub; [|exact K3]. intros; by right. }
  eexists 1%nat, _. split; [cbn; lia|]. split.
  - intros fuel. assert (or_exit rdbLoadType t = Done RDB_OPCODE_AUX t0) as E0 by (apply reads_type; [done|exact Hi]). change (1 + fuel)%nat with (S fuel). round E0. unfold andthen at 1, load_aux. unfold andthen at 1. rewrite E1. unfold andthen at 1. rewrite E2.
    rewrite (serve_run _ _ t2 o1 (srv t2)) by (unfold get_obj, read_heap; cbn; by rewrite Ho1). assert (set_srv t2 (srv t2) = t2) as -> by done. unfold sds_of at 1. rewrite Hp1. unfold andthen at 1. cbn [the].
    rewrite (serve_run _ _ t2 o2 (srv t2)) by (unfold get_obj, read_heap; cbn; by rewrite Ho2). assert (set_srv t2 (srv t2) = t2) as -> by done. unfold sds_of at 1. rewrite Hp2. unfold andthen at 1. cbn [the].
    assert (aux_field cl k v t2 = Done tt t3) as Ea by (apply (Hg t2); by eapply HPw). unfold andthen at 1. rewrite Ea. unfold andthen at 1. rewrite R3, R4. reflexivity.
  - split; [cbn; by rewrite !ate_app|]. split; [apply (idle_keeps (srv t) h4); done|]. unfold view_of. cbn. f_equal. f_equal. exact (abs_keeps (srv t) h4 Hs K).
Qed.

(** ** Keys and databases *)

(** The ages of values can be written. *)
Hypothesis ages : policy_lru cs = true -> forall a, 0 <= estimateObjectIdleTime cs a / 1000 < RDB_LENERR.

Lemma saves_lru a d ex :
  exists bs, saves s0 (if policy_lru cs then rdbSaveType RDB_OPCODE_IDLE;; rdbSaveLen cs (estimateObjectIdleTime cs a / 1000) else done tt) bs /\ runs bs (fun _ => True) d ex d ex id.
Proof using ages.
  destruct (policy_lru cs) eqn:E; [|exists []; split; [apply saves_done|apply runs_nil]]. pose proof (ages eq_refl a) as Ha. exists ([RDB_OPCODE_IDLE] ++ len_bytes (estimateObjectIdleTime cs a / 1000)).
  split; [eapply saves_bind; [apply saves_type|apply saves_len; unfold RDB_LENERR in *; lia]|by apply runs_idle].
Qed.

Lemma saves_lfu a d ex : exists bs, saves s0 (if policy_lfu cs then rdbSaveType RDB_OPCODE_FREQ;; rdbWriteRaw [uwrap 8 (LFUDecrAndReturn cs a)] else done tt) bs /\ runs bs (fun _ => True) d ex d ex id.
Proof using Type.
  destruct (policy_lfu cs); [|exists []; split; [apply saves_done|apply runs_nil]]. exists ([RDB_OPCODE_FREQ] ++ [uwrap 8 (LFUDecrAndReturn cs a)]). split; [eapply saves_bind; [apply saves_type|apply saves_write]|apply runs_freq].
Qed.

Lemma saves_pair k a ex o v d :
  cells (sheap s0) !! a = Some o -> object_ok o -> value_of o = VString v -> storable k -> storable v -> in_s 64 ex ->
  exists bs, saves s0 (rdbSaveKeyValuePair cs (static_string k) a ex) bs /\ runs bs (free_in d k) d (-1) d (-1) (put_entry d k v ex).
Proof using ages.
  intros Ha Ho Hv Sk Sv Hex. assert (exists bs, saves s0 (if negb (ex =? -1) then rdbSaveType RDB_OPCODE_EXPIRETIME_MS;; rdbSaveMillisecondTime cs ex else done tt) bs /\ runs bs (fun _ => True) d (-1) d ex id) as (b1 & S1 & R1).
  { destruct (Z.eqb_spec ex (-1)) as [->|]; cbn [negb]; [exists []; split; [apply saves_done|apply runs_nil]|]. exists ([RDB_OPCODE_EXPIRETIME_MS] ++ le_bytes 8 ex). split; [eapply saves_bind; [apply saves_type|apply saves_ms]|by apply runs_expire]. }
  destruct (saves_lru a d ex) as (b2 & S2 & R2). destruct (saves_lfu a d ex) as (b3 & S3 & R3). destruct (saves_object (static_string k) k) as (bk & Sbk & Dk); [done|done|done|]. destruct (saves_object o v Ho Hv Sv) as (bv & Sbv & Dv).
  assert (o_type o = OBJ_STRING) as Hty. { unfold object_ok, value_of in *. destruct (o_ptr o); [apply Ho|apply Ho|done]. }
  exists (b1 ++ b2 ++ b3 ++ [RDB_TYPE_STRING] ++ bk ++ bv). split.
  - unfold rdbSaveKeyValuePair. eapply saves_bind; [exact S1|]. eapply saves_bind; [exact S2|]. eapply saves_bind; [exact S3|].
    eapply saves_serve; [unfold get_obj, read_heap; rewrite Ha; reflexivity|]. unfold rdbSaveObjectType, rdbSaveObject. rewrite Hty. eapply saves_bind; [apply saves_type|]. by eapply saves_bind.
  - eapply runs_weaken; [eapply runs_app; [exact R1|]; eapply runs_app; [exact R2|]; eapply runs_app; [exact R3|]; exact (runs_key d ex bk bv k v Dk Dv)|]. done.
Qed.

(** What a snapshot can hold: strings, of bytes and shorter than 4 GB. *)
Definition entry_ok (k : key) (x : entry) : Prop := storable k /\ match x.1 with VString v => storable v | VOther _ _ => False end /\ from_option (in_s 64) True x.2.
Definition snapshotable (l : list kvs) : Prop := Forall (fun m => Z.of_nat (size m) < RDB_LENERR /\ map_Forall entry_ok m) l /\ zlen l < 2 ^ 31.

Hypothesis idle_s0 : idle s0.
Hypothesis snap_s0 : snapshotable (a_dbs (abs None s0)).

Lemma sn_db d db : dbs s0 !! d = Some db -> Z.of_nat (size (dict db)) < RDB_LENERR /\ map_Forall entry_ok (db_kv (sheap s0) db).
Proof using idle_s0 snap_s0.
  intros Hd. destruct snap_s0 as [HF _]. rewrite Forall_forall in HF. destruct (HF (db_kv (sheap s0) db)) as [H1 H2]; [eapply (list_elem_of_lookup_2 _ d); by rewrite lookup_abs_db, Hd|]. split; [|done].
  assert (size (db_kv (sheap s0) db) = size (dict db)) as <-; [|done]. rewrite <- !size_dom. f_equal. apply set_eq. intros k. rewrite !elem_of_dom, lookup_db_kv. destruct (dict db !! k) as [a|] eqn:Hk; [|cbn; by split]. cbn.
  destruct (ho_live _ _ (id_heap _ idle_s0) a) as [o Ho]; [apply elem_of_app; left; apply in_refs; by exists d, db, k|]. unfold value_at. rewrite Ho. cbn. split; intros _; by eexists.
Qed.

(** The entries of a database as they are loaded. *)
Definition ex_of (db : redisDb) (k : key) : Z := default (-1) (expires db !! k).
Definition put_all (j : nat) (db : redisDb) (l : list (key * addr)) (w : view) : view :=
  foldl (fun w e => put_entry j e.1 (text_at (sheap s0) e.2) (ex_of db e.1) w) w l.

Lemma entry_facts j db k a :
  dbs s0 !! j = Some db -> dict db !! k = Some a ->
  exists o, cells (sheap s0) !! a = Some o /\ object_ok o /\ value_of o = VString (text_at (sheap s0) a) /\ storable k /\ storable (text_at (sheap s0) a) /\ in_s 64 (ex_of db k).
Proof using idle_s0 snap_s0.
  intros Hj Hk. destruct (ho_live _ _ (id_heap _ idle_s0) a) as [o Ho]; [apply elem_of_app; left; apply in_refs; by exists j, db, k|]. exists o. split; [done|]. split; [by eapply ho_object; [apply (id_heap _ idle_s0)|]|].
  destruct (sn_db j db Hj) as [_ HF]. destruct (HF k (value_of o, expires db !! k)) as (Hst & Hv & Hin); [rewrite lookup_db_kv, Hk; cbn; unfold value_at; by rewrite Ho|]. cbn in Hv, Hin.
  destruct (value_of o) as [v|] eqn:Ev; [|done]. assert (text_at (sheap s0) a = v) as -> by (unfold text_at, value_at; rewrite Ho; cbn; by rewrite Ev). split; [done|]. split; [done|]. split; [done|].
  unfold ex_of. destruct (expires db !! k); [done|]. unfold in_s. cbn. lia.
Qed.

Lemma getExpire_saved j db k a : dbs s0 !! j = Some db -> dict db !! k = Some a -> getExpire j k s0 = Some (ex_of db k, s0).
Proof using Type.
  intros Hj Hk. unfold getExpire, bind, get_db, gets, lift, ex_of. cbn. rewrite Hj. destruct (expires db !! k); [|done]. by rewrite Hk, bool_decide_eq_true_2 by (by eexists).
Qed.

Lemma put_entry_free j k k' v ex w : k' <> k -> free_in j k w -> free_in j k' w -> free_in j k' (put_entry j k v ex w).
Proof using Type.
  intros Hne (m & Hm & _) (m' & Hm' & Hk'). rewrite Hm in Hm'. injection Hm' as <-. unfold free_in, put_entry. cbn. destruct (dropped aof ex); [by exists m|]. rewrite Hm. cbn. eexists. split; [apply list_lookup_insert_eq; by eapply lookup_lt_Some|].
  by rewrite lookup_insert_ne.
Qed.

Lemma saves_keys j db l :
  dbs s0 !! j = Some db -> (forall k a, (k, a) ∈ l -> dict db !! k = Some a) -> NoDup l.*1 ->
  exists bs, saves s0 (each l (save_key cs j)) bs /\ runs bs (fun w => forall k, k ∈ l.*1 -> free_in j k w) j (-1) j (-1) (put_all j db l).
Proof using ages idle_s0 snap_s0.
  intros Hj. induction l as [|[k a] l IH]; intros Hl Hn; [exists []; split; [apply saves_done|eapply runs_weaken; [apply runs_nil|done]]|]. cbn in Hn. apply NoDup_cons in Hn as [Hk Hn].
  destruct IH as (bs & Sl & Rl); [intros; apply Hl; by right|done|]. assert (dict db !! k = Some a) as Hka by (apply Hl; left). destruct (entry_facts j db k a Hj Hka) as (o & Ho & Hok & Hv & Sk & Sv & Hex).
  destruct (saves_pair k a (ex_of db k) o _ j Ho Hok Hv Sk Sv Hex) as (b1 & S1 & R1). exists (b1 ++ bs). split.
  - cbn [each]. eapply saves_bind; [|exact Sl]. eapply saves_serve; [by eapply getExpire_saved|exact S1].
  - eapply runs_weaken; [by eapply runs_app|]. intros w HP. split; [|done]. split; [apply HP; left|]. intros k' Hk'. apply put_entry_free; [intros ->; done|apply HP; left|apply HP; by right].
Qed.

Lemma saves_db j db d :
  dbs s0 !! j = Some db ->
  exists bs d', saves s0 (save_db cs j) bs /\ runs bs (fun w => a_dbs w.1.1 !! j = Some ∅) d (-1) d' (-1) (put_all j db (map_to_list (dict db))).
Proof using ages idle_s0 snap_s0.
  intros Hj. assert (get_db j s0 = Some (db, s0)) as Hg by (unfold get_db, bind, gets, lift; by rewrite Hj). unfold save_db. destruct (Z.eqb_spec (Z.of_nat (size (dict db))) 0) as [E|E].
  { exists [], d. split; [eapply saves_serve; [exact Hg|]; rewrite E; apply saves_done|]. assert (dict db = ∅) as -> by (apply map_size_empty_inv; lia). rewrite map_to_list_empty. eapply runs_weaken; [apply runs_nil|done]. }
  destruct (saves_keys j db (map_to_list (dict db)) Hj) as (bs & Sk & Rk); [intros k a; apply elem_of_map_to_list|apply NoDup_fst_map_to_list|].
  destruct (sn_db j db Hj) as [Hsz _]. assert (size (expires db) <= size (dict db))%nat as Hle.
  { rewrite <- !size_dom. apply subseteq_size. intros k Hk%elem_of_dom. apply elem_of_dom. by apply (id_deadlines _ idle_s0 j db). }
  assert (Z.of_nat j < RDB_LENERR) as Hjl by (pose proof (proj2 snap_s0) as Hd31; cbn in Hd31; apply lookup_lt_Some in Hj; unfold zlen, RDB_LENERR in *; rewrite length_map in Hd31; lia).
  exists ([RDB_OPCODE_SELECTDB] ++ len_bytes (Z.of_nat j) ++ [RDB_OPCODE_RESIZEDB] ++ len_bytes (Z.of_nat (size (dict db))) ++ len_bytes (Z.of_nat (size (expires db))) ++ bs), j. split.
  - eapply saves_serve; [exact Hg|]. destruct (Z.eqb_spec (Z.of_nat (size (dict db))) 0); [done|]. unfold RDB_LENERR in *.
    eapply saves_bind; [apply saves_type|]. eapply saves_bind; [apply saves_len; lia|]. eapply saves_bind; [apply saves_type|]. eapply saves_bind; [apply saves_len; lia|]. eapply saves_bind; [apply saves_len; lia|]. exact Sk.
  - rewrite app_assoc, (app_assoc [RDB_OPCODE_RESIZEDB]), (app_assoc ([RDB_OPCODE_RESIZEDB] ++ _)). eapply runs_weaken; [eapply runs_app; [apply (runs_select d (-1) j Hjl)|]; eapply runs_app; [rewrite <- app_assoc; apply (runs_resize j (-1) (Z.of_nat (size (dict db))) (Z.of_nat (size (expires db)))); lia|exact Rk]|].
    cbn. intros w Hw. split; [|done]. split; [by eapply lookup_lt_Some|]. split; [done|]. intros k _. by exists ∅.
Qed.

(** A database after it was saved and loaded: keys whose deadline has passed are
    gone on a master. *)
Definition reload (m : kvs) : kvs := omap (fun x => if dropped aof (default (-1) x.2) then None else Some (x.1, same_deadline x.2)) m.

Definition put_map (db : redisDb) (m : kvs) (e : key * addr) : kvs :=
  if dropped aof (ex_of db e.1) then m else <[e.1 := (VString (text_at (sheap s0) e.2), deadline (ex_of db e.1))]> m.

Lemma put_all_fold j db l w m : a_dbs w.1.1 !! j = Some m -> put_all j db l w = (t_dbs w.1.1 (<[j := foldl (put_map db) m l]> (a_dbs w.1.1)), w.1.2, w.2).
Proof using Type.
  revert w m. induction l as [|e l IH]; intros w m Hm.
  - cbn. rewrite list_insert_id by done. destruct w as [[[] ?] ?]. done.
  - change (put_all j db (e :: l) w) with (put_all j db l (put_entry j e.1 (text_at (sheap s0) e.2) (ex_of db e.1) w)). cbn [foldl]. rewrite (IH _ (put_map db m e)); unfold put_entry, put_map; cbn; destruct (dropped aof (ex_of db e.1)); cbn; rewrite ?Hm; try done.
    + cbn. by rewrite list_insert_insert_eq.
    + apply list_lookup_insert_eq. by eapply lookup_lt_Some.
Qed.

Lemma put_map_fold db l m k :
  NoDup l.*1 -> foldl (put_map db) m l !! k =
    match (list_to_map l : gmap key addr) !! k with Some a => if dropped aof (ex_of db k) then m !! k else Some (VString (text_at (sheap s0) a), deadline (ex_of db k)) | None => m !! k end.
Proof using Type.
  revert m. induction l as [|[k0 a0] l IH]; intros m Hn; [done|]. cbn in Hn. apply NoDup_cons in Hn as [Hk Hn]. cbn [foldl list_to_map foldr curry]. rewrite IH by done. unfold put_map. cbn. destruct (decide (k0 = k)) as [->|Hne].
  - rewrite lookup_insert_eq, not_elem_of_list_to_map_1 by done. destruct (dropped aof (ex_of db k)); [done|by rewrite lookup_insert_eq].
  - rewrite lookup_insert_ne by done. destruct (dropped aof (ex_of db k0)); [done|by rewrite lookup_insert_ne].
Qed.

Lemma same_deadline_ex w : deadline (default (-1) w) = same_deadline w.
Proof using Type. unfold deadline. destruct w as [z|]; [|done]. cbn. destruct (Z.eqb_spec z (-1)) as [->|]; [done|]. by destruct z as [|?|[]]. Qed.

Lemma put_all_eq j db w :
  dbs s0 !! j = Some db -> a_dbs w.1.1 !! j = Some ∅ ->
  put_all j db (map_to_list (dict db)) w = (t_dbs w.1.1 (<[j := reload (default ∅ (a_dbs (abs None s0) !! j))]> (a_dbs w.1.1)), w.1.2, w.2).
Proof using idle_s0 snap_s0.
  intros Hj Hw. rewrite (put_all_fold _ _ _ _ ∅ Hw). do 4 f_equal. rewrite lookup_abs_db, Hj. cbn [fmap option_fmap option_map default from_option id]. apply map_eq. intros k. rewrite put_map_fold by apply NoDup_fst_map_to_list. rewrite list_to_map_to_list, lookup_empty.
  unfold reload. rewrite lookup_omap, lookup_db_kv. destruct (dict db !! k) as [a|] eqn:Hk; [|done]. destruct (entry_facts j db k a Hj Hk) as (o & Ho & _ & Hv & _). cbn. unfold value_at. rewrite Ho. cbn. rewrite Hv. fold (ex_of db k). destruct (dropped aof (ex_of db k)); [done|].
  unfold ex_of. by rewrite same_deadline_ex.
Qed.

Definition load_dbs (js : list nat) (w : view) : view :=
  foldl (fun w j => (t_dbs w.1.1 (<[j := reload (default ∅ (a_dbs (abs None s0) !! j))]> (a_dbs w.1.1)), w.1.2, w.2)) w js.

Lemma saves_dbs js d :
  (forall j, j ∈ js -> (j < length (dbs s0))%nat) -> NoDup js ->
  exists bs d', saves s0 (each js (save_db cs)) bs /\ runs bs (fun w => forall j, j ∈ js -> a_dbs w.1.1 !! j = Some ∅) d (-1) d' (-1) (load_dbs js).
Proof using ages idle_s0 snap_s0.
  revert d. induction js as [|j js IH]; intros d Hl Hn; [exists [], d; split; [apply saves_done|eapply runs_weaken; [apply runs_nil|done]]|]. apply NoDup_cons in Hn as [Hj Hn].
  destruct (lookup_lt_is_Some_2 (dbs s0) j) as [db Hdb]; [apply Hl; left|]. destruct (saves_db j db d Hdb) as (b1 & d1 & S1 & R1). destruct (IH d1) as (b2 & d2 & S2 & R2); [intros; apply Hl; by right|done|].
  exists (b1 ++ b2), d2. split; [by eapply saves_bind|]. eapply runs_weaken; [by eapply runs_app|]. intros w Hw. pose proof (Hw j ltac:(left)) as Hwj. cbv beta. rewrite (put_all_eq j db w Hdb Hwj). split; [|done]. split; [done|].
  intros i Hi. cbn. rewrite list_lookup_insert_ne by (intros ->; done). apply Hw. by right.
Qed.

Lemma load_dbs_rest js w : exists l, load_dbs js w = (t_dbs w.1.1 l, w.1.2, w.2).
Proof using Type.
  revert w. induction js as [|j js IH]; intros w; [exists (a_dbs w.1.1); by destruct w as [[[] ?] ?]|]. change (load_dbs (j :: js) w) with (load_dbs js (t_dbs w.1.1 (<[j := reload (default ∅ (a_dbs (abs None s0) !! j))]> (a_dbs w.1.1)), w.1.2, w.2)). destruct (IH (t_dbs w.1.1 (<[j:=reload (default ∅ (a_dbs (abs None s0) !! j))]> (a_dbs w.1.1)), w.1.2, w.2)) as [l ->]. by exists l.
Qed.

Lemma load_dbs_lookup js w i :
  NoDup js -> (forall j, j ∈ js -> (j < length (a_dbs w.1.1))%nat) ->
  a_dbs (load_dbs js w).1.1 !! i = if decide (i ∈ js) then Some (reload (default ∅ (a_dbs (abs None s0) !! i))) else a_dbs w.1.1 !! i.
Proof using Type.
  revert w. induction js as [|j js IH]; intros w Hn Hl; [by rewrite decide_False by apply not_elem_of_nil|]. apply NoDup_cons in Hn as [Hj Hn].
  change (load_dbs (j :: js) w) with (load_dbs js (t_dbs w.1.1 (<[j := reload (default ∅ (a_dbs (abs None s0) !! j))]> (a_dbs w.1.1)), w.1.2, w.2)). rewrite IH; [|done|intros i' Hi'; cbn; rewrite length_insert; apply Hl; by right]. cbn.
  destruct (decide (i ∈ js)) as [Hi|Hi]; [by rewrite decide_True by (by right)|]. destruct (decide (j = i)) as [<-|Hne].
  - rewrite decide_True by left. apply list_lookup_insert_eq. apply Hl. left.
  - rewrite list_lookup_insert_ne by done. rewrite decide_False; [done|]. intros [->|?]%elem_of_cons; done.
Qed.

Lemma load_all_dbs w :
  (length (dbs s0) <= length (a_dbs w.1.1))%nat ->
  load_dbs (seq 0 (length (dbs s0))) w = (t_dbs w.1.1 (map reload (a_dbs (abs None s0)) ++ drop (length (dbs s0)) (a_dbs w.1.1)), w.1.2, w.2).
Proof using Type.
  intros Hl. destruct (load_dbs_rest (seq 0 (length (dbs s0))) w) as [l E]. rewrite E. do 3 f_equal. apply list_eq. intros i. pose proof (load_dbs_lookup (seq 0 (length (dbs s0))) w i) as H. rewrite E in H. cbn [fst snd] in H. change (a_dbs (t_dbs w.1.1 l)) with l in H. rewrite H; [|apply NoDup_ListNoDup, seq_NoDup|intros j Hj%elem_of_seq; lia].
  assert (length (a_dbs (abs None s0)) = length (dbs s0)) as Hla by (cbn; apply length_map). change (map reload (a_dbs (abs None s0))) with (reload <$> a_dbs (abs None s0)). case_decide as Hi; rewrite elem_of_seq in Hi.
  - rewrite lookup_app_l by (rewrite length_fmap; cbn in *; lia). rewrite list_lookup_fmap. destruct (lookup_lt_is_Some_2 (a_dbs (abs None s0)) i) as [m Hm]; [lia|]. by rewrite Hm.
  - rewrite lookup_app_r by (rewrite length_fmap; cbn in *; lia). rewrite length_fmap, lookup_drop, Hla. f_equal. lia.
Qed.

(** ** Auxiliary fields *)

Lemma take_digits_all p : Forall (fun c => is_digit c = true) p -> take_digits p = (p, []).
Proof using Type. induction 1 as [|c p Hc _ IH]; [done|]. cbn. by rewrite Hc, IH. Qed.

Lemma strtoll_text v : in_s 64 v -> strtoll (ld_text v) = (v, []).
Proof using Type.
  intros Hv. pose proof (ld_text_canonical v Hv) as Hc. unfold strtoll.
  assert (forall n p, canonical_nat p n -> skip_spaces p = p /\ exists c p', p = c :: p' /\ 48 <= c <= 57 /\ take_digits p = (p, []) /\ dec_val p = n) as Hnat.
  { intros n p (Hne & Hd & Hval & _). destruct p as [|c p']; [done|]. pose proof Hd as Hd'. apply Forall_cons in Hd' as [Hc1 _]. apply is_digit_spec in Hc1. split; [cbn; unfold isspace; destruct (Z.eqb_spec c 32), (Z.leb_spec 9 c), (Z.leb_spec c 13); cbn; done || lia|].
    exists c, p'. split; [done|]. split; [done|]. split; [by apply take_digits_all|done]. }
  unfold canonical in Hc. unfold in_s in Hv. destruct (Z.ltb_spec v 0) as [Hneg|Hpos]; [destruct Hc as (p & Hs & Hp)|rename Hc into Hp].
  - destruct (Hnat _ _ Hp) as (_ & c & p' & Ep & Hc & Ht & Hval). rewrite Hs. cbn [skip_spaces]. change (isspace ch_minus) with false. cbv iota. change (ch_minus =? ch_minus) with true. cbn [orb]. rewrite Ht, Ep. f_equal. rewrite <- Ep, Hval. unfold LLONG_MIN. lia.
  - destruct (Hnat _ _ Hp) as (Hsk & c & p' & Ep & Hc & Ht & Hval). rewrite Ep in Hsk, Ht, Hval |- *. rewrite Hsk. unfold ch_minus. destruct (Z.eqb_spec c 45); [lia|]. destruct (Z.eqb_spec c 43); [lia|]. cbn [orb]. rewrite Ht. f_equal. rewrite Hval. unfold LLONG_MAX. lia.
Qed.

Lemma bytes_of_ok x : Forall byte_ok (bytes_of x).
Proof using Type. apply Forall_fmap, Forall_forall. intros a _. unfold byte_ok. cbn. pose proof (Ascii.nat_ascii_bounded a). lia. Qed.

Lemma ld_text_storable v : in_s 64 v -> storable (ld_text v).
Proof using Type.
  intros Hv. split; [|pose proof (ld_text_len v Hv); lia]. assert (forall n, Forall byte_ok (dec n)) as Hd.
  { intros n. eapply Forall_impl; [apply dec_digits_digits|]. cbn. intros c Hc%is_digit_spec. unfold byte_ok. lia. }
  unfold ld_text. destruct (v <? 0); [constructor; [unfold byte_ok; lia|apply Hd]|apply Hd].
Qed.

Definition on_info (g : option rdbSaveInfo -> option rdbSaveInfo) (w : view) : view := (w.1.1, g w.1.2, w.2).

Lemma saves_field (name : string) v g d :
  zlen (bytes_of name) < 2 ^ 32 -> storable v -> (forall t, aux_field cl (bytes_of name) v t = Done tt (set_rsi t (g (rsi t)))) ->
  exists bs, saves s0 (rdbSaveAuxField cs (bytes_of name) v) bs /\ runs bs (fun _ => True) d (-1) d (-1) (on_info g).
Proof using Type.
  intros Hn [Hv Hl] Hg. destruct (saves_raw (bytes_of name) (bytes_of_ok name) Hn) as (bk & Sk & Dk). destruct (saves_raw v Hv Hl) as (bv & Sv & Dv). exists ([RDB_OPCODE_AUX] ++ bk ++ bv). split.
  - eapply saves_bind; [apply saves_type|]. by eapply saves_bind.
  - apply (runs_aux d (-1) bk bv (bytes_of name) v _ (fun p => (g p.1, p.2))); [done|done|intros t _; by rewrite Hg|done].
Qed.

Lemma aux_ignored k v t :
  strcaseeq k "repl-stream-db" = false -> strcaseeq k "repl-id" = false -> strcaseeq k "repl-offset" = false -> strcaseeq k "lua" = false -> aux_field cl k v t = Done tt (set_rsi t (rsi t)).
Proof using Type. intros E1 E2 E3 E4. unfold aux_field, andthen, get_rsi, reading. rewrite E1, E2, E3, E4. destruct t. by destruct (bool_decide _). Qed.

(** The replication state, in the loader's structure. *)
Definition set_db (db : Z) (i : option rdbSaveInfo) : option rdbSaveInfo := (fun i => mk_rsi db (repl_id_is_set i) (repl_id i) (repl_offset i)) <$> i.
Definition set_id (id : list Z) (i : option rdbSaveInfo) : option rdbSaveInfo := (fun i => mk_rsi (repl_stream_db i) true id (repl_offset i)) <$> i.
Definition set_offset (off : Z) (i : option rdbSaveInfo) : option rdbSaveInfo := (fun i => mk_rsi (repl_stream_db i) (repl_id_is_set i) (repl_id i) off) <$> i.

Lemma aux_db v t : in_s 32 v -> aux_field cl (bytes_of "repl-stream-db") (ld_text v) t = Done tt (set_rsi t (set_db v (rsi t))).
Proof using Type.
  intros Hv. unfold aux_field, andthen, get_rsi, reading. change (bool_decide (head (bytes_of "repl-stream-db") = Some 37)) with false. change (strcaseeq (bytes_of "repl-stream-db") "repl-stream-db") with true. cbv iota.
  assert (atoi (ld_text v) = v) as -> by (unfold atoi; rewrite strtoll_text by (unfold in_s in *; lia); by apply swrap_small). by destruct t as [? ? [i|] ?].
Qed.

Lemma aux_id v t : zlen v = CONFIG_RUN_ID_SIZE -> aux_field cl (bytes_of "repl-id") v t = Done tt (set_rsi t (set_id v (rsi t))).
Proof using Type.
  intros Hv. unfold aux_field, andthen, get_rsi, reading. change (bool_decide (head (bytes_of "repl-id") = Some 37)) with false. change (strcaseeq (bytes_of "repl-id") "repl-stream-db") with false. change (strcaseeq (bytes_of "repl-id") "repl-id") with true. cbv iota.
  rewrite Hv. change (CONFIG_RUN_ID_SIZE =? CONFIG_RUN_ID_SIZE) with true. by destruct t as [? ? [i|] ?].
Qed.

Lemma aux_offset v t : in_s 64 v -> aux_field cl (bytes_of "repl-offset") (ld_text v) t = Done tt (set_rsi t (set_offset v (rsi t))).
Proof using Type.
  intros Hv. unfold aux_field, andthen, get_rsi, reading. change (bool_decide (head (bytes_of "repl-offset") = Some 37)) with false. change (strcaseeq (bytes_of "repl-offset") "repl-stream-db") with false. change (strcaseeq (bytes_of "repl-offset") "repl-id") with false.
  change (strcaseeq (bytes_of "repl-offset") "repl-offset") with true. cbv iota. rewrite strtoll_text by done. by destruct t as [? ? [i|] ?].
Qed.

Lemma saves_int (name : string) v g d :
  zlen (bytes_of name) < 2 ^ 32 -> in_s 64 v -> (forall t, aux_field cl (bytes_of name) (ld_text v) t = Done tt (set_rsi t (g (rsi t)))) ->
  exists bs, saves s0 (rdbSaveAuxFieldStrInt cs name v) bs /\ runs bs (fun _ => True) d (-1) d (-1) (on_info g).
Proof using Type.
  intros Hn Hv Hg. destruct (saves_field name (ld_text v) g d Hn (ld_text_storable v Hv) Hg) as (bs & S1 & R1). exists bs. split; [|done]. eapply saves_the; [apply ll_buf_ok; [done|by unfold LONG_STR_SIZE]|exact S1].
Qed.

Lemma saves_ignored (name : string) v d :
  zlen (bytes_of name) < 2 ^ 32 -> in_s 64 v -> strcaseeq (bytes_of name) "repl-stream-db" = false -> strcaseeq (bytes_of name) "repl-id" = false -> strcaseeq (bytes_of name) "repl-offset" = false -> strcaseeq (bytes_of name) "lua" = false ->
  exists bs, saves s0 (rdbSaveAuxFieldStrInt cs name v) bs /\ runs bs (fun _ => True) d (-1) d (-1) (on_info id).
Proof using Type. intros Hn Hv E1 E2 E3 E4. apply saves_int; [done|done|]. intros t. by apply aux_ignored. Qed.

(** What the writer's server must have for its own fields. *)
Record fields_ok : Prop := {
  fo_time : in_s 64 (time cs);
  fo_mem : in_s 64 (zmalloc_used_memory cs);
  fo_id : storable (replid cs) /\ zlen (replid cs) = CONFIG_RUN_ID_SIZE /\ up_to_nul (replid cs) = replid cs;
  fo_offset : in_s 64 (master_repl_offset cs);
}.

Definition saved_info (ri i : option rdbSaveInfo) : option rdbSaveInfo :=
  match ri, i with Some ri, Some _ => Some (mk_rsi (repl_stream_db ri) true (replid cs) (master_repl_offset cs)) | _, _ => i end.

Lemma saves_info pre ri d :
  fields_ok -> (forall i, ri = Some i -> in_s 32 (repl_stream_db i)) ->
  exists bs, saves s0 (rdbSaveInfoAuxFields cs pre ri) bs /\ runs bs (fun _ => True) d (-1) d (-1) (on_info (saved_info ri)).
Proof using Type.
  intros [F1 F2 (F3 & F4 & F5) F6] Hri. unfold rdbSaveInfoAuxFields.
  destruct (saves_field "redis-ver" (bytes_of REDIS_VERSION) id d) as (b1 & S1 & R1); [done|split; [apply bytes_of_ok|done]|intros t; by apply aux_ignored|].
  destruct (saves_ignored "redis-bits" 64 d) as (b2 & S2 & R2); [done|unfold in_s; lia|done..|]. destruct (saves_ignored "ctime" (time cs) d) as (b3 & S3 & R3); [done..|]. destruct (saves_ignored "used-mem" (zmalloc_used_memory cs) d) as (b4 & S4 & R4); [done..|].
  destruct (saves_ignored "aof-preamble" (if pre then 1 else 0) d) as (b6 & S6 & R6); [done|destruct pre; unfold in_s; lia|done..|].
  assert (exists bs, saves s0 (match ri with Some i => rdbSaveAuxFieldStrInt cs "repl-stream-db" (repl_stream_db i);; rdbSaveAuxFieldStrStr cs "repl-id" (replid cs);; rdbSaveAuxFieldStrInt cs "repl-offset" (master_repl_offset cs) | None => done tt end) bs /\
    runs bs (fun _ => True) d (-1) d (-1) (on_info (saved_info ri))) as (b5 & S5 & R5).
  { destruct ri as [i|]; [|exists []; split; [apply saves_done|eapply runs_weaken; [apply runs_nil|by intros [[] ?]]]]. pose proof (Hri i eq_refl) as Hi.
    destruct (saves_int "repl-stream-db" (repl_stream_db i) (set_db (repl_stream_db i)) d) as (c1 & T1 & Q1); [done|unfold in_s in *; lia|intros t; by apply aux_db|].
    destruct (saves_field "repl-id" (replid cs) (set_id (replid cs)) d) as (c2 & T2 & Q2); [done|done|intros t; by apply aux_id|].
    destruct (saves_int "repl-offset" (master_repl_offset cs) (set_offset (master_repl_offset cs)) d) as (c3 & T3 & Q3); [done|done|intros t; by apply aux_offset|].
    exists (c1 ++ c2 ++ c3). split; [eapply saves_bind; [exact T1|]; eapply saves_bind; [unfold rdbSaveAuxFieldStrStr; rewrite F5; exact T2|exact T3]|].
    eapply runs_weaken; [eapply runs_app; [exact Q1|]; eapply runs_app; [exact Q2|exact Q3]|]. intros [[a [j|]] l] _; done. }
  exists (b1 ++ b2 ++ b3 ++ b4 ++ b5 ++ b6). split.
  - eapply saves_bind; [unfold rdbSaveAuxFieldStrStr; change (up_to_nul (bytes_of REDIS_VERSION)) with (bytes_of REDIS_VERSION); exact S1|]. do 4 (eapply saves_bind; [eassumption|]). exact S6.
  - eapply runs_weaken; [eapply runs_app; [exact R1|]; eapply runs_app; [exact R2|]; eapply runs_app; [exact R3|]; eapply runs_app; [exact R4|]; eapply runs_app; [exact R5|exact R6]|]. by intros [[a i] l] _.
Qed.

(** ** Scripts *)

Definition add_script (l : list (list Z)) (body : list Z) : list (list Z) := if bool_decide (body ∈ l) then l else l ++ [body].

Lemma saves_script body d :
  storable body -> lua_compiles cl body = true ->
  exists bs, saves s0 (rdbSaveAuxField cs (bytes_of "lua") body) bs /\ runs bs (fun _ => True) d (-1) d (-1) (fun w => (w.1, add_script w.2 body)).
Proof using Type.
  intros [Hb Hl] Hc. destruct (saves_raw (bytes_of "lua") (bytes_of_ok "lua")) as (bk & Sk & Dk); [done|]. destruct (saves_raw body Hb Hl) as (bv & Sv & Dv). exists ([RDB_OPCODE_AUX] ++ bk ++ bv). split.
  - eapply saves_bind; [apply saves_type|]. by eapply saves_bind.
  - eapply runs_weaken; [apply (runs_aux d (-1) bk bv (bytes_of "lua") body (fun _ => True) (fun p => (p.1, add_script p.2 body))); [done|done| |done]|by intros [[] ?] _].
    intros t _. unfold aux_field, andthen, get_rsi, reading. change (bool_decide (head (bytes_of "lua") = Some 37)) with false. change (strcaseeq (bytes_of "lua") "repl-stream-db") with false. change (strcaseeq (bytes_of "lua") "repl-id") with false.
    change (strcaseeq (bytes_of "lua") "repl-offset") with false. change (strcaseeq (bytes_of "lua") "lua") with true. cbv iota. unfold luaCreateFunction, andthen, reading, add_script. cbn. destruct (bool_decide (body ∈ lua_scripts t)); [by destruct t|]. rewrite Hc. by destruct t.
Qed.

Lemma saves_scripts l d :
  Forall storable l -> Forall (fun b => lua_compiles cl b = true) l ->
  exists bs, saves s0 (each l (rdbSaveAuxField cs (bytes_of "lua"))) bs /\ runs bs (fun _ => True) d (-1) d (-1) (fun w => (w.1, foldl add_script w.2 l)).
Proof using Type.
  intros Hs Hc. induction l as [|b l IH]; [exists []; split; [apply saves_done|eapply runs_weaken; [apply runs_nil|by intros []]]|]. apply Forall_cons in Hs as [Hb Hs], Hc as [Hcb Hc].
  destruct (IH Hs Hc) as (b2 & S2 & R2). destruct (saves_script b d Hb Hcb) as (b1 & S1 & R1). exists (b1 ++ b2). split; [by eapply saves_bind|]. eapply runs_weaken; [by eapply runs_app|]. done.
Qed.

(** ** The whole snapshot *)

(** A writer from a given state. *)
Definition saves_at {A} (t : state) (m : R A) (x : A) (bs : list Z) : Prop := m t = if fits (io t) bs then Done x (set_io t (wrote (io t) bs)) else Failed.

Lemma saves_at_bind {A B} t (m : R A) k x (y : B) a b :
  saves_as (srv t) m x a -> stream_ok (io t) -> (fits (io t) a = true -> saves_at (set_io t (wrote (io t) a)) (k x) y b) -> saves_at t (z <- m; k z) y (a ++ b).
Proof using Type.
  intros Hm Ht Hk. unfold saves_at, andthen. rewrite Hm, fits_app by done. destruct (fits (io t) a) eqn:F; [|done]. cbn [andb]. rewrite Hk by done. cbn. by rewrite wrote_app.
Qed.

Lemma saves_at_gets {A B} t (f : server -> A) k (y : B) bs : saves_at t (k (f (srv t))) y bs -> saves_at t (z <- serve (gets f); k z) y bs.
Proof using Type. intros H. unfold saves_at. rewrite (serve_run _ _ t (f (srv t)) (srv t)) by done. by destruct t. Qed.

Lemma saves_at_reading {A B} t (f : state -> A) k (y : B) bs : saves_at t (k (f t)) y bs -> saves_at t (z <- reading f; k z) y bs.
Proof using Type. done. Qed.

(** A stream as it is opened. *)
Definition new_stream (r : rio) : Prop := stream_ok r /\ update_cksum r = false /\ cksum r = 0.

(** The sum that is written: 0 when checksums are off. *)
Definition final_sum (body : list Z) : Z := if rdb_checksum cs then crc64 0 body else 0.
Definition with_sum (body : list Z) : list Z := body ++ le_bytes 8 (final_sum body).

Definition load_effect (ri : option rdbSaveInfo) (scripts : list (list Z)) (w : view) : view :=
  (t_dbs w.1.1 (map reload (a_dbs (abs None s0)) ++ drop (length (dbs s0)) (a_dbs w.1.1)), saved_info ri w.1.2, match ri with Some _ => foldl add_script w.2 scripts | None => w.2 end).

Lemma snapshot_saved pre ri t d :
  srv t = s0 -> new_stream (io t) -> fields_ok -> (forall i, ri = Some i -> in_s 32 (repl_stream_db i)) ->
  (ri <> None -> Forall storable (lua_scripts t) /\ Forall (fun b => lua_compiles cl b = true) (lua_scripts t)) ->
  exists body d',
    runs body (fun w => (length (dbs s0) <= length (a_dbs w.1.1))%nat /\ forall j, (j < length (dbs s0))%nat -> a_dbs w.1.1 !! j = Some ∅) d (-1) d' (-1) (load_effect ri (lua_scripts t)) /\
    rdbSaveRio cs pre ri t = (let r := mk_rio (inp (io t)) (outp (io t)) (room (io t)) (rdb_checksum cs) 0 (max_processing_chunk (io t)) in
                              let bs := with_sum (magic ++ body ++ [RDB_OPCODE_EOF]) in if fits r bs then Done tt (set_io t (wrote r bs)) else Failed).
Proof using ages idle_s0 snap_s0.
  intros Hs (Ht & Hu & Hc) Hf Hri Hsc. destruct (saves_info pre ri d Hf Hri) as (b1 & S1 & R1). destruct (saves_dbs (seq 0 (length (dbs s0))) d) as (b2 & d' & S2 & R2); [intros j Hj%elem_of_seq; lia|apply NoDup_ListNoDup, seq_NoDup|].
  assert (exists bs, saves s0 (if bool_decide (is_Some ri) && negb (zlen (lua_scripts t) =? 0) then each (lua_scripts t) (rdbSaveAuxField cs (bytes_of "lua")) else done tt) bs /\
    runs bs (fun _ => True) d' (-1) d' (-1) (fun w => (w.1, match ri with Some _ => foldl add_script w.2 (lua_scripts t) | None => w.2 end))) as (b3 & S3 & R3).
  { destruct ri as [i|]; [|rewrite bool_decide_eq_false_2 by (by intros []); exists []; split; [apply saves_done|eapply runs_weaken; [apply runs_nil|by intros [] _]]].
    rewrite bool_decide_eq_true_2 by (by eexists). destruct Hsc as [Hst Hcm]; [done|]. destruct (Z.eqb_spec (zlen (lua_scripts t)) 0) as [E|E]; cbn [andb negb]; [|by apply saves_scripts].
    exists []. split; [apply saves_done|]. destruct (lua_scripts t); [|rewrite zlen_cons in E; pose proof (zlen_nonneg l0); lia]. eapply runs_weaken; [apply runs_nil|by intros [] _]. }
  exists (b1 ++ b2 ++ b3), d'. split.
  - eapply runs_weaken; [eapply runs_app; [exact R1|]; eapply runs_app; [exact R2|exact R3]|]. intros [[a i] l] [Hl He]. cbn in Hl, He. split; [split; [done|]; split; [intros j Hj%elem_of_seq; apply He; lia|done]|].
    rewrite load_all_dbs by exact Hl. done.
  - unfold rdbSaveRio, andthen at 1, on_io. set (t1 := set_io t _). assert (io t1 = mk_rio (inp (io t)) (outp (io t)) (room (io t)) (rdb_checksum cs) 0 (max_processing_chunk (io t))) as Hio by (unfold t1; cbn; rewrite Hu, Hc; by destruct (rdb_checksum cs)).
    assert (srv t1 = s0) as Hs1 by exact Hs. assert (lua_scripts t1 = lua_scripts t) as Hl1 by done. assert (stream_ok (io t1)) as Ht1 by (rewrite Hio; exact Ht).
    assert (set_io t (wrote (io t1) (with_sum (magic ++ (b1 ++ b2 ++ b3) ++ [RDB_OPCODE_EOF]))) = set_io t1 (wrote (io t1) (with_sum (magic ++ (b1 ++ b2 ++ b3) ++ [RDB_OPCODE_EOF])))) as Et by done.
    cbv zeta. rewrite <- Hio, Et. clear Et. unfold with_sum. rewrite <- !app_assoc. clearbody t1.
    apply (saves_at_bind _ _ _ tt); [apply saves_write|done|]. intros F1. set (t2 := set_io t1 _).
    apply (saves_at_bind _ _ _ tt); [subst t2; cbn; rewrite Hs1; exact S1|by apply wrote_ok|]. intros F2. set (t3 := set_io t2 _). assert (stream_ok (io t3)) as Ht3 by (apply wrote_ok; [by apply wrote_ok|done]).
    apply saves_at_gets. change (srv t3) with (srv t1). rewrite Hs1. apply (saves_at_bind _ _ _ tt); [change (srv t3) with (srv t1); rewrite Hs1; exact S2|done|]. intros F3. set (t4 := set_io t3 _). assert (stream_ok (io t4)) as Ht4 by (by apply wrote_ok).
    apply saves_at_reading. change (lua_scripts t4) with (lua_scripts t1). rewrite Hl1. apply (saves_at_bind _ _ _ tt); [change (srv t4) with (srv t1); rewrite Hs1; exact S3|done|]. intros F4. set (t5 := set_io t4 _). assert (stream_ok (io t5)) as Ht5 by (by apply wrote_ok).
    apply (saves_at_bind _ _ _ tt); [apply saves_type|done|]. intros F5. set (t6 := set_io t5 _). assert (stream_ok (io t6)) as Ht6 by (by apply wrote_ok). apply saves_at_reading.
    assert (cksum (io t6) = final_sum (magic ++ b1 ++ b2 ++ b3 ++ [RDB_OPCODE_EOF])) as ->.
    { unfold t6, t5, t4, t3, t2. cbn [io set_io]. rewrite !wrote_app, <- ?app_assoc. cbn [cksum wrote]. unfold sum_on, final_sum. rewrite Hio. by destruct (rdb_checksum cs). }
    pose proof (memrevifbe_native (host cs) 8 (final_sum (magic ++ b1 ++ b2 ++ b3 ++ [RDB_OPCODE_EOF])) ltac:(by right; right)) as E8. change (memrevifbe (host cs) 8) with (memrev64ifbe (host cs)) in E8.
    unfold saves_at, andthen, the. rewrite E8. by apply (saves_write (srv t6)).
Qed.

Lemma snapshot_loaded body d' P f u rest :
  runs body P 0 (-1) d' (-1) f -> 0 <= loading_process_events_interval_bytes cl ->
  new_stream (io u) -> inp (io u) = with_sum (magic ++ body ++ [RDB_OPCODE_EOF]) ++ rest -> idle (srv u) -> P (view_of u) ->
  exists u', rdbLoadRio cl aof u = Done C_OK u' /\ idle (srv u') /\ inp (io u') = rest /\ view_of u' = f (view_of u).
Proof using Type.
  intros Hr Hiv ([_ Hroom] & _ & Hc) Hi Hs HP. unfold with_sum in Hi. rewrite <- !app_assoc in Hi. set (sum := le_bytes 8 (final_sum (magic ++ body ++ [RDB_OPCODE_EOF]))) in *. unfold rdbLoadRio, andthen at 1, on_io. set (u1 := set_io u _).
  assert (stream_ok (io u1)) as Hu1 by (split; [exact Hiv|exact Hroom]). change 9 with (zlen magic) at 1. unfold andthen at 1. rewrite (reads_or_exit _ _ _ (reads_read magic) u1 (body ++ [RDB_OPCODE_EOF] ++ sum ++ rest) Hu1 Hi). set (u2 := set_io u1 _).
  change (bool_decide (take 5 magic = bytes_of "REDIS")) with true. cbn [negb]. change (atoi (drop 5 magic)) with RDB_VERSION. change ((RDB_VERSION <? 1) || (RDB_VERSION >? RDB_VERSION)) with false. cbv iota.
  unfold andthen at 1, reading at 1. destruct (Hr u2 ([RDB_OPCODE_EOF] ++ sum ++ rest) Hu1 eq_refl Hs HP) as (n & u3 & Hn & E & Hio & Hs3 & Hv).
  assert (length (inp (io u2)) = n + S (length (inp (io u2)) - n - 1))%nat as -> by (cbn; rewrite length_app; cbn; lia). unfold andthen at 1. rewrite E.
  assert (stream_ok (io u3)) as Hu3 by (rewrite Hio; exact Hu1). assert (inp (io u3) = [RDB_OPCODE_EOF] ++ sum ++ rest) as Hi3 by (by rewrite Hio). pose proof (reads_type RDB_OPCODE_EOF u3 (sum ++ rest) Hu3 Hi3) as E4. round E4. unfold done at 1. set (u4 := set_io u3 _).
  change (RDB_VERSION >=? 5) with true. cbv iota. unfold andthen at 1, reading at 1. change (rioRead 8) with (rioRead (zlen sum)). unfold andthen at 1. rewrite (reads_or_exit _ _ _ (reads_read sum) u4 rest Hu3 eq_refl). set (u5 := set_io u4 _).
  assert (rdb_checksum cl = true -> cksum (io u4) = crc64 0 (magic ++ body ++ [RDB_OPCODE_EOF])) as Hsum.
  { intros Hcl. unfold u4. cbn [io set_io]. rewrite Hio. unfold u2, u1. cbn [io set_io]. rewrite !ate_app, <- ?app_assoc. cbn [cksum ate]. unfold sum_on. cbn. by rewrite Hcl, Hc. }
  exists u5. split; [|split; [exact Hs3|split; [done|exact Hv]]]. destruct (rdb_checksum cl) eqn:Hcl; [|done].
  pose proof (memrevifbe_le (host cl) 8 (final_sum (magic ++ body ++ [RDB_OPCODE_EOF])) ltac:(by right; right)) as E8. change (memrevifbe (host cl) 8) with (memrev64ifbe (host cl)) in E8. fold sum in E8. unfold andthen, the. rewrite E8.
  assert (in_u 64 (final_sum (magic ++ body ++ [RDB_OPCODE_EOF]))) as Hin by (unfold final_sum; destruct (rdb_checksum cs); [apply crc64_range|]; unfold in_u; lia).
  rewrite native_val_bytes. change (2 ^ (8 * Z.of_nat 8)) with (2 ^ 64). rewrite Z.mod_small by exact Hin. destruct (Z.eqb_spec (final_sum (magic ++ body ++ [RDB_OPCODE_EOF])) 0) as [E0|E0]; [done|].
  rewrite Hsum by done. unfold final_sum in *. destruct (rdb_checksum cs); [|done]. by rewrite Z.eqb_refl.
Qed.

End Both.

#[export] Instance entry_ok_dec k x : Decision (entry_ok k x).
Proof. unfold entry_ok, storable, in_s. destruct x as [[v|t v] [w|]]; cbn; apply _. Defined.

#[export] Instance snapshotable_dec l : Decision (snapshotable l).
Proof. unfold snapshotable. apply _. Defined.

(** ** Theorems *)


(** ** Example *)

Definition writer : conf := mk_conf LITTLE_ENDIAN (at_time 140) true true 2097152 true false (fun _ => 7000) (fun _ => 0) 140 1000000 (bytes_of "0123456789abcdef0123456789abcdef01234567") 77 (fun _ => false) (fun _ => 5) (fun _ => 170).
Definition reader : conf := mk_conf BIG_ENDIAN (at_time 160) false true 16 false true (fun _ => 0) (fun _ => 0) 160 1000000 [] 0 (fun b => bool_decide (b = bytes_of "return 1")) (fun _ => 0) (fun _ => 0).
Definition fill : list event :=
  [joins 90 1; ask 100 1 ["SET"; "n"; "-123456"]; ask 101 1 ["SET"; "m"; "x"; "PX"; "50"]; ask 102 1 ["SET"; "long"; "abcabcabcabcabcabcabcabcabcabcabcabcabcabcabc"]; ask 103 1 ["SET"; "later"; "y"; "PX"; "500"]; ask 104 1 ["SELECT"; "1"]; ask 105 1 ["SET"; "n"; "second"]].
Definition on_stream (r : rio) (s : server) (i : option rdbSaveInfo) (l : list (list Z)) : state := mk_st r s i l.


(** ** The checksum protects the whole file *)

(** Whatever a reader does, the sum covers exactly the bytes it has taken. *)
Definition tracks {A} (m : R A) : Prop :=
  forall t x t', m t = Done x t' -> exists bs, inp (io t) = bs ++ inp (io t') /\ io t' = ate (io t) bs (inp (io t')).

Lemma ate_nil r : r = ate r [] (inp r).
Proof. unfold ate. rewrite sum_on_nil. by destruct r. Qed.

Lemma tracks_same {A} (m : R A) : (forall t x t', m t = Done x t' -> io t' = io t) -> tracks m.
Proof. intros H t x t' E. exists []. rewrite (H t x t' E). split; [done|apply ate_nil]. Qed.

Lemma tracks_done {A} (x : A) : tracks (done x).
Proof. apply tracks_same. by intros t y t' [= <- <-]. Qed.

Lemma tracks_exits {A} : tracks (@exits A).
Proof. done. Qed.

Lemma tracks_failed {A} : tracks (@failed A).
Proof. done. Qed.

Lemma tracks_stuck {A} : tracks (@stuck A).
Proof. done. Qed.

Lemma tracks_the {A} (o : option A) : tracks (the o).
Proof. apply tracks_same. intros t x t'. unfold the. destruct o; [|done]. by intros [= <- <-]. Qed.

Lemma tracks_serve {A} (m : M A) : tracks (serve m).
Proof. apply tracks_same. intros t x t'. unfold serve. destruct (m (srv t)) as [[y s]|]; [|done]. by intros [= <- <-]. Qed.

Lemma tracks_reading {A} (f : state -> A) : tracks (reading f).
Proof. apply tracks_same. by intros t y t' [= <- <-]. Qed.

Lemma tracks_put i : tracks (put_rsi i).
Proof. apply tracks_same. by intros t y t' [= <- <-]. Qed.

Lemma tracks_bind {A B} (m : R A) (k : A -> R B) : tracks m -> (forall x, tracks (k x)) -> tracks (y <- m; k y).
Proof.
  intros Hm Hk t y t' E. unfold andthen in E. destruct (m t) as [x t1| | |] eqn:E1; [|done..]. destruct (Hm t x t1 E1) as (a & Ha & Hio). destruct (Hk x t1 y t' E) as (b & Hb & Hio').
  exists (a ++ b). split; [by rewrite Ha, Hb, app_assoc|]. by rewrite Hio', Hio, ate_app.
Qed.

Lemma tracks_or_exit {A} (m : R A) : tracks m -> tracks (or_exit m).
Proof. intros H t x t' E. apply H with x. unfold or_exit in E. by destruct (m t). Qed.

Lemma rio_read_tracks fuel r len buf r' : rio_read_loop fuel r len = Some (buf, r') -> inp r = buf ++ inp r' /\ r' = ate r buf (inp r').
Proof.
  revert r len buf r'. induction fuel as [|fuel IH]; intros r len buf r'; cbn [rio_read_loop]; destruct (len =? 0); [intros [= <- <-]; split; [done|apply ate_nil]|done|intros [= <- <-]; split; [done|apply ate_nil]|].
  unfold backend_read. destruct (zlen (inp r) <? chunk r len); [done|]. cbn [mbind option_bind]. set (n := Z.to_nat (chunk r len)). set (r1 := mk_rio _ _ _ _ _ _). set (r2 := with_cksum r1 (take n (inp r))).
  assert (r2 = ate r (take n (inp r)) (drop n (inp r))) as E2 by (unfold r2, with_cksum, rioGenericUpdateChecksum, ate, sum_on; cbn; by destruct (update_cksum r)).
  destruct (rio_read_loop fuel r2 (len - chunk r len)) as [[rest r3]|] eqn:E3; [|done]. cbn. intros [= <- <-]. destruct (IH _ _ _ _ E3) as [H1 H2]. rewrite E2 in H1, H2. cbn in H1. split; [by rewrite <- app_assoc, <- H1, take_drop|]. rewrite H2 at 1. by rewrite ate_app.
Qed.

Lemma tracks_read n : tracks (rioRead n).
Proof. intros t x t' E. unfold rioRead in E. destruct (rio_read_loop _ _ _) as [[buf r]|] eqn:E1; [|done]. injection E as <- <-. exists buf. exact (rio_read_tracks _ _ _ _ _ E1). Qed.

Create HintDb tracking.
#[local] Hint Resolve tracks_done tracks_exits tracks_failed tracks_stuck tracks_the tracks_serve tracks_reading tracks_put tracks_or_exit tracks_read : tracking.
#[local] Ltac tracked := repeat first [solve [auto with tracking] | apply tracks_bind; [|intros ?] | apply tracks_or_exit | case_match].

Lemma tracks_len cf : tracks (rdbLoadLen cf).
Proof. unfold rdbLoadLen, rdbLoadLenByRef. tracked. Qed.
#[local] Hint Resolve tracks_len : tracking.

Lemma tracks_string cf fl : tracks (rdbGenericLoadStringObject cf fl).
Proof. unfold rdbGenericLoadStringObject, rdbLoadIntegerObject, load_integer, rdbLoadLzfStringObject, new_object. tracked. Qed.
#[local] Hint Resolve tracks_string : tracking.

Lemma tracks_aux cf : tracks (load_aux cf).
Proof.
  unfold load_aux, rdbLoadStringObject, as_object, aux_field, get_rsi, luaCreateFunction. tracked; apply tracks_same; by intros t y t' [= <- <-].
Qed.

Lemma tracks_key cf aof now ty d ex : tracks (load_key cf aof now ty d ex).
Proof. unfold load_key, rdbLoadStringObject, rdbLoadObject, rdbLoadEncodedStringObject, as_object. tracked. Qed.
#[local] Hint Resolve tracks_aux tracks_key : tracking.

Lemma tracks_loop cf fuel aof now ver d ex : tracks (load_loop cf fuel aof now ver d ex).
Proof. revert d ex. induction fuel as [|fuel IH]; intros d ex; cbn [load_loop]; [apply tracks_stuck|]. unfold rdbLoadType, rdbLoadTime, rdbLoadMillisecondTime, rdbLoadRaw. tracked. Qed.

Lemma rio_read_len fuel r len buf r' : 0 <= max_processing_chunk r -> 0 <= len -> rio_read_loop fuel r len = Some (buf, r') -> zlen buf = len.
Proof.
  revert r len buf r'. induction fuel as [|fuel IH]; intros r len buf r' Hc Hl; cbn [rio_read_loop]; destruct (Z.eqb_spec len 0) as [->|Hne]; [by intros [= <- <-]|done|by intros [= <- <-]|].
  destruct (chunk_bounds r len Hc ltac:(lia)) as [H1 H2]. unfold backend_read. destruct (Z.ltb_spec (zlen (inp r)) (chunk r len)); [done|]. cbn [mbind option_bind]. destruct (rio_read_loop _ _ _) as [[rest r3]|] eqn:E3; [|done]. cbn. intros [= <- <-].
  rewrite zlen_app, zlen_take. apply IH in E3; [lia| |lia]. unfold with_cksum. cbn. by destruct (update_cksum r).
Qed.

Lemma rioRead_len n t buf t' : stream_ok (io t) -> 0 <= n -> or_exit (rioRead n) t = Done buf t' -> zlen buf = n.
Proof.
  intros Ht Hn E. unfold or_exit, rioRead in E. destruct (rio_read_loop _ _ _) as [[b r]|] eqn:E1; [|done]. injection E as <- _. eapply rio_read_len; [|done|exact E1]. apply Ht.
Qed.

Lemma le_of_file h buf buf' : zlen buf = 8 -> memrev64ifbe h buf = Some buf' -> native_val h buf' = le_val buf.
Proof.
  intros Hl E. pose proof (memrevifbe_app h 8 buf [] ltac:(by right; right)) as H. rewrite !app_nil_r in H. change (memrevifbe h 8) with (memrev64ifbe h) in H. rewrite H in E by (unfold zlen in Hl; lia). injection E as <-. destruct h; cbn; by rewrite ?reverse_involutive.
Qed.

(** C40 A damaged snapshot is not accepted.  Whatever the bytes of the file are, if
    a server that checks sums reports that it has loaded them, and their version
    is one that has a checksum, then the eight bytes after the last one it
    interpreted are the checksum of everything before them, or 0, the mark of
    a file that was saved without one.  (Versions 1 to 4 have no checksum.  The
    model loads string values only, so a file with other values is not reported
    as loaded.) *)
Theorem snapshot_checked (cl : conf) (aof : bool) (u u' : state) :
  new_stream (io u) -> rdb_checksum cl = true -> 0 <= loading_process_events_interval_bytes cl -> 5 <= atoi (drop 5 (take 9 (inp (io u)))) -> rdbLoadRio cl aof u = Done C_OK u' ->
  exists body sum, inp (io u) = body ++ sum ++ inp (io u') /\ zlen sum = 8 /\ (le_val sum = crc64 0 body \/ le_val sum = 0).
Proof.
  intros ([_ Hroom] & Hu & Hc) Hck Hiv Hver E. unfold rdbLoadRio, andthen at 1, on_io in E. set (u1 := set_io u _) in E. assert (stream_ok (io u1)) as H1 by (split; [exact Hiv|exact Hroom]).
  unfold andthen at 1 in E. destruct (or_exit (rioRead 9) u1) as [magic u2| | |] eqn:E2; [|done..]. pose proof (rioRead_len 9 u1 magic u2 H1 ltac:(lia) E2) as Hl9. destruct (tracks_or_exit _ (tracks_read 9) u1 magic u2 E2) as (b1 & Hb1 & Hio2).
  assert (magic = take 9 (inp (io u))) as Hm. { unfold or_exit, rioRead in E2. destruct (rio_read_loop _ _ _) as [[b r]|] eqn:El; [|done]. injection E2 as -> _. apply rio_read_tracks in El as [El _]. change (inp (io u1)) with (inp (io u)) in El. rewrite El, take_app_length'; [done|unfold zlen in Hl9; lia]. }
  destruct (negb _); [done|]. rewrite Hm in E. destruct ((_ <? 1) || _); [done|]. unfold andthen at 1, reading at 1 in E. unfold andthen at 1 in E. destruct (load_loop _ _ _ _ _ _ _ u2) as [[] u3| | |] eqn:E3; [|done..]. destruct (tracks_loop _ _ _ _ _ _ _ _ _ _ E3) as (b2 & Hb2 & Hio3).
  destruct (Z.geb_spec (atoi (drop 5 (take 9 (inp (io u))))) 5); [|lia]. unfold andthen at 1, reading at 1 in E. unfold andthen at 1 in E. destruct (or_exit (rioRead 8) u3) as [sum u4| | |] eqn:E4; [|done..].
  assert (stream_ok (io u3)) as H3 by (rewrite Hio3, Hio2; exact H1). pose proof (rioRead_len 8 u3 sum u4 H3 ltac:(lia) E4) as Hl8. rewrite Hck in E. unfold andthen, the in E. destruct (memrev64ifbe (host cl) sum) as [buf|] eqn:Em; [|done]. pose proof (le_of_file _ _ _ Hl8 Em) as Hval. rewrite Hval in E.
  assert (inp (io u3) = sum ++ inp (io u4)) as Hs4. { unfold or_exit, rioRead in E4. destruct (rio_read_loop _ _ _) as [[b r]|] eqn:El; [|done]. injection E4 as -> <-. by apply rio_read_tracks in El as [El _]. }
  assert (cksum (io u3) = crc64 0 (b1 ++ b2)) as Hsum by (rewrite Hio3, Hio2, ate_app; cbn; unfold sum_on; cbn; by rewrite Hck, Hc).
  assert (inp (io u) = (b1 ++ b2) ++ sum ++ inp (io u4)) as Hall by (change (inp (io u)) with (inp (io u1)); by rewrite Hb1, Hb2, Hs4, app_assoc).
  exists (b1 ++ b2), sum. destruct (Z.eqb_spec (le_val sum) 0) as [E0|E0]; [injection E as <-; split; [done|]; split; [done|by right]|]. destruct (Z.eqb_spec (le_val sum) (cksum (io u3))) as [Es|Es]; [|done]. injection E as <-. split; [done|]. split; [done|]. left. by rewrite Es.
Qed.

(** One key, [k], with the value [v]. *)
Definition small_file : list Z := magic ++ [RDB_TYPE_STRING; 1; 107; 1; 118; RDB_OPCODE_EOF].
Definition small_server : server := mk_server (mk_heap ∅ 0) [mk_db ∅ ∅ ∅] ∅ 0 GET [] 0 [].
Definition small_state : state := on_stream (rioInitWithBuffer (small_file ++ le_bytes 8 (crc64 0 small_file) ++ [1; 2; 3])) small_server None [].

Lemma snapshot_checked_witness :
  exists u', rdbLoadRio reader false small_state = Done C_OK u' /\ stored (srv u') 0 [107] = Some (VString [118], None) /\
    exists body sum, inp (io small_state) = body ++ sum ++ inp (io u') /\ zlen sum = 8 /\ (le_val sum = crc64 0 body \/ le_val sum = 0).
Proof.
  destruct (rdbLoadRio reader false small_state) as [[] u'| | |] eqn:E; [|vm_compute in E; discriminate E..]. exists u'. split; [reflexivity|]. split.
  - assert (Done C_OK u' = rdbLoadRio reader false small_state) as E' by (by rewrite E). vm_compute in E'. injection E' as ->. reflexivity.
  - apply (snapshot_checked reader false small_state u'); [repeat split; cbn; lia|reflexivity|cbn; lia|vm_compute; discriminate|exact E].
Defined.

(** One bit of the file changed. *)
Example snapshot_damaged :
  rdbLoadRio reader false (on_stream (rioInitWithBuffer (<[13%nat := 119]> (small_file ++ le_bytes 8 (crc64 0 small_file)))) small_server None []) = Exited.
Proof. vm_compute. reflexivity. Qed.
